(* ===== verification/_CoqProject ===== *)
-Q . S2P
Prelude.v
Endian.v
Buffer.v
Channel.v
Poller.v
EPollPoller.v
PollPoller.v
EventLoop.v
Format.v
Timestamp.v
TimeText.v
TimerQueue.v
EventLoopThread.v
TcpConnection.v
Atomic.v
FileUtil.v
ConnSpec.v
Framing.v
OneShot.v
Crowd.v
EchoServers.v
PingPong.v
FileTransfer.v
Chargen.v
Finger.v
RoundTrip.v
Sockets.v
Acceptor.v
Connector.v
TcpServer.v
TcpClient.v
Http.v
Inspector.v
ShortUrl.v
LengthHeaderCodec.v
Chat.v
ChatEfficient.v
ChatHighPerformance.v
CodecLoop.v
IdleWheel.v
IdleList.v
RpcCodec.v
ProtobufCodec.v
FastCgi.v
RpcChannel.v
WordCount.v
Tunnel.v
TcpRelay.v
Socks4a.v
Multiplexer.v
MuxDemux.v
SimpleMux.v
DancingLinks.v
Sudoku.v
SudokuServer.v
PubSub.v
LogStream.v
LogFile.v
Logging.v
AsyncLogging.v
Mutex.v
Monitor.v
Queues.v
ThreadPool.v
SudokuPool.v
