(* ===== verification/Prelude.v ===== *)
(** * A verification development for muduo

    muduo is a C++ network library for Linux built on the reactor pattern: one
    event loop per thread, non-blocking sockets, callbacks; on top of it, an
    HTTP server, remote procedure calls, a multithreaded log library and example
    servers.  This library is a shallow embedding of that code with theorems
    about it.  Paths below are relative to [src/muduo/].

    ** How the program fits together

    An [EventLoop] asks its [Poller] ([EPollPoller] or [PollPoller]) which
    descriptors are ready, hands each [Channel] its events, and then runs the
    closures other threads queued.  [TimerQueue] is a channel of the loop on a
    timerfd.  [Acceptor] (server) and [Connector] (client) turn descriptors
    into connected sockets; [TcpServer] makes a [TcpConnection] of each, in one
    of the loops of its [EventLoopThreadPool], and [TcpClient] one.  A
    [TcpConnection] moves bytes between its socket and two [Buffer]s; protocols
    (HTTP, the RPC codec, the length header codec, the hub's lines) parse what
    is in the input buffer and send on the connection.  The log library is
    separate: [Logging] formats a line in a [LogStream] and hands it to
    [AsyncLogging], whose thread writes [LogFile]s.  Threads wait for each
    other in [BlockingQueue], [BoundedBlockingQueue], [CountDownLatch],
    [ThreadPool].

    ** How it is modelled

    - C++ integers are [Z] with the wrap-around of their width written out
      ([u64], [s64], [u32], [s32], [wrapu], [wraps] below); bytes are
      [Byte.byte]; a [std::vector<char>] is a list accessed with the
      bounds-checked [mem_read] and [mem_write].
    - A run yields [res]: [Ok], or a fault: [AssertFail] (a failed [assert];
      the debug build is modelled), [FatalLog] ([LOG_FATAL], [LOG_SYSFATAL],
      [abort]), [Uncaught] (an exception nobody catches), [BadAccess] (memory
      that is not there: a dangling pointer, an index out of range) and
      [OutOfFuel].  That a theorem's conclusion is [... = Ok _] is therefore
      part of what it says.
    - Objects that several others point to (channels, timers, topics,
      connections of a hub) live in stores indexed by address; their users hold
      the address.  Closures handed to other components are constructors of a
      data type per component, and running one is a function.
    - What is not in the repository is a parameter with its documented
      behaviour: the kernel (classes [EpollKernel], [EventFd], [Net], [Listener],
      [Socket] of the files that use them), protobuf, zlib's adler32, printf's
      [%g], gmtime_r, fopen, fwrite.  Calls may fail with any error; the laws
      say what is documented of success and failure.  Each such class has an
      instance that computes, used by the witnesses.
    - Threads: the code between two points where a thread can be interleaved
      with others is one step; theorems are about all sequences of steps.
      Inside a loop's thread everything is sequential, as in the code.

    ** The files

    Shared:
    - [Prelude]: this header, integers, bytes, [res], list lemmas, tactics.
    - [Endian] ([net/Endian.h]), [Format] (decimal printing: snprintf's [%d]
      and [%zd], [std::map] lookups), [Timestamp] ([base/Timestamp.h]) and
      [TimeText] (its printed forms and the calendar under them).
    - [Framing]: the abstract stream decoder ([StableNext]) and the theorem that
      a stable decoder delivers the same messages however the stream is cut.
    - [Atomic] ([base/Atomic.h]): integers that wrap around at their width.
      [FileUtil] ([base/FileUtil.cc]): reading small files.
    - [Mutex] ([base/Mutex.h], [Condition.h]): who holds a lock, between the
      pthread calls.  [Monitor]: guarded critical sections and condition
      variables as a step relation with spurious wake-ups.

    The reactor:
    - [Buffer] ([net/Buffer.h], [Buffer.cc]).  Record [Buffer]: the vector and
      the two indices; every member function is a definition of the same
      name.  Specification: a byte queue with room in front
      ([run_bops_refines]).
    - [Channel] ([net/Channel.h], [.cc]): masks, callbacks and dispatch.
    - [Poller] ([net/Poller.h]): the interface, [PollerSpec] its laws;
      [EPollPoller] discharges them ([epoll_interest_exact],
      [epoll_poll_reports]), [PollPoller] shows which of them
      [poller/PollPoller.cc] breaks.
    - [EventLoop] ([net/EventLoop.h], [.cc]): the loop and the cross-thread
      calls, with the interleavings of the loop's thread and the others.
    - [TimerQueue] ([net/TimerQueue.cc], [Timer.cc], [TimerId.h]).
    - [Sockets] ([net/SocketsOps.cc], [InetAddress.cc]), [Acceptor]
      ([net/Acceptor.cc], [Socket.cc]), [Connector] ([net/Connector.cc]).
    - [TcpConnection] ([net/TcpConnection.cc]), over [EventLoop], [Channel],
      [EPollPoller] and [Buffer].
    - [ConnSpec]: what a connection promises the program above it, as a step
      relation on what has been received, sent and reported ([vstep]), the
      proof that [TcpConnection] implements it ([connection_refines]), and
      what every run of a program on a connection keeps ([runs_invariant];
      with the receive times of what it reads, [timed_invariant]).
      The small servers below are verified against [vstep] alone.
    - [TcpServer] ([net/TcpServer.cc], [EventLoopThreadPool.cc]): connections
      across loops; what it takes from [TcpConnection] is the state machine.
    - [TcpClient] ([net/TcpClient.cc]): the whole [Connector] below it, and the
      same state machine of a connection above.

    - [EventLoopThread] ([net/EventLoopThread.cc]): the hand-over of the loop
      from the thread that runs it to the one that starts it.

    Protocols:
    - [Http] ([net/http/]), [LengthHeaderCodec] ([examples/asio/chat/codec.h]),
      [FastCgi] ([examples/fastcgi/]).
    - [CodecLoop], the message loop that the two protobuf codecs share;
      [RpcCodec] ([net/protorpc/RpcCodec.cc]) and [ProtobufCodec]
      ([examples/protobuf/codec/codec.cc], [dispatcher.h]) on it.
    - [RpcChannel] ([net/protorpc/RpcChannel.cc], [RpcServer.cc]).
    - On [Http]: [Inspector] ([net/inspect/]) and [ShortUrl]
      ([examples/shorturl/]).

    Example servers:
    - On [ConnSpec], a program per connection: [OneShot]
      ([examples/simple/daytime/], [time/], [timeclient/]: those that send
      once and close), [EchoServers] ([simple/echo/], [discard/],
      [netty/echo/server.cc], [netty/discard/server.cc],
      [pingpong/server.cc], [maxconnection/]), [PingPong]
      ([pingpong/client.cc]), [FileTransfer] ([filetransfer/]), [Chargen]
      ([simple/chargen/]), [Finger] ([twisted/finger/]) and [RoundTrip]
      ([roundtrip/roundtrip.cc]).  [Crowd]: many connections that share what
      the program keeps for all of them.
    - [PubSub] ([examples/hub/]).
    - [Chat], [ChatEfficient], [ChatHighPerformance]
      ([examples/asio/chat/server.cc], [server_threaded.cc],
      [server_threaded_efficient.cc], [server_threaded_highperformance.cc]).
    - [Multiplexer] ([examples/multiplexer/multiplexer.cc], [demux.cc]) and
      [MuxDemux]: the two servers, and their composition by a pair of streams.
      [SimpleMux]: [multiplexer_simple.cc], compared with [multiplexer.cc]
      through an interface both implement ([Multiplexing]).
    - [Tunnel] ([examples/socks4a/tunnel.h]) and the two programs on it,
      [Socks4a] ([socks4a.cc]) and [TcpRelay] ([tcprelay.cc]): what a program
      owes the tunnels is the class [Serves], discharged by both.
    - [IdleWheel] and [IdleList] ([examples/idleconnection/echo.cc],
      [sortedlist.cc]): two ways to close idle connections.
    - [WordCount] ([examples/wordcount/]): hashers and receivers.
    - [DancingLinks], [Sudoku] ([examples/sudoku/sudoku.cc]), [SudokuServer]
      ([server_basic.cc]), [SudokuPool] ([server_threadpool.cc], on
      [ThreadPool]).

    The log library:
    - [LogStream], [LogFile], [Logging], [AsyncLogging] ([base/], same names);
      [AsyncLogging] uses the interface [LogSink], [LogFile] implements it.

    Threads:
    - [Queues] ([base/BlockingQueue.h], [BoundedBlockingQueue.h],
      [CountDownLatch.cc]) and [ThreadPool] ([base/ThreadPool.cc]), on
      [Monitor].

    ** What the theorems show

    - Data structures implement their abstract counterparts: the buffer a byte
      queue, the pollers an interest set, the timer queue a set of timers of
      which exactly the due ones run, the queues a FIFO, the hub a
      publish/subscribe service.
    - No fault: for every history of events that can happen and whatever the
      callbacks do through the public interface, connections, timers,
      connectors, servers and channels of remote calls never fail an assertion
      or follow a dangling pointer, except where a theorem says that they do:
      the theorems about whole histories state the outcome by cases, or name
      the condition on the calls and show that without it an assertion fails
      (a half closed connection that is destroyed, a connector that is started
      when it is not disconnected, a refused request line that is parsed
      again, a subscriber of the hub that leaves, a thread id of six digits).
    - Nothing lost, nothing twice: wakeups and functors of the loop, bytes of a
      connection, connections of a server, attempts of a connector, remote
      calls, log lines, tasks of a pool (run by the caller when the pool has no
      threads), items of a queue.  Where the code gives something up (responses
      that overtake the registration of their call, log buffers beyond 25, the
      rest of a line after a stream took nothing) the theorem says exactly
      when and what.
    - Protocols: parsers are total, do not depend on how the stream is
      cut, and read back what is printed.
    - Whatever the socket, the callbacks and the other threads do, a program on
      a connection sees only steps of the contract; from the contract alone a
      file server delivers the file in order and closes, an echo server
      returns what it received, a clock client measures within its bounds.
    - Example servers against what they are for: the solver finds a solution
      exactly when there is one; the threaded chat servers refine the simple
      one, or deliver in one order; a cluster counts words as one program
      would; tunnels relay every byte, once and in order; idle connections
      are closed in time and others are not; every request to a thread
      pool is answered once.
    - Where the code does otherwise, a theorem states what it does (the
      findings of the manifest): they are about reachable states and say what
      fault, loss or hang follows.

    ** Bounds and fuel

    - Loops over data run on fuel computed from the data (a parser: one more
      than the unread bytes; [getExpired], [reset]: structural).  The theorems
      state [Ok], so the fuel is enough.
    - Sizes: buffers and messages are assumed shorter than 2^62 or 2^63
      bytes where [size_t] or [ssize_t] arithmetic needs it, connection numbers
      below 2^31 and sequence numbers below 2^63; each theorem says so.
    - The solver's loops go round rings of at most [kMaxNodes] nodes and its
      recursion is at most [kMaxColumns] deep; that this is enough is proved
      from the invariant of the rings.  A batch of the word counter takes at
      least one word, so the words bound the batches.
    - [IdleList] compares times as floating point numbers; rounding is a
      parameter that is assumed to be monotone.
    - Schedules are lists of arbitrary length or a reflexive-transitive
      closure: no bound.

    ** Not modelled, and why

    - Blocking in the kernel, real time, signals, setsockopt, process and
      thread creation ([Thread], [ProcessInfo]): system calls with
      no logic of the program's own.
    - [StringPiece], [Types.h] (vendored helpers), [Singleton], [ThreadLocal],
      [copyable], [noncopyable] idioms: language plumbing.
    - Logging calls inside the components, and [getTcpInfo]-like output.
    - Failing allocation: [operator new] does not fail here; a vector that
      outgrows [max_size] throws, and theorems say [safe] where it might.
    - Destruction of objects by reference counting is followed where the code
      depends on it (the wheel's entries, weak pointers of tunnels and
      channels, shared lists of the chat server), not everywhere.
    - Examples that only wire the library to another one (curl, c-ares,
      zeromq, protobuf generated stubs), load generators and measurements,
      and the test programs.

    ** Order of the work

    The reactor and the connection first, then protocols, the log library and
    the thread library, then the life cycle (acceptor, connector, server) and
    remote calls, then example servers with logic of their own, and last the
    contract of a connection with the small servers on it.  What may follow:
    the larger servers on the contract instead of models of a connection of
    their own, and the destruction of clients and servers while their
    connections are open. *)
From Stdlib Require Export ZArith Lia.
From Stdlib Require Import Strings.Byte Strings.String.
From stdpp Require Export base option list gmap sets strings numbers relations.
Abbreviation byte := Corelib.Init.Byte.byte.

#[global] Open Scope Z_scope.

(** ** Faults and the fault monad *)

(** Why a run of the program stops abnormally: a failed [assert] (the debug
    build), [LOG_FATAL]/[LOG_SYSFATAL]/[abort], a C++ exception that nobody
    catches, an access to memory that is not there, or a loop that exceeded
    the fuel it was given. *)
Inductive fault : Type :=
| AssertFail
| FatalLog
| Uncaught
| BadAccess
| OutOfFuel.

(** The result of running a piece of the program. *)
Inductive res (A : Type) : Type :=
| Ok (a : A)
| Err (f : fault).
Arguments Ok {A} a.
Arguments Err {A} f.

#[export] Instance res_ret : MRet res := fun A a => Ok a.
#[export] Instance res_bind : MBind res := fun A B k m =>
  match m with Ok a => k a | Err f => Err f end.
#[export] Instance res_fmap : FMap res := fun A B g m =>
  match m with Ok a => Ok (g a) | Err f => Err f end.

#[export] Instance fault_eq_dec : EqDecision fault.
Proof. solve_decision. Defined.

(** [assert(b)] of the debug build. *)
Definition assert_ (b : bool) : res unit := if b then Ok tt else Err AssertFail.

Definition is_ok {A} (m : res A) : Prop := exists a, m = Ok a.

(** ** Machine integers: two's complement wrap-around at a given width *)

Definition wrapu (w : Z) (z : Z) : Z := z mod 2 ^ w.
Definition wraps (w : Z) (z : Z) : Z := (z + 2 ^ (w - 1)) mod 2 ^ w - 2 ^ (w - 1).

Definition u8 := wrapu 8.
Definition u16 := wrapu 16.
Definition u32 := wrapu 32.
Definition u64 := wrapu 64.
Definition s8 := wraps 8.
Definition s16 := wraps 16.
Definition s32 := wraps 32.
Definition s64 := wraps 64.

(** ** Bytes *)

#[export] Instance byte_eq_dec : EqDecision byte := Byte.byte_eq_dec.
#[export] Instance byte_countable : Countable byte.
Proof. refine (inj_countable Byte.to_N Byte.of_N _). intros b. apply Byte.of_to_N. Defined.

Definition byte_val (b : byte) : Z := Z.of_N (Byte.to_N b).
Definition byte_of (z : Z) : byte :=
  match Byte.of_N (Z.to_N (z mod 256)) with Some b => b | None => Byte.x00 end.

(** [char] is signed on the target. *)
Definition char_val (b : byte) : Z := s8 (byte_val b).

(** A C string literal (without its terminating NUL). *)
Definition bs (s : string) : list byte := list_byte_of_string s.

(** The characters the protocols use. *)
Definition NUL : byte := Byte.x00.
Definition CR : byte := Byte.x0d.
Definition LF : byte := Byte.x0a.
Definition SP : byte := Byte.x20.
Definition HT : byte := Byte.x09.
Definition COLON : byte := Byte.x3a.
Definition crlf : list byte := [CR; LF].

(** ** Memory: a block of bytes read and written by offset *)

Definition zlen {A} (l : list A) : Z := Z.of_nat (length l).
Definition ztake {A} (n : Z) (l : list A) : list A := take (Z.to_nat n) l.
Definition zdrop {A} (n : Z) (l : list A) : list A := drop (Z.to_nat n) l.

(** The bytes at offsets [[lo, hi)]. *)
Definition zslice {A} (lo hi : Z) (l : list A) : list A := ztake (hi - lo) (zdrop lo l).

(** Checked read of [[lo, hi)]. *)
Definition mem_read (lo hi : Z) (m : list byte) : res (list byte) :=
  if (0 <=? lo) && (lo <=? hi) && (hi <=? zlen m) then Ok (zslice lo hi m)
  else Err BadAccess.

(** Checked write of [d] at offset [pos]. *)
Definition mem_write (pos : Z) (d m : list byte) : res (list byte) :=
  if (0 <=? pos) && (pos + zlen d <=? zlen m)
  then Ok (ztake pos m ++ d ++ zdrop (pos + zlen d) m)
  else Err BadAccess.

(** [std::find(first, last, c)]: the distance to the first [c], the length
    when there is none. *)
Fixpoint find_byte (c : byte) (l : list byte) : Z :=
  match l with
  | [] => 0
  | b :: l' => if decide (b = c) then 0 else 1 + find_byte c l'
  end.

Definition starts_with (p l : list byte) : bool :=
  bool_decide (take (length p) l = p).

(** [std::search(first, last, pat)]: the distance to the first occurrence of
    the pattern, [None] when [last] is returned (a non-empty pattern). *)
Fixpoint find_sub (pat l : list byte) : option Z :=
  if starts_with pat l then Some 0
  else match l with
       | [] => None
       | _ :: l' => Z.succ <$> find_sub pat l'
       end.

#[global] Arguments wrapu : simpl never.
#[global] Arguments wraps : simpl never.
#[global] Arguments u8 : simpl never.
#[global] Arguments u16 : simpl never.
#[global] Arguments u32 : simpl never.
#[global] Arguments u64 : simpl never.
#[global] Arguments s8 : simpl never.
#[global] Arguments s16 : simpl never.
#[global] Arguments s32 : simpl never.
#[global] Arguments s64 : simpl never.
#[global] Arguments zlen : simpl never.
#[global] Arguments ztake : simpl never.
#[global] Arguments zdrop : simpl never.
#[global] Arguments zslice : simpl never.
#[global] Arguments byte_of : simpl never.
#[global] Arguments byte_val : simpl never.

(** ** Automation *)

(** The facts about [res] binds, lengths and wrap-around that most proofs of
    the components need. *)
Create HintDb muduo.

Lemma bind_Ok {A B} (m : res A) (k : A -> res B) b :
  m ≫= k = Ok b <-> exists a, m = Ok a /\ k a = Ok b.
Proof. destruct m; simpl; split; [eauto | intros (?&?&?); simplify_eq; auto | done | intros (?&?&?); done]. Qed.

Lemma assert_true b : b = true -> assert_ b = Ok tt.
Proof. by intros ->. Qed.

Lemma assert_Ok b u : assert_ b = Ok u -> b = true.
Proof. by destruct b. Qed.

(** Decompose a successful run into the runs of its parts. *)
Ltac inv_res :=
  repeat match goal with
  | H : _ ≫= _ = Ok _ |- _ =>
      let x := fresh "r" in let Hx := fresh "Hr" in
      apply bind_Ok in H as (x & Hx & H)
  | H : assert_ _ = Ok _ |- _ => apply assert_Ok in H
  | H : mret _ = Ok _ |- _ => injection H as H; try subst
  | H : Ok _ = Ok _ |- _ => injection H as H; try subst
  | H : Err _ = Ok _ |- _ => discriminate H
  | H : (_, _) = (_, _) |- _ => injection H as H; try subst
  end.

(** Reduce the binds whose first computation is known. *)
Ltac rsimp := cbn [mbind res_bind mret res_ret fmap res_fmap].

(** Evaluate the head assertion of the goal, leaving its condition. *)
Ltac step_assert :=
  match goal with
  | |- context [assert_ ?b] =>
      let H := fresh "Hassert" in
      assert (H : b = true); [ | rewrite (assert_true b H); cbn [mbind res_bind] ]
  end.

(** Turn boolean comparisons into linear facts and call [lia]. *)
Ltac blia :=
  repeat match goal with
  | H : _ && _ = true |- _ => apply andb_prop in H as [? ?]
  | H : _ || _ = false |- _ => apply orb_false_elim in H as [? ?]
  | H : negb _ = true |- _ => apply negb_true_iff in H
  | H : negb _ = false |- _ => apply negb_false_iff in H
  | H : bool_decide _ = true |- _ => apply bool_decide_eq_true in H
  | H : bool_decide _ = false |- _ => apply bool_decide_eq_false in H
  end; lia.

(** Evaluate a decidable proposition about concrete data. *)
Ltac by_evaluation := apply (bool_decide_unpack _); vm_compute; exact I.

(** ** Wrap-around lemmas *)

Lemma wrapu_small w z : 0 <= z < 2 ^ w -> wrapu w z = z.
Proof. intros. unfold wrapu. by apply Z.mod_small. Qed.

Lemma wrapu_range w z : 0 <= w -> 0 <= wrapu w z < 2 ^ w.
Proof. intros. unfold wrapu. apply Z.mod_pos_bound. lia. Qed.

Lemma pow2_split w : 0 < w -> 2 ^ w = 2 * 2 ^ (w - 1).
Proof. intros. rewrite <- Z.pow_succ_r by lia. f_equal. lia. Qed.

Lemma wraps_small w z : 0 < w -> - 2 ^ (w - 1) <= z < 2 ^ (w - 1) -> wraps w z = z.
Proof.
  intros Hw H. unfold wraps. rewrite (pow2_split w) by done.
  rewrite Z.mod_small by lia. lia.
Qed.

Lemma wraps_range w z : 0 < w -> - 2 ^ (w - 1) <= wraps w z < 2 ^ (w - 1).
Proof.
  intros Hw. unfold wraps. pose proof (pow2_split w Hw) as E.
  assert (0 < 2 ^ (w - 1)) by lia.
  pose proof (Z.mod_pos_bound (z + 2 ^ (w - 1)) (2 ^ w)). lia.
Qed.

Lemma wraps_wrapu w z : wraps w (wrapu w z) = wraps w z.
Proof. unfold wraps, wrapu. by rewrite Zplus_mod_idemp_l. Qed.

Lemma wrapu_wraps w z : 0 < w -> wrapu w (wraps w z) = wrapu w z.
Proof.
  intros. unfold wraps, wrapu. rewrite Zminus_mod_idemp_l. f_equal. lia.
Qed.

Lemma u64_small z : 0 <= z < 2 ^ 64 -> u64 z = z.
Proof. apply wrapu_small. Qed.
Lemma u32_range z : 0 <= u32 z < 2 ^ 32.
Proof. apply wrapu_range; lia. Qed.
Lemma s64_small z : - 2 ^ 63 <= z < 2 ^ 63 -> s64 z = z.
Proof. intros. apply wraps_small; lia. Qed.
Lemma s32_small z : - 2 ^ 31 <= z < 2 ^ 31 -> s32 z = z.
Proof. intros. apply wraps_small; lia. Qed.



(** ** Byte lemmas *)

Lemma byte_val_range b : 0 <= byte_val b < 256.
Proof.
  unfold byte_val. pose proof (Byte.to_N_bounded b) as H. lia.
Qed.

Lemma byte_val_of z : byte_val (byte_of z) = z mod 256.
Proof.
  unfold byte_val, byte_of.
  pose proof (Z.mod_pos_bound z 256 ltac:(lia)) as Hz.
  destruct (Byte.of_N (Z.to_N (z mod 256))) eqn:E.
  - apply Byte.to_of_N in E. rewrite E. lia.
  - apply Byte.of_N_None_iff in E. lia.
Qed.

Lemma byte_of_val b : byte_of (byte_val b) = b.
Proof.
  unfold byte_of. rewrite Z.mod_small by apply byte_val_range.
  unfold byte_val. rewrite N2Z.id, Byte.of_to_N. done.
Qed.

Lemma byte_val_inj b c : byte_val b = byte_val c -> b = c.
Proof. intros H. rewrite <- (byte_of_val b), <- (byte_of_val c). by rewrite H. Qed.

Lemma byte_of_mod z : byte_of (z mod 256) = byte_of z.
Proof. apply byte_val_inj. rewrite !byte_val_of. by rewrite Z.mod_mod by lia. Qed.

(** ** Offsets into lists *)

Section zlist.
Context {A : Type}.
Implicit Types l k : list A.

Lemma zlen_nonneg l : 0 <= zlen l.
Proof. unfold zlen. lia. Qed.
Lemma zlen_nil : zlen (A:=A) [] = 0.
Proof. done. Qed.
Lemma zlen_cons x l : zlen (x :: l) = 1 + zlen l.
Proof. unfold zlen. simpl. lia. Qed.
Lemma zlen_app l k : zlen (l ++ k) = zlen l + zlen k.
Proof. unfold zlen. rewrite length_app. lia. Qed.
Lemma zlen_snoc l x : zlen (l ++ [x]) = zlen l + 1.
Proof. rewrite zlen_app. done. Qed.
Lemma zlen_replicate n (x : A) : zlen (replicate n x) = Z.of_nat n.
Proof. unfold zlen. by rewrite length_replicate. Qed.
Lemma zlen_zero l : zlen l = 0 -> l = [].
Proof. unfold zlen. destruct l; simpl; [done | lia]. Qed.
Lemma zlen_rev l : zlen (rev l) = zlen l.
Proof. unfold zlen. by rewrite length_rev. Qed.

Lemma zlen_ztake n l : 0 <= n <= zlen l -> zlen (ztake n l) = n.
Proof. unfold zlen, ztake. intros. rewrite length_take. lia. Qed.
Lemma zlen_zdrop n l : 0 <= n <= zlen l -> zlen (zdrop n l) = zlen l - n.
Proof. unfold zlen, zdrop. intros. rewrite length_drop. lia. Qed.
Lemma zlen_zslice lo hi l :
  0 <= lo <= hi -> hi <= zlen l -> zlen (zslice lo hi l) = hi - lo.
Proof.
  intros. unfold zslice. apply zlen_ztake. rewrite zlen_zdrop; lia.
Qed.

Lemma ztake_all n l : zlen l <= n -> ztake n l = l.
Proof. unfold zlen, ztake. intros. apply take_ge. lia. Qed.
Lemma ztake_0 l : ztake 0 l = [].
Proof. done. Qed.
Lemma zdrop_0 l : zdrop 0 l = l.
Proof. done. Qed.
Lemma zdrop_all n l : zlen l <= n -> zdrop n l = [].
Proof. unfold zlen, zdrop. intros. apply drop_ge. lia. Qed.
Lemma ztake_zdrop n l : ztake n l ++ zdrop n l = l.
Proof. apply take_drop. Qed.
Lemma ztake_app_l n l k : n <= zlen l -> ztake n (l ++ k) = ztake n l.
Proof. unfold zlen, ztake. intros. apply take_app_le. lia. Qed.
Lemma ztake_app_r n l k : zlen l <= n -> ztake n (l ++ k) = l ++ ztake (n - zlen l) k.
Proof.
  unfold zlen, ztake. intros. rewrite take_app_ge by lia. do 2 f_equal. lia.
Qed.
Lemma zdrop_app_l n l k : n <= zlen l -> zdrop n (l ++ k) = zdrop n l ++ k.
Proof. unfold zlen, zdrop. intros. apply drop_app_le. lia. Qed.
Lemma zdrop_app_r n l k : zlen l <= n -> zdrop n (l ++ k) = zdrop (n - zlen l) k.
Proof. unfold zlen, zdrop. intros. rewrite drop_app_ge by lia. f_equal. lia. Qed.
Lemma zdrop_zdrop n m l : 0 <= n -> 0 <= m -> zdrop n (zdrop m l) = zdrop (m + n) l.
Proof. unfold zdrop. intros. rewrite drop_drop. f_equal. lia. Qed.
Lemma ztake_ztake n m l : n <= m -> ztake n (ztake m l) = ztake n l.
Proof. unfold ztake. intros. rewrite take_take. f_equal. lia. Qed.
Lemma zdrop_ztake n m l : 0 <= n <= m -> zdrop n (ztake m l) = ztake (m - n) (zdrop n l).
Proof.
  unfold zdrop, ztake. intros. rewrite firstn_skipn_comm.
  do 2 f_equal. lia.
Qed.

Lemma zslice_split a b c l :
  0 <= a <= b -> b <= c -> zslice a b l ++ zslice b c l = zslice a c l.
Proof.
  intros. unfold zslice.
  rewrite <- (ztake_zdrop (b - a) (ztake (c - a) (zdrop a l))).
  rewrite ztake_ztake by lia. f_equal.
  rewrite zdrop_ztake by lia. rewrite zdrop_zdrop by lia.
  f_equal; [lia |]. f_equal. lia.
Qed.

Lemma zslice_full l : zslice 0 (zlen l) l = l.
Proof. unfold zslice. rewrite zdrop_0. apply ztake_all. lia. Qed.

Lemma zslice_empty a l : zslice a a l = [].
Proof. unfold zslice. by rewrite Z.sub_diag. Qed.

Lemma zslice_app_l a b l k : 0 <= a <= b -> b <= zlen l -> zslice a b (l ++ k) = zslice a b l.
Proof.
  intros. unfold zslice. rewrite zdrop_app_l by lia. apply ztake_app_l.
  rewrite zlen_zdrop; lia.
Qed.
Lemma zslice_app_r a b l k :
  zlen l <= a -> a <= b -> zslice a b (l ++ k) = zslice (a - zlen l) (b - zlen l) k.
Proof.
  intros. unfold zslice. rewrite zdrop_app_r by lia. f_equal. lia.
Qed.

Lemma zslice_zslice a b c d l :
  0 <= a -> 0 <= c <= d -> d <= b - a -> zslice c d (zslice a b l) = zslice (a + c) (a + d) l.
Proof.
  intros. unfold zslice. rewrite zdrop_ztake by lia. rewrite ztake_ztake by lia.
  rewrite zdrop_zdrop by lia. f_equal. lia.
Qed.

Lemma ztake_zslice n a b l : 0 <= a -> 0 <= n <= b - a -> ztake n (zslice a b l) = zslice a (a + n) l.
Proof. intros. unfold zslice. rewrite ztake_ztake by lia. f_equal. lia. Qed.
Lemma zdrop_zslice n a b l : 0 <= a -> 0 <= n <= b - a -> zdrop n (zslice a b l) = zslice (a + n) b l.
Proof.
  intros. unfold zslice. rewrite zdrop_ztake by lia. rewrite zdrop_zdrop by lia.
  f_equal. lia.
Qed.
Lemma ztake_is_zslice n l : ztake n l = zslice 0 n l.
Proof. unfold zslice. by rewrite zdrop_0, Z.sub_0_r. Qed.
End zlist.

Create Rewrite HintDb zlist.
#[export] Hint Rewrite @zlen_app @zlen_nil @zlen_cons @zlen_replicate @zlen_rev : zlist.
#[export] Hint Resolve zlen_nonneg byte_val_range : muduo.

(** ** Memory lemmas *)

Lemma mem_read_ok lo hi m :
  0 <= lo <= hi -> hi <= zlen m -> mem_read lo hi m = Ok (zslice lo hi m).
Proof.
  intros. unfold mem_read.
  rewrite (proj2 (Z.leb_le 0 lo)), (proj2 (Z.leb_le lo hi)), (proj2 (Z.leb_le hi (zlen m))) by lia.
  done.
Qed.

Lemma mem_write_ok pos d m :
  0 <= pos -> pos + zlen d <= zlen m ->
  mem_write pos d m = Ok (ztake pos m ++ d ++ zdrop (pos + zlen d) m).
Proof.
  intros. unfold mem_write.
  rewrite (proj2 (Z.leb_le 0 pos)), (proj2 (Z.leb_le (pos + zlen d) (zlen m))) by lia.
  done.
Qed.

Section mem_written.
Variables (pos : Z) (d m : list byte).
Hypothesis Hpos : 0 <= pos.
Hypothesis Hend : pos + zlen d <= zlen m.
Let m' := ztake pos m ++ d ++ zdrop (pos + zlen d) m.

Lemma mem_written_len : zlen m' = zlen m.
Proof using Hpos Hend.
  pose proof (zlen_nonneg d).
  unfold m'. rewrite !zlen_app, zlen_ztake, zlen_zdrop by lia. lia.
Qed.

Lemma mem_written_at : zslice pos (pos + zlen d) m' = d.
Proof using Hpos Hend.
  pose proof (zlen_nonneg d).
  unfold m'. rewrite zslice_app_r; rewrite ?zlen_ztake by lia; [| lia..].
  rewrite zslice_app_l by lia. rewrite Z.sub_diag.
  replace (pos + zlen d - pos) with (zlen d) by lia. apply zslice_full.
Qed.

Lemma mem_written_before a b : 0 <= a <= b -> b <= pos -> zslice a b m' = zslice a b m.
Proof using Hpos Hend.
  intros. pose proof (zlen_nonneg d).
  unfold m'. rewrite zslice_app_l; rewrite ?zlen_ztake by lia; [| lia..].
  rewrite ztake_is_zslice, zslice_zslice by lia. done.
Qed.

Lemma mem_written_after a b : pos + zlen d <= a -> a <= b -> zslice a b m' = zslice a b m.
Proof using Hpos Hend.
  intros. pose proof (zlen_nonneg d).
  unfold m'. rewrite zslice_app_r; rewrite ?zlen_ztake by lia; [| lia..].
  rewrite zslice_app_r by lia. unfold zslice. rewrite zdrop_zdrop by lia.
  f_equal; [lia |]. f_equal. lia.
Qed.
End mem_written.

(** ** Searching bytes *)

Lemma find_byte_bounds c l : 0 <= find_byte c l <= zlen l.
Proof.
  induction l as [|b l IH]; simpl; [unfold zlen; simpl; lia |].
  rewrite zlen_cons. case_decide; lia.
Qed.

Lemma find_byte_app_in c l k : find_byte c l < zlen l -> find_byte c (l ++ k) = find_byte c l.
Proof.
  induction l as [|b l IH]; simpl; [unfold zlen; simpl; lia |].
  rewrite zlen_cons. case_decide; [done |]. intros. rewrite IH; lia.
Qed.

Lemma find_byte_notin c l : c ∉ l -> find_byte c l = zlen l.
Proof.
  induction l as [|b l IH]; simpl; [done |]. intros H. rewrite zlen_cons.
  rewrite decide_False by set_solver. rewrite IH; [done | set_solver].
Qed.

Lemma find_byte_split c l k : c ∉ l -> find_byte c (l ++ c :: k) = zlen l.
Proof.
  induction l as [|b l IH]; simpl; intros H.
  - by rewrite decide_True by done.
  - apply not_elem_of_cons in H as [??]. rewrite zlen_cons, decide_False, IH by done. lia.
Qed.

Lemma find_byte_not_before c l : c ∉ ztake (find_byte c l) l.
Proof.
  induction l as [|b l IH]; simpl; [set_solver |].
  case_decide as Hd; [set_solver |].
  pose proof (find_byte_bounds c l).
  unfold ztake in *. replace (Z.to_nat (1 + find_byte c l)) with (S (Z.to_nat (find_byte c l))) by lia.
  simpl. apply not_elem_of_cons; split; done || congruence.
Qed.

Lemma starts_with_true p l : starts_with p l = true <-> exists k, l = p ++ k.
Proof.
  unfold starts_with. rewrite bool_decide_eq_true. split.
  - intros H. exists (drop (length p) l). rewrite <- H at 1. symmetry. apply take_drop.
  - intros [k ->]. by rewrite take_app_length.
Qed.

(** The first occurrence: nothing but the pattern starts there, and no
    earlier position starts it. *)
Lemma find_sub_Some pat l i :
  find_sub pat l = Some i ->
  0 <= i /\ i + zlen pat <= zlen l /\ zslice i (i + zlen pat) l = pat.
Proof.
  revert i. induction l as [|b l IH]; intros i; cbn [find_sub]; destruct (starts_with pat _) eqn:E.
  - intros [= <-]. apply starts_with_true in E as [k E]. rewrite E.
    rewrite zslice_app_l by (pose proof (zlen_nonneg pat); lia).
    rewrite Z.add_0_l, zslice_full, zlen_app. pose proof (zlen_nonneg k). split_and!; [lia | lia | done].
  - done.
  - intros [= <-]. apply starts_with_true in E as [k E]. rewrite E.
    rewrite zslice_app_l by (pose proof (zlen_nonneg pat); lia).
    rewrite Z.add_0_l, zslice_full, zlen_app. pose proof (zlen_nonneg k). split_and!; [lia | lia | done].
  - intros H. destruct (find_sub pat l) as [j|] eqn:E2; simplify_eq/=.
    destruct (IH j eq_refl) as (? & ? & ?). rewrite zlen_cons. split_and!; [lia.. |].
    unfold zslice, zdrop in *.
    replace (Z.to_nat (Z.succ j)) with (S (Z.to_nat j)) by lia. simpl.
    by replace (Z.succ j + zlen pat - Z.succ j) with (j + zlen pat - j) by lia.
Qed.

Lemma starts_with_app p l k : starts_with p l = true -> starts_with p (l ++ k) = true.
Proof.
  rewrite !starts_with_true. intros [k' ->]. exists (k' ++ k). by rewrite app_assoc.
Qed.

Lemma starts_with_app_inv p l k :
  zlen p <= zlen l -> starts_with p (l ++ k) = starts_with p l.
Proof.
  intros H. unfold starts_with. rewrite take_app_le by (unfold zlen in *; lia). done.
Qed.

(** A match found in a prefix of the input is the match found in the whole:
    more bytes arriving do not move it. *)
Lemma find_sub_app_Some pat l k i :
  find_sub pat l = Some i -> find_sub pat (l ++ k) = Some i.
Proof.
  revert i. induction l as [|b l IH]; intros i.
  - cbn [find_sub]. destruct (starts_with pat []) eqn:E; [|done]. intros [= <-].
    apply (starts_with_app _ _ k) in E. simpl in *. destruct k; cbn [find_sub]; by rewrite E.
  - intros H. pose proof (find_sub_Some _ _ _ H) as (? & ? & _).
    cbn [app]. cbn [find_sub] in H |- *.
    destruct (starts_with pat (b :: l)) eqn:E.
    + simplify_eq. pose proof (starts_with_app _ _ k E) as E'. cbn [app] in E'. by rewrite E'.
    + change (b :: l ++ k) with ((b :: l) ++ k). rewrite starts_with_app_inv, E by lia.
      destruct (find_sub pat l) as [j|] eqn:E2; simplify_eq/=. by rewrite (IH j eq_refl).
Qed.

(** ** Filters that keep everything or nothing *)

Lemma filter_all {A} (P : A -> Prop) `{!forall x, Decision (P x)} l : Forall P l -> filter P l = l.
Proof. induction 1 as [| x l Hx _ IH]; [done |]. by rewrite filter_cons_True, IH. Qed.
Lemma filter_none {A} (P : A -> Prop) `{!forall x, Decision (P x)} l :
  Forall (fun x => ~ P x) l -> filter P l = [].
Proof. induction 1 as [| x l Hx _ IH]; [done |]. by rewrite filter_cons_False, IH. Qed.

(** ** Safe runs

    [safe m Q]: running [m] ends in a state that satisfies [Q], or memory is
    exhausted ([std::length_error], [std::bad_alloc]); no assertion fails, no
    fatal error is logged, no memory is accessed out of bounds. *)
Definition safe {A} (m : res A) (Q : A -> Prop) : Prop :=
  match m with Ok a => Q a | Err f => f = Uncaught end.

Lemma safe_ret {A} (a : A) (Q : A -> Prop) : Q a -> safe (Ok a) Q.
Proof. done. Qed.
Lemma safe_bind {A B} (m : res A) (k : A -> res B) (P : A -> Prop) (Q : B -> Prop) :
  safe m P -> (forall a, P a -> safe (k a) Q) -> safe (m ≫= k) Q.
Proof. destruct m as [a | f]; simpl; auto. Qed.
Lemma safe_mono {A} (m : res A) (P Q : A -> Prop) :
  safe m P -> (forall a, P a -> Q a) -> safe m Q.
Proof. destruct m as [a | f]; simpl; auto. Qed.
Lemma safe_assert b : b = true -> safe (assert_ b) (fun _ => True).
Proof. by intros ->. Qed.
