(* ===== verification/Endian.v ===== *)
(** * Endian: byte order conversion and the memory image of integers

    [muduo/net/Endian.h].  The target is x86-64, a little-endian host: the
    memory image of an n-byte integer is [le_bytes n], and the glibc macros
    [htobe*]/[be*toh] reverse the bytes of their operand. *)
From S2P Require Import Prelude.

(** ** Memory images *)

(** The [n] bytes an integer occupies in memory on the host. *)
Fixpoint le_bytes (n : nat) (z : Z) : list byte :=
  match n with
  | O => []
  | S n => byte_of z :: le_bytes n (z / 256)
  end.

(** The unsigned integer whose memory image is the given bytes. *)
Fixpoint le_val (l : list byte) : Z :=
  match l with
  | [] => 0
  | b :: l => byte_val b + 256 * le_val l
  end.

(** Network byte order: most significant byte first. *)
Definition be_bytes (n : nat) (z : Z) : list byte := rev (le_bytes n z).
Definition be_val (l : list byte) : Z := le_val (rev l).

(** Byte reversal of an [n]-byte integer. *)
Definition bswap (n : nat) (z : Z) : Z := le_val (rev (le_bytes n z)).

(** ** Endian.h *)

(*@ muduo/muduo/net/Endian.h 36-39 hostToNetwork64 *)
Definition hostToNetwork64 (host64 : Z) : Z := bswap 8 (u64 host64).
(*@ muduo/muduo/net/Endian.h 41-44 hostToNetwork32 *)
Definition hostToNetwork32 (host32 : Z) : Z := bswap 4 (u32 host32).
(*@ muduo/muduo/net/Endian.h 46-49 hostToNetwork16 *)
Definition hostToNetwork16 (host16 : Z) : Z := bswap 2 (u16 host16).
(*@ muduo/muduo/net/Endian.h 51-54 networkToHost64 *)
Definition networkToHost64 (net64 : Z) : Z := bswap 8 (u64 net64).
(*@ muduo/muduo/net/Endian.h 56-59 networkToHost32 *)
Definition networkToHost32 (net32 : Z) : Z := bswap 4 (u32 net32).
(*@ muduo/muduo/net/Endian.h 61-64 networkToHost16 *)
Definition networkToHost16 (net16 : Z) : Z := bswap 2 (u16 net16).

(** ** Round trips *)

Lemma length_le_bytes n z : length (le_bytes n z) = n.
Proof. revert z. induction n; simpl; auto. Qed.

Lemma zlen_le_bytes n z : zlen (le_bytes n z) = Z.of_nat n.
Proof. unfold zlen. by rewrite length_le_bytes. Qed.

Lemma zlen_be_bytes n z : zlen (be_bytes n z) = Z.of_nat n.
Proof. unfold be_bytes. by rewrite zlen_rev, zlen_le_bytes. Qed.

Lemma le_val_bytes n z : le_val (le_bytes n z) = z mod 256 ^ Z.of_nat n.
Proof.
  revert z. induction n as [|n IH]; intros z.
  - simpl. by rewrite Z.mod_1_r.
  - cbn [le_bytes le_val]. rewrite IH, byte_val_of.
    rewrite Nat2Z.inj_succ, Z.pow_succ_r by lia.
    rewrite Z.rem_mul_r by lia. lia.
Qed.

Lemma le_val_range l : 0 <= le_val l < 256 ^ zlen l.
Proof.
  induction l as [|b l IH]; [done |]. cbn [le_val]. rewrite zlen_cons.
  rewrite Z.pow_add_r by (pose proof (zlen_nonneg l); lia).
  pose proof (byte_val_range b). lia.
Qed.

Lemma le_bytes_val l : le_bytes (length l) (le_val l) = l.
Proof.
  induction l as [|b l IH]; [done |]. cbn [le_val length le_bytes].
  replace ((byte_val b + 256 * le_val l) / 256) with (le_val l).
  2: { pose proof (byte_val_range b). apply Z.div_unique with (byte_val b); lia. }
  rewrite IH. f_equal. apply byte_val_inj. rewrite byte_val_of.
  rewrite (Z.mul_comm 256), Z.mod_add by lia.
  apply Z.mod_small, byte_val_range.
Qed.

Lemma le_bytes_inj l k : length l = length k -> le_val l = le_val k -> l = k.
Proof. intros Hl Hv. rewrite <- (le_bytes_val l), <- (le_bytes_val k). by rewrite Hl, Hv. Qed.

Lemma pow256 n : 256 ^ Z.of_nat n = 2 ^ (8 * Z.of_nat n).
Proof. change 256 with (2 ^ 8). rewrite <- Z.pow_mul_r by lia. done. Qed.

Lemma le_bytes_wrap n z : le_bytes n (wrapu (8 * Z.of_nat n) z) = le_bytes n z.
Proof.
  apply le_bytes_inj; [by rewrite !length_le_bytes |].
  rewrite !le_val_bytes, pow256. unfold wrapu. by rewrite Z.mod_mod by lia.
Qed.

(** The memory image of a byte-swapped integer is the reversed image. *)
Lemma le_bytes_bswap n z : le_bytes n (bswap n z) = be_bytes n z.
Proof.
  unfold bswap, be_bytes.
  rewrite <- (le_bytes_val (rev (le_bytes n z))) at 2.
  by rewrite length_rev, length_le_bytes.
Qed.

Lemma bswap_bswap n z : bswap n (bswap n z) = wrapu (8 * Z.of_nat n) z.
Proof.
  unfold bswap at 1. rewrite le_bytes_bswap. unfold be_bytes.
  by rewrite rev_involutive, le_val_bytes, pow256.
Qed.

Lemma bswap_range n z : 0 <= bswap n z < 2 ^ (8 * Z.of_nat n).
Proof.
  unfold bswap. rewrite <- pow256.
  pose proof (le_val_range (rev (le_bytes n z))) as H.
  by rewrite zlen_rev, zlen_le_bytes in H.
Qed.

Lemma be_bytes_wrap n z : be_bytes n (wrapu (8 * Z.of_nat n) z) = be_bytes n z.
Proof. unfold be_bytes. by rewrite le_bytes_wrap. Qed.

(** What [memcpy]ing a converted integer puts on the wire. *)
Lemma hostToNetwork32_image x : le_bytes 4 (hostToNetwork32 x) = be_bytes 4 x.
Proof. unfold hostToNetwork32. rewrite le_bytes_bswap. apply (be_bytes_wrap 4). Qed.
Lemma hostToNetwork16_image x : le_bytes 2 (hostToNetwork16 x) = be_bytes 2 x.
Proof. unfold hostToNetwork16. rewrite le_bytes_bswap. apply (be_bytes_wrap 2). Qed.
Lemma hostToNetwork64_image x : le_bytes 8 (hostToNetwork64 x) = be_bytes 8 x.
Proof. unfold hostToNetwork64. rewrite le_bytes_bswap. apply (be_bytes_wrap 8). Qed.

(** What reading it back yields. *)
Lemma networkToHost_image n l :
  length l = n -> bswap n (wrapu (8 * Z.of_nat n) (le_val l)) = be_val l.
Proof.
  intros <-. unfold bswap. rewrite le_bytes_wrap, le_bytes_val. done.
Qed.

Lemma be_val_bytes n z : be_val (be_bytes n z) = wrapu (8 * Z.of_nat n) z.
Proof. unfold be_val, be_bytes. by rewrite rev_involutive, le_val_bytes, pow256. Qed.

Lemma be_val_range l : 0 <= be_val l < 256 ^ zlen l.
Proof. unfold be_val. rewrite <- zlen_rev. apply le_val_range. Qed.

Lemma networkToHost32_hostToNetwork32 x : networkToHost32 (hostToNetwork32 x) = u32 x.
Proof.
  unfold networkToHost32, hostToNetwork32.
  replace (u32 (bswap 4 (u32 x))) with (bswap 4 (u32 x))
    by (symmetry; apply wrapu_small, (bswap_range 4)).
  rewrite bswap_bswap. unfold u32, wrapu. by rewrite Z.mod_mod by lia.
Qed.
Lemma networkToHost16_hostToNetwork16 x : networkToHost16 (hostToNetwork16 x) = u16 x.
Proof.
  unfold networkToHost16, hostToNetwork16.
  replace (u16 (bswap 2 (u16 x))) with (bswap 2 (u16 x))
    by (symmetry; apply wrapu_small, (bswap_range 2)).
  rewrite bswap_bswap. unfold u16, wrapu. by rewrite Z.mod_mod by lia.
Qed.
Lemma networkToHost64_hostToNetwork64 x : networkToHost64 (hostToNetwork64 x) = u64 x.
Proof.
  unfold networkToHost64, hostToNetwork64.
  replace (u64 (bswap 8 (u64 x))) with (bswap 8 (u64 x))
    by (symmetry; apply wrapu_small, (bswap_range 8)).
  rewrite bswap_bswap. unfold u64, wrapu. by rewrite Z.mod_mod by lia.
Qed.

#[export] Hint Rewrite zlen_le_bytes zlen_be_bytes : zlist.
