(* ===== verification/Buffer.v ===== *)
(** * Buffer: the byte queue of [muduo/net/Buffer.h] and [Buffer.cc]

    A [std::vector<char>] with a read and a write index.  Pointers into the
    vector are offsets from [begin()]; every read and write of the vector is
    checked, so "does not fault" is memory safety.  [size_t] arithmetic wraps
    at 64 bits.  The abstract view is the list of readable bytes
    ([contents]) together with the room a caller may rely on in front of it. *)
From S2P Require Import Prelude Endian.

(** ** Data *)

(*@ muduo/muduo/net/Buffer.h 45-45 kCheapPrepend *)
Definition kCheapPrepend : Z := 8.
(*@ muduo/muduo/net/Buffer.h 46-46 kInitialSize *)
Definition kInitialSize : Z := 1024.
(*@ muduo/muduo/net/Buffer.cc 20-20 Buffer::kCRLF *)
Definition kCRLF : list byte := [CR; LF].

(*@ muduo/muduo/net/Buffer.h 381-394 Buffer *)
Record Buffer : Type := mkBuffer {
  buffer_ : list byte;
  readerIndex_ : Z;
  writerIndex_ : Z
}.

(*@ muduo/muduo/net/Buffer.h 48-56 Buffer::Buffer *)
Definition Buffer_new : Buffer :=
  {| buffer_ := replicate (Z.to_nat (kCheapPrepend + kInitialSize)) NUL;
     readerIndex_ := kCheapPrepend;
     writerIndex_ := kCheapPrepend |}.

(** ** Observers *)

(*@ muduo/muduo/net/Buffer.h 69-70 Buffer::readableBytes *)
Definition readableBytes (b : Buffer) : Z := u64 (writerIndex_ b - readerIndex_ b).
(*@ muduo/muduo/net/Buffer.h 73-74 Buffer::writableBytes *)
Definition writableBytes (b : Buffer) : Z := u64 (zlen (buffer_ b) - writerIndex_ b).
(*@ muduo/muduo/net/Buffer.h 77-78 Buffer::prependableBytes *)
Definition prependableBytes (b : Buffer) : Z := readerIndex_ b.
(*@ muduo/muduo/net/Buffer.h 81-82 Buffer::peek *)
Definition peek (b : Buffer) : Z := readerIndex_ b.
(*@ muduo/muduo/net/Buffer.h 204-208 Buffer::beginWrite *)
Definition beginWrite (b : Buffer) : Z := writerIndex_ b.

(*@ muduo/muduo/net/Buffer.h 92-98 Buffer::findCRLF *)
Definition findCRLF_from (b : Buffer) (start : Z) : res (option Z) :=
  assert_ (peek b <=? start);;
  assert_ (start <=? beginWrite b);;
  text ← mem_read start (beginWrite b) (buffer_ b);
  mret (Z.add start <$> find_sub kCRLF text).

(*@ muduo/muduo/net/Buffer.h 85-90 Buffer::findCRLF *)
Definition findCRLF (b : Buffer) : res (option Z) :=
  text ← mem_read (peek b) (beginWrite b) (buffer_ b);
  mret (Z.add (peek b) <$> find_sub kCRLF text).

(** ** Retrieving *)

(*@ muduo/muduo/net/Buffer.h 146-150 Buffer::retrieveAll *)
Definition retrieveAll (b : Buffer) : Buffer :=
  {| buffer_ := buffer_ b; readerIndex_ := kCheapPrepend; writerIndex_ := kCheapPrepend |}.

(*@ muduo/muduo/net/Buffer.h 105-116 Buffer::retrieve *)
Definition retrieve (b : Buffer) (len : Z) : res Buffer :=
  assert_ (len <=? readableBytes b);;
  if len <? readableBytes b
  then mret {| buffer_ := buffer_ b;
               readerIndex_ := u64 (readerIndex_ b + len);
               writerIndex_ := writerIndex_ b |}
  else mret (retrieveAll b).

(*@ muduo/muduo/net/Buffer.h 119-124 Buffer::retrieveUntil *)
Definition retrieveUntil (b : Buffer) (end_ : Z) : res Buffer :=
  assert_ (peek b <=? end_);;
  assert_ (end_ <=? beginWrite b);;
  retrieve b (end_ - peek b).

(*@ muduo/muduo/net/Buffer.h 127-130 Buffer::retrieveInt32 *)
Definition retrieveInt32 (b : Buffer) : res Buffer := retrieve b 4.
(*@ muduo/muduo/net/Buffer.h 134-137 Buffer::retrieveInt16 *)
Definition retrieveInt16 (b : Buffer) : res Buffer := retrieve b 2.
(*@ muduo/muduo/net/Buffer.h 140-143 Buffer::retrieveInt8 *)
Definition retrieveInt8 (b : Buffer) : res Buffer := retrieve b 1.

(*@ muduo/muduo/net/Buffer.h 159-165 Buffer::retrieveAsString *)
Definition retrieveAsString (b : Buffer) (len : Z) : res (list byte * Buffer) :=
  assert_ (len <=? readableBytes b);;
  result ← mem_read (peek b) (peek b + len) (buffer_ b);
  b' ← retrieve b len;
  mret (result, b').

(*@ muduo/muduo/net/Buffer.h 153-156 Buffer::retrieveAllAsString *)
Definition retrieveAllAsString (b : Buffer) : res (list byte * Buffer) :=
  retrieveAsString b (readableBytes b).

(** A [StringPiece]: a pointer and an [int] length. *)
(*@ muduo/muduo/net/Buffer.h 168-171 Buffer::toStringPiece *)
Definition toStringPiece (b : Buffer) : Z * Z := (peek b, s32 (readableBytes b)).

(** ** Appending *)

(** [std::vector<char>::resize]: value-initialises the new elements, throws
    [std::length_error] beyond [max_size()]. *)
Definition vector_max_size : Z := 2 ^ 63 - 1.
Definition vector_resize (n : Z) (v : list byte) : res (list byte) :=
  if n <=? vector_max_size
  then Ok (ztake n v ++ replicate (Z.to_nat (n - zlen v)) NUL)
  else Err Uncaught.

(*@ muduo/muduo/net/Buffer.h 358-379 Buffer::makeSpace *)
Definition makeSpace (b : Buffer) (len : Z) : res Buffer :=
  if u64 (writableBytes b + prependableBytes b) <? u64 (len + kCheapPrepend)
  then
    v ← vector_resize (u64 (writerIndex_ b + len)) (buffer_ b);
    mret {| buffer_ := v; readerIndex_ := readerIndex_ b; writerIndex_ := writerIndex_ b |}
  else
    assert_ (kCheapPrepend <? readerIndex_ b);;
    let readable := readableBytes b in
    text ← mem_read (readerIndex_ b) (writerIndex_ b) (buffer_ b);
    v ← mem_write kCheapPrepend text (buffer_ b);
    let b' := {| buffer_ := v;
                 readerIndex_ := kCheapPrepend;
                 writerIndex_ := u64 (kCheapPrepend + readable) |} in
    assert_ (readable =? readableBytes b');;
    mret b'.

(*@ muduo/muduo/net/Buffer.h 194-201 Buffer::ensureWritableBytes *)
Definition ensureWritableBytes (b : Buffer) (len : Z) : res Buffer :=
  b' ← (if writableBytes b <? len then makeSpace b len else mret b);
  assert_ (len <=? writableBytes b');;
  mret b'.

(*@ muduo/muduo/net/Buffer.h 211-212 Buffer::hasWritten *)
Definition hasWritten (b : Buffer) (len : Z) : Buffer :=
  {| buffer_ := buffer_ b;
     readerIndex_ := readerIndex_ b;
     writerIndex_ := u64 (writerIndex_ b + len) |}.

(** [std::copy(data, data + len, pos)] into the vector. *)
Definition copy_to (b : Buffer) (pos : Z) (data : list byte) : res Buffer :=
  v ← mem_write pos data (buffer_ b);
  mret {| buffer_ := v; readerIndex_ := readerIndex_ b; writerIndex_ := writerIndex_ b |}.

(*@ muduo/muduo/net/Buffer.h 174-191 Buffer::append *)
Definition append (b : Buffer) (data : list byte) : res Buffer :=
  b ← ensureWritableBytes b (zlen data);
  b ← copy_to b (beginWrite b) data;
  mret (hasWritten b (zlen data)).

(*@ muduo/muduo/net/Buffer.h 218-222 Buffer::appendInt32 *)
Definition appendInt32 (b : Buffer) (x : Z) : res Buffer :=
  let be32 := s32 (hostToNetwork32 x) in
  append b (le_bytes 4 be32).
(*@ muduo/muduo/net/Buffer.h 225-229 Buffer::appendInt16 *)
Definition appendInt16 (b : Buffer) (x : Z) : res Buffer :=
  let be16 := s16 (hostToNetwork16 x) in
  append b (le_bytes 2 be16).
(*@ muduo/muduo/net/Buffer.h 232-235 Buffer::appendInt8 *)
Definition appendInt8 (b : Buffer) (x : Z) : res Buffer :=
  append b (le_bytes 1 x).

(** ** Peeking and reading integers *)

(*@ muduo/muduo/net/Buffer.h 271-277 Buffer::peekInt32 *)
Definition peekInt32 (b : Buffer) : res Z :=
  assert_ (4 <=? readableBytes b);;
  be32 ← mem_read (peek b) (peek b + 4) (buffer_ b);
  mret (s32 (networkToHost32 (le_val be32))).
(*@ muduo/muduo/net/Buffer.h 280-286 Buffer::peekInt16 *)
Definition peekInt16 (b : Buffer) : res Z :=
  assert_ (2 <=? readableBytes b);;
  be16 ← mem_read (peek b) (peek b + 2) (buffer_ b);
  mret (s16 (networkToHost16 (le_val be16))).
(*@ muduo/muduo/net/Buffer.h 289-294 Buffer::peekInt8 *)
Definition peekInt8 (b : Buffer) : res Z :=
  assert_ (1 <=? readableBytes b);;
  x ← mem_read (peek b) (peek b + 1) (buffer_ b);
  mret (s8 (le_val x)).

(*@ muduo/muduo/net/Buffer.h 242-247 Buffer::readInt32 *)
Definition readInt32 (b : Buffer) : res (Z * Buffer) :=
  result ← peekInt32 b;
  b ← retrieveInt32 b;
  mret (result, b).
(*@ muduo/muduo/net/Buffer.h 250-255 Buffer::readInt16 *)
Definition readInt16 (b : Buffer) : res (Z * Buffer) :=
  result ← peekInt16 b;
  b ← retrieveInt16 b;
  mret (result, b).
(*@ muduo/muduo/net/Buffer.h 258-263 Buffer::readInt8 *)
Definition readInt8 (b : Buffer) : res (Z * Buffer) :=
  result ← peekInt8 b;
  b ← retrieveInt8 b;
  mret (result, b).

(** ** Prepending, shrinking, reading from a descriptor *)

(*@ muduo/muduo/net/Buffer.h 321-327 Buffer::prepend *)
Definition prepend (b : Buffer) (data : list byte) : res Buffer :=
  assert_ (zlen data <=? prependableBytes b);;
  let b := {| buffer_ := buffer_ b;
              readerIndex_ := u64 (readerIndex_ b - zlen data);
              writerIndex_ := writerIndex_ b |} in
  copy_to b (readerIndex_ b) data.

(*@ muduo/muduo/net/Buffer.h 301-305 Buffer::prependInt32 *)
Definition prependInt32 (b : Buffer) (x : Z) : res Buffer :=
  let be32 := s32 (hostToNetwork32 x) in
  prepend b (le_bytes 4 be32).
(*@ muduo/muduo/net/Buffer.h 308-312 Buffer::prependInt16 *)
Definition prependInt16 (b : Buffer) (x : Z) : res Buffer :=
  let be16 := s16 (hostToNetwork16 x) in
  prepend b (le_bytes 2 be16).
(*@ muduo/muduo/net/Buffer.h 315-318 Buffer::prependInt8 *)
Definition prependInt8 (b : Buffer) (x : Z) : res Buffer :=
  prepend b (le_bytes 1 x).

(*@ muduo/muduo/net/Buffer.h 61-66 Buffer::swap *)
Definition swap (b rhs : Buffer) : Buffer * Buffer := (rhs, b).

(** The [int] length of the piece becomes a [size_t] again in [append]. *)
(*@ muduo/muduo/net/Buffer.h 330-337 Buffer::shrink *)
Definition shrink (b : Buffer) (reserve : Z) : res Buffer :=
  other ← ensureWritableBytes Buffer_new (u64 (readableBytes b + reserve));
  let '(data, len) := toStringPiece b in
  text ← mem_read data (data + u64 len) (buffer_ b);
  other ← append other text;
  mret (fst (swap b other)).

(** What [::readv] did: failed with an [errno], or filled the two vectors
    with the given bytes, in order. *)
Inductive readv_result : Type :=
| ReadvError (errno : Z)
| ReadvOk (data : list byte).

(*@ muduo/muduo/net/Buffer.cc 29-29 extrabuf *)
Definition kExtraBuf : Z := 65536.

(** Returns what [readv] returned, [savedErrno] when it was set, and the
    buffer. *)
(*@ muduo/muduo/net/Buffer.cc 26-60 Buffer::readFd *)
Definition readFd (b : Buffer) (r : readv_result) : res (Z * option Z * Buffer) :=
  let writable := writableBytes b in
  match r with
  | ReadvError errno => mret (-1, Some errno, b)
  | ReadvOk d =>
      let n := zlen d in
      if n <=? writable
      then
        b ← copy_to b (writerIndex_ b) d;
        mret (n, None, hasWritten b n)
      else
        b ← copy_to b (writerIndex_ b) (ztake writable d);
        let b := {| buffer_ := buffer_ b; readerIndex_ := readerIndex_ b;
                    writerIndex_ := zlen (buffer_ b) |} in
        let extrabuf := zdrop writable d in
        if n - writable <=? kExtraBuf
        then b ← append b extrabuf; mret (n, None, b)
        else Err BadAccess
  end.

(** ** Well-formedness and the abstract view *)

Record wf (b : Buffer) : Prop := {
  wf_reader : 0 <= readerIndex_ b;
  wf_order : readerIndex_ b <= writerIndex_ b;
  wf_end : writerIndex_ b <= zlen (buffer_ b);
  wf_head : kCheapPrepend <= zlen (buffer_ b);
  wf_size : zlen (buffer_ b) <= vector_max_size
}.

(** The readable bytes. *)
Definition contents (b : Buffer) : list byte :=
  zslice (readerIndex_ b) (writerIndex_ b) (buffer_ b).

(** The abstract queue a buffer stands for: its readable bytes, the number
    of bytes that can certainly be prepended (never more than the 8 of
    [kCheapPrepend] that every operation re-establishes), and a bound on the
    memory it occupies. *)
Record bytequeue : Type := {
  q_bytes : list byte;
  q_room : Z;
  q_cap : Z
}.

Record repr (q : bytequeue) (b : Buffer) : Prop := {
  repr_wf : wf b;
  repr_bytes : contents b = q_bytes q;
  repr_room : 0 <= q_room q <= kCheapPrepend /\ q_room q <= readerIndex_ b;
  repr_cap : zlen (buffer_ b) <= q_cap q
}.

(** The operations a client performs, and what it observes. *)
Inductive bop : Type :=
| OpAppend (d : list byte)
| OpAppendInt32 (x : Z)
| OpPrepend (d : list byte)
| OpPrependInt32 (x : Z)
| OpRetrieve (n : Z)
| OpRetrieveAll
| OpReadInt32
| OpReadString (n : Z)
| OpReadFd (d : list byte).

Inductive bobs : Type :=
| ObsNone
| ObsInt (z : Z)
| ObsBytes (d : list byte).

Definition run_bop (o : bop) (b : Buffer) : res (bobs * Buffer) :=
  match o with
  | OpAppend d => b' ← append b d; mret (ObsNone, b')
  | OpAppendInt32 x => b' ← appendInt32 b x; mret (ObsNone, b')
  | OpPrepend d => b' ← prepend b d; mret (ObsNone, b')
  | OpPrependInt32 x => b' ← prependInt32 b x; mret (ObsNone, b')
  | OpRetrieve n => b' ← retrieve b n; mret (ObsNone, b')
  | OpRetrieveAll => mret (ObsNone, retrieveAll b)
  | OpReadInt32 => '(x, b') ← readInt32 b; mret (ObsInt x, b')
  | OpReadString n => '(s, b') ← retrieveAsString b n; mret (ObsBytes s, b')
  | OpReadFd d => '(n, _, b') ← readFd b (ReadvOk d); mret (ObsInt n, b')
  end.

Fixpoint run_bops (os : list bop) (b : Buffer) : res (list bobs * Buffer) :=
  match os with
  | [] => mret ([], b)
  | o :: os =>
      '(x, b) ← run_bop o b;
      '(xs, b) ← run_bops os b;
      mret (x :: xs, b)
  end.

(** The same operations on the abstract queue; [None] when a client breaks
    the contract (retrieves more than there is, prepends into no room, or
    exhausts the address space). *)
Definition q_push (q : bytequeue) (d : list byte) : option bytequeue :=
  if q_cap q + zlen d <=? vector_max_size
  then Some {| q_bytes := q_bytes q ++ d; q_room := q_room q; q_cap := q_cap q + zlen d |}
  else None.

Definition q_unshift (q : bytequeue) (d : list byte) : option bytequeue :=
  if zlen d <=? q_room q
  then Some {| q_bytes := d ++ q_bytes q; q_room := q_room q - zlen d; q_cap := q_cap q |}
  else None.

Definition q_drop (q : bytequeue) (n : Z) : option bytequeue :=
  if (0 <=? n) && (n <=? zlen (q_bytes q))
  then Some {| q_bytes := zdrop n (q_bytes q);
               q_room := if n =? zlen (q_bytes q) then kCheapPrepend
                         else Z.min kCheapPrepend (q_room q + n);
               q_cap := q_cap q |}
  else None.

Definition q_bop (o : bop) (q : bytequeue) : option (bobs * bytequeue) :=
  match o with
  | OpAppend d => pair ObsNone <$> q_push q d
  | OpAppendInt32 x => pair ObsNone <$> q_push q (be_bytes 4 x)
  | OpPrepend d => pair ObsNone <$> q_unshift q d
  | OpPrependInt32 x => pair ObsNone <$> q_unshift q (be_bytes 4 x)
  | OpRetrieve n => pair ObsNone <$> q_drop q n
  | OpRetrieveAll => pair ObsNone <$> q_drop q (zlen (q_bytes q))
  | OpReadInt32 => pair (ObsInt (s32 (be_val (ztake 4 (q_bytes q))))) <$> q_drop q 4
  | OpReadString n => pair (ObsBytes (ztake n (q_bytes q))) <$> q_drop q n
  | OpReadFd d =>
      if zlen d <=? kExtraBuf then pair (ObsInt (zlen d)) <$> q_push q d else None
  end.

Fixpoint q_bops (os : list bop) (q : bytequeue) : option (list bobs * bytequeue) :=
  match os with
  | [] => Some ([], q)
  | o :: os =>
      '(x, q) ← q_bop o q;
      '(xs, q) ← q_bops os q;
      Some (x :: xs, q)
  end.

Definition q_empty : bytequeue :=
  {| q_bytes := []; q_room := kCheapPrepend; q_cap := kCheapPrepend + kInitialSize |}.

(** [lia] with the constants and the projections of concrete buffers. *)
Ltac buflia :=
  cbn [q_bytes q_room q_cap buffer_ readerIndex_ writerIndex_ retrieveAll hasWritten] in *;
  unfold kCheapPrepend, kInitialSize, vector_max_size in *; lia.

(** ** Lemmas: sizes *)

Section sizes.
Context (b : Buffer) (Hwf : wf b).

Lemma readable_eq : readableBytes b = writerIndex_ b - readerIndex_ b.
Proof using Hwf.
  destruct Hwf. unfold readableBytes, vector_max_size in *. apply u64_small. lia.
Qed.
Lemma writable_eq : writableBytes b = zlen (buffer_ b) - writerIndex_ b.
Proof using Hwf.
  destruct Hwf. unfold writableBytes, vector_max_size in *. apply u64_small. lia.
Qed.
Lemma contents_len : zlen (contents b) = writerIndex_ b - readerIndex_ b.
Proof using Hwf. destruct Hwf. unfold contents. apply zlen_zslice; lia. Qed.
Lemma contents_readable : readableBytes b = zlen (contents b).
Proof using Hwf. by rewrite readable_eq, contents_len. Qed.
Lemma read_contents : mem_read (readerIndex_ b) (writerIndex_ b) (buffer_ b) = Ok (contents b).
Proof using Hwf. destruct Hwf. apply mem_read_ok; lia. Qed.
Lemma read_readable : mem_read (peek b) (peek b + readableBytes b) (buffer_ b) = Ok (contents b).
Proof using Hwf.
  rewrite <- read_contents. f_equal. destruct Hwf. unfold peek, readableBytes, vector_max_size in *. rewrite u64_small; lia.
Qed.
Lemma contents_small : zlen (contents b) < 2 ^ 63.
Proof using Hwf. destruct Hwf. unfold contents, vector_max_size in *. rewrite zlen_zslice; lia. Qed.
Lemma read_prefix n :
  0 <= n <= zlen (contents b) ->
  mem_read (peek b) (peek b + n) (buffer_ b) = Ok (ztake n (contents b)).
Proof using Hwf.
  intros. rewrite contents_len in *. destruct Hwf. unfold peek. rewrite mem_read_ok by lia.
  unfold contents. rewrite ztake_zslice by lia. done.
Qed.
End sizes.

Lemma wf_mk buf r w :
  0 <= r <= w -> w <= zlen buf -> kCheapPrepend <= zlen buf <= vector_max_size ->
  wf (mkBuffer buf r w).
Proof. intros. split; buflia. Qed.

Lemma repr_mk l rm cap buf r w :
  0 <= r <= w -> w <= zlen buf -> kCheapPrepend <= zlen buf <= vector_max_size ->
  zslice r w buf = l -> 0 <= rm <= kCheapPrepend -> rm <= r -> zlen buf <= cap ->
  repr {| q_bytes := l; q_room := rm; q_cap := cap |} (mkBuffer buf r w).
Proof. intros. split; [by apply wf_mk | done | buflia | buflia]. Qed.

(** What a represented buffer looks like, as linear facts. *)
Lemma repr_inv q b :
  repr q b ->
  wf b /\ 0 <= readerIndex_ b /\ readerIndex_ b <= writerIndex_ b
  /\ writerIndex_ b <= zlen (buffer_ b)
  /\ kCheapPrepend <= zlen (buffer_ b) /\ zlen (buffer_ b) <= vector_max_size
  /\ 0 <= q_room q /\ q_room q <= kCheapPrepend /\ q_room q <= readerIndex_ b
  /\ zlen (buffer_ b) <= q_cap q
  /\ readableBytes b = writerIndex_ b - readerIndex_ b
  /\ writableBytes b = zlen (buffer_ b) - writerIndex_ b
  /\ zlen (q_bytes q) = writerIndex_ b - readerIndex_ b
  /\ contents b = q_bytes q.
Proof.
  intros [Hwf Hb Hr Hc]. pose proof (readable_eq b Hwf). pose proof (writable_eq b Hwf).
  pose proof (contents_len b Hwf). rewrite Hb in *. destruct Hwf. split_and!; done || lia.
Qed.

Lemma wf_new : wf Buffer_new.
Proof. split; vm_compute; congruence. Qed.

Lemma repr_new : repr q_empty Buffer_new.
Proof. split; [apply wf_new | done | vm_compute; intuition congruence | vm_compute; congruence]. Qed.

(** ** Lemmas: each operation implements its abstract counterpart *)

Lemma retrieveAll_repr q b :
  repr q b ->
  repr {| q_bytes := []; q_room := kCheapPrepend; q_cap := q_cap q |} (retrieveAll b).
Proof.
  intros [Hwf Hb Hr Hc]. pose proof (wf_head _ Hwf). pose proof (wf_size _ Hwf).
  unfold kCheapPrepend in *.
  split; [split; buflia | apply zslice_empty | buflia | done].
Qed.

Ltac repr_inv H :=
  let Hwf := fresh "Hwf" in
  pose proof (repr_inv _ _ H) as (Hwf & ? & ? & ? & ? & ? & ? & ? & ? & ? & ? & ? & ? & ?).

Lemma retrieve_repr q b n q' :
  repr q b -> q_drop q n = Some q' -> exists b', retrieve b n = Ok b' /\ repr q' b'.
Proof.
  intros H Hq. repr_inv H. unfold q_drop in Hq.
  destruct ((0 <=? n) && (n <=? zlen (q_bytes q))) eqn:En; simplify_eq.
  unfold retrieve. step_assert; [blia |].
  destruct (n <? readableBytes b) eqn:Elt; eexists; (split; [done |]).
  - rewrite u64_small by (buflia || blia).
    rewrite (proj2 (Z.eqb_neq n (zlen (q_bytes q)))) by lia.
    apply repr_mk; try (buflia || blia).
    replace (q_bytes q) with (contents b). unfold contents. rewrite zdrop_zslice by blia. done.
  - replace n with (zlen (q_bytes q)) by blia.
    rewrite Z.eqb_refl, zdrop_all by lia. by apply retrieveAll_repr.
Qed.

(** ** Lemmas: making room *)

Lemma vector_resize_ok n v :
  zlen v <= n <= vector_max_size ->
  vector_resize n v = Ok (v ++ replicate (Z.to_nat (n - zlen v)) NUL).
Proof.
  intros. unfold vector_resize. rewrite (proj2 (Z.leb_le _ _)) by lia.
  rewrite ztake_all by lia. done.
Qed.

(** [makeSpace] keeps the readable bytes and the cheap prepend room, and its
    assertion never fires: either the vector grows or the bytes move down to
    offset 8, and in the second case the read index is past it. *)
Lemma makeSpace_repr q b len :
  repr q b -> 0 <= len -> q_cap q + len <= vector_max_size -> writableBytes b < len ->
  exists b', makeSpace b len = Ok b'
    /\ repr {| q_bytes := q_bytes q; q_room := q_room q; q_cap := q_cap q + len |} b'
    /\ len <= writableBytes b'.
Proof.
  intros H Hlen Hmax Hw. repr_inv H.
  unfold makeSpace, prependableBytes.
  rewrite !u64_small by buflia. destruct (_ <? _) eqn:E.
  - rewrite vector_resize_ok by buflia. eexists; split; [done |].
    match goal with |- context [replicate ?n ?x] =>
      assert (zlen (buffer_ b ++ replicate n x) = writerIndex_ b + len) as Eb
        by (rewrite zlen_app, zlen_replicate; lia) end.
    split.
    + apply repr_mk; rewrite ?Eb; try buflia. by rewrite zslice_app_l by lia.
    + rewrite writable_eq by (apply wf_mk; rewrite ?Eb; buflia).
      cbn [buffer_ writerIndex_]. rewrite Eb. buflia.
  - step_assert; [buflia |]. rewrite read_contents by done. rsimp.
    replace (contents b) with (q_bytes q).
    rewrite mem_write_ok by buflia. rsimp.
    pose proof (mem_written_len kCheapPrepend (q_bytes q) (buffer_ b)
                  ltac:(buflia) ltac:(buflia)) as Eb.
    pose proof (mem_written_at kCheapPrepend (q_bytes q) (buffer_ b)
                  ltac:(buflia) ltac:(buflia)) as Ew.
    set (v := _ ++ _ ++ _) in *.
    replace (readableBytes b) with (zlen (q_bytes q)) by lia.
    assert (wf (mkBuffer v kCheapPrepend (kCheapPrepend + zlen (q_bytes q)))) as Hwf'
      by (apply wf_mk; rewrite ?Eb; buflia).
    step_assert; [rewrite (readable_eq _ Hwf'); buflia |].
    eexists; split; [done |]. split.
    + apply repr_mk; rewrite ?Eb; buflia || done.
    + rewrite (writable_eq _ Hwf'). cbn [buffer_ writerIndex_]. rewrite Eb. buflia.
Qed.

Lemma ensureWritableBytes_repr q b len :
  repr q b -> 0 <= len -> q_cap q + len <= vector_max_size ->
  exists b', ensureWritableBytes b len = Ok b'
    /\ repr {| q_bytes := q_bytes q; q_room := q_room q; q_cap := q_cap q + len |} b'
    /\ len <= writableBytes b'.
Proof.
  intros H Hlen Hmax. unfold ensureWritableBytes. destruct (_ <? _) eqn:E.
  - destruct (makeSpace_repr q b len) as (b' & -> & Hb' & Hw); [done | done | done | lia |].
    rsimp. step_assert; [lia |]. eauto.
  - rsimp. step_assert; [lia |]. exists b. split_and!; [done | | lia].
    destruct H. split; done || buflia.
Qed.

(** Writing into the writable tail. *)
Lemma copy_to_tail q b d :
  repr q b -> zlen d <= writableBytes b ->
  exists b', copy_to b (writerIndex_ b) d = Ok b'
    /\ repr {| q_bytes := q_bytes q ++ d; q_room := q_room q; q_cap := q_cap q |}
            (hasWritten b' (zlen d))
    /\ writerIndex_ b' = writerIndex_ b /\ zlen (buffer_ b') = zlen (buffer_ b).
Proof.
  intros H Hd. repr_inv H. pose proof (zlen_nonneg d).
  unfold copy_to. rewrite mem_write_ok by lia. eexists; split; [done |].
  pose proof (mem_written_len (writerIndex_ b) d (buffer_ b) ltac:(lia) ltac:(lia)) as Eb.
  split; [| done]. unfold hasWritten. cbn [buffer_ readerIndex_ writerIndex_].
  rewrite u64_small by buflia.
  apply repr_mk; rewrite ?Eb; try buflia.
  rewrite <- (zslice_split _ (writerIndex_ b)) by lia.
  rewrite mem_written_at, mem_written_before by lia.
  by replace (q_bytes q) with (contents b).
Qed.

Lemma append_repr q b d q' :
  repr q b -> q_push q d = Some q' -> exists b', append b d = Ok b' /\ repr q' b'.
Proof.
  intros Hrep Hq. unfold q_push in Hq. destruct (_ <=? _) eqn:E; simplify_eq.
  destruct (ensureWritableBytes_repr q b (zlen d)) as (b1 & E1 & H1 & W1);
    [done | apply zlen_nonneg | lia |].
  destruct (copy_to_tail _ b1 d H1 W1) as (b2 & E2 & H2 & _).
  unfold append, beginWrite. rewrite E1. rsimp. rewrite E2. eauto.
Qed.

Lemma prepend_repr q b d q' :
  repr q b -> q_unshift q d = Some q' -> exists b', prepend b d = Ok b' /\ repr q' b'.
Proof.
  intros H Hq. unfold q_unshift in Hq. destruct (_ <=? _) eqn:E; simplify_eq.
  repr_inv H. pose proof (zlen_nonneg d).
  unfold prepend, prependableBytes. step_assert; [lia |].
  unfold copy_to. cbn [readerIndex_ writerIndex_ buffer_].
  rewrite u64_small by buflia.
  rewrite mem_write_ok by lia. eexists; split; [done |].
  pose proof (mem_written_len (readerIndex_ b - zlen d) d (buffer_ b) ltac:(lia) ltac:(lia)) as Eb.
  apply repr_mk; rewrite ?Eb; try buflia.
  rewrite <- (zslice_split _ (readerIndex_ b - zlen d + zlen d)) by lia.
  rewrite mem_written_at by lia. rewrite mem_written_after by lia.
  replace (readerIndex_ b - zlen d + zlen d) with (readerIndex_ b) by lia.
  by replace (q_bytes q) with (contents b).
Qed.

(** ** Lemmas: reading *)

Lemma read_prefix_repr q b n :
  repr q b -> 0 <= n <= zlen (q_bytes q) ->
  mem_read (peek b) (peek b + n) (buffer_ b) = Ok (ztake n (q_bytes q)).
Proof.
  intros [Hwf E _ _] Hn. rewrite <- E in *. by apply read_prefix.
Qed.

Lemma q_drop_range q n q' : q_drop q n = Some q' -> 0 <= n <= zlen (q_bytes q).
Proof. unfold q_drop. destruct (_ && _) eqn:E; [| done]. intros. blia. Qed.

Lemma q_drop_all q :
  q_drop q (zlen (q_bytes q))
  = Some {| q_bytes := []; q_room := kCheapPrepend; q_cap := q_cap q |}.
Proof.
  unfold q_drop. pose proof (zlen_nonneg (q_bytes q)).
  destruct (_ && _) eqn:E; [| blia]. rewrite Z.eqb_refl, zdrop_all by lia. done.
Qed.

Lemma repr_weaken q q' b :
  repr q b -> q_bytes q' = q_bytes q -> 0 <= q_room q' <= q_room q -> q_cap q <= q_cap q' ->
  repr q' b.
Proof. intros [????] E ??. split; [done | congruence | lia | lia]. Qed.

Lemma retrieveAsString_repr q b n q' :
  repr q b -> q_drop q n = Some q' ->
  exists b', retrieveAsString b n = Ok (ztake n (q_bytes q), b') /\ repr q' b'.
Proof.
  intros H Hq. pose proof (q_drop_range _ _ _ Hq). repr_inv H.
  destruct (retrieve_repr _ _ _ _ H Hq) as (b' & E & Hb').
  exists b'. split; [| done]. unfold retrieveAsString. step_assert; [lia |].
  rewrite (read_prefix_repr q) by done. rsimp. by rewrite E.
Qed.

Lemma retrieveAllAsString_repr q b :
  repr q b ->
  exists b', retrieveAllAsString b = Ok (q_bytes q, b')
    /\ repr {| q_bytes := []; q_room := kCheapPrepend; q_cap := q_cap q |} b'.
Proof.
  intros H. repr_inv H. unfold retrieveAllAsString.
  replace (readableBytes b) with (zlen (q_bytes q)) by lia.
  destruct (retrieveAsString_repr q b (zlen (q_bytes q))
    {| q_bytes := []; q_room := kCheapPrepend; q_cap := q_cap q |}) as (b' & E & ?); [done | |].
  - apply q_drop_all.
  - exists b'. by rewrite ztake_all in E by lia.
Qed.

Lemma peekInt32_repr q b :
  repr q b -> 4 <= zlen (q_bytes q) -> peekInt32 b = Ok (s32 (be_val (ztake 4 (q_bytes q)))).
Proof.
  intros H Hl. repr_inv H. unfold peekInt32. step_assert; [lia |].
  rewrite (read_prefix_repr q) by (done || lia). rsimp.
  unfold networkToHost32. change u32 with (wrapu (8 * Z.of_nat 4)).
  rewrite networkToHost_image; [done |].
  apply Nat2Z.inj. fold (zlen (ztake 4 (q_bytes q))). rewrite zlen_ztake; lia.
Qed.

Lemma readInt32_repr q b q' :
  repr q b -> q_drop q 4 = Some q' ->
  exists b', readInt32 b = Ok (s32 (be_val (ztake 4 (q_bytes q))), b') /\ repr q' b'.
Proof.
  intros H Hq. pose proof (q_drop_range _ _ _ Hq).
  destruct (retrieve_repr _ _ _ _ H Hq) as (b' & E & Hb').
  exists b'. split; [| done]. unfold readInt32, retrieveInt32.
  rewrite (peekInt32_repr q) by (done || lia). rsimp. by rewrite E.
Qed.

Lemma int32_image x : le_bytes 4 (s32 (hostToNetwork32 x)) = be_bytes 4 x.
Proof.
  rewrite <- hostToNetwork32_image, <- (le_bytes_wrap 4 (s32 _)).
  unfold s32. rewrite wrapu_wraps by lia. apply (le_bytes_wrap 4).
Qed.

Lemma appendInt32_repr q b x q' :
  repr q b -> q_push q (be_bytes 4 x) = Some q' ->
  exists b', appendInt32 b x = Ok b' /\ repr q' b'.
Proof. unfold appendInt32. rewrite int32_image. apply append_repr. Qed.

Lemma prependInt32_repr q b x q' :
  repr q b -> q_unshift q (be_bytes 4 x) = Some q' ->
  exists b', prependInt32 b x = Ok b' /\ repr q' b'.
Proof. unfold prependInt32. rewrite int32_image. apply prepend_repr. Qed.

(** [readFd] appends what arrived, whether it fitted in the writable tail or
    spilled into the 64K stack buffer. *)
Lemma readFd_repr q b d q' :
  repr q b -> zlen d <= kExtraBuf -> q_push q d = Some q' ->
  exists b', readFd b (ReadvOk d) = Ok (zlen d, None, b') /\ repr q' b'.
Proof.
  intros H Hx Hq. repr_inv H. unfold readFd. destruct (zlen d <=? writableBytes b) eqn:E.
  - unfold q_push in Hq. destruct (_ <=? vector_max_size) eqn:?; simplify_eq.
    destruct (copy_to_tail q b d H) as (b1 & -> & Hb1 & _); [lia |].
    eexists; split; [done |].
    destruct Hb1 as [? ? ? ?]. pose proof (zlen_nonneg d). split; done || buflia.
  - set (w := writableBytes b) in *. pose proof (zlen_nonneg d).
    assert (0 <= w <= zlen d) as Hw by lia.
    destruct (copy_to_tail q b (ztake w d) H) as (b1 & -> & Hb1 & Eb1 & Eb2);
      [rewrite zlen_ztake; lia |].
    rsimp. rewrite (proj2 (Z.leb_le _ _)) by lia.
    unfold hasWritten in Hb1. rewrite Eb1, zlen_ztake in Hb1 by lia.
    replace (u64 (writerIndex_ b + w)) with (zlen (buffer_ b1)) in Hb1
      by (rewrite u64_small; buflia).
    unfold q_push in Hq. destruct (q_cap q + zlen d <=? vector_max_size) eqn:?; simplify_eq.
    edestruct append_repr as (b2 & -> & Hb2); [exact Hb1 | |].
    { unfold q_push. cbn [q_cap]. rewrite zlen_zdrop by lia.
      rewrite (proj2 (Z.leb_le _ _)) by lia. reflexivity. }
    eexists; split; [done |]. eapply repr_weaken; [exact Hb2 | | |];
      cbn [q_bytes q_room q_cap]; [by rewrite <- app_assoc, ztake_zdrop | lia | lia].
Qed.

(** ** Lemmas used by the clients *)

Lemma findCRLF_repr q b :
  repr q b -> findCRLF b = Ok (Z.add (peek b) <$> find_sub kCRLF (q_bytes q)).
Proof.
  intros H. repr_inv H. unfold findCRLF, peek, beginWrite. rewrite read_contents by done.
  replace (contents b) with (q_bytes q). done.
Qed.

Lemma retrieveUntil_repr q b n q' :
  repr q b -> q_drop q n = Some q' ->
  exists b', retrieveUntil b (peek b + n) = Ok b' /\ repr q' b'.
Proof.
  intros H Hq. pose proof (q_drop_range _ _ _ Hq). repr_inv H.
  destruct (retrieve_repr _ _ _ _ H Hq) as (b' & E & Hb').
  exists b'. split; [| done]. unfold retrieveUntil, beginWrite, peek in *.
  step_assert; [lia |]. step_assert; [lia |].
  replace (readerIndex_ b + n - readerIndex_ b) with n by lia. done.
Qed.

Lemma q_drop_some q n :
  0 <= n <= zlen (q_bytes q) ->
  q_drop q n = Some {| q_bytes := zdrop n (q_bytes q);
                       q_room := if n =? zlen (q_bytes q) then kCheapPrepend
                                 else Z.min kCheapPrepend (q_room q + n);
                       q_cap := q_cap q |}.
Proof. intros. unfold q_drop. destruct (_ && _) eqn:E; [done | blia]. Qed.

Lemma q_push_some q d :
  q_cap q + zlen d <= vector_max_size ->
  q_push q d = Some {| q_bytes := q_bytes q ++ d; q_room := q_room q; q_cap := q_cap q + zlen d |}.
Proof. intros. unfold q_push. destruct (_ <=? _) eqn:E; [done | lia]. Qed.

Lemma q_unshift_some q d :
  zlen d <= q_room q ->
  q_unshift q d = Some {| q_bytes := d ++ q_bytes q; q_room := q_room q - zlen d; q_cap := q_cap q |}.
Proof. intros. unfold q_unshift. destruct (_ <=? _) eqn:E; [done | lia]. Qed.

(** ** The view of a client that only cares about the bytes

    Unlike [repr], [holds] bounds no memory: an operation that must grow the
    vector beyond [max_size()] throws. *)

Definition holds (l : list byte) (b : Buffer) : Prop := wf b /\ contents b = l.

Lemma holds_repr l b :
  holds l b -> repr {| q_bytes := l; q_room := 0; q_cap := zlen (buffer_ b) |} b.
Proof. intros [Hwf Hc]. pose proof Hwf as []. split; cbn; done || buflia. Qed.
Lemma repr_holds q b : repr q b -> holds (q_bytes q) b.
Proof. by intros []. Qed.
Lemma holds_new : holds [] Buffer_new.
Proof. exact (repr_holds _ _ repr_new). Qed.
Lemma holds_readable l b : holds l b -> readableBytes b = zlen l.
Proof. intros [Hwf <-]. by apply contents_readable. Qed.

Lemma retrieve_holds l b n :
  holds l b -> 0 <= n <= zlen l -> exists b', retrieve b n = Ok b' /\ holds (zdrop n l) b'.
Proof.
  intros H Hn. destruct (retrieve_repr _ _ n _ (holds_repr _ _ H) (q_drop_some {| q_bytes := l; q_room := 0; q_cap := zlen (buffer_ b) |} n Hn))
    as (b' & -> & Hb'). exists b'. split; [done |]. exact (repr_holds _ _ Hb').
Qed.
Lemma retrieveAll_holds l b : holds l b -> holds [] (retrieveAll b).
Proof. intros [Hwf _]. pose proof Hwf as []. split; [by apply wf_mk; buflia | apply zslice_empty]. Qed.

Lemma findCRLF_holds l b : holds l b -> findCRLF b = Ok (Z.add (peek b) <$> find_sub kCRLF l).
Proof. intros H. exact (findCRLF_repr _ _ (holds_repr _ _ H)). Qed.

Lemma crlf_range l i : find_sub kCRLF l = Some i -> 0 <= i /\ i + 2 <= zlen l.
Proof. intros H. apply find_sub_Some in H as (H1 & H2 & _). change (zlen kCRLF) with 2 in H2. lia. Qed.

Lemma findCRLF_from_holds l b i :
  holds l b -> 0 <= i <= zlen l ->
  findCRLF_from b (peek b + i) = Ok (Z.add (peek b + i) <$> find_sub kCRLF (zdrop i l)).
Proof.
  intros [Hwf <-] Hi. rewrite (contents_len b Hwf) in Hi. destruct Hwf.
  unfold findCRLF_from, beginWrite, peek, contents in *.
  step_assert; [lia |]. step_assert; [lia |]. rewrite mem_read_ok by lia. rsimp.
  do 3 f_equal. unfold zslice. rewrite zdrop_ztake by lia. rewrite zdrop_zdrop by lia. f_equal. lia.
Qed.

Lemma retrieveUntil_holds l b n :
  holds l b -> 0 <= n <= zlen l ->
  exists b', retrieveUntil b (peek b + n) = Ok b' /\ holds (zdrop n l) b'.
Proof.
  intros H Hn.
  destruct (retrieveUntil_repr _ _ n _ (holds_repr _ _ H)
              (q_drop_some {| q_bytes := l; q_room := 0; q_cap := zlen (buffer_ b) |} n Hn))
    as (b' & -> & Hb'). exists b'. split; [done |]. exact (repr_holds _ _ Hb').
Qed.

Lemma makeSpace_holds l b len :
  holds l b -> 0 <= len < 2 ^ 63 -> writableBytes b < len ->
  safe (makeSpace b len) (fun b' => holds l b' /\ len <= writableBytes b').
Proof.
  intros H Hlen Hw. pose proof (holds_repr _ _ H) as Hr. repr_inv Hr. destruct H as [_ Hc].
  unfold makeSpace. destruct (_ <? _) eqn:E.
  - rewrite u64_small by buflia. unfold vector_resize. destruct (_ <=? vector_max_size) eqn:Em; [| done].
    rewrite ztake_all by lia. rsimp. cbn [safe].
    match goal with |- context [replicate ?n ?x] =>
      assert (zlen (buffer_ b ++ replicate n x) = writerIndex_ b + len) as Eb
        by (rewrite zlen_app, zlen_replicate; lia) end.
    assert (Hwf' : wf (mkBuffer (buffer_ b ++ replicate (Z.to_nat (writerIndex_ b + len - zlen (buffer_ b))) NUL)
      (readerIndex_ b) (writerIndex_ b))) by (apply wf_mk; rewrite ?Eb; buflia).
    split; [split; [done |] |].
    + unfold contents. cbn [buffer_ readerIndex_ writerIndex_]. rewrite zslice_app_l by lia. done.
    + rewrite writable_eq by done. cbn [buffer_ writerIndex_]. rewrite Eb. buflia.
  - destruct (Z.leb_spec (zlen (buffer_ b) + len) vector_max_size) as [Hle | Hgt].
    + destruct (makeSpace_repr _ b len Hr) as (b' & E' & Hb' & Hl); [lia | done | done |].
      unfold makeSpace in E'. rewrite E in E'. rewrite E'. cbn [safe].
      split; [exact (repr_holds _ _ Hb') | done].
    + unfold prependableBytes in E. rewrite !u64_small in E by buflia.
      step_assert; [buflia |]. rewrite read_contents by done. rsimp. rewrite Hc.
      rewrite mem_write_ok by buflia. rsimp.
      pose proof (mem_written_len kCheapPrepend l (buffer_ b) ltac:(buflia) ltac:(buflia)) as Eb.
      pose proof (mem_written_at kCheapPrepend l (buffer_ b) ltac:(buflia) ltac:(buflia)) as Ew.
      set (v := _ ++ _ ++ _) in *. cbn [q_bytes] in *.
      replace (readableBytes b) with (zlen l) by lia.
      assert (Hwf' : wf (mkBuffer v kCheapPrepend (kCheapPrepend + zlen l)))
        by (apply wf_mk; rewrite ?Eb; buflia).
      rewrite u64_small by buflia. step_assert; [rewrite (readable_eq _ Hwf'); buflia |].
      cbn [safe mret res_ret]. split; [by split |].
      rewrite (writable_eq _ Hwf'). cbn [buffer_ writerIndex_]. rewrite Eb. buflia.
Qed.

Lemma append_holds_max l b d :
  holds l b -> zlen d < 2 ^ 63 -> safe (append b d) (holds (l ++ d)).
Proof.
  intros H Hd. pose proof (zlen_nonneg d). unfold append.
  eapply safe_bind with (P := fun b' => holds l b' /\ zlen d <= writableBytes b').
  - unfold ensureWritableBytes. destruct (_ <? _) eqn:E.
    + eapply safe_bind; [apply (makeSpace_holds l b (zlen d)); [done | lia | lia] |].
      intros b' [Hb' Hw]. step_assert; [lia |]. by split.
    + rsimp. step_assert; [lia |]. split; [done | lia].
  - intros b' [Hb' Hw]. destruct (copy_to_tail _ b' d (holds_repr _ _ Hb') Hw) as (b2 & E2 & H2 & _).
    unfold beginWrite. rewrite E2. rsimp. exact (repr_holds _ _ H2).
Qed.
(** With messages bounded the way most servers bound them. *)
Lemma append_holds l b d :
  holds l b -> zlen d < 2 ^ 62 -> safe (append b d) (holds (l ++ d)).
Proof. intros H Hd. apply append_holds_max; [done | lia]. Qed.

(** The room in front of the data: nothing but [prepend] takes it away. *)
Lemma copy_to_reader b pos d b' : copy_to b pos d = Ok b' -> readerIndex_ b' = readerIndex_ b.
Proof. unfold copy_to. intros H. inv_res. done. Qed.
Lemma append_room b d b' : append b d = Ok b' ->
  readerIndex_ b' = readerIndex_ b \/ readerIndex_ b' = kCheapPrepend.
Proof.
  unfold append. intros H. inv_res. apply copy_to_reader in Hr0.
  change (readerIndex_ (hasWritten r0 (zlen d))) with (readerIndex_ r0). rewrite Hr0. clear Hr0.
  unfold ensureWritableBytes in Hr. destruct (_ <? _).
  - inv_res. unfold makeSpace in Hr0. destruct (_ <? _).
    + inv_res. by left.
    + inv_res. by right.
  - inv_res. by left.
Qed.
Lemma retrieve_room l b n b' : holds l b -> 0 <= n -> retrieve b n = Ok b' ->
  readerIndex_ b <= readerIndex_ b' \/ readerIndex_ b' = kCheapPrepend.
Proof.
  intros H Hn. pose proof (holds_repr _ _ H) as Hr. repr_inv Hr. unfold retrieve. intros Hb. inv_res.
  destruct (n <? readableBytes b) eqn:E; inv_res; [| by right].
  left. cbn [readerIndex_]. rewrite u64_small by buflia. lia.
Qed.

Lemma prepend_holds l b d :
  holds l b -> zlen d <= readerIndex_ b -> zlen d <= kCheapPrepend ->
  exists b', prepend b d = Ok b' /\ holds (d ++ l) b' /\ readerIndex_ b' = readerIndex_ b - zlen d.
Proof.
  intros H Hd Hk. pose proof (holds_repr _ _ H) as Hr. repr_inv Hr. pose proof (zlen_nonneg d).
  destruct (prepend_repr {| q_bytes := l; q_room := Z.min kCheapPrepend (readerIndex_ b); q_cap := zlen (buffer_ b) |} b d
    {| q_bytes := d ++ l; q_room := Z.min kCheapPrepend (readerIndex_ b) - zlen d; q_cap := zlen (buffer_ b) |})
    as (b' & Hp & Hb').
  - destruct Hr as [? ? ? ?]. split; try done. buflia.
  - unfold q_unshift. cbn [q_room q_bytes q_cap]. rewrite (proj2 (Z.leb_le _ _)) by lia. done.
  - exists b'. split; [done |]. split; [exact (repr_holds _ _ Hb') |].
    unfold prepend in Hp. inv_res. apply copy_to_reader in Hp. rewrite Hp. cbn [readerIndex_].
    rewrite u64_small; [done | buflia].
Qed.

Lemma readFd_holds l b d :
  holds l b -> zlen d <= writableBytes b + kExtraBuf ->
  safe (readFd b (ReadvOk d)) (fun '(n, _, b') => n = zlen d /\ holds (l ++ d) b').
Proof.
  intros H Hd. pose proof (holds_repr _ _ H) as Hr. repr_inv Hr.
  pose proof (zlen_nonneg d). unfold readFd. destruct (zlen d <=? writableBytes b) eqn:E.
  - destruct (copy_to_tail _ b d Hr) as (b1 & -> & Hb1 & _); [lia |]. rsimp.
    split; [done |]. exact (repr_holds _ _ Hb1).
  - set (w := writableBytes b) in *. assert (0 <= w <= zlen d) as Hw by lia.
    destruct (copy_to_tail _ b (ztake w d) Hr) as (b1 & -> & Hb1 & Eb1 & Eb2); [rewrite zlen_ztake; lia |].
    rsimp. rewrite (proj2 (Z.leb_le _ _)) by lia.
    unfold hasWritten in Hb1. rewrite Eb1, zlen_ztake in Hb1 by lia.
    replace (u64 (writerIndex_ b + w)) with (zlen (buffer_ b1)) in Hb1 by (rewrite u64_small; buflia).
    apply repr_holds in Hb1. cbn [q_bytes] in Hb1.
    eapply safe_bind; [apply append_holds; [exact Hb1 |] |].
    + rewrite zlen_zdrop by lia. unfold kExtraBuf in *. lia.
    + intros b2 Hb2. split; [done |]. by rewrite <- app_assoc, ztake_zdrop in Hb2.
Qed.

Lemma run_bop_repr o q b x q' :
  repr q b -> q_bop o q = Some (x, q') ->
  exists b', run_bop o b = Ok (x, b') /\ repr q' b'.
Proof.
  intros H Hq. destruct o; cbn [run_bop q_bop] in Hq |- *;
    try (destruct (zlen d <=? kExtraBuf) eqn:?; [| done]);
    (apply fmap_Some in Hq as (q1 & Hq & E) || done); simplify_eq.
  - destruct (append_repr _ _ _ _ H Hq) as (? & -> & ?). eauto.
  - destruct (appendInt32_repr _ _ _ _ H Hq) as (? & -> & ?). eauto.
  - destruct (prepend_repr _ _ _ _ H Hq) as (? & -> & ?). eauto.
  - destruct (prependInt32_repr _ _ _ _ H Hq) as (? & -> & ?). eauto.
  - destruct (retrieve_repr _ _ _ _ H Hq) as (? & -> & ?). eauto.
  - rewrite q_drop_all in Hq. simplify_eq. eauto using retrieveAll_repr.
  - destruct (readInt32_repr _ _ _ H Hq) as (? & -> & ?). eauto.
  - destruct (retrieveAsString_repr _ _ _ _ H Hq) as (? & -> & ?). eauto.
  - destruct (readFd_repr _ _ d _ H ltac:(lia) Hq) as (? & -> & ?). eauto.
Qed.

(** ** Properties *)

(** C1: a [Buffer] implements the byte queue.  Whatever sequence of appends,
    prepends, retrieves, integer and string reads and descriptor reads a client
    performs within the contract, the vector code never faults (no assertion
    fires, no byte outside the vector is touched, no [size_t] wraps), observes
    exactly what the abstract queue of bytes gives, and still represents it
    afterwards, with the 8 bytes of prepend room accounted for. *)
Theorem run_bops_refines os q b xs q' :
  repr q b -> q_bops os q = Some (xs, q') ->
  exists b', run_bops os b = Ok (xs, b') /\ repr q' b'.
Proof.
  revert q b xs. induction os as [|o os IH]; intros q b xs H Hq; simpl in Hq |- *.
  - simplify_eq. eauto.
  - destruct (q_bop o q) as [[x q1]|] eqn:E1; [| done]. simpl in Hq.
    destruct (q_bops os q1) as [[xs1 q2]|] eqn:E2; simplify_eq/=.
    destruct (run_bop_repr _ _ _ _ _ H E1) as (b1 & -> & H1). simpl.
    destruct (IH _ _ _ H1 E2) as (b2 & -> & H2). simpl. eauto.
Qed.

Definition demo_bops : list bop :=
  [OpAppend (bs "hello"); OpRetrieve 2; OpAppendInt32 (-5); OpPrepend (bs "AB");
   OpReadString 5; OpPrependInt32 77; OpReadInt32; OpReadInt32;
   OpReadFd (replicate 2000 SP); OpRetrieve 1999; OpRetrieveAll].

Lemma run_bops_refines_witness :
  exists xs b', run_bops demo_bops Buffer_new = Ok (xs, b')
    /\ xs = [ObsNone; ObsNone; ObsNone; ObsNone; ObsBytes (bs "ABllo"); ObsNone;
             ObsInt 77; ObsInt (-5); ObsInt 2000; ObsNone; ObsNone]
    /\ contents b' = [].
Proof.
  pose proof (run_bops_refines demo_bops q_empty Buffer_new
    [ObsNone; ObsNone; ObsNone; ObsNone; ObsBytes (bs "ABllo"); ObsNone;
     ObsInt 77; ObsInt (-5); ObsInt 2000; ObsNone; ObsNone]
    {| q_bytes := []; q_room := 8; q_cap := 3041 |} repr_new) as H.
  destruct H as (b' & H & Hb'); [vm_compute; reflexivity |].
  exists [ObsNone; ObsNone; ObsNone; ObsNone; ObsBytes (bs "ABllo"); ObsNone;
     ObsInt 77; ObsInt (-5); ObsInt 2000; ObsNone; ObsNone], b'.
  split; [exact H | split; [reflexivity | exact (repr_bytes _ _ Hb')]].
Defined.

(** integers survive the wire.  Appending any [int32_t] (or prepending it)
    and reading it back gives the same value, and the bytes in between are the
    four big-endian bytes of network order. *)
Theorem int32_roundtrip q b x :
  repr q b -> q_bytes q = [] -> - 2 ^ 31 <= x < 2 ^ 31 -> q_cap q + 4 <= vector_max_size ->
  exists b1 b2, appendInt32 b x = Ok b1 /\ contents b1 = be_bytes 4 x
    /\ readInt32 b1 = Ok (x, b2) /\ contents b2 = [].
Proof.
  intros H Hq Hx Hc.
  assert (zlen (be_bytes 4 x) = 4) as Hl by apply zlen_be_bytes.
  destruct (appendInt32_repr q b x _ H (q_push_some q (be_bytes 4 x) ltac:(lia))) as (b1 & E1 & H1).
  rewrite Hq in H1. cbn [app] in H1. pose proof (repr_bytes _ _ H1) as Hb1.
  edestruct readInt32_repr as (b2 & E2 & H2); [exact H1 | |].
  { apply q_drop_some. cbn [q_bytes]. lia. }
  cbn [q_bytes] in *.
  exists b1, b2. split_and!; [done | done | | ].
  - rewrite E2. rewrite ztake_all by lia.
    rewrite be_val_bytes. unfold s32. rewrite wraps_wrapu.
    rewrite wraps_small by lia. done.
  - rewrite (repr_bytes _ _ H2). cbn [q_bytes]. by rewrite zdrop_all by lia.
Qed.

Lemma int32_roundtrip_witness :
  exists b1 b2, appendInt32 Buffer_new (-2147483648) = Ok b1
    /\ contents b1 = be_bytes 4 (-2147483648)
    /\ readInt32 b1 = Ok (-2147483648, b2) /\ contents b2 = [].
Proof.
  apply (int32_roundtrip q_empty Buffer_new (-2147483648));
    [exact repr_new | reflexivity | lia | vm_compute; discriminate].
Defined.

(** The empty buffer [shrink] fills: large enough for [len] bytes. *)
Lemma new_with_room len :
  0 <= len < 2 ^ 63 - 8 ->
  exists b1, (if kInitialSize <? len then makeSpace Buffer_new len else mret Buffer_new) = Ok b1
    /\ wf b1 /\ contents b1 = [] /\ readerIndex_ b1 = 8 /\ writerIndex_ b1 = 8
    /\ zlen (buffer_ b1) = 8 + Z.max 1024 len.
Proof.
  intros Hlen. assert (zlen (buffer_ Buffer_new) = 1032) as En by (vm_compute; done).
  destruct (kInitialSize <? len) eqn:E.
  - unfold makeSpace. rewrite (writable_eq _ wf_new), En. unfold prependableBytes.
    change (writerIndex_ Buffer_new) with 8. change (readerIndex_ Buffer_new) with 8.
    rewrite !u64_small by buflia. rewrite (proj2 (Z.ltb_lt _ _)) by buflia.
    rewrite vector_resize_ok by (rewrite En; buflia).
    eexists; split; [done |]. rewrite En.
    assert (zlen (buffer_ Buffer_new ++ replicate (Z.to_nat (8 + len - 1032)) NUL) = 8 + len) as Eb.
    { rewrite zlen_app, En, zlen_replicate. buflia. }
    split_and!; [apply wf_mk; rewrite ?Eb; buflia | by apply zslice_empty | done | done |].
    cbn [buffer_]. rewrite Eb. buflia.
  - exists Buffer_new. split_and!; try apply wf_new; try done. rewrite En. buflia.
Qed.

(** [shrink] keeps the data.  For a buffer of less than 2 GiB the readable
    bytes are unchanged, the cheap prepend room is back to 8, and the memory
    held is what the data and the reserve need (or the initial size). *)
Theorem shrink_correct q b reserve :
  repr q b -> zlen (q_bytes q) < 2 ^ 31 -> 0 <= reserve < 2 ^ 62 ->
  exists b', shrink b reserve = Ok b'
    /\ wf b' /\ contents b' = contents b /\ readerIndex_ b' = kCheapPrepend
    /\ zlen (buffer_ b') = kCheapPrepend + Z.max kInitialSize (zlen (contents b) + reserve).
Proof.
  intros H Hl Hr. repr_inv H. pose proof (zlen_nonneg (q_bytes q)).
  unfold shrink, toStringPiece.
  replace (readableBytes b) with (zlen (q_bytes q)) by lia.
  rewrite s32_small by lia. rewrite !u64_small by lia.
  rewrite (read_prefix_repr q) by (done || lia). rewrite ztake_all by lia.
  set (n := zlen (q_bytes q)) in *.
  unfold ensureWritableBytes. rewrite (writable_eq _ wf_new).
  change (zlen (buffer_ Buffer_new) - writerIndex_ Buffer_new) with 1024.
  change 1024 with kInitialSize.
  destruct (new_with_room (n + reserve)) as (b1 & -> & W1 & C1 & R1 & I1 & Z1); [lia |].
  rsimp. rewrite (writable_eq _ W1).
  step_assert; [rewrite Z1, I1; lia |]. rsimp.
  unfold append, ensureWritableBytes. rewrite (writable_eq _ W1), Z1, I1.
  fold n. rewrite (proj2 (Z.ltb_ge _ _)) by lia. rsimp.
  rewrite (writable_eq _ W1), Z1, I1. step_assert; [lia |]. rsimp.
  unfold beginWrite. rewrite I1.
  assert (repr {| q_bytes := []; q_room := 8; q_cap := zlen (buffer_ b1) |} b1) as Hb1.
  { split; [done | done | buflia | buflia]. }
  destruct (copy_to_tail _ b1 (q_bytes q) Hb1) as (b2 & E2 & Hr2 & _ & Z2).
  { rewrite (writable_eq _ W1), Z1, I1. fold n. lia. }
  rewrite I1 in E2. rewrite E2. cbn [mbind res_bind swap fst].
  eexists; split; [done |]. fold n in Hr2.
  split_and!; [apply Hr2 | rewrite (repr_bytes _ _ Hr2); by symmetry | | ].
  - unfold copy_to in E2. inv_res. done.
  - cbn [hasWritten buffer_]. rewrite Z2, Z1. replace (zlen (contents b)) with n; [done |].
    by rewrite (repr_bytes _ _ H).
Qed.

Definition shrink_demo : Buffer :=
  {| buffer_ := replicate 5000 SP; readerIndex_ := 4000; writerIndex_ := 4500 |}.

Lemma shrink_correct_witness :
  exists b', shrink shrink_demo 10 = Ok b' /\ contents b' = replicate 500 SP
    /\ zlen (buffer_ b') = 1032.
Proof.
  destruct (shrink_correct {| q_bytes := replicate 500 SP; q_room := 8; q_cap := 5000 |}
              shrink_demo 10) as (b' & E & _ & C & _ & S).
  - split; [split; vm_compute; congruence | vm_compute; reflexivity
           | vm_compute; intuition congruence | vm_compute; congruence].
  - vm_compute; reflexivity.
  - lia.
  - exists b'. split; [exact E | split; [rewrite C; vm_compute; reflexivity |]].
    rewrite S. vm_compute. reflexivity.
Defined.
