(* ===== verification/Channel.v ===== *)
(** * Channel: the dispatcher of one descriptor's events

    [muduo/net/Channel.h], [Channel.cc].  Channels are objects referred to by
    pointer from the pollers, the loop and their owners, so they live in a
    store indexed by channel identity; [Channel::update] and [remove], which
    go through the owner loop, are in [EventLoop.v].  The type of callbacks is
    a parameter: owners say what running one does to the world. *)
From S2P Require Import Prelude.

(** ** poll(2) event bits of the target *)
Definition POLLIN : Z := 0x001.
Definition POLLPRI : Z := 0x002.
Definition POLLOUT : Z := 0x004.
Definition POLLERR : Z := 0x008.
Definition POLLHUP : Z := 0x010.
Definition POLLNVAL : Z := 0x020.
Definition POLLRDHUP : Z := 0x2000.

(*@ muduo/muduo/net/Channel.cc 20-20 Channel::kNoneEvent *)
Definition kNoneEvent : Z := 0.
(*@ muduo/muduo/net/Channel.cc 21-21 Channel::kReadEvent *)
Definition kReadEvent : Z := Z.lor POLLIN POLLPRI.
(*@ muduo/muduo/net/Channel.cc 22-22 Channel::kWriteEvent *)
Definition kWriteEvent : Z := POLLOUT.

Abbreviation chan_id := Z.

(** [bits & mask] used as a condition. *)
Definition has (bits mask : Z) : bool := negb (Z.land bits mask =? 0).

Section channel.
Context {CB : Type}.

(*@ muduo/muduo/net/Channel.h 123-160 Channel *)
Record Channel : Type := mkChannel {
  loop_ : Z;
  fd_ : Z;
  events_ : Z;
  revents_ : Z;
  index_ : Z;
  logHup_ : bool;
  tie_ : option Z;
  tied_ : bool;
  eventHandling_ : bool;
  readCallback_ : option CB;
  writeCallback_ : option CB;
  closeCallback_ : option CB;
  errorCallback_ : option CB
}.

(*@ muduo/muduo/net/Channel.cc 24-34 Channel::Channel *)
Definition Channel_new (loop fd : Z) : Channel :=
  {| loop_ := loop; fd_ := fd; events_ := 0; revents_ := 0; index_ := -1; logHup_ := true;
     tie_ := None; tied_ := false; eventHandling_ := false;
     readCallback_ := None; writeCallback_ := None;
     closeCallback_ := None; errorCallback_ := None |}.

Definition with_events (ch : Channel) (e : Z) : Channel :=
  mkChannel (loop_ ch) (fd_ ch) e (revents_ ch) (index_ ch) (logHup_ ch) (tie_ ch) (tied_ ch)
    (eventHandling_ ch) (readCallback_ ch) (writeCallback_ ch) (closeCallback_ ch) (errorCallback_ ch).

(*@ muduo/muduo/net/Channel.h 74-74 Channel::set_revents *)
Definition set_revents (ch : Channel) (r : Z) : Channel :=
  mkChannel (loop_ ch) (fd_ ch) (events_ ch) r (index_ ch) (logHup_ ch) (tie_ ch) (tied_ ch)
    (eventHandling_ ch) (readCallback_ ch) (writeCallback_ ch) (closeCallback_ ch) (errorCallback_ ch).
(*@ muduo/muduo/net/Channel.h 102-102 Channel::set_index *)
Definition set_index (ch : Channel) (i : Z) : Channel :=
  mkChannel (loop_ ch) (fd_ ch) (events_ ch) (revents_ ch) i (logHup_ ch) (tie_ ch) (tied_ ch)
    (eventHandling_ ch) (readCallback_ ch) (writeCallback_ ch) (closeCallback_ ch) (errorCallback_ ch).
Definition with_eventHandling (ch : Channel) (b : bool) : Channel :=
  mkChannel (loop_ ch) (fd_ ch) (events_ ch) (revents_ ch) (index_ ch) (logHup_ ch) (tie_ ch) (tied_ ch)
    b (readCallback_ ch) (writeCallback_ ch) (closeCallback_ ch) (errorCallback_ ch).
(*@ muduo/muduo/net/Channel.h 108-108 Channel::doNotLogHup *)
Definition doNotLogHup (ch : Channel) : Channel :=
  mkChannel (loop_ ch) (fd_ ch) (events_ ch) (revents_ ch) (index_ ch) false (tie_ ch) (tied_ ch)
    (eventHandling_ ch) (readCallback_ ch) (writeCallback_ ch) (closeCallback_ ch) (errorCallback_ ch).
(*@ muduo/muduo/net/Channel.cc 42-46 Channel::tie *)
Definition tie (ch : Channel) (obj : Z) : Channel :=
  mkChannel (loop_ ch) (fd_ ch) (events_ ch) (revents_ ch) (index_ ch) (logHup_ ch) (Some obj) true
    (eventHandling_ ch) (readCallback_ ch) (writeCallback_ ch) (closeCallback_ ch) (errorCallback_ ch).
(*@ muduo/muduo/net/Channel.h 48-61 Channel::setReadCallback..setErrorCallback *)
Definition setCallbacks (ch : Channel) (r w c e : option CB) : Channel :=
  mkChannel (loop_ ch) (fd_ ch) (events_ ch) (revents_ ch) (index_ ch) (logHup_ ch) (tie_ ch) (tied_ ch)
    (eventHandling_ ch) r w c e.

(*@ muduo/muduo/net/Channel.h 78-78 Channel::isNoneEvent *)
Definition isNoneEvent (ch : Channel) : bool := events_ ch =? kNoneEvent.
(*@ muduo/muduo/net/Channel.h 95-95 Channel::isWriting *)
Definition isWriting (ch : Channel) : bool := has (events_ ch) kWriteEvent.
Definition isReading (ch : Channel) : bool := has (events_ ch) kReadEvent.

(** The effect of each interest change on [events_]; the call to [update]
    that follows each of them is in [EventLoop.v]. *)
Definition ev_enableReading (e : Z) : Z := Z.lor e kReadEvent.
Definition ev_disableReading (e : Z) : Z := Z.land e (Z.lnot kReadEvent).
Definition ev_enableWriting (e : Z) : Z := Z.lor e kWriteEvent.
Definition ev_disableWriting (e : Z) : Z := Z.land e (Z.lnot kWriteEvent).

(*@ muduo/muduo/net/Channel.cc 126-146 Channel::reventsToString *)
Definition reventsToString (show_int : Z -> list byte) (ch : Channel) : list byte :=
  let bit m (s : string) := if has (revents_ ch) m then bs s else [] in
  show_int (fd_ ch) ++ bs ": "
    ++ bit POLLIN "IN " ++ bit POLLPRI "PRI " ++ bit POLLOUT "OUT " ++ bit POLLHUP "HUP "
    ++ bit POLLRDHUP "RDHUP " ++ bit POLLERR "ERR " ++ bit POLLNVAL "NVAL ".

(** ** Dispatch *)

Section dispatch.
(** The world the callbacks act on; [get]/[put] access this channel in it
    ([get] is [None] once the channel has been destroyed), [call] and
    [call_read] run a callback, [alive] says whether the tied object still
    exists ([weak_ptr::lock]). *)
Context {W T : Type}.
Variables (get : W -> option Channel) (put : Channel -> W -> W).
Variables (call : CB -> W -> res W) (call_read : CB -> T -> W -> res W).
Variable alive : Z -> W -> bool.

Definition load (w : W) : res Channel :=
  match get w with Some ch => Ok ch | None => Err BadAccess end.

(** [if (cb) cb()]. *)
Definition opt_call {A} (f : A -> W -> res W) (cb : option A) (w : W) : res W :=
  match cb with Some c => f c w | None => mret w end.

(*@ muduo/muduo/net/Channel.cc 86-123 Channel::handleEventWithGuard *)
Definition handleEventWithGuard (receiveTime : T) (w : W) : res W :=
  ch ← load w;
  let w := put (with_eventHandling ch true) w in
  ch ← load w;
  w ← (if has (revents_ ch) POLLHUP && negb (has (revents_ ch) POLLIN)
       then opt_call call (closeCallback_ ch) w else mret w);
  ch ← load w;
  w ← (if has (revents_ ch) (Z.lor POLLERR POLLNVAL)
       then opt_call call (errorCallback_ ch) w else mret w);
  ch ← load w;
  w ← (if has (revents_ ch) (Z.lor (Z.lor POLLIN POLLPRI) POLLRDHUP)
       then opt_call (fun c => call_read c receiveTime) (readCallback_ ch) w else mret w);
  ch ← load w;
  w ← (if has (revents_ ch) POLLOUT
       then opt_call call (writeCallback_ ch) w else mret w);
  ch ← load w;
  mret (put (with_eventHandling ch false) w).

(*@ muduo/muduo/net/Channel.cc 63-82 Channel::handleEvent *)
Definition handleEvent (receiveTime : T) (w : W) : res W :=
  ch ← load w;
  if tied_ ch
  then match tie_ ch with
       | Some obj => if alive obj w then handleEventWithGuard receiveTime w else mret w
       | None => mret w
       end
  else handleEventWithGuard receiveTime w.
End dispatch.
End channel.
Arguments Channel : clear implicits.

(** ** Interest bits *)

Lemma has_spec bits n : 0 <= n -> has bits (2 ^ n) = Z.testbit bits n.
Proof.
  intros Hn. unfold has. destruct (Z.testbit bits n) eqn:E.
  - apply negb_true_iff, Z.eqb_neq. intros H.
    apply (f_equal (fun z => Z.testbit z n)) in H.
    rewrite Z.land_spec, E, Z.pow2_bits_true, Z.bits_0 in H by lia. done.
  - apply negb_false_iff, Z.eqb_eq, Z.bits_inj_0. intros m.
    rewrite Z.land_spec, Z.pow2_bits_eqb by lia.
    destruct (Z.eqb_spec n m); [subst; by rewrite E | by rewrite andb_false_r].
Qed.

Lemma writing_testbit {CB} (ch : Channel CB) : isWriting ch = Z.testbit (events_ ch) 2.
Proof. apply (has_spec _ 2). lia. Qed.

Lemma writing_enable e : has (ev_enableWriting e) kWriteEvent = true.
Proof.
  unfold ev_enableWriting. change kWriteEvent with (2 ^ 2). rewrite has_spec by lia.
  by rewrite Z.lor_spec, orb_true_r.
Qed.
Lemma writing_disable e : has (ev_disableWriting e) kWriteEvent = false.
Proof.
  unfold ev_disableWriting. change kWriteEvent with (2 ^ 2). rewrite has_spec by lia.
  by rewrite Z.land_spec, andb_false_r.
Qed.
Lemma writing_enableReading e : has (ev_enableReading e) kWriteEvent = has e kWriteEvent.
Proof.
  unfold ev_enableReading. change kWriteEvent with (2 ^ 2). rewrite !has_spec by lia.
  by rewrite Z.lor_spec, orb_false_r.
Qed.
Lemma has_lor e a b : has e (Z.lor a b) = has e a || has e b.
Proof.
  unfold has. rewrite Z.land_lor_distr_r.
  destruct (Z.eqb_spec (Z.lor (Z.land e a) (Z.land e b)) 0) as [H | H].
  - apply Z.lor_eq_0_iff in H as [-> ->]. done.
  - destruct (Z.eqb_spec (Z.land e a) 0) as [Ha | Ha], (Z.eqb_spec (Z.land e b) 0) as [Hb | Hb];
      try done. by rewrite Ha, Hb in H.
Qed.

Lemma reading_testbits e : has e kReadEvent = Z.testbit e 0 || Z.testbit e 1.
Proof.
  unfold kReadEvent. rewrite has_lor. f_equal; [apply (has_spec e 0) | apply (has_spec e 1)]; lia.
Qed.
Lemma reading_enable e : has (ev_enableReading e) kReadEvent = true.
Proof.
  rewrite reading_testbits. unfold ev_enableReading. rewrite Z.lor_spec.
  change (Z.testbit kReadEvent 0) with true. by rewrite orb_true_r.
Qed.
Lemma reading_enableWriting e : has (ev_enableWriting e) kReadEvent = has e kReadEvent.
Proof.
  rewrite !reading_testbits. unfold ev_enableWriting. rewrite !Z.lor_spec.
  by rewrite !orb_false_r.
Qed.
Lemma reading_disableWriting e : has (ev_disableWriting e) kReadEvent = has e kReadEvent.
Proof.
  rewrite !reading_testbits. unfold ev_disableWriting. rewrite !Z.land_spec, !Z.lnot_spec by lia.
  by rewrite !andb_true_r.
Qed.
Lemma has_none m : has kNoneEvent m = false.
Proof. done. Qed.

Create Rewrite HintDb events.
#[export] Hint Rewrite writing_enable writing_disable writing_enableReading reading_enable
  reading_enableWriting reading_disableWriting has_none : events.

(** ** Dispatch: what is run, in which order *)

Section dispatch_props.
Context {CB W T : Type}.
Variables (get : W -> option (Channel CB)) (put : Channel CB -> W -> W).
Variables (call : CB -> W -> res W) (call_read : CB -> T -> W -> res W).
Variable alive : Z -> W -> bool.

(** The four notifications, in the order the code tests for them. *)
Inductive notification : Type := NClose | NError | NRead | NWrite.

Definition wanted (n : notification) (r : Z) : bool :=
  match n with
  | NClose => has r POLLHUP && negb (has r POLLIN)
  | NError => has r POLLERR || has r POLLNVAL
  | NRead => has r POLLIN || has r POLLPRI || has r POLLRDHUP
  | NWrite => has r POLLOUT
  end.

Definition notify (ch : Channel CB) (t : T) (n : notification) (w : W) : res W :=
  match n with
  | NClose => opt_call call (closeCallback_ ch) w
  | NError => opt_call call (errorCallback_ ch) w
  | NRead => opt_call (fun c => call_read c t) (readCallback_ ch) w
  | NWrite => opt_call call (writeCallback_ ch) w
  end.

Fixpoint notify_all (ch : Channel CB) (t : T) (ns : list notification) (w : W) : res W :=
  match ns with
  | [] => mret w
  | n :: ns => w ← notify ch t n w; notify_all ch t ns w
  end.

Definition notifications (r : Z) : list notification :=
  filter (fun n => wanted n r = true) [NClose; NError; NRead; NWrite].

(** Two states of the channel that dispatch alike. *)
Definition same_dispatch (a b : Channel CB) : Prop :=
  revents_ a = revents_ b /\ readCallback_ a = readCallback_ b
  /\ writeCallback_ a = writeCallback_ b /\ closeCallback_ a = closeCallback_ b
  /\ errorCallback_ a = errorCallback_ b.

Context (put_get : forall ch w, get (put ch w) = Some ch).
(** Callbacks may do anything to the world except destroy this channel or
    change what it dispatches; the channel is kept by the [tie] guard. *)
Definition keeps (ch : Channel CB) (w : W) : Prop :=
  exists ch', get w = Some ch' /\ same_dispatch ch ch'.
Context (call_keeps : forall ch c w w', keeps ch w -> call c w = Ok w' -> keeps ch w').
Context (call_read_keeps : forall ch c t w w', keeps ch w -> call_read c t w = Ok w' -> keeps ch w').

Lemma opt_call_keeps {A} (f : A -> W -> res W) ch cb w w' :
  (forall c w w', keeps ch w -> f c w = Ok w' -> keeps ch w') ->
  keeps ch w -> opt_call f cb w = Ok w' -> keeps ch w'.
Proof using. intros Hf Hk H. destruct cb; simpl in H; [eauto |]. by injection H as <-. Qed.

(** One test of the code: the reloaded channel decides as the original. *)
Lemma guarded_step ch (b : Channel CB -> bool) (f : Channel CB -> W -> res W)
    (k : W -> res W) (bn : bool) (fn : W -> res W) (rest : W -> res W) w :
  (forall ch', same_dispatch ch ch' -> b ch' = bn) ->
  (forall ch' w, same_dispatch ch ch' -> f ch' w = fn w) ->
  (forall w w', keeps ch w -> fn w = Ok w' -> keeps ch w') ->
  (forall w, keeps ch w -> k w = rest w) ->
  keeps ch w ->
  (ch' ← load get w; w ← (if b ch' then f ch' w else mret w); k w)
  = (w ← (if bn then fn w else mret w); rest w).
Proof using.
  intros Hb Hf Hfk Hk Hw. pose proof Hw as (ch' & Hg & Hs). unfold load. rewrite Hg. rsimp.
  rewrite (Hb ch' Hs). destruct bn; rsimp; [| by apply Hk].
  rewrite (Hf ch' w Hs). destruct (fn w) as [w' | e] eqn:E; rsimp; [| done].
  apply Hk. eauto.
Qed.

Lemma filter_cons_if n ns r :
  filter (fun n => wanted n r = true) (n :: ns)
  = if wanted n r then n :: filter (fun n => wanted n r = true) ns
    else filter (fun n => wanted n r = true) ns.
Proof using. rewrite filter_cons. destruct (wanted n r); by case_decide. Qed.

Lemma notify_all_filter ch t n ns r (K : W -> res W) w :
  notify_all ch t (filter (fun n => wanted n r = true) (n :: ns)) w ≫= K
  = (w ← (if wanted n r then notify ch t n w else mret w);
     notify_all ch t (filter (fun n => wanted n r = true) ns) w ≫= K).
Proof using.
  rewrite filter_cons_if. destruct (wanted n r); [| done].
  cbn [notify_all]. by destruct (notify ch t n w).
Qed.

(** A ready channel runs exactly the callbacks its [revents] ask for, each
    at most once and in the order close, error, read, write, with
    [eventHandling_] set around them: re-reading the channel between callbacks,
    as the code does, makes no difference as long as they leave its [revents]
    and callbacks alone. *)
Theorem handleEventWithGuard_dispatch ch t w :
  get w = Some ch ->
  handleEventWithGuard get put call call_read t w
  = (w' ← notify_all ch t (notifications (revents_ ch)) (put (with_eventHandling ch true) w);
     ch' ← load get w';
     mret (put (with_eventHandling ch' false) w')).
Proof using put_get call_keeps call_read_keeps.
  intros Hg. unfold handleEventWithGuard.
  replace (load get w) with (Ok ch) by (unfold load; by rewrite Hg). rsimp.
  set (w0 := put _ w).
  assert (keeps ch w0) as H0.
  { exists (with_eventHandling ch true). split; [apply put_get | done]. }
  clearbody w0. unfold notifications.
  assert (forall n w w', keeps ch w -> notify ch t n w = Ok w' -> keeps ch w') as Hn.
  { intros [] w1 w2 Hk; apply opt_call_keeps; try done; simpl; intros; eauto. }
  rewrite notify_all_filter. apply (guarded_step ch (fun c => has (revents_ c) POLLHUP && negb (has (revents_ c) POLLIN))
    (fun c => opt_call call (closeCallback_ c)));
    [by intros ? (<- & _) | by intros ?? (_ & _ & _ & <- & _) | by apply Hn | | done].
  clear w0 H0. intros w0 H0. rewrite notify_all_filter.
  apply (guarded_step ch (fun c => has (revents_ c) (Z.lor POLLERR POLLNVAL))
    (fun c => opt_call call (errorCallback_ c)));
    [intros ? (<- & _); apply has_lor | by intros ?? (_ & _ & _ & _ & <-) | by apply Hn | | done].
  clear w0 H0. intros w0 H0. rewrite notify_all_filter.
  apply (guarded_step ch (fun c => has (revents_ c) (Z.lor (Z.lor POLLIN POLLPRI) POLLRDHUP))
    (fun c => opt_call (fun cb => call_read cb t) (readCallback_ c)));
    [intros ? (<- & _); by rewrite !has_lor | by intros ?? (_ & <- & _) | by apply Hn | | done].
  clear w0 H0. intros w0 H0. rewrite notify_all_filter.
  apply (guarded_step ch (fun c => has (revents_ c) POLLOUT)
    (fun c => opt_call call (writeCallback_ c)));
    [by intros ? (<- & _) | by intros ?? (_ & _ & <- & _) | by apply Hn | done | done].
Qed.
End dispatch_props.

(** A world of one channel and a log of the callbacks run. *)
Definition demo_world : Type := Channel nat * list (nat * option Z).
Definition demo_log (c : nat) (t : option Z) (w : demo_world) : res demo_world :=
  Ok (fst w, snd w ++ [(c, t)]).
Definition demo_channel : Channel nat :=
  set_revents (setCallbacks (Channel_new 0 5) (Some 1%nat) (Some 2%nat) (Some 3%nat) (Some 4%nat))
    (Z.lor POLLIN (Z.lor POLLOUT (Z.lor POLLERR POLLHUP))).

Lemma handleEventWithGuard_dispatch_witness :
  handleEventWithGuard (fun w : demo_world => Some (fst w)) (fun ch w => (ch, snd w))
    (fun c => demo_log c None) (fun c t => demo_log c (Some t)) 99 (demo_channel, [])
  = Ok (demo_channel, [(4%nat, None); (1%nat, Some 99); (2%nat, None)]).
Proof.
  rewrite (handleEventWithGuard_dispatch (fun w : demo_world => Some (fst w))
    (fun ch w => (ch, snd w)) (fun c => demo_log c None) (fun c t => demo_log c (Some t))
    ltac:(done)
    ltac:(intros ? ? ? ? Hk E; injection E as <-; exact Hk)
    ltac:(intros ? ? ? ? ? Hk E; injection E as <-; exact Hk)
    demo_channel 99 (demo_channel, []) eq_refl).
  vm_compute. reflexivity.
Defined.
