(* ===== verification/Poller.v ===== *)
(** * Poller: the interface between an event loop and its demultiplexer

    [muduo/net/Poller.h] is an abstract base class; here it is a type class of
    operations on the poller's own state and the shared store of channels.
    [PollerSpec] states what the loop and the channels' owners rely on:
    [updateChannel] makes the descriptor be watched for exactly the channel's
    [events_], [removeChannel] stops watching it, and neither changes anything
    of any channel but its [index_].  [EPollPoller.v] discharges the laws;
    [PollPoller.v] shows which of them the poll(2) back end breaks. *)
From S2P Require Import Prelude Channel.

(** The channels of a loop, by identity (pointer). *)
Abbreviation chan_store CB := (gmap Z (Channel CB)).

(** The same channels up to the [index_] that pollers own. *)
Definition same_but_index {CB} (s s' : chan_store CB) : Prop :=
  forall c, match s !! c, s' !! c with
            | Some a, Some b => b = set_index a (index_ b)
            | None, None => True
            | _, _ => False
            end.

(** The same channels up to what the last poll reported. *)
Definition same_but_revents {CB} (s s' : chan_store CB) : Prop :=
  forall c, match s !! c, s' !! c with
            | Some a, Some b => b = set_revents a (revents_ b)
            | None, None => True
            | _, _ => False
            end.

(*@ muduo/muduo/net/Poller.h 31-64 Poller *)
Class PollerOps (CB P : Type) := {
  (** what the demultiplexing system call reported *)
  poll_ret : Type;
  poll : P -> chan_store CB -> poll_ret -> res (list chan_id * P * chan_store CB);
  updateChannel : bool -> P -> chan_store CB -> chan_id -> res (P * chan_store CB);
  removeChannel : bool -> P -> chan_store CB -> chan_id -> res (P * chan_store CB)
}.

(** [Poller::assertInLoopThread]: the first argument of the two operations is
    whether the caller runs in the owner loop's thread. *)
(*@ muduo/muduo/net/Poller.h 56-59 Poller::assertInLoopThread *)
Definition assertInLoopThread (inloop : bool) : res unit :=
  if inloop then Ok tt else Err FatalLog.

Class PollerSpec (CB P : Type) `{PollerOps CB P} := {
  inv : P -> chan_store CB -> Prop;
  (** the channel registered for a descriptor *)
  owner : P -> Z -> option chan_id;
  (** the events a descriptor is watched for, 0 when it is not *)
  armed : P -> Z -> Z;

  inv_owner p s fd c :
    inv p s -> owner p fd = Some c -> exists ch, s !! c = Some ch /\ fd_ ch = fd;
  (** channels may change freely, except for the descriptor and the index *)
  inv_modify p s c ch ch' :
    inv p s -> s !! c = Some ch -> fd_ ch' = fd_ ch -> index_ ch' = index_ ch ->
    inv p (<[c := ch']> s);
  inv_fresh p s c ch :
    inv p s -> s !! c = None -> index_ ch = -1 -> inv p (<[c := ch]> s);

  update_spec p s c ch :
    inv p s -> s !! c = Some ch ->
    owner p (fd_ ch) = None \/ owner p (fd_ ch) = Some c ->
    exists p' s', updateChannel true p s c = Ok (p', s')
      /\ inv p' s' /\ same_but_index s s'
      /\ (forall fd, owner p' fd = if decide (fd = fd_ ch) then Some c else owner p fd)
      /\ (forall fd, armed p' fd = if decide (fd = fd_ ch) then events_ ch else armed p fd);

  remove_spec p s c ch :
    inv p s -> s !! c = Some ch -> owner p (fd_ ch) = Some c -> isNoneEvent ch = true ->
    exists p' s', removeChannel true p s c = Ok (p', s')
      /\ inv p' s' /\ same_but_index s s'
      /\ (forall fd, owner p' fd = if decide (fd = fd_ ch) then None else owner p fd)
      /\ (forall fd, armed p' fd = if decide (fd = fd_ ch) then 0 else armed p fd);

  (** after [removeChannel] the channel can be registered anew or destroyed *)
  inv_delete p s c ch :
    inv p s -> s !! c = Some ch -> owner p (fd_ ch) <> Some c -> inv p (delete c s);

  (** what the system call may report in this state *)
  ret_ok : P -> poll_ret -> Prop;
  poll_spec p s r :
    inv p s -> ret_ok p r ->
    exists active p' s', poll p s r = Ok (active, p', s')
      /\ inv p' s' /\ same_but_revents s s'
      /\ (forall fd, owner p' fd = owner p fd) /\ (forall fd, armed p' fd = armed p fd)
      /\ Forall (fun c => exists ch, s !! c = Some ch /\ owner p (fd_ ch) = Some c) active
}.

(** ** Lemmas *)

Lemma same_but_index_refl {CB} (s : chan_store CB) : same_but_index s s.
Proof. intros c. destruct (s !! c) as [[]|]; done. Qed.

Lemma same_but_index_lookup {CB} (s s' : chan_store CB) c ch :
  same_but_index s s' -> s !! c = Some ch -> exists i, s' !! c = Some (set_index ch i).
Proof.
  intros H E. specialize (H c). rewrite E in H. destruct (s' !! c) as [b|]; [| done].
  exists (index_ b). by rewrite <- H.
Qed.

Lemma same_but_index_insert {CB} (s : chan_store CB) c ch i :
  s !! c = Some ch -> same_but_index s (<[c := set_index ch i]> s).
Proof.
  intros E c'. destruct (decide (c = c')) as [<- |].
  - rewrite E, lookup_insert_eq. done.
  - rewrite lookup_insert_ne by done. apply same_but_index_refl.
Qed.

Lemma same_but_revents_refl {CB} (s : chan_store CB) : same_but_revents s s.
Proof. intros c. destruct (s !! c) as [[]|]; done. Qed.

Lemma same_but_revents_insert {CB} (s s' : chan_store CB) c ch e :
  s !! c = Some ch -> same_but_revents (<[c := set_revents ch e]> s) s' -> same_but_revents s s'.
Proof.
  intros E H c'. specialize (H c'). destruct (decide (c = c')) as [<- |].
  - rewrite lookup_insert_eq in H. rewrite E. destruct (s' !! c) as [b|]; [| done].
    rewrite H. by destruct ch.
  - by rewrite lookup_insert_ne in H.
Qed.

Lemma same_but_revents_lookup {CB} (s s' : chan_store CB) c ch :
  same_but_revents s s' -> s !! c = Some ch -> exists e, s' !! c = Some (set_revents ch e).
Proof.
  intros H E. specialize (H c). rewrite E in H. destruct (s' !! c) as [b|]; [| done].
  exists (revents_ b). by rewrite <- H.
Qed.

(** ** Histories of interest changes *)

(** What the owners of channels do with a poller: change the events of a
    channel and call [update], or [remove] it. *)
Inductive interest_op : Type :=
| SetEvents (c : chan_id) (e : Z)
| Unregister (c : chan_id).

Section history.
Context {CB P : Type} `{PollerSpec CB P}.
Implicit Types (s : chan_store CB) (m : gmap chan_id Z).

Definition run_interest (op : interest_op) (ps : P * chan_store CB) : res (P * chan_store CB) :=
  let '(p, s) := ps in
  match op with
  | SetEvents c e =>
      match s !! c with
      | Some ch => updateChannel true p (<[c := with_events ch e]> s) c
      | None => Err BadAccess
      end
  | Unregister c => removeChannel true p s c
  end.

Fixpoint run_interests (ops : list interest_op) (ps : P * chan_store CB) : res (P * chan_store CB) :=
  match ops with
  | [] => mret ps
  | op :: ops => ps ← run_interest op ps; run_interests ops ps
  end.

(** The specification: the registered channels and their events. *)
Definition spec_interest (cs : gset chan_id) (op : interest_op) m : option (gmap chan_id Z) :=
  match op with
  | SetEvents c e => if decide (c ∈ cs) then Some (<[c := e]> m) else None
  | Unregister c => if decide (m !! c = Some 0) then Some (delete c m) else None
  end.

Fixpoint spec_interests (cs : gset chan_id) (ops : list interest_op) m : option (gmap chan_id Z) :=
  match ops with
  | [] => Some m
  | op :: ops => m ← spec_interest cs op m; spec_interests cs ops m
  end.

(** Each channel of the store has its own descriptor, [fds c]. *)
Record tracks (fds : gmap chan_id Z) (p : P) s m : Prop := {
  tr_inv : inv p s;
  tr_fd c : fd_ <$> s !! c = fds !! c;
  tr_inj c1 c2 fd : fds !! c1 = Some fd -> fds !! c2 = Some fd -> c1 = c2;
  tr_owner c fd : fds !! c = Some fd ->
    owner p fd = (if decide (is_Some (m !! c)) then Some c else None);
  tr_armed c fd : fds !! c = Some fd -> armed p fd = default 0 (m !! c);
  tr_events c ch e : s !! c = Some ch -> m !! c = Some e -> events_ ch = e;
  tr_dom c : is_Some (m !! c) -> is_Some (fds !! c)
}.

Lemma same_index_fd (s s' : chan_store CB) c : same_but_index s s' -> fd_ <$> s' !! c = fd_ <$> s !! c.
Proof using.
  intros Hs. specialize (Hs c). destruct (s !! c) as [a|], (s' !! c) as [b|]; simpl; try done.
  by rewrite Hs.
Qed.
Lemma same_index_events (s s' : chan_store CB) c ch' :
  same_but_index s s' -> s' !! c = Some ch' -> exists ch, s !! c = Some ch /\ events_ ch' = events_ ch.
Proof using.
  intros Hs E. specialize (Hs c). rewrite E in Hs. destruct (s !! c) as [a|]; [| done].
  exists a. split; [done |]. by rewrite Hs.
Qed.

Lemma set_events_tracks fds p s m c e m' :
  tracks fds p s m -> spec_interest (dom fds) (SetEvents c e) m = Some m' ->
  exists p' s', run_interest (SetEvents c e) (p, s) = Ok (p', s') /\ tracks fds p' s' m'.
Proof.
  intros [Hinv Hfd Hinj Ho Ha He Hd] Hop. cbn [spec_interest] in Hop. case_decide as Hg; simplify_eq. cbn [run_interest].
  apply elem_of_dom in Hg as [fd Hg]. pose proof (Hfd c) as Hc. rewrite Hg in Hc.
  apply fmap_Some in Hc as (ch & Hc & Hf). rewrite Hc.
  destruct (update_spec p (<[c := with_events ch e]> s) c (with_events ch e))
    as (p' & s' & -> & Hi & Hsame & Hown & Harm).
  - by eapply inv_modify.
  - apply lookup_insert_eq.
  - cbn. rewrite <- Hf, (Ho c fd Hg). case_decide; auto.
  - exists p', s'. split; [done |]. cbn [fd_ with_events events_] in *. rewrite <- Hf in *. split.
    + done.
    + intros c'. rewrite (same_index_fd _ _ _ Hsame). destruct (decide (c = c')) as [<- |].
      * rewrite lookup_insert_eq, Hg. cbn. by rewrite Hf.
      * by rewrite lookup_insert_ne.
    + exact Hinj.
    + intros c' fd' Hf'. rewrite Hown. case_decide as Hd'.
      * subst fd'. assert (c' = c) as -> by eauto. rewrite lookup_insert_eq. by rewrite decide_True by eauto.
      * rewrite lookup_insert_ne by congruence. by apply Ho.
    + intros c' fd' Hf'. rewrite Harm. case_decide as Hd'.
      * subst fd'. assert (c' = c) as -> by eauto. by rewrite lookup_insert_eq.
      * rewrite lookup_insert_ne by congruence. by apply Ha.
    + intros c' ch' e' Hl Hm. destruct (same_index_events _ _ _ _ Hsame Hl) as (ch0 & Hl0 & ->).
      destruct (decide (c = c')) as [<- |].
      * rewrite lookup_insert_eq in Hl0. rewrite lookup_insert_eq in Hm. by simplify_eq.
      * rewrite lookup_insert_ne in Hl0 by done. rewrite lookup_insert_ne in Hm by done. eauto.
    + intros c'. destruct (decide (c = c')) as [<- |]; [eauto |].
      rewrite lookup_insert_ne by done. apply Hd.
Qed.
Lemma unregister_tracks fds p s m c m' :
  tracks fds p s m -> spec_interest (dom fds) (Unregister c) m = Some m' ->
  exists p' s', run_interest (Unregister c) (p, s) = Ok (p', s') /\ tracks fds p' s' m'.
Proof.
  intros [Hinv Hfd Hinj Ho Ha He Hd] Hop. cbn [spec_interest] in Hop. case_decide as Hg; simplify_eq. cbn [run_interest].
  assert (is_Some (fds !! c)) as [fd Hf] by eauto.
  pose proof (Hfd c) as Hc. rewrite Hf in Hc. apply fmap_Some in Hc as (ch & Hc & Hfch).
  destruct (remove_spec p s c ch) as (p' & s' & -> & Hi & Hsame & Hown & Harm).
  - done.
  - done.
  - rewrite <- Hfch, (Ho c fd Hf), Hg. by rewrite decide_True by eauto.
  - unfold isNoneEvent. by rewrite (He c ch 0).
  - exists p', s'. split; [done |]. rewrite <- Hfch in *. split.
    + done.
    + intros c'. by rewrite (same_index_fd _ _ _ Hsame).
    + exact Hinj.
    + intros c' fd' Hf'. rewrite Hown. case_decide as Hd'.
      * subst fd'. assert (c' = c) as -> by eauto. rewrite lookup_delete_eq.
         by rewrite decide_False by (intros []; done).
      * rewrite lookup_delete_ne by congruence. by apply Ho.
    + intros c' fd' Hf'. rewrite Harm. case_decide as Hd'.
      * subst fd'. assert (c' = c) as -> by eauto. by rewrite lookup_delete_eq.
      * rewrite lookup_delete_ne by congruence. by apply Ha.
    + intros c' ch' e' Hl Hm. destruct (same_index_events _ _ _ _ Hsame Hl) as (ch0 & Hl0 & ->).
      apply lookup_delete_Some in Hm as [_ Hm]. eauto.
    + intros c' [e' Hm]. apply lookup_delete_Some in Hm as [_ Hm]. eauto.
Qed.
Lemma run_interest_tracks fds p s m op m' :
  tracks fds p s m -> spec_interest (dom fds) op m = Some m' ->
  exists p' s', run_interest op (p, s) = Ok (p', s') /\ tracks fds p' s' m'.
Proof. destruct op; [apply set_events_tracks | apply unregister_tracks]. Qed.

(** Every legal history runs without a fault and leaves each descriptor
    watched for exactly the events its channel last asked for. *)
Lemma run_interests_tracks fds ops : forall p s m m',
  tracks fds p s m -> spec_interests (dom fds) ops m = Some m' ->
  exists p' s', run_interests ops (p, s) = Ok (p', s') /\ tracks fds p' s' m'.
Proof.
  induction ops as [| op ops IH]; intros p s m m' Ht Hm; cbn [run_interests spec_interests] in *.
  - simplify_eq. by exists p, s.
  - destruct (spec_interest (dom fds) op m) as [m1|] eqn:E; [| done].
    destruct (run_interest_tracks _ _ _ _ _ _ Ht E) as (p1 & s1 & -> & Ht1). rsimp.
    by apply (IH p1 s1 m1).
Qed.
End history.
