(* ===== verification/EPollPoller.v ===== *)
(** * EPollPoller: the epoll(4) back end

    [muduo/net/poller/EPollPoller.h], [EPollPoller.cc].  The kernel's interest
    list is outside the program: a type class states what [epoll_ctl(2)]
    documents, and its laws are the only facts used about it. *)
From S2P Require Import Prelude Channel Poller.

Definition EPOLL_CTL_ADD : Z := 1.
Definition EPOLL_CTL_DEL : Z := 2.
Definition EPOLL_CTL_MOD : Z := 3.

(** An epoll instance: [epoll_ctl] returns 0 or -1, and the interest list maps
    a descriptor to the events and the user data registered for it. *)
Class EpollKernel (K : Type) := {
  epoll_ctl : K -> Z -> Z -> Z -> chan_id -> Z * K;
  epoll_set : K -> gmap Z (Z * chan_id)
}.

(** epoll_ctl(2): ADD of an absent descriptor and MOD, DEL of a present one
    succeed (resource exhaustion apart) and do what their names say. *)
Class EpollLaws (K : Type) `{EpollKernel K} := {
  epoll_ctl_add k fd ev p :
    epoll_set k !! fd = None ->
    exists k', epoll_ctl k EPOLL_CTL_ADD fd ev p = (0, k')
      /\ epoll_set k' = <[fd := (ev, p)]> (epoll_set k);
  epoll_ctl_mod k fd ev p x :
    epoll_set k !! fd = Some x ->
    exists k', epoll_ctl k EPOLL_CTL_MOD fd ev p = (0, k')
      /\ epoll_set k' = <[fd := (ev, p)]> (epoll_set k);
  epoll_ctl_del k fd ev p x :
    epoll_set k !! fd = Some x ->
    exists k', epoll_ctl k EPOLL_CTL_DEL fd ev p = (0, k')
      /\ epoll_set k' = delete fd (epoll_set k)
}.

(*@ muduo/muduo/net/poller/EPollPoller.cc 35-35 kNew *)
Definition kNew : Z := -1.
(*@ muduo/muduo/net/poller/EPollPoller.cc 36-36 kAdded *)
Definition kAdded : Z := 1.
(*@ muduo/muduo/net/poller/EPollPoller.cc 37-37 kDeleted *)
Definition kDeleted : Z := 2.
(*@ muduo/muduo/net/poller/EPollPoller.h 41-41 kInitEventListSize *)
Definition kInitEventListSize : Z := 16.

Section epoll.
Context {CB K : Type} `{EpollKernel K}.
Implicit Types s : chan_store CB.

(** [events_] is only an output array for [epoll_wait]: its size is what
    matters between calls. *)
(*@ muduo/muduo/net/poller/EPollPoller.h 47-58 EPollPoller *)
Record EPollPoller : Type := mkEPollPoller {
  epollfd_ : K;
  events_size : Z;
  channels_ : gmap Z chan_id
}.

(*@ muduo/muduo/net/poller/EPollPoller.cc 41-52 EPollPoller::EPollPoller *)
Definition EPollPoller_new (k : K) : EPollPoller :=
  {| epollfd_ := k; events_size := kInitEventListSize; channels_ := ∅ |}.

Definition load_channel s (c : chan_id) : res (Channel CB) :=
  match s !! c with Some ch => Ok ch | None => Err BadAccess end.

(*@ muduo/muduo/net/poller/EPollPoller.cc 193-213 EPollPoller::update *)
Definition update (operation : Z) (p : EPollPoller) (c : chan_id) (ch : Channel CB) : res EPollPoller :=
  let '(r, k) := epoll_ctl (epollfd_ p) operation (fd_ ch) (events_ ch) c in
  let p' := {| epollfd_ := k; events_size := events_size p; channels_ := channels_ p |} in
  if r <? 0
  then if operation =? EPOLL_CTL_DEL then mret p' else Err FatalLog
  else mret p'.

(*@ muduo/muduo/net/poller/EPollPoller.cc 113-161 EPollPoller::updateChannel *)
Definition epoll_updateChannel (inloop : bool) (p : EPollPoller) s (c : chan_id)
  : res (EPollPoller * chan_store CB) :=
  assertInLoopThread inloop;;
  ch ← load_channel s c;
  let index := index_ ch in
  let fd := fd_ ch in
  if (index =? kNew) || (index =? kDeleted)
  then
    p ← (if index =? kNew
         then
           assert_ (bool_decide (channels_ p !! fd = None));;
           mret {| epollfd_ := epollfd_ p; events_size := events_size p;
                   channels_ := <[fd := c]> (channels_ p) |}
         else
           assert_ (bool_decide (is_Some (channels_ p !! fd)));;
           assert_ (bool_decide (channels_ p !! fd = Some c));;
           mret p);
    let s := <[c := set_index ch kAdded]> s in
    p ← update EPOLL_CTL_ADD p c ch;
    mret (p, s)
  else
    assert_ (bool_decide (is_Some (channels_ p !! fd)));;
    assert_ (bool_decide (channels_ p !! fd = Some c));;
    assert_ (index =? kAdded);;
    if isNoneEvent ch
    then
      p ← update EPOLL_CTL_DEL p c ch;
      mret (p, <[c := set_index ch kDeleted]> s)
    else
      p ← update EPOLL_CTL_MOD p c ch;
      mret (p, s).

(*@ muduo/muduo/net/poller/EPollPoller.cc 164-190 EPollPoller::removeChannel *)
Definition epoll_removeChannel (inloop : bool) (p : EPollPoller) s (c : chan_id)
  : res (EPollPoller * chan_store CB) :=
  assertInLoopThread inloop;;
  ch ← load_channel s c;
  let fd := fd_ ch in
  assert_ (bool_decide (is_Some (channels_ p !! fd)));;
  assert_ (bool_decide (channels_ p !! fd = Some c));;
  assert_ (isNoneEvent ch);;
  let index := index_ ch in
  assert_ ((index =? kAdded) || (index =? kDeleted));;
  let p := {| epollfd_ := epollfd_ p; events_size := events_size p;
              channels_ := delete fd (channels_ p) |} in
  p ← (if index =? kAdded then update EPOLL_CTL_DEL p c ch else mret p);
  mret (p, <[c := set_index ch kNew]> s).

(** What [epoll_wait] did: failed, or filled [events_] with (events, data)
    pairs ([numEvents] is their number; 0 is a timeout). *)
Inductive epoll_ret : Type :=
| EpollFailed (errno : Z)
| EpollEvents (evs : list (Z * chan_id)).

(*@ muduo/muduo/net/poller/EPollPoller.cc 94-110 EPollPoller::fillActiveChannels *)
Fixpoint fill_loop (p : EPollPoller) s (evs : list (Z * chan_id)) (active : list chan_id)
  : res (list chan_id * chan_store CB) :=
  match evs with
  | [] => mret (active, s)
  | (events, c) :: evs =>
      ch ← load_channel s c;
      assert_ (bool_decide (is_Some (channels_ p !! fd_ ch)));;
      assert_ (bool_decide (channels_ p !! fd_ ch = Some c));;
      fill_loop p (<[c := set_revents ch events]> s) evs (active ++ [c])
  end.

Definition epoll_fillActiveChannels (p : EPollPoller) s (evs : list (Z * chan_id)) :=
  assert_ (zlen evs <=? events_size p);;
  fill_loop p s evs [].

(*@ muduo/muduo/net/poller/EPollPoller.cc 61-91 EPollPoller::poll *)
Definition epoll_poll (p : EPollPoller) s (r : epoll_ret)
  : res (list chan_id * EPollPoller * chan_store CB) :=
  match r with
  | EpollFailed _ => mret ([], p, s)
  | EpollEvents [] => mret ([], p, s)
  | EpollEvents evs =>
      '(active, s) ← epoll_fillActiveChannels p s evs;
      let p := if zlen evs =? events_size p
               then {| epollfd_ := epollfd_ p; events_size := events_size p * 2;
                       channels_ := channels_ p |}
               else p in
      mret (active, p, s)
  end.

#[export] Instance epoll_ops : PollerOps CB EPollPoller :=
  {| poll := epoll_poll; updateChannel := epoll_updateChannel; removeChannel := epoll_removeChannel |}.

(** ** The invariant: [channels_], the channels' [index_] and the kernel's
    interest list agree *)

(** What [channels_] says about one descriptor. *)
Definition slot_ok (p : EPollPoller) s (fd : Z) : Prop :=
  match channels_ p !! fd with
  | None => epoll_set (epollfd_ p) !! fd = None
  | Some c => exists ch, s !! c = Some ch /\ fd_ ch = fd
      /\ ((index_ ch = kAdded /\ exists ev, epoll_set (epollfd_ p) !! fd = Some (ev, c))
          \/ (index_ ch = kDeleted /\ epoll_set (epollfd_ p) !! fd = None))
  end.

Record epoll_inv (p : EPollPoller) s : Prop := {
  ei_slot fd : slot_ok p s fd;
  ei_index c ch : s !! c = Some ch -> index_ ch = kNew \/ channels_ p !! fd_ ch = Some c
}.

Definition epoll_armed (p : EPollPoller) (fd : Z) : Z :=
  match epoll_set (epollfd_ p) !! fd with Some (ev, _) => ev | None => 0 end.
Definition epoll_owner (p : EPollPoller) (fd : Z) : option chan_id := channels_ p !! fd.

(** An operation on one channel only has to restore its own slot. *)
Lemma epoll_inv_frame p s p' c ch i :
  epoll_inv p s -> s !! c = Some ch ->
  channels_ p !! fd_ ch = None \/ channels_ p !! fd_ ch = Some c ->
  (forall fd, fd <> fd_ ch -> channels_ p' !! fd = channels_ p !! fd
     /\ epoll_set (epollfd_ p') !! fd = epoll_set (epollfd_ p) !! fd) ->
  slot_ok p' (<[c := set_index ch i]> s) (fd_ ch) ->
  i = kNew \/ channels_ p' !! fd_ ch = Some c ->
  epoll_inv p' (<[c := set_index ch i]> s).
Proof.
  intros [Hs Hi] Hc Ho Hfr Hslot Hnew. split.
  - intros fd. destruct (decide (fd = fd_ ch)) as [-> |]; [done |].
    specialize (Hs fd). unfold slot_ok in *. destruct (Hfr fd) as [-> ->]; [done |].
    destruct (channels_ p !! fd) as [c'|]; [| done].
    destruct Hs as (ch' & E & Ef & Hor). exists ch'.
    rewrite lookup_insert_ne; [done |]. intros <-. rewrite Hc in E. by simplify_eq.
  - intros c' ch' E. destruct (decide (c = c')) as [<- | Hne].
    + rewrite lookup_insert_eq in E. injection E as <-. exact Hnew.
    + rewrite lookup_insert_ne in E by done. destruct (Hi _ _ E) as [| Hown]; [by left | right].
      destruct (decide (fd_ ch' = fd_ ch)) as [Ef |]; [| by destruct (Hfr (fd_ ch')) as [-> _]].
      rewrite Ef in Hown. destruct Ho; congruence.
Qed.

Context `{!EpollLaws K}.

Lemma slot_new p s fd c ch ev :
  channels_ p !! fd = Some c -> s !! c = Some ch -> fd_ ch = fd -> index_ ch = kAdded ->
  epoll_set (epollfd_ p) !! fd = Some (ev, c) -> slot_ok p s fd.
Proof. intros H1 H2 H3 H4 H5. unfold slot_ok. rewrite H1. eauto 10. Qed.

Lemma armed_insert p p' fd ev c :
  epoll_set (epollfd_ p') = <[fd := (ev, c)]> (epoll_set (epollfd_ p)) ->
  forall fd', epoll_armed p' fd' = if decide (fd' = fd) then ev else epoll_armed p fd'.
Proof.
  intros E fd'. unfold epoll_armed. rewrite E. case_decide as Hd.
  - subst. by rewrite lookup_insert_eq.
  - by rewrite lookup_insert_ne.
Qed.

Lemma armed_delete p p' fd :
  epoll_set (epollfd_ p') = delete fd (epoll_set (epollfd_ p)) ->
  forall fd', epoll_armed p' fd' = if decide (fd' = fd) then 0 else epoll_armed p fd'.
Proof.
  intros E fd'. unfold epoll_armed. rewrite E. case_decide as Hd.
  - subst. by rewrite lookup_delete_eq.
  - by rewrite lookup_delete_ne.
Qed.

Lemma set_index_fix (ch : Channel CB) : set_index ch (index_ ch) = ch.
Proof. by destruct ch. Qed.

Definition update_post p s c (ch : Channel CB) (r : res (EPollPoller * chan_store CB)) : Prop :=
  exists p' s', r = Ok (p', s')
    /\ epoll_inv p' s' /\ same_but_index s s'
    /\ (forall fd, epoll_owner p' fd = if decide (fd = fd_ ch) then Some c else epoll_owner p fd)
    /\ (forall fd, epoll_armed p' fd = if decide (fd = fd_ ch) then events_ ch else epoll_armed p fd).

Lemma owner_same p p' fd c :
  channels_ p' = channels_ p -> channels_ p !! fd = Some c ->
  forall fd', epoll_owner p' fd' = if decide (fd' = fd) then Some c else epoll_owner p fd'.
Proof. intros E Ho fd'. unfold epoll_owner. rewrite E. by case_decide; subst. Qed.

Lemma frame_insert {A} (m : gmap Z A) fd x fd' :
  fd' <> fd -> <[fd := x]> m !! fd' = m !! fd'.
Proof. intros. by apply lookup_insert_ne. Qed.
Lemma frame_delete {A} (m : gmap Z A) fd fd' :
  fd' <> fd -> delete fd m !! fd' = m !! fd'.
Proof. intros. by apply lookup_delete_ne. Qed.

(** First registration, and registration after [disableAll]: an ADD. *)
Lemma epoll_update_add p s c ch (p0 := {| epollfd_ := epollfd_ p; events_size := events_size p;
    channels_ := <[fd_ ch := c]> (channels_ p) |}) :
  epoll_inv p s -> s !! c = Some ch ->
  channels_ p !! fd_ ch = None \/ channels_ p !! fd_ ch = Some c ->
  epoll_set (epollfd_ p) !! fd_ ch = None ->
  update_post p s c ch (p' ← update EPOLL_CTL_ADD p0 c ch;
    mret (p', <[c := set_index ch kAdded]> s)).
Proof.
  intros Hinv Hc Ho Hk. unfold update. cbn [epollfd_ p0].
  destruct (epoll_ctl_add (epollfd_ p) (fd_ ch) (events_ ch) c Hk) as (k' & -> & Ek). rsimp.
  eexists _, _. split; [done |]. split_and!.
  - eapply epoll_inv_frame; [done | done | done | | |].
    + intros fd Hne. cbn [channels_ epollfd_ p0]. rewrite Ek.
      split; by apply frame_insert.
    + eapply slot_new; cbn [channels_ epollfd_ p0]; [apply lookup_insert_eq | apply lookup_insert_eq
      | done | done | rewrite Ek; apply lookup_insert_eq].
    + right. apply lookup_insert_eq.
  - by apply same_but_index_insert.
  - intros fd. unfold epoll_owner. cbn [channels_ p0]. case_decide; [subst; apply lookup_insert_eq |].
    by apply lookup_insert_ne.
  - by apply armed_insert with c.
Qed.

Lemma epoll_update_spec p s c ch :
  epoll_inv p s -> s !! c = Some ch ->
  channels_ p !! fd_ ch = None \/ channels_ p !! fd_ ch = Some c ->
  update_post p s c ch (epoll_updateChannel true p s c).
Proof.
  intros Hinv Hc Ho. pose proof (ei_slot _ _ Hinv (fd_ ch)) as Hslot.
  pose proof (ei_index _ _ Hinv _ _ Hc) as Hidx.
  unfold epoll_updateChannel, load_channel. rewrite Hc. rsimp. unfold slot_ok in Hslot.
  destruct (channels_ p !! fd_ ch) as [c'|] eqn:Eo.
  - destruct Ho as [| Ho]; [done |]. injection Ho as ->.
    destruct Hslot as (ch' & Hc' & _ & Hst). rewrite Hc in Hc'. injection Hc' as <-.
    destruct Hst as [[Ei (ev & Ek)] | [Ei Ek]]; rewrite Ei; cbn [Z.eqb kNew kAdded kDeleted orb Pos.eqb].
    + rewrite !bool_decide_eq_true_2 by done. cbn [assertInLoopThread assert_]. rsimp.
      destruct (isNoneEvent ch) eqn:En.
      * unfold update. destruct (epoll_ctl_del _ _ (events_ ch) c _ Ek) as (k' & -> & Ek'). rsimp.
        eexists _, _. split; [done |]. split_and!.
        -- eapply epoll_inv_frame; [done | done | by right | | | by right].
           ++ intros fd Hne. cbn [channels_ epollfd_]. by rewrite Ek', frame_delete.
           ++ unfold slot_ok. cbn [channels_ epollfd_]. rewrite Eo, Ek'.
              eexists; split; [apply lookup_insert_eq |]. split; [done |]. right.
              split; [done | apply lookup_delete_eq].
        -- by apply same_but_index_insert.
        -- by apply owner_same.
        -- intros fd. rewrite (armed_delete p _ (fd_ ch)) by done.
           unfold isNoneEvent in En. apply Z.eqb_eq in En. by rewrite En.
      * unfold update. destruct (epoll_ctl_mod _ _ (events_ ch) c _ Ek) as (k' & -> & Ek'). rsimp.
        eexists _, _. split; [done |]. split_and!.
        -- rewrite <- (insert_id s c ch Hc), <- (set_index_fix ch).
           eapply epoll_inv_frame; [done | done | by right | | | by right].
           ++ intros fd Hne. cbn [channels_ epollfd_]. by rewrite Ek', frame_insert.
           ++ eapply slot_new; cbn [channels_ epollfd_]; [done | apply lookup_insert_eq
              | done | done | rewrite Ek'; apply lookup_insert_eq].
        -- apply same_but_index_refl.
        -- by apply owner_same.
        -- by apply armed_insert with c.
    + rewrite !bool_decide_eq_true_2 by done. cbn [assertInLoopThread assert_]. rsimp.
      pose proof (epoll_update_add p s c ch Hinv Hc (or_intror Eo) Ek) as Hadd.
      rewrite (insert_id _ _ _ Eo) in Hadd. destruct p; exact Hadd.
  - destruct Hidx as [Ei | ?]; [| done]. rewrite Ei.
    cbn [Z.eqb kNew kAdded kDeleted orb Pos.eqb]. 
    rewrite bool_decide_eq_true_2 by done. cbn [assertInLoopThread assert_]. rsimp. apply epoll_update_add; auto.
Qed.

Lemma epoll_remove_spec p s c ch :
  epoll_inv p s -> s !! c = Some ch -> channels_ p !! fd_ ch = Some c -> isNoneEvent ch = true ->
  exists p' s', epoll_removeChannel true p s c = Ok (p', s')
    /\ epoll_inv p' s' /\ same_but_index s s'
    /\ (forall fd, epoll_owner p' fd = if decide (fd = fd_ ch) then None else epoll_owner p fd)
    /\ (forall fd, epoll_armed p' fd = if decide (fd = fd_ ch) then 0 else epoll_armed p fd).
Proof.
  intros Hinv Hc Ho Hn. pose proof (ei_slot _ _ Hinv (fd_ ch)) as Hslot.
  unfold epoll_removeChannel, load_channel. rewrite Hc. rsimp.
  unfold slot_ok in Hslot. rewrite Ho in Hslot |- *. rewrite !bool_decide_eq_true_2 by done.
  rewrite Hn. destruct Hslot as (ch' & Hc' & _ & Hst). rewrite Hc in Hc'. injection Hc' as <-.
  assert (Hown : forall fd, delete (fd_ ch) (channels_ p) !! fd
    = if decide (fd = fd_ ch) then None else channels_ p !! fd).
  { intros fd. case_decide; [subst; apply lookup_delete_eq | by apply lookup_delete_ne]. }
  destruct Hst as [[Ei (ev & Ek)] | [Ei Ek]]; rewrite Ei;
    cbn [assert_ Z.eqb kNew kAdded kDeleted orb Pos.eqb]; rsimp.
  - unfold update. cbn [epollfd_].
    destruct (epoll_ctl_del _ _ (events_ ch) c _ Ek) as (k' & -> & Ek'). rsimp.
    eexists _, _. split; [done |]. split_and!; [| by apply same_but_index_insert | done
      | by apply armed_delete].
    eapply epoll_inv_frame; [done | done | by right | | | by left].
    + intros fd Hne. cbn [channels_ epollfd_]. rewrite Ek'.
      split; by apply frame_delete.
    + unfold slot_ok. cbn [channels_ epollfd_]. by rewrite lookup_delete_eq, Ek', lookup_delete_eq.
  - eexists _, _. split; [done |]. split_and!; [| by apply same_but_index_insert | done |].
    + eapply epoll_inv_frame; [done | done | by right | | | by left].
      * intros fd Hne. cbn [channels_ epollfd_]. by rewrite frame_delete.
      * unfold slot_ok. cbn [channels_ epollfd_]. by rewrite lookup_delete_eq.
    + intros fd. unfold epoll_armed. cbn [epollfd_]. case_decide; [subst; by rewrite Ek | done].
Qed.

Lemma epoll_inv_modify p s c ch ch' :
  epoll_inv p s -> s !! c = Some ch -> fd_ ch' = fd_ ch -> index_ ch' = index_ ch ->
  epoll_inv p (<[c := ch']> s).
Proof.
  intros [Hs Hi] Hc Hf Hx. split.
  - intros fd. specialize (Hs fd). unfold slot_ok in *.
    destruct (channels_ p !! fd) as [c1|]; [| done]. destruct Hs as (ch1 & E & Ef & Hor).
    destruct (decide (c = c1)) as [<- |]; [| by exists ch1; rewrite lookup_insert_ne].
    exists ch'. rewrite lookup_insert_eq. rewrite Hc in E. injection E as <-.
    rewrite Hf, Hx. done.
  - intros c1 ch1. destruct (decide (c = c1)) as [<- |].
    + rewrite lookup_insert_eq. intros [= <-]. rewrite Hf, Hx. by apply Hi.
    + rewrite lookup_insert_ne by done. apply Hi.
Qed.

Lemma epoll_inv_fresh p s c ch :
  epoll_inv p s -> s !! c = None -> index_ ch = -1 -> epoll_inv p (<[c := ch]> s).
Proof.
  intros [Hs Hi] Hc Hx. split.
  - intros fd. specialize (Hs fd). unfold slot_ok in *.
    destruct (channels_ p !! fd) as [c1|]; [| done]. destruct Hs as (ch1 & E & Ef & Hor).
    exists ch1. rewrite lookup_insert_ne; [done | congruence].
  - intros c1 ch1. destruct (decide (c = c1)) as [<- |].
    + rewrite lookup_insert_eq. intros [= <-]. by left.
    + rewrite lookup_insert_ne by done. apply Hi.
Qed.

Lemma epoll_inv_delete p s c ch :
  epoll_inv p s -> s !! c = Some ch -> channels_ p !! fd_ ch <> Some c -> epoll_inv p (delete c s).
Proof.
  intros [Hs Hi] Hc Ho. split.
  - intros fd. specialize (Hs fd). unfold slot_ok in *.
    destruct (channels_ p !! fd) as [c1|] eqn:E1; [| done]. destruct Hs as (ch1 & E & Ef & Hor).
    exists ch1. rewrite lookup_delete_ne; [done |]. intros <-. congruence.
  - intros c1 ch1. destruct (decide (c = c1)) as [<- |]; [by rewrite lookup_delete_eq |].
    rewrite lookup_delete_ne by done. apply Hi.
Qed.

Lemma epoll_inv_owner p s fd c :
  epoll_inv p s -> channels_ p !! fd = Some c -> exists ch, s !! c = Some ch /\ fd_ ch = fd.
Proof.
  intros [Hs _] Ho. specialize (Hs fd). unfold slot_ok in Hs. rewrite Ho in Hs.
  destruct Hs as (ch & ? & ? & _). eauto.
Qed.

(** ** [poll] *)

(** epoll_wait(2) reports the user data of members of the interest list, each
    at most once, and at most [maxevents] of them. *)
Definition epoll_ret_ok (p : EPollPoller) (r : epoll_ret) : Prop :=
  match r with
  | EpollFailed _ => True
  | EpollEvents evs =>
      zlen evs <= events_size p /\ NoDup evs.*2
      /\ Forall (fun ec => exists fd ev, epoll_set (epollfd_ p) !! fd = Some (ev, ec.2)) evs
  end.

Lemma epoll_member p s fd ev c :
  epoll_inv p s -> epoll_set (epollfd_ p) !! fd = Some (ev, c) ->
  exists ch, s !! c = Some ch /\ channels_ p !! fd_ ch = Some c.
Proof.
  intros [Hs _] E. specialize (Hs fd). unfold slot_ok in Hs.
  destruct (channels_ p !! fd) as [c'|] eqn:Ec; [| congruence].
  destruct Hs as (ch & Hc & Hf & [[_ [ev' E']] | [_ E']]); [| congruence].
  rewrite E in E'. injection E' as <- <-. exists ch. by rewrite Hf.
Qed.

Lemma fill_loop_spec evs : forall p s active,
  epoll_inv p s ->
  Forall (fun ec => exists fd ev, epoll_set (epollfd_ p) !! fd = Some (ev, ec.2)) evs ->
  NoDup evs.*2 ->
  exists s', fill_loop p s evs active = Ok (active ++ evs.*2, s') /\ epoll_inv p s'
    /\ same_but_revents s s'
    /\ (forall c, c ∉ evs.*2 -> s' !! c = s !! c)
    /\ (forall e c, (e, c) ∈ evs -> exists ch, s !! c = Some ch /\ s' !! c = Some (set_revents ch e)).
Proof.
  induction evs as [| [e c] evs IH]; intros p s active Hinv Hall Hnd; cbn [fill_loop].
  - exists s. rewrite app_nil_r. split_and!; [done | done | apply same_but_revents_refl | done |].
    intros e c Hin. by apply not_elem_of_nil in Hin.
  - apply Forall_cons in Hall as [(fd & ev & E) Hall].
    rewrite fmap_cons in Hnd. apply NoDup_cons in Hnd as [Hni Hnd]. cbn [snd] in *.
    destruct (epoll_member _ _ _ _ _ Hinv E) as (ch & Hc & Ho).
    unfold load_channel. rewrite Hc. rsimp. rewrite Ho, !bool_decide_eq_true_2 by done.
    cbn [assert_]. rsimp.
    destruct (IH p (<[c := set_revents ch e]> s) (active ++ [c])) as (s' & -> & ? & Hsr & Hout & Hin);
      [by eapply epoll_inv_modify | done | done |].
    exists s'. rewrite <- app_assoc. split_and!; [done | done | by eapply same_but_revents_insert | |].
    + intros c' Hc'. rewrite fmap_cons in Hc'. apply not_elem_of_cons in Hc' as [??].
      rewrite Hout, lookup_insert_ne by done. done.
    + intros e' c' Hin'. apply elem_of_cons in Hin' as [[= -> ->] | Hin'].
      * exists ch. by rewrite Hout, lookup_insert_eq.
      * destruct (Hin _ _ Hin') as (ch' & Hl & ->). exists ch'. split; [| done].
        rewrite lookup_insert_ne in Hl; [done |]. intros ->. apply Hni.
        apply list_elem_of_fmap. by exists (e', c').
Qed.

Lemma grow_inv p s n :
  epoll_inv p s ->
  epoll_inv {| epollfd_ := epollfd_ p; events_size := n; channels_ := channels_ p |} s.
Proof. intros [H1 H2]. split; [exact H1 | exact H2]. Qed.

Lemma epoll_poll_spec p s r :
  epoll_inv p s -> epoll_ret_ok p r ->
  exists active p' s', epoll_poll p s r = Ok (active, p', s')
    /\ epoll_inv p' s' /\ same_but_revents s s'
    /\ (forall fd, epoll_owner p' fd = epoll_owner p fd)
    /\ (forall fd, epoll_armed p' fd = epoll_armed p fd)
    /\ Forall (fun c => exists ch, s !! c = Some ch /\ epoll_owner p (fd_ ch) = Some c) active.
Proof.
  intros Hinv Hr. destruct r as [errno | evs].
  { exists [], p, s. split_and!; try done; apply same_but_revents_refl. }
  destruct Hr as (Hsz & Hnd & Hall). destruct evs as [| ec evs].
  { exists [], p, s. split_and!; try done; apply same_but_revents_refl. }
  unfold epoll_poll, epoll_fillActiveChannels.
  rewrite (proj2 (Z.leb_le _ _) Hsz). cbn [assert_]. rsimp.
  destruct (fill_loop_spec _ p s [] Hinv Hall Hnd) as (s' & -> & Hi & Hs & _). rsimp.
  eexists _, _, _. split; [done |]. split_and!; [| done | | |].
  - case_match; [by apply grow_inv | done].
  - intros fd. by case_match.
  - intros fd. by case_match.
  - cbn [app]. apply Forall_fmap. eapply Forall_impl; [exact Hall |].
    intros [e c] (fd & ev & E). by apply epoll_member with (fd := fd) (ev := ev).
Qed.

(** ** The contract *)

#[export] Instance epoll_spec : PollerSpec CB EPollPoller :=
  {| inv := epoll_inv; owner := epoll_owner; armed := epoll_armed; ret_ok := epoll_ret_ok;
     inv_owner := epoll_inv_owner; inv_modify := epoll_inv_modify; inv_fresh := epoll_inv_fresh;
     update_spec := epoll_update_spec; remove_spec := epoll_remove_spec;
     inv_delete := epoll_inv_delete; poll_spec := epoll_poll_spec |}.
End epoll.
Arguments EPollPoller : clear implicits.

(** ** Properties *)

Section epoll_properties.
Context {CB K : Type} `{EpollLaws K}.

Lemma epoll_tracks_new (k : K) (s : chan_store CB) (fds : gmap chan_id Z) :
  epoll_set k = ∅ -> (forall c ch, s !! c = Some ch -> index_ ch = kNew) ->
  (forall c, fd_ <$> s !! c = fds !! c) ->
  (forall c1 c2 fd, fds !! c1 = Some fd -> fds !! c2 = Some fd -> c1 = c2) ->
  tracks fds (EPollPoller_new k) s ∅.
Proof.
  intros Hk Hs Hfd Hinj. split; try done.
  - split.
    + intros fd. unfold slot_ok. cbn. by rewrite Hk.
    + intros c ch Hc. left. eauto.
  - intros c fd _. cbn. unfold epoll_armed. cbn. by rewrite Hk.
  - intros c [? Hc]. by rewrite lookup_empty in Hc.
Qed.

(** C12: Starting from an empty epoll instance, any legal history of interest
    changes (channels with distinct descriptors; a channel is removed only
    after [disableAll]) runs without an assertion failure or a fatal
    [epoll_ctl], and afterwards the kernel watches every descriptor for exactly
    the events its channel last asked for, and [channels_] knows exactly the
    channels not removed; ADD, MOD and DEL are chosen from [index_] alone. *)
Theorem epoll_interest_exact (k : K) (s : chan_store CB) (fds : gmap chan_id Z) ops m :
  epoll_set k = ∅ ->
  (forall c ch, s !! c = Some ch -> index_ ch = kNew) ->
  (forall c, fd_ <$> s !! c = fds !! c) ->
  (forall c1 c2 fd, fds !! c1 = Some fd -> fds !! c2 = Some fd -> c1 = c2) ->
  spec_interests (dom fds) ops ∅ = Some m ->
  exists p' s', run_interests ops (EPollPoller_new k, s) = Ok (p', s')
    /\ (forall c fd, fds !! c = Some fd ->
          epoll_armed p' fd = default 0 (m !! c)
          /\ channels_ p' !! fd = (if decide (is_Some (m !! c)) then Some c else None)
          /\ (m !! c = None -> epoll_set (epollfd_ p') !! fd = None)).
Proof.
  intros Hk Hs Hfd Hinj Hm.
  destruct (run_interests_tracks fds ops _ _ _ _ (epoll_tracks_new k s fds Hk Hs Hfd Hinj) Hm)
    as (p' & s' & -> & Ht). exists p', s'. split; [done |]. intros c fd Hc.
  pose proof (tr_owner _ _ _ _ Ht c fd Hc) as Ho. cbn in Ho. unfold epoll_owner in Ho.
  split_and!; [by apply (tr_armed _ _ _ _ Ht) | done |].
  intros Hn. rewrite Hn, decide_False in Ho by (intros []; done).
  pose proof (ei_slot _ _ (tr_inv _ _ _ _ Ht) fd) as Hslot. unfold slot_ok in Hslot.
  by rewrite Ho in Hslot.
Qed.

(** [poll] hands the loop exactly the channels the kernel reported, in its
    order, with [revents_] set to what it reported and every other channel
    untouched; it keeps the registration invariant, and doubles the event
    array when it came back full. *)
Theorem epoll_poll_reports (p : EPollPoller K) (s : chan_store CB) evs :
  epoll_inv p s -> epoll_ret_ok p (EpollEvents evs) ->
  exists p' s', epoll_poll p s (EpollEvents evs) = Ok (evs.*2, p', s')
    /\ epoll_inv p' s' /\ channels_ p' = channels_ p /\ epollfd_ p' = epollfd_ p
    /\ events_size p' = (if decide (evs <> [] /\ zlen evs = events_size p)
                         then events_size p * 2 else events_size p)
    /\ (forall c, c ∉ evs.*2 -> s' !! c = s !! c)
    /\ (forall e c, (e, c) ∈ evs -> exists ch, s !! c = Some ch
          /\ channels_ p !! fd_ ch = Some c /\ s' !! c = Some (set_revents ch e)).
Proof.
  intros Hinv (Hsz & Hnd & Hall). destruct evs as [| ec evs].
  { exists p, s. rewrite decide_False by (intros []; done). split_and!; try done.
    intros e c Hin. by apply not_elem_of_nil in Hin. }
  unfold epoll_poll, epoll_fillActiveChannels.
  rewrite (proj2 (Z.leb_le _ _) Hsz). cbn [assert_]. rsimp.
  destruct (fill_loop_spec _ p s [] Hinv Hall Hnd) as (s' & -> & Hi & Hs & Hout & Hin). rsimp.
  eexists _, _. split; [done |]. split_and!.
  - case_match; [by apply grow_inv | done].
  - by case_match.
  - by case_match.
  - destruct (Z.eqb_spec (zlen (ec :: evs)) (events_size p)).
    + by rewrite decide_True.
    + rewrite decide_False; [done | intros []; done].
  - exact Hout.
  - intros e c Hec. destruct (Hin e c Hec) as (ch & Hc & ->). exists ch. split_and!; [done | | done].
    rewrite Forall_forall in Hall. destruct (Hall _ Hec) as (fd & ev & E). cbn [snd] in E.
    destruct (epoll_member _ _ _ _ _ Hinv E) as (ch' & Hc' & Ho). by simplify_eq.
Qed.
End epoll_properties.

(** A kernel that keeps the interest list itself. *)
Record demo_epoll : Type := mkDemoEpoll { demo_set : gmap Z (Z * chan_id) }.

Definition demo_epoll_ctl (k : demo_epoll) (op fd ev p : Z) : Z * demo_epoll :=
  match demo_set k !! fd with
  | None => if op =? EPOLL_CTL_ADD then (0, mkDemoEpoll (<[fd := (ev, p)]> (demo_set k))) else (-1, k)
  | Some _ =>
      if op =? EPOLL_CTL_MOD then (0, mkDemoEpoll (<[fd := (ev, p)]> (demo_set k)))
      else if op =? EPOLL_CTL_DEL then (0, mkDemoEpoll (delete fd (demo_set k)))
      else (-1, k)
  end.

#[export] Instance demo_epoll_kernel : EpollKernel demo_epoll :=
  {| epoll_ctl := demo_epoll_ctl; epoll_set := demo_set |}.
#[export] Instance demo_epoll_laws : EpollLaws demo_epoll.
Proof.
  split; intros k fd ev p; cbn; unfold demo_epoll_ctl.
  - intros ->. eauto.
  - intros x ->. eauto.
  - intros x ->. eauto.
Defined.

Definition demo_store : chan_store nat :=
  <[10 := Channel_new 0 4]> (<[11 := Channel_new 0 5]> ∅).

Lemma demo_store_inv (P : Z -> Channel nat -> Prop) :
  P 10 (Channel_new 0 4) -> P 11 (Channel_new 0 5) ->
  forall c ch, demo_store !! c = Some ch -> P c ch.
Proof.
  intros H1 H2 c ch. unfold demo_store.
  rewrite !lookup_insert_Some, lookup_empty. intros [[<- <-] | [? [[<- <-] | [??]]]]; done.
Qed.

Lemma demo_fds_inj c1 c2 fd :
  (fd_ <$> demo_store) !! c1 = Some fd -> (fd_ <$> demo_store) !! c2 = Some fd -> c1 = c2.
Proof.
  assert (fd_ <$> demo_store = <[10 := 4]> (<[11 := 5]> (∅ : gmap Z Z))) as -> by reflexivity.
  rewrite !lookup_insert_Some, !lookup_empty.
  intros [[??]|[? [[??]|[??]]]] [[??]|[? [[??]|[??]]]]; congruence.
Qed.

(** Channel 10 is enabled, changed, disabled and enabled again; channel 11 is
    enabled, disabled and removed. *)
Definition demo_ops : list interest_op :=
  [SetEvents 10 3; SetEvents 11 4; SetEvents 10 7; SetEvents 11 0; SetEvents 10 0;
   Unregister 11; SetEvents 10 4].

Lemma epoll_interest_exact_witness :
  exists p' s', run_interests demo_ops (EPollPoller_new (mkDemoEpoll ∅), demo_store) = Ok (p', s')
    /\ epoll_armed p' 4 = 4 /\ epoll_armed p' 5 = 0 /\ channels_ p' !! 5 = None.
Proof.
  destruct (epoll_interest_exact (mkDemoEpoll ∅) demo_store (fd_ <$> demo_store) demo_ops
    {[10 := 4]}) as (p' & s' & Hr & H).
  - reflexivity.
  - apply demo_store_inv; reflexivity.
  - intros c. symmetry. apply lookup_fmap.
  - apply demo_fds_inj.
  - vm_compute. reflexivity.
  - exists p', s'. split; [exact Hr |].
    destruct (H 10 4 eq_refl) as (-> & _). destruct (H 11 5 eq_refl) as (-> & -> & _).
    split; [| split]; vm_compute; reflexivity.
Defined.

Definition demo_poller : EPollPoller demo_epoll :=
  {| epollfd_ := mkDemoEpoll {[4 := (3, 10)]}; events_size := 1; channels_ := {[4 := 10]} |}.
Definition demo_store1 : chan_store nat :=
  {[10 := set_index (with_events (Channel_new 0 4) 3) kAdded]}.

Lemma demo_poller_inv : epoll_inv demo_poller demo_store1.
Proof.
  split.
  - intros fd. unfold slot_ok. cbn. destruct (decide (fd = 4)) as [-> |].
    + eexists. split; [reflexivity |]. split; [done |]. left. split; [done |]. by exists 3.
    + rewrite !lookup_singleton_ne by done. done.
  - intros c ch. unfold demo_store1. rewrite lookup_singleton_Some. intros [<- <-]. by right.
Qed.

Lemma epoll_poll_reports_witness :
  exists p' s', epoll_poll demo_poller demo_store1 (EpollEvents [(1, 10)]) = Ok ([10], p', s')
    /\ events_size p' = 2 /\ epoll_inv p' s'.
Proof.
  destruct (epoll_poll_reports demo_poller demo_store1 [(1, 10)] demo_poller_inv)
    as (p' & s' & Hr & Hi & _ & _ & Hsz & _).
  - split; [reflexivity |]. split; [apply NoDup_singleton |].
    apply Forall_singleton. exists 4, 3. reflexivity.
  - exists p', s'. split; [exact Hr |]. split; [| exact Hi]. rewrite Hsz. reflexivity.
Defined.
