(* ===== verification/PollPoller.v ===== *)
(** * PollPoller: the poll(2) back end

    [muduo/net/poller/PollPoller.h], [PollPoller.cc].  The poller keeps the
    array handed to poll(2) and, per channel, its position in it
    ([Channel::index_]); a channel without interest is parked by negating its
    descriptor.  The kernel's part of poll(2) is the array of [revents] and the
    count it returns. *)
From S2P Require Import Prelude Channel Poller.

(** [struct pollfd] of the system. *)
Record pollfd : Type := mkPollfd { fd : Z; events : Z; revents : Z }.

#[export] Instance pollfd_eq_dec : EqDecision pollfd.
Proof. solve_decision. Defined.

(*@ muduo/muduo/net/poller/PollPoller.h 44-51 PollPoller *)
Record PollPoller : Type := mkPollPoller {
  pollfds_ : list pollfd;
  channels_ : gmap Z chan_id
}.

(*@ muduo/muduo/net/poller/PollPoller.cc 21-24 PollPoller::PollPoller *)
Definition PollPoller_new : PollPoller := {| pollfds_ := []; channels_ := ∅ |}.

(** What ::poll did: failed, or wrote the [revents] of the array and returned
    how many are not zero. *)
Inductive pollfd_ret : Type :=
| PollFailed (errno : Z)
| PollReady (numEvents : Z) (revs : list Z).

Section pollpoller.
Context {CB : Type}.
Implicit Types s : chan_store CB.

Definition pp_load s (c : chan_id) : res (Channel CB) :=
  match s !! c with Some ch => Ok ch | None => Err BadAccess end.

(** [v[i]] and [v.back()] on a vector. *)
Definition vec_at {A} (l : list A) (i : Z) : res A :=
  match l !! Z.to_nat i with Some x => if 0 <=? i then Ok x else Err BadAccess | None => Err BadAccess end.
Definition vec_back {A} (l : list A) : res A :=
  match last l with Some x => Ok x | None => Err BadAccess end.

(*@ muduo/muduo/net/poller/PollPoller.cc 58-79 PollPoller::fillActiveChannels *)
Fixpoint pp_fillActiveChannels (m : gmap Z chan_id) (pfds : list pollfd) (numEvents : Z) s
  (activeChannels : list chan_id) : res (list chan_id * chan_store CB) :=
  match pfds with
  | [] => mret (activeChannels, s)
  | pfd :: pfds =>
      if 0 <? numEvents
      then if 0 <? revents pfd
           then
             match m !! fd pfd with
             | None => Err AssertFail
             | Some c =>
                 ch ← pp_load s c;
                 assert_ (fd_ ch =? fd pfd);;
                 pp_fillActiveChannels m pfds (numEvents - 1) (<[c := set_revents ch (revents pfd)]> s)
                   (activeChannels ++ [c])
             end
           else pp_fillActiveChannels m pfds numEvents s activeChannels
      else mret (activeChannels, s)
  end.

(** The kernel wrote [revs] into the array. *)
Definition set_revs (pfds : list pollfd) (revs : list Z) : list pollfd :=
  zip_with (fun p r => {| fd := fd p; events := events p; revents := r |}) pfds revs.

(*@ muduo/muduo/net/poller/PollPoller.cc 31-54 PollPoller::poll *)
Definition pp_poll (p : PollPoller) s (r : pollfd_ret) : res (list chan_id * PollPoller * chan_store CB) :=
  match r with
  | PollFailed _ => mret ([], p, s)
  | PollReady numEvents revs =>
      let p := {| pollfds_ := set_revs (pollfds_ p) revs; channels_ := channels_ p |} in
      if 0 <? numEvents
      then
        '(active, s) ← pp_fillActiveChannels (channels_ p) (pollfds_ p) numEvents s [];
        mret (active, p, s)
      else mret ([], p, s)
  end.

(*@ muduo/muduo/net/poller/PollPoller.cc 83-137 PollPoller::updateChannel *)
Definition pp_updateChannel (inloop : bool) (p : PollPoller) s (c : chan_id)
  : res (PollPoller * chan_store CB) :=
  assertInLoopThread inloop;;
  ch ← pp_load s c;
  if index_ ch <? 0
  then
    assert_ (bool_decide (channels_ p !! fd_ ch = None));;
    let pfd := {| fd := fd_ ch; events := s16 (events_ ch); revents := 0 |} in
    let pfds := pollfds_ p ++ [pfd] in
    let idx := s32 (zlen pfds) - 1 in
    mret ({| pollfds_ := pfds; channels_ := <[fd pfd := c]> (channels_ p) |},
          <[c := set_index ch idx]> s)
  else
    assert_ (bool_decide (is_Some (channels_ p !! fd_ ch)));;
    assert_ (bool_decide (channels_ p !! fd_ ch = Some c));;
    let idx := index_ ch in
    assert_ ((0 <=? idx) && (idx <? s32 (zlen (pollfds_ p))));;
    pfd ← vec_at (pollfds_ p) idx;
    assert_ ((fd pfd =? fd_ ch) || (fd pfd =? - fd_ ch - 1));;
    let pfd := {| fd := fd pfd; events := s16 (events_ ch); revents := 0 |} in
    let pfd := if isNoneEvent ch
               then {| fd := - fd_ ch - 1; events := events pfd; revents := revents pfd |}
               else pfd in
    mret ({| pollfds_ := <[Z.to_nat idx := pfd]> (pollfds_ p); channels_ := channels_ p |}, s).

(*@ muduo/muduo/net/poller/PollPoller.cc 140-183 PollPoller::removeChannel *)
Definition pp_removeChannel (inloop : bool) (p : PollPoller) s (c : chan_id)
  : res (PollPoller * chan_store CB) :=
  assertInLoopThread inloop;;
  ch ← pp_load s c;
  assert_ (bool_decide (is_Some (channels_ p !! fd_ ch)));;
  assert_ (bool_decide (channels_ p !! fd_ ch = Some c));;
  assert_ (isNoneEvent ch);;
  let idx := index_ ch in
  assert_ ((0 <=? idx) && (idx <? s32 (zlen (pollfds_ p))));;
  pfd ← vec_at (pollfds_ p) idx;
  assert_ ((fd pfd =? - fd_ ch - 1) && (events pfd =? events_ ch));;
  let channels := delete (fd_ ch) (channels_ p) in
  if idx =? zlen (pollfds_ p) - 1
  then mret ({| pollfds_ := removelast (pollfds_ p); channels_ := channels |}, s)
  else
    pback ← vec_back (pollfds_ p);
    let channelAtEnd := fd pback in
    (* iter_swap of position idx and the last one *)
    let swapped := <[(length (pollfds_ p) - 1)%nat := pfd]> (<[Z.to_nat idx := pback]> (pollfds_ p)) in
    let channelAtEnd := if channelAtEnd <? 0 then - channelAtEnd - 1 else channelAtEnd in
    match channels !! channelAtEnd with
    | None => Err BadAccess   (* operator[] inserts a null pointer, then it is followed *)
    | Some cl =>
        chl ← pp_load s cl;
        mret ({| pollfds_ := removelast swapped; channels_ := channels |},
              <[cl := set_index chl idx]> s)
    end.

#[export] Instance pp_ops : PollerOps CB PollPoller :=
  {| poll := pp_poll; updateChannel := pp_updateChannel; removeChannel := pp_removeChannel |}.

(** ** The invariant: array positions and [index_] agree *)

(** The descriptor an entry stands for, parked or not. *)
Definition real_fd (z : Z) : Z := if z <? 0 then - z - 1 else z.

Record pp_inv (p : PollPoller) s : Prop := {
  pi_size : zlen (pollfds_ p) < 2 ^ 31;
  pi_entry i pfd : pollfds_ p !! i = Some pfd ->
    exists c ch, channels_ p !! real_fd (fd pfd) = Some c /\ s !! c = Some ch
      /\ fd_ ch = real_fd (fd pfd) /\ index_ ch = Z.of_nat i;
  pi_chan z c : channels_ p !! z = Some c ->
    exists ch pfd, s !! c = Some ch /\ fd_ ch = z /\ 0 <= index_ ch
      /\ pollfds_ p !! Z.to_nat (index_ ch) = Some pfd /\ real_fd (fd pfd) = z
}.

(** What poll(2) watches a descriptor for: it skips negative ones. *)
Definition pp_armed (p : PollPoller) (z : Z) : Z :=
  match list_find (fun pfd => fd pfd = z) (pollfds_ p) with
  | Some (_, pfd) => if 0 <=? z then events pfd else 0
  | None => 0
  end.
Definition pp_owner (p : PollPoller) (z : Z) : option chan_id := channels_ p !! z.

Lemma real_fd_nonneg z : 0 <= real_fd z.
Proof. unfold real_fd. destruct (Z.ltb_spec z 0); lia. Qed.
Lemma real_fd_id z : 0 <= z -> real_fd z = z.
Proof. unfold real_fd. destruct (Z.ltb_spec z 0); lia. Qed.
Lemma real_fd_park z : 0 <= z -> real_fd (- z - 1) = z.
Proof. unfold real_fd. destruct (Z.ltb_spec (- z - 1) 0); lia. Qed.

Lemma removelast_take {A} (l : list A) : removelast l = take (length l - 1) l.
Proof.
  destruct l as [| x l] using rev_ind; [done |].
  rewrite removelast_last, length_app. cbn. rewrite Nat.add_sub. by rewrite take_app_length.
Qed.

Lemma vec_at_ok {A} (l : list A) i x : 0 <= i -> l !! Z.to_nat i = Some x -> vec_at l i = Ok x.
Proof. intros H E. unfold vec_at. rewrite E. by rewrite (proj2 (Z.leb_le 0 i)). Qed.

Lemma lookup_zlen {A} (l : list A) i x : 0 <= i -> l !! Z.to_nat i = Some x -> i < zlen l.
Proof. intros ? E. apply lookup_lt_Some in E. unfold zlen. lia. Qed.

(** Two entries of the array never stand for the same descriptor. *)
Lemma pp_entry_inj p s i j a b :
  pp_inv p s -> pollfds_ p !! i = Some a -> pollfds_ p !! j = Some b ->
  real_fd (fd a) = real_fd (fd b) -> i = j.
Proof.
  intros [_ He _] Ha Hb Hab. destruct (He _ _ Ha) as (c & ch & Hc & Hs & _ & Hi).
  destruct (He _ _ Hb) as (c' & ch' & Hc' & Hs' & _ & Hj). rewrite Hab in Hc. simplify_eq. lia.
Qed.

Lemma pp_update_new p s c ch :
  pp_inv p s -> s !! c = Some ch -> index_ ch < 0 -> 0 <= fd_ ch ->
  channels_ p !! fd_ ch = None -> zlen (pollfds_ p) + 1 < 2 ^ 31 ->
  exists p' s', pp_updateChannel true p s c = Ok (p', s') /\ pp_inv p' s'
    /\ pollfds_ p' = pollfds_ p ++ [{| fd := fd_ ch; events := s16 (events_ ch); revents := 0 |}]
    /\ channels_ p' = <[fd_ ch := c]> (channels_ p) /\ same_but_index s s'.
Proof.
  intros [Hsz He Hch] Hc Hi Hfd Ho Hn. unfold pp_updateChannel, pp_load. rewrite Hc. rsimp.
  cbn [assertInLoopThread]. rsimp. rewrite (proj2 (Z.ltb_lt _ _) Hi), Ho.
  rewrite bool_decide_eq_true_2 by done. cbn [assert_]. rsimp. cbn [fd].
  rewrite zlen_snoc, s32_small by (pose proof (zlen_nonneg (pollfds_ p)); lia).
  eexists _, _. split; [done |]. split_and!; [| done | done | by apply same_but_index_insert].
  assert (Hne : forall z c', channels_ p !! z = Some c' -> z <> fd_ ch) by congruence.
  assert (Hnc : forall z c', channels_ p !! z = Some c' -> c' <> c).
  { intros z c' Hz ->. destruct (Hch _ _ Hz) as (ch' & _ & Hs & Hf & _).
    rewrite Hc in Hs. simplify_eq. }
  split; cbn [pollfds_ channels_].
  - by rewrite zlen_snoc.
  - intros i pfd Hl. apply lookup_app_Some in Hl as [Hl | [Hge Hl]].
    + destruct (He _ _ Hl) as (c' & ch' & H1 & H2 & H3 & H4). exists c', ch'.
      rewrite !lookup_insert_ne; [done | by apply not_eq_sym, (Hnc _ _ H1) | by apply not_eq_sym, (Hne _ _ H1)].
    + apply list_lookup_singleton_Some in Hl as [H0 <-]. cbn [fd]. rewrite real_fd_id by done.
      eexists c, _. rewrite !lookup_insert_eq. split_and!; [done | done | done |].
      cbn. unfold zlen. lia.
  - intros z c'. rewrite lookup_insert_Some. intros [[<- <-] | [Hz Hl]].
    + eexists _, _. rewrite lookup_insert_eq. split_and!; [done | done | | |].
      * cbn. pose proof (zlen_nonneg (pollfds_ p)). lia.
      * cbn [index_ set_index]. replace (Z.to_nat _) with (length (pollfds_ p)) by (unfold zlen; lia).
        by rewrite lookup_app_r, Nat.sub_diag by lia.
      * by apply real_fd_id.
    + destruct (Hch _ _ Hl) as (ch' & pfd & H1 & H2 & H3 & H4 & H5). exists ch', pfd.
      rewrite lookup_insert_ne by (by apply not_eq_sym, (Hnc _ _ Hl)).
      split_and!; try done. by apply lookup_app_l_Some.
Qed.

(** The entry after an update of a registered channel: the code never sets
    its [fd] back, so a parked entry stays parked. *)
Definition updated_entry (ch : Channel CB) (pfd : pollfd) : pollfd :=
  {| fd := if isNoneEvent ch then - fd_ ch - 1 else fd pfd; events := s16 (events_ ch); revents := 0 |}.

Lemma pp_update_old p s c ch pfd :
  pp_inv p s -> s !! c = Some ch -> channels_ p !! fd_ ch = Some c ->
  pollfds_ p !! Z.to_nat (index_ ch) = Some pfd ->
  pp_updateChannel true p s c
    = Ok ({| pollfds_ := <[Z.to_nat (index_ ch) := updated_entry ch pfd]> (pollfds_ p);
             channels_ := channels_ p |}, s)
  /\ pp_inv {| pollfds_ := <[Z.to_nat (index_ ch) := updated_entry ch pfd]> (pollfds_ p);
               channels_ := channels_ p |} s.
Proof.
  intros [Hsz He Hch] Hc Ho Hp. destruct (Hch _ _ Ho) as (ch' & pfd' & H1 & H2 & H3 & H4 & H5).
  rewrite Hc in H1. injection H1 as <-. rewrite Hp in H4. injection H4 as <-.
  pose proof (lookup_zlen _ _ _ H3 Hp) as Hlt. pose proof (zlen_nonneg (pollfds_ p)).
  assert (Hreal : real_fd (fd (updated_entry ch pfd)) = fd_ ch).
  { cbn. destruct (isNoneEvent ch); [| done]. apply real_fd_park.
    rewrite <- H5. apply real_fd_nonneg. }
  split.
  - unfold pp_updateChannel, pp_load. rewrite Hc. cbn [assertInLoopThread]. rsimp.
    rewrite (proj2 (Z.ltb_ge _ _)) by lia. rewrite Ho, !bool_decide_eq_true_2 by done.
    cbn [assert_]. rsimp. rewrite s32_small by lia.
    rewrite (proj2 (Z.leb_le _ _)), (proj2 (Z.ltb_lt _ _)) by lia. cbn [assert_ andb]. rsimp.
    rewrite (vec_at_ok _ _ pfd) by done. rsimp.
    rewrite assert_true.
    + rsimp. unfold updated_entry. by destruct (isNoneEvent ch).
    + unfold real_fd in H5. apply orb_true_iff. rewrite !Z.eqb_eq.
      destruct (Z.ltb_spec (fd pfd) 0); lia.
  - split; cbn [pollfds_ channels_].
    + unfold zlen in *. by rewrite length_insert.
    + intros i q Hl. apply list_lookup_insert_Some in Hl as [(<- & <- & _) | [_ Hl]]; [| by apply He].
      rewrite Hreal. exists c, ch. split_and!; [done.. | lia].
    + intros z c' Hz. destruct (Hch _ _ Hz) as (ch' & q & G1 & G2 & G3 & G4 & G5).
      destruct (decide (Z.to_nat (index_ ch) = Z.to_nat (index_ ch'))) as [Heq | Hne].
      * exists ch', (updated_entry ch pfd). rewrite <- Heq in G4 |- *. rewrite Hp in G4.
        injection G4 as <-. split_and!; [done | done | done | | by rewrite Hreal, <- H5].
        apply list_lookup_insert_eq. by eapply lookup_lt_Some.
      * exists ch', q. split_and!; try done. by rewrite list_lookup_insert_ne.
Qed.

(** The array after [removeChannel]: the last entry takes the free place. *)
Definition without (idx : nat) (l : list pollfd) : list pollfd :=
  match last l with
  | Some b => take (length l - 1) (<[idx := b]> l)
  | None => []
  end.

Lemma lookup_without idx l j :
  (idx < length l)%nat ->
  without idx l !! j
  = if decide (j < length l - 1)%nat
    then if decide (j = idx) then last l else l !! j
    else None.
Proof.
  intros Hi. unfold without. destruct (last l) as [b|] eqn:E.
  - destruct (decide (j < length l - 1)%nat).
    + rewrite lookup_take_lt by done. case_decide; [subst; by apply list_lookup_insert_eq |].
      by apply list_lookup_insert_ne.
    + apply lookup_take_ge. lia.
  - apply last_None in E as ->. cbn in Hi. lia.
Qed.

Lemma length_without idx l : (idx < length l)%nat -> length (without idx l) = (length l - 1)%nat.
Proof.
  intros Hi. unfold without. destruct (last l) as [b|] eqn:E.
  - rewrite length_take, length_insert. lia.
  - apply last_None in E as ->. cbn in Hi. lia.
Qed.

(** Who moves: the channel of the last entry, unless it is the one removed. *)
Definition moved (p : PollPoller) s (c : chan_id) (idx : Z) : chan_store CB :=
  match last (pollfds_ p) with
  | Some b =>
      match channels_ p !! real_fd (fd b) with
      | Some cl =>
          if decide (cl = c) then s
          else match s !! cl with Some chl => <[cl := set_index chl idx]> s | None => s end
      | None => s
      end
  | None => s
  end.

Lemma pp_remove_runs p s c ch pfd :
  pp_inv p s -> s !! c = Some ch -> channels_ p !! fd_ ch = Some c ->
  pollfds_ p !! Z.to_nat (index_ ch) = Some pfd ->
  isNoneEvent ch = true -> fd pfd = - fd_ ch - 1 -> events pfd = 0 ->
  pp_removeChannel true p s c
    = Ok ({| pollfds_ := without (Z.to_nat (index_ ch)) (pollfds_ p);
             channels_ := delete (fd_ ch) (channels_ p) |}, moved p s c (index_ ch)).
Proof.
  intros Hinv Hc Ho Hp Hn Hpark Hev.
  pose proof (pi_size _ _ Hinv) as Hsz.
  destruct (pi_chan _ _ Hinv _ _ Ho) as (ch' & pfd' & H1 & _ & H3 & _).
  rewrite Hc in H1. injection H1 as <-.
  pose proof (lookup_zlen _ _ _ H3 Hp) as Hlt. pose proof (zlen_nonneg (pollfds_ p)).
  unfold pp_removeChannel, pp_load. rewrite Hc. cbn [assertInLoopThread]. rsimp.
  rewrite Ho, !bool_decide_eq_true_2 by done. cbn [assert_]. rsimp. rewrite Hn. cbn [assert_]. rsimp.
  rewrite s32_small by lia.
  rewrite (proj2 (Z.leb_le _ _)), (proj2 (Z.ltb_lt _ _)) by lia. cbn [assert_ andb]. rsimp.
  rewrite (vec_at_ok _ _ pfd) by done. rsimp. unfold isNoneEvent in Hn. apply Z.eqb_eq in Hn.
  rewrite Hpark, Hev, Hn, Z.eqb_refl. cbn [assert_ andb Z.eqb kNoneEvent]. rsimp.
  set (n := length (pollfds_ p)) in *. unfold zlen in *. fold n in Hlt, Hsz, H |- *.
  assert (is_Some (last (pollfds_ p))) as [b Hb].
  { apply last_is_Some. intros E. rewrite E in Hp. done. }
  pose proof Hb as Hbl. rewrite last_lookup in Hbl. fold n in Hbl.
  destruct (pi_entry _ _ Hinv _ _ Hbl) as (cl & chl & Hcl & Hsl & Hfl & Hil).
  unfold without, moved. rewrite Hb, Hcl. fold n.
  destruct (Z.eqb_spec (index_ ch) (Z.of_nat n - 1)) as [Hlast | Hlast].
  - replace (pred n) with (Z.to_nat (index_ ch)) in Hbl by lia. rewrite Hp in Hbl. injection Hbl as <-.
    rewrite Hpark, real_fd_park in Hcl by (rewrite <- (Z.opp_involutive (fd_ ch));
      destruct (pi_chan _ _ Hinv _ _ Ho) as (a & q & A1 & A2 & _ & _ & A5);
      rewrite <- A5; pose proof (real_fd_nonneg (fd q)); lia).
    rewrite Ho in Hcl. injection Hcl as <-. rewrite decide_True by done.
    rewrite removelast_take. fold n. rewrite (list_insert_id (pollfds_ p)) by done. done.
  - unfold vec_back. rewrite Hb. rsimp. fold (real_fd (fd b)).
    assert (Hne : real_fd (fd b) <> fd_ ch).
    { intros E. rewrite E, Ho in Hcl. injection Hcl as <-. rewrite Hc in Hsl. injection Hsl as <-. lia. }
    rewrite lookup_delete_ne by done. rewrite Hcl, Hsl. rsimp.
    rewrite decide_False by (intros ->; congruence).
    rewrite removelast_take, !length_insert. fold n. do 3 f_equal.
    rewrite take_insert_ge by lia. done.
Qed.

Lemma pp_remove_inv p s c ch pfd :
  pp_inv p s -> s !! c = Some ch -> channels_ p !! fd_ ch = Some c ->
  pollfds_ p !! Z.to_nat (index_ ch) = Some pfd ->
  pp_inv {| pollfds_ := without (Z.to_nat (index_ ch)) (pollfds_ p);
            channels_ := delete (fd_ ch) (channels_ p) |} (moved p s c (index_ ch)).
Proof.
  intros Hinv Hc Ho Hp. set (idx := Z.to_nat (index_ ch)) in *.
  pose proof (lookup_lt_Some _ _ _ Hp) as Hlt.
  destruct (pi_chan _ _ Hinv _ _ Ho) as (ch' & pfd' & H1 & _ & Hi0 & H4 & Hreal).
  rewrite Hc in H1. injection H1 as <-. fold idx in H4. rewrite Hp in H4. injection H4 as <-.
  assert (is_Some (last (pollfds_ p))) as [b Hb].
  { apply last_is_Some. intros E. rewrite E in Hp. done. }
  pose proof Hb as Hbl. rewrite last_lookup in Hbl.
  destruct (pi_entry _ _ Hinv _ _ Hbl) as (cl & chl & Hcl & Hsl & Hfl & Hil).
  set (n := length (pollfds_ p)) in *.
  assert (Hmv : moved p s c (index_ ch)
    = if decide (cl = c) then s else <[cl := set_index chl (index_ ch)]> s).
  { unfold moved. by rewrite Hb, Hcl, Hsl. }
  assert (Hend : cl = c <-> idx = pred n).
  { split; [intros -> | intros E].
    - rewrite Hc in Hsl. injection Hsl as <-. unfold idx. lia.
    - rewrite <- E, Hp in Hbl. injection Hbl as <-. rewrite Hreal in Hcl. congruence. }
  rewrite Hmv. split; cbn [pollfds_ channels_].
  - pose proof (pi_size _ _ Hinv) as Hz. unfold zlen in *. rewrite length_without by done. lia.
  - intros j q. rewrite lookup_without by done. fold n. destruct (decide (j < n - 1)%nat) as [Hj |]; [| done].
    destruct (decide (j = idx)) as [Hji | Hji].
    + rewrite Hb. intros [= <-]. assert (cl <> c) as Hcc by (rewrite Hend; lia).
      exists cl, (set_index chl (index_ ch)). rewrite decide_False, lookup_insert_eq by done.
      split_and!; [| done | done | cbn; unfold idx in *; lia].
      rewrite lookup_delete_ne; [done |]. intros E. rewrite <- E in Hcl. congruence.
    + intros Hl. destruct (pi_entry _ _ Hinv _ _ Hl) as (c1 & ch1 & G1 & G2 & G3 & G4).
      exists c1, ch1. assert (c1 <> c).
      { intros ->. rewrite Hc in G2. injection G2 as <-. unfold idx in *. lia. }
      assert (c1 <> cl). { intros ->. rewrite Hsl in G2. injection G2 as <-. lia. }
      rewrite lookup_delete_ne by congruence.
      split_and!; [done | | done | done]. case_decide; [done |]. by rewrite lookup_insert_ne.
  - intros z c1 Hz. apply lookup_delete_Some in Hz as [Hzne Hz].
    destruct (pi_chan _ _ Hinv _ _ Hz) as (ch1 & q & G1 & G2 & G3 & G4 & G5).
    assert (c1 <> c) by congruence.
    destruct (decide (c1 = cl)) as [-> | Hc1].
    + rewrite decide_False by done. exists (set_index chl (index_ ch)), b.
      rewrite lookup_insert_eq. rewrite Hsl in G1. injection G1 as <-.
      assert (idx <> pred n) by (rewrite <- Hend; done).
      split_and!; [done | done | done | | ].
      * cbn [index_ set_index]. fold idx. rewrite lookup_without by done. fold n.
        rewrite decide_True by lia. by rewrite decide_True.
      * rewrite Hil, Nat2Z.id, Hbl in G4. by injection G4 as ->.
    + exists ch1, q. split_and!; try done; [case_decide; [done | by rewrite lookup_insert_ne] |].
      rewrite lookup_without by done. fold n. pose proof (lookup_lt_Some _ _ _ G4) as Hl1. fold n in Hl1.
      rewrite decide_True.
      * rewrite decide_False; [done |]. intros E. rewrite E, Hp in G4. injection G4 as <-.
        rewrite Hreal in G5. congruence.
      * assert (Z.to_nat (index_ ch1) <> pred n); [| lia]. intros E. rewrite E, Hbl in G4.
        injection G4 as <-. rewrite G5 in Hcl. congruence.
Qed.
End pollpoller.

(** ** Properties *)

Section pollpoller_properties.
Context {CB : Type}.
Implicit Types s : chan_store CB.

(** The entry of a descriptor. *)
Definition entry_of (p : PollPoller) s (z : Z) : option pollfd :=
  c ← pp_owner p z; ch ← s !! c; pollfds_ p !! Z.to_nat (index_ ch).

Lemma entry_of_owner p s c ch :
  pp_inv p s -> s !! c = Some ch -> channels_ p !! fd_ ch = Some c ->
  entry_of p s (fd_ ch) = pollfds_ p !! Z.to_nat (index_ ch).
Proof. intros _ Hc Ho. unfold entry_of, pp_owner. rewrite Ho. cbn. by rewrite Hc. Qed.

Lemma entry_in_array p s z q :
  pp_inv p s -> entry_of p s z = Some q -> q ∈ pollfds_ p /\ real_fd (fd q) = z.
Proof.
  intros Hinv He. unfold entry_of, pp_owner in He.
  destruct (channels_ p !! z) as [c|] eqn:Ec; [| done]. cbn in He.
  destruct (pi_chan _ _ Hinv _ _ Ec) as (ch & q' & Hs & _ & _ & Hq & Hr). rewrite Hs in He. cbn in He.
  rewrite Hq in He. injection He as <-. split; [by eapply list_elem_of_lookup_2 | done].
Qed.

Lemma array_in_entry p s q :
  pp_inv p s -> q ∈ pollfds_ p -> entry_of p s (real_fd (fd q)) = Some q.
Proof.
  intros Hinv Hq. apply list_elem_of_lookup in Hq as [i Hi].
  destruct (pi_entry _ _ Hinv _ _ Hi) as (c & ch & Hc & Hs & Hf & Hx).
  unfold entry_of, pp_owner. rewrite Hc. cbn. rewrite Hs. cbn. by rewrite Hx, Nat2Z.id.
Qed.

Lemma parked_not_armed p s z q :
  pp_inv p s -> entry_of p s z = Some q -> fd q < 0 -> pp_armed p z = 0.
Proof.
  intros Hinv He Hq. unfold pp_armed. destruct (list_find _ _) as [[i r]|] eqn:Ef; [| done].
  apply list_find_Some in Ef as (Hi & Hr & _). destruct (Z.leb_spec 0 z); [| done].
  exfalso. assert (real_fd (fd r) = z) as Hz by (rewrite Hr; by apply real_fd_id).
  pose proof (array_in_entry _ _ r Hinv (list_elem_of_lookup_2 _ _ _ Hi)) as Hr'.
  rewrite Hz, He in Hr'. injection Hr' as <-. lia.
Qed.

(** Removing a channel in constant time, by swapping the last entry into its
    place, keeps the array and every channel's [index_] consistent: the
    channel's descriptor has no entry any more, and every other descriptor
    keeps the very entry it had, wherever it now is. *)
Theorem removeChannel_keeps_entries p s c ch pfd :
  pp_inv p s -> s !! c = Some ch -> channels_ p !! fd_ ch = Some c ->
  entry_of p s (fd_ ch) = Some pfd ->
  isNoneEvent ch = true -> fd pfd = - fd_ ch - 1 -> events pfd = 0 ->
  exists p' s', pp_removeChannel true p s c = Ok (p', s') /\ pp_inv p' s'
    /\ channels_ p' = delete (fd_ ch) (channels_ p)
    /\ entry_of p' s' (fd_ ch) = None
    /\ (forall z, z <> fd_ ch -> entry_of p' s' z = entry_of p s z).
Proof.
  intros Hinv Hc Ho Hp Hn Hpark Hev. rewrite (entry_of_owner _ _ c) in Hp by done.
  pose proof (pp_remove_inv p s c ch pfd Hinv Hc Ho Hp) as Hinv'.
  eexists _, _. split; [by apply (pp_remove_runs p s c ch pfd) |]. split_and!; [done | done | |].
  - unfold entry_of, pp_owner. cbn [channels_]. by rewrite lookup_delete_eq.
  - intros z Hz. pose proof (lookup_lt_Some _ _ _ Hp) as Hlt.
    destruct (entry_of p s z) as [q|] eqn:Eq.
    + destruct (entry_in_array _ _ _ _ Hinv Eq) as [Hin <-].
      apply (array_in_entry _ _ q Hinv'). cbn [pollfds_].
      apply list_elem_of_lookup in Hin as [j Hj].
      assert (j <> Z.to_nat (index_ ch)).
      { intros ->. rewrite Hp in Hj. injection Hj as <-. rewrite Hpark in Hz. apply Hz.
        apply real_fd_park. destruct (pi_chan _ _ Hinv _ _ Ho) as (? & r & _ & _ & _ & _ & Hr).
        rewrite <- Hr. apply real_fd_nonneg. }
      pose proof (lookup_lt_Some _ _ _ Hj) as Hjl.
      destruct (decide (j < length (pollfds_ p) - 1)%nat) as [Hl | Hl].
      * apply (list_elem_of_lookup_2 _ j). rewrite lookup_without by done.
        by rewrite decide_True, decide_False.
      * apply (list_elem_of_lookup_2 _ (Z.to_nat (index_ ch))). rewrite lookup_without by done.
        rewrite decide_True, decide_True by lia. rewrite last_lookup.
        by replace (pred _) with j by lia.
    + destruct (entry_of _ _ z) as [q|] eqn:Eq' in |- *; [| done].
      destruct (entry_in_array _ _ _ _ Hinv' Eq') as [Hin <-]. cbn [pollfds_] in Hin.
      apply list_elem_of_lookup in Hin as [j Hj]. rewrite lookup_without in Hj by done.
      destruct (decide (j < _)%nat); [| done]. assert (q ∈ pollfds_ p) as Hq.
      { destruct (decide (j = _)); [| by eapply list_elem_of_lookup_2].
        rewrite last_lookup in Hj. by eapply list_elem_of_lookup_2. }
      rewrite (array_in_entry _ _ q Hinv Hq) in Eq. done.
Qed.

(** A channel that disabled everything and enabled something again is never
    watched again: [updateChannel] parks the entry by negating its descriptor,
    and no branch ever sets [pfd.fd] back, so poll(2) keeps ignoring it,
    whatever events are asked for. *)
Theorem reenabled_channel_not_polled p s c ch pfd e :
  pp_inv p s -> s !! c = Some ch -> channels_ p !! fd_ ch = Some c ->
  entry_of p s (fd_ ch) = Some pfd -> fd pfd = - fd_ ch - 1 ->
  exists p' s', pp_updateChannel true p (<[c := with_events ch e]> s) c = Ok (p', s')
    /\ pp_armed p' (fd_ ch) = 0
    /\ entry_of p' s' (fd_ ch) = Some {| fd := - fd_ ch - 1; events := s16 e; revents := 0 |}.
Proof.
  intros Hinv Hc Ho Hp Hpark. rewrite (entry_of_owner _ _ c) in Hp by done.
  assert (0 <= fd_ ch).
  { destruct (pi_chan _ _ Hinv _ _ Ho) as (? & r & _ & _ & _ & _ & Hr).
    rewrite <- Hr. apply real_fd_nonneg. }
  set (ch1 := with_events ch e). set (s1 := <[c := ch1]> s).
  assert (Hinv1 : pp_inv p s1).
  { destruct Hinv as [Hz He Hch]. split; [done | |].
    - intros i q Hq. destruct (He _ _ Hq) as (c' & ch' & G1 & G2 & G3 & G4). unfold s1.
      destruct (decide (c = c')) as [<- |].
      + exists c, ch1. rewrite lookup_insert_eq. rewrite Hc in G2. by injection G2 as <-.
      + exists c', ch'. by rewrite lookup_insert_ne.
    - intros z c' Hq. destruct (Hch _ _ Hq) as (ch' & q & G1 & G2). unfold s1.
      destruct (decide (c = c')) as [<- |].
      + exists ch1, q. rewrite lookup_insert_eq. rewrite Hc in G1. by injection G1 as <-.
      + exists ch', q. by rewrite lookup_insert_ne. }
  destruct (pp_update_old p s1 c ch1 pfd Hinv1) as [Hr Hinv'];
    [apply lookup_insert_eq | done | done |].
  assert (Hentry : updated_entry ch1 pfd = {| fd := - fd_ ch - 1; events := s16 e; revents := 0 |}).
  { unfold updated_entry. rewrite Hpark. by destruct (isNoneEvent ch1). }
  rewrite Hentry in *. eexists _, _. split; [exact Hr |].
  assert (He' : entry_of {| pollfds_ := <[Z.to_nat (index_ ch1) :=
      {| fd := - fd_ ch - 1; events := s16 e; revents := 0 |}]> (pollfds_ p); channels_ := channels_ p |}
      s1 (fd_ ch) = Some {| fd := - fd_ ch - 1; events := s16 e; revents := 0 |}).
  { rewrite (entry_of_owner _ _ c ch1) by (try done; apply lookup_insert_eq).
    cbn [pollfds_]. apply list_lookup_insert_eq. by eapply lookup_lt_Some. }
  split; [| exact He']. eapply parked_not_armed; [exact Hinv' | exact He' | cbn; lia].
Qed.
End pollpoller_properties.

(** Three channels, the first of them parked. *)
Definition demo_pp : PollPoller :=
  {| pollfds_ := [{| fd := -5; events := 0; revents := 0 |};
                  {| fd := 5; events := 3; revents := 0 |};
                  {| fd := 6; events := 4; revents := 0 |}];
     channels_ := <[4 := 10]> (<[5 := 11]> (<[6 := 12]> ∅)) |}.
Definition demo_pp_channel (z e i : Z) : Channel nat := set_index (with_events (Channel_new 0 z) e) i.
Definition demo_pp_store : chan_store nat :=
  <[10 := demo_pp_channel 4 0 0]> (<[11 := demo_pp_channel 5 3 1]> (<[12 := demo_pp_channel 6 4 2]> ∅)).

Lemma demo_pp_inv : pp_inv demo_pp demo_pp_store.
Proof.
  split.
  - done.
  - intros [| [| [| i]]] pfd Hi; cbn in Hi; simplify_eq.
    + by exists 10, (demo_pp_channel 4 0 0).
    + by exists 11, (demo_pp_channel 5 3 1).
    + by exists 12, (demo_pp_channel 6 4 2).
  - intros z c. cbn. rewrite !lookup_insert_Some, lookup_empty.
    intros [[<- <-] | [_ [[<- <-] | [_ [[<- <-] | [_ ?]]]]]]; [| | | done];
      eexists _, _; split; reflexivity || (repeat split; try reflexivity; cbn; lia).
Qed.

Lemma removeChannel_keeps_entries_witness :
  exists p' s', pp_removeChannel true demo_pp demo_pp_store 10 = Ok (p', s') /\ pp_inv p' s'
    /\ entry_of p' s' 6 = Some {| fd := 6; events := 4; revents := 0 |}.
Proof.
  destruct (removeChannel_keeps_entries demo_pp demo_pp_store 10 (demo_pp_channel 4 0 0)
    {| fd := -5; events := 0; revents := 0 |} demo_pp_inv eq_refl eq_refl eq_refl eq_refl eq_refl eq_refl)
    as (p' & s' & Hr & Hi & _ & _ & He).
  exists p', s'. split; [exact Hr |]. split; [exact Hi |]. rewrite He by done. reflexivity.
Defined.

Lemma reenabled_channel_not_polled_witness :
  exists p' s', pp_updateChannel true demo_pp
      (<[10 := with_events (demo_pp_channel 4 0 0) kReadEvent]> demo_pp_store) 10 = Ok (p', s')
    /\ pp_armed p' 4 = 0.
Proof.
  destruct (reenabled_channel_not_polled demo_pp demo_pp_store 10 (demo_pp_channel 4 0 0)
    {| fd := -5; events := 0; revents := 0 |} kReadEvent demo_pp_inv eq_refl eq_refl eq_refl eq_refl)
    as (p' & s' & Hr & Ha & _).
  exists p', s'. split; [exact Hr | exact Ha].
Defined.
