(* ===== verification/EventLoop.v ===== *)
(** * EventLoop: one thread's reactor

    [muduo/net/EventLoop.h], [EventLoop.cc], with [Channel::update] and
    [Channel::remove] that go through it.  The state of a loop is a record with
    the channels it owns and its poller; the code that runs in the loop (user
    functors, channel callbacks) is a parameter acting on the loop and on the
    rest of the program's state.  The first part is the sequential code; the
    second one the interleavings of the loop thread with other threads that
    call [queueInLoop] and [quit]. *)
From S2P Require Import Prelude Channel Poller.

(** The eventfd of the loop: what a write, a read and readiness mean is the
    kernel's; a write makes it readable (eventfd(2)). *)
Class EventFd (E : Type) := {
  efd_write : E -> Z * E;
  efd_read : E -> Z * E;
  efd_readable : E -> bool
}.
Class EventFdLaws (E : Type) `{EventFd E} := {
  efd_write_readable e : efd_readable (efd_write e).2 = true
}.

(** Callbacks of the channels of a loop: its own wakeup channel's, and those
    of the loop's clients. *)
Inductive loop_cb (U : Type) : Type := CbWakeup | CbUser (u : U).
Arguments CbWakeup {U}.
Arguments CbUser {U} u.

Section eventloop.
Context {U F P E : Type} `{EventFd E} `{PollerOps (loop_cb U) P}.
Local Abbreviation CB := (loop_cb U).

(*@ muduo/muduo/net/EventLoop.h 139-184 EventLoop *)
Record EventLoop : Type := mkLoop {
  looping_ : bool;
  quit_ : bool;
  eventHandling_ : bool;
  callingPendingFunctors_ : bool;
  iteration_ : Z;
  threadId_ : Z;
  pollReturnTime_ : Z;
  poller_ : P;
  chans : chan_store CB;
  wakeupFd_ : E;
  wakeupChannel_ : chan_id;
  activeChannels_ : list chan_id;
  currentActiveChannel_ : option chan_id;
  pendingFunctors_ : list F
}.

Definition with_looping (x : bool) (r : EventLoop) : EventLoop :=
  mkLoop x (quit_ r) (eventHandling_ r) (callingPendingFunctors_ r) (iteration_ r) (threadId_ r)
    (pollReturnTime_ r) (poller_ r) (chans r) (wakeupFd_ r) (wakeupChannel_ r) (activeChannels_ r)
    (currentActiveChannel_ r) (pendingFunctors_ r).
Definition with_quit (x : bool) (r : EventLoop) : EventLoop :=
  mkLoop (looping_ r) x (eventHandling_ r) (callingPendingFunctors_ r) (iteration_ r) (threadId_ r)
    (pollReturnTime_ r) (poller_ r) (chans r) (wakeupFd_ r) (wakeupChannel_ r) (activeChannels_ r)
    (currentActiveChannel_ r) (pendingFunctors_ r).
Definition with_handling (x : bool) (r : EventLoop) : EventLoop :=
  mkLoop (looping_ r) (quit_ r) x (callingPendingFunctors_ r) (iteration_ r) (threadId_ r)
    (pollReturnTime_ r) (poller_ r) (chans r) (wakeupFd_ r) (wakeupChannel_ r) (activeChannels_ r)
    (currentActiveChannel_ r) (pendingFunctors_ r).
Definition with_calling (x : bool) (r : EventLoop) : EventLoop :=
  mkLoop (looping_ r) (quit_ r) (eventHandling_ r) x (iteration_ r) (threadId_ r) (pollReturnTime_
    r) (poller_ r) (chans r) (wakeupFd_ r) (wakeupChannel_ r) (activeChannels_ r)
    (currentActiveChannel_ r) (pendingFunctors_ r).
Definition with_iteration (x : Z) (r : EventLoop) : EventLoop :=
  mkLoop (looping_ r) (quit_ r) (eventHandling_ r) (callingPendingFunctors_ r) x (threadId_ r)
    (pollReturnTime_ r) (poller_ r) (chans r) (wakeupFd_ r) (wakeupChannel_ r) (activeChannels_ r)
    (currentActiveChannel_ r) (pendingFunctors_ r).
Definition with_time (x : Z) (r : EventLoop) : EventLoop :=
  mkLoop (looping_ r) (quit_ r) (eventHandling_ r) (callingPendingFunctors_ r) (iteration_ r)
    (threadId_ r) x (poller_ r) (chans r) (wakeupFd_ r) (wakeupChannel_ r) (activeChannels_ r)
    (currentActiveChannel_ r) (pendingFunctors_ r).
Definition with_poller (x : P) (r : EventLoop) : EventLoop :=
  mkLoop (looping_ r) (quit_ r) (eventHandling_ r) (callingPendingFunctors_ r) (iteration_ r)
    (threadId_ r) (pollReturnTime_ r) x (chans r) (wakeupFd_ r) (wakeupChannel_ r) (activeChannels_
    r) (currentActiveChannel_ r) (pendingFunctors_ r).
Definition with_chans (x : chan_store CB) (r : EventLoop) : EventLoop :=
  mkLoop (looping_ r) (quit_ r) (eventHandling_ r) (callingPendingFunctors_ r) (iteration_ r)
    (threadId_ r) (pollReturnTime_ r) (poller_ r) x (wakeupFd_ r) (wakeupChannel_ r)
    (activeChannels_ r) (currentActiveChannel_ r) (pendingFunctors_ r).
Definition with_wakeupFd (x : E) (r : EventLoop) : EventLoop :=
  mkLoop (looping_ r) (quit_ r) (eventHandling_ r) (callingPendingFunctors_ r) (iteration_ r)
    (threadId_ r) (pollReturnTime_ r) (poller_ r) (chans r) x (wakeupChannel_ r) (activeChannels_ r)
    (currentActiveChannel_ r) (pendingFunctors_ r).
Definition with_active (x : list chan_id) (r : EventLoop) : EventLoop :=
  mkLoop (looping_ r) (quit_ r) (eventHandling_ r) (callingPendingFunctors_ r) (iteration_ r)
    (threadId_ r) (pollReturnTime_ r) (poller_ r) (chans r) (wakeupFd_ r) (wakeupChannel_ r) x
    (currentActiveChannel_ r) (pendingFunctors_ r).
Definition with_current (x : option chan_id) (r : EventLoop) : EventLoop :=
  mkLoop (looping_ r) (quit_ r) (eventHandling_ r) (callingPendingFunctors_ r) (iteration_ r)
    (threadId_ r) (pollReturnTime_ r) (poller_ r) (chans r) (wakeupFd_ r) (wakeupChannel_ r)
    (activeChannels_ r) x (pendingFunctors_ r).
Definition with_pending (x : list F) (r : EventLoop) : EventLoop :=
  mkLoop (looping_ r) (quit_ r) (eventHandling_ r) (callingPendingFunctors_ r) (iteration_ r)
    (threadId_ r) (pollReturnTime_ r) (poller_ r) (chans r) (wakeupFd_ r) (wakeupChannel_ r)
    (activeChannels_ r) (currentActiveChannel_ r) x.

(*@ muduo/muduo/net/EventLoop.h 119-119 EventLoop::isInLoopThread *)
Definition isInLoopThread (tid : Z) (lp : EventLoop) : bool := threadId_ lp =? tid.

(*@ muduo/muduo/net/EventLoop.h 110-116 EventLoop::assertInLoopThread *)
Definition assertInLoopThread (tid : Z) (lp : EventLoop) : res unit :=
  if isInLoopThread tid lp then Ok tt else Err FatalLog.

(** ** Channels of the loop

    A thread has at most one loop, so a channel names its owner loop by the
    loop's thread. *)

Definition load_chan (c : chan_id) (lp : EventLoop) : res (Channel CB) :=
  match chans lp !! c with Some ch => Ok ch | None => Err BadAccess end.
Definition put_chan (c : chan_id) (ch : Channel CB) (lp : EventLoop) : EventLoop :=
  with_chans (<[c := ch]> (chans lp)) lp.

(*@ muduo/muduo/net/EventLoop.cc 220-225 EventLoop::updateChannel *)
Definition loop_updateChannel (tid : Z) (c : chan_id) (lp : EventLoop) : res EventLoop :=
  ch ← load_chan c lp;
  assert_ (loop_ ch =? threadId_ lp);;
  assertInLoopThread tid lp;;
  '(p, s) ← updateChannel true (poller_ lp) (chans lp) c;
  mret (with_chans s (with_poller p lp)).

(*@ muduo/muduo/net/EventLoop.cc 228-238 EventLoop::removeChannel *)
Definition loop_removeChannel (tid : Z) (c : chan_id) (lp : EventLoop) : res EventLoop :=
  ch ← load_chan c lp;
  assert_ (loop_ ch =? threadId_ lp);;
  assertInLoopThread tid lp;;
  (if eventHandling_ lp
   then assert_ (bool_decide (currentActiveChannel_ lp = Some c)
                 || bool_decide (c ∉ activeChannels_ lp))
   else mret tt);;
  '(p, s) ← removeChannel true (poller_ lp) (chans lp) c;
  mret (with_chans s (with_poller p lp)).

(** [Channel::update] after a change of [events_]. *)
(*@ muduo/muduo/net/Channel.cc 49-52 Channel::update *)
Definition chan_update (ev : Z -> Z) (tid : Z) (c : chan_id) (lp : EventLoop) : res EventLoop :=
  ch ← load_chan c lp;
  loop_updateChannel tid c (put_chan c (with_events ch (ev (events_ ch))) lp).

(*@ muduo/muduo/net/Channel.h 81-81 Channel::enableReading *)
Definition enableReading := chan_update ev_enableReading.
(*@ muduo/muduo/net/Channel.h 86-86 Channel::enableWriting *)
Definition enableWriting := chan_update ev_enableWriting.
(*@ muduo/muduo/net/Channel.h 89-89 Channel::disableWriting *)
Definition disableWriting := chan_update ev_disableWriting.
(*@ muduo/muduo/net/Channel.h 92-92 Channel::disableAll *)
Definition disableAll := chan_update (fun _ => kNoneEvent).

(*@ muduo/muduo/net/Channel.cc 57-61 Channel::remove *)
Definition chan_remove (tid : Z) (c : chan_id) (lp : EventLoop) : res EventLoop :=
  ch ← load_chan c lp;
  assert_ (isNoneEvent ch);;
  loop_removeChannel tid c lp.

(*@ muduo/muduo/net/Channel.cc 36-39 Channel::~Channel *)
Definition chan_destroy (c : chan_id) (lp : EventLoop) : res EventLoop :=
  ch ← load_chan c lp;
  assert_ (negb (Channel.eventHandling_ ch));;
  mret (with_chans (delete c (chans lp)) lp).

(** ** Wakeup and functors *)

(*@ muduo/muduo/net/EventLoop.cc 250-258 EventLoop::wakeup *)
Definition wakeup (lp : EventLoop) : EventLoop := with_wakeupFd (efd_write (wakeupFd_ lp)).2 lp.

(*@ muduo/muduo/net/EventLoop.cc 261-269 EventLoop::handleRead *)
Definition handleRead (lp : EventLoop) : EventLoop := with_wakeupFd (efd_read (wakeupFd_ lp)).2 lp.

(** The critical section of [queueInLoop]. *)
Definition push_functor (f : F) (lp : EventLoop) : EventLoop :=
  with_pending (pendingFunctors_ lp ++ [f]) lp.

(*@ muduo/muduo/net/EventLoop.cc 177-189 EventLoop::queueInLoop *)
Definition queueInLoop (tid : Z) (f : F) (lp : EventLoop) : EventLoop :=
  let lp := push_functor f lp in
  if negb (isInLoopThread tid lp) || callingPendingFunctors_ lp then wakeup lp else lp.

(*@ muduo/muduo/net/EventLoop.cc 156-163 EventLoop::quit *)
Definition quit (tid : Z) (lp : EventLoop) : EventLoop :=
  let lp := with_quit true lp in
  if negb (isInLoopThread tid lp) then wakeup lp else lp.

(** The constructor: [already] is whether this thread has a loop, [evtfd] the
    result of [createEventfd], [c] the identity of the new wakeup channel. *)
(*@ muduo/muduo/net/EventLoop.cc 69-100 EventLoop::EventLoop *)
Definition EventLoop_new (tid : Z) (already : bool) (p : P) (evtfd : option (Z * E)) (c : chan_id)
  : res EventLoop :=
  match evtfd with
  | None => Err FatalLog
  | Some (fd, efd) =>
      if already then Err FatalLog
      else
        let ch := setCallbacks (Channel_new tid fd) (Some CbWakeup) None None None in
        enableReading tid c
          {| looping_ := false; quit_ := false; eventHandling_ := false;
             callingPendingFunctors_ := false; iteration_ := 0; threadId_ := tid;
             pollReturnTime_ := 0; poller_ := p; chans := <[c := ch]> ∅; wakeupFd_ := efd;
             wakeupChannel_ := c; activeChannels_ := []; currentActiveChannel_ := None;
             pendingFunctors_ := [] |}
  end.

(** ** The loop, in a world where other code runs *)

Section run.
Context {X : Type}.
Local Abbreviation W := (EventLoop * X)%type.
Variables (exec : F -> W -> res W) (call : U -> W -> res W) (call_read : U -> Z -> W -> res W).
Variable alive : Z -> W -> bool.

Definition on_loop (f : EventLoop -> EventLoop) (w : W) : W := (f w.1, w.2).

(*@ muduo/muduo/net/EventLoop.cc 165-175 EventLoop::runInLoop *)
Definition runInLoop (tid : Z) (f : F) (w : W) : res W :=
  if isInLoopThread tid w.1 then exec f w else mret (on_loop (queueInLoop tid f) w).

(** Run a batch of functors in order. *)
Fixpoint run_functors (fs : list F) (w : W) : res W :=
  match fs with
  | [] => mret w
  | f :: fs => w ← exec f w; run_functors fs w
  end.

Definition swap_functors (lp : EventLoop) : list F * EventLoop :=
  (pendingFunctors_ lp, with_pending [] lp).

(*@ muduo/muduo/net/EventLoop.cc 272-291 EventLoop::doPendingFunctors *)
Definition doPendingFunctors (w : W) : res W :=
  let w := on_loop (with_calling true) w in
  let '(functors, lp) := swap_functors w.1 in
  w ← run_functors functors (lp, w.2);
  mret (on_loop (with_calling false) w).

Definition call_cb (cb : CB) (w : W) : res W :=
  match cb with CbWakeup => mret (on_loop handleRead w) | CbUser u => call u w end.
Definition call_cb_read (cb : CB) (t : Z) (w : W) : res W :=
  match cb with CbWakeup => mret (on_loop handleRead w) | CbUser u => call_read u t w end.

Definition channel_handleEvent (c : chan_id) (t : Z) : W -> res W :=
  handleEvent (fun w => chans w.1 !! c) (fun ch => on_loop (put_chan c ch))
    call_cb call_cb_read alive t.

(** The [for] over [activeChannels_]. *)
Fixpoint handle_active (cs : list chan_id) (w : W) : res W :=
  match cs with
  | [] => mret w
  | c :: cs =>
      let w := on_loop (with_current (Some c)) w in
      w ← channel_handleEvent c (pollReturnTime_ w.1) w;
      handle_active cs w
  end.

(** One turn of the [while], given what the poll returned. *)
Definition loop_turn (now : Z) (r : poll_ret (CB := CB) (P := P)) (w : W) : res W :=
  let w := on_loop (with_active []) w in
  '(active, p, s) ← poll (poller_ w.1) (chans w.1) r;
  let w := on_loop (fun lp => with_time now (with_active active (with_chans s (with_poller p lp)))) w in
  let w := on_loop (fun lp => with_iteration (s64 (iteration_ lp + 1)) lp) w in
  let w := on_loop (with_handling true) w in
  w ← handle_active (activeChannels_ w.1) w;
  let w := on_loop (with_handling false) (on_loop (with_current None) w) in
  doPendingFunctors w.

(** The [while], as far as the given results of poll reach: the second
    component is [true] when the loop ended and [false] when it is waiting in
    poll for the next result. *)
Fixpoint loop_while (rs : list (Z * poll_ret (CB := CB) (P := P))) (w : W) : res (W * bool) :=
  if quit_ w.1 then mret (w, true)
  else match rs with
       | [] => mret (w, false)
       | (now, r) :: rs => w ← loop_turn now r w; loop_while rs w
       end.

(*@ muduo/muduo/net/EventLoop.cc 108-154 EventLoop::loop *)
Definition loop (tid : Z) (rs : list (Z * poll_ret (CB := CB) (P := P))) (w : W) : res (W * bool) :=
  assert_ (negb (looping_ w.1));;
  assertInLoopThread tid w.1;;
  let w := on_loop (fun lp => with_quit false (with_looping true lp)) w in
  '(w, ended) ← loop_while rs w;
  mret (if ended : bool then (on_loop (with_looping false) w, true) else (w, false)).
End run.

Lemma assertIn (lp : EventLoop) : assertInLoopThread (threadId_ lp) lp = Ok tt.
Proof using. unfold assertInLoopThread, isInLoopThread. by rewrite Z.eqb_refl. Qed.

(** Queueing changes only the loop's queue and eventfd. *)
Lemma queueInLoop_fields tid t (lp : EventLoop) :
  let l' := queueInLoop tid t lp in
  threadId_ l' = threadId_ lp /\ poller_ l' = poller_ lp /\ chans l' = chans lp
  /\ eventHandling_ l' = eventHandling_ lp
  /\ activeChannels_ l' = activeChannels_ lp /\ currentActiveChannel_ l' = currentActiveChannel_ lp
  /\ pendingFunctors_ l' = pendingFunctors_ lp ++ [t].
Proof using. unfold queueInLoop. cbn. by destruct (_ || _). Qed.

(** ** What the operations on channels do, for any poller that keeps its contract *)

Section channel_specs.
Context `{!PollerSpec CB P}.

Definition registered (c : chan_id) (ch : Channel CB) (lp : EventLoop) : Prop :=
  chans lp !! c = Some ch /\ loop_ ch = threadId_ lp /\ inv (poller_ lp) (chans lp).

(** The loop after a poller operation: only the poller and the channels'
    indexes differ. *)
Definition repolled (p : P) (s : chan_store CB) (lp : EventLoop) : EventLoop :=
  with_chans s (with_poller p lp).

Lemma chan_update_spec ev c ch lp :
  registered c ch lp ->
  owner (poller_ lp) (fd_ ch) = None \/ owner (poller_ lp) (fd_ ch) = Some c ->
  exists p s, chan_update ev (threadId_ lp) c lp = Ok (repolled p s lp)
    /\ inv p s
    /\ same_but_index (<[c := with_events ch (ev (events_ ch))]> (chans lp)) s
    /\ (forall fd, owner p fd = if decide (fd = fd_ ch) then Some c else owner (poller_ lp) fd)
    /\ (forall fd, armed p fd = if decide (fd = fd_ ch) then ev (events_ ch)
                                else armed (poller_ lp) fd).
Proof.
  intros (Hc & Hl & Hi) Ho. unfold chan_update, loop_updateChannel, load_chan. rewrite Hc. rsimp.
  cbn [chans put_chan with_chans threadId_]. rewrite lookup_insert_eq. rsimp.
  cbn [loop_ with_events]. rewrite Hl, Z.eqb_refl. cbn [assert_]. rsimp.
  unfold assertInLoopThread, isInLoopThread. cbn [threadId_]. rewrite Z.eqb_refl. rsimp.
  change (poller_ (put_chan _ _ _)) with (poller_ lp).
  destruct (update_spec (poller_ lp) (<[c := with_events ch (ev (events_ ch))]> (chans lp)) c
    (with_events ch (ev (events_ ch)))) as (p & s & -> & Hi' & Hs & Ho' & Ha').
  - by eapply inv_modify.
  - apply lookup_insert_eq.
  - exact Ho.
  - rsimp. exists p, s. split_and!; try done.
Qed.

Lemma chan_remove_spec c ch lp :
  registered c ch lp -> owner (poller_ lp) (fd_ ch) = Some c -> isNoneEvent ch = true ->
  (eventHandling_ lp = true -> currentActiveChannel_ lp = Some c \/ c ∉ activeChannels_ lp) ->
  exists p s, chan_remove (threadId_ lp) c lp = Ok (repolled p s lp)
    /\ inv p s /\ same_but_index (chans lp) s
    /\ (forall fd, owner p fd = if decide (fd = fd_ ch) then None else owner (poller_ lp) fd)
    /\ (forall fd, armed p fd = if decide (fd = fd_ ch) then 0 else armed (poller_ lp) fd).
Proof.
  intros (Hc & Hl & Hi) Ho Hn Hev. unfold chan_remove, loop_removeChannel, load_chan. rewrite Hc. rsimp.
  rewrite Hn, Hl, Z.eqb_refl. cbn [assert_]. rsimp.
  unfold assertInLoopThread, isInLoopThread. rewrite Z.eqb_refl. rsimp.
  assert ((if eventHandling_ lp
    then assert_ (bool_decide (currentActiveChannel_ lp = Some c) || bool_decide (c ∉ activeChannels_ lp))
    else mret tt) = Ok tt) as ->.
  { destruct (eventHandling_ lp); [| done]. apply assert_true, orb_true_iff.
    rewrite !bool_decide_eq_true. auto. }
  rsimp. destruct (remove_spec (poller_ lp) (chans lp) c ch) as (p & s & -> & Hi' & Hs & Ho' & Ha');
    [done.. |].
  rsimp. by exists p, s.
Qed.
End channel_specs.
End eventloop.
Arguments EventLoop : clear implicits.

(** ** Interleavings: the loop thread and other threads

    The steps are the atomic actions of the code: [quit_] and the eventfd are
    accessed without a lock, [pendingFunctors_] under [mutex_].  A thread other
    than the loop's that calls [queueInLoop] or [quit] first changes the
    shared variable and later writes the eventfd; [inflight] are the threads in
    between.  [queued] and [ran] are histories. *)

Section interleaving.
Context {U F P E : Type} `{EventFd E}.
Local Abbreviation Loop := (EventLoop U F P E).
Implicit Types l : Loop.

(** Where the loop thread is: at the [while] test, in poll, among the
    callbacks of the active channels, about to swap, running a batch of
    functors ([batch] is what is left of it), or out of [loop]. *)
Inductive lpc : Type :=
| AtWhile | AtPoll | AtEvents | AtSwap | AtCall (batch : list F) | AtEnd.

Record cstate : Type := mkC {
  lp : Loop; pc : lpc; inflight : gset Z; queued : list F; ran : list F
}.

Inductive cstep : cstate -> cstate -> Prop :=
| while_exit l fl q r :
    quit_ l = true -> cstep (mkC l AtWhile fl q r) (mkC (with_looping false l) AtEnd fl q r)
| while_go l fl q r :
    quit_ l = false -> cstep (mkC l AtWhile fl q r) (mkC l AtPoll fl q r)
| poll_return l now active p s fl q r :
    cstep (mkC l AtPoll fl q r)
      (mkC (with_handling true (with_time now (with_active active (with_chans s (with_poller p l)))))
         AtEvents fl q r)
| ev_wakeup_read l fl q r :
    cstep (mkC l AtEvents fl q r) (mkC (handleRead l) AtEvents fl q r)
| ev_queueInLoop l f fl q r :
    cstep (mkC l AtEvents fl q r) (mkC (queueInLoop (threadId_ l) f l) AtEvents fl (q ++ [f]) r)
| ev_quit l fl q r :
    cstep (mkC l AtEvents fl q r) (mkC (quit (threadId_ l) l) AtEvents fl q r)
| ev_done l fl q r :
    cstep (mkC l AtEvents fl q r)
      (mkC (with_calling true (with_handling false (with_current None l))) AtSwap fl q r)
| call_swap l fl q r :
    cstep (mkC l AtSwap fl q r) (mkC (swap_functors l).2 (AtCall (swap_functors l).1) fl q r)
| call_next l f b fl q r :
    cstep (mkC l (AtCall (f :: b)) fl q r) (mkC l (AtCall b) fl q (r ++ [f]))
| call_queueInLoop l b f fl q r :
    cstep (mkC l (AtCall b) fl q r) (mkC (queueInLoop (threadId_ l) f l) (AtCall b) fl (q ++ [f]) r)
| call_quit l b fl q r :
    cstep (mkC l (AtCall b) fl q r) (mkC (quit (threadId_ l) l) (AtCall b) fl q r)
| call_done l fl q r :
    cstep (mkC l (AtCall []) fl q r) (mkC (with_calling false l) AtWhile fl q r)
| other_push l pc t f fl q r :
    t <> threadId_ l -> t ∉ fl ->
    cstep (mkC l pc fl q r) (mkC (push_functor f l) pc ({[t]} ∪ fl) (q ++ [f]) r)
| other_quit l pc t fl q r :
    t <> threadId_ l -> t ∉ fl ->
    cstep (mkC l pc fl q r) (mkC (with_quit true l) pc ({[t]} ∪ fl) q r)
| other_wakeup l pc t fl q r :
    t ∈ fl -> cstep (mkC l pc fl q r) (mkC (wakeup l) pc (fl ∖ {[t]}) q r).

(** The foreign half-calls are the two halves of the code's functions. *)
Lemma other_queueInLoop l t f :
  t <> threadId_ l -> queueInLoop t f l = wakeup (push_functor f l).
Proof.
  intros Ht. unfold queueInLoop, isInLoopThread. cbn [threadId_ push_functor with_pending].
  by rewrite (proj2 (Z.eqb_neq _ _)).
Qed.
Lemma other_quit_split l t : t <> threadId_ l -> quit t l = wakeup (with_quit true l).
Proof.
  intros Ht. unfold quit, isInLoopThread. cbn [threadId_ with_quit].
  by rewrite (proj2 (Z.eqb_neq _ _)).
Qed.

(** The entry of [loop]: [quit_] was just reset. *)
Definition loop_entry (st : cstate) : Prop :=
  pc st = AtWhile /\ quit_ (lp st) = false /\ callingPendingFunctors_ (lp st) = false
  /\ ran st = [] /\ queued st = pendingFunctors_ (lp st).

Definition in_call (pc : lpc) : bool :=
  match pc with AtSwap | AtCall _ => true | _ => false end.
Definition batch_of (pc : lpc) : list F := match pc with AtCall b => b | _ => [] end.

(** Somebody has made, or is about to make, the eventfd readable. *)
Definition woken (st : cstate) : Prop :=
  efd_readable (wakeupFd_ (lp st)) = true \/ inflight st <> ∅.

Record cinv (st : cstate) : Prop := {
  ci_calling : callingPendingFunctors_ (lp st) = in_call (pc st);
  ci_fifo : queued st = ran st ++ batch_of (pc st) ++ pendingFunctors_ (lp st);
  ci_pending : match pc st with
               | AtWhile | AtPoll | AtCall _ => pendingFunctors_ (lp st) <> [] -> woken st
               | AtEvents | AtSwap | AtEnd => True
               end;
  ci_quit : match pc st with
            | AtPoll => quit_ (lp st) = true -> woken st
            | AtWhile | AtCall _ | AtEvents | AtSwap | AtEnd => True
            end
}.

Context `{!EventFdLaws E}.

Lemma woken_union l pc t fl q r : woken (mkC l pc ({[t]} ∪ fl) q r).
Proof. right. cbn. set_solver. Qed.
Lemma woken_wakeup l pc fl q r : woken (mkC (wakeup l) pc fl q r).
Proof. left. apply efd_write_readable. Qed.

(** In the loop's thread. *)
Lemma in_loop_queueInLoop l f :
  queueInLoop (threadId_ l) f l
  = if callingPendingFunctors_ l then wakeup (push_functor f l) else push_functor f l.
Proof.
  unfold queueInLoop, isInLoopThread. cbn [threadId_ push_functor with_pending callingPendingFunctors_].
  by rewrite Z.eqb_refl.
Qed.
Lemma in_loop_quit l : quit (threadId_ l) l = with_quit true l.
Proof.
  unfold quit, isInLoopThread. cbn [threadId_ with_quit]. by rewrite Z.eqb_refl.
Qed.

Lemma cinv_step st st' : cinv st -> cstep st st' -> cinv st'.
Proof.
  intros [Hc Hf Hp Hq] Hs. destruct Hs; cbn in *.
  - split; cbn; done.
  - split; cbn; try done. congruence.
  - split; cbn; done.
  - split; cbn; done.
  - rewrite in_loop_queueInLoop, Hc. split; cbn; try done. by rewrite Hf, <- !app_assoc.
  - rewrite in_loop_quit. split; cbn; done.
  - split; cbn; done.
  - split; cbn; try done. by rewrite Hf, app_nil_r.
  - split; cbn; try done. by rewrite Hf, <- app_assoc.
  - rewrite in_loop_queueInLoop, Hc. split; cbn; try done.
    + by rewrite Hf, <- !app_assoc.
    + intros _. apply woken_wakeup.
  - rewrite in_loop_quit. split; cbn; done.
  - split; cbn; done.
  - split; cbn; try done.
    + by rewrite Hf, <- !app_assoc.
    + case_match; try done; intros _; apply woken_union.
    + case_match; try done; intros _; apply woken_union.
  - split; cbn; try done; case_match; try done; intros _; apply woken_union.
  - split; cbn; try done; case_match; try done; intros _; apply woken_wakeup.
Qed.

Lemma cinv_reachable st st' : cinv st -> rtc cstep st st' -> cinv st'.
Proof. intros Hi Hr. induction Hr; eauto using cinv_step. Qed.

Lemma cinv_entry st :
  loop_entry st -> (pendingFunctors_ (lp st) <> [] -> woken st) -> cinv st.
Proof.
  intros (Hpc & Hq & Hc & Hr & Hqd) Hw. split; rewrite ?Hpc; cbn; try done.
  by rewrite Hr, Hqd.
Qed.

(** C7: No wakeup is lost: whenever the loop thread sits in poll while some functor
    is pending or somebody called [quit], the eventfd is readable, so the poll
    returns at once, or some thread has still to write it.  The hypothesis on
    the entry is needed: a functor queued by the loop's own thread before
    [loop] writes no eventfd. *)
Theorem no_lost_wakeup st0 st :
  loop_entry st0 -> (pendingFunctors_ (lp st0) <> [] -> woken st0) ->
  rtc cstep st0 st -> pc st = AtPoll ->
  pendingFunctors_ (lp st) <> [] \/ quit_ (lp st) = true ->
  efd_readable (wakeupFd_ (lp st)) = true \/ inflight st <> ∅.
Proof.
  intros He Hw Hr Hpc Hwork. destruct (cinv_reachable _ _ (cinv_entry _ He Hw) Hr) as [_ _ Hp Hq].
  rewrite Hpc in Hp, Hq. change (woken st). destruct Hwork; auto.
Qed.

(** C8: Functors run exactly once and in the order they were queued, whichever
    threads queue them and even when they queue others while they run: at any
    moment the history of what was queued is what has run, then the rest of
    the batch being run, then what waits for the next iteration. *)
Theorem functors_fifo_exactly_once st0 st :
  loop_entry st0 -> (pendingFunctors_ (lp st0) <> [] -> woken st0) ->
  rtc cstep st0 st ->
  queued st = ran st ++ batch_of (pc st) ++ pendingFunctors_ (lp st).
Proof. intros He Hw Hr. exact (ci_fifo _ (cinv_reachable _ _ (cinv_entry _ He Hw) Hr)). Qed.
End interleaving.

(** An eventfd that counts. *)
Record demo_counter : Type := mkCounter { counter : N }.
#[export] Instance demo_counter_fd : EventFd demo_counter :=
  {| efd_write := fun c => (8, mkCounter (N.succ (counter c)));
     efd_read := fun c => if N.eqb (counter c) 0 then (-1, c) else (8, mkCounter 0);
     efd_readable := fun c => negb (N.eqb (counter c) 0) |}.
#[export] Instance demo_counter_laws : EventFdLaws demo_counter.
Proof. split. intros [n]. cbn. apply negb_true_iff, N.eqb_neq. lia. Defined.

Definition demo_loop : EventLoop unit nat unit demo_counter :=
  {| looping_ := true; quit_ := false; eventHandling_ := false; callingPendingFunctors_ := false;
     iteration_ := 0; threadId_ := 1; pollReturnTime_ := 0; poller_ := tt; chans := ∅;
     wakeupFd_ := mkCounter 0; wakeupChannel_ := 7; activeChannels_ := [];
     currentActiveChannel_ := None; pendingFunctors_ := [] |}.
Definition demo_entry : cstate := mkC demo_loop AtWhile ∅ [] [].

(** The loop polls; thread 2 queues functor 5 and writes the eventfd. *)
Lemma demo_run :
  rtc cstep demo_entry
    (mkC (wakeup (push_functor 5%nat demo_loop)) AtPoll (({[2]} ∪ ∅) ∖ {[2]}) [5%nat] []).
Proof.
  eapply rtc_l; [by apply while_go |].
  eapply rtc_l; [apply (other_push _ _ 2); [done | set_solver] |].
  eapply rtc_l; [apply (other_wakeup _ _ 2); set_solver | apply rtc_refl].
Qed.

Lemma no_lost_wakeup_witness :
  let st := mkC (wakeup (push_functor 5%nat demo_loop)) AtPoll (({[2]} ∪ ∅) ∖ {[2]}) [5%nat] [] in
  efd_readable (wakeupFd_ (lp st)) = true \/ inflight st <> ∅.
Proof.
  apply (no_lost_wakeup demo_entry).
  - repeat split.
  - intros Hp. exfalso. apply Hp. reflexivity.
  - exact demo_run.
  - reflexivity.
  - left. discriminate.
Defined.

Lemma functors_fifo_exactly_once_witness :
  let st := mkC (wakeup (push_functor 5%nat demo_loop)) AtPoll (({[2]} ∪ ∅) ∖ {[2]}) [5%nat] [] in
  queued st = ran st ++ batch_of (pc st) ++ pendingFunctors_ (lp st).
Proof.
  apply (functors_fifo_exactly_once demo_entry).
  - repeat split.
  - intros Hp. exfalso. apply Hp. reflexivity.
  - exact demo_run.
Defined.
