(* ===== verification/Format.v ===== *)
(** * Format: decimal numbers as C prints them, and ordered maps of strings

    What the C and C++ standard libraries give the program and several
    components use: the conversions [%d], [%zd] and [%0Nd] of [printf],
    [snprintf]'s truncation, and [std::map<string, string>]. *)
From Stdlib Require Import Sorting.Sorted.
From S2P Require Import Prelude.

(** ** Decimal digits *)

Definition digit (d : Z) : byte := byte_of (48 + d).
Definition digit_val (b : byte) : Z := byte_val b - 48.

Fixpoint dec_digits (fuel : nat) (n : Z) : list byte :=
  match fuel with
  | O => []
  | S fuel => (if n <? 10 then [] else dec_digits fuel (n / 10)) ++ [digit (n mod 10)]
  end.

(** A non-negative number (of at most 40 digits). *)
Definition dec_u (n : Z) : list byte := dec_digits 40 n.
(** [%d], [%zd], [%lld]. *)
Definition dec (z : Z) : list byte := if z <? 0 then bs "-" ++ dec_u (- z) else dec_u z.
(** [%0Nd] of a number that is not negative. *)
Definition dec_pad (width : nat) (n : Z) : list byte :=
  let d := dec_u n in replicate (width - length d) (digit 0) ++ d.

(** [snprintf(buf, size, ...)]: at most [size - 1] characters are kept. *)
Definition snprintf (size : Z) (text : list byte) : list byte := ztake (size - 1) text.

(** The number a string of digits denotes. *)
Definition dec_val (l : list byte) : Z := fold_left (fun a b => 10 * a + digit_val b) l 0.

Definition is_digit (b : byte) : bool := (48 <=? byte_val b) && (byte_val b <=? 57).

Lemma digit_val_digit d : 0 <= d < 10 -> digit_val (digit d) = d.
Proof.
  intros. unfold digit_val, digit. rewrite byte_val_of, Z.mod_small; lia.
Qed.
Lemma is_digit_digit d : 0 <= d < 10 -> is_digit (digit d) = true.
Proof.
  intros. unfold is_digit, digit. rewrite byte_val_of, Z.mod_small by lia.
  apply andb_true_intro. rewrite !Z.leb_le. lia.
Qed.

Lemma dec_val_snoc l b : dec_val (l ++ [b]) = 10 * dec_val l + digit_val b.
Proof. unfold dec_val. by rewrite fold_left_app. Qed.

Lemma dec_digits_val fuel : forall n,
  0 <= n < 10 ^ Z.of_nat fuel -> dec_val (dec_digits fuel n) = n.
Proof.
  induction fuel as [| fuel IH]; intros n Hn.
  - cbn in Hn. assert (n = 0) as -> by lia. done.
  - cbn [dec_digits]. rewrite dec_val_snoc, digit_val_digit by (apply Z.mod_pos_bound; lia).
    rewrite Nat2Z.inj_succ, Z.pow_succ_r in Hn by lia.
    destruct (Z.ltb_spec n 10).
    + cbn. rewrite Z.mod_small; lia.
    + rewrite IH; [rewrite (Z.div_mod n 10) at 3; lia |].
      split; [apply Z.div_pos; lia | apply Z.div_lt_upper_bound; lia].
Qed.

Lemma dec_u_val n : 0 <= n < 10 ^ 40 -> dec_val (dec_u n) = n.
Proof. apply (dec_digits_val 40). Qed.

Lemma dec_digits_digits fuel : forall n, 0 <= n -> Forall (fun b => is_digit b = true) (dec_digits fuel n).
Proof.
  induction fuel as [| fuel IH]; intros n Hn; cbn [dec_digits]; [constructor |].
  apply Forall_app. split.
  - destruct (n <? 10); [constructor |]. apply IH, Z.div_pos; lia.
  - constructor; [| constructor]. apply is_digit_digit, Z.mod_pos_bound. lia.
Qed.

Lemma dec_digits_len fuel : forall n k,
  0 <= n < 10 ^ Z.of_nat k -> (k <= fuel)%nat -> (0 < k)%nat -> (length (dec_digits fuel n) <= k)%nat.
Proof.
  induction fuel as [| fuel IH]; intros n k Hn Hk H0; cbn [dec_digits]; [cbn; lia |].
  rewrite length_app. cbn [length]. destruct (Z.ltb_spec n 10); [cbn; lia |].
  destruct k as [| [| k]]; [lia | cbn in Hn; lia |].
  assert (length (dec_digits fuel (n / 10)) <= S k)%nat; [| lia].
  apply IH; [| lia | lia]. rewrite Nat2Z.inj_succ, Z.pow_succ_r in Hn by lia.
  split; [apply Z.div_pos; lia | apply Z.div_lt_upper_bound; lia].
Qed.

Lemma dec_u_len n k : 0 <= n < 10 ^ k -> 0 < k <= 40 -> zlen (dec_u n) <= k.
Proof.
  intros Hn Hk. unfold dec_u, zlen.
  pose proof (dec_digits_len 40 n (Z.to_nat k)) as H. rewrite Z2Nat.id in H by lia. lia.
Qed.

Lemma dec_val_bound l : Forall (fun b => is_digit b = true) l -> 0 <= dec_val l < 10 ^ zlen l.
Proof.
  induction l as [| b l IH] using rev_ind; intros H; [done |].
  apply Forall_app in H as [Hl Hb]. apply Forall_cons in Hb as [Hb _]. specialize (IH Hl).
  rewrite dec_val_snoc, zlen_snoc, Z.pow_add_r by (pose proof (zlen_nonneg l); lia).
  unfold is_digit in Hb. apply andb_prop in Hb as [?%Z.leb_le ?%Z.leb_le]. unfold digit_val. lia.
Qed.

Lemma dec_u_len_lower n k : 10 ^ k <= n < 10 ^ 40 -> 0 <= k -> k < zlen (dec_u n).
Proof.
  intros Hn Hk. assert (0 < 10 ^ k) by (apply Z.pow_pos_nonneg; lia).
  pose proof (dec_val_bound (dec_u n) (dec_digits_digits 40 n ltac:(lia))) as Hb.
  rewrite dec_u_val in Hb by lia. apply (Z.pow_lt_mono_r_iff 10); [lia | apply zlen_nonneg | lia].
Qed.

(** ** Reading numbers *)

(** [isspace] of the C locale. *)
Definition is_space (b : byte) : bool := (byte_val b =? 32) || ((9 <=? byte_val b) && (byte_val b <=? 13)).
Fixpoint digits_of (l : list byte) : list byte :=
  match l with b :: l => if is_digit b then b :: digits_of l else [] | [] => [] end.

(** White space, a sign, digits; [atoi] and [atoll] of a C string. *)
Fixpoint scan_int (l : list byte) : Z :=
  match l with
  | [] => 0
  | b :: l' =>
      if is_space b then scan_int l'
      else if byte_val b =? 45 then - dec_val (digits_of l')
      else if byte_val b =? 43 then dec_val (digits_of l')
      else dec_val (digits_of l)
  end.
Definition atoi (l : list byte) : Z := s32 (scan_int l).
Definition atoll (l : list byte) : Z := s64 (scan_int l).

Lemma digits_of_all l b r : Forall (fun b => is_digit b = true) l -> is_digit b = false ->
  digits_of (l ++ b :: r) = l.
Proof.
  intros Hl Hb. induction Hl as [| c l Hc Hl IH]; cbn [app digits_of]; [by rewrite Hb |].
  by rewrite Hc, IH.
Qed.
Lemma digit_plain b : is_digit b = true -> is_space b = false /\ byte_val b <> 45 /\ byte_val b <> 43.
Proof. unfold is_digit, is_space. intros H. apply andb_prop in H as [H1%Z.leb_le H2%Z.leb_le]. lia. Qed.

Lemma dec_u_not_nil n : dec_u n <> [].
Proof. unfold dec_u. cbn [dec_digits]. destruct (n <? 10); intros Heq; apply app_nil in Heq as [_ ?]; done. Qed.

Lemma scan_int_dec n b r : 0 <= n < 10 ^ 40 -> is_digit b = false -> scan_int (dec n ++ b :: r) = n.
Proof.
  intros Hn Hb. unfold dec. destruct (Z.ltb_spec n 0); [lia |].
  pose proof (dec_digits_digits 40 n ltac:(lia)) as Hd. fold (dec_u n) in Hd.
  pose proof (dec_u_val n Hn) as Hv. pose proof (dec_u_not_nil n) as Hne.
  destruct (dec_u n) as [| c l] eqn:E; [done |]. clear Hne. cbn [app scan_int].
  pose proof (Forall_inv Hd) as Hc. destruct (digit_plain c Hc) as (-> & H1 & H2).
  rewrite (proj2 (Z.eqb_neq _ _) H1), (proj2 (Z.eqb_neq _ _) H2).
  change (c :: l ++ b :: r) with ((c :: l) ++ b :: r). by rewrite digits_of_all.
Qed.

(** ** [std::map<string, string>] *)

(** [operator<] of [std::string]: lexicographic, bytes as [unsigned char]. *)
Fixpoint bytes_ltb (a b : list byte) : bool :=
  match a, b with
  | _, [] => false
  | [], _ :: _ => true
  | x :: a, y :: b =>
      if byte_val x <? byte_val y then true
      else if byte_val y <? byte_val x then false else bytes_ltb a b
  end.

(** [std::map<string, V>]: in order, iterated from front to back. *)
Definition bytemap (V : Type) : Type := list (list byte * V).
Abbreviation strmap := (bytemap (list byte)).

(** [m[k] = v]. *)
Fixpoint map_set {V} (k : list byte) (v : V) (m : bytemap V) : bytemap V :=
  match m with
  | [] => [(k, v)]
  | (k', v') :: m' =>
      if decide (k' = k) then (k, v) :: m'
      else if bytes_ltb k k' then (k, v) :: m
      else (k', v') :: map_set k v m'
  end.

Fixpoint map_find {V} (k : list byte) (m : bytemap V) : option V :=
  match m with
  | [] => None
  | (k', v') :: m' => if decide (k' = k) then Some v' else map_find k m'
  end.

Section bytemaps.
Context {V : Type}.
Implicit Types (k : list byte) (v : V) (m : bytemap V).

Lemma map_find_set_eq k v m : map_find k (map_set k v m) = Some v.
Proof using.
  induction m as [| [k' v'] m IH]; cbn; [by rewrite decide_True |].
  destruct (decide (k' = k)) as [-> |]; cbn; [by rewrite decide_True |].
  destruct (bytes_ltb k k'); cbn; [by rewrite decide_True |]. by rewrite decide_False.
Qed.

Lemma map_find_set_ne k k1 v m : k1 <> k -> map_find k1 (map_set k v m) = map_find k1 m.
Proof using.
  intros Hne. induction m as [| [k' v'] m IH]; cbn; [by rewrite decide_False |].
  destruct (decide (k' = k)) as [-> |]; cbn; [by rewrite !decide_False |].
  destruct (bytes_ltb k k'); cbn; [by rewrite (decide_False (P := k = k1)) |].
  by destruct (decide (k' = k1)).
Qed.

(** The order of the keys is a strict total order, and the maps are sorted by
    it. *)
Definition bytes_lt (a b : list byte) : Prop := bytes_ltb a b = true.

Lemma bytes_lt_cons x a y b :
  bytes_lt (x :: a) (y :: b) <-> byte_val x < byte_val y \/ (byte_val x = byte_val y /\ bytes_lt a b).
Proof using.
  unfold bytes_lt. cbn. destruct (Z.ltb_spec (byte_val x) (byte_val y)); [split; [by left | done] |].
  destruct (Z.ltb_spec (byte_val y) (byte_val x)); [split; [done | lia] |].
  split; [right; split; [lia | done] | by intros [? | [_ ?]]; [lia |]].
Qed.
Lemma bytes_lt_irrefl k : ~ bytes_lt k k.
Proof using. induction k as [| b k IH]; [done |]. rewrite bytes_lt_cons. intros [? | [_ ?]]; [lia | done]. Qed.

#[export] Instance bytes_lt_trans : Transitive bytes_lt.
Proof using.
  intros a. induction a as [| x a IH]; intros [| y b] [| z c]; try done.
  rewrite !bytes_lt_cons. intros [? | [? H1]] [? | [? H2]]; [lia.. |]. right. split; [lia | by apply (IH b c)].
Qed.

Lemma bytes_lt_total a : forall b, bytes_ltb a b = false -> a <> b -> bytes_lt b a.
Proof using.
  unfold bytes_lt. induction a as [| x a IH]; intros [| y b]; cbn; try done.
  destruct (Z.ltb_spec (byte_val x) (byte_val y)); [done |].
  destruct (Z.ltb_spec (byte_val y) (byte_val x)); [done |]. intros Hb Hne. apply (IH b Hb).
  intros <-. apply Hne. f_equal. apply byte_val_inj. lia.
Qed.

Definition map_sorted m : Prop := StronglySorted bytes_lt m.*1.

Lemma map_set_keys k v m x : x ∈ (map_set k v m).*1 <-> x = k \/ x ∈ m.*1.
Proof using.
  induction m as [| [k' v'] m IH]; cbn; [by rewrite list_elem_of_singleton; set_solver |].
  destruct (decide (k' = k)) as [-> |]; [set_solver |]. destruct (bytes_ltb k k'); [set_solver |].
  cbn. rewrite !elem_of_cons, IH. tauto.
Qed.
Lemma map_set_sorted k v m : map_sorted m -> map_sorted (map_set k v m).
Proof using.
  unfold map_sorted. induction m as [| [k' v'] m IH]; cbn; intros H; [by repeat constructor |].
  apply StronglySorted_inv in H as [H Hk]. rewrite Forall_forall in Hk.
  destruct (decide (k' = k)) as [-> | Hne]; [constructor; [done | by apply Forall_forall] |].
  destruct (bytes_ltb k k') eqn:E; cbn.
  - constructor; [constructor; [done | by apply Forall_forall] |]. constructor; [done |].
    apply Forall_forall. intros x Hx. by transitivity k'; [| apply Hk].
  - constructor; [by apply IH |]. apply Forall_forall. intros x [-> | Hx]%map_set_keys; [| by apply Hk].
    by apply bytes_lt_total.
Qed.

Lemma map_find_elem m k v : map_sorted m -> (k, v) ∈ m <-> map_find k m = Some v.
Proof using.
  unfold map_sorted. induction m as [| [k' v'] m IH]; cbn; intros H; [set_solver |].
  apply StronglySorted_inv in H as [H Hk]. rewrite Forall_forall in Hk. rewrite elem_of_cons.
  destruct (decide (k' = k)) as [-> | Hne].
  - split; [| by intros [= ->]; left]. intros [[= ->] | Hin]; [done |].
    exfalso. apply (bytes_lt_irrefl k), Hk. by apply (list_elem_of_fmap_2 fst _ (k, v)).
  - rewrite <- (IH H). split; [by intros [[= -> ->] | ?] | by right].
Qed.
End bytemaps.
