(* ===== verification/Timestamp.v ===== *)
(** * Timestamp: microseconds since the epoch, and intervals in seconds

    [muduo/base/Timestamp.h], [Timestamp.cc].  A [Timestamp] is its only field,
    an [int64_t]; a [double] is a binary64 of the Standard Library's
    specification of floating point arithmetic. *)
From S2P Require Import Prelude.
From Stdlib Require Import Floats.SpecFloat.

Abbreviation double := spec_float.

Definition dbl_mul : double -> double -> double := SFmul 53 1024.
Definition dbl_div : double -> double -> double := SFdiv 53 1024.
(** [static_cast<double>] of an integer: round to nearest, ties to even. *)
Definition dbl_of_Z (z : Z) : double := binary_normalize 53 1024 z 0 false.
Definition dbl_lt (a b : double) : bool := SFltb a b.

(** [static_cast<int64_t>] of a double: truncation.  Out of range the result
    is undefined in C++; this is the x86-64 conversion's. *)
Definition dbl_to_s64 (d : double) : Z :=
  let in_range z := if (- 2 ^ 63 <=? z) && (z <? 2 ^ 63) then z else - 2 ^ 63 in
  match d with
  | S754_zero _ => 0
  | S754_infinity _ | S754_nan => - 2 ^ 63
  | S754_finite s m e =>
      let a := if 0 <=? e then Zpos m * 2 ^ e else Zpos m / 2 ^ (- e) in
      in_range (if s then - a else a)
  end.

(*@ muduo/muduo/base/Timestamp.h 65-65 Timestamp::kMicroSecondsPerSecond *)
Definition kMicroSecondsPerSecond : Z := 1000 * 1000.

(*@ muduo/muduo/base/Timestamp.h 51-51 Timestamp::valid *)
Definition valid (t : Z) : bool := 0 <? t.

(*@ muduo/muduo/base/Timestamp.cc 88-91 Timestamp::invalid *)
Definition invalid : Z := 0.

(*@ muduo/muduo/base/Timestamp.h 55-56 Timestamp::secondsSinceEpoch *)
Definition secondsSinceEpoch (t : Z) : Z := Z.quot t kMicroSecondsPerSecond.

(** [now], given what [gettimeofday] stored. *)
(*@ muduo/muduo/base/Timestamp.cc 66-84 Timestamp::now *)
Definition now_of (tv_sec tv_usec : Z) : Z := s64 (tv_sec * kMicroSecondsPerSecond + tv_usec).

(*@ muduo/muduo/base/Timestamp.h 93-97 timeDifference *)
Definition timeDifference (high low : Z) : double :=
  dbl_div (dbl_of_Z (s64 (high - low))) (dbl_of_Z kMicroSecondsPerSecond).

(*@ muduo/muduo/base/Timestamp.h 105-109 addTime *)
Definition addTime (timestamp : Z) (seconds : double) : Z :=
  let delta := dbl_to_s64 (dbl_mul seconds (dbl_of_Z kMicroSecondsPerSecond)) in
  s64 (timestamp + delta).

(** ** Examples of the conversions *)

(** 1.5 s, and 0.1 s, whose nearest double is a little more than 0.1. *)
Definition dbl_1_5 : double := dbl_div (dbl_of_Z 3) (dbl_of_Z 2).
Definition dbl_0_1 : double := dbl_div (dbl_of_Z 1) (dbl_of_Z 10).

Example addTime_1_5 : addTime 1000 dbl_1_5 = 1501000.
Proof. vm_compute. reflexivity. Qed.
Example addTime_0_1 : addTime 0 dbl_0_1 = 100000.
Proof. vm_compute. reflexivity. Qed.
Example timeDifference_1_5 : timeDifference 1501000 1000 = dbl_1_5.
Proof. vm_compute. reflexivity. Qed.
(** The product truncates: 0.001001 s, not a double, gives 1000 us. *)
Example addTime_truncates : addTime 0 (dbl_div (dbl_of_Z 1001) (dbl_of_Z 1000000)) = 1000.
Proof. vm_compute. reflexivity. Qed.
