(* ===== verification/TimeText.v ===== *)
(** * TimeText: times as text

    [Timestamp::toString] and [toFormattedString] of [base/Timestamp.cc], and the
    printf conversions they and the logger share.  [gmtime_r] is a parameter. *)
From S2P Require Import Prelude Format Timestamp.

(** ** printf *)

(** [%Nd]. *)
Definition dec_space (width : nat) (n : Z) : list byte :=
  let d := dec n in replicate (width - length d) SP ++ d.
(** [%0Nd] of a number that may be negative. *)
Definition dec_zeros (width : nat) (n : Z) : list byte :=
  if n <? 0 then bs "-" ++ dec_pad (width - 1) (- n) else dec_pad width n.

(** The calendar fields of a time, as [gmtime_r] gives them but with the year
    and the month counted from 0 and 1. *)
Record calendar : Type := mkCalendar {
  year : Z; month : Z; mday : Z; hour : Z; minute : Z; second : Z
}.

(** [%4d%02d%02d %02d:%02d:%02d]. *)
Definition calendar_text (c : calendar) : list byte :=
  dec_space 4 (year c) ++ dec_pad 2 (month c) ++ dec_pad 2 (mday c) ++ bs " "
  ++ dec_pad 2 (hour c) ++ bs ":" ++ dec_pad 2 (minute c) ++ bs ":" ++ dec_pad 2 (second c).

(** ** [Timestamp] *)

(*@ muduo/muduo/base/Timestamp.cc 25-38 Timestamp::toString *)
Definition toString (t : Z) : list byte :=
  let seconds := Z.quot t kMicroSecondsPerSecond in
  let microseconds := Z.rem t kMicroSecondsPerSecond in
  snprintf (32 - 1) (dec seconds ++ bs "." ++ dec_zeros 6 microseconds).

(*@ muduo/muduo/base/Timestamp.cc 41-62 Timestamp::toFormattedString *)
Definition toFormattedString (gmtime : Z -> calendar) (t : Z) : list byte :=
  let seconds := Z.quot t kMicroSecondsPerSecond in
  let microseconds := s32 (Z.rem t kMicroSecondsPerSecond) in
  let tm_time := gmtime seconds in
  snprintf 32 (calendar_text tm_time ++ bs "." ++ dec_zeros 6 microseconds).

(** ** Lengths *)

Lemma dec_u_nonempty n : (1 <= length (dec_u n))%nat.
Proof. unfold dec_u. cbn [dec_digits]. rewrite length_app. cbn [length]. lia. Qed.

Lemma zlen_dec_pad k n : 0 <= n < 10 ^ Z.of_nat k -> 0 < Z.of_nat k <= 40 -> zlen (dec_pad k n) = Z.of_nat k.
Proof.
  intros Hn Hk. pose proof (dec_u_len n (Z.of_nat k) Hn Hk) as H. unfold dec_pad, zlen in *.
  rewrite length_app, length_replicate. lia.
Qed.
Lemma dec_nonneg n : 0 <= n -> dec n = dec_u n.
Proof. intros. unfold dec. by rewrite (proj2 (Z.ltb_ge _ _)). Qed.
Lemma zlen_dec_space k n : 0 <= n < 10 ^ Z.of_nat k -> 0 < Z.of_nat k <= 40 -> zlen (dec_space k n) = Z.of_nat k.
Proof.
  intros Hn Hk. pose proof (dec_u_len n (Z.of_nat k) Hn Hk) as H. unfold dec_space, zlen in *.
  rewrite dec_nonneg, length_app, length_replicate by lia. lia.
Qed.

(** The fields that the text has room for. *)
Definition calendar_ok (c : calendar) : Prop :=
  0 <= year c < 10000 /\ 0 <= month c < 100 /\ 0 <= mday c < 100
  /\ 0 <= hour c < 100 /\ 0 <= minute c < 100 /\ 0 <= second c < 100.

Lemma calendar_text_len c : calendar_ok c -> zlen (calendar_text c) = 17.
Proof.
  intros (? & ? & ? & ? & ? & ?). unfold calendar_text. rewrite !zlen_app.
  rewrite zlen_dec_space, !zlen_dec_pad by lia. done.
Qed.

(** ** The text of a time *)

Lemma micros_range t : 0 <= t -> 0 <= Z.rem t kMicroSecondsPerSecond < 10 ^ Z.of_nat 6.
Proof.
  intros. unfold kMicroSecondsPerSecond. rewrite Z.rem_mod_nonneg by lia.
  pose proof (Z.mod_pos_bound t (1000 * 1000)). lia.
Qed.

Lemma dec_val_app l k : dec_val (l ++ k) = dec_val l * 10 ^ zlen k + dec_val k.
Proof.
  induction k as [| b k IH] using rev_ind; [rewrite app_nil_r; unfold zlen; cbn; lia |].
  rewrite app_assoc, !dec_val_snoc, IH, zlen_snoc, Z.pow_add_r by (pose proof (zlen_nonneg k); lia). lia.
Qed.
Lemma dec_val_zeros n : dec_val (replicate n (digit 0)) = 0.
Proof. induction n as [| n IH]; [done |]. rewrite replicate_S_end, dec_val_snoc, IH. done. Qed.
Lemma dec_pad_val k n : 0 <= n < 10 ^ 40 -> dec_val (dec_pad k n) = n.
Proof. intros. unfold dec_pad. rewrite dec_val_app, dec_val_zeros, dec_u_val by done. lia. Qed.

(** What [toString] prints is not cut off, and is the number of microseconds
    with a point six digits from the right. *)
Lemma toString_text t :
  0 <= t < 2 ^ 63 ->
  exists s u, toString t = s ++ bs "." ++ u /\ zlen u = 6 /\ dec_val (s ++ u) = t /\ zlen (toString t) <= 21.
Proof.
  intros Ht. pose proof (micros_range t ltac:(lia)) as Hu.
  assert (Hs : 0 <= Z.quot t kMicroSecondsPerSecond < 10 ^ 14).
  { unfold kMicroSecondsPerSecond. rewrite Z.quot_div_nonneg by lia.
    split; [apply Z.div_pos; lia | apply Z.div_lt_upper_bound; lia]. }
  exists (dec (Z.quot t kMicroSecondsPerSecond)), (dec_pad 6 (Z.rem t kMicroSecondsPerSecond)).
  pose proof (dec_u_len _ 14 Hs ltac:(lia)) as Hl.
  assert (Htext : toString t = dec (Z.quot t kMicroSecondsPerSecond) ++ bs "." ++ dec_pad 6 (Z.rem t kMicroSecondsPerSecond)).
  { unfold toString, snprintf, dec_zeros. rewrite (proj2 (Z.ltb_ge _ 0)) by lia. apply ztake_all.
    rewrite dec_nonneg, !zlen_app, zlen_dec_pad by lia. change (zlen (bs ".")) with 1. lia. }
  rewrite Htext, dec_nonneg by lia. split_and!; [done | by apply zlen_dec_pad | |].
  - rewrite dec_val_app, dec_pad_val, dec_u_val, zlen_dec_pad by lia. change (10 ^ Z.of_nat 6) with kMicroSecondsPerSecond.
    pose proof (Z.quot_rem' t kMicroSecondsPerSecond). lia.
  - rewrite !zlen_app, zlen_dec_pad by lia. change (zlen (bs ".")) with 1. lia.
Qed.

(** Different times have different texts. *)
Lemma toString_inj t1 t2 : 0 <= t1 < 2 ^ 63 -> 0 <= t2 < 2 ^ 63 -> toString t1 = toString t2 -> t1 = t2.
Proof.
  intros H1 H2 Heq. destruct (toString_text t1 H1) as (s1 & u1 & E1 & L1 & <- & _).
  destruct (toString_text t2 H2) as (s2 & u2 & E2 & L2 & <- & _). rewrite E1, E2 in Heq.
  assert (Hlen : length (bs "." ++ u1) = length (bs "." ++ u2)).
  { rewrite !length_app. unfold zlen in *. lia. }
  apply app_inj_2 in Heq as [-> Heq]; [| done]. by injection Heq as ->.
Qed.

(** A time of the years 0 to 9999 is printed in 24 characters, whole. *)
Lemma toFormattedString_text gmtime t :
  0 <= t < 2 ^ 63 -> calendar_ok (gmtime (Z.quot t kMicroSecondsPerSecond)) ->
  toFormattedString gmtime t
  = calendar_text (gmtime (Z.quot t kMicroSecondsPerSecond)) ++ bs "." ++ dec_pad 6 (Z.rem t kMicroSecondsPerSecond)
  /\ zlen (toFormattedString gmtime t) = 24.
Proof.
  intros Ht Hc. pose proof (micros_range t ltac:(lia)) as Hu. change (10 ^ Z.of_nat 6) with 1000000 in Hu.
  assert (Htext : toFormattedString gmtime t
    = calendar_text (gmtime (Z.quot t kMicroSecondsPerSecond)) ++ bs "." ++ dec_pad 6 (Z.rem t kMicroSecondsPerSecond)).
  { unfold toFormattedString, snprintf, dec_zeros. unfold s32. rewrite wraps_small by lia.
    rewrite (proj2 (Z.ltb_ge _ 0)) by lia. apply ztake_all.
    rewrite !zlen_app, calendar_text_len, zlen_dec_pad by (done || lia). done. }
  split; [done |]. rewrite Htext, !zlen_app, calendar_text_len, zlen_dec_pad by (done || lia). done.
Qed.

(** A time before 1970 gets a second sign. *)
Example toString_negative : toString (- 1500000) = bs "-1.-500000".
Proof. vm_compute. reflexivity. Qed.
Example toString_year : toString 1400317387000042 = bs "1400317387.000042".
Proof. vm_compute. reflexivity. Qed.
