(* ===== verification/TimerQueue.v ===== *)
(** * TimerQueue: the timers of a loop

    [muduo/net/TimerQueue.h], [TimerQueue.cc], [Timer.h], [Timer.cc],
    [TimerId.h].  Timers are heap objects named by address; an address may be
    used again after [delete], which is why a [TimerId] also carries the
    timer's sequence number.  The two ordered sets are a strictly sorted list
    and a finite set; user callbacks are programs of calls back into the queue,
    which run in the loop's thread, so [runInLoop] runs them at once. *)
From Stdlib Require Import Sorting.Sorted.
From S2P Require Import Prelude Timestamp.

Section timerqueue.
(** [C] names a callback; [malloc] chooses the address of a new timer. *)
Context {C : Type}.

(*@ muduo/muduo/net/Timer.h 55-65 Timer *)
Record Timer : Type := mkTimer {
  callback_ : C;
  expiration_ : Z;
  interval_ : double;
  repeat_ : bool;
  sequence_ : Z
}.

(*@ muduo/muduo/net/TimerId.h 46-47 TimerId *)
Record TimerId : Type := mkTimerId { timer_ : Z; id_sequence_ : Z }.

Abbreviation Entry := (Z * Z)%type.
Abbreviation ActiveTimer := (Z * Z)%type.

(** The queue, with what it reaches: the heap of timers, the counter
    [Timer::s_numCreated_], how often the clock was read, the
    [it_value]s given to timerfd_settime(2), the last one being in force, and
    the callbacks called so far. *)
(*@ muduo/muduo/net/TimerQueue.h 75-89 TimerQueue *)
Record TimerQueue : Type := mkTQ {
  timers_ : list Entry;
  activeTimers_ : gset ActiveTimer;
  callingExpiredTimers_ : bool;
  cancelingTimers_ : gset ActiveTimer;
  heap : gmap Z Timer;
  s_numCreated_ : Z;
  ticks : nat;
  settimes : list (Z * Z);
  called : list C
}.

Definition with_timers (l : list Entry) (a : gset ActiveTimer) (q : TimerQueue) : TimerQueue :=
  mkTQ l a (callingExpiredTimers_ q) (cancelingTimers_ q) (heap q) (s_numCreated_ q) (ticks q)
    (settimes q) (called q).
Definition with_calling (b : bool) (q : TimerQueue) : TimerQueue :=
  mkTQ (timers_ q) (activeTimers_ q) b (cancelingTimers_ q) (heap q) (s_numCreated_ q) (ticks q)
    (settimes q) (called q).
Definition with_canceling (s : gset ActiveTimer) (q : TimerQueue) : TimerQueue :=
  mkTQ (timers_ q) (activeTimers_ q) (callingExpiredTimers_ q) s (heap q) (s_numCreated_ q)
    (ticks q) (settimes q) (called q).
Definition with_heap (h : gmap Z Timer) (q : TimerQueue) : TimerQueue :=
  mkTQ (timers_ q) (activeTimers_ q) (callingExpiredTimers_ q) (cancelingTimers_ q) h
    (s_numCreated_ q) (ticks q) (settimes q) (called q).
Definition with_created (n : Z) (q : TimerQueue) : TimerQueue :=
  mkTQ (timers_ q) (activeTimers_ q) (callingExpiredTimers_ q) (cancelingTimers_ q) (heap q) n
    (ticks q) (settimes q) (called q).
Definition with_ticks (n : nat) (q : TimerQueue) : TimerQueue :=
  mkTQ (timers_ q) (activeTimers_ q) (callingExpiredTimers_ q) (cancelingTimers_ q) (heap q)
    (s_numCreated_ q) n (settimes q) (called q).
Definition with_settimes (l : list (Z * Z)) (q : TimerQueue) : TimerQueue :=
  mkTQ (timers_ q) (activeTimers_ q) (callingExpiredTimers_ q) (cancelingTimers_ q) (heap q)
    (s_numCreated_ q) (ticks q) l (called q).
Definition with_called (l : list C) (q : TimerQueue) : TimerQueue :=
  mkTQ (timers_ q) (activeTimers_ q) (callingExpiredTimers_ q) (cancelingTimers_ q) (heap q)
    (s_numCreated_ q) (ticks q) (settimes q) l.

(*@ muduo/muduo/net/TimerQueue.cc 98-112 TimerQueue::TimerQueue *)
Definition TimerQueue_new : TimerQueue := mkTQ [] ∅ false ∅ ∅ 0 0 [] [].

(** ** The ordered set of entries *)

(** [operator<] of [std::pair<Timestamp, Timer*>]. *)
Definition entry_ltb (a b : Entry) : bool := (a.1 <? b.1) || ((a.1 =? b.1) && (a.2 <? b.2)).

(** [std::set::insert]: the position by the order, the flag false when present. *)
Fixpoint set_insert (e : Entry) (l : list Entry) : list Entry * bool :=
  match l with
  | [] => ([e], true)
  | x :: l' =>
      if entry_ltb e x then (e :: l, true)
      else if entry_ltb x e then let '(l'', b) := set_insert e l' in (x :: l'', b)
      else (l, false)
  end.

(** [std::set::erase] of a key: how many were removed. *)
Fixpoint set_erase (e : Entry) (l : list Entry) : list Entry * Z :=
  match l with
  | [] => ([], 0)
  | x :: l' => if decide (x = e) then (l', 1) else let '(l'', n) := set_erase e l' in (x :: l'', n)
  end.

(** The two parts of the set around [lower_bound(e)]. *)
Fixpoint split_lower_bound (e : Entry) (l : list Entry) : list Entry * list Entry :=
  match l with
  | [] => ([], [])
  | x :: l' =>
      if entry_ltb x e then let '(a, b) := split_lower_bound e l' in (x :: a, b) else ([], l)
  end.

(** ** The clock and the timer descriptor *)
Section ops.
(** Successive readings of [Timestamp::now()]; the allocator. *)
Variable clock : nat -> Z.
Variable malloc : gmap Z Timer -> Z.

Definition read_clock (q : TimerQueue) : Z * TimerQueue :=
  (clock (ticks q), with_ticks (S (ticks q)) q).

(*@ muduo/muduo/net/TimerQueue.cc 41-55 howMuchTimeFromNow *)
Definition howMuchTimeFromNow (when_ now : Z) : Z * Z :=
  let microseconds := s64 (when_ - now) in
  let microseconds := if microseconds <? 100 then 100 else microseconds in
  (Z.quot microseconds kMicroSecondsPerSecond, Z.rem microseconds kMicroSecondsPerSecond * 1000).

(*@ muduo/muduo/net/TimerQueue.cc 70-88 resetTimerfd *)
Definition resetTimerfd (expiration : Z) (q : TimerQueue) : TimerQueue :=
  let '(now, q) := read_clock q in
  with_settimes (settimes q ++ [howMuchTimeFromNow expiration now]) q.

(*@ muduo/muduo/net/Timer.h 30-36 Timer::Timer *)
Definition Timer_new (cb : C) (when_ : Z) (interval : double) (seq : Z) : Timer :=
  mkTimer cb when_ interval (dbl_lt (dbl_of_Z 0) interval) seq.

(*@ muduo/muduo/net/Timer.cc 16-26 Timer::restart *)
Definition restart (now : Z) (t : Timer) : Timer :=
  mkTimer (callback_ t) (if repeat_ t then addTime now (interval_ t) else invalid)
    (interval_ t) (repeat_ t) (sequence_ t).

Definition load_timer (p : Z) (q : TimerQueue) : res Timer :=
  match heap q !! p with Some t => Ok t | None => Err BadAccess end.

(** [timers_.size() == activeTimers_.size()]. *)
Definition sizes_agree (q : TimerQueue) : bool :=
  Z.of_nat (size (activeTimers_ q)) =? zlen (timers_ q).

(*@ muduo/muduo/net/TimerQueue.cc 283-318 TimerQueue::insert *)
Definition insert (timer : Z) (q : TimerQueue) : res (bool * TimerQueue) :=
  assert_ (sizes_agree q);;
  t ← load_timer timer q;
  let when_ := expiration_ t in
  let earliestChanged := match timers_ q with [] => true | it :: _ => when_ <? it.1 end in
  let '(l, inserted) := set_insert (when_, timer) (timers_ q) in
  assert_ inserted;;
  let a := (timer, sequence_ t) in
  assert_ (bool_decide (a ∉ activeTimers_ q));;
  let q := with_timers l ({[a]} ∪ activeTimers_ q) q in
  assert_ (sizes_agree q);;
  mret (earliestChanged, q).

(*@ muduo/muduo/net/TimerQueue.cc 146-158 TimerQueue::addTimerInLoop *)
Definition addTimerInLoop (timer : Z) (q : TimerQueue) : res TimerQueue :=
  '(earliestChanged, q) ← insert timer q;
  if earliestChanged : bool
  then t ← load_timer timer q; mret (resetTimerfd (expiration_ t) q)
  else mret q.

(** In the loop's thread; from another thread [addTimerInLoop] is queued. *)
(*@ muduo/muduo/net/TimerQueue.cc 126-135 TimerQueue::addTimer *)
Definition addTimer (cb : C) (when_ : Z) (interval : double) (q : TimerQueue)
  : res (TimerId * TimerQueue) :=
  let seq := s64 (s_numCreated_ q + 1) in
  let p := malloc (heap q) in
  let q := with_created seq (with_heap (<[p := Timer_new cb when_ interval seq]> (heap q)) q) in
  q ← addTimerInLoop p q;
  mret (mkTimerId p seq, q).

(*@ muduo/muduo/net/TimerQueue.cc 162-188 TimerQueue::cancelInLoop *)
Definition cancelInLoop (timerId : TimerId) (q : TimerQueue) : res TimerQueue :=
  assert_ (sizes_agree q);;
  let timer := (timer_ timerId, id_sequence_ timerId) in
  q ← (if decide (timer ∈ activeTimers_ q)
       then
         t ← load_timer timer.1 q;
         let '(l, n) := set_erase (expiration_ t, timer.1) (timers_ q) in
         assert_ (n =? 1);;
         mret (with_timers l (activeTimers_ q ∖ {[timer]}) (with_heap (delete timer.1 (heap q)) q))
       else if callingExpiredTimers_ q
       then mret (with_canceling ({[timer]} ∪ cancelingTimers_ q) q)
       else mret q);
  assert_ (sizes_agree q);;
  mret q.

(** ** Expiry *)

Definition UINTPTR_MAX : Z := 2 ^ 64 - 1.

(** The loop that erases the expired timers from [activeTimers_]. *)
Fixpoint erase_active (expired : list Entry) (q : TimerQueue) : res TimerQueue :=
  match expired with
  | [] => mret q
  | it :: expired =>
      t ← load_timer it.2 q;
      let timer := (it.2, sequence_ t) in
      assert_ (bool_decide (timer ∈ activeTimers_ q));;
      erase_active expired (with_timers (timers_ q) (activeTimers_ q ∖ {[timer]}) q)
  end.

(*@ muduo/muduo/net/TimerQueue.cc 217-243 TimerQueue::getExpired *)
Definition getExpired (now : Z) (q : TimerQueue) : res (list Entry * TimerQueue) :=
  assert_ (sizes_agree q);;
  let sentry := (now, UINTPTR_MAX) in
  let '(expired, rest) := split_lower_bound sentry (timers_ q) in
  assert_ (match rest with [] => true | e :: _ => now <? e.1 end);;
  q ← erase_active expired (with_timers rest (activeTimers_ q) q);
  assert_ (sizes_agree q);;
  mret (expired, q).

(** The [for] of [reset]. *)
Fixpoint reset_each (expired : list Entry) (now : Z) (q : TimerQueue) : res TimerQueue :=
  match expired with
  | [] => mret q
  | it :: expired =>
      t ← load_timer it.2 q;
      let timer := (it.2, sequence_ t) in
      q ← (if repeat_ t && bool_decide (timer ∉ cancelingTimers_ q)
           then
             '(_, q) ← insert it.2 (with_heap (<[it.2 := restart now t]> (heap q)) q);
             mret q
           else mret (with_heap (delete it.2 (heap q)) q));
      reset_each expired now q
  end.

(*@ muduo/muduo/net/TimerQueue.cc 246-280 TimerQueue::reset *)
Definition reset (expired : list Entry) (now : Z) (q : TimerQueue) : res TimerQueue :=
  q ← reset_each expired now q;
  nextExpire ← match timers_ q with
               | [] => mret invalid
               | it :: _ => t ← load_timer it.2 q; mret (expiration_ t)
               end;
  if valid nextExpire then mret (resetTimerfd nextExpire q) else mret q.

(** ** Callbacks *)

(** What a callback may do to the queue it runs from: [EventLoop::runAt],
    [runEvery] and [cancel] in the loop's thread. *)
Inductive tcall : Type :=
| RunAt (cb : C) (when_ : Z) (interval : double)
| Cancel (id : TimerId).

(** The calls a callback makes, which may depend on the queue. *)
Variable code : C -> TimerQueue -> list tcall.

Definition do_tcall (c : tcall) (q : TimerQueue) : res TimerQueue :=
  match c with
  | RunAt cb when_ interval => '(_, q) ← addTimer cb when_ interval q; mret q
  | Cancel id => cancelInLoop id q
  end.

Fixpoint do_tcalls (cs : list tcall) (q : TimerQueue) : res TimerQueue :=
  match cs with
  | [] => mret q
  | c :: cs => q ← do_tcall c q; do_tcalls cs q
  end.

(*@ muduo/muduo/net/Timer.h 39-42 Timer::run *)
Definition run (p : Z) (q : TimerQueue) : res TimerQueue :=
  t ← load_timer p q;
  let q := with_called (called q ++ [callback_ t]) q in
  do_tcalls (code (callback_ t) q) q.

Fixpoint run_each (expired : list Entry) (q : TimerQueue) : res TimerQueue :=
  match expired with
  | [] => mret q
  | it :: expired => q ← run it.2 q; run_each expired q
  end.

(*@ muduo/muduo/net/TimerQueue.cc 191-214 TimerQueue::handleRead *)
Definition handleRead (q : TimerQueue) : res TimerQueue :=
  let '(now, q) := read_clock q in
  '(expired, q) ← getExpired now q;
  let q := with_canceling ∅ (with_calling true q) in
  q ← run_each expired q;
  let q := with_calling false q in
  reset expired now q.

(** ** The calls of [EventLoop] *)

(*@ muduo/muduo/net/EventLoop.cc 196-199 EventLoop::runAt *)
Definition runAt (time : Z) (cb : C) (q : TimerQueue) := addTimer cb time (dbl_of_Z 0) q.
(*@ muduo/muduo/net/EventLoop.cc 201-205 EventLoop::runAfter *)
Definition runAfter (delay : double) (cb : C) (q : TimerQueue) :=
  let '(now, q) := read_clock q in runAt (addTime now delay) cb q.
(*@ muduo/muduo/net/EventLoop.cc 207-211 EventLoop::runEvery *)
Definition runEvery (interval : double) (cb : C) (q : TimerQueue) :=
  let '(now, q) := read_clock q in addTimer cb (addTime now interval) interval q.
(*@ muduo/muduo/net/EventLoop.cc 214-217 EventLoop::cancel *)
Definition cancel (timerId : TimerId) (q : TimerQueue) := cancelInLoop timerId q.
End ops.
End timerqueue.
Arguments TimerQueue : clear implicits.
Arguments Timer : clear implicits.
Arguments tcall : clear implicits.

(** ** The ordered set *)

Definition entry_lt (a b : Z * Z) : Prop := entry_ltb a b = true.

Lemma entry_lt_iff a b : entry_lt a b <-> a.1 < b.1 \/ (a.1 = b.1 /\ a.2 < b.2).
Proof.
  unfold entry_lt, entry_ltb. rewrite orb_true_iff, andb_true_iff, !Z.ltb_lt, Z.eqb_eq. done.
Qed.
Lemma entry_ltb_false a b : entry_ltb a b = false <-> ~ (a.1 < b.1 \/ (a.1 = b.1 /\ a.2 < b.2)).
Proof. rewrite <- entry_lt_iff. unfold entry_lt. by rewrite not_true_iff_false. Qed.

#[export] Instance entry_lt_trans : Transitive entry_lt.
Proof. intros [] [] []. rewrite !entry_lt_iff. cbn. lia. Qed.
#[export] Instance entry_lt_irrefl : Irreflexive entry_lt.
Proof. intros []. unfold complement. rewrite entry_lt_iff. cbn. lia. Qed.

Abbreviation sorted := (StronglySorted entry_lt).

Lemma sorted_NoDup l : sorted l -> NoDup l.
Proof.
  induction 1 as [| x l Hl IH Hx]; constructor; [| done].
  intros Hin. rewrite Forall_forall in Hx. by apply (entry_lt_irrefl x), Hx.
Qed.

Lemma set_insert_spec e l :
  sorted l -> e ∉ l ->
  exists l', set_insert e l = (l', true) /\ sorted l' /\ l' ≡ₚ e :: l
    /\ hd_error l' = Some (match l with [] => e | x :: _ => if entry_ltb e x then e else x end).
Proof.
  induction 1 as [| x l Hl IH Hx]; intros Hn; cbn [set_insert].
  - eexists. split_and!; [done | | done | done]. repeat constructor.
  - destruct (entry_ltb e x) eqn:E1; [| destruct (entry_ltb x e) eqn:E2].
    + eexists. split_and!; [done | | done | done]. constructor; [by constructor |].
      constructor; [done |]. eapply Forall_impl; [exact Hx |]. intros y Hy. by transitivity x.
    + destruct IH as (l' & -> & Hs & Hp & _); [set_solver |].
      eexists. split_and!; [done | | | done].
      * constructor; [done |]. rewrite Hp. by constructor.
      * rewrite Hp. constructor.
    + exfalso. apply Hn. assert (e = x) as -> by
        (rewrite entry_ltb_false in E1, E2; destruct e, x; cbn in *; f_equal; lia).
      apply list_elem_of_here.
Qed.

Lemma set_erase_spec e l :
  sorted l -> e ∈ l ->
  exists l', set_erase e l = (l', 1) /\ sorted l' /\ l ≡ₚ e :: l'
    /\ (forall x, hd_error l' = Some x -> exists y, hd_error l = Some y /\ y.1 <= x.1).
Proof.
  induction 1 as [| x l Hl IH Hx]; intros Hin; [by apply not_elem_of_nil in Hin |].
  cbn [set_erase]. destruct (decide (x = e)) as [-> |].
  - eexists. split_and!; [done | done | done |]. intros y Hy. exists e. split; [done |].
    destruct l; cbn in Hy; simplify_eq. apply Forall_cons in Hx as [Hx _].
    apply entry_lt_iff in Hx. lia.
  - destruct IH as (l' & -> & Hs & Hp & _); [set_solver |].
    eexists. split_and!; [done | | |].
    + constructor; [done |]. rewrite Hp in Hx. by apply Forall_cons in Hx as [_ ?].
    + rewrite Hp. constructor.
    + cbn. intros y [= ->]. by exists y.
Qed.

Lemma split_lower_bound_spec e l :
  sorted l -> exists a b, split_lower_bound e l = (a, b) /\ l = a ++ b /\ sorted b
    /\ Forall (fun x => entry_lt x e) a /\ Forall (fun x => ~ entry_lt x e) b.
Proof.
  induction 1 as [| x l Hl IH Hx]; cbn [split_lower_bound].
  - exists [], []. repeat split; constructor.
  - destruct (entry_ltb x e) eqn:E.
    + destruct IH as (a & b & -> & -> & Hb & Ha & Hnb). exists (x :: a), b.
      repeat split; try done. by constructor.
    + exists [], (x :: l). split_and!; try done; [by constructor |].
      assert (~ entry_lt x e) by (unfold entry_lt; congruence). constructor; [done |].
      eapply Forall_impl; [exact Hx |]. intros y Hy Hye. apply H. by transitivity y.
Qed.

(** ** The invariant *)

Section invariant.
Context {C : Type}.
Implicit Types q : TimerQueue C.

(** [held]: the entries taken out by [getExpired] that [reset] has not seen
    yet; their timers are still allocated. *)
Record tq_inv (held : list (Z * Z)) q : Prop := {
  ti_sorted : sorted (timers_ q);
  ti_timer e p : (e, p) ∈ timers_ q ->
    exists t, heap q !! p = Some t /\ expiration_ t = e /\ (p, sequence_ t) ∈ activeTimers_ q;
  ti_active p n : (p, n) ∈ activeTimers_ q ->
    exists t, heap q !! p = Some t /\ sequence_ t = n /\ (expiration_ t, p) ∈ timers_ q;
  ti_size : Z.of_nat (size (activeTimers_ q)) = zlen (timers_ q);
  ti_held e p : (e, p) ∈ held ->
    exists t, heap q !! p = Some t /\ expiration_ t = e /\ (e, p) ∉ timers_ q;
  ti_nodup : NoDup held.*2;
  ti_live p t : heap q !! p = Some t ->
    (expiration_ t, p) ∈ timers_ q \/ (expiration_ t, p) ∈ held;
  ti_addr p t : heap q !! p = Some t -> p < UINTPTR_MAX
}.

Lemma inv_sizes held q : tq_inv held q -> sizes_agree q = true.
Proof. intros H. apply Z.eqb_eq, (ti_size _ _ H). Qed.

Lemma inv_new : tq_inv [] (TimerQueue_new (C := C)).
Proof. split; cbn; try done; try (intros; set_solver). all: constructor. Qed.

(** The queue's own fields decide the invariant. *)
Lemma inv_proper held q q' :
  timers_ q' = timers_ q -> activeTimers_ q' = activeTimers_ q -> heap q' = heap q ->
  tq_inv held q -> tq_inv held q'.
Proof. intros E1 E2 E3 []. split; rewrite ?E1, ?E2, ?E3; done. Qed.

Lemma timer_entry_unique held q e e' p :
  tq_inv held q -> (e, p) ∈ timers_ q -> (e', p) ∈ timers_ q -> e = e'.
Proof.
  intros H H1 H2. apply (ti_timer _ _ H) in H1 as (t & Ht & <- & _).
  apply (ti_timer _ _ H) in H2 as (t' & Ht' & <- & _). by simplify_eq.
Qed.

Lemma timers_NoDup2 held q : tq_inv held q -> NoDup (timers_ q).*2.
Proof.
  intros H. apply NoDup_fmap_2_strong; [| by eapply sorted_NoDup, ti_sorted].
  intros [e p] [e' p'] Hi Hi' E. cbn in E. subst p'. f_equal. by eapply timer_entry_unique.
Qed.

Lemma held_not_active held q e p n : tq_inv held q -> (e, p) ∈ held -> (p, n) ∉ activeTimers_ q.
Proof.
  intros H Hh Ha. destruct (ti_held _ _ H _ _ Hh) as (t & Ht & He & Hn).
  destruct (ti_active _ _ H _ _ Ha) as (t' & Ht' & _ & Hi). by simplify_eq.
Qed.

(** A held timer goes back to the sets. *)
Lemma insert_spec held e p q :
  tq_inv ((e, p) :: held) q ->
  exists b q', insert p q = Ok (b, q') /\ tq_inv held q'
    /\ timers_ q' ≡ₚ (e, p) :: timers_ q
    /\ heap q' = heap q /\ callingExpiredTimers_ q' = callingExpiredTimers_ q
    /\ cancelingTimers_ q' = cancelingTimers_ q /\ ticks q' = ticks q /\ settimes q' = settimes q
    /\ s_numCreated_ q' = s_numCreated_ q
    /\ (forall x, hd_error (timers_ q') = Some x ->
          if b then x = (e, p) else exists y, hd_error (timers_ q) = Some y /\ y.1 <= x.1).
Proof.
  intros H. pose proof H as [Hs Ht Ha Hsz Hh Hnd Hl Had].
  destruct (Hh e p (list_elem_of_here _ _)) as (t & Hp & He & Hnin).
  destruct (set_insert_spec (e, p) (timers_ q) Hs Hnin) as (l' & Hins & Hs' & Hperm & Hhd).
  assert (Hna : (p, sequence_ t) ∉ activeTimers_ q)
    by (eapply held_not_active; [exact H | apply list_elem_of_here]).
  unfold insert. rewrite (inv_sizes _ _ H). cbn [assert_]. rsimp.
  unfold load_timer. rewrite Hp. rsimp. rewrite He, Hins. cbn [assert_]. rsimp.
  rewrite bool_decide_eq_true_2 by done. cbn [assert_]. rsimp.
  set (q' := with_timers l' ({[(p, sequence_ t)]} ∪ activeTimers_ q) q).
  assert (Hsz' : Z.of_nat (size (activeTimers_ q')) = zlen (timers_ q')).
  { cbn. rewrite size_union by set_solver. rewrite size_singleton.
    unfold zlen in *. rewrite Hperm. cbn. lia. }
  rewrite assert_true by (by apply Z.eqb_eq). rsimp.
  eexists _, q'. split; [done |]. split_and!; try done; [| cbn; rewrite Hhd].
  - cbn in Hnd. apply NoDup_cons in Hnd as [Hni Hnd]. split; cbn; try done.
    + intros e' p'. rewrite Hperm. intros [[= -> ->] | Hin]%elem_of_cons.
      * exists t. set_solver.
      * destruct (Ht _ _ Hin) as (t' & ? & ? & ?). exists t'. set_solver.
    + intros p' n. rewrite elem_of_union, elem_of_singleton. intros [[= -> ->] | Hin].
      * exists t. rewrite He, Hperm. split_and!; try done. apply list_elem_of_here.
      * destruct (Ha _ _ Hin) as (t' & ? & ? & ?). exists t'. rewrite Hperm.
        split_and!; try done. by apply list_elem_of_further.
    + intros e' p' Hin. destruct (Hh e' p') as (t' & H1 & H2 & H3); [by apply list_elem_of_further |].
      exists t'. split_and!; [done | done |]. rewrite Hperm. apply not_elem_of_cons. split; [| done].
      intros [= -> ->]. apply Hni. apply list_elem_of_fmap. by exists (e, p).
    + intros p' t' Hp'. rewrite Hperm. destruct (Hl _ _ Hp') as [Hi | Hi].
      * left. by apply list_elem_of_further.
      * apply elem_of_cons in Hi as [-> | Hi]; [left; apply list_elem_of_here | by right].
  - intros x [= <-]. destruct (timers_ q) as [| y l] eqn:El; [done |]. cbn [fst].
    destruct (entry_ltb (e, p) y) eqn:E.
    + destruct (Z.ltb_spec e y.1); [done |]. exists y. split; [done |].
      apply entry_lt_iff in E. cbn in E. cbn. lia.
    + assert (~ e < y.1) as Hlt by (rewrite entry_ltb_false in E; cbn in E; lia).
      rewrite (proj2 (Z.ltb_ge _ _)) by lia. by exists y.
Qed.

(** A held timer changes its expiration, or is deleted. *)
Lemma inv_held_restart held e p t t' q :
  tq_inv ((e, p) :: held) q -> heap q !! p = Some t -> sequence_ t' = sequence_ t ->
  tq_inv ((expiration_ t', p) :: held) (with_heap (<[p := t']> (heap q)) q).
Proof.
  intros H Hp Hseq. pose proof H as [Hs Ht Ha Hsz Hh Hnd Hl Had].
  assert (Hne : forall n, (p, n) ∉ activeTimers_ q)
    by (intros n; eapply held_not_active; [exact H | apply list_elem_of_here]).
  assert (Hnt : forall x, (x, p) ∉ timers_ q).
  { intros x Hx. destruct (Ht _ _ Hx) as (? & _ & _ & Hin). by eapply Hne. }
  cbn in Hnd. apply NoDup_cons in Hnd as [Hni Hnd].
  split; cbn [timers_ activeTimers_ heap with_heap]; try done.
  - intros e' p' Hin. destruct (Ht _ _ Hin) as (t1 & ? & ? & ?). exists t1.
    rewrite lookup_insert_ne; [done |]. intros ->. by eapply Hnt.
  - intros p' n Hin. destruct (Ha _ _ Hin) as (t1 & ? & ? & ?). exists t1.
    rewrite lookup_insert_ne; [done |]. intros ->. by eapply Hne.
  - intros e' p'. intros [[= -> ->] | Hin]%elem_of_cons.
    + exists t'. by rewrite lookup_insert_eq.
    + destruct (Hh e' p') as (t1 & ? & ? & ?); [by apply list_elem_of_further |]. exists t1.
      rewrite lookup_insert_ne; [done |]. intros ->. apply Hni, list_elem_of_fmap. by exists (e', p').
  - constructor; done.
  - intros p' t1. destruct (decide (p = p')) as [<- | Hpp].
    + rewrite lookup_insert_eq. intros [= <-]. right. apply list_elem_of_here.
    + rewrite lookup_insert_ne by done. intros Hp'. destruct (Hl _ _ Hp') as [| Hi]; [by left |].
      apply elem_of_cons in Hi as [[= ->] | Hi]; [done |]. right. by apply list_elem_of_further.
  - intros p' t1. destruct (decide (p = p')) as [<- | Hpp]; [intros _; eauto |].
    rewrite lookup_insert_ne by done. eauto.
Qed.

Lemma inv_held_delete held e p q :
  tq_inv ((e, p) :: held) q -> tq_inv held (with_heap (delete p (heap q)) q).
Proof.
  intros H. pose proof H as [Hs Ht Ha Hsz Hh Hnd Hl Had].
  assert (Hne : forall n, (p, n) ∉ activeTimers_ q)
    by (intros n; eapply held_not_active; [exact H | apply list_elem_of_here]).
  assert (Hnt : forall x, (x, p) ∉ timers_ q).
  { intros x Hx. destruct (Ht _ _ Hx) as (? & _ & _ & Hin). by eapply Hne. }
  cbn in Hnd. apply NoDup_cons in Hnd as [Hni Hnd].
  split; cbn [timers_ activeTimers_ heap with_heap]; try done.
  - intros e' p' Hin. destruct (Ht _ _ Hin) as (t1 & ? & ? & ?). exists t1.
    rewrite lookup_delete_ne; [done |]. intros ->. by eapply Hnt.
  - intros p' n Hin. destruct (Ha _ _ Hin) as (t1 & ? & ? & ?). exists t1.
    rewrite lookup_delete_ne; [done |]. intros ->. by eapply Hne.
  - intros e' p' Hin. destruct (Hh e' p') as (t1 & ? & ? & ?); [by apply list_elem_of_further |].
    exists t1. rewrite lookup_delete_ne; [done |]. intros ->. apply Hni, list_elem_of_fmap.
    by exists (e', p').
  - intros p' t1. rewrite lookup_delete_Some. intros [Hpp Hp'].
    destruct (Hl _ _ Hp') as [| Hi]; [by left |].
    apply elem_of_cons in Hi as [[= _ ->] | Hi]; [done | by right].
  - intros p' t1. rewrite lookup_delete_Some. intros [_ ?]. eauto.
Qed.

(** A new timer is held until it is inserted. *)
Lemma inv_alloc held p t n q :
  tq_inv held q -> heap q !! p = None -> p < UINTPTR_MAX ->
  tq_inv ((expiration_ t, p) :: held) (with_created n (with_heap (<[p := t]> (heap q)) q)).
Proof.
  intros H Hp Hpm. pose proof H as [Hs Ht Ha Hsz Hh Hnd Hl Had].
  assert (Hnt : forall x, (x, p) ∉ timers_ q).
  { intros x Hx. destruct (Ht _ _ Hx) as (? & ? & _). congruence. }
  assert (Hne : forall x, (x, p) ∉ held).
  { intros x Hx. destruct (Hh _ _ Hx) as (? & ? & _). congruence. }
  split; cbn [timers_ activeTimers_ heap with_heap with_created]; try done.
  - intros e' p' Hin. destruct (Ht _ _ Hin) as (t1 & ? & ? & ?). exists t1.
    rewrite lookup_insert_ne; [done |]. intros ->. by eapply Hnt.
  - intros p' m Hin. destruct (Ha _ _ Hin) as (t1 & ? & ? & ?). exists t1.
    rewrite lookup_insert_ne by congruence. done.
  - intros e' p'. intros [[= -> ->] | Hin]%elem_of_cons.
    + exists t. by rewrite lookup_insert_eq.
    + destruct (Hh e' p' Hin) as (t1 & ? & ? & ?). exists t1.
      rewrite lookup_insert_ne; [done |]. intros ->. by eapply Hne.
  - constructor; [| done]. intros ([x p'] & E & Hin)%list_elem_of_fmap. cbn in E. subst p'. by eapply Hne.
  - intros p' t1. destruct (decide (p = p')) as [<- | Hpp].
    + rewrite lookup_insert_eq. intros [= <-]. right. apply list_elem_of_here.
    + rewrite lookup_insert_ne by done. intros Hp'. destruct (Hl _ _ Hp') as [| Hi]; [by left |].
      right. by apply list_elem_of_further.
  - intros p' t1. destruct (decide (p = p')) as [<- | Hpp]; [done |].
    rewrite lookup_insert_ne by done. eauto.
Qed.
End invariant.

(** ** The operations keep the invariant and never fail *)

Section operations.
Context {C : Type}.
Implicit Types q : TimerQueue C.
Variable clock : nat -> Z.
Variable malloc : gmap Z (Timer C) -> Z.
(** [malloc] returns a block that is not in use, below the last address; it
    never fails, so the addresses have no lower bound here. *)
Hypothesis malloc_fresh : forall h, h !! malloc h = None /\ malloc h < UINTPTR_MAX.

(** [timerfd_settime] was last called for an expiration that is not after
    any timer of the queue (if it was called for the present timers at all). *)
Definition armed_by q : Prop :=
  forall e p, hd_error (timers_ q) = Some (e, p) ->
    exists e0 n, e0 <= e /\ last (settimes q) = Some (howMuchTimeFromNow e0 (clock n)).

Lemma resetTimerfd_fields e q :
  let q' := resetTimerfd clock e q in
  timers_ q' = timers_ q /\ activeTimers_ q' = activeTimers_ q /\ heap q' = heap q
  /\ callingExpiredTimers_ q' = callingExpiredTimers_ q
  /\ cancelingTimers_ q' = cancelingTimers_ q /\ s_numCreated_ q' = s_numCreated_ q
  /\ last (settimes q') = Some (howMuchTimeFromNow e (clock (ticks q))).
Proof using. cbn. rewrite last_snoc. done. Qed.

Lemma inv_resetTimerfd held e q : tq_inv held q -> tq_inv held (resetTimerfd clock e q).
Proof using. by apply inv_proper. Qed.

(** What every call leaves alone of the timers that are being run. *)
Definition keeps_held (held : list (Z * Z)) q q' : Prop :=
  callingExpiredTimers_ q' = callingExpiredTimers_ q
  /\ (forall e p, (e, p) ∈ held -> heap q' !! p = heap q !! p)
  /\ cancelingTimers_ q ⊆ cancelingTimers_ q'.

Lemma addTimerInLoop_spec held e p q :
  tq_inv ((e, p) :: held) q ->
  exists q', addTimerInLoop clock p q = Ok q' /\ tq_inv held q'
    /\ timers_ q' ≡ₚ (e, p) :: timers_ q /\ heap q' = heap q
    /\ callingExpiredTimers_ q' = callingExpiredTimers_ q
    /\ cancelingTimers_ q' = cancelingTimers_ q /\ s_numCreated_ q' = s_numCreated_ q
    /\ (armed_by q -> armed_by q').
Proof using.
  intros H. destruct (insert_spec held e p q H)
    as (b & q1 & Hi & H1 & Hp & Hh & Hc & Hca & Htk & Hst & Hn & Hhd).
  unfold addTimerInLoop. rewrite Hi. rsimp. destruct b.
  - destruct (ti_held _ _ H e p (list_elem_of_here _ _)) as (t & Ht & He & _).
    unfold load_timer. rewrite Hh, Ht. rsimp. rewrite He. eexists. split; [done |].
    destruct (resetTimerfd_fields e q1) as (E1 & E2 & E3 & E4 & E5 & E6 & E7).
    split_and!; [by apply inv_resetTimerfd | by rewrite E1 | by rewrite E3 | by rewrite E4
      | by rewrite E5 | by rewrite E6 |].
    intros _ e' p'. rewrite E1. intros Hx. pose proof (Hhd _ Hx) as E. injection E as -> ->.
    exists e, (ticks q1). split; [lia | exact E7].
  - exists q1. split; [done |]. split_and!; try done.
    intros Ha e' p' Hx. destruct (Hhd _ Hx) as ([e1 p1] & Hy & Hle).
    destruct (Ha _ _ Hy) as (e0 & n & ? & Hl). exists e0, n. rewrite Hst. cbn in Hle. split; [lia | done].
Qed.

(** [addTimer]: the queue has the new entry and nothing else changed; the
    returned id names a live timer. *)
Lemma addTimer_spec held cb when_ interval q :
  tq_inv held q ->
  exists q' id, addTimer clock malloc cb when_ interval q = Ok (id, q') /\ tq_inv held q'
    /\ timers_ q' ≡ₚ (when_, timer_ id) :: timers_ q
    /\ heap q !! timer_ id = None
    /\ heap q' = <[timer_ id := Timer_new cb when_ interval (id_sequence_ id)]> (heap q)
    /\ callingExpiredTimers_ q' = callingExpiredTimers_ q
    /\ cancelingTimers_ q' = cancelingTimers_ q
    /\ id_sequence_ id = s64 (s_numCreated_ q + 1) /\ s_numCreated_ q' = id_sequence_ id
    /\ (armed_by q -> armed_by q').
Proof using malloc_fresh.
  intros H. destruct (malloc_fresh (heap q)) as [Hf Ha].
  pose proof (inv_alloc held _ (Timer_new cb when_ interval (s64 (s_numCreated_ q + 1)))
    (s64 (s_numCreated_ q + 1)) q H Hf Ha) as H1.
  destruct (addTimerInLoop_spec _ _ _ _ H1) as (q' & Hq & Hi & Hp & Hh & Hc & Hca & Hn & Harm).
  unfold addTimer. rewrite Hq. rsimp. eexists q', _. split; [done |].
  split_and!; try done.
Qed.

Lemma addTimer_keeps held cb when_ interval q q' id :
  tq_inv held q -> addTimer clock malloc cb when_ interval q = Ok (id, q') -> keeps_held held q q'.
Proof using malloc_fresh.
  intros H Hq. destruct (addTimer_spec held cb when_ interval q H)
    as (q1 & id1 & Hq1 & _ & _ & Hf & Hh & Hc & Hca & _).
  rewrite Hq1 in Hq. simplify_eq. split_and!; [done | | by rewrite Hca].
  intros e p Hin. rewrite Hh, lookup_insert_ne; [done |]. intros <-.
  destruct (ti_held _ _ H _ _ Hin) as (t & Ht & _). congruence.
Qed.

(** An active timer is taken out of both sets and deleted; nobody who is being
    run has its address. *)
Lemma cancel_active_inv held q p n t l' :
  tq_inv held q -> (p, n) ∈ activeTimers_ q -> heap q !! p = Some t -> sequence_ t = n ->
  timers_ q ≡ₚ (expiration_ t, p) :: l' -> sorted l' -> (forall x, (x, p) ∉ held) ->
  tq_inv held (with_timers l' (activeTimers_ q ∖ {[(p, n)]}) (with_heap (delete p (heap q)) q)).
Proof using.
  clear malloc_fresh malloc. intros H Hin Ht Hseq Hp Hs' Hheld.
  assert (Hnd : NoDup ((expiration_ t, p) :: l').*2)
    by (rewrite <- Hp; by eapply timers_NoDup2).
  cbn in Hnd. apply NoDup_cons in Hnd as [Hnl Hnd].
  assert (Hl : forall x, (x, p) ∉ l').
  { intros x Hx. apply Hnl, list_elem_of_fmap. by exists (x, p). }
  split; cbn [timers_ activeTimers_ heap with_timers with_heap].
  - done.
  - intros e' p' Hi. destruct (ti_timer _ _ H e' p') as (t1 & ? & ? & ?).
    { rewrite Hp. by apply list_elem_of_further. }
    assert (p' <> p) by (intros ->; by eapply Hl).
    exists t1. rewrite lookup_delete_ne by done. set_solver.
  - intros p' m [Hi Hne]%elem_of_difference. destruct (ti_active _ _ H _ _ Hi) as (t1 & G1 & G2 & G3).
    assert (p' <> p).
    { intros ->. apply Hne. rewrite Ht in G1. injection G1 as <-. rewrite <- G2, Hseq. set_solver. }
    exists t1. rewrite lookup_delete_ne by done. split_and!; [done.. |].
    rewrite Hp in G3. apply elem_of_cons in G3 as [[= _ ->] |]; done.
  - rewrite size_difference by set_solver. rewrite size_singleton.
    pose proof (ti_size _ _ H) as Hz. unfold zlen in *. rewrite Hp in Hz. cbn in Hz. lia.
  - intros e' p' Hi. destruct (ti_held _ _ H e' p' Hi) as (t1 & ? & ? & Hni). exists t1.
    rewrite lookup_delete_ne by (intros ->; by eapply Hheld). split_and!; [done.. |].
    rewrite Hp in Hni. set_solver.
  - exact (ti_nodup _ _ H).
  - intros p' t1. rewrite lookup_delete_Some. intros [Hne Hp']. destruct (ti_live _ _ H _ _ Hp') as [Hi |];
      [left | by right]. rewrite Hp in Hi. apply elem_of_cons in Hi as [[= _ ->] |]; done.
  - intros p' t1. rewrite lookup_delete_Some. intros [_ ?]. by eapply ti_addr.
Qed.

(** [cancelInLoop]: an active id is removed and its timer freed; any other id
    changes no timer, and is only noted while callbacks are running. *)
Lemma cancelInLoop_spec held id q :
  tq_inv held q ->
  exists q', cancelInLoop id q = Ok q' /\ tq_inv held q' /\ keeps_held held q q'
    /\ (armed_by q -> armed_by q')
    /\ if decide ((timer_ id, id_sequence_ id) ∈ activeTimers_ q)
       then exists t, heap q !! timer_ id = Some t
            /\ timers_ q ≡ₚ (expiration_ t, timer_ id) :: timers_ q'
            /\ heap q' = delete (timer_ id) (heap q) /\ cancelingTimers_ q' = cancelingTimers_ q
       else timers_ q' = timers_ q /\ heap q' = heap q
            /\ cancelingTimers_ q' = (if callingExpiredTimers_ q
                 then {[(timer_ id, id_sequence_ id)]} ∪ cancelingTimers_ q else cancelingTimers_ q).
Proof using.
  clear malloc_fresh malloc. intros H. unfold cancelInLoop. rewrite (inv_sizes _ _ H). cbn [assert_]. rsimp. cbn [fst].
  destruct (decide ((timer_ id, id_sequence_ id) ∈ activeTimers_ q)) as [Hin | Hnin].
  - destruct (ti_active _ _ H _ _ Hin) as (t & Ht & Hseq & He).
    unfold load_timer. rewrite Ht. rsimp.
    destruct (set_erase_spec _ _ (ti_sorted _ _ H) He) as (l' & Her & Hs' & Hp & Hhd).
    rewrite Her. cbn [assert_ Z.eqb Pos.eqb]. rsimp.
    set (p := timer_ id) in *. set (n := id_sequence_ id) in *.
    set (q' := with_timers l' _ _).
    assert (Hheld : forall x, (x, p) ∉ held).
    { intros x Hx. by eapply held_not_active. }
    assert (H' : tq_inv held q') by (by apply (cancel_active_inv held q p n t l')).
    rewrite (inv_sizes _ _ H'). cbn [assert_]. rsimp. exists q'. split_and!; [done | done | | |].
    + split_and!; [done | | done]. intros e' p' Hi. cbn [heap q' with_timers with_heap].
      rewrite lookup_delete_ne; [done |]. intros ->. by eapply Hheld.
    + intros Ha e' p' Hx. destruct (Hhd _ Hx) as ([e1 p1] & Hy & Hle).
      destruct (Ha _ _ Hy) as (e0 & m & ? & Hlast). exists e0, m. cbn in Hle. split; [lia | done].
    + exists t. done.
  - destruct (callingExpiredTimers_ q) eqn:Ec.
    + rsimp. set (q' := with_canceling _ q).
      assert (H' : tq_inv held q') by (by apply (inv_proper held q)).
      rewrite (inv_sizes _ _ H'). cbn [assert_]. rsimp. exists q'.
      split_and!; try done. split_and!; [by rewrite Ec | done | cbn; set_solver].
    + rsimp. rewrite (inv_sizes _ _ H). cbn [assert_]. rsimp. exists q. split_and!; try done.
Qed.

Lemma keeps_held_refl held q : keeps_held held q q.
Proof using. split_and!; done. Qed.
Lemma keeps_held_trans held q1 q2 q3 :
  keeps_held held q1 q2 -> keeps_held held q2 q3 -> keeps_held held q1 q3.
Proof using.
  intros (A1 & A2 & A3) (B1 & B2 & B3). split_and!; [congruence | | by etransitivity].
  intros e p Hi. by rewrite (B2 e p Hi), (A2 e p Hi).
Qed.

(** ** Callbacks *)
Variable code : C -> TimerQueue C -> list (tcall C).

Lemma do_tcall_spec held c q :
  tq_inv held q ->
  exists q', do_tcall clock malloc c q = Ok q' /\ tq_inv held q' /\ keeps_held held q q'
    /\ (armed_by q -> armed_by q').
Proof using malloc_fresh.
  intros H. destruct c as [cb w i | id]; cbn [do_tcall].
  - destruct (addTimer_spec held cb w i q H) as (q' & id & Hq & Hi & _ & _ & _ & _ & _ & _ & _ & Ha).
    pose proof (addTimer_keeps _ _ _ _ _ _ _ H Hq) as Hk. rewrite Hq. rsimp. by exists q'.
  - destruct (cancelInLoop_spec held id q H) as (q' & Hq & Hi & Hk & Ha & _). by exists q'.
Qed.

Lemma do_tcalls_spec held cs : forall q,
  tq_inv held q ->
  exists q', do_tcalls clock malloc cs q = Ok q' /\ tq_inv held q' /\ keeps_held held q q'
    /\ (armed_by q -> armed_by q').
Proof using malloc_fresh.
  induction cs as [| c cs IH]; intros q H; cbn [do_tcalls].
  - exists q. split_and!; done.
  - destruct (do_tcall_spec held c q H) as (q1 & -> & H1 & Hk1 & Ha1). rsimp.
    destruct (IH q1 H1) as (q2 & -> & H2 & Hk2 & Ha2).
    exists q2. split_and!; [done | done | by eapply keeps_held_trans | auto].
Qed.

Lemma run_each_spec held es : forall q,
  tq_inv held q -> (forall x, x ∈ es -> x ∈ held) ->
  exists q', run_each clock malloc code es q = Ok q' /\ tq_inv held q' /\ keeps_held held q q'.
Proof using malloc_fresh.
  induction es as [| [e p] es IH]; intros q H Hsub; cbn [run_each].
  - exists q. split_and!; try done.
  - destruct (ti_held _ _ H e p) as (t & Ht & _); [apply Hsub, list_elem_of_here |].
    unfold run, load_timer. cbn [snd]. rewrite Ht. rsimp.
    set (q0 := with_called _ q). assert (H0 : tq_inv held q0) by (by apply (inv_proper held q)).
    destruct (do_tcalls_spec held (code (callback_ t) q0) q0 H0) as (q1 & -> & H1 & Hk1 & _). rsimp.
    destruct (IH q1 H1) as (q2 & -> & H2 & Hk2); [intros x Hx; by apply Hsub, list_elem_of_further |].
    exists q2. split_and!; [done | done | by eapply keeps_held_trans].
Qed.

(** *** Which callbacks are called: only [run] calls one. *)
Lemma insert_called p q b q' : insert p q = Ok (b, q') -> called q' = called q.
Proof using.
  unfold insert. intros H. inv_res. destruct (set_insert _ _) as [l i]. inv_res. done.
Qed.

Lemma do_tcall_called c q q' : do_tcall clock malloc c q = Ok q' -> called q' = called q.
Proof using.
  destruct c as [cb w i | id]; cbn [do_tcall].
  - intros H. inv_res. destruct r as [id q1]. inv_res. unfold addTimer in Hr. inv_res.
    unfold addTimerInLoop in Hr0. inv_res. destruct r as [b q2]. apply insert_called in Hr.
    cbn [called with_created with_heap] in Hr. destruct b; inv_res; done.
  - unfold cancelInLoop. intros H. inv_res. case_decide; [| case_match]; inv_res; try done.
    destruct (set_erase _ _). by inv_res.
Qed.

Lemma do_tcalls_called cs : forall q q', do_tcalls clock malloc cs q = Ok q' -> called q' = called q.
Proof using.
  induction cs as [| c cs IH]; intros q q' H; cbn [do_tcalls] in H; inv_res; [done |].
  rewrite (IH _ _ H). by eapply do_tcall_called.
Qed.

(** The callbacks of the timers with these entries. *)
Definition callbacks_of (h : gmap Z (Timer C)) (es : list (Z * Z)) : list C :=
  omap (fun x => callback_ <$> h !! x.2) es.

Lemma callbacks_of_ext h h' es :
  (forall x, x ∈ es -> h' !! x.2 = h !! x.2) -> callbacks_of h' es = callbacks_of h es.
Proof using.
  clear. unfold callbacks_of. induction es as [| x es IH]; intros H; cbn; [done |].
  rewrite (H x) by apply list_elem_of_here. rewrite IH; [done |].
  intros y Hy. by apply H, list_elem_of_further.
Qed.

Lemma run_each_called held es : forall q q',
  tq_inv held q -> (forall x, x ∈ es -> x ∈ held) ->
  run_each clock malloc code es q = Ok q' -> called q' = called q ++ callbacks_of (heap q) es.
Proof using malloc_fresh.
  induction es as [| [e p] es IH]; intros q q' H Hsub Hr; cbn [run_each] in Hr.
  - inv_res. cbn. by rewrite app_nil_r.
  - assert (Hin : (e, p) ∈ held) by apply Hsub, list_elem_of_here.
    destruct (ti_held _ _ H e p Hin) as (t & Ht & _).
    unfold run, load_timer in Hr. cbn [snd] in Hr. rewrite Ht in Hr. cbn [mbind res_bind] in Hr. inv_res.
    set (q0 := with_called _ q) in Hr0. assert (H0 : tq_inv held q0) by (by apply (inv_proper held q)).
    destruct (do_tcalls_spec held (code (callback_ t) q0) q0 H0) as (q1 & Hq1 & H1 & (_ & Hk & _) & _).
    rewrite Hq1 in Hr0. injection Hr0 as <-.
    assert (Hsub' : forall x, x ∈ es -> x ∈ held) by (intros x Hx; by apply Hsub, list_elem_of_further).
    rewrite (IH _ _ H1 Hsub' Hr), (do_tcalls_called _ _ _ Hq1).
    rewrite (callbacks_of_ext (heap q)) by (intros [e' p'] Hx; by apply (Hk e' p'), Hsub').
    cbn. by rewrite Ht, <- app_assoc.
Qed.

(** The callbacks one after the other, each doing its calls. *)
Fixpoint call_all (cbs : list C) (q : TimerQueue C) : res (TimerQueue C) :=
  match cbs with
  | [] => mret q
  | cb :: cbs =>
      let q := with_called (called q ++ [cb]) q in
      q ← do_tcalls clock malloc (code cb q) q;
      call_all cbs q
  end.

Lemma run_each_call_all held es : forall q,
  tq_inv held q -> (forall x, x ∈ es -> x ∈ held) ->
  run_each clock malloc code es q = call_all (callbacks_of (heap q) es) q.
Proof using malloc_fresh.
  induction es as [| [e p] es IH]; intros q H Hsub; [done |].
  assert (Hin : (e, p) ∈ held) by apply Hsub, list_elem_of_here.
  destruct (ti_held _ _ H e p Hin) as (t & Ht & _).
  assert (callbacks_of (heap q) ((e, p) :: es) = callback_ t :: callbacks_of (heap q) es) as ->.
  { unfold callbacks_of. cbn. by rewrite Ht. }
  cbn [run_each call_all snd]. unfold run, load_timer. rewrite Ht. rsimp.
  set (q0 := with_called _ q). assert (H0 : tq_inv held q0) by (by apply (inv_proper held q)).
  destruct (do_tcalls_spec held (code (callback_ t) q0) q0 H0) as (q1 & -> & H1 & (_ & Hk & _) & _). rsimp.
  assert (Hsub' : forall x, x ∈ es -> x ∈ held) by (intros x Hx; by apply Hsub, list_elem_of_further).
  rewrite (IH _ H1 Hsub'). f_equal. apply callbacks_of_ext. intros [e' p'] Hx. by apply (Hk e' p'), Hsub'.
Qed.

(** *** A timer that nobody cancels stays as it is. *)
Lemma do_tcalls_keep_timer held cs p t : forall q q',
  tq_inv held q -> heap q !! p = Some t -> Cancel (mkTimerId p (sequence_ t)) ∉ cs ->
  do_tcalls clock malloc cs q = Ok q' -> heap q' !! p = Some t.
Proof using malloc_fresh.
  induction cs as [| c cs IH]; intros q q' H Hp Hn Hr; cbn [do_tcalls] in Hr; inv_res; [done |].
  apply not_elem_of_cons in Hn as [Hne Hn].
  destruct (do_tcall_spec held c q H) as (q1 & Hq1 & H1 & _). rewrite Hq1 in Hr0. injection Hr0 as <-.
  apply (IH q1); [done | | done | done]. destruct c as [cb w i | id]; cbn [do_tcall] in Hq1.
  - destruct (addTimer_spec held cb w i q H) as (q2 & id & Hq2 & _ & _ & Hf & Hh & _).
    rewrite Hq2 in Hq1. revert Hq1. rsimp. intros [= <-]. rewrite Hh, lookup_insert_ne; [done |]. congruence.
  - destruct (cancelInLoop_spec held id q H) as (q2 & Hq2 & _ & _ & _ & Hif).
    rewrite Hq2 in Hq1. injection Hq1 as <-. case_decide as Hin.
    + destruct Hif as (_ & _ & _ & -> & _). rewrite lookup_delete_ne; [done |]. intros E.
      destruct (ti_active _ _ H _ _ Hin) as (t' & Ht' & Hs & _). apply Hne.
      destruct id as [ip iseq]. cbn [timer_ id_sequence_] in *. congruence.
    + by destruct Hif as (_ & -> & _).
Qed.

Lemma run_each_keeps_timer held es p t : forall q q',
  tq_inv held q -> (forall x, x ∈ es -> x ∈ held) -> heap q !! p = Some t ->
  Forall (fun cb => forall q0, Cancel (mkTimerId p (sequence_ t)) ∉ code cb q0)
    (callbacks_of (heap q) es) ->
  run_each clock malloc code es q = Ok q' -> heap q' !! p = Some t.
Proof using malloc_fresh.
  induction es as [| [e1 p1] es IH]; intros q q' H Hsub Hp Hn Hr; cbn [run_each] in Hr.
  - by inv_res.
  - assert (Hin : (e1, p1) ∈ held) by apply Hsub, list_elem_of_here.
    destruct (ti_held _ _ H e1 p1 Hin) as (t1 & Ht1 & _).
    unfold run, load_timer in Hr. cbn [snd] in Hr. rewrite Ht1 in Hr. cbn [mbind res_bind] in Hr. inv_res.
    set (q0 := with_called _ q) in Hr0. assert (H0 : tq_inv held q0) by (by apply (inv_proper held q)).
    destruct (do_tcalls_spec held (code (callback_ t1) q0) q0 H0) as (q1 & Hq1 & H1 & (_ & Hk & _) & _).
    rewrite Hq1 in Hr0. injection Hr0 as <-.
    unfold callbacks_of in Hn. cbn in Hn. rewrite Ht1 in Hn. apply Forall_cons in Hn as [Hn1 Hn].
    assert (Hsub' : forall x, x ∈ es -> x ∈ held) by (intros x Hx; by apply Hsub, list_elem_of_further).
    apply (IH q1); [done | done | | | done].
    + by eapply (do_tcalls_keep_timer held _ p t q0).
    + fold (callbacks_of (heap q1) es).
      by rewrite (callbacks_of_ext (heap q)) by (intros [e' p'] Hx; by apply (Hk e' p'), Hsub').
Qed.
End operations.

(** ** Expiry *)

Section expiry.
Context {C : Type}.
Implicit Types q : TimerQueue C.

Lemma erase_active_spec es l : forall q A,
  NoDup es.*2 ->
  (forall e p, (e, p) ∈ es -> exists t, heap q !! p = Some t /\ (p, sequence_ t) ∈ A) ->
  exists A', erase_active es (with_timers l A q) = Ok (with_timers l A' q)
    /\ (size A' + length es = size A)%nat
    /\ (forall p n, (p, n) ∈ A' <-> (p, n) ∈ A
          /\ ~ (exists t, p ∈ es.*2 /\ heap q !! p = Some t /\ sequence_ t = n)).
Proof.
  induction es as [| [e p] es IH]; intros q A Hnd Hes; cbn [erase_active].
  - exists A. cbn. split_and!; [done | lia |]. intros p n. split; [| by intros []].
    intros Hin. split; [done |]. by intros (t & Hx%not_elem_of_nil & _).
  - cbn in Hnd. apply NoDup_cons in Hnd as [Hni Hnd].
    destruct (Hes e p (list_elem_of_here _ _)) as (t & Ht & Hin).
    unfold load_timer. cbn [heap with_timers snd]. rewrite Ht. rsimp. cbn [activeTimers_ timers_].
    rewrite bool_decide_eq_true_2 by done. cbn [assert_]. rsimp.
    destruct (IH q (A ∖ {[(p, sequence_ t)]}) Hnd) as (A' & Hr & Hsz & Hiff).
    { intros e' p' Hi. destruct (Hes e' p') as (t' & Ht' & Hin'); [by apply list_elem_of_further |].
      exists t'. split; [done |]. apply elem_of_difference. split; [done |].
      intros [= -> _]%elem_of_singleton. apply Hni, list_elem_of_fmap. by exists (e', p). }
    exists A'. split_and!.
    + exact Hr.
    + rewrite size_difference in Hsz by (intros x ->%elem_of_singleton; done).
      rewrite size_singleton in Hsz. cbn [length].
      assert (size A <> 0%nat). { intros E. apply size_empty_inv in E. by apply E, elem_of_empty in Hin. }
      lia.
    + intros p' n. rewrite Hiff, elem_of_difference, elem_of_singleton. cbn [fmap list_fmap snd].
      split.
      * intros [[Hi Hne] Hno]. split; [done |]. intros (t' & Hp' & Ht' & Hs').
        apply elem_of_cons in Hp' as [-> | Hp']; [| by apply Hno; exists t'].
        apply Hne. rewrite Ht in Ht'. injection Ht' as <-. by rewrite Hs'.
      * intros [Hi Hno]. split; [split; [done |] |].
        -- intros [= -> ->]. apply Hno. exists t. split_and!; [apply list_elem_of_here | done | done].
        -- intros (t' & Hp' & Ht' & Hs'). apply Hno. exists t'.
           split_and!; [by apply list_elem_of_further | done | done].
Qed.

Lemma sorted_app_r (a b : list (Z * Z)) x : sorted (a ++ b) -> x ∈ a -> x ∈ b -> False.
Proof.
  intros Hs%sorted_NoDup Ha Hb. apply NoDup_app in Hs as (_ & Hd & _). by eapply Hd.
Qed.

Lemma getExpired_spec now q :
  tq_inv [] q ->
  exists expired q', getExpired now q = Ok (expired, q')
    /\ timers_ q = expired ++ timers_ q'
    /\ Forall (fun x => x.1 <= now) expired /\ Forall (fun x => now < x.1) (timers_ q')
    /\ tq_inv expired q' /\ heap q' = heap q /\ ticks q' = ticks q /\ settimes q' = settimes q
    /\ s_numCreated_ q' = s_numCreated_ q.
Proof.
  intros H. unfold getExpired. rewrite (inv_sizes _ _ H). cbn [assert_]. rsimp.
  destruct (split_lower_bound_spec (now, UINTPTR_MAX) (timers_ q) (ti_sorted _ _ H))
    as (a & b & -> & Hab & Hb & Ha & Hnb).
  assert (Haddr : forall e p, (e, p) ∈ timers_ q -> p < UINTPTR_MAX).
  { intros e p Hi. destruct (ti_timer _ _ H _ _ Hi) as (t & Ht & _). by eapply ti_addr. }
  assert (Hb' : Forall (fun x => now < x.1) b).
  { rewrite Forall_forall in Hnb |- *. intros [e p] Hi. specialize (Hnb _ Hi).
    rewrite entry_lt_iff in Hnb. cbn in *.
    assert (p < UINTPTR_MAX) by (apply (Haddr e); rewrite Hab; apply elem_of_app; auto). lia. }
  assert (Ha' : Forall (fun x => x.1 <= now) a).
  { eapply Forall_impl; [exact Ha |]. intros [e p] Hx. apply entry_lt_iff in Hx. cbn in *. lia. }
  rewrite assert_true.
  2: { destruct b as [| x b]; [done |]. apply Forall_cons in Hb' as [? _]. by apply Z.ltb_lt. }
  rsimp. pose proof (timers_NoDup2 _ _ H) as Hnd. rewrite Hab, fmap_app in Hnd.
  apply NoDup_app in Hnd as (Hnda & Hdis & _).
  destruct (erase_active_spec a b q (activeTimers_ q) Hnda) as (A' & -> & Hsz & Hiff).
  { intros e p Hi. destruct (ti_timer _ _ H e p) as (t & ? & _ & ?); [| by exists t].
    rewrite Hab. apply elem_of_app. auto. }
  rsimp. set (q' := with_timers b A' q).
  assert (H' : tq_inv a q').
  { split; cbn [timers_ activeTimers_ heap with_timers q'].
    - done.
    - intros e p Hi. destruct (ti_timer _ _ H e p) as (t & Ht & He & Hin);
        [rewrite Hab; apply elem_of_app; auto |].
      exists t. split_and!; [done | done |]. apply Hiff. split; [done |].
      intros (t' & Hp & _). apply (Hdis _ Hp). apply list_elem_of_fmap. by exists (e, p).
    - intros p n [Hi Hno]%Hiff. destruct (ti_active _ _ H _ _ Hi) as (t & Ht & Hs & He).
      exists t. split_and!; [done | done |]. rewrite Hab in He. apply elem_of_app in He as [He |]; [| done].
      exfalso. apply Hno. exists t. split_and!; [| done | done]. apply list_elem_of_fmap. by exists (expiration_ t, p).
    - pose proof (ti_size _ _ H) as Hz. rewrite Hab, zlen_app in Hz. unfold zlen in *. lia.
    - intros e p Hi. destruct (ti_timer _ _ H e p) as (t & Ht & He & _);
        [rewrite Hab; apply elem_of_app; auto |].
      exists t. split_and!; [done | done |]. intros Hib. apply (Hdis p).
      + apply list_elem_of_fmap. by exists (e, p).
      + apply list_elem_of_fmap. by exists (e, p).
    - done.
    - intros p t Ht. destruct (ti_live _ _ H _ _ Ht) as [Hi | Hi]; [| by apply not_elem_of_nil in Hi].
      rewrite Hab in Hi. apply elem_of_app in Hi as []; auto.
    - apply (ti_addr _ _ H). }
  rewrite (inv_sizes _ _ H'). cbn [assert_]. rsimp. exists a, q'. split_and!; done.
Qed.

Lemma getExpired_called now q es q' : getExpired now q = Ok (es, q') -> called q' = called q.
Proof.
  assert (He : forall es q q', erase_active es q = Ok q' -> called q' = called q).
  { induction es0 as [| x es0 IH]; intros q1 q2 H; cbn [erase_active] in H; inv_res; [done |].
    by rewrite (IH _ _ H). }
  unfold getExpired. intros H. inv_res. destruct (split_lower_bound _ _) as [a b]. inv_res.
  by apply He in Hr1.
Qed.

(** What [reset] does with one expired timer. *)
Definition after_reset (now : Z) (canceling : gset (Z * Z)) (t : Timer C) (p : Z) : option (Timer C) :=
  if repeat_ t && bool_decide ((p, sequence_ t) ∉ canceling) then Some (restart now t) else None.

Lemma reset_each_spec now es : forall q,
  tq_inv es q ->
  exists q', reset_each es now q = Ok q' /\ tq_inv [] q'
    /\ cancelingTimers_ q' = cancelingTimers_ q
    /\ callingExpiredTimers_ q' = callingExpiredTimers_ q
    /\ (forall p, p ∉ es.*2 -> heap q' !! p = heap q !! p)
    /\ (forall e p, (e, p) ∈ es -> exists t, heap q !! p = Some t
          /\ heap q' !! p = after_reset now (cancelingTimers_ q) t p).
Proof.
  induction es as [| [e p] es IH]; intros q H; cbn [reset_each].
  - exists q. split_and!; try done. intros ? ? Hx. by apply not_elem_of_nil in Hx.
  - destruct (ti_held _ _ H e p (list_elem_of_here _ _)) as (t & Ht & He & _).
    pose proof (ti_nodup _ _ H) as Hnd. cbn in Hnd. apply NoDup_cons in Hnd as [Hni Hnd].
    unfold load_timer. cbn [snd]. rewrite Ht. rsimp.
    assert (Hstep : exists q1, (if repeat_ t && bool_decide ((p, sequence_ t) ∉ cancelingTimers_ q)
         then '(_, q0) ← insert p (with_heap (<[p := restart now t]> (heap q)) q); mret q0
         else mret (with_heap (delete p (heap q)) q)) = Ok q1
      /\ tq_inv es q1 /\ cancelingTimers_ q1 = cancelingTimers_ q
      /\ callingExpiredTimers_ q1 = callingExpiredTimers_ q
      /\ (forall p', p' <> p -> heap q1 !! p' = heap q !! p')
      /\ heap q1 !! p = after_reset now (cancelingTimers_ q) t p).
    { unfold after_reset. destruct (repeat_ t && _).
      - pose proof (inv_held_restart es e p t (restart now t) q H Ht eq_refl) as H1.
        destruct (insert_spec _ _ _ _ H1) as (b & q1 & -> & Hi & _ & Hh & Hc & Hca & _). rsimp.
        exists q1. split_and!; try done; rewrite Hh; cbn [heap with_heap].
        + intros p' ?. by apply lookup_insert_ne.
        + apply lookup_insert_eq.
      - eexists. split_and!; [done | by eapply inv_held_delete | done | done | |]; cbn [heap with_heap].
        + intros p' ?. by apply lookup_delete_ne.
        + apply lookup_delete_eq. }
    destruct Hstep as (q1 & -> & H1 & Hca & Hc & Hother & Hp). rsimp.
    destruct (IH q1 H1) as (q' & -> & H' & Hca' & Hc' & Hout & Hin).
    exists q'. split_and!; [done | done | congruence | congruence | |].
    + cbn [fmap list_fmap snd]. intros p' [? ?]%not_elem_of_cons. by rewrite Hout, Hother.
    + intros e' p' [[= -> ->] | Hi]%elem_of_cons.
      * exists t. split; [done |]. by rewrite Hout, Hp.
      * destruct (Hin _ _ Hi) as (t' & Ht' & Hr). exists t'.
        assert (p' <> p). { intros ->. apply Hni, list_elem_of_fmap. by exists (e', p). }
        rewrite Hother in Ht' by done. by rewrite <- Hca.
Qed.

Variable clock : nat -> Z.

Lemma reset_called now es q q' : reset clock es now q = Ok q' -> called q' = called q.
Proof.
  assert (He : forall es q q', reset_each es now q = Ok q' -> called q' = called q).
  { induction es0 as [| x es0 IH]; intros q1 q2 H; cbn [reset_each] in H; inv_res; [done |].
    rewrite (IH _ _ H). case_match; inv_res; [| done]. destruct r1 as [b q3]. inv_res.
    by apply insert_called in Hr1. }
  unfold reset. intros H. inv_res. apply He in Hr. case_match; inv_res; exact Hr.
Qed.

Lemma reset_spec now es q :
  tq_inv es q ->
  exists q', reset clock es now q = Ok q' /\ tq_inv [] q'
    /\ callingExpiredTimers_ q' = callingExpiredTimers_ q
    /\ cancelingTimers_ q' = cancelingTimers_ q
    /\ (forall p, p ∉ es.*2 -> heap q' !! p = heap q !! p)
    /\ (forall e p, (e, p) ∈ es -> exists t, heap q !! p = Some t
          /\ heap q' !! p = after_reset now (cancelingTimers_ q) t p)
    /\ (forall e p, hd_error (timers_ q') = Some (e, p) -> 0 < e ->
          exists n, last (settimes q') = Some (howMuchTimeFromNow e (clock n))).
Proof.
  intros H. destruct (reset_each_spec now es q H) as (q1 & Hr & H1 & Hca & Hc & Hout & Hin).
  unfold reset. rewrite Hr. rsimp. destruct (timers_ q1) as [| [e p] l] eqn:El.
  - rsimp. exists q1. cbn. split_and!; try done. by rewrite El.
  - destruct (ti_timer _ _ H1 e p) as (t & Ht & He & _); [rewrite El; apply list_elem_of_here |].
    unfold load_timer. cbn [snd]. rewrite Ht. rsimp. rewrite He. unfold valid.
    destruct (Z.ltb_spec 0 e).
    + destruct (resetTimerfd_fields clock e q1) as (E1 & E2 & E3 & E4 & E5 & E6 & E7).
      eexists. split; [done |]. rewrite E1, E3, E4, E5, El.
      split_and!; try done; [by apply inv_resetTimerfd |].
      cbn. intros e' p' [= <- <-] _. eexists. exact E7.
    + exists q1. split_and!; try done. rewrite El. cbn. intros e' p' [= <- <-] ?. lia.
Qed.
End expiry.

(** ** Properties *)

Section properties.
Context {C : Type}.
Implicit Types q : TimerQueue C.
Variable clock : nat -> Z.
Variable malloc : gmap Z (Timer C) -> Z.
Hypothesis malloc_fresh : forall h, h !! malloc h = None /\ malloc h < UINTPTR_MAX.
Variable code : C -> TimerQueue C -> list (tcall C).

(** A call of [cancel] in a list of calls made while callbacks run is noted. *)
Lemma do_tcalls_notes_cancel held cs : forall q p n,
  tq_inv held q -> (exists e, (e, p) ∈ held) -> callingExpiredTimers_ q = true ->
  Cancel (mkTimerId p n) ∈ cs ->
  exists q', do_tcalls clock malloc cs q = Ok q' /\ (p, n) ∈ cancelingTimers_ q'.
Proof using malloc_fresh.
  induction cs as [| c cs IH]; intros q p n H Hheld Hc Hin; [by apply not_elem_of_nil in Hin |].
  cbn [do_tcalls].
  destruct (do_tcall_spec clock malloc malloc_fresh held c q H) as (q1 & Hq1 & H1 & (Hk1 & _ & Hk3) & _).
  rewrite Hq1. rsimp. apply elem_of_cons in Hin as [<- | Hin].
  - destruct (cancelInLoop_spec clock held (mkTimerId p n) q H) as (q2 & Hq2 & _ & _ & _ & Hif).
    cbn [do_tcall] in Hq1. rewrite Hq1 in Hq2. injection Hq2 as <-. cbn [timer_ id_sequence_] in Hif.
    rewrite decide_False in Hif by (destruct Hheld; by eapply held_not_active).
    destruct Hif as (_ & _ & Hif). rewrite Hc in Hif.
    destruct (do_tcalls_spec clock malloc malloc_fresh held cs q1 H1) as (q3 & -> & _ & (_ & _ & Hk) & _).
    exists q3. split; [done |]. apply Hk. rewrite Hif. set_solver.
  - destruct (IH q1 p n H1 Hheld) as (q' & ? & ?); [congruence | done | by exists q'].
Qed.

Lemma run_each_notes_cancel held es : forall q e p n,
  tq_inv held q -> (forall x, x ∈ es -> x ∈ held) -> callingExpiredTimers_ q = true ->
  (e, p) ∈ es ->
  (forall t q0, heap q !! p = Some t -> heap q0 !! p = Some t ->
     Cancel (mkTimerId p n) ∈ code (callback_ t) q0) ->
  exists q', run_each clock malloc code es q = Ok q' /\ (p, n) ∈ cancelingTimers_ q'.
Proof using malloc_fresh.
  induction es as [| [e1 p1] es IH]; intros q e p n H Hsub Hc Hin Hcode;
    [by apply not_elem_of_nil in Hin |].
  cbn [run_each]. destruct (ti_held _ _ H e1 p1) as (t & Ht & _); [apply Hsub, list_elem_of_here |].
  unfold run, load_timer. cbn [snd]. rewrite Ht. rsimp.
  set (q0 := with_called _ q). assert (H0 : tq_inv held q0) by (by apply (inv_proper held q)).
  destruct (do_tcalls_spec clock malloc malloc_fresh held (code (callback_ t) q0) q0 H0)
    as (q1 & Hq1 & H1 & (Hk1 & Hk2 & Hk3) & _).
  assert (Hsub' : forall x, x ∈ es -> x ∈ held) by (intros x Hx; by apply Hsub, list_elem_of_further).
  apply elem_of_cons in Hin as [[= -> ->] | Hin].
  - destruct (do_tcalls_notes_cancel held (code (callback_ t) q0) q0 p1 n H0) as (q2 & Hq2 & Hn);
      [exists e1; apply Hsub, list_elem_of_here | done | by apply Hcode |].
    rewrite Hq2. rsimp. rewrite Hq1 in Hq2. injection Hq2 as <-.
    destruct (run_each_spec clock malloc malloc_fresh code held es q1 H1 Hsub')
      as (q3 & -> & _ & (_ & _ & Hk)). exists q3. split; [done | by apply Hk].
  - rewrite Hq1. rsimp. apply (IH q1 e p n H1 Hsub'); [by rewrite Hk1 | done |].
    intros t' q3 Ht'. rewrite (Hk2 e p) in Ht' by (by apply Hsub'). by apply Hcode.
Qed.

(** C9: [handleRead] never fails an assertion or touches a freed timer, whatever
    the callbacks add or cancel, and restores the invariant.  It calls the
    callbacks of exactly the timers that were due, each once, in the order of
    their expirations, and what they add and cancel is added and cancelled, on
    the queue without the due timers ([call_all]): all that is there afterwards
    is there in the end.  Each due timer is taken out, and afterwards scheduled again
    at [now + interval] when it repeats and was not cancelled meanwhile, and freed
    otherwise.  A timer that was not due is untouched, and still scheduled, unless
    one of the callbacks called cancels it by its id.  In the end the descriptor
    is armed for the earliest timer. *)
Theorem handleRead_correct q :
  tq_inv [] q ->
  let now := clock (ticks q) in
  let due := callbacks_of (heap q) (filter (fun x => x.1 <= now) (timers_ q)) in
  exists q', handleRead clock malloc code q = Ok q' /\ tq_inv [] q'
    /\ callingExpiredTimers_ q' = false
    /\ called q' = called q ++ due
    /\ (exists q1 q2, timers_ q1 = filter (fun x => now < x.1) (timers_ q) /\ heap q1 = heap q
          /\ cancelingTimers_ q1 = ∅ /\ call_all clock malloc code due q1 = Ok q2
          /\ cancelingTimers_ q' = cancelingTimers_ q2
          /\ forall p, p ∉ (filter (fun x => x.1 <= now) (timers_ q)).*2 -> heap q' !! p = heap q2 !! p)
    /\ (forall e p, (e, p) ∈ timers_ q -> e <= now -> exists t, heap q !! p = Some t
          /\ heap q' !! p = after_reset now (cancelingTimers_ q') t p)
    /\ (forall e p t, (e, p) ∈ timers_ q -> now < e -> heap q !! p = Some t ->
          Forall (fun cb => forall q0, Cancel (mkTimerId p (sequence_ t)) ∉ code cb q0) due ->
          heap q' !! p = Some t /\ (e, p) ∈ timers_ q')
    /\ (forall e p, hd_error (timers_ q') = Some (e, p) -> 0 < e ->
          exists n, last (settimes q') = Some (howMuchTimeFromNow e (clock n))).
Proof using malloc_fresh.
  intros H now due. unfold handleRead, read_clock.
  assert (H0 : tq_inv [] (with_ticks (S (ticks q)) q)) by (by apply (inv_proper [] q)).
  destruct (getExpired_spec now _ H0) as (es & q1 & He1 & Hsplit & Hle & Hgt & H1 & Hh1 & _).
  assert (Hc1 : called q1 = called q) by (by apply getExpired_called in He1).
  fold now. rewrite He1. rsimp.
  cbn [timers_ heap with_ticks] in Hsplit, Hh1.
  assert (Ees : filter (fun x => x.1 <= now) (timers_ q) = es).
  { rewrite Hsplit, filter_app, (filter_all (fun x => x.1 <= now) es) by done.
    rewrite (filter_none (fun x => x.1 <= now)), app_nil_r; [done |].
    eapply Forall_impl; [exact Hgt |]. cbn. lia. }
  assert (Edue : due = callbacks_of (heap q) es) by (by subst due; rewrite Ees).
  assert (Erest : timers_ q1 = filter (fun x => now < x.1) (timers_ q)).
  { rewrite Hsplit, filter_app, (filter_none (fun x => now < x.1) es), (filter_all (fun x => now < x.1) (timers_ q1)); try done.
    eapply Forall_impl; [exact Hle |]. cbn. lia. }
  assert (H1' : tq_inv es (with_canceling ∅ (with_calling true q1))) by (by apply (inv_proper es q1)).
  destruct (run_each_spec clock malloc malloc_fresh code es es _ H1') as (q2 & Hr2 & H2 & (_ & Hk & _));
    [done |].
  pose proof (run_each_called clock malloc malloc_fresh code es es _ _ H1' ltac:(done) Hr2) as Hc2.
  assert (Hkeep := fun p t => run_each_keeps_timer clock malloc malloc_fresh code es es p t _ q2 H1'
    (fun _ h => h)).
  pose proof (run_each_call_all clock malloc malloc_fresh code es es _ H1' (fun _ h => h)) as Hall.
  cbn [heap called with_canceling with_calling] in Hk, Hc2, Hkeep, Hall. rewrite Hh1, ?Hc1 in *.
  rewrite Hr2. rsimp.
  assert (H2' : tq_inv es (with_calling false q2)) by (by apply (inv_proper es q2)).
  destruct (reset_spec clock now es _ H2') as (q' & Hr & H' & Hc & Hca & Hout & Hin & Harm).
  rewrite Hr. apply reset_called in Hr. exists q'.
  rewrite Hr2 in Hall.
  split_and!; [done | done | by rewrite Hc | by rewrite Hr, Edue | | | | done].
  { exists (with_canceling ∅ (with_calling true q1)), q2. rewrite Edue, Ees. split; [exact Erest |]. split; [exact Hh1 |]. split; [done |].
    split; [symmetry; exact Hall |]. split; [exact Hca | exact Hout]. }
  - intros e p Hi Hle'. rewrite Hsplit in Hi. apply elem_of_app in Hi as [Hi | Hi].
    + destruct (Hin e p Hi) as (t & Ht & Hr'). exists t. cbn [heap with_calling] in Ht.
      rewrite (Hk e p Hi) in Ht. split; [done |]. by rewrite Hr', Hca.
    + rewrite Forall_forall in Hgt. specialize (Hgt _ Hi). cbn in Hgt. lia.
  - intros e p t Hi Hlt Ht Hn. rewrite Edue in Hn. specialize (Hkeep p t Ht Hn Hr2).
    destruct (ti_timer _ _ H e p Hi) as (t' & Ht' & He & _). rewrite Ht in Ht'. injection Ht' as <-.
    assert (Hp : heap q' !! p = Some t).
    { rewrite Hout; [done |]. intros ([e1 p1] & -> & Hi1)%list_elem_of_fmap.
      assert (e1 = e) as -> by (eapply timer_entry_unique; [exact H | rewrite Hsplit, elem_of_app; by left | done]).
      rewrite Forall_forall in Hle. specialize (Hle _ Hi1). cbn in Hle. lia. }
    split; [done |]. destruct (ti_live _ _ H' _ _ Hp) as [Hl | Hl%not_elem_of_nil]; [| done]. by rewrite <- He.
Qed.

(** [getExpired] returns exactly the entries whose time has come, in the order
    of their expirations, and leaves exactly the others. *)
Theorem getExpired_exactly_due now q :
  tq_inv [] q ->
  exists q', getExpired now q
      = Ok (filter (fun x => x.1 <= now) (timers_ q), q')
    /\ timers_ q' = filter (fun x => now < x.1) (timers_ q) /\ heap q' = heap q.
Proof using.
  clear malloc malloc_fresh clock code.
  intros H. destruct (getExpired_spec now q H) as (es & q' & -> & Hs & Hle & Hgt & _ & Hh & _).
  exists q'. rewrite Hs, !filter_app.
  rewrite (filter_all (fun x => x.1 <= now) es), (filter_none (fun x => x.1 <= now) (timers_ q')),
    (filter_none (fun x => now < x.1) es), (filter_all (fun x => now < x.1) (timers_ q')); try done.
  - by rewrite app_nil_r.
  - eapply Forall_impl; [exact Hle |]. cbn. lia.
  - eapply Forall_impl; [exact Hgt |]. cbn. lia.
Qed.

(** [cancel] frees the scheduled timer that has both the address and the
    sequence number of the id, and touches no other: an id kept after its timer
    is gone does nothing, even when a new timer reuses the address. *)
Theorem cancel_only_named_timer held id q :
  tq_inv held q ->
  exists q', cancel id q = Ok q' /\ tq_inv held q'
    /\ forall p, heap q' !! p
         = if decide (p = timer_ id /\ (p, id_sequence_ id) ∈ activeTimers_ q) then None else heap q !! p.
Proof using.
  clear malloc malloc_fresh code clock.
  intros H. destruct (cancelInLoop_spec (fun _ => 0) held id q H) as (q' & Hq & H' & _ & _ & Hif).
  exists q'. split_and!; [done | done |]. intros p.
  destruct (decide (_ ∈ activeTimers_ q)) as [Hin | Hnin].
  - destruct Hif as (t & _ & _ & -> & _). destruct (decide (p = timer_ id)) as [-> |].
    + rewrite lookup_delete_eq. by rewrite decide_True.
    + rewrite lookup_delete_ne by done. rewrite decide_False; [done |]. by intros [].
  - destruct Hif as (_ & -> & _). rewrite decide_False; [done |]. by intros [-> ?].
Qed.

(** A repeating timer that cancels itself from its own callback is not
    scheduled again, although [cancel] cannot find it among the active timers
    while it runs. *)
Theorem self_cancel_stops_repetition q e p t :
  tq_inv [] q -> (e, p) ∈ timers_ q -> e <= clock (ticks q) -> heap q !! p = Some t ->
  (forall q0, Cancel (mkTimerId p (sequence_ t)) ∈ code (callback_ t) q0) ->
  exists q', handleRead clock malloc code q = Ok q' /\ heap q' !! p = None
    /\ forall x, (x, p) ∉ timers_ q'.
Proof using malloc_fresh.
  intros H Hi Hdue Ht Hcode. unfold handleRead, read_clock.
  assert (H0 : tq_inv [] (with_ticks (S (ticks q)) q)) by (by apply (inv_proper [] q)).
  destruct (getExpired_spec (clock (ticks q)) _ H0)
    as (es & q1 & -> & Hsplit & Hle & Hgt & H1 & Hh1 & _). rsimp.
  cbn [timers_ heap with_ticks] in Hsplit, Hh1.
  rewrite Hsplit in Hi. apply elem_of_app in Hi as [Hi | Hi].
  2: { rewrite Forall_forall in Hgt. specialize (Hgt _ Hi). cbn in Hgt. lia. }
  assert (H1' : tq_inv es (with_canceling ∅ (with_calling true q1))) by (by apply (inv_proper es q1)).
  destruct (run_each_spec clock malloc malloc_fresh code es es _ H1') as (q2 & Hq2 & H2 & (_ & Hk & _));
    [done |].
  destruct (run_each_notes_cancel es es _ e p (sequence_ t) H1') as (q2' & Hq2' & Hn);
    [done | done | done | |].
  { cbn [heap with_calling with_canceling]. rewrite Hh1. intros t' q0 Ht' _.
    rewrite Ht in Ht'. by injection Ht' as <-. }
  rewrite Hq2 in Hq2'. injection Hq2' as <-. rewrite Hq2. rsimp.
  assert (H2' : tq_inv es (with_calling false q2)) by (by apply (inv_proper es q2)).
  destruct (reset_spec clock (clock (ticks q)) es _ H2') as (q' & Hr & H' & _ & _ & _ & Hin & _).
  rewrite Hr. assert (Hnone : heap q' !! p = None).
  { destruct (Hin e p Hi) as (t' & Ht' & ->). cbn [heap with_calling] in Ht'.
    rewrite (Hk e p Hi) in Ht'. cbn [heap with_calling with_canceling] in Ht'. rewrite Hh1 in Ht'.
    rewrite Ht in Ht'. injection Ht' as <-. unfold after_reset. cbn [cancelingTimers_ with_calling].
    rewrite bool_decide_eq_false_2 by (intros Hx; by apply Hx). by rewrite andb_false_r. }
  exists q'. split_and!; [done | done |]. intros x Hx.
  destruct (ti_timer _ _ H' _ _ Hx) as (t' & ? & _). congruence.
Qed.

(** Between expirations the descriptor stays armed early enough: adding and
    cancelling timers in any order keeps the last timerfd_settime(2) for an
    expiration that is not after the earliest timer. *)
Theorem calls_keep_timerfd_armed cs q :
  tq_inv [] q -> armed_by clock q ->
  exists q', do_tcalls clock malloc cs q = Ok q' /\ tq_inv [] q' /\ armed_by clock q'.
Proof using malloc_fresh.
  intros H Ha. destruct (do_tcalls_spec clock malloc malloc_fresh [] cs q H) as (q' & ? & ? & _ & ?).
  exists q'. auto.
Qed.
End properties.

(** The relative time given to the kernel is never less than 100 us, is
    well-formed ([tv_nsec] below a second) and is otherwise exactly the time
    left. *)
Theorem howMuchTimeFromNow_bounds when_ now :
  - 2 ^ 63 <= when_ - now < 2 ^ 63 ->
  let '(s, ns) := howMuchTimeFromNow when_ now in
  0 <= s /\ 0 <= ns < 1000000000 /\ s * 1000000000 + ns = Z.max 100 (when_ - now) * 1000.
Proof.
  intros H. unfold howMuchTimeFromNow, kMicroSecondsPerSecond. rewrite s64_small by done.
  assert ((if when_ - now <? 100 then 100 else when_ - now) = Z.max 100 (when_ - now)) as ->
    by (destruct (Z.ltb_spec (when_ - now) 100); lia).
  set (m := Z.max 100 (when_ - now)). assert (0 <= m) by lia.
  rewrite Z.quot_div_nonneg, Z.rem_mod_nonneg by lia.
  pose proof (Z.div_mod m 1000000 ltac:(lia)). pose proof (Z.mod_pos_bound m 1000000 ltac:(lia)).
  pose proof (Z.div_pos m 1000000). change (1000 * 1000) with 1000000. lia.
Qed.

(** ** A queue with three timers: number 1 repeats every 1.5 s and cancels
    itself, number 2 is due, number 3 is not. *)

Definition demo_clock (n : nat) : Z := 1000000 + Z.of_nat n.
(** Below every address in use. *)
Definition demo_malloc (h : gmap Z (Timer nat)) : Z := map_fold (fun k _ m => Z.min k m) 1000 h - 1.

Lemma demo_malloc_fresh h : h !! demo_malloc h = None /\ demo_malloc h < UINTPTR_MAX.
Proof.
  unfold demo_malloc, UINTPTR_MAX.
  assert (forall m, m = map_fold (fun k (_ : Timer nat) m => Z.min k m) 1000 h ->
    m <= 1000 /\ forall k, is_Some (h !! k) -> m <= k) as Hm.
  { intros m ->. apply (map_fold_weak_ind (fun m h => m <= 1000 /\ forall k, is_Some (h !! k) -> m <= k)).
    - split; [lia |]. intros k [? Hk]. by rewrite lookup_empty in Hk.
    - intros i x h' r Hi [Hr Hk]. split; [lia |]. intros k [y Hy].
      apply lookup_insert_Some in Hy as [[<- _] | [_ Hy]]; [lia |].
      specialize (Hk k (ex_intro _ y Hy)). lia. }
  destruct (Hm _ eq_refl) as [H1 H2]. split; [| lia].
  apply eq_None_not_Some. intros Hs. specialize (H2 _ Hs). lia.
Qed.

Definition demo_timer (n : nat) (e : Z) (i : double) : Timer nat := Timer_new n e i (Z.of_nat n).
Definition demo_tq : TimerQueue nat :=
  {| timers_ := [(900000, 11); (1000000, 12); (1000001, 13)];
     activeTimers_ := {[(11, 1); (12, 2); (13, 3)]};
     callingExpiredTimers_ := false; cancelingTimers_ := ∅;
     heap := {[11 := demo_timer 1 900000 dbl_1_5; 12 := demo_timer 2 1000000 (dbl_of_Z 0);
               13 := demo_timer 3 1000001 (dbl_of_Z 0)]};
     s_numCreated_ := 3; ticks := 0; settimes := [howMuchTimeFromNow 900000 (demo_clock 7)];
     called := [] |}.
Definition demo_code (c : nat) (_ : TimerQueue nat) : list (tcall nat) :=
  match c with
  | 1%nat => [Cancel (mkTimerId 11 1)]
  | 2%nat => [RunAt 4%nat 2000000 (dbl_of_Z 0)]
  | _ => []
  end.

Lemma demo_tq_inv : tq_inv [] demo_tq.
Proof.
  split; cbn [demo_tq timers_ activeTimers_ heap].
  - repeat (constructor; [| repeat constructor]). constructor.
  - intros e p. rewrite !elem_of_cons. intros [[= -> ->] | [[= -> ->] | [[= -> ->] | []%not_elem_of_nil]]];
      (eexists; split; [reflexivity |]; split; [reflexivity |]); vm_compute; set_solver.
  - intros p n. rewrite !elem_of_union, !elem_of_singleton.
    intros [[[= -> ->] | [= -> ->]] | [= -> ->]];
      (eexists; split; [reflexivity |]; split; [reflexivity |]); rewrite !elem_of_cons; auto.
  - reflexivity.
  - intros e p []%not_elem_of_nil.
  - constructor.
  - intros p t. rewrite !lookup_insert_Some, lookup_singleton_Some.
    intros [[<- <-] | [_ [[<- <-] | [_ [<- <-]]]]]; left; rewrite !elem_of_cons; auto.
  - intros p t. rewrite !lookup_insert_Some, lookup_singleton_Some.
    intros [[<- <-] | [_ [[<- <-] | [_ [<- <-]]]]]; reflexivity.
Qed.

Lemma handleRead_correct_witness :
  exists q', handleRead demo_clock demo_malloc demo_code demo_tq = Ok q' /\ tq_inv [] q'
    /\ called q' = [1; 2]%nat /\ (1000001, 13) ∈ timers_ q'.
Proof.
  destruct (handleRead_correct demo_clock demo_malloc demo_malloc_fresh demo_code demo_tq demo_tq_inv)
    as (q' & H & Hi & _ & Hc & _ & _ & Hn & _).
  exists q'. split; [exact H |]. split; [exact Hi |]. split; [exact Hc |].
  refine (proj2 (Hn 1000001 13 (demo_timer 3 1000001 (dbl_of_Z 0)) _ _ _ _)).
  - cbn [demo_tq timers_]. rewrite !elem_of_cons. auto.
  - reflexivity.
  - reflexivity.
  - assert (forall q0, Cancel (mkTimerId 13 3) ∉ demo_code 1%nat q0) by (intros q0 [[=] | []%not_elem_of_nil]%elem_of_cons).
    assert (forall q0, Cancel (mkTimerId 13 3) ∉ demo_code 2%nat q0) by (intros q0 [[=] | []%not_elem_of_nil]%elem_of_cons).
    constructor; [done |]. constructor; [done |]. constructor.
Defined.

Lemma getExpired_exactly_due_witness :
  exists q', getExpired 1000000 demo_tq = Ok ([(900000, 11); (1000000, 12)], q')
    /\ timers_ q' = [(1000001, 13)].
Proof.
  destruct (getExpired_exactly_due 1000000 demo_tq demo_tq_inv) as (q' & H & Ht & _).
  exists q'. rewrite H, Ht. split; vm_compute; reflexivity.
Defined.

(** The address is right, the sequence number is of a timer long gone. *)
Lemma cancel_only_named_timer_witness :
  exists q', cancel (mkTimerId 13 9) demo_tq = Ok q' /\ heap q' !! 13 = heap demo_tq !! 13.
Proof.
  destruct (cancel_only_named_timer [] (mkTimerId 13 9) demo_tq demo_tq_inv) as (q' & H & _ & Hp).
  exists q'. split; [exact H |]. rewrite (Hp 13). vm_compute. reflexivity.
Defined.

Lemma self_cancel_stops_repetition_witness :
  exists q', handleRead demo_clock demo_malloc demo_code demo_tq = Ok q' /\ heap q' !! 11 = None.
Proof.
  destruct (self_cancel_stops_repetition demo_clock demo_malloc demo_malloc_fresh demo_code demo_tq
    900000 11 (demo_timer 1 900000 dbl_1_5) demo_tq_inv) as (q' & H & Hn & _).
  - apply list_elem_of_here.
  - vm_compute. discriminate.
  - reflexivity.
  - intros q0. apply list_elem_of_here.
  - exists q'. split; [exact H | exact Hn].
Defined.

Lemma calls_keep_timerfd_armed_witness :
  exists q', do_tcalls demo_clock demo_malloc
      [Cancel (mkTimerId 11 1); RunAt 5%nat 950000 (dbl_of_Z 0)] demo_tq = Ok q'
    /\ armed_by demo_clock q'.
Proof.
  destruct (calls_keep_timerfd_armed demo_clock demo_malloc demo_malloc_fresh
    [Cancel (mkTimerId 11 1); RunAt 5%nat 950000 (dbl_of_Z 0)] demo_tq demo_tq_inv)
    as (q' & H & _ & Ha).
  - intros e p [= <- <-]. exists 900000, 7%nat. split; [lia | reflexivity].
  - exists q'. split; [exact H | exact Ha].
Defined.

Lemma howMuchTimeFromNow_bounds_witness :
  let '(s, ns) := howMuchTimeFromNow 3500000 1000000 in s * 1000000000 + ns = 2500000000.
Proof.
  pose proof (howMuchTimeFromNow_bounds 3500000 1000000 ltac:(lia)) as H. vm_compute in H |- *.
  apply H.
Defined.
