(* ===== verification/EventLoopThread.v ===== *)
(** * EventLoopThread: [muduo/net/EventLoopThread.cc] and [muduo/base/Thread.cc]

    A thread that runs an event loop, and how its owner gets the loop, quits
    it and joins the thread: the steps of the two threads, and of others that
    call [quit], in every interleaving.  Of the [EventLoop], which has its own
    file, the flags that [loop] and [quit] exchange. *)
From S2P Require Import Prelude.

(** ** Thread *)

(*@ muduo/muduo/base/Thread.h 50-66 Thread *)
Record Thread := mkThread { started_ : bool; name_ : list byte }.

(*@ muduo/muduo/base/Thread.cc 119-128 Thread::Thread *)
Definition Thread_new (n : list byte) : Thread := mkThread false n.

(** [pthread_create] succeeds, or the process ends. *)
(*@ muduo/muduo/base/Thread.cc 137-147 Thread::start *)
Definition Thread_start (created : bool) (t : Thread) : res Thread :=
  assert_ (negb (started_ t));;
  if created then mret (mkThread true (name_ t)) else Err FatalLog.

(** The rest of [join] is [pthread_join]: to wait. *)
(*@ muduo/muduo/base/Thread.cc 150-154 Thread::join *)
Definition Thread_join (t : Thread) : res unit := assert_ (started_ t).

(** How [func_] ends; the name the thread has then. *)
Inductive func_end : Type := Returned | ThrewException | ThrewStdException | ThrewOther.

(*@ muduo/muduo/base/Thread.cc 167-201 Thread::runInThread *)
Definition runInThread (func_ : func_end) : res (list byte) :=
  match func_ with
  | Returned => mret (bs "finished")
  | ThrewException | ThrewStdException => Err FatalLog
  | ThrewOther => Err Uncaught
  end.

(** ** EventLoopThread *)

(** [loop_]: whether it points to the loop, or is null. *)
(*@ muduo/muduo/net/EventLoopThread.h 41-49 EventLoopThread *)
Record EventLoopThread := mkELT { loop_ : bool; exiting_ : bool; thread_ : Thread }.

(*@ muduo/muduo/net/EventLoopThread.cc 20-29 EventLoopThread::EventLoopThread *)
Definition EventLoopThread_new : EventLoopThread := mkELT false false (Thread_new []).

(** The flags of the loop object on the stack of [threadFunc]. *)
Record loop_object := mkObject { quit_ : bool; looping_ : bool }.

(** [EventLoop::loop] starts with these assignments, and tests [quit_] before
    each turn. *)
(*@ muduo/muduo/net/EventLoop.cc 108-116 EventLoop::loop *)
Definition loop_enter (o : loop_object) : res loop_object :=
  assert_ (negb (looping_ o));; mret (mkObject false true).
Definition loop_quit (o : loop_object) : loop_object := mkObject true (looping_ o).

(** Where [threadFunc] is. *)
Inductive tpc : Type := NotStarted | Creating | Initialising | Publishing | Entering | Looping | Finished.

(** Where the owner is: before [startLoop], in it (wanting the mutex or
    asleep in [wait]), after it, in the destructor's [join], after it. *)
Inductive opc : Type := Before | Checking | Asleep | Started | Joining | Destroyed.

(** [object]: the loop object while it exists; [initialised]: whether the
    callback has run (not in the code). *)
Record sys := mkSys {
  self : EventLoopThread;
  object : option loop_object;
  thr : tpc;
  owner : opc;
  initialised : bool
}.

(** [startLoop] up to its critical section. *)
(*@ muduo/muduo/net/EventLoopThread.cc 39-55 EventLoopThread::startLoop *)
Definition startLoop (e : EventLoopThread) : res EventLoopThread :=
  assert_ (negb (started_ (thread_ e)));;
  t ← Thread_start true (thread_ e);
  mret (mkELT (loop_ e) (exiting_ e) t).

(** One run of the critical section of [startLoop]: the test of the loop. *)
Definition startLoop_check (e : EventLoopThread) : opc := if loop_ e then Started else Asleep.

(** The statements of [threadFunc], one by one; [notify] wakes the owner. *)
(*@ muduo/muduo/net/EventLoopThread.cc 58-76 EventLoopThread::threadFunc *)
Definition threadFunc (x : sys) : option (res sys) :=
  match thr x with
  | NotStarted | Finished => None
  | Creating => Some (mret (mkSys (self x) (Some (mkObject false false)) Initialising (owner x) (initialised x)))
  | Initialising => Some (mret (mkSys (self x) (object x) Publishing (owner x) true))
  | Publishing =>
      let e := mkELT true (exiting_ (self x)) (thread_ (self x)) in
      Some (mret (mkSys e (object x) Entering (match owner x with Asleep => Checking | o => o end) (initialised x)))
  | Entering =>
      Some (match object x with
            | Some o => o ← loop_enter o; mret (mkSys (self x) (Some o) Looping (owner x) (initialised x))
            | None => Err BadAccess
            end)
  | Looping =>
      Some (match object x with
            | Some o => if quit_ o then mret (mkSys (self x) None Finished (owner x) (initialised x)) else mret x
            | None => Err BadAccess
            end)
  end.

(** The destructor up to the wait in [join]. *)
(*@ muduo/muduo/net/EventLoopThread.cc 31-36 EventLoopThread::~EventLoopThread *)
Definition EventLoopThread_dtor (x : sys) : res sys :=
  let e := mkELT (loop_ (self x)) true (thread_ (self x)) in
  if negb (loop_ e) then Err BadAccess
  else
    match object x with
    | None => Err BadAccess
    | Some o => Thread_join (thread_ e);; mret (mkSys e (Some (loop_quit o)) (thr x) Joining (initialised x))
    end.

Definition sys_new : sys := mkSys EventLoopThread_new None NotStarted Before false.

Inductive step : sys -> sys -> Prop :=
| step_start x e : owner x = Before -> startLoop (self x) = Ok e ->
    step x (mkSys e (object x) Creating Checking (initialised x))
| step_check x : owner x = Checking ->
    step x (mkSys (self x) (object x) (thr x) (startLoop_check (self x)) (initialised x))
| step_spurious x : owner x = Asleep -> step x (mkSys (self x) (object x) (thr x) Checking (initialised x))
| step_thread x y : threadFunc x = Some (Ok y) -> step x y
| step_destroy x y : owner x = Started -> EventLoopThread_dtor x = Ok y -> step x y
| step_joined x : owner x = Joining -> thr x = Finished ->
    step x (mkSys (self x) (object x) (thr x) Destroyed (initialised x)).

(** Somebody who was given the loop, by the callback or by the owner, quits it. *)
Inductive user_step : sys -> sys -> Prop :=
| user_other x y : step x y -> user_step x y
| user_quit x o : object x = Some o ->
    user_step x (mkSys (self x) (Some (loop_quit o)) (thr x) (owner x) (initialised x)).

(** ** Invariants *)






Lemma step_is_user_step x y : rtc step x y -> rtc user_step x y.
Proof. induction 1 as [| x y z H _ IH]; [done |]. eapply rtc_l; [by apply user_other | done]. Qed.





(** *** The wait of [startLoop] *)








(** *** The wait of the destructor *)




(** The owner waits for a thread that has not entered the loop, or runs it
    with [quit_] cleared. *)
Definition quit_lost (x : sys) : Prop :=
  owner x = Joining
  /\ ((thr x = Entering /\ is_Some (object x)) \/ (thr x = Looping /\ quit_ <$> object x = Some false)).

Lemma quit_lost_step x y : step x y -> quit_lost x -> quit_lost y.
Proof.
  intros Hs [Ho Ht]. destruct Hs as [x e Eo E | x Eo | x Eo | x y E | x y Eo E | x Eo Et]; try congruence.
  - unfold threadFunc in E. destruct Ht as [[Et [o Eo]] | [Et Hobj]]; rewrite Et in E.
    + rewrite Eo in E. destruct o as [q []]; [done |]. injection E as <-. split; [done | by right].
    + destruct (object x) as [[q l] |] eqn:Eo; [| done]. injection Hobj as ->. injection E as <-.
      split; [done |]. right. by rewrite Eo.
  - destruct Ht as [[? _] | [? _]]; congruence.
Qed.

Lemma quit_lost_forever x y : rtc step x y -> quit_lost x -> quit_lost y.
Proof. induction 1 as [| x y z Hxy _ IH]; [done |]. intros H. by apply IH, (quit_lost_step x). Qed.

(** C26: What goes wrong.  [loop] clears [quit_] when it starts, so an owner that
    destroys the object right after [startLoop] may quit the loop before the
    thread has entered it: the quit is lost and [join] never returns.  [loop_]
    is not reset when [threadFunc] ends, so when somebody else has quit the
    loop the destructor uses a loop that is gone; and it uses the null pointer
    when [startLoop] was not called. *)
Theorem destructor_hazards :
  (exists x, rtc step sys_new x /\ owner x = Joining /\ quit_ <$> object x = Some true
     /\ forall y, rtc step x y -> owner y = Joining)
  /\ (exists x, rtc user_step sys_new x /\ owner x = Started /\ EventLoopThread_dtor x = Err BadAccess)
  /\ EventLoopThread_dtor sys_new = Err BadAccess.
Proof.
  set (e := mkELT true false (mkThread true [])).
  assert (Hrun : rtc step sys_new (mkSys e (Some (mkObject false false)) Entering Started true)).
  { eapply rtc_l; [eapply step_start; reflexivity |]. do 3 (eapply rtc_l; [apply step_thread; reflexivity |]).
    eapply rtc_l; [apply step_check; reflexivity |]. apply rtc_refl. }
  split; [| split; [| reflexivity]].
  - exists (mkSys (mkELT true true (mkThread true [])) (Some (mkObject true false)) Entering Joining true).
    split; [eapply rtc_r; [exact Hrun | by apply step_destroy] |]. split; [done |]. split; [done |].
    intros y Hy. apply (quit_lost_forever _ _ Hy). split; [done |]. left. split; [done | by eexists].
  - exists (mkSys e None Finished Started true). split; [| done].
    etrans; [apply step_is_user_step, Hrun |].
    eapply rtc_l; [apply user_other, step_thread; reflexivity |].
    eapply rtc_l; [eapply user_quit; reflexivity |].
    eapply rtc_l; [apply user_other, step_thread; reflexivity |]. apply rtc_refl.
Qed.

