(* ===== verification/TcpConnection.v ===== *)
(** * TcpConnection: one connection driven by its loop

    [muduo/net/TcpConnection.h], [TcpConnection.cc].  The world is the loop
    (with the connection's channel and poller), the connection, the socket in
    the kernel and the application's state.  The application's callbacks are
    arbitrary programs of calls to the connection's public API.  Closures that
    the connection puts into the loop are the constructors of [task]; the
    callbacks it puts into its channel those of [conn_cb]. *)
From S2P Require Import Prelude Buffer Channel Poller EPollPoller EventLoop.

(** ** The socket in the kernel *)

Definition EWOULDBLOCK : Z := 11.
Definition EPIPE : Z := 32.

(** write(2): the result, errno, and the socket; [sock_wire] are the bytes it
    has taken over, [sock_fin] whether its sending side was shut down,
    [sock_read] the bytes it has delivered. *)
Class Socket (K : Type) := {
  sock_write : K -> list byte -> Z * Z * K;
  sock_readv : K -> Z -> readv_result * K;
  sock_shutdownWrite : K -> K;
  sock_wire : K -> list byte;
  sock_fin : K -> bool;
  sock_read : K -> list byte
}.

Class SocketLaws (K : Type) `{Socket K} := {
  write_spec k d :
    let '(n, _, k') := sock_write k d in
    n <= zlen d /\ sock_wire k' = sock_wire k ++ ztake n d /\ sock_fin k' = sock_fin k
    /\ sock_read k' = sock_read k;
  (** readv(2) into the writable tail and the 64 KB on the stack *)
  readv_spec k n :
    let '(r, k') := sock_readv k n in
    (forall d, 0 <= n -> r = ReadvOk d -> zlen d <= n + kExtraBuf)
    /\ sock_wire k' = sock_wire k /\ sock_fin k' = sock_fin k
    /\ sock_read k' = sock_read k ++ match r with ReadvOk d => d | ReadvError _ => [] end;
  shutdown_spec k :
    sock_wire (sock_shutdownWrite k) = sock_wire k /\ sock_fin (sock_shutdownWrite k) = true
    /\ sock_read (sock_shutdownWrite k) = sock_read k
}.

(*@ muduo/muduo/net/TcpConnection.h 126-126 TcpConnection::StateE *)
Inductive StateE : Type := kDisconnected | kConnecting | kConnected | kDisconnecting.
#[export] Instance StateE_eq_dec : EqDecision StateE.
Proof. solve_decision. Defined.

Definition is_state (a b : StateE) : bool := bool_decide (a = b).

(** The callbacks in the channel, and the closures in the loop's queue. *)
Inductive conn_cb : Type := CbRead | CbWrite | CbClose | CbError.
Inductive task : Type :=
| TSendInLoop (message : list byte)
| TShutdownInLoop
| TWriteComplete
| THighWaterMark (size : Z)
| TConnectEstablished
| TConnectDestroyed.

(** The two optional callbacks are represented by whether they are set;
    what they do is a parameter below. *)
(*@ muduo/muduo/net/TcpConnection.h 143-183 TcpConnection *)
Record TcpConnection : Type := mkConn {
  state_ : StateE;
  channel_ : chan_id;
  writeCompleteCallback_ : bool;
  highWaterMarkCallback_ : bool;
  highWaterMark_ : Z;
  inputBuffer_ : Buffer;
  outputBuffer_ : Buffer
}.

(*@ muduo/muduo/net/TcpConnection.h 140-140 TcpConnection::setState *)
Definition setState (s : StateE) (t : TcpConnection) : TcpConnection :=
  mkConn s (channel_ t) (writeCompleteCallback_ t) (highWaterMarkCallback_ t) (highWaterMark_ t)
    (inputBuffer_ t) (outputBuffer_ t).
Definition with_input (b : Buffer) (t : TcpConnection) : TcpConnection :=
  mkConn (state_ t) (channel_ t) (writeCompleteCallback_ t) (highWaterMarkCallback_ t)
    (highWaterMark_ t) b (outputBuffer_ t).
Definition with_output (b : Buffer) (t : TcpConnection) : TcpConnection :=
  mkConn (state_ t) (channel_ t) (writeCompleteCallback_ t) (highWaterMarkCallback_ t)
    (highWaterMark_ t) (inputBuffer_ t) b.

(** The callback that goes with the mark is a parameter below. *)
(*@ muduo/muduo/net/TcpConnection.h 102-103 TcpConnection::setHighWaterMarkCallback *)
Definition setHighWaterMarkCallback (n : Z) (t : TcpConnection) : TcpConnection :=
  mkConn (state_ t) (channel_ t) (writeCompleteCallback_ t) true n (inputBuffer_ t) (outputBuffer_ t).

(** What an application calls on a connection from its callbacks: [SendBuffer]
    is [conn->send(buf)] with the input buffer it was called with, [Retrieve n]
    consumes at most [n] bytes of it. *)
Inductive cmd : Type :=
| Send (message : list byte)
| SendBuffer
| Shutdown
| Retrieve (n : Z)
| RetrieveAll
| SetHighWaterMark (n : Z).

Section conn.
Context {P E K A : Type} `{!EventFd E, !Socket K, !PollerOps (loop_cb conn_cb) P}.

Record rest : Type := mkRest { conn : TcpConnection; sock : K; app : A }.
Local Abbreviation Loop := (EventLoop conn_cb task P E).
Local Abbreviation world := (Loop * rest)%type.

Definition the_conn (w : world) : TcpConnection := conn w.2.
Definition with_lp (lp : Loop) (w : world) : world := (lp, w.2).
Definition with_conn (t : TcpConnection) (w : world) : world := (w.1, mkRest t (sock w.2) (app w.2)).
Definition with_sock (k : K) (w : world) : world := (w.1, mkRest (conn w.2) k (app w.2)).
Definition with_app (a : A) (w : world) : world := (w.1, mkRest (conn w.2) (sock w.2) a).

(** [loop_->queueInLoop(...)] and operations of the channel, in this world. *)
Definition queue (tid : Z) (t : task) (w : world) : world := with_lp (queueInLoop tid t w.1) w.
Definition on_channel (op : Z -> chan_id -> Loop -> res Loop) (tid : Z) (w : world) : res world :=
  lp ← op tid (channel_ (the_conn w)) w.1; mret (with_lp lp w).
Definition chan_isWriting (w : world) : res bool :=
  ch ← load_chan (channel_ (the_conn w)) w.1; mret (isWriting ch).

(** ** Sending *)

(*@ muduo/muduo/net/TcpConnection.cc 160-231 TcpConnection::sendInLoop *)
Definition sendInLoop (tid : Z) (data : list byte) (w : world) : res world :=
  assertInLoopThread tid w.1;;
  let len := zlen data in
  if is_state (state_ (the_conn w)) kDisconnected then mret w
  else
    writing ← chan_isWriting w;
    let '(nwrote, remaining, error, w) :=
      if negb writing && (readableBytes (outputBuffer_ (the_conn w)) =? 0)
      then
        let '(nwrote, errno, k) := sock_write (sock w.2) data in
        let w := with_sock k w in
        if 0 <=? nwrote
        then
          let remaining := u64 (len - nwrote) in
          let w := if (remaining =? 0) && writeCompleteCallback_ (the_conn w)
                   then queue tid TWriteComplete w else w in
          (nwrote, remaining, false, w)
        else (0, len, negb (errno =? EWOULDBLOCK) && (errno =? EPIPE), w)
      else (0, len, false, w) in
    assert_ (remaining <=? len);;
    if negb error && (0 <? remaining)
    then
      let oldLen := readableBytes (outputBuffer_ (the_conn w)) in
      let w := if (highWaterMark_ (the_conn w) <=? u64 (oldLen + remaining))
                  && (oldLen <? highWaterMark_ (the_conn w))
                  && highWaterMarkCallback_ (the_conn w)
               then queue tid (THighWaterMark (u64 (oldLen + remaining))) w else w in
      text ← mem_read nwrote (nwrote + remaining) data;
      b ← append (outputBuffer_ (the_conn w)) text;
      let w := with_conn (with_output b (the_conn w)) w in
      writing ← chan_isWriting w;
      if negb writing then on_channel enableWriting tid w else mret w
    else mret w.

(** [send]: the three overloads differ only in how the bytes are passed; from
    another thread they are copied into the closure. *)
(*@ muduo/muduo/net/TcpConnection.cc 93-131 TcpConnection::send *)
Definition send (tid : Z) (data : list byte) (w : world) : res world :=
  if is_state (state_ (the_conn w)) kConnected
  then if isInLoopThread tid w.1 then sendInLoop tid data w
       else mret (queue tid (TSendInLoop data) w)
  else mret w.

(** The [Buffer] overload empties the caller's buffer, if the state allows sending. *)
(*@ muduo/muduo/net/TcpConnection.cc 134-152 TcpConnection::send *)
Definition send_buffer (tid : Z) (buf : Buffer) (w : world) : res (Buffer * world) :=
  if is_state (state_ (the_conn w)) kConnected
  then if isInLoopThread tid w.1
       then
         text ← mem_read (peek buf) (peek buf + readableBytes buf) (buffer_ buf);
         w ← sendInLoop tid text w;
         mret (retrieveAll buf, w)
       else
         '(text, buf) ← retrieveAllAsString buf;
         mret (buf, queue tid (TSendInLoop text) w)
  else mret (buf, w).

(** ** Shutting down the sending side *)

(*@ muduo/muduo/net/TcpConnection.cc 254-264 TcpConnection::shutdownInLoop *)
Definition shutdownInLoop (tid : Z) (w : world) : res world :=
  assertInLoopThread tid w.1;;
  writing ← chan_isWriting w;
  mret (if negb writing then with_sock (sock_shutdownWrite (sock w.2)) w else w).

(*@ muduo/muduo/net/TcpConnection.cc 240-251 TcpConnection::shutdown *)
Definition shutdown (tid : Z) (w : world) : res world :=
  if is_state (state_ (the_conn w)) kConnected
  then
    let w := with_conn (setState kDisconnecting (the_conn w)) w in
    if isInLoopThread tid w.1 then shutdownInLoop tid w
    else mret (queue tid TShutdownInLoop w)
  else mret w.

(** ** The application *)

Definition run_cmd (tid : Z) (c : cmd) (w : world) : res world :=
  match c with
  | Send d => send tid d w
  | SendBuffer =>
      '(b, w) ← send_buffer tid (inputBuffer_ (the_conn w)) w;
      mret (with_conn (with_input b (the_conn w)) w)
  | Shutdown => shutdown tid w
  | Retrieve n =>
      let b := inputBuffer_ (the_conn w) in
      b ← retrieve b (Z.max 0 (Z.min n (readableBytes b)));
      mret (with_conn (with_input b (the_conn w)) w)
  | RetrieveAll =>
      mret (with_conn (with_input (retrieveAll (inputBuffer_ (the_conn w))) (the_conn w)) w)
  | SetHighWaterMark n => mret (with_conn (setHighWaterMarkCallback n (the_conn w)) w)
  end.

Fixpoint run_cmds (tid : Z) (cs : list cmd) (w : world) : res world :=
  match cs with
  | [] => mret w
  | c :: cs => w ← run_cmd tid c w; run_cmds tid cs w
  end.

(** The application's four callbacks: the next state of the application and
    the calls to make. *)
Variables (on_connection : A -> bool -> A * list cmd)
          (on_message : A -> list byte -> Z -> A * list cmd)
          (on_writeComplete : A -> A * list cmd)
          (on_highWaterMark : A -> Z -> A * list cmd).

Definition callback (tid : Z) (r : A * list cmd) (w : world) : res world :=
  run_cmds tid r.2 (with_app r.1 w).

(*@ muduo/muduo/net/TcpConnection.h 65-65 TcpConnection::connected *)
Definition connected (w : world) : bool := is_state (state_ (the_conn w)) kConnected.

Definition connectionCallback (tid : Z) (w : world) : res world :=
  callback tid (on_connection (app w.2) (connected w)) w.

(** ** Life cycle *)

(*@ muduo/muduo/net/TcpConnection.cc 273-288 TcpConnection::connectEstablished *)
Definition connectEstablished (tid self : Z) (w : world) : res world :=
  assertInLoopThread tid w.1;;
  assert_ (is_state (state_ (the_conn w)) kConnecting);;
  let w := with_conn (setState kConnected (the_conn w)) w in
  ch ← load_chan (channel_ (the_conn w)) w.1;
  let w := with_lp (put_chan (channel_ (the_conn w)) (tie ch self) w.1) w in
  w ← on_channel enableReading tid w;
  connectionCallback tid w.

(*@ muduo/muduo/net/TcpConnection.cc 291-305 TcpConnection::connectDestroyed *)
Definition connectDestroyed (tid : Z) (w : world) : res world :=
  assertInLoopThread tid w.1;;
  w ← (if is_state (state_ (the_conn w)) kConnected
       then
         let w := with_conn (setState kDisconnected (the_conn w)) w in
         w ← on_channel disableAll tid w;
         connectionCallback tid w
       else mret w);
  on_channel chan_remove tid w.

(** [closeCallback_], set by the owner: [TcpServer::removeConnection] (through
    [removeConnectionInLoop]) and [TcpClient::removeConnection] drop their
    reference and queue [connectDestroyed] in the connection's loop. *)
Definition closeCallback (tid : Z) (w : world) : res world := mret (queue tid TConnectDestroyed w).

(*@ muduo/muduo/net/TcpConnection.cc 389-411 TcpConnection::handleClose *)
Definition handleClose (tid : Z) (w : world) : res world :=
  assertInLoopThread tid w.1;;
  assert_ (is_state (state_ (the_conn w)) kConnected || is_state (state_ (the_conn w)) kDisconnecting);;
  let w := with_conn (setState kDisconnected (the_conn w)) w in
  w ← on_channel disableAll tid w;
  w ← connectionCallback tid w;
  closeCallback tid w.

(** [handleError] only reads the socket's error and logs it. *)
(*@ muduo/muduo/net/TcpConnection.cc 413-418 TcpConnection::handleError *)
Definition handleError (w : world) : res world := mret w.

(*@ muduo/muduo/net/TcpConnection.cc 308-332 TcpConnection::handleRead *)
Definition handleRead (tid receiveTime : Z) (w : world) : res world :=
  assertInLoopThread tid w.1;;
  let '(r, k) := sock_readv (sock w.2) (writableBytes (inputBuffer_ (the_conn w))) in
  let w := with_sock k w in
  '(n, savedErrno, b) ← readFd (inputBuffer_ (the_conn w)) r;
  let w := with_conn (with_input b (the_conn w)) w in
  if 0 <? n
  then
    text ← mem_read (readerIndex_ b) (writerIndex_ b) (buffer_ b);
    callback tid (on_message (app w.2) text receiveTime) w
  else if n =? 0 then handleClose tid w
  else handleError w.

(*@ muduo/muduo/net/TcpConnection.cc 335-386 TcpConnection::handleWrite *)
Definition handleWrite (tid : Z) (w : world) : res world :=
  assertInLoopThread tid w.1;;
  writing ← chan_isWriting w;
  if writing : bool
  then
    let out := outputBuffer_ (the_conn w) in
    text ← mem_read (peek out) (peek out + readableBytes out) (buffer_ out);
    let '(n, _, k) := sock_write (sock w.2) text in
    let w := with_sock k w in
    if 0 <? n
    then
      out ← retrieve out n;
      let w := with_conn (with_output out (the_conn w)) w in
      if readableBytes out =? 0
      then
        w ← on_channel disableWriting tid w;
        let w := if writeCompleteCallback_ (the_conn w) then queue tid TWriteComplete w else w in
        if is_state (state_ (the_conn w)) kDisconnecting then shutdownInLoop tid w else mret w
      else mret w
    else mret w
  else mret w.

(** ** Running closures and callbacks *)

Definition exec (tid self : Z) (t : task) (w : world) : res world :=
  match t with
  | TSendInLoop d => sendInLoop tid d w
  | TShutdownInLoop => shutdownInLoop tid w
  | TWriteComplete => callback tid (on_writeComplete (app w.2)) w
  | THighWaterMark n => callback tid (on_highWaterMark (app w.2) n) w
  | TConnectEstablished => connectEstablished tid self w
  | TConnectDestroyed => connectDestroyed tid w
  end.

Definition call_conn (tid : Z) (cb : conn_cb) (w : world) : res world :=
  match cb with
  | CbRead => handleRead tid 0 w
  | CbWrite => handleWrite tid w
  | CbClose => handleClose tid w
  | CbError => handleError w
  end.
Definition call_read_conn (tid : Z) (cb : conn_cb) (t : Z) (w : world) : res world :=
  match cb with CbRead => handleRead tid t w | _ => call_conn tid cb w end.

(** The object and its channel, as the constructor leaves them. *)
(*@ muduo/muduo/net/TcpConnection.cc 47-83 TcpConnection::TcpConnection *)
Definition TcpConnection_new (c : chan_id) : TcpConnection :=
  mkConn kConnecting c false false (64 * 1024 * 1024) Buffer_new Buffer_new.
Definition conn_channel (loop sockfd : Z) : Channel (loop_cb conn_cb) :=
  setCallbacks (Channel_new loop sockfd) (Some (CbUser CbRead)) (Some (CbUser CbWrite))
    (Some (CbUser CbClose)) (Some (CbUser CbError)).

(*@ muduo/muduo/net/TcpConnection.cc 86-90 TcpConnection::~TcpConnection *)
Definition TcpConnection_dtor (w : world) : res world :=
  on_channel (fun _ => chan_destroy) 0 w.

End conn.
Arguments rest : clear implicits.

(** ** The invariant *)

Section conn_invariant.
Context {P E K A : Type} `{!EventFd E, !Socket K, !PollerOps (loop_cb conn_cb) P}.
Context `{!SocketLaws K, !PollerSpec (loop_cb conn_cb) P}.
Local Abbreviation Loop := (EventLoop conn_cb task P E).
Local Abbreviation world := (Loop * rest K A)%type.
Implicit Types w : world.

Definition rank (s : StateE) : Z :=
  match s with kConnecting => 0 | kConnected => 1 | kDisconnecting => 2 | kDisconnected => 3 end.

(** What each state says about the channel [c], the poller and the bytes not
    yet sent. *)
Definition phase_ok (s : StateE) (c : chan_id) (ch : Channel (loop_cb conn_cb)) (out : list byte)
    (own : option chan_id) (arm : Z) : Prop :=
  match s with
  | kConnecting => events_ ch = 0 /\ own = None /\ arm = 0 /\ out = []
  | kConnected | kDisconnecting =>
      own = Some c /\ arm = events_ ch /\ has (events_ ch) kReadEvent = true
      /\ isWriting ch = negb (bool_decide (out = []))
  | kDisconnected => events_ ch = 0 /\ (own = Some c \/ own = None) /\ arm = 0
  end.

Record conn_parts (w : world) (ch : Channel (loop_cb conn_cb)) (inp out : list byte) : Prop := {
  cp_reg : registered (channel_ (the_conn w)) ch w.1;
  cp_in : holds inp (inputBuffer_ (the_conn w));
  cp_out : holds out (outputBuffer_ (the_conn w));
  cp_phase : phase_ok (state_ (the_conn w)) (channel_ (the_conn w)) ch out
               (owner (poller_ w.1) (fd_ ch)) (armed (poller_ w.1) (fd_ ch));
  (** the sending side is shut down only when nothing is left to send *)
  cp_fin : sock_fin (sock w.2) = true ->
    state_ (the_conn w) = kDisconnected \/ (state_ (the_conn w) = kDisconnecting /\ out = [])
}.

Definition conn_inv (w : world) : Prop := exists ch inp out, conn_parts w ch inp out.

(** What never changes, and the direction in which the state moves. *)
Record evolves (w w' : world) : Prop := {
  ev_rank : rank (state_ (the_conn w)) <= rank (state_ (the_conn w'));
  ev_channel : channel_ (the_conn w') = channel_ (the_conn w);
  ev_thread : threadId_ w'.1 = threadId_ w.1;
  ev_handling : EventLoop.eventHandling_ w'.1 = EventLoop.eventHandling_ w.1;
  ev_active : activeChannels_ w'.1 = activeChannels_ w.1;
  ev_current : currentActiveChannel_ w'.1 = currentActiveChannel_ w.1;
  ev_complete : writeCompleteCallback_ (the_conn w') = writeCompleteCallback_ (the_conn w)
}.

#[export] Instance evolves_refl : Reflexive evolves.
Proof using. intros w. by split. Qed.
#[export] Instance evolves_trans : Transitive evolves.
Proof using. intros w1 w2 w3 [] []. split; [lia | congruence..]. Qed.

Definition good (w w' : world) : Prop := conn_inv w' /\ evolves w w'.

Lemma good_trans w1 w2 w3 : good w1 w2 -> good w2 w3 -> good w1 w3.
Proof using. intros [_ H1] [H2 H3]. split; [done | by etransitivity]. Qed.
Lemma good_refl w : conn_inv w -> good w w.
Proof using. by split. Qed.

(** Everything that was handed over for sending: what the kernel took, then
    what waits in the output buffer. *)
Definition stream (w : world) : list byte :=
  sock_wire (sock w.2) ++ contents (outputBuffer_ (the_conn w)).

Lemma isIn (w : world) : isInLoopThread (threadId_ w.1) w.1 = true.
Proof using. apply Z.eqb_refl. Qed.

Lemma down_stays_down w w' :
  evolves w w' -> state_ (the_conn w) = kDisconnected -> state_ (the_conn w') = kDisconnected.
Proof using.
  intros Hev Hs. pose proof (ev_rank _ _ Hev) as Hrk. rewrite Hs in Hrk. cbn in Hrk.
  destruct (state_ (the_conn w')); cbn in Hrk; done || lia.
Qed.

Lemma queue_parts tid t w ch inp out :
  conn_parts w ch inp out -> conn_parts (queue tid t w) ch inp out.
Proof using.
  destruct (queueInLoop_fields tid t w.1) as (E1 & E2 & E3 & _).
  intros [(Hc & Hl & Hi) Hin Hout Hph Hfin]. split; cbn [queue with_lp fst snd the_conn] in *; try done.
  - unfold registered. rewrite E1, E2, E3. done.
  - by rewrite E2.
Qed.
Lemma queue_evolves tid t w : evolves w (queue tid t w).
Proof using.
  destruct (queueInLoop_fields tid t w.1) as (E1 & E2 & E3 & E4 & E5 & E6 & _).
  split; cbn [queue with_lp fst snd the_conn]; done.
Qed.
Lemma queue_good tid t w : conn_inv w -> good w (queue tid t w).
Proof using.
  intros (ch & inp & out & Hp). split; [| apply queue_evolves].
  exists ch, inp, out. by apply queue_parts.
Qed.

(** The functors that an operation queues behind those already waiting, the
    application's state and the input untouched. *)
Definition same_input w w' : Prop :=
  inputBuffer_ (the_conn w') = inputBuffer_ (the_conn w) /\ sock_read (sock w'.2) = sock_read (sock w.2).
Definition adds (ts : list task) w w' : Prop :=
  app w'.2 = app w.2 /\ same_input w w'
  /\ pendingFunctors_ w'.1 = pendingFunctors_ w.1 ++ ts.

Lemma adds_nil w w' :
  app w'.2 = app w.2 -> same_input w w' ->
  pendingFunctors_ w'.1 = pendingFunctors_ w.1 -> adds [] w w'.
Proof using. unfold adds. by rewrite app_nil_r. Qed.
Lemma adds_trans ts1 ts2 w1 w2 w3 : adds ts1 w1 w2 -> adds ts2 w2 w3 -> adds (ts1 ++ ts2) w1 w3.
Proof using. intros (A1 & [I1 R1] & P1) (A2 & [I2 R2] & P2). split_and!; [congruence | split; congruence |]. by rewrite P2, P1, app_assoc. Qed.
Lemma adds_queue tid t w : adds [t] w (queue tid t w).
Proof using.
  destruct (queueInLoop_fields tid t w.1) as (_ & _ & _ & _ & _ & _ & Hp). by split.
Qed.

(** A change of interest, in a state where the channel may be registered. *)
Lemma on_channel_update ev w ch :
  registered (channel_ (the_conn w)) ch w.1 ->
  owner (poller_ w.1) (fd_ ch) = None \/ owner (poller_ w.1) (fd_ ch) = Some (channel_ (the_conn w)) ->
  exists w' ch', on_channel (chan_update ev) (threadId_ w.1) w = Ok w'
    /\ w'.2 = w.2 /\ adds [] w w' /\ evolves w w'
    /\ registered (channel_ (the_conn w)) ch' w'.1
    /\ fd_ ch' = fd_ ch /\ events_ ch' = ev (events_ ch)
    /\ owner (poller_ w'.1) (fd_ ch') = Some (channel_ (the_conn w))
    /\ armed (poller_ w'.1) (fd_ ch') = ev (events_ ch).
Proof using Type*.
  intros Hr Ho. destruct (chan_update_spec ev _ _ _ Hr Ho) as (p & s & Hrun & Hi & Hs & Ho' & Ha').
  unfold on_channel. rewrite Hrun. rsimp.
  destruct (same_but_index_lookup _ _ _ _ Hs (lookup_insert_eq _ _ _)) as (i & Hc).
  destruct Hr as (_ & Hl & _).
  eexists _, _. split; [done |]. split; [done |]. split; [by apply adds_nil |]. split; [by split |].
  split; [split; [exact Hc | split; [exact Hl | exact Hi]] |].
  cbn [fd_ events_ set_index with_events]. split; [done |]. split; [done |].
  cbn [with_lp fst poller_ repolled with_chans with_poller].
  rewrite Ho', Ha'. by rewrite !decide_True.
Qed.

Lemma load_chan_ok c ch (l : Loop) : registered c ch l -> load_chan c l = Ok ch.
Proof using. intros (Hc & _). unfold load_chan. by rewrite Hc. Qed.

Lemma isWriting_ok w ch : registered (channel_ (the_conn w)) ch w.1 -> chan_isWriting w = Ok (isWriting ch).
Proof using. intros Hr. unfold chan_isWriting. by rewrite (load_chan_ok _ _ _ Hr). Qed.

(** ** Sending *)

(** A state in which bytes may be accepted or are refused; false only before
    the connection is established, and after the sending side was shut down. *)
Definition can_send w : Prop :=
  state_ (the_conn w) <> kConnecting
  /\ (sock_fin (sock w.2) = true -> state_ (the_conn w) = kDisconnected).

Lemma phase_registered s c ch out own arm :
  phase_ok s c ch out own arm -> own = None \/ own = Some c.
Proof using. destruct s; cbn; intuition. Qed.

(** Putting [d] behind the output buffer of a connection that is open. *)
Definition open_state (s : StateE) : Prop := s = kConnected \/ s = kDisconnecting.

Lemma phase_open s c ch out own arm :
  open_state s -> phase_ok s c ch out own arm <->
  own = Some c /\ arm = events_ ch /\ has (events_ ch) kReadEvent = true
  /\ isWriting ch = negb (bool_decide (out = [])).
Proof using. by intros [-> | ->]. Qed.

Lemma enqueue_output w ch inp out d :
  conn_parts w ch inp out -> open_state (state_ (the_conn w)) -> d <> [] -> zlen d < 2 ^ 63 ->
  sock_fin (sock w.2) = false ->
  safe (b ← append (outputBuffer_ (the_conn w)) d;
        let w := with_conn (with_output b (the_conn w)) w in
        writing ← chan_isWriting w;
        if negb writing then on_channel enableWriting (threadId_ w.1) w else mret w)
    (fun w' => good w w' /\ state_ (the_conn w') = state_ (the_conn w)
       /\ sock w'.2 = sock w.2 /\ contents (outputBuffer_ (the_conn w')) = out ++ d /\ adds [] w w').
Proof using Type*.
  intros [Hreg Hin Hout Hph Hfin] Hopen Hd Hlen Hnf.
  eapply safe_bind; [by apply append_holds_max |]. intros b Hb.
  set (w1 := with_conn (with_output b (the_conn w)) w).
  assert (Hne : out ++ d <> []) by (intros [_ ?]%app_nil; done).
  assert (Hev1 : evolves w w1) by (by split).
  change (registered (channel_ (the_conn w1)) ch w1.1) in Hreg.
  cbv zeta. rewrite (isWriting_ok _ _ Hreg). rsimp.
  apply phase_open in Hph as (Ho & Ha & Hr & Hw); [| done].
  destruct (isWriting ch) eqn:Ew; cbn [negb].
  - rsimp. cbn [safe]. split_and!; try done; [| exact (proj2 Hb) | by apply adds_nil]. split; [| done].
    exists ch, inp, (out ++ d). split; try done.
    + apply phase_open; [done |]. split_and!; try done.
      rewrite Ew, bool_decide_eq_false_2; done.
    + change (sock_fin (sock w1.2)) with (sock_fin (sock w.2)). by rewrite Hnf.
  - destruct (on_channel_update ev_enableWriting w1 ch Hreg) as (w' & ch' & Hrun & H2 & Hadd & Hev & Hreg' & Hf & Hev' & Ho' & Ha').
    { right. exact Ho. }
    unfold enableWriting. rewrite Hrun. cbn [safe].
    assert (Hc' : the_conn w' = the_conn w1) by (unfold the_conn; by rewrite H2).
    split_and!; [| by rewrite Hc' | by rewrite H2 | rewrite Hc'; exact (proj2 Hb) | done].
    split; [| by transitivity w1]. exists ch', inp, (out ++ d).
    split; rewrite ?Hc', ?H2; try done.
    + apply phase_open; [done |]. split_and!; [done | congruence | |].
      * by rewrite Hev', reading_enableWriting.
      * unfold isWriting. rewrite Hev', writing_enable, bool_decide_eq_false_2; done.
    + change (sock_fin (sock w1.2)) with (sock_fin (sock w.2)). by rewrite Hnf.
Qed.

(** The message was refused by the kernel for good. *)
Definition broken_pipe w (d : list byte) : Prop :=
  let '(n, errno, _) := sock_write (sock w.2) d in n < 0 /\ errno = EPIPE.

(** The direct write at the head of [sendInLoop]. *)
Definition direct_write (tid : Z) (writing : bool) (data : list byte) w : Z * Z * bool * world :=
  if negb writing && (readableBytes (outputBuffer_ (the_conn w)) =? 0)
  then
    let '(nwrote, errno, k) := sock_write (sock w.2) data in
    let w := with_sock k w in
    if 0 <=? nwrote
    then
      let remaining := u64 (zlen data - nwrote) in
      let w := if (remaining =? 0) && writeCompleteCallback_ (the_conn w)
               then queue tid TWriteComplete w else w in
      (nwrote, remaining, false, w)
    else (0, zlen data, negb (errno =? EWOULDBLOCK) && (errno =? EPIPE), w)
  else (0, zlen data, false, w).

(** What follows a message that the kernel took whole. *)
Definition completion w : list task :=
  if writeCompleteCallback_ (the_conn w) then [TWriteComplete] else [].

Lemma with_sock_parts k w ch inp out :
  conn_parts w ch inp out -> sock_fin k = sock_fin (sock w.2) -> conn_parts (with_sock k w) ch inp out.
Proof using. intros [Hr Hi Ho Hp Hf] Ef. split; try done. cbn. by rewrite Ef. Qed.

Lemma direct_write_spec tid writing d w ch inp out :
  conn_parts w ch inp out -> zlen d < 2 ^ 63 -> writing = isWriting ch ->
  open_state (state_ (the_conn w)) ->
  let '(nwrote, remaining, error, w') := direct_write tid writing d w in
  conn_parts w' ch inp out /\ evolves w w' /\ the_conn w' = the_conn w
  /\ 0 <= nwrote /\ 0 <= remaining /\ nwrote + remaining = zlen d
  /\ sock_fin (sock w'.2) = sock_fin (sock w.2)
  /\ sock_wire (sock w'.2) = sock_wire (sock w.2) ++ ztake nwrote d
  /\ (nwrote = 0 \/ out = [])
  /\ ((adds (completion w) w w' /\ remaining = 0 /\ out = [])
      \/ (adds [] w w' /\ (remaining <> 0 \/ d = [])))
  /\ (error = true -> broken_pipe w d /\ nwrote = 0 /\ out = []).
Proof using Type*.
  intros Hp Hd -> Hopen. unfold direct_write. pose proof (zlen_nonneg d).
  destruct (negb _ && _) eqn:Ecase.
  - pose proof (write_spec (sock w.2) d) as Hw. unfold broken_pipe.
    destruct (sock_write (sock w.2) d) as [[n errno] k]. destruct Hw as (Hn & Hwire & Hfin & Hread).
    assert (Hp' : conn_parts (with_sock k w) ch inp out) by (by apply with_sock_parts).
    assert (Hev : evolves w (with_sock k w)) by (by split).
    assert (Had : adds [] w (with_sock k w)) by (by apply adds_nil).
    apply andb_prop in Ecase as [_ Ez]. apply Z.eqb_eq in Ez.
    rewrite (holds_readable _ _ (cp_out _ _ _ _ Hp)) in Ez. apply zlen_zero in Ez.
    destruct (Z.leb_spec 0 n).
    + rewrite u64_small by lia. change (the_conn (with_sock k w)) with (the_conn w).
      destruct (Z.eqb_spec (zlen d - n) 0) as [E0 | E0]; cbn [andb].
      * set (w1 := if writeCompleteCallback_ _ then _ else _).
        assert (Hw1 : conn_parts w1 ch inp out /\ evolves w w1 /\ the_conn w1 = the_conn w
                      /\ sock w1.2 = k /\ adds (completion w) w w1).
        { unfold w1, completion. destruct (writeCompleteCallback_ _); [| by auto].
          split_and!; try done; [by apply queue_parts | | apply (adds_trans [] [TWriteComplete] _ _ _ Had), adds_queue].
          etransitivity; [exact Hev | apply queue_evolves]. }
        clearbody w1. destruct Hw1 as (? & ? & ? & -> & ?). split_and!; try done; try lia; by auto.
      * split_and!; try done; try lia; by auto.
    + split_and!; try done; try lia.
      * cbn. rewrite Hwire. unfold ztake. by replace (Z.to_nat n) with 0%nat by lia.
      * right. split; [done |]. destruct d; [by right | left]. rewrite zlen_cons. pose proof (zlen_nonneg d). lia.
      * intros [_ He]%andb_prop. apply Z.eqb_eq in He. split_and!; done || lia.
  - split_and!; try done; try lia; [by rewrite ztake_0, app_nil_r |].
    right. split; [by apply adds_nil |]. destruct d; [by right | left]. rewrite zlen_cons. pose proof (zlen_nonneg d). lia.
Qed.

(** The rest of [sendInLoop]: what the kernel did not take. *)
Definition queue_rest (tid nwrote remaining : Z) (data : list byte) w : res world :=
  let oldLen := readableBytes (outputBuffer_ (the_conn w)) in
  let w := if (highWaterMark_ (the_conn w) <=? u64 (oldLen + remaining))
              && (oldLen <? highWaterMark_ (the_conn w))
              && highWaterMarkCallback_ (the_conn w)
           then queue tid (THighWaterMark (u64 (oldLen + remaining))) w else w in
  text ← mem_read nwrote (nwrote + remaining) data;
  b ← append (outputBuffer_ (the_conn w)) text;
  let w := with_conn (with_output b (the_conn w)) w in
  writing ← chan_isWriting w;
  if negb writing then on_channel enableWriting tid w else mret w.

Definition is_mark (t : task) : Prop := exists n, t = THighWaterMark n.

Lemma queue_rest_spec nwrote remaining d w ch inp out :
  conn_parts w ch inp out -> open_state (state_ (the_conn w)) -> sock_fin (sock w.2) = false ->
  0 <= nwrote -> 0 < remaining -> nwrote + remaining = zlen d -> zlen d < 2 ^ 63 ->
  safe (queue_rest (threadId_ w.1) nwrote remaining d w)
    (fun w' => good w w' /\ state_ (the_conn w') = state_ (the_conn w) /\ sock w'.2 = sock w.2
       /\ contents (outputBuffer_ (the_conn w')) = out ++ zslice nwrote (zlen d) d
       /\ exists ts, Forall is_mark ts /\ adds ts w w').
Proof using Type*.
  intros Hp Hopen Hnf Hn Hr Hsum Hd. unfold queue_rest.
  match goal with |- context [if ?b then queue ?t ?x w else w] =>
    set (w2 := if b then queue t x w else w) end.
  assert (Hw2 : conn_parts w2 ch inp out /\ evolves w w2 /\ w2.2 = w.2
                /\ exists ts, Forall is_mark ts /\ adds ts w w2).
  { unfold w2. destruct (_ && _).
    - split_and!; [by apply queue_parts | apply queue_evolves | done |].
      eexists. split; [| apply adds_queue]. repeat constructor. by eexists.
    - split_and!; [done | done | done |]. exists []. split; [constructor | by apply adds_nil]. }
  clearbody w2. destruct Hw2 as (Hp2 & Hev2 & E2 & ts & Hts & Hadd).
  assert (Hc2 : the_conn w2 = the_conn w) by (unfold the_conn; by rewrite E2).
  rewrite mem_read_ok by lia. rsimp. rewrite Hsum, <- (ev_thread _ _ Hev2).
  eapply safe_mono.
  - apply (enqueue_output w2 ch inp out); [done | by rewrite Hc2 | | | by rewrite E2].
    + intros Es. apply (f_equal zlen) in Es. rewrite zlen_zslice in Es by lia.
      change (zlen (A := byte) []) with 0 in Es. lia.
    + rewrite zlen_zslice by lia. lia.
  - intros w' (Hg & Hs & Hk & Hct & Had). split_and!; [| congruence | congruence | done |].
    + split; [apply Hg | by etransitivity; [exact Hev2 | apply Hg]].
    + exists ts. split; [done |]. rewrite <- (app_nil_r ts). by eapply adds_trans.
Qed.

(** What became of a message of [d] bytes, and what was queued for it: the
    kernel has taken it and everything before it; or some of it waits; or it
    was dropped, or empty, and nothing happened. *)
Inductive sent (d : list byte) w w' : list task -> Prop :=
| sent_whole :
    contents (outputBuffer_ (the_conn w)) = [] -> contents (outputBuffer_ (the_conn w')) = [] ->
    stream w' = stream w ++ d -> sent d w w' (completion w)
| sent_later ts :
    contents (outputBuffer_ (the_conn w')) <> [] -> stream w' = stream w ++ d ->
    Forall is_mark ts -> sent d w w' ts
| sent_nothing :
    contents (outputBuffer_ (the_conn w')) = contents (outputBuffer_ (the_conn w)) ->
    stream w' = stream w ->
    (broken_pipe w d /\ contents (outputBuffer_ (the_conn w)) = []) \/ d = [] -> sent d w w' [].

Lemma sent_stream d w w' ts :
  sent d w w' ts -> stream w' = stream w ++ d \/ (broken_pipe w d /\ stream w' = stream w).
Proof using.
  intros [| |? ? [[]|]]; [by left | by left | by right | left]. subst d. by rewrite app_nil_r.
Qed.

Lemma sendInLoop_open d w :
  conn_inv w -> open_state (state_ (the_conn w)) -> sock_fin (sock w.2) = false -> zlen d < 2 ^ 63 ->
  safe (sendInLoop (threadId_ w.1) d w)
    (fun w' => good w w' /\ state_ (the_conn w') = state_ (the_conn w)
       /\ sock_fin (sock w'.2) = false /\ exists ts, sent d w w' ts /\ adds ts w w').
Proof using Type*.
  intros (ch & inp & out & Hp) Hopen Hfin Hd. unfold sendInLoop. rewrite assertIn. rsimp.
  unfold is_state. rewrite bool_decide_eq_false_2 by (destruct Hopen; congruence).
  rewrite (isWriting_ok _ _ (cp_reg _ _ _ _ Hp)). rsimp.
  fold (direct_write (threadId_ w.1) (isWriting ch) d w).
  pose proof (direct_write_spec (threadId_ w.1) (isWriting ch) d w ch inp out Hp Hd eq_refl Hopen) as Hdw.
  destruct (direct_write _ _ _ _) as [[[nwrote remaining] error] w1].
  destruct Hdw as (Hp1 & Hev1 & Hc1 & Hn0 & Hr0 & Hsum & Hf1 & Hwire & Hempty & Hadd & Herr).
  step_assert; [lia |].
  assert (Hout : contents (outputBuffer_ (the_conn w)) = out) by apply (cp_out _ _ _ _ Hp).
  assert (Hout1 : contents (outputBuffer_ (the_conn w1)) = out) by (by rewrite Hc1).
  destruct (negb error && (0 <? remaining)) eqn:Erem.
  - apply andb_prop in Erem as [Ee Er]. apply Z.ltb_lt in Er.
    fold (queue_rest (threadId_ w.1) nwrote remaining d w1). rewrite <- (ev_thread _ _ Hev1).
    eapply safe_mono;
      [apply (queue_rest_spec nwrote remaining d w1 ch inp out Hp1); try done; [by rewrite Hc1 | congruence] |].
    intros w' (Hg & Hs & Hk & Hct & ts & Hts & Had). split_and!; [| by rewrite Hs, Hc1 | by rewrite Hk, Hf1 |].
    { split; [apply Hg | etransitivity; [exact Hev1 | apply Hg]]. }
    exists ts. destruct Hadd as [(_ & ? & _) | [Hadd _]]; [lia |].
    split; [| exact (adds_trans _ _ _ _ _ Hadd Had)].
    assert (Hrest : zlen (zslice nwrote (zlen d) d) = remaining) by (rewrite zlen_zslice; lia).
    apply sent_later; [| | done].
    + rewrite Hct. intros [_ E0]%app_nil. rewrite E0 in Hrest. change (0 = remaining) in Hrest. lia.
    + unfold stream. rewrite Hk, Hwire, Hct, Hout, <- !app_assoc. f_equal.
      destruct Hempty as [-> | ->]; [by rewrite ztake_0, zslice_full |].
      rewrite !app_nil_l, ztake_is_zslice, zslice_split by lia. apply zslice_full.
  - rsimp. cbn [safe]. split_and!; [split; [by exists ch, inp, out | done] | by rewrite Hc1 | congruence |].
    assert (Hstr : stream w1 = sock_wire (sock w.2) ++ ztake nwrote d ++ out)
      by (unfold stream; by rewrite Hwire, Hout1, app_assoc).
    assert (Hnothing : nwrote = 0 -> stream w1 = stream w)
      by (intros ->; rewrite Hstr; unfold stream; by rewrite Hout).
    destruct Hadd as [(Hadd & -> & ->) | [Hadd Hz]].
    + exists (completion w). split; [| done]. apply sent_whole; [done | done |].
      rewrite Hstr. unfold stream. rewrite Hout, !app_nil_r, ztake_all by lia. done.
    + exists []. split; [| done]. destruct error.
      * destruct (Herr eq_refl) as (Hb & -> & ->).
        apply sent_nothing; [by rewrite Hc1 | by apply Hnothing | by left].
      * cbn in Erem. apply Z.ltb_ge in Erem. destruct Hz as [? | ->]; [lia |].
        change (zlen (A := byte) []) with 0 in Hsum.
        apply sent_nothing; [by rewrite Hc1 | apply Hnothing; lia | by right].
Qed.

(** [sendInLoop] keeps the invariant, and the stream grows by exactly the
    message, unless the connection is down or the peer has closed. *)
Lemma sendInLoop_spec d w :
  conn_inv w -> can_send w -> zlen d < 2 ^ 63 ->
  safe (sendInLoop (threadId_ w.1) d w)
    (fun w' => good w w' /\ state_ (the_conn w') = state_ (the_conn w)
       /\ (state_ (the_conn w) = kDisconnected -> w' = w)
       /\ (open_state (state_ (the_conn w)) ->
             stream w' = stream w ++ d \/ (broken_pipe w d /\ stream w' = stream w))).
Proof using Type*.
  intros Hinv [Hnc Hnf] Hd. destruct (decide (state_ (the_conn w) = kDisconnected)) as [Es | Es].
  - unfold sendInLoop. rewrite assertIn. rsimp. unfold is_state. rewrite bool_decide_eq_true_2 by done.
    cbn [safe mret res_ret]. split_and!; [by apply good_refl | done | done |].
    intros [Es' | Es']; congruence.
  - eapply safe_mono.
    + apply sendInLoop_open; [done | | | done].
      * unfold open_state. destruct (state_ (the_conn w)); auto; done.
      * destruct (sock_fin (sock w.2)) eqn:Ef; [by rewrite Hnf in Es | done].
    + intros w' (Hg & Hs & _ & ts & Hsent & _). split_and!; [done | done | done |].
      intros _. by eapply sent_stream.
Qed.

(** ** Shutting down, and what an application may call *)

Lemma with_conn_parts w ch inp inp' out t :
  conn_parts w ch inp out -> state_ t = state_ (the_conn w) -> channel_ t = channel_ (the_conn w) ->
  outputBuffer_ t = outputBuffer_ (the_conn w) -> holds inp' (inputBuffer_ t) ->
  conn_parts (with_conn t w) ch inp' out.
Proof using.
  intros [Hr Hi Ho Hp Hf] E1 E2 E3 Hi'.
  split; cbn [the_conn with_conn fst snd conn sock]; rewrite ?E1, ?E2, ?E3; done.
Qed.

(** The sending side is shut down at once when nothing is waiting, and later
    by [handleWrite] otherwise. *)
Lemma shutdownInLoop_spec w :
  conn_inv w ->
  state_ (the_conn w) = kDisconnecting \/ state_ (the_conn w) = kDisconnected ->
  exists w', shutdownInLoop (threadId_ w.1) w = Ok w' /\ good w w'
    /\ the_conn w' = the_conn w /\ w'.1 = w.1 /\ sock_wire (sock w'.2) = sock_wire (sock w.2)
    /\ adds [] w w'
    /\ (state_ (the_conn w) = kDisconnecting ->
          sock_fin (sock w'.2) = bool_decide (contents (outputBuffer_ (the_conn w)) = [])).
Proof using Type*.
  intros (ch & inp & out & Hp) Hst. unfold shutdownInLoop. rewrite assertIn. rsimp.
  rewrite (isWriting_ok _ _ (cp_reg _ _ _ _ Hp)). rsimp.
  pose proof Hp as [Hr Hi Ho Hph Hfin]. destruct (shutdown_spec (sock w.2)) as (Hwire & Hf & Hread).
  eexists. split; [done |]. destruct (isWriting ch) eqn:Ew; cbn [negb].
  - split_and!; try done; [by apply good_refl; exists ch, inp, out | by apply adds_nil |]. intros Es.
    apply phase_open in Hph as (_ & _ & _ & Hw); [| by right]. rewrite Ew in Hw.
    symmetry in Hw. apply negb_true_iff in Hw. rewrite (proj2 Ho), Hw.
    destruct (sock_fin (sock w.2)) eqn:Ef; [| done].
    destruct (Hfin eq_refl) as [| [_ ->]]; [congruence | done].
  - assert (Hout : state_ (the_conn w) = kDisconnecting -> out = []).
    { intros Es. apply phase_open in Hph as (_ & _ & _ & Hw); [| by right]. rewrite Ew in Hw.
      symmetry in Hw. apply negb_false_iff, bool_decide_eq_true in Hw. done. }
    split_and!; try done.
    + split; [| by split]. exists ch, inp, out. split; try done. intros _.
      destruct Hst as [Es | Es]; [right; auto | by left].
    + by apply adds_nil.
    + intros Es. cbn [with_sock snd sock]. rewrite Hf, (proj2 Ho). symmetry.
      by apply bool_decide_eq_true, Hout.
Qed.

Definition cmd_ok (c : cmd) : Prop := match c with Send d => zlen d < 2 ^ 63 | _ => True end.

Lemma can_send_connected w : conn_inv w -> state_ (the_conn w) = kConnected -> can_send w.
Proof using.
  intros (ch & inp & out & [_ _ _ _ Hf]) Es. split; [by rewrite Es |]. intros Hfin.
  destruct (Hf Hfin) as [| [Ed _]]; [done | congruence].
Qed.

Lemma setState_good w s :
  conn_inv w -> state_ (the_conn w) = kConnected -> s = kConnected \/ s = kDisconnecting ->
  good w (with_conn (setState s (the_conn w)) w).
Proof using.
  intros (ch & inp & out & [Hr Hi Ho Hph Hf]) Es Hs. split.
  - exists ch, inp, out. split; try done.
    + apply phase_open in Hph; [| by left]. by apply phase_open.
    + intros Hfin. destruct (Hf Hfin) as [| [? _]]; congruence.
  - split; try done. cbn. rewrite Es. destruct Hs as [-> | ->]; cbn; lia.
Qed.

(** The bytes a call hands over for sending. *)
Definition accepted w (c : cmd) : list byte :=
  match c with
  | Send d => if is_state (state_ (the_conn w)) kConnected then d else []
  | SendBuffer =>
      if is_state (state_ (the_conn w)) kConnected then contents (inputBuffer_ (the_conn w)) else []
  | _ => []
  end.

(** ** What an application can still do when the connection is down

    Its calls do not reach the loop or the socket: they can only consume input
    and set the mark. *)

Definition only_local w w' : Prop := exists b h m,
  w' = with_conn (mkConn (state_ (the_conn w)) (channel_ (the_conn w)) (writeCompleteCallback_ (the_conn w)) h m
                    b (outputBuffer_ (the_conn w))) w.

Lemma only_local_refl w : only_local w w.
Proof using.
  exists (inputBuffer_ (the_conn w)), (highWaterMarkCallback_ (the_conn w)), (highWaterMark_ (the_conn w)).
  by destruct w as [l [[] k a]].
Qed.
Lemma only_local_trans w1 w2 w3 : only_local w1 w2 -> only_local w2 w3 -> only_local w1 w3.
Proof using. intros (b1 & h1 & m1 & ->) (b2 & h2 & m2 & ->). by exists b2, h2, m2. Qed.
Lemma only_local_evolves w w' : only_local w w' -> evolves w w'.
Proof using. intros (b & h & m & ->). by split. Qed.
Lemma only_local_input b w : only_local w (with_conn (with_input b (the_conn w)) w).
Proof using. by eexists _, _, _. Qed.

(** Setting the mark. *)
Lemma setMark_good n w :
  conn_inv w ->
  conn_inv (with_conn (setHighWaterMarkCallback n (the_conn w)) w)
  /\ only_local w (with_conn (setHighWaterMarkCallback n (the_conn w)) w).
Proof using.
  intros (ch & inp & out & [Hr Hi Ho Hp Hf]). split; [exists ch, inp, out; by split | by eexists _, _, _].
Qed.


(** The two calls that consume input, in any state. *)
Lemma retrieve_good n w :
  conn_inv w ->
  exists b, run_cmd (threadId_ w.1) (Retrieve n) w = Ok (with_conn (with_input b (the_conn w)) w)
    /\ conn_inv (with_conn (with_input b (the_conn w)) w)
    /\ contents b = let inp := contents (inputBuffer_ (the_conn w)) in
                    zdrop (Z.max 0 (Z.min n (zlen inp))) inp.
Proof using Type*.
  intros (ch & inp & out & Hp). pose proof (cp_in _ _ _ _ Hp) as Hi. cbn [run_cmd]. cbv zeta.
  rewrite (holds_readable _ _ Hi), (proj2 Hi). pose proof (zlen_nonneg inp).
  destruct (retrieve_holds inp (inputBuffer_ (the_conn w)) (Z.max 0 (Z.min n (zlen inp))) Hi)
    as (b & -> & Hb); [lia |]. rsimp.
  exists b. split_and!; [done | | apply Hb]. eexists ch, _, out. by eapply with_conn_parts.
Qed.

Lemma retrieveAll_good w :
  conn_inv w ->
  exists b, run_cmd (threadId_ w.1) RetrieveAll w = Ok (with_conn (with_input b (the_conn w)) w)
    /\ conn_inv (with_conn (with_input b (the_conn w)) w) /\ contents b = [].
Proof using Type*.
  intros (ch & inp & out & Hp). pose proof (retrieveAll_holds inp _ (cp_in _ _ _ _ Hp)) as Hb.
  eexists. split_and!; [done | | apply Hb].
  exists ch, [], out. by eapply with_conn_parts; [exact Hp | done.. |].
Qed.

(** Emptying the input buffer after a call. *)
Lemma with_input_good b w w' :
  good w w' -> holds [] b -> good w (with_conn (with_input b (the_conn w')) w').
Proof using.
  intros [(ch & inp & out & Hp) Hev] Hb. split; [| by destruct Hev; split].
  exists ch, [], out. by eapply with_conn_parts.
Qed.

(** The buffer overload of [send]: what waits as input is sent and taken, or
    nothing happens. *)
Lemma send_buffer_run w :
  conn_inv w ->
  run_cmd (threadId_ w.1) SendBuffer w =
  (if is_state (state_ (the_conn w)) kConnected
   then w' ← sendInLoop (threadId_ w.1) (contents (inputBuffer_ (the_conn w))) w;
        mret (with_conn (with_input (retrieveAll (inputBuffer_ (the_conn w))) (the_conn w')) w')
   else mret w).
Proof using.
  intros (ch & inp & out & Hp). pose proof (cp_in _ _ _ _ Hp) as [Hwf _]. cbn [run_cmd]. unfold send_buffer.
  destruct (is_state _ _).
  - rewrite isIn, (read_readable _ Hwf). rsimp. by destruct (sendInLoop _ _ _).
  - rsimp. by destruct w as [l [[] k a]].
Qed.
Lemma input_small w : conn_inv w -> zlen (contents (inputBuffer_ (the_conn w))) < 2 ^ 63.
Proof using. intros (ch & inp & out & Hp). apply contents_small, (cp_in _ _ _ _ Hp). Qed.
Lemma input_emptied w : conn_inv w -> holds [] (retrieveAll (inputBuffer_ (the_conn w))).
Proof using. intros (ch & inp & out & Hp). by eapply retrieveAll_holds, cp_in. Qed.

Lemma run_cmd_down c w :
  conn_inv w -> state_ (the_conn w) = kDisconnected ->
  exists w', run_cmd (threadId_ w.1) c w = Ok w' /\ conn_inv w' /\ only_local w w'.
Proof using Type*.
  intros Hinv Hs. destruct c as [d | | | n | | n];
    [| rewrite send_buffer_run by done | | destruct (retrieve_good n w Hinv) as (b & ? & ? & _); eexists; by split_and!; [.. | apply only_local_input]
     | destruct (retrieveAll_good w Hinv) as (b & ? & ? & _); eexists; by split_and!; [.. | apply only_local_input]
     | destruct (setMark_good n w Hinv); by eexists];
    cbn [run_cmd]; unfold send, shutdown, is_state; rewrite Hs, bool_decide_eq_false_2 by done;
    exists w; split_and!; done || apply only_local_refl.
Qed.

Lemma run_cmds_down cs : forall w,
  conn_inv w -> state_ (the_conn w) = kDisconnected ->
  exists w', run_cmds (threadId_ w.1) cs w = Ok w' /\ conn_inv w' /\ only_local w w'.
Proof using Type*.
  induction cs as [| c cs IH]; intros w Hinv Hs; cbn [run_cmds].
  { exists w. split_and!; [done | done | apply only_local_refl]. }
  destruct (run_cmd_down c w Hinv Hs) as (w1 & -> & H1 & O1). rsimp.
  assert (E1 : w1.1 = w.1) by (by destruct O1 as (b & h & m & ->)). rewrite <- E1.
  destruct (IH w1 H1) as (w2 & -> & H2 & O2); [by destruct O1 as (b & h & m & ->) |].
  exists w2. split_and!; [done | done | by eapply only_local_trans].
Qed.

Lemma callback_down r w :
  conn_inv w -> state_ (the_conn w) = kDisconnected ->
  exists w', callback (threadId_ w.1) r w = Ok w' /\ conn_inv w' /\ only_local (with_app r.1 w) w'.
Proof using Type*.
  intros (ch & inp & out & Hp) Hs. unfold callback.
  apply (run_cmds_down r.2 (with_app r.1 w)); [| done]. exists ch, inp, out. destruct Hp. by split.
Qed.

Lemma only_local_spec (Q : Prop) w w' :
  conn_inv w' -> only_local w w' ->
  safe (Ok w') (fun w' => good w w' /\ (state_ (the_conn w) = kDisconnected -> stream w' = stream w)
    /\ (stream w' = stream w ++ [] \/ Q)).
Proof using.
  intros Hi Ho. cbn [safe]. split_and!; [split; [done | by apply only_local_evolves] | |];
    destruct Ho as (b & h & m & ->); [done |]. left. by rewrite app_nil_r.
Qed.

Lemma run_cmd_spec c w :
  conn_inv w -> cmd_ok c ->
  safe (run_cmd (threadId_ w.1) c w)
    (fun w' => good w w' /\ (state_ (the_conn w) = kDisconnected -> stream w' = stream w)
       /\ (stream w' = stream w ++ accepted w c
           \/ (broken_pipe w (accepted w c) /\ stream w' = stream w))).
Proof using Type*.
  intros Hinv Hc. destruct c as [d | | | n | | n]; cbn [cmd_ok accepted] in *.
  - cbn [run_cmd]. unfold send. unfold is_state. case_bool_decide as Es.
    + rewrite isIn. eapply safe_mono; [apply sendInLoop_spec; [done | by apply can_send_connected | done] |].
      intros w' (Hg & Hst & Hd & Hstr). split_and!; [done | by intros E0; rewrite (Hd E0) |].
      destruct Hstr as [-> | [? ->]]; [by left | by left | by right].
    + cbn [safe mret res_ret]. split_and!; [by apply good_refl | done |]. left. by rewrite app_nil_r.
  - rewrite send_buffer_run by done. unfold is_state. case_bool_decide as Es.
    + eapply safe_bind; [apply sendInLoop_spec; [done | by apply can_send_connected | by apply input_small] |].
      intros w' (Hg & Hst & Hd & Hstr). cbn [safe mret res_ret].
      split_and!; [by apply with_input_good, input_emptied | by intros E0; rewrite (Hd E0) |].
      change (stream (with_conn _ w')) with (stream w').
      destruct Hstr as [-> | [? ->]]; [by left | by left | by right].
    + cbn [safe mret res_ret]. split_and!; [by apply good_refl | done |]. left. by rewrite app_nil_r.
  - cbn [run_cmd]. unfold shutdown. unfold is_state. case_bool_decide as Es.
    + set (w1 := with_conn _ w).
      pose proof (setState_good w kDisconnecting Hinv Es ltac:(by right)) as Hg1. fold w1 in Hg1.
      change (threadId_ w.1) with (threadId_ w1.1). rewrite isIn.
      destruct (shutdownInLoop_spec w1) as (w' & -> & Hg & Hc' & _ & Hw & _ & _);
        [by destruct Hg1 | by left |].
      assert (Hstr : stream w' = stream w) by (unfold stream; by rewrite Hw, Hc').
      cbn [safe]. split_and!; [by eapply good_trans | done |]. left. by rewrite Hstr, app_nil_r.
    + cbn [safe mret res_ret]. split_and!; [by apply good_refl | done |]. left. by rewrite app_nil_r.
  - destruct (retrieve_good n w Hinv) as (b & -> & Hi & _). apply only_local_spec; [done | apply only_local_input].
  - destruct (retrieveAll_good w Hinv) as (b & -> & Hi & _). apply only_local_spec; [done | apply only_local_input].
  - destruct (setMark_good n w Hinv) as [Hi Ho]. by apply only_local_spec.
Qed.

Lemma run_cmds_good cs : forall w,
  conn_inv w -> Forall cmd_ok cs -> safe (run_cmds (threadId_ w.1) cs w) (good w).
Proof using Type*.
  induction cs as [| c cs IH]; intros w Hinv Hcs; cbn [run_cmds].
  - by apply good_refl.
  - apply Forall_cons in Hcs as [Hc Hcs]. eapply safe_bind; [by apply run_cmd_spec |].
    intros w1 [Hg _]. rewrite <- (ev_thread _ _ (proj2 Hg)).
    eapply safe_mono; [apply IH; [apply Hg | done] |]. intros w2. by apply good_trans.
Qed.

Lemma callback_good r w :
  conn_inv w -> Forall cmd_ok r.2 -> safe (callback (threadId_ w.1) r w) (good w).
Proof using Type*.
  intros (ch & inp & out & Hp) Hr. unfold callback.
  assert (Hg : good w (with_app r.1 w)).
  { split; [| by split]. exists ch, inp, out. destruct Hp. by split. }
  change (threadId_ w.1) with (threadId_ (with_app r.1 w).1).
  eapply safe_mono; [apply run_cmds_good; [apply Hg | done] |]. intros w2. by apply good_trans.
Qed.
End conn_invariant.

(** ** The steps of the handlers, up to the application's callbacks *)

Section conn_steps.
Context {P E K A : Type} `{!EventFd E, !Socket K, !PollerOps (loop_cb conn_cb) P}.
Context `{!SocketLaws K, !PollerSpec (loop_cb conn_cb) P}.
Local Abbreviation Loop := (EventLoop conn_cb task P E).
Local Abbreviation world := (Loop * rest K A)%type.
Implicit Types w : world.

(** Steps that leave the state, what is sent and the application alone. *)
Record quiet w w' : Prop := {
  qu_good : good w w';
  qu_state : state_ (the_conn w') = state_ (the_conn w);
  qu_wire : sock_wire (sock w'.2) = sock_wire (sock w.2);
  qu_fin : sock_fin (sock w'.2) = sock_fin (sock w.2);
  qu_output : contents (outputBuffer_ (the_conn w')) = contents (outputBuffer_ (the_conn w));
  qu_app : app w'.2 = app w.2;
  qu_pending : pendingFunctors_ w'.1 = pendingFunctors_ w.1
}.

Lemma quiet_stream w w' : quiet w w' -> stream w' = stream w.
Proof using. intros []. unfold stream. congruence. Qed.
Lemma quiet_thread w w' : quiet w w' -> threadId_ w'.1 = threadId_ w.1.
Proof using. intros []. by apply (ev_thread _ _ (proj2 qu_good0)). Qed.

(** [connectEstablished] up to the connection callback. *)
Lemma establish_good (on_connection : A -> bool -> A * list cmd) self w :
  conn_inv w -> state_ (the_conn w) = kConnecting ->
  exists w1, connectEstablished on_connection (threadId_ w.1) self w
               = connectionCallback on_connection (threadId_ w1.1) w1
    /\ good w w1 /\ state_ (the_conn w1) = kConnected /\ sock w1.2 = sock w.2
    /\ contents (outputBuffer_ (the_conn w1)) = [] /\ contents (outputBuffer_ (the_conn w)) = []
    /\ adds [] w w1.
Proof using Type*.
  intros (ch & inp & out & [Hr Hi Ho Hph Hf]) Es. unfold connectEstablished. rewrite assertIn. rsimp.
  unfold is_state. rewrite Es, bool_decide_eq_true_2 by done. cbn [assert_]. rsimp.
  rewrite Es in Hph. destruct Hph as (Hev & Hown & Harm & ->).
  set (w1 := with_conn _ w). change (registered (channel_ (the_conn w1)) ch w1.1) in Hr.
  rewrite (load_chan_ok _ _ _ Hr). rsimp.
  set (w2 := with_lp _ w1).
  assert (Hr2 : registered (channel_ (the_conn w2)) (tie ch self) w2.1).
  { destruct Hr as (Hc & Hl & Hin). split_and!; [apply lookup_insert_eq | done |].
    by eapply inv_modify. }
  change (threadId_ w.1) with (threadId_ w2.1).
  destruct (on_channel_update ev_enableReading w2 (tie ch self) Hr2)
    as (w3 & ch' & Hrun & H2 & Hadd & Hevol & Hreg' & Hfd & Hev' & Hown' & Harm').
  { left. exact Hown. }
  unfold enableReading. rewrite Hrun. rsimp.
  assert (Hc3 : the_conn w3 = the_conn w2) by (unfold the_conn; by rewrite H2).
  exists w3. rewrite (ev_thread _ _ Hevol). split; [done |].
  split_and!; [| by rewrite Hc3 | by rewrite H2 | rewrite Hc3; apply Ho | apply Ho | done].
  split.
  - exists ch', inp, []. split; rewrite ?Hc3, ?H2; try done.
    + apply phase_open; [by left |].
      split_and!; [done | congruence | by rewrite Hev', reading_enable |].
      unfold isWriting. rewrite Hev', writing_enableReading. cbn [tie events_]. by rewrite Hev.
    + intros Hfin. destruct (Hf Hfin) as [| [? _]]; congruence.
  - destruct Hevol as []. split; try done. rewrite Es, Hc3. cbn. lia.
Qed.

(** The channel of a connection that is down: silent, and still with the poller. *)
Definition closed_channel w : Prop := exists ch,
  registered (channel_ (the_conn w)) ch w.1 /\ isNoneEvent ch = true
  /\ owner (poller_ w.1) (fd_ ch) = Some (channel_ (the_conn w)).

(** Closing: no more events, whatever was waiting is dropped. *)
Lemma close_channel_good w :
  conn_inv w -> open_state (state_ (the_conn w)) ->
  exists w', on_channel disableAll (threadId_ w.1) (with_conn (setState kDisconnected (the_conn w)) w) = Ok w'
    /\ good w w' /\ state_ (the_conn w') = kDisconnected
    /\ outputBuffer_ (the_conn w') = outputBuffer_ (the_conn w)
    /\ sock w'.2 = sock w.2 /\ adds [] w w' /\ closed_channel w'.
Proof using Type*.
  intros (ch & inp & out & [Hr Hi Ho Hph Hf]) Hopen.
  apply phase_open in Hph as (Hown & Harm & _ & _); [| done].
  set (w1 := with_conn _ w). change (registered (channel_ (the_conn w1)) ch w1.1) in Hr.
  destruct (on_channel_update (fun _ => kNoneEvent) w1 ch Hr)
    as (w2 & ch' & Hrun & H2 & Hadd & Hevol & Hreg' & Hfd & Hev' & Hown' & Harm').
  { right. exact Hown. }
  unfold disableAll. change (threadId_ w.1) with (threadId_ w1.1). rewrite Hrun.
  assert (Hc2 : the_conn w2 = the_conn w1) by (unfold the_conn; by rewrite H2).
  exists w2. split; [done |]. split_and!; [| by rewrite Hc2 | | by rewrite H2 | exact Hadd |].
  - split.
    + exists ch', inp, out. split; rewrite ?Hc2, ?H2; try done.
      * split_and!; [done | by left | done].
      * intros _. by left.
    + destruct Hevol as []. split; try done. rewrite Hc2. cbn.
      destruct Hopen as [-> | ->]; cbn; lia.
  - by rewrite Hc2.
  - exists ch'. rewrite Hc2. split_and!; [done | | done]. unfold isNoneEvent. by rewrite Hev'.
Qed.

(** [handleClose]: with the channel silent the callback, then the destruction is
    queued. *)
Lemma handleClose_spec (on_connection : A -> bool -> A * list cmd) w :
  conn_inv w -> open_state (state_ (the_conn w)) ->
  exists w1, handleClose on_connection (threadId_ w.1) w
      = (w2 ← callback (threadId_ w1.1) (on_connection (app w1.2) false) w1;
         mret (queue (threadId_ w1.1) TConnectDestroyed w2))
    /\ good w w1 /\ state_ (the_conn w1) = kDisconnected /\ sock w1.2 = sock w.2
    /\ outputBuffer_ (the_conn w1) = outputBuffer_ (the_conn w) /\ adds [] w w1 /\ closed_channel w1.
Proof using Type*.
  intros Hinv Hopen. unfold handleClose. rewrite assertIn. rsimp.
  rewrite assert_true; [| unfold is_state; apply orb_true_iff; rewrite !bool_decide_eq_true; exact Hopen].
  rsimp. destruct (close_channel_good w Hinv Hopen) as (w1 & -> & Hg & Hs & Hout & Hk & Hadd & Hcl). rsimp.
  exists w1. rewrite <- (ev_thread _ _ (proj2 Hg)). unfold connectionCallback, connected, is_state.
  rewrite bool_decide_eq_false_2 by (by rewrite Hs). by split_and!.
Qed.

(** What [handleRead] comes to. *)
Inductive read_outcome (on_connection : A -> bool -> A * list cmd)
  (on_message : A -> list byte -> Z -> A * list cmd) (t : Z) w : res world -> Prop :=
| read_nothing w1 :
    quiet w w1 -> contents (inputBuffer_ (the_conn w1)) = contents (inputBuffer_ (the_conn w)) ->
    sock_read (sock w1.2) = sock_read (sock w.2) ->
    read_outcome on_connection on_message t w (Ok w1)
| read_no_memory : read_outcome on_connection on_message t w (Err Uncaught)
| read_text w1 d :
    quiet w w1 -> d <> [] ->
    contents (inputBuffer_ (the_conn w1)) = contents (inputBuffer_ (the_conn w)) ++ d ->
    sock_read (sock w1.2) = sock_read (sock w.2) ++ d ->
    read_outcome on_connection on_message t w
      (callback (threadId_ w1.1)
         (on_message (app w1.2) (contents (inputBuffer_ (the_conn w1))) t) w1)
| read_end w1 :
    quiet w w1 -> contents (inputBuffer_ (the_conn w1)) = contents (inputBuffer_ (the_conn w)) ->
    sock_read (sock w1.2) = sock_read (sock w.2) ->
    read_outcome on_connection on_message t w (handleClose on_connection (threadId_ w1.1) w1).

Lemma handleRead_spec on_connection on_message t w :
  conn_inv w ->
  read_outcome on_connection on_message t w (handleRead on_connection on_message (threadId_ w.1) t w).
Proof using Type*.
  intros (ch & inp & out & Hp). unfold handleRead. rewrite assertIn. rsimp.
  pose proof (readv_spec (sock w.2) (writableBytes (inputBuffer_ (the_conn w)))) as Hrd.
  destruct (sock_readv _ _) as [r k]. destruct Hrd as (Hlen & Hwire & Hfin & Hread).
  pose proof (with_sock_parts k w ch inp out Hp Hfin) as Hp1.
  assert (Hq : forall b inp', holds inp' b ->
    quiet w (with_conn (with_input b (the_conn (with_sock k w))) (with_sock k w))).
  { intros b inp' Hb. split; try done. split; [| by split].
    exists ch, inp', out. by eapply with_conn_parts. }
  destruct r as [errno | d].
  - cbn [readFd]. rsimp. cbn [Z.ltb Z.compare Z.eqb handleError mret res_ret].
    rewrite app_nil_r in Hread. by apply read_nothing; [apply (Hq _ inp), Hp1 | |].
  - pose proof (readFd_holds inp (inputBuffer_ (the_conn w)) d (cp_in _ _ _ _ Hp)) as Hb.
    specialize (Hb ltac:(apply Hlen; [apply wrapu_range; lia | done])).
    change (the_conn (with_sock k w)) with (the_conn w).
    destruct (readFd _ _) as [[[n e] b] | f]; cbn [safe] in Hb; [| subst f; apply read_no_memory].
    destruct Hb as [-> Hb]. rsimp. cbn [fst snd] in *. pose proof (Hq b _ Hb) as Hqb.
    destruct (Z.ltb_spec 0 (zlen d)).
    + rewrite (read_contents b (proj1 Hb)). rsimp. apply (read_text _ _ _ _ _ d Hqb); [by intros -> | | done].
      rewrite (proj2 (cp_in _ _ _ _ Hp)). apply Hb.
    + pose proof (zlen_nonneg d). rewrite (proj2 (Z.eqb_eq _ _)) by lia.
      rewrite (zlen_zero d), app_nil_r in Hread by lia. apply (read_end _ _ _ _ _ Hqb); [| done].
      rewrite (proj2 (cp_in _ _ _ _ Hp)). cbn. rewrite (proj2 Hb), (zlen_zero d) by lia. apply app_nil_r.
Qed.

(** The end of [handleWrite], when the last waiting byte is gone. *)
Definition finish_write (tid : Z) w : res world :=
  w ← on_channel disableWriting tid w;
  let w := if writeCompleteCallback_ (the_conn w) then queue tid TWriteComplete w else w in
  if is_state (state_ (the_conn w)) kDisconnecting then shutdownInLoop tid w else mret w.

(** What [handleWrite] does: all that waited is gone, and that is reported; or
    something still waits, or nothing did. *)
Inductive drained w w' : list task -> Prop :=
| drained_all :
    open_state (state_ (the_conn w)) ->
    contents (outputBuffer_ (the_conn w)) <> [] -> contents (outputBuffer_ (the_conn w')) = [] ->
    (sock_fin (sock w'.2) = if is_state (state_ (the_conn w)) kDisconnecting then true
                            else sock_fin (sock w.2)) -> drained w w' (completion w)
| drained_not :
    open_state (state_ (the_conn w)) \/ w' = w ->
    (contents (outputBuffer_ (the_conn w')) = [] <-> contents (outputBuffer_ (the_conn w)) = []) ->
    sock_fin (sock w'.2) = sock_fin (sock w.2) -> drained w w' [].

Lemma finish_write_spec w ch inp out b :
  conn_parts w ch inp out -> open_state (state_ (the_conn w)) -> holds [] b ->
  safe (finish_write (threadId_ w.1) (with_conn (with_output b (the_conn w)) w))
    (fun w' => good w w' /\ state_ (the_conn w') = state_ (the_conn w)
       /\ contents (outputBuffer_ (the_conn w')) = [] /\ sock_wire (sock w'.2) = sock_wire (sock w.2)
       /\ (sock_fin (sock w'.2) = if is_state (state_ (the_conn w)) kDisconnecting then true
                                  else sock_fin (sock w.2))
       /\ adds (completion w) w w').
Proof using Type*.
  intros [Hr Hi Ho Hph Hf] Hopen Hb. set (w2 := with_conn _ w).
  assert (Hev2 : evolves w w2) by (by split).
  assert (Hr2 : registered (channel_ (the_conn w2)) ch w2.1) by exact Hr.
  apply phase_open in Hph as (Hown & Harm & Hrd & _); [| done].
  unfold finish_write. change (threadId_ w.1) with (threadId_ w2.1).
  destruct (on_channel_update ev_disableWriting w2 ch Hr2)
    as (w3 & ch' & Hrun & H2 & Hadd & Hevol & Hreg' & Hfd & Hev' & Hown' & Harm'); [by right |].
  unfold disableWriting. rewrite Hrun. rsimp.
  assert (Hc3 : the_conn w3 = the_conn w2) by (unfold the_conn; by rewrite H2).
  assert (Hg3 : good w w3).
  { split; [| by transitivity w2]. exists ch', inp, []. split; rewrite ?Hc3, ?H2; try done.
    - apply phase_open; [done |].
      split_and!; [done | congruence | by rewrite Hev', reading_disableWriting |].
      unfold isWriting. by rewrite Hev', writing_disable.
    - intros Hfin'. destruct (Hf Hfin') as [| [? _]]; [by left | by right]. }
  set (w4 := if writeCompleteCallback_ _ then _ else _).
  assert (Hg4 : good w w4 /\ w4.2 = w3.2 /\ adds (completion w) w w4).
  { unfold w4, completion. rewrite Hc3. change (writeCompleteCallback_ (the_conn w2))
      with (writeCompleteCallback_ (the_conn w)). destruct (writeCompleteCallback_ (the_conn w)).
    2: { split_and!; [exact Hg3 | done | exact Hadd]. }
    split_and!; [eapply good_trans; [exact Hg3 | apply queue_good, Hg3] | done |].
    apply (adds_trans [] [TWriteComplete] w w3 _ Hadd), adds_queue. }
  clearbody w4. destruct Hg4 as (Hg4 & E4 & Hadd4).
  assert (Hc4 : the_conn w4 = the_conn w2) by (unfold the_conn in *; by rewrite E4, H2).
  assert (Hk4 : sock w4.2 = sock w.2) by (by rewrite E4, H2).
  change (is_state (state_ (the_conn w)) kDisconnecting)
    with (is_state (state_ (the_conn w2)) kDisconnecting). rewrite Hc4.
  unfold is_state. case_bool_decide as Es.
  - change (threadId_ w2.1) with (threadId_ w.1). rewrite <- (ev_thread _ _ (proj2 Hg4)).
    destruct (shutdownInLoop_spec w4 (proj1 Hg4)) as (w5 & Hrun5 & Hg5 & Hc5 & E5 & Hw5 & Ha5 & Hfin5);
      [rewrite Hc4; by left |].
    rewrite Hrun5. cbn [safe]. split_and!; [by eapply good_trans | by rewrite Hc5, Hc4
      | rewrite Hc5, Hc4; apply Hb | by rewrite Hw5, Hk4 | |].
    + rewrite Hfin5, Hc4 by (by rewrite Hc4). apply bool_decide_eq_true, Hb.
    + rewrite <- (app_nil_r (completion w)). by eapply adds_trans.
  - cbn [safe mret res_ret]. rewrite Hc4, Hk4. split_and!; try done. apply Hb.
Qed.

(** [handleWrite] hands over a prefix of what is waiting, so the stream does
    not change; when all is gone it stops watching for writability, and then
    completes a pending [shutdown]. *)
Lemma handleWrite_good w :
  conn_inv w ->
  safe (handleWrite (threadId_ w.1) w)
    (fun w' => good w w' /\ state_ (the_conn w') = state_ (the_conn w) /\ stream w' = stream w
       /\ exists ts, drained w w' ts /\ adds ts w w').
Proof using Type*.
  intros (ch & inp & out & Hp). unfold handleWrite. rewrite assertIn. rsimp.
  pose proof Hp as [Hr Hi Ho Hph Hf]. rewrite (isWriting_ok _ _ Hr). rsimp.
  destruct (isWriting ch) eqn:Ew.
  2: { cbn [safe mret res_ret]. split_and!; [by apply good_refl; exists ch, inp, out | done | done |].
       exists []. split; [apply drained_not; auto | by apply adds_nil]. }
  assert (Hopen : open_state (state_ (the_conn w))).
  { unfold isWriting in Ew. destruct (state_ (the_conn w)) eqn:Es; cbn in Hph;
      [| | by left | by right]; destruct Hph as [E0 _]; by rewrite E0 in Ew. }
  apply phase_open in Hph as (Hown & Harm & Hrd & Hwr); [| done].
  assert (Hne : out <> []) by (intros ->; by rewrite Ew in Hwr).
  rewrite (holds_readable _ _ Ho), (read_prefix _ (proj1 Ho)) by (rewrite (proj2 Ho); pose proof (zlen_nonneg out); lia).
  rsimp. rewrite (proj2 Ho), (ztake_all (zlen out)) by lia.
  pose proof (write_spec (sock w.2) out) as Hw.
  destruct (sock_write (sock w.2) out) as [[n errno] k]. destruct Hw as (Hn & Hwire & Hfin & Hread).
  pose proof (with_sock_parts k w ch inp out Hp Hfin) as Hp1.
  assert (Hev1 : evolves w (with_sock k w)) by (by split).
  destruct (Z.ltb_spec 0 n).
  2: { cbn [safe mret res_ret]. split_and!; [split; [by exists ch, inp, out | done] | done | |].
       - unfold stream. cbn [with_sock snd sock the_conn]. rewrite Hwire. unfold ztake.
         replace (Z.to_nat n) with 0%nat by lia. by rewrite app_nil_r.
       - exists []. split; [apply drained_not; auto | by apply adds_nil]. }
  destruct (retrieve_holds out (outputBuffer_ (the_conn w)) n Ho) as (b & Hret & Hb); [lia |].
  rewrite Hret. rsimp. rewrite (holds_readable _ _ Hb).
  assert (Hstr : sock_wire k ++ zdrop n out = stream w).
  { unfold stream. rewrite Hwire, (proj2 Ho), <- app_assoc. by rewrite ztake_zdrop. }
  destruct (Z.eqb_spec (zlen (zdrop n out)) 0) as [Hz | Hz].
  - apply zlen_zero in Hz. rewrite Hz in Hb, Hstr.
    eapply safe_mono; [exact (finish_write_spec (with_sock k w) ch inp out b Hp1 Hopen Hb) |].
    intros w' (Hg & Hs & Hout & Hk & Hfin' & Hadd).
    split_and!; [split; [apply Hg | etransitivity; [exact Hev1 | apply Hg]] | done | |].
    + unfold stream at 1. by rewrite Hout, Hk.
    + exists (completion w). split; [| by apply (adds_trans [] _ w (with_sock k w)), Hadd; apply adds_nil].
      apply drained_all; [done | by rewrite (proj2 Ho) | done |].
      rewrite Hfin'. cbn [with_sock snd sock]. by rewrite Hfin.
  - assert (Hne' : zdrop n out <> []) by (intros E0; by rewrite E0 in Hz).
    cbn [safe mret res_ret]. split_and!; [| done | |].
    + split; [| by split]. exists ch, inp, (zdrop n out). split; try done.
      * apply phase_open; [done |]. split_and!; try done. rewrite Ew, bool_decide_eq_false_2; done.
      * cbn [with_conn with_sock snd sock]. rewrite Hfin. intros Hfin'.
        destruct (Hf Hfin') as [| [? Hout]]; [by left | done].
    + unfold stream at 1. cbn [with_conn snd sock the_conn conn with_output outputBuffer_].
      by rewrite (proj2 Hb).
    + exists []. split; [| by apply adds_nil]. apply drained_not; [by left | | done].
      cbn [with_conn snd the_conn conn with_output outputBuffer_]. by rewrite (proj2 Hb), (proj2 Ho).
Qed.

(** The last step of [connectDestroyed]. *)
Lemma remove_channel_good w :
  conn_inv w -> state_ (the_conn w) = kDisconnected -> EventLoop.eventHandling_ w.1 = false ->
  closed_channel w ->
  exists w', on_channel chan_remove (threadId_ w.1) w = Ok w' /\ good w w' /\ w'.2 = w.2
    /\ adds [] w w'
    /\ (forall ch, chans w'.1 !! channel_ (the_conn w') = Some ch -> owner (poller_ w'.1) (fd_ ch) = None).
Proof using Type*.
  intros (ch0 & inp & out & [(Hc0 & _) Hi0 Hout0 Hph0 Hf0]) Hs Hh (ch & Hr & Hn & Ho). unfold on_channel.
  destruct (chan_remove_spec _ _ _ Hr Ho Hn) as (p & s & Hrun & Hi' & Hsame & Ho' & Ha'); [congruence |].
  rewrite Hrun. rsimp. eexists. split; [done |].
  destruct Hr as (Hc & Hl & _). destruct (same_but_index_lookup _ _ _ _ Hsame Hc) as (i & Hci).
  rewrite Hc in Hc0. injection Hc0 as <-. rewrite Hs in Hph0. destruct Hph0 as (He0 & _).
  split_and!; [| done | by apply adds_nil |].
  - split; [| by split]. exists (set_index ch i), inp, out. split; try done.
    change (phase_ok (state_ (the_conn w)) (channel_ (the_conn w)) (set_index ch i) out
      (owner p (fd_ ch)) (armed p (fd_ ch))).
    rewrite Hs, Ho', Ha', !decide_True by done. split_and!; auto.
  - intros ch1 Hc1. change (s !! channel_ (the_conn w) = Some ch1) in Hc1.
    rewrite Hci in Hc1. injection Hc1 as <-. change (owner p (fd_ ch) = None).
    by rewrite Ho', decide_True.
Qed.

(** The destruction of a connection that has been closed. *)
Lemma destroy_closed (on_connection : A -> bool -> A * list cmd) w :
  conn_inv w -> state_ (the_conn w) = kDisconnected -> EventLoop.eventHandling_ w.1 = false ->
  closed_channel w ->
  exists w', connectDestroyed on_connection (threadId_ w.1) w = Ok w' /\ good w w' /\ w'.2 = w.2
    /\ adds [] w w'
    /\ (forall ch, chans w'.1 !! channel_ (the_conn w') = Some ch -> owner (poller_ w'.1) (fd_ ch) = None).
Proof using Type*.
  intros Hinv Hs Hh Hcl. unfold connectDestroyed. rewrite assertIn. rsimp.
  unfold is_state. rewrite bool_decide_eq_false_2 by (by rewrite Hs). rsimp.
  by apply remove_channel_good.
Qed.

(** Its destruction while it is connected. *)
Lemma destroy_connected (on_connection : A -> bool -> A * list cmd) w :
  conn_inv w -> state_ (the_conn w) = kConnected -> EventLoop.eventHandling_ w.1 = false ->
  exists w', connectDestroyed on_connection (threadId_ w.1) w = Ok w' /\ good w w'
    /\ state_ (the_conn w') = kDisconnected
    /\ (forall ch, chans w'.1 !! channel_ (the_conn w') = Some ch -> owner (poller_ w'.1) (fd_ ch) = None).
Proof using Type*.
  intros Hinv Hs Hh. unfold connectDestroyed. rewrite assertIn. rsimp.
  unfold is_state. rewrite Hs, bool_decide_eq_true_2 by done. cbv zeta.
  destruct (close_channel_good w Hinv ltac:(by left)) as (w1 & -> & Hg & Hs1 & _ & _ & _ & Hcl). rsimp.
  unfold connectionCallback. rewrite <- (ev_thread _ _ (proj2 Hg)).
  destruct (callback_down (on_connection (app w1.2) (connected w1)) w1 (proj1 Hg) Hs1)
    as (w2 & -> & H2 & b & h & m & ->). rsimp.
  set (w2 := with_conn _ _) in *.
  assert (Hg2 : good w w2) by (split; [done | destruct Hg as [_ []]; by split]).
  destruct (remove_channel_good w2 H2 Hs1) as (w3 & Hrun & Hg3 & E3 & _ & Ho3); [| exact Hcl |].
  { change (EventLoop.eventHandling_ w1.1 = false). by rewrite (ev_handling _ _ (proj2 Hg)). }
  exists w3. split_and!; [exact Hrun | by eapply good_trans | | exact Ho3].
  unfold the_conn. by rewrite E3.
Qed.
End conn_steps.

(** ** The handlers *)

Section conn_handlers.
Context {P E K A : Type} `{!EventFd E, !Socket K, !PollerOps (loop_cb conn_cb) P}.
Context `{!SocketLaws K, !PollerSpec (loop_cb conn_cb) P}.
Local Abbreviation Loop := (EventLoop conn_cb task P E).
Local Abbreviation world := (Loop * rest K A)%type.
Implicit Types w : world.

Variables (on_connection : A -> bool -> A * list cmd)
          (on_message : A -> list byte -> Z -> A * list cmd)
          (on_writeComplete : A -> A * list cmd)
          (on_highWaterMark : A -> Z -> A * list cmd).
(** No application sends a message of 2^62 bytes. *)
Hypothesis connection_ok : forall a b, Forall cmd_ok (on_connection a b).2.
Hypothesis message_ok : forall a d t, zlen d < 2 ^ 63 -> Forall cmd_ok (on_message a d t).2.
Hypothesis writeComplete_ok : forall a, Forall cmd_ok (on_writeComplete a).2.
Hypothesis highWaterMark_ok : forall a n, Forall cmd_ok (on_highWaterMark a n).2.

Lemma connectionCallback_good w :
  conn_inv w -> safe (connectionCallback on_connection (threadId_ w.1) w) (good w).
Proof using Type*. intros Hinv. by apply callback_good. Qed.

Lemma connectEstablished_good self w :
  conn_inv w -> state_ (the_conn w) = kConnecting ->
  safe (connectEstablished on_connection (threadId_ w.1) self w) (good w).
Proof using Type*.
  intros Hinv Es. destruct (establish_good on_connection self w Hinv Es) as (w1 & -> & Hg & _).
  eapply safe_mono; [apply connectionCallback_good, Hg |]. intros w'. by apply good_trans.
Qed.

Lemma handleClose_good w :
  conn_inv w -> open_state (state_ (the_conn w)) ->
  safe (handleClose on_connection (threadId_ w.1) w) (good w).
Proof using Type*.
  intros Hinv Ho. destruct (handleClose_spec on_connection w Hinv Ho) as (w1 & -> & Hg & _).
  eapply safe_bind; [apply callback_good; [apply Hg | apply connection_ok] |].
  intros w2 Hg2. eapply good_trans; [exact Hg |]. eapply good_trans; [exact Hg2 |]. apply queue_good, Hg2.
Qed.

Lemma handleRead_good t w :
  conn_inv w -> open_state (state_ (the_conn w)) ->
  safe (handleRead on_connection on_message (threadId_ w.1) t w) (good w).
Proof using Type*.
  intros Hinv Hopen.
  destruct (handleRead_spec on_connection on_message t w Hinv) as [w1 Hq _ _ | | w1 d Hq _ _ _ | w1 Hq _ _]; [apply Hq | done | |];
    pose proof (qu_good _ _ Hq) as Hg.
  - eapply safe_mono; [apply callback_good; [apply Hg | apply message_ok, input_small, Hg] |]. intros w'. by apply good_trans.
  - eapply safe_mono; [apply handleClose_good; [apply Hg | by rewrite (qu_state _ _ Hq)] |].
    intros w'. by apply good_trans.
Qed.

Lemma connectDestroyed_good w :
  conn_inv w -> state_ (the_conn w) = kConnected \/ state_ (the_conn w) = kDisconnected ->
  EventLoop.eventHandling_ w.1 = false ->
  (forall ch, chans w.1 !! channel_ (the_conn w) = Some ch ->
     owner (poller_ w.1) (fd_ ch) = Some (channel_ (the_conn w))) ->
  exists w', connectDestroyed on_connection (threadId_ w.1) w = Ok w' /\ good w w'.
Proof using EventFd0 SocketLaws0 PollerSpec0.
  intros Hinv [Hst | Hst] Hev Hown.
  - destruct (destroy_connected on_connection w Hinv Hst Hev) as (w' & ? & ? & _). by exists w'.
  - assert (Hcl : closed_channel w).
    { destruct Hinv as (ch & inp & out & [Hr Hi Ho Hph Hf]). rewrite Hst in Hph.
      destruct Hph as (He & _ & _). exists ch. split_and!; [done | | apply Hown, Hr].
      unfold isNoneEvent. by rewrite He. }
    destruct (destroy_closed on_connection w Hinv Hst Hev Hcl) as (w' & ? & ? & _). by exists w'.
Qed.

(** ** Properties *)

(** Everything that can happen to a connection: its channel's callbacks, its
    closures in the loop, and calls of the public API from any thread. *)
Inductive conn_event : Type :=
| EvCallback (cb : conn_cb) (receiveTime : Z)
| EvTask (self : Z) (t : task)
| EvSend (tid : Z) (d : list byte)
| EvShutdown (tid : Z).

Definition run_event (e : conn_event) (w : world) : res world :=
  match e with
  | EvCallback cb t => call_read_conn on_connection on_message (threadId_ w.1) cb t w
  | EvTask self t => exec on_connection on_writeComplete on_highWaterMark (threadId_ w.1) self t w
  | EvSend tid d => send tid d w
  | EvShutdown tid => shutdown tid w
  end.

(** When each can happen: the channel reports reading and closing only while it
    is enabled; a queued send runs while the sending side is open; a queued
    shutdown follows [shutdown]; [connectEstablished] and [connectDestroyed] are
    called once, in this order, the latter from the queue of the loop. *)
Definition possible w (e : conn_event) : Prop :=
  match e with
  | EvCallback CbRead _ | EvCallback CbClose _ => open_state (state_ (the_conn w))
  | EvCallback CbWrite _ | EvCallback CbError _ => True
  | EvTask _ (TSendInLoop d) => can_send w /\ zlen d < 2 ^ 63
  | EvTask _ TShutdownInLoop =>
      state_ (the_conn w) = kDisconnecting \/ state_ (the_conn w) = kDisconnected
  | EvTask _ TWriteComplete | EvTask _ (THighWaterMark _) => True
  | EvTask _ TConnectEstablished => state_ (the_conn w) = kConnecting
  | EvTask _ TConnectDestroyed =>
      state_ (the_conn w) <> kConnecting
      /\ EventLoop.eventHandling_ w.1 = false
      /\ (forall ch, chans w.1 !! channel_ (the_conn w) = Some ch ->
            owner (poller_ w.1) (fd_ ch) = Some (channel_ (the_conn w)))
  | EvSend _ d => zlen d < 2 ^ 63
  | EvShutdown _ => True
  end.

(** The connection is destroyed between [shutdown] and the peer's close. *)
Definition destroys_half_closed w (e : conn_event) : bool :=
  match e with
  | EvTask _ TConnectDestroyed => is_state (state_ (the_conn w)) kDisconnecting
  | _ => false
  end.

(** Destroying a connection between [shutdown] and the peer's close (as
    [~TcpServer] does with every connection it still has) fails the assertion
    of [Channel::remove]: [connectDestroyed] disables the channel only in the
    state [kConnected], and in [kDisconnecting] it is still watched. *)
Lemma half_closed_destroy_fails w :
  conn_inv w -> state_ (the_conn w) = kDisconnecting ->
  connectDestroyed on_connection (threadId_ w.1) w = Err AssertFail.
Proof using EventFd0 SocketLaws0 PollerSpec0.
  clear connection_ok message_ok writeComplete_ok highWaterMark_ok
    on_message on_writeComplete on_highWaterMark.
  intros (ch & inp & out & [Hr Hi Ho Hph Hf]) Hs. unfold connectDestroyed. rewrite assertIn. rsimp.
  unfold is_state. rewrite Hs, bool_decide_eq_false_2 by done. rsimp.
  unfold on_channel, chan_remove. rewrite (load_chan_ok _ _ _ Hr). rsimp.
  apply phase_open in Hph as (_ & _ & Hrd & _); [| by right].
  unfold isNoneEvent. destruct (Z.eqb_spec (events_ ch) kNoneEvent) as [E0 |]; [| done].
  rewrite E0 in Hrd. done.
Qed.

(** C3: What an event does to a connection, whatever the application does in its
    callbacks.  The events are those that can happen ([possible]): reading and
    closing are reported while the channel is enabled, writability and errors at
    any time; queued sends run while the sending side is open, queued shutdowns
    after [shutdown]; the connection is established once and then destroyed once;
    and any thread calls [send] (below 2^63 bytes) and [shutdown].  Each of them
    keeps the connection's invariant, fails no assertion, and moves the state
    only forward (connecting, connected, disconnecting, disconnected): the
    channel is registered exactly in the open states, it is watched for
    writability exactly while there is something to write, and the sending side
    is shut down only when everything was written.  There is one exception:
    destroying a connection that is half closed (disconnecting) always fails the
    assertion of [Channel::remove]. *)
Theorem conn_event_safe e w :
  conn_inv w -> possible w e ->
  if destroys_half_closed w e then run_event e w = Err AssertFail
  else safe (run_event e w) (fun w' => conn_inv w'
         /\ rank (state_ (the_conn w)) <= rank (state_ (the_conn w'))).
Proof using Type*.
  intros Hinv Hl. destruct (destroys_half_closed w e) eqn:Ehalf.
  { destruct e as [| self [| | | | |] | |]; try done.
    cbn [run_event exec]. apply half_closed_destroy_fails; [done | by apply bool_decide_eq_true in Ehalf]. }
  assert (Hgood : safe (run_event e w) (good w)).
  2: { eapply safe_mono; [exact Hgood |]. intros w' [H1 H2]. split; [done | apply H2]. }
  destruct e as [cb t | self t | tid d | tid]; cbn [run_event possible destroys_half_closed] in *.
  - destruct cb; cbn [call_read_conn call_conn].
    + by apply handleRead_good.
    + eapply safe_mono; [by apply handleWrite_good |]. by intros w' [? _].
    + by apply handleClose_good.
    + by apply good_refl.
  - destruct t as [d | | | n | |]; cbn [exec].
    + destruct Hl. eapply safe_mono; [by apply sendInLoop_spec |]. by intros w' [? _].
    + destruct (shutdownInLoop_spec w Hinv Hl) as (w' & -> & ? & _). done.
    + by apply callback_good.
    + by apply callback_good.
    + by apply connectEstablished_good.
    + destruct Hl as (Hs & Hh & Ho). apply bool_decide_eq_false in Ehalf.
      assert (Hs' : state_ (the_conn w) = kConnected \/ state_ (the_conn w) = kDisconnected)
        by (destruct (state_ (the_conn w)); auto; done).
      by destruct (connectDestroyed_good w Hinv Hs' Hh Ho) as (w' & -> & ?).
  - destruct (decide (tid = threadId_ w.1)) as [-> | Hne].
    + eapply safe_mono; [by apply (run_cmd_spec (Send d)) |]. by intros w' [? _].
    + unfold send. case_match; [| by apply good_refl]. unfold isInLoopThread.
      rewrite (proj2 (Z.eqb_neq _ _)) by done. by apply queue_good.
  - destruct (decide (tid = threadId_ w.1)) as [-> | Hne].
    + eapply safe_mono; [by apply (run_cmd_spec Shutdown) |]. by intros w' [? _].
    + unfold shutdown, is_state. case_bool_decide as Es; [| by apply good_refl].
      unfold isInLoopThread. cbn [with_conn fst]. rewrite (proj2 (Z.eqb_neq _ _)) by done.
      pose proof (setState_good w kDisconnecting Hinv Es ltac:(by right)) as Hg.
      cbn [safe mret res_ret]. eapply good_trans; [exact Hg |]. apply queue_good, Hg.
Qed.

(** C2: What is sent arrives in order and unmixed: a message sent in the loop's
    thread goes right behind everything sent before, part of it into the
    kernel at once when nothing waits and the rest into the output buffer;
    only a broken pipe discards it. *)
Theorem send_appends_to_stream d w :
  conn_inv w -> state_ (the_conn w) = kConnected -> zlen d < 2 ^ 63 ->
  safe (send (threadId_ w.1) d w)
    (fun w' => conn_inv w' /\ state_ (the_conn w') = kConnected
       /\ (stream w' = stream w ++ d \/ (broken_pipe w d /\ stream w' = stream w))).
Proof using EventFd0 SocketLaws0 PollerSpec0.
  clear connection_ok message_ok writeComplete_ok highWaterMark_ok
    on_connection on_message on_writeComplete on_highWaterMark.
  intros Hinv Hs Hd. unfold send, is_state. rewrite bool_decide_eq_true_2, isIn by done.
  eapply safe_mono; [apply sendInLoop_spec; [done | by apply can_send_connected | done] |].
  intros w' (Hg & Hs' & _ & Hstr). rewrite Hs'. split_and!; [apply Hg | done |].
  apply Hstr. by left.
Qed.

(** A writable socket takes the waiting bytes in order, and [shutdown] is not
    lost: when the last byte of a closing connection has been handed over the
    sending side is shut down, and the kernel then has the whole stream. *)
Theorem handleWrite_drains_then_shuts_down w :
  conn_inv w -> state_ (the_conn w) = kDisconnecting -> contents (outputBuffer_ (the_conn w)) <> [] ->
  safe (handleWrite (threadId_ w.1) w)
    (fun w' => conn_inv w' /\ stream w' = stream w
       /\ (contents (outputBuffer_ (the_conn w')) = [] ->
             sock_fin (sock w'.2) = true /\ sock_wire (sock w'.2) = stream w)).
Proof using EventFd0 SocketLaws0 PollerSpec0.
  clear connection_ok message_ok writeComplete_ok highWaterMark_ok
    on_connection on_message on_writeComplete on_highWaterMark.
  intros Hinv Hs Hne. eapply safe_mono; [by apply handleWrite_good |].
  intros w' (Hg & _ & Hstr & ts & Hdr & _). split_and!; [apply Hg | done |]. intros Hout. split.
  - destruct Hdr as [_ _ _ Hfin | _ Hout' _]; [| by apply Hout' in Hout]. by rewrite Hs in Hfin.
  - rewrite <- Hstr. unfold stream. by rewrite Hout, app_nil_r.
Qed.

(** [shutdown] with bytes still waiting does not cut them off: nothing is lost
    and the sending side stays open; with nothing waiting it is shut down at
    once. *)
Theorem shutdown_waits_for_output w :
  conn_inv w -> state_ (the_conn w) = kConnected ->
  exists w', shutdown (threadId_ w.1) w = Ok w' /\ conn_inv w'
    /\ state_ (the_conn w') = kDisconnecting /\ stream w' = stream w
    /\ sock_fin (sock w'.2) = bool_decide (contents (outputBuffer_ (the_conn w)) = []).
Proof using EventFd0 SocketLaws0 PollerSpec0.
  clear connection_ok message_ok writeComplete_ok highWaterMark_ok
    on_connection on_message on_writeComplete on_highWaterMark.
  intros Hinv Hs. unfold shutdown, is_state. rewrite bool_decide_eq_true_2 by done.
  set (w1 := with_conn _ w).
  pose proof (setState_good w kDisconnecting Hinv Hs ltac:(by right)) as Hg1. fold w1 in Hg1.
  change (threadId_ w.1) with (threadId_ w1.1). rewrite isIn.
  destruct (shutdownInLoop_spec w1 (proj1 Hg1) ltac:(by left))
    as (w' & Hr & Hg & Hc & _ & Hw & _ & Hfin).
  exists w'. split_and!; [done | apply Hg | by rewrite Hc | | by apply Hfin].
  unfold stream. by rewrite Hw, Hc.
Qed.

End conn_handlers.

(** ** A connection on an epoll loop, over a socket that takes a few bytes at a time *)

Record demo_sock : Type := mkDemoSock {
  d_wire : list byte; d_fin : bool; d_input : list byte; d_take : Z; d_read : list byte
}.

Definition demo_write (k : demo_sock) (d : list byte) : Z * Z * demo_sock :=
  if d_fin k then (-1, EPIPE, k)
  else let n := Z.min (zlen d) (Z.max 0 (d_take k)) in
       (n, 0, mkDemoSock (d_wire k ++ ztake n d) (d_fin k) (d_input k) (d_take k) (d_read k)).

#[export] Instance demo_socket : Socket demo_sock :=
  {| sock_write := demo_write;
     sock_readv := fun k n =>
       let d := ztake (n + kExtraBuf) (d_input k) in
       (ReadvOk d,
        mkDemoSock (d_wire k) (d_fin k) (zdrop (n + kExtraBuf) (d_input k)) (d_take k) (d_read k ++ d));
     sock_shutdownWrite := fun k => mkDemoSock (d_wire k) true (d_input k) (d_take k) (d_read k);
     sock_wire := d_wire; sock_fin := d_fin; sock_read := d_read |}.

Lemma ztake_max (n : Z) (l : list byte) : 0 <= n -> zlen (ztake n l) <= n.
Proof. unfold zlen, ztake. rewrite length_take. lia. Qed.

#[export] Instance demo_socket_laws : SocketLaws demo_sock.
Proof.
  split.
  - intros k d. cbn. unfold demo_write. destruct (d_fin k) eqn:Hf; cbn.
    + pose proof (zlen_nonneg d). split_and!; [lia | exact (eq_sym (app_nil_r _)) | done | done].
    + split_and!; [lia | done | done | done].
  - intros k n. cbn. split_and!; [| done | done | done]. intros d Hn [= <-].
    apply ztake_max. unfold kExtraBuf. lia.
  - done.
Defined.

Abbreviation demo_world :=
  (EventLoop conn_cb task (EPollPoller demo_epoll) demo_counter * rest demo_sock nat)%type.

Definition demo_conn_loop : EventLoop conn_cb task (EPollPoller demo_epoll) demo_counter :=
  {| looping_ := true; quit_ := false; EventLoop.eventHandling_ := false;
     callingPendingFunctors_ := false; iteration_ := 0; threadId_ := 1; pollReturnTime_ := 0;
     poller_ := EPollPoller_new (mkDemoEpoll ∅);
     chans := <[20 := conn_channel 1 9]> ∅;
     wakeupFd_ := mkCounter 0; wakeupChannel_ := 7; activeChannels_ := [];
     currentActiveChannel_ := None; pendingFunctors_ := [] |}.

(** Before [connectEstablished]; the kernel takes three bytes per write. *)
Definition demo_conn_new : demo_world :=
  (demo_conn_loop, mkRest (TcpConnection_new 20) (mkDemoSock [] false (bs "hello") 3 []) 0%nat).

(** An echo server that consumes what it echoes, and counts its messages. *)
Definition echo_connection (a : nat) (_ : bool) : nat * list cmd := (a, []).
Definition echo_message (a : nat) (d : list byte) (_ : Z) : nat * list cmd := (S a, [RetrieveAll; Send (bs "ok")]).
Definition echo_quiet (a : nat) : nat * list cmd := (a, []).
Definition echo_mark (a : nat) (_ : Z) : nat * list cmd := (a, []).

Lemma echo_ok_connection a b : Forall cmd_ok (echo_connection a b).2.
Proof. constructor. Qed.
Lemma echo_ok_message a d t : zlen d < 2 ^ 63 -> Forall cmd_ok (echo_message a d t).2.
Proof. repeat constructor. Qed.
Lemma echo_ok_quiet a : Forall cmd_ok (echo_quiet a).2.
Proof. constructor. Qed.
Lemma echo_ok_mark a n : Forall cmd_ok (echo_mark a n).2.
Proof. constructor. Qed.

Lemma demo_conn_new_inv : conn_inv demo_conn_new.
Proof.
  exists (conn_channel 1 9), [], []. split.
  - split; [reflexivity |]. split; [reflexivity |].
    apply epoll_inv_fresh; [| reflexivity | reflexivity]. split.
    + intros fd. reflexivity.
    + intros c ch Hc. by rewrite lookup_empty in Hc.
  - apply holds_new.
  - apply holds_new.
  - split_and!; reflexivity.
  - intros Hf. discriminate Hf.
Qed.

(** The world after a run that is known to succeed. *)
Definition after (m : res demo_world) : demo_world := match m with Ok w => w | Err _ => demo_conn_new end.
Definition succeeds (m : res demo_world) : bool := match m with Ok _ => true | Err _ => false end.

Lemma after_safe m (Q : demo_world -> Prop) : succeeds m = true -> safe m Q -> Q (after m).
Proof. by destruct m. Qed.

Definition demo_conn_up : demo_world := after (connectEstablished echo_connection 1 5 demo_conn_new).
(** Ten bytes sent: three are taken, seven wait. *)
Definition demo_conn_sent : demo_world := after (sendInLoop 1 (bs "0123456789") demo_conn_up).
Definition demo_conn_closing : demo_world := after (shutdown 1 demo_conn_sent).

Lemma demo_conn_up_thread : threadId_ demo_conn_up.1 = 1.
Proof. vm_compute. reflexivity. Qed.
Lemma demo_conn_sent_thread : threadId_ demo_conn_sent.1 = 1.
Proof. vm_compute. reflexivity. Qed.

Lemma demo_conn_up_inv : conn_inv demo_conn_up.
Proof.
  apply (after_safe _ (good demo_conn_new)); [vm_compute; reflexivity |].
  apply (connectEstablished_good echo_connection echo_message echo_quiet echo_mark);
    auto using echo_ok_connection, echo_ok_message, echo_ok_quiet, echo_ok_mark, demo_conn_new_inv.
Qed.
Lemma demo_conn_sent_inv : conn_inv demo_conn_sent.
Proof.
  apply (after_safe _ (fun w => conn_inv w)); [vm_compute; reflexivity |].
  pose proof (sendInLoop_spec (bs "0123456789") demo_conn_up demo_conn_up_inv) as Hs.
  rewrite demo_conn_up_thread in Hs. eapply safe_mono; [apply Hs |].
  - split; vm_compute; discriminate.
  - reflexivity.
  - intros w' [Hg _]. apply Hg.
Qed.
Lemma demo_conn_closing_inv : conn_inv demo_conn_closing.
Proof.
  apply (after_safe _ (fun w => conn_inv w)); [vm_compute; reflexivity |].
  pose proof (run_cmd_spec Shutdown demo_conn_sent demo_conn_sent_inv I) as Hs.
  rewrite demo_conn_sent_thread in Hs. cbn [run_cmd] in Hs.
  eapply safe_mono; [exact Hs |]. intros w' [Hg _]. apply Hg.
Qed.

Lemma conn_event_safe_witness :
  safe (run_event echo_connection echo_message echo_quiet echo_mark (EvCallback CbRead 0) demo_conn_up)
    (fun w' => conn_inv w' /\ rank (state_ (the_conn demo_conn_up)) <= rank (state_ (the_conn w')))
  /\ run_event echo_connection echo_message echo_quiet echo_mark (EvTask 0 TConnectDestroyed) demo_conn_closing
     = Err AssertFail.
Proof.
  split.
  - apply (conn_event_safe echo_connection echo_message echo_quiet echo_mark
      echo_ok_connection echo_ok_message echo_ok_quiet echo_ok_mark (EvCallback CbRead 0) demo_conn_up
      demo_conn_up_inv).
    left. vm_compute. reflexivity.
  - apply (conn_event_safe echo_connection echo_message echo_quiet echo_mark
      echo_ok_connection echo_ok_message echo_ok_quiet echo_ok_mark (EvTask 0 TConnectDestroyed) demo_conn_closing
      demo_conn_closing_inv).
    split; [by_evaluation |]. split; [vm_compute; reflexivity |].
    intros ch Hch. vm_compute in Hch. injection Hch as <-. vm_compute. reflexivity.
Defined.

Lemma send_appends_to_stream_witness :
  safe (send (threadId_ demo_conn_up.1) (bs "0123456789") demo_conn_up)
    (fun w' => conn_inv w' /\ state_ (the_conn w') = kConnected
       /\ (stream w' = stream demo_conn_up ++ bs "0123456789"
           \/ (broken_pipe demo_conn_up (bs "0123456789") /\ stream w' = stream demo_conn_up))).
Proof.
  apply (send_appends_to_stream (bs "0123456789") demo_conn_up demo_conn_up_inv);
    vm_compute; reflexivity.
Defined.

Lemma handleWrite_drains_then_shuts_down_witness :
  safe (handleWrite (threadId_ demo_conn_closing.1) demo_conn_closing)
    (fun w' => conn_inv w' /\ stream w' = stream demo_conn_closing
       /\ (contents (outputBuffer_ (the_conn w')) = [] ->
             sock_fin (sock w'.2) = true /\ sock_wire (sock w'.2) = stream demo_conn_closing)).
Proof.
  apply (handleWrite_drains_then_shuts_down demo_conn_closing demo_conn_closing_inv).
  - vm_compute. reflexivity.
  - vm_compute. discriminate.
Defined.

Lemma shutdown_waits_for_output_witness :
  exists w', shutdown (threadId_ demo_conn_sent.1) demo_conn_sent = Ok w' /\ conn_inv w'
    /\ sock_fin (sock w'.2) = false.
Proof.
  destruct (shutdown_waits_for_output demo_conn_sent demo_conn_sent_inv) as (w' & Hr & Hi & _ & _ & Hf).
  - vm_compute. reflexivity.
  - exists w'. split; [exact Hr |]. split; [exact Hi |]. rewrite Hf. vm_compute. reflexivity.
Defined.
