(* ===== verification/Atomic.v ===== *)
(** * Atomic: integers that threads share without a lock

    [base/Atomic.h].  An operation is one step: what it returns and the value it
    leaves.  The integer has [w] bits; the compiler's builtins wrap. *)
From S2P Require Import Prelude.

Module AtomicInteger.
Section atomic.
Variable w : Z.

Implicit Types value : Z.

(** The constructor leaves 0. *)
(*@ muduo/muduo/base/Atomic.h 29-32 AtomicIntegerT::AtomicIntegerT *)
Definition AtomicIntegerT_new : Z := 0.

(*@ muduo/muduo/base/Atomic.h 48-59 AtomicIntegerT::get *)
Definition get value : Z * Z := (value, value).
(*@ muduo/muduo/base/Atomic.h 62-66 AtomicIntegerT::getAndAdd *)
Definition getAndAdd (x : Z) value : Z * Z := (value, wraps w (value + x)).
(*@ muduo/muduo/base/Atomic.h 69-72 AtomicIntegerT::addAndGet *)
Definition addAndGet (x : Z) value : Z * Z :=
  let '(old, value) := getAndAdd x value in (wraps w (old + x), value).
(*@ muduo/muduo/base/Atomic.h 75-78 AtomicIntegerT::incrementAndGet *)
Definition incrementAndGet value : Z * Z := addAndGet 1 value.
(*@ muduo/muduo/base/Atomic.h 81-84 AtomicIntegerT::decrementAndGet *)
Definition decrementAndGet value : Z * Z := addAndGet (-1) value.
(*@ muduo/muduo/base/Atomic.h 87-90 AtomicIntegerT::add *)
Definition add (x : Z) value : Z := (getAndAdd x value).2.
(*@ muduo/muduo/base/Atomic.h 92-95 AtomicIntegerT::increment *)
Definition increment value : Z := (incrementAndGet value).2.
(*@ muduo/muduo/base/Atomic.h 97-100 AtomicIntegerT::decrement *)
Definition decrement value : Z := (decrementAndGet value).2.
(*@ muduo/muduo/base/Atomic.h 103-109 AtomicIntegerT::getAndSet *)
Definition getAndSet (newValue value : Z) : Z * Z := (value, newValue).

(** What is returned is what is left. *)
Lemma addAndGet_returns x value : (addAndGet x value).1 = (addAndGet x value).2.
Proof using. done. Qed.

Hypothesis width : 0 < w.

(** A counter that every thread adds to holds the sum of what was added, in
    whatever order, modulo 2^w. *)
Lemma wraps_add_l a b : wraps w (wraps w a + b) = wraps w (a + b).
Proof using width.
  rewrite <- (wraps_wrapu w (wraps w a + b)), <- (wraps_wrapu w (a + b)). f_equal.
  unfold wrapu. rewrite <- (Zplus_mod_idemp_l (wraps w a)), <- (Zplus_mod_idemp_l a).
  f_equal. f_equal. exact (wrapu_wraps w a width).
Qed.

Lemma adds_sum xs : forall value,
  - 2 ^ (w - 1) <= value < 2 ^ (w - 1) ->
  fold_left (fun v x => add x v) xs value = wraps w (value + foldr Z.add 0 xs).
Proof using width.
  induction xs as [| x xs IH]; intros value Hv; cbn [fold_left foldr].
  - rewrite Z.add_0_r, wraps_small; done.
  - rewrite IH by (by apply wraps_range). cbn [add getAndAdd snd]. rewrite wraps_add_l. f_equal. lia.
Qed.

(** Tickets: the values that [incrementAndGet] hands out are all different. *)
Fixpoint tickets (n : nat) value : list Z * Z :=
  match n with
  | O => ([], value)
  | S n => let '(t, value) := incrementAndGet value in let '(ts, value) := tickets n value in (t :: ts, value)
  end.

Lemma tickets_distinct n : forall value,
  - 2 ^ (w - 1) <= value -> value + Z.of_nat n < 2 ^ (w - 1) ->
  tickets n value = (seqZ (value + 1) (Z.of_nat n), value + Z.of_nat n).
Proof using width.
  induction n as [| n IH]; intros value Hl Hh; cbn [tickets].
  - f_equal. lia.
  - unfold incrementAndGet, addAndGet, getAndAdd. rewrite wraps_small, IH by lia.
    rewrite (seqZ_cons (value + 1)) by lia. f_equal; [f_equal; f_equal; lia | lia].
Qed.
End atomic.
End AtomicInteger.
