(* ===== verification/FileUtil.v ===== *)
(** * FileUtil: reading small files

    [base/FileUtil.h], [FileUtil.cc]: [SmallFile] and [readFile].  The system
    calls are the class [Files], what they promise about regular files is
    [FilesLaws]: a read may be short, may fail, and returns nothing only at the
    end of the file. *)
From S2P Require Import Prelude.

(** ** The system *)

(** What the code looks at of a [struct stat]. *)
Record stat : Type := mkStat {
  st_isreg : bool;
  st_isdir : bool;
  st_size : Z;
  st_mtime : Z;
  st_ctime : Z
}.

(** A call gives a result or an [errno]. *)
Class Files (K : Type) := {
  sys_open : list byte -> K -> (Z + Z) * K;
  sys_close : Z -> K -> K;
  sys_fstat : Z -> K -> stat + Z;
  sys_read : Z -> Z -> K -> (list byte + Z) * K;
  sys_pread : Z -> Z -> K -> list byte + Z
}.

(** [sys_pread fd n]: at most [n] bytes from the beginning of the file.
    [opened k fd F l]: descriptor [fd] is at a regular file that holds [F], of
    which [l] has not been read. *)
Class FilesLaws (K : Type) `{!Files K} := {
  file_at : K -> list byte -> list byte -> Prop;
  opened : K -> Z -> list byte -> list byte -> Prop;
  open_law name F k : file_at k name F ->
    match sys_open name k with
    | (inl fd, k') => 0 <= fd /\ opened k' fd F F
    | (inr e, _) => 0 < e
    end;
  fstat_law fd F l k : opened k fd F l ->
    match sys_fstat fd k with
    | inl st => st_isreg st = true /\ st_size st = zlen F
    | inr e => 0 < e
    end;
  read_law fd F l n k : opened k fd F l -> 0 < n ->
    match sys_read fd n k with
    | (inl d, k') => zlen d <= n /\ (d = [] -> l = []) /\ exists l', l = d ++ l' /\ opened k' fd F l'
    | (inr e, _) => 0 < e
    end;
  pread_law fd F l n k : opened k fd F l -> 0 < n ->
    match sys_pread fd n k with
    | inl d => zlen d <= n /\ (d = [] -> F = []) /\ d `prefix_of` F
    | inr e => 0 < e
    end
}.

(** ** SmallFile *)

(*@ muduo/muduo/base/FileUtil.h 44-44 FileUtil::SmallFile::kBufferSize *)
Definition kBufferSize : Z := 65536.
Definition EISDIR : Z := 21.
Definition string_max_size : Z := 2 ^ 63 - 1.

Section files.
Context {K : Type} `{!Files K}.

(** [buf_] up to the terminator, as [buffer()] shows it. *)
(*@ muduo/muduo/base/FileUtil.h 48-52 FileUtil::SmallFile *)
Record SmallFile : Type := mkSmallFile { fd_ : Z; err_ : Z; buf_ : list byte }.

(*@ muduo/muduo/base/FileUtil.cc 22-32 FileUtil::SmallFile::SmallFile *)
Definition SmallFile_new (filename : list byte) (k : K) : SmallFile * K :=
  match sys_open filename k with
  | (inl fd, k) => (mkSmallFile fd 0 [], k)
  | (inr errno, k) => (mkSmallFile (-1) errno [], k)
  end.

(*@ muduo/muduo/base/FileUtil.cc 36-42 FileUtil::SmallFile::~SmallFile *)
Definition SmallFile_dtor (f : SmallFile) (k : K) : K :=
  if 0 <=? fd_ f then sys_close (fd_ f) k else k.

(** The three numbers a caller may ask for; [None]: not written. *)
Record times : Type := mkTimes { fileSize : option Z; modifyTime : option Z; createTime : option Z }.

(** [content->reserve(n)] throws when [n], as a [size_t], is too much. *)
Definition string_reserve (n : Z) : res unit :=
  if u64 n <=? string_max_size then mret tt else Err Uncaught.
Definition string_append (content d : list byte) : res (list byte) :=
  if zlen content + zlen d <=? string_max_size then mret (content ++ d) else Err Uncaught.

(** The [fstat] part: the error so far, and what was written.  [wantM] and
    [wantC]: whether the pointers are there. *)
Definition stat_part (maxSize : Z) (wantM wantC : bool) (fd err : Z) (k : K) : res (Z * times) :=
  match sys_fstat fd k with
  | inl statbuf =>
      err ← (if st_isreg statbuf
             then string_reserve (s32 (Z.min maxSize (st_size statbuf)));; mret err
             else mret (if st_isdir statbuf then EISDIR else err));
      mret (err, mkTimes (if st_isreg statbuf then Some (st_size statbuf) else None)
                   (if wantM then Some (st_mtime statbuf) else None)
                   (if wantC then Some (st_ctime statbuf) else None))
  | inr errno => mret (errno, mkTimes None None None)
  end.

(** [while (content->size() < implicit_cast<size_t>(maxSize))]. *)
Fixpoint read_loop (fuel : nat) (maxSize fd : Z) (content : list byte) (err : Z) (k : K)
    : res (Z * list byte * K) :=
  match fuel with
  | O => Err OutOfFuel
  | S fuel =>
      if zlen content <? u64 maxSize
      then
        let toRead := Z.min (u64 maxSize - zlen content) kBufferSize in
        match sys_read fd toRead k with
        | (inl [], k) => mret (err, content, k)
        | (inl d, k) => content ← string_append content d; read_loop fuel maxSize fd content err k
        | (inr errno, k) => mret (errno, content, k)
        end
      else mret (err, content, k)
  end.

(** [turns] bounds the turns of the loop: every one reads something, so the
    length of the file and one more are enough, and so is [maxSize] and one
    more. *)
(*@ muduo/muduo/base/FileUtil.cc 46-120 FileUtil::SmallFile::readToString *)
Definition readToString (turns : nat) (maxSize : Z) (wantSize wantM wantC : bool) (content : list byte)
    (f : SmallFile) (k : K) : res (Z * list byte * times * K) :=
  let err := err_ f in
  if 0 <=? fd_ f
  then
    '(err, ts) ← (if wantSize then stat_part maxSize wantM wantC (fd_ f) err k
                  else mret (err, mkTimes None None None));
    '(err, content, k) ← read_loop turns maxSize (fd_ f) [] err k;
    mret (err, content, ts, k)
  else mret (err, content, mkTimes None None None, k).

(*@ muduo/muduo/base/FileUtil.cc 124-144 FileUtil::SmallFile::readToBuffer *)
Definition readToBuffer (f : SmallFile) (k : K) : Z * option Z * SmallFile :=
  if 0 <=? fd_ f
  then
    match sys_pread (fd_ f) (kBufferSize - 1) k with
    | inl d => (err_ f, Some (s32 (zlen d)), mkSmallFile (fd_ f) (err_ f) d)
    | inr errno => (errno, None, f)
    end
  else (err_ f, None, f).

(*@ muduo/muduo/base/FileUtil.h 58-67 FileUtil::readFile *)
Definition readFile (turns : nat) (filename : list byte) (maxSize : Z) (wantSize wantM wantC : bool)
    (content : list byte) (k : K) : res (Z * list byte * times * K) :=
  let '(file, k) := SmallFile_new filename k in
  '(err, content, ts, k) ← readToString turns maxSize wantSize wantM wantC content file k;
  mret (err, content, ts, SmallFile_dtor file k).

(** ** What is read *)

Context `{!FilesLaws K}.

Lemma file_loop_ok maxSize fd F err0 : 0 <= maxSize < 2 ^ 31 -> forall fuel l content k,
  opened k fd F l -> zlen content <= maxSize ->
  (length l < fuel)%nat \/ (Z.to_nat (maxSize - zlen content) < fuel)%nat ->
  exists err content' k', read_loop fuel maxSize fd content err0 k = Ok (err, content', k')
    /\ ((err = err0 /\ content' = content ++ ztake (maxSize - zlen content) l)
        \/ (0 < err /\ exists d, content' = content ++ d /\ d `prefix_of` l /\ zlen content' < maxSize)).
Proof using.
  intros Hm. induction fuel as [| fuel IH]; intros l content k Ho Hc Hf; [lia |]. cbn [read_loop].
  unfold u64. rewrite wrapu_small by lia. destruct (Z.ltb_spec (zlen content) maxSize) as [Hl | Hl].
  - set (n := Z.min _ _). assert (0 < n <= maxSize - zlen content) by (unfold n, kBufferSize; lia).
    pose proof (read_law fd F l n k Ho ltac:(lia)) as Hr.
    destruct (sys_read fd n k) as [[d | e] k']; [| by eexists _, _, _; split; [done | right; split;
      [done | exists []; rewrite app_nil_r; split; [done |]; split; [apply prefix_nil | done]]]].
    destruct Hr as (Hn & He & l' & -> & Ho'). destruct d as [| b d].
    + specialize (He eq_refl). cbn [app] in *. subst l'. eexists _, _, _. split; [done |]. left. split; [done |].
      unfold ztake. by rewrite take_nil, app_nil_r.
    + set (d' := b :: d) in *. assert (Hd : 0 < zlen d') by (unfold d'; rewrite zlen_cons; pose proof (zlen_nonneg d); lia).
      unfold string_append, string_max_size. rewrite (proj2 (Z.leb_le _ _)) by lia. rsimp.
      destruct (IH l' (content ++ d') k' Ho') as (err & content' & k2 & -> & Hres).
      { rewrite zlen_app. lia. }
      { rewrite zlen_app. rewrite length_app in Hf. unfold zlen in *. lia. }
      exists err, content', k2. split; [done |]. rewrite zlen_app in Hres.
      destruct Hres as [[-> ->] | (? & d2 & -> & Hp & ?)]; [left | right]; (split; [done |]).
      * rewrite <- app_assoc. f_equal. rewrite ztake_app_r by lia. do 2 f_equal. lia.
      * exists (d' ++ d2). split; [by rewrite app_assoc |]. split; [by apply prefix_app | done].
  - eexists _, _, _. split; [done |]. left. split; [done |]. replace (maxSize - zlen content) with 0 by lia.
    rewrite ztake_0. by rewrite app_nil_r.
Qed.

Lemma stat_part_ok maxSize wantM wantC fd F l k : 0 <= maxSize < 2 ^ 31 -> opened k fd F l ->
  exists err ts, stat_part maxSize wantM wantC fd 0 k = Ok (err, ts)
    /\ ((err = 0 /\ fileSize ts = Some (zlen F)) \/ (0 < err /\ fileSize ts = None)).
Proof using.
  intros Hm Ho. unfold stat_part. pose proof (fstat_law fd F l k Ho) as Hs. pose proof (zlen_nonneg F).
  destruct (sys_fstat fd k) as [st | e]; [destruct Hs as [-> ->] |].
  - unfold string_reserve, s32, u64, string_max_size. rewrite wraps_small, wrapu_small by lia.
    rewrite (proj2 (Z.leb_le _ _)) by lia. rsimp. eexists _, _. split; [done | by left].
  - eexists _, _. split; [done | by right].
Qed.

(** With a size limit that is not negative, reading a file returns, whatever the
    sizes of the pieces the system hands out: without an error the content is
    the file up to the limit, and its size is reported when it was asked for;
    with one, the content is untouched (the file could not be opened) or a part
    of the file from its beginning. *)
Theorem readFile_reads turns name F maxSize wantSize wantM wantC content k :
  0 <= maxSize < 2 ^ 31 -> file_at k name F -> (length F < turns)%nat \/ (Z.to_nat maxSize < turns)%nat ->
  exists err content' ts k', readFile turns name maxSize wantSize wantM wantC content k = Ok (err, content', ts, k')
    /\ 0 <= err
    /\ (err = 0 -> content' = ztake maxSize F /\ (wantSize = true -> fileSize ts = Some (zlen F)))
    /\ (content' = content \/ content' `prefix_of` F).
Proof using.
  intros Hm Hat Ht. unfold readFile, SmallFile_new. pose proof (open_law name F k Hat) as Hopen.
  destruct (sys_open name k) as [[fd | e] k1].
  - destruct Hopen as [Hfd Ho]. unfold readToString. cbn [fd_ err_]. rewrite (proj2 (Z.leb_le _ _)) by done.
    assert (Hst : exists err ts, (if wantSize then stat_part maxSize wantM wantC fd 0 k1
        else mret (0, mkTimes None None None)) = Ok (err, ts)
      /\ ((err = 0 /\ (wantSize = true -> fileSize ts = Some (zlen F))) \/ 0 < err)).
    { destruct wantSize; [| by eexists _, _; split; [| left]].
      destruct (stat_part_ok maxSize wantM wantC fd F F k1 Hm Ho) as (err & ts & -> & [[-> ?] | [? ?]]);
        eexists _, _; (split; [done |]); [by left | by right]. }
    destruct Hst as (err1 & ts & -> & H1). rsimp.
    destruct (file_loop_ok maxSize fd F err1 Hm turns F [] k1 Ho) as (err & content' & k2 & -> & Hres).
    { rewrite zlen_nil. lia. }
    { rewrite zlen_nil. by replace (maxSize - 0) with maxSize by lia. }
    rsimp. eexists _, _, _, _. split; [done |]. rewrite zlen_nil, Z.sub_0_r in Hres. cbn [app] in Hres.
    destruct Hres as [[-> ->] | (? & d & -> & Hp & _)].
    + split; [destruct H1 as [[-> _] | ?]; lia |]. split; [| right; unfold ztake; by apply prefix_take].
      intros ->. split; [done |]. by destruct H1 as [[_ ?] | ?].
    + split; [lia |]. split; [lia | by right].
  - eexists _, _, _, _. split; [reflexivity |]. cbn [err_]. split; [lia |]. split; [lia | by left].
Qed.

(** A negative limit becomes the largest [size_t]: the whole file is read,
    unless its size was asked for, because then [reserve] throws. *)
Theorem negative_limit_throws turns name F maxSize wantM wantC content k fd k1 st :
  - 2 ^ 31 <= maxSize < 0 -> file_at k name F -> sys_open name k = (inl fd, k1) -> sys_fstat fd k1 = inl st ->
  readFile turns name maxSize true wantM wantC content k = Err Uncaught.
Proof using FilesLaws0.
  intros Hm Hat Hopen Hst. pose proof (open_law name F k Hat) as Ho. rewrite Hopen in Ho. destruct Ho as [Hfd Ho].
  pose proof (fstat_law fd F F k1 Ho) as Hs. rewrite Hst in Hs. destruct Hs as [Hreg Hsize]. pose proof (zlen_nonneg F).
  unfold readFile, SmallFile_new. rewrite Hopen. unfold readToString. cbn [fd_ err_].
  rewrite (proj2 (Z.leb_le _ _)) by done. unfold stat_part. rewrite Hst, Hreg, Z.min_l by lia.
  unfold string_reserve. rewrite s32_small by lia. unfold u64, wrapu, string_max_size.
  rewrite (proj2 (Z.leb_gt _ _)); [done |].
  replace (maxSize mod 2 ^ 64) with (maxSize + 2 ^ 64); [lia |].
  apply (Z.mod_unique _ _ (-1)); lia.
Qed.

(** The buffer takes the beginning of the file in one call. *)
Theorem readToBuffer_reads name F k : file_at k name F ->
  let '(f, k1) := SmallFile_new name k in
  let '(err, size, f') := readToBuffer f k1 in
  0 <= err /\ (err = 0 -> size = Some (zlen (buf_ f')) /\ zlen (buf_ f') < kBufferSize /\ buf_ f' `prefix_of` F
                 /\ (buf_ f' = [] -> F = [])).
Proof using.
  intros Hat. unfold SmallFile_new. pose proof (open_law name F k Hat) as Hopen.
  destruct (sys_open name k) as [[fd | e] k1]; unfold readToBuffer; cbn [fd_ err_].
  - destruct Hopen as [Hfd Ho]. rewrite (proj2 (Z.leb_le _ _)) by done.
    pose proof (pread_law fd F F (kBufferSize - 1) k1 Ho ltac:(unfold kBufferSize; lia)) as Hp. unfold kBufferSize in *.
    destruct (sys_pread fd _ k1) as [d | e]; [| split; lia]. destruct Hp as (Hn & He & Hp).
    split; [done |]. intros _. cbn [buf_]. pose proof (zlen_nonneg d).
    rewrite s32_small by lia. split; [done |]. split; [lia |]. by split.
  - split; [lia |]. cbn. lia.
Qed.
End files.

(** ** A small system *)

(** Files by name, descriptors with what is unread; a read gives three bytes at
    most. *)
Record demo_files : Type := mkDemo {
  d_files : list (list byte * list byte);
  d_open : list (Z * (list byte * list byte));
  d_next : Z
}.
Fixpoint assoc {A B} `{!EqDecision A} (a : A) (l : list (A * B)) : option B :=
  match l with [] => None | (a', b) :: l => if decide (a' = a) then Some b else assoc a l end.

#[export] Instance demo_system : Files demo_files := {
  sys_open name k := match assoc name (d_files k) with
                     | Some F => (inl (d_next k), mkDemo (d_files k) ((d_next k, (F, F)) :: d_open k) (d_next k + 1))
                     | None => (inr 2, k)
                     end;
  sys_close fd k := mkDemo (d_files k) (filter (fun p => p.1 <> fd) (d_open k)) (d_next k);
  sys_fstat fd k := match assoc fd (d_open k) with
                    | Some (F, _) => inl (mkStat true false (zlen F) 100 200)
                    | None => inr 9
                    end;
  sys_read fd n k := match assoc fd (d_open k) with
                     | Some (F, l) => (inl (ztake (Z.min n 3) l),
                         mkDemo (d_files k) ((fd, (F, zdrop (Z.min n 3) l)) :: d_open k) (d_next k))
                     | None => (inr 9, k)
                     end;
  sys_pread fd n k := match assoc fd (d_open k) with Some (F, _) => inl (ztake n F) | None => inr 9 end
}.

#[export] Instance demo_laws : FilesLaws demo_files.
Proof.
  refine {| file_at k name F := assoc name (d_files k) = Some F /\ 0 <= d_next k;
            opened k fd F l := assoc fd (d_open k) = Some (F, l) |}.
  - intros name F k [Hf Hn]. cbn. rewrite Hf. split; [done |]. cbn. by rewrite decide_True.
  - intros fd F l k Ho. cbn. by rewrite Ho.
  - intros fd F l n k Ho Hn. cbn. rewrite Ho. split; [| split].
    + destruct (Z.le_gt_cases (Z.min n 3) (zlen l)); [rewrite zlen_ztake; lia | rewrite ztake_all; lia].
    + intros Hz. apply (f_equal zlen) in Hz. apply zlen_zero. rewrite zlen_nil in Hz.
      pose proof (zlen_nonneg l). destruct (Z.le_gt_cases (Z.min n 3) (zlen l)).
      * rewrite zlen_ztake in Hz by lia. lia.
      * by rewrite ztake_all in Hz by lia.
    + exists (zdrop (Z.min n 3) l). split; [by rewrite ztake_zdrop |]. cbn. by rewrite decide_True.
  - intros fd F l n k Ho Hn. cbn. rewrite Ho. pose proof (zlen_nonneg F).
    split; [destruct (Z.le_gt_cases n (zlen F)); [rewrite zlen_ztake; lia | rewrite ztake_all; lia] |].
    split; [| unfold ztake; by apply prefix_take].
    intros Hz. apply (f_equal zlen) in Hz. apply zlen_zero. rewrite zlen_nil in Hz.
    destruct (Z.le_gt_cases n (zlen F)); [rewrite zlen_ztake in Hz by lia; lia | by rewrite ztake_all in Hz by lia].
Defined.

Definition demo_disk : demo_files := mkDemo [(bs "/etc/motd", bs "hello, world")] [] 3.
Lemma demo_disk_has : file_at demo_disk (bs "/etc/motd") (bs "hello, world").
Proof. split; [by_evaluation | done]. Qed.

Lemma readFile_reads_witness :
  exists err content' ts k', readFile 13 (bs "/etc/motd") 7 true true false [] demo_disk = Ok (err, content', ts, k')
    /\ 0 <= err
    /\ (err = 0 -> content' = ztake 7 (bs "hello, world") /\ (true = true -> fileSize ts = Some (zlen (bs "hello, world"))))
    /\ (content' = [] \/ content' `prefix_of` bs "hello, world").
Proof.
  apply (readFile_reads 13 (bs "/etc/motd") (bs "hello, world") 7 true true false []).
  - lia.
  - exact demo_disk_has.
  - left. vm_compute. lia.
Defined.
Example readFile_seven : exists k', readFile 13 (bs "/etc/motd") 7 true true false [] demo_disk
  = Ok (0, bs "hello, ", mkTimes (Some 12) (Some 100) None, k').
Proof. eexists. vm_compute. reflexivity. Qed.
