(* ===== verification/ConnSpec.v ===== *)
(** * ConnSpec: what an application sees of a connection

    The contract of [TcpConnection] with the code above it: a stream in, a
    stream out, reports that everything was written, and the order of states.
    The first part is that contract as a step relation on [view]s; the second
    one runs a [TcpConnection] in its loop, handlers and queued functors in any
    order the poller may choose, and proves that every step of it is one of the
    contract.  Servers are then proved against the contract. *)
From S2P Require Import Prelude Buffer Channel Poller EPollPoller EventLoop TcpConnection.

(** ** The contract *)

Section contract.
Context {A : Type}.

Record view : Type := mkView {
  v_state : StateE;
  v_app : A;
  v_received : list byte;   (* everything read so far *)
  v_input : list byte;      (* and not consumed yet *)
  v_sent : list byte;       (* everything accepted for sending *)
  v_waiting : bool;         (* some of it has not reached the kernel *)
  v_fin : bool;             (* the sending side is shut down *)
  v_reports : nat;          (* write complete callbacks to come *)
  v_dropped : bool          (* a message was lost to a broken pipe *)
}.
Implicit Types v : view.

Definition with_state s v := mkView s (v_app v) (v_received v) (v_input v) (v_sent v) (v_waiting v) (v_fin v) (v_reports v) (v_dropped v).
Definition with_vapp a v := mkView (v_state v) a (v_received v) (v_input v) (v_sent v) (v_waiting v) (v_fin v) (v_reports v) (v_dropped v).
Definition with_in r i v := mkView (v_state v) (v_app v) r i (v_sent v) (v_waiting v) (v_fin v) (v_reports v) (v_dropped v).
Definition with_sent d x v := mkView (v_state v) (v_app v) (v_received v) (v_input v) d x (v_fin v) (v_reports v) (v_dropped v).
Definition with_fin x v := mkView (v_state v) (v_app v) (v_received v) (v_input v) (v_sent v) (v_waiting v) x (v_reports v) (v_dropped v).
Definition with_reports n v := mkView (v_state v) (v_app v) (v_received v) (v_input v) (v_sent v) (v_waiting v) (v_fin v) n (v_dropped v).
Definition with_dropped x v := mkView (v_state v) (v_app v) (v_received v) (v_input v) (v_sent v) (v_waiting v) (v_fin v) (v_reports v) x.

(** Whether the peer's side may be gone while we send, whether a write complete
    callback is set, what the program calls from outside the connection's
    callbacks (a timer, say), and the callbacks. *)
Variables (breaks : Prop) (reporting : bool) (outside : list cmd -> Prop)
          (on_connection : A -> bool -> A * list cmd)
          (on_message : A -> list byte -> Z -> A * list cmd)
          (on_writeComplete : A -> A * list cmd)
          (on_highWaterMark : A -> Z -> A * list cmd).

Definition one_report : nat := if reporting then 1 else 0.

(** What a call may do. *)
Inductive vcmd : cmd -> view -> view -> Prop :=
| send_whole d v :
    v_state v = kConnected -> v_waiting v = false ->
    vcmd (Send d) v (with_reports (v_reports v + one_report) (with_sent (v_sent v ++ d) false v))
| send_later d v :
    v_state v = kConnected -> vcmd (Send d) v (with_sent (v_sent v ++ d) true v)
| send_dropped d v :
    breaks -> v_state v = kConnected -> v_waiting v = false -> vcmd (Send d) v (with_dropped true v)
| send_empty v : vcmd (Send []) v v
| send_refused d v : v_state v <> kConnected -> vcmd (Send d) v v
| send_buffer v v' :
    v_state v = kConnected -> vcmd (Send (v_input v)) v v' ->
    vcmd SendBuffer v (with_in (v_received v') [] v')
| send_buffer_refused v : v_state v <> kConnected -> vcmd SendBuffer v v
| shutdown_now v :
    v_state v = kConnected ->
    vcmd Shutdown v (with_fin (negb (v_waiting v)) (with_state kDisconnecting v))
| shutdown_again v : v_state v <> kConnected -> vcmd Shutdown v v
| retrieve_some n v :
    vcmd (Retrieve n) v (with_in (v_received v) (zdrop (Z.max 0 (Z.min n (zlen (v_input v)))) (v_input v)) v)
| retrieve_all v : vcmd RetrieveAll v (with_in (v_received v) [] v)
| set_mark n v : vcmd (SetHighWaterMark n) v v.

Inductive vcmds : list cmd -> view -> view -> Prop :=
| vcmds_nil v : vcmds [] v v
| vcmds_cons c cs v1 v2 v3 : vcmd c v1 v2 -> vcmds cs v2 v3 -> vcmds (c :: cs) v1 v3.

(** A callback: the application's new state, then its calls. *)
Definition vcall (r : A * list cmd) v v' : Prop := vcmds r.2 (with_vapp r.1 v) v'.

(** What may happen to a connection. *)
Inductive vstep : view -> view -> Prop :=
| v_up v v' :
    v_state v = kConnecting ->
    vcall (on_connection (v_app v) true) (with_state kConnected v) v' -> vstep v v'
| v_read d t v v' :
    open_state (v_state v) -> d <> [] ->
    vcall (on_message (v_app v) (v_input v ++ d) t) (with_in (v_received v ++ d) (v_input v ++ d) v) v' ->
    vstep v v'
| v_close v v' :
    open_state (v_state v) ->
    vcall (on_connection (v_app v) false) (with_state kDisconnected v) v' -> vstep v v'
| v_drained v :
    open_state (v_state v) -> v_waiting v = true ->
    vstep v (with_reports (v_reports v + one_report)
               (with_fin (if is_state (v_state v) kDisconnecting then true else v_fin v)
                  (with_sent (v_sent v) false v)))
| v_report n v v' :
    v_reports v = S n -> v_state v <> kConnecting ->
    vcall (on_writeComplete (v_app v)) (with_reports n v) v' -> vstep v v'
| v_mark n v v' :
    v_state v <> kConnecting -> vcall (on_highWaterMark (v_app v) n) v v' -> vstep v v'
| v_call cs v v' : outside cs -> v_state v <> kConnecting -> vcmds cs v v' -> vstep v v'
| v_idle v : vstep v v.

Definition View_new (a : A) : view := mkView kConnecting a [] [] [] false false 0 false.

Lemma vcmds_inv c cs v v' : vcmds (c :: cs) v v' -> exists v1, vcmd c v v1 /\ vcmds cs v1 v'.
Proof using. intros Hc. inversion Hc; subst. eauto. Qed.
Lemma vcmds_nil_inv v v' : vcmds [] v v' -> v' = v.
Proof using. intros Hc. by inversion Hc. Qed.
Lemma vcmds_one c v v' : vcmds [c] v v' -> vcmd c v v'.
Proof using. by intros (v1 & Hc & ->%vcmds_nil_inv)%vcmds_inv. Qed.

(** What a call does to a connected view. *)
Lemma vcmd_send_inv d v v' :
  vcmd (Send d) v v' -> v_state v = kConnected ->
  (v_waiting v = false
   /\ v' = with_reports (v_reports v + one_report) (with_sent (v_sent v ++ d) false v))
  \/ v' = with_sent (v_sent v ++ d) true v
  \/ (breaks /\ v_waiting v = false /\ v' = with_dropped true v)
  \/ (d = [] /\ v' = v).
Proof using. intros Hc Hs. inversion Hc; subst; [left | right; left | right; right; left | right; right; right |]; done. Qed.
Lemma vcmd_shutdown_inv v v' :
  vcmd Shutdown v v' -> v_state v = kConnected ->
  v' = with_fin (negb (v_waiting v)) (with_state kDisconnecting v).
Proof using. intros Hc Hs. by inversion Hc; subst. Qed.
Lemma vcmd_mark_inv n v v' : vcmd (SetHighWaterMark n) v v' -> v' = v.
Proof using. intros Hc. by inversion Hc. Qed.
Lemma vcmd_retrieveAll_inv v v' : vcmd RetrieveAll v v' -> v' = with_in (v_received v) [] v.
Proof using. intros Hc. by inversion Hc. Qed.

Lemma vcmd_sendBuffer_inv v v' :
  vcmd SendBuffer v v' -> v_state v = kConnected ->
  exists v1, vcmd (Send (v_input v)) v v1 /\ v' = with_in (v_received v1) [] v1.
Proof using. intros Hc Hs. inversion Hc; subst; [by eexists | done]. Qed.
Lemma vcmd_retrieve_inv n v v' :
  vcmd (Retrieve n) v v' ->
  v' = with_in (v_received v) (zdrop (Z.max 0 (Z.min n (zlen (v_input v)))) (v_input v)) v.
Proof using. intros Hc. by inversion Hc. Qed.

(** In the other states calls only consume input. *)
Lemma vcmd_not_connected c v v' :
  v_state v <> kConnected -> vcmd c v v' -> exists i, v' = with_in (v_received v) i v.
Proof using.
  intros Hn Hc. destruct Hc; try done; first [by eexists | exists (v_input v); by destruct v].
Qed.
Lemma vcmds_not_connected cs v v' :
  v_state v <> kConnected -> vcmds cs v v' -> exists i, v' = with_in (v_received v) i v.
Proof using.
  intros Hn Hr. induction Hr as [v | c cs v1 v2 v3 Hc _ IH]; [exists (v_input v); by destruct v |].
  destruct (vcmd_not_connected _ _ _ Hn Hc) as [i ->]. destruct IH as [i' ->]; [done |]. by exists i'.
Qed.

(** Calls leave the application's state alone, and move the connection's only
    by shutting it down. *)
Lemma vcmd_keeps c v v' :
  vcmd c v v' ->
  v_app v' = v_app v
  /\ (v_state v' = v_state v \/ (v_state v = kConnected /\ v_state v' = kDisconnecting)).
Proof using. induction 1; cbn; auto. Qed.
Lemma vcmds_keep cs v v' :
  vcmds cs v v' ->
  v_app v' = v_app v
  /\ (v_state v' = v_state v \/ (v_state v = kConnected /\ v_state v' = kDisconnecting)).
Proof using.
  induction 1 as [| c cs v1 v2 v3 Hc%vcmd_keeps _ [Ha Hs]]; [by auto |].
  destruct Hc as [Ha1 Hc]. split; [congruence |].
  destruct Hs as [-> | [Hs ->]]; [done |]. right. by destruct Hc as [<- | [? _]].
Qed.

(** The ways a step can change the application's state. *)
Inductive other_callback : (A -> A) -> Prop :=
| no_callback : other_callback id
| written_callback : other_callback (fun a => (on_writeComplete a).1)
| mark_callback n : other_callback (fun a => (on_highWaterMark a n).1).
Inductive moved v v' : Prop :=
| moved_up :
    v_state v = kConnecting -> open_state (v_state v') -> v_received v' = v_received v ->
    v_app v' = (on_connection (v_app v) true).1 -> moved v v'
| moved_down :
    open_state (v_state v) -> v_state v' = kDisconnected -> v_received v' = v_received v ->
    v_app v' = (on_connection (v_app v) false).1 -> moved v v'
| moved_message d t :
    open_state (v_state v) -> open_state (v_state v') -> d <> [] ->
    v_received v' = v_received v ++ d -> v_app v' = (on_message (v_app v) (v_input v ++ d) t).1 -> moved v v'
| moved_other f :
    other_callback f -> (v_state v = kConnecting <-> v_state v' = kConnecting) ->
    (open_state (v_state v) <-> open_state (v_state v')) -> v_received v' = v_received v ->
    v_app v' = f (v_app v) -> moved v v'.

Lemma vcmds_received cs v v' : vcmds cs v v' -> v_received v' = v_received v.
Proof using.
  assert (Hone : forall c v v', vcmd c v v' -> v_received v' = v_received v) by (by induction 1).
  induction 1 as [| c cs v1 v2 v3 Hc%Hone _ IH]; [done |]. by rewrite IH.
Qed.

Lemma vcmds_open cs v v' :
  vcmds cs v v' -> (v_state v = kConnecting <-> v_state v' = kConnecting)
  /\ (open_state (v_state v) <-> open_state (v_state v')).
Proof using.
  intros [_ [-> | [-> ->]]]%vcmds_keep; [done |]. split; [done |]. split; intros _; [by right | by left].
Qed.

Lemma vstep_moved v v' : vstep v v' -> moved v v'.
Proof using.
  intros Hst. destruct Hst as [v v' Hs Hc | d t v v' Ho Hd Hc | v v' Ho Hc | v Ho Hw | k v v' Hr Hs Hc | k v v' Hs Hc | cs v v' Hcs Hs Hc | v];
    try (destruct (vcmds_keep _ _ _ Hc) as [Ha _]; destruct (vcmds_open _ _ _ Hc) as [Hi Ho'];
         pose proof (vcmds_received _ _ _ Hc) as Hre; cbn in Ha, Hi, Ho', Hre).
  - apply moved_up; [done | apply Ho'; by left | done | done].
  - by eapply (moved_message _ _ d t); [done | apply Ho' | done..].
  - apply vcmds_not_connected in Hc as [i ->]; [| done]. by apply moved_down.
  - by eapply moved_other; [apply no_callback | done..].
  - by eapply moved_other; [apply written_callback | done..].
  - by eapply moved_other; [apply (mark_callback k) | done..].
  - by eapply moved_other; [apply no_callback | done..].
  - by eapply moved_other; [apply no_callback | done..].
Qed.

(** A connection is in the first open state because it has just come up or was
    there before. *)
Lemma vstep_connected v v' :
  vstep v v' -> v_state v' = kConnected ->
  v_state v = kConnected
  \/ (v_state v = kConnecting /\ vcall (on_connection (v_app v) true) (with_state kConnected v) v').
Proof using.
  assert (Hkeep : forall cs u u', vcmds cs u u' -> v_state u' = kConnected -> v_state u = kConnected)
    by (intros cs u u' [_ [-> | [? ->]]]%vcmds_keep; done).
  intros Hst Hs. destruct Hst as [v v' Hs' Hc | d t v v' Ho Hd Hc | v v' Ho Hc | v Ho Hw | k v v' Hr Hs' Hc | k v v' Hs' Hc | cs v v' Hcs Hs' Hc | v];
    [by right | left..]; try done; try exact (Hkeep _ _ _ Hc Hs). by apply Hkeep in Hc.
Qed.
End contract.
Arguments view : clear implicits.

(** ** The connection in its loop *)

(** What the loop does next: a callback of the channel, calls from elsewhere in
    the loop's thread, or the functor at the head of its queue (functors run in the order they were queued,
    [EventLoop.functors_fifo_exactly_once]). *)
Inductive happening : Type :=
| Ready (cb : conn_cb) (receiveTime : Z)
| Call (cs : list cmd)
| NextFunctor.

(** The functors that wait for a connection once it is up. *)
Definition is_report (t : task) : Prop := t = TWriteComplete \/ is_mark t.
Fixpoint count_reports (ts : list task) : nat :=
  match ts with
  | [] => 0
  | TWriteComplete :: ts => S (count_reports ts)
  | _ :: ts => count_reports ts
  end.

Lemma count_reports_app ts1 ts2 : count_reports (ts1 ++ ts2) = (count_reports ts1 + count_reports ts2)%nat.
Proof. induction ts1 as [| [] ts1 IH]; cbn; lia. Qed.
Lemma count_marks ts : Forall is_mark ts -> count_reports ts = 0%nat.
Proof. by induction 1 as [| t ts [n ->] _ IH]. Qed.
Lemma marks_reports ts : Forall is_mark ts -> Forall is_report ts.
Proof. intros H. eapply Forall_impl; [exact H |]. by right. Qed.

Section driven.
Context {P E K A : Type} `{!EventFd E, !Socket K, !PollerOps (loop_cb conn_cb) P}.
Context `{!SocketLaws K, !PollerSpec (loop_cb conn_cb) P}.
Local Abbreviation Loop := (EventLoop conn_cb task P E).
Local Abbreviation world := (Loop * rest K A)%type.
Implicit Types (w : world) (v : view A).

Variables (on_connection : A -> bool -> A * list cmd)
          (on_message : A -> list byte -> Z -> A * list cmd)
          (on_writeComplete : A -> A * list cmd)
          (on_highWaterMark : A -> Z -> A * list cmd)
          (outside : list cmd -> Prop).
(** [self]: the connection's identity, for [Channel::tie]. *)
Variables (self : Z) (reporting : bool).

(** Some write can fail with EPIPE. *)
Definition pipe_breaks : Prop := exists k d n k', sock_write (K := K) k d = (n, EPIPE, k') /\ n < 0.

Definition with_queue (ts : list task) w : world := with_lp (with_pending ts w.1) w.

Definition happen (h : happening) w : res world :=
  match h with
  | Ready cb t => call_read_conn on_connection on_message (threadId_ w.1) cb t w
  | Call cs => run_cmds (threadId_ w.1) cs w
  | NextFunctor =>
      match pendingFunctors_ w.1 with
      | [] => mret w
      | t :: ts => exec on_connection on_writeComplete on_highWaterMark (threadId_ w.1) self t (with_queue ts w)
      end
  end.

(** The poller reports reading and closing only of a channel that is watched. *)
Definition may_happen (h : happening) w : Prop :=
  match h with
  | Ready CbRead _ | Ready CbClose _ => open_state (state_ (the_conn w))
  | Call cs => outside cs /\ state_ (the_conn w) <> kConnecting
  | _ => True
  end.

Inductive happens : world -> world -> Prop :=
| happens_ok h w w' : may_happen h w -> happen h w = Ok w' -> happens w w'.

(** First the functor that establishes the connection, then reports, last the
    functor that destroys it. *)
Definition queue_ok w : Prop :=
  match state_ (the_conn w) with
  | kConnecting => pendingFunctors_ w.1 = [TConnectEstablished]
  | kConnected | kDisconnecting => Forall is_report (pendingFunctors_ w.1)
  | kDisconnected =>
      (exists ts, Forall is_report ts /\ pendingFunctors_ w.1 = ts ++ [TConnectDestroyed] /\ closed_channel w)
      \/ pendingFunctors_ w.1 = []
  end.

(** The view of a world. *)
Record looks w v : Prop := {
  lk_inv : conn_inv w;
  lk_callback : writeCompleteCallback_ (the_conn w) = reporting;
  lk_state : v_state v = state_ (the_conn w);
  lk_app : v_app v = app w.2;
  lk_received : v_received v = sock_read (sock w.2);
  lk_input : v_input v = contents (inputBuffer_ (the_conn w));
  lk_sent : v_sent v = stream w;
  lk_waiting : v_waiting v = negb (bool_decide (contents (outputBuffer_ (the_conn w)) = []));
  lk_fin : v_fin v = sock_fin (sock w.2);
  lk_reports : v_reports v = count_reports (pendingFunctors_ w.1)
}.

Record shows w v : Prop := {
  sh_looks : looks w v;
  sh_handling : EventLoop.eventHandling_ w.1 = false;
  sh_queue : queue_ok w
}.

(** *** Calls *)

(** What calls do to the world, beyond the view. *)
Record called (w w' : world) : Prop := {
  ca_evolves : evolves w w';
  ca_queue : exists ts, Forall is_report ts /\ pendingFunctors_ w'.1 = pendingFunctors_ w.1 ++ ts;
  ca_open : open_state (state_ (the_conn w)) -> open_state (state_ (the_conn w'));
  ca_down : state_ (the_conn w) = kDisconnected -> w'.1 = w.1
}.

Lemma called_refl w : called w w.
Proof using. split; [done | | done..]. exists []. split; [constructor | by rewrite app_nil_r]. Qed.
Lemma called_trans w1 w2 w3 : called w1 w2 -> called w2 w3 -> called w1 w3.
Proof using.
  intros [E1 (t1 & F1 & P1) O1 D1] [E2 (t2 & F2 & P2) O2 D2]. split; [| | by auto |].
  - by transitivity w2.
  - exists (t1 ++ t2). split; [by apply Forall_app |]. by rewrite P2, P1, app_assoc.
  - intros Hs. rewrite D2 by (by eapply down_stays_down). by apply D1.
Qed.

Lemma broken_breaks w d : broken_pipe w d -> pipe_breaks.
Proof using.
  unfold broken_pipe, pipe_breaks. destruct (sock_write (sock w.2) d) as [[n e] k] eqn:Hw.
  intros [Hn ->]. eauto 6.
Qed.

Lemma looks_sent d w w' v ts :
  looks w v -> good w w' -> state_ (the_conn w') = state_ (the_conn w) -> v_state v = kConnected ->
  sock_fin (sock w'.2) = sock_fin (sock w.2) -> sent d w w' ts -> adds ts w w' ->
  exists v', vcmd pipe_breaks reporting (Send d) v v' /\ looks w' v'.
Proof using.
  intros [Hi Hcb Hs Ha Hre Hin Hse Hw Hf Hr] Hg Es Ec Ef Hsent (Aa & [Ai Ar] & Ap).
  assert (Hlooks : forall str x n dr,
    str = stream w' -> x = negb (bool_decide (contents (outputBuffer_ (the_conn w')) = [])) ->
    n = (v_reports v + count_reports ts)%nat ->
    looks w' (with_dropped dr (with_reports n (with_sent str x v)))).
  { intros str x n dr -> -> ->. split; cbn; [apply Hg | | congruence.. | |].
    - by rewrite (ev_complete _ _ (proj2 Hg)).
    - congruence.
    - by rewrite Hr, Ap, count_reports_app. }
  destruct Hsent as [Ho Ho' Hstr | ts Ho' Hstr Hm | Ho' Hstr Hd].
  - eexists. split; [apply send_whole; [done |]; by rewrite Hw, Ho |].
    apply (Hlooks (v_sent v ++ d) false (v_reports v + one_report reporting)%nat (v_dropped v)); [congruence | by rewrite Ho' |].
    unfold completion, one_report. rewrite Hcb. by destruct reporting.
  - eexists. split; [by apply (send_later _ _ d) |].
    apply (Hlooks (v_sent v ++ d) true (v_reports v) (v_dropped v)); [congruence | by rewrite bool_decide_eq_false_2 |].
    by rewrite (count_marks ts Hm), Nat.add_0_r.
  - destruct Hd as [[Hb Ho] | ->].
    + eexists. split; [apply send_dropped; [by eapply broken_breaks | done |]; by rewrite Hw, Ho |].
      apply (Hlooks (v_sent v) (v_waiting v) (v_reports v) true); [congruence | by rewrite Ho' | cbn; lia].
    + exists v. split; [apply send_empty |].
      replace v with (with_dropped (v_dropped v) (with_reports (v_reports v) (with_sent (v_sent v) (v_waiting v) v)))
        at 1 by (by destruct v).
      apply Hlooks; [congruence | by rewrite Ho' | cbn; lia].
Qed.

Lemma sent_reports d w w' ts : sent d w w' ts -> Forall is_report ts.
Proof using.
  intros [| ts' ? ? Hm |]; [| by apply marks_reports | constructor].
  unfold completion. destruct (writeCompleteCallback_ _); repeat constructor.
Qed.

Lemma called_input b w : called w (with_conn (with_input b (the_conn w)) w).
Proof using. split; [by split | | done..]. exists []. split; [constructor | by rewrite app_nil_r]. Qed.
Lemma looks_input w v b :
  looks w v -> conn_inv (with_conn (with_input b (the_conn w)) w) ->
  looks (with_conn (with_input b (the_conn w)) w) (with_in (v_received v) (contents b) v).
Proof using. intros [] Hi. by split. Qed.

Lemma looks_send d w v :
  looks w v -> zlen d < 2 ^ 63 -> state_ (the_conn w) = kConnected ->
  safe (sendInLoop (threadId_ w.1) d w)
    (fun w' => called w w' /\ exists v', vcmd pipe_breaks reporting (Send d) v v' /\ looks w' v').
Proof using EventFd0 SocketLaws0 PollerSpec0.
  intros Hl Hd Ec. pose proof (lk_inv _ _ Hl) as Hi. pose proof (lk_state _ _ Hl) as Hs.
  pose proof (can_send_connected _ Hi Ec) as [_ Hnf].
  assert (Hf : sock_fin (sock w.2) = false)
    by (destruct (sock_fin (sock w.2)); [by rewrite Hnf in Ec | done]).
  eapply safe_mono; [apply sendInLoop_open; [done | by left | done | done] |].
  intros w' (Hg & Es & Hf' & ts & Hsent & Hadd). split.
  - split; [apply Hg | | by rewrite Es | congruence].
    exists ts. split; [by eapply sent_reports | apply Hadd].
  - by eapply looks_sent; [exact Hl | exact Hg | exact Es | congruence | congruence | exact Hsent | exact Hadd].
Qed.

Lemma looks_shutdown w v :
  looks w v -> state_ (the_conn w) = kConnected ->
  safe (run_cmd (threadId_ w.1) Shutdown w)
    (fun w' => called w w' /\ exists v', vcmd pipe_breaks reporting Shutdown v v' /\ looks w' v').
Proof using EventFd0 SocketLaws0 PollerSpec0.
  intros Hl Ec. pose proof (lk_inv _ _ Hl) as Hi. pose proof (lk_state _ _ Hl) as Hs.
  cbn [run_cmd]. unfold shutdown, is_state. rewrite bool_decide_eq_true_2 by done.
  set (w1 := with_conn _ w). pose proof (setState_good w kDisconnecting Hi Ec ltac:(by right)) as Hg1.
  fold w1 in Hg1. change (threadId_ w.1) with (threadId_ w1.1). rewrite isIn.
  destruct (shutdownInLoop_spec w1 (proj1 Hg1) ltac:(by left)) as (w' & -> & Hg & Hc' & E1 & Hw & (Ha & [_ Hre] & _) & Hfin).
  cbn [safe]. split.
  + split; [by eapply good_trans | exists []; split; [constructor | by rewrite app_nil_r, E1] | | congruence].
    intros _. rewrite Hc'. by right.
  + eexists. split; [apply shutdown_now; congruence |]. destruct Hl. split; cbn; rewrite ?Hc'; try done.
    * apply Hg.
    * by rewrite Ha.
    * by rewrite Hre.
    * unfold stream. by rewrite Hc', Hw.
    * rewrite Hfin, lk_waiting0, negb_involutive by done. done.
    * by rewrite E1.
Qed.

Lemma looks_cmd c w v :
  looks w v -> cmd_ok c ->
  safe (run_cmd (threadId_ w.1) c w)
    (fun w' => called w w' /\ exists v', vcmd pipe_breaks reporting c v v' /\ looks w' v').
Proof using EventFd0 SocketLaws0 PollerSpec0.
  intros Hl Hc. pose proof (lk_inv _ _ Hl) as Hi. pose proof (lk_state _ _ Hl) as Hs.
  assert (Hskip : forall c, vcmd pipe_breaks reporting c v v -> called w w
    /\ exists v', vcmd pipe_breaks reporting c v v' /\ looks w v')
    by (split; [apply called_refl | by exists v]).
  destruct c as [d | | | n | | n]; cbn [cmd_ok] in Hc.
  - cbn [run_cmd]. unfold send, is_state. case_bool_decide as Ec.
    + rewrite isIn. by apply looks_send.
    + cbn [safe mret res_ret]. apply Hskip, send_refused. congruence.
  - rewrite send_buffer_run by done. unfold is_state. case_bool_decide as Ec.
    + eapply safe_bind; [apply (looks_send _ w v); [done | by apply input_small | done] |].
      intros w1 (Hca & v1 & Hv1 & Hl1). cbn [safe mret res_ret]. pose proof (input_emptied w Hi) as He. split.
      * eapply called_trans; [done | apply called_input].
      * eexists. split; [apply send_buffer; [congruence | by rewrite (lk_input _ _ Hl)] |].
        destruct He as [Hwf He]. rewrite <- He. apply looks_input; [done |].
        by eapply with_input_good; [by apply good_refl, Hl1 | split].
    + cbn [safe mret res_ret]. apply Hskip, send_buffer_refused. congruence.
  - destruct (decide (state_ (the_conn w) = kConnected)) as [Ec | Ec]; [by apply looks_shutdown |].
    cbn [run_cmd]. unfold shutdown, is_state. rewrite bool_decide_eq_false_2 by done.
    cbn [safe mret res_ret]. apply Hskip, shutdown_again. congruence.
  - destruct (retrieve_good n w Hi) as (b & -> & Hi' & Hb). cbn [safe]. split; [by apply called_input |].
    exists (with_in (v_received v) (contents b) v). split; [| by apply looks_input].
    rewrite Hb, <- (lk_input _ _ Hl). apply retrieve_some.
  - destruct (retrieveAll_good w Hi) as (b & -> & Hi' & Hb). cbn [safe]. split; [by apply called_input |].
    exists (with_in (v_received v) (contents b) v). split; [| by apply looks_input].
    rewrite Hb. apply retrieve_all.
  - destruct (setMark_good n w Hi) as [Hi' _]. cbn [run_cmd safe mret res_ret]. split.
    + split; [by split | | done..]. exists []. split; [constructor | by rewrite app_nil_r].
    + exists v. split; [apply set_mark |]. by destruct Hl.
Qed.

Lemma looks_cmds cs : forall w v,
  looks w v -> Forall cmd_ok cs ->
  safe (run_cmds (threadId_ w.1) cs w)
    (fun w' => called w w' /\ exists v', vcmds pipe_breaks reporting cs v v' /\ looks w' v').
Proof using EventFd0 SocketLaws0 PollerSpec0.
  induction cs as [| c cs IH]; intros w v Hl Hcs; cbn [run_cmds].
  { split; [apply called_refl | exists v; split; [constructor | done]]. }
  apply Forall_cons in Hcs as [Hc Hcs]. eapply safe_bind; [by apply looks_cmd |].
  intros w1 (Hc1 & v1 & Hv1 & Hl1). rewrite <- (ev_thread _ _ (ca_evolves _ _ Hc1)).
  eapply safe_mono; [by apply (IH w1 v1) |]. intros w2 (Hc2 & v2 & Hv2 & Hl2).
  split; [by eapply called_trans | exists v2; split; [by econstructor | done]].
Qed.

Lemma looks_callback r w v :
  looks w v -> Forall cmd_ok r.2 ->
  safe (callback (threadId_ w.1) r w)
    (fun w' => called w w' /\ exists v', vcall pipe_breaks reporting r v v' /\ looks w' v').
Proof using EventFd0 SocketLaws0 PollerSpec0.
  intros Hl Hr. unfold callback.
  assert (Hl1 : looks (with_app r.1 w) (with_vapp r.1 v)).
  { destruct Hl as [(ch & inp & out & Hp)]. split; try done. exists ch, inp, out. destruct Hp. by split. }
  change (threadId_ w.1) with (threadId_ (with_app r.1 w).1).
  eapply safe_mono; [by apply looks_cmds |]. intros w' (Hc & v' & Hv & Hl').
  split; [destruct Hc as [[] ? ? ?]; by split | by exists v'].
Qed.

(** *** Steps *)

Lemma conn_inv_queue ts w : conn_inv w -> conn_inv (with_queue ts w).
Proof using. intros (ch & inp & out & [Hr Hi Ho Hp Hf]). exists ch, inp, out. by split. Qed.

Lemma looks_queue ts w v : looks w v -> looks (with_queue ts w) (with_reports (count_reports ts) v).
Proof using. intros []. split; try done. by apply conn_inv_queue. Qed.

Lemma called_queue_ok w w' :
  called w w' -> state_ (the_conn w) <> kConnecting -> queue_ok w -> queue_ok w'.
Proof using.
  intros [Hev (ts & Hts & Hq) Hop Hd] Hnc. unfold queue_ok.
  destruct (state_ (the_conn w)) eqn:Es.
  - rewrite (down_stays_down _ _ Hev Es), (Hd eq_refl). intros [(q & Hq1 & Hq2 & Hc) | Hq1]; [left | by right].
    exists q. split_and!; [done | done |]. destruct Hc as (ch & Hc). exists ch. by rewrite (ev_channel _ _ Hev), (Hd eq_refl).
  - done.
  - intros Hr. destruct (Hop ltac:(by left)) as [-> | ->]; rewrite Hq; by apply Forall_app.
  - intros Hr. destruct (Hop ltac:(by right)) as [-> | ->]; rewrite Hq; by apply Forall_app.
Qed.

(** Calls and callbacks in a state after the first: what they come to. *)
Lemma called_shows w w' v v' :
  shows w v -> v_state v <> kConnecting -> called w w' -> looks w' v' -> shows w' v'.
Proof using.
  intros [Hl Hh Hq] Hnc Hc Hl'. split; [done | by rewrite (ev_handling _ _ (ca_evolves _ _ Hc)) |].
  eapply called_queue_ok; [done | by rewrite <- (lk_state _ _ Hl) | done].
Qed.
Lemma shows_callback r w v :
  shows w v -> v_state v <> kConnecting -> Forall cmd_ok r.2 ->
  safe (callback (threadId_ w.1) r w) (fun w' => exists v', vcall pipe_breaks reporting r v v' /\ shows w' v').
Proof using EventFd0 SocketLaws0 PollerSpec0.
  intros Hs Hnc Hr. eapply safe_mono; [apply (looks_callback r w v); [apply Hs | done] |].
  intros w' (Hc & v' & Hv & Hl'). exists v'. split; [done | by eapply called_shows].
Qed.
Lemma shows_calls cs w v :
  shows w v -> v_state v <> kConnecting -> Forall cmd_ok cs ->
  safe (run_cmds (threadId_ w.1) cs w) (fun w' => exists v', vcmds pipe_breaks reporting cs v v' /\ shows w' v').
Proof using EventFd0 SocketLaws0 PollerSpec0.
  intros Hs Hnc Hr. eapply safe_mono; [apply (looks_cmds cs w v); [apply Hs | done] |].
  intros w' (Hc & v' & Hv & Hl'). exists v'. split; [done | by eapply called_shows].
Qed.

Lemma shows_quiet w w1 v :
  shows w v -> quiet w w1 -> v_state v <> kConnecting -> state_ (the_conn w) <> kDisconnected ->
  shows w1 (with_in (sock_read (sock w1.2)) (contents (inputBuffer_ (the_conn w1))) v).
Proof using.
  intros [[] Hh Hq] [Hg Es Ew Ef Eo Ea Ep] Hnc Hnd. split; [| by rewrite (ev_handling _ _ (proj2 Hg)) |].
  - split; cbn; [apply Hg | by rewrite (ev_complete _ _ (proj2 Hg)) | congruence | congruence | done | done |
      unfold stream in *; congruence | by rewrite Eo | congruence | congruence].
  - unfold queue_ok in *. rewrite Es, Ep. by destruct (state_ (the_conn w)).
Qed.

(** The functor at the head of the queue. *)
Inductive queue_head w : task -> list task -> Prop :=
| head_up : state_ (the_conn w) = kConnecting -> queue_head w TConnectEstablished []
| head_report t ts :
    is_report t -> state_ (the_conn w) <> kConnecting -> queue_ok (with_queue ts w) -> queue_head w t ts
| head_down :
    state_ (the_conn w) = kDisconnected -> closed_channel w -> queue_head w TConnectDestroyed [].

Lemma queue_ok_head w t ts : queue_ok w -> pendingFunctors_ w.1 = t :: ts -> queue_head w t ts.
Proof using.
  unfold queue_ok. intros Hq Hp. rewrite Hp in Hq.
  assert (Hrep : is_report t -> state_ (the_conn w) <> kConnecting ->
    match state_ (the_conn w) with
    | kConnecting => ts = [TConnectEstablished]
    | kConnected | kDisconnecting => Forall is_report ts
    | kDisconnected =>
        (exists q, Forall is_report q /\ ts = q ++ [TConnectDestroyed] /\ closed_channel w) \/ ts = []
    end -> queue_head w t ts) by (intros; by apply head_report).
  destruct (state_ (the_conn w)) eqn:Es.
  - destruct Hq as [(q & Hr & Hts & Hc) | [=]]. destruct q as [| x q]; injection Hts as -> ->; [by apply head_down |].
    apply Forall_cons in Hr as [Hx Hr]. apply Hrep; [done | done |]. left. by exists q.
  - injection Hq as -> ->. by apply head_up.
  - apply Forall_cons in Hq as [Hx Hr]. by apply Hrep.
  - apply Forall_cons in Hq as [Hx Hr]. by apply Hrep.
Qed.

(** No application sends a message of 2^62 bytes. *)
Hypothesis connection_ok : forall a b, Forall cmd_ok (on_connection a b).2.
Hypothesis message_ok : forall a d t, zlen d < 2 ^ 63 -> Forall cmd_ok (on_message a d t).2.
Hypothesis writeComplete_ok : forall a, Forall cmd_ok (on_writeComplete a).2.
Hypothesis highWaterMark_ok : forall a n, Forall cmd_ok (on_highWaterMark a n).2.
Hypothesis outside_ok : forall cs, outside cs -> Forall cmd_ok cs.

Local Abbreviation vnext :=
  (vstep pipe_breaks reporting outside on_connection on_message on_writeComplete on_highWaterMark).
(** A step that reads nothing. *)
Local Abbreviation vquiet v v' := (vnext v v' /\ v_received v' = v_received v).
Local Abbreviation steps w m :=
  (forall v, shows w v -> safe m (fun w' => exists v', vnext v v' /\ shows w' v')).
Local Abbreviation quiet_steps w m :=
  (forall v, shows w v -> safe m (fun w' => exists v', vquiet v v' /\ shows w' v')).

Lemma idle_quiet v : vquiet v v.
Proof using. split; [apply v_idle | done]. Qed.

Lemma open_not_down s : open_state s -> s <> kConnecting /\ s <> kDisconnected.
Proof using. by intros [-> | ->]. Qed.

Lemma close_step w :
  open_state (state_ (the_conn w)) -> quiet_steps w (handleClose on_connection (threadId_ w.1) w).
Proof using Type*.
  intros Ho v [Hl Hh Hq].
  destruct (handleClose_spec on_connection w (lk_inv _ _ Hl) Ho) as (w1 & -> & Hg & Hs & Hk & Hout & (Ha & [Hin Hre] & Hp) & Hcl).
  rewrite app_nil_r in Hp.
  assert (Hl1 : looks w1 (with_state kDisconnected v)).
  { destruct Hl. split; cbn; [apply Hg | by rewrite (ev_complete _ _ (proj2 Hg)) | done | congruence | congruence | congruence |
      unfold stream in *; congruence | by rewrite Hout | congruence | congruence]. }
  eapply safe_bind; [apply (looks_callback _ _ _ Hl1), connection_ok |].
  intros w2 (Hc & v' & Hv & Hl2). cbn [safe mret res_ret]. exists v'.
  rewrite <- (lk_app _ _ Hl1) in Hv. split.
  { split; [apply v_close; [by rewrite (lk_state _ _ Hl) | exact Hv] | exact (vcmds_received _ _ _ _ _ Hv)]. }
  pose proof (queue_good (threadId_ w1.1) TConnectDestroyed w2 (lk_inv _ _ Hl2)) as Hgq.
  destruct (queueInLoop_fields (threadId_ w1.1) TConnectDestroyed w2.1) as (E1 & E2 & E3 & E4 & _ & _ & E7).
  rewrite (ca_down _ _ Hc Hs) in E1, E2, E3, E4, E7. split.
  - destruct Hl2. split; try done; [apply Hgq |]. cbn [queue with_lp fst]. rewrite (ca_down _ _ Hc Hs), E7, count_reports_app.
    rewrite lk_reports0, (ca_down _ _ Hc Hs). cbn. lia.
  - cbn [queue with_lp fst]. rewrite (ca_down _ _ Hc Hs), E4. by rewrite (ev_handling _ _ (proj2 Hg)).
  - unfold queue_ok. change (the_conn (queue _ _ w2)) with (the_conn w2).
    rewrite (down_stays_down _ _ (ca_evolves _ _ Hc) Hs). left. exists (pendingFunctors_ w1.1). split_and!.
    + rewrite Hp. unfold queue_ok in Hq. by destruct Ho as [E0 | E0]; rewrite E0 in Hq.
    + cbn [queue with_lp fst]. by rewrite (ca_down _ _ Hc Hs).
    + destruct Hcl as (ch & (? & ? & ?) & Hn & Hw). exists ch. unfold registered. cbn [queue with_lp fst].
      change (the_conn (queue _ _ w2)) with (the_conn w2). rewrite (ev_channel _ _ (ca_evolves _ _ Hc)).
      rewrite (ca_down _ _ Hc Hs), E1, E2, E3. done.
Qed.

Lemma read_step t w :
  open_state (state_ (the_conn w)) -> steps w (handleRead on_connection on_message (threadId_ w.1) t w).
Proof using Type*.
  intros Ho v Hsh. pose proof Hsh as [Hl _ _]. destruct (open_not_down _ Ho) as [Hnc Hnd].
  rewrite <- (lk_state _ _ Hl) in Hnc.
  destruct (handleRead_spec on_connection on_message t w (lk_inv _ _ Hl)) as [w1 Hq Hin Hre | | w1 d Hq Hd Hin Hre | w1 Hq Hin Hre];
    [.. | done | |];
    pose proof (shows_quiet w w1 v Hsh Hq Hnc Hnd) as Hs1; rewrite Hin, Hre, <- (lk_input _ _ Hl), <- (lk_received _ _ Hl) in Hs1.
  - exists v. split; [apply v_idle | by destruct v].
  - destruct Hs1 as [Hl1 Hh1 Hq1].
    assert (Hl2 : looks w1 (with_in (v_received v ++ d) (v_input v ++ d) v)) by (by destruct Hl1; split).
    eapply safe_mono; [apply (shows_callback _ w1 (with_in (v_received v ++ d) (v_input v ++ d) v)); [done | done | apply message_ok, input_small, Hl1] |].
    intros w' (v' & Hv & Hs'). exists v'. split; [| done]. eapply v_read; [by rewrite (lk_state _ _ Hl) | exact Hd |].
    by rewrite Hin, <- (lk_input _ _ Hl), <- (lk_app _ _ Hl2) in Hv.
  - replace (with_in (v_received v) (v_input v) v) with v in Hs1 by (by destruct v).
    eapply safe_mono; [apply close_step; [by rewrite (qu_state _ _ Hq) | exact Hs1] |].
    intros w' (v' & [Hv _] & Hs'). by exists v'.
Qed.

Lemma written_step w : quiet_steps w (handleWrite (threadId_ w.1) w).
Proof using EventFd0 SocketLaws0 PollerSpec0.
  intros v [Hl Hh Hq]. eapply safe_mono; [apply handleWrite_good, Hl |].
  intros w' (Hg & Es & Hstr & ts & Hd & (Ha & [Hin Hre] & Hp)).
  assert (Hc : called w w').
  { split; [apply Hg | | by rewrite Es |].
    - exists ts. split; [| done]. destruct Hd; [| constructor].
      unfold completion. destruct (writeCompleteCallback_ _); repeat constructor.
    - intros Ed. destruct Hd as [Ho | [Ho | ->]]; [| | done];
        destruct (open_not_down _ Ho); congruence. }
  assert (Hnc : state_ (the_conn w) <> kConnecting \/ w' = w).
  { destruct Hd as [Ho | [Ho | ->]]; [left | left | by right]; by apply open_not_down. }
  assert (Hsh : forall v', looks w' v' -> shows w' v').
  { intros v' Hl'. split; [done | by rewrite (ev_handling _ _ (proj2 Hg)) |].
    destruct Hnc as [Hnc | ->]; [by eapply called_queue_ok | done]. }
  destruct Hl. destruct Hd as [Ho Hne Hout Hfin | _ Hout Hfin].
  - eexists. split; [split; [apply v_drained; [by rewrite lk_state0 | by rewrite lk_waiting0, bool_decide_eq_false_2] | done] |].
    apply Hsh. split; cbn; [apply Hg | by rewrite (ev_complete _ _ (proj2 Hg)) | congruence | congruence | congruence | congruence |
      congruence | by rewrite Hout | by rewrite lk_state0, Hfin, lk_fin0 |].
    rewrite Hp, count_reports_app, lk_reports0. unfold completion, one_report. rewrite lk_callback0. by destruct reporting.
  - exists v. split; [apply idle_quiet |]. apply Hsh. rewrite app_nil_r in Hp.
    split; [apply Hg | by rewrite (ev_complete _ _ (proj2 Hg)) | congruence | congruence | congruence | congruence | congruence |
      | congruence | congruence].
    rewrite lk_waiting0. f_equal. by apply bool_decide_ext.
Qed.

(** The three kinds of functors. *)
Lemma established_step w :
  pendingFunctors_ w.1 = [TConnectEstablished] -> state_ (the_conn w) = kConnecting ->
  quiet_steps w (connectEstablished on_connection (threadId_ w.1) self (with_queue [] w)).
Proof using Type*.
  intros Hp Es v [Hl Hh Hq]. pose proof (looks_queue [] w v Hl) as Hl0.
  destruct (establish_good on_connection self (with_queue [] w) (lk_inv _ _ Hl0) Es)
    as (w1 & Hrun & Hg & Hs & Hk & Hout & Hout0 & (Ha & [Hin Hre] & Hp1)).
  change (threadId_ w.1) with (threadId_ (with_queue [] w).1). rewrite Hrun.
  rewrite app_nil_r in Hp1. cbn [with_queue with_lp fst pendingFunctors_ with_pending] in Hp1.
  unfold connectionCallback, connected, is_state. rewrite bool_decide_eq_true_2 by done.
  assert (Hs1 : shows w1 (with_state kConnected v)).
  { split.
    - destruct Hl0. split; cbn in *; [apply Hg | by rewrite (ev_complete _ _ (proj2 Hg)) | done | congruence | congruence |
        congruence | | | congruence | by rewrite Hp1, (lk_reports _ _ Hl), Hp].
      + rewrite lk_sent0. unfold stream. rewrite Hk, Hout. cbn in Hout0 |- *. by rewrite Hout0.
      + rewrite lk_waiting0, Hout. cbn in Hout0 |- *. by rewrite Hout0.
    - by rewrite (ev_handling _ _ (proj2 Hg)).
    - unfold queue_ok. rewrite Hs, Hp1. constructor. }
  eapply safe_mono; [apply (shows_callback _ w1 (with_state kConnected v)); [done | done | apply connection_ok] |].
  intros w' (v' & Hv & Hs'). exists v'. split; [| done].
  split; [apply v_up; [by rewrite (lk_state _ _ Hl) |] | exact (vcmds_received _ _ _ _ _ Hv)].
  assert (Ea : v_app v = app w1.2) by (rewrite Ha; apply (lk_app _ _ Hl)). by rewrite Ea.
Qed.

Lemma report_step r ts w v :
  shows w v -> state_ (the_conn w) <> kConnecting -> queue_ok (with_queue ts w) -> Forall cmd_ok r.2 ->
  safe (callback (threadId_ w.1) r (with_queue ts w))
    (fun w' => exists v', vcall pipe_breaks reporting r (with_reports (count_reports ts) v) v' /\ shows w' v').
Proof using EventFd0 SocketLaws0 PollerSpec0.
  intros [Hl Hh _] Hnc Hq Hr. change (threadId_ w.1) with (threadId_ (with_queue ts w).1).
  apply shows_callback; [| by rewrite <- (lk_state _ _ Hl) in Hnc | done].
  split; [by apply looks_queue | done | done].
Qed.

Lemma taken_down_step w :
  pendingFunctors_ w.1 = [TConnectDestroyed] -> state_ (the_conn w) = kDisconnected -> closed_channel w ->
  quiet_steps w (connectDestroyed on_connection (threadId_ w.1) (with_queue [] w)).
Proof using EventFd0 SocketLaws0 PollerSpec0.
  intros Hp Es Hc v [Hl Hh Hq]. pose proof (looks_queue [] w v Hl) as Hl0.
  change (threadId_ w.1) with (threadId_ (with_queue [] w).1).
  destruct (destroy_closed on_connection (with_queue [] w) (lk_inv _ _ Hl0) Es Hh Hc)
    as (w' & -> & Hg & E2 & (_ & _ & Hp') & _).
  cbn [safe]. exists v. split; [apply idle_quiet |]. rewrite app_nil_r in Hp'. cbn in Hp'.
  assert (Ec : the_conn w' = the_conn w) by (unfold the_conn; by rewrite E2). split.
  - destruct Hl. split; [apply Hg | unfold stream in *; rewrite ?Ec, ?E2; try done..].
    by rewrite Hp', lk_reports0, Hp.
  - by rewrite (ev_handling _ _ (proj2 Hg)).
  - unfold queue_ok. rewrite Ec, Es. by right.
Qed.

(** What is not a reading event reads nothing. *)
Definition reads_at (h : happening) : option Z :=
  match h with Ready CbRead t => Some t | _ => None end.

Lemma happen_quiet h w :
  may_happen h w -> reads_at h = None -> quiet_steps w (happen h w).
Proof using Type*.
  intros Hm Hn v Hsh. pose proof Hsh as [Hl Hh Hq].
  assert (Hidle : shows w v -> exists v', vquiet v v' /\ shows w v') by (exists v; split; [apply idle_quiet | done]).
  destruct h as [[] t | cs |]; cbn [happen may_happen call_read_conn call_conn] in *;
    [done | by apply written_step | by apply close_step | by apply Hidle | |].
  { destruct Hm as [Ho Hnc]. rewrite <- (lk_state _ _ Hl) in Hnc.
    eapply safe_mono; [by apply (shows_calls cs w v), outside_ok |].
    intros w' (v' & Hv & Hs'). exists v'.
    split; [split; [by eapply v_call | exact (vcmds_received _ _ _ _ _ Hv)] | done]. }
  destruct (pendingFunctors_ w.1) as [| t ts] eqn:Hp; [by apply Hidle |].
  pose proof (lk_reports _ _ Hl) as Hr. rewrite Hp in Hr.
  destruct (queue_ok_head w t ts Hq Hp) as [Es | t ts Ht Hnc Hq' | Es Hc]; cbn [exec].
  - by apply established_step.
  - assert (Hnv : v_state v <> kConnecting) by (by rewrite (lk_state _ _ Hl)). destruct Ht as [-> | [n ->]]; cbn [exec].
    + eapply safe_mono; [by apply (report_step _ ts w v) |]. intros w' (v' & Hv & Hs'). exists v'. split; [| done].
      pose proof (vcmds_received _ _ _ _ _ Hv) as Hre.
      change (app (with_queue ts w).2) with (app w.2) in Hv. rewrite <- (lk_app _ _ Hl) in Hv.
      split; [by eapply v_report | exact Hre].
    + eapply safe_mono; [by apply (report_step _ ts w v) |]. intros w' (v' & Hv & Hs'). exists v'. split; [| done].
      pose proof (vcmds_received _ _ _ _ _ Hv) as Hre.
      change (app (with_queue ts w).2) with (app w.2) in Hv. rewrite <- (lk_app _ _ Hl) in Hv.
      cbn [count_reports] in Hr. rewrite <- Hr in Hv. replace (with_reports (v_reports v) v) with v in Hv by (by destruct v).
      split; [by eapply v_mark | exact Hre].
  - by apply taken_down_step.
Qed.

(** Whatever the poller reports and whichever functor comes next, no assertion
    fails and the step is one of the contract. *)
Lemma happen_refines h w v :
  shows w v -> may_happen h w ->
  safe (happen h w) (fun w' => exists v', vnext v v' /\ shows w' v').
Proof using Type*.
  intros Hsh Hm. destruct (reads_at h) as [t |] eqn:Er.
  - destruct h as [[] |  |]; try done. by apply read_step.
  - eapply safe_mono; [by apply (happen_quiet h w Hm Er v) |]. intros w' (v' & [Hv _] & Hs'). by exists v'.
Qed.

(** *** Runs *)

Definition runs : world -> world -> Prop := rtc happens.

Lemma runs_refine w v w' :
  shows w v -> runs w w' -> exists v', rtc vnext v v' /\ shows w' v'.
Proof using Type*.
  intros Hs Hr. revert v Hs. induction Hr as [w | w w1 w' Hst Hr IH]; intros v Hs.
  { by exists v. }
  destruct Hst as [h w w1 Hm Hh].
  pose proof (happen_refines _ w v Hs Hm) as Hstep. rewrite Hh in Hstep. destruct Hstep as (v1 & Hv & Hs1).
  destruct (IH v1 Hs1) as (v' & Hv' & Hs'). exists v'. split; [by eapply rtc_l | done].
Qed.

(** What every step of the contract keeps holds in every run. *)
Lemma runs_invariant (I : view A -> Prop) w v w' :
  (forall v v', vnext v v' -> I v -> I v') -> I v -> shows w v -> runs w w' ->
  exists v', I v' /\ shows w' v'.
Proof using Type*.
  intros Hstep Hi Hs Hr. destruct (runs_refine w v w' Hs Hr) as (v' & Hv & Hs'). exists v'. split; [| done].
  clear Hs Hs' Hr. induction Hv; eauto.
Qed.

(** A connection that [TcpServer] or [TcpClient] has just made. *)
Record fresh (a : A) w : Prop := {
  fr_inv : conn_inv w;
  fr_state : state_ (the_conn w) = kConnecting;
  fr_pending : pendingFunctors_ w.1 = [TConnectEstablished];
  fr_handling : EventLoop.eventHandling_ w.1 = false;
  fr_callback : writeCompleteCallback_ (the_conn w) = reporting;
  fr_app : app w.2 = a;
  fr_input : contents (inputBuffer_ (the_conn w)) = [];
  fr_output : contents (outputBuffer_ (the_conn w)) = [];
  fr_wire : sock_wire (sock w.2) = [];
  fr_fin : sock_fin (sock w.2) = false;
  fr_read : sock_read (sock w.2) = []
}.

Lemma fresh_shows a w : fresh a w -> shows w (View_new a).
Proof using.
  intros []. split; [split; cbn; try done | done |].
  - unfold stream. by rewrite fr_wire0, fr_output0.
  - by rewrite fr_output0.
  - by rewrite fr_pending0.
  - unfold queue_ok. by rewrite fr_state0.
Qed.

(** Nothing is left to do: no functor waits, and nothing waits to be written. *)
Definition at_rest w : Prop :=
  pendingFunctors_ w.1 = [] /\ contents (outputBuffer_ (the_conn w)) = [].

(** The kernel has all of [data], and knows that nothing follows. *)
Definition complete (data : list byte) w : Prop :=
  sock_wire (sock w.2) = data /\ sock_fin (sock w.2) = true.

(** C4: A connection in its loop keeps the contract: in every run of a new
    connection, whatever the poller reports and in whichever order, what the
    application sees is a run of the contract (states, bytes received and
    accepted in order, what waits, the shut down sending side, the write
    complete reports owed); and at every moment each next step is free of
    failing assertions and fatal errors. *)
Theorem connection_refines a w w' :
  fresh a w -> runs w w' ->
  (exists v', rtc vnext (View_new a) v' /\ shows w' v')
  /\ (forall h, may_happen h w' -> safe (happen h w') (fun _ => True)).
Proof using Type*.
  intros Hf Hr. destruct (runs_refine w _ w' (fresh_shows a w Hf) Hr) as (v' & Hv & Hs). split; [by exists v' |].
  intros h Hm. eapply safe_mono; [by apply (happen_refines h w' v') | done].
Qed.

(** A run, with the times of its reading events: after each of them, how many
    bytes have been read in all, and its receive time. *)
Definition read_now h w' : list (Z * Z) :=
  match reads_at h with Some t => [(zlen (sock_read (sock w'.2)), t)] | None => [] end.
Inductive timed_runs w : list (Z * Z) -> world -> Prop :=
| timed_here : timed_runs w [] w
| timed_more h reads w1 w' :
    timed_runs w reads w1 -> may_happen h w1 -> happen h w1 = Ok w' ->
    timed_runs w (reads ++ read_now h w') w'.

Lemma runs_timed w w' : runs w w' <-> exists reads, timed_runs w reads w'.
Proof using.
  split.
  - apply (rtc_ind_r (fun w' => exists reads, timed_runs w reads w')); [by exists []; constructor |].
    intros w1 w2 _ [h w1' w2' Hm Hh] [reads IH]. eexists. by eapply timed_more.
  - intros [reads Hr]. induction Hr as [| h reads w1 w' _ IH Hm Hh]; [apply rtc_refl |].
    eapply rtc_r; [exact IH | by eapply happens_ok].
Qed.

Lemma timed_first h w w1 reads w' :
  may_happen h w -> happen h w = Ok w1 -> timed_runs w1 reads w' -> timed_runs w (read_now h w1 ++ reads) w'.
Proof using.
  intros Hm Hh. induction 1 as [| h' reads w2 w' _ IH Hm' Hh'].
  - rewrite app_nil_r. apply (timed_more w h [] w w1); [constructor | done | done].
  - rewrite app_assoc. by eapply timed_more.
Qed.
End driven.

(** The same contract with the receive times: a callback that is called in a
    reading event of time [t] is called with [t]. *)
Section timed.
Context {P E K A : Type} `{!EventFd E, !Socket K, !PollerOps (loop_cb conn_cb) P}.
Context `{!SocketLaws K, !PollerSpec (loop_cb conn_cb) P}.
Local Abbreviation world := (EventLoop conn_cb task P E * rest K A)%type.
Variables (on_connection : A -> bool -> A * list cmd)
          (on_message : A -> list byte -> Z -> A * list cmd)
          (on_writeComplete : A -> A * list cmd)
          (on_highWaterMark : A -> Z -> A * list cmd)
          (outside : list cmd -> Prop) (self : Z) (reporting : bool).
Hypothesis connection_ok : forall a b, Forall cmd_ok (on_connection a b).2.
Hypothesis message_ok : forall a d t, zlen d < 2 ^ 63 -> Forall cmd_ok (on_message a d t).2.
Hypothesis writeComplete_ok : forall a, Forall cmd_ok (on_writeComplete a).2.
Hypothesis highWaterMark_ok : forall a n, Forall cmd_ok (on_highWaterMark a n).2.
Hypothesis outside_ok : forall cs, outside cs -> Forall cmd_ok cs.

Definition vnext_at (t : Z) : view A -> view A -> Prop :=
  vstep (pipe_breaks (K := K)) reporting outside on_connection (fun a d _ => on_message a d t) on_writeComplete on_highWaterMark.
Local Abbreviation vnext :=
  (vstep (pipe_breaks (K := K)) reporting outside on_connection on_message on_writeComplete on_highWaterMark).

(** What every step keeps, with what has been read when, holds in every run. *)
Lemma timed_invariant (I : list (Z * Z) -> view A -> Prop) reads (w : world) v w' :
  (forall reads t v v', vnext_at t v v' -> I reads v -> I (reads ++ [(zlen (v_received v'), t)]) v') ->
  (forall reads v v', vnext v v' -> v_received v' = v_received v -> I reads v -> I reads v') ->
  I [] v -> shows reporting w v ->
  timed_runs on_connection on_message on_writeComplete on_highWaterMark outside self w reads w' ->
  exists v', I reads v' /\ shows reporting w' v'.
Proof using Type*.
  intros Hread Hquiet Hi Hs Hr. induction Hr as [| h reads w1 w' _ (v1 & Hi1 & Hs1) Hm Hh]; [by exists v |].
  unfold read_now. destruct (reads_at h) as [t |] eqn:Er.
  - destruct h as [[] t' | |]; try done. injection Er as ->.
    pose proof (happen_refines on_connection (fun a d _ => on_message a d t) on_writeComplete on_highWaterMark outside
      self reporting connection_ok (fun a d _ Hd => message_ok a d t Hd) writeComplete_ok highWaterMark_ok outside_ok
      (Ready CbRead t) w1 v1 Hs1 Hm) as Hst.
    change (happen _ _ _ _ _ (Ready CbRead t) w1)
      with (happen on_connection on_message on_writeComplete on_highWaterMark self (Ready CbRead t) w1) in Hst.
    rewrite Hh in Hst. destruct Hst as (v' & Hv & Hs'). exists v'. split; [| done].
    rewrite <- (lk_received _ _ _ (sh_looks _ _ _ Hs')). by eapply Hread.
  - pose proof (happen_quiet on_connection on_message on_writeComplete on_highWaterMark outside
      self reporting connection_ok message_ok writeComplete_ok highWaterMark_ok outside_ok h w1 Hm Er v1 Hs1) as Hst.
    rewrite Hh in Hst. destruct Hst as (v' & [Hv Hre] & Hs'). exists v'. rewrite app_nil_r. split; [by eapply Hquiet | done].
Qed.
End timed.

(** ** Callbacks that are not set *)

(** No write complete and no high water mark callback is set. *)
Definition no_report {A} (a : A) : A * list cmd := (a, []).
Definition no_mark {A} (a : A) (len : Z) : A * list cmd := (a, []).

(** ** A connection over a socket that does not break, and scripts of runs *)

Record steady_sock : Type := mkSteady {
  st_wire : list byte; st_fin : bool; st_input : list byte; st_take : Z; st_read : list byte
}.

#[export] Instance steady_socket : Socket steady_sock :=
  {| sock_write := fun k d =>
       let n := Z.min (zlen d) (Z.max 0 (st_take k)) in
       (n, 0, mkSteady (st_wire k ++ ztake n d) (st_fin k) (st_input k) (st_take k) (st_read k));
     sock_readv := fun k n =>
       let n := Z.max 0 (Z.min (n + kExtraBuf) (st_take k)) in
       let d := ztake n (st_input k) in
       (ReadvOk d, mkSteady (st_wire k) (st_fin k) (zdrop n (st_input k)) (st_take k) (st_read k ++ d));
     sock_shutdownWrite := fun k => mkSteady (st_wire k) true (st_input k) (st_take k) (st_read k);
     sock_wire := st_wire; sock_fin := st_fin; sock_read := st_read |}.

#[export] Instance steady_socket_laws : SocketLaws steady_sock.
Proof.
  split.
  - intros k d. cbn. split_and!; [lia | done..].
  - intros k n. cbn. split_and!; [| done..]. intros d Hn [= <-].
    etransitivity; [apply ztake_max | unfold kExtraBuf]; lia.
  - done.
Defined.

Lemma steady_no_break : ~ pipe_breaks (K := steady_sock).
Proof. intros (k & d & n & k' & Hw & Hn). cbn in Hw. injection Hw as <- He _. discriminate He. Qed.

Section steady.
Context {A : Type}.
Local Abbreviation world := (EventLoop conn_cb task (EPollPoller demo_epoll) demo_counter * rest steady_sock A)%type.

(** A new connection whose socket takes [take] bytes per write and delivers
    [input], as many bytes per read. *)
Definition steady_new (take : Z) (input : list byte) (reporting : bool) (a : A) : world :=
  (with_pending [TConnectEstablished] demo_conn_loop,
   mkRest (mkConn kConnecting 20 reporting false (64 * 1024 * 1024) Buffer_new Buffer_new)
     (mkSteady [] false input take []) a).

Lemma steady_fresh take input reporting a : fresh reporting a (steady_new take input reporting a).
Proof.
  split; try reflexivity. exists (conn_channel 1 9), [], []. split.
  - split; [reflexivity |]. split; [reflexivity |].
    apply epoll_inv_fresh; [| reflexivity | reflexivity]. split.
    + intros fd. reflexivity.
    + intros c ch Hc. by rewrite lookup_empty in Hc.
  - apply holds_new.
  - apply holds_new.
  - split_and!; reflexivity.
  - intros Hf. discriminate Hf.
Qed.

Variables (on_connection : A -> bool -> A * list cmd)
          (on_message : A -> list byte -> Z -> A * list cmd)
          (on_writeComplete : A -> A * list cmd)
          (on_highWaterMark : A -> Z -> A * list cmd)
          (outside : list cmd -> Prop).

Definition may_happen_b (h : happening) (w : world) : bool :=
  match h with
  | Ready CbRead _ | Ready CbClose _ =>
      is_state (state_ (the_conn w)) kConnected || is_state (state_ (the_conn w)) kDisconnecting
  | Call _ => negb (is_state (state_ (the_conn w)) kConnecting)
  | _ => true
  end.

Fixpoint script (hs : list happening) (w : world) : option world :=
  match hs with
  | [] => Some w
  | h :: hs =>
      if may_happen_b h w
      then match happen on_connection on_message on_writeComplete on_highWaterMark 5 h w with
           | Ok w' => script hs w'
           | Err _ => None
           end
      else None
  end.

(** The calls of a script are ones the program makes. *)
Definition called_by (h : happening) : Prop := match h with Call cs => outside cs | _ => True end.

Lemma may_happen_b_true h w : called_by h -> may_happen_b h w = true -> may_happen outside h w.
Proof.
  assert (Hopen : forall s, is_state s kConnected || is_state s kDisconnecting = true -> open_state s)
    by (intros [] Hs; first [done | by left | by right]).
  destruct h as [[] t | cs |]; cbn; try done; [by intros _ ?%Hopen | by intros _ ?%Hopen |].
  intros Ho Hs. split; [done |]. intros Es. by rewrite Es in Hs.
Qed.

Lemma script_runs hs : forall w w',
  Forall called_by hs -> script hs w = Some w' ->
  runs on_connection on_message on_writeComplete on_highWaterMark outside 5 w w'.
Proof.
  induction hs as [| h hs IH]; intros w w' Hf Hs; cbn [script] in Hs.
  { injection Hs as ->. apply rtc_refl. }
  apply Forall_cons in Hf as [Hc Hf].
  destruct (may_happen_b h w) eqn:Hm; [| done]. destruct (happen _ _ _ _ _ _ _) as [w1 |] eqn:Hh; [| done].
  eapply rtc_l; [| by apply IH]. apply (happens_ok _ _ _ _ _ _ h); [by apply may_happen_b_true | done].
Qed.

(** The world a script that runs ends in. *)
Definition ends (hs : list happening) (w : world) : world := default w (script hs w).
Lemma ends_runs hs w :
  Forall called_by hs -> is_Some (script hs w) ->
  runs on_connection on_message on_writeComplete on_highWaterMark outside 5 w (ends hs w).
Proof. intros Hf [w1 Hs]. unfold ends. rewrite Hs. by apply (script_runs hs). Qed.

(** What is read when. *)
Fixpoint script_reads (hs : list happening) (w : world) : list (Z * Z) :=
  match hs with
  | [] => []
  | h :: hs =>
      match happen on_connection on_message on_writeComplete on_highWaterMark 5 h w with
      | Ok w' => read_now h w' ++ script_reads hs w'
      | Err _ => []
      end
  end.
Lemma script_timed hs : forall w w',
  Forall called_by hs -> script hs w = Some w' ->
  timed_runs on_connection on_message on_writeComplete on_highWaterMark outside 5 w (script_reads hs w) w'.
Proof.
  induction hs as [| h hs IH]; intros w w' Hf Hs; cbn [script script_reads] in *.
  { injection Hs as ->. constructor. }
  apply Forall_cons in Hf as [Hc Hf].
  destruct (may_happen_b h w) eqn:Hm; [| done]. destruct (happen _ _ _ _ _ _ _) as [w1 |] eqn:Hh; [| done].
  eapply timed_first; [by apply may_happen_b_true | exact Hh | by apply IH].
Qed.
Lemma ends_timed hs w :
  Forall called_by hs -> is_Some (script hs w) ->
  timed_runs on_connection on_message on_writeComplete on_highWaterMark outside 5 w (script_reads hs w) (ends hs w).
Proof. intros Hf [w1 Hs]. unfold ends. rewrite Hs. by apply (script_timed hs). Qed.
End steady.

(** For a program that makes no calls from outside the callbacks. *)
Definition nobody (cs : list cmd) : Prop := False.

(** The echo server of [TcpConnection]: established, a message read, a call from
    a timer, the answer written in pieces. *)
Definition demo_outside (cs : list cmd) : Prop := cs = [Send (bs "tick")].
Definition demo_script : list happening :=
  [NextFunctor; Ready CbRead 7; Call [Send (bs "tick")]; Ready CbWrite 0].
Definition demo_start := steady_new 1 (bs "hello") false 0%nat.

Lemma demo_outside_ok cs : demo_outside cs -> Forall cmd_ok cs.
Proof. intros ->. repeat constructor. Qed.
Lemma demo_script_runs :
  is_Some (script echo_connection echo_message echo_quiet echo_mark demo_script demo_start).
Proof. vm_compute. eauto. Qed.

Lemma connection_refines_witness :
  let w' := ends echo_connection echo_message echo_quiet echo_mark demo_script demo_start in
  (exists v', rtc (vstep (pipe_breaks (K := steady_sock)) false demo_outside
                     echo_connection echo_message echo_quiet echo_mark)
                (View_new 0%nat) v' /\ shows false w' v')
  /\ (forall h, may_happen demo_outside h w' ->
        safe (happen echo_connection echo_message echo_quiet echo_mark 5 h w') (fun _ => True)).
Proof.
  apply (connection_refines echo_connection echo_message echo_quiet echo_mark demo_outside 5 false
    echo_ok_connection echo_ok_message echo_ok_quiet echo_ok_mark demo_outside_ok 0%nat demo_start).
  - apply steady_fresh.
  - apply ends_runs; [repeat constructor | apply demo_script_runs].
Defined.
