(* ===== verification/Framing.v ===== *)
(** * Framing: extracting messages from a stream that arrives in pieces

    The common contract of the program's stream decoders (the length-header
    codec, the RPC codec, the hub's line protocol): a function that looks at
    the unread bytes and finds the first message, or needs more bytes, or gives
    up.  [stable_next] is what a decoder has to provide; the theorems derive
    that the messages delivered do not depend on how the stream was cut. *)
From S2P Require Import Prelude Endian Buffer.

Inductive next_result (M : Type) : Type :=
| NeedMore
| Invalid
| Got (m : M) (rest : list byte).
Arguments NeedMore {M}.
Arguments Invalid {M}.
Arguments Got {M} m rest.

(** The interface of a decoder. *)
Class StableNext {M : Type} (next : list byte -> next_result M) : Prop := {
  next_shorter l m rest : next l = Got m rest -> (length rest < length l)%nat;
  next_app l k m rest : next l = Got m rest -> next (l ++ k) = Got m (rest ++ k);
  invalid_app l k : next l = Invalid -> next (l ++ k) = Invalid
}.

Section framing.
Context {M : Type} (next : list byte -> next_result M) `{!StableNext next}.

(** All the messages at the front: with the fuel used up, or a decoder that
    gave up, or one that waits for more. *)
Fixpoint drain (fuel : nat) (l : list byte) : list M * bool * list byte :=
  match fuel with
  | O => ([], false, l)
  | S fuel =>
      match next l with
      | NeedMore => ([], false, l)
      | Invalid => ([], true, l)
      | Got m rest => let '(ms, stop, r) := drain fuel rest in (m :: ms, stop, r)
      end
  end.

Definition drain_all (l : list byte) : list M * bool * list byte := drain (S (length l)) l.

Lemma drain_fuel f1 : forall f2 l,
  (length l < f1)%nat -> (length l < f2)%nat -> drain f1 l = drain f2 l.
Proof using Type*.
  induction f1 as [| f1 IH]; intros [| f2] l Hf1 Hf2; [lia.. |]. cbn [drain].
  destruct (next l) as [| | m rest] eqn:E; try done. pose proof (next_shorter _ _ _ E).
  by rewrite (IH f2) by lia.
Qed.

Lemma drain_all_got l m rest :
  next l = Got m rest ->
  drain_all l = let '(ms, stop, r) := drain_all rest in (m :: ms, stop, r).
Proof using Type*.
  intros E. pose proof (next_shorter _ _ _ E). unfold drain_all at 1. cbn [drain]. rewrite E.
  by rewrite (drain_fuel (length l) (S (length rest))) by lia.
Qed.

(** Draining a prefix first makes no difference. *)
Lemma drain_app_fuel f k : forall l,
  (length l < f)%nat ->
  drain_all (l ++ k)
  = let '(ms, stop, r) := drain f l in
    if stop then (ms, true, r ++ k)
    else let '(ms', stop', r') := drain_all (r ++ k) in (ms ++ ms', stop', r').
Proof using Type*.
  induction f as [| f IH]; intros l Hl; [lia |]. cbn [drain].
  destruct (next l) as [| | m rest] eqn:E.
  - by destruct (drain_all (l ++ k)) as [[??]?].
  - unfold drain_all. cbn [drain]. by rewrite (invalid_app _ k E).
  - pose proof (next_shorter _ _ _ E).
    rewrite (drain_all_got _ _ _ (next_app _ k _ _ E)), (IH rest) by lia.
    destruct (drain f rest) as [[ms stop] r]. destruct stop; [done |].
    by destruct (drain_all (r ++ k)) as [[??]?].
Qed.

Lemma drain_app l k :
  drain_all (l ++ k)
  = let '(ms, stop, r) := drain_all l in
    if stop then (ms, true, r ++ k)
    else let '(ms', stop', r') := drain_all (r ++ k) in (ms ++ ms', stop', r').
Proof using Type*. apply drain_app_fuel. lia. Qed.

(** ** A stream arriving in chunks *)

(** The unread bytes and what each arrival delivers; after the decoder has
    given up the bytes only pile up. *)
Fixpoint feed (chunks : list (list byte)) (unread : list byte) : list M * bool * list byte :=
  match chunks with
  | [] => ([], false, unread)
  | c :: chunks =>
      let '(ms, stop, r) := drain_all (unread ++ c) in
      if stop then (ms, true, r ++ concat chunks)
      else let '(ms', stop', r') := feed chunks r in (ms ++ ms', stop', r')
  end.

(** A state the decoder can be in between arrivals. *)
Definition waiting (l : list byte) : Prop := drain_all l = ([], false, l).

Lemma drain_waiting l ms r : drain_all l = (ms, false, r) -> waiting r.
Proof using Type*.
  unfold drain_all. revert l ms r.
  assert (forall f l ms r, (length l < f)%nat -> drain f l = (ms, false, r) -> waiting r) as H.
  { induction f as [| f IH]; intros l ms r Hl Hd; [lia |]. cbn [drain] in Hd.
    destruct (next l) as [| | m rest] eqn:E; simplify_eq.
    - unfold waiting, drain_all. cbn [drain]. by rewrite E.
    - pose proof (next_shorter _ _ _ E). destruct (drain f rest) as [[ms1 s1] r1] eqn:Ed.
      simplify_eq. apply (IH rest ms1 r); [lia | done]. }
  intros l ms r. apply H. lia.
Qed.

Lemma drain_stop_rest l ms r : drain_all l = (ms, true, r) -> forall k, drain_all (l ++ k) = (ms, true, r ++ k).
Proof using Type*. intros E k. rewrite drain_app, E. done. Qed.

(** However the stream is cut, the decoder delivers what it would have
    delivered had everything arrived at once. *)
Lemma feed_drain chunks : forall unread,
  waiting unread -> feed chunks unread = drain_all (unread ++ concat chunks).
Proof using Type*.
  induction chunks as [| c chunks IH]; intros unread Hw; cbn [feed concat].
  - by rewrite app_nil_r.
  - rewrite app_assoc, (drain_app (unread ++ c)). destruct (drain_all (unread ++ c)) as [[ms stop] r] eqn:E.
    destruct stop; [done |]. by rewrite (IH r) by (by eapply drain_waiting).
Qed.

(** ** Encoded streams *)

Lemma drain_encoded (enc : M -> list byte) ms rest :
  (forall m k, m ∈ ms -> next (enc m ++ k) = Got m k) ->
  drain_all (concat (map enc ms) ++ rest)
  = let '(ms', stop, r) := drain_all rest in (ms ++ ms', stop, r).
Proof using Type*.
  induction ms as [| m ms IH]; intros Henc; cbn [map concat app].
  - by destruct (drain_all rest) as [[??]?].
  - rewrite <- app_assoc, (drain_all_got _ m (concat (map enc ms) ++ rest)).
    + rewrite IH by (intros m' k Hin; apply Henc; by apply list_elem_of_further).
      by destruct (drain_all rest) as [[??]?].
    + apply Henc, list_elem_of_here.
Qed.

(** Messages sent one after the other are delivered one after the other,
    complete and unchanged, in whatever pieces the bytes arrive. *)
Lemma feed_encoded (enc : M -> list byte) ms chunks :
  waiting [] ->
  (forall m k, m ∈ ms -> next (enc m ++ k) = Got m k) ->
  concat chunks = concat (map enc ms) ->
  feed chunks [] = (ms, false, []).
Proof using Type*.
  intros Hw Henc Hc. rewrite feed_drain by done. cbn [app]. rewrite Hc.
  rewrite <- (app_nil_r (concat (map enc ms))), drain_encoded by done.
  by rewrite Hw, app_nil_r.
Qed.

(** Part of an encoded stream delivers the messages that are complete, and the
    rest of the stream is the encoding of the others. *)
Lemma drain_part (enc : M -> list byte) ms : forall l w,
  (forall m k, m ∈ ms -> next (enc m ++ k) = Got m k) ->
  (forall m l k, m ∈ ms -> enc m = l ++ k -> k <> [] -> next l = NeedMore) ->
  next [] = NeedMore ->
  l ++ w = concat (map enc ms) ->
  exists ms1 ms2 r, ms = ms1 ++ ms2 /\ drain_all l = (ms1, false, r) /\ r ++ w = concat (map enc ms2).
Proof using Type*.
  induction ms as [| m ms IH]; intros l w Hgot Hmore Hnil Heq; cbn [map concat] in Heq.
  - apply app_nil in Heq as [-> ->]. exists [], [], []. split; [done |]. split; [| done].
    unfold drain_all. cbn [drain length]. by rewrite Hnil.
  - destruct (decide (length (enc m) <= length l)%nat) as [Hl | Hl].
    + assert (Hpre : l = enc m ++ drop (length (enc m)) l).
      { assert (Ht : take (length (enc m)) (l ++ w) = enc m) by (rewrite Heq; by rewrite take_app_length).
        rewrite take_app_le in Ht by lia. rewrite <- Ht at 1. by rewrite take_drop. }
      rewrite Hpre in Heq. rewrite <- app_assoc in Heq. apply app_inv_head in Heq.
      destruct (IH (drop (length (enc m)) l) w) as (ms1 & ms2 & r & -> & Hd & Hr); [.. | done |].
      * intros m' k Hin. apply Hgot. by right.
      * intros m' l' k Hin. apply Hmore. by right.
      * done.
      * exists (m :: ms1), ms2, r. split; [done |]. split; [| done].
        rewrite Hpre, (drain_all_got _ m (drop (length (enc m)) l)), Hd; [done |]. apply Hgot. by left.
    + exists [], (m :: ms), l. split; [done |]. split; [| done].
      unfold drain_all. cbn [drain].
      assert (Hpre : enc m = l ++ drop (length l) (enc m)).
      { assert (Ht : take (length l) (enc m ++ concat (map enc ms)) = l) by (rewrite <- Heq; by rewrite take_app_length).
        rewrite take_app_le in Ht by lia. rewrite <- Ht at 1. by rewrite take_drop. }
      rewrite (Hmore m l (drop (length l) (enc m))); [done | by left | done |].
      intros Hk. apply (f_equal length) in Hk. rewrite length_drop in Hk. simpl in Hk. lia.
Qed.
End framing.

(** ** Reading prefixes of a buffer *)

Lemma read_range l b i j :
  holds l b -> 0 <= i <= j -> j <= zlen l ->
  mem_read (peek b + i) (peek b + j) (buffer_ b) = Ok (zslice i j l).
Proof.
  intros [Hwf <-] Hi Hj. rewrite (contents_len b Hwf) in Hj. unfold peek, contents. destruct Hwf.
  rewrite mem_read_ok by lia. rewrite zslice_zslice by lia. done.
Qed.

Lemma read_all l b :
  holds l b -> mem_read (peek b) (peek b + readableBytes b) (buffer_ b) = Ok l.
Proof.
  intros H. rewrite (holds_readable _ _ H). pose proof (zlen_nonneg l).
  rewrite <- (Z.add_0_r (peek b)) at 1. rewrite (read_range l) by (done || lia).
  by rewrite zslice_full.
Qed.

Lemma header_value l : zlen l = 4 -> networkToHost32 (le_val l) = be_val l.
Proof.
  intros Hl. unfold networkToHost32, u32. change 32 with (8 * Z.of_nat 4).
  apply networkToHost_image. unfold zlen in Hl. lia.
Qed.

Lemma read_header l b :
  holds l b -> 4 <= zlen l ->
  mem_read (peek b) (peek b + 4) (buffer_ b) = Ok (ztake 4 l)
  /\ s32 (networkToHost32 (le_val (ztake 4 l))) = s32 (be_val (ztake 4 l)).
Proof.
  intros H Hl. split.
  - rewrite <- (Z.add_0_r (peek b)) at 1. rewrite (read_range l) by (done || lia).
    by rewrite ztake_is_zslice.
  - f_equal. apply header_value, zlen_ztake. lia.
Qed.

Lemma be_header n : - 2 ^ 31 <= n < 2 ^ 31 -> s32 (be_val (be_bytes 4 n)) = n.
Proof.
  intros H. rewrite be_val_bytes. unfold s32. rewrite (wraps_wrapu 32). by apply s32_small.
Qed.

Lemma ztake_frame n (k r : list byte) : ztake 4 ((be_bytes 4 n ++ k) ++ r) = be_bytes 4 n.
Proof.
  rewrite <- app_assoc. rewrite ztake_app_l by (rewrite zlen_be_bytes; lia).
  apply ztake_all. rewrite zlen_be_bytes. lia.
Qed.
Lemma zlen_frame n (k : list byte) : zlen (be_bytes 4 n ++ k) = 4 + zlen k.
Proof. by rewrite zlen_app, zlen_be_bytes. Qed.
Lemma zslice_frame n (k r : list byte) : zslice 4 (4 + zlen k) ((be_bytes 4 n ++ k) ++ r) = k.
Proof.
  pose proof (zlen_nonneg k). rewrite zslice_app_l by (rewrite ?zlen_frame; lia).
  rewrite zslice_app_r by (rewrite ?zlen_be_bytes; lia). rewrite zlen_be_bytes.
  replace (4 - Z.of_nat 4) with 0 by lia. replace (4 + zlen k - Z.of_nat 4) with (zlen k) by lia.
  apply zslice_full.
Qed.
Lemma zdrop_frame n (k r : list byte) : zdrop (4 + zlen k) ((be_bytes 4 n ++ k) ++ r) = r.
Proof.
  rewrite zdrop_app_r by (rewrite zlen_frame; lia). rewrite zlen_frame, Z.sub_diag. apply zdrop_0.
Qed.

(** What a decoder that delivers [ms], may stop and leaves [r] does to a
    buffer that held the bytes. *)
Definition delivers {M} (m : res (list M * bool * Buffer)) (d : list M * bool * list byte) : Prop :=
  exists b, m = Ok (d.1, b) /\ holds d.2 b.

(** ** A connection's life as seen by a decoder

    Chunks are appended to the input buffer and the message callback runs after
    each; a run ends early when it gives up. *)
Section run_chunks.
Context {M E : Type} (next : list byte -> next_result M) (f : M -> E).
Context (onMessage : Buffer -> res (list E * bool * Buffer)).

Fixpoint run_chunks (chunks : list (list byte)) (b : Buffer) : res (list E * bool * Buffer) :=
  match chunks with
  | [] => mret ([], false, b)
  | c :: chunks =>
      b ← append b c;
      '(ms, stop, b) ← onMessage b;
      if stop : bool then mret (ms, true, b)
      else '(ms', stop', b) ← run_chunks chunks b; mret (ms ++ ms', stop', b)
  end.

(** What the implementation has to provide: that it delivers the messages at
    the front of the buffer, where the decoder does not give up. *)
Definition implements : Prop := forall l b ms r,
  holds l b -> drain_all next l = (ms, false, r) ->
  exists b', onMessage b = Ok (map f ms, false, b') /\ holds r b'.

Context (Himp : implements).

Lemma run_chunks_feed chunks : forall l b ms r,
  holds l b -> Forall (fun c => zlen c < 2 ^ 62) chunks ->
  feed next chunks l = (ms, false, r) ->
  safe (run_chunks chunks b) (fun '(es, stop, b') => es = map f ms /\ stop = false /\ holds r b').
Proof using Himp.
  induction chunks as [| c chunks IH]; intros l b ms r H Hc Hf; cbn [run_chunks feed] in *.
  { by injection Hf as <- <-. }
  apply Forall_cons in Hc as [Hc Hcs]. eapply safe_bind; [by apply append_holds |]. intros b1 Hb1.
  destruct (drain_all next (l ++ c)) as [[ms1 stop1] r1] eqn:Ed. destruct stop1; [done |].
  destruct (Himp _ _ _ _ Hb1 Ed) as (b2 & -> & Hb2). rsimp.
  destruct (feed next chunks r1) as [[ms2 stop2] r2] eqn:Ef. simplify_eq.
  eapply safe_bind; [by eapply IH |]. intros [[es stop] b3] (-> & -> & Hb3).
  by rewrite map_app.
Qed.

(** The round trip of every codec of the program. *)
Lemma run_chunks_encoded (enc : M -> list byte) `{!StableNext next} ms chunks b :
  waiting next [] -> (forall m k, m ∈ ms -> next (enc m ++ k) = Got m k) ->
  holds [] b -> Forall (fun c => zlen c < 2 ^ 62) chunks ->
  concat chunks = concat (map enc ms) ->
  safe (run_chunks chunks b) (fun '(es, stop, b') => es = map f ms /\ stop = false /\ holds [] b').
Proof using Himp.
  intros Hw Henc Hb Hc Heq. eapply run_chunks_feed; [done.. |]. by apply (feed_encoded next enc).
Qed.
End run_chunks.

(** ** Lines

    Text up to CRLF, which does not contain CR itself. *)
Lemma find_sub_cr l k : CR ∉ l -> find_sub crlf (l ++ crlf ++ k) = Some (zlen l).
Proof.
  intros Hl. induction l as [| b l IH]; [done |]. apply not_elem_of_cons in Hl as [Hb Hl].
  cbn [app find_sub]. replace (starts_with crlf (b :: l ++ crlf ++ k)) with false.
  2: { symmetry. apply not_true_is_false. intros [k' Hk]%starts_with_true. injection Hk as -> _. done. }
  rewrite (IH Hl). cbn. by rewrite zlen_cons, <- Z.add_1_l.
Qed.
Lemma find_sub_no_lf l : CR ∉ l -> find_sub crlf (l ++ [CR]) = None /\ find_sub crlf l = None.
Proof.
  intros Hl. induction l as [| b l IH]; [done |]. apply not_elem_of_cons in Hl as [Hb Hl].
  destruct (IH Hl) as [H1 H2]. cbn [app find_sub].
  assert (Hs : forall k, starts_with crlf (b :: k) = false).
  { intros k. apply not_true_is_false. intros [k' Hk]%starts_with_true. injection Hk as -> _. done. }
  rewrite !Hs, H1, H2. done.
Qed.

Definition next_line (l : list byte) : next_result (list byte) :=
  match find_sub crlf l with Some i => Got (ztake i l) (zdrop (i + 2) l) | None => NeedMore end.

#[export] Instance next_line_stable : StableNext next_line.
Proof.
  unfold next_line. split.
  - intros l m rest H. destruct (find_sub crlf l) as [i |] eqn:E; [| done]. injection H as _ <-.
    destruct (crlf_range l i E). unfold zdrop, zlen in *. rewrite length_drop. lia.
  - intros l k m rest H. destruct (find_sub crlf l) as [i |] eqn:E; [| done]. injection H as <- <-.
    rewrite (find_sub_app_Some _ _ _ _ E). destruct (crlf_range l i E). by rewrite ztake_app_l, zdrop_app_l by lia.
  - intros l k H. by destruct (find_sub crlf l).
Qed.

Lemma next_line_enc m k : CR ∉ m -> next_line ((m ++ crlf) ++ k) = Got m k.
Proof.
  intros Hm. unfold next_line. rewrite <- app_assoc, find_sub_cr by done. f_equal.
  - by rewrite ztake_app_l, ztake_all by lia.
  - rewrite app_assoc, zdrop_app_r by (rewrite zlen_app; change (zlen crlf) with 2; lia).
    rewrite zlen_app. change (zlen crlf) with 2. by rewrite Z.sub_diag.
Qed.
Lemma next_line_prefix m l k : CR ∉ m -> m ++ crlf = l ++ k -> k <> [] -> next_line l = NeedMore.
Proof.
  intros Hcr Heq Hk. unfold next_line. destruct (exists_last Hk) as (k' & b & ->).
  change crlf with ([CR] ++ [LF]) in Heq. rewrite !app_assoc in Heq. apply app_inj_tail in Heq as [Heq _].
  assert (Hnone : find_sub crlf l = None); [| by rewrite Hnone].
  destruct k' as [| c k'] using rev_ind.
  - rewrite app_nil_r in Heq. rewrite <- Heq. by destruct (find_sub_no_lf m Hcr) as [? _].
  - rewrite app_assoc in Heq. apply app_inj_tail in Heq as [Heq _]. rewrite Heq in Hcr.
    apply not_elem_of_app in Hcr as [Hcr _]. by destruct (find_sub_no_lf l Hcr) as [_ ?].
Qed.
