(* ===== verification/OneShot.v ===== *)
(** * OneShot: servers that say one thing and close

    [examples/simple/daytime], [simple/time] and the client of the latter,
    [simple/timeclient]; the file server [download.cc] of [FileTransfer] is of the
    same kind.  [OneShot] is what they have in common. *)
From S2P Require Import Prelude Endian Format Buffer Channel Poller EPollPoller EventLoop Timestamp TimeText TcpConnection ConnSpec.

(** ** The callbacks *)

(** The connection's default message callback. *)
(*@ muduo/muduo/net/TcpConnection.cc 36-43 defaultMessageCallback *)
Definition defaultMessageCallback {A} (a : A) (buf : list byte) (t : Z) : A * list cmd := (a, [RetrieveAll]).

(** [now] and [time] are what the clock says when the connection comes up. *)
(*@ muduo/examples/simple/daytime/daytime.cc 27-37 DaytimeServer::onConnection *)
Definition daytime_onConnection (gmtime : Z -> calendar) (now : Z) (a : unit) (connected : bool) : unit * list cmd :=
  if connected then (a, [Send (toFormattedString gmtime now ++ [LF]); Shutdown]) else (a, []).
(*@ muduo/examples/simple/daytime/daytime.cc 39-46 DaytimeServer::onMessage *)
Definition daytime_onMessage (a : unit) (buf : list byte) (time : Z) : unit * list cmd := (a, [RetrieveAll]).

(** The four bytes of an [int32_t] in memory. *)
(*@ muduo/examples/simple/time/time.cc 27-39 TimeServer::onConnection *)
Definition time_onConnection (time : Z) (a : unit) (connected : bool) : unit * list cmd :=
  if connected
  then
    let now := time in
    let be32 := s32 (hostToNetwork32 (s32 now)) in
    (a, [Send (le_bytes 4 be32); Shutdown])
  else (a, []).
(*@ muduo/examples/simple/time/time.cc 41-48 TimeServer::onMessage *)
Definition time_onMessage (a : unit) (buf : list byte) (time : Z) : unit * list cmd := (a, [RetrieveAll]).

(** The client: the times it has logged, and whether it told the loop to quit. *)
Record TimeClient : Type := mkTimeClient { shown : list (Z * list byte); time_quit : bool }.
Definition TimeClient_new : TimeClient := mkTimeClient [] false.

(*@ muduo/examples/simple/timeclient/timeclient.cc 41-51 TimeClient::onConnection *)
Definition timeclient_onConnection (a : TimeClient) (connected : bool) : TimeClient * list cmd :=
  if connected then (a, []) else (mkTimeClient (shown a) true, []).
(*@ muduo/examples/simple/timeclient/timeclient.cc 53-69 TimeClient::onMessage *)
Definition timeclient_onMessage (gmtime : Z -> calendar) (a : TimeClient) (buf : list byte) (receiveTime : Z)
  : TimeClient * list cmd :=
  if 4 <=? zlen buf
  then
    let be32 := s32 (le_val (ztake 4 buf)) in
    let time := networkToHost32 (u32 be32) in
    let ts := s64 (time * kMicroSecondsPerSecond) in
    (mkTimeClient (shown a ++ [(time, toFormattedString gmtime ts)]) (time_quit a), [Retrieve 4])
  else (a, []).

(** ** What saying one thing is *)

Class OneShot {A : Type} (init : A) (on_connection : A -> bool -> A * list cmd) (data : list byte) : Prop := {
  os_up : exists marks, on_connection init true = (init, marks ++ [Send data; Shutdown])
            /\ Forall (fun c => exists n, c = SetHighWaterMark n) marks;
  os_down : on_connection init false = (init, [])
}.

Section one_shot.
Context {A : Type} (init : A) (on_connection : A -> bool -> A * list cmd) (data : list byte).
Context {Hone : OneShot init on_connection data}.
Variables (breaks : Prop) (reporting : bool) (on_highWaterMark : A -> Z -> A * list cmd).
Hypothesis mark_idle : forall a k, on_highWaterMark a k = (a, []).
Implicit Types v : view A.

Local Abbreviation vnext :=
  (vstep breaks reporting nobody on_connection defaultMessageCallback no_report on_highWaterMark).

Definition said v : Prop := v_sent v = data \/ (breaks /\ v_sent v = []).
Definition whole v : Prop :=
  v_app v = init
  /\ match v_state v with
     | kConnecting => v_sent v = [] /\ v_waiting v = false
     | kConnected => False
     | kDisconnecting => said v /\ v_fin v = negb (v_waiting v)
     | kDisconnected => said v
     end.

Lemma marks_first marks cs v v' :
  Forall (fun c => exists n, c = SetHighWaterMark n) marks ->
  vcmds breaks reporting (marks ++ cs) v v' -> vcmds breaks reporting cs v v'.
Proof using.
  induction 1 as [| c marks [n ->] _ IH]; [done |]. cbn [app].
  intros (v1 & ->%vcmd_mark_inv & Hc)%vcmds_inv. by apply IH.
Qed.

Lemma whole_up v v' :
  whole v -> v_state v = kConnecting ->
  vcall breaks reporting (on_connection (v_app v) true) (with_state kConnected v) v' -> whole v'.
Proof using Hone.
  intros [Ha Hv] Hs. rewrite Hs in Hv. destruct Hv as [Hsent Hw]. unfold vcall.
  destruct os_up as (marks & Hup & Hm). rewrite Ha, Hup. cbn [fst snd].
  intros (v2 & Hsend & Hc2%vcmds_one)%marks_first%vcmds_inv; [| done].
  assert (Hdone : v_state v2 = kConnected -> v_app v2 = init -> said v2 -> whole v').
  { intros Hs2 Ha2 Hd2. rewrite (vcmd_shutdown_inv _ _ _ _ Hc2 Hs2). by split. }
  destruct (vcmd_send_inv _ _ _ _ _ Hsend eq_refl) as [[_ ->] | [-> | [(Hb & _ & ->) | [Hnil ->]]]];
    apply Hdone; try done; unfold said; cbn; rewrite Hsent; auto.
Qed.

Lemma whole_step v v' : vnext v v' -> whole v -> whole v'.
Proof using Hone mark_idle.
  intros Hst Hv.
  destruct Hst as [v v' Hs Hc | d t v v' Ho Hd Hc | v v' Ho Hc | v Ho Hw | k v v' Hr Hs Hc | k v v' Hs Hc | cs v v' [] |]; [by eapply whole_up | ..];
    unfold vcall in *; destruct Hv as [Ha Hv].
  - apply vcmds_one, vcmd_retrieveAll_inv in Hc as ->. by split.
  - destruct Ho as [E0 | E0]; rewrite E0 in Hv; [done |].
    rewrite Ha, os_down in Hc. apply vcmds_nil_inv in Hc as ->. split; [done | apply Hv].
  - destruct Ho as [E0 | E0]; rewrite E0 in Hv; [done |]. split; [done |]. cbn. rewrite E0. by destruct Hv.
  - apply vcmds_nil_inv in Hc as ->. by split.
  - rewrite mark_idle in Hc. apply vcmds_nil_inv in Hc as ->. by split.
  - by split.
Qed.
End one_shot.

Section deliveries.
Context {P E K A : Type} `{!EventFd E, !Socket K, !PollerOps (loop_cb conn_cb) P}.
Context `{!SocketLaws K, !PollerSpec (loop_cb conn_cb) P}.
Local Abbreviation world := (EventLoop conn_cb task P E * rest K A)%type.
Context (init : A) (on_connection : A -> bool -> A * list cmd) (data : list byte) (reporting : bool) (self : Z).
Context {Hone : OneShot init on_connection data} (on_highWaterMark : A -> Z -> A * list cmd).

(** At every moment what was handed over is the data or nothing; and unless
    the peer closes or the pipe breaks, when nothing is left to do the kernel
    has all of it and the sending side is shut down. *)
Lemma one_shot_delivers (w w' : world) :
  (forall a k, on_highWaterMark a k = (a, [])) -> (forall a b, Forall cmd_ok (on_connection a b).2) ->
  fresh reporting init w ->
  runs on_connection defaultMessageCallback no_report on_highWaterMark nobody self w w' ->
  (exists k, stream w' = ztake k data)
  /\ app w'.2 = init
  /\ (~ pipe_breaks (K := K) -> state_ (the_conn w') <> kDisconnected -> at_rest w' -> complete data w').
Proof using Type*.
  intros mark_idle connection_ok Hf Hr.
  destruct (runs_invariant on_connection defaultMessageCallback no_report on_highWaterMark nobody self reporting
    connection_ok ltac:(repeat constructor) ltac:(repeat constructor) ltac:(intros; rewrite mark_idle; constructor)
    ltac:(intros ? []) (whole init data (pipe_breaks (K := K))) w (View_new init) w')
    as (v & [Ha Hv] & Hsh); [by intros; eapply whole_step | done | by apply fresh_shows | done |].
  destruct Hsh as [Hl Hh Hq]. unfold said in Hv.
  rewrite (lk_state _ _ _ Hl), (lk_sent _ _ _ Hl), (lk_waiting _ _ _ Hl), (lk_fin _ _ _ Hl) in Hv.
  rewrite (lk_app _ _ _ Hl) in Ha.
  assert (Hpre : stream w' = data \/ stream w' = [] -> exists k, stream w' = ztake k data).
  { intros [-> | ->]; [exists (zlen data); by rewrite ztake_all by lia | by exists 0]. }
  split_and!; [| done |].
  - apply Hpre. destruct (state_ (the_conn w')); tauto.
  - intros Hnb Hnd [Hp Ho]. destruct (state_ (the_conn w')) eqn:Es; [done | | done |].
    + unfold queue_ok in Hq. by rewrite Es, Hp in Hq.
    + destruct Hv as [[Hst | [? _]] Hfin]; [| done]. rewrite Ho in Hfin. split; [| done].
      unfold stream in Hst. by rewrite Ho, app_nil_r in Hst.
Qed.
End deliveries.

(** ** The two servers *)

#[export] Instance daytime_one_shot gmtime now :
  OneShot tt (daytime_onConnection gmtime now) (toFormattedString gmtime now ++ [LF]).
Proof. split; [by exists [] | done]. Qed.
(** What the server sends is the time, modulo 2^32, most significant byte first. *)
Lemma time_bytes time : le_bytes 4 (s32 (hostToNetwork32 (s32 time))) = be_bytes 4 time.
Proof.
  rewrite <- (le_bytes_wrap 4 (s32 _)). change (8 * Z.of_nat 4) with 32. unfold s32 at 1.
  rewrite wrapu_wraps, (le_bytes_wrap 4) by lia. rewrite hostToNetwork32_image.
  rewrite <- (be_bytes_wrap 4 (s32 time)), <- (be_bytes_wrap 4 time). f_equal. by apply (wrapu_wraps 32).
Qed.
#[export] Instance time_one_shot time : OneShot tt (time_onConnection time) (be_bytes 4 time).
Proof. split; [| done]. exists []. split; [| done]. unfold time_onConnection. by rewrite time_bytes. Qed.

Section servers.
Context {P E K : Type} `{!EventFd E, !Socket K, !PollerOps (loop_cb conn_cb) P}.
Context `{!SocketLaws K, !PollerSpec (loop_cb conn_cb) P}.
Local Abbreviation world A := (EventLoop conn_cb task P E * rest K A)%type.

Theorem time_server_delivers time self (w w' : world unit) :
  fresh false tt w ->
  runs (time_onConnection time) time_onMessage no_report no_mark nobody self w w' ->
  ~ pipe_breaks (K := K) -> state_ (the_conn w') <> kDisconnected -> at_rest w' ->
  complete (be_bytes 4 time) w'.
Proof using Type*.
  intros Hf Hr. apply (one_shot_delivers tt (time_onConnection time) (be_bytes 4 time) false self no_mark w w');
    [done | | done..].
  intros a []; repeat constructor.
Qed.

Theorem daytime_server_delivers gmtime now self (w w' : world unit) :
  0 <= now < 2 ^ 63 -> calendar_ok (gmtime (Z.quot now kMicroSecondsPerSecond)) -> fresh false tt w ->
  runs (daytime_onConnection gmtime now) daytime_onMessage no_report no_mark nobody self w w' ->
  ~ pipe_breaks (K := K) -> state_ (the_conn w') <> kDisconnected -> at_rest w' ->
  complete (calendar_text (gmtime (Z.quot now kMicroSecondsPerSecond)) ++ bs "."
            ++ dec_pad 6 (Z.rem now kMicroSecondsPerSecond) ++ [LF]) w'.
Proof using Type*.
  intros Hn Hc Hf Hr. destruct (toFormattedString_text gmtime now Hn Hc) as [Ht Hl].
  replace (calendar_text _ ++ _) with (toFormattedString gmtime now ++ [LF]) by (by rewrite Ht, <- !app_assoc).
  apply (one_shot_delivers tt (daytime_onConnection gmtime now) (toFormattedString gmtime now ++ [LF]) false self
    no_mark w w'); [done | | done..].
  intros a []; repeat constructor. cbn. rewrite zlen_snoc, Hl. lia.
Qed.
End servers.

(** ** The client *)

Section client.
Context {P E K : Type} `{!EventFd E, !Socket K, !PollerOps (loop_cb conn_cb) P}.
Context `{!SocketLaws K, !PollerSpec (loop_cb conn_cb) P}.
Local Abbreviation world A := (EventLoop conn_cb task P E * rest K A)%type.
Variables (gmtime : Z -> calendar) (now : Z).

(** The line the client logs of a time. *)
Definition line_of (time : Z) : Z * list byte := (time, toFormattedString gmtime (s64 (time * kMicroSecondsPerSecond))).

(** Nothing until the four bytes are there, then the time, once. *)
Definition showing (v : view TimeClient) : Prop :=
  v_received v `prefix_of` be_bytes 4 now ->
  if decide (zlen (v_received v) = 4) then shown (v_app v) = [line_of (u32 now)]
  else shown (v_app v) = []
       /\ (v_state v <> kDisconnected -> v_input v = v_received v).

Lemma decode_time l : l = be_bytes 4 now -> networkToHost32 (u32 (s32 (le_val l))) = u32 now.
Proof using.
  intros ->. unfold networkToHost32.
  assert (Hw : u32 (u32 (s32 (le_val (be_bytes 4 now)))) = u32 (le_val (be_bytes 4 now))).
  { unfold u32 at 1. rewrite (wrapu_small 32 (u32 _)) by (apply wrapu_range; lia). by apply (wrapu_wraps 32). }
  rewrite Hw. unfold u32 at 1. change 32 with (8 * Z.of_nat 4).
  rewrite networkToHost_image; [apply be_val_bytes |]. pose proof (zlen_be_bytes 4 now). unfold zlen in *. lia.
Qed.

Lemma prefix_whole (l k : list byte) : l `prefix_of` k -> zlen l = zlen k -> l = k.
Proof using.
  intros [r ->] Hl. rewrite zlen_app in Hl. rewrite (zlen_zero r) by lia. by rewrite app_nil_r.
Qed.

Lemma showing_message v d t :
  open_state (v_state v) -> d <> [] -> showing v -> v_received v ++ d `prefix_of` be_bytes 4 now ->
  let r := timeclient_onMessage gmtime (v_app v) (v_input v ++ d) t in
  v_input v = v_received v /\
  ((zlen (v_received v ++ d) = 4 /\ shown r.1 = [line_of (u32 now)])
   \/ (zlen (v_received v ++ d) <> 4 /\ shown r.1 = [] /\ r.2 = [])).
Proof using.
  intros Ho Hd Hs Hp. cbv zeta. pose proof (prefix_app_l _ _ _ Hp) as Hp0.
  specialize (Hs Hp0). pose proof (prefix_length _ _ Hp) as Hlen.
  pose proof (zlen_be_bytes 4 now) as H4. unfold zlen in H4. rewrite length_app in Hlen.
  assert (0 < length d)%nat by (destruct d; [done | cbn; lia]).
  rewrite decide_False in Hs by (unfold zlen; lia). destruct Hs as [Hs Hin].
  assert (Hi : v_input v = v_received v) by (apply Hin; by destruct Ho as [-> | ->]). split; [done |].
  rewrite Hi. unfold timeclient_onMessage.
  destruct (Z.leb_spec 4 (zlen (v_received v ++ d))) as [Hle | Hgt]; [left | right].
  - assert (Hz : zlen (v_received v ++ d) = 4) by (unfold zlen in *; rewrite length_app in *; lia).
    split; [done |]. cbn [fst shown]. rewrite Hs. rewrite ztake_all by lia.
    apply prefix_whole in Hp; [| rewrite Hz; unfold zlen; lia]. by rewrite decode_time.
  - split_and!; [lia | exact Hs | done].
Qed.

Lemma showing_same v v' :
  v_received v' = v_received v -> shown (v_app v') = shown (v_app v) ->
  (v_state v' <> kDisconnected -> v_state v <> kDisconnected /\ v_input v' = v_input v) ->
  showing v -> showing v'.
Proof using.
  unfold showing. intros -> -> Hi Hs Hp. specialize (Hs Hp). case_decide; [done |].
  destruct Hs as [Hs Hin]. split; [done |]. intros Hn. destruct (Hi Hn) as [Hn0 ->]. by apply Hin.
Qed.

Lemma showing_step v v' :
  vstep (pipe_breaks (K := K)) false nobody timeclient_onConnection (timeclient_onMessage gmtime) no_report no_mark v v' ->
  showing v -> showing v'.
Proof using.
  intros Hst Hv.
  destruct Hst as [v v' Hs Hc | d t v v' Ho Hd Hc | v v' Ho Hc | v Ho Hw | k v v' Hr Hs Hc | k v v' Hs Hc | cs v v' [] |];
    unfold vcall in *; [apply vcmds_nil_inv in Hc as -> | | apply vcmds_nil_inv in Hc as -> | | apply vcmds_nil_inv in Hc as -> ..| done].
  - eapply (showing_same v); [done..| | done]. intros _. by rewrite Hs.
  - intros Hp. assert (Hp1 : v_received v ++ d `prefix_of` be_bytes 4 now).
    { by rewrite (vcmds_received _ _ _ _ _ Hc) in Hp. }
    destruct (showing_message v d t Ho Hd Hv Hp1) as [Hi Hr].
    destruct (vcmds_keep _ _ _ _ _ Hc) as [Ha _]. rewrite (vcmds_received _ _ _ _ _ Hc). rewrite Ha.
    cbn [with_vapp v_app v_received with_in] in *.
    destruct Hr as [[Hz Hr] | (Hz & Hr & Hcs)]; [by rewrite decide_True | rewrite decide_False by done].
    split; [done |]. rewrite Hcs in Hc. apply vcmds_nil_inv in Hc as ->. by cbn; rewrite Hi.
  - eapply (showing_same v); [done..| | done]. by intros [].
  - by eapply (showing_same v).
  - by eapply (showing_same v).
  - by eapply (showing_same v).
Qed.

(** The client logs the server's time once the four bytes are there, however
    they were cut, and nothing before; the time is right until 2106, although it
    is cast to a signed 32 bit integer on the way. *)
Theorem time_client_shows self (w w' : world TimeClient) :
  fresh false TimeClient_new w ->
  runs timeclient_onConnection (timeclient_onMessage gmtime) no_report no_mark nobody self w w' ->
  sock_read (sock w'.2) `prefix_of` be_bytes 4 now -> 0 <= now < 2 ^ 32 ->
  shown (app w'.2) =
    if decide (sock_read (sock w'.2) = be_bytes 4 now)
    then [(now, toFormattedString gmtime (now * kMicroSecondsPerSecond))] else [].
Proof using Type*.
  intros Hf Hr Hp Hn.
  destruct (runs_invariant timeclient_onConnection (timeclient_onMessage gmtime) no_report no_mark nobody self false
    ltac:(intros a []; constructor) ltac:(intros a d t _; unfold timeclient_onMessage; destruct (_ <=? _); repeat constructor)
    ltac:(repeat constructor) ltac:(repeat constructor) ltac:(intros ? []) showing w (View_new TimeClient_new) w')
    as (v & Hv & Hsh); [by intros; eapply showing_step | done | by apply fresh_shows | done |].
  destruct Hsh as [Hl _ _]. unfold showing in Hv.
  rewrite (lk_received _ _ _ Hl), (lk_app _ _ _ Hl) in Hv. specialize (Hv Hp).
  assert (Hline : line_of (u32 now) = (now, toFormattedString gmtime (now * kMicroSecondsPerSecond))).
  { unfold line_of, kMicroSecondsPerSecond. unfold u32. rewrite wrapu_small, s64_small by lia. done. }
  case_decide as H4.
  - rewrite decide_True, Hv, Hline; [done |]. apply prefix_whole; [done |]. by rewrite zlen_be_bytes.
  - rewrite decide_False; [apply Hv |]. intros Heq. by rewrite Heq, zlen_be_bytes in H4.
Qed.
End client.

(** ** Runs *)

Definition demo_gmtime (_ : Z) : calendar := mkCalendar 2014 5 17 9 3 7.

(** The kernel takes three bytes at a time. *)
Definition demo_time := steady_new 3 [] false tt.
Definition demo_time_script : list happening := [NextFunctor; Ready CbWrite 0].
Definition demo_time_end :=
  ends (time_onConnection 1400317387) time_onMessage no_report no_mark demo_time_script demo_time.

Lemma demo_time_runs :
  is_Some (script (time_onConnection 1400317387) time_onMessage no_report no_mark demo_time_script demo_time).
Proof. vm_compute. eauto. Qed.
Lemma demo_time_up : state_ (the_conn demo_time_end) <> kDisconnected.
Proof. vm_compute. discriminate. Qed.
Lemma demo_time_rest : at_rest demo_time_end.
Proof. vm_compute. done. Qed.

Lemma time_server_delivers_witness : complete (be_bytes 4 1400317387) demo_time_end.
Proof.
  apply (time_server_delivers 1400317387 5 demo_time demo_time_end).
  - apply steady_fresh.
  - apply ends_runs; [repeat constructor | apply demo_time_runs].
  - apply steady_no_break.
  - exact demo_time_up.
  - exact demo_time_rest.
Defined.

(** The client gets the four bytes in two pieces. *)
Definition demo_timeclient := steady_new 3 (be_bytes 4 1400317387) false TimeClient_new.
Definition demo_timeclient_script : list happening := [NextFunctor; Ready CbRead 1; Ready CbRead 2].
Definition demo_timeclient_end :=
  ends timeclient_onConnection (timeclient_onMessage demo_gmtime) no_report no_mark demo_timeclient_script demo_timeclient.

Lemma demo_timeclient_runs :
  is_Some (script timeclient_onConnection (timeclient_onMessage demo_gmtime) no_report no_mark
             demo_timeclient_script demo_timeclient).
Proof. vm_compute. eauto. Qed.
Lemma demo_timeclient_read : sock_read (sock demo_timeclient_end.2) = be_bytes 4 1400317387.
Proof. vm_compute. reflexivity. Qed.

Lemma time_client_shows_witness :
  shown (app demo_timeclient_end.2)
  = [(1400317387, toFormattedString demo_gmtime (1400317387 * kMicroSecondsPerSecond))].
Proof.
  rewrite (time_client_shows demo_gmtime 1400317387 5 demo_timeclient demo_timeclient_end).
  - rewrite demo_timeclient_read. apply decide_True. reflexivity.
  - apply steady_fresh.
  - apply ends_runs; [repeat constructor | apply demo_timeclient_runs].
  - rewrite demo_timeclient_read. reflexivity.
  - split; [discriminate | reflexivity].
Defined.
