(* ===== verification/Crowd.v ===== *)
(** * Crowd: the connections of one server, and what they share

    Each connection keeps the contract of [ConnSpec]; their callbacks work on
    one application state, the server object with its counters.  A step is a
    connection that comes, a step of one of them, or something the server does
    on its own (a timer). *)
From S2P Require Import Prelude TcpConnection ConnSpec.

Section crowd.
Context {A : Type}.
Variables (breaks : Prop) (reporting : bool) (outside : list cmd -> Prop)
          (on_connection : Z -> A -> bool -> A * list cmd)
          (on_message : Z -> A -> list byte -> Z -> A * list cmd)
          (on_writeComplete : Z -> A -> A * list cmd)
          (on_highWaterMark : Z -> A -> Z -> A * list cmd).
(** What the server does on its own. *)
Variable own : A -> A -> Prop.

Local Abbreviation vnext i :=
  (vstep breaks reporting outside (on_connection i) (on_message i) (on_writeComplete i) (on_highWaterMark i)).

Record crowd : Type := mkCrowd { shared : A; views : gmap Z (view A) }.
Implicit Types s : crowd.

Inductive cstep : crowd -> crowd -> Prop :=
| c_new i s : views s !! i = None -> cstep s (mkCrowd (shared s) (<[i := View_new (shared s)]> (views s)))
| c_view i v v' s :
    views s !! i = Some v -> vnext i (with_vapp (shared s) v) v' ->
    cstep s (mkCrowd (v_app v') (<[i := v']> (views s)))
| c_own a s : own (shared s) a -> cstep s (mkCrowd a (views s)).

Definition Crowd_new (a : A) : crowd := mkCrowd a ∅.
Definition reach (a : A) s : Prop := rtc cstep (Crowd_new a) s.

Lemma crowd_invariant (I : crowd -> Prop) a s :
  I (Crowd_new a) -> (forall s s', I s -> cstep s s' -> I s') -> reach a s -> I s.
Proof using.
  intros H0 Hstep Hr. unfold reach in Hr. revert H0. generalize (Crowd_new a) as s0, Hr. clear Hr a.
  induction 1; eauto.
Qed.
End crowd.
Arguments crowd : clear implicits.

(** Counting the connections in some states. *)
Section counting.
Context {A : Type}.
Implicit Types (vs : gmap Z (view A)) (P : StateE -> bool).

Definition in_state P (kv : Z * view A) : Prop := P (v_state kv.2) = true.
#[export] Instance in_state_dec P kv : Decision (in_state P kv).
Proof. unfold in_state. apply _. Defined.

Definition count P vs : Z := Z.of_nat (size (filter (in_state P) vs)).

Lemma count_insert_new P i v vs :
  vs !! i = None -> count P (<[i := v]> vs) = count P vs + (if P (v_state v) then 1 else 0).
Proof using.
  intros Hi. unfold count. destruct (P (v_state v)) eqn:Hp.
  - rewrite map_filter_insert_True by exact Hp.
    rewrite map_size_insert_None by (apply map_lookup_filter_None; by left). lia.
  - rewrite map_filter_insert_not' by (intros; by rewrite ?Hi; unfold in_state; cbn; congruence). lia.
Qed.

Lemma count_update P i v v' vs :
  vs !! i = Some v ->
  count P (<[i := v']> vs) =
  count P vs + (if P (v_state v') then 1 else 0) - (if P (v_state v) then 1 else 0).
Proof using.
  intros Hi. rewrite <- (insert_delete_id vs i v Hi) at 2.
  rewrite <- insert_delete_eq. rewrite !count_insert_new by apply lookup_delete_eq. lia.
Qed.

Lemma count_nonneg P vs : 0 <= count P vs.
Proof using. unfold count. lia. Qed.
Lemma count_le P vs : count P vs <= Z.of_nat (size vs).
Proof using. unfold count. apply inj_le, map_size_filter. Qed.
Lemma count_positive P i v vs : vs !! i = Some v -> P (v_state v) = true -> 0 < count P vs.
Proof using.
  intros Hi Hp. rewrite <- (insert_id vs i v Hi), <- insert_delete_eq, count_insert_new by apply lookup_delete_eq.
  rewrite Hp. pose proof (count_nonneg P (delete i vs)). lia.
Qed.
(** While some connection could still be counted, the count is below the number
    of connections. *)
Lemma count_room P i v (u : view A) vs :
  vs !! i = Some v -> P (v_state v) = false -> P (v_state u) = true -> count P vs < Z.of_nat (size vs).
Proof using.
  intros Hi Hv Hu. pose proof (count_update P i v u vs Hi) as Hc. rewrite Hv, Hu in Hc.
  pose proof (count_le P (<[i := u]> vs)) as Hl. rewrite map_size_insert_Some in Hl by (by eexists). lia.
Qed.
Lemma count_empty P : count P (∅ : gmap Z (view A)) = 0.
Proof using. done. Qed.
End counting.

(** ** Servers that count their connections *)

Definition is_up (s : StateE) : bool := is_state s kConnected || is_state s kDisconnecting.
Lemma is_up_open s : is_up s = true <-> open_state s.
Proof. unfold open_state. destruct s; split; intros Hs; first [done | by left | by right | by destruct Hs]. Qed.
Lemma is_up_ext s s' : (open_state s <-> open_state s') -> is_up s' = is_up s.
Proof.
  rewrite <- !is_up_open. destruct (is_up s), (is_up s'); naive_solver.
Qed.

(** Evaluates which states count. *)
Ltac tally :=
  repeat match goal with
  | |- context [if ?b then 1 else 0] =>
      match eval cbv in b with
      | true => change (if b then 1 else 0) with 1
      | false => change (if b then 1 else 0) with 0
      end
  end.

Section counted.
Context {A : Type}.
Variables (breaks : Prop) (reporting : bool) (outside : list cmd -> Prop)
          (on_connection : Z -> A -> bool -> A * list cmd)
          (on_message : Z -> A -> list byte -> Z -> A * list cmd)
          (on_writeComplete : Z -> A -> A * list cmd)
          (on_highWaterMark : Z -> A -> Z -> A * list cmd)
          (own : A -> A -> Prop).

(** The counter, an [int] that the connection callback steps up and down and
    nothing else touches. *)
Class CountsUp (ups : A -> Z) : Prop := {
  cu_up i a : ups (on_connection i a true).1 = s32 (ups a + 1);
  cu_down i a : ups (on_connection i a false).1 = s32 (ups a - 1);
  cu_message i a d t : ups (on_message i a d t).1 = ups a;
  cu_written i a : ups (on_writeComplete i a).1 = ups a;
  cu_mark i a n : ups (on_highWaterMark i a n).1 = ups a;
  cu_own a a' : own a a' -> ups a' = ups a
}.
Context (ups : A -> Z) {Hups : CountsUp ups}.

Local Abbreviation step := (cstep breaks reporting outside on_connection on_message on_writeComplete on_highWaterMark own).
Definition few (s : crowd A) : Prop := Z.of_nat (size (views s)) < 2 ^ 31.

Lemma few_before s s' : step s s' -> few s' -> few s.
Proof using.
  unfold few. destruct 1 as [i s Hi | i v v' s Hi Hst | a s Hown]; cbn [views].
  - rewrite map_size_insert_None by done. lia.
  - by rewrite map_size_insert_Some by (by eexists).
  - done.
Qed.

Definition counts_up (s : crowd A) : Prop := ups (shared s) = count is_up (views s).

Lemma counts_up_step s s' : few s -> step s s' -> counts_up s -> counts_up s'.
Proof using Hups.
  unfold counts_up, few. intros Hf Hst Hn.
  destruct Hst as [i s Hi | i v v' s Hi Hst | a s Hown]; cbn [shared views].
  - rewrite count_insert_new by done. tally. lia.
  - rewrite (count_update _ _ _ _ _ Hi). apply vstep_moved in Hst.
    pose proof (count_nonneg is_up (views s)). pose proof (count_le is_up (views s)).
    assert (Hsame : forall x, (open_state (v_state v) <-> open_state (v_state v')) -> x = ups (shared s) ->
      x = count is_up (views s) + (if is_up (v_state v') then 1 else 0) - (if is_up (v_state v) then 1 else 0)).
    { intros x Ho ->. rewrite (is_up_ext _ _ Ho), Hn. lia. }
    destruct Hst as [Hs Hs' _ Ha | Hs Hs' _ Ha | d t Ho Ho' _ _ Ha | f Hf' _ Ho _ Ha];
      cbn [with_vapp v_app v_state v_input] in *; rewrite Ha.
    + rewrite cu_up, Hn. rewrite (proj2 (is_up_open _) Hs'), Hs.
      pose proof (count_room is_up i v v' (views s) Hi) as Hroom. rewrite Hs in Hroom.
      specialize (Hroom eq_refl (proj2 (is_up_open _) Hs')). unfold s32. rewrite wraps_small by lia. tally. lia.
    + rewrite cu_down, Hn. apply is_up_open in Hs. pose proof (count_positive is_up i v (views s) Hi Hs).
      rewrite Hs, Hs'. unfold s32. rewrite wraps_small by lia. tally. lia.
    + apply Hsame; [done | apply cu_message].
    + apply Hsame; [done |]. destruct Hf' as [| | n]; [done | apply cu_written | apply cu_mark].
  - by rewrite (cu_own _ _ Hown).
Qed.

(** The counter is the number of connections that are up. *)
Lemma counts_up_always a s :
  ups a = 0 ->
  reach breaks reporting outside on_connection on_message on_writeComplete on_highWaterMark own a s ->
  few s -> counts_up s.
Proof using Hups.
  intros Ha Hr. apply (crowd_invariant breaks reporting outside on_connection on_message on_writeComplete
    on_highWaterMark own (fun s => few s -> counts_up s) a); [| | done].
  - intros _. unfold counts_up. cbn [Crowd_new shared views]. by rewrite count_empty.
  - intros s1 s2 IH Hst Hf. eapply counts_up_step; [| done |]; eauto using few_before.
Qed.

(** What holds of every connection's view whatever the shared state is. *)
Lemma each_view (Q : Z -> view A -> Prop) a s :
  (forall i x v, Q i v -> Q i (with_vapp x v)) ->
  (forall i x, Q i (View_new x)) ->
  (forall i v v', vstep breaks reporting outside (on_connection i) (on_message i) (on_writeComplete i)
                    (on_highWaterMark i) v v' -> Q i v -> Q i v') ->
  reach breaks reporting outside on_connection on_message on_writeComplete on_highWaterMark own a s ->
  forall i v, views s !! i = Some v -> Q i v.
Proof using.
  intros Happ Hnew Hstep Hr. apply (crowd_invariant breaks reporting outside on_connection on_message on_writeComplete
    on_highWaterMark own (fun s => forall i v, views s !! i = Some v -> Q i v) a); [done | | done].
  intros s1 s2 IH Hst i v.
  destruct Hst as [j s1 Hj | j u u' s1 Hj Hst | x s1 Hown]; cbn [views]; [| | by apply IH];
    (destruct (decide (j = i)) as [-> | Hne]; [rewrite lookup_insert_eq; intros [= <-] | rewrite lookup_insert_ne by done; by apply IH]).
  - apply Hnew.
  - eauto.
Qed.
End counted.
