(* ===== verification/EchoServers.v ===== *)
(** * EchoServers: servers and clients that send back what they receive

    [examples/simple/echo], [simple/discard], [netty/echo], [netty/discard],
    [pingpong/server.cc] and [maxconnection/echo.cc].  A single connection runs in
    its loop ([ConnSpec]); [Echoing] is what the servers that echo have in
    common.  What the connections of one server share is in [Crowd]. *)
From S2P Require Import Prelude Buffer Channel Poller EPollPoller EventLoop TcpConnection Atomic ConnSpec Crowd.

(** ** The callbacks *)

(** Logging aside, a connection that comes or goes leaves no trace. *)
(*@ muduo/examples/simple/echo/echo.cc 27-32 EchoServer::onConnection *)
Definition echo_onConnection (a : unit) (connected : bool) : unit * list cmd := (a, []).
(*@ muduo/examples/simple/echo/echo.cc 35-45 EchoServer::onMessage *)
Definition echo_onMessage (a : unit) (buf : list byte) (time : Z) : unit * list cmd :=
  let msg := buf in (a, [RetrieveAll; Send msg]).

(*@ muduo/examples/simple/discard/discard.cc 26-31 DiscardServer::onConnection *)
Definition discard_onConnection (a : unit) (connected : bool) : unit * list cmd := (a, []).
(*@ muduo/examples/simple/discard/discard.cc 33-40 DiscardServer::onMessage *)
Definition discard_onMessage (a : unit) (buf : list byte) (time : Z) : unit * list cmd := (a, [RetrieveAll]).

(** setTcpNoDelay is a socket option. *)
(*@ muduo/examples/pingpong/server.cc 20-26 onConnection *)
Definition pingpong_onConnection (a : unit) (connected : bool) : unit * list cmd := (a, []).
(*@ muduo/examples/pingpong/server.cc 28-31 onMessage *)
Definition pingpong_onMessage (a : unit) (buf : list byte) (time : Z) : unit * list cmd := (a, [SendBuffer]).

(** The counters that the threads of a netty server share: two [AtomicInt64]s,
    and what the last report had seen. *)
Record Throughput : Type := mkThroughput { transferred_ : Z; receivedMessages_ : Z; oldCounter_ : Z }.
Definition Throughput_new : Throughput :=
  mkThroughput AtomicInteger.AtomicIntegerT_new AtomicInteger.AtomicIntegerT_new 0.

(*@ muduo/examples/netty/echo/server.cc 46-52 EchoServer::onConnection *)
Definition netty_onConnection (a : Throughput) (connected : bool) : Throughput * list cmd := (a, []).
(*@ muduo/examples/netty/echo/server.cc 54-60 EchoServer::onMessage *)
Definition netty_onMessage (a : Throughput) (buf : list byte) (time : Z) : Throughput * list cmd :=
  let len := zlen buf in
  (mkThroughput (AtomicInteger.addAndGet 64 len (transferred_ a)).2
     (AtomicInteger.incrementAndGet 64 (receivedMessages_ a)).2 (oldCounter_ a),
   [SendBuffer]).
(** What is printed: the bytes and the messages since the last report (and
    quotients of them by the time). *)
(*@ muduo/examples/netty/echo/server.cc 62-76 EchoServer::printThroughput *)
Definition netty_printThroughput (a : Throughput) : (Z * Z) * Throughput :=
  let newCounter := (AtomicInteger.get (transferred_ a)).1 in
  let bytes := s64 (newCounter - oldCounter_ a) in
  let '(msgs, received) := AtomicInteger.getAndSet 0 (receivedMessages_ a) in
  ((bytes, msgs), mkThroughput (transferred_ a) received newCounter).

(*@ muduo/examples/netty/discard/server.cc 45-50 DiscardServer::onConnection *)
Definition sink_onConnection (a : Throughput) (connected : bool) : Throughput * list cmd := (a, []).
(*@ muduo/examples/netty/discard/server.cc 52-58 DiscardServer::onMessage *)
Definition sink_onMessage (a : Throughput) (buf : list byte) (time : Z) : Throughput * list cmd :=
  let len := zlen buf in
  (mkThroughput (AtomicInteger.add 64 len (transferred_ a))
     (AtomicInteger.incrementAndGet 64 (receivedMessages_ a)).2 (oldCounter_ a),
   [RetrieveAll]).
(*@ muduo/examples/netty/discard/server.cc 60-74 DiscardServer::printThroughput *)
Definition sink_printThroughput (a : Throughput) : (Z * Z) * Throughput :=
  let newCounter := (AtomicInteger.get (transferred_ a)).1 in
  let bytes := s64 (newCounter - oldCounter_ a) in
  let '(msgs, received) := AtomicInteger.getAndSet 0 (receivedMessages_ a) in
  ((bytes, msgs), mkThroughput (transferred_ a) received newCounter).

(** The client of the netty server; its state is whether it told the loop to
    quit. *)
(*@ muduo/examples/netty/echo/client.cc 40-55 EchoClient::onConnection *)
Definition echoClient_onConnection (message_ : list byte) (quit : bool) (connected : bool) : bool * list cmd :=
  if connected then (quit, [Send message_]) else (true, []).
(*@ muduo/examples/netty/echo/client.cc 57-60 EchoClient::onMessage *)
Definition echoClient_onMessage (quit : bool) (buf : list byte) (time : Z) : bool * list cmd :=
  (quit, [SendBuffer]).

(** The server with a limit: how many connections it counts, and the limit. *)
Record LimitedServer : Type := mkLimited { numConnected_ : Z; kMaxConnections_ : Z }.
(*@ muduo/examples/maxconnection/echo.cc 10-22 EchoServer::EchoServer *)
Definition LimitedServer_new (maxConnections : Z) : LimitedServer := mkLimited 0 maxConnections.
(*@ muduo/examples/maxconnection/echo.cc 30-52 EchoServer::onConnection *)
Definition limited_onConnection (a : LimitedServer) (connected : bool) : LimitedServer * list cmd :=
  if connected
  then
    let a := mkLimited (s32 (numConnected_ a + 1)) (kMaxConnections_ a) in
    if kMaxConnections_ a <? numConnected_ a then (a, [Shutdown]) else (a, [])
  else (mkLimited (s32 (numConnected_ a - 1)) (kMaxConnections_ a), []).
(*@ muduo/examples/maxconnection/echo.cc 55-62 EchoServer::onMessage *)
Definition limited_onMessage (a : LimitedServer) (buf : list byte) (time : Z) : LimitedServer * list cmd :=
  let msg := buf in (a, [RetrieveAll; Send msg]).

(** ** What echoing is *)

Definition echoes (d : list byte) (cs : list cmd) : Prop := cs = [RetrieveAll; Send d] \/ cs = [SendBuffer].

Lemma echoes_ok d cs : zlen d < 2 ^ 63 -> echoes d cs -> Forall cmd_ok cs.
Proof. intros Hd [-> | ->]; repeat constructor; done. Qed.

Section echoing.
Context {A : Type}.
Variables (breaks : Prop) (reporting : bool) (outside : list cmd -> Prop)
          (on_connection : A -> bool -> A * list cmd)
          (on_message : A -> list byte -> Z -> A * list cmd)
          (on_writeComplete : A -> A * list cmd)
          (on_highWaterMark : A -> Z -> A * list cmd).
(** What is said first, and whether the connection may be refused or shut
    down. *)
Variables (greeting : list byte) (refuses : Prop).

Class Echoing : Prop := {
  eg_up a : (on_connection a true).2 = [Send greeting] \/ (greeting = [] /\ (on_connection a true).2 = [])
            \/ (refuses /\ (on_connection a true).2 = [Shutdown]);
  eg_message a d t : echoes d (on_message a d t).2;
  eg_writeComplete a : (on_writeComplete a).2 = [];
  eg_mark a n : (on_highWaterMark a n).2 = [];
  eg_outside cs : outside cs -> refuses /\ cs = [Shutdown]
}.
Context `{Hecho : !Echoing}.
Implicit Types v : view A.

Local Abbreviation vnext :=
  (vstep breaks reporting outside on_connection on_message on_writeComplete on_highWaterMark).

(** What must have been said by now. *)
Definition due v : list byte := greeting ++ v_received v.

Definition echoed v : Prop :=
  match v_state v with
  | kConnecting => v_sent v = [] /\ v_received v = [] /\ v_input v = []
  | kConnected => v_input v = [] /\ (breaks \/ v_sent v = due v)
  | kDisconnecting => refuses /\ (breaks \/ v_sent v `prefix_of` due v)
  | kDisconnected => breaks \/ v_sent v = due v \/ (refuses /\ v_sent v `prefix_of` due v)
  end.

Lemma echo_sent d v v' :
  v_state v = kConnected -> v_input v = [] -> vcmd breaks reporting (Send d) v v' ->
  v_state v' = kConnected /\ v_received v' = v_received v /\ v_input v' = []
  /\ (breaks \/ v_sent v' = v_sent v ++ d).
Proof using.
  intros Hs Hi Hc.
  destruct (vcmd_send_inv _ _ _ _ _ Hc Hs) as [[_ ->] | [-> | [(Hb & _ & ->) | [-> ->]]]];
    split_and!; cbn; auto. by rewrite app_nil_r; auto.
Qed.

Lemma echoed_message d v v' :
  v_state v = kConnected -> v_input v = [] -> breaks \/ v_sent v = due v ->
  forall a cs, echoes d cs ->
  vcmds breaks reporting cs (with_vapp a (with_in (v_received v ++ d) d v)) v' -> echoed v'.
Proof using.
  intros Hs Hi Hd a cs Hcs Hc.
  assert (Hend : forall v1, v_state v1 = kConnected -> v_received v1 = v_received v ++ d ->
    breaks \/ v_sent v1 = v_sent v ++ d -> echoed (with_in (v_received v1) [] v1)).
  { intros v1 Hs1 Hr1 Hd1. unfold echoed, due. cbn. rewrite Hs1, Hr1. split; [done |].
    destruct Hd as [? | Hd]; [by left |]. destruct Hd1 as [? | ->]; [by left |]. right.
    by rewrite Hd; unfold due; rewrite app_assoc. }
  destruct Hcs as [-> | ->].
  - apply vcmds_inv in Hc as (v1 & ->%vcmd_retrieveAll_inv & Hc%vcmds_one).
    apply echo_sent in Hc as (Hs' & Hr' & Hi' & Hse); [| done..]. cbn in Hr', Hse.
    specialize (Hend v' Hs' Hr' Hse). rewrite <- Hi' in Hend. by replace (with_in _ _ v') with v' in Hend by (by destruct v').
  - apply vcmds_one, vcmd_sendBuffer_inv in Hc as (v1 & Hc & ->); [| done]. cbn in Hc.
    apply vcmd_send_inv in Hc as [[_ ->] | [-> | [(Hb & _ & ->) | [-> ->]]]]; try done;
      apply Hend; cbn; auto. by rewrite app_nil_r; auto.
Qed.

Lemma due_grows l r d : l `prefix_of` greeting ++ r -> l `prefix_of` greeting ++ (r ++ d).
Proof using. rewrite app_assoc. apply prefix_app_r. Qed.

(** Between a callback and the next nothing else is said. *)
Lemma quiet_call r v v' : r.2 = [] -> vcall breaks reporting r v v' -> echoed v -> echoed v'.
Proof using. unfold vcall. intros -> ->%vcmds_nil_inv Hv. by destruct v. Qed.

Lemma shutdown_call v v' :
  refuses -> v_state v <> kConnecting -> vcmds breaks reporting [Shutdown] v v' -> echoed v -> echoed v'.
Proof using.
  intros Hr Hnc Hc%vcmds_one Hv. destruct (decide (v_state v = kConnected)) as [Hs | Hs].
  - rewrite (vcmd_shutdown_inv _ _ _ _ Hc Hs). unfold echoed in *. rewrite Hs in Hv. cbn.
    split; [done |]. destruct Hv as [_ [? | ->]]; [by left | by right].
  - by inversion Hc; subst.
Qed.

Lemma echoed_up v v' :
  v_state v = kConnecting -> echoed v ->
  vcall breaks reporting (on_connection (v_app v) true) (with_state kConnected v) v' -> echoed v'.
Proof using Hecho.
  intros Hs Hv Hc. unfold echoed in Hv. rewrite Hs in Hv. destruct Hv as (Hse & Hre & Hin). unfold vcall in Hc.
  destruct (eg_up (v_app v)) as [Hcs | [[Hg Hcs] | [Hr Hcs]]]; rewrite Hcs in Hc.
  - apply vcmds_one, echo_sent in Hc as (Hs' & Hr' & Hi' & Hd); [| done..]. cbn in *.
    unfold echoed, due. rewrite Hs', Hr', Hre, app_nil_r. by rewrite Hse in Hd.
  - apply vcmds_nil_inv in Hc as ->. unfold echoed, due. cbn. rewrite Hg, Hre. split; [done | by right].
  - apply vcmds_one, vcmd_shutdown_inv in Hc as ->; [| done]. unfold echoed. cbn.
    split; [done |]. right. rewrite Hse. apply prefix_nil.
Qed.

Lemma echoed_step v v' : vnext v v' -> echoed v -> echoed v'.
Proof using Hecho.
  intros Hst Hv. destruct Hst as [v v' Hs Hc | d t v v' Ho Hd Hc | v v' Ho Hc | v Ho Hw | k v v' Hr Hs Hc | k v v' Hs Hc | cs v v' Hcs Hs Hc |].
  - by eapply echoed_up.
  - unfold echoed in Hv. destruct Ho as [Es | Es]; rewrite Es in Hv.
    + destruct Hv as [Hi Hv]. rewrite Hi in Hc. eapply (echoed_message d v v'); [done.. | | exact Hc]. apply eg_message.
    + destruct Hv as [Hr Hv]. apply vcmds_not_connected in Hc as [i ->]; [| by cbn; rewrite Es].
      unfold echoed. cbn. rewrite Es. split; [done |]. destruct Hv as [? | Hv]; [by left | right; by apply due_grows].
  - unfold echoed in Hv. apply vcmds_not_connected in Hc as [i ->]; [| done]. unfold echoed. cbn.
    destruct Ho as [Es | Es]; rewrite Es in Hv; destruct Hv as [Hi [? | Hv]]; auto.
  - unfold echoed in *. cbn. by destruct (v_state v).
  - eapply quiet_call; [apply eg_writeComplete | exact Hc | by destruct v].
  - by eapply quiet_call; [apply eg_mark | exact Hc |].
  - destruct (eg_outside _ Hcs) as [Hr ->]. by eapply shutdown_call.
  - done.
Qed.

Lemma echoed_new a : echoed (View_new a).
Proof using. done. Qed.
End echoing.

(** ** One connection in its loop *)

Section echo_runs.
Context {P E K A : Type} `{!EventFd E, !Socket K, !PollerOps (loop_cb conn_cb) P}.
Context `{!SocketLaws K, !PollerSpec (loop_cb conn_cb) P}.
Local Abbreviation world := (EventLoop conn_cb task P E * rest K A)%type.
Implicit Types w : world.

Variables (reporting : bool) (outside : list cmd -> Prop)
          (on_connection : A -> bool -> A * list cmd)
          (on_message : A -> list byte -> Z -> A * list cmd)
          (on_writeComplete : A -> A * list cmd)
          (on_highWaterMark : A -> Z -> A * list cmd)
          (greeting : list byte) (refuses : Prop) (self : Z).
Context {Hecho : Echoing outside on_connection on_message on_writeComplete on_highWaterMark greeting refuses}.
Hypothesis connection_ok : forall a b, Forall cmd_ok (on_connection a b).2.

Lemma echo_runs a w w' :
  fresh reporting a w -> runs on_connection on_message on_writeComplete on_highWaterMark outside self w w' ->
  ~ pipe_breaks (K := K) -> state_ (the_conn w') <> kConnecting ->
  stream w' `prefix_of` greeting ++ sock_read (sock w'.2)
  /\ (~ refuses -> stream w' = greeting ++ sock_read (sock w'.2)
                   /\ state_ (the_conn w') <> kDisconnecting).
Proof using Type*.
  intros Hf Hr Hb Hnc.
  destruct (runs_invariant on_connection on_message on_writeComplete on_highWaterMark outside self reporting
    connection_ok) with (I := echoed (A := A) (pipe_breaks (K := K)) greeting refuses) (w := w) (w' := w')
    (v := View_new a) as (v & Hv & Hsh); [.. | by apply fresh_shows | done |].
  - intros a' d t Hd. eapply echoes_ok; [done | apply Hecho].
  - intros a'. destruct Hecho as [_ _ -> _ _]. constructor.
  - intros a' n. destruct Hecho as [_ _ _ -> _]. constructor.
  - intros cs Hcs. destruct Hecho as [_ _ _ _ Ho]. destruct (Ho cs Hcs) as [_ ->]. repeat constructor.
  - intros v v' Hst. by eapply echoed_step.
  - apply echoed_new.
  - destruct Hsh as [[_ _ Hs _ Hre _ Hse _ _ _] _ _]. rewrite <- Hs in Hnc.
    unfold echoed, due in Hv. rewrite <- Hse, <- Hre, <- Hs.
    destruct (v_state v); [| done | |].
    + destruct Hv as [? | [-> | [? ?]]]; [done | by split | by split].
    + destruct Hv as [_ [? | ->]]; [done | by split].
    + destruct Hv as [? [? | ?]]; [done | by split].
Qed.
End echo_runs.

(** The servers and the client that only echo. *)
#[export] Instance simple_echoes : Echoing nobody echo_onConnection echo_onMessage no_report no_mark [] False.
Proof. split; [auto | by left | done | done | intros ? []]. Qed.
#[export] Instance pingpong_echoes :
  Echoing nobody pingpong_onConnection pingpong_onMessage no_report no_mark [] False.
Proof. split; [auto | by right | done | done | intros ? []]. Qed.
#[export] Instance netty_echoes : Echoing nobody netty_onConnection netty_onMessage no_report no_mark [] False.
Proof. split; [auto | by right | done | done | intros ? []]. Qed.
#[export] Instance echoClient_echoes message_ :
  Echoing nobody (echoClient_onConnection message_) echoClient_onMessage no_report no_mark message_ False.
Proof. split; [by left | by right | done | done | intros ? []]. Qed.
#[export] Instance limited_echoes : Echoing nobody limited_onConnection limited_onMessage no_report no_mark [] True.
Proof.
  split; [| by left | done | done | intros ? []].
  intros a. right. cbn. destruct (_ <? _); [by right | by left].
Qed.

Section echo_servers.
Context {P E K : Type} `{!EventFd E, !Socket K, !PollerOps (loop_cb conn_cb) P}.
Context `{!SocketLaws K, !PollerSpec (loop_cb conn_cb) P}.
Local Abbreviation world A := (EventLoop conn_cb task P E * rest K A)%type.

(** The echo server sends back every byte, once and in order: in every run
    over a pipe that does not break, what was handed over for sending is what
    was read, also when the peer has closed, and what has reached the kernel is
    all of it when nothing waits. *)
Theorem simple_echo_echoes self (w w' : world unit) :
  fresh false tt w -> runs echo_onConnection echo_onMessage no_report no_mark nobody self w w' ->
  ~ pipe_breaks (K := K) -> state_ (the_conn w') <> kConnecting ->
  stream w' = sock_read (sock w'.2)
  /\ (contents (outputBuffer_ (the_conn w')) = [] -> sock_wire (sock w'.2) = sock_read (sock w'.2)).
Proof using Type*.
  intros Hf Hr Hb Hs.
  assert (Hok : forall a b, Forall cmd_ok (echo_onConnection a b).2) by constructor.
  destruct (echo_runs false nobody _ _ _ _ [] False self Hok tt w w' Hf Hr Hb Hs) as [_ Hd].
  destruct (Hd (fun F => F)) as [Hst _]. split; [done |]. intros Ho. revert Hst. unfold stream. by rewrite Ho, app_nil_r.
Qed.

(** Its client starts with its message and sends back what it gets: it has said
    its message and all it was told. *)
Theorem echo_client_bounces message_ self (w w' : world bool) :
  zlen message_ < 2 ^ 63 -> fresh false false w ->
  runs (echoClient_onConnection message_) echoClient_onMessage no_report no_mark nobody self w w' ->
  ~ pipe_breaks (K := K) -> state_ (the_conn w') <> kConnecting ->
  stream w' = message_ ++ sock_read (sock w'.2).
Proof using Type*.
  intros Hm Hf Hr Hb Hs.
  assert (Hok : forall a b, Forall cmd_ok (echoClient_onConnection message_ a b).2).
  { intros a []; repeat constructor. exact Hm. }
  by destruct (proj2 (echo_runs false nobody _ _ _ _ message_ False self Hok false w w' Hf Hr Hb Hs) (fun F => F)).
Qed.
End echo_servers.

(** ** The server with a limit *)

(** Its connections step by step; nothing happens to it but they. *)
Local Abbreviation limited_step breaks :=
  (vstep breaks false nobody limited_onConnection limited_onMessage no_report no_mark).
Local Abbreviation limited_cstep breaks :=
  (cstep breaks false nobody (fun _ => limited_onConnection) (fun _ => limited_onMessage) (fun _ => no_report)
     (fun _ => no_mark) (fun _ _ : LimitedServer => False)).
Local Abbreviation limited_reach breaks :=
  (reach breaks false nobody (fun _ => limited_onConnection) (fun _ => limited_onMessage) (fun _ => no_report)
     (fun _ => no_mark) (fun _ _ : LimitedServer => False)).

Definition is_served (s : StateE) : bool := is_state s kConnected.

#[export] Instance limited_counts :
  CountsUp (fun _ => limited_onConnection) (fun _ => limited_onMessage) (fun _ => no_report) (fun _ => no_mark)
    (fun _ _ => False) numConnected_.
Proof. split; try done. intros i a. cbn. by destruct (_ <? _). Qed.

(** The limit stays, and what is let in is below it. *)
Lemma limited_limit breaks v v' : limited_step breaks v v' -> kMaxConnections_ (v_app v') = kMaxConnections_ (v_app v).
Proof.
  intros [Hs Hs' _ Ha | Hs Hs' _ Ha | d t Ho Ho' _ _ Ha | f [] _ Ho _ Ha]%vstep_moved; rewrite Ha; try done.
  cbn. by destruct (_ <? _).
Qed.
Lemma limited_served breaks v v' :
  limited_step breaks v v' -> v_state v' = kConnected ->
  v_state v = kConnected \/ numConnected_ (v_app v') <= kMaxConnections_ (v_app v').
Proof.
  intros Hst Hs. destruct (vstep_connected _ _ _ _ _ _ _ _ _ Hst Hs) as [Hc | [Hc Hup]]; [by left | right].
  unfold vcall, limited_onConnection in Hup. cbn [numConnected_ kMaxConnections_] in Hup.
  destruct (Z.ltb_spec (kMaxConnections_ (v_app v)) (s32 (numConnected_ (v_app v) + 1))) as [Hlt | Hge].
  - apply vcmds_one, vcmd_shutdown_inv in Hup as ->; done.
  - by apply vcmds_nil_inv in Hup as ->.
Qed.

Lemma served_le_up (vs : gmap Z (view LimitedServer)) : count is_served vs <= count is_up vs.
Proof.
  induction vs as [| i v vs Hi IH] using map_ind; [done |]. rewrite !count_insert_new by done.
  destruct (v_state v); tally; lia.
Qed.

(** The counter counts the connections that are up, refused ones included; of
    these at most the limit are served. *)
Definition limited_inv (maxConnections : Z) (s : crowd LimitedServer) : Prop :=
  counts_up numConnected_ s /\ kMaxConnections_ (shared s) = maxConnections
  /\ count is_served (views s) <= Z.max 0 maxConnections.

Lemma limited_inv_step maxConnections breaks s s' :
  few s' -> limited_cstep breaks s s' -> limited_inv maxConnections s -> limited_inv maxConnections s'.
Proof.
  intros Hf Hst (Hn & Hm & Hs). pose proof (few_before _ _ _ _ _ _ _ _ _ _ Hst Hf) as Hf0.
  pose proof (counts_up_step _ _ _ _ _ _ _ _ numConnected_ s s' Hf0 Hst Hn) as Hn'.
  split; [done |]. revert Hn'. unfold counts_up.
  destruct Hst as [i s Hi | i v v' s Hi Hst | a s []]; cbn [shared views].
  - intros _. split; [done |]. rewrite count_insert_new by done. tally. lia.
  - intros Hn'. pose proof (limited_limit _ _ _ Hst) as Hl. cbn [with_vapp v_app] in Hl.
    rewrite Hl. split; [done |].
    destruct (is_served (v_state v')) eqn:Es.
    + apply bool_decide_eq_true in Es. destruct (limited_served _ _ _ Hst Es) as [Hc | Hle].
      * cbn in Hc. rewrite (count_update _ _ _ _ _ Hi), Es, Hc. lia.
      * pose proof (served_le_up (<[i := v']> (views s))). lia.
    + rewrite (count_update _ _ _ _ _ Hi), Es. destruct (is_served (v_state v)); lia.
Qed.

Lemma limited_inv_reach maxConnections breaks s :
  limited_reach breaks (LimitedServer_new maxConnections) s -> few s -> limited_inv maxConnections s.
Proof.
  intros Hr. refine (crowd_invariant _ _ _ _ _ _ _ _ (fun s => few s -> limited_inv maxConnections s) _ _ _ _ Hr).
  - intros _. split_and!; [done | done |]. cbn [Crowd_new views]. rewrite count_empty. lia.
  - intros s1 s2 IH Hst Hf. eapply limited_inv_step; [done | exact Hst |]. eauto using few_before.
Qed.

(** The limit holds: however connections come, talk and go, the counter is the
    number of those that are up, no more than the limit are served, and every
    one that is served gets back what it says; one that is refused gets nothing
    that it did not say. *)
Theorem limited_server_limits maxConnections breaks s :
  limited_reach breaks (LimitedServer_new maxConnections) s ->
  Z.of_nat (size (views s)) < 2 ^ 31 ->
  numConnected_ (shared s) = count is_up (views s)
  /\ count is_served (views s) <= Z.max 0 maxConnections
  /\ forall i v, views s !! i = Some v -> ~ breaks ->
       (v_state v = kConnected -> v_sent v = v_received v) /\ v_sent v `prefix_of` v_received v.
Proof.
  intros Hr Hsz. pose proof (limited_inv_reach _ _ _ Hr Hsz) as (Hn & _ & Hs). split_and!; [done | done |].
  intros i v Hi Hb.
  pose proof (each_view _ _ _ _ _ _ _ _ (fun _ => echoed (A := LimitedServer) breaks [] True) _ _
    (fun _ _ _ Hv => Hv) (fun _ _ => echoed_new _ _ _ _)
    (fun _ v v' Hst => echoed_step _ _ _ _ _ _ _ _ _ (Hecho := limited_echoes) v v' Hst) Hr i v Hi) as He.
  unfold echoed, due in He. destruct (v_state v); cbn in He.
  - split; [done |]. destruct He as [? | [-> | [_ ?]]]; done.
  - destruct He as (-> & -> & _). by split.
  - destruct He as [_ [? | ->]]; done.
  - split; [done |]. by destruct He as [_ [? | ?]].
Qed.

(** Two ways in. *)
Definition counting_one (a : LimitedServer) : LimitedServer :=
  mkLimited (s32 (numConnected_ a + 1)) (kMaxConnections_ a).

Lemma limited_serve breaks i v s :
  views s !! i = Some v -> v_state v = kConnecting ->
  s32 (numConnected_ (shared s) + 1) <= kMaxConnections_ (shared s) ->
  limited_cstep breaks s
    (mkCrowd (counting_one (shared s))
       (<[i := with_vapp (counting_one (shared s)) (with_state kConnected v)]> (views s))).
Proof.
  intros Hi Hs Hle.
  apply (c_view _ _ _ _ _ _ _ _ i v (with_vapp (counting_one (shared s)) (with_state kConnected v)) s Hi), v_up; [done |].
  unfold vcall, limited_onConnection. cbn [with_vapp v_app numConnected_ kMaxConnections_].
  rewrite (proj2 (Z.ltb_ge _ _)) by done. constructor.
Qed.

Lemma limited_refuse breaks i v s :
  views s !! i = Some v -> v_state v = kConnecting -> v_waiting v = false ->
  kMaxConnections_ (shared s) < s32 (numConnected_ (shared s) + 1) ->
  limited_cstep breaks s
    (mkCrowd (counting_one (shared s))
       (<[i := with_fin true (with_state kDisconnecting (with_vapp (counting_one (shared s)) v))]> (views s))).
Proof.
  intros Hi Hs Hw Hgt.
  apply (c_view _ _ _ _ _ _ _ _ i v
    (with_fin true (with_state kDisconnecting (with_vapp (counting_one (shared s)) v))) s Hi), v_up; [done |].
  unfold vcall, limited_onConnection. cbn [with_vapp v_app numConnected_ kMaxConnections_].
  rewrite (proj2 (Z.ltb_lt _ _)) by done. eapply vcmds_cons; [by apply shutdown_now |].
  cbn. rewrite Hw. constructor.
Qed.

(** A client that was refused counts until it goes.  With a limit of one: a
    client is served, a second one is refused and stays, the first one leaves;
    the third one is refused although nobody is served. *)
Theorem refused_client_blocks :
  exists s v, limited_reach False (LimitedServer_new 1) s
    /\ views s !! 3 = Some v /\ v_state v = kDisconnecting /\ count is_served (views s) = 0.
Proof.
  eexists _, _. split.
  - eapply rtc_l; [by apply (c_new _ _ _ _ _ _ _ _ 1) |].
    eapply rtc_l; [by apply (c_new _ _ _ _ _ _ _ _ 2) |].
    eapply rtc_l; [by apply (c_new _ _ _ _ _ _ _ _ 3) |].
    eapply rtc_l; [by eapply (limited_serve _ 1) |].
    eapply rtc_l; [by eapply (limited_refuse _ 2) |].
    eapply rtc_l; [eapply (c_view _ _ _ _ _ _ _ _ 1); [reflexivity | eapply v_close; [by left | constructor]] |].
    eapply rtc_l; [by eapply (limited_refuse _ 3) |]. apply rtc_refl.
  - split_and!; reflexivity.
Qed.

(** ** Runs *)

Definition demo_echo := steady_new 2 (bs "hello") false tt.
Definition demo_echo_script : list happening :=
  [NextFunctor; Ready CbRead 7; Ready CbRead 8; Ready CbRead 9; Ready CbRead 10].
Definition demo_echo_end := ends echo_onConnection echo_onMessage no_report no_mark demo_echo_script demo_echo.

Lemma demo_echo_runs : is_Some (script echo_onConnection echo_onMessage no_report no_mark demo_echo_script demo_echo).
Proof. vm_compute. eauto. Qed.
Lemma demo_echo_up : state_ (the_conn demo_echo_end) <> kConnecting.
Proof. vm_compute. discriminate. Qed.

(** Read in three pieces, closed by the peer. *)
Example demo_echo_said : stream demo_echo_end = bs "hello".
Proof. vm_compute. reflexivity. Qed.

Lemma simple_echo_echoes_witness :
  stream demo_echo_end = sock_read (sock demo_echo_end.2)
  /\ (contents (outputBuffer_ (the_conn demo_echo_end)) = [] ->
      sock_wire (sock demo_echo_end.2) = sock_read (sock demo_echo_end.2)).
Proof.
  apply (simple_echo_echoes 5 demo_echo demo_echo_end).
  - apply steady_fresh.
  - apply ends_runs; [repeat constructor | apply demo_echo_runs].
  - apply steady_no_break.
  - exact demo_echo_up.
Defined.

(** One client is served, a second one refused. *)
Lemma limited_demo :
  exists s, limited_reach False (LimitedServer_new 1) s /\ Z.of_nat (size (views s)) < 2 ^ 31
    /\ count is_served (views s) = 1 /\ numConnected_ (shared s) = 2.
Proof.
  eexists. split.
  - eapply rtc_l; [by apply (c_new _ _ _ _ _ _ _ _ 1) |].
    eapply rtc_l; [by apply (c_new _ _ _ _ _ _ _ _ 2) |].
    eapply rtc_l; [by eapply (limited_serve _ 1) |].
    eapply rtc_l; [by eapply (limited_refuse _ 2) |]. apply rtc_refl.
  - split_and!; reflexivity.
Qed.

Lemma limited_server_limits_witness :
  exists s, count is_served (views s) = 1 /\ numConnected_ (shared s) = count is_up (views s).
Proof.
  destruct limited_demo as (s & Hr & Hsz & Hs & Hn). exists s. split; [exact Hs |].
  apply (limited_server_limits 1 False s Hr Hsz).
Defined.
