(* ===== verification/PingPong.v ===== *)
(** * PingPong: the client that bounces blocks off a server and measures

    [examples/pingpong/client.cc]: a [Client] with a [Session] per connection.
    The sessions run in the contract of [ConnSpec], together as a [Crowd]; they
    share the client's atomic counter.  The server is in [EchoServers]. *)
From S2P Require Import Prelude Buffer Channel Poller EPollPoller EventLoop TcpConnection Atomic ConnSpec Crowd EchoServers.

(** ** The data *)

(*@ muduo/examples/pingpong/client.cc 23-79 Session *)
Record Session : Type := mkSession { bytesRead_ : Z; bytesWritten_ : Z; messagesRead_ : Z }.
(*@ muduo/examples/pingpong/client.cc 26-40 Session::Session *)
Definition Session_new : Session := mkSession 0 0 0.

(** What the client logs. *)
Inductive report : Type :=
| AllConnected
| AllDisconnected (totalBytesRead totalMessagesRead : Z).

(** The message does not change and is a parameter of the callbacks.  [quits]:
    many times the base loop was told to quit. *)
(*@ muduo/examples/pingpong/client.cc 163-170 Client *)
Record Client : Type := mkClient {
  sessionCount_ : Z;
  sessions_ : list Session;
  numConnected_ : Z;
  reports : list report;
  quits : nat
}.

Definition with_session (i : Z) (x : Session) (a : Client) : Client :=
  mkClient (sessionCount_ a) (<[Z.to_nat i := x]> (sessions_ a)) (numConnected_ a) (reports a) (quits a).

(** The block: [blockSize] bytes that count up to 127 and start again. *)
Definition block (blockSize : Z) : list byte := (fun i => byte_of (i mod 128)) <$> seqZ 0 blockSize.

(*@ muduo/examples/pingpong/client.cc 84-115 Client::Client *)
Definition Client_new (sessionCount : Z) : Client :=
  mkClient sessionCount (replicate (Z.to_nat sessionCount) Session_new)
    AtomicInteger.AtomicIntegerT_new [] 0.

(** ** The callbacks *)

(*@ muduo/examples/pingpong/client.cc 122-128 Client::onConnect *)
Definition onConnect (a : Client) : Client :=
  let '(n, numConnected) := AtomicInteger.incrementAndGet 32 (numConnected_ a) in
  mkClient (sessionCount_ a) (sessions_ a) numConnected
    (if n =? sessionCount_ a then reports a ++ [AllConnected] else reports a) (quits a).

Definition totals (xs : list Session) : Z * Z :=
  fold_left (fun '(b, m) x => (s64 (b + bytesRead_ x), s64 (m + messagesRead_ x))) xs (0, 0).

(*@ muduo/examples/pingpong/client.cc 130-152 Client::onDisconnect *)
Definition onDisconnect (a : Client) : Client :=
  let '(n, numConnected) := AtomicInteger.decrementAndGet 32 (numConnected_ a) in
  if n =? 0
  then let '(bytes, messages) := totals (sessions_ a) in
       mkClient (sessionCount_ a) (sessions_ a) numConnected
         (reports a ++ [AllDisconnected bytes messages]) (S (quits a))
  else mkClient (sessionCount_ a) (sessions_ a) numConnected (reports a) (quits a).

(*@ muduo/examples/pingpong/client.cc 172-184 Session::onConnection *)
Definition session_onConnection (message_ : list byte) (i : Z) (a : Client) (connected : bool) : Client * list cmd :=
  if connected then (onConnect a, [Send message_]) else (onDisconnect a, []).

(** The session's three counters; [conn->send(buf)] takes the buffer only while
    the connection is in state [kConnected]. *)
Definition counted (n : Z) (x : Session) : Session :=
  mkSession (s64 (bytesRead_ x + n)) (s64 (bytesWritten_ x + n)) (s64 (messagesRead_ x + 1)).
(*@ muduo/examples/pingpong/client.cc 66-72 Session::onMessage *)
Definition session_onMessage (i : Z) (a : Client) (buf : list byte) (time : Z) : Client * list cmd :=
  match sessions_ a !! Z.to_nat i with
  | Some x => (with_session i (counted (zlen buf) x) a, [SendBuffer])
  | None => (a, [SendBuffer])
  end.

(** [Client::handleTimeout] has every session's [TcpClient] disconnect, which
    shuts its connection down if there is one. *)
(*@ muduo/examples/pingpong/client.cc 47-50 Session::stop *)
Definition stop : list cmd := [Shutdown].
(*@ muduo/examples/pingpong/client.cc 156-161 Client::handleTimeout *)
Definition handleTimeout (a : Client) : list (list cmd) := map (fun _ => stop) (sessions_ a).

Definition timeout (cs : list cmd) : Prop := cs = stop.
Definition nothing_else (a a' : Client) : Prop := False.

(** ** The sessions echo and count *)

Section sessions.
Variables (message_ : list byte) (sessionCount : Z) (breaks : Prop).

Local Abbreviation session_step i :=
  (vstep breaks false timeout (session_onConnection message_ i) (session_onMessage i) no_report no_mark).
Local Abbreviation client_step :=
  (cstep breaks false timeout (session_onConnection message_) session_onMessage (fun _ => no_report)
     (fun _ => no_mark) nothing_else).
Local Abbreviation client_reach :=
  (reach breaks false timeout (session_onConnection message_) session_onMessage (fun _ => no_report)
     (fun _ => no_mark) nothing_else (Client_new sessionCount)).

#[export] Instance session_echoes i :
  Echoing timeout (session_onConnection message_ i) (session_onMessage i) no_report no_mark message_ True.
Proof using.
  split; [by left | | done | done | by intros cs ->].
  intros a d t. unfold session_onMessage. destruct (_ !! _); by right.
Qed.

#[export] Instance sessions_count :
  CountsUp (session_onConnection message_) session_onMessage (fun _ => no_report) (fun _ => no_mark)
    nothing_else numConnected_.
Proof using.
  split; try done.
  - intros i a. cbn. unfold onDisconnect. cbn. destruct (_ =? 0); [by destruct (totals _) | done].
  - intros i a d t. unfold session_onMessage. by destruct (_ !! _).
Qed.

Lemma session_view s i v : client_reach s -> views s !! i = Some v -> echoed breaks message_ True v.
Proof using.
  intros Hr. revert i v. apply (each_view _ _ _ _ _ _ _ _ (fun _ => echoed (A := Client) breaks message_ True) _ _
    (fun _ _ _ Hv => Hv) (fun _ _ => echoed_new _ _ _ _)
    (fun i v v' Hst => echoed_step _ _ _ _ _ _ _ _ _ (Hecho := session_echoes i) v v' Hst) Hr).
Qed.

(** What a session has counted. *)
Definition tracks (x : Session) (v : option (view Client)) : Prop :=
  match v with
  | None => x = Session_new
  | Some v =>
      match v_state v with
      | kConnecting => x = Session_new /\ v_received v = []
      | kConnected => bytesRead_ x = s64 (zlen (v_received v)) /\ bytesWritten_ x = bytesRead_ x
      | _ => True
      end
  end.
Definition all_track (s : crowd Client) : Prop :=
  forall i, 0 <= i < sessionCount ->
  exists x, sessions_ (shared s) !! Z.to_nat i = Some x /\ tracks x (views s !! i).

Lemma s64_add_l a b : s64 (s64 a + b) = s64 (a + b).
Proof using. apply AtomicInteger.wraps_add_l. lia. Qed.

(** A step of a session leaves the others' counters alone, and counts right. *)
Lemma onDisconnect_sessions a : sessions_ (onDisconnect a) = sessions_ a.
Proof using. unfold onDisconnect. cbn. destruct (_ =? 0); [by destruct (totals _) | done]. Qed.
Lemma onMessage_sessions i j a buf t x :
  0 <= i -> 0 <= j -> sessions_ a !! Z.to_nat j = Some x ->
  sessions_ (session_onMessage i a buf t).1 !! Z.to_nat j
  = Some (if bool_decide (i = j) then counted (zlen buf) x else x).
Proof using.
  intros Hi Hj Hx. unfold session_onMessage. case_bool_decide as Eij.
  - subst j. rewrite Hx. cbn. by rewrite list_lookup_insert_eq by (by eapply lookup_lt_Some).
  - destruct (_ !! Z.to_nat i); cbn; [| done]. by rewrite list_lookup_insert_ne by lia.
Qed.

(** A connection that is in the first open state after a step in which it did
    not come up was there before. *)
Lemma stays_connected i v v' :
  session_step i v v' -> v_state v <> kConnecting -> v_state v' = kConnected -> v_state v = kConnected.
Proof using.
  intros Hst Hn Hs. by destruct (vstep_connected _ _ _ _ _ _ _ _ _ Hst Hs) as [? | [? _]].
Qed.

Lemma other_same f a : other_callback no_report no_mark f -> f a = a :> Client.
Proof using. by intros [| | n]. Qed.

Lemma track_others i j v v' :
  i <> j -> 0 <= i -> 0 <= j -> session_step i v v' ->
  sessions_ (v_app v') !! Z.to_nat j = sessions_ (v_app v) !! Z.to_nat j.
Proof using.
  intros Hne Hi Hj [_ _ _ Ha | _ _ _ Ha | d t _ _ _ _ Ha | f Hf _ _ _ Ha]%vstep_moved; rewrite Ha.
  - done.
  - exact (f_equal (.!! Z.to_nat j) (onDisconnect_sessions (v_app v))).
  - unfold session_onMessage. destruct (sessions_ (v_app v) !! Z.to_nat i); cbn; [| done].
    by rewrite list_lookup_insert_ne by lia.
  - by rewrite other_same.
Qed.

Lemma track_own i v v' x :
  echoed breaks message_ True v -> session_step i v v' ->
  sessions_ (v_app v) !! Z.to_nat i = Some x -> tracks x (Some v) ->
  exists x', sessions_ (v_app v') !! Z.to_nat i = Some x' /\ tracks x' (Some v').
Proof using.
  intros He Hst Hx Ht. unfold tracks in *.
  pose proof (stays_connected _ _ _ Hst) as Hconn.
  destruct (vstep_moved _ _ _ _ _ _ _ _ _ Hst)
    as [Hs Hs' Hr Ha | _ Hs' _ Ha | d t Ho Ho' _ Hr Ha | f Hf Hi Ho Hr Ha]; rewrite Ha.
  - exists x. rewrite Hs in Ht. destruct Ht as [-> Ht]. split; [done |]. rewrite Hr, Ht.
    by destruct Hs' as [-> | ->].
  - exists x. rewrite <- (onDisconnect_sessions (v_app v)) in Hx. by rewrite Hs'.
  - unfold session_onMessage. rewrite Hx. cbn [fst with_session sessions_].
    exists (counted (zlen (v_input v ++ d)) x).
    rewrite list_lookup_insert_eq by (by eapply lookup_lt_Some). split; [done |].
    destruct (v_state v') eqn:Es'; [done | by destruct Ho' | | done].
    rewrite Hconn in Ht; [| by destruct Ho as [-> | ->] | done].
    unfold echoed in He. rewrite Hconn in He; [| by destruct Ho as [-> | ->] | done].
    destruct He as [-> _]. destruct Ht as [Hb Hw]. cbn. rewrite Hw, Hb, Hr, s64_add_l.
    by rewrite zlen_app.
  - exists x. rewrite (other_same f) by done. split; [done |]. rewrite Hr.
    destruct (v_state v') eqn:Es'; [done | by rewrite (proj2 Hi eq_refl) in Ht | | done].
    rewrite Hconn in Ht; [done | intros Hn; by apply Hi in Hn | done].
Qed.

Lemma all_track_step s s' :
  client_reach s -> (forall i, views s' !! i <> None -> 0 <= i) -> client_step s s' -> all_track s -> all_track s'.
Proof using.
  intros Hr Hpos Hst Ht j Hj. destruct (Ht j Hj) as (x & Hx & Htr). revert Hpos.
  destruct Hst as [i s Hi | i v v' s Hi Hst | a s []]; cbn [shared views]; intros Hpos;
    (destruct (decide (i = j)) as [-> | Hne]; [rewrite lookup_insert_eq | rewrite lookup_insert_ne by done]).
  - exists x. split; [done |]. rewrite Hi in Htr. by split.
  - by exists x.
  - rewrite Hi in Htr. eapply (track_own j (with_vapp (shared s) v) v' x); [| exact Hst | done | done].
    exact (session_view _ _ _ Hr Hi).
  - exists x. split; [| done]. rewrite <- Hx. apply (track_others i j (with_vapp (shared s) v) v'); [done | | lia | exact Hst].
    apply Hpos. by rewrite lookup_insert_eq.
Qed.

(** [i] is a session's number. *)
Definition of_sessions (s : crowd Client) : Prop := forall i, views s !! i <> None -> 0 <= i < sessionCount.

Lemma of_sessions_before s s' : client_step s s' -> of_sessions s' -> of_sessions s.
Proof using.
  intros Hst Hs i Hi. apply Hs. destruct Hst as [j s Hj | j v v' s Hj Hst | a s []]; cbn [views];
    (destruct (decide (j = i)) as [-> | Hne]; [by rewrite lookup_insert_eq | by rewrite lookup_insert_ne]).
Qed.

Lemma all_track_reach s : client_reach s -> of_sessions s -> all_track s.
Proof using.
  intros Hr. cut (client_reach s /\ (of_sessions s -> all_track s)); [tauto |].
  refine (crowd_invariant _ _ _ _ _ _ _ _ (fun s => client_reach s /\ (of_sessions s -> all_track s)) _ _ _ _ Hr).
  - split; [apply rtc_refl |]. intros _ i Hi. exists Session_new. cbn. split; [| done].
    apply lookup_replicate. split; [done | lia].
  - intros s1 s2 [Hr1 IH] Hst. split; [by eapply rtc_r |]. intros Hs.
    eapply all_track_step; [exact Hr1 | | exact Hst | eauto using of_sessions_before].
    intros i Hi. by apply Hs.
Qed.

(** While a session is up and has not been stopped it has sent the block and
    everything it received, and its counters are right; the client's counter is
    the number of connections that are up. *)
Theorem pingpong_counts s :
  client_reach s -> of_sessions s -> few s ->
  numConnected_ (shared s) = count is_up (views s)
  /\ forall i v, views s !! i = Some v -> v_state v = kConnected ->
     exists x, sessions_ (shared s) !! Z.to_nat i = Some x
       /\ bytesRead_ x = s64 (zlen (v_received v)) /\ bytesWritten_ x = bytesRead_ x
       /\ (breaks \/ v_sent v = message_ ++ v_received v).
Proof using.
  intros Hr Hs Hf. split.
  - exact (counts_up_always _ _ _ _ _ _ _ _ numConnected_ (Hups := sessions_count) (Client_new sessionCount) s eq_refl Hr Hf).
  - intros i v Hi Hc. destruct (all_track_reach s Hr Hs i) as (x & Hx & Ht); [apply Hs; by rewrite Hi |].
    exists x. rewrite Hi in Ht. unfold tracks in Ht. rewrite Hc in Ht. destruct Ht as [Hb Hw].
    pose proof (session_view s i v Hr Hi) as He. unfold echoed in He. rewrite Hc in He. destruct He as [_ He].
    by split_and!.
Qed.

(** The base loop is told to quit when the last connection that is up goes, and
    then all sessions' counters are reported. *)
Theorem client_quits_last s s' :
  client_reach s -> few s' -> client_step s s' -> quits (shared s') <> quits (shared s) ->
  count is_up (views s') = 0
  /\ quits (shared s') = S (quits (shared s))
  /\ reports (shared s')
     = reports (shared s) ++ [AllDisconnected (totals (sessions_ (shared s))).1 (totals (sessions_ (shared s))).2].
Proof using.
  intros Hr Hf Hst Hq.
  pose proof (few_before _ _ _ _ _ _ _ _ _ _ Hst Hf) as Hf0.
  pose proof (counts_up_always _ _ _ _ _ _ _ _ numConnected_ (Hups := sessions_count) (Client_new sessionCount) s eq_refl Hr Hf0) as Hn.
  pose proof (counts_up_step _ _ _ _ _ _ _ _ numConnected_ (Hups := sessions_count) s s' Hf0 Hst Hn) as Hn'.
  unfold counts_up in *. rewrite <- Hn'. clear Hn Hn' Hf Hf0 Hr.
  destruct Hst as [i s Hi | i v v' s Hi Hst | a s []]; [done |]. cbn [shared] in *.
  destruct (vstep_moved _ _ _ _ _ _ _ _ _ Hst) as [_ _ _ Ha | _ _ _ Ha | d t _ _ _ _ Ha | f Hf _ _ _ Ha];
    rewrite Ha in Hq |- *; cbn [with_vapp v_app] in *.
  - done.
  - unfold session_onConnection, onDisconnect in *. cbn -[Z.eqb] in *.
    destruct (Z.eqb_spec (wraps 32 (numConnected_ (shared s) + -1)) 0) as [E0 | E0]; [| done].
    by destruct (totals _) as [b m].
  - destruct Hq. unfold session_onMessage. by destruct (sessions_ (shared s) !! Z.to_nat i).
  - destruct Hq. by rewrite (other_same f).
Qed.
End sessions.

(** ** A session that is stopped counts twice *)

Definition demo_client := steady_new 2 (bs "abcdef") false (Client_new 1).
Definition demo_connection := session_onConnection (bs "m") 0.
Definition demo_message := session_onMessage 0.
(** It is up, gets two bytes, is stopped by the timer, and gets four more. *)
Definition demo_stop : list happening :=
  [NextFunctor; Ready CbWrite 0; Ready CbRead 1; Call stop; Ready CbRead 2; Ready CbRead 3].
Definition demo_end := ends demo_connection demo_message no_report no_mark demo_stop demo_client.

(** After [shutdown] the connection refuses to send and leaves the buffer as it
    is, so the next message callback finds, and counts, the same bytes again:
    six bytes were read, eight are reported. *)
Theorem stopped_session_counts_twice :
  runs demo_connection demo_message no_report no_mark timeout 5 demo_client demo_end
  /\ zlen (sock_read (sock demo_end.2)) = 6
  /\ (totals (sessions_ (app demo_end.2))).1 = 8.
Proof.
  split; [apply ends_runs; [repeat constructor | vm_compute; eauto] | vm_compute; done].
Qed.
