(* ===== verification/FileTransfer.v ===== *)
(** * FileTransfer: three servers that send a file and close

    [examples/filetransfer/]: [download.cc] sends the whole file at once,
    [download2.cc] and [download3.cc] send a piece, and the next one when the
    last was written.  The servers run on the connection of [TcpConnection] in
    its loop ([ConnSpec]); their files are those of stdio.  [Pieces] is what
    the two that send pieces have in common. *)
From S2P Require Import Prelude Buffer Channel Poller EPollPoller EventLoop TcpConnection ConnSpec OneShot.

(** ** stdio

    A stream open for reading on a regular file: fread(3) returns fewer bytes
    than asked for only at the end of the file. *)
Record FILE : Type := mkFile { f_data : list byte; f_pos : Z; f_open : bool }.

Definition fopen (disk : option (list byte)) : option FILE :=
  data ← disk; Some (mkFile data 0 true).
Definition fread (n : Z) (f : FILE) : res (list byte * FILE) :=
  if f_open f
  then let stop := Z.min (f_pos f + n) (zlen (f_data f)) in
       Ok (zslice (f_pos f) stop (f_data f), mkFile (f_data f) stop true)
  else Err BadAccess.
Definition fclose (f : FILE) : res FILE :=
  if f_open f then Ok (mkFile (f_data f) (f_pos f) false) else Err BadAccess.

(** ** [download.cc] *)

(*@ muduo/examples/filetransfer/download.cc 21-21 readFile::kBufSize *)
Definition kReadSize : Z := 1024 * 1024.

(** The [while], with the bytes left as fuel. *)
Fixpoint read_loop (fuel : nat) (content : list byte) (fp : FILE) : res (list byte * FILE) :=
  match fuel with
  | O => Err OutOfFuel
  | S fuel =>
      '(buf, fp) ← fread kReadSize fp;
      if 0 <? zlen buf then read_loop fuel (content ++ buf) fp else mret (content, fp)
  end.

(*@ muduo/examples/filetransfer/download.cc 14-34 readFile *)
Definition readFile (disk : option (list byte)) : res (list byte) :=
  match fopen disk with
  | None => mret []
  | Some fp =>
      '(content, fp) ← read_loop (S (length (f_data fp))) [] fp;
      _ ← fclose fp;
      mret content
  end.

(** The state is only what went wrong. *)
(*@ muduo/examples/filetransfer/download.cc 43-58 onConnection *)
Definition download_onConnection (disk : option (list byte)) (a : option fault) (connected : bool)
  : option fault * list cmd :=
  if connected
  then match readFile disk with
       | Ok fileContent => (a, [SetHighWaterMark (64 * 1024); Send fileContent; Shutdown])
       | Err f => (Some f, [])
       end
  else (a, []).

(*@ muduo/examples/filetransfer/download.cc 37-40 onHighWaterMark *)
Definition download_onHighWaterMark (a : option fault) (len : Z) : option fault * list cmd := (a, []).

(** ** [download2.cc] *)

(*@ muduo/examples/filetransfer/download2.cc 16-16 kBufSize *)
Definition kBufSize2 : Z := 64 * 1024.

(** The connection's context: empty, a null [FILE*], or one that points to
    the file the connection has opened. *)
Inductive Context : Type := CtxEmpty | CtxNull | CtxFile.

(** [fp2] is the object behind the pointer, and [wrong2] the first undefined
    behaviour or exception of a callback. *)
Record State2 : Type := mkState2 { context2 : Context; fp2 : option FILE; wrong2 : option fault }.
Definition State2_new : State2 := mkState2 CtxEmpty None None.

Definition fail2 (f : fault) (a : State2) : State2 := mkState2 (context2 a) (fp2 a) (Some f).

(*@ muduo/examples/filetransfer/download2.cc 20-65 onConnection *)
Definition download2_onConnection (disk : option (list byte)) (a : State2) (connected : bool) : State2 * list cmd :=
  if connected
  then
    match fopen disk with
    | Some f =>
        match fread kBufSize2 f with
        | Ok (buf, f) =>
            (mkState2 CtxFile (Some f) (wrong2 a), [SetHighWaterMark (kBufSize2 + 1); Send buf])
        | Err e => (fail2 e a, [])
        end
    | None => (a, [SetHighWaterMark (kBufSize2 + 1); Shutdown])
    end
  else
    match context2 a with
    | CtxFile =>
        match fp2 a with
        | Some f => match fclose f with
                    | Ok f => (mkState2 CtxFile (Some f) (wrong2 a), [])
                    | Err e => (fail2 e a, [])
                    end
        | None => (fail2 BadAccess a, [])
        end
    | CtxEmpty | CtxNull => (a, [])
    end.

(*@ muduo/examples/filetransfer/download2.cc 68-88 onWriteComplete *)
Definition download2_onWriteComplete (a : State2) : State2 * list cmd :=
  match context2 a, fp2 a with
  | CtxFile, Some f =>
      match fread kBufSize2 f with
      | Ok (buf, f) =>
          if 0 <? zlen buf
          then (mkState2 CtxFile (Some f) (wrong2 a), [Send buf])
          else match fclose f with
               | Ok f => (mkState2 CtxNull (Some f) (wrong2 a), [Shutdown])
               | Err e => (fail2 e a, [])
               end
      | Err e => (fail2 e a, [])
      end
  | CtxEmpty, _ => (fail2 Uncaught a, [])
  | _, _ => (fail2 BadAccess a, [])
  end.

(*@ muduo/examples/filetransfer/download2.cc 11-14 onHighWaterMark *)
Definition download2_onHighWaterMark (a : State2) (len : Z) : State2 * list cmd := (a, []).

(** ** [download3.cc] *)

(*@ muduo/examples/filetransfer/download3.cc 18-18 kBufSize *)
Definition kBufSize3 : Z := 64 * 1024.

(** The context holds a [shared_ptr] to the file, which closes it when the
    connection object goes: not while the connection can call back. *)
Record State3 : Type := mkState3 { context3 : option FILE; wrong3 : option fault }.
Definition State3_new : State3 := mkState3 None None.

Definition fail3 (f : fault) (a : State3) : State3 := mkState3 (context3 a) (Some f).

(*@ muduo/examples/filetransfer/download3.cc 25-56 onConnection *)
Definition download3_onConnection (disk : option (list byte)) (a : State3) (connected : bool) : State3 * list cmd :=
  if connected
  then
    match fopen disk with
    | Some f =>
        match fread kBufSize3 f with
        | Ok (buf, f) => (mkState3 (Some f) (wrong3 a), [SetHighWaterMark (kBufSize3 + 1); Send buf])
        | Err e => (fail3 e a, [])
        end
    | None => (a, [SetHighWaterMark (kBufSize3 + 1); Shutdown])
    end
  else (a, []).

(*@ muduo/examples/filetransfer/download3.cc 58-72 onWriteComplete *)
Definition download3_onWriteComplete (a : State3) : State3 * list cmd :=
  match context3 a with
  | None => (fail3 Uncaught a, [])
  | Some f =>
      match fread kBufSize3 f with
      | Ok (buf, f) =>
          if 0 <? zlen buf then (mkState3 (Some f) (wrong3 a), [Send buf])
          else (mkState3 (Some f) (wrong3 a), [Shutdown])
      | Err e => (fail3 e a, [])
      end
  end.

(*@ muduo/examples/filetransfer/download3.cc 13-16 onHighWaterMark *)
Definition download3_onHighWaterMark (a : State3) (len : Z) : State3 * list cmd := (a, []).

(** ** Reading *)

Definition next_pos (n : Z) (data : list byte) (p : Z) : Z := Z.min (p + n) (zlen data).
Definition piece (n : Z) (data : list byte) (p : Z) : list byte := zslice p (next_pos n data p) data.

Lemma fread_at n data p :
  fread n (mkFile data p true) = Ok (piece n data p, mkFile data (next_pos n data p) true).
Proof. done. Qed.

Lemma piece_len n data p : 0 < n -> 0 <= p <= zlen data -> zlen (piece n data p) = next_pos n data p - p.
Proof. intros. unfold piece, next_pos. rewrite zlen_zslice; lia. Qed.

(** What was read before, then the piece. *)
Lemma piece_extends n data p :
  0 < n -> 0 <= p <= zlen data -> ztake p data ++ piece n data p = ztake (next_pos n data p) data.
Proof.
  intros. unfold piece, next_pos. rewrite !ztake_is_zslice. apply zslice_split; lia.
Qed.

Lemma read_loop_ok data fuel : forall p,
  0 <= p <= zlen data -> zlen data - p < Z.of_nat fuel ->
  read_loop fuel (ztake p data) (mkFile data p true) = Ok (data, mkFile data (zlen data) true).
Proof.
  induction fuel as [| fuel IH]; intros p Hp Hf; [lia |]. cbn [read_loop].
  assert (0 < kReadSize) by (unfold kReadSize; lia). rewrite fread_at. rsimp.
  rewrite piece_len by done.
  destruct (Z.ltb_spec 0 (next_pos kReadSize data p - p)) as [Hlt | Hge].
  - rewrite piece_extends by done. apply IH; unfold next_pos in *; lia.
  - assert (p = zlen data) as -> by (unfold next_pos in Hge; lia). rewrite ztake_all by lia.
    unfold next_pos. by rewrite Z.min_r by lia.
Qed.

(** [readFile] returns the whole file, and nothing when there is none. *)
Lemma readFile_whole disk : readFile disk = Ok (default [] disk).
Proof.
  destruct disk as [data |]; [| done]. cbn [readFile fopen mbind option_bind].
  pose proof (zlen_nonneg data).
  change (@nil byte) with (ztake 0 data) at 1. cbn [f_data].
  rewrite read_loop_ok by (unfold zlen in *; lia). done.
Qed.

(** ** A file sent piece by piece *)

(** What the connection needs of a server that reads a file [data] in pieces of
    [n] bytes and sends the next when one was written.  [position a = Some p]:
    the file is open and read up to [p]; [finished]: it was closed at its end;
    [closed_ok]: what holds after the peer has closed. *)
Class PieceSender {A : Type} (init : A) (on_connection : A -> bool -> A * list cmd)
    (on_writeComplete : A -> A * list cmd) (data : list byte) (n : Z) : Type := {
  position : A -> option Z;
  finished : A -> Prop;
  closed_ok : A -> Prop;
  trouble : A -> option fault;
  ps_size : 0 < n < 2 ^ 63;
  ps_up : exists a m, on_connection init true = (a, [SetHighWaterMark m; Send (piece n data 0)])
            /\ position a = Some (next_pos n data 0);
  ps_next a p : position a = Some p -> 0 <= p < zlen data ->
    exists a', on_writeComplete a = (a', [Send (piece n data p)])
      /\ position a' = Some (next_pos n data p);
  ps_end a : position a = Some (zlen data) ->
    exists a', on_writeComplete a = (a', [Shutdown]) /\ finished a';
  ps_close a p : position a = Some p -> closed_ok (on_connection a false).1;
  ps_close_end a : finished a -> closed_ok (on_connection a false).1;
  ps_closed a : closed_ok a -> closed_ok (on_writeComplete a).1;
  ps_open_fine a p : position a = Some p -> trouble a = None;
  ps_end_fine a : finished a -> trouble a = None
}.

Section pieces.
Context {A : Type} (init : A) (on_connection : A -> bool -> A * list cmd)
  (on_writeComplete : A -> A * list cmd) (on_highWaterMark : A -> Z -> A * list cmd)
  (data : list byte) (n : Z) `{!PieceSender init on_connection on_writeComplete data n}.
Hypothesis mark_idle : forall a k, on_highWaterMark a k = (a, []).
Variable breaks : Prop.
Implicit Types v : view A.

Local Abbreviation vnext :=
  (vstep breaks true nobody on_connection defaultMessageCallback on_writeComplete on_highWaterMark).

(** Between establishing and the end of the file. *)
Definition under_way v : Prop := exists p,
  position (v_app v) = Some p /\ 0 <= p <= zlen data /\ v_sent v = ztake p data /\ v_dropped v = false
  /\ v_reports v = (if v_waiting v then 0 else 1)%nat.

Definition piecewise v : Prop :=
  match v_state v with
  | kConnecting =>
      v_app v = init /\ v_sent v = [] /\ v_waiting v = false /\ v_reports v = 0%nat /\ v_fin v = false
      /\ v_dropped v = false
  | kConnected =>
      under_way v
      \/ (breaks /\ v_waiting v = false /\ v_reports v = 0%nat /\ (exists p, position (v_app v) = Some p)
          /\ exists k, v_sent v = ztake k data)
  | kDisconnecting =>
      finished (v_app v) /\ v_sent v = data /\ v_waiting v = false /\ v_fin v = true /\ v_reports v = 0%nat
  | kDisconnected => closed_ok (v_app v) /\ exists k, v_sent v = ztake k data
  end.

Hypothesis data_nonempty : data <> [].

Lemma data_len : 0 < zlen data.
Proof using data_nonempty.
  pose proof (zlen_nonneg data). destruct (decide (zlen data = 0)) as [E0 | ]; [by apply zlen_zero in E0 | lia].
Qed.

Lemma send_piece p v v' :
  v_state v = kConnected -> position (v_app v) = Some (next_pos n data p) -> 0 <= p < zlen data ->
  v_sent v = ztake p data -> v_waiting v = false -> v_reports v = 0%nat -> v_dropped v = false ->
  vcmd breaks true (Send (piece n data p)) v v' -> v_state v' = kConnected /\ piecewise v'.
Proof using data_nonempty.
  intros Hs Hp Hr Hsent Hw Hn Hd Hc. pose proof ps_size as Hsize.
  assert (Hnext : 0 <= next_pos n data p <= zlen data) by (unfold next_pos; lia).
  assert (Hup : forall (w : bool) (k : nat), k = (if w then 0 else 1)%nat ->
    piecewise (with_reports k (with_sent (v_sent v ++ piece n data p) w v))).
  { intros w k ->. unfold piecewise. cbn. rewrite Hs. left. exists (next_pos n data p).
    cbn. rewrite Hsent, piece_extends by lia. done. }
  destruct (vcmd_send_inv _ _ _ _ _ Hc Hs) as [[_ ->] | [-> | [(Hb & _ & ->) | [Hnil _]]]].
  - split; [done |]. apply Hup. by rewrite Hn.
  - split; [done |]. replace (with_sent _ true v) with (with_reports 0 (with_sent (v_sent v ++ piece n data p) true v))
      by (by destruct v; cbn in *; subst). by apply Hup.
  - split; [done |]. unfold piecewise. cbn. rewrite Hs. right. split_and!; [done | done | done | by eexists | by exists p].
  - exfalso. pose proof (piece_len n data p) as Hl. rewrite Hnil in Hl.
    change (zlen (A := byte) []) with 0 in Hl. unfold next_pos in Hl. lia.
Qed.

Lemma piecewise_step v v' : vnext v v' -> piecewise v -> piecewise v'.
Proof using data_nonempty mark_idle PieceSender0.
  pose proof data_len as Hlen. pose proof ps_size as Hsize.
  intros Hst Hv. destruct Hst as [v v' Hs Hc | d t v v' Ho Hd Hc | v v' Ho Hc | v Ho Hw | k v v' Hr Hs Hc | k v v' Hs Hc | cs v v' [] |];
    unfold vcall in *.
  - unfold piecewise in Hv. rewrite Hs in Hv. destruct Hv as (Ha & Hsent & Hw & Hn & Hf & Hdr).
    destruct ps_up as (a & m & Hup & Hpos). rewrite Ha, Hup in Hc. cbn [fst snd] in Hc.
    apply vcmds_inv in Hc as (v1 & ->%vcmd_mark_inv & Hc'%vcmds_one).
    eapply (send_piece 0); [.. | exact Hc']; done || lia.
  - apply vcmds_one, vcmd_retrieveAll_inv in Hc as ->. unfold piecewise in *. cbn. by destruct (v_state v).
  - apply vcmds_not_connected in Hc as [i ->]; [| done]. unfold piecewise. cbn. unfold piecewise in Hv.
    destruct Ho as [E0 | E0]; rewrite E0 in Hv.
    + destruct Hv as [(p & Hp & _ & Hsent & _) | (_ & _ & _ & [p Hp] & Hk)]; (split; [by eapply ps_close | by eauto]).
    + destruct Hv as (Hfi & Hsent & _). split; [by apply ps_close_end |]. exists (zlen data). by rewrite ztake_all by lia.
  - unfold piecewise in *. cbn. destruct Ho as [E0 | E0]; rewrite E0 in *.
    + left. destruct Hv as [(p & Hp & Hr & Hsent & Hdr & Hn) | (_ & Hw' & _)]; [| congruence].
      exists p. cbn. rewrite Hw in Hn. by rewrite Hn.
    + destruct Hv as (_ & _ & Hw' & _). congruence.
  - unfold piecewise in Hv. destruct (v_state v) eqn:E0; [| done | |].
    + apply vcmds_not_connected in Hc as [i ->]; [| cbn; congruence]. unfold piecewise. cbn. rewrite E0.
      destruct Hv as [Hc Hk]. split; [by apply ps_closed | done].
    + destruct Hv as [(p & Hp & Hrange & Hsent & Hdr & Hn) | (_ & _ & Hn & _)]; [| congruence].
      destruct (v_waiting v) eqn:Hw; [congruence |]. assert (k = 0%nat) as -> by congruence.
      destruct (decide (p = zlen data)) as [-> | Hne].
      * destruct (ps_end _ Hp) as (a' & Hwc & Hfin). rewrite Hwc in Hc.
        apply vcmds_one, vcmd_shutdown_inv in Hc as ->; [| done]. unfold piecewise. cbn.
        rewrite Hsent, Hw, ztake_all by lia. done.
      * destruct (ps_next _ _ Hp ltac:(lia)) as (a' & Hwc & Hp'). rewrite Hwc in Hc. apply vcmds_one in Hc.
        eapply (send_piece p); [.. | exact Hc]; cbn; done || lia.
    + destruct Hv as (_ & _ & _ & _ & Hn). congruence.
  - rewrite mark_idle in Hc. apply vcmds_nil_inv in Hc as ->. unfold piecewise in *. by destruct v.
  - done.
Qed.
End pieces.

Section delivery.
Context {P E K A : Type} `{!EventFd E, !Socket K, !PollerOps (loop_cb conn_cb) P}.
Context `{!SocketLaws K, !PollerSpec (loop_cb conn_cb) P}.
Local Abbreviation world := (EventLoop conn_cb task P E * rest K A)%type.
Implicit Types w : world.

Context (init : A) (on_connection : A -> bool -> A * list cmd)
  (on_writeComplete : A -> A * list cmd) (on_highWaterMark : A -> Z -> A * list cmd)
  (data : list byte) (n self : Z) `{!PieceSender init on_connection on_writeComplete data n}.
Hypothesis mark_idle : forall a k, on_highWaterMark a k = (a, []).
Hypothesis connection_ok : forall a b, Forall cmd_ok (on_connection a b).2.
Hypothesis writeComplete_ok : forall a, Forall cmd_ok (on_writeComplete a).2.
Hypothesis data_nonempty : data <> [].

Lemma pieces_delivered w w' :
  fresh true init w ->
  runs on_connection defaultMessageCallback on_writeComplete on_highWaterMark nobody self w w' ->
  (exists k, stream w' = ztake k data)
  /\ (if is_state (state_ (the_conn w')) kDisconnected then closed_ok (app w'.2)
      else state_ (the_conn w') <> kConnecting -> trouble (app w'.2) = None)
  /\ (~ pipe_breaks (K := K) -> state_ (the_conn w') <> kDisconnected -> at_rest w' -> complete data w').
Proof using Type*.
  intros Hf Hr.
  destruct (runs_invariant on_connection defaultMessageCallback on_writeComplete on_highWaterMark nobody self true
    connection_ok ltac:(repeat constructor) writeComplete_ok ltac:(intros; rewrite mark_idle; constructor) ltac:(intros ? [])
    (piecewise init on_connection on_writeComplete data n (pipe_breaks (K := K)))
    w (View_new init) w') as (v & Hv & Hsh); [| done | by apply fresh_shows | done |].
  { intros v v' Hst Hi. by eapply piecewise_step. }
  destruct Hsh as [Hl Hh Hq]. unfold piecewise in Hv. rewrite (lk_state _ _ _ Hl), (lk_sent _ _ _ Hl), (lk_app _ _ _ Hl) in Hv.
  unfold is_state. destruct (state_ (the_conn w')) eqn:Es.
  - rewrite bool_decide_eq_true_2 by done. split_and!; [apply Hv | apply Hv | done].
  - rewrite bool_decide_eq_false_2 by done. destruct Hv as (Ha & Hst & _ & Hn & _). split_and!; [| done |].
    + exists 0. by rewrite Hst.
    + intros _ _ [Hp _]. unfold queue_ok in Hq. rewrite Es, Hp in Hq. done.
  - rewrite bool_decide_eq_false_2 by done.
    destruct Hv as [(p & Hp & _ & Hst & _ & Hn) | (Hb & _ & _ & [p Hp] & Hk)].
    + rewrite (lk_app _ _ _ Hl) in Hp. rewrite (lk_sent _ _ _ Hl) in Hst. split_and!; [by exists p | intros _; by eapply ps_open_fine |].
      intros _ _ [Hq' Ho]. rewrite (lk_waiting _ _ _ Hl), (lk_reports _ _ _ Hl), Hq', Ho, bool_decide_eq_true_2 in Hn by done.
      done.
    + split_and!; [done | intros _; by eapply ps_open_fine | done].
  - rewrite bool_decide_eq_false_2 by done. destruct Hv as (Hfi & Hst & _ & Hfin & _). split_and!.
    + exists (zlen data). by rewrite ztake_all by lia.
    + intros _. by apply ps_end_fine.
    + intros _ _ [_ Ho]. split; [| by rewrite <- (lk_fin _ _ _ Hl)].
      unfold stream in Hst. by rewrite Ho, app_nil_r in Hst.
Qed.
End delivery.

(** ** The two servers send pieces *)

(** The offset of an open stream on [data]. *)
Definition offset (data : list byte) (f : FILE) : option Z :=
  if f_open f && bool_decide (f_data f = data) then Some (f_pos f) else None.

Lemma offset_Some data f p : offset data f = Some p -> f = mkFile data p true.
Proof.
  unfold offset. destruct f as [d q []]; cbn; [| done]. case_bool_decide; [| done]. intros [= ->]. by subst.
Qed.
Lemma offset_at data p : offset data (mkFile data p true) = Some p.
Proof. unfold offset. cbn. by rewrite bool_decide_eq_true_2. Qed.

Lemma piece_pos n data p : 0 < n -> 0 <= p < zlen data -> (0 <? zlen (piece n data p)) = true.
Proof. intros. rewrite piece_len by lia. apply Z.ltb_lt. unfold next_pos. lia. Qed.
Lemma piece_end n data : 0 < n -> (0 <? zlen (piece n data (zlen data))) = false.
Proof.
  intros. pose proof (zlen_nonneg data). rewrite piece_len by lia. apply Z.ltb_ge. unfold next_pos. lia.
Qed.

Definition position3 (data : list byte) (a : State3) : option Z :=
  if decide (wrong3 a = None) then f ← context3 a; offset data f else None.

Lemma position3_Some data a p :
  position3 data a = Some p -> a = mkState3 (Some (mkFile data p true)) None.
Proof.
  unfold position3. destruct a as [[f |] w]; cbn; case_decide; try done. intros ->%offset_Some. congruence.
Qed.
Lemma position3_at data p : position3 data (mkState3 (Some (mkFile data p true)) None) = Some p.
Proof. unfold position3. cbn. apply offset_at. Qed.

#[export] Instance download3_pieces data :
  PieceSender State3_new (download3_onConnection (Some data)) download3_onWriteComplete data kBufSize3.
Proof.
  refine {| position := position3 data; finished a := position3 data a = Some (zlen data);
            closed_ok a := is_Some (position3 data a); trouble := wrong3 |}; unfold kBufSize3.
  - lia.
  - eexists _, _. split; [done | apply position3_at].
  - intros a p ->%position3_Some Hp. unfold download3_onWriteComplete. cbn [context3]. rewrite fread_at, piece_pos by (unfold kBufSize3; lia).
    eexists. split; [done | apply position3_at].
  - intros a ->%position3_Some. unfold download3_onWriteComplete. cbn [context3]. rewrite fread_at, piece_end by (unfold kBufSize3; lia).
    eexists. split; [done |]. rewrite position3_at. unfold next_pos, kBufSize3. f_equal. lia.
  - intros a p Hp. by exists p.
  - intros a Hp. by eexists.
  - intros a [p ->%position3_Some]. unfold download3_onWriteComplete. cbn [context3]. rewrite fread_at.
    destruct (_ <? _); eexists; apply position3_at.
  - by intros a p ->%position3_Some.
  - by intros a ->%position3_Some.
Defined.

Definition position2 (data : list byte) (a : State2) : option Z :=
  match context2 a with
  | CtxFile => if decide (wrong2 a = None) then f ← fp2 a; offset data f else None
  | _ => None
  end.

Lemma position2_Some data a p :
  position2 data a = Some p -> a = mkState2 CtxFile (Some (mkFile data p true)) None.
Proof.
  unfold position2. destruct a as [[] [f |] w]; cbn; try done; case_decide; try done.
  intros ->%offset_Some. congruence.
Qed.
Lemma position2_at data p : position2 data (mkState2 CtxFile (Some (mkFile data p true)) None) = Some p.
Proof. unfold position2. cbn. apply offset_at. Qed.

#[export] Instance download2_pieces data :
  PieceSender State2_new (download2_onConnection (Some data)) download2_onWriteComplete data kBufSize2.
Proof.
  refine {| position := position2 data; finished a := context2 a = CtxNull /\ wrong2 a = None;
            closed_ok _ := True; trouble := wrong2 |}; unfold kBufSize2.
  - lia.
  - eexists _, _. split; [done | apply position2_at].
  - intros a p ->%position2_Some Hp. unfold download2_onWriteComplete. cbn [context2 fp2].
    rewrite fread_at, piece_pos by (unfold kBufSize2; lia). eexists. split; [done | apply position2_at].
  - intros a ->%position2_Some. unfold download2_onWriteComplete. cbn [context2 fp2].
    rewrite fread_at, piece_end by (unfold kBufSize2; lia). by eexists.
  - done.
  - done.
  - done.
  - by intros a p ->%position2_Some.
  - by intros a [].
Defined.

(** Pieces are small. *)
Lemma fread_small n f buf f' : 0 < n < 2 ^ 63 -> fread n f = Ok (buf, f') -> cmd_ok (Send buf).
Proof.
  unfold fread. destruct (f_open f); [| done]. intros Hn [= <- _]. cbn. unfold zslice, zlen, ztake.
  rewrite length_take. lia.
Qed.

Ltac small_pieces :=
  repeat match goal with
  | |- context [fread ?n ?f] => let H := fresh "Hread" in destruct (fread n f) as [[? ?] | ?] eqn:H
  | |- context [match ?x with _ => _ end] => destruct x
  end; repeat constructor; try (eapply fread_small; [| done]; lia).

Lemma download3_connection_ok disk a b : Forall cmd_ok (download3_onConnection disk a b).2.
Proof. unfold download3_onConnection, kBufSize3. small_pieces. Qed.
Lemma download3_writeComplete_ok a : Forall cmd_ok (download3_onWriteComplete a).2.
Proof. unfold download3_onWriteComplete, kBufSize3. small_pieces. Qed.
Lemma download2_connection_ok disk a b : Forall cmd_ok (download2_onConnection disk a b).2.
Proof. unfold download2_onConnection, kBufSize2. small_pieces. Qed.
Lemma download2_writeComplete_ok a : Forall cmd_ok (download2_onWriteComplete a).2.
Proof. unfold download2_onWriteComplete, kBufSize2. small_pieces. Qed.

(** ** Properties *)

Section deliveries.
Context {P E K : Type} `{!EventFd E, !Socket K, !PollerOps (loop_cb conn_cb) P}.
Context `{!SocketLaws K, !PollerSpec (loop_cb conn_cb) P}.
Local Abbreviation world A := (EventLoop conn_cb task P E * rest K A)%type.

(** C22: The server with the file, not an empty one, in a shared pointer delivers it: at every moment
    of every run what was handed over is a prefix of the file and no callback
    has touched a closed file or missed its context, also after the peer has
    closed; and unless the peer closes or the pipe breaks, the transfer does
    not stall: when no functor waits and nothing waits to be written, the
    kernel has the whole file and the sending side is shut down. *)
Theorem download3_delivers data self (w w' : world State3) :
  data <> [] -> fresh true State3_new w ->
  runs (download3_onConnection (Some data)) defaultMessageCallback download3_onWriteComplete
    download3_onHighWaterMark nobody self w w' ->
  (exists k, stream w' = ztake k data)
  /\ (state_ (the_conn w') <> kConnecting -> wrong3 (app w'.2) = None)
  /\ (~ pipe_breaks (K := K) -> state_ (the_conn w') <> kDisconnected -> at_rest w' -> complete data w').
Proof using Type*.
  intros Hd Hf Hr.
  destruct (pieces_delivered State3_new _ _ download3_onHighWaterMark data kBufSize3 self ltac:(done)
    (download3_connection_ok _) download3_writeComplete_ok Hd w w' Hf Hr) as (Hpre & Hok & Hend).
  split_and!; [done | | done]. intros Hs. revert Hok. unfold is_state. case_bool_decide as Es; [| by auto].
  by intros [p ->%position3_Some].
Qed.

(** The one that keeps a bare pointer delivers as well, and makes no mistake as
    long as the connection is not down. *)
Theorem download2_delivers data self (w w' : world State2) :
  data <> [] -> fresh true State2_new w ->
  runs (download2_onConnection (Some data)) defaultMessageCallback download2_onWriteComplete
    download2_onHighWaterMark nobody self w w' ->
  (exists k, stream w' = ztake k data)
  /\ (open_state (state_ (the_conn w')) -> wrong2 (app w'.2) = None)
  /\ (~ pipe_breaks (K := K) -> state_ (the_conn w') <> kDisconnected -> at_rest w' -> complete data w').
Proof using Type*.
  intros Hd Hf Hr.
  destruct (pieces_delivered State2_new _ _ download2_onHighWaterMark data kBufSize2 self ltac:(done)
    (download2_connection_ok _) download2_writeComplete_ok Hd w w' Hf Hr) as (Hpre & Hok & Hend).
  split_and!; [done | | done]. intros Ho. revert Hok. unfold is_state.
  destruct Ho as [-> | ->]; cbn; auto.
Qed.

Lemma download_connection_ok disk a b :
  zlen (default [] disk) < 2 ^ 63 -> Forall cmd_ok (download_onConnection disk a b).2.
Proof using.
  intros Hd. unfold download_onConnection. rewrite readFile_whole. destruct b; repeat constructor. exact Hd.
Qed.

(** The one that reads the whole file first sends it, or nothing when there is
    no such file, and shuts down once it is gone. *)
#[export] Instance download_one_shot disk :
  OneShot None (download_onConnection disk) (default [] disk).
Proof using.
  split; [| done]. exists [SetHighWaterMark (64 * 1024)]. unfold download_onConnection.
  rewrite readFile_whole. split; [done |]. constructor; [by eexists | done].
Qed.

Theorem download_delivers disk self (w w' : world (option fault)) :
  zlen (default [] disk) < 2 ^ 63 -> fresh false None w ->
  runs (download_onConnection disk) defaultMessageCallback no_report download_onHighWaterMark nobody self w w' ->
  (exists k, stream w' = ztake k (default [] disk))
  /\ app w'.2 = None
  /\ (~ pipe_breaks (K := K) -> state_ (the_conn w') <> kDisconnected -> at_rest w' ->
      complete (default [] disk) w').
Proof using Type*.
  intros Hd Hf Hr. apply (one_shot_delivers None (download_onConnection disk) (default [] disk) false self
    download_onHighWaterMark w w'); [done | | done..].
  intros a b. by apply download_connection_ok.
Qed.
End deliveries.

(** ** Runs *)

(** The kernel takes three bytes at a time; the file has six. *)
Definition demo_file : list byte := bs "abcdef".
Definition demo_transfer : list happening :=
  [NextFunctor; NextFunctor; Ready CbWrite 0; NextFunctor].

Definition demo3 := steady_new 3 [] true State3_new.
Definition demo3_end :=
  ends (download3_onConnection (Some demo_file)) defaultMessageCallback download3_onWriteComplete
    download3_onHighWaterMark demo_transfer demo3.

Lemma demo3_runs :
  is_Some (script (download3_onConnection (Some demo_file)) defaultMessageCallback download3_onWriteComplete
    download3_onHighWaterMark demo_transfer demo3).
Proof. vm_compute. eauto. Qed.

Lemma demo3_state : state_ (the_conn demo3_end) <> kDisconnected.
Proof. vm_compute. discriminate. Qed.
Lemma demo3_rest : at_rest demo3_end.
Proof. vm_compute. done. Qed.

Lemma download3_delivers_witness : complete demo_file demo3_end.
Proof.
  eapply (download3_delivers demo_file 5 demo3 demo3_end).
  - discriminate.
  - apply steady_fresh.
  - apply ends_runs; [repeat constructor | apply demo3_runs].
  - apply steady_no_break.
  - exact demo3_state.
  - exact demo3_rest.
Defined.

(** The kernel takes the whole piece at once, so that its write complete
    functor is queued; the peer closes before it runs. *)
Definition demo2 := steady_new 100 [] true State2_new.
Definition demo_closed_early : list happening := [NextFunctor; Ready CbRead 0; NextFunctor].

(** With a bare pointer the callback then reads a file that was closed. *)
Theorem download2_reads_closed_file :
  exists w', runs (download2_onConnection (Some demo_file)) defaultMessageCallback download2_onWriteComplete
      download2_onHighWaterMark nobody 5 demo2 w'
    /\ state_ (the_conn w') = kDisconnected /\ wrong2 (app w'.2) = Some BadAccess.
Proof.
  exists (ends (download2_onConnection (Some demo_file)) defaultMessageCallback download2_onWriteComplete
    download2_onHighWaterMark demo_closed_early demo2).
  split; [apply ends_runs; [repeat constructor | vm_compute; eauto] | vm_compute; done].
Qed.
