(* ===== verification/Chargen.v ===== *)
(** * Chargen: servers and clients that never stop sending

    [examples/simple/chargen], its client [simple/chargenclient], and
    [netty/discard/client.cc]: one message after the other, the next when the
    last was written.  [Flood] is what they have in common. *)
From S2P Require Import Prelude Buffer Channel Poller EPollPoller EventLoop TcpConnection Atomic ConnSpec.

(** ** The callbacks *)

(** Lines of 72 printable characters, each starting one further. *)
Definition chargen_line : list byte := let line := byte_of <$> seqZ 33 (127 - 33) in line ++ line.
(*@ muduo/examples/simple/chargen/chargen.cc 12-42 ChargenServer::ChargenServer *)
Definition chargen_message : list byte :=
  concat ((fun i => zslice i (i + 72) chargen_line ++ [LF]) <$> seqZ 0 (127 - 33)).

(** The state is [transferred_], an [int64_t]. *)
(*@ muduo/examples/simple/chargen/chargen.cc 49-59 ChargenServer::onConnection *)
Definition chargen_onConnection (transferred_ : Z) (connected : bool) : Z * list cmd :=
  if connected then (transferred_, [Send chargen_message]) else (transferred_, []).
(*@ muduo/examples/simple/chargen/chargen.cc 61-68 ChargenServer::onMessage *)
Definition chargen_onMessage (transferred_ : Z) (buf : list byte) (time : Z) : Z * list cmd :=
  (transferred_, [RetrieveAll]).
(*@ muduo/examples/simple/chargen/chargen.cc 70-74 ChargenServer::onWriteComplete *)
Definition chargen_onWriteComplete (transferred_ : Z) : Z * list cmd :=
  (s64 (transferred_ + zlen chargen_message), [Send chargen_message]).
(** What is printed (divided by the time), and the counter. *)
(*@ muduo/examples/simple/chargen/chargen.cc 76-83 ChargenServer::printThroughput *)
Definition chargen_printThroughput (transferred_ : Z) : Z * Z := (transferred_, 0).

(** The client's state is whether it told the loop to quit. *)
(*@ muduo/examples/simple/chargenclient/chargenclient.cc 36-44 ChargenClient::onConnection *)
Definition chargenClient_onConnection (quit : bool) (connected : bool) : bool * list cmd :=
  if connected then (quit, []) else (true, []).
(*@ muduo/examples/simple/chargenclient/chargenclient.cc 46-49 ChargenClient::onMessage *)
Definition chargenClient_onMessage (quit : bool) (buf : list byte) (time : Z) : bool * list cmd := (quit, [RetrieveAll]).

(*@ muduo/examples/netty/discard/client.cc 42-57 DiscardClient::onConnection *)
Definition discardClient_onConnection (message_ : list byte) (quit : bool) (connected : bool) : bool * list cmd :=
  if connected then (quit, [Send message_]) else (true, []).
(*@ muduo/examples/netty/discard/client.cc 59-62 DiscardClient::onMessage *)
Definition discardClient_onMessage (quit : bool) (buf : list byte) (time : Z) : bool * list cmd := (quit, [RetrieveAll]).
(*@ muduo/examples/netty/discard/client.cc 64-68 DiscardClient::onWriteComplete *)
Definition discardClient_onWriteComplete (message_ : list byte) (quit : bool) : bool * list cmd :=
  (quit, [Send message_]).

(** ** Flooding *)

(** [counted a]: how many messages [a] has seen written, modulo 2^64 (0 where
    nobody counts). *)
Class Flood {A : Type} (on_connection : A -> bool -> A * list cmd) (on_message : A -> list byte -> Z -> A * list cmd)
    (on_writeComplete : A -> A * list cmd) (message : list byte) (counted : A -> Z -> Prop) : Prop := {
  fl_up a k : counted a k -> (on_connection a true).2 = [Send message] /\ counted (on_connection a true).1 k;
  fl_message a d t : on_message a d t = (a, [RetrieveAll]);
  fl_written a k : counted a k -> (on_writeComplete a).2 = [Send message] /\ counted (on_writeComplete a).1 (k + 1);
  fl_some : message <> []
}.

Section flood.
Context {A : Type} (on_connection : A -> bool -> A * list cmd) (on_message : A -> list byte -> Z -> A * list cmd)
  (on_writeComplete : A -> A * list cmd) (message : list byte) (counted : A -> Z -> Prop).
Context {Hflood : Flood on_connection on_message on_writeComplete message counted}.
Variables (breaks : Prop).
Implicit Types v : view A.

Local Abbreviation vnext := (vstep breaks true nobody on_connection on_message on_writeComplete no_mark).

(** [n] messages in a row. *)
Definition rounds (n : Z) : list byte := concat (replicate (Z.to_nat n) message).

Lemma rounds_next n : 0 <= n -> rounds n ++ message = rounds (n + 1).
Proof using.
  intros. unfold rounds. replace (Z.to_nat (n + 1)) with (S (Z.to_nat n)) by lia.
  by rewrite replicate_S_end, concat_app; cbn; rewrite app_nil_r.
Qed.

(** [k] messages were written; another is on its way, or was lost to a broken
    pipe. *)
Definition under_way k v : Prop :=
  (v_sent v = rounds (k + 1) /\ v_reports v = (if v_waiting v then 0 else 1)%nat)
  \/ (breaks /\ v_sent v = rounds k /\ v_reports v = 0%nat /\ v_waiting v = false).

Definition flooding v : Prop :=
  match v_state v with
  | kConnecting => counted (v_app v) 0 /\ v_sent v = [] /\ v_waiting v = false /\ v_reports v = 0%nat
  | kConnected => exists k, 0 <= k /\ counted (v_app v) k /\ under_way k v
  | kDisconnecting => False
  | kDisconnected => exists k, 0 <= k /\ v_sent v = rounds k
  end.

Lemma next_message k v v' :
  v_state v = kConnected -> 0 <= k -> counted (v_app v) k -> v_sent v = rounds k -> v_waiting v = false ->
  v_reports v = 0%nat -> vcmds breaks true [Send message] v v' -> flooding v'.
Proof using Hflood.
  intros Hs Hk Ha Hse Hw Hr Hc%vcmds_one.
  assert (Hgo : forall (w : bool) (n : nat), n = (if w then 0 else 1)%nat ->
    flooding (with_reports n (with_sent (v_sent v ++ message) w v))).
  { intros w n ->. unfold flooding. cbn. rewrite Hs. exists k. split_and!; [done | done |]. left. cbn.
    by rewrite Hse, rounds_next. }
  destruct (vcmd_send_inv _ _ _ _ _ Hc Hs) as [[_ ->] | [-> | [(Hb & _ & ->) | [Hn _]]]].
  - apply Hgo. by rewrite Hr.
  - replace (with_sent _ true v) with (with_reports 0 (with_sent (v_sent v ++ message) true v))
      by (destruct v; cbn in *; by subst). by apply Hgo.
  - unfold flooding. cbn. rewrite Hs. exists k. split_and!; [done | done |]. by right.
  - by destruct (fl_some Hn).
Qed.

Lemma flooding_step v v' : vnext v v' -> flooding v -> flooding v'.
Proof using Hflood.
  intros Hst Hv. destruct Hst as [v v' Hs Hc | d t v v' Ho Hd Hc | v v' Ho Hc | v Ho Hw | n v v' Hr Hs Hc | n v v' Hs Hc | cs v v' [] |];
    unfold vcall in *.
  - unfold flooding in Hv. rewrite Hs in Hv. destruct Hv as (Ha & Hse & Hw & Hr).
    destruct (fl_up _ _ Ha) as [Hcs Ha']. rewrite Hcs in Hc.
    by eapply (next_message 0); [.. | exact Hc].
  - rewrite fl_message in Hc. apply vcmds_one, vcmd_retrieveAll_inv in Hc as ->. by destruct v.
  - apply vcmds_not_connected in Hc as [i ->]; [| done]. unfold flooding in *. cbn.
    destruct Ho as [E0 | E0]; rewrite E0 in Hv; [| done].
    destruct Hv as (k & Hk & _ & [[Hse _] | (_ & Hse & _)]); [exists (k + 1) | exists k]; (split; [lia | done]).
  - unfold flooding in *. cbn. destruct Ho as [E0 | E0]; rewrite E0 in *; [| done].
    destruct Hv as (k & Hk & Ha & [[Hse Hr] | (_ & _ & _ & Hw')]); [| congruence].
    exists k. split_and!; [done | done |]. left. cbn. rewrite Hw in Hr. by rewrite Hr.
  - unfold flooding in Hv. destruct (v_state v) eqn:E0; [| done | | done].
    + apply vcmds_not_connected in Hc as [i ->]; [| cbn; congruence]. unfold flooding. cbn. by rewrite E0.
    + destruct Hv as (k & Hk & Ha & [[Hse Hrep] | (_ & _ & Hr' & _)]); [| congruence].
      destruct (v_waiting v) eqn:Hw; [congruence |]. assert (n = 0%nat) as -> by congruence.
      destruct (fl_written _ _ Ha) as [Hcs Ha']. rewrite Hcs in Hc.
      by eapply (next_message (k + 1)); [.. | exact Hc]; first [done | cbn; lia].
  - apply vcmds_nil_inv in Hc as ->. by destruct v.
  - done.
Qed.
End flood.

Section runs.
Context {P E K A : Type} `{!EventFd E, !Socket K, !PollerOps (loop_cb conn_cb) P}.
Context `{!SocketLaws K, !PollerSpec (loop_cb conn_cb) P}.
Local Abbreviation world := (EventLoop conn_cb task P E * rest K A)%type.
Context (on_connection : A -> bool -> A * list cmd) (on_message : A -> list byte -> Z -> A * list cmd)
  (on_writeComplete : A -> A * list cmd) (message : list byte) (counted : A -> Z -> Prop) (self : Z).
Context {Hflood : Flood on_connection on_message on_writeComplete message counted}.

(** What has been handed over is whole messages; while the connection is up and
    the pipe does not break there is always something to do: data that waits for
    the kernel, or the report that the last message was written. *)
Lemma flood_runs a (w w' : world) :
  (forall a b, Forall cmd_ok (on_connection a b).2) -> (forall a, Forall cmd_ok (on_writeComplete a).2) ->
  counted a 0 -> fresh true a w -> runs on_connection on_message on_writeComplete no_mark nobody self w w' ->
  (exists k, 0 <= k /\ stream w' = rounds message k)
  /\ (state_ (the_conn w') = kConnected -> ~ pipe_breaks (K := K) ->
      ~ at_rest w'
      /\ exists k, 0 <= k /\ stream w' = rounds message (k + 1) /\ counted (app w'.2) k).
Proof using Type*.
  intros Hok Hok' Ha Hf Hr.
  destruct (runs_invariant on_connection on_message on_writeComplete no_mark nobody self true Hok
    ltac:(intros; rewrite fl_message; repeat constructor) Hok' ltac:(repeat constructor) ltac:(intros ? [])
    (flooding message counted (pipe_breaks (K := K))) w (View_new a) w')
    as (v & Hv & Hsh); [by intros; eapply flooding_step | done | by apply fresh_shows | done |].
  destruct Hsh as [Hl _ _]. unfold flooding, under_way in Hv.
  rewrite (lk_state _ _ _ Hl), (lk_sent _ _ _ Hl), (lk_waiting _ _ _ Hl), (lk_reports _ _ _ Hl), (lk_app _ _ _ Hl) in Hv.
  destruct (state_ (the_conn w')) eqn:Es; [split; [done | done] | | | done].
  - split; [| done]. exists 0. split; [done |]. apply Hv.
  - destruct Hv as (k & Hk & Hc & Hv). split.
    + destruct Hv as [[-> _] | (_ & -> & _)]; [exists (k + 1) | exists k]; (split; [lia | done]).
    + intros _ Hb. destruct Hv as [[Hst Hrep] | (? & _)]; [| done]. split; [| by exists k].
      intros [Hq Ho]. by rewrite Hq, Ho, bool_decide_eq_true_2 in Hrep.
Qed.
End runs.

(** ** The server and the client *)

#[export] Instance chargen_flood :
  Flood chargen_onConnection chargen_onMessage chargen_onWriteComplete chargen_message
    (fun transferred_ k => transferred_ = s64 (k * zlen chargen_message)).
Proof.
  split; [done | done | | discriminate].
  intros a k ->. split; [done |]. cbn [chargen_onWriteComplete fst]. unfold s64 at 1.
  rewrite AtomicInteger.wraps_add_l by lia. unfold s64. f_equal. lia.
Qed.
#[export] Instance discardClient_flood message_ :
  message_ <> [] ->
  Flood (discardClient_onConnection message_) discardClient_onMessage (discardClient_onWriteComplete message_) message_
    (fun _ _ => True).
Proof. by split. Qed.

Section servers.
Context {P E K : Type} `{!EventFd E, !Socket K, !PollerOps (loop_cb conn_cb) P}.
Context `{!SocketLaws K, !PollerSpec (loop_cb conn_cb) P}.
Local Abbreviation world A := (EventLoop conn_cb task P E * rest K A)%type.

(** The character generator sends its 94 lines again and again, as fast as the
    peer takes them: it never runs dry while the connection is up, and counts
    the messages that were written. *)
Theorem chargen_flows self (w w' : world Z) :
  fresh true 0 w ->
  runs chargen_onConnection chargen_onMessage chargen_onWriteComplete no_mark nobody self w w' ->
  ~ pipe_breaks (K := K) -> state_ (the_conn w') = kConnected ->
  ~ at_rest w'
  /\ exists k, 0 <= k /\ stream w' = rounds chargen_message (k + 1)
       /\ app w'.2 = s64 (k * zlen chargen_message).
Proof using Type*.
  intros Hf Hr Hb Hs.
  destruct (flood_runs chargen_onConnection chargen_onMessage chargen_onWriteComplete chargen_message
    (fun transferred_ k => transferred_ = s64 (k * zlen chargen_message)) self 0 w w') as [_ Hend];
    [intros a []; repeat constructor | repeat constructor | done | done | done |].
  by apply Hend.
Qed.
End servers.

(** RFC 864: 94 lines of 72 characters. *)
Example chargen_message_size : zlen chargen_message = 94 * 73.
Proof. vm_compute. reflexivity. Qed.

(** ** A run: one message at once, the next in pieces *)

Definition demo_chargen := steady_new 7000 [] true 0.
Definition demo_chargen_script : list happening := [NextFunctor; NextFunctor; NextFunctor].
Definition demo_chargen_end :=
  ends chargen_onConnection chargen_onMessage chargen_onWriteComplete no_mark demo_chargen_script demo_chargen.

Lemma demo_chargen_runs :
  is_Some (script chargen_onConnection chargen_onMessage chargen_onWriteComplete no_mark
             demo_chargen_script demo_chargen).
Proof. refine (bool_decide_unpack _ _). vm_compute. exact I. Qed.
Lemma demo_chargen_up : state_ (the_conn demo_chargen_end) = kConnected.
Proof. vm_compute. reflexivity. Qed.
Example demo_chargen_counted : app demo_chargen_end.2 = 2 * 6862.
Proof. vm_compute. reflexivity. Qed.

Lemma chargen_flows_witness :
  ~ at_rest demo_chargen_end
  /\ exists k, 0 <= k /\ stream demo_chargen_end = rounds chargen_message (k + 1)
       /\ app demo_chargen_end.2 = s64 (k * zlen chargen_message).
Proof.
  apply (chargen_flows 5 demo_chargen demo_chargen_end).
  - apply steady_fresh.
  - apply ends_runs; [repeat constructor | apply demo_chargen_runs].
  - apply steady_no_break.
  - exact demo_chargen_up.
Defined.
