(* ===== verification/Finger.v ===== *)
(** * Finger: servers that answer one line

    [examples/twisted/finger/finger03.cc] to [finger07.cc], the steps of a
    tutorial: close at once, close after a line, answer that there is no such
    user, and look the user up.  [AnswersOnce] is what the last four share. *)
From S2P Require Import Prelude Buffer Channel Poller EPollPoller EventLoop TcpConnection ConnSpec OneShot.

(** ** The callbacks *)

(** Only logs. *)
(*@ muduo/muduo/net/TcpConnection.cc 27-33 defaultConnectionCallback *)
Definition defaultConnectionCallback {A} (a : A) (connected : bool) : A * list cmd := (a, []).

(*@ muduo/examples/twisted/finger/finger03.cc 7-13 onConnection *)
Definition finger03_onConnection (a : unit) (connected : bool) : unit * list cmd :=
  if connected then (a, [Shutdown]) else (a, []).

(*@ muduo/examples/twisted/finger/finger04.cc 7-15 onMessage *)
Definition finger04_onMessage (a : unit) (buf : list byte) (receiveTime : Z) : unit * list cmd :=
  match find_sub kCRLF buf with Some _ => (a, [Shutdown]) | None => (a, []) end.

(*@ muduo/examples/twisted/finger/finger05.cc 7-16 onMessage *)
Definition finger05_onMessage (a : unit) (buf : list byte) (receiveTime : Z) : unit * list cmd :=
  match find_sub kCRLF buf with
  | Some _ => (a, [Send (bs "No such user" ++ crlf); Shutdown])
  | None => (a, [])
  end.

(*@ muduo/examples/twisted/finger/finger06.cc 9-10 users *)
Definition UserMap : Type := gmap (list byte) (list byte).
(*@ muduo/examples/twisted/finger/finger06.cc 12-21 getUser *)
Definition getUser (users : UserMap) (user : list byte) : list byte :=
  match users !! user with Some result => result | None => bs "No such user" end.
(*@ muduo/examples/twisted/finger/finger06.cc 23-35 onMessage *)
Definition finger06_onMessage (users : UserMap) (a : unit) (buf : list byte) (receiveTime : Z) : unit * list cmd :=
  match find_sub kCRLF buf with
  | Some pos =>
      let user := ztake pos buf in
      (a, [Send (getUser users user ++ crlf); Retrieve (pos + 2); Shutdown])
  | None => (a, [])
  end.

(** The last step has a user. *)
(*@ muduo/examples/twisted/finger/finger07.cc 37-45 main *)
Definition finger07_users : UserMap := {[ bs "schen" := bs "Happy and well" ]}.
(*@ muduo/examples/twisted/finger/finger07.cc 12-21 getUser *)
Definition finger07_getUser (user : list byte) : list byte :=
  match finger07_users !! user with Some result => result | None => bs "No such user" end.
(*@ muduo/examples/twisted/finger/finger07.cc 23-35 onMessage *)
Definition finger07_onMessage (a : unit) (buf : list byte) (receiveTime : Z) : unit * list cmd :=
  match find_sub kCRLF buf with
  | Some pos =>
      let user := ztake pos buf in
      (a, [Send (finger07_getUser user ++ crlf); Retrieve (pos + 2); Shutdown])
  | None => (a, [])
  end.

(** ** Answering once *)

(** The calls of an answer: perhaps text, perhaps taking the line, the end. *)
Inductive answer (text : list byte) : list cmd -> Prop :=
| answer_end : text = [] -> answer text [Shutdown]
| answer_text : answer text [Send text; Shutdown]
| answer_line n : answer text [Send text; Retrieve n; Shutdown].

Class AnswersOnce {A : Type} (on_message : A -> list byte -> Z -> A * list cmd) (reply : list byte -> list byte)
  : Prop := {
  ao_none a d t : find_sub kCRLF d = None -> on_message a d t = (a, []);
  ao_line a d t i : find_sub kCRLF d = Some i -> answer (reply (ztake i d)) (on_message a d t).2
}.

Section answering.
Context {A : Type} (on_message : A -> list byte -> Z -> A * list cmd) (reply : list byte -> list byte).
Context {Hanswers : AnswersOnce on_message reply}.
Variables (breaks : Prop) (reporting : bool).
Implicit Types v : view A.

Local Abbreviation vnext :=
  (vstep breaks reporting nobody defaultConnectionCallback on_message no_report no_mark).

(** The answer to the first line of what was received. *)
Definition answered v : Prop := exists i,
  find_sub kCRLF (v_received v) = Some i
  /\ (v_sent v = reply (ztake i (v_received v)) \/ (breaks /\ v_sent v = [])).

Definition answering v : Prop :=
  match v_state v with
  | kConnecting => v_sent v = [] /\ v_received v = [] /\ v_input v = [] /\ v_waiting v = false
  | kConnected =>
      v_sent v = [] /\ v_input v = v_received v /\ v_waiting v = false /\ find_sub kCRLF (v_received v) = None
  | kDisconnecting => answered v /\ v_fin v = negb (v_waiting v)
  | kDisconnected => answered v \/ (v_sent v = [] /\ find_sub kCRLF (v_received v) = None)
  end.

Lemma answered_more v d i :
  answered v -> answered (with_in (v_received v ++ d) i v).
Proof using.
  intros (j & Hj & Hs). exists j. cbn. rewrite (find_sub_app_Some _ _ _ _ Hj).
  destruct (crlf_range _ _ Hj). by rewrite ztake_app_l by lia.
Qed.

Lemma end_answer i v v' :
  v_state v = kConnected -> find_sub kCRLF (v_received v) = Some i ->
  v_sent v = reply (ztake i (v_received v)) \/ (breaks /\ v_sent v = []) ->
  vcmd breaks reporting Shutdown v v' -> answering v'.
Proof using.
  intros Hs Hi Hd Hc. rewrite (vcmd_shutdown_inv _ _ _ _ Hc Hs). unfold answering. cbn. split; [by exists i | done].
Qed.

Lemma answer_given i cs v v' :
  v_state v = kConnected -> v_sent v = [] -> v_waiting v = false -> find_sub kCRLF (v_received v) = Some i ->
  answer (reply (ztake i (v_received v))) cs -> vcmds breaks reporting cs v v' -> answering v'.
Proof using.
  intros Hs Hse Hw Hi Hans Hc.
  assert (Hsend : forall v1, vcmd breaks reporting (Send (reply (ztake i (v_received v)))) v v1 ->
    v_state v1 = kConnected /\ v_received v1 = v_received v
    /\ (v_sent v1 = reply (ztake i (v_received v)) \/ (breaks /\ v_sent v1 = []))).
  { intros v1 Hv1. destruct (vcmd_send_inv _ _ _ _ _ Hv1 Hs) as [[_ ->] | [-> | [(Hb & _ & ->) | [Hn ->]]]];
      cbn; rewrite Hse; auto. }
  destruct Hans as [Hn | | n].
  - apply vcmds_one in Hc. eapply (end_answer i v); [done | done | left; congruence | done].
  - apply vcmds_inv in Hc as (v1 & (Hs1 & Hr1 & Hd1)%Hsend & Hc%vcmds_one).
    by eapply (end_answer i v1); [.. | exact Hc]; rewrite ?Hr1.
  - apply vcmds_inv in Hc as (v1 & (Hs1 & Hr1 & Hd1)%Hsend & (v2 & ->%vcmd_retrieve_inv & Hc%vcmds_one)%vcmds_inv).
    by eapply (end_answer i (with_in (v_received v1) _ v1)); [.. | exact Hc]; cbn; rewrite ?Hr1.
Qed.

Lemma answering_step v v' : vnext v v' -> answering v -> answering v'.
Proof using Hanswers.
  intros Hst Hv. destruct Hst as [v v' Hs Hc | d t v v' Ho Hd Hc | v v' Ho Hc | v Ho Hw | n v v' Hr Hs Hc | n v v' Hs Hc | cs v v' [] |];
    unfold vcall in *.
  - apply vcmds_nil_inv in Hc as ->. unfold answering in *. rewrite Hs in Hv. cbn.
    destruct Hv as (Hse & Hre & Hin & Hw). by rewrite Hre, Hin.
  - destruct Ho as [E0 | E0].
    + unfold answering in Hv. rewrite E0 in Hv. destruct Hv as (Hse & Hin & Hw & _).
      destruct (find_sub kCRLF (v_input v ++ d)) as [i |] eqn:Ei.
      * eapply (answer_given i); [.. | exact Hc]; try done; [by cbn; rewrite <- Hin |].
        cbn. rewrite <- Hin. by apply ao_line.
      * rewrite (ao_none _ _ _ Ei) in Hc. apply vcmds_nil_inv in Hc as ->. unfold answering. cbn.
        rewrite E0, <- Hin. by split_and!.
    + apply vcmds_not_connected in Hc as [i ->]; [| by cbn; rewrite E0].
      unfold answering in *. cbn. rewrite E0 in *. destruct Hv as [Ha Hf].
      split; [| done]. exact (answered_more v d i Ha).
  - apply vcmds_nil_inv in Hc as ->. unfold answering in *. cbn.
    destruct Ho as [E0 | E0]; rewrite E0 in Hv; [right | left]; naive_solver.
  - unfold answering in *. cbn. destruct Ho as [E0 | E0]; rewrite E0 in *; [naive_solver congruence |].
    by destruct Hv.
  - apply vcmds_nil_inv in Hc as ->. by destruct v.
  - apply vcmds_nil_inv in Hc as ->. by destruct v.
  - done.
Qed.
End answering.

Section runs.
Context {P E K A : Type} `{!EventFd E, !Socket K, !PollerOps (loop_cb conn_cb) P}.
Context `{!SocketLaws K, !PollerSpec (loop_cb conn_cb) P}.
Local Abbreviation world := (EventLoop conn_cb task P E * rest K A)%type.
Context (on_message : A -> list byte -> Z -> A * list cmd) (reply : list byte -> list byte) (self : Z).
Context {Hanswers : AnswersOnce on_message reply}.

Lemma answers_runs a (w w' : world) :
  (forall a d t, zlen d < 2 ^ 63 -> Forall cmd_ok (on_message a d t).2) -> fresh false a w ->
  runs defaultConnectionCallback on_message no_report no_mark nobody self w w' ->
  ~ pipe_breaks (K := K) -> state_ (the_conn w') <> kConnecting ->
  match find_sub kCRLF (sock_read (sock w'.2)) with
  | None => stream w' = []
  | Some i =>
      stream w' = reply (ztake i (sock_read (sock w'.2)))
      /\ (state_ (the_conn w') <> kDisconnected -> contents (outputBuffer_ (the_conn w')) = [] ->
          complete (reply (ztake i (sock_read (sock w'.2)))) w')
  end.
Proof using Type*.
  intros Hok Hf Hr Hb Hnc.
  destruct (runs_invariant defaultConnectionCallback on_message no_report no_mark nobody self false
    ltac:(repeat constructor) Hok ltac:(repeat constructor) ltac:(repeat constructor) ltac:(intros ? [])
    (answering reply (pipe_breaks (K := K))) w (View_new a) w')
    as (v & Hv & Hsh); [by intros; eapply answering_step | done | by apply fresh_shows | done |].
  destruct Hsh as [Hl _ _]. unfold answering, answered in Hv.
  rewrite (lk_state _ _ _ Hl), (lk_sent _ _ _ Hl), (lk_waiting _ _ _ Hl), (lk_fin _ _ _ Hl), (lk_received _ _ _ Hl) in Hv.
  destruct (state_ (the_conn w')) eqn:Es.
  - destruct Hv as [(i & -> & [Hst | [? _]]) | [Hst ->]]; done.
  - done.
  - by destruct Hv as (-> & _ & _ & ->).
  - destruct Hv as [(i & -> & [Hst | [? _]]) Hfin]; [| done]. split; [done |]. intros _ Ho.
    rewrite Ho in Hfin. split; [| done]. unfold stream in Hst. by rewrite Ho, app_nil_r in Hst.
Qed.
End runs.

(** ** The steps of the tutorial *)

#[export] Instance finger04_answers : AnswersOnce finger04_onMessage (fun _ => []).
Proof.
  split; [by intros a d t; unfold finger04_onMessage; intros -> |].
  intros a d t i. unfold finger04_onMessage. intros ->. by apply answer_end.
Qed.
#[export] Instance finger05_answers : AnswersOnce finger05_onMessage (fun _ => bs "No such user" ++ crlf).
Proof.
  split; [by intros a d t; unfold finger05_onMessage; intros -> |].
  intros a d t i. unfold finger05_onMessage. intros ->. apply answer_text.
Qed.
#[export] Instance finger06_answers users : AnswersOnce (finger06_onMessage users) (fun user => getUser users user ++ crlf).
Proof.
  split; [by intros a d t; unfold finger06_onMessage; intros -> |].
  intros a d t i. unfold finger06_onMessage. intros ->. apply answer_line.
Qed.

(** The last step is the one before with a user. *)
Lemma finger07_is_finger06 : finger07_onMessage = finger06_onMessage finger07_users.
Proof. reflexivity. Qed.

(** A user's text has a length that a string can have. *)
Definition users_ok (users : UserMap) : Prop := forall user text, users !! user = Some text -> zlen text < 2 ^ 62.

Lemma finger06_ok users a d t : users_ok users -> Forall cmd_ok (finger06_onMessage users a d t).2.
Proof.
  intros Hu. unfold finger06_onMessage. destruct (find_sub kCRLF d) as [i |]; repeat constructor. cbn.
  unfold getUser. destruct (users !! _) as [text |] eqn:Et; [| reflexivity].
  rewrite zlen_app. change (zlen crlf) with 2. specialize (Hu _ _ Et). lia.
Qed.

Section finger.
Context {P E K : Type} `{!EventFd E, !Socket K, !PollerOps (loop_cb conn_cb) P}.
Context `{!SocketLaws K, !PollerSpec (loop_cb conn_cb) P}.
Local Abbreviation world := (EventLoop conn_cb task P E * rest K unit)%type.

(** The finger server answers the first line, once: however what the client
    sends is cut into reads and whatever follows, nothing is sent before the
    line has ended, and then exactly the user's text (or that there is none);
    when all of it is written the connection is shut down. *)
Theorem finger_answers users self (w w' : world) :
  users_ok users -> fresh false tt w ->
  runs defaultConnectionCallback (finger06_onMessage users) no_report no_mark nobody self w w' ->
  ~ pipe_breaks (K := K) -> state_ (the_conn w') <> kConnecting ->
  match find_sub kCRLF (sock_read (sock w'.2)) with
  | None => stream w' = []
  | Some i =>
      let text := getUser users (ztake i (sock_read (sock w'.2))) ++ crlf in
      stream w' = text
      /\ (state_ (the_conn w') <> kDisconnected -> contents (outputBuffer_ (the_conn w')) = [] -> complete text w')
  end.
Proof using Type*.
  intros Hu Hf Hr. apply (answers_runs (finger06_onMessage users) (fun user => getUser users user ++ crlf) self tt w w');
    [| done..].
  intros a d t _. by apply finger06_ok.
Qed.
End finger.

(** ** A run: the query in pieces of four bytes *)

Definition demo_finger := steady_new 4 (bs "schen" ++ crlf ++ bs "root") false tt.
Definition demo_finger_script : list happening :=
  [NextFunctor; Ready CbRead 1; Ready CbRead 2; Ready CbRead 3; Ready CbWrite 0; Ready CbWrite 0; Ready CbWrite 0].
Definition demo_finger_end :=
  ends defaultConnectionCallback (finger06_onMessage finger07_users) no_report no_mark demo_finger_script demo_finger.

Lemma demo_finger_runs :
  is_Some (script defaultConnectionCallback (finger06_onMessage finger07_users) no_report no_mark
             demo_finger_script demo_finger).
Proof. refine (bool_decide_unpack _ _). vm_compute. exact I. Qed.
Lemma demo_finger_state : state_ (the_conn demo_finger_end) = kDisconnecting.
Proof. vm_compute. reflexivity. Qed.
Lemma demo_finger_empty : contents (outputBuffer_ (the_conn demo_finger_end)) = [].
Proof. vm_compute. reflexivity. Qed.
Lemma demo_finger_read : sock_read (sock demo_finger_end.2) = bs "schen" ++ crlf ++ bs "root".
Proof. vm_compute. reflexivity. Qed.
Lemma finger07_users_ok : users_ok finger07_users.
Proof. 
  intros user text.
  change (({[ bs "schen" := bs "Happy and well" ]} : gmap (list byte) (list byte)) !! user = Some text -> zlen text < 2 ^ 62).
  rewrite lookup_singleton_Some. intros [_ <-]. reflexivity.
Qed.

Lemma demo_finger_run :
  runs defaultConnectionCallback (finger06_onMessage finger07_users) no_report no_mark nobody 5
    demo_finger demo_finger_end.
Proof. apply ends_runs; [repeat constructor | apply demo_finger_runs]. Qed.

Lemma finger_answers_witness : complete (bs "Happy and well" ++ crlf) demo_finger_end.
Proof.
  pose proof (finger_answers finger07_users 5 demo_finger demo_finger_end finger07_users_ok
    (steady_fresh _ _ _ _) demo_finger_run steady_no_break) as H.
  rewrite demo_finger_state, demo_finger_read in H.
  apply H; [discriminate | discriminate | exact demo_finger_empty].
Defined.
