(* ===== verification/RoundTrip.v ===== *)
(** * RoundTrip: measuring a clock over a connection

    [examples/roundtrip/roundtrip.cc]: the client sends its time five times a
    second, the server adds its own and sends the frame back, and the client logs
    the round trip and how far the two clocks are apart.  Frames are found in
    the stream with the decoder of [Framing]; both ends run on the connection
    of [ConnSpec]. *)
From S2P Require Import Prelude Endian Buffer Channel Poller EPollPoller EventLoop TcpConnection ConnSpec Framing.

(*@ muduo/examples/roundtrip/roundtrip.cc 11-11 frameLen *)
Definition frameLen : Z := 2 * 8.

(** [int64_t message[2]], as the bytes of it are. *)
Definition load_message (frame : list byte) : Z * Z :=
  (s64 (le_val (ztake 8 frame)), s64 (le_val (zslice 8 16 frame))).
Definition store_message (m : Z * Z) : list byte := le_bytes 8 m.1 ++ le_bytes 8 m.2.

(** ** The server *)

(*@ muduo/examples/roundtrip/roundtrip.cc 15-28 serverConnectionCallback *)
Definition serverConnectionCallback (a : unit) (connected : bool) : unit * list cmd := (a, []).

(** The [while], with the bytes as fuel. *)
Fixpoint server_frames (fuel : nat) (buffer : list byte) (receiveTime : Z) : list cmd :=
  match fuel with
  | O => []
  | S fuel =>
      if frameLen <=? zlen buffer
      then
        let message := load_message (ztake frameLen buffer) in
        let message := (message.1, receiveTime) in
        Retrieve frameLen :: Send (store_message message) :: server_frames fuel (zdrop frameLen buffer) receiveTime
      else []
  end.
(*@ muduo/examples/roundtrip/roundtrip.cc 32-48 serverMessageCallback *)
Definition serverMessageCallback (a : unit) (buffer : list byte) (receiveTime : Z) : unit * list cmd :=
  (a, server_frames (S (length buffer)) buffer receiveTime).

(** ** The client *)

(** [clientConnection], and the lines logged: round trip and clock error. *)
Record ClockClient : Type := mkClockClient { clientConnection : bool; readings : list (Z * Z) }.
Definition ClockClient_new : ClockClient := mkClockClient false [].

(*@ muduo/examples/roundtrip/roundtrip.cc 69-86 clientConnectionCallback *)
Definition clientConnectionCallback (a : ClockClient) (connected : bool) : ClockClient * list cmd :=
  (mkClockClient connected (readings a), []).

Definition reading (back : Z) (message : Z * Z) : Z * Z :=
  let send := message.1 in
  let their := message.2 in
  let mine := Z.quot (s64 (back + send)) 2 in
  (s64 (back - send), s64 (their - mine)).

Fixpoint client_frames (fuel : nat) (buffer : list byte) (back : Z) : list (Z * Z) * list cmd :=
  match fuel with
  | O => ([], [])
  | S fuel =>
      if frameLen <=? zlen buffer
      then
        let message := load_message (ztake frameLen buffer) in
        let '(rs, cs) := client_frames fuel (zdrop frameLen buffer) back in
        (reading back message :: rs, Retrieve frameLen :: cs)
      else ([], [])
  end.
(*@ muduo/examples/roundtrip/roundtrip.cc 89-113 clientMessageCallback *)
Definition clientMessageCallback (a : ClockClient) (buffer : list byte) (receiveTime : Z) : ClockClient * list cmd :=
  let '(rs, cs) := client_frames (S (length buffer)) buffer receiveTime in
  (mkClockClient (clientConnection a) (readings a ++ rs), cs).

(** The timer's calls; [clientConnection] is set while the connection is up. *)
(*@ muduo/examples/roundtrip/roundtrip.cc 116-126 sendMyTime *)
Definition sendMyTime (now : Z) : list cmd := [Send (store_message (now, 0))].
Definition timer_sends (cs : list cmd) : Prop := exists now, cs = sendMyTime now.

(** ** Frames in the stream *)

Definition next_frame (l : list byte) : next_result (list byte) :=
  if frameLen <=? zlen l then Got (ztake frameLen l) (zdrop frameLen l) else NeedMore.

#[export] Instance next_frame_stable : StableNext next_frame.
Proof.
  assert (Hpos : 0 < frameLen) by reflexivity. split; unfold next_frame.
  - intros l m rest. destruct (Z.leb_spec frameLen (zlen l)) as [Hle |]; [| done]. intros [= _ <-].
    pose proof (zlen_zdrop frameLen l ltac:(lia)). unfold zlen in *. lia.
  - intros l k m rest. destruct (Z.leb_spec frameLen (zlen l)) as [Hle |]; [| done]. intros [= <- <-].
    rewrite (proj2 (Z.leb_le _ _)) by (rewrite zlen_app; pose proof (zlen_nonneg k); lia).
    by rewrite ztake_app_l, zdrop_app_l by lia.
  - intros l k. by destruct (_ <=? _).
Qed.

(** The whole frames of a stream, and what is left. *)
Definition frames (l : list byte) : list (list byte) := (drain_all next_frame l).1.1.
Definition left_over (l : list byte) : list byte := (drain_all next_frame l).2.

Lemma drain_never_stops fuel : forall l, (drain next_frame fuel l).1.2 = false.
Proof.
  induction fuel as [| fuel IH]; intros l; [done |]. cbn [drain].
  destruct (next_frame l) as [| | m rest] eqn:E; [done | |].
  - unfold next_frame in E. by destruct (_ <=? _).
  - specialize (IH rest). by destruct (drain next_frame fuel rest) as [[ms stop] r].
Qed.
Lemma drain_frames l : drain_all next_frame l = (frames l, false, left_over l).
Proof.
  unfold frames, left_over. pose proof (drain_never_stops (S (length l)) l) as Hs.
  fold (drain_all next_frame l) in Hs. destruct (drain_all next_frame l) as [[ms stop] r]. cbn in *. by subst.
Qed.

Lemma frames_app l k : frames (l ++ k) = frames l ++ frames (left_over l ++ k).
Proof.
  unfold frames at 1. rewrite (drain_app next_frame), drain_frames. cbv iota beta. by rewrite drain_frames.
Qed.
Lemma left_over_app l k : left_over (l ++ k) = left_over (left_over l ++ k).
Proof.
  unfold left_over at 1. rewrite (drain_app next_frame), drain_frames. cbv iota beta. by rewrite drain_frames.
Qed.

(** The loop of the server goes through the frames, and so does the client's. *)
Lemma server_frames_all fuel : forall l t,
  server_frames fuel l t
  = concat (map (fun m => [Retrieve frameLen; Send (store_message ((load_message m).1, t))]) (drain next_frame fuel l).1.1).
Proof.
  induction fuel as [| fuel IH]; intros l t; [done |]. cbn [server_frames drain]. unfold next_frame.
  destruct (frameLen <=? zlen l); [| done]. fold next_frame. rewrite IH.
  by destruct (drain next_frame fuel _) as [[ms stop] r].
Qed.
Lemma client_frames_all fuel : forall l back,
  client_frames fuel l back
  = (map (fun m => reading back (load_message m)) (drain next_frame fuel l).1.1,
     map (fun _ => Retrieve frameLen) (drain next_frame fuel l).1.1).
Proof.
  induction fuel as [| fuel IH]; intros l back; [done |]. cbn [client_frames drain]. unfold next_frame.
  destruct (frameLen <=? zlen l); [| done]. fold next_frame. rewrite IH.
  by destruct (drain next_frame fuel _) as [[ms stop] r].
Qed.

Lemma client_all l back :
  (client_frames (S (length l)) l back).1 = map (fun m => reading back (load_message m)) (frames l).
Proof. by rewrite client_frames_all. Qed.

(** What executing the loops' calls does to the view. *)
Section calls.
Context {A : Type} (breaks : Prop) (reporting : bool).
Implicit Types v : view A.

Lemma frame_here l m rest : next_frame l = Got m rest -> frameLen <= zlen l /\ m = ztake frameLen l /\ rest = zdrop frameLen l.
Proof using. unfold next_frame. destruct (Z.leb_spec frameLen (zlen l)); [| done]. by intros [= <- <-]. Qed.

Lemma retrieve_frame v v' :
  frameLen <= zlen (v_input v) -> vcmd breaks reporting (Retrieve frameLen) v v' ->
  v' = with_in (v_received v) (zdrop frameLen (v_input v)) v.
Proof using.
  intros Hle ->%vcmd_retrieve_inv. do 2 f_equal. unfold frameLen in *. lia.
Qed.

Lemma server_calls t fuel : forall v v',
  v_state v = kConnected ->
  vcmds breaks reporting (server_frames fuel (v_input v) t) v v' ->
  v_state v' = kConnected /\ v_app v' = v_app v /\ v_received v' = v_received v
  /\ v_input v' = (drain next_frame fuel (v_input v)).2
  /\ (breaks \/ v_sent v' = v_sent v
                ++ concat (map (fun m => store_message ((load_message m).1, t)) (drain next_frame fuel (v_input v)).1.1)).
Proof using.
  induction fuel as [| fuel IH]; intros v v' Hs Hc; cbn [server_frames drain] in *.
  { apply vcmds_nil_inv in Hc as ->. cbn. rewrite app_nil_r. by split_and!; [..| right]. }
  unfold next_frame in *. fold next_frame in *.
  destruct (Z.leb_spec frameLen (zlen (v_input v))) as [Hle | _].
  2: { apply vcmds_nil_inv in Hc as ->. cbn. rewrite app_nil_r. by split_and!; [..| right]. }
  apply vcmds_inv in Hc as (v1 & ->%(retrieve_frame _ _ Hle) & (v2 & Hsend & Hc)%vcmds_inv).
  set (text := store_message _) in *.
  assert (H2 : v_state v2 = kConnected /\ v_app v2 = v_app v /\ v_received v2 = v_received v
    /\ v_input v2 = zdrop frameLen (v_input v) /\ (breaks \/ v_sent v2 = v_sent v ++ text)).
  { destruct (vcmd_send_inv _ _ _ _ _ Hsend Hs) as [[_ ->] | [-> | [(Hb & _ & ->) | [Hn ->]]]]; cbn; auto 6. done. }
  destruct H2 as (Hs2 & Ha2 & Hr2 & Hi2 & Hd2). rewrite <- Hi2 in Hc.
  destruct (IH v2 v' Hs2 Hc) as (Hs' & Ha' & Hr' & Hi' & Hd'). rewrite Hi2 in Hi', Hd'.
  destruct (drain next_frame fuel (zdrop frameLen (v_input v))) as [[ms stop] r]. cbn in *.
  split_and!; [done | congruence | congruence | done |].
  destruct Hd2 as [? | Hd2]; [by left |]. destruct Hd' as [? | Hd']; [by left |]. right.
  by rewrite Hd', Hd2, <- app_assoc.
Qed.

Lemma client_calls t fuel : forall v v',
  vcmds breaks reporting (client_frames fuel (v_input v) t).2 v v' ->
  v' = with_in (v_received v) (drain next_frame fuel (v_input v)).2 v.
Proof using.
  induction fuel as [| fuel IH]; intros v v' Hc; cbn [client_frames drain] in *.
  { apply vcmds_nil_inv in Hc as ->. by destruct v. }
  unfold next_frame in *. fold next_frame in *.
  destruct (Z.leb_spec frameLen (zlen (v_input v))) as [Hle | _].
  2: { apply vcmds_nil_inv in Hc as ->. by destruct v. }
  destruct (client_frames fuel (zdrop frameLen (v_input v)) t) as [rs cs] eqn:Ecf. cbn [snd] in Hc.
  apply vcmds_inv in Hc as (v1 & ->%(retrieve_frame _ _ Hle) & Hc).
  specialize (IH (with_in (v_received v) (zdrop frameLen (v_input v)) v) v'). cbn [with_in v_input] in IH.
  rewrite Ecf in IH. rewrite (IH Hc). by destruct (drain next_frame fuel (zdrop frameLen (v_input v))) as [[ms stop] r].
Qed.
End calls.

(** ** The server stamps every frame *)

Definition stamped (fs : list (list byte)) (ts : list Z) : list byte :=
  concat (zip_with (fun m t => store_message ((load_message m).1, t)) fs ts).

Lemma stamped_more fs ts gs t :
  length ts = length fs ->
  stamped fs ts ++ concat (map (fun m => store_message ((load_message m).1, t)) gs)
  = stamped (fs ++ gs) (ts ++ replicate (length gs) t).
Proof.
  intros Hl. unfold stamped. rewrite zip_with_app, concat_app by done. do 2 f_equal.
  induction gs as [| g gs IH]; [done |]. cbn [map length replicate zip_with]. by rewrite IH.
Qed.

(** Every whole frame has been answered, with a time in its second half; the
    rest of the input waits for more. *)
Definition stamping (breaks : Prop) (v : view unit) : Prop :=
  let answered := breaks \/ exists ts, length ts = length (frames (v_received v))
                                /\ v_sent v = stamped (frames (v_received v)) ts in
  match v_state v with
  | kConnecting => v_sent v = [] /\ v_received v = [] /\ v_input v = []
  | kConnected => v_input v = left_over (v_received v) /\ answered
  | kDisconnecting => False
  | kDisconnected => answered
  end.

Lemma stamping_step breaks v v' :
  vstep breaks false nobody serverConnectionCallback serverMessageCallback no_report no_mark v v' ->
  stamping breaks v -> stamping breaks v'.
Proof.
  intros Hst Hv. destruct Hst as [v v' Hs Hc | d t v v' Ho Hd Hc | v v' Ho Hc | v Ho Hw | k v v' Hr Hs Hc | k v v' Hs Hc | cs v v' [] |];
    unfold vcall in *.
  - apply vcmds_nil_inv in Hc as ->. unfold stamping in *. rewrite Hs in Hv. cbn. destruct Hv as (-> & -> & ->).
    split; [done |]. right. by exists [].
  - unfold stamping in Hv. destruct Ho as [E0 | E0]; rewrite E0 in Hv; [| done]. destruct Hv as [Hin Hans].
    cbn [serverMessageCallback fst snd] in Hc.
    destruct (server_calls breaks false t _ (with_vapp (v_app v) (with_in (v_received v ++ d) (v_input v ++ d) v)) v' E0 Hc)
      as (Hs' & _ & Hr' & Hi' & Hd'). cbn [with_vapp with_in v_input v_received v_sent] in *.
    fold (drain_all next_frame (v_input v ++ d)) in Hi', Hd'. rewrite drain_frames in Hi', Hd'. cbn [fst snd] in Hi', Hd'.
    unfold stamping. rewrite Hs', Hr', Hi', Hin, <- left_over_app. split; [done |].
    rewrite Hin in Hd'.
    destruct Hans as [? | (ts & Hts & Hse)]; [by left |]. destruct Hd' as [? | ->]; [by left |]. right.
    rewrite frames_app. exists (ts ++ replicate (length (frames (left_over (v_received v) ++ d))) t).
    split; [by rewrite !length_app, length_replicate, Hts | by rewrite Hse, stamped_more].
  - apply vcmds_nil_inv in Hc as ->. unfold stamping in *. cbn.
    destruct Ho as [E0 | E0]; rewrite E0 in Hv; [apply Hv | done].
  - by destruct v.
  - apply vcmds_nil_inv in Hc as ->. by destruct v.
  - apply vcmds_nil_inv in Hc as ->. by destruct v.
  - done.
Qed.

Lemma server_frames_ok fuel : forall l t, Forall cmd_ok (server_frames fuel l t).
Proof.
  induction fuel as [| fuel IH]; intros l t; cbn [server_frames]; [constructor |].
  destruct (_ <=? _); [| constructor]. constructor; [done |]. constructor; [reflexivity | apply IH].
Qed.
Lemma client_frames_ok fuel : forall l t, Forall cmd_ok (client_frames fuel l t).2.
Proof.
  induction fuel as [| fuel IH]; intros l t; cbn [client_frames]; [constructor |].
  destruct (_ <=? _); [| constructor]. specialize (IH (zdrop frameLen l) t).
  destruct (client_frames fuel (zdrop frameLen l) t) as [rs cs]. by constructor.
Qed.

(** ** The client measures *)

(** When the first [n] bytes had been read: the time of the first reading event
    after which they were. *)
Fixpoint read_time (reads : list (Z * Z)) (n : Z) : Z :=
  match reads with
  | [] => 0
  | (total, t) :: reads => if n <=? total then t else read_time reads n
  end.

Definition latest (reads : list (Z * Z)) : Z := foldr (fun r m => Z.max r.1 m) 0 reads.

Lemma read_time_known reads more n : n <= latest reads -> 0 < n -> read_time (reads ++ more) n = read_time reads n.
Proof.
  induction reads as [| [total t] reads IH]; cbn; [lia |]. intros Hn Hp.
  destruct (Z.leb_spec n total); [done |]. apply IH; [unfold latest; lia | done].
Qed.
Lemma read_time_new reads total t n : latest reads < n <= total -> read_time (reads ++ [(total, t)]) n = t.
Proof.
  induction reads as [| [total' t'] reads IH]; cbn; intros Hn.
  - by rewrite (proj2 (Z.leb_le _ _)) by lia.
  - rewrite (proj2 (Z.leb_gt n total')) by (unfold latest in *; lia). apply IH. unfold latest in *. lia.
Qed.
Lemma latest_more reads total t : latest (reads ++ [(total, t)]) = Z.max (latest reads) (Z.max total 0).
Proof.
  unfold latest. rewrite foldr_snoc. cbn [fst]. induction reads as [| r reads IH]; cbn [foldr]; [lia |]. rewrite IH. lia.
Qed.

(** One reading per frame, of the time at which the frame was complete. *)
Definition measured (reads : list (Z * Z)) (l : list byte) : list (Z * Z) :=
  imap (fun i m => reading (read_time reads (frameLen * (Z.of_nat i + 1))) (load_message m)) (frames l).

(** As many frames as there is room for. *)
Lemma drain_length fuel : forall l,
  (length l < fuel)%nat ->
  Z.of_nat (length (drain next_frame fuel l).1.1) = zlen l / frameLen.
Proof.
  assert (Hpos : frameLen = 16) by reflexivity.
  induction fuel as [| fuel IH]; intros l Hl; [lia |]. cbn [drain]. unfold next_frame. rewrite Hpos.
  pose proof (zlen_nonneg l). destruct (Z.leb_spec 16 (zlen l)) as [Hle | Hgt].
  - rewrite <- Hpos. fold next_frame. rewrite Hpos.
    pose proof (zlen_zdrop 16 l ltac:(lia)) as Hd. specialize (IH (zdrop 16 l)).
    rewrite Hd, Hpos in IH. destruct (drain next_frame fuel (zdrop 16 l)) as [[ms stop] r]. cbn [fst length] in *.
    rewrite Nat2Z.inj_succ, IH by (unfold zlen in *; lia).
    replace (zlen l - 16) with (zlen l + (-1) * 16) by lia. rewrite Z.div_add by lia. lia.
  - cbn. rewrite Z.div_small; lia.
Qed.
Lemma frames_length l : Z.of_nat (length (frames l)) = zlen l / frameLen.
Proof. apply drain_length. lia. Qed.

Lemma frame_complete l i : (i < length (frames l))%nat <-> frameLen * (Z.of_nat i + 1) <= zlen l.
Proof.
  pose proof (frames_length l) as Hl. assert (Hpos : frameLen = 16) by reflexivity. rewrite Hpos in *.
  pose proof (Z.div_mod (zlen l) 16 ltac:(lia)). pose proof (Z.mod_pos_bound (zlen l) 16 ltac:(lia)). lia.
Qed.

Lemma measured_more reads l d t :
  latest reads = zlen l ->
  measured reads l ++ map (fun m => reading t (load_message m)) (frames (left_over l ++ d))
  = measured (reads ++ [(zlen (l ++ d), t)]) (l ++ d).
Proof.
  intros Hl. unfold measured. rewrite (frames_app l d), imap_app. f_equal.
  - apply imap_ext. intros i m Hi. cbn. rewrite read_time_known; [done | | unfold frameLen; lia].
    rewrite Hl. apply frame_complete. by eapply lookup_lt_Some.
  - rewrite <- imap_const. apply imap_ext. intros i m Hi. cbn. rewrite read_time_new; [done |].
    apply lookup_lt_Some in Hi. split.
    + rewrite Hl. apply Z.nle_gt. rewrite <- frame_complete. lia.
    + apply frame_complete. rewrite (frames_app l d), length_app. lia.
Qed.

(** The readings so far; everything that has been read was read by now. *)
Record measuring (reads : list (Z * Z)) (v : view ClockClient) : Prop := {
  me_latest : latest reads = zlen (v_received v);
  me_readings : readings (v_app v) = measured reads (v_received v);
  me_input : v_state v <> kDisconnected -> v_input v = left_over (v_received v) /\ v_state v <> kDisconnecting
}.

Lemma measuring_same reads v v' :
  v_received v' = v_received v -> readings (v_app v') = readings (v_app v) ->
  (v_state v' <> kDisconnected ->
     v_state v <> kDisconnected /\ v_input v' = v_input v /\ (v_state v <> kDisconnecting -> v_state v' <> kDisconnecting)) ->
  measuring reads v -> measuring reads v'.
Proof.
  intros Hr Ha Hi [Hl Hm Hin]. split; rewrite ?Hr, ?Ha; [done | done |].
  intros Hn. destruct (Hi Hn) as (Hn0 & -> & Hd). destruct (Hin Hn0). auto.
Qed.

(** Reading what is left after a message, and what waits in front of it. *)
Lemma measuring_read (breaks : Prop) reads d t v v' :
  open_state (v_state v) ->
  vcall breaks false (clientMessageCallback (v_app v) (v_input v ++ d) t) (with_in (v_received v ++ d) (v_input v ++ d) v) v' ->
  measuring reads v -> measuring (reads ++ [(zlen (v_received v'), t)]) v'.
Proof.
  intros Ho Hc [Hl Hm Hin]. unfold vcall, clientMessageCallback in Hc.
  pose proof (client_all (v_input v ++ d) t) as Hrs.
  destruct (client_frames _ _ _) as [rs cs] eqn:Ecf. cbn [fst snd] in Hc, Hrs.
  assert (Hcs : cs = (client_frames (S (length (v_input v ++ d))) (v_input v ++ d) t).2) by (by rewrite Ecf).
  rewrite Hcs in Hc.
  apply (client_calls breaks false t _ (with_vapp (mkClockClient _ _) (with_in (v_received v ++ d) (v_input v ++ d) v))) in Hc.
  change (v' = with_in (v_received v ++ d) (left_over (v_input v ++ d))
    (with_vapp (mkClockClient (clientConnection (v_app v)) (readings (v_app v) ++ rs)) v)) in Hc. rewrite Hc.
  destruct Hin as [Hin Hnd]; [by destruct Ho as [-> | ->] |].
  split; cbn [with_in with_vapp v_received v_app v_input v_state readings].
  - rewrite latest_more, Hl, zlen_app. pose proof (zlen_nonneg (v_received v)). pose proof (zlen_nonneg d). lia.
  - by rewrite Hm, Hrs, Hin, measured_more.
  - by rewrite Hin, <- left_over_app.
Qed.

(** An event that reads nothing. *)
Lemma measuring_quiet breaks reads v v' :
  vstep breaks false timer_sends clientConnectionCallback clientMessageCallback no_report no_mark v v' ->
  v_received v' = v_received v -> measuring reads v -> measuring reads v'.
Proof.
  intros Hst Hre Hv. destruct Hst as [v v' Hs Hc | d t v v' Ho Hd Hc | v v' Ho Hc | v Ho Hw | k v v' Hr Hs Hc | k v v' Hs Hc | cs v v' [now ->] Hs Hc |];
    unfold vcall in *.
  - apply vcmds_nil_inv in Hc as ->. apply (measuring_same reads v); [done.. | | done]. intros _. by rewrite Hs.
  - apply vcmds_received in Hc. rewrite Hre in Hc. cbn in Hc.
    apply (f_equal length) in Hc. rewrite length_app in Hc. destruct d; [done | cbn in Hc; lia].
  - apply vcmds_nil_inv in Hc as ->. apply (measuring_same reads v); [done.. | | done]. by intros [].
  - by apply (measuring_same reads v).
  - apply vcmds_nil_inv in Hc as ->. by apply (measuring_same reads v).
  - apply vcmds_nil_inv in Hc as ->. by apply (measuring_same reads v).
  - apply vcmds_one in Hc. destruct (decide (v_state v = kConnected)) as [E0 | E0].
    + destruct (vcmd_send_inv _ _ _ _ _ Hc E0) as [[_ ->] | [-> | [(_ & _ & ->) | [_ ->]]]]; by apply (measuring_same reads v).
    + apply vcmd_not_connected in Hc as Hk; [| done]. inversion Hc; subst; done.
  - done.
Qed.

(** A reading event of time [t]: a message, or the end of the stream. *)
Lemma measuring_step breaks reads t v v' :
  vstep breaks false timer_sends clientConnectionCallback (fun a d _ => clientMessageCallback a d t) no_report no_mark v v' ->
  measuring reads v -> measuring (reads ++ [(zlen (v_received v'), t)]) v'.
Proof.
  intros Hst Hv.
  assert (Hq : forall u, v_received u = v_received v ->
    vstep breaks false timer_sends clientConnectionCallback clientMessageCallback no_report no_mark v u ->
    measuring (reads ++ [(zlen (v_received u), t)]) u).
  { intros u Hre Hu. destruct (measuring_quiet breaks reads v u Hu Hre Hv) as [Hl Hm Hin].
    split; [rewrite latest_more, Hl; pose proof (zlen_nonneg (v_received u)); lia | | done].
    rewrite Hm. apply imap_ext. intros i m Hi. cbn. rewrite read_time_known; [done | | unfold frameLen; lia].
    rewrite Hl. apply frame_complete. by eapply lookup_lt_Some. }
  destruct Hst as [v v' Hs Hc | d t' v v' Ho Hd Hc | v v' Ho Hc | v Ho Hw | k v v' Hr Hs Hc | k v v' Hs Hc | cs v v' Hout Hs Hc |].
  - apply Hq; [exact (vcmds_received _ _ _ _ _ Hc) | by apply v_up].
  - by eapply measuring_read.
  - apply Hq; [exact (vcmds_received _ _ _ _ _ Hc) | by apply v_close].
  - apply Hq; [done | by apply v_drained].
  - apply Hq; [exact (vcmds_received _ _ _ _ _ Hc) | by eapply v_report].
  - apply Hq; [exact (vcmds_received _ _ _ _ _ Hc) | by eapply v_mark].
  - apply Hq; [exact (vcmds_received _ _ _ _ _ Hc) | by eapply v_call].
  - apply Hq; [done | apply v_idle].
Qed.

(** ** Streams of messages *)

Lemma zlen_store m : zlen (store_message m) = frameLen.
Proof. unfold store_message. by rewrite zlen_app, !zlen_le_bytes. Qed.

Lemma le_val_s64 z : s64 (le_val (le_bytes 8 z)) = s64 z.
Proof. rewrite le_val_bytes, pow256. change (8 * Z.of_nat 8) with 64. apply (wraps_wrapu 64). Qed.

Lemma load_store m : load_message (store_message m) = (s64 m.1, s64 m.2).
Proof.
  unfold load_message, store_message. pose proof (zlen_le_bytes 8 m.1) as H1. pose proof (zlen_le_bytes 8 m.2) as H2.
  rewrite ztake_app_l, ztake_all by lia. rewrite zslice_app_r by lia. rewrite H1.
  change (8 - Z.of_nat 8) with 0. change (16 - Z.of_nat 8) with (Z.of_nat 8). rewrite <- H2, zslice_full.
  by rewrite !le_val_s64.
Qed.

Lemma next_store m k : next_frame (store_message m ++ k) = Got (store_message m) k.
Proof.
  pose proof (zlen_store m) as Hl. pose proof (zlen_nonneg k). unfold next_frame.
  rewrite (proj2 (Z.leb_le _ _)) by (rewrite zlen_app; lia).
  rewrite ztake_app_l, ztake_all, zdrop_app_r by lia. by rewrite Hl, Z.sub_diag, zdrop_0.
Qed.

(** A prefix of a stream of messages has the first of them as its frames. *)
Lemma frames_of_stream ms l :
  l `prefix_of` concat (map store_message ms) ->
  exists n, (n <= length ms)%nat /\ Z.of_nat n = zlen l / frameLen /\ frames l = map store_message (take n ms).
Proof.
  intros [w Hw]. symmetry in Hw.
  destruct (drain_part next_frame id (map store_message ms) l w) as (fs & gs & r & Heq & Hd & _).
  - intros m k (x & -> & _)%list_elem_of_fmap. apply next_store.
  - intros m l' k (x & -> & _)%list_elem_of_fmap Hm Hk. unfold next_frame.
    apply (f_equal zlen) in Hm. rewrite zlen_app in Hm. cbn [id] in Hm. rewrite zlen_store in Hm.
    assert (0 < zlen k) by (destruct k; [done | unfold zlen; cbn; lia]).
    by rewrite (proj2 (Z.leb_gt _ _)) by lia.
  - done.
  - by rewrite map_id.
  - exists (length fs). unfold frames. rewrite Hd. cbn [fst].
    split; [apply (f_equal length) in Heq; rewrite length_map, length_app in Heq; lia |].
    split; [rewrite <- frames_length; unfold frames; by rewrite Hd |].
    rewrite <- firstn_map, Heq. by rewrite take_app_length.
Qed.

(** ** Properties *)

(** The server's clock is [theta] ahead of the client's and read the frame
    between its sending and its return: then the logged error is [theta] up to
    half the round trip (and the rounding of a half). *)
Lemma reading_error back m theta :
  0 <= m.1 < 2 ^ 62 -> 0 <= m.2 < 2 ^ 62 -> 0 <= back < 2 ^ 62 -> m.1 <= m.2 - theta <= back ->
  (reading back m).1 = back - m.1 /\ 2 * Z.abs ((reading back m).2 - theta) <= back - m.1 + 1.
Proof.
  intros H1 H2 Hb Hm. unfold reading. cbn [fst snd].
  rewrite !(s64_small (back + _)), s64_small by lia.
  pose proof (Z.quot_rem' (back + m.1) 2) as Hq. pose proof (Z.rem_bound_pos (back + m.1) 2 ltac:(lia) ltac:(lia)) as Hr.
  rewrite s64_small by lia. split; [done | lia].
Qed.

Section ends.
Context {P E K : Type} `{!EventFd E, !Socket K, !PollerOps (loop_cb conn_cb) P}.
Context `{!SocketLaws K, !PollerSpec (loop_cb conn_cb) P}.
Local Abbreviation world A := (EventLoop conn_cb task P E * rest K A)%type.

(** The server answers every frame once, in order, as soon as all of it is
    there: its own time in the second half, the first half unchanged. *)
Theorem clock_server_answers self nows (w w' : world unit) :
  fresh false tt w ->
  runs serverConnectionCallback serverMessageCallback no_report no_mark nobody self w w' ->
  ~ pipe_breaks (K := K) -> state_ (the_conn w') <> kConnecting ->
  sock_read (sock w'.2) `prefix_of` concat (map (fun n => store_message (n, 0)) nows) ->
  exists n ts, (n <= length nows)%nat /\ Z.of_nat n = zlen (sock_read (sock w'.2)) / frameLen /\ length ts = n
    /\ stream w' = concat (map store_message (zip_with (fun now t => (s64 now, t)) (take n nows) ts)).
Proof using Type*.
  intros Hf Hr Hb Hnc Hp.
  destruct (runs_invariant serverConnectionCallback serverMessageCallback no_report no_mark nobody self false
    ltac:(repeat constructor) ltac:(intros a d t _; apply server_frames_ok) ltac:(repeat constructor)
    ltac:(repeat constructor) ltac:(intros ? []) (stamping (pipe_breaks (K := K))) w (View_new tt) w')
    as (v & Hv & Hsh); [by intros; eapply stamping_step | done | by apply fresh_shows | done |].
  destruct Hsh as [Hl _ _]. unfold stamping in Hv.
  rewrite (lk_state _ _ _ Hl), (lk_sent _ _ _ Hl), (lk_received _ _ _ Hl) in Hv.
  assert (Hans : exists ts, length ts = length (frames (sock_read (sock w'.2)))
    /\ stream w' = stamped (frames (sock_read (sock w'.2))) ts).
  { destruct (state_ (the_conn w')); [by destruct Hv as [? | Hv] | done | by destruct Hv as [_ [? | Hv]] | done]. }
  destruct Hans as (ts & Hts & ->).
  replace (map (fun n => store_message (n, 0)) nows) with (map store_message (map (fun n => (n, 0)) nows)) in Hp
    by (by rewrite map_map).
  destruct (frames_of_stream _ _ Hp) as (n & Hn & Hcount & Hfr). rewrite length_map in Hn. rewrite Hfr in Hts |- *.
  rewrite length_map, length_take, length_map, Nat.min_l in Hts by lia.
  exists n, ts. split_and!; [done | done | done |]. unfold stamped. f_equal. rewrite firstn_map, map_map.
  clear -Hts. revert ts n Hts.
  induction nows as [| now nows IH]; intros ts n Hts; [by rewrite take_nil |].
  destruct n as [| n], ts as [| t ts]; try done. cbn [take map zip_with]. rewrite load_store. cbn [fst].
  f_equal. apply IH. by injection Hts.
Qed.

(** C37: The client logs one reading per message that came back whole, in order,
    and no other.  The reading of a message takes for the time at which it is
    back the receive time of the reading event that completed the message (the
    first after which all its bytes had been read, [read_time]): the round trip
    logged is that time less the time in the message's first half, and, where
    the server read its clock, [theta] ahead, between the two, the clock error
    logged is [theta] up to half the round trip.  In every run of a new
    connection whose socket delivers a prefix of messages [ms] with times below
    2^62, in whatever pieces; [reads] are the reading events. *)
Theorem clock_client_measures self ms reads (w w' : world ClockClient) :
  fresh false ClockClient_new w ->
  timed_runs clientConnectionCallback clientMessageCallback no_report no_mark timer_sends self w reads w' ->
  sock_read (sock w'.2) `prefix_of` concat (map store_message ms) ->
  Forall (fun m => 0 <= m.1 < 2 ^ 62 /\ 0 <= m.2 < 2 ^ 62) ms ->
  let back i := read_time reads (frameLen * (Z.of_nat i + 1)) in
  exists n, (n <= length ms)%nat /\ Z.of_nat n = zlen (sock_read (sock w'.2)) / frameLen
    /\ readings (app w'.2) = imap (fun i m => reading (back i) m) (take n ms)
    /\ forall i m theta, take n ms !! i = Some m -> 0 <= back i < 2 ^ 62 -> m.1 <= m.2 - theta <= back i ->
         exists r, readings (app w'.2) !! i = Some r /\ r.1 = back i - m.1 /\ 2 * Z.abs (r.2 - theta) <= r.1 + 1.
Proof using Type*.
  intros Hf Hr Hp Hms back.
  destruct (timed_invariant clientConnectionCallback clientMessageCallback no_report no_mark timer_sends self false
    ltac:(repeat constructor)
    ltac:(intros a d t _; pose proof (client_frames_ok (S (length d)) d t); unfold clientMessageCallback;
          by destruct (client_frames _ _ _)) ltac:(repeat constructor)
    ltac:(repeat constructor) ltac:(intros cs [now ->]; repeat constructor) measuring reads w (View_new ClockClient_new) w')
    as (v & [_ Hm _] & [Hl _ _]);
    [by intros; eapply measuring_step | by intros; eapply measuring_quiet | done | by apply fresh_shows | done |].
  rewrite (lk_received _ _ _ Hl), (lk_app _ _ _ Hl) in Hm.
  destruct (frames_of_stream _ _ Hp) as (n & Hn & Hcount & Hfr). unfold measured in Hm. rewrite Hfr, imap_fmap in Hm.
  pose proof (Forall_take _ n _ Hms) as Hok.
  assert (Hrd : readings (app w'.2) = imap (fun i m => reading (back i) m) (take n ms)).
  { rewrite Hm. apply imap_ext. intros i m Hi. destruct (proj1 (Forall_lookup _ _) Hok i m Hi).
    change (reading (back i) (load_message (store_message m)) = reading (back i) m). rewrite load_store, !s64_small by lia. by destruct m. }
  exists n. split_and!; [done | done | done |].
  intros i m theta Him Hib Hmb. destruct (proj1 (Forall_lookup _ _) Hok i m Him) as [H1 H2].
  exists (reading (back i) m). destruct (reading_error (back i) m theta H1 H2 Hib Hmb) as [Hr1 Hr2].
  split_and!; [| done | by rewrite Hr1]. by rewrite Hrd, list_lookup_imap, Him.
Qed.
End ends.

(** ** Runs *)

(** The server gets two frames in pieces of twenty bytes. *)
Definition demo_pings : list Z := [1000; 200000].
Definition demo_server := steady_new 20 (concat (map (fun n => store_message (n, 0)) demo_pings)) false tt.
Definition demo_server_script : list happening := [NextFunctor; Ready CbRead 7000; Ready CbRead 207000].
Definition demo_server_end :=
  ends serverConnectionCallback serverMessageCallback no_report no_mark demo_server_script demo_server.

Lemma demo_server_runs :
  runs serverConnectionCallback serverMessageCallback no_report no_mark nobody 5 demo_server demo_server_end.
Proof. apply ends_runs; [repeat constructor | refine (bool_decide_unpack _ _); vm_compute; exact I]. Qed.
Lemma demo_server_up : state_ (the_conn demo_server_end) <> kConnecting.
Proof. vm_compute. discriminate. Qed.
Lemma demo_server_read :
  sock_read (sock demo_server_end.2) `prefix_of` concat (map (fun n => store_message (n, 0)) demo_pings).
Proof. refine (bool_decide_unpack _ _). vm_compute. exact I. Qed.
Example demo_server_said : stream demo_server_end = concat (map store_message [(1000, 7000); (200000, 207000)]).
Proof. vm_compute. reflexivity. Qed.

Lemma clock_server_answers_witness :
  exists n ts, (n <= 2)%nat /\ Z.of_nat n = zlen (sock_read (sock demo_server_end.2)) / frameLen /\ length ts = n
    /\ stream demo_server_end
       = concat (map store_message (zip_with (fun now t => (s64 now, t)) (take n demo_pings) ts)).
Proof.
  apply (clock_server_answers 5 demo_pings demo_server demo_server_end).
  - apply steady_fresh.
  - exact demo_server_runs.
  - apply steady_no_break.
  - exact demo_server_up.
  - exact demo_server_read.
Defined.

(** The client, 5000 microseconds behind: its frame of time 1000 was stamped
    7000 and is back at 3000; the timer sends another one in between. *)
Definition demo_messages : list (Z * Z) := [(1000, 7000)].
Definition demo_clock := steady_new 10 (concat (map store_message demo_messages)) false ClockClient_new.
Definition demo_clock_script : list happening :=
  [NextFunctor; Call (sendMyTime 1000); Ready CbRead 2500; Ready CbRead 3000].
Definition demo_clock_end :=
  ends clientConnectionCallback clientMessageCallback no_report no_mark demo_clock_script demo_clock.

(** The ten bytes read at 2500 are not a frame; the others came at 3000. *)
Definition demo_clock_reads : list (Z * Z) := [(10, 2500); (16, 3000)].

Lemma demo_clock_runs :
  timed_runs clientConnectionCallback clientMessageCallback no_report no_mark timer_sends 5
    demo_clock demo_clock_reads demo_clock_end.
Proof.
  replace demo_clock_reads with (script_reads clientConnectionCallback clientMessageCallback no_report no_mark
    demo_clock_script demo_clock) by (vm_compute; reflexivity).
  apply ends_timed; [| refine (bool_decide_unpack _ _); vm_compute; exact I].
  repeat constructor. by exists 1000.
Qed.
Lemma demo_clock_read : sock_read (sock demo_clock_end.2) `prefix_of` concat (map store_message demo_messages).
Proof. refine (bool_decide_unpack _ _). vm_compute. exact I. Qed.
Lemma demo_clock_messages : Forall (fun m => 0 <= m.1 < 2 ^ 62 /\ 0 <= m.2 < 2 ^ 62) demo_messages.
Proof. repeat constructor; cbn; lia. Qed.
Example demo_clock_reading : readings (app demo_clock_end.2) = [(2000, 5000)].
Proof. vm_compute. reflexivity. Qed.

Lemma clock_client_measures_witness :
  let back i := read_time demo_clock_reads (frameLen * (Z.of_nat i + 1)) in
  back 0%nat = 3000
  /\ exists n, (n <= length demo_messages)%nat /\ Z.of_nat n = zlen (sock_read (sock demo_clock_end.2)) / frameLen
    /\ readings (app demo_clock_end.2) = imap (fun i m => reading (back i) m) (take n demo_messages)
    /\ forall i m theta, take n demo_messages !! i = Some m -> 0 <= back i < 2 ^ 62 ->
         m.1 <= m.2 - theta <= back i ->
         exists r, readings (app demo_clock_end.2) !! i = Some r /\ r.1 = back i - m.1 /\ 2 * Z.abs (r.2 - theta) <= r.1 + 1.
Proof.
  split; [reflexivity |].
  apply (clock_client_measures 5 demo_messages demo_clock_reads demo_clock demo_clock_end).
  - apply steady_fresh.
  - exact demo_clock_runs.
  - exact demo_clock_read.
  - exact demo_clock_messages.
Defined.
