(* ===== verification/Sockets.v ===== *)
(** * Sockets: addresses, and the socket calls with their error handling

    [muduo/net/SocketsOps.cc], [Socket.cc], [InetAddress.cc].  The kernel's
    side of a call is the class [Net]; what the components rely on, the class
    [NetLaws]: which descriptors are open, that a new one is not one of them,
    and that only closing ends one. *)
From stdpp Require Import fin_sets.
From S2P Require Import Prelude Endian Format.

(** ** Errors *)

Definition EPERM : Z := 1.
Definition EINTR : Z := 4.
Definition EBADF : Z := 9.
Definition EAGAIN : Z := 11.
Definition ENOMEM : Z := 12.
Definition EACCES : Z := 13.
Definition EFAULT : Z := 14.
Definition EINVAL : Z := 22.
Definition ENFILE : Z := 23.
Definition EMFILE : Z := 24.
Definition EPROTO : Z := 71.
Definition ENOTSOCK : Z := 88.
Definition EOPNOTSUPP : Z := 95.
Definition EAFNOSUPPORT : Z := 97.
Definition EADDRINUSE : Z := 98.
Definition EADDRNOTAVAIL : Z := 99.
Definition ENETUNREACH : Z := 101.
Definition ECONNABORTED : Z := 103.
Definition ENOBUFS : Z := 105.
Definition EISCONN : Z := 106.
Definition ECONNREFUSED : Z := 111.
Definition EALREADY : Z := 114.
Definition EINPROGRESS : Z := 115.

Definition one_of (e : Z) (l : list Z) : bool := bool_decide (e ∈ l).

(** ** Addresses *)

(** [struct sockaddr_in]; port and address as they are in memory, in network
    byte order. *)
Record sockaddr_in : Type := mkAddr { sin_family : Z; sin_port : Z; s_addr : Z }.
#[export] Instance sockaddr_in_eq_dec : EqDecision sockaddr_in.
Proof. solve_decision. Defined.

Definition AF_INET : Z := 2.
Definition INADDR_ANY : Z := 0.
(** [bzero]. *)
Definition zero_addr : sockaddr_in := mkAddr 0 0 0.

Definition DOT : byte := Byte.x2e.

(** inet_ntop(3) for [AF_INET]: the four bytes in memory order, in decimal. *)
Fixpoint dotted (l : list byte) : list byte :=
  match l with
  | [] => []
  | [b] => dec_u (byte_val b)
  | b :: l => dec_u (byte_val b) ++ [DOT] ++ dotted l
  end.
Definition inet_ntop (addr : Z) : list byte := dotted (le_bytes 4 addr).

(** inet_pton(3): four decimal numbers of at most three digits, at most 255 and
    without superfluous zeros, between dots. *)
Fixpoint split_on (c : byte) (l : list byte) : list (list byte) :=
  match l with
  | [] => [[]]
  | b :: l =>
      if decide (b = c) then [] :: split_on c l
      else match split_on c l with x :: xs => (b :: x) :: xs | [] => [[b]] end
  end.
Definition octet (l : list byte) : option byte :=
  if forallb is_digit l && (1 <=? zlen l) && (zlen l <=? 3) && (dec_val l <=? 255)
     && bool_decide (l = dec_u (dec_val l))
  then Some (byte_of (dec_val l)) else None.
Definition inet_pton (ip : list byte) : option Z := le_val <$> mapM octet (split_on DOT ip).

(*@ muduo/muduo/net/SocketsOps.cc 193-198 sockets::toIp *)
Definition toIp (size : Z) (addr : sockaddr_in) : res (list byte) :=
  assert_ (16 <=? size);;
  mret (inet_ntop (s_addr addr)).

(*@ muduo/muduo/net/SocketsOps.cc 184-191 sockets::toIpPort *)
Definition toIpPort (size : Z) (addr : sockaddr_in) : res (list byte) :=
  host ← toIp 16 addr;
  let port := networkToHost16 (sin_port addr) in
  mret (snprintf size (host ++ [COLON] ++ dec port)).

(** An address that cannot be parsed is logged and stays 0. *)
(*@ muduo/muduo/net/SocketsOps.cc 200-209 sockets::fromIpPort *)
Definition fromIpPort (ip : list byte) (port : Z) (addr : sockaddr_in) : sockaddr_in :=
  mkAddr AF_INET (hostToNetwork16 port) (default (s_addr addr) (inet_pton ip)).

(*@ muduo/muduo/net/InetAddress.cc 42-48 InetAddress::InetAddress *)
Definition InetAddress_any (port : Z) : sockaddr_in :=
  mkAddr AF_INET (hostToNetwork16 port) (hostToNetwork32 INADDR_ANY).
(*@ muduo/muduo/net/InetAddress.cc 50-54 InetAddress::InetAddress *)
Definition InetAddress_new (ip : list byte) (port : Z) : sockaddr_in := fromIpPort ip port zero_addr.
(*@ muduo/muduo/net/InetAddress.cc 56-61 InetAddress::toIpPort *)
Definition InetAddress_toIpPort (a : sockaddr_in) : res (list byte) := toIpPort 32 a.
(*@ muduo/muduo/net/InetAddress.cc 63-68 InetAddress::toIp *)
Definition InetAddress_toIp (a : sockaddr_in) : res (list byte) := toIp 32 a.

(** ** The kernel *)

(** Each call with its result and errno. *)
Class Net (K : Type) := {
  net_socket : K -> Z * K;
  net_connect : K -> Z -> sockaddr_in -> Z * Z * K;
  net_close : K -> Z -> Z * K;
  net_bind : K -> Z -> sockaddr_in -> Z * K;
  net_listen : K -> Z -> Z * K;
  net_accept4 : K -> Z -> Z * Z * sockaddr_in * K;
  (** the result, the option's value and errno *)
  net_getsockopt_error : K -> Z -> Z * Z * Z * K;
  (** [None] is failure *)
  net_getsockname : K -> Z -> option sockaddr_in;
  net_getpeername : K -> Z -> option sockaddr_in;
  (** open(2) of the null device *)
  net_open_null : K -> Z * K;
  opened : K -> gset Z
}.

(** A call that may make a descriptor: it is a new one, or the call failed. *)
Definition makes_fd {K} `{Net K} (k : K) (fd : Z) (k' : K) : Prop :=
  (fd < 0 /\ opened k' = opened k) \/ (0 <= fd /\ (fd ∉ opened k) /\ opened k' = {[fd]} ∪ opened k).

Class NetLaws (K : Type) `{Net K} := {
  socket_fd k : makes_fd k (net_socket k).1 (net_socket k).2;
  accept_fd k fd : let '(n, _, _, k') := net_accept4 k fd in makes_fd k n k';
  open_null_fd k : makes_fd k (net_open_null k).1 (net_open_null k).2;
  close_fd k fd : opened (net_close k fd).2 = opened k ∖ {[fd]};
  connect_fds k fd a : opened (net_connect k fd a).2 = opened k;
  bind_fds k fd a : opened (net_bind k fd a).2 = opened k;
  listen_fds k fd : opened (net_listen k fd).2 = opened k;
  getsockopt_fds k fd : opened (net_getsockopt_error k fd).2 = opened k;
  opened_nonneg k fd : fd ∈ opened k -> 0 <= fd
}.

Section calls.
Context {K : Type} `{!Net K}.

(*@ muduo/muduo/net/SocketsOps.cc 61-80 sockets::createNonblockingOrDie *)
Definition createNonblockingOrDie (k : K) : res (Z * K) :=
  let '(sockfd, k) := net_socket k in
  if sockfd <? 0 then Err FatalLog else Ok (sockfd, k).

(*@ muduo/muduo/net/SocketsOps.cc 83-90 sockets::bindOrDie *)
Definition bindOrDie (k : K) (sockfd : Z) (addr : sockaddr_in) : res K :=
  let '(ret, k) := net_bind k sockfd addr in
  if ret <? 0 then Err FatalLog else Ok k.

(*@ muduo/muduo/net/SocketsOps.cc 93-100 sockets::listenOrDie *)
Definition listenOrDie (k : K) (sockfd : Z) : res K :=
  let '(ret, k) := net_listen k sockfd in
  if ret <? 0 then Err FatalLog else Ok k.

(** The errors of accept(2) after which the server can go on. *)
Definition accept_expected : list Z := [EAGAIN; ECONNABORTED; EINTR; EPROTO; EPERM; EMFILE].

(*@ muduo/muduo/net/SocketsOps.cc 102-144 sockets::accept *)
Definition accept (k : K) (sockfd : Z) : res (Z * Z * sockaddr_in * K) :=
  let '(connfd, savedErrno, addr, k) := net_accept4 k sockfd in
  if connfd <? 0
  then if one_of savedErrno accept_expected then Ok (connfd, savedErrno, addr, k)
       else Err FatalLog
  else Ok (connfd, savedErrno, addr, k).

(*@ muduo/muduo/net/SocketsOps.cc 146-149 sockets::connect *)
Definition connect (k : K) (sockfd : Z) (addr : sockaddr_in) : Z * Z * K := net_connect k sockfd addr.

(** A failure is only logged. *)
(*@ muduo/muduo/net/SocketsOps.cc 166-172 sockets::close *)
Definition close (k : K) (sockfd : Z) : K := snd (net_close k sockfd).

(*@ muduo/muduo/net/SocketsOps.cc 211-224 sockets::getSocketError *)
Definition getSocketError (k : K) (sockfd : Z) : Z * K :=
  let '(ret, optval, errno, k) := net_getsockopt_error k sockfd in
  if ret <? 0 then (errno, k) else (optval, k).

(*@ muduo/muduo/net/SocketsOps.cc 226-236 sockets::getLocalAddr *)
Definition getLocalAddr (k : K) (sockfd : Z) : sockaddr_in := default zero_addr (net_getsockname k sockfd).
(*@ muduo/muduo/net/SocketsOps.cc 238-248 sockets::getPeerAddr *)
Definition getPeerAddr (k : K) (sockfd : Z) : sockaddr_in := default zero_addr (net_getpeername k sockfd).

(*@ muduo/muduo/net/SocketsOps.cc 250-256 sockets::isSelfConnect *)
Definition isSelfConnect (k : K) (sockfd : Z) : bool :=
  let localaddr := getLocalAddr k sockfd in
  let peeraddr := getPeerAddr k sockfd in
  (sin_port localaddr =? sin_port peeraddr) && (s_addr localaddr =? s_addr peeraddr).

(** ** What they do to the open descriptors *)

Context `{!NetLaws K}.

Lemma createNonblocking_ok k fd k' :
  createNonblockingOrDie k = Ok (fd, k') -> 0 <= fd /\ (fd ∉ opened k) /\ opened k' = {[fd]} ∪ opened k.
Proof.
  unfold createNonblockingOrDie. pose proof (socket_fd k) as Hs. destruct (net_socket k) as [n k1].
  cbn in Hs. destruct (Z.ltb_spec n 0); [done |]. intros [= <- <-].
  destruct Hs as [[] | Hs]; [lia | exact Hs].
Qed.

Lemma getSocketError_fds k fd : opened (getSocketError k fd).2 = opened k.
Proof.
  unfold getSocketError. pose proof (getsockopt_fds k fd) as Hs.
  destruct (net_getsockopt_error k fd) as [[[r v] e] k1]. by destruct (r <? 0).
Qed.

Lemma close_opened k fd : opened (close k fd) = opened k ∖ {[fd]}.
Proof. apply close_fd. Qed.

Lemma opened_close (k : K) fd : fd < 0 -> opened (close k fd) = opened k.
Proof.
  intros Hn. rewrite close_opened. apply set_eq. intros x.
  rewrite elem_of_difference, elem_of_singleton. split; [tauto |]. intros Hx. split; [done |].
  intros ->. apply opened_nonneg in Hx. lia.
Qed.

Lemma size_close (k : K) fd :
  fd ∈ opened k -> Z.of_nat (size (opened (close k fd))) = Z.of_nat (size (opened k)) - 1.
Proof.
  intros Hfd. rewrite close_opened.
  assert (Hu : opened k = {[fd]} ∪ opened k ∖ {[fd]}).
  { apply set_eq. intros x. rewrite elem_of_union, elem_of_difference, elem_of_singleton.
    destruct (decide (x = fd)) as [-> |]; tauto. }
  assert (Hs : size (opened k) = size ({[fd]} ∪ opened k ∖ {[fd]} : gset Z)) by by f_equal.
  pose proof (size_union ({[fd]} : gset Z) (opened k ∖ {[fd]})) as Hsum.
  rewrite size_singleton in Hsum. rewrite Hs, Hsum; [lia |]. set_solver.
Qed.

(** Making a descriptor and closing it again, or failing to make it. *)
Lemma made_and_closed (k k' : K) fd : makes_fd k fd k' -> opened (close k' fd) = opened k.
Proof.
  intros [[Hn Ho] | (Hp & Hn & Ho)].
  - by rewrite opened_close.
  - rewrite close_opened, Ho. apply set_eq. intros x.
    rewrite elem_of_difference, elem_of_union, elem_of_singleton. naive_solver.
Qed.
End calls.

(** ** Lengths and round trips of addresses *)

Lemma dec_u_byte b : 1 <= zlen (dec_u (byte_val b)) <= 3.
Proof.
  pose proof (byte_val_range b). split.
  - pose proof (dec_u_len_lower (byte_val b) 0) as Hl.
    destruct (decide (byte_val b = 0)) as [-> |]; [by vm_compute |].
    assert (0 < zlen (dec_u (byte_val b))); [apply Hl; lia | lia].
  - apply dec_u_len; lia.
Qed.

Lemma inet_ntop_len addr : 7 <= zlen (inet_ntop addr) <= 15.
Proof.
  unfold inet_ntop. assert (length (le_bytes 4 addr) = 4%nat) as Hl by apply length_le_bytes.
  destruct (le_bytes 4 addr) as [| a [| b [| c [| d [|]]]]]; try done.
  cbn [dotted]. rewrite !zlen_app.
  pose proof (dec_u_byte a). pose proof (dec_u_byte b). pose proof (dec_u_byte c). pose proof (dec_u_byte d).
  change (zlen [DOT]) with 1. lia.
Qed.

Lemma networkToHost16_range x : 0 <= networkToHost16 x < 65536.
Proof. apply (bswap_range 2). Qed.

(** An address with its port takes at most 21 characters. *)
Lemma toIpPort_ok addr :
  exists host, toIpPort 32 addr = Ok host /\ 9 <= zlen host <= 21.
Proof.
  unfold toIpPort, toIp. cbn [Z.leb Z.compare Pos.compare Pos.compare_cont assert_]. rsimp.
  eexists. split; [done |]. pose proof (inet_ntop_len (s_addr addr)) as Hh.
  pose proof (networkToHost16_range (sin_port addr)) as Hp. set (p := networkToHost16 _) in *.
  assert (dec p = dec_u p) as -> by (unfold dec; destruct (Z.ltb_spec p 0); [lia | done]).
  assert (1 <= zlen (dec_u p) <= 5) as Hd.
  { split; [| apply dec_u_len; lia]. destruct (decide (p = 0)) as [-> |]; [by vm_compute |].
    assert (0 < zlen (dec_u p)); [apply (dec_u_len_lower p 0); lia | lia]. }
  unfold snprintf. rewrite ztake_all; rewrite !zlen_app; change (zlen [COLON]) with 1; lia.
Qed.

Lemma octet_dec_u b : octet (dec_u (byte_val b)) = Some b.
Proof. by destruct b; vm_compute. Qed.
Lemma no_dot_dec_u b : DOT ∉ dec_u (byte_val b).
Proof. apply (bool_decide_unpack _). by destruct b; vm_compute. Qed.

Lemma split_on_last c l : c ∉ l -> split_on c l = [l].
Proof.
  induction l as [| b l IH]; [done |]. intros [Hne Hn]%not_elem_of_cons. cbn [split_on].
  rewrite decide_False by done. by rewrite IH.
Qed.
Lemma split_on_sep c l k : c ∉ l -> split_on c (l ++ [c] ++ k) = l :: split_on c k.
Proof.
  induction l as [| b l IH]; intros Hn.
  - cbn [app split_on]. by rewrite decide_True.
  - apply not_elem_of_cons in Hn as [Hne Hn]. cbn [app split_on]. rewrite decide_False by done.
    cbn [app] in IH. by rewrite IH.
Qed.
Lemma split_dotted l : l <> [] -> split_on DOT (dotted l) = map (fun b => dec_u (byte_val b)) l.
Proof.
  induction l as [| b l IH]; [done |]. intros _. destruct l as [| b' l].
  - cbn [dotted map]. apply split_on_last, no_dot_dec_u.
  - change (dotted (b :: b' :: l)) with (dec_u (byte_val b) ++ [DOT] ++ dotted (b' :: l)).
    rewrite split_on_sep by apply no_dot_dec_u. cbn [map]. f_equal. by apply IH.
Qed.

Lemma inet_pton_ntop a : 0 <= a < 2 ^ 32 -> inet_pton (inet_ntop a) = Some a.
Proof.
  intros Ha. unfold inet_pton, inet_ntop. rewrite split_dotted by done.
  assert (forall l, mapM octet (map (fun b => dec_u (byte_val b)) l) = Some l) as ->.
  { intros l. induction l as [| b l IH]; [done |]. cbn [map mapM]. by rewrite octet_dec_u, IH. }
  cbn [fmap option_fmap option_map]. rewrite le_val_bytes. f_equal. apply Z.mod_small.
  by change (256 ^ Z.of_nat 4) with (2 ^ 32).
Qed.

(** Addresses survive printing: the address and port an [InetAddress] is made
    from are those it prints, and parsing what [toIp] prints gives the address
    back, byte order included. *)
Theorem address_roundtrip a port :
  0 <= a < 2 ^ 32 -> 0 <= port < 2 ^ 16 ->
  let addr := InetAddress_new (inet_ntop a) port in
  addr = mkAddr AF_INET (hostToNetwork16 port) a
  /\ InetAddress_toIp addr = Ok (inet_ntop a)
  /\ InetAddress_toIpPort addr = Ok (inet_ntop a ++ [COLON] ++ dec port).
Proof.
  intros Ha Hp. unfold InetAddress_new, fromIpPort. rewrite inet_pton_ntop by done. cbn [from_option id].
  cbv zeta. split_and!; [done | done |]. unfold InetAddress_toIpPort.
  destruct (toIpPort_ok (mkAddr AF_INET (hostToNetwork16 port) a)) as (h & Eh & Hl). rewrite Eh.
  unfold toIpPort, toIp in Eh. cbn [Z.leb Z.compare Pos.compare Pos.compare_cont assert_] in Eh.
  revert Eh. rsimp. cbn [s_addr sin_port]. intros [= <-].
  rewrite networkToHost16_hostToNetwork16. unfold u16. rewrite wrapu_small by lia.
  f_equal. unfold snprintf. apply ztake_all. pose proof (inet_ntop_len a).
  rewrite !zlen_app. change (zlen [COLON]) with 1.
  assert (dec port = dec_u port) as -> by (unfold dec; destruct (Z.ltb_spec port 0); [lia | done]).
  pose proof (dec_u_len port 5). lia.
Qed.

Lemma address_roundtrip_witness :
  InetAddress_toIpPort (InetAddress_new (bs "127.0.0.1") 9999) = Ok (bs "127.0.0.1:9999").
Proof. apply (address_roundtrip 16777343 9999); lia. Defined.

(** ** A small kernel

    Descriptors are numbered upwards; [dn_connect] is the errno of every
    connect(2) (0: success), [dn_error] the pending error of every socket. *)

Record demo_net : Type := mkDemoNet {
  dn_open : gset Z; dn_limit : Z; dn_backlog : list sockaddr_in; dn_connect : Z; dn_error : Z
}.

(** A number above all of a set's. *)
Definition above (s : gset Z) : Z := 1 + set_fold Z.max (-1) s.

Definition dn_with (s : gset Z) (k : demo_net) : demo_net :=
  mkDemoNet s (dn_limit k) (dn_backlog k) (dn_connect k) (dn_error k).
Definition dn_opened (k : demo_net) : gset Z := filter (fun x => 0 <= x) (dn_open k).
Definition dn_next (k : demo_net) : Z := above (dn_open k).
Definition dn_alloc (k : demo_net) : Z * demo_net :=
  if Z.of_nat (size (dn_opened k)) <? dn_limit k
  then (dn_next k, dn_with ({[dn_next k]} ∪ dn_open k) k) else (-1, k).

Definition dn_accept (k : demo_net) : Z * Z * sockaddr_in * demo_net :=
  let '(fd, k') := dn_alloc k in
  if fd <? 0 then (-1, EMFILE, zero_addr, k)
  else match dn_backlog k with
       | [] => (-1, EAGAIN, zero_addr, k)
       | a :: q => (fd, 0, a, mkDemoNet (dn_open k') (dn_limit k) q (dn_connect k) (dn_error k))
       end.

#[export] Instance demo_net_ops : Net demo_net :=
  {| net_socket := dn_alloc;
     net_connect := fun k _ _ => (if dn_connect k =? 0 then 0 else -1, dn_connect k, k);
     net_close := fun k fd => (0, dn_with (dn_open k ∖ {[fd]}) k);
     net_bind := fun k _ _ => (0, k);
     net_listen := fun k _ => (0, k);
     net_accept4 := fun k _ => dn_accept k;
     net_getsockopt_error := fun k _ => (0, dn_error k, 0, k);
     net_getsockname := fun _ _ => Some (mkAddr AF_INET 1 16777343);
     net_getpeername := fun _ _ => Some (mkAddr AF_INET 2 16777343);
     net_open_null := dn_alloc;
     opened := dn_opened |}.

Lemma above_spec s : 0 <= above s /\ forall x, x ∈ s -> x < above s.
Proof.
  unfold above.
  apply (set_fold_ind_L (fun r X => 0 <= 1 + r /\ forall x, x ∈ X -> x < 1 + r)).
  - split; [lia | set_solver].
  - intros x X r Hx [Hr HX]. split; [lia |]. intros y [-> %elem_of_singleton | Hy]%elem_of_union; [lia |].
    apply HX in Hy. lia.
Qed.
Lemma above_fresh s : above s ∉ s.
Proof. intros Hin. apply (above_spec s) in Hin. lia. Qed.

Lemma dn_alloc_makes k : makes_fd k (dn_alloc k).1 (dn_alloc k).2.
Proof.
  unfold dn_alloc. destruct (_ <? _); [| by left]. right. destruct (above_spec (dn_open k)) as [H0 Hx]. fold (dn_next k) in *.
  cbn [fst snd opened demo_net_ops]. unfold dn_opened. cbn [dn_open dn_with]. split_and!; [done | |].
  - intros [_ Hin]%elem_of_filter. apply Hx in Hin. lia.
  - apply set_eq. intros x. rewrite elem_of_filter, !elem_of_union, elem_of_filter, elem_of_singleton.
    split; [tauto |]. intros [-> | ?]; tauto.
Qed.

#[export] Instance demo_net_laws : NetLaws demo_net.
Proof.
  split; try done.
  - apply dn_alloc_makes.
  - intros k fd. cbn [net_accept4 demo_net_ops]. unfold dn_accept.
    pose proof (dn_alloc_makes k) as Hm. destruct (dn_alloc k) as [n k']. cbn [fst snd] in Hm.
    destruct (Z.ltb_spec n 0); [by left |]. destruct (dn_backlog k); [by left | exact Hm].
  - apply dn_alloc_makes.
  - intros k fd. cbn. unfold dn_opened. cbn [dn_with dn_open]. apply set_eq. intros x.
    rewrite elem_of_difference, !elem_of_filter, elem_of_difference. tauto.
  - intros k fd. cbn. unfold dn_opened. by intros [? _]%elem_of_filter.
Defined.
