(* ===== verification/Acceptor.v ===== *)
(** * Acceptor: the listening socket

    [muduo/net/Acceptor.h], [Acceptor.cc], with the calls of [Socket.cc] it
    makes.  The world is the loop (with the acceptor's channel), the acceptor,
    the kernel and the rest of the program, on which the new-connection
    callback acts.  The queue of connections waiting in the kernel is the class
    [Listener]; accept(2) and open(2) may fail with any error. *)
From stdpp Require Import fin_sets.
From S2P Require Import Prelude Channel Poller EPollPoller EventLoop Sockets.

(** The connections that wait to be accepted. *)
Class Listener (K : Type) `{Net K} := {
  backlog : K -> Z -> list sockaddr_in
}.

(** A successful accept(2) takes the first connection; a failing one, whatever
    the error, leaves it there, or it was its connection that failed and is
    gone. *)
Class ListenerLaws (K : Type) `{Listener K, !NetLaws K} := {
  accept_backlog k fd :
    let '(n, e, a, k') := net_accept4 k fd in
    match backlog k fd with
    | [] => n < 0 /\ backlog k' fd = []
    | p :: q =>
        if 0 <=? n then a = p /\ backlog k' fd = q
        else backlog k' fd = p :: q \/ backlog k' fd = q
    end;
  close_backlog k fd l : backlog (net_close k fd).2 l = backlog k l;
  open_null_backlog k l : backlog (net_open_null k).2 l = backlog k l
}.

Inductive acceptor_cb : Type := CbAccept.

(*@ muduo/muduo/net/Acceptor.h 31-67 Acceptor *)
Record Acceptor : Type := mkAcceptor {
  acceptSocket_ : Z;
  acceptChannel_ : chan_id;
  listenning_ : bool;
  idleFd_ : Z
}.

Section acceptor.
Context {U F P E K A : Type} `{!EventFd E, !Net K, !PollerOps (loop_cb U) P}.
Local Abbreviation Loop := (EventLoop U F P E).

Record arest : Type := mkARest { acceptor : Acceptor; net : K; app : A }.
Local Abbreviation world := (Loop * arest)%type.

Definition with_acceptor (a : Acceptor) (w : world) : world := (w.1, mkARest a (net w.2) (app w.2)).
Definition with_net (k : K) (w : world) : world := (w.1, mkARest (acceptor w.2) k (app w.2)).
Definition with_idleFd (fd : Z) (w : world) : world :=
  let a := acceptor w.2 in
  with_acceptor (mkAcceptor (acceptSocket_ a) (acceptChannel_ a) (listenning_ a) fd) w.

(** The new-connection callback, if one is set. *)
Variable newConnectionCallback_ : option (Z -> sockaddr_in -> world -> res world).
(** How the callbacks of the acceptor's channel are named among the loop's. *)
Variable cb_accept : U.

(** [new Channel] gives the identity [c]. *)
(*@ muduo/muduo/net/Acceptor.cc 25-41 Acceptor::Acceptor *)
Definition Acceptor_new (c : chan_id) (listenAddr : sockaddr_in) (lp : Loop) (k : K) (x : A) : res world :=
  '(fd, k) ← createNonblockingOrDie k;
  let '(idle, k) := net_open_null k in
  assert_ (0 <=? idle);;
  k ← bindOrDie k fd listenAddr;
  let ch := setCallbacks (Channel_new (threadId_ lp) fd) (Some (CbUser cb_accept)) None None None in
  mret (put_chan c ch lp, mkARest (mkAcceptor fd c false idle) k x).

(** The destructor, with those of the members ([Channel], [Socket]). *)
(*@ muduo/muduo/net/Acceptor.cc 43-48 Acceptor::~Acceptor *)
Definition Acceptor_dtor (tid : Z) (w : world) : res world :=
  let a := acceptor w.2 in
  lp ← disableAll tid (acceptChannel_ a) w.1;
  lp ← chan_remove tid (acceptChannel_ a) lp;
  lp ← chan_destroy (acceptChannel_ a) lp;
  mret (lp, mkARest a (close (close (net w.2) (idleFd_ a)) (acceptSocket_ a)) (app w.2)).

(*@ muduo/muduo/net/Acceptor.cc 51-59 Acceptor::listen *)
Definition listen (tid : Z) (w : world) : res world :=
  assertInLoopThread tid w.1;;
  let a := acceptor w.2 in
  let a := mkAcceptor (acceptSocket_ a) (acceptChannel_ a) true (idleFd_ a) in
  k ← listenOrDie (net w.2) (acceptSocket_ a);
  lp ← enableReading tid (acceptChannel_ a) w.1;
  mret (lp, mkARest a k (app w.2)).

(** [Socket::accept]: the peer's address is set only on success. *)
(*@ muduo/muduo/net/Socket.cc 36-46 Socket::accept *)
Definition Socket_accept (k : K) (sockfd : Z) (peeraddr : sockaddr_in) : res (Z * Z * sockaddr_in * K) :=
  '(connfd, errno, addr, k) ← accept k sockfd;
  mret (connfd, errno, if 0 <=? connfd then addr else peeraddr, k).

(*@ muduo/muduo/net/Acceptor.cc 62-101 Acceptor::handleRead *)
Definition handleRead (tid : Z) (w : world) : res world :=
  assertInLoopThread tid w.1;;
  let listenfd := acceptSocket_ (acceptor w.2) in
  '(connfd, errno, peerAddr, k) ← Socket_accept (net w.2) listenfd (InetAddress_any 0);
  let w := with_net k w in
  if 0 <=? connfd
  then match newConnectionCallback_ with
       | Some cb => cb connfd peerAddr w
       | None => mret (with_net (close (net w.2) connfd) w)
       end
  else if errno =? EMFILE
  then
    let k := close (net w.2) (idleFd_ (acceptor w.2)) in
    let '(fd, _, _, k) := net_accept4 k listenfd in
    let k := close k fd in
    let '(idle, k) := net_open_null k in
    mret (with_idleFd idle (with_net k w))
  else mret w.

End acceptor.
Arguments arest : clear implicits.

(** ** The acceptor takes exactly one connection per event *)

Section acceptor_props.
Context {U F P E K A : Type} `{!EventFd E, !Net K, !PollerOps (loop_cb U) P}.
Local Abbreviation world := (EventLoop U F P E * arest K A)%type.
Variable newConnectionCallback_ : option (Z -> sockaddr_in -> world -> res world).
Context `{!NetLaws K, !Listener K, !ListenerLaws K}.

(** The descriptors of the acceptor: the reserve, unless it was lost (-1), is
    open and is not the listening socket. *)
Definition acceptor_ok (w : world) : Prop :=
  let a := acceptor w.2 in
  (0 <= idleFd_ a -> idleFd_ a ∈ opened (net w.2)) /\ acceptSocket_ a ∈ opened (net w.2)
  /\ idleFd_ a <> acceptSocket_ a.

Lemma accept_call (k : K) fd :
  accept k fd = let '(n, e, a, k') := net_accept4 k fd in
                if n <? 0 then if one_of e accept_expected then Ok (n, e, a, k') else Err FatalLog
                else Ok (n, e, a, k').
Proof using. unfold accept. by destruct (net_accept4 k fd) as [[[n e] a] k']. Qed.

(** The reserve is given up for one connection, which is closed at once, and
    opened again, which may fail: nothing else is opened or closed. *)
Lemma shed_fds (k k1 k2 : K) (idle listenfd fd idle' : Z) e a :
  (0 <= idle -> idle ∈ opened k) -> listenfd ∈ opened k -> idle <> listenfd ->
  net_accept4 (close k idle) listenfd = (fd, e, a, k1) ->
  net_open_null (close k1 fd) = (idle', k2) ->
  opened k2 ∖ {[idle']} = opened k ∖ {[idle]} /\ (0 <= idle' -> idle' ∈ opened k2)
  /\ listenfd ∈ opened k2 /\ idle' <> listenfd.
Proof using Type*.
  intros Hi Hl Hne Ha Ho.
  pose proof (accept_fd (close k idle) listenfd) as Hm. rewrite Ha in Hm. apply made_and_closed in Hm.
  rewrite (close_opened k idle) in Hm.
  pose proof (open_null_fd (close k1 fd)) as Hn. rewrite Ho in Hn. cbn [fst snd] in Hn.
  unfold makes_fd in Hn. rewrite Hm in Hn.
  destruct Hn as [[Hlt ->] | (Hge & Hnew & ->)].
  - assert (idle' ∉ opened k) by (intros ?%opened_nonneg; lia).
    split_and!; [set_solver | lia | set_solver | congruence].
  - split_and!; set_solver.
Qed.

(** The queue after a call that may have taken the first connection. *)
Lemma accept_drops k fd k' n e a l :
  backlog k fd = l -> net_accept4 k fd = (n, e, a, k') ->
  exists i, (i <= 1)%nat /\ backlog k' fd = drop i l /\ (0 <= n -> i = 1%nat).
Proof using Type*.
  intros Hl Ha. pose proof (accept_backlog k fd) as Hb. rewrite Ha, Hl in Hb. destruct l as [| p q].
  - destruct Hb as [Hn ->]. exists 0%nat. split_and!; [lia | done | lia].
  - destruct (Z.leb_spec 0 n).
    + destruct Hb as [_ ->]. by exists 1%nat.
    + destruct Hb as [-> | ->]; [exists 0%nat | exists 1%nat]; (split_and!; [lia | done | lia]).
Qed.

(** C33: One event of the listening socket, with a connection waiting and a callback
    set, by what accept(2) answers.  It succeeds: the first waiting connection,
    and it alone, is taken, under a new descriptor, and handed to the callback
    with its address.  It fails with EMFILE: the acceptor goes on; its reserve
    descriptor is closed to make room, accept(2) is called again, and if it
    now succeeds the waiting connection is gone from the queue and closed, and
    the callback does not see it; all other descriptors are as before, and the
    reserve is open again, or recorded as lost (-1) if open(2) failed, which
    the next such event survives as well.  It fails with EAGAIN, ECONNABORTED,
    EINTR, EPROTO or EPERM: nothing changes, and the server goes on.  It fails
    with anything else (ENFILE, ENOBUFS, ENOMEM, ENETDOWN, ...): the server
    aborts, by LOG_FATAL. *)
Theorem acceptor_serves_or_sheds cb w p q :
  newConnectionCallback_ = Some cb -> acceptor_ok w ->
  backlog (net w.2) (acceptSocket_ (acceptor w.2)) = p :: q ->
  let listenfd := acceptSocket_ (acceptor w.2) in
  let idle := idleFd_ (acceptor w.2) in
  let r := handleRead newConnectionCallback_ (threadId_ w.1) w in
  let '(n, e, _, k) := net_accept4 (net w.2) listenfd in
  if 0 <=? n then
    r = cb n p (with_net k w)
    /\ n ∉ opened (net w.2) /\ opened k = {[n]} ∪ opened (net w.2) /\ backlog k listenfd = q
  else if e =? EMFILE then
    exists w', r = Ok w' /\ acceptor_ok w' /\ w'.1 = w.1 /\ app w'.2 = app w.2
      /\ acceptSocket_ (acceptor w'.2) = listenfd
      /\ opened (net w'.2) ∖ {[idleFd_ (acceptor w'.2)]} = opened (net w.2) ∖ {[idle]}
      /\ exists i j, (i <= 1)%nat /\ (j <= 1)%nat
          /\ backlog (net w'.2) listenfd = drop (i + j) (p :: q)
          /\ (0 <= (net_accept4 (close k idle) listenfd).1.1.1 -> j = 1%nat)
  else if one_of e accept_expected then
    r = Ok (with_net k w) /\ opened k = opened (net w.2)
    /\ (backlog k listenfd = p :: q \/ backlog k listenfd = q)
  else r = Err FatalLog.
Proof using Type*.
  intros Hcb (Hido & Hlo & Hne) Hb. cbv zeta.
  unfold handleRead, Socket_accept, assertInLoopThread, isInLoopThread. rewrite Z.eqb_refl. rsimp.
  rewrite accept_call.
  set (k0 := net w.2) in *. set (l := acceptSocket_ (acceptor w.2)) in *.
  pose proof (accept_fd k0 l) as Hm. pose proof (accept_backlog k0 l) as Hq. rewrite Hb in Hq.
  destruct (net_accept4 k0 l) as [[[n e] a] k] eqn:Ea.
  destruct (Z.leb_spec 0 n) as [Hn | Hn].
  { destruct Hq as [-> Hq]. rewrite (proj2 (Z.ltb_ge n 0)) by lia. rsimp.
    rewrite (proj2 (Z.leb_le 0 n)) by lia. rewrite Hcb.
    destruct Hm as [[? _] | (_ & ? & ?)]; [lia | done]. }
  destruct Hm as [[_ Ho] | [? _]]; [| lia]. rewrite (proj2 (Z.ltb_lt n 0)) by lia.
  destruct (Z.eqb_spec e EMFILE) as [-> | He].
  2:{ destruct (one_of e accept_expected); [| done]. rsimp. rewrite (proj2 (Z.leb_gt 0 n)) by lia.
      rewrite (proj2 (Z.eqb_neq e EMFILE)) by done. split_and!; done. }
  change (one_of EMFILE accept_expected) with true. rsimp. rewrite (proj2 (Z.leb_gt 0 n)) by lia.
  rewrite Z.eqb_refl. cbn [with_net net snd acceptor]. fold l.
  set (idle := idleFd_ (acceptor w.2)) in *.
  destruct (net_accept4 (close k idle) l) as [[[fd e2] a2] k2] eqn:Ea2.
  destruct (net_open_null (close k2 fd)) as [idle' k4] eqn:Eo. cbn [fst].
  rewrite <- Ho in Hido, Hlo.
  destruct (shed_fds k k2 k4 idle l fd idle' e2 a2 Hido Hlo Hne Ea2 Eo) as (Ho4 & Hi4 & Hl4 & Hn4).
  destruct (accept_drops k0 l k n EMFILE a (p :: q) Hb Ea) as (i & Hi & Hbk & _).
  assert (backlog (close k idle) l = drop i (p :: q)) as Hbc by (unfold close; by rewrite close_backlog).
  destruct (accept_drops (close k idle) l k2 fd e2 a2 _ Hbc Ea2) as (j & Hj & Hb2 & Hjn).
  eexists. split; [done |]. unfold acceptor_ok, with_idleFd, with_acceptor, with_net.
  cbn [fst snd acceptor net app acceptSocket_ idleFd_]. rewrite <- Ho. fold l.
  split_and!; try done. exists i, j. split_and!; [done | done | | done].
  assert (backlog k4 l = backlog k2 l) as ->; [| by rewrite Hb2, drop_drop].
  pose proof (open_null_backlog (close k2 fd) l) as Hnb. rewrite Eo in Hnb. cbn [snd] in Hnb.
  rewrite Hnb. unfold close. by rewrite close_backlog.
Qed.
End acceptor_props.

(** ** A server out of descriptors *)

#[export] Instance demo_listener : Listener demo_net :=
  {| backlog := fun k _ => dn_backlog k |}.

#[export] Instance demo_listener_laws : ListenerLaws demo_net.
Proof.
  split; try done.
  - intros k fd. cbn [net_accept4 demo_net_ops backlog demo_listener]. unfold dn_accept, dn_alloc.
    destruct (above_spec (dn_open k)) as [H0 _]. fold (dn_next k) in H0.
    destruct (_ <? dn_limit k); [rewrite (proj2 (Z.ltb_ge (dn_next k) 0)) by done |];
      destruct (dn_backlog k) as [| p q] eqn:Eb; try (cbn; rewrite Eb; split; [lia | done]).
    + rewrite (proj2 (Z.leb_le 0 _)) by done. done.
    + cbn. left. exact Eb.
  - intros k l. cbn. unfold dn_alloc. by destruct (_ <? _).
Defined.

Definition demo_acceptor_loop : EventLoop acceptor_cb unit (EPollPoller demo_epoll) demo_counter :=
  {| looping_ := true; quit_ := false; EventLoop.eventHandling_ := true;
     callingPendingFunctors_ := false; iteration_ := 0; threadId_ := 1; pollReturnTime_ := 0;
     poller_ := EPollPoller_new (mkDemoEpoll ∅); chans := ∅;
     wakeupFd_ := mkCounter 0; wakeupChannel_ := 7; activeChannels_ := [];
     currentActiveChannel_ := None; pendingFunctors_ := [] |}.

(** Five descriptors of five in use, the last one in reserve, and two clients. *)
Definition demo_acceptor_world : EventLoop acceptor_cb unit (EPollPoller demo_epoll) demo_counter
                                 * arest demo_net (list Z) :=
  (demo_acceptor_loop,
   mkARest (mkAcceptor 3 20 true 4)
     (mkDemoNet (list_to_set [0; 1; 2; 3; 4]) 5 [mkAddr AF_INET 1 7; mkAddr AF_INET 2 7] 0 0) []).

Definition demo_on_connection (fd : Z) (_ : sockaddr_in)
    (w : EventLoop acceptor_cb unit (EPollPoller demo_epoll) demo_counter * arest demo_net (list Z)) :=
  Ok (w.1, mkARest (acceptor w.2) (net w.2) (app w.2 ++ [fd])).

Lemma acceptor_serves_or_sheds_witness :
  exists w', handleRead (Some demo_on_connection) 1 demo_acceptor_world = Ok w'
    /\ acceptor_ok w' /\ app w'.2 = [].
Proof.
  destruct (acceptor_serves_or_sheds (Some demo_on_connection) demo_on_connection demo_acceptor_world
    (mkAddr AF_INET 1 7) [mkAddr AF_INET 2 7]) as (w' & Hr & Hok & _ & Ha & _).
  - reflexivity.
  - split_and!; by_evaluation.
  - reflexivity.
  - exists w'. split; [exact Hr |]. split; [exact Hok | exact Ha].
Defined.
