(* ===== verification/Connector.v ===== *)
(** * Connector: connecting to a server, again and again

    [muduo/net/Connector.h], [Connector.cc].  The world is the loop (with the
    connector's channel and poller), the connector, the kernel, the timers the
    connector has running in the loop and the sockets it has handed to its
    new-connection callback.  The closures it puts into the loop are the
    constructors of [ctask], the callbacks of its channel those of [ctor_cb]. *)
From S2P Require Import Prelude Channel Poller EPollPoller EventLoop Sockets.

(*@ muduo/muduo/net/Connector.h 49-49 Connector::States *)
Inductive States : Type := kDisconnected | kConnecting | kConnected.
#[export] Instance States_eq_dec : EqDecision States.
Proof. solve_decision. Defined.
Definition is_state (a b : States) : bool := bool_decide (a = b).

(*@ muduo/muduo/net/Connector.h 52-52 Connector::kMaxRetryDelayMs *)
Definition kMaxRetryDelayMs : Z := 30 * 1000.
(*@ muduo/muduo/net/Connector.h 54-54 Connector::kInitRetryDelayMs *)
Definition kInitRetryDelayMs : Z := 500.

Inductive ctask : Type := TStartInLoop | TStopInLoop | TResetChannel.
#[export] Instance ctask_eq_dec : EqDecision ctask.
Proof. solve_decision. Defined.
Inductive ctor_cb : Type := CbWrite | CbError.

(*@ muduo/muduo/net/Connector.h 68-86 Connector *)
Record Connector : Type := mkConnector {
  serverAddr_ : sockaddr_in;
  connect_ : bool;
  state_ : States;
  channel_ : option chan_id;
  retryDelayMs_ : Z
}.

(*@ muduo/muduo/net/Connector.cc 26-34 Connector::Connector *)
Definition Connector_new (serverAddr : sockaddr_in) : Connector :=
  mkConnector serverAddr false kDisconnected None kInitRetryDelayMs.

Definition with_connect (b : bool) (c : Connector) : Connector :=
  mkConnector (serverAddr_ c) b (state_ c) (channel_ c) (retryDelayMs_ c).
(*@ muduo/muduo/net/Connector.h 56-56 Connector::setState *)
Definition setState (s : States) (c : Connector) : Connector :=
  mkConnector (serverAddr_ c) (connect_ c) s (channel_ c) (retryDelayMs_ c).
Definition with_channel (ch : option chan_id) (c : Connector) : Connector :=
  mkConnector (serverAddr_ c) (connect_ c) (state_ c) ch (retryDelayMs_ c).
Definition with_delay (d : Z) (c : Connector) : Connector :=
  mkConnector (serverAddr_ c) (connect_ c) (state_ c) (channel_ c) d.

Section connector.
Context {P E K : Type} `{!EventFd E, !Net K, !PollerOps (loop_cb ctor_cb) P}.
Local Abbreviation Loop := (EventLoop ctor_cb ctask P E).
(** The identity [new Channel] gives, when these are in use. *)
Variable new_channel : gset chan_id -> chan_id.

Record crest : Type := mkCRest {
  ctor : Connector;
  net : K;
  (** delays of the timers that will call [startInLoop] *)
  timers : list Z;
  (** descriptors given to [newConnectionCallback_] and not closed since *)
  handed : gset Z
}.
Local Abbreviation world := (Loop * crest)%type.

Definition the_ctor (w : world) : Connector := ctor w.2.
Definition with_lp (lp : Loop) (w : world) : world := (lp, w.2).
Definition with_ctor (c : Connector) (w : world) : world := (w.1, mkCRest c (net w.2) (timers w.2) (handed w.2)).
Definition on_ctor (f : Connector -> Connector) (w : world) : world := with_ctor (f (the_ctor w)) w.
Definition with_net (k : K) (w : world) : world := (w.1, mkCRest (ctor w.2) k (timers w.2) (handed w.2)).
Definition with_timers (t : list Z) (w : world) : world := (w.1, mkCRest (ctor w.2) (net w.2) t (handed w.2)).
Definition with_handed (h : gset Z) (w : world) : world := (w.1, mkCRest (ctor w.2) (net w.2) (timers w.2) h).

Definition queue (tid : Z) (t : ctask) (w : world) : world := with_lp (queueInLoop tid t w.1) w.

(** [loop_->runAfter(ms/1000.0, ...)]. *)
Definition run_after (ms : Z) (w : world) : world := with_timers (timers w.2 ++ [ms]) w.

(** The owner's callback takes the descriptor over. *)
Definition newConnectionCallback_ (sockfd : Z) (w : world) : world := with_handed ({[sockfd]} ∪ handed w.2) w.

(** ** Operations *)

(*@ muduo/muduo/net/Connector.cc 181-185 Connector::resetChannel *)
Definition resetChannel (w : world) : res world :=
  match channel_ (the_ctor w) with
  | None => mret w
  | Some c => lp ← chan_destroy c w.1; mret (on_ctor (with_channel None) (with_lp lp w))
  end.

(*@ muduo/muduo/net/Connector.cc 170-178 Connector::removeAndResetChannel *)
Definition removeAndResetChannel (tid : Z) (w : world) : res (Z * world) :=
  match channel_ (the_ctor w) with
  | None => Err BadAccess
  | Some c =>
      lp ← disableAll tid c w.1;
      lp ← chan_remove tid c lp;
      ch ← load_chan c lp;
      mret (fd_ ch, queue tid TResetChannel (with_lp lp w))
  end.

(*@ muduo/muduo/net/Connector.cc 245-264 Connector::retry *)
Definition retry (sockfd : Z) (w : world) : world :=
  let w := with_net (close (net w.2) sockfd) w in
  let w := on_ctor (setState kDisconnected) w in
  if connect_ (the_ctor w)
  then
    let w := run_after (retryDelayMs_ (the_ctor w)) w in
    on_ctor (fun c => with_delay (Z.min (s32 (retryDelayMs_ c * 2)) kMaxRetryDelayMs) c) w
  else w.

(*@ muduo/muduo/net/Connector.cc 146-167 Connector::connecting *)
Definition connecting (tid sockfd : Z) (w : world) : res world :=
  let w := on_ctor (setState kConnecting) w in
  assert_ (bool_decide (channel_ (the_ctor w) = None));;
  let c := new_channel (dom (chans w.1)) in
  let ch := setCallbacks (Channel_new (threadId_ w.1) sockfd) None (Some (CbUser CbWrite)) None
              (Some (CbUser CbError)) in
  let w := on_ctor (with_channel (Some c)) (with_lp (put_chan c ch w.1) w) in
  lp ← enableWriting tid c w.1;
  mret (with_lp lp w).

(** What the [switch] makes of errno. *)
Definition connect_started : list Z := [0; EINPROGRESS; EINTR; EISCONN].
Definition connect_retry : list Z := [EAGAIN; EADDRINUSE; EADDRNOTAVAIL; ECONNREFUSED; ENETUNREACH].

(** The other errors, expected or not, are logged and the socket is closed. *)
(*@ muduo/muduo/net/Connector.cc 88-132 Connector::connect *)
Definition connect (tid : Z) (w : world) : res world :=
  '(sockfd, k) ← createNonblockingOrDie (net w.2);
  let '(ret, errno, k) := Sockets.connect k sockfd (serverAddr_ (the_ctor w)) in
  let w := with_net k w in
  let savedErrno := if ret =? 0 then 0 else errno in
  if one_of savedErrno connect_started then connecting tid sockfd w
  else if one_of savedErrno connect_retry then mret (retry sockfd w)
  else mret (with_net (close (net w.2) sockfd) w).

(*@ muduo/muduo/net/Connector.cc 50-63 Connector::startInLoop *)
Definition startInLoop (tid : Z) (w : world) : res world :=
  assertInLoopThread tid w.1;;
  assert_ (is_state (state_ (the_ctor w)) kDisconnected);;
  if connect_ (the_ctor w) then connect tid w else mret w.

(*@ muduo/muduo/net/Connector.cc 74-85 Connector::stopInLoop *)
Definition stopInLoop (tid : Z) (w : world) : res world :=
  assertInLoopThread tid w.1;;
  if is_state (state_ (the_ctor w)) kConnecting
  then
    let w := on_ctor (setState kDisconnected) w in
    '(sockfd, w) ← removeAndResetChannel tid w;
    mret (retry sockfd w)
  else mret w.

(*@ muduo/muduo/net/Connector.cc 188-230 Connector::handleWrite *)
Definition handleWrite (tid : Z) (w : world) : res world :=
  if is_state (state_ (the_ctor w)) kConnecting
  then
    '(sockfd, w) ← removeAndResetChannel tid w;
    let '(err, k) := getSocketError (net w.2) sockfd in
    let w := with_net k w in
    if negb (err =? 0) then mret (retry sockfd w)
    else if isSelfConnect (net w.2) sockfd then mret (retry sockfd w)
    else
      let w := on_ctor (setState kConnected) w in
      if connect_ (the_ctor w) then mret (newConnectionCallback_ sockfd w)
      else mret (with_net (close (net w.2) sockfd) w)
  else
    assert_ (is_state (state_ (the_ctor w)) kDisconnected);;
    mret w.

(*@ muduo/muduo/net/Connector.cc 233-242 Connector::handleError *)
Definition handleError (tid : Z) (w : world) : res world :=
  assert_ (is_state (state_ (the_ctor w)) kConnecting);;
  '(sockfd, w) ← removeAndResetChannel tid w;
  let '(_, k) := getSocketError (net w.2) sockfd in
  mret (retry sockfd (with_net k w)).

(** ** The closures and callbacks *)

Definition exec (tid : Z) (t : ctask) (w : world) : res world :=
  match t with
  | TStartInLoop => startInLoop tid w
  | TStopInLoop => stopInLoop tid w
  | TResetChannel => resetChannel w
  end.
Definition call_ctor (tid : Z) (cb : ctor_cb) (w : world) : res world :=
  match cb with CbWrite => handleWrite tid w | CbError => handleError tid w end.

(*@ muduo/muduo/net/Connector.cc 43-47 Connector::start *)
Definition start (tid : Z) (w : world) : res world :=
  let w := on_ctor (with_connect true) w in
  runInLoop (exec tid) tid TStartInLoop w.

(*@ muduo/muduo/net/Connector.cc 66-71 Connector::stop *)
Definition stop (tid : Z) (w : world) : res world :=
  let w := on_ctor (with_connect false) w in
  runInLoop (exec tid) tid TStopInLoop w.

(*@ muduo/muduo/net/Connector.cc 136-143 Connector::restart *)
Definition restart (tid : Z) (w : world) : res world :=
  assertInLoopThread tid w.1;;
  let w := on_ctor (fun c => with_connect true (with_delay kInitRetryDelayMs (setState kDisconnected c))) w in
  startInLoop tid w.

(** ** What can happen *)

Inductive cevent : Type :=
| EvStart (tid : Z)
| EvStop (tid : Z)
| EvRestart
(** the poll reported these events for the connector's channel *)
| EvReady (revents : Z)
(** the end of an iteration of the loop *)
| EvFunctors
(** a timer of the connector expired *)
| EvTimer
(** the owner of a connection closed it *)
| EvClosed (fd : Z).

Definition on_ready (revents : Z) (w : world) : res world :=
  match channel_ (the_ctor w) with
  | None => mret w
  | Some c =>
      ch ← load_chan c w.1;
      let w := with_lp (with_current (Some c) (with_active [c] (with_handling true
                          (put_chan c (set_revents ch revents) w.1)))) w in
      w ← channel_handleEvent (call_ctor (threadId_ w.1)) (fun cb _ => call_ctor (threadId_ w.1) cb)
            (fun _ _ => true) c 0 w;
      mret (on_loop (fun lp => with_handling false (with_current None lp)) w)
  end.

Definition run_cevent (e : cevent) (w : world) : res world :=
  let tid := threadId_ w.1 in
  match e with
  | EvStart t => start t w
  | EvStop t => stop t w
  | EvRestart => restart tid w
  | EvReady r => on_ready r w
  | EvFunctors => doPendingFunctors (exec tid) w
  | EvTimer => match timers w.2 with
               | [] => mret w
               | _ :: ts => startInLoop tid (with_timers ts w)
               end
  | EvClosed fd => mret (with_handed (handed w.2 ∖ {[fd]}) (with_net (close (net w.2) fd) w))
  end.

Fixpoint run_cevents (es : list cevent) (w : world) : res world :=
  match es with
  | [] => mret w
  | e :: es => w ← run_cevent e w; run_cevents es w
  end.
End connector.
Arguments crest : clear implicits.

(** ** The invariant *)

Section connector_props.
Context {P E K : Type} `{!EventFd E, !Net K, !PollerOps (loop_cb ctor_cb) P}.
Context `{!NetLaws K, !PollerSpec (loop_cb ctor_cb) P}.
Local Abbreviation Loop := (EventLoop ctor_cb ctask P E).
Local Abbreviation world := (Loop * crest K)%type.
Implicit Types (w : world) (todo : list ctask).
(** The descriptors that are not the connector's business. *)
Variable base : gset Z.

Definition num (t : ctask) (l : list ctask) : nat := length (filter (fun x => x = t) l).

(** [todo] is what is left of the batch of functors being run. *)
Definition queued (t : ctask) todo w : nat := num t (todo ++ pendingFunctors_ w.1).
Definition starts todo w : nat := (queued TStartInLoop todo w + length (timers w.2))%nat.

Definition attempt_callbacks (ch : Channel (loop_cb ctor_cb)) : Prop :=
  tied_ ch = false /\ readCallback_ ch = None /\ closeCallback_ ch = None
  /\ writeCallback_ ch = Some (CbUser CbWrite) /\ errorCallback_ ch = Some (CbUser CbError).

(** connect(2) never fails in a way that is not worth another attempt. *)
Definition soft_errors : Prop :=
  forall (k : K) fd a, let '(ret, errno, _) := net_connect k fd a in
    one_of (if ret =? 0 then 0 else errno) (connect_started ++ connect_retry) = true.

Definition delay_ok (d : Z) : Prop := exists n : nat, d = Z.min (kInitRetryDelayMs * 2 ^ Z.of_nat n) kMaxRetryDelayMs.

(** What does not depend on the state. *)
Record common w : Prop := {
  cm_inv : inv (poller_ w.1) (chans w.1);
  cm_owned fd c : owner (poller_ w.1) fd = Some c -> fd ∈ opened (net w.2);
  cm_delay : delay_ok (retryDelayMs_ (the_ctor w));
  cm_timers : Forall (fun d => kInitRetryDelayMs <= d <= kMaxRetryDelayMs) (timers w.2);
  cm_base : base ## handed w.2
}.

(** An attempt is under way: the channel is watched, the socket is open and
    nobody else's, and nothing else is planned. *)
Record attempting todo w (c : chan_id) (ch : Channel (loop_cb ctor_cb)) : Prop := {
  at_channel : channel_ (the_ctor w) = Some c;
  at_reg : registered c ch w.1;
  at_owner : owner (poller_ w.1) (fd_ ch) = Some c;
  at_armed : armed (poller_ w.1) (fd_ ch) = kWriteEvent;
  at_callbacks : attempt_callbacks ch;
  at_mine : fd_ ch ∉ base ∪ handed w.2;
  at_open : opened (net w.2) = {[fd_ ch]} ∪ (base ∪ handed w.2);
  at_resets : queued TResetChannel todo w = 0%nat;
  at_starts : starts todo w = 0%nat
}.

(** The channel was taken out of the poller; it waits for [resetChannel]. *)
Definition discarded todo w : Prop :=
  match channel_ (the_ctor w) with
  | None => queued TResetChannel todo w = 0%nat
  | Some c => queued TResetChannel todo w = 1%nat
      /\ exists ch, chans w.1 !! c = Some ch /\ owner (poller_ w.1) (fd_ ch) <> Some c
  end.

(** No attempt is under way. *)
Record resting todo w : Prop := {
  rs_open : opened (net w.2) = base ∪ handed w.2;
  rs_channel : discarded todo w;
  rs_starts : (starts todo w <= 1)%nat;
  rs_queued : (0 < queued TStartInLoop todo w)%nat -> channel_ (the_ctor w) = None;
  rs_up : state_ (the_ctor w) = kConnected -> starts todo w = 0%nat;
  rs_trying : soft_errors -> connect_ (the_ctor w) = true -> state_ (the_ctor w) = kDisconnected ->
              (0 < starts todo w)%nat
}.

Definition cinv todo w : Prop :=
  common w /\ if is_state (state_ (the_ctor w)) kConnecting
              then exists c ch, attempting todo w c ch else resting todo w.

(** Between events: the loop handles none, and neither does the channel. *)
Definition quiet w : Prop :=
  EventLoop.eventHandling_ w.1 = false
  /\ forall c ch, channel_ (the_ctor w) = Some c -> chans w.1 !! c = Some ch -> Channel.eventHandling_ ch = false.

(** The only way to fail: no descriptor can be had. *)
Definition runs (m : res world) (Q : world -> Prop) : Prop :=
  match m with
  | Ok w => Q w
  | Err f => f = FatalLog /\ exists k : K, (net_socket k).1 < 0
  end.

Lemma runs_bind (m : res world) (k : world -> res world) (Q R : world -> Prop) :
  runs m Q -> (forall w, Q w -> runs (k w) R) -> runs (m ≫= k) R.
Proof using. destruct m; simpl; auto. Qed.
Lemma runs_mono (m : res world) (Q R : world -> Prop) :
  runs m Q -> (forall w, Q w -> R w) -> runs m R.
Proof using. destruct m; simpl; auto. Qed.

(** ** Counting *)

Lemma num_app t l k : num t (l ++ k) = (num t l + num t k)%nat.
Proof using. unfold num. by rewrite filter_app, length_app. Qed.
Lemma num_cons t x l : num t (x :: l) = ((if decide (x = t) then 1 else 0) + num t l)%nat.
Proof using. unfold num. rewrite filter_cons. by case_decide. Qed.

Lemma delay_range d : delay_ok d -> kInitRetryDelayMs <= d <= kMaxRetryDelayMs.
Proof using.
  intros [n ->]. unfold kInitRetryDelayMs, kMaxRetryDelayMs.
  assert (0 < 2 ^ Z.of_nat n) by (apply Z.pow_pos_nonneg; lia). lia.
Qed.
Lemma delay_next d : delay_ok d -> delay_ok (Z.min (s32 (d * 2)) kMaxRetryDelayMs).
Proof using.
  intros Hd. pose proof (delay_range _ Hd) as Hr. destruct Hd as [n ->].
  unfold kInitRetryDelayMs, kMaxRetryDelayMs in *. exists (S n).
  unfold kInitRetryDelayMs, kMaxRetryDelayMs.
  rewrite s32_small by lia. rewrite Nat2Z.inj_succ, Z.pow_succ_r by lia. lia.
Qed.
Lemma delay_init : delay_ok kInitRetryDelayMs.
Proof using. by exists 0%nat. Qed.

(** ** Giving up an attempt *)

(** The state between [removeAndResetChannel] and what is done with the
    socket; [state_] plays no part. *)
Record detached todo w (fd : Z) : Prop := {
  dt_common : common w;
  dt_channel : discarded todo w;
  dt_starts : starts todo w = 0%nat;
  dt_mine : fd ∉ base ∪ handed w.2;
  dt_free : owner (poller_ w.1) fd = None;
  dt_open : opened (net w.2) = {[fd]} ∪ (base ∪ handed w.2)
}.

(** What the handlers leave alone. *)
Record same_frame (c : chan_id) (ch : Channel (loop_cb ctor_cb)) w w' : Prop := {
  sf_thread : threadId_ w'.1 = threadId_ w.1;
  sf_handling : EventLoop.eventHandling_ w'.1 = EventLoop.eventHandling_ w.1;
  sf_active : activeChannels_ w'.1 = activeChannels_ w.1;
  sf_current : currentActiveChannel_ w'.1 = currentActiveChannel_ w.1;
  sf_channel : channel_ (the_ctor w') = Some c;
  sf_chan : exists ch', chans w'.1 !! c = Some ch' /\ revents_ ch' = revents_ ch
      /\ attempt_callbacks ch' /\ Channel.eventHandling_ ch' = Channel.eventHandling_ ch
}.

(** The loop is not in the middle of other channels' events. *)
Definition may_remove w (c : chan_id) : Prop :=
  EventLoop.eventHandling_ w.1 = true -> currentActiveChannel_ w.1 = Some c.

Lemma removeAndReset_ok todo w c ch :
  common w -> attempting todo w c ch -> may_remove w c ->
  exists w', removeAndResetChannel (threadId_ w.1) w = Ok (fd_ ch, w')
    /\ detached todo w' (fd_ ch) /\ same_frame c ch w w'
    /\ ctor w'.2 = ctor w.2 /\ net w'.2 = net w.2 /\ handed w'.2 = handed w.2.
Proof using Type*.
  intros [Hi Ho Hd Ht Hb] [Hc Hr Hown Harm Hcb Hm Hop Hrs Hst] Hmay.
  unfold removeAndResetChannel. rewrite Hc.
  destruct (chan_update_spec (fun _ => kNoneEvent) c ch w.1 Hr) as (p1 & s1 & Hrun & Hi1 & Hs1 & Ho1 & Ha1).
  { by right. }
  unfold disableAll. rewrite Hrun. rsimp.
  destruct (same_but_index_lookup _ _ _ _ Hs1 (lookup_insert_eq _ _ _)) as (i & Hc1).
  destruct Hr as (Hch & Hl & _).
  set (ch1 := set_index (with_events ch kNoneEvent) i) in *.
  destruct (chan_remove_spec c ch1 (repolled p1 s1 w.1)) as (p2 & s2 & Hrun2 & Hi2 & Hs2 & Ho2 & Ha2).
  - split; [exact Hc1 |]. split; [exact Hl |]. exact Hi1.
  - change (owner p1 (fd_ ch) = Some c). by rewrite Ho1, decide_True.
  - done.
  - intros He. left. apply Hmay, He.
  - change (threadId_ (repolled p1 s1 w.1)) with (threadId_ w.1) in Hrun2. rewrite Hrun2. rsimp. destruct (same_but_index_lookup _ _ _ _ Hs2 Hc1) as (j & Hc2).
    unfold load_chan. cbn [chans repolled with_chans with_poller]. rewrite Hc2. rsimp.
    assert (Hoo : forall fd, owner p2 fd = if decide (fd = fd_ ch) then None else owner (poller_ w.1) fd).
    { intros fd. rewrite Ho2. change (fd_ ch1) with (fd_ ch). case_decide; [done |].
      change (poller_ (repolled p1 s1 w.1)) with p1. rewrite Ho1. by rewrite decide_False. }
    set (lp2 := repolled p2 s2 (repolled p1 s1 w.1)).
    destruct (queueInLoop_fields (threadId_ w.1) TResetChannel lp2) as (E1 & E2 & E3 & E4 & E5 & E6 & E7).
    eexists. split; [done |]. unfold queue, with_lp.
    cbn [fst snd the_ctor ctor net timers handed].
    assert (Hq : forall t, num t (todo ++ pendingFunctors_ lp2 ++ [TResetChannel])
                 = (queued t todo w + num t [TResetChannel])%nat).
    { intros t. unfold queued. by rewrite app_assoc, num_app. }
    split_and!; [split | split | done | done | done].
    + split; cbn [fst snd]; rewrite ?E2, ?E3; [exact Hi2 | | done..].
      intros fd c'. change (poller_ lp2) with p2. rewrite Hoo. case_decide; [done |]. apply Ho.
    + unfold discarded, the_ctor. cbn [fst snd ctor]. unfold the_ctor in Hc. rewrite Hc.
      unfold queued. cbn [fst]. rewrite E2, E3, E7, Hq, Hrs. split; [done |].
      exists (set_index ch1 j). split; [exact Hc2 |].
      change (owner p2 (fd_ ch) <> Some c). by rewrite Hoo, decide_True.
    + unfold starts, queued. cbn [fst snd]. rewrite E7, Hq. change (num TStartInLoop [TResetChannel]) with 0%nat.
      unfold starts in Hst. cbn [timers]. lia.
    + done.
    + cbn [fst]. rewrite E2. change (owner p2 (fd_ ch) = None). by rewrite Hoo, decide_True.
    + done.
    + done.
    + done.
    + done.
    + done.
    + done.
    + exists (set_index ch1 j). cbn [fst]. rewrite E3. split_and!; [exact Hc2 | done | exact Hcb | done].
Qed.

Lemma detached_net todo w fd k : detached todo w fd -> opened k = opened (net w.2) -> detached todo (with_net k w) fd.
Proof using.
  intros [[Hi Ho Hd Ht Hb] Hdis Hst Hm Hf Hop] Hk.
  split; cbn; rewrite ?Hk; try done. split; cbn; try done. intros. rewrite Hk. eauto.
Qed.

Lemma close_mine (k : K) fd h :
  fd ∉ base ∪ h -> opened k = {[fd]} ∪ (base ∪ h) -> opened (close k fd) = base ∪ h.
Proof using Type*. intros Hn Ho. rewrite close_opened, Ho. set_solver. Qed.

Lemma retry_detached todo w fd : detached todo w fd -> cinv todo (retry fd w).
Proof using Type*.
  intros [[Hi Ho Hd Ht Hb] Hdisc Hst Hm Hf Hop].
  pose proof (close_mine _ _ _ Hm Hop) as Hcl.
  assert (Howned : forall fd' c', owner (poller_ w.1) fd' = Some c' -> fd' ∈ base ∪ handed w.2).
  { intros fd' c' Ho'. pose proof (Ho _ _ Ho') as Hin. rewrite Hop in Hin.
    apply elem_of_union in Hin as [-> %elem_of_singleton |]; [congruence | done]. }
  unfold starts in Hst. unfold retry. cbn [the_ctor on_ctor with_ctor with_net setState ctor connect_ snd].
  destruct (connect_ (ctor w.2)) eqn:Ecn; split; cbn [is_state]; try (split; cbn; try done).
  - intros fd' c' Ho'. rewrite Hcl. eauto.
  - by apply delay_next.
  - apply Forall_app_2; [done |]. constructor; [| done]. by apply delay_range.
  - unfold starts. cbn. rewrite length_app. cbn. change (queued TStartInLoop todo _) with (queued TStartInLoop todo w). lia.
  - change (queued TStartInLoop todo _) with (queued TStartInLoop todo w). lia.
  - intros _ _ _. unfold starts. cbn. rewrite length_app. cbn. lia.
  - intros fd' c' Ho'. rewrite Hcl. eauto.
  - unfold starts. cbn. change (queued TStartInLoop todo _) with (queued TStartInLoop todo w). lia.
  - change (queued TStartInLoop todo _) with (queued TStartInLoop todo w). lia.
  - congruence.
Qed.

Lemma retry_frame fd w :
  (retry fd w).1 = w.1 /\ channel_ (the_ctor (retry fd w)) = channel_ (the_ctor w)
  /\ state_ (the_ctor (retry fd w)) = kDisconnected.
Proof using. unfold retry. cbn. by destruct (connect_ _). Qed.

Lemma quiet_same w w' :
  w'.1 = w.1 -> channel_ (the_ctor w') = channel_ (the_ctor w) -> quiet w -> quiet w'.
Proof using. unfold quiet. by intros -> ->. Qed.

(** The connection is up: the owner gets it, or it is closed again when
    [stop] came in between. *)
Lemma up_detached todo w fd :
  detached todo w fd ->
  cinv todo (newConnectionCallback_ fd (on_ctor (setState kConnected) w))
  /\ cinv todo (with_net (close (net w.2) fd) (on_ctor (setState kConnected) w)).
Proof using Type*.
  intros [[Hi Ho Hd Ht Hb] Hdisc Hst Hm Hf Hop].
  pose proof (close_mine _ _ _ Hm Hop) as Hcl.
  unfold starts in Hst. assert (Hq : (queued TStartInLoop todo w + length (timers w.2) = 0)%nat) by done.
  split; (split; cbn [is_state]; [split; cbn; try done | split; cbn; try done]).
  - set_solver.
  - rewrite Hop. set_solver.
  - unfold starts. cbn. change (queued TStartInLoop todo _) with (queued TStartInLoop todo w). lia.
  - change (queued TStartInLoop todo _) with (queued TStartInLoop todo w). lia.
  - intros fd' c' Ho'. pose proof (Ho _ _ Ho') as Hin. rewrite Hop in Hin. rewrite Hcl.
    apply elem_of_union in Hin as [-> %elem_of_singleton |]; [congruence | done].
  - unfold starts. cbn. change (queued TStartInLoop todo _) with (queued TStartInLoop todo w). lia.
  - change (queued TStartInLoop todo _) with (queued TStartInLoop todo w). lia.
Qed.

(** ** Starting one *)

Variable new_channel : gset chan_id -> chan_id.
Hypothesis new_channel_fresh : forall s, new_channel s ∉ s.

(** Nothing is under way or planned, and there is no old channel. *)
Record vacant todo w : Prop := {
  vc_common : common w;
  vc_channel : channel_ (the_ctor w) = None;
  vc_resets : queued TResetChannel todo w = 0%nat;
  vc_starts : starts todo w = 0%nat;
  vc_open : opened (net w.2) = base ∪ handed w.2
}.

Lemma one_of_app e l1 l2 : one_of e (l1 ++ l2) = one_of e l1 || one_of e l2.
Proof using.
  unfold one_of. apply eq_true_iff_eq. rewrite orb_true_iff, !bool_decide_eq_true. apply elem_of_app.
Qed.

(** The world [connecting] makes: [c] is the new channel, watched for writing. *)
Definition connecting_world w k c (p : P) s : world :=
  (repolled p s w.1, mkCRest (with_channel (Some c) (setState kConnecting (ctor w.2))) k (timers w.2) (handed w.2)).

Lemma connecting_run w k fd :
  common w -> channel_ (the_ctor w) = None -> fd ∉ opened (net w.2) ->
  exists c ch p s, connecting new_channel (threadId_ w.1) fd (with_net k w) = Ok (connecting_world w k c p s)
    /\ inv p s /\ s !! c = Some ch /\ fd_ ch = fd /\ loop_ ch = threadId_ w.1
    /\ attempt_callbacks ch /\ Channel.eventHandling_ ch = false
    /\ (forall fd', owner p fd' = if decide (fd' = fd) then Some c else owner (poller_ w.1) fd')
    /\ armed p fd = kWriteEvent.
Proof using Type*.
  intros [Hi Ho Hd Ht Hb] Hc Hm.
  unfold connecting. cbn [the_ctor on_ctor with_ctor with_net ctor snd fst setState channel_].
  unfold the_ctor in Hc. rewrite Hc. change (assert_ (bool_decide (None = None))) with (Ok tt). rsimp.
  set (c := new_channel _).
  assert (Hfresh : chans w.1 !! c = None) by apply not_elem_of_dom, new_channel_fresh.
  set (ch := setCallbacks (Channel_new (threadId_ w.1) fd) None (Some (CbUser CbWrite)) None (Some (CbUser CbError))).
  set (lp1 := put_chan c ch w.1).
  assert (Hreg : registered c ch lp1).
  { split; [apply lookup_insert_eq |]. split; [done |]. by apply inv_fresh. }
  assert (Hno : owner (poller_ lp1) (fd_ ch) = None).
  { change (owner (poller_ w.1) fd = None). destruct (owner (poller_ w.1) fd) as [c'|] eqn:Eo; [| done].
    by apply Ho in Eo. }
  destruct (chan_update_spec ev_enableWriting c ch lp1 Hreg) as (p & s & Hrun & Hi' & Hs & Ho' & Ha').
  { by left. }
  change (threadId_ lp1) with (threadId_ w.1) in Hrun. unfold enableWriting.
  match goal with |- context [chan_update _ _ _ ?l] => change l with lp1 end.
  rewrite Hrun. rsimp.
  destruct (same_but_index_lookup _ _ _ _ Hs (lookup_insert_eq _ _ _)) as (i & Hci).
  exists c, (set_index (with_events ch (ev_enableWriting (events_ ch))) i), p, s.
  split_and!; try done. by rewrite Ha', decide_True.
Qed.

Lemma connecting_ok todo w k fd :
  vacant todo w -> quiet w -> fd ∉ base ∪ handed w.2 -> opened k = {[fd]} ∪ (base ∪ handed w.2) ->
  exists w', connecting new_channel (threadId_ w.1) fd (with_net k w) = Ok w'
    /\ cinv todo w' /\ quiet w' /\ threadId_ w'.1 = threadId_ w.1.
Proof using Type*.
  intros [Hcm Hc Hr Hst Hop] [Hq1 Hq2] Hm Hk.
  destruct (connecting_run w k fd Hcm Hc) as (c & ch & p & s & Hrun & Hi' & Hci & Hfd & Hl & Hcb & He & Ho' & Ha').
  { by rewrite Hop. }
  destruct Hcm as [Hi Ho Hd Ht Hb]. unfold starts in Hst.
  eexists. split; [exact Hrun |]. split; [split | split; [split |]]; cbn [is_state connecting_world].
  - split; cbn; try done. intros fd' c'. rewrite Ho', Hk. case_decide as Ed.
    + intros _. rewrite Ed. set_solver.
    + intros Eo. apply Ho in Eo. rewrite Hop in Eo. set_solver.
  - change (is_state _ _) with true. exists c, ch. split; cbn; rewrite ?Hfd; try done.
    by rewrite Ho', decide_True.
  - done.
  - cbn. intros c' ch' [= <-] Hch'. rewrite Hci in Hch'. by injection Hch' as <-.
  - done.
Qed.

(** What every step of the connector keeps. *)
Definition kept todo w w' : Prop := cinv todo w' /\ quiet w' /\ threadId_ w'.1 = threadId_ w.1.

Lemma vacant_net todo w k :
  vacant todo w -> connect_ (the_ctor w) = false \/ ~ soft_errors ->
  state_ (the_ctor w) = kDisconnected -> opened k = base ∪ handed w.2 ->
  cinv todo (with_net k w).
Proof using Type*.
  intros [[Hi Ho Hd Ht Hb] Hc Hr Hst Hop] Hno Hs Hk. unfold starts in Hst. unfold the_ctor in Hs, Hc, Hno.
  split; cbn; rewrite ?Hs; cbn; [split; cbn; try done | split; cbn; try done].
  - intros fd c' Ho'. rewrite Hk, <- Hop. eauto.
  - unfold discarded. cbn. by rewrite Hc.
  - unfold starts. cbn. change (queued TStartInLoop todo _) with (queued TStartInLoop todo w). lia.
  - intros Hsoft Hcn _. destruct Hno; [congruence | done].
Qed.

Lemma connect_ok todo w :
  vacant todo w -> quiet w -> connect_ (the_ctor w) = true -> state_ (the_ctor w) = kDisconnected ->
  runs (connect new_channel (threadId_ w.1) w) (kept todo w).
Proof using Type*.
  intros Hv Hq Hcn Hs. unfold connect.
  destruct (createNonblockingOrDie (net w.2)) as [[fd k] | f] eqn:Ek; cbn [mbind res_bind runs].
  2: { unfold createNonblockingOrDie in Ek. destruct (net_socket (net w.2)) as [n k1] eqn:En.
       destruct (Z.ltb_spec n 0); [| done]. injection Ek as <-. split; [done |].
       exists (net w.2). by rewrite En. }
  apply createNonblocking_ok in Ek as (_ & Hm & Ho). rewrite (vc_open _ _ Hv) in Hm, Ho.
  pose proof (connect_fds k fd (serverAddr_ (the_ctor w))) as Hco. unfold Sockets.connect.
  destruct (net_connect k fd (serverAddr_ (the_ctor w))) as [[ret errno] k2] eqn:En. cbn [snd] in Hco.
  rewrite Ho in Hco. cbn [mbind res_bind].
  set (e := if ret =? 0 then 0 else errno).
  destruct (one_of e connect_started) eqn:E1.
  { destruct (connecting_ok todo w k2 fd Hv Hq Hm Hco) as (w' & -> & ? & ? & ?). by split_and!. }
  destruct (one_of e connect_retry) eqn:E2; cbn [mret res_ret runs].
  - destruct (retry_frame fd (with_net k2 w)) as (R1 & R2 & _).
    split_and!; [| by eapply quiet_same | by rewrite R1].
    + apply retry_detached. destruct Hv as [[Hi Ho' Hd Ht Hb] Hc Hr Hst Hop].
      split; cbn; try done.
      * split; cbn; try done. intros fd' c' Hf. rewrite Hco, <- Hop. apply elem_of_union. right. eauto.
      * unfold discarded. cbn. unfold the_ctor in Hc. by rewrite Hc.
      * destruct (owner (poller_ w.1) fd) eqn:Eo; [| done]. apply Ho' in Eo. rewrite Hop in Eo. done.
  - split_and!; [| exact Hq | done]. change (with_net ?x (with_net ?y w)) with (with_net x w).
    apply vacant_net; [done | | done |].
    + right. intros Hsoft. specialize (Hsoft k fd (serverAddr_ (the_ctor w))). rewrite En in Hsoft.
      fold e in Hsoft. by rewrite one_of_app, E1, E2 in Hsoft.
    + by apply close_mine.
Qed.

Lemma startInLoop_ok todo w :
  vacant todo w -> quiet w -> state_ (the_ctor w) = kDisconnected ->
  runs (startInLoop new_channel (threadId_ w.1) w) (kept todo w).
Proof using Type*.
  intros Hv Hq Hs. unfold startInLoop. rewrite assertIn, Hs. rsimp. cbn [is_state].
  change (assert_ (is_state kDisconnected kDisconnected)) with (Ok tt). rsimp.
  destruct (connect_ (the_ctor w)) eqn:Hcn; [by apply connect_ok |].
  cbn [mret res_ret runs]. split_and!; [| done | done].
  apply (vacant_net todo w (net w.2)) in Hv as Hc; [| by left | done | apply Hv].
  by destruct w as [lp []].
Qed.

(** ** The other closures *)

(** [cinv] looks only at some fields of the loop, and counts closures. *)
Lemma cinv_same todo todo' w lp :
  poller_ lp = poller_ w.1 -> chans lp = chans w.1 -> threadId_ lp = threadId_ w.1 ->
  (forall t, t <> TStopInLoop -> queued t todo' (lp, w.2) = queued t todo w) ->
  cinv todo w -> cinv todo' (lp, w.2).
Proof using Type*.
  intros Ep Ec Et Hq [[Hi Ho Hd Ht Hb] Hst]. unfold cinv.
  change (the_ctor (lp, w.2)) with (the_ctor w). split.
  - split; cbn [fst snd]; rewrite ?Ep, ?Ec; done.
  - assert (Es : starts todo' (lp, w.2) = starts todo w) by (unfold starts; by rewrite Hq).
    destruct (is_state _ _).
    + destruct Hst as (c & ch & [Hc Hr Hown Harm Hcb Hm Hop Hrs Hst]). exists c, ch.
      split; cbn [fst snd]; rewrite ?Ep, ?Hq, ?Es; try done.
      unfold registered in *. cbn [fst]. by rewrite Ec, Ep, Et.
    + destruct Hst as [Hop Hdis Hs1 Hs2 Hs3 Hs4]. split; rewrite ?Es, ?Hq; try done.
      unfold discarded in *. change (the_ctor (lp, w.2)) with (the_ctor w).
      cbn [fst]. rewrite Ec, Ep. destruct (channel_ _); by rewrite Hq.
Qed.

Lemma stopInLoop_ok todo w :
  cinv todo w -> quiet w ->
  exists w', stopInLoop (threadId_ w.1) w = Ok w' /\ kept todo w w'.
Proof using Type*.
  intros [Hcm Hst] Hq. unfold stopInLoop. rewrite assertIn. rsimp.
  destruct (is_state (state_ (the_ctor w)) kConnecting) eqn:Es.
  2: { exists w. split; [done |]. split; [| done]. split; [done |]. by rewrite Es. }
  destruct Hst as (c & ch & Hat).
  set (w1 := on_ctor (setState kDisconnected) w).
  assert (Hcm1 : common w1) by (destruct Hcm; by split).
  assert (Hat1 : attempting todo w1 c ch) by (destruct Hat; by split).
  destruct (removeAndReset_ok todo w1 c ch Hcm1 Hat1) as (w2 & Hrun & Hdt & Hsf & _).
  { intros He. change (EventLoop.eventHandling_ w.1 = true) in He. destruct Hq. congruence. }
  change (threadId_ w1.1) with (threadId_ w.1) in Hrun. rewrite Hrun. rsimp.
  eexists. split; [done |]. split; [by apply retry_detached |].
  destruct (retry_frame (fd_ ch) w2) as (R1 & R2 & _). destruct Hsf as [S1 S2 _ _ S5 (ch' & S6 & _ & _ & S7)].
  split; [| by rewrite R1, S1]. eapply quiet_same; [exact R1 | exact R2 |].
  split; [rewrite S2; apply Hq |]. intros c' ch0 Hc' Hch0.
  rewrite S5 in Hc'. injection Hc' as <-. rewrite S6 in Hch0. injection Hch0 as <-.
  rewrite S7. destruct Hat as [Hc (Hch & _) _ _ _ _ _ _ _]. by apply (proj2 Hq c).
Qed.

Lemma not_attempting todo w c ch t :
  attempting todo w c ch -> t <> TStopInLoop -> queued t todo w = 0%nat.
Proof using.
  intros [_ _ _ _ _ _ _ Hr Hs] Ht. unfold starts in Hs. destruct t; try done. lia.
Qed.

Lemma queued_cons t x todo w :
  queued t (x :: todo) w = ((if decide (x = t) then 1 else 0) + queued t todo w)%nat.
Proof using. apply num_cons. Qed.

(** A closure is waiting, so no attempt is under way. *)
Lemma resting_because t todo w :
  cinv (t :: todo) w -> t <> TStopInLoop ->
  common w /\ is_state (state_ (the_ctor w)) kConnecting = false /\ resting (t :: todo) w.
Proof using Type*.
  intros [Hcm Hst] Ht. destruct (is_state _ _); [| done].
  destruct Hst as (c & ch & Hat). pose proof (not_attempting _ _ _ _ t Hat Ht) as H0.
  rewrite queued_cons, decide_True in H0 by done. lia.
Qed.

Lemma resetChannel_ok todo w :
  cinv (TResetChannel :: todo) w -> quiet w ->
  exists w', resetChannel w = Ok w' /\ kept todo w w'.
Proof using Type*.
  intros Hinv Hq. apply resting_because in Hinv as ([Hi Ho Hd Ht Hb] & Es & [Hop Hdis Hs1 Hs2 Hs3 Hs4]); [| done].
  unfold starts in Hs1, Hs3, Hs4. rewrite queued_cons, decide_False in Hs1, Hs2, Hs3, Hs4 by done.
  unfold discarded in Hdis. rewrite queued_cons, decide_True in Hdis by done.
  unfold resetChannel. destruct (channel_ (the_ctor w)) as [c|] eqn:Ec; [| lia].
  destruct Hdis as (Hr & ch & Hch & Hnc). unfold chan_destroy, load_chan. rewrite Hch. rsimp.
  rewrite (proj2 Hq c ch Ec Hch). cbn [negb assert_]. rsimp. eexists. split; [done |].
  split; [split | split; [| done]].
  - split; cbn; try done. by eapply inv_delete.
  - change (the_ctor _) with (with_channel None (the_ctor w)) at 1. cbn [state_ with_channel]. rewrite Es.
    split; cbn; try done. unfold discarded. cbn.
    change (queued TResetChannel todo _) with (queued TResetChannel todo w). lia.
  - split; [apply Hq | done].
Qed.

Lemma exec_ok t todo w :
  cinv (t :: todo) w -> quiet w ->
  runs (exec new_channel (threadId_ w.1) t w) (kept todo w).
Proof using Type*.
  intros Hinv Hq. destruct t; cbn [exec].
  - apply resting_because in Hinv as (Hcm & Es & [Hop Hdis Hs1 Hs2 Hs3 Hs4]); [| done].
    unfold starts in Hs1, Hs3. rewrite queued_cons, decide_True in Hs1, Hs2, Hs3 by done.
    assert (Hc : channel_ (the_ctor w) = None) by (apply Hs2; lia).
    unfold discarded in Hdis. rewrite Hc, queued_cons, decide_False in Hdis by done.
    apply startInLoop_ok; [| done |].
    + split; try done. unfold starts. lia.
    + destruct (state_ (the_ctor w)); [done | done |]. specialize (Hs3 eq_refl). lia.
  - destruct (stopInLoop_ok todo w) as (w' & -> & Hk); [| done | exact Hk].
    destruct w as [lp r]. eapply (cinv_same _ todo (lp, r)); [done.. | | exact Hinv].
    intros t Ht. by rewrite queued_cons, decide_False.
  - destruct (resetChannel_ok todo w Hinv Hq) as (w' & -> & Hk). exact Hk.
Qed.

Lemma run_functors_ok fs : forall w,
  cinv fs w -> quiet w -> runs (run_functors (exec new_channel (threadId_ w.1)) fs w) (kept [] w).
Proof using Type*.
  induction fs as [| t fs IH]; intros w Hinv Hq; cbn [run_functors]; [done |].
  eapply runs_bind; [by apply exec_ok |]. intros w1 (Hinv1 & Hq1 & Et).
  eapply runs_mono; [rewrite <- Et; by apply IH |]. intros w2 (? & ? & Et2).
  split_and!; [done | done | congruence].
Qed.

Lemma doPendingFunctors_ok w :
  cinv [] w -> quiet w -> runs (doPendingFunctors (exec new_channel (threadId_ w.1)) w) (kept [] w).
Proof using Type*.
  intros Hinv Hq. unfold doPendingFunctors.
  set (w1 := on_loop (with_calling true) w). cbn [swap_functors].
  eapply runs_bind.
  - apply (run_functors_ok (pendingFunctors_ w1.1) (with_pending [] w1.1, w1.2)); [| exact Hq].
    apply (cinv_same [] _ w); [done.. | | done]. intros t _. unfold queued. cbn. by rewrite app_nil_r.
  - intros w2 (Hinv2 & Hq2 & Et). cbn [mret res_ret runs]. split_and!; [| exact Hq2 | exact Et].
    destruct w2 as [lp2 r2]. eapply (cinv_same [] [] (lp2, r2)); done.
Qed.
(** ** The channel's events *)

Definition state_of w : States := state_ (the_ctor w).

Lemma attempting_frame todo w c ch : attempting todo w c ch -> same_frame c ch w w.
Proof using. intros [Hc (Hch & _) _ _ Hcb _ _ _ _]. split; try done. by exists ch. Qed.

Lemma same_frame_rest c ch w w1 w2 :
  same_frame c ch w w1 -> w2.1 = w1.1 -> channel_ (the_ctor w2) = channel_ (the_ctor w1) ->
  same_frame c ch w w2.
Proof using. intros [] E1 E2. split; rewrite ?E1, ?E2; done. Qed.

(** What an event of the channel makes of the attempt: a socket is handed over
    and the connector is up, or not. *)
Definition outcome w w' : Prop :=
  connect_ (the_ctor w') = connect_ (the_ctor w) /\
  ((handed w'.2 = handed w.2 /\ (state_of w' = kConnected -> connect_ (the_ctor w) = false))
   \/ (exists fd, fd ∉ base ∪ handed w.2 /\ handed w'.2 = {[fd]} ∪ handed w.2
         /\ state_of w' = kConnected /\ connect_ (the_ctor w) = true)).

Lemma outcome_trans w w1 w2 :
  connect_ (the_ctor w1) = connect_ (the_ctor w) -> handed w1.2 = handed w.2 -> outcome w1 w2 -> outcome w w2.
Proof using. unfold outcome. by intros -> ->. Qed.
Lemma retry_outcome fd w : outcome w (retry fd w).
Proof using.
  destruct w as [lp [[] k t h]]. unfold outcome, state_of. cbn.
  destruct connect_0; (split; [done |]; left; split; [done |]; done).
Qed.

Lemma handleError_ok w c ch :
  cinv [] w -> attempting [] w c ch -> state_of w = kConnecting -> may_remove w c ->
  exists w', handleError (threadId_ w.1) w = Ok w' /\ cinv [] w' /\ same_frame c ch w w'
    /\ state_of w' = kDisconnected /\ outcome w w'.
Proof using Type*.
  intros [Hcm _] Hat Hs Hmay. unfold handleError, state_of in *. rewrite Hs.
  change (assert_ (is_state kConnecting kConnecting)) with (Ok tt). rsimp.
  destruct (removeAndReset_ok [] w c ch Hcm Hat Hmay) as (w1 & Hrun & Hdt & Hsf & Hct & _ & Hhd).
  rewrite Hrun. rsimp. pose proof (getSocketError_fds (net w1.2) (fd_ ch)) as Hk.
  destruct (getSocketError (net w1.2) (fd_ ch)) as [e k]. cbn [snd] in Hk. rsimp.
  eexists. split; [done |]. destruct (retry_frame (fd_ ch) (with_net k w1)) as (R1 & R2 & R3).
  split; [| split; [| split]]; [apply retry_detached | by eapply same_frame_rest | done |].
  - by apply detached_net.
  - apply (outcome_trans _ (with_net k w1)); [by unfold the_ctor; cbn; rewrite Hct | exact Hhd | apply retry_outcome].
Qed.

Lemma handleWrite_ok w c ch :
  cinv [] w -> attempting [] w c ch -> state_of w = kConnecting -> may_remove w c ->
  exists w', handleWrite (threadId_ w.1) w = Ok w' /\ cinv [] w' /\ same_frame c ch w w'
    /\ state_of w' <> kConnecting /\ outcome w w'.
Proof using Type*.
  intros [Hcm _] Hat Hs Hmay. unfold handleWrite, state_of in *. rewrite Hs.
  change (is_state kConnecting kConnecting) with true. cbv iota.
  destruct (removeAndReset_ok [] w c ch Hcm Hat Hmay) as (w1 & Hrun & Hdt & Hsf & Hct & _ & Hhd).
  rewrite Hrun. rsimp. pose proof (getSocketError_fds (net w1.2) (fd_ ch)) as Hk.
  destruct (getSocketError (net w1.2) (fd_ ch)) as [e k]. cbn [snd] in Hk. rsimp.
  pose proof (detached_net _ _ _ k Hdt Hk) as Hdt'. set (w2 := with_net k w1) in *.
  assert (Hsf2 : same_frame c ch w w2) by by eapply same_frame_rest.
  destruct (retry_frame (fd_ ch) w2) as (R1 & R2 & R3).
  assert (Hretry : exists w', Ok (retry (fd_ ch) w2) = Ok w' /\ cinv [] w' /\ same_frame c ch w w'
            /\ state_ (the_ctor w') <> kConnecting /\ outcome w w').
  { eexists. split; [done |]. rewrite R3.
    split; [| split; [| split]]; [by apply retry_detached | by eapply same_frame_rest | done |].
    apply (outcome_trans _ w2); [by unfold the_ctor; cbn; rewrite Hct | exact Hhd | apply retry_outcome]. }
  destruct (negb (e =? 0)); [exact Hretry |]. destruct (isSelfConnect _ _); [exact Hretry |].
  destruct (up_detached _ _ _ Hdt') as [Hup Hclosed].
  change (connect_ (the_ctor (on_ctor (setState kConnected) w2))) with (connect_ (ctor w1.2)). rewrite Hct.
  destruct (connect_ (ctor w.2)) eqn:Ecn; (eexists; split; [done |]);
    (split; [done |]; split; [by eapply same_frame_rest |]; split; [done |]; split; [unfold the_ctor; cbn; by rewrite Hct |]).
  - right. exists (fd_ ch). split; [apply Hat |]. split; [cbn; by rewrite Hhd |]. done.
  - left. split; [exact Hhd |]. done.
Qed.
(** The channel may change what the connector does not look at. *)
Definition benign (ch ch' : Channel (loop_cb ctor_cb)) : Prop :=
  loop_ ch' = loop_ ch /\ fd_ ch' = fd_ ch /\ events_ ch' = events_ ch /\ index_ ch' = index_ ch
  /\ (attempt_callbacks ch -> attempt_callbacks ch').

Lemma attempting_put todo w c ch ch' :
  attempting todo w c ch -> benign ch ch' -> attempting todo (with_lp (put_chan c ch' w.1) w) c ch'.
Proof using Type*.
  intros [Hc (Hch & Hl & Hi) Hown Harm Hcb Hm Hop Hrs Hst] (B1 & B2 & B3 & B4 & B5).
  split; cbn; rewrite ?B2; try done; [| by apply B5].
  split; [apply lookup_insert_eq | split; [by rewrite B1 |]]. by eapply inv_modify.
Qed.

Lemma cinv_put todo w c ch ch' :
  channel_ (the_ctor w) = Some c -> chans w.1 !! c = Some ch -> benign ch ch' ->
  cinv todo w -> cinv todo (with_lp (put_chan c ch' w.1) w).
Proof using Type*.
  intros Hc Hch Hben [[Hi Ho Hd Ht Hb] Hst]. split.
  - destruct Hben as (_ & B2 & _ & B4 & _). split; cbn; try done. by eapply inv_modify.
  - change (the_ctor (with_lp _ w)) with (the_ctor w). destruct (is_state _ _).
    + destruct Hst as (c' & ch0 & Hat). exists c', ch'. pose proof (at_channel _ _ _ _ Hat) as Hc'.
      rewrite Hc in Hc'. injection Hc' as <-. pose proof (at_reg _ _ _ _ Hat) as (Hch0 & _).
      rewrite Hch in Hch0. injection Hch0 as <-. by apply (attempting_put _ _ _ ch).
    + destruct Hst as [Hop Hdis Hs1 Hs2 Hs3 Hs4]. split; try done.
      unfold discarded in *. change (the_ctor (with_lp _ w)) with (the_ctor w). rewrite Hc in *.
      destruct Hdis as (Hr & ch0 & Hch0 & Hn). rewrite Hch in Hch0. injection Hch0 as <-.
      split; [done |]. exists ch'. destruct Hben as (_ & B2 & _). cbn. rewrite B2.
      split; [apply lookup_insert_eq | done].
Qed.

Local Abbreviation get c := (fun w : world => chans w.1 !! c).
Local Abbreviation put c := (fun ch (w : world) => with_lp (put_chan c ch w.1) w).

(** The dispatch of the connector's channel, step by step. *)
Lemma dispatch_ok w c ch :
  cinv [] w -> attempting [] w c ch -> state_of w = kConnecting -> may_remove w c ->
  exists w', handleEventWithGuard (get c) (put c)
      (call_cb (call_ctor (threadId_ w.1))) (call_cb_read (fun cb _ => call_ctor (threadId_ w.1) cb)) 0 w = Ok w'
    /\ cinv [] w' /\ threadId_ w'.1 = threadId_ w.1
    /\ channel_ (the_ctor w') = Some c /\ outcome w w'
    /\ exists ch', chans w'.1 !! c = Some ch' /\ Channel.eventHandling_ ch' = false.
Proof using Type*.
  intros Hinv Hat Hs Hmay. unfold handleEventWithGuard, load.
  pose proof (at_reg _ _ _ _ Hat) as (Hch & _). rewrite Hch. rsimp.
  set (ch1 := with_eventHandling ch true). set (w1 := put c ch1 w).
  assert (Hben : benign ch ch1) by done.
  assert (Hat1 : attempting [] w1 c ch1) by by apply (attempting_put _ _ _ ch).
  assert (Hinv1 : cinv [] w1) by (apply (cinv_put [] w c ch ch1); [apply Hat | done..]).
  assert (Hmay1 : may_remove w1 c) by exact Hmay.
  change (state_of w1 = kConnecting) in Hs. change (threadId_ w.1) with (threadId_ w1.1).
  change (outcome w) with (outcome w1).
  clearbody w1. clear Hinv Hat Hmay Hch. clearbody ch1. clear Hben ch w. rename ch1 into ch, w1 into w.
  pose proof (at_reg _ _ _ _ Hat1) as (Hch & _). rewrite Hch. rsimp.
  destruct (at_callbacks _ _ _ _ Hat1) as (_ & Hcr & Hcc & Hcw & Hce).
  rewrite Hcc. cbn [opt_call]. assert (forall (b : bool) (w : world), (if b then mret w else mret w) = Ok w) as Hif by by intros [].
  rewrite Hif. rsimp. rewrite Hch. rsimp. rewrite Hce. cbn [opt_call call_cb call_ctor].
  (* the error callback *)
  assert (Herr : exists w2, (if has (revents_ ch) (Z.lor POLLERR POLLNVAL) then handleError (threadId_ w.1) w else mret w) = Ok w2
      /\ cinv [] w2 /\ same_frame c ch w w2 /\ outcome w w2 /\ (state_of w2 = kDisconnected \/ w2 = w)).
  { destruct (has _ _).
    - destruct (handleError_ok w c ch) as (w2 & -> & ? & ? & ? & ?); [done.. |]. exists w2. split_and!; try done. by left.
    - exists w. split; [done |]. split; [done |]. split; [exact (attempting_frame _ _ _ _ Hat1) |].
      split; [| by right]. split; [done |]. left. split; [done |]. by rewrite Hs. }
  destruct Herr as (w2 & -> & Hinv2 & Hsf2 & Hout2 & Hor). rsimp.
  destruct (sf_chan _ _ _ _ Hsf2) as (ch2 & Hch2 & Hr2 & (_ & Hcr2 & _ & Hcw2 & _) & _).
  rewrite Hch2. rsimp. rewrite Hcr2. cbn [opt_call]. rewrite Hif. rsimp. rewrite Hch2. rsimp.
  rewrite Hcw2. cbn [opt_call call_cb call_ctor].
  (* the write callback *)
  assert (Hwr : exists w3, (if has (revents_ ch2) POLLOUT then handleWrite (threadId_ w.1) w2 else mret w2) = Ok w3
      /\ cinv [] w3 /\ same_frame c ch w w3 /\ outcome w w3).
  { destruct (has _ _); [| by exists w2]. destruct Hor as [Hd | ->].
    - exists w2. split; [| done]. unfold handleWrite, state_of in *. by rewrite Hd.
    - destruct (handleWrite_ok w c ch) as (w3 & -> & ? & ? & ? & ?); [done.. |]. by exists w3. }
  destruct Hwr as (w3 & -> & Hinv3 & Hsf3 & Hout3). rsimp.
  destruct (sf_chan _ _ _ _ Hsf3) as (ch3 & Hch3 & _). rewrite Hch3. rsimp.
  eexists. split; [done |]. pose proof (sf_channel _ _ _ _ Hsf3) as Hc3.
  split; [| split; [| split; [| split]]].
  - by eapply cinv_put.
  - apply Hsf3.
  - exact Hc3.
  - exact Hout3.
  - eexists. split; [apply lookup_insert_eq | done].
Qed.
Lemma on_ready_ok r w :
  cinv [] w -> quiet w -> state_of w = kConnecting -> exists w', on_ready r w = Ok w' /\ kept [] w w' /\ outcome w w'.
Proof using Type*.
  intros Hinv Hq Hs. pose proof Hinv as [_ Hst]. unfold state_of in Hs. rewrite Hs in Hst.
  change (is_state kConnecting kConnecting) with true in Hst. destruct Hst as (c & ch & Hat).
  unfold on_ready. rewrite (at_channel _ _ _ _ Hat). pose proof (at_reg _ _ _ _ Hat) as (Hch & _).
  unfold load_chan. rewrite Hch. rsimp. set (ch1 := set_revents ch r).
  set (w1 := with_lp (put_chan c ch1 w.1) w).
  assert (Hben : benign ch ch1) by done.
  pose proof (attempting_put _ _ _ _ _ Hat Hben) as Hat1.
  assert (Hinv1 : cinv [] w1) by (apply (cinv_put [] w c ch ch1); [apply Hat | done..]).
  set (lp2 := with_current (Some c) (with_active [c] (with_handling true (put_chan c ch1 w.1)))).
  assert (Hinv2 : cinv [] (lp2, w1.2)) by by apply (cinv_same [] [] w1).
  destruct (dispatch_ok (lp2, w1.2) c ch1) as (w3 & Hrun & Hinv3 & Ht3 & Hc3 & Hout & ch3 & Hch3 & He3);
    [done | by destruct Hat1; split | done | by intros _ |].
  assert (Hh : channel_handleEvent (call_ctor (threadId_ w.1)) (fun cb _ => call_ctor (threadId_ w.1) cb)
            (fun _ _ => true) c 0 (lp2, w1.2) = Ok w3).
  { unfold channel_handleEvent, handleEvent, load. cbn [fst].
    assert (chans lp2 !! c = Some ch1) as -> by apply lookup_insert_eq. rsimp.
    destruct Hat1 as [_ _ _ _ (Htied & _) _ _ _ _]. rewrite Htied. exact Hrun. }
  match goal with |- context [channel_handleEvent ?f ?g ?a c 0 ?x] =>
    replace (channel_handleEvent f g a c 0 x) with (Ok w3) by (symmetry; exact Hh) end.
  rsimp. eexists. split; [done |].
  destruct w3 as [lp3 r3]. split; [| exact Hout]. split; [by apply (cinv_same [] [] (lp3, r3)) |]. split; [| exact Ht3].
  split; [done |]. intros c' ch' Hc' Hch'. change (channel_ (the_ctor (lp3, r3)) = Some c') in Hc'.
  rewrite Hc3 in Hc'. injection Hc' as <-. change (chans lp3 !! c = Some ch') in Hch'.
  cbn [fst] in Hch3. rewrite Hch3 in Hch'. by injection Hch' as <-.
Qed.

(** ** Properties *)

(** When each event can happen.  The owner starts a connector that is at rest
    with nothing planned; the poll reports a channel while it is watched; a
    timer of at least half a second expires after the functors of the
    iteration that set it have run; the owner has taken a connection out of the
    poller before it closes it.  [stop] can be called at any time. *)
Definition idle w : Prop := channel_ (the_ctor w) = None /\ starts [] w = 0%nat.
Definition legal w (e : cevent) : Prop :=
  match e with
  | EvStart _ => state_of w = kDisconnected /\ idle w
  | EvStop _ | EvFunctors => True
  | EvRestart => state_of w <> kConnecting /\ idle w
  | EvReady _ => state_of w = kConnecting
  | EvTimer => timers w.2 <> [] -> channel_ (the_ctor w) = None
  | EvClosed fd => fd ∈ handed w.2 /\ owner (poller_ w.1) fd = None
  end.

Lemma idle_vacant w f :
  cinv [] w -> state_of w <> kConnecting -> idle w ->
  channel_ (f (the_ctor w)) = channel_ (the_ctor w) -> delay_ok (retryDelayMs_ (f (the_ctor w))) ->
  vacant [] (on_ctor f w).
Proof using Type*.
  intros [[Hi Ho Hd Ht Hb] Hst] Hs [Hc Hno] Hf Hfd.
  unfold state_of, is_state in *. rewrite bool_decide_eq_false_2 in Hst by done.
  destruct Hst as [Hop Hdis _ _ _ _]. unfold discarded in Hdis. rewrite Hc in Hdis.
  split; [by split | | done..]. change (channel_ (f (the_ctor w)) = None). by rewrite Hf.
Qed.

Lemma quiet_queued t x w : quiet w -> quiet (on_loop (queueInLoop t x) w).
Proof using.
  destruct (queueInLoop_fields t x w.1) as (_ & _ & E3 & E4 & _). intros [H1 H2].
  split; cbn [on_loop fst]; rewrite ?E3, ?E4; [done | exact H2].
Qed.

Lemma start_event_ok t w :
  cinv [] w -> quiet w -> legal w (EvStart t) -> runs (run_cevent new_channel (EvStart t) w) (kept [] w).
Proof using Type*.
  intros Hinv Hq Hl. cbn [run_cevent legal] in *.
  destruct Hl as [Hs Hid]. unfold start. set (w1 := on_ctor (with_connect true) w).
  assert (Hv : vacant [] w1).
  { apply idle_vacant; [done | by rewrite Hs | done | done | apply Hinv]. }
  unfold runInLoop. destruct (isInLoopThread t w1.1) eqn:Et.
  - apply Z.eqb_eq in Et. subst t. by apply (startInLoop_ok [] w1).
  - destruct (queueInLoop_fields t TStartInLoop w1.1) as (E1 & E2 & E3 & E4 & _ & _ & E7).
    cbn [mret res_ret runs on_loop]. destruct Hv as [[Hi Ho Hd Ht Hb] Hc Hr Hst Hop].
    split; [| split; [by apply quiet_queued | exact E1]].
    change (on_loop (queueInLoop t TStartInLoop) w1) with (queueInLoop t TStartInLoop w1.1, w1.2).
    split; [split; cbn [fst snd]; rewrite ?E2, ?E3; done |].
    unfold state_of in Hs.
    change (state_ (the_ctor (queueInLoop t TStartInLoop w1.1, w1.2))) with (state_ (the_ctor w)). rewrite Hs.
    assert (Hqs : forall t', queued t' [] (queueInLoop t TStartInLoop w1.1, w1.2)
               = (queued t' [] w1 + num t' [TStartInLoop])%nat).
    { intros t'. unfold queued. cbn [fst app]. by rewrite E7, num_app. }
    unfold starts in Hst. split; unfold discarded, starts; rewrite ?Hqs;
      change (num TStartInLoop [TStartInLoop]) with 1%nat; cbn [snd].
    + done.
    + change (the_ctor (queueInLoop t TStartInLoop w1.1, w1.2)) with (the_ctor w1). rewrite Hc.
      change (num TResetChannel [TStartInLoop]) with 0%nat. lia.
    + lia.
    + done.
    + cbn. rewrite Hs. done.
    + lia.
Qed.

Lemma stop_event_ok t w :
  cinv [] w -> quiet w -> legal w (EvStop t) -> runs (run_cevent new_channel (EvStop t) w) (kept [] w).
Proof using Type*.
  intros Hinv Hq Hl. cbn [run_cevent legal] in *.
  unfold stop, runInLoop. set (w1 := on_ctor (with_connect false) w).
  assert (Hinv1 : cinv [] w1).
  { destruct Hinv as [[Hi Ho Hd Ht Hb] Hst]. split; [by split |].
    change (state_ (the_ctor w1)) with (state_ (the_ctor w)). destruct (is_state _ _).
    - destruct Hst as (c & ch & []). by exists c, ch; split.
    - destruct Hst. by split. }
  destruct (isInLoopThread t w1.1) eqn:Et.
  - apply Z.eqb_eq in Et. subst t. cbn [exec].
    destruct (stopInLoop_ok [] w1 Hinv1 Hq) as (w' & -> & Hk). exact Hk.
  - destruct (queueInLoop_fields t TStopInLoop w1.1) as (E1 & E2 & E3 & E4 & _ & _ & E7).
    split; [| split; [by apply quiet_queued | exact E1]].
    apply (cinv_same [] [] w1); try done. intros t' Ht'. unfold queued. cbn [fst app].
    rewrite E7, num_app. destruct t'; try done; by rewrite Nat.add_0_r.
Qed.

Lemma restart_event_ok w :
  cinv [] w -> quiet w -> legal w (EvRestart) -> runs (run_cevent new_channel (EvRestart) w) (kept [] w).
Proof using Type*.
  intros Hinv Hq Hl. cbn [run_cevent legal] in *.
  destruct Hl as [Hs Hid]. unfold restart. rewrite assertIn. rsimp.
  set (w1 := on_ctor _ w).
  assert (Hv : vacant [] w1) by (apply idle_vacant; [done.. | apply delay_init]).
  by apply (startInLoop_ok [] w1).
Qed.

Lemma timer_event_ok w :
  cinv [] w -> quiet w -> legal w (EvTimer) -> runs (run_cevent new_channel (EvTimer) w) (kept [] w).
Proof using Type*.
  intros Hinv Hq Hl. cbn [run_cevent legal] in *.
  destruct (timers w.2) as [| d ts] eqn:Et; [done |]. specialize (Hl ltac:(done)).
  destruct Hinv as [[Hi Ho Hd Ht Hb] Hst].
  assert (Hs : is_state (state_ (the_ctor w)) kConnecting = false).
  { destruct (is_state _ _); [| done]. destruct Hst as (c & ch & [_ _ _ _ _ _ _ _ Hs]).
    unfold starts in Hs. rewrite Et in Hs. cbn in Hs. lia. }
  rewrite Hs in Hst. destruct Hst as [Hop Hdis Hs1 Hs2 Hs3 _]. unfold starts in Hs1, Hs3.
  rewrite Et in Hs1, Hs3, Ht. cbn [length] in Hs1, Hs3. unfold discarded in Hdis. rewrite Hl in Hdis.
  apply (startInLoop_ok [] (with_timers ts w)).
  - split; try done.
    + split; try done. by apply Forall_cons in Ht as [_ ?].
    + unfold starts. cbn [with_timers snd timers]. change (queued TStartInLoop [] _) with (queued TStartInLoop [] w). lia.
  - exact Hq.
  - unfold is_state in Hs. apply bool_decide_eq_false in Hs. change (state_ (the_ctor w) = kDisconnected).
    destruct (state_ (the_ctor w)); [done | done |]. specialize (Hs3 eq_refl). lia.
Qed.

Lemma closed_event_ok fd w :
  cinv [] w -> quiet w -> legal w (EvClosed fd) -> runs (run_cevent new_channel (EvClosed fd) w) (kept [] w).
Proof using Type*.
  intros Hinv Hq Hl. cbn [run_cevent legal] in *.
  destruct Hl as [Hfd Hown]. split; [| done]. destruct Hinv as [[Hi Ho Hd Ht Hb] Hst].
  assert (Hnb : fd ∉ base) by set_solver.
  split.
  - split; try done.
    + cbn. intros fd' c' Hf. rewrite close_opened. pose proof (Ho _ _ Hf). set_unfold. split; [done |]. congruence.
    + cbn. set_solver.
  - change (the_ctor (with_handed _ _)) with (the_ctor w). destruct (is_state _ _).
    + destruct Hst as (c & ch & [Hc Hr Ho' Ha Hcb Hm Hop Hrs Hss]). exists c, ch. split; try done; cbn.
      * set_solver.
      * rewrite close_opened, Hop. set_solver.
    + destruct Hst as [Hop Hdis Hs1 Hs2 Hs3 Hs4]. split; try done. cbn. rewrite close_opened, Hop. set_solver.
Qed.

Lemma event_ok e w :
  cinv [] w -> quiet w -> legal w e -> runs (run_cevent new_channel e w) (kept [] w).
Proof using Type*.
  intros Hinv Hq Hl. destruct e as [t | t | | r | | | fd].
  - by apply start_event_ok.
  - by apply stop_event_ok.
  - by apply restart_event_ok.
  - cbn [run_cevent]. destruct (on_ready_ok r w Hinv Hq Hl) as (w' & -> & Hk & _). exact Hk.
  - by apply doPendingFunctors_ok.
  - by apply timer_event_ok.
  - by apply closed_event_ok.
Qed.
(** A connector that was just made, in a loop where nothing of it is queued. *)
Record fresh_connector w : Prop := {
  fc_ctor : ctor w.2 = Connector_new (serverAddr_ (the_ctor w));
  fc_timers : timers w.2 = [];
  fc_handed : handed w.2 = ∅;
  fc_open : opened (net w.2) = base;
  fc_pending : pendingFunctors_ w.1 = [];
  fc_inv : inv (poller_ w.1) (chans w.1);
  fc_owned fd c : owner (poller_ w.1) fd = Some c -> fd ∈ base;
  fc_handling : EventLoop.eventHandling_ w.1 = false
}.

Fixpoint legal_run (es : list cevent) w : Prop :=
  match es with
  | [] => True
  | e :: es => legal w e
      /\ match run_cevent new_channel e w with Ok w' => legal_run es w' | Err _ => True end
  end.

Lemma run_cevents_ok es : forall w,
  cinv [] w -> quiet w -> legal_run es w -> runs (run_cevents new_channel es w) (fun w' => cinv [] w' /\ quiet w').
Proof using Type*.
  induction es as [| e es IH]; intros w Hinv Hq Hl; cbn [run_cevents legal_run] in *; [done |].
  destruct Hl as [He Hl]. pose proof (event_ok e w Hinv Hq He) as Hr.
  destruct (run_cevent new_channel e w) as [w' | f]; [| exact Hr].
  destruct Hr as (Hinv' & Hq' & _). by apply IH.
Qed.

Lemma fresh_ok w : fresh_connector w -> cinv [] w /\ quiet w.
Proof using PollerSpec0 NetLaws0 EventFd0.
  clear dependent new_channel.
  intros [Hc Ht Hh Ho Hp Hi Hown He].
  assert (Hs : state_ (the_ctor w) = kDisconnected) by (unfold the_ctor; by rewrite Hc).
  split; [split |].
  - split; rewrite ?Ht, ?Hh; [done | | | done | set_solver].
    + intros fd c Hf. rewrite Ho. eauto.
    + unfold the_ctor. rewrite Hc. apply delay_init.
  - rewrite Hs. change (is_state kDisconnected kConnecting) with false. cbv iota.
    split; unfold discarded, starts, queued, the_ctor; rewrite ?Ht, ?Hp, ?Hh, ?Hc; try done.
    + rewrite Ho. set_solver.
    + cbn. lia.
  - split; [done |]. intros c ch. unfold the_ctor. rewrite Hc. done.
Qed.

Lemma starts_planned w : (0 < starts [] w)%nat -> timers w.2 <> [] \/ TStartInLoop ∈ pendingFunctors_ w.1.
Proof using.
  unfold starts, queued. cbn [app]. intros H0.
  destruct (timers w.2); [right | by left]. cbn in H0.
  destruct (decide (TStartInLoop ∈ pendingFunctors_ w.1)) as [| Hn]; [done |]. exfalso.
  unfold num in H0. rewrite filter_none in H0; [cbn in H0; lia |].
  apply Forall_forall. intros x Hx ->. done.
Qed.

(** What a connector's owner relies on. *)
Record connector_ok w : Prop := {
  (** at most one retry is planned, after half a second to half a minute *)
  ok_timers : (length (timers w.2) <= 1)%nat /\ Forall (fun d => 500 <= d <= 30000) (timers w.2);
  (** every socket made is closed, handed over, or that of the attempt under
      way, which is watched until it becomes writable *)
  ok_sockets :
    if is_state (state_of w) kConnecting
    then timers w.2 = [] /\ exists c ch, channel_ (the_ctor w) = Some c /\ chans w.1 !! c = Some ch
         /\ armed (poller_ w.1) (fd_ ch) = kWriteEvent /\ fd_ ch ∉ base ∪ handed w.2
         /\ opened (net w.2) = {[fd_ ch]} ∪ (base ∪ handed w.2)
    else opened (net w.2) = base ∪ handed w.2;
  (** an owner that wants a connection gets one, or an attempt is planned *)
  ok_trying : soft_errors -> connect_ (the_ctor w) = true -> state_of w = kDisconnected ->
    timers w.2 <> [] \/ TStartInLoop ∈ pendingFunctors_ w.1
}.

Lemma stop_resting w :
  state_of w <> kConnecting -> stop new_channel (threadId_ w.1) w = Ok (on_ctor (with_connect false) w).
Proof using.
  intros Hs. unfold stop, runInLoop, isInLoopThread. cbn [on_ctor with_ctor fst]. rewrite Z.eqb_refl.
  cbn [exec]. unfold stopInLoop, assertInLoopThread, isInLoopThread.
  change (threadId_ (w.1, _).1) with (threadId_ w.1). rewrite Z.eqb_refl. rsimp.
  unfold is_state. rewrite bool_decide_eq_false_2; [done | exact Hs].
Qed.

(** Stopping does not cancel the retry timer: when the connector is started
    again before that timer expires and the new attempt gets under way, the
    old timer then finds it connecting and the assertion of [startInLoop]
    fails. *)
Lemma stop_start_then_timer_asserts w d ts fd k :
  cinv [] w -> quiet w -> state_of w = kDisconnected -> channel_ (the_ctor w) = None ->
  timers w.2 = d :: ts -> net_socket (net w.2) = (fd, k) -> 0 <= fd ->
  one_of (let '(ret, errno, _) := net_connect k fd (serverAddr_ (the_ctor w)) in
          if ret =? 0 then 0 else errno) connect_started = true ->
  let tid := threadId_ w.1 in
  run_cevents new_channel [EvStop tid; EvStart tid; EvTimer] w = Err AssertFail.
Proof using Type*.
  intros [[Hi Ho Hd Ht Hb] _] _ Hs Hc Hts Hk Hfd Hcon. cbv zeta. cbn [run_cevents run_cevent].
  rewrite stop_resting by (by rewrite Hs). rsimp.
  set (w1 := on_ctor (with_connect true) (on_ctor (with_connect false) w)).
  assert (Hc1 : the_ctor w1 = with_connect true (the_ctor w)) by done.
  assert (Hw1 : common w1) by by split.
  assert (Hstart : start new_channel (threadId_ w.1) (on_ctor (with_connect false) w)
                   = startInLoop new_channel (threadId_ w1.1) w1).
  { unfold start, runInLoop, isInLoopThread. cbn [on_ctor with_ctor fst]. by rewrite Z.eqb_refl. }
  assert (Hup : exists w2, startInLoop new_channel (threadId_ w1.1) w1 = Ok w2
            /\ timers w2.2 = d :: ts /\ state_of w2 = kConnecting).
  { unfold startInLoop. rewrite assertIn. rsimp. rewrite Hc1. cbn [state_ with_connect connect_].
    unfold state_of in Hs. rewrite Hs. change (assert_ (is_state kDisconnected kDisconnected)) with (Ok tt). rsimp.
    unfold connect, createNonblockingOrDie. change (net w1.2) with (net w.2). rewrite Hk.
    rewrite (proj2 (Z.ltb_ge fd 0)) by done. rsimp. unfold Sockets.connect.
    rewrite Hc1. cbn [serverAddr_ with_connect].
    pose proof (socket_fd (net w.2)) as Hm. rewrite Hk in Hm. cbn [fst snd] in Hm.
    destruct Hm as [[? _] | (_ & Hn & _)]; [lia |].
    destruct (net_connect k fd (serverAddr_ (the_ctor w))) as [[ret errno] k2]. rewrite Hcon.
    destruct (connecting_run w1 k2 fd Hw1) as (c & ch & p & s & Hrun & _); [by rewrite Hc1 | done |].
    rewrite Hrun. eexists. split; [done |]. split; [exact Hts | done]. }
  rewrite Hstart. destruct Hup as (w2 & -> & Ht2 & Hs2). rsimp. rewrite Ht2.
  unfold startInLoop. change (with_timers ts w2).1 with w2.1. rewrite assertIn. rsimp.
  unfold state_of in Hs2. change (the_ctor (with_timers ts w2)) with (the_ctor w2). by rewrite Hs2.
Qed.

(** Starting a connector that is not disconnected fails at once. *)
Lemma start_active_asserts w :
  state_of w <> kDisconnected -> run_cevent new_channel (EvStart (threadId_ w.1)) w = Err AssertFail.
Proof using.
  intros Hs. cbn [run_cevent]. unfold start, runInLoop, isInLoopThread. cbn [on_ctor with_ctor fst].
  rewrite Z.eqb_refl. cbn [exec]. unfold startInLoop, assertInLoopThread, isInLoopThread.
  change (threadId_ (w.1, _).1) with (threadId_ w.1). rewrite Z.eqb_refl. rsimp.
  unfold is_state. by rewrite bool_decide_eq_false_2 by exact Hs.
Qed.

(** C10: A connector never gives up, never has two attempts under way and never
    loses a socket.  The histories are those of [legal_run]: the connector is
    started, by any thread, when it is disconnected with no retry planned and its
    old channel reset, and restarted when besides it is not connecting; it is
    stopped at any time; the poll reports its channel while it is watched; a
    timer expires after the functors of the iteration that set it; a connection
    is closed by its owner after it left the poller.  Then no assertion fails;
    each socket it makes ends up closed once or with the owner; and while a
    connection is wanted and not there, an attempt is under way or one is
    planned, unless connect(2) failed with an error the code does not retry.
    The condition on starts is needed: starting a connector that is not
    disconnected fails an assertion at once, and one that is stopped and started
    again while a retry is planned fails it when the timer of that retry expires
    during the new attempt. *)
Theorem connector_never_gives_up es w0 :
  fresh_connector w0 -> legal_run es w0 ->
  runs (run_cevents new_channel es w0) (fun w =>
    connector_ok w
    /\ (state_of w <> kDisconnected ->
         run_cevent new_channel (EvStart (threadId_ w.1)) w = Err AssertFail)
    /\ (forall d ts fd k, state_of w = kDisconnected -> channel_ (the_ctor w) = None ->
         timers w.2 = d :: ts -> net_socket (net w.2) = (fd, k) -> 0 <= fd ->
         one_of (let '(ret, errno, _) := net_connect k fd (serverAddr_ (the_ctor w)) in
                 if ret =? 0 then 0 else errno) connect_started = true ->
         run_cevents new_channel [EvStop (threadId_ w.1); EvStart (threadId_ w.1); EvTimer] w
         = Err AssertFail)).
Proof using Type*.
  intros Hf Hl. destruct (fresh_ok w0 Hf) as [Hinv Hq].
  eapply runs_mono; [by apply run_cevents_ok |]. intros w [Hw Hqw].
  split; [| split; [apply start_active_asserts | intros; by eapply stop_start_then_timer_asserts]].
  destruct Hw as [[_ _ _ Hts _] Hst]. split.
  - split; [| exact Hts]. destruct (is_state _ _).
    + destruct Hst as (c & ch & Hat). pose proof (at_starts _ _ _ _ Hat) as H0. unfold starts in H0. lia.
    + pose proof (rs_starts _ _ Hst) as H0. unfold starts in H0. lia.
  - unfold state_of. destruct (is_state _ _); [| apply Hst].
    destruct Hst as (c & ch & [H1 (H2 & _) H3 H4 H5 H6 H7 H8 H9]). unfold starts in H9. split.
    + destruct (timers w.2); [done | cbn in H9; lia].
    + exists c, ch. done.
  - unfold state_of. intros Hsoft Hcn Hd. rewrite Hd in Hst.
    apply starts_planned. by apply (rs_trying _ _ Hst).
Qed.

Lemma retry_wanted w fd :
  connect_ (the_ctor w) = true ->
  timers (retry fd w).2 = timers w.2 ++ [retryDelayMs_ (the_ctor w)]
  /\ connect_ (the_ctor (retry fd w)) = true
  /\ retryDelayMs_ (the_ctor (retry fd w)) = Z.min (s32 (retryDelayMs_ (the_ctor w) * 2)) kMaxRetryDelayMs.
Proof using. destruct w as [lp [[] k t h]]. cbn. by intros ->. Qed.

(** Retries back off: the delay doubles from half a second up to half a
    minute, without overflow. *)
Theorem retries_back_off n w fd :
  connect_ (the_ctor w) = true -> retryDelayMs_ (the_ctor w) = kInitRetryDelayMs ->
  timers (Nat.iter n (retry fd) w).2
  = timers w.2 ++ map (fun i => Z.min (500 * 2 ^ Z.of_nat i) 30000) (seq 0 n).
Proof using.
  intros Hcn Hd.
  assert (timers (Nat.iter n (retry fd) w).2
      = timers w.2 ++ map (fun i => Z.min (500 * 2 ^ Z.of_nat i) 30000) (seq 0 n)
    /\ connect_ (the_ctor (Nat.iter n (retry fd) w)) = true
    /\ retryDelayMs_ (the_ctor (Nat.iter n (retry fd) w)) = Z.min (500 * 2 ^ Z.of_nat n) 30000) as [? _]; [| done].
  induction n as [| n (IH1 & IH2 & IH3)].
  - rewrite app_nil_r. by split_and!.
  - change (Nat.iter (S n) (retry fd) w) with (retry fd (Nat.iter n (retry fd) w)).
    destruct (retry_wanted (Nat.iter n (retry fd) w) fd IH2) as (-> & -> & ->).
    rewrite IH1, IH3, seq_S, map_app, <- app_assoc. cbn [map Nat.add]. split_and!; [done | done |].
    assert (0 < 2 ^ Z.of_nat n) by (apply Z.pow_pos_nonneg; lia).
    unfold kMaxRetryDelayMs. rewrite s32_small by lia.
    rewrite Nat2Z.inj_succ, Z.pow_succ_r by lia. lia.
Qed.
End connector_props.

(** ** A connector on an epoll loop, to a server that refuses *)

Abbreviation demo_ctor_world :=
  (EventLoop ctor_cb ctask (EPollPoller demo_epoll) demo_counter * crest demo_net)%type.

Definition demo_ctor_loop : EventLoop ctor_cb ctask (EPollPoller demo_epoll) demo_counter :=
  {| looping_ := true; quit_ := false; EventLoop.eventHandling_ := false;
     callingPendingFunctors_ := false; iteration_ := 0; threadId_ := 1; pollReturnTime_ := 0;
     poller_ := EPollPoller_new (mkDemoEpoll ∅); chans := ∅;
     wakeupFd_ := mkCounter 0; wakeupChannel_ := 7; activeChannels_ := [];
     currentActiveChannel_ := None; pendingFunctors_ := [] |}.

(** connect(2) is in progress; the socket then reports ECONNREFUSED. *)
Definition demo_ctor_new : demo_ctor_world :=
  (demo_ctor_loop,
   mkCRest (Connector_new (mkAddr AF_INET 1 16777343))
     (mkDemoNet {[0; 1; 2]} 100 [] EINPROGRESS ECONNREFUSED) [] ∅).

Lemma demo_ctor_fresh : fresh_connector (dn_opened (net demo_ctor_new.2)) demo_ctor_new.
Proof.
  split; try reflexivity.
  - split.
    + intros fd. reflexivity.
    + intros c ch Hc. change (@lookup Z _ (gmap Z _) _ c ∅ = Some ch) in Hc. by rewrite lookup_empty in Hc.
  - intros fd c Hf. change (@lookup Z _ (gmap Z _) _ fd ∅ = Some c) in Hf. by rewrite lookup_empty in Hf.
Qed.

Lemma legal_cons new_channel e es (w w' : demo_ctor_world) :
  legal w e -> run_cevent new_channel e w = Ok w' -> legal_run new_channel es w' ->
  legal_run new_channel (e :: es) w.
Proof. intros Hl Hr Hes. split; [exact Hl |]. by rewrite Hr. Qed.

(** Started, refused, and asked to stop by another thread before the retry. *)
Definition demo_refused : list cevent := [EvStart 1; EvReady POLLOUT; EvFunctors].

Lemma demo_refused_legal es w :
  run_cevents above demo_refused demo_ctor_new = Ok w -> legal_run above es w ->
  legal_run above (demo_refused ++ es) demo_ctor_new.
Proof.
  intros Hw Hes. unfold demo_refused. cbn [app].
  eapply legal_cons; [split; [reflexivity | split; reflexivity] | vm_compute; reflexivity |].
  eapply legal_cons; [reflexivity | vm_compute; reflexivity |].
  eapply legal_cons; [exact I | vm_compute; reflexivity |].
  vm_compute in Hw. injection Hw as <-. exact Hes.
Qed.

Definition demo_waiting : demo_ctor_world :=
  match run_cevents above demo_refused demo_ctor_new with Ok w => w | Err _ => demo_ctor_new end.

Lemma connector_never_gives_up_witness :
  runs (run_cevents above (demo_refused ++ [EvTimer; EvStop 2; EvFunctors; EvFunctors]) demo_ctor_new)
    (connector_ok (dn_opened (net demo_ctor_new.2))).
Proof.
  pose proof (connector_never_gives_up _ above above_fresh
    (demo_refused ++ [EvTimer; EvStop 2; EvFunctors; EvFunctors]) demo_ctor_new demo_ctor_fresh) as Hr.
  eapply runs_mono; [apply Hr | by intros w [Hw _]].
  apply (demo_refused_legal _ demo_waiting); [vm_compute; reflexivity |].
  eapply legal_cons; [intros _; vm_compute; reflexivity | vm_compute; reflexivity |].
  eapply legal_cons; [exact I | vm_compute; reflexivity |].
  eapply legal_cons; [exact I | vm_compute; reflexivity |].
  eapply legal_cons; [exact I | vm_compute; reflexivity |]. exact I.
Defined.

Lemma demo_waiting_ok :
  cinv (dn_opened (net demo_ctor_new.2)) [] demo_waiting /\ quiet demo_waiting.
Proof.
  destruct (fresh_ok _ _ demo_ctor_fresh) as [Hinv Hq].
  pose proof (run_cevents_ok _ above above_fresh demo_refused demo_ctor_new Hinv Hq) as Hr.
  specialize (Hr (demo_refused_legal [] demo_waiting ltac:(vm_compute; reflexivity) I)).
  unfold demo_waiting. destruct (run_cevents above demo_refused demo_ctor_new) as [w | f] eqn:Er.
  - exact Hr.
  - exfalso. vm_compute in Er. discriminate Er.
Qed.

Lemma stop_start_demo :
  run_cevents above [EvStop 1; EvStart 1; EvTimer] demo_waiting = Err AssertFail.
Proof.
  destruct demo_waiting_ok as [Hinv Hq].
  apply (stop_start_then_timer_asserts _ above above_fresh demo_waiting 500 [] 3
    (mkDemoNet {[0; 1; 2; 3]} 100 [] EINPROGRESS ECONNREFUSED) Hinv Hq); vm_compute; try reflexivity.
  discriminate.
Defined.

Lemma retries_back_off_witness :
  timers (Nat.iter 8 (retry 3) (on_ctor (with_connect true) demo_ctor_new)).2
  = [500; 1000; 2000; 4000; 8000; 16000; 30000; 30000].
Proof.
  rewrite (retries_back_off 8 (on_ctor (with_connect true) demo_ctor_new) 3); reflexivity.
Defined.
