(* ===== verification/TcpServer.v ===== *)
(** * TcpServer: connections, and the loops they live in

    [muduo/net/TcpServer.cc], [EventLoopThreadPool.cc].  The world is the
    server, the queues of closures of its loops (a loop is named by its thread)
    and the connections ever made, in order.  Of a connection the server sees
    its life: [TcpConnection.v] shows that in each state exactly the calls
    succeed that are modelled here as succeeding.  The events are the atomic
    actions of the threads: a connection is accepted, a loop runs the closure
    at the head of its queue, a peer closes, the application half-closes. *)
From S2P Require Import Prelude Format Sockets TcpConnection.

(** ** The pool of loops *)

Module EventLoopThreadPool.

(*@ muduo/muduo/net/EventLoopThreadPool.h 45-58 EventLoopThreadPool *)
Record Pool : Type := mkPool {
  baseLoop_ : Z; started_ : bool; numThreads_ : Z; next_ : Z; loops_ : list Z
}.

(*@ muduo/muduo/net/EventLoopThreadPool.cc 20-26 EventLoopThreadPool::EventLoopThreadPool *)
Definition Pool_new (baseLoop : Z) : Pool := mkPool baseLoop false 0 0 [].

(*@ muduo/muduo/net/EventLoopThreadPool.h 38-38 EventLoopThreadPool::setThreadNum *)
Definition setThreadNum (n : Z) (p : Pool) : Pool := mkPool (baseLoop_ p) (started_ p) n (next_ p) (loops_ p).

(** [startLoop i] is the loop of the [i]-th thread started. *)
(*@ muduo/muduo/net/EventLoopThreadPool.cc 34-57 EventLoopThreadPool::start *)
Definition start (startLoop : nat -> Z) (tid : Z) (p : Pool) : res Pool :=
  assert_ (negb (started_ p));;
  if tid =? baseLoop_ p
  then mret (mkPool (baseLoop_ p) true (numThreads_ p) (next_ p)
               (loops_ p ++ map startLoop (seq 0 (Z.to_nat (numThreads_ p)))))
  else Err FatalLog.

(*@ muduo/muduo/net/EventLoopThreadPool.cc 59-76 EventLoopThreadPool::getNextLoop *)
Definition getNextLoop (tid : Z) (p : Pool) : res (Z * Pool) :=
  if tid =? baseLoop_ p
  then
    match loops_ p with
    | [] => mret (baseLoop_ p, p)
    | ls =>
        match ls !! Z.to_nat (next_ p) with
        | None => Err BadAccess
        | Some loop =>
            let next := s32 (next_ p + 1) in
            let next := if zlen ls <=? u64 next then 0 else next in
            mret (loop, mkPool (baseLoop_ p) (started_ p) (numThreads_ p) next (loops_ p))
        end
    end
  else Err FatalLog.

(** The loop of the [i]-th connection. *)
Definition nth_loop (p : Pool) (i : nat) : Z :=
  match loops_ p with [] => baseLoop_ p | ls => default (baseLoop_ p) (ls !! (i mod length ls)%nat) end.

(** The pool after [i] calls of [getNextLoop]. *)
Definition pool_at (p : Pool) (i : nat) : Prop :=
  match loops_ p with [] => next_ p = 0 | ls => next_ p = Z.of_nat (i mod length ls) end.

Lemma getNextLoop_ok p i :
  pool_at p i -> zlen (loops_ p) < 2 ^ 31 ->
  exists p', getNextLoop (baseLoop_ p) p = Ok (nth_loop p i, p')
    /\ pool_at p' (S i) /\ loops_ p' = loops_ p /\ baseLoop_ p' = baseLoop_ p.
Proof.
  intros Hp Hlen. unfold getNextLoop, nth_loop, pool_at in *. rewrite Z.eqb_refl.
  destruct (loops_ p) as [| l ls] eqn:El; [exists p; by rewrite El |].
  set (n := length (l :: ls)) in *. assert (Hn : (0 < n)%nat) by (unfold n; simpl; lia).
  pose proof (Nat.mod_upper_bound i n ltac:(lia)) as Hm.
  rewrite Hp, Nat2Z.id. destruct (lookup_lt_is_Some_2 (l :: ls) (i mod n)%nat Hm) as [x Hx].
  rewrite Hx. cbn [default from_option id]. eexists. split; [done |]. cbn [loops_ baseLoop_ next_].
  split; [| done]. unfold zlen in *. fold n in Hlen |- *.
  rewrite s32_small by lia. rewrite u64_small by lia.
  replace (S i mod n)%nat with (if decide (S (i mod n) = n) then 0 else S (i mod n))%nat.
  2: { rewrite <- (Nat.add_1_r i), Nat.Div0.add_mod. destruct (decide (n = 1%nat)) as [E1 | E1].
       - rewrite E1, !Nat.mod_1_r. done.
       - rewrite (Nat.mod_small 1) by lia. case_decide as Ed.
         + rewrite Nat.add_1_r, Ed. symmetry. apply Nat.Div0.mod_same.
         + rewrite (Nat.mod_small (i mod n + 1)) by lia. lia. }
  generalize dependent (i mod n)%nat. intros m Hp Hm Hx.
  case_decide; destruct (Z.leb_spec (Z.of_nat n) (Z.of_nat m + 1)); lia.
Qed.
End EventLoopThreadPool.
Import EventLoopThreadPool.

(** ** The server *)

(** A connection as the server and the loops see it; [c_established] and
    [c_destroyed] count the calls that completed. *)
Record Conn : Type := mkConn {
  c_name : list byte; c_loop : Z; c_state : StateE; c_established : nat; c_destroyed : nat
}.

Inductive stask : Type :=
| TEstablished (c : nat)
| TRemoveInLoop (c : nat)
| TDestroyed (c : nat).
#[export] Instance stask_eq_dec : EqDecision stask.
Proof. solve_decision. Defined.

(*@ muduo/muduo/net/TcpServer.h 104-140 TcpServer *)
Record TcpServer : Type := mkServer {
  loop_ : Z;
  hostport_ : list byte;
  name_ : list byte;
  threadPool_ : Pool;
  started_ : bool;
  nextConnId_ : Z;
  connections_ : gmap (list byte) nat
}.

Record world : Type := mkWorld {
  server : TcpServer;
  queues : gmap Z (list stask);
  conns : list Conn
}.

Definition queue (l : Z) (w : world) : list stask := default [] (queues w !! l).
Definition with_server (s : TcpServer) (w : world) : world := mkWorld s (queues w) (conns w).
Definition with_queue (l : Z) (q : list stask) (w : world) : world :=
  mkWorld (server w) (<[l := q]> (queues w)) (conns w).
Definition with_conn (i : nat) (c : Conn) (w : world) : world :=
  mkWorld (server w) (queues w) (<[i := c]> (conns w)).
Definition load_conn (i : nat) (w : world) : res Conn :=
  match conns w !! i with Some c => Ok c | None => Err BadAccess end.
Definition assertIn_ (l tid : Z) : res unit := if l =? tid then Ok tt else Err FatalLog.
Definition set_state (s : StateE) (c : Conn) : Conn :=
  mkConn (c_name c) (c_loop c) s (c_established c) (c_destroyed c).

(** [loop->queueInLoop(t)]. *)
Definition queueIn (l : Z) (t : stask) (w : world) : world := with_queue l (queue l w ++ [t]) w.

(*@ muduo/muduo/net/TcpServer.cc 24-52 TcpServer::TcpServer *)
Definition TcpServer_new (loop : Z) (listenAddr : sockaddr_in) (nameArg : list byte) : res TcpServer :=
  hostport ← InetAddress_toIpPort listenAddr;
  mret (mkServer loop hostport nameArg (Pool_new loop) false 1 ∅).

(*@ muduo/muduo/net/TcpServer.cc 71-75 TcpServer::setThreadNum *)
Definition server_setThreadNum (n : Z) (s : TcpServer) : res TcpServer :=
  assert_ (0 <=? n);;
  mret (mkServer (loop_ s) (hostport_ s) (name_ s) (setThreadNum n (threadPool_ s)) (started_ s)
          (nextConnId_ s) (connections_ s)).

(** [start]: the pool is started once; [Acceptor::listen] is in [Acceptor.v]. *)
(*@ muduo/muduo/net/TcpServer.cc 78-93 TcpServer::start *)
Definition server_start (startLoop : nat -> Z) (tid : Z) (s : TcpServer) : res TcpServer :=
  if started_ s then mret s
  else
    p ← start startLoop tid (threadPool_ s);
    mret (mkServer (loop_ s) (hostport_ s) (name_ s) p true (nextConnId_ s) (connections_ s)).

(** ** What the loops run for a connection *)

(** [TcpConnection::connectEstablished]. *)
Definition connectEstablished (tid : Z) (i : nat) (w : world) : res world :=
  c ← load_conn i w;
  assertIn_ (c_loop c) tid;;
  assert_ (is_state (c_state c) kConnecting);;
  mret (with_conn i (mkConn (c_name c) (c_loop c) kConnected (S (c_established c)) (c_destroyed c)) w).

(** [TcpConnection::connectDestroyed]: the channel can be removed only when
    nothing is watched any more. *)
Definition connectDestroyed (tid : Z) (i : nat) (w : world) : res world :=
  c ← load_conn i w;
  assertIn_ (c_loop c) tid;;
  let s := if is_state (c_state c) kConnected then kDisconnected else c_state c in
  assert_ (is_state s kDisconnected);;
  mret (with_conn i (mkConn (c_name c) (c_loop c) s (c_established c) (S (c_destroyed c))) w).

(*@ muduo/muduo/net/TcpServer.cc 160-178 TcpServer::removeConnectionInLoop *)
Definition removeConnectionInLoop (tid : Z) (i : nat) (w : world) : res world :=
  let s := server w in
  assertIn_ (loop_ s) tid;;
  c ← load_conn i w;
  assert_ (bool_decide (is_Some (connections_ s !! c_name c)));;
  let s := mkServer (loop_ s) (hostport_ s) (name_ s) (threadPool_ s) (started_ s) (nextConnId_ s)
             (delete (c_name c) (connections_ s)) in
  mret (queueIn (c_loop c) (TDestroyed i) (with_server s w)).

(*@ muduo/muduo/net/TcpServer.cc 153-157 TcpServer::removeConnection *)
Definition removeConnection (tid : Z) (i : nat) (w : world) : res world :=
  if loop_ (server w) =? tid then removeConnectionInLoop tid i w
  else mret (queueIn (loop_ (server w)) (TRemoveInLoop i) w).

(** [TcpConnection::handleClose], whose close callback is [removeConnection]. *)
Definition handleClose (tid : Z) (i : nat) (w : world) : res world :=
  c ← load_conn i w;
  assertIn_ (c_loop c) tid;;
  assert_ (is_state (c_state c) kConnected || is_state (c_state c) kDisconnecting);;
  removeConnection tid i (with_conn i (set_state kDisconnected c) w).

Definition connName (s : TcpServer) : list byte :=
  name_ s ++ snprintf 32 ([COLON] ++ hostport_ s ++ bs "#" ++ dec (nextConnId_ s)).

(*@ muduo/muduo/net/TcpServer.cc 96-150 TcpServer::newConnection *)
Definition newConnection (tid : Z) (w : world) : res world :=
  let s := server w in
  assertIn_ (loop_ s) tid;;
  '(ioLoop, pool) ← getNextLoop tid (threadPool_ s);
  let name := connName s in
  let i := length (conns w) in
  let s := mkServer (loop_ s) (hostport_ s) (name_ s) pool (started_ s) (s32 (nextConnId_ s + 1))
             (<[name := i]> (connections_ s)) in
  let w := mkWorld s (queues w) (conns w ++ [mkConn name ioLoop kConnecting 0 0]) in
  if ioLoop =? tid then connectEstablished tid i w
  else mret (queueIn ioLoop (TEstablished i) w).

(** What [~TcpServer] does with one connection: the map's reference is
    dropped, and [connectDestroyed] runs in the connection's loop. *)
Definition destroy_conn (tid : Z) (i : nat) (w : world) : res world :=
  c ← load_conn i w;
  if c_loop c =? tid then connectDestroyed tid i w else mret (queueIn (c_loop c) (TDestroyed i) w).
Fixpoint destroy_conns (tid : Z) (l : list nat) (w : world) : res world :=
  match l with [] => mret w | i :: l => w ← destroy_conn tid i w; destroy_conns tid l w end.
(*@ muduo/muduo/net/TcpServer.cc 54-68 TcpServer::~TcpServer *)
Definition TcpServer_dtor (tid : Z) (w : world) : res world :=
  assertIn_ (loop_ (server w)) tid;;
  destroy_conns tid (map_to_list (connections_ (server w))).*2 w.

Definition exec (tid : Z) (t : stask) (w : world) : res world :=
  match t with
  | TEstablished i => connectEstablished tid i w
  | TRemoveInLoop i => removeConnectionInLoop tid i w
  | TDestroyed i => connectDestroyed tid i w
  end.

(** ** Events *)

Inductive sevent : Type :=
| Accept
| RunTask (l : Z)
(** the peer of a connection closed it *)
| Closed (i : nat)
(** the application called [shutdown] *)
| HalfClose (i : nat).
#[export] Instance sevent_eq_dec : EqDecision sevent.
Proof. solve_decision. Defined.

(** A loop with an empty queue has nothing to run; the poll reports only
    connections that are established and not closed. *)
Definition run_sevent (e : sevent) (w : world) : res world :=
  match e with
  | Accept => newConnection (loop_ (server w)) w
  | RunTask l =>
      match queue l w with
      | [] => mret w
      | t :: q => exec l t (with_queue l q w)
      end
  | Closed i =>
      match conns w !! i with
      | Some c => if is_state (c_state c) kConnected || is_state (c_state c) kDisconnecting
                  then handleClose (c_loop c) i w else mret w
      | None => mret w
      end
  | HalfClose i =>
      match conns w !! i with
      | Some c => mret (if is_state (c_state c) kConnected then with_conn i (set_state kDisconnecting c) w else w)
      | None => mret w
      end
  end.

Fixpoint run_sevents (es : list sevent) (w : world) : res world :=
  match es with [] => mret w | e :: es => w ← run_sevent e w; run_sevents es w end.

(** ** Names *)

Lemma snprintf_all size text : zlen text < size -> snprintf size text = text.
Proof. intros. apply ztake_all. lia. Qed.

Lemma dec_inj a b : 0 <= a < 10 ^ 40 -> 0 <= b < 10 ^ 40 -> dec a = dec b -> a = b.
Proof.
  intros Ha Hb. unfold dec. destruct (Z.ltb_spec a 0), (Z.ltb_spec b 0); try lia.
  intros E. rewrite <- (dec_u_val a Ha), <- (dec_u_val b Hb). by rewrite E.
Qed.

Lemma zlen_dec a k : 0 <= a < 10 ^ k -> 0 < k <= 40 -> zlen (dec a) <= k.
Proof. intros Ha Hk. unfold dec. destruct (Z.ltb_spec a 0); [lia |]. by apply dec_u_len. Qed.

(** How many connections can be told apart: at most 21 characters of address
    leave eight digits in the 32 bytes of [buf]. *)
Definition max_conns : Z := 100000000.

Section lifecycle.
Variables (base : Z) (host nm : list byte) (loops : list Z).
Hypothesis host_short : zlen host <= 21.
Hypothesis loops_few : zlen loops < 2 ^ 31.

Definition name_at (i : nat) : list byte :=
  nm ++ snprintf 32 ([COLON] ++ host ++ bs "#" ++ dec (Z.of_nat i + 1)).

Lemma name_at_inj i j :
  Z.of_nat i + 1 < max_conns -> Z.of_nat j + 1 < max_conns -> name_at i = name_at j -> i = j.
Proof using host_short.
  unfold max_conns. intros Hi Hj. unfold name_at.
  assert (Hlen : forall k, 0 <= k < 10 ^ 8 -> zlen ([COLON] ++ host ++ bs "#" ++ dec k) < 32).
  { intros k Hk. rewrite !zlen_app. change (zlen [COLON]) with 1. change (zlen (bs "#")) with 1.
    pose proof (zlen_dec k 8). lia. }
  rewrite !snprintf_all by (apply Hlen; lia).
  intros E%app_inv_head%app_inv_head%app_inv_head%app_inv_head. apply dec_inj in E; lia.
Qed.

(** ** The invariant *)

Definition cnt (t : stask) (l : Z) (w : world) : nat := length (filter (fun x => x = t) (queue l w)).

Definition task_conn (t : stask) : nat :=
  match t with TEstablished i | TRemoveInLoop i | TDestroyed i => i end.
(** The loop a closure belongs in. *)
Definition task_loop (c : Conn) (t : stask) : Z :=
  match t with TRemoveInLoop _ => base | _ => c_loop c end.

(** What the closures waiting ([e], [r], [d] are the numbers of
    [connectEstablished], [removeConnectionInLoop] and [connectDestroyed]) and
    the map ([m]) say in each state of a connection. *)
Definition phase (c : Conn) (e r d : nat) (m : bool) : Prop :=
  match c_state c with
  | kConnecting => e = 1%nat /\ r = 0%nat /\ d = 0%nat /\ m = true
                   /\ c_established c = 0%nat /\ c_destroyed c = 0%nat
  | kConnected | kDisconnecting =>
      e = 0%nat /\ r = 0%nat /\ d = 0%nat /\ m = true /\ c_established c = 1%nat /\ c_destroyed c = 0%nat
  | kDisconnected =>
      e = 0%nat /\ c_established c = 1%nat
      /\ ((r = 1%nat /\ d = 0%nat /\ m = true /\ c_destroyed c = 0%nat)
          \/ (r = 0%nat /\ d = 1%nat /\ m = false /\ c_destroyed c = 0%nat)
          \/ (r = 0%nat /\ d = 0%nat /\ m = false /\ c_destroyed c = 1%nat))
  end.

Definition in_map (n : list byte) (w : world) : bool := bool_decide (is_Some (connections_ (server w) !! n)).

Definition phase_of (w : world) (i : nat) (c : Conn) : Prop :=
  phase c (cnt (TEstablished i) (c_loop c) w) (cnt (TRemoveInLoop i) base w)
    (cnt (TDestroyed i) (c_loop c) w) (in_map (c_name c) w).

Record server_inv (w : world) : Prop := {
  si_loop : loop_ (server w) = base;
  si_host : hostport_ (server w) = host;
  si_name : name_ (server w) = nm;
  si_next : nextConnId_ (server w) = Z.of_nat (length (conns w)) + 1;
  si_pool : pool_at (threadPool_ (server w)) (length (conns w));
  si_loops : loops_ (threadPool_ (server w)) = loops;
  si_base : baseLoop_ (threadPool_ (server w)) = base;
  si_few : Z.of_nat (length (conns w)) + 1 <= max_conns;
  si_conn i c : conns w !! i = Some c ->
    c_name c = name_at i /\ c_loop c = nth_loop (threadPool_ (server w)) i;
  si_map n i : connections_ (server w) !! n = Some i ->
    exists c, conns w !! i = Some c /\ c_name c = n;
  si_task l t : t ∈ queue l w -> exists c, conns w !! task_conn t = Some c /\ l = task_loop c t;
  si_phase i c : conns w !! i = Some c -> phase_of w i c
}.

Lemma conn_index w i c : server_inv w -> conns w !! i = Some c -> Z.of_nat i + 1 < max_conns.
Proof using.
  intros Hi Hc. pose proof (lookup_lt_Some _ _ _ Hc). pose proof (si_few _ Hi). unfold max_conns in *. lia.
Qed.

Lemma other_name w i j c c' :
  server_inv w -> conns w !! i = Some c -> conns w !! j = Some c' -> i <> j -> c_name c <> c_name c'.
Proof using host_short.
  intros Hi Hc Hc' Hne E. destruct (si_conn _ Hi _ _ Hc) as [E1 _], (si_conn _ Hi _ _ Hc') as [E2 _].
  apply Hne, name_at_inj; [by eapply conn_index | by eapply conn_index | congruence].
Qed.

Lemma cnt_pos t l w : t ∈ queue l w -> (0 < cnt t l w)%nat.
Proof using.
  intros Ht. unfold cnt. assert (t ∈ filter (fun x => x = t) (queue l w)) as Hf by by apply list_elem_of_filter.
  destruct (filter _ _); [by apply not_elem_of_nil in Hf | simpl; lia].
Qed.

Lemma queue_with_queue l q l' w : queue l' (with_queue l q w) = if decide (l' = l) then q else queue l' w.
Proof using.
  unfold queue, with_queue. cbn [queues]. case_decide as E.
  - subst. by rewrite lookup_insert_eq.
  - by rewrite lookup_insert_ne.
Qed.

Lemma cnt_queueIn t l l' t' w :
  cnt t l (queueIn l' t' w) = (cnt t l w + (if decide (l = l' /\ t' = t) then 1 else 0))%nat.
Proof using.
  unfold cnt, queueIn. rewrite queue_with_queue. case_decide as E; [subst |].
  - rewrite filter_app, length_app, filter_cons. cbn. repeat case_decide; cbn; naive_solver lia.
  - rewrite decide_False by naive_solver. lia.
Qed.

Lemma cnt_pop t l l' t' q w :
  queue l' w = t' :: q ->
  cnt t l w = (cnt t l (with_queue l' q w) + (if decide (l = l' /\ t' = t) then 1 else 0))%nat.
Proof using.
  intros Hq. unfold cnt. rewrite queue_with_queue. case_decide as E; [subst |].
  - rewrite Hq, filter_cons. repeat case_decide; cbn; naive_solver lia.
  - rewrite decide_False by naive_solver. lia.
Qed.

(** A step that concerns connection [i] only. *)
Record only (i : nat) (c c' : Conn) (w w' : world) : Prop := {
  on_server : loop_ (server w') = loop_ (server w) /\ hostport_ (server w') = hostport_ (server w)
     /\ name_ (server w') = name_ (server w) /\ threadPool_ (server w') = threadPool_ (server w)
     /\ nextConnId_ (server w') = nextConnId_ (server w);
  on_map : connections_ (server w') = connections_ (server w)
     \/ connections_ (server w') = delete (c_name c) (connections_ (server w));
  on_conns : conns w' = <[i := c']> (conns w);
  on_name : c_name c' = c_name c;
  on_loop : c_loop c' = c_loop c;
  on_cnt t l : task_conn t <> i -> cnt t l w' = cnt t l w;
  on_task l t : t ∈ queue l w' -> task_conn t = i -> l = task_loop c t;
  on_others l t : t ∈ queue l w' -> task_conn t <> i -> t ∈ queue l w
}.

Lemma only_inv i c c' w w' :
  server_inv w -> conns w !! i = Some c -> only i c c' w w' -> phase_of w' i c' -> server_inv w'.
Proof using host_short.
  intros Hi Hc [Hsv Hmp Hcs Hnm Hlp Hcn Htk Hot] Hph.
  assert (Hlen : length (conns w') = length (conns w)) by (rewrite Hcs; apply length_insert).
  assert (Hlk : forall j, conns w' !! j = if decide (j = i) then Some c' else conns w !! j).
  { intros j. rewrite Hcs. pose proof (lookup_lt_Some _ _ _ Hc).
    case_decide; [subst; by rewrite list_lookup_insert_eq | by rewrite list_lookup_insert_ne]. }
  destruct Hi as [H1 H2 H3 H4 H5 H6 H7 H8 Hcon Hmap Htask Hphase] eqn:EHi. clear EHi.
  assert (Hinv : server_inv w) by by split.
  destruct Hsv as (V1 & V2 & V3 & V4 & V5). split; rewrite ?V1, ?V2, ?V3, ?V4, ?V5, ?Hlen; try assumption.
  - intros j cj. rewrite Hlk. case_decide as Ej; [| apply Hcon].
    intros [= <-]. subst j. rewrite Hnm, Hlp. by apply Hcon.
  - intros n j Hn. assert (connections_ (server w) !! n = Some j) as Hn'.
    { destruct Hmp as [E | E]; rewrite E in Hn; [done |]. by apply lookup_delete_Some in Hn as [_ ?]. }
    destruct (Hmap n j Hn') as (cj & Hcj & Hnj). rewrite Hlk. case_decide as Ej; [| by exists cj].
    subst j. exists c'. split; [done |]. congruence.
  - intros l t Ht. destruct (decide (task_conn t = i)) as [Ei | Ei].
    + exists c'. rewrite Hlk, decide_True by done. split; [done |].
      rewrite (Htk l t Ht Ei). destruct t; cbn; congruence.
    + destruct (Htask l t (Hot l t Ht Ei)) as (ct & Hct & Hl). exists ct. by rewrite Hlk, decide_False.
  - intros j cj. rewrite Hlk. case_decide as Ej; [intros [= <-]; by subst |]. intros Hcj.
    pose proof (Hphase j cj Hcj) as Hp. unfold phase_of in *.
    rewrite !Hcn by done. replace (in_map (c_name cj) w') with (in_map (c_name cj) w); [done |].
    unfold in_map. destruct Hmp as [-> | ->]; [done |].
    rewrite lookup_delete_ne; [done |]. by eapply (other_name w i j).
Qed.
(** ** The events keep it *)

Lemma cnt_zero t l w : cnt t l w = 0%nat -> t ∉ queue l w.
Proof using. intros H0 Ht. apply cnt_pos in Ht. lia. Qed.

Lemma elem_queueIn t l l' t' w :
  t ∈ queue l (queueIn l' t' w) <-> t ∈ queue l w \/ (l = l' /\ t = t').
Proof using.
  unfold queueIn. rewrite queue_with_queue. case_decide as E; [subst |].
  - rewrite elem_of_app, list_elem_of_singleton. naive_solver.
  - naive_solver.
Qed.
Lemma elem_popped t l l' t' q w :
  queue l' w = t' :: q -> t ∈ queue l (with_queue l' q w) -> t ∈ queue l w.
Proof using.
  intros Hq. rewrite queue_with_queue. case_decide; [subst; rewrite Hq, elem_of_cons; by right | done].
Qed.

Lemma assertIn_ok l : assertIn_ l l = Ok tt.
Proof using. unfold assertIn_. by rewrite Z.eqb_refl. Qed.

(** The closure at the head of a queue and its connection. *)
Lemma head_task l t q w :
  server_inv w -> queue l w = t :: q ->
  exists c, conns w !! task_conn t = Some c /\ l = task_loop c t /\ (0 < cnt t l w)%nat.
Proof using.
  intros Hi Hq. assert (Ht : t ∈ queue l w) by (rewrite Hq, elem_of_cons; by left).
  destruct (si_task _ Hi _ _ Ht) as (c & Hc & Hl). exists c. auto using cnt_pos.
Qed.

(** Replacing a connection after its closure was taken from the queue. *)
Lemma popped_only i c c' l t q w :
  server_inv w -> conns w !! i = Some c -> queue l w = t :: q -> task_conn t = i ->
  c_name c' = c_name c -> c_loop c' = c_loop c ->
  only i c c' w (with_conn i c' (with_queue l q w)).
Proof using.
  intros Hi Hc Hq Ht Hn Hl. split; try done.
  - by left.
  - intros t' l' Hne. pose proof (cnt_pop t' l' l t q w Hq) as Hp.
    rewrite decide_False in Hp by (intros [_ ->]; done). change (cnt t' l' (with_conn _ _ ?x)) with (cnt t' l' x). lia.
  - intros l' t' Ht' Ei. apply (elem_popped _ _ _ _ _ _ Hq) in Ht'.
    destruct (si_task _ Hi _ _ Ht') as (c2 & Hc2 & ->). rewrite Ei, Hc in Hc2. by injection Hc2 as <-.
  - intros l' t' Ht' _. by apply (elem_popped _ _ _ _ _ _ Hq) in Ht'.
Qed.

Lemma run_established i l q w :
  server_inv w -> queue l w = TEstablished i :: q ->
  exists w', exec l (TEstablished i) (with_queue l q w) = Ok w' /\ server_inv w'.
Proof using host_short.
  intros Hi Hq. destruct (head_task _ _ _ _ Hi Hq) as (c & Hc & Hl & Hpos). cbn [task_conn task_loop] in *.
  cbn [exec]. unfold connectEstablished, load_conn. cbn [conns with_queue]. rewrite Hc. rsimp.
  subst l. rewrite assertIn_ok. rsimp.
  pose proof (si_phase _ Hi _ _ Hc) as Hp. unfold phase_of, phase in Hp.
  destruct (c_state c) eqn:Es; try lia. cbn [is_state]. change (assert_ (is_state kConnecting kConnecting)) with (Ok tt).
  rsimp. eexists. split; [done |]. destruct Hp as (He & Hr & Hd & Hm & H1 & H2).
  pose proof (cnt_pop (TEstablished i) (c_loop c) _ _ _ _ Hq) as Pe. rewrite decide_True in Pe by done.
  pose proof (cnt_pop (TRemoveInLoop i) base _ _ _ _ Hq) as Pr. rewrite decide_False in Pr by (intros []; done).
  pose proof (cnt_pop (TDestroyed i) (c_loop c) _ _ _ _ Hq) as Pd. rewrite decide_False in Pd by (intros []; done).
  eapply only_inv; [exact Hi | exact Hc | by eapply popped_only |].
  unfold phase_of, phase. cbn [c_state c_loop c_name c_established c_destroyed].
  change (cnt ?t ?l (with_conn _ _ ?x)) with (cnt t l x). change (in_map ?n (with_conn _ _ _)) with (in_map n w).
  rewrite H1, H2, Hm. lia.
Qed.

Lemma run_destroyed i l q w :
  server_inv w -> queue l w = TDestroyed i :: q ->
  exists w', exec l (TDestroyed i) (with_queue l q w) = Ok w' /\ server_inv w'.
Proof using host_short.
  intros Hi Hq. destruct (head_task _ _ _ _ Hi Hq) as (c & Hc & Hl & Hpos). cbn [task_conn task_loop] in *.
  cbn [exec]. unfold connectDestroyed, load_conn. cbn [conns with_queue]. rewrite Hc. rsimp.
  subst l. rewrite assertIn_ok. rsimp.
  pose proof (si_phase _ Hi _ _ Hc) as Hp. unfold phase_of, phase in Hp.
  destruct (c_state c) eqn:Es; try lia. change (is_state kDisconnected kConnected) with false. cbv iota.
  change (assert_ (is_state kDisconnected kDisconnected)) with (Ok tt).
  rsimp. eexists. split; [done |]. destruct Hp as (He & H1 & Hp).
  pose proof (cnt_pop (TEstablished i) (c_loop c) _ _ _ _ Hq) as Pe. rewrite decide_False in Pe by (intros []; done).
  pose proof (cnt_pop (TRemoveInLoop i) base _ _ _ _ Hq) as Pr. rewrite decide_False in Pr by (intros []; done).
  pose proof (cnt_pop (TDestroyed i) (c_loop c) _ _ _ _ Hq) as Pd. rewrite decide_True in Pd by done.
  eapply only_inv; [exact Hi | exact Hc | by eapply popped_only |].
  unfold phase_of, phase. cbn [c_state c_loop c_name c_established c_destroyed].
  change (cnt ?t ?l (with_conn _ _ ?x)) with (cnt t l x). change (in_map ?n (with_conn _ _ _)) with (in_map n w).
  rewrite H1. destruct Hp as [Hp | [(Hr & Hd & Hm & H2) | Hp]]; [lia | | lia]. rewrite Hm, H2.
  split; [lia |]. split; [done |]. right. right. split_and!; [lia | lia | done | done].
Qed.
Definition unmap (n : list byte) (s : TcpServer) : TcpServer :=
  mkServer (loop_ s) (hostport_ s) (name_ s) (threadPool_ s) (started_ s) (nextConnId_ s)
    (delete n (connections_ s)).
(** The world after [removeConnectionInLoop]. *)
Definition removed (i : nat) (c : Conn) (w : world) : world :=
  queueIn (c_loop c) (TDestroyed i) (with_server (unmap (c_name c) (server w)) w).

Lemma remove_run i c w :
  loop_ (server w) = base -> conns w !! i = Some c -> in_map (c_name c) w = true ->
  removeConnectionInLoop base i w = Ok (removed i c w).
Proof using.
  intros Hb Hc Hm. unfold removeConnectionInLoop, load_conn. rewrite Hb, assertIn_ok. rsimp. rewrite Hc. rsimp.
  unfold in_map in Hm. rewrite Hm. cbn [assert_]. rsimp. unfold removed, unmap. by rewrite Hb.
Qed.

Lemma in_map_removed i c w : in_map (c_name c) (removed i c w) = false.
Proof using.
  unfold in_map, removed. cbn. rewrite lookup_delete_eq. by apply bool_decide_eq_false_2; intros [].
Qed.

Lemma cnt_removed t l i c w :
  cnt t l (removed i c w) = (cnt t l w + (if decide (l = c_loop c /\ TDestroyed i = t) then 1 else 0))%nat.
Proof using. unfold removed. by rewrite cnt_queueIn. Qed.

(** [removed] concerns one connection, whatever was done to it before. *)
Lemma removed_only i c c' w w1 :
  server_inv w -> conns w !! i = Some c -> only i c c' w w1 ->
  connections_ (server w1) = connections_ (server w) -> only i c c' w (removed i c' w1).
Proof using.
  intros Hi Hc [Hsv Hmp Hcs Hnm Hlp Hcn Htk Hot] Em. split; try done.
  - right. cbn. by rewrite Hnm, Em.
  - intros t l Hne. rewrite cnt_removed, decide_False by (intros [_ <-]; done). rewrite Hcn by done. lia.
  - intros l t Ht Ei. apply elem_queueIn in Ht as [Ht | [-> ->]]; [by apply Htk | exact Hlp].
  - intros l t Ht Ei. apply elem_queueIn in Ht as [Ht | [-> ->]]; [by apply Hot | done].
Qed.

Lemma run_removed i l q w :
  server_inv w -> queue l w = TRemoveInLoop i :: q ->
  exists w', exec l (TRemoveInLoop i) (with_queue l q w) = Ok w' /\ server_inv w'.
Proof using host_short.
  intros Hi Hq. destruct (head_task _ _ _ _ Hi Hq) as (c & Hc & Hl & Hpos). cbn [task_conn task_loop] in *.
  pose proof (si_phase _ Hi _ _ Hc) as Hp. unfold phase_of, phase in Hp. subst l.
  destruct (c_state c) eqn:Es; try lia. destruct Hp as (He & H1 & [(Hr & Hd & Hm & H2) | Hp]); [| lia].
  cbn [exec]. rewrite (remove_run i c) by (done || apply Hi). eexists. split; [done |].
  pose proof (cnt_pop (TEstablished i) (c_loop c) _ _ _ _ Hq) as Pe. rewrite decide_False in Pe by (intros []; done).
  pose proof (cnt_pop (TRemoveInLoop i) base _ _ _ _ Hq) as Pr. rewrite decide_True in Pr by done.
  pose proof (cnt_pop (TDestroyed i) (c_loop c) _ _ _ _ Hq) as Pd. rewrite decide_False in Pd by (intros []; done).
  eapply (only_inv i c c); [exact Hi | exact Hc | |].
  - apply removed_only; [done | done | | done].
    destruct (popped_only i c c _ _ _ _ Hi Hc Hq eq_refl eq_refl eq_refl) as [P1 P2 P3 P4 P5 P6 P7 P8].
    split; try done. symmetry. by apply list_insert_id.
  - unfold phase_of, phase. rewrite in_map_removed, !cnt_removed, Es, H1, H2.
    rewrite decide_False by (intros []; done). rewrite decide_False by (intros []; done). rewrite decide_True by done.
    split; [lia |]. split; [done |]. right. left. split_and!; [lia | lia | done | done].
Qed.

(** Changing a connection in place. *)
Lemma in_place_only i c c' w :
  server_inv w -> conns w !! i = Some c -> c_name c' = c_name c -> c_loop c' = c_loop c ->
  only i c c' w (with_conn i c' w).
Proof using.
  intros Hi Hc Hn Hl. split; try done; [by left |]. intros l t Ht Ei.
  destruct (si_task _ Hi _ _ Ht) as (c2 & Hc2 & ->). rewrite Ei, Hc in Hc2. by injection Hc2 as <-.
Qed.

Definition is_open (c : Conn) : bool :=
  is_state (c_state c) kConnected || is_state (c_state c) kDisconnecting.

Lemma open_phase c e r d m :
  is_open c = true -> phase c e r d m ->
  e = 0%nat /\ r = 0%nat /\ d = 0%nat /\ m = true /\ c_established c = 1%nat /\ c_destroyed c = 0%nat.
Proof using. unfold is_open, phase. by destruct (c_state c). Qed.

Lemma close_ok i c w :
  server_inv w -> conns w !! i = Some c -> is_open c = true ->
  exists w', handleClose (c_loop c) i w = Ok w' /\ server_inv w'.
Proof using host_short.
  intros Hi Hc Ho. destruct (open_phase _ _ _ _ _ Ho (si_phase _ Hi _ _ Hc)) as (He & Hr & Hd & Hm & H1 & H2).
  unfold handleClose, load_conn. rewrite Hc. rsimp. rewrite assertIn_ok. rsimp.
  unfold is_open in Ho. rewrite Ho. cbn [assert_]. rsimp.
  set (c' := set_state kDisconnected c). set (w1 := with_conn i c' w).
  assert (Ho1 : only i c c' w w1) by by apply in_place_only.
  assert (Hc1 : conns w1 !! i = Some c').
  { cbn. apply list_lookup_insert_eq. by eapply lookup_lt_Some. }
  unfold removeConnection. change (loop_ (server w1)) with (loop_ (server w)). rewrite (si_loop _ Hi).
  destruct (Z.eqb_spec base (c_loop c)) as [Eb | Eb].
  - rewrite <- Eb. rewrite (remove_run i c' w1) by (done || apply Hi). eexists. split; [done |].
    eapply only_inv; [exact Hi | exact Hc | by eapply removed_only |].
    unfold phase_of, phase. change (c_name c') with (c_name c') at 1. rewrite in_map_removed, !cnt_removed.
    cbn [c_state c' set_state c_loop c_established c_destroyed].
    change (cnt ?t ?l w1) with (cnt t l w). rewrite He, Hr, Hd, H1, H2.
    rewrite decide_False by (intros []; done). rewrite decide_False by (intros []; done). rewrite decide_True by done.
    split; [done |]. split; [done |]. right. left. by split_and!.
  - eexists. split; [done |]. destruct Ho1 as [P1 P2 P3 P4 P5 P6 P7 P8].
    eapply only_inv; [exact Hi | exact Hc | |].
    + split; try done.
      * intros t l Hne. rewrite cnt_queueIn, decide_False by (intros [_ <-]; done). rewrite P6 by done. lia.
      * intros l t Ht Ei. apply elem_queueIn in Ht as [Ht | [-> ->]]; [by apply P7 | done].
      * intros l t Ht Ei. apply elem_queueIn in Ht as [Ht | [-> ->]]; [by apply P8 | done].
    + unfold phase_of, phase. cbn [c_state c' set_state c_loop c_established c_destroyed].
      rewrite !cnt_queueIn. change (cnt ?t ?l w1) with (cnt t l w). rewrite He, Hr, Hd, H1, H2.
      rewrite decide_False by (intros []; done). rewrite decide_True by done. rewrite decide_False by (intros []; done).
      split; [done |]. split; [done |]. left. split_and!; [done | done | exact Hm | done].
Qed.
Lemma half_close_ok i c w :
  server_inv w -> conns w !! i = Some c -> c_state c = kConnected ->
  server_inv (with_conn i (set_state kDisconnecting c) w).
Proof using host_short.
  intros Hi Hc Hs. eapply only_inv; [exact Hi | exact Hc | by apply in_place_only |].
  pose proof (si_phase _ Hi _ _ Hc) as Hp. unfold phase_of, phase in *. rewrite Hs in Hp. exact Hp.
Qed.

(** One connection more. *)
Record added (c' : Conn) (p : Pool) (w w' : world) : Prop := {
  ad_server : server w' = mkServer base host nm p (started_ (server w)) (Z.of_nat (length (conns w)) + 2)
                (<[name_at (length (conns w)) := length (conns w)]> (connections_ (server w)));
  ad_conns : conns w' = conns w ++ [c'];
  ad_name : c_name c' = name_at (length (conns w));
  ad_loop : c_loop c' = nth_loop (threadPool_ (server w)) (length (conns w));
  ad_cnt t l : task_conn t <> length (conns w) -> cnt t l w' = cnt t l w;
  ad_task l t : t ∈ queue l w' -> t ∈ queue l w \/ (task_conn t = length (conns w) /\ l = task_loop c' t)
}.

Lemma nth_loop_same p p' i : loops_ p' = loops_ p -> baseLoop_ p' = baseLoop_ p -> nth_loop p' i = nth_loop p i.
Proof using. unfold nth_loop. by intros -> ->. Qed.

Lemma added_inv c' p w w' :
  server_inv w -> Z.of_nat (length (conns w)) + 2 <= max_conns ->
  pool_at p (S (length (conns w))) -> loops_ p = loops -> baseLoop_ p = base ->
  added c' p w w' -> phase_of w' (length (conns w)) c' -> server_inv w'.
Proof using host_short.
  intros Hi Hfew Hp Hl Hb [Hsv Hcs Hnm Hlp Hcn Htk] Hph. set (n := length (conns w)) in *.
  assert (Hlen : length (conns w') = S n) by (rewrite Hcs, length_app; cbn; lia).
  assert (Hlk : forall i c, conns w' !! i = Some c -> (i < n)%nat /\ conns w !! i = Some c \/ i = n /\ c = c').
  { intros i c. rewrite Hcs. intros [Hc | [Hn Hc]]%lookup_app_Some.
    - left. split; [by eapply lookup_lt_Some | done].
    - right. apply list_lookup_singleton_Some in Hc as [Hz <-]. fold n in Hn, Hz. split; [lia | done]. }
  assert (Hold : forall i c, conns w !! i = Some c -> conns w' !! i = Some c).
  { intros i c Hc. rewrite Hcs. by apply lookup_app_l_Some. }
  assert (Hmine : conns w' !! n = Some c') by (rewrite Hcs; apply list_lookup_middle; done).
  assert (Hnl : forall i, nth_loop p i = nth_loop (threadPool_ (server w)) i).
  { intros i. apply nth_loop_same; [by rewrite Hl, (si_loops _ Hi) | by rewrite Hb, (si_base _ Hi)]. }
  assert (Hne : forall i c, conns w !! i = Some c -> c_name c <> name_at n).
  { intros i c Hc E. destruct (si_conn _ Hi _ _ Hc) as [E1 _]. rewrite E1 in E.
    apply name_at_inj in E; [| by eapply conn_index | lia]. apply lookup_lt_Some in Hc. fold n in Hc. lia. }
  split; rewrite ?Hsv, ?Hlen; cbn [loop_ hostport_ name_ nextConnId_ threadPool_ connections_]; try done; try lia.
  - intros i c Hc. rewrite Hnl. apply Hlk in Hc as [[_ Hc] | [-> ->]]; [by apply (si_conn _ Hi) | done].
  - intros nm' i Hn. apply lookup_insert_Some in Hn as [[<- <-] | [_ Hn]]; [by exists c' |].
    destruct (si_map _ Hi _ _ Hn) as (c & Hc & En). exists c. auto.
  - intros l t Ht. apply Htk in Ht as [Ht | [Et ->]]; [| exists c'; by rewrite Et].
    destruct (si_task _ Hi _ _ Ht) as (c & Hc & El). exists c. auto.
  - intros i c Hc. apply Hlk in Hc as [[Hlt Hc] | [-> ->]]; [| exact Hph].
    pose proof (si_phase _ Hi _ _ Hc) as Hpc. unfold phase_of in *. rewrite !Hcn by (cbn; lia).
    replace (in_map (c_name c) w') with (in_map (c_name c) w); [done |].
    unfold in_map. rewrite Hsv. cbn [connections_]. rewrite lookup_insert_ne; [done |]. symmetry. by eapply Hne.
Qed.

Lemma new_cnt t l w : server_inv w -> task_conn t = length (conns w) -> cnt t l w = 0%nat.
Proof using.
  intros Hi Ht. destruct (cnt t l w) eqn:E; [done |]. exfalso.
  assert (t ∈ queue l w) as Hq.
  { unfold cnt in E. destruct (filter (fun x => x = t) (queue l w)) as [| x k] eqn:Ef; [done |].
    assert (x ∈ filter (fun x => x = t) (queue l w)) as [-> Hx]%list_elem_of_filter
      by (rewrite Ef, elem_of_cons; by left). done. }
  destruct (si_task _ Hi _ _ Hq) as (c & Hc & _). apply lookup_lt_Some in Hc. lia.
Qed.

Lemma newConnection_ok w :
  server_inv w -> Z.of_nat (length (conns w)) + 2 <= max_conns ->
  exists w', newConnection (loop_ (server w)) w = Ok w' /\ server_inv w'
    /\ length (conns w') = S (length (conns w)).
Proof using host_short loops_few.
  intros Hi Hfew. unfold newConnection. rewrite assertIn_ok. rsimp.
  destruct (getNextLoop_ok (threadPool_ (server w)) (length (conns w))) as (p & Hrun & Hp & Hl & Hb).
  { apply Hi. } { by rewrite (si_loops _ Hi). }
  rewrite (si_base _ Hi) in Hrun, Hb. rewrite (si_loops _ Hi) in Hl. rewrite (si_loop _ Hi), Hrun. rsimp.
  assert (Hname : connName (server w) = name_at (length (conns w))).
  { unfold connName, name_at. by rewrite (si_name _ Hi), (si_host _ Hi), (si_next _ Hi). }
  rewrite Hname, (si_host _ Hi), (si_name _ Hi), (si_next _ Hi).
  unfold max_conns in Hfew. rewrite s32_small by lia.
  replace (Z.of_nat (length (conns w)) + 1 + 1) with (Z.of_nat (length (conns w)) + 2) by lia.
  set (n := length (conns w)) in *. set (lp := nth_loop (threadPool_ (server w)) n) in *.
  set (s' := mkServer _ _ _ _ _ _ _).
  assert (Hin : in_map (name_at n) (mkWorld s' (queues w) []) = true).
  { unfold in_map. cbn. rewrite lookup_insert_eq. by apply bool_decide_eq_true_2. }
  assert (H0 : forall t l, task_conn t = n -> cnt t l w = 0%nat) by (intros; by apply new_cnt).
  destruct (Z.eqb_spec lp base) as [Elp | Elp].
  - unfold connectEstablished, load_conn. cbn [conns].
    rewrite list_lookup_middle by done. rsimp. cbn [c_loop c_state]. rewrite Elp, assertIn_ok. rsimp.
    change (assert_ (is_state kConnecting kConnecting)) with (Ok tt). rsimp. eexists. split; [done |].
    split; [| cbn; rewrite length_insert, length_app; cbn; lia].
    apply (added_inv (mkConn (name_at n) lp kConnected 1 0) p w); try done.
    + split; try done.
      * cbn. rewrite insert_app_r_alt by done. fold n. by rewrite Nat.sub_diag, <- Elp.
      * intros l t Ht. by left.
    + unfold phase_of, phase. cbn [c_state c_loop c_name c_established c_destroyed].
      change (cnt ?t ?l (with_conn _ _ _)) with (cnt t l w). rewrite !H0 by done. by split_and!.
  - eexists. split; [done |]. split; [| cbn; rewrite length_app; cbn; lia].
    apply (added_inv (mkConn (name_at n) lp kConnecting 0 0) p w); try done.
    + split; try done.
      * intros t l Hne. rewrite cnt_queueIn, decide_False by (intros [_ <-]; done).
        change (cnt t l (mkWorld _ _ _)) with (cnt t l w). lia.
      * intros l t Ht. apply elem_queueIn in Ht as [Ht | [-> ->]]; [by left | by right].
    + unfold phase_of, phase. cbn [c_state c_loop c_name c_established c_destroyed]. rewrite !cnt_queueIn.
      change (cnt ?t ?l (mkWorld _ _ _)) with (cnt t l w). rewrite !H0 by done.
      rewrite decide_True by done. rewrite decide_False by (intros []; done). rewrite decide_False by (intros []; done).
      by split_and!.
Qed.
(** Closures change the connections in place. *)
Lemma exec_length l t w w' : exec l t w = Ok w' -> length (conns w') = length (conns w).
Proof using.
  destruct t; cbn [exec]; unfold connectEstablished, removeConnectionInLoop, connectDestroyed; intros Hr;
    repeat (apply bind_Ok in Hr as (? & _ & Hr)); injection Hr as <-; cbn; by rewrite ?length_insert.
Qed.
Lemma close_length l i w w' : handleClose l i w = Ok w' -> length (conns w') = length (conns w).
Proof using.
  unfold handleClose. intros Hr. do 3 apply bind_Ok in Hr as (? & _ & Hr).
  unfold removeConnection in Hr. destruct (_ =? _).
  - apply (exec_length l (TRemoveInLoop i)) in Hr. rewrite Hr. cbn. by rewrite length_insert.
  - injection Hr as <-. cbn. by rewrite length_insert.
Qed.

Lemma event_inv e w :
  server_inv w -> (e = Accept -> Z.of_nat (length (conns w)) + 2 <= max_conns) ->
  exists w', run_sevent e w = Ok w' /\ server_inv w'
    /\ length (conns w') = (length (conns w) + (if e is Accept then 1 else 0))%nat.
Proof using host_short loops_few.
  intros Hi Hfew. destruct e as [| l | i | i]; cbn [run_sevent].
  - destruct (newConnection_ok w Hi (Hfew eq_refl)) as (w' & Hr & Hi' & Hl). exists w'.
    split_and!; [done | done | lia].
  - destruct (queue l w) as [| t q] eqn:Hq; [exists w; split_and!; [done | done | lia] |].
    assert (exists w', exec l t (with_queue l q w) = Ok w' /\ server_inv w') as (w' & Hr & Hi').
    { destruct t; [by apply run_established | by apply run_removed | by apply run_destroyed]. }
    exists w'. split_and!; [done | done |]. rewrite (exec_length _ _ _ _ Hr). cbn. lia.
  - destruct (conns w !! i) as [c|] eqn:Hc; [| exists w; split_and!; [done | done | lia]].
    fold (is_open c). destruct (is_open c) eqn:Ho; [| exists w; split_and!; [done | done | lia]].
    destruct (close_ok i c w Hi Hc Ho) as (w' & Hr & Hi'). exists w'. split_and!; [done | done |].
    rewrite (close_length _ _ _ _ Hr). lia.
  - destruct (conns w !! i) as [c|] eqn:Hc; [| exists w; split_and!; [done | done | lia]].
    unfold is_state. case_bool_decide; [| exists w; split_and!; [done | done | lia]].
    eexists. split; [done |]. split; [by apply half_close_ok |]. cbn. rewrite length_insert. lia.
Qed.

Definition accepts (es : list sevent) : nat := length (filter (fun e => e = Accept) es).

Lemma events_inv es : forall w,
  server_inv w -> Z.of_nat (length (conns w) + accepts es) + 1 <= max_conns ->
  exists w', run_sevents es w = Ok w' /\ server_inv w'.
Proof using host_short loops_few.
  induction es as [| e es IH]; intros w Hi Hfew; cbn [run_sevents]; [by exists w |].
  unfold accepts in Hfew. rewrite filter_cons in Hfew.
  destruct (event_inv e w Hi) as (w1 & -> & Hi1 & Hl1).
  { intros ->. rewrite decide_True in Hfew by done. cbn [length] in Hfew. lia. }
  rsimp. apply IH; [done |]. rewrite Hl1. unfold accepts.
  destruct e; case_decide; cbn [length] in Hfew; done || lia.
Qed.

(** What the life of a connection is. *)
Record lives_once (w : world) (i : nat) (c : Conn) : Prop := {
  (** the loops take turns *)
  lv_loop : c_loop c = match loops with [] => base | _ => default base (loops !! (i mod length loops)%nat) end;
  (** established at most once, destroyed at most once and only after that *)
  lv_once : (c_established c <= 1)%nat /\ (c_destroyed c <= c_established c)%nat;
  (** destroyed only when closed, and forgotten by the server by then *)
  lv_order : c_destroyed c = 1%nat -> c_state c = kDisconnected /\ connections_ (server w) !! c_name c = None;
  (** the server finds it under its name until the peer has closed it *)
  lv_known : c_state c <> kDisconnected -> connections_ (server w) !! c_name c = Some i;
  (** when the loops have nothing left to run, it is open and known, or was
      destroyed exactly once and forgotten *)
  lv_settled : (forall l, queue l w = []) ->
    (is_open c = true /\ c_established c = 1%nat /\ connections_ (server w) !! c_name c = Some i)
    \/ (c_state c = kDisconnected /\ c_destroyed c = 1%nat /\ connections_ (server w) !! c_name c = None)
}.

Lemma in_map_id w i c :
  server_inv w -> conns w !! i = Some c -> in_map (c_name c) w = true ->
  connections_ (server w) !! c_name c = Some i.
Proof using host_short.
  intros Hi Hc [j Hj]%bool_decide_eq_true. rewrite Hj. f_equal.
  destruct (si_map _ Hi _ _ Hj) as (c' & Hc' & E). destruct (decide (i = j)) as [-> | Hne]; [done |].
  exfalso. by eapply (other_name w i j).
Qed.
Lemma in_map_none n w : in_map n w = false -> connections_ (server w) !! n = None.
Proof using. intros Hn%bool_decide_eq_false. by apply eq_None_not_Some. Qed.

Lemma inv_lives w i c : server_inv w -> conns w !! i = Some c -> lives_once w i c.
Proof using host_short.
  clear loops_few. intros Hi Hc. pose proof (si_phase _ Hi _ _ Hc) as Hp. unfold phase_of in Hp.
  pose proof (in_map_id w i c Hi Hc) as Hm. pose proof (in_map_none (c_name c) w) as Hn.
  split.
  - destruct (si_conn _ Hi _ _ Hc) as [_ ->]. unfold nth_loop. rewrite (si_loops _ Hi), (si_base _ Hi).
    by destruct loops.
  - unfold phase in Hp. destruct (c_state c); intuition lia.
  - unfold phase in Hp. intros Hd. destruct (c_state c); [intuition; congruence || lia.. | lia | lia | lia].
  - unfold phase in Hp. intros Hs. destruct (c_state c); [done | apply Hm; intuition..].
  - intros Hq. assert (H0 : forall t l, cnt t l w = 0%nat) by (intros t l; unfold cnt; by rewrite Hq).
    rewrite !H0 in Hp. unfold phase, is_open in *. destruct (c_state c).
    + right. destruct Hp as (_ & _ & [(? & _) | [(_ & ? & _) | (_ & _ & ? & ?)]]); [done | done | auto].
    + destruct Hp as (? & _). done.
    + left. destruct Hp as (_ & _ & _ & ? & ? & _). auto.
    + left. destruct Hp as (_ & _ & _ & ? & ? & _). auto.
Qed.
End lifecycle.

(** A server ready for its first connection: made, told its number of threads,
    started. *)
Definition serving (base : Z) (addr : sockaddr_in) (nm : list byte) (n : Z) (startLoop : nat -> Z)
  : res world :=
  s ← TcpServer_new base addr nm;
  s ← server_setThreadNum n s;
  s ← server_start startLoop base s;
  mret (mkWorld s ∅ []).

(** C5: Every connection is established once, in its own loop, and destroyed at
    most once, after it was closed and the server has forgotten it.  Whatever
    the interleaving of the loops, no assertion fails and no call runs in a
    wrong thread; the loops take the connections in turn; the server's map
    holds exactly the connections not yet closed and those whose removal is on
    its way; and nothing gets lost in the queues: when they are empty every
    closed connection has been destroyed.  The bound is needed for distinct
    names. *)
Theorem connections_live_once base addr nm n startLoop es w0 :
  0 <= n < 2 ^ 31 -> serving base addr nm n startLoop = Ok w0 ->
  Z.of_nat (accepts es) < max_conns ->
  exists w, run_sevents es w0 = Ok w
    /\ forall i c, conns w !! i = Some c ->
         lives_once base (map startLoop (seq 0 (Z.to_nat n))) w i c.
Proof.
  intros Hn Hw Hes. unfold serving, TcpServer_new, InetAddress_toIpPort in Hw.
  destruct (toIpPort_ok addr) as (host & Eh & Hhost). rewrite Eh in Hw. revert Hw. rsimp.
  unfold server_setThreadNum. rewrite (proj2 (Z.leb_le 0 n)) by lia. cbn [assert_]. rsimp.
  unfold server_start. cbn [started_]. unfold start. cbn. rewrite Z.eqb_refl. cbn. intros [= <-].
  set (loops := map startLoop _). set (w0 := mkWorld _ _ _).
  assert (Hi : server_inv base host nm loops w0).
  { split; try done.
    - unfold pool_at. cbn [server w0 threadPool_ loops_ next_ conns length].
      destruct loops; [done |]. by rewrite Nat.Div0.mod_0_l.
    - intros l t Ht. unfold queue in Ht. cbn in Ht. rewrite lookup_empty in Ht. by apply not_elem_of_nil in Ht. }
  assert (Hl : zlen loops < 2 ^ 31) by (unfold zlen, loops; rewrite length_map, length_seq; lia).
  destruct (events_inv base host nm loops ltac:(lia) Hl es w0 Hi) as (w & Hr & Hinv).
  { cbn. lia. }
  exists w. split; [exact Hr |]. intros i c Hc. eapply inv_lives; [| exact Hinv | exact Hc]. lia.
Qed.

(** From the hundred-millionth connection on names are no longer distinct when
    the address has 21 characters: [snprintf] cuts the number off, so that ten
    connections in a row get the same name. *)
Theorem connection_names_collide s k :
  zlen (hostport_ s) = 21 -> 0 <= k < 10 -> nextConnId_ s = 100000000 + k ->
  connName s = name_ s ++ [COLON] ++ hostport_ s ++ bs "#10000000".
Proof.
  intros Hh Hk Hn. unfold connName. f_equal.
  assert (Hd : exists d, dec (nextConnId_ s) = bs "10000000" ++ [d]).
  { assert (k = 0 \/ k = 1 \/ k = 2 \/ k = 3 \/ k = 4 \/ k = 5 \/ k = 6 \/ k = 7 \/ k = 8 \/ k = 9) as Hc by lia.
    repeat destruct Hc as [-> | Hc]; rewrite Hn; try (eexists; reflexivity). subst k. eexists. reflexivity. }
  destruct Hd as [d ->]. unfold snprintf.
  change (32 - 1) with (zlen [COLON] + (21 + 9)). rewrite ztake_app_r by lia.
  replace (zlen [COLON] + (21 + 9) - zlen [COLON]) with (21 + 9) by lia. f_equal.
  rewrite ztake_app_r by lia. f_equal. rewrite Hh. reflexivity.
Qed.

(** ** Two threads of loops, two clients *)

Definition demo_server_start (i : nat) : Z := 11 + Z.of_nat i.
Definition demo_server_addr : sockaddr_in := mkAddr AF_INET 1 16777343.
Definition demo_server : world :=
  match serving 1 demo_server_addr (bs "Echo") 2 demo_server_start with Ok w => w | Err _ => mkWorld
    (mkServer 0 [] [] (Pool_new 0) false 0 ∅) ∅ [] end.

(** The second connection is closed and destroyed; the first one stays. *)
Definition demo_server_events : list sevent :=
  [Accept; Accept; RunTask 12; RunTask 11; Closed 1; RunTask 1; RunTask 12].

Lemma connections_live_once_witness :
  exists w, run_sevents demo_server_events demo_server = Ok w
    /\ forall i c, conns w !! i = Some c -> lives_once 1 [11; 12] w i c.
Proof.
  apply (connections_live_once 1 demo_server_addr (bs "Echo") 2 demo_server_start).
  - lia.
  - vm_compute. reflexivity.
  - vm_compute. reflexivity.
Defined.

Lemma connection_names_collide_witness :
  let s k := mkServer 1 (bs "192.168.100.100:50000") (bs "S") (Pool_new 1) true (100000000 + k) ∅ in
  connName (s 1) = connName (s 2).
Proof.
  intros s. rewrite (connection_names_collide (s 1) 1), (connection_names_collide (s 2) 2);
    reflexivity || (cbn; lia).
Defined.
