(* ===== verification/TcpClient.v ===== *)
(** * TcpClient: a connection that is made again when it is lost

    [muduo/net/TcpClient.h], [TcpClient.cc], on top of the whole [Connector]
    (its world, events and invariant).  Of a connection the client sees its
    life, as [TcpServer.v] does: [TcpConnection.v] shows that in each state
    exactly the calls succeed that succeed here.  The closures queued for
    connections are kept apart from the connector's: they touch nothing in
    common, and the events may interleave them in any order. *)
From S2P Require Import Prelude Format Channel Poller EPollPoller EventLoop Sockets TcpConnection Connector.

(** ** State *)

(** Whom a connection tells when it closes: the client, or nobody
    ([detail::removeConnection], which only destroys the connection). *)
Inductive close_cb : Type := ToClient | Detached.

(** [c_established] and [c_destroyed] count the calls that completed. *)
Record Conn : Type := mkConn {
  c_name : list byte; c_fd : Z; c_state : StateE; c_close : close_cb; c_established : nat; c_destroyed : nat
}.

(*@ muduo/muduo/net/TcpClient.h 75-105 TcpClient *)
Record TcpClient : Type := mkClient {
  name_ : list byte;
  retry_ : bool;
  connect_ : bool;
  nextConnId_ : Z;
  connection_ : option nat
}.
(*@ muduo/muduo/net/TcpClient.cc 56-73 TcpClient::TcpClient *)
Definition TcpClient_new (name : list byte) : TcpClient := mkClient name false true 1 None.
(*@ muduo/muduo/net/TcpClient.h 47-47 TcpClient::enableRetry *)
Definition enableRetry (c : TcpClient) : TcpClient :=
  mkClient (name_ c) true (connect_ c) (nextConnId_ c) (connection_ c).
Definition set_connect (b : bool) (c : TcpClient) : TcpClient :=
  mkClient (name_ c) (retry_ c) b (nextConnId_ c) (connection_ c).
Definition set_connection (o : option nat) (c : TcpClient) : TcpClient :=
  mkClient (name_ c) (retry_ c) (connect_ c) (nextConnId_ c) o.

Definition set_state (s : StateE) (c : Conn) : Conn :=
  mkConn (c_name c) (c_fd c) s (c_close c) (c_established c) (c_destroyed c).

Section client.
Context {P E K : Type} `{!EventFd E, !Net K, !PollerOps (loop_cb ctor_cb) P}.
Local Abbreviation cworld := (EventLoop ctor_cb ctask P E * crest K)%type.
Variable new_channel : gset chan_id -> chan_id.

(** [doomed] are the connections whose [connectDestroyed] is queued; [alive]
    is whether the client still exists. *)
Record trest : Type := mkTRest {
  client : TcpClient;
  conns : list Conn;
  doomed : list nat;
  alive : bool
}.
Local Abbreviation world := (cworld * trest)%type.

Definition on_client (f : TcpClient -> TcpClient) (w : world) : world :=
  (w.1, mkTRest (f (client w.2)) (conns w.2) (doomed w.2) (alive w.2)).
Definition with_conn (i : nat) (c : Conn) (w : world) : world :=
  (w.1, mkTRest (client w.2) (<[i := c]> (conns w.2)) (doomed w.2) (alive w.2)).
Definition doom (i : nat) (w : world) : world :=
  (w.1, mkTRest (client w.2) (conns w.2) (doomed w.2 ++ [i]) (alive w.2)).
Definition with_cworld (cw : cworld) (w : world) : world := (cw, w.2).
Definition load_conn (i : nat) (w : world) : res Conn :=
  match conns w.2 !! i with Some c => Ok c | None => Err BadAccess end.
Definition in_loop (tid : Z) (w : world) : res unit := assertInLoopThread tid w.1.1.

(** A closure bound to the client runs. *)
Definition this_alive (w : world) : res unit := if alive w.2 then Ok tt else Err BadAccess.

(** ** What the loop calls *)

(** [TcpConnection::connectEstablished], [connectDestroyed]. *)
Definition connectEstablished (i : nat) (w : world) : res world :=
  c ← load_conn i w;
  assert_ (TcpConnection.is_state (c_state c) TcpConnection.kConnecting);;
  mret (with_conn i (mkConn (c_name c) (c_fd c) TcpConnection.kConnected (c_close c) (S (c_established c)) (c_destroyed c)) w).
Definition connectDestroyed (i : nat) (w : world) : res world :=
  c ← load_conn i w;
  let s := if TcpConnection.is_state (c_state c) TcpConnection.kConnected then TcpConnection.kDisconnected else c_state c in
  assert_ (TcpConnection.is_state s TcpConnection.kDisconnected);;
  mret (with_conn i (mkConn (c_name c) (c_fd c) s (c_close c) (c_established c) (S (c_destroyed c))) w).

(** The callback of the connector is bound to the client: it must exist. *)
(*@ muduo/muduo/net/TcpClient.cc 135-167 TcpClient::newConnection *)
Definition newConnection (tid sockfd : Z) (w : world) : res world :=
  this_alive w;;
  in_loop tid w;;
  peer ← toIpPort 32 (getPeerAddr (net w.1.2) sockfd);
  let buf := snprintf 32 ([COLON] ++ peer ++ bs "#" ++ dec (nextConnId_ (client w.2))) in
  let c := mkConn (name_ (client w.2) ++ buf) sockfd TcpConnection.kConnecting ToClient 0 0 in
  let i := length (conns w.2) in
  let w := (w.1, mkTRest (mkClient (name_ (client w.2)) (retry_ (client w.2)) (connect_ (client w.2))
                            (s32 (nextConnId_ (client w.2) + 1)) (Some i))
                   (conns w.2 ++ [c]) (doomed w.2) (alive w.2)) in
  connectEstablished i w.

(*@ muduo/muduo/net/TcpClient.cc 170-191 TcpClient::removeConnection *)
Definition removeConnection (tid : Z) (i : nat) (w : world) : res world :=
  this_alive w;;
  in_loop tid w;;
  assert_ (bool_decide (connection_ (client w.2) = Some i));;
  let w := doom i (on_client (set_connection None) w) in
  if retry_ (client w.2) && connect_ (client w.2)
  then cw ← restart new_channel tid w.1; mret (with_cworld cw w)
  else mret w.

(** [TcpConnection::handleClose] and its close callback. *)
Definition handleClose (tid : Z) (i : nat) (w : world) : res world :=
  c ← load_conn i w;
  assert_ (TcpConnection.is_state (c_state c) TcpConnection.kConnected
           || TcpConnection.is_state (c_state c) TcpConnection.kDisconnecting);;
  let w := with_conn i (set_state TcpConnection.kDisconnected c) w in
  match c_close c with
  | ToClient => removeConnection tid i w
  | Detached => mret (doom i w)
  end.

(** The connector did something; a socket it handed over goes to
    [newConnection], the last thing [Connector::handleWrite] does. *)
Definition after_connector (tid : Z) (cw : cworld) (w : world) : res world :=
  match elements (handed cw.2 ∖ handed w.1.2) with
  | [] => mret (with_cworld cw w)
  | fd :: _ => newConnection tid fd (with_cworld cw w)
  end.

(** ** What the user calls *)

(*@ muduo/muduo/net/TcpClient.cc 104-111 TcpClient::connect *)
Definition client_connect (tid : Z) (w : world) : res world :=
  let w := on_client (set_connect true) w in
  cw ← start new_channel tid w.1;
  after_connector tid cw w.

(*@ muduo/muduo/net/TcpClient.cc 114-125 TcpClient::disconnect *)
Definition client_disconnect (w : world) : res world :=
  let w := on_client (set_connect false) w in
  match connection_ (client w.2) with
  | Some i =>
      c ← load_conn i w;
      mret (if TcpConnection.is_state (c_state c) TcpConnection.kConnected
            then with_conn i (set_state TcpConnection.kDisconnecting c) w else w)
  | None => mret w
  end.

(*@ muduo/muduo/net/TcpClient.cc 128-132 TcpClient::stop *)
Definition client_stop (tid : Z) (w : world) : res world :=
  let w := on_client (set_connect false) w in
  cw ← stop new_channel tid w.1;
  after_connector tid cw w.

(** In the loop's thread ([runInLoop] runs at once).  The connection is assumed
    to be held by somebody else too: the last reference would destroy it as it
    is, connected and known to the poller. *)
(*@ muduo/muduo/net/TcpClient.cc 76-102 TcpClient::~TcpClient *)
Definition client_dtor (tid : Z) (w : world) : res world :=
  w ← match connection_ (client w.2) with
      | Some i =>
          c ← load_conn i w;
          mret (with_conn i (mkConn (c_name c) (c_fd c) (c_state c) Detached (c_established c) (c_destroyed c)) w)
      | None => cw ← stop new_channel tid w.1; mret (with_cworld cw w)
      end;
  mret (w.1, mkTRest (set_connection None (client w.2)) (conns w.2) (doomed w.2) false).

(** ** Events *)

Inductive tevent : Type :=
| TConnect (t : Z)
| TDisconnect
| TStop (t : Z)
| TDestroy
(** the connector's: its channel is ready, the loop runs its closures, its
    timer expires *)
| TReady (revents : Z)
| TFunctors
| TTimer
(** a connection's peer closed it *)
| TClosed (i : nat)
(** the loop destroys a connection, and its socket is closed *)
| TDestroyed.

Definition run_tevent (e : tevent) (w : world) : res world :=
  let tid := threadId_ w.1.1 in
  match e with
  | TConnect t => client_connect t w
  | TDisconnect => client_disconnect w
  | TStop t => client_stop t w
  | TDestroy => client_dtor tid w
  | TReady r => cw ← run_cevent new_channel (EvReady r) w.1; after_connector tid cw w
  | TFunctors => cw ← run_cevent new_channel EvFunctors w.1; after_connector tid cw w
  | TTimer => cw ← run_cevent new_channel EvTimer w.1; after_connector tid cw w
  | TClosed i => handleClose tid i w
  | TDestroyed =>
      match doomed w.2 with
      | [] => mret w
      | i :: rest =>
          w ← connectDestroyed i (w.1, mkTRest (client w.2) (conns w.2) rest (alive w.2));
          c ← load_conn i w;
          cw ← run_cevent new_channel (EvClosed (c_fd c)) w.1;
          mret (with_cworld cw w)
      end
  end.
Fixpoint run_tevents (es : list tevent) (w : world) : res world :=
  match es with [] => mret w | e :: es => w ← run_tevent e w; run_tevents es w end.
End client.

(** ** What the connector's operations leave alone *)

Section calm.
Context {P E K : Type} `{!EventFd E, !Net K, !PollerOps (loop_cb ctor_cb) P}.
Local Abbreviation cworld := (EventLoop ctor_cb ctask P E * crest K)%type.
Variable new_channel : gset chan_id -> chan_id.
Implicit Types cw : cworld.

(** No socket is handed over, the wish to connect stays, and the connector is
    up afterwards exactly when it was. *)
Definition calm cw cw' : Prop :=
  handed cw'.2 = handed cw.2 /\ Connector.connect_ (the_ctor cw') = Connector.connect_ (the_ctor cw)
  /\ (state_of cw' = kConnected <-> state_of cw = kConnected)
  /\ (state_of cw' = kConnecting -> state_of cw = kConnecting \/ Connector.connect_ (the_ctor cw) = true).

Lemma calm_refl cw : calm cw cw.
Proof. repeat split; auto. Qed.
Lemma calm_trans cw cw1 cw2 : calm cw cw1 -> calm cw1 cw2 -> calm cw cw2.
Proof.
  unfold calm. intros (-> & Hc & H1 & H3) (-> & -> & H2 & H4). rewrite Hc in *. split; [done |]. split; [done |].
  split; [by rewrite H2 |]. intros H. destruct (H4 H); auto.
Qed.
Lemma calm_loop cw lp : calm cw (lp, cw.2).
Proof. repeat split; auto. Qed.
Lemma calm_net cw k : calm cw (with_net k cw).
Proof. repeat split; auto. Qed.

Lemma retry_calm fd cw : state_of cw <> kConnected -> calm cw (Connector.retry fd cw).
Proof.
  destruct cw as [lp [[] k t h]]. unfold calm, state_of. cbn. intros Hs. destruct connect_0; done.
Qed.
Lemma connecting_calm tid fd cw cw' : state_of cw <> kConnected -> Connector.connect_ (the_ctor cw) = true ->
  connecting new_channel tid fd cw = Ok cw' -> calm cw cw'.
Proof.
  unfold connecting. intros Hs Hc H. inv_res. destruct cw as [lp [[] k t h]]. unfold calm, state_of in *. cbn in *.
  repeat split; auto; done.
Qed.
Lemma connect_calm tid cw cw' : state_of cw <> kConnected -> Connector.connect_ (the_ctor cw) = true -> Connector.connect new_channel tid cw = Ok cw' -> calm cw cw'.
Proof.
  unfold Connector.connect. intros Hs Hc H. apply bind_Ok in H as ([fd k] & _ & H).
  destruct (Sockets.connect k fd _) as [[ret errno] k1]. destruct (one_of _ _).
  - apply (connecting_calm _ _ (with_net k1 cw)) in H; [exact H | exact Hs | exact Hc].
  - destruct (one_of _ _); inv_res; [| repeat split; auto].
    apply (calm_trans _ (with_net k1 cw)); [apply calm_net | by apply retry_calm].
Qed.
Lemma startInLoop_calm tid cw cw' : startInLoop new_channel tid cw = Ok cw' -> calm cw cw' /\ state_of cw = kDisconnected.
Proof.
  unfold startInLoop. intros H. apply bind_Ok in H as (? & _ & H). apply bind_Ok in H as (? & Hs & H).
  apply assert_Ok in Hs. unfold is_state in Hs. apply bool_decide_eq_true in Hs. split; [| done].
  destruct (Connector.connect_ _) eqn:Hc; [| inv_res; apply calm_refl]. apply (connect_calm _ _ _) in H; [done | | done].
  unfold state_of. by rewrite Hs.
Qed.
Lemma removeAndReset_calm tid cw fd cw' : removeAndResetChannel tid cw = Ok (fd, cw') -> calm cw cw' /\ state_of cw' = state_of cw.
Proof.
  unfold removeAndResetChannel. intros H. destruct (channel_ (the_ctor cw)); [| done].
  inv_res. split; [repeat split; auto | done].
Qed.
Lemma stopInLoop_calm tid cw cw' : stopInLoop tid cw = Ok cw' -> calm cw cw'.
Proof.
  unfold stopInLoop. intros H. apply bind_Ok in H as (? & _ & H). destruct (is_state _ _) eqn:Hs; [| inv_res; apply calm_refl].
  unfold is_state in Hs. apply bool_decide_eq_true in Hs.
  apply bind_Ok in H as ([fd cw1] & H1 & H). inv_res. apply removeAndReset_calm in H1 as [H1 H2].
  assert (Hd : state_of cw1 = kDisconnected) by (rewrite H2; done).
  apply (calm_trans _ (on_ctor (setState kDisconnected) cw)); [| apply (calm_trans _ cw1); [done |]].
  - split; [done |]. split; [done |]. unfold state_of. cbn. rewrite Hs. split; [done |]. auto.
  - apply retry_calm. by rewrite Hd.
Qed.
Lemma exec_calm tid t cw cw' : exec new_channel tid t cw = Ok cw' -> calm cw cw'.
Proof.
  destruct t; cbn [exec]; intros H.
  - by apply startInLoop_calm in H as [? _].
  - by apply stopInLoop_calm in H.
  - unfold resetChannel in H. destruct (channel_ (the_ctor cw)); inv_res; repeat split; auto.
Qed.
Lemma run_functors_calm tid ts : forall cw cw', run_functors (exec new_channel tid) ts cw = Ok cw' -> calm cw cw'.
Proof.
  induction ts as [| t ts IH]; intros cw cw' H; cbn [run_functors] in H; [inv_res; apply calm_refl |].
  apply bind_Ok in H as (cw1 & H1 & H). apply exec_calm in H1. apply IH in H. by eapply calm_trans.
Qed.
Lemma functors_calm cw cw' : run_cevent new_channel EvFunctors cw = Ok cw' -> calm cw cw'.
Proof.
  cbn [run_cevent]. unfold doPendingFunctors. intros H.
  destruct (swap_functors _) as [fs lp]. apply bind_Ok in H as (cw1 & H1 & H). inv_res.
  apply run_functors_calm in H1. exact H1.
Qed.
Lemma timer_calm cw cw' : run_cevent new_channel EvTimer cw = Ok cw' -> calm cw cw'.
Proof.
  cbn [run_cevent]. destruct (timers cw.2) as [| d ts]; intros H; [inv_res; apply calm_refl |].
  apply startInLoop_calm in H as [H _]. exact H.
Qed.

(** What the user's calls of the connector do. *)
Lemma start_effect t cw cw' : start new_channel t cw = Ok cw' ->
  handed cw'.2 = handed cw.2 /\ Connector.connect_ (the_ctor cw') = true
  /\ (state_of cw' = kConnected <-> state_of cw = kConnected).
Proof.
  unfold start, runInLoop. set (cw1 := on_ctor (with_connect true) cw). intros H.
  destruct (isInLoopThread t cw1.1).
  - apply exec_calm in H as (H1 & H2 & H3 & _). split; [exact H1 |]. split; [exact H2 | exact H3].
  - inv_res. repeat split; auto.
Qed.
Lemma stop_effect t cw cw' : stop new_channel t cw = Ok cw' ->
  handed cw'.2 = handed cw.2 /\ Connector.connect_ (the_ctor cw') = false
  /\ (state_of cw' = kConnected <-> state_of cw = kConnected).
Proof.
  unfold stop, runInLoop. set (cw1 := on_ctor (with_connect false) cw). intros H.
  destruct (isInLoopThread t cw1.1).
  - apply exec_calm in H as (H1 & H2 & H3 & _). split; [exact H1 |]. split; [exact H2 | exact H3].
  - inv_res. repeat split; auto.
Qed.
Lemma restart_effect tid cw cw' : restart new_channel tid cw = Ok cw' ->
  handed cw'.2 = handed cw.2 /\ Connector.connect_ (the_ctor cw') = true /\ state_of cw' <> kConnected.
Proof.
  unfold restart. intros H. apply bind_Ok in H as (? & _ & H). apply startInLoop_calm in H as [(H1 & H2 & H3 & _) _].
  split; [exact H1 |]. split; [exact H2 |]. rewrite H3. done.
Qed.
End calm.

(** ** New descriptors *)

Lemma no_new (h : gset Z) : elements (h ∖ h) = [].
Proof. by rewrite difference_diag_L, elements_empty. Qed.
Lemma one_new (h : gset Z) fd : fd ∉ h -> elements (({[fd]} ∪ h) ∖ h) = [fd].
Proof.
  intros Hn. replace (({[fd]} ∪ h) ∖ h) with ({[fd]} : gset Z) by set_solver. apply elements_singleton.
Qed.

(** ** The invariant *)

Section client_props.
Context {P E K : Type} `{!EventFd E, !Net K, !PollerOps (loop_cb ctor_cb) P}.
Context `{!NetLaws K, !PollerSpec (loop_cb ctor_cb) P}.
Local Abbreviation cworld := (EventLoop ctor_cb ctask P E * crest K)%type.
Local Abbreviation world := (cworld * trest)%type.
Variable base : gset Z.
Implicit Types (w : world) (cw : cworld).

Definition up (c : Conn) : Prop :=
  c_state c = TcpConnection.kConnected \/ c_state c = TcpConnection.kDisconnecting.

(** The life of a connection: established once; destroyed once, after it
    closed. *)
Definition life (w : world) (i : nat) (c : Conn) : Prop :=
  c_established c = 1%nat /\
  ((up c /\ i ∉ doomed w.2 /\ c_destroyed c = 0%nat)
   \/ (c_state c = TcpConnection.kDisconnected
       /\ ((i ∈ doomed w.2 /\ c_destroyed c = 0%nat) \/ (i ∉ doomed w.2 /\ c_destroyed c = 1%nat)))).

(** What is left of the life of a connection that closed belongs to the loop;
    the one that is up is the client's. *)
Record tinv w : Prop := {
  t_cinv : cinv base [] w.1;
  t_quiet : quiet w.1;
  t_life i c : conns w.2 !! i = Some c -> life w i c;
  t_up i c : conns w.2 !! i = Some c -> up c ->
    match c_close c with
    | ToClient => alive w.2 = true /\ connection_ (client w.2) = Some i
    | Detached => alive w.2 = false
    end;
  t_current i : connection_ (client w.2) = Some i -> alive w.2 = true /\ state_of w.1 = kConnected
    /\ exists c, conns w.2 !! i = Some c /\ up c /\ c_close c = ToClient;
  t_doomed : NoDup (doomed w.2) /\ forall i, i ∈ doomed w.2 -> is_Some (conns w.2 !! i);
  t_sockets fd : fd ∈ handed w.1.2 <-> exists i c, conns w.2 !! i = Some c /\ c_destroyed c = 0%nat /\ c_fd c = fd;
  t_apart i j c d : conns w.2 !! i = Some c -> conns w.2 !! j = Some d ->
    c_destroyed c = 0%nat -> c_destroyed d = 0%nat -> c_fd c = c_fd d -> i = j;
  t_wish : retry_ (client w.2) = true -> connect_ (client w.2) = true -> alive w.2 = true ->
    connection_ (client w.2) = None -> state_of w.1 <> kConnected;
  t_stopped : state_of w.1 = kConnecting -> Connector.connect_ (the_ctor w.1) = false ->
    connect_ (client w.2) = false \/ alive w.2 = false;
  t_dead : alive w.2 = false -> Connector.connect_ (the_ctor w.1) = false \/ state_of w.1 = kConnected
}.

(** The connector's part changed and kept what the client sees of it. *)
Lemma tinv_calm w cw : tinv w -> cinv base [] cw -> quiet cw -> calm w.1 cw -> tinv (cw, w.2).
Proof using.
  intros [Hci Hq Hlife Hup Hcur Hdo Hso Hap Hwi Hst Hde] Hci' Hq' (H1 & H2 & H3 & H4).
  split; cbn [fst snd]; try done.
  - intros i Hi. destruct (Hcur i Hi) as (? & Hs & ?). by rewrite H3.
  - intros fd. by rewrite H1.
  - intros. rewrite H3. auto.
  - intros Hs Hc. rewrite H2 in Hc. destruct (H4 Hs) as [? | ?]; [auto | congruence].
  - intros Ha. rewrite H2, H3. auto.
Qed.

Lemma connectEstablished_new w c : c_state c = TcpConnection.kConnecting ->
  connectEstablished (length (conns w.2)) (w.1, mkTRest (client w.2) (conns w.2 ++ [c]) (doomed w.2) (alive w.2))
  = Ok (w.1, mkTRest (client w.2) (conns w.2 ++ [mkConn (c_name c) (c_fd c) TcpConnection.kConnected (c_close c)
      (S (c_established c)) (c_destroyed c)]) (doomed w.2) (alive w.2)).
Proof using.
  intros Hs. unfold connectEstablished, load_conn. cbn [snd conns]. rewrite list_lookup_middle by done. rsimp.
  rewrite Hs. unfold with_conn. cbn [fst snd client conns doomed alive TcpConnection.is_state].
  change (assert_ _) with (Ok tt). rsimp. do 3 f_equal.
  rewrite <- (Nat.add_0_r (length (conns w.2))) at 1. by rewrite insert_app_r.
Qed.

(** The connector hands a socket over: the client has a connection. *)
Lemma newConnection_keeps w cw fd : tinv w -> cinv base [] cw -> quiet cw ->
  alive w.2 = true -> connection_ (client w.2) = None ->
  fd ∉ handed w.1.2 -> handed cw.2 = {[fd]} ∪ handed w.1.2 -> state_of cw = kConnected ->
  exists w', newConnection (threadId_ cw.1) fd (with_cworld cw w) = Ok w' /\ tinv w'.
Proof using.
  intros [Hci Hq Hlife Hup Hcur Hdo Hso Hap Hwi Hst Hde] Hci' Hq' Hal Hnone Hfd Hh Hs.
  unfold newConnection, this_alive, in_loop, with_cworld. cbn [fst snd]. rewrite Hal. rsimp. rewrite assertIn. rsimp.
  destruct (toIpPort_ok (getPeerAddr (net cw.2) fd)) as (peer & -> & _). rsimp.
  set (name := _ ++ snprintf _ _). set (cl := mkClient _ _ _ _ _).
  pose proof (connectEstablished_new (cw, mkTRest cl (conns w.2) (doomed w.2) true)
    (mkConn name fd TcpConnection.kConnecting ToClient 0 0) eq_refl) as He.
  cbn [fst snd client conns doomed alive] in He. rewrite He. clear He. eexists. split; [done |].
  set (c := mkConn _ _ _ _ _ _).
  assert (Hlook : forall i x, (conns w.2 ++ [c]) !! i = Some x ->
    (conns w.2 !! i = Some x) \/ (i = length (conns w.2) /\ x = c)).
  { intros i x Hi. apply lookup_app_Some in Hi as [? | [Hge Hi]]; [by left | right].
    apply list_lookup_singleton_Some in Hi as [? <-]. split; [lia | done]. }
  assert (Hnew : length (conns w.2) ∉ doomed w.2).
  { intros Hin. apply Hdo in Hin as [x Hx]. apply lookup_lt_Some in Hx. lia. }
  split; cbn [fst snd client conns doomed alive cl connection_ retry_ connect_]; try done.
  - intros i x [Hi | [-> ->]]%Hlook; [by apply (Hlife i x) |].
    split; [done |]. left. split; [by left |]. done.
  - intros i x [Hi | [-> ->]]%Hlook Hux; [| done].
    specialize (Hup i x Hi Hux). destruct (c_close x); [| congruence]. destruct Hup as [_ Hup]. congruence.
  - intros i [= <-]. split; [done |]. split; [done |]. exists c. split; [by apply list_lookup_middle |].
    split; [by left | done].
  - split; [apply Hdo |]. intros i Hi. apply Hdo in Hi as [x Hx]. exists x. by apply lookup_app_l_Some.
  - intros fd'. rewrite Hh, elem_of_union, elem_of_singleton, Hso. split.
    + intros [-> | (i & x & Hi & ?)]; [exists (length (conns w.2)), c; split; [by apply list_lookup_middle | done] |].
      exists i, x. split; [by apply lookup_app_l_Some | done].
    + intros (i & x & [Hi | [-> ->]]%Hlook & Hd & Hf); [right; by exists i, x | by left].
  - intros i j x y [Hi | [-> ->]]%Hlook [Hj | [-> ->]]%Hlook Hx Hy Hf; [by eapply Hap | | | done].
    + exfalso. apply Hfd, Hso. exists i, x. done.
    + exfalso. apply Hfd, Hso. exists j, y. done.
  - intros Hc. by rewrite Hs in Hc.
Qed.

(** A connection closed: its destruction is queued, the client has none. *)
Lemma closed_ok w cw i c : tinv w -> conns w.2 !! i = Some c -> up c ->
  cinv base [] cw -> quiet cw -> handed cw.2 = handed w.1.2 ->
  (retry_ (client w.2) = true -> connect_ (client w.2) = true -> alive w.2 = true -> state_of cw <> kConnected) ->
  (state_of cw = kConnecting -> Connector.connect_ (the_ctor cw) = false ->
     connect_ (client w.2) = false \/ alive w.2 = false) ->
  (alive w.2 = false -> Connector.connect_ (the_ctor cw) = false \/ state_of cw = kConnected) ->
  tinv (cw, mkTRest (set_connection None (client w.2)) (<[i := set_state TcpConnection.kDisconnected c]> (conns w.2))
              (doomed w.2 ++ [i]) (alive w.2)).
Proof using.
  intros [Hci Hq Hlife Hup Hcur Hdo Hso Hap Hwi Hst Hde] Hi Huc Hci' Hq' Hh Hw1 Hw2 Hw3.
  pose proof (Hlife i c Hi) as [He Hl].
  assert (Hl' : i ∉ doomed w.2 /\ c_destroyed c = 0%nat).
  { destruct Hl as [(_ & ? & ?) | (Hd & _)]; [done |]. unfold up in Huc. rewrite Hd in Huc. by destruct Huc. }
  destruct Hl' as [Hnd Hds].
  assert (Hin : forall j, j ∈ doomed w.2 ++ [i] <-> j ∈ doomed w.2 \/ j = i).
  { intros j. rewrite elem_of_app, list_elem_of_singleton. done. }
  assert (Hother : forall j d, conns w.2 !! j = Some d -> up d -> j <> i -> c_close d = Detached /\ alive w.2 = false).
  { intros j d Hj Hud Hne. pose proof (Hup i c Hi Huc) as H1. pose proof (Hup j d Hj Hud) as H2.
    destruct (c_close c), (c_close d); intuition congruence. }
  split; cbn [fst snd client conns doomed alive set_connection connection_ retry_ connect_]; try done.
  - intros j d Hj. unfold life. cbn [snd doomed]. rewrite Hin.
    apply list_lookup_insert_Some in Hj as [(<- & <- & _) | (Hne & Hj)].
    + split; [done |]. right. split; [done |]. left. split; [by right | done].
    + pose proof (Hlife j d Hj) as [Hed Hld]. split; [done |].
      destruct Hld as [(? & ? & ?) | (? & Hld)]; [left | right].
      * split; [done |]. split; [| done]. intros [? | ?]; [done | congruence].
      * split; [done |]. destruct Hld as [[? ?] | [? ?]]; [left; split; [by left | done] | right].
        split; [| done]. intros [? | ?]; [done | congruence].
  - intros j d Hj Hud. apply list_lookup_insert_Some in Hj as [(<- & <- & _) | (Hne & Hj)].
    + unfold up in Hud. cbn in Hud. by destruct Hud.
    + destruct (Hother j d Hj Hud) as [-> ->]; [congruence | done].
  - destruct Hdo as [Hnodup Hsome]. split.
    + apply NoDup_app. split; [done |]. split; [| apply NoDup_singleton].
      intros j Hj Hj'%list_elem_of_singleton. by subst j.
    + intros j [Hj | ->]%Hin.
      * destruct (decide (i = j)) as [<- | Hne]; [| rewrite list_lookup_insert_ne by done; auto].
        rewrite list_lookup_insert_eq; [by eexists | by eapply lookup_lt_Some].
      * rewrite list_lookup_insert_eq; [by eexists | by eapply lookup_lt_Some].
  - intros fd. rewrite Hh, Hso. split.
    + intros (j & d & Hj & Hd & Hf). destruct (decide (i = j)) as [<- | Hne].
      * exists i, (set_state TcpConnection.kDisconnected c). rewrite Hi in Hj. injection Hj as <-.
        split; [apply list_lookup_insert_eq; by eapply lookup_lt_Some | done].
      * exists j, d. by rewrite list_lookup_insert_ne.
    + intros (j & d & Hj & Hd & Hf). apply list_lookup_insert_Some in Hj as [(<- & <- & _) | (Hne & Hj)].
      * exists i, c. done.
      * exists j, d. done.
  - intros j k x y Hj Hk Hx Hy Hf.
    assert (Hold : forall l z, (<[i := set_state TcpConnection.kDisconnected c]> (conns w.2)) !! l = Some z ->
      exists z0, conns w.2 !! l = Some z0 /\ c_destroyed z0 = c_destroyed z /\ c_fd z0 = c_fd z).
    { intros l z Hlz. apply list_lookup_insert_Some in Hlz as [(<- & <- & _) | (_ & Hlz)]; [by exists c | by exists z]. }
    destruct (Hold j x Hj) as (x0 & Hj0 & Hx0 & Hfx). destruct (Hold k y Hk) as (y0 & Hk0 & Hy0 & Hfy).
    apply (Hap j k x0 y0); congruence.
  - intros ? ? ? _. auto.
Qed.

(** Looking a connection up after one was replaced by one with the same socket
    and history. *)
Lemma replaced (l : list Conn) i c c' : l !! i = Some c -> c_fd c' = c_fd c -> c_destroyed c' = c_destroyed c ->
  forall j d, <[i := c']> l !! j = Some d ->
    exists d0, l !! j = Some d0 /\ c_fd d = c_fd d0 /\ c_destroyed d = c_destroyed d0 /\ (j = i /\ d = c' /\ d0 = c \/ d = d0 /\ j <> i).
Proof using.
  intros Hi Hf Hd j d Hj. apply list_lookup_insert_Some in Hj as [(<- & <- & _) | (Hne & Hj)].
  - exists c. split; [done |]. split; [done |]. split; [done |]. by left.
  - exists d. split; [done |]. split; [done |]. split; [done |]. right. split; [done | congruence].
Qed.

(** The connection that is up is half-closed, or told that the client is gone. *)
Lemma replace_ok w i c c' cl al : tinv w -> conns w.2 !! i = Some c -> up c -> up c' ->
  c_fd c' = c_fd c -> c_destroyed c' = c_destroyed c -> c_established c' = c_established c ->
  retry_ cl = retry_ (client w.2) -> connect_ cl = connect_ (client w.2) \/ connect_ cl = false ->
  (al = alive w.2 /\ connection_ cl = connection_ (client w.2) /\ c_close c' = c_close c
   \/ al = false /\ connection_ cl = None /\ c_close c' = Detached /\ connection_ (client w.2) = Some i) ->
  tinv (w.1, mkTRest cl (<[i := c']> (conns w.2)) (doomed w.2) al).
Proof using.
  intros [Hci Hq Hlife Hup Hcur Hdo Hso Hap Hwi Hst Hde] Hi Huc Huc' Hf Hd He Hre Hco Hal.
  pose proof (replaced (conns w.2) i c c' Hi Hf Hd) as Hrep.
  assert (Hlt : (i < length (conns w.2))%nat) by (by eapply lookup_lt_Some).
  split; cbn [fst snd client conns doomed alive]; try done.
  - intros j d Hj. destruct (Hrep j d Hj) as (d0 & Hj0 & _ & _ & [(-> & -> & ->) | [-> _]]); [| by apply (Hlife j d0)].
    destruct (Hlife i c Hi) as [H1 H2]. split; [congruence |]. left. split; [done |].
    destruct H2 as [(_ & ? & ?) | (Hs & _)]; [split; [done | congruence] |].
    unfold up in Huc. rewrite Hs in Huc. by destruct Huc.
  - intros j d Hj Hud. destruct (Hrep j d Hj) as (d0 & Hj0 & _ & _ & Hor).
    destruct Hal as [(-> & -> & Hcl) | (-> & -> & Hcl & Hcon)].
    + destruct Hor as [(-> & -> & ->) | [-> _]]; [rewrite Hcl; by apply (Hup i c) | by apply (Hup j d0)].
    + destruct Hor as [(-> & -> & ->) | [-> Hne]]; [by rewrite Hcl |].
      specialize (Hup j d0 Hj0 Hud). destruct (c_close d0); [| done]. destruct Hup as [_ Hup]. congruence.
  - intros j Hj. destruct Hal as [(-> & Heq & Hcl) | (_ & Hn & _)]; [| congruence]. rewrite Heq in Hj.
    destruct (Hcur j Hj) as (? & ? & x & Hx & Hux & Hxc). split; [done |]. split; [done |].
    destruct (decide (i = j)) as [<- | Hne].
    + exists c'. rewrite list_lookup_insert_eq by done. split; [done |]. split; [done |]. simplify_eq. congruence.
    + exists x. by rewrite list_lookup_insert_ne.
  - destruct Hdo as [? Hsome]. split; [done |]. intros j Hj. destruct (decide (i = j)) as [<- | Hne].
    + exists c'. by apply list_lookup_insert_eq.
    + rewrite list_lookup_insert_ne by done. auto.
  - intros fd. rewrite Hso. split.
    + intros (j & x & Hj & ? & ?). destruct (decide (i = j)) as [<- | Hne].
      * exists i, c'. rewrite list_lookup_insert_eq by done. rewrite Hi in Hj. injection Hj as <-. split; [done |]. split; congruence.
      * exists j, x. by rewrite list_lookup_insert_ne.
    + intros (j & x & Hj & ? & ?). destruct (Hrep j x Hj) as (d0 & Hj0 & ? & ? & _). exists j, d0. split; [done |]. split; congruence.
  - intros j k x y Hj Hk ? ? ?. destruct (Hrep j x Hj) as (x0 & Hj0 & ? & ? & _). destruct (Hrep k y Hk) as (y0 & Hk0 & ? & ? & _).
    apply (Hap j k x0 y0); congruence.
  - rewrite Hre. intros Hr Hc Ha Hn. destruct Hal as [(-> & Heq & _) | (-> & _)]; [| done].
    apply Hwi; [done | | done | congruence]. destruct Hco; congruence.
  - intros Hs Hc. destruct (Hst Hs Hc) as [H | H].
    + left. destruct Hco; congruence.
    + right. destruct Hal as [(-> & _) | (-> & _)]; done.
  - intros Ha. destruct Hal as [(-> & _) | (_ & _ & _ & Hcon)]; [auto |]. right. by apply (Hcur i).
Qed.

(** A connection that closed is destroyed, and its socket closed. *)
Lemma destroyed_ok w cw i rest c : tinv w -> doomed w.2 = i :: rest -> conns w.2 !! i = Some c ->
  cinv base [] cw -> quiet cw -> state_of cw = state_of w.1 ->
  Connector.connect_ (the_ctor cw) = Connector.connect_ (the_ctor w.1) -> handed cw.2 = handed w.1.2 ∖ {[c_fd c]} ->
  tinv (cw, mkTRest (client w.2) (<[i := mkConn (c_name c) (c_fd c) TcpConnection.kDisconnected (c_close c)
    (c_established c) (S (c_destroyed c))]> (conns w.2)) rest (alive w.2)).
Proof using.
  intros [Hci Hq Hlife Hup Hcur Hdo Hso Hap Hwi Hst Hde] Hdm Hi Hci' Hq' Hs Hc Hh. rewrite Hdm in Hdo.
  destruct Hdo as [Hnd Hsome]. apply NoDup_cons in Hnd as [Hni Hnd].
  set (c' := mkConn _ _ _ _ _ _).
  assert (Hlt : (i < length (conns w.2))%nat) by (by eapply lookup_lt_Some).
  assert (Hclife : c_established c = 1%nat /\ c_state c = TcpConnection.kDisconnected /\ c_destroyed c = 0%nat).
  { destruct (Hlife i c Hi) as [H1 H2]. rewrite Hdm in H2.
    destruct H2 as [(_ & Hn & _) | (H2 & [[_ H3] | [Hn _]])]; [destruct Hn; by left | done | destruct Hn; by left]. }
  destruct Hclife as (H1 & H2 & H3).
  assert (Hrep : forall j d, <[i := c']> (conns w.2) !! j = Some d -> (j = i /\ d = c') \/ (j <> i /\ conns w.2 !! j = Some d)).
  { intros j d Hj. apply list_lookup_insert_Some in Hj as [(<- & <- & _) | (Hne & Hj)]; [by left | right; split; [congruence | done]]. }
  assert (Hother : forall j, j <> i -> j ∈ doomed w.2 <-> j ∈ rest).
  { intros j Hne. rewrite Hdm, elem_of_cons. intuition. }
  split; cbn [fst snd client conns doomed alive]; rewrite ?Hs, ?Hc; try done.
  - intros j d Hj. destruct (Hrep j d Hj) as [[-> ->] | [Hne Hj0]].
    + split; [exact H1 |]. right. split; [done |]. right. cbn [c' c_destroyed]. rewrite H3. done.
    + destruct (Hlife j d Hj0) as [? Hl]. split; [done |]. rewrite (Hother j Hne) in Hl. exact Hl.
  - intros j d Hj Hud. destruct (Hrep j d Hj) as [[-> ->] | [Hne Hj0]]; [| by apply (Hup j)].
    unfold up in Hud. cbn in Hud. by destruct Hud.
  - intros j Hj. destruct (Hcur j Hj) as (? & ? & x & Hx & Hux & ?). split; [done |]. split; [done |]. exists x.
    rewrite list_lookup_insert_ne; [done |]. intros <-. rewrite Hi in Hx. injection Hx as <-.
    unfold up in Hux. rewrite H2 in Hux. by destruct Hux.
  - split; [done |]. intros j Hj. destruct (decide (i = j)) as [<- | Hne]; [by exfalso |].
    rewrite list_lookup_insert_ne by done. apply Hsome. by right.
  - intros fd. rewrite Hh, elem_of_difference, elem_of_singleton, Hso. split.
    + intros [(j & x & Hj & Hx & Hf) Hne]. exists j, x. rewrite list_lookup_insert_ne; [done |].
      intros <-. rewrite Hi in Hj. congruence.
    + intros (j & x & Hj & Hx & Hf). destruct (Hrep j x Hj) as [[-> ->] | [Hne Hj0]]; [done |].
      split; [by exists j, x |]. intros Heq. apply Hne. apply (Hap j i x c); congruence.
  - intros j k x y Hj Hk Hx Hy Hf. destruct (Hrep j x Hj) as [[-> ->] | [_ Hj0]]; [done |].
    destruct (Hrep k y Hk) as [[-> ->] | [_ Hk0]]; [done |]. by apply (Hap j k x y).
Qed.

(** ** The events *)

Variable new_channel : gset chan_id -> chan_id.
Hypothesis new_channel_fresh : forall s, new_channel s ∉ s.

(** What the environment respects, besides what [Connector.legal] asks: the
    user starts a client that is idle and not connected, and does not use it
    after its end; a connection's events come after the closures of the
    iteration that made it; its channel is out of the poller when its socket
    is closed. *)
Definition tlegal w (e : tevent) : Prop :=
  match e with
  | TConnect _ => alive w.2 = true /\ state_of w.1 = kDisconnected /\ idle w.1
  | TDisconnect | TStop _ | TDestroy => alive w.2 = true
  | TReady r => legal w.1 (EvReady r)
  | TFunctors => True
  | TTimer => legal w.1 EvTimer
  | TClosed i => channel_ (the_ctor w.1) = None /\ exists c, conns w.2 !! i = Some c /\ up c
  | TDestroyed => forall i rest c, doomed w.2 = i :: rest -> conns w.2 !! i = Some c ->
                  owner (poller_ w.1.1) (c_fd c) = None
  end.

(** The only way to fail: no descriptor can be had. *)
Definition truns (m : res world) (Q : world -> Prop) : Prop :=
  match m with
  | Ok w => Q w
  | Err f => f = FatalLog /\ exists k : K, (net_socket k).1 < 0
  end.

Lemma truns_connector (m : res cworld) (f : cworld -> res world) (Q : cworld -> Prop) (R : world -> Prop) :
  runs m Q -> (forall cw, m = Ok cw -> Q cw -> truns (f cw) R) -> truns (m ≫= f) R.
Proof using. destruct m; simpl; auto. Qed.

Lemma after_same w cw tid : handed cw.2 = handed w.1.2 -> after_connector tid cw w = Ok (with_cworld cw w).
Proof using. intros H. unfold after_connector. by rewrite H, no_new. Qed.

Lemma calm_event w e : tinv w -> legal w.1 e ->
  (forall cw, run_cevent new_channel e w.1 = Ok cw -> calm w.1 cw) ->
  truns (cw ← run_cevent new_channel e w.1; after_connector (threadId_ w.1.1) cw w) tinv.
Proof using Type*.
  intros Hw Hl Hcalm. eapply truns_connector; [apply (event_ok base new_channel new_channel_fresh e); [apply Hw | apply Hw | done] |].
  intros cw Hrun (Hci & Hq & _). pose proof (Hcalm cw Hrun) as Hcw. rewrite after_same by apply Hcw.
  by apply tinv_calm.
Qed.

Lemma ready_step w r : tinv w -> state_of w.1 = kConnecting -> truns (run_tevent new_channel (TReady r) w) tinv.
Proof using Type*.
  intros Hw Hs. cbn [run_tevent run_cevent].
  destruct (on_ready_ok base r w.1) as (cw & -> & (Hci & Hq & Ht) & Hc & Hout);
    [apply Hw | apply Hw | done |]. rsimp.
  assert (Hnone : connection_ (client w.2) = None).
  { destruct (connection_ (client w.2)) as [i |] eqn:Ec; [| done].
    apply (t_current w Hw) in Ec as (_ & Hs' & _). congruence. }
  destruct Hout as [[Hh Hst] | (fd & Hfd & Hh & Hst & Hcn)].
  - rewrite after_same by done. cbn [truns]. destruct Hw as [_ _ Hlife Hup Hcur Hdo Hso Hap Hwi Hsp Hde].
    split; cbn [fst snd with_cworld]; try done.
    + intros i Hi. congruence.
    + intros fd. by rewrite Hh.
    + intros Hr Hk Ha _ Hs'. destruct (Hsp Hs (Hst Hs')); congruence.
    + intros _ Hcf. rewrite Hc in Hcf. auto.
    + intros Ha. rewrite Hc. destruct (Hde Ha); [by left | congruence].
  - destruct (alive w.2) eqn:Ha.
    + assert (Hfd' : fd ∉ handed w.1.2) by (intros Hin; apply Hfd, elem_of_union; by right).
      unfold after_connector. rewrite Hh, one_new by done.
      destruct (newConnection_keeps w cw fd Hw Hci Hq Ha Hnone Hfd' Hh Hst) as (w' & Hrun & Hw').
      rewrite Ht in Hrun. rewrite Hrun. exact Hw'.
    + destruct (t_dead w Hw Ha); congruence.
Qed.

Lemma closed_step w i : tinv w -> tlegal w (TClosed i) -> truns (run_tevent new_channel (TClosed i) w) tinv.
Proof using Type*.
  intros Hw (Hch & c & Hi & Huc). cbn [run_tevent]. unfold handleClose, load_conn. rewrite Hi. rsimp.
  assert (Has : TcpConnection.is_state (c_state c) TcpConnection.kConnected
                || TcpConnection.is_state (c_state c) TcpConnection.kDisconnecting = true)
    by (unfold up in Huc; by destruct Huc as [-> | ->]).
  rewrite Has. cbn [assert_]. rsimp. pose proof (t_up w Hw i c Hi Huc) as Hup.
  destruct (c_close c).
  - destruct Hup as [Ha Hcur]. destruct (t_current w Hw i Hcur) as (_ & Hs & _).
    unfold removeConnection, this_alive, in_loop. cbn [fst snd with_conn alive client]. rewrite Ha, assertIn, Hcur. rsimp.
    rewrite bool_decide_true by done. cbn [assert_]. rsimp.
    cbn [doom on_client with_conn fst snd client conns doomed alive set_connection retry_ connect_].
    destruct (retry_ (client w.2) && connect_ (client w.2)) eqn:Hr.
    + apply andb_prop in Hr as [Hr1 Hr2].
      assert (Hid : idle w.1).
      { split; [done |]. pose proof (t_cinv w Hw) as [_ Hst]. unfold state_of in Hs. rewrite Hs in Hst.
        change (is_state kConnected kConnecting) with false in Hst. cbv iota in Hst. by apply (rs_up _ _ _ Hst). }
      eapply truns_connector.
      * apply (event_ok base new_channel new_channel_fresh EvRestart w.1); [apply Hw | apply Hw |].
        split; [congruence | done].
      * intros cw Hrun (Hci & Hq & _). cbn [run_cevent] in Hrun. apply restart_effect in Hrun as (H1 & H2 & H3).
        apply (closed_ok w cw i c); try done; congruence.
    + apply (closed_ok w w.1 i c); try done; try apply Hw.
      * intros H1 H2. by rewrite H1, H2 in Hr.
  - cbn [mret res_ret truns]. 
    assert (Hn : connection_ (client w.2) = None).
    { destruct (connection_ (client w.2)) as [j |] eqn:Ec; [| done].
      apply (t_current w Hw) in Ec as (Ha & _). congruence. }
    assert (Hsc : client w.2 = set_connection None (client w.2)) by (destruct (client w.2); simpl in *; by subst).
    unfold doom, with_conn. cbn [fst snd client conns doomed alive]. rewrite Hsc.
    apply (closed_ok w w.1 i c); try done; try apply Hw. congruence.
Qed.

Lemma destroyed_step w : tinv w -> tlegal w TDestroyed -> truns (run_tevent new_channel TDestroyed w) tinv.
Proof using Type*.
  intros Hw Hl. cbn [run_tevent tlegal] in *. destruct (doomed w.2) as [| i rest] eqn:Hd; [exact Hw |].
  destruct (proj2 (t_doomed w Hw) i) as [c Hi]; [rewrite Hd; by left |].
  pose proof (t_life w Hw i c Hi) as [He Hlf]. rewrite Hd in Hlf.
  assert (Hst : c_state c = TcpConnection.kDisconnected /\ c_destroyed c = 0%nat).
  { destruct Hlf as [(_ & Hn & _) | (? & [[_ ?] | [Hn _]])]; [destruct Hn; by left | done | destruct Hn; by left]. }
  destruct Hst as [Hst Hds].
  unfold connectDestroyed, load_conn. cbn [snd conns]. rewrite Hi. rsimp. rewrite Hst.
  change (if TcpConnection.is_state TcpConnection.kDisconnected TcpConnection.kConnected then _ else _)
    with TcpConnection.kDisconnected.
  change (assert_ (TcpConnection.is_state TcpConnection.kDisconnected TcpConnection.kDisconnected)) with (Ok tt). rsimp.
  cbn [with_conn fst snd client conns doomed alive].
  rewrite list_lookup_insert_eq by (by eapply lookup_lt_Some). rsimp. cbn [c_fd].
  assert (Hin : c_fd c ∈ handed w.1.2) by (apply (t_sockets w Hw); by exists i, c).
  eapply truns_connector.
  - apply (event_ok base new_channel new_channel_fresh (EvClosed (c_fd c)) w.1); [apply Hw | apply Hw |].
    split; [done |]. by apply (Hl i rest c).
  - intros cw Hrun (Hci & Hq & _). cbn [run_cevent] in Hrun. injection Hrun as <-.
    by apply (destroyed_ok w _ i rest c).
Qed.

Lemma user_connect_step w t : tinv w -> tlegal w (TConnect t) -> truns (run_tevent new_channel (TConnect t) w) tinv.
Proof using Type*.
  intros Hw Hl. cbn [run_tevent tlegal] in *.
  destruct Hl as (Ha & Hs & Hid). unfold client_connect. eapply truns_connector.
  - apply (event_ok base new_channel new_channel_fresh (EvStart t) w.1); [apply Hw | apply Hw | done].
  - intros cw Hrun (Hci & Hq & _). change (on_client (set_connect true) w).1 with w.1 in Hrun.
    cbn [run_cevent] in Hrun. apply start_effect in Hrun as (H1 & H2 & H3).
    rewrite after_same by done. destruct Hw as [_ _ Hlife Hup Hcur Hdo Hso Hap Hwi Hsp Hde].
    unfold with_cworld, on_client. split; cbn [fst snd client conns doomed alive set_connect retry_ connect_ connection_]; try done; try exact Hlife.
    + intros i Hi. destruct (Hcur i Hi) as (_ & Hs' & _). congruence.
    + intros fd. by rewrite H1.
    + intros _ _ _ _ Hs'. apply H3 in Hs'. congruence.
    + intros _ Hf. congruence.
    + congruence.
Qed.
Lemma user_disconnect_step w : tinv w -> tlegal w (TDisconnect) -> truns (run_tevent new_channel (TDisconnect) w) tinv.
Proof using Type*.
  intros Hw Hl. cbn [run_tevent tlegal] in *.
  unfold client_disconnect, on_client. cbn [fst snd client set_connect connection_].
  destruct (connection_ (client w.2)) as [i |] eqn:Hc.
  - destruct (t_current w Hw i Hc) as (Ha & Hs & c & Hi & Huc & Hcl).
    unfold load_conn. cbn [snd conns]. rewrite Hi. rsimp. cbn [truns].
    assert (Hsame : tinv (w.1, mkTRest (set_connect false (client w.2)) (<[i := c]> (conns w.2)) (doomed w.2) (alive w.2))).
    { apply (replace_ok w i c); try done; [by right | by left]. }
    rewrite list_insert_id in Hsame by done. destruct (TcpConnection.is_state _ _); [| exact Hsame].
    apply (replace_ok w i c (set_state TcpConnection.kDisconnecting c)); try done; [by right | by right | by left].
  - cbn [truns mret res_ret]. destruct Hw as [Hci Hq Hlife Hup Hcur Hdo Hso Hap Hwi Hsp Hde].
    split; cbn [fst snd client conns doomed alive set_connect retry_ connect_ connection_]; try done; try exact Hlife.
    intros. by left.
Qed.
Lemma user_stop_step w t : tinv w -> tlegal w (TStop t) -> truns (run_tevent new_channel (TStop t) w) tinv.
Proof using Type*.
  intros Hw Hl. cbn [run_tevent tlegal] in *.
  unfold client_stop. eapply truns_connector.
  - apply (event_ok base new_channel new_channel_fresh (EvStop t) w.1); [apply Hw | apply Hw | done].
  - intros cw Hrun (Hci & Hq & _). change (on_client (set_connect false) w).1 with w.1 in Hrun.
    cbn [run_cevent] in Hrun. apply stop_effect in Hrun as (H1 & H2 & H3).
    rewrite after_same by done. destruct Hw as [_ _ Hlife Hup Hcur Hdo Hso Hap Hwi Hsp Hde].
    unfold with_cworld, on_client. split; cbn [fst snd client conns doomed alive set_connect retry_ connect_ connection_]; try done; try exact Hlife.
    + intros i Hi. rewrite H3. by apply Hcur.
    + intros fd. by rewrite H1.
    + intros _ _. by left.
    + intros _. by left.
Qed.
Lemma user_destroy_step w : tinv w -> tlegal w (TDestroy) -> truns (run_tevent new_channel (TDestroy) w) tinv.
Proof using Type*.
  intros Hw Hl. cbn [run_tevent tlegal] in *.
  unfold client_dtor. destruct (connection_ (client w.2)) as [i |] eqn:Hc.
  - destruct (t_current w Hw i Hc) as (Ha & Hs & c & Hi & Huc & Hcl).
    unfold load_conn. rewrite Hi. rsimp. unfold with_conn. cbn [truns fst snd client conns doomed].
    apply (replace_ok w i c); try done; [by left | by right].
  - pose proof (event_ok base new_channel new_channel_fresh (EvStop (threadId_ w.1.1)) w.1 (t_cinv w Hw) (t_quiet w Hw) I) as Hs.
    cbn [run_cevent] in Hs. destruct (stop new_channel (threadId_ w.1.1) w.1) as [cw | f] eqn:Hrun; [| exact Hs].
    destruct Hs as (Hci & Hq & _). apply stop_effect in Hrun as (H1 & H2 & H3). rsimp. cbn [truns with_cworld fst snd].
    destruct Hw as [_ _ Hlife Hup Hcur Hdo Hso Hap Hwi Hsp Hde].
    split; cbn [fst snd client conns doomed alive set_connection retry_ connect_ connection_]; try done; try exact Hlife.
    + intros i c Hi Huc. specialize (Hup i c Hi Huc). destruct (c_close c); [| done]. destruct Hup; congruence.
    + intros fd. by rewrite H1.
    + intros _ _. by right.
    + intros _. by left.
Qed.
Lemma user_step w e : tinv w -> tlegal w e ->
  match e with TConnect _ | TDisconnect | TStop _ | TDestroy => True | _ => False end ->
  truns (run_tevent new_channel e w) tinv.
Proof using Type*.
  intros Hw Hl He. destruct e as [t | | t | | | | | |]; try done.
  - by apply user_connect_step.
  - by apply user_disconnect_step.
  - by apply user_stop_step.
  - by apply user_destroy_step.
Qed.

Lemma tevent_ok w e : tinv w -> tlegal w e -> truns (run_tevent new_channel e w) tinv.
Proof using Type*.
  intros Hw Hl. destruct e as [t | | t | | r | | | i |]; try by apply user_step.
  - by apply ready_step.
  - cbn [run_tevent]. apply calm_event; [done | done |]. intros cw. apply functors_calm.
  - cbn [run_tevent]. apply calm_event; [done | done |]. intros cw. apply timer_calm.
  - by apply closed_step.
  - by apply destroyed_step.
Qed.

Fixpoint tlegal_run (es : list tevent) w : Prop :=
  match es with
  | [] => True
  | e :: es => tlegal w e
      /\ match run_tevent new_channel e w with Ok w' => tlegal_run es w' | Err _ => True end
  end.
Lemma tevents_ok es : forall w, tinv w -> tlegal_run es w -> truns (run_tevents new_channel es w) tinv.
Proof using Type*.
  induction es as [| e es IH]; intros w Hw Hl; cbn [run_tevents tlegal_run] in *; [done |].
  destruct Hl as [He Hl]. pose proof (tevent_ok w e Hw He) as Hr.
  destruct (run_tevent new_channel e w) as [w' | f]; [| exact Hr]. by apply IH.
Qed.

(** A client that was just made. *)
Definition fresh_client w : Prop :=
  fresh_connector base w.1 /\ alive w.2 = true /\ conns w.2 = [] /\ doomed w.2 = [] /\ connection_ (client w.2) = None.

Lemma fresh_client_inv w : fresh_client w -> tinv w.
Proof using PollerSpec0 NetLaws0 EventFd0.
  intros (Hf & Ha & Hc & Hd & Hn). destruct (fresh_ok base w.1 Hf) as [Hci Hq]. destruct Hf as [Hct _ Hh _ _ _ _ _].
  assert (Hs : state_of w.1 = kDisconnected) by (unfold state_of, the_ctor; by rewrite Hct).
  split; rewrite ?Hc, ?Hd, ?Hn, ?Hs, ?Hh, ?Ha; try done.
  - split; [apply NoDup_nil_2 |]. intros i Hi. by apply not_elem_of_nil in Hi.
  - intros fd. rewrite elem_of_empty. split; [done |]. by intros (? & ? & ? & _).
Qed.



(** Once a connection was made and lost, the client cannot be connected again:
    the connector still says connected, and [startInLoop] asserts that it does
    not. *)
Theorem reconnect_asserts w i : tinv w -> tlegal w (TClosed i) -> Connector.state_of w.1 = kConnected ->
  retry_ (client w.2) && connect_ (client w.2) = false -> alive w.2 = true ->
  exists w1, run_tevent new_channel (TClosed i) w = Ok w1
    /\ run_tevent new_channel (TConnect (threadId_ w.1.1)) w1 = Err AssertFail.
Proof using Type*.
  intros Hw (_ & c & Hi & Huc) Hs Hr Ha. cbn [run_tevent]. unfold handleClose, load_conn. rewrite Hi. rsimp.
  assert (Has : TcpConnection.is_state (c_state c) TcpConnection.kConnected
                || TcpConnection.is_state (c_state c) TcpConnection.kDisconnecting = true)
    by (unfold up in Huc; by destruct Huc as [-> | ->]).
  rewrite Has. cbn [assert_]. rsimp.
  pose proof (t_up w Hw i c Hi Huc) as Hup. destruct (c_close c); [| congruence]. destruct Hup as [_ Hcur].
  unfold removeConnection, this_alive, in_loop. unfold with_conn, doom, on_client. cbn [fst snd alive client].
  rewrite Ha, assertIn, Hcur. rsimp. rewrite bool_decide_true by done. cbn [assert_]. rsimp.
  cbn [fst snd client conns doomed alive set_connection retry_ connect_]. rewrite Hr.
  eexists. split; [done |]. unfold client_connect, on_client, start, runInLoop, isInLoopThread. cbn [fst snd].
  change (threadId_ (on_ctor (with_connect true) w.1).1) with (threadId_ w.1.1). rewrite Z.eqb_refl.
  cbn [exec]. unfold startInLoop, assertInLoopThread, isInLoopThread.
  change (threadId_ (on_ctor (with_connect true) w.1).1) with (threadId_ w.1.1). rewrite Z.eqb_refl. rsimp.
  change (state_ (the_ctor (on_ctor (with_connect true) w.1))) with (Connector.state_of w.1). by rewrite Hs.
Qed.
End client_props.

(** ** Examples *)

(** connect(2) is in progress, and succeeds. *)
Definition demo_reach : demo_ctor_world :=
  (demo_ctor_loop, mkCRest (Connector_new (mkAddr AF_INET 1 16777343))
     (mkDemoNet {[0; 1; 2]} 100 [] EINPROGRESS 0) [] ∅).
Definition demo_base : gset Z := dn_opened (net demo_reach.2).
Abbreviation demo_client_world := (demo_ctor_world * @trest)%type.

Definition demo_client (retry : bool) : demo_client_world :=
  (demo_reach, mkTRest (if retry then enableRetry (TcpClient_new (bs "client")) else TcpClient_new (bs "client"))
                 [] [] true).

Lemma demo_client_fresh b : fresh_client demo_base (demo_client b).
Proof.
  split; [| by destruct b]. destruct demo_ctor_fresh as [_ _ _ _ _ Hi Ho _]. split; try reflexivity; [exact Hi | exact Ho].
Qed.

Lemma tlegal_cons new_channel e es (w w' : demo_client_world) :
  tlegal w e -> run_tevent new_channel e w = Ok w' -> tlegal_run new_channel es w' -> tlegal_run new_channel (e :: es) w.
Proof. intros Hl Hr Hes. split; [exact Hl |]. by rewrite Hr. Qed.

(** A client that retries connects, loses the connection and connects again. *)
Definition demo_history : list tevent :=
  [TConnect 1; TReady POLLOUT; TFunctors; TClosed 0; TReady POLLOUT; TFunctors; TDestroyed].

Example demo_reconnects :
  match run_tevents above demo_history (demo_client true) with
  | Ok w => map c_name (conns w.2) = [bs "client:127.0.0.1:512#1"; bs "client:127.0.0.1:512#2"]
            /\ connection_ (client w.2) = Some 1%nat /\ elements (opened (net w.1.2)) = [4; 2; 1; 0]
  | Err _ => False
  end.
Proof. vm_compute. by split_and!. Qed.


(** Its history without [enableRetry]: connected, and then lost. *)
Definition demo_up : demo_client_world :=
  match run_tevents above [TConnect 1; TReady POLLOUT; TFunctors] (demo_client false) with
  | Ok w => w | Err _ => demo_client false
  end.
Lemma demo_up_inv : tinv demo_base demo_up.
Proof.
  pose proof (tevents_ok demo_base above above_fresh [TConnect 1; TReady POLLOUT; TFunctors] (demo_client false)
    (fresh_client_inv _ _ (demo_client_fresh false))) as Hr.
  assert (Hl : tlegal_run above [TConnect 1; TReady POLLOUT; TFunctors] (demo_client false)).
  { eapply tlegal_cons; [split; [reflexivity | split; [reflexivity | vm_compute; split; reflexivity]] | vm_compute; reflexivity |].
    eapply tlegal_cons; [reflexivity | vm_compute; reflexivity |].
    eapply tlegal_cons; [exact I | vm_compute; reflexivity | exact I]. }
  specialize (Hr Hl). unfold demo_up. destruct (run_tevents _ _ _) as [w | f] eqn:Er; [exact Hr |].
  exfalso. vm_compute in Er. discriminate Er.
Qed.


Lemma reconnect_asserts_witness : exists w1, run_tevent above (TClosed 0) demo_up = Ok w1
  /\ run_tevent above (TConnect 1) w1 = Err AssertFail.
Proof.
  apply (reconnect_asserts demo_base above above_fresh demo_up 0 demo_up_inv); [| reflexivity..].
  split; [reflexivity |]. eexists. split; [vm_compute; reflexivity | by left].
Defined.
