(* ===== verification/Http.v ===== *)
(** * Http: the request parser, responses and the server's message handler

    [muduo/net/http/HttpRequest.h], [HttpContext.h], [HttpResponse.h],
    [HttpResponse.cc], [HttpServer.cc].  The parser works on the connection's
    input [Buffer]; a pure parser on the list of unread bytes is its
    specification, and what the properties are first proved about. *)
From S2P Require Import Prelude Buffer Format.

(** ** Requests *)

(*@ muduo/muduo/net/http/HttpRequest.h 31-34 HttpRequest::Method *)
Inductive Method : Type := kInvalid | kGet | kPost | kHead | kPut | kDelete.
(*@ muduo/muduo/net/http/HttpRequest.h 36-39 HttpRequest::Version *)
Inductive Version : Type := kUnknown | kHttp10 | kHttp11.

#[export] Instance Method_eq_dec : EqDecision Method.
Proof. solve_decision. Defined.
#[export] Instance Version_eq_dec : EqDecision Version.
Proof. solve_decision. Defined.

(*@ muduo/muduo/net/http/HttpRequest.h 172-182 HttpRequest *)
Record HttpRequest : Type := mkRequest {
  method_ : Method;
  version_ : Version;
  path_ : list byte;
  receiveTime_ : Z;
  headers_ : strmap
}.

(*@ muduo/muduo/net/http/HttpRequest.h 41-45 HttpRequest::HttpRequest *)
Definition HttpRequest_new : HttpRequest := mkRequest kInvalid kUnknown [] 0 [].

(*@ muduo/muduo/net/http/HttpRequest.h 47-50 HttpRequest::setVersion *)
Definition setVersion (v : Version) (r : HttpRequest) : HttpRequest :=
  mkRequest (method_ r) v (path_ r) (receiveTime_ r) (headers_ r).

Definition method_of (m : list byte) : Method :=
  if decide (m = bs "GET") then kGet
  else if decide (m = bs "POST") then kPost
  else if decide (m = bs "HEAD") then kHead
  else if decide (m = bs "PUT") then kPut
  else if decide (m = bs "DELETE") then kDelete
  else kInvalid.

(*@ muduo/muduo/net/http/HttpRequest.h 55-84 HttpRequest::setMethod *)
Definition setMethod (m : list byte) (r : HttpRequest) : res (bool * HttpRequest) :=
  assert_ (bool_decide (method_ r = kInvalid));;
  let r := mkRequest (method_of m) (version_ r) (path_ r) (receiveTime_ r) (headers_ r) in
  mret (bool_decide (method_ r <> kInvalid), r).

(*@ muduo/muduo/net/http/HttpRequest.h 89-113 HttpRequest::methodString *)
Definition methodString (r : HttpRequest) : list byte :=
  match method_ r with
  | kGet => bs "GET"
  | kPost => bs "POST"
  | kHead => bs "HEAD"
  | kPut => bs "PUT"
  | kDelete => bs "DELETE"
  | kInvalid => bs "UNKNOWN"
  end.

(*@ muduo/muduo/net/http/HttpRequest.h 115-118 HttpRequest::setPath *)
Definition setPath (p : list byte) (r : HttpRequest) : HttpRequest :=
  mkRequest (method_ r) (version_ r) p (receiveTime_ r) (headers_ r).
(*@ muduo/muduo/net/http/HttpRequest.h 123-124 HttpRequest::setReceiveTime *)
Definition setReceiveTime (t : Z) (r : HttpRequest) : HttpRequest :=
  mkRequest (method_ r) (version_ r) (path_ r) t (headers_ r).

(** [isspace] of the C locale. *)
Definition isspace (b : byte) : bool :=
  (byte_val b =? 32) || ((9 <=? byte_val b) && (byte_val b <=? 13)).

Fixpoint drop_spaces (l : list byte) : list byte :=
  match l with
  | [] => []
  | b :: l' => if isspace b then drop_spaces l' else l
  end.
Definition trim (l : list byte) : list byte := rev (drop_spaces (rev (drop_spaces l))).

(** The line and the position of its colon. *)
(*@ muduo/muduo/net/http/HttpRequest.h 130-146 HttpRequest::addHeader *)
Definition addHeader (line : list byte) (colon : Z) (r : HttpRequest) : HttpRequest :=
  let field := ztake colon line in
  let value := trim (zdrop (colon + 1) line) in
  mkRequest (method_ r) (version_ r) (path_ r) (receiveTime_ r) (map_set field value (headers_ r)).

(*@ muduo/muduo/net/http/HttpRequest.h 150-159 HttpRequest::getHeader *)
Definition getHeader (field : list byte) (r : HttpRequest) : list byte :=
  default [] (map_find field (headers_ r)).

(** [this->swap(that)]: the two requests afterwards. *)
(*@ muduo/muduo/net/http/HttpRequest.h 164-170 HttpRequest::swap *)
Definition request_swap (this that : HttpRequest) : HttpRequest * HttpRequest :=
  (mkRequest (method_ that) (version_ this) (path_ that) (receiveTime_ that) (headers_ that),
   mkRequest (method_ this) (version_ that) (path_ this) (receiveTime_ this) (headers_ this)).

(** ** The parsing context *)

(*@ muduo/muduo/net/http/HttpContext.h 28-34 HttpContext::HttpRequestParseState *)
Inductive HttpRequestParseState : Type :=
| kExpectRequestLine | kExpectHeaders | kExpectBody | kGotAll.
#[export] Instance HttpRequestParseState_eq_dec : EqDecision HttpRequestParseState.
Proof. solve_decision. Defined.

(*@ muduo/muduo/net/http/HttpContext.h 75-79 HttpContext *)
Record HttpContext : Type := mkContext { state_ : HttpRequestParseState; request_ : HttpRequest }.

(*@ muduo/muduo/net/http/HttpContext.h 36-39 HttpContext::HttpContext *)
Definition HttpContext_new : HttpContext := mkContext kExpectRequestLine HttpRequest_new.
(*@ muduo/muduo/net/http/HttpContext.h 52-53 HttpContext::gotAll *)
Definition gotAll (c : HttpContext) : bool := bool_decide (state_ c = kGotAll).
(*@ muduo/muduo/net/http/HttpContext.h 55-56 HttpContext::receiveRequestLine *)
Definition receiveRequestLine (c : HttpContext) : HttpContext := mkContext kExpectHeaders (request_ c).
(*@ muduo/muduo/net/http/HttpContext.h 58-59 HttpContext::receiveHeaders *)
Definition receiveHeaders (c : HttpContext) : HttpContext := mkContext kGotAll (request_ c).
(*@ muduo/muduo/net/http/HttpContext.h 62-67 HttpContext::reset *)
Definition reset (c : HttpContext) : HttpContext :=
  mkContext kExpectRequestLine (request_swap (request_ c) HttpRequest_new).1.

Definition with_request (r : HttpRequest) (c : HttpContext) : HttpContext := mkContext (state_ c) r.

(** ** Parsing *)

(** The version field: "HTTP/1.0" or "HTTP/1.1". *)
Definition version_of (tail : list byte) : option Version :=
  if (zlen tail =? 8) && bool_decide (ztake 7 tail = bs "HTTP/1.")
  then if decide (last tail = Some (Byte.x31)) then Some kHttp11
       else if decide (last tail = Some (Byte.x30)) then Some kHttp10
       else None
  else None.

(*@ muduo/muduo/net/http/HttpServer.cc 31-64 processRequestLine *)
Definition processRequestLine (line : list byte) (context : HttpContext) : res (bool * HttpContext) :=
  let space := find_byte SP line in
  if space =? zlen line then mret (false, context)
  else
    '(known, request) ← setMethod (ztake space line) (request_ context);
    if known : bool
    then
      let start := zdrop (space + 1) line in
      let space := find_byte SP start in
      if space =? zlen start then mret (false, with_request request context)
      else
        let request := setPath (ztake space start) request in
        match version_of (zdrop (space + 1) start) with
        | Some v => mret (true, with_request (setVersion v request) context)
        | None => mret (false, with_request request context)
        end
    else mret (false, with_request request context).

(** The bytes from [peek()] to [crlf]. *)
Definition line_to (buf : Buffer) (crlf : Z) : res (list byte) := mem_read (peek buf) crlf (buffer_ buf).

Fixpoint parse_loop (fuel : nat) (buf : Buffer) (context : HttpContext) (receiveTime : Z)
  : res (bool * HttpContext * Buffer) :=
  match fuel with
  | O => Err OutOfFuel
  | S fuel =>
      match state_ context with
      | kExpectRequestLine =>
          crlf ← findCRLF buf;
          match crlf with
          | Some crlf =>
              line ← line_to buf crlf;
              '(ok, context) ← processRequestLine line context;
              if ok : bool
              then
                let context := with_request (setReceiveTime receiveTime (request_ context)) context in
                buf ← retrieveUntil buf (crlf + 2);
                parse_loop fuel buf (receiveRequestLine context) receiveTime
              else mret (false, context, buf)
          | None => mret (true, context, buf)
          end
      | kExpectHeaders =>
          crlf ← findCRLF buf;
          match crlf with
          | Some crlf =>
              line ← line_to buf crlf;
              let colon := find_byte COLON line in
              if negb (colon =? zlen line)
              then
                let context := with_request (addHeader line colon (request_ context)) context in
                buf ← retrieveUntil buf (crlf + 2);
                parse_loop fuel buf context receiveTime
              else
                let context := receiveHeaders context in
                let hasMore := negb (gotAll context) in
                buf ← retrieveUntil buf (crlf + 2);
                if hasMore : bool then parse_loop fuel buf context receiveTime
                else mret (true, context, buf)
          | None => mret (true, context, buf)
          end
      | kExpectBody | kGotAll => parse_loop fuel buf context receiveTime
      end
  end.

(** A line takes at least two bytes, so this fuel is enough ([parse_terminates]). *)
(*@ muduo/muduo/net/http/HttpServer.cc 69-139 parseRequest *)
Definition parseRequest (buf : Buffer) (context : HttpContext) (receiveTime : Z)
  : res (bool * HttpContext * Buffer) :=
  parse_loop (S (Z.to_nat (readableBytes buf))) buf context receiveTime.

(** ** Responses *)

(*@ muduo/muduo/net/http/HttpResponse.h 29-36 HttpResponse::HttpStatusCode *)
Inductive HttpStatusCode : Type :=
| rUnknown | k200Ok | k301MovedPermanently | k400BadRequest | k404NotFound.
Definition status_value (c : HttpStatusCode) : Z :=
  match c with
  | rUnknown => 0
  | k200Ok => 200
  | k301MovedPermanently => 301
  | k400BadRequest => 400
  | k404NotFound => 404
  end.

(*@ muduo/muduo/net/http/HttpResponse.h 70-83 HttpResponse *)
Record HttpResponse : Type := mkResponse {
  r_headers_ : strmap;
  statusCode_ : HttpStatusCode;
  statusMessage_ : list byte;
  closeConnection_ : bool;
  body_ : list byte
}.

(*@ muduo/muduo/net/http/HttpResponse.h 38-42 HttpResponse::HttpResponse *)
Definition HttpResponse_new (close : bool) : HttpResponse := mkResponse [] rUnknown [] close [].
(*@ muduo/muduo/net/http/HttpResponse.h 44-45 HttpResponse::setStatusCode *)
Definition setStatusCode (code : HttpStatusCode) (r : HttpResponse) : HttpResponse :=
  mkResponse (r_headers_ r) code (statusMessage_ r) (closeConnection_ r) (body_ r).
(*@ muduo/muduo/net/http/HttpResponse.h 47-48 HttpResponse::setStatusMessage *)
Definition setStatusMessage (message : list byte) (r : HttpResponse) : HttpResponse :=
  mkResponse (r_headers_ r) (statusCode_ r) message (closeConnection_ r) (body_ r).
(*@ muduo/muduo/net/http/HttpResponse.h 50-51 HttpResponse::setCloseConnection *)
Definition setCloseConnection (on : bool) (r : HttpResponse) : HttpResponse :=
  mkResponse (r_headers_ r) (statusCode_ r) (statusMessage_ r) on (body_ r).
(*@ muduo/muduo/net/http/HttpResponse.h 65-66 HttpResponse::setBody *)
Definition setBody (body : list byte) (r : HttpResponse) : HttpResponse :=
  mkResponse (r_headers_ r) (statusCode_ r) (statusMessage_ r) (closeConnection_ r) body.
(*@ muduo/muduo/net/http/HttpResponse.h 62-63 HttpResponse::addHeader *)
Definition r_addHeader (k v : list byte) (r : HttpResponse) : HttpResponse :=
  mkResponse (map_set k v (r_headers_ r)) (statusCode_ r) (statusMessage_ r) (closeConnection_ r) (body_ r).
(*@ muduo/muduo/net/http/HttpResponse.h 57-58 HttpResponse::setContentType *)
Definition setContentType (v : list byte) (r : HttpResponse) : HttpResponse :=
  r_addHeader (bs "Content-Type") v r.

(*@ muduo/muduo/net/http/HttpServer.cc 141-146 defaultHttpCallback *)
Definition defaultHttpCallback (_ : HttpRequest) (r : HttpResponse) : HttpResponse :=
  setCloseConnection true (setStatusMessage (bs "Not Found") (setStatusCode k404NotFound r)).

(** The [for] over the headers. *)
Fixpoint append_headers (hs : strmap) (output : Buffer) : res Buffer :=
  match hs with
  | [] => mret output
  | (k, v) :: hs =>
      output ← append output k;
      output ← append output (bs ": ");
      output ← append output v;
      output ← append output crlf;
      append_headers hs output
  end.

(*@ muduo/muduo/net/http/HttpResponse.cc 18-54 HttpResponse::appendToBuffer *)
Definition appendToBuffer (r : HttpResponse) (output : Buffer) : res Buffer :=
  output ← append output (snprintf 32 (bs "HTTP/1.1 " ++ dec (status_value (statusCode_ r)) ++ bs " "));
  output ← append output (statusMessage_ r);
  output ← append output crlf;
  output ← (if closeConnection_ r
            then append output (bs "Connection: close" ++ crlf)
            else
              output ← append output (snprintf 32 (bs "Content-Length: " ++ dec (zlen (body_ r)) ++ crlf));
              append output (bs "Connection: Keep-Alive" ++ crlf));
  output ← append_headers (r_headers_ r) output;
  output ← append output crlf;
  append output (body_ r).

(** ** The server *)

(** What a handler does to its connection. *)
Inductive action : Type := Send (d : list byte) | Shutdown.

Section server.
Variable httpCallback_ : HttpRequest -> HttpResponse -> HttpResponse.

(*@ muduo/muduo/net/http/HttpServer.cc 207-223 HttpServer::onRequest *)
Definition onRequest (req : HttpRequest) : res (list action) :=
  let connection := getHeader (bs "Connection") req in
  let close := bool_decide (connection = bs "close")
    || (bool_decide (version_ req = kHttp10) && bool_decide (connection <> bs "Keep-Alive")) in
  let response := httpCallback_ req (HttpResponse_new close) in
  buf ← appendToBuffer response Buffer_new;
  text ← mem_read (peek buf) (peek buf + readableBytes buf) (buffer_ buf);
  mret (Send text :: if closeConnection_ response then [Shutdown] else []).

(*@ muduo/muduo/net/http/HttpServer.cc 184-205 HttpServer::onMessage *)
Definition onMessage (context : HttpContext) (buf : Buffer) (receiveTime : Z)
  : res (HttpContext * Buffer * list action) :=
  '(ok, context, buf) ← parseRequest buf context receiveTime;
  let acts := if ok : bool then []
              else [Send (bs "HTTP/1.1 400 Bad Request" ++ crlf ++ crlf); Shutdown] in
  if gotAll context
  then
    acts' ← onRequest (request_ context);
    mret (reset context, buf, acts ++ acts')
  else mret (context, buf, acts).
End server.

(*@ muduo/muduo/net/http/HttpServer.cc 175-181 HttpServer::onConnection *)
Definition onConnection (connected : bool) (context : option HttpContext) : option HttpContext :=
  if connected then Some HttpContext_new else context.

(** ** The specification: parsing a list of bytes *)

Fixpoint parse_bytes (fuel : nat) (l : list byte) (c : HttpContext) (t : Z)
  : res (bool * HttpContext * list byte) :=
  match fuel with
  | O => Err OutOfFuel
  | S fuel =>
      match state_ c, find_sub kCRLF l with
      | kExpectRequestLine, Some i =>
          '(ok, c) ← processRequestLine (ztake i l) c;
          if ok : bool
          then parse_bytes fuel (zdrop (i + 2) l)
                 (receiveRequestLine (with_request (setReceiveTime t (request_ c)) c)) t
          else mret (false, c, l)
      | kExpectHeaders, Some i =>
          let line := ztake i l in
          let colon := find_byte COLON line in
          if negb (colon =? zlen line)
          then parse_bytes fuel (zdrop (i + 2) l) (with_request (addHeader line colon (request_ c)) c) t
          else mret (true, receiveHeaders c, zdrop (i + 2) l)
      | kExpectRequestLine, None | kExpectHeaders, None => mret (true, c, l)
      | kExpectBody, _ | kGotAll, _ => parse_bytes fuel l c t
      end
  end.

Lemma line_holds l b i :
  holds l b -> find_sub kCRLF l = Some i -> line_to b (peek b + i) = Ok (ztake i l).
Proof.
  intros [Hwf <-] Hi. apply crlf_range in Hi. unfold line_to. apply read_prefix; [done | lia].
Qed.

Lemma retrieveLine_holds l b i :
  holds l b -> find_sub kCRLF l = Some i ->
  exists b', retrieveUntil b (peek b + i + 2) = Ok b' /\ holds (zdrop (i + 2) l) b'.
Proof.
  intros H Hi. apply crlf_range in Hi. rewrite <- Z.add_assoc. apply retrieveUntil_holds; [done | lia].
Qed.

(** What the buffer parser and the list parser agree on. *)
Definition agree (m : res (bool * HttpContext * Buffer)) (m' : res (bool * HttpContext * list byte)) : Prop :=
  match m, m' with
  | Ok (ok, c, b), Ok (ok', c', l) => ok = ok' /\ c = c' /\ holds l b
  | Err f, Err f' => f = f'
  | _, _ => False
  end.

Lemma parse_loop_agrees fuel t : forall l b c,
  holds l b -> agree (parse_loop fuel b c t) (parse_bytes fuel l c t).
Proof.
  induction fuel as [| fuel IH]; intros l b c H; cbn [parse_loop parse_bytes]; [done |].
  destruct (state_ c).
  - rewrite (findCRLF_holds l b H). rsimp. destruct (find_sub kCRLF l) as [i |] eqn:Ei; cbn [option_fmap option_map fmap].
    + rewrite (line_holds l b i H Ei). rsimp.
      destruct (processRequestLine (ztake i l) c) as [[[] c'] | f]; rsimp; [| | done].
      * destruct (retrieveLine_holds l b i H Ei) as (b' & -> & Hb'). rsimp. by apply IH.
      * done.
    + done.
  - rewrite (findCRLF_holds l b H). rsimp. destruct (find_sub kCRLF l) as [i |] eqn:Ei; cbn [option_fmap option_map fmap].
    + rewrite (line_holds l b i H Ei). rsimp.
      destruct (retrieveLine_holds l b i H Ei) as (b' & -> & Hb').
      destruct (negb _); rsimp; [by apply IH | done].
    + done.
  - by apply IH.
  - by apply IH.
Qed.

(** ** Termination, and independence of the fuel *)

Definition active (c : HttpContext) : Prop := state_ c = kExpectRequestLine \/ state_ c = kExpectHeaders.

Lemma processRequestLine_state line c ok c' :
  processRequestLine line c = Ok (ok, c') -> state_ c' = state_ c.
Proof.
  unfold processRequestLine. destruct (_ =? _); [by intros [= _ <-] |].
  unfold setMethod. destruct (assert_ _); rsimp; [| done].
  destruct (bool_decide _); [| by intros [= _ <-]].
  destruct (_ =? _); [by intros [= _ <-] |]. destruct (version_of _); by intros [= _ <-].
Qed.

(** The only fault of a request line is the assertion of [setMethod]. *)
Lemma processRequestLine_err line c e : processRequestLine line c = Err e -> e = AssertFail.
Proof.
  unfold processRequestLine. destruct (_ =? _); [done |].
  unfold setMethod, assert_. destruct (bool_decide (method_ _ = _)); rsimp; [| by intros [= <-]].
  destruct (bool_decide _); [| done]. destruct (_ =? _); [done |]. by destruct (version_of _).
Qed.

Lemma zdrop_shorter l i : find_sub kCRLF l = Some i -> (length (zdrop (i + 2) l) < length l)%nat.
Proof. intros H%crlf_range. unfold zdrop, zlen in *. rewrite length_drop. lia. Qed.

Lemma parse_bytes_fuel f1 t : forall f2 l c,
  active c -> (length l < f1)%nat -> (length l < f2)%nat ->
  parse_bytes f1 l c t = parse_bytes f2 l c t.
Proof.
  induction f1 as [| f1 IH]; intros [| f2] l c Hc H1 H2; [lia.. |]. cbn [parse_bytes].
  destruct (find_sub kCRLF l) as [i |] eqn:Ei; [| by destruct Hc as [-> | ->]].
  pose proof (zdrop_shorter l i Ei). destruct Hc as [Hc | Hc]; rewrite Hc.
  - destruct (processRequestLine _ _) as [[[] c'] |]; rsimp; [| done | done].
    apply IH; [by right | lia | lia].
  - destruct (negb _); [| done]. apply IH; [by right | lia | lia].
Qed.

(** Parsing with enough fuel. *)
Definition parse (l : list byte) (c : HttpContext) (t : Z) : res (bool * HttpContext * list byte) :=
  parse_bytes (S (length l)) l c t.

Lemma parse_result f t : forall l c,
  active c -> (length l < f)%nat ->
  match parse_bytes f l c t with
  | Ok (ok, c', l') => active c' \/ (ok = true /\ state_ c' = kGotAll)
  | Err e => e = AssertFail
  end.
Proof.
  induction f as [| f IH]; intros l c Hc Hl; [lia |]. cbn [parse_bytes].
  destruct (find_sub kCRLF l) as [i |] eqn:Ei; [| by destruct Hc as [Hc | Hc]; rewrite Hc; left; (left + right)].
  pose proof (zdrop_shorter l i Ei). destruct Hc as [Hc | Hc]; rewrite Hc.
  - destruct (processRequestLine _ _) as [[ok c'] | e] eqn:Ep; rsimp.
    + pose proof (processRequestLine_state _ _ _ _ Ep) as Hs. destruct ok.
      * apply IH; [by right | lia].
      * left. left. congruence.
    + by eapply processRequestLine_err.
  - destruct (negb _); [apply IH; [by right | lia] |]. by right.
Qed.

(** ** When the parser fails *)

(** A request line is there, with a method, and the request already has one:
    what is left of a line that was refused after its method. *)
Definition stale (l : list byte) (c : HttpContext) : bool :=
  bool_decide (state_ c = kExpectRequestLine) && bool_decide (method_ (request_ c) <> kInvalid)
  && match find_sub kCRLF l with
     | Some i => negb (find_byte SP (ztake i l) =? zlen (ztake i l))
     | None => false
     end.

Lemma processRequestLine_fresh line c :
  method_ (request_ c) = kInvalid -> exists ok c', processRequestLine line c = Ok (ok, c').
Proof.
  intros Hm. unfold processRequestLine. destruct (_ =? _); [by eexists _, _ |].
  unfold setMethod. rewrite Hm, (bool_decide_eq_true_2 (kInvalid = kInvalid)) by done. cbn [assert_]. rsimp.
  destruct (bool_decide _); [| by eexists _, _]. destruct (_ =? _); [by eexists _, _ |].
  destruct (version_of _); by eexists _, _.
Qed.
Lemma processRequestLine_no_space line c :
  find_byte SP line = zlen line -> processRequestLine line c = Ok (false, c).
Proof. intros E. unfold processRequestLine. by rewrite E, Z.eqb_refl. Qed.
Lemma processRequestLine_stale line c :
  find_byte SP line <> zlen line -> method_ (request_ c) <> kInvalid ->
  processRequestLine line c = Err AssertFail.
Proof.
  intros E Hm. unfold processRequestLine. rewrite (proj2 (Z.eqb_neq _ _) E). unfold setMethod.
  by rewrite (bool_decide_eq_false_2 (method_ (request_ c) = kInvalid)) by done.
Qed.

(** A refused line is refused again, unless it left a method. *)
Lemma processRequestLine_again line c c1 :
  processRequestLine line c = Ok (false, c1) ->
  find_byte SP line = zlen line \/ method_ (request_ c1) = kInvalid ->
  processRequestLine line c1 = Ok (false, c1).
Proof.
  intros Hr Hor. destruct (decide (find_byte SP line = zlen line)) as [E | E]; [by apply processRequestLine_no_space |].
  destruct Hor as [| Hm]; [done |]. unfold processRequestLine in *. rewrite (proj2 (Z.eqb_neq _ _) E) in *.
  unfold setMethod in *. rewrite (bool_decide_eq_true_2 _ Hm). cbn [assert_]. rsimp. cbn [method_].
  destruct (assert_ (bool_decide (method_ (request_ c) = kInvalid))); [| done].
  cbn [mbind res_bind mret res_ret method_] in Hr. case_bool_decide as Hk.
  - exfalso. apply Hk. cbn [negb] in Hr. destruct (_ =? _) in Hr; [by injection Hr as <- |].
    destruct (version_of _) in Hr; [done |]. by injection Hr as <-.
  - injection Hr as <-. done.
Qed.

Lemma parse_stale f l c t : stale l c = true -> parse_bytes (S f) l c t = Err AssertFail.
Proof.
  unfold stale. intros [[Hs%bool_decide_eq_true Hm%bool_decide_eq_true]%andb_prop Hl]%andb_prop.
  cbn [parse_bytes]. rewrite Hs. destruct (find_sub kCRLF l) as [i |]; [| done].
  rewrite processRequestLine_stale; [done | | done]. by apply Z.eqb_neq, negb_true_iff.
Qed.

Lemma parse_not_stale f t : forall l c,
  active c -> stale l c = false -> (length l < f)%nat ->
  exists ok c' l', parse_bytes f l c t = Ok (ok, c', l').
Proof.
  induction f as [| f IH]; intros l c Hc Hf Hl; [lia |]. cbn [parse_bytes]. unfold stale in Hf.
  destruct (find_sub kCRLF l) as [i |] eqn:Ei; [| destruct Hc as [-> | ->]; by eexists _, _, _].
  pose proof (zdrop_shorter l i Ei).
  assert (Hnext : forall l' c', state_ c' = kExpectHeaders -> stale l' c' = false).
  { intros l' c' E. unfold stale. by rewrite E. }
  destruct Hc as [Hc | Hc]; rewrite Hc in *.
  - assert (exists ok c', processRequestLine (ztake i l) c = Ok (ok, c')) as (ok & c' & ->).
    { destruct (decide (method_ (request_ c) = kInvalid)); [by apply processRequestLine_fresh |].
      rewrite !bool_decide_eq_true_2 in Hf by done. cbn [andb] in Hf.
      eexists _, _. by apply processRequestLine_no_space, Z.eqb_eq, negb_false_iff. }
    rsimp. destruct ok; [| by eexists _, _, _]. apply IH; [by right | by apply Hnext | lia].
  - clear Hf. destruct (negb _); [| by eexists _, _, _]. apply IH; [by right | by apply Hnext | lia].
Qed.

Lemma zlen_lt_fuel l b : holds l b -> S (Z.to_nat (readableBytes b)) = S (length l).
Proof. intros H. rewrite (holds_readable _ _ H). unfold zlen. by rewrite Nat2Z.id. Qed.

Lemma parseRequest_agrees l b c t : holds l b -> agree (parseRequest b c t) (parse l c t).
Proof.
  intros H. unfold parseRequest, parse. rewrite (zlen_lt_fuel l b H). by apply parse_loop_agrees.
Qed.

(** ** More bytes do not change what was parsed *)

Lemma parse_bytes_app f1 t l2 : forall f2 l1 c c1 r1,
  active c -> (length l1 < f1)%nat -> (length (l1 ++ l2) < f2)%nat ->
  parse_bytes f1 l1 c t = Ok (true, c1, r1) -> active c1 ->
  parse_bytes f2 (l1 ++ l2) c t = parse (r1 ++ l2) c1 t.
Proof.
  induction f1 as [| f1 IH]; intros f2 l1 c c1 r1 Hc H1 H2 Hp Hc1; [lia |].
  cbn [parse_bytes] in Hp. destruct (find_sub kCRLF l1) as [i |] eqn:Ei.
  2: { assert (c1 = c /\ r1 = l1) as [-> ->] by (destruct Hc as [Hc | Hc]; rewrite Hc in Hp; injection Hp; auto).
       unfold parse. apply parse_bytes_fuel; [done | lia | lia]. }
  pose proof (zdrop_shorter l1 i Ei) as Hs. pose proof (crlf_range l1 i Ei) as Hr.
  destruct f2 as [| f2]; [lia |]. cbn [parse_bytes].
  rewrite (find_sub_app_Some _ _ l2 _ Ei), ztake_app_l, zdrop_app_l by lia.
  assert (Hlen : (length (zdrop (i + 2) l1 ++ l2) < f2)%nat).
  { rewrite length_app in H2 |- *. lia. }
  destruct Hc as [Hc | Hc]; rewrite Hc in *.
  - destruct (processRequestLine (ztake i l1) c) as [[[] c'] |]; rsimp; [| done | done].
    eapply IH; [by right | | done | exact Hp | done]. lia.
  - destruct (negb _).
    + eapply IH; [by right | | done | exact Hp | done]. lia.
    + injection Hp as <- <-. destruct Hc1; done.
Qed.

(** Nor do they when it was decided: the request is complete, or its line was
    refused. *)
Lemma parse_bytes_decided f1 t l2 : forall f2 l1 c,
  active c -> (length l1 < f1)%nat -> (length (l1 ++ l2) < f2)%nat ->
  match parse_bytes f1 l1 c t with
  | Ok (ok, c1, r1) => ok = false \/ state_ c1 = kGotAll -> parse_bytes f2 (l1 ++ l2) c t = Ok (ok, c1, r1 ++ l2)
  | Err e => parse_bytes f2 (l1 ++ l2) c t = Err e
  end.
Proof.
  induction f1 as [| f1 IH]; intros f2 l1 c Hc H1 H2; [lia |].
  destruct f2 as [| f2]; [lia |]. cbn [parse_bytes]. destruct (find_sub kCRLF l1) as [i |] eqn:Ei.
  2: { destruct Hc as [Hc | Hc]; rewrite Hc; intros [|]; congruence. }
  pose proof (zdrop_shorter l1 i Ei) as Hs. pose proof (crlf_range l1 i Ei) as Hr.
  rewrite (find_sub_app_Some _ _ l2 _ Ei), ztake_app_l, zdrop_app_l by lia.
  assert (Hlen : (length (zdrop (i + 2) l1 ++ l2) < f2)%nat) by (rewrite length_app in H2 |- *; lia).
  destruct Hc as [Hc | Hc]; rewrite Hc.
  - destruct (processRequestLine (ztake i l1) c) as [[[] c'] |]; rsimp; [| done | done].
    apply IH; [by right | lia | done].
  - destruct (negb _); [| done]. apply IH; [by right | lia | done].
Qed.

(** A refused line stays in front of what was not parsed. *)
Lemma parse_bytes_refused f t : forall l c c1 r1,
  active c -> (length l < f)%nat -> parse_bytes f l c t = Ok (false, c1, r1) ->
  state_ c1 = kExpectRequestLine
  /\ exists i c0, find_sub kCRLF r1 = Some i /\ processRequestLine (ztake i r1) c0 = Ok (false, c1).
Proof.
  induction f as [| f IH]; intros l c c1 r1 Hc H1 Hp; [lia |].
  cbn [parse_bytes] in Hp. destruct (find_sub kCRLF l) as [i |] eqn:Ei.
  2: { by destruct Hc as [Hc | Hc]; rewrite Hc in Hp. }
  pose proof (zdrop_shorter l i Ei) as Hs. destruct Hc as [Hc | Hc]; rewrite Hc in *.
  - destruct (processRequestLine (ztake i l) c) as [[[] c'] |] eqn:Ep; [| | done]; cbn [mbind res_bind] in Hp.
    + refine (IH _ _ _ _ _ _ Hp); [by right | lia].
    + injection Hp as -> <-. split; [by rewrite (processRequestLine_state _ _ _ _ Ep) |]. by exists i, c.
  - destruct (negb _); [| done]. refine (IH _ _ _ _ _ _ Hp); [by right | lia].
Qed.

(** Parsing the same bytes again after a refused line. *)
Lemma parse_again f l c1 t i c0 :
  state_ c1 = kExpectRequestLine -> find_sub kCRLF l = Some i ->
  processRequestLine (ztake i l) c0 = Ok (false, c1) ->
  parse_bytes (S f) l c1 t = if stale l c1 then Err AssertFail else Ok (false, c1, l).
Proof.
  intros Hs Hi Hp. destruct (stale l c1) eqn:E; [by apply parse_stale |].
  unfold stale in E. rewrite Hi, Hs, bool_decide_eq_true_2 in E by done. cbn [andb] in E.
  cbn [parse_bytes]. rewrite Hs, Hi, (processRequestLine_again _ _ _ Hp); [done |].
  destruct (decide (method_ (request_ c1) = kInvalid)) as [| Hm]; [by right | left].
  rewrite bool_decide_eq_true_2 in E by done. by apply Z.eqb_eq, negb_false_iff.
Qed.

(** ** Printing requests *)

Definition version_text (v : Version) : list byte :=
  match v with kHttp10 => bs "HTTP/1.0" | kHttp11 => bs "HTTP/1.1" | kUnknown => [] end.
Definition print_header (h : list byte * list byte) : list byte := h.1 ++ bs ": " ++ h.2 ++ crlf.
Definition print_request (m : Method) (path : list byte) (v : Version)
    (hs : list (list byte * list byte)) : list byte :=
  methodString (mkRequest m v path 0 []) ++ [SP] ++ path ++ [SP] ++ version_text v ++ crlf
  ++ concat (map print_header hs) ++ crlf.

Definition header_ok (h : list byte * list byte) : Prop :=
  (COLON ∉ h.1) /\ (CR ∉ h.1) /\ (CR ∉ h.2) /\ trim (SP :: h.2) = h.2.

(** The request such a text stands for. *)
Definition the_request (m : Method) (path : list byte) (v : Version) (t : Z)
    (hs : list (list byte * list byte)) : HttpRequest :=
  mkRequest m v path t (fold_left (fun acc h => map_set h.1 h.2 acc) hs []).

Lemma find_crlf_line line rest : CR ∉ line -> find_sub kCRLF (line ++ crlf ++ rest) = Some (zlen line).
Proof.
  induction line as [| b line IH]; intros Hn.
  - done.
  - apply not_elem_of_cons in Hn as [Hb Hn]. cbn [app find_sub].
    assert (starts_with kCRLF (b :: line ++ crlf ++ rest) = false) as ->.
    { unfold starts_with. apply bool_decide_eq_false_2. intros Heq. apply Hb. cbn in Heq.
      by injection Heq as -> _. }
    rewrite (IH Hn). cbn. rewrite zlen_cons. f_equal. lia.
Qed.

Lemma ztake_here {A} (l k : list A) : ztake (zlen l) (l ++ k) = l.
Proof. rewrite ztake_app_l by lia. by apply ztake_all. Qed.
Lemma zdrop_here {A} n (l k : list A) : 0 <= n -> zdrop (zlen l + n) (l ++ k) = zdrop n k.
Proof.
  intros. pose proof (zlen_nonneg l). rewrite zdrop_app_r by lia. f_equal. lia.
Qed.

Lemma request_line_parses m path v c :
  m <> kInvalid -> v <> kUnknown -> SP ∉ path -> method_ (request_ c) = kInvalid ->
  processRequestLine (methodString (mkRequest m v path 0 []) ++ [SP] ++ path ++ [SP] ++ version_text v) c
  = Ok (true, with_request (mkRequest m v path (receiveTime_ (request_ c)) (headers_ (request_ c))) c).
Proof.
  intros Hm Hv Hp Hc. unfold processRequestLine.
  set (ms := methodString _).
  assert (Hms : SP ∉ ms) by (unfold ms; destruct m; by_evaluation).
  assert (Hmo : method_of ms = m) by (unfold ms; destruct m; done).
  cbn [app]. rewrite find_byte_split by done.
  rewrite (proj2 (Z.eqb_neq _ _)).
  2: { rewrite zlen_app, zlen_cons. pose proof (zlen_nonneg (path ++ SP :: version_text v)). lia. }
  rewrite ztake_here. unfold setMethod. rewrite Hc, (bool_decide_eq_true_2 (kInvalid = kInvalid)) by done. cbn [assert_]. rsimp.
  cbn [method_]. rewrite Hmo, bool_decide_eq_true_2 by done.
  rewrite zdrop_here by lia. change (zdrop 1 (SP :: ?l)) with l.
  rewrite find_byte_split by done. rewrite (proj2 (Z.eqb_neq _ _)).
  2: { rewrite zlen_app, zlen_cons. pose proof (zlen_nonneg (version_text v)). lia. }
  rewrite ztake_here, zdrop_here by lia. change (zdrop 1 (SP :: ?l)) with l.
  assert (version_of (version_text v) = Some v) as -> by (destruct v; done).
  done.
Qed.

Lemma header_parses h r :
  header_ok h ->
  let line := h.1 ++ bs ": " ++ h.2 in
  find_byte COLON line = zlen h.1
  /\ addHeader line (zlen h.1) r
     = mkRequest (method_ r) (version_ r) (path_ r) (receiveTime_ r) (map_set h.1 h.2 (headers_ r)).
Proof.
  intros (Hk & _ & _ & Ht). change (bs ": ") with [COLON; SP]. cbn [app].
  split; [by apply find_byte_split |]. unfold addHeader.
  rewrite ztake_here, zdrop_here by lia. change (zdrop 1 (COLON :: ?l)) with l. by rewrite Ht.
Qed.

Lemma headers_parse f t rest hs : forall c,
  Forall header_ok hs -> state_ c = kExpectHeaders ->
  (length (concat (map print_header hs) ++ crlf ++ rest) < f)%nat ->
  parse_bytes f (concat (map print_header hs) ++ crlf ++ rest) c t
  = Ok (true, mkContext kGotAll (mkRequest (method_ (request_ c)) (version_ (request_ c))
          (path_ (request_ c)) (receiveTime_ (request_ c))
          (fold_left (fun acc h => map_set h.1 h.2 acc) hs (headers_ (request_ c)))), rest).
Proof.
  revert f. induction hs as [| h hs IH]; intros f c Hok Hc Hf; (destruct f as [| f]; [lia |]);
    cbn [parse_bytes]; rewrite Hc.
  - cbn [map concat app fold_left]. change (find_sub kCRLF (crlf ++ rest)) with (Some 0).
    change (find_byte COLON (ztake 0 (crlf ++ rest)) =? zlen (ztake 0 (crlf ++ rest))) with true.
    cbn [negb]. change (zdrop (0 + 2) (crlf ++ rest)) with rest. unfold receiveHeaders.
    destruct (request_ c). done.
  - apply Forall_cons in Hok as [Hh Hok]. cbn [map concat] in Hf |- *.
    set (line := h.1 ++ bs ": " ++ h.2).
    assert (Hline : print_header h = line ++ crlf) by (unfold print_header, line; by rewrite <- !app_assoc).
    rewrite Hline, <- !app_assoc in Hf |- *. pose proof Hh as (_ & Hcr1 & Hcr2 & _).
    rewrite find_crlf_line.
    2: { unfold line. rewrite !not_elem_of_app. split_and!; [done | | done].
         by_evaluation. }
    rewrite ztake_here. destruct (header_parses h (request_ c) Hh) as [Hfb Hadd].
    fold line in Hfb, Hadd. rewrite Hfb.
    rewrite (proj2 (Z.eqb_neq _ _)).
    2: { unfold line. rewrite !zlen_app. change (zlen (bs ": ")) with 2. pose proof (zlen_nonneg h.2). lia. }
    cbn [negb]. rewrite zdrop_here by lia. change (zdrop 2 (crlf ++ ?l)) with l.
    rewrite IH; [| done | done |].
    + by rewrite Hadd.
    + rewrite length_app, (length_app crlf) in Hf. change (length crlf) with 2%nat in Hf. lia.
Qed.

Lemma print_parses m path v hs t rest :
  m <> kInvalid -> v <> kUnknown -> SP ∉ path -> CR ∉ path -> Forall header_ok hs ->
  parse (print_request m path v hs ++ rest) HttpContext_new t
  = Ok (true, mkContext kGotAll (the_request m path v t hs), rest).
Proof.
  intros Hm Hv Hsp Hcr Hhs. unfold parse.
  set (line := methodString (mkRequest m v path 0 []) ++ [SP] ++ path ++ [SP] ++ version_text v).
  assert (Heq : print_request m path v hs ++ rest
    = line ++ crlf ++ concat (map print_header hs) ++ crlf ++ rest).
  { unfold print_request, line. by rewrite <- !app_assoc. }
  rewrite Heq. set (f := length _). cbn [parse_bytes].
  change (state_ HttpContext_new) with kExpectRequestLine. rewrite find_crlf_line.
  2: { unfold line. rewrite !not_elem_of_app.
       split_and!; [destruct m; by_evaluation | by_evaluation | done | by_evaluation
         | destruct v; by_evaluation]. }
  rewrite ztake_here. pose proof (request_line_parses m path v HttpContext_new Hm Hv Hsp eq_refl) as Hline.
  fold line in Hline. rewrite Hline. rsimp.
  rewrite zdrop_here by lia. change (zdrop 2 (crlf ++ ?l)) with l.
  rewrite headers_parse; [done | done | done |].
  unfold f. rewrite (length_app line), (length_app crlf). change (length crlf) with 2%nat. lia.
Qed.

(** ** Printing responses *)

Definition print_response (r : HttpResponse) : list byte :=
  bs "HTTP/1.1 " ++ dec (status_value (statusCode_ r)) ++ bs " " ++ statusMessage_ r ++ crlf
  ++ (if closeConnection_ r then bs "Connection: close" ++ crlf
      else bs "Content-Length: " ++ dec (zlen (body_ r)) ++ crlf ++ bs "Connection: Keep-Alive" ++ crlf)
  ++ concat (map print_header (r_headers_ r)) ++ crlf ++ body_ r.

(** The texts of a response fit in memory, and the line with the length in
    the 32 bytes of the local buffer. *)
Definition response_ok (r : HttpResponse) : Prop :=
  zlen (statusMessage_ r) < 2 ^ 62 /\ zlen (body_ r) < 10 ^ 13
  /\ Forall (fun h => zlen h.1 < 2 ^ 62 /\ zlen h.2 < 2 ^ 62) (r_headers_ r).

Lemma append_then l b d (k : Buffer -> res Buffer) Q :
  holds l b -> zlen d < 2 ^ 62 -> (forall b', holds (l ++ d) b' -> safe (k b') Q) ->
  safe (append b d ≫= k) Q.
Proof. intros H Hd Hk. eapply safe_bind; [by apply append_holds | exact Hk]. Qed.

Lemma append_headers_holds hs : forall l b,
  holds l b -> Forall (fun h => zlen h.1 < 2 ^ 62 /\ zlen h.2 < 2 ^ 62) hs ->
  safe (append_headers hs b) (holds (l ++ concat (map print_header hs))).
Proof.
  induction hs as [| [k v] hs IH]; intros l b H Hok; cbn [append_headers map concat].
  - by rewrite app_nil_r.
  - apply Forall_cons in Hok as [[Hk Hv] Hok]. cbn [fst snd] in *.
    apply (append_then l); [done | done |]. intros b1 H1.
    eapply append_then; [exact H1 | done |]. intros b2 H2.
    eapply append_then; [exact H2 | done |]. intros b3 H3.
    eapply append_then; [exact H3 | done |]. intros b4 H4.
    eapply safe_mono; [by apply IH |]. intros b5. unfold print_header. cbn [fst snd].
    by rewrite <- !app_assoc.
Qed.

Lemma dec_status_short c : zlen (dec (status_value c)) <= 3.
Proof. destruct c; by_evaluation. Qed.

Lemma appendToBuffer_holds r l b :
  holds l b -> response_ok r -> safe (appendToBuffer r b) (holds (l ++ print_response r)).
Proof.
  intros H (Hm & Hb & Hh). unfold appendToBuffer. pose proof (zlen_nonneg (body_ r)).
  pose proof (dec_status_short (statusCode_ r)).
  assert (Hlen : zlen (dec (zlen (body_ r))) <= 13).
  { unfold dec. rewrite (proj2 (Z.ltb_ge _ _)) by lia. by apply dec_u_len. }
  assert (Hs : snprintf 32 (bs "HTTP/1.1 " ++ dec (status_value (statusCode_ r)) ++ bs " ")
    = bs "HTTP/1.1 " ++ dec (status_value (statusCode_ r)) ++ bs " ").
  { unfold snprintf. apply ztake_all. rewrite !zlen_app. change (zlen (bs "HTTP/1.1 ")) with 9.
    change (zlen (bs " ")) with 1. lia. }
  assert (Hc : snprintf 32 (bs "Content-Length: " ++ dec (zlen (body_ r)) ++ crlf)
    = bs "Content-Length: " ++ dec (zlen (body_ r)) ++ crlf).
  { unfold snprintf. apply ztake_all. rewrite !zlen_app. change (zlen (bs "Content-Length: ")) with 16.
    change (zlen crlf) with 2. lia. }
  rewrite Hs, Hc. apply (append_then l); [done | |].
  { rewrite !zlen_app. change (zlen (bs "HTTP/1.1 ")) with 9. change (zlen (bs " ")) with 1. lia. }
  intros b1 Hb1. eapply append_then; [exact Hb1 | done |].
  intros b2 Hb2. eapply append_then; [exact Hb2 | done |]. intros b3 Hb3.
  eapply safe_bind with (P := holds ((((l ++ (bs "HTTP/1.1 " ++ dec (status_value (statusCode_ r)) ++ bs " "))
    ++ statusMessage_ r) ++ crlf) ++ (if closeConnection_ r then bs "Connection: close" ++ crlf
      else bs "Content-Length: " ++ dec (zlen (body_ r)) ++ crlf ++ bs "Connection: Keep-Alive" ++ crlf))).
  - destruct (closeConnection_ r); [by apply append_holds |].
    eapply append_then; [exact Hb3 | |].
    + rewrite !zlen_app. change (zlen (bs "Content-Length: ")) with 16. change (zlen crlf) with 2. lia.
    + intros b4 Hb4. eapply safe_mono; [apply append_holds; [exact Hb4 | done] |].
      intros b5. by rewrite <- !app_assoc.
  - intros b4 Hb4. eapply safe_bind; [by eapply append_headers_holds |].
    intros b5 Hb5. eapply append_then; [exact Hb5 | done |]. intros b6 Hb6.
    eapply safe_mono; [apply append_holds; [exact Hb6 | lia] |].
    intros b7. unfold print_response. by rewrite <- !app_assoc.
Qed.

(** ** Properties *)

(** C16: On any input, and in any context that expects a request line or headers
    (the handler resets a context when its request is complete, and no other
    state is ever entered), the parser ends, never reads outside the buffer, and
    does to the buffer and the context exactly what the parser of byte lists
    does.  Its only failure is the assertion of [setMethod], and that fails
    exactly when a complete line with a space has come and the request already
    has a method: the code leaves a line that it refused after its method in the
    buffer, and its method in the context. *)
Theorem parseRequest_correct l b c t :
  holds l b -> active c ->
  if stale l c
  then parseRequest b c t = Err AssertFail
  else exists ok c' b' l', parseRequest b c t = Ok (ok, c', b') /\ parse l c t = Ok (ok, c', l')
    /\ holds l' b' /\ (active c' \/ (ok = true /\ gotAll c' = true)).
Proof.
  intros H Hc. pose proof (parseRequest_agrees l b c t H) as Ha. destruct (stale l c) eqn:Hst.
  - unfold parse in Ha. rewrite (parse_stale _ _ _ _ Hst) in Ha. destruct (parseRequest b c t) as [[[]] |]; [done |].
    cbn in Ha. by subst.
  - destruct (parse_not_stale (S (length l)) t l c Hc Hst ltac:(lia)) as (ok & c' & l' & Hp).
    pose proof (parse_result _ t l c Hc (Nat.lt_succ_diag_r _)) as Hr.
    unfold parse in Ha |- *. rewrite Hp in *. unfold agree in Ha.
    destruct (parseRequest b c t) as [[[ok2 c2] b'] |]; [| done]. destruct Ha as (-> & -> & Hb').
    exists ok, c', b', l'. split_and!; try done. destruct Hr as [? | [-> ?]]; [by left | right].
    split; [done |]. by apply bool_decide_eq_true.
Qed.

(** Two results on buffers with the same unread bytes. *)
Definition same_result (m m' : res (bool * HttpContext * Buffer)) : Prop :=
  match m, m' with
  | Ok (ok, c, b), Ok (ok', c', b') => ok = ok' /\ c = c' /\ contents b = contents b'
  | Err f, Err f' => f = f'
  | _, _ => False
  end.

(** C17: How the result depends on the pieces in which the bytes arrive.  Parse
    what has come so far, in any context that expects a request line or headers.
    If that fails, so does parsing all at once.  If it leaves the request
    unfinished, then parsing what was left with what comes next (below 2^62
    bytes) has the result, context and unread bytes of parsing everything at
    once, or fails as that does.  If it completes the request, or refuses its
    line, all at once does the same and leaves what comes next unread; and after
    a refusal parsing again refuses the same line again when that line has no
    known method, and fails the assertion of [setMethod] when it has one. *)
Theorem parseRequest_chunks l1 l2 b1 b12 c t :
  holds l1 b1 -> holds (l1 ++ l2) b12 -> active c -> zlen l2 < 2 ^ 62 ->
  match parseRequest b1 c t with
  | Err f => f = AssertFail /\ parseRequest b12 c t = Err AssertFail
  | Ok (ok, c1, b1') =>
      if ok && negb (gotAll c1)
      then safe (append b1' l2) (fun b2 => same_result (parseRequest b2 c1 t) (parseRequest b12 c t))
      else
        (exists b', parseRequest b12 c t = Ok (ok, c1, b') /\ contents b' = contents b1' ++ l2)
        /\ (ok = false -> forall b2 t2, holds (contents b1' ++ l2) b2 ->
              if stale (contents b1') c1 then parseRequest b2 c1 t2 = Err AssertFail
              else exists b', parseRequest b2 c1 t2 = Ok (false, c1, b') /\ contents b' = contents b2)
  end.
Proof.
  intros H1 H12 Hc Hlen.
  pose proof (parseRequest_agrees l1 b1 c t H1) as Ha. pose proof (parseRequest_agrees _ b12 c t H12) as Ha12.
  pose proof (parse_result _ t l1 c Hc (Nat.lt_succ_diag_r _)) as Hr.
  pose proof (parse_bytes_decided (S (length l1)) t l2 (S (length (l1 ++ l2))) l1 c Hc ltac:(lia) ltac:(lia)) as Hd.
  unfold parse at 1 in Ha. unfold parse in Ha12.
  destruct (parse_bytes (S (length l1)) l1 c t) as [[[ok c1] r1] | e] eqn:Hp.
  2: { rewrite Hd in Ha12. subst e. destruct (parseRequest b1 c t) as [[[]] |]; [done |].
       destruct (parseRequest b12 c t) as [[[]] |]; [done |]. cbn in Ha, Ha12. by subst. }
  destruct (parseRequest b1 c t) as [[[ok2 c2] b1'] |]; [| done]. destruct Ha as (-> & -> & Hb1').
  rewrite (proj2 Hb1'). destruct (ok && negb (gotAll c1)) eqn:Eg.
  - apply andb_prop in Eg as [-> Hg%negb_true_iff].
    assert (Hc1 : active c1).
    { destruct Hr as [| [_ Hr]]; [done |]. unfold gotAll in Hg. by rewrite Hr in Hg. }
    eapply safe_mono; [by apply append_holds |]. intros b2 Hb2.
    pose proof (parseRequest_agrees _ b2 c1 t Hb2) as Ha2.
    rewrite (parse_bytes_app (S (length l1)) t l2 (S (length (l1 ++ l2))) l1 c c1 r1 Hc ltac:(lia) ltac:(lia) Hp Hc1) in Ha12.
    unfold same_result. destruct (parseRequest b2 c1 t) as [[[]] |], (parseRequest b12 c t) as [[[]] |],
      (parse (r1 ++ l2) c1 t) as [[[]] |]; try done; cbn in Ha2, Ha12; [| by subst].
    destruct Ha2 as (-> & -> & [_ ->]), Ha12 as (-> & -> & [_ ->]). done.
  - assert (Hdec : ok = false \/ state_ c1 = kGotAll).
    { destruct ok; [right | by left]. apply negb_false_iff in Eg. by apply bool_decide_eq_true in Eg. }
    rewrite Hd in Ha12 by done. destruct (parseRequest b12 c t) as [[[ok3 c3] b3] |]; [| done].
    destruct Ha12 as (-> & -> & Hb3). split; [exists b3; split; [done | apply Hb3] |].
    intros -> b2 t2 Hb2. destruct (parse_bytes_refused _ t l1 c c1 r1 Hc (Nat.lt_succ_diag_r _) Hp)
      as (Hs & i & c0 & Hi & Hline).
    pose proof (crlf_range r1 i Hi) as Hri.
    assert (Hst : stale (r1 ++ l2) c1 = stale r1 c1).
    { unfold stale. by rewrite (find_sub_app_Some _ _ l2 _ Hi), Hi, ztake_app_l by lia. }
    pose proof (parseRequest_agrees _ b2 c1 t2 Hb2) as Ha2. unfold parse in Ha2.
    rewrite (parse_again _ (r1 ++ l2) c1 t2 i c0 Hs), Hst in Ha2;
      [| by apply find_sub_app_Some | by rewrite ztake_app_l by lia].
    destruct (stale r1 c1); destruct (parseRequest b2 c1 t2) as [[[ok4 c4] b4] |]; cbn in Ha2; try done.
    + by subst.
    + destruct Ha2 as (-> & -> & [_ Hb4]). exists b4. split; [done |]. by rewrite Hb4, (proj2 Hb2).
Qed.

(** C18: A well-formed request is understood: printing a request and parsing the
    text, whatever follows it, yields its method, path, version and headers,
    and leaves exactly what follows. *)
Theorem parse_print_request m path v hs t rest b :
  m <> kInvalid -> v <> kUnknown -> SP ∉ path -> CR ∉ path -> Forall header_ok hs ->
  holds (print_request m path v hs ++ rest) b ->
  exists b', parseRequest b HttpContext_new t
      = Ok (true, mkContext kGotAll (the_request m path v t hs), b') /\ holds rest b'.
Proof.
  intros Hm Hv Hsp Hcr Hhs H. pose proof (parseRequest_agrees _ b HttpContext_new t H) as Ha.
  rewrite (print_parses m path v hs t rest Hm Hv Hsp Hcr Hhs) in Ha.
  destruct (parseRequest b HttpContext_new t) as [[[ok c] b'] |]; [| done].
  destruct Ha as (-> & -> & ?). by exists b'.
Qed.

(** A message handler answers one request per call: the response of the first
    of two pipelined requests goes out, and the second one stays in the
    buffer, unanswered, until more bytes arrive. *)
Theorem onMessage_answers_one_request cb m path v hs t rest b :
  m <> kInvalid -> v <> kUnknown -> SP ∉ path -> CR ∉ path -> Forall header_ok hs ->
  holds (print_request m path v hs ++ rest) b ->
  (forall close, response_ok (cb (the_request m path v t hs) (HttpResponse_new close))) ->
  safe (onMessage cb HttpContext_new b t)
    (fun '(c', b', acts) => holds rest b'
       /\ state_ c' = kExpectRequestLine /\ method_ (request_ c') = kInvalid
       /\ exists r, acts = Send (print_response r) :: (if closeConnection_ r then [Shutdown] else [])
            /\ exists close, r = cb (the_request m path v t hs) (HttpResponse_new close)).
Proof.
  intros Hm Hv Hsp Hcr Hhs H Hcb. pose proof (parseRequest_agrees _ b HttpContext_new t H) as Ha.
  rewrite (print_parses m path v hs t rest Hm Hv Hsp Hcr Hhs) in Ha. unfold onMessage.
  destruct (parseRequest b HttpContext_new t) as [[[ok c] b'] |]; [| done].
  destruct Ha as (-> & -> & Hb'). rsimp. cbn [gotAll state_]. unfold onRequest. cbn [request_].
  set (r := cb _ _).
  eapply safe_bind with (P := fun acts => acts
    = Send (print_response r) :: (if closeConnection_ r then [Shutdown] else [])).
  - eapply safe_bind; [apply (appendToBuffer_holds r []); [apply holds_new | apply Hcb] |].
    intros b2 Hb2. cbn [app] in Hb2.
    rewrite (holds_readable _ _ Hb2), (read_prefix _ (proj1 Hb2)).
    + rsimp. cbn [safe]. by rewrite (proj2 Hb2), ztake_all.
    + rewrite (proj2 Hb2). pose proof (zlen_nonneg (print_response r)). lia.
  - intros acts ->. cbn [safe mret res_ret]. split_and!; [done.. |]. exists r.
    split; [done |]. by eexists.
Qed.

(** After a request line with a known method but no acceptable version, the
    server answers 400 and half-closes, and leaves the line in the buffer; if
    the client then sends anything more, the line is parsed again and the
    assertion of [setMethod] fails. *)
Theorem bad_request_line_then_assert cb t t2 line rest more b b2 c1 :
  CR ∉ line -> processRequestLine line HttpContext_new = Ok (false, c1) ->
  method_ (request_ c1) <> kInvalid ->
  holds (line ++ crlf ++ rest) b -> holds (line ++ crlf ++ rest ++ more) b2 ->
  (exists b', onMessage cb HttpContext_new b t
     = Ok (c1, b', [Send (bs "HTTP/1.1 400 Bad Request" ++ crlf ++ crlf); Shutdown])
     /\ holds (line ++ crlf ++ rest) b')
  /\ onMessage cb c1 b2 t2 = Err AssertFail.
Proof.
  intros Hcr Hline Hm H H2.
  pose proof (processRequestLine_state _ _ _ _ Hline) as Hs.
  assert (Hp : forall f l, parse_bytes (S f) (line ++ crlf ++ l) HttpContext_new t
    = Ok (false, c1, line ++ crlf ++ l)).
  { intros f l. cbn [parse_bytes]. change (state_ HttpContext_new) with kExpectRequestLine.
    rewrite find_crlf_line, ztake_here, Hline by done. done. }
  assert (Hsp : find_byte SP line <> zlen line).
  { intros E. unfold processRequestLine in Hline. rewrite E, Z.eqb_refl in Hline.
    injection Hline as <-. by apply Hm. }
  split.
  - pose proof (parseRequest_agrees _ b HttpContext_new t H) as Ha. unfold parse in Ha. rewrite Hp in Ha.
    unfold onMessage. destruct (parseRequest b HttpContext_new t) as [[[ok c] b'] |]; [| done].
    destruct Ha as (-> & -> & Hb'). rsimp. unfold gotAll. rewrite Hs. cbn. by exists b'.
  - pose proof (parseRequest_agrees _ b2 c1 t2 H2) as Ha. unfold parse in Ha. cbn [parse_bytes] in Ha.
    rewrite Hs in Ha. change (state_ HttpContext_new) with kExpectRequestLine in Ha.
    rewrite find_crlf_line, ztake_here in Ha by done. unfold processRequestLine in Ha.
    rewrite (proj2 (Z.eqb_neq _ _)) in Ha by done. unfold setMethod in Ha.
    rewrite (bool_decide_eq_false_2 (method_ (request_ c1) = kInvalid)) in Ha by done. cbn [assert_] in Ha. rsimp.
    unfold onMessage. destruct (parseRequest b2 c1 t2) as [[[ok c] b'] | f]; [done |].
    cbn in Ha. by subst f.
Qed.

(** ** Examples *)

Definition buffer_of (l : list byte) : Buffer :=
  {| buffer_ := replicate 8 NUL ++ l; readerIndex_ := 8; writerIndex_ := 8 + zlen l |}.

Lemma buffer_of_holds l : zlen l < 1000 -> holds l (buffer_of l).
Proof.
  intros Hl. pose proof (zlen_nonneg l). unfold buffer_of. split.
  - apply wf_mk; rewrite ?zlen_app, ?zlen_replicate; unfold kCheapPrepend, vector_max_size; lia.
  - unfold contents. cbn [buffer_ readerIndex_ writerIndex_].
    rewrite zslice_app_r by (rewrite ?zlen_replicate; lia). rewrite zlen_replicate.
    replace (8 - Z.of_nat 8) with 0 by lia. replace (8 + zlen l - Z.of_nat 8) with (zlen l) by lia.
    apply zslice_full.
Qed.

Definition demo_headers : list (list byte * list byte) :=
  [(bs "Host", bs "example.org"); (bs "Connection", bs "close")].
Definition demo_text : list byte := print_request kGet (bs "/index.html") kHttp11 demo_headers.

Lemma demo_headers_ok : Forall header_ok demo_headers.
Proof. repeat constructor; by_evaluation. Qed.

Definition bad_line : list byte := bs "GET / HTTP/2.0".
Definition bad_context : HttpContext :=
  mkContext kExpectRequestLine (mkRequest kGet kUnknown (bs "/") 0 []).

Lemma parseRequest_correct_witness :
  (exists ok c' b' l', parseRequest (buffer_of demo_text) HttpContext_new 7 = Ok (ok, c', b')
    /\ parse demo_text HttpContext_new 7 = Ok (ok, c', l') /\ holds l' b')
  /\ parseRequest (buffer_of (bad_line ++ crlf)) bad_context 7 = Err AssertFail.
Proof.
  split.
  - destruct (parseRequest_correct demo_text (buffer_of demo_text) HttpContext_new 7)
      as (ok & c' & b' & l' & H1 & H2 & H3 & _).
    + apply buffer_of_holds. vm_compute. reflexivity.
    + by left.
    + exists ok, c', b', l'. auto.
  - apply (parseRequest_correct (bad_line ++ crlf) (buffer_of (bad_line ++ crlf)) bad_context 7).
    + apply buffer_of_holds. vm_compute. reflexivity.
    + by left.
Defined.

(** The request cut in the middle of its first header. *)
Lemma parseRequest_chunks_witness :
  match parseRequest (buffer_of (ztake 30 demo_text)) HttpContext_new 7 with
  | Ok (_, c1, b1') =>
      safe (append b1' (zdrop 30 demo_text))
        (fun b2 => same_result (parseRequest b2 c1 7) (parseRequest (buffer_of demo_text) HttpContext_new 7))
  | Err _ => False
  end.
Proof.
  pose proof (parseRequest_chunks (ztake 30 demo_text) (zdrop 30 demo_text)
    (buffer_of (ztake 30 demo_text)) (buffer_of demo_text) HttpContext_new 7) as H.
  rewrite ztake_zdrop in H.
  specialize (H ltac:(apply buffer_of_holds; vm_compute; reflexivity)
    ltac:(apply buffer_of_holds; vm_compute; reflexivity) ltac:(by left) ltac:(vm_compute; reflexivity)).
  destruct (parseRequest (buffer_of (ztake 30 demo_text)) HttpContext_new 7) as [[[ok c1] b1'] |] eqn:E;
    [| vm_compute in E; discriminate E].
  vm_compute in E. injection E as <- <- <-. exact H.
Defined.

Lemma parse_print_request_witness :
  exists b', parseRequest (buffer_of (demo_text ++ bs "GET")) HttpContext_new 7
      = Ok (true, mkContext kGotAll (the_request kGet (bs "/index.html") kHttp11 7 demo_headers), b')
    /\ holds (bs "GET") b'.
Proof.
  apply (parse_print_request kGet (bs "/index.html") kHttp11 demo_headers 7 (bs "GET")).
  - discriminate.
  - discriminate.
  - by_evaluation.
  - by_evaluation.
  - exact demo_headers_ok.
  - apply buffer_of_holds. vm_compute. reflexivity.
Defined.


Lemma onMessage_answers_one_request_witness :
  safe (onMessage defaultHttpCallback HttpContext_new (buffer_of (demo_text ++ demo_text)) 7)
    (fun '(c', b', acts) => holds demo_text b'
       /\ state_ c' = kExpectRequestLine /\ method_ (request_ c') = kInvalid
       /\ exists r, acts = Send (print_response r) :: (if closeConnection_ r then [Shutdown] else [])
            /\ exists close, r = defaultHttpCallback
                 (the_request kGet (bs "/index.html") kHttp11 7 demo_headers) (HttpResponse_new close)).
Proof.
  apply (onMessage_answers_one_request defaultHttpCallback kGet (bs "/index.html") kHttp11 demo_headers 7
    demo_text).
  - discriminate.
  - discriminate.
  - by_evaluation.
  - by_evaluation.
  - exact demo_headers_ok.
  - apply buffer_of_holds. vm_compute. reflexivity.
  - intros close. split; [reflexivity |]. split; [reflexivity |]. constructor.
Defined.

Lemma bad_request_line_then_assert_witness :
  exists c1, onMessage defaultHttpCallback c1 (buffer_of (bad_line ++ crlf ++ [] ++ bs "x")) 8 = Err AssertFail.
Proof.
  destruct (bad_request_line_then_assert defaultHttpCallback 7 8 bad_line [] (bs "x")
    (buffer_of (bad_line ++ crlf ++ [])) (buffer_of (bad_line ++ crlf ++ [] ++ bs "x"))
    (mkContext kExpectRequestLine (mkRequest kGet kUnknown (bs "/") 0 []))) as [_ H].
  - by_evaluation.
  - vm_compute. reflexivity.
  - discriminate.
  - apply buffer_of_holds. vm_compute. reflexivity.
  - apply buffer_of_holds. vm_compute. reflexivity.
  - eexists. exact H.
Defined.
