(* ===== verification/Inspector.v ===== *)
(** * Inspector: the state of a process over HTTP

    [net/inspect/Inspector.cc] maps the paths [/module/command/arguments] to
    callbacks that other parts of a program register, and lists them at [/];
    [ProcessInspector.cc] registers four about the process itself.  What
    [ProcessInfo] reads from the system is the class [Process].  [onRequest] is
    run by the message handler of [Http].  [add] and [onRequest] are steps; that
    the code looks commands up without the lock that [add] takes is not
    followed. *)
From Stdlib Require Import Sorting.Sorted.
From S2P Require Import Prelude Buffer Format Http.

Definition SLASH : byte := byte_of 47.
Definition TAB : byte := byte_of 9.
Definition LF : byte := byte_of 10.

(** ** Paths *)

(** The loop looks for the next slash from [start] on; one turn for every
    slash, so the length of the string is fuel enough. *)
Fixpoint split_loop (fuel : nat) (str : list byte) (start : Z) (result : list (list byte)) : list (list byte) :=
  match fuel with
  | O => result
  | S fuel =>
      let rest := zdrop start str in
      let pos := find_byte SLASH rest in
      if pos =? zlen rest
      then (if start <? zlen str then result ++ [rest] else result)
      else split_loop fuel str (start + pos + 1) (if 0 <? pos then result ++ [ztake pos rest] else result)
  end.
(*@ muduo/muduo/net/inspect/Inspector.cc 34-55 split *)
Definition split (str : list byte) : list (list byte) := split_loop (S (length str)) str 0 [].

(** What is between the slashes. *)
Fixpoint segments (str : list byte) : list (list byte) :=
  match str with
  | [] => [[]]
  | b :: str =>
      if decide (b = SLASH) then [] :: segments str
      else match segments str with s :: ss => (b :: s) :: ss | [] => [[b]] end
  end.
Definition nonempty (ss : list (list byte)) : list (list byte) := filter (fun s => s <> []) ss.

Lemma segments_cut s rest : SLASH ∉ s -> segments (s ++ SLASH :: rest) = s :: segments rest.
Proof.
  induction s as [| b s IH]; intros Hs; cbn [app segments]; [by rewrite decide_True |].
  apply not_elem_of_cons in Hs as [Hb Hs]. by rewrite decide_False, (IH Hs) by congruence.
Qed.
Lemma segments_last s : SLASH ∉ s -> segments s = [s].
Proof.
  induction s as [| b s IH]; intros Hs; cbn [segments]; [done |].
  apply not_elem_of_cons in Hs as [Hb Hs]. by rewrite decide_False, (IH Hs) by congruence.
Qed.

Lemma first_byte_cut c l : find_byte c l < zlen l ->
  l = ztake (find_byte c l) l ++ c :: zdrop (find_byte c l + 1) l.
Proof.
  induction l as [| b l IH]; cbn [find_byte]; [done |]. destruct (decide (b = c)) as [-> |]; [done |].
  rewrite zlen_cons. intros Hl. pose proof (find_byte_bounds c l). change (b :: l) with ([b] ++ l).
  rewrite ztake_app_r, zdrop_app_r by (change (zlen [b]) with 1; lia). change (zlen [b]) with 1.
  cbn [app]. f_equal. replace (1 + find_byte c l - 1) with (find_byte c l) by lia.
  replace (1 + find_byte c l + 1 - 1) with (find_byte c l + 1) by lia. apply IH. lia.
Qed.

Lemma split_loop_ok fuel str : forall start result, 0 <= start <= zlen str -> (length (zdrop start str) < fuel)%nat ->
  split_loop fuel str start result = result ++ nonempty (segments (zdrop start str)).
Proof.
  induction fuel as [| fuel IH]; intros start result Hs Hf; [lia |]. cbn [split_loop].
  set (rest := zdrop start str) in *. pose proof (find_byte_bounds SLASH rest) as Hb.
  pose proof (find_byte_not_before SLASH rest) as Hn.
  assert (Hlen : zlen rest = zlen str - start) by (unfold rest; rewrite zlen_zdrop; lia).
  destruct (Z.eqb_spec (find_byte SLASH rest) (zlen rest)) as [He | He].
  - rewrite He, ztake_all in Hn by lia. rewrite segments_last by done. unfold nonempty. rewrite filter_cons, filter_nil.
    destruct (Z.ltb_spec start (zlen str)).
    + rewrite decide_True; [done |]. intros Hr. rewrite Hr, zlen_nil in Hlen. lia.
    + rewrite decide_False; [by rewrite app_nil_r |]. intros Hr. apply Hr, zlen_zero. lia.
  - set (pos := find_byte SLASH rest) in *.
    pose proof (first_byte_cut SLASH rest ltac:(lia)) as Hcut. fold pos in Hcut.
    rewrite IH; [| lia |].
    + assert (Hseg : segments rest = ztake pos rest :: segments (zdrop (pos + 1) rest))
        by (etransitivity; [exact (f_equal segments Hcut) | by apply segments_cut]).
      rewrite Hseg. unfold nonempty. rewrite filter_cons.
      replace (zdrop (start + pos + 1) str) with (zdrop (pos + 1) rest) by (unfold rest; rewrite zdrop_zdrop by lia; f_equal; lia).
      destruct (Z.ltb_spec 0 pos).
      * rewrite decide_True; [by rewrite <- app_assoc |]. intros Hz. apply (f_equal zlen) in Hz.
        rewrite zlen_ztake, zlen_nil in Hz; lia.
      * rewrite decide_False; [done |]. intros Hz. apply Hz, zlen_zero. rewrite zlen_ztake; lia.
    + unfold zlen in *. replace (start + pos + 1) with (start + (pos + 1)) by lia.
      rewrite <- (zdrop_zdrop _ _ str) by lia. fold rest. unfold zdrop. rewrite length_drop. lia.
Qed.

Lemma split_segments str : split str = nonempty (segments str).
Proof.
  unfold split. rewrite split_loop_ok; [| pose proof (zlen_nonneg str); lia | rewrite zdrop_0; lia].
  by rewrite zdrop_0.
Qed.

(** A path made of names, and back. *)
Definition path_of (names : list (list byte)) : list byte := concat (map (cons SLASH) names).
Definition name_ok (s : list byte) : Prop := s <> [] /\ SLASH ∉ s.

Lemma segments_path names : Forall name_ok names -> segments (path_of names) = [] :: names.
Proof.
  unfold path_of. induction names as [| s names IH]; intros H; [done |].
  apply Forall_cons in H as [[Hs Hn] H]. specialize (IH H). cbn [map concat app segments].
  rewrite decide_True by done. f_equal. destruct names as [| s' names].
  - cbn [map concat]. rewrite app_nil_r. by apply segments_last.
  - cbn [map concat app segments] in IH |- *. rewrite decide_True in IH by done.
    rewrite segments_cut by done. f_equal. congruence.
Qed.
Lemma split_path names : Forall name_ok names -> split (path_of names) = names.
Proof.
  intros H. rewrite split_segments, segments_path by done. unfold nonempty. rewrite filter_cons, decide_False by congruence.
  induction H as [| s names [Hs _] H IH]; [done |]. by rewrite filter_cons, decide_True, IH.
Qed.

(** ** The inspector *)

Section inspector.
(** The state of the process that a callback reports on. *)
Context {W : Type}.

(** A [boost::function] may be empty. *)
Definition Callback : Type := W -> Method -> list (list byte) -> list byte.

(*@ muduo/muduo/net/inspect/Inspector.h 61-65 Inspector *)
Record Inspector : Type := mkInspector {
  commands_ : bytemap (bytemap (option Callback));
  helps_ : bytemap (bytemap (list byte))
}.
Definition Inspector_empty : Inspector := mkInspector [] [].

(** [m[k1][k2] = v]. *)
Definition map_set2 {V} (k1 k2 : list byte) (v : V) (m : bytemap (bytemap V)) : bytemap (bytemap V) :=
  map_set k1 (map_set k2 v (default [] (map_find k1 m))) m.
Definition map_find2 {V} (k1 k2 : list byte) (m : bytemap (bytemap V)) : option V :=
  inner ← map_find k1 m; map_find k2 inner.

(*@ muduo/muduo/net/inspect/Inspector.cc 86-94 Inspector::add *)
Definition add (module command : list byte) (cb : option Callback) (help : list byte) (ins : Inspector) : Inspector :=
  mkInspector (map_set2 module command cb (commands_ ins)) (map_set2 module command help (helps_ ins)).

Definition help_line (module command help : list byte) : list byte :=
  [SLASH] ++ module ++ [SLASH] ++ command ++ [TAB] ++ help ++ [LF].
Definition help_text (helps : bytemap (bytemap (list byte))) : list byte :=
  fold_left (fun result helpListI =>
    fold_left (fun result it => result ++ help_line helpListI.1 it.1 it.2) helpListI.2 result) helps [].

Definition ok_text (text : list byte) (resp : HttpResponse) : HttpResponse :=
  setBody text (setContentType (bs "text/plain") (setStatusMessage (bs "OK") (setStatusCode k200Ok resp))).

(*@ muduo/muduo/net/inspect/Inspector.cc 104-184 Inspector::onRequest *)
Definition onRequest (ins : Inspector) (w : W) (req : HttpRequest) (resp : HttpResponse) : HttpResponse :=
  if bool_decide (path_ req = [SLASH])
  then ok_text (help_text (helps_ ins)) resp
  else
    let found :=
      match split (path_ req) with
      | module :: command :: args =>
          match map_find module (commands_ ins) with
          | Some commList =>
              match map_find command commList with
              | Some (Some cb) => Some (cb w (method_ req) args)
              | _ => None
              end
          | None => None
          end
      | _ => None
      end in
    match found with
    | Some text => ok_text text resp
    | None => setStatusMessage (bs "Not Found") (setStatusCode k404NotFound resp)
    end.
End inspector.
Arguments Callback W : clear implicits.
Arguments Inspector W : clear implicits.

(** ** ProcessInspector *)

(** [ProcessInfo]: what the system says of the process. *)
Class Process (W : Type) := {
  process_pid : W -> Z;
  process_status : W -> list byte;
  process_openedFiles : W -> Z;
  process_threads : W -> list Z
}.

Section process.
Context {W : Type} `{!Process W}.

(*@ muduo/muduo/net/inspect/ProcessInspector.cc 27-32 ProcessInspector::pid *)
Definition pid : Callback W := fun w _ _ => snprintf 32 (dec (process_pid w)).
(*@ muduo/muduo/net/inspect/ProcessInspector.cc 34-37 ProcessInspector::procStatus *)
Definition procStatus : Callback W := fun w _ _ => process_status w.
(*@ muduo/muduo/net/inspect/ProcessInspector.cc 40-45 ProcessInspector::openedFiles *)
Definition openedFiles : Callback W := fun w _ _ => snprintf 32 (dec (process_openedFiles w)).
(*@ muduo/muduo/net/inspect/ProcessInspector.cc 48-59 ProcessInspector::threads *)
Definition threads : Callback W := fun w _ _ =>
  fold_left (fun result t => result ++ snprintf 32 (dec t ++ [LF])) (process_threads w) [].

(*@ muduo/muduo/net/inspect/ProcessInspector.cc 18-24 ProcessInspector::registerCommands *)
Definition registerCommands (ins : Inspector W) : Inspector W :=
  let ins := add (bs "proc") (bs "pid") (Some pid) (bs "print pid") ins in
  let ins := add (bs "proc") (bs "status") (Some procStatus) (bs "print /proc/self/status") ins in
  let ins := add (bs "proc") (bs "opened_files") (Some openedFiles) (bs "count /proc/self/fd") ins in
  add (bs "proc") (bs "threads") (Some threads) (bs "list /proc/self/task") ins.

(** [g_globalInspector]: whether there is one.  The constructor also has the
    loop start the HTTP server. *)
(*@ muduo/muduo/net/inspect/Inspector.cc 60-77 Inspector::Inspector *)
Definition Inspector_new (isMainThread : bool) (g_globalInspector : bool) : res (Inspector W * bool) :=
  assert_ isMainThread;;
  assert_ (negb g_globalInspector);;
  mret (registerCommands Inspector_empty, true).
(*@ muduo/muduo/net/inspect/Inspector.cc 79-83 Inspector::~Inspector *)
Definition Inspector_dtor (isMainThread : bool) : res bool :=
  assert_ isMainThread;;
  mret false.
End process.

(** ** What was registered *)

Section registrations.
Context {W : Type}.

Record registration : Type := mkRegistration {
  r_module : list byte;
  r_command : list byte;
  r_callback : option (Callback W);
  r_help : list byte
}.
Definition register (ins : Inspector W) (a : registration) : Inspector W :=
  add (r_module a) (r_command a) (r_callback a) (r_help a) ins.
Definition registered (regs : list registration) : Inspector W := fold_left register regs Inspector_empty.

(** The last registration of a command is the one that counts. *)
Definition latest (module command : list byte) (regs : list registration) : option registration :=
  fold_left (fun found a => if decide (r_module a = module /\ r_command a = command) then Some a else found) regs None.

Lemma registered_snoc regs a : registered (regs ++ [a]) = register (registered regs) a.
Proof using. unfold registered. by rewrite fold_left_app. Qed.
Lemma latest_snoc m c regs a :
  latest m c (regs ++ [a]) = if decide (r_module a = m /\ r_command a = c) then Some a else latest m c regs.
Proof using. unfold latest. by rewrite fold_left_app. Qed.

Lemma map_find2_set {V} k1 k2 (v : V) m j1 j2 :
  map_find2 j1 j2 (map_set2 k1 k2 v m) = if decide (k1 = j1 /\ k2 = j2) then Some v else map_find2 j1 j2 m.
Proof using.
  unfold map_find2, map_set2. destruct (decide (j1 = k1)) as [-> | H1].
  - rewrite map_find_set_eq. simpl. destruct (decide (j2 = k2)) as [-> | H2].
    + by rewrite map_find_set_eq, decide_True.
    + rewrite map_find_set_ne, decide_False by naive_solver. by destruct (map_find k1 m).
  - by rewrite map_find_set_ne, decide_False by naive_solver.
Qed.

Lemma registered_find regs m c :
  map_find2 m c (commands_ (registered regs)) = r_callback <$> latest m c regs
  /\ map_find2 m c (helps_ (registered regs)) = r_help <$> latest m c regs.
Proof using.
  induction regs as [| a regs IH] using rev_ind; [done |].
  rewrite registered_snoc, latest_snoc. cbn [register add commands_ helps_]. rewrite !map_find2_set.
  by destruct (decide _).
Qed.

(** *** The list of commands *)

Definition entry : Type := list byte * list byte * list byte.
Definition entry_lt (a b : entry) : Prop := bytes_lt a.1.1 b.1.1 \/ (a.1.1 = b.1.1 /\ bytes_lt a.1.2 b.1.2).
Definition help_entries (helps : bytemap (bytemap (list byte))) : list entry :=
  concat (map (fun p => map (fun q => (p.1, q.1, q.2)) p.2) helps).
Definition entry_line (e : entry) : list byte := help_line e.1.1 e.1.2 e.2.

Definition sorted2 {V} (m : bytemap (bytemap V)) : Prop := map_sorted m /\ Forall (fun p => map_sorted p.2) m.

Lemma map_find_in {V} k (v : V) m : map_find k m = Some v -> (k, v) ∈ m.
Proof using.
  induction m as [| [k' v'] m IH]; cbn [map_find]; [done |].
  destruct (decide (k' = k)) as [-> |]; [intros [= ->]; left | right; by apply IH].
Qed.
Lemma map_set_Forall {V} (P : list byte * V -> Prop) k v m : P (k, v) -> Forall P m -> Forall P (map_set k v m).
Proof using.
  intros Hv. induction m as [| [k' v'] m IH]; cbn [map_set]; intros H; [by repeat constructor |].
  apply Forall_cons in H as [H' H]. destruct (decide (k' = k)); [by constructor |].
  destruct (bytes_ltb k k'); repeat constructor; auto.
Qed.
Lemma map_set2_sorted {V} k1 k2 (v : V) m : sorted2 m -> sorted2 (map_set2 k1 k2 v m).
Proof using.
  intros [Hm Hall]. unfold map_set2. split; [by apply map_set_sorted |]. apply map_set_Forall; [| done].
  apply map_set_sorted. destruct (map_find k1 m) as [inner |] eqn:E; [| constructor].
  rewrite Forall_forall in Hall. by apply (Hall _ (map_find_in _ _ _ E)).
Qed.
Lemma helps_sorted regs : sorted2 (helps_ (registered regs)).
Proof using.
  induction regs as [| a regs IH] using rev_ind; [split; constructor |].
  rewrite registered_snoc. by apply map_set2_sorted.
Qed.

Lemma help_entries_find helps m c h : sorted2 helps -> (m, c, h) ∈ help_entries helps <-> map_find2 m c helps = Some h.
Proof using.
  intros [Hs Hall]. unfold help_entries, map_find2. rewrite list_elem_of_In, in_concat. split.
  - intros (l & Hl & Hin). apply in_map_iff in Hl as ([k inner] & <- & Hk). apply in_map_iff in Hin as ([k2 h2] & [= -> -> ->] & Hin).
    apply list_elem_of_In in Hk, Hin. rewrite Forall_forall in Hall. specialize (Hall _ Hk). cbn [snd] in *.
    apply (map_find_elem helps) in Hk; [| done]. rewrite Hk. simpl. by apply map_find_elem.
  - destruct (map_find m helps) as [inner |] eqn:E; [| done]. simpl. intros Hin.
    apply map_find_in in E, Hin. exists (map (fun q => (m, q.1, q.2)) inner).
    split; apply in_map_iff; [exists (m, inner) | exists (c, h)]; (split; [done | by apply list_elem_of_In]).
Qed.

Lemma help_entries_sorted helps : sorted2 helps -> StronglySorted entry_lt (help_entries helps).
Proof using.
  intros [Hs Hall]. unfold help_entries. induction helps as [| [k inner] helps IH]; cbn [map concat]; [constructor |].
  apply StronglySorted_inv in Hs as [Hs Hk]. apply Forall_cons in Hall as [Hi Hall]. specialize (IH Hs Hall).
  cbn [fst snd] in *. induction inner as [| [k2 h2] inner IHi]; cbn [map app]; [done |].
  apply StronglySorted_inv in Hi as [Hi Hk2]. constructor; [by apply IHi |]. cbn [fst snd].
  apply Forall_app. split.
  - apply Forall_map. rewrite Forall_forall in Hk2. apply Forall_forall. intros q Hq. right. split; [done |].
    apply Hk2. exact (list_elem_of_fmap_2 fst _ _ Hq).
  - apply Forall_forall. intros e He. apply list_elem_of_In, in_concat in He as (l & Hl & He).
    apply in_map_iff in Hl as (p & <- & Hp). apply in_map_iff in He as (q & <- & _). left.
    rewrite Forall_forall in Hk. apply Hk.
    apply list_elem_of_In in Hp. exact (list_elem_of_fmap_2 fst _ _ Hp).
Qed.

Lemma help_text_entries helps : help_text helps = concat (map entry_line (help_entries helps)).
Proof using.
  unfold help_text, help_entries. rewrite <- (app_nil_l (concat (map entry_line _))). generalize (@nil byte).
  induction helps as [| [k inner] helps IH]; intros result; cbn [fold_left map concat fst snd]; [by rewrite app_nil_r |].
  rewrite IH, map_app, concat_app, app_assoc. f_equal. clear IH. revert result.
  induction inner as [| [k2 h2] inner IHi]; intros result; cbn [fold_left map concat]; [by rewrite app_nil_r |].
  rewrite IHi, <- app_assoc. done.
Qed.
End registrations.
Arguments registration W : clear implicits.

(** ** Requests *)

Section requests.
Context {W : Type}.

(** What the request is answered with. *)
Definition reply_ok (regs : list (registration W)) (w : W) (m : Method) (path : list byte) (r : HttpResponse) : Prop :=
  if decide (path = [SLASH])
  then statusCode_ r = k200Ok /\ exists es, body_ r = concat (map entry_line es) /\ StronglySorted entry_lt es
    /\ forall md c h, (md, c, h) ∈ es <-> r_help <$> latest md c regs = Some h
  else
    match nonempty (segments path) with
    | module :: command :: args =>
        match latest module command regs with
        | Some (mkRegistration _ _ (Some cb) _) => statusCode_ r = k200Ok /\ body_ r = cb w m args
        | _ => statusCode_ r = k404NotFound /\ body_ r = []
        end
    | _ => statusCode_ r = k404NotFound /\ body_ r = []
    end.

Lemma inspector_replies regs w req close :
  reply_ok regs w (method_ req) (path_ req) (onRequest (registered regs) w req (HttpResponse_new close)).
Proof using.
  unfold reply_ok, onRequest. case_decide as Hp.
  - rewrite bool_decide_true by done. split; [done |]. exists (help_entries (helps_ (registered regs))).
    split; [apply help_text_entries |]. split; [apply help_entries_sorted, helps_sorted |].
    intros md c h. rewrite help_entries_find by apply helps_sorted. by rewrite (proj2 (registered_find regs md c)).
  - rewrite bool_decide_false by done. rewrite split_segments.
    destruct (nonempty _) as [| module [| command args]]; [done.. |].
    pose proof (proj1 (registered_find regs module command)) as Hf. unfold map_find2 in Hf.
    destruct (map_find module _) as [inner |]; simpl in Hf.
    + rewrite Hf. by destruct (latest module command regs) as [[m c [cb |] h] |].
    + by destruct (latest module command regs).
Qed.

(** A request for any path, whatever its headers and whatever follows it, gets
    one answer.  The root lists each registered command once, in order, with
    the help text of its last registration; [/module/command/arguments], however
    many slashes are in it, gets what the callback last registered for the
    command says to the arguments; everything else is not found. *)
Theorem inspector_serves regs w m path v hs t rest b :
  m <> kInvalid -> v <> kUnknown -> SP ∉ path -> CR ∉ path -> Forall header_ok hs ->
  holds (print_request m path v hs ++ rest) b ->
  (forall close, response_ok (onRequest (registered regs) w (the_request m path v t hs) (HttpResponse_new close))) ->
  safe (Http.onMessage (onRequest (registered regs) w) HttpContext_new b t)
    (fun '(c', b', acts) => holds rest b' /\ state_ c' = kExpectRequestLine
       /\ exists r, acts = Send (print_response r) :: (if closeConnection_ r then [Shutdown] else [])
            /\ reply_ok regs w m path r).
Proof using.
  intros Hm Hv Hsp Hcr Hhs Hb Hok.
  eapply safe_mono; [by apply (onMessage_answers_one_request (onRequest (registered regs) w) m path v hs t rest b) |].
  intros [[c' b'] acts] (Hr & Hs & _ & r & Ha & close & ->). split; [done |]. split; [done |].
  eexists. split; [exact Ha |]. exact (inspector_replies regs w (the_request m path v t hs) close).
Qed.
End requests.

(** ** The process's own commands *)

Section process_commands.
Context {W : Type} `{!Process W}.

Definition process_regs : list (registration W) :=
  [mkRegistration (bs "proc") (bs "pid") (Some pid) (bs "print pid");
   mkRegistration (bs "proc") (bs "status") (Some procStatus) (bs "print /proc/self/status");
   mkRegistration (bs "proc") (bs "opened_files") (Some openedFiles) (bs "count /proc/self/fd");
   mkRegistration (bs "proc") (bs "threads") (Some threads) (bs "list /proc/self/task")].

(** A new inspector knows these four, and what is added to it later. *)
Lemma Inspector_new_registered more :
  fold_left register more <$> (fst <$> Inspector_new true false) = Ok (registered (process_regs ++ more)).
Proof using. unfold registered. by rewrite fold_left_app. Qed.

Lemma dec_int_len t : - 2 ^ 31 <= t < 2 ^ 31 -> zlen (dec t) <= 11.
Proof using.
  intros Ht. unfold dec. destruct (Z.ltb_spec t 0).
  - rewrite zlen_app. change (zlen (bs "-")) with 1. pose proof (dec_u_len (- t) 10 ltac:(lia) ltac:(lia)). lia.
  - pose proof (dec_u_len t 10 ltac:(lia) ltac:(lia)). lia.
Qed.

(** The threads are one to a line. *)
Lemma threads_lines w m args : Forall (fun t => - 2 ^ 31 <= t < 2 ^ 31) (process_threads w) ->
  threads w m args = concat (map (fun t => dec t ++ [LF]) (process_threads w)).
Proof using.
  unfold threads. generalize (process_threads w). intros ts Hts.
  enough (H : forall result, fold_left (fun result t => result ++ snprintf 32 (dec t ++ [LF])) ts result
    = result ++ concat (map (fun t => dec t ++ [LF]) ts)) by apply H.
  induction Hts as [| t ts Ht Hts IH]; intros result; cbn [fold_left map concat]; [by rewrite app_nil_r |].
  rewrite IH, <- app_assoc. do 2 f_equal. unfold snprintf. apply ztake_all.
  rewrite zlen_app. change (zlen [LF]) with 1. pose proof (dec_int_len t Ht). lia.
Qed.
End process_commands.

(** ** Example *)

#[local] Instance demo_process : Process unit := {
  process_pid := fun _ => 4321;
  process_status := fun _ => bs "State: S (sleeping)";
  process_openedFiles := fun _ => 7;
  process_threads := fun _ => [4321; 4322]
}.

Lemma inspector_serves_witness :
  let text := print_request kGet (bs "//proc/threads/") kHttp11 [] in
  safe (Http.onMessage (onRequest (registered process_regs) tt) HttpContext_new (buffer_of (text ++ bs "GET")) 7)
    (fun '(c', b', acts) => holds (bs "GET") b' /\ state_ c' = kExpectRequestLine
       /\ exists r, acts = Send (print_response r) :: (if closeConnection_ r then [Shutdown] else [])
            /\ reply_ok process_regs tt kGet (bs "//proc/threads/") r)
  /\ body_ (onRequest (registered process_regs) tt (the_request kGet (bs "//proc/threads/") kHttp11 7 []) (HttpResponse_new true))
     = bs "4321" ++ [LF] ++ bs "4322" ++ [LF].
Proof.
  split; [| vm_compute; reflexivity].
  apply (inspector_serves process_regs tt kGet (bs "//proc/threads/") kHttp11 [] 7 (bs "GET")).
  - discriminate.
  - discriminate.
  - by_evaluation.
  - by_evaluation.
  - constructor.
  - apply buffer_of_holds. vm_compute. reflexivity.
  - intros close. split; [reflexivity |]. split; [destruct close; reflexivity |].
    repeat constructor.
Defined.
