(* ===== verification/ShortUrl.v ===== *)
(** * ShortUrl: redirections over HTTP

    [examples/shorturl/shorturl.cc]: an HTTP callback with a table of
    redirections, a page that lists them, and an icon.  The callback is run by
    the message handler of [Http]. *)
From S2P Require Import Prelude Buffer Format Timestamp TimeText Http.

(** The icon, byte by byte. *)
(*@ muduo/examples/shorturl/shorturl.cc 83-154 favicon *)
Definition favicon : list byte := map byte_of [
    137; 80; 78; 71; 13; 10; 26; 10; 0; 0; 0; 13; 73; 72; 68; 82; 0; 0; 0; 16; 0; 0; 0; 16; 8; 6; 0; 0; 0;
    31; 243; 255; 97; 0; 0; 0; 25; 116; 69; 88; 116; 83; 111; 102; 116; 119; 97; 114; 101; 0; 65; 100; 111;
    98; 101; 32; 73; 109; 97; 103; 101; 82; 101; 97; 100; 121; 113; 201; 101; 60; 0; 0; 1; 205; 73; 68; 65;
    84; 120; 218; 148; 147; 57; 72; 3; 65; 20; 134; 255; 93; 98; 167; 4; 82; 196; 109; 34; 30; 160; 70; 36;
    8; 22; 22; 118; 10; 54; 186; 74; 154; 128; 8; 65; 180; 113; 133; 88; 137; 71; 176; 73; 169; 81; 36; 205;
    166; 8; 164; 72; 99; 145; 66; 11; 175; 86; 193; 70; 180; 21; 207; 34; 88; 152; 11; 84; 72; 138; 100;
    147; 141; 251; 70; 103; 201; 26; 20; 125; 240; 102; 118; 102; 223; 124; 239; 231; 103; 70; 168; 213;
    106; 72; 36; 18; 42; 0; 5; 191; 71; 212; 239; 247; 47; 54; 236; 18; 32; 30; 143; 215; 170; 213; 234;
    175; 73; 53; 70; 170; 84; 95; 159; 34; 65; 42; 149; 10; 131; 229; 114; 57; 100; 179; 89; 150; 153; 76;
    6; 233; 116; 154; 37; 133; 44; 203; 84; 167; 196; 98; 49; 181; 94; 0; 3; 104; 154; 198; 22; 130; 32; 88;
    82; 20; 69; 54; 83; 148; 203; 101; 120; 189; 94; 170; 85; 84; 35; 76; 192; 224; 226; 193; 143; 0; 158;
    188; 9; 65; 124; 62; 31; 131; 68; 34; 17; 213; 84; 64; 63; 56; 128; 119; 229; 51; 7; 184; 92; 46; 72;
    146; 4; 135; 195; 129; 64; 32; 64; 103; 152; 233; 54; 26; 166; 103; 21; 4; 227; 215; 200; 189; 21; 225;
    105; 183; 67; 171; 234; 120; 47; 106; 88; 146; 187; 24; 32; 159; 207; 51; 195; 184; 233; 78; 167; 211;
    108; 74; 0; 105; 54; 124; 142; 225; 254; 86; 132; 231; 60; 159; 114; 43; 58; 66; 123; 55; 102; 119; 174;
    142; 14; 243; 189; 82; 169; 100; 2; 66; 175; 133; 50; 102; 70; 186; 12; 217; 159; 29; 154; 108; 34; 230;
    199; 58; 44; 128; 239; 193; 21; 144; 7; 147; 162; 40; 160; 83; 106; 177; 184; 223; 41; 53; 67; 14; 63;
    88; 252; 152; 218; 121; 106; 80; 64; 0; 135; 174; 27; 23; 66; 180; 58; 63; 190; 121; 199; 10; 38; 182;
    238; 217; 154; 96; 20; 147; 219; 143; 13; 10; 46; 233; 35; 149; 41; 88; 0; 39; 235; 110; 86; 112; 188;
    214; 203; 214; 71; 171; 61; 108; 125; 184; 210; 221; 160; 96; 131; 186; 239; 95; 164; 234; 204; 2; 78;
    174; 94; 112; 26; 236; 179; 64; 57; 172; 254; 242; 145; 137; 103; 145; 133; 33; 168; 135; 183; 88; 126;
    126; 133; 187; 205; 78; 78; 98; 116; 64; 250; 147; 137; 236; 30; 236; 134; 2; 72; 38; 147; 208; 117; 29;
    127; 9; 50; 149; 191; 31; 219; 215; 99; 138; 26; 247; 92; 193; 255; 34; 74; 195; 135; 0; 3; 0; 75; 187;
    248; 214; 42; 118; 152; 73; 0; 0; 0; 0; 73; 69; 78; 68; 174; 66; 96; 130].

Section shorturl.
Context (gmtime : Z -> calendar).

(** The table is filled by [main] and only read afterwards. *)
(*@ muduo/examples/shorturl/shorturl.cc 73-74 main *)
Definition redirections : strmap :=
  map_set (bs "/2") (bs "http://blog.csdn.net/Solstice") (map_set (bs "/1") (bs "http://chenshuo.com") []).

Definition list_item (i : list byte * list byte) : list byte :=
  bs "<ul>" ++ i.1 ++ bs " =&gt; " ++ i.2 ++ bs "</ul>".
Definition page (table : strmap) (now : list byte) : list byte :=
  bs "<html><head><title>My tiny short url service</title></head>"
  ++ bs "<body><h1>Known redirections</h1>"
  ++ fold_left (fun text i => text ++ list_item i) table []
  ++ bs "Now is " ++ now ++ bs "</body></html>".

(** [table] is the map at the time of the request, [now] what the clock
    reads. *)
(*@ muduo/examples/shorturl/shorturl.cc 16-69 onRequest *)
Definition onRequest (table : strmap) (now : Z) (req : HttpRequest) (resp : HttpResponse) : HttpResponse :=
  match map_find (path_ req) table with
  | Some location =>
      let resp := setStatusMessage (bs "Moved Permanently") (setStatusCode k301MovedPermanently resp) in
      r_addHeader (bs "Location") location resp
  | None =>
      if bool_decide (path_ req = bs "/")
      then
        let resp := setContentType (bs "text/html") (setStatusMessage (bs "OK") (setStatusCode k200Ok resp)) in
        setBody (page table (toFormattedString gmtime now)) resp
      else if bool_decide (path_ req = bs "/favicon.ico")
      then
        let resp := setContentType (bs "image/png") (setStatusMessage (bs "OK") (setStatusCode k200Ok resp)) in
        setBody favicon resp
      else setCloseConnection true (setStatusMessage (bs "Not Found") (setStatusCode k404NotFound resp))
  end.

(** What is sent for a path: the status line and headers follow from it. *)
Definition reply_ok (table : strmap) (now : Z) (path : list byte) (r : HttpResponse) : Prop :=
  match map_find path table with
  | Some location => statusCode_ r = k301MovedPermanently /\ map_find (bs "Location") (r_headers_ r) = Some location
      /\ body_ r = []
  | None =>
      if decide (path = bs "/")
      then statusCode_ r = k200Ok /\ map_find (bs "Content-Type") (r_headers_ r) = Some (bs "text/html")
        /\ body_ r = page table (toFormattedString gmtime now)
      else if decide (path = bs "/favicon.ico")
      then statusCode_ r = k200Ok /\ map_find (bs "Content-Type") (r_headers_ r) = Some (bs "image/png")
        /\ body_ r = favicon
      else statusCode_ r = k404NotFound /\ body_ r = [] /\ closeConnection_ r = true
  end.

Lemma shorturl_replies table now req close :
  reply_ok table now (path_ req) (onRequest table now req (HttpResponse_new close)).
Proof using.
  unfold reply_ok, onRequest. destruct (map_find (path_ req) table); [by split_and!; try apply map_find_set_eq |].
  case_decide; [rewrite bool_decide_true by done; by split_and! |]. rewrite bool_decide_false by done.
  case_decide; [rewrite bool_decide_true by done; by split_and! | rewrite bool_decide_false by done; by split_and!].
Qed.

(** Every redirection is on the page, once, in the order of the paths. *)
Lemma page_items table now :
  page table now = bs "<html><head><title>My tiny short url service</title></head>"
    ++ bs "<body><h1>Known redirections</h1>" ++ concat (map list_item table)
    ++ bs "Now is " ++ now ++ bs "</body></html>".
Proof using.
  unfold page. do 3 f_equal.
  enough (H : forall text, fold_left (fun text i => text ++ list_item i) table text = text ++ concat (map list_item table))
    by apply H.
  induction table as [| i table IH]; intros text; cbn [fold_left map concat]; [by rewrite app_nil_r |].
  by rewrite IH, <- app_assoc.
Qed.

(** A request for a known path is redirected, the root shows the page, the icon
    is served whole, and after anything else the connection is closed; what
    follows the request stays in the buffer. *)
Theorem shorturl_serves table now m path v hs t rest b :
  m <> kInvalid -> v <> kUnknown -> SP ∉ path -> CR ∉ path -> Forall header_ok hs ->
  holds (print_request m path v hs ++ rest) b ->
  (forall close, response_ok (onRequest table now (the_request m path v t hs) (HttpResponse_new close))) ->
  safe (onMessage (onRequest table now) HttpContext_new b t)
    (fun '(c', b', acts) => holds rest b' /\ state_ c' = kExpectRequestLine
       /\ exists r, acts = Send (print_response r) :: (if closeConnection_ r then [Shutdown] else [])
            /\ reply_ok table now path r).
Proof using.
  intros Hm Hv Hsp Hcr Hhs Hb Hok.
  eapply safe_mono; [by apply (onMessage_answers_one_request (onRequest table now) m path v hs t rest b) |].
  intros [[c' b'] acts] (Hr & Hs & _ & r & Ha & close & ->). split; [done |]. split; [done |].
  eexists. split; [exact Ha |]. exact (shorturl_replies table now (the_request m path v t hs) close).
Qed.
End shorturl.

(** ** Examples *)

Definition demo_gmtime (s : Z) : calendar := mkCalendar 1970 1 1 0 0 (s mod 60).

(** The icon has the size its declaration says, and is a PNG file from
    signature to end chunk. *)
Example favicon_size : zlen favicon = 555.
Proof. vm_compute. reflexivity. Qed.
Example favicon_is_png : ztake 8 favicon = map byte_of [137; 80; 78; 71; 13; 10; 26; 10]
  /\ zslice 547 551 favicon = bs "IEND".
Proof. vm_compute. done. Qed.

Lemma shorturl_serves_witness :
  let text := print_request kGet (bs "/2") kHttp10 [] in
  safe (onMessage (onRequest demo_gmtime redirections 5) HttpContext_new (buffer_of (text ++ bs "GET")) 7)
    (fun '(c', b', acts) => holds (bs "GET") b' /\ state_ c' = kExpectRequestLine
       /\ exists r, acts = Send (print_response r) :: (if closeConnection_ r then [Shutdown] else [])
            /\ reply_ok demo_gmtime redirections 5 (bs "/2") r)
  /\ map_find (bs "/2") redirections = Some (bs "http://blog.csdn.net/Solstice").
Proof.
  split; [| vm_compute; reflexivity].
  apply (shorturl_serves demo_gmtime redirections 5 kGet (bs "/2") kHttp10 [] 7 (bs "GET")).
  - discriminate.
  - discriminate.
  - by_evaluation.
  - by_evaluation.
  - constructor.
  - apply buffer_of_holds. vm_compute. reflexivity.
  - intros close. split; [reflexivity |]. split; [destruct close; reflexivity |].
    repeat constructor.
Defined.
