(* ===== verification/LengthHeaderCodec.v ===== *)
(** * LengthHeaderCodec: [examples/asio/chat/codec.h]

    A length header before each string: the codec over a [Buffer], a decoder
    of byte lists that satisfies the interface of [Framing.v], and the proof
    that the first implements the second. *)
From S2P Require Import Prelude Endian Buffer Framing.


(*@ muduo/examples/asio/chat/codec.h 104-104 LengthHeaderCodec::kHeaderLen *)
Definition kHeaderLen : Z := 4.

(** The loop delivers the messages in order; the flag is whether it shut the
    connection down.  (The callback only sees the string, so when it runs
    relative to the last [retrieve] makes no difference to the buffer.) *)
Fixpoint onMessage_loop (fuel : nat) (buf : Buffer) : res (list (list byte) * bool * Buffer) :=
  match fuel with
  | O => Err OutOfFuel
  | S fuel =>
      if kHeaderLen <=? readableBytes buf
      then
        be32 ← mem_read (peek buf) (peek buf + 4) (buffer_ buf);
        let len := s32 (networkToHost32 (le_val be32)) in
        if (65536 <? len) || (len <? 0) then mret ([], true, buf)
        else if u64 (len + kHeaderLen) <=? readableBytes buf
        then
          buf ← retrieve buf kHeaderLen;
          message ← mem_read (peek buf) (peek buf + len) (buffer_ buf);
          buf ← retrieve buf len;
          '(ms, stop, buf) ← onMessage_loop fuel buf;
          mret (message :: ms, stop, buf)
        else mret ([], false, buf)
      else mret ([], false, buf)
  end.

(** Each turn of the loop but the last takes four bytes at least. *)
(*@ muduo/examples/asio/chat/codec.h 26-75 LengthHeaderCodec::onMessage *)
Definition onMessage (buf : Buffer) : res (list (list byte) * bool * Buffer) :=
  onMessage_loop (S (Z.to_nat (readableBytes buf))) buf.

(** The bytes handed to the connection. *)
(*@ muduo/examples/asio/chat/codec.h 79-97 LengthHeaderCodec::send *)
Definition send (message : list byte) : res (list byte) :=
  buf ← append Buffer_new message;
  let len := s32 (zlen message) in
  let be32 := s32 (hostToNetwork32 len) in
  buf ← prepend buf (le_bytes 4 be32);
  mem_read (peek buf) (peek buf + readableBytes buf) (buffer_ buf).

(** The first message of a list of bytes. *)
Definition next (l : list byte) : next_result (list byte) :=
  if 4 <=? zlen l
  then
    let len := s32 (be_val (ztake 4 l)) in
    if (65536 <? len) || (len <? 0) then Invalid
    else if len + 4 <=? zlen l then Got (zslice 4 (4 + len) l) (zdrop (4 + len) l) else NeedMore
  else NeedMore.

Definition frame (m : list byte) : list byte := be_bytes 4 (zlen m) ++ m.

#[export] Instance length_header_stable : StableNext next.
Proof.
  unfold next. split.
  - intros l m rest H. destruct (4 <=? zlen l) eqn:E; [| done].
    destruct (_ || _) eqn:Eb; [done |]. destruct (_ + 4 <=? _) eqn:El; [| done]. injection H as _ <-.
    apply orb_false_elim in Eb as [_ Eb]. unfold zdrop, zlen in *. rewrite length_drop. lia.
  - intros l k m rest H. pose proof (zlen_nonneg k).
    destruct (4 <=? zlen l) eqn:E; [| done]. rewrite zlen_app, (proj2 (Z.leb_le 4 _)) by lia.
    rewrite ztake_app_l by lia. destruct (_ || _) eqn:Eb; [done |].
    apply orb_false_elim in Eb as [_ Eb].
    destruct (_ + 4 <=? zlen l) eqn:El; [| done]. injection H as <- <-.
    rewrite (proj2 (Z.leb_le _ (zlen l + zlen k))) by lia.
    rewrite zslice_app_l, zdrop_app_l by lia. done.
  - intros l k H. pose proof (zlen_nonneg k).
    destruct (4 <=? zlen l) eqn:E; [| done]. rewrite zlen_app, (proj2 (Z.leb_le 4 _)) by lia.
    rewrite ztake_app_l by lia. destruct (_ || _) eqn:Eb; [done |]. by destruct (_ + 4 <=? zlen l).
Qed.

Lemma length_header_agrees fuel : forall l b,
  holds l b -> (length l < fuel)%nat ->
  delivers (onMessage_loop fuel b) (drain next fuel l).
Proof.
  induction fuel as [| fuel IH]; intros l b H Hl; [lia |].
  cbn [onMessage_loop drain]. unfold next at 1, kHeaderLen.
  rewrite (holds_readable _ _ H). destruct (Z.leb_spec 4 (zlen l)) as [H4 | H4]; [| by exists b].
  destruct (read_header l b H H4) as [Hr Hv]. rewrite Hr. rsimp. rewrite Hv. set (len := s32 _).
  destruct ((65536 <? len) || (len <? 0)) eqn:Eb; [by exists b |].
  apply orb_false_elim in Eb as [Eb1 Eb2]. rewrite u64_small by lia.
  destruct (Z.leb_spec (len + 4) (zlen l)) as [Hf | Hf]; [| by exists b].
  destruct (retrieve_holds l b 4 H ltac:(lia)) as (b1 & -> & Hb1). rsimp.
  assert (Hl1 : zlen (zdrop 4 l) = zlen l - 4) by (apply zlen_zdrop; lia).
  rewrite <- (Z.add_0_r (peek b1)) at 1. rewrite (read_range _ b1 0 len Hb1) by lia. rsimp.
  destruct (retrieve_holds _ b1 len Hb1 ltac:(lia)) as (b2 & -> & Hb2). rsimp.
  rewrite zdrop_zdrop in Hb2 by lia.
  destruct (IH _ _ Hb2) as (b3 & -> & Hb3).
  { unfold zdrop, zlen in *. rewrite length_drop. lia. }
  destruct (drain next fuel (zdrop (4 + len) l)) as [[ms stop] r]. rsimp.
  exists b3. split; [| done]. cbn [fst snd]. rewrite <- ztake_is_zslice.
  replace (zslice 4 (4 + len) l) with (ztake len (zdrop 4 l)) by (unfold zslice; f_equal; lia). done.
Qed.

Lemma length_header_frame m k :
  zlen m <= 65536 -> next (frame m ++ k) = Got m k.
Proof.
  intros Hm. pose proof (zlen_nonneg m). pose proof (zlen_nonneg k).
  unfold next, frame. rewrite zlen_app, zlen_frame.
  rewrite (proj2 (Z.leb_le 4 _)) by lia. rewrite ztake_frame, be_header by lia.
  rewrite (proj2 (Z.ltb_ge 65536 _)), (proj2 (Z.ltb_ge (zlen m) 0)) by lia. cbn [orb].
  rewrite (proj2 (Z.leb_le (zlen m + 4) _)) by lia. by rewrite zslice_frame, zdrop_frame.
Qed.

Lemma length_header_implements : implements next (fun m => m) onMessage.
Proof.
  intros l b ms r H Hd. unfold onMessage. rewrite (holds_readable _ _ H).
  replace (S (Z.to_nat (zlen l))) with (S (length l)) by (unfold zlen; lia).
  destruct (length_header_agrees (S (length l)) l b H ltac:(lia)) as (b' & -> & Hb').
  fold (drain_all next l) in *. rewrite Hd in *. exists b'. by rewrite map_id.
Qed.

(** [send] produces the length in network order and then the message. *)
Lemma send_frame m : zlen m < 2 ^ 31 -> send m = Ok (frame m).
Proof.
  intros Hm. pose proof (zlen_nonneg m). unfold send.
  assert (Hcap : q_cap q_empty + zlen m <= vector_max_size).
  { change (q_cap q_empty) with (kCheapPrepend + kInitialSize). buflia. }
  destruct (append_repr q_empty Buffer_new m _ repr_new (q_push_some q_empty m Hcap))
    as (b1 & -> & Hb1). rsimp. rewrite (s32_small (zlen m)), int32_image by lia.
  edestruct prepend_repr as (b2 & -> & Hb2); [exact Hb1 | |].
  { apply q_unshift_some. cbn [q_room q_empty]. rewrite zlen_be_bytes. buflia. }
  rsimp. apply repr_holds in Hb2. cbn [q_bytes q_empty app] in Hb2.
  exact (read_all _ _ Hb2).
Qed.

(** What is sent with the codec is received by the codec: messages of at most
    64 KB go through [send], and in whatever pieces their bytes arrive the
    callback gets exactly these messages in this order, the connection is not
    shut down, and nothing is left in the buffer. *)
Theorem length_header_roundtrip ms frames chunks b :
  holds [] b -> Forall (fun m => zlen m <= 65536) ms ->
  Forall2 (fun m f => send m = Ok f) ms frames ->
  Forall (fun c => zlen c < 2 ^ 62) chunks ->
  concat chunks = concat frames ->
  safe (run_chunks onMessage chunks b)
    (fun '(ms', stop, b') => ms' = ms /\ stop = false /\ holds [] b').
Proof.
  intros H Hms Hs Hc Heq.
  assert (Hf : frames = map frame ms).
  { clear Heq. induction Hs as [| m f ms fs Hs _ IH]; [done |]. cbn [map].
    apply Forall_cons in Hms as [Hm Hms]. rewrite <- IH by done. f_equal.
    rewrite send_frame in Hs by lia. by injection Hs. }
  rewrite Hf in Heq. rewrite Forall_forall in Hms.
  pose proof (run_chunks_encoded next _ _ length_header_implements frame ms chunks b) as Hr.
  rewrite map_id in Hr. apply Hr; try done.
  intros m k Hin. by apply length_header_frame, Hms.
Qed.

Definition demo_messages : list (list byte) := [bs "hello"; []; bs "world"].
Definition demo_frames : list (list byte) := map frame demo_messages.

(** The stream cut after 2, 7 and 14 bytes. *)
Definition demo_chunks : list (list byte) :=
  let s := concat demo_frames in [zslice 0 2 s; zslice 2 7 s; zslice 7 14 s; zdrop 14 s].

Lemma length_header_roundtrip_witness :
  safe (run_chunks onMessage demo_chunks Buffer_new)
    (fun '(ms', stop, b') => ms' = demo_messages /\ stop = false /\ holds [] b').
Proof.
  apply (length_header_roundtrip demo_messages demo_frames demo_chunks Buffer_new).
  - apply holds_new.
  - by_evaluation.
  - repeat constructor.
  - by_evaluation.
  - vm_compute. reflexivity.
Defined.
