(* ===== verification/Chat.v ===== *)
(** * Chat: the chat servers of [examples/asio/chat/]

    The server with one thread ([server.cc]) and the one that runs the same
    handlers under a mutex ([server_threaded.cc]: each handler is one atomic
    step), and what the four servers share; [ChatEfficient.v] and
    [ChatHighPerformance.v] have the other two.  A connection is a number, a
    delivery is a connection and the bytes handed to its [send]. *)
From S2P Require Import Prelude Endian Buffer Framing LengthHeaderCodec.

Abbreviation delivery := (Z * list byte)%type.

(** [for (it = connections.begin(); it != end; ++it) codec_.send(get_pointer(..), message)]. *)
Fixpoint send_to (conns : list Z) (message : list byte) : res (list delivery) :=
  match conns with
  | [] => mret []
  | c :: conns => bytes ← send message; ds ← send_to conns message; mret ((c, bytes) :: ds)
  end.

Lemma send_to_frames conns m : zlen m < 2 ^ 31 -> send_to conns m = Ok (map (fun c => (c, frame m)) conns).
Proof. intros Hm. induction conns as [| c conns IH]; [done |]. cbn [send_to map]. rewrite send_frame by done. rsimp. by rewrite IH. Qed.

(** The bytes a connection was sent. *)
Definition received (c : Z) (out : list delivery) : list byte := concat (map snd (filter (fun d => d.1 = c) out)).

Lemma received_app c out1 out2 : received c (out1 ++ out2) = received c out1 ++ received c out2.
Proof. unfold received. by rewrite filter_app, map_app, concat_app. Qed.

Lemma received_broadcast c conns f : NoDup conns ->
  received c (map (fun c => (c, f)) conns) = if decide (c ∈ conns) then f else [].
Proof.
  induction 1 as [| c' conns Hc _ IH]; [by rewrite decide_False by inversion 1 |].
  cbn [map]. change ((c', f) :: ?l) with ([(c', f)] ++ l). rewrite received_app, IH. unfold received at 1.
  destruct (decide (c' = c)) as [-> |].
  - rewrite filter_cons_True by done. rewrite (decide_False (P := c ∈ conns)) by done.
    rewrite decide_True by (by left). cbn. by rewrite !app_nil_r.
  - rewrite filter_cons_False by done. cbn [filter list_filter map concat app].
    destruct (decide (c ∈ conns)); [rewrite decide_True by (by right) | rewrite decide_False by (by inversion 1)]; done.
Qed.

(** ** [server.cc] and [server_threaded.cc] *)
(*@ muduo/examples/asio/chat/server.cc 76-86 ChatServer *)
Record ChatServer := { connections_ : gset Z }.

(*@ muduo/examples/asio/chat/server.cc 42-61 ChatServer::onConnection *)
Definition onConnection (conn : Z) (connected : bool) (s : ChatServer) : ChatServer :=
  if connected then {| connections_ := connections_ s ∪ {[conn]} |}
  else {| connections_ := connections_ s ∖ {[conn]} |}.

(*@ muduo/examples/asio/chat/server.cc 64-75 ChatServer::onStringMessage *)
Definition onStringMessage (message : list byte) (s : ChatServer) : res (list delivery) :=
  send_to (elements (connections_ s)) message.
