(* ===== verification/ChatEfficient.v ===== *)
(** * ChatEfficient: [examples/asio/chat/server_threaded_efficient.cc]

    The server that copies its list of connections on write and sends without
    the mutex, and the proof that it refines the server of [Chat.v]. *)
From S2P Require Import Prelude Endian Buffer Framing LengthHeaderCodec Chat.

(** A thread in [onStringMessage]: its [shared_ptr] to the list, the element
    its iterator is at ([None]: before the first), and the message. *)
Record reader := { r_ptr : nat; r_pos : option Z; r_msg : list byte }.

(** The lists that are allocated, by address, with what is in them now;
    [connections_] is the address the server points to.  [out] records the
    deliveries, in the order in which they are made. *)
(*@ muduo/examples/asio/chat/server_threaded_efficient.cc 79-80 ChatServer::ConnectionListPtr *)
Record ChatServer := mkServer {
  heap : gmap nat (gset Z);
  connections_ : nat;
  readers : gmap Z reader;
  out : list delivery
}.

(*@ muduo/examples/asio/chat/server_threaded_efficient.cc 22-35 ChatServer::ChatServer *)
Definition ChatServer_new : ChatServer := mkServer {[ 0%nat := ∅ ]} 0 ∅ [].

Definition deref (p : nat) (s : ChatServer) : res (gset Z) :=
  match heap s !! p with Some l => Ok l | None => Err BadAccess end.

(** [connections_.unique()]: no thread holds the list. *)
Definition unique (s : ChatServer) : bool := bool_decide (map_Forall (fun _ r => r_ptr r <> connections_ s) (readers s)).

(** A [shared_ptr] to [p] goes away; the list with the last one. *)
Definition release (p : nat) (s : ChatServer) : ChatServer :=
  if bool_decide (p <> connections_ s /\ map_Forall (fun _ r => r_ptr r <> p) (readers s))
  then mkServer (delete p (heap s)) (connections_ s) (readers s) (out s)
  else s.

Definition modify (p : nat) (f : gset Z -> gset Z) (s : ChatServer) : res ChatServer :=
  l ← deref p s; mret (mkServer (<[p := f l]> (heap s)) (connections_ s) (readers s) (out s)).

(** [if (!connections_.unique()) connections_.reset(new ConnectionList(..))]. *)
Definition detach (s : ChatServer) : res ChatServer :=
  if negb (unique s)
  then
    l ← deref (connections_ s) s;
    let p := fresh (dom (heap s)) in
    mret (release (connections_ s) (mkServer (<[p := l]> (heap s)) p (readers s) (out s)))
  else mret s.

(** All of it with the mutex locked. *)
(*@ muduo/examples/asio/chat/server_threaded_efficient.cc 49-77 ChatServer::onConnection *)
Definition onConnection (conn : Z) (connected : bool) (s : ChatServer) : res ChatServer :=
  s ← detach s;
  assert_ (unique s);;
  modify (connections_ s) (fun l => if connected then l ∪ {[conn]} else l ∖ {[conn]}) s.

(** The first statement of [onStringMessage], with the mutex locked. *)
(*@ muduo/examples/asio/chat/server_threaded_efficient.cc 106-111 ChatServer::getConnectionList *)
Definition getConnectionList (tid : Z) (message : list byte) (s : ChatServer) : ChatServer :=
  mkServer (heap s) (connections_ s) (<[tid := {| r_ptr := connections_ s; r_pos := None; r_msg := message |}]> (readers s)) (out s).

(** The element after [pos] of the list as it is now. *)
Definition beyond (pos : option Z) (c : Z) : bool := match pos with None => true | Some p => p <? c end.
Definition after (pos : option Z) (l : gset Z) : list Z := filter (fun c => beyond pos c = true) (elements l).
Definition next_conn (pos : option Z) (l : gset Z) : option Z :=
  match after pos l with [] => None | c :: cs => Some (fold_left Z.min cs c) end.

(** The loop, one iteration at a time, without the mutex; at the end of the
    list the pointer on the stack goes away. *)
(*@ muduo/examples/asio/chat/server_threaded_efficient.cc 84-103 ChatServer::onStringMessage *)
Definition onStringMessage_step (tid : Z) (r : reader) (s : ChatServer) : res ChatServer :=
  l ← deref (r_ptr r) s;
  match next_conn (r_pos r) l with
  | Some c =>
      ds ← send_to [c] (r_msg r);
      mret (mkServer (heap s) (connections_ s)
              (<[tid := {| r_ptr := r_ptr r; r_pos := Some c; r_msg := r_msg r |}]> (readers s)) (out s ++ ds))
  | None => mret (release (r_ptr r) (mkServer (heap s) (connections_ s) (delete tid (readers s)) (out s)))
  end.

(** What the threads do, one step at a time. *)
Inductive action : Type :=
| Connection (conn : Z) (connected : bool)
| Begin (tid : Z) (message : list byte)
| Next (tid : Z).

Inductive step : ChatServer -> action -> ChatServer -> Prop :=
| step_connection s s' conn up : onConnection conn up s = Ok s' -> step s (Connection conn up) s'
| step_begin s tid m : readers s !! tid = None -> zlen m <= 65536 ->
    step s (Begin tid m) (getConnectionList tid m s)
| step_next s s' tid r : readers s !! tid = Some r -> onStringMessage_step tid r s = Ok s' -> step s (Next tid) s'.

Inductive run : ChatServer -> list action -> ChatServer -> Prop :=
| run_nil s : run s [] s
| run_snoc s acts s1 a s2 : run s acts s1 -> step s1 a s2 -> run s (acts ++ [a]) s2.

(** The actions of a schedule, performed. *)
Definition perform (s : ChatServer) (a : action) : res ChatServer :=
  match a with
  | Connection conn up => onConnection conn up s
  | Begin tid m =>
      if decide (readers s !! tid = None) then if zlen m <=? 65536 then mret (getConnectionList tid m s) else Err BadAccess
      else Err BadAccess
  | Next tid => match readers s !! tid with Some r => onStringMessage_step tid r s | None => Err BadAccess end
  end.
Definition perform_all (acts : list action) : res ChatServer :=
  fold_left (fun s a => s ← s; perform s a) acts (Ok ChatServer_new).

Lemma perform_run acts s : perform_all acts = Ok s -> run ChatServer_new acts s.
Proof.
  revert s. induction acts as [| a acts IH] using rev_ind; intros s H; [injection H as <-; constructor |].
  unfold perform_all in *. rewrite fold_left_app in H. cbn [fold_left] in H.
  destruct (fold_left _ acts _) as [s1 |]; [| done]. cbn [mbind res_bind] in H. econstructor; [by apply IH |].
  destruct a as [conn up | tid m | tid]; cbn [perform] in H.
  - by constructor.
  - destruct (decide _); [| done]. destruct (_ <=? _) eqn:E; [| done]. injection H as <-. constructor; [done | lia].
  - destruct (readers s1 !! tid) as [r |] eqn:E; [| done]. by econstructor.
Qed.

(** The same actions on the plain server, where a message is handed to all
    connections at the moment the list is taken. *)
Definition plain_step (x : Chat.ChatServer * list delivery) (a : action) : Chat.ChatServer * list delivery :=
  let '(s, o) := x in
  match a with
  | Connection conn up => (Chat.onConnection conn up s, o)
  | Begin _ m => (s, match Chat.onStringMessage m s with Ok ds => o ++ ds | Err _ => o end)
  | Next _ => x
  end.
Definition plain_run (acts : list action) : Chat.ChatServer * list delivery :=
  fold_left plain_step acts ({| Chat.connections_ := ∅ |}, []).

(** ** The iterator *)

Lemma elem_of_after pos l c : c ∈ after pos l <-> c ∈ l /\ beyond pos c = true.
Proof. unfold after. rewrite list_elem_of_filter, elem_of_elements. tauto. Qed.

Lemma NoDup_after pos l : NoDup (after pos l).
Proof. apply NoDup_filter, NoDup_elements. Qed.

Lemma fold_min_spec cs : forall c, fold_left Z.min cs c ∈ c :: cs /\ Forall (fun x => fold_left Z.min cs c <= x) (c :: cs).
Proof.
  induction cs as [| x cs IH]; intros c; cbn [fold_left]; [split; [by left | by repeat constructor] |].
  destruct (IH (Z.min c x)) as [H1 H2]. apply Forall_cons in H2 as [H2 H3]. split.
  - apply elem_of_cons in H1 as [H1 | H1]; [| by do 2 right]. rewrite H1. destruct (Z.min_spec c x) as [[_ ->] | [_ ->]]; [by left | right; by left].
  - repeat constructor; [lia | lia | done].
Qed.

(** The next element is the one that the iteration does not come back to. *)
Lemma next_conn_spec pos l :
  match next_conn pos l with
  | Some c => c ∈ l /\ after pos l ≡ₚ c :: after (Some c) l
  | None => after pos l = []
  end.
Proof.
  unfold next_conn. destruct (after pos l) as [| c cs] eqn:E; [done |].
  destruct (fold_min_spec cs c) as [Hin Hmin]. set (m := fold_left Z.min cs c) in *. rewrite <- E in *.
  apply elem_of_after in Hin as [Hin Hb]. split; [done |]. apply NoDup_Permutation.
  - apply NoDup_after.
  - constructor; [| apply NoDup_after]. rewrite elem_of_after. cbn. intros [_ H]. lia.
  - intros x. rewrite elem_of_cons, !elem_of_after. cbn [beyond]. split.
    + intros [Hx Hxb]. rewrite Forall_forall in Hmin. specialize (Hmin x ltac:(by apply elem_of_after)).
      destruct (decide (x = m)) as [| Hne]; [by left | right]. split; [done |]. lia.
    + intros [-> | [Hx Hlt]]; [done |]. split; [done |]. unfold beyond in *. destruct pos; [lia | done].
Qed.

(** ** What the threads still have to send *)

Definition owed (h : gmap nat (gset Z)) (r : reader) : list delivery :=
  map (fun c => (c, frame (r_msg r))) (after (r_pos r) (default ∅ (h !! r_ptr r))).
Definition pending (h : gmap nat (gset Z)) (rs : gmap Z reader) : list delivery :=
  concat (map (fun kv => owed h kv.2) (map_to_list rs)).

Lemma concat_Permutation {A} (l k : list (list A)) : l ≡ₚ k -> concat l ≡ₚ concat k.
Proof.
  induction 1 as [| x l k _ IH | x y l | l k m _ IH1 _ IH2]; cbn [concat]; [done | by rewrite IH | | by etrans].
  rewrite !app_assoc. by rewrite (Permutation_app_comm y x).
Qed.

Lemma pending_insert h rs tid r : rs !! tid = None -> pending h (<[tid := r]> rs) ≡ₚ owed h r ++ pending h rs.
Proof.
  intros H. unfold pending. change (owed h r ++ _) with (concat (map (fun kv : Z * reader => owed h kv.2) ((tid, r) :: map_to_list rs))).
  apply concat_Permutation, Permutation_map. by rewrite map_to_list_insert.
Qed.

Lemma pending_delete h rs tid r : rs !! tid = Some r -> pending h rs ≡ₚ owed h r ++ pending h (delete tid rs).
Proof.
  intros H. rewrite <- (insert_id rs tid r H) at 1. rewrite <- insert_delete_eq. apply pending_insert, lookup_delete_eq.
Qed.

Lemma pending_ext h h' rs : (forall tid r, rs !! tid = Some r -> h !! r_ptr r = h' !! r_ptr r) -> pending h rs = pending h' rs.
Proof.
  intros H. unfold pending. f_equal. apply map_ext_in. intros [tid r] Hin. cbn [snd].
  apply list_elem_of_In, elem_of_map_to_list in Hin. unfold owed. by rewrite (H _ _ Hin).
Qed.

(** ** The simulation of the plain server *)

Definition held (p : nat) (s : ChatServer) : Prop := exists tid r, readers s !! tid = Some r /\ r_ptr r = p.

Record sim (s : ChatServer) (x : Chat.ChatServer * list delivery) : Prop := {
  sim_list : heap s !! connections_ s = Some (Chat.connections_ x.1);
  sim_readers tid r : readers s !! tid = Some r -> is_Some (heap s !! r_ptr r) /\ zlen (r_msg r) <= 65536;
  sim_no_leak p : is_Some (heap s !! p) -> p = connections_ s \/ held p s;
  sim_out : out s ++ pending (heap s) (readers s) ≡ₚ x.2
}.

Lemma release_spec p s :
  connections_ (release p s) = connections_ s /\ readers (release p s) = readers s /\ out (release p s) = out s
  /\ (forall q, q = connections_ s \/ held q s -> heap (release p s) !! q = heap s !! q)
  /\ (forall q, is_Some (heap (release p s) !! q) ->
        is_Some (heap s !! q) /\ (q = p -> p = connections_ s \/ held p s)).
Proof.
  unfold release. case_bool_decide as H; cbn [connections_ readers out heap].
  - destruct H as [Hc Hr]. split_and!; try done.
    + intros q Hq. apply lookup_delete_ne. intros <-. destruct Hq as [-> | (tid & r & E & Hp)]; [done |]. by apply (Hr tid r E).
    + intros q Hq. destruct (decide (p = q)) as [<- | Hne]; [by rewrite lookup_delete_eq in Hq; apply is_Some_None in Hq |].
      rewrite lookup_delete_ne in Hq by done. split; [done |]. by intros ->.
  - split_and!; try done. intros q Hq. split; [done |]. intros ->.
    destruct (decide (p = connections_ s)) as [| Hne]; [by left | right].
    destruct (decide (map_Forall (fun _ r => r_ptr r <> p) (readers s))) as [Hf | Hf]; [by destruct H |].
    apply map_not_Forall in Hf; [| apply _]. destruct Hf as (tid & r & E & Hp). exists tid, r. split; [done |]. by destruct (decide (r_ptr r = p)).
Qed.

Lemma onConnection_sim s x conn up : sim s x ->
  exists s', onConnection conn up s = Ok s' /\ sim s' (plain_step x (Connection conn up)).
Proof.
  intros [Hl Hr Hn Ho]. destruct x as [[l] o]. cbn [fst snd Chat.connections_] in *. unfold onConnection.
  assert (exists s1, detach s = Ok s1
    /\ unique s1 = true /\ readers s1 = readers s /\ out s1 = out s /\ heap s1 !! connections_ s1 = Some l
    /\ (forall tid r, readers s !! tid = Some r -> heap s1 !! r_ptr r = heap s !! r_ptr r)
    /\ (forall p, is_Some (heap s1 !! p) -> p = connections_ s1 \/ held p s)) as (s1 & -> & Hu & Er & Eo & El & Eh & En).
  { unfold detach. destruct (unique s) eqn:Hu; cbn [negb]; [by exists s |]. unfold deref. rewrite Hl. rsimp.
    pose proof (is_fresh (dom (heap s))) as Hf. set (p := fresh (dom (heap s))) in *. rewrite not_elem_of_dom in Hf.
    set (s1 := mkServer (<[p:=l]> (heap s)) p (readers s) (out s)).
    destruct (release_spec (connections_ s) s1) as (E1 & E2 & E3 & E4 & E5).
    assert (Hp : forall tid r, readers s !! tid = Some r -> r_ptr r <> p).
    { intros tid r E Hp. destruct (Hr tid r E) as [[? Hx] _]. rewrite Hp in Hx. congruence. }
    exists (release (connections_ s) s1). split; [done |].
    split; [unfold unique; rewrite E1, E2; apply bool_decide_eq_true; intros tid r; apply Hp |].
    split; [done |]. split; [done |]. split; [rewrite E1, E4 by (by left); apply lookup_insert_eq |]. split.
    - intros tid r E. rewrite E4 by (right; by exists tid, r). cbn. apply lookup_insert_ne. intros Hc. by apply (Hp tid r E).
    - intros q Hq. rewrite E1. destruct (E5 q Hq) as [Hq1 Hq2]. cbn in Hq1.
      destruct (decide (q = p)) as [| Hne]; [by left |]. rewrite lookup_insert_ne in Hq1 by done.
      destruct (Hn q Hq1) as [-> | Hh]; [| by right]. destruct (Hq2 eq_refl) as [E | Hh]; [| by right].
      cbn in E. rewrite E in Hl. congruence. }
  rsimp. rewrite Hu. cbn [assert_]. rsimp. unfold modify, deref. rewrite El. rsimp. eexists. split; [done |].
  unfold unique in Hu. apply bool_decide_eq_true in Hu. rewrite Er in Hu.
  assert (Hh : forall tid r, readers s !! tid = Some r ->
            <[connections_ s1 := if up then l ∪ {[conn]} else l ∖ {[conn]}]> (heap s1) !! r_ptr r = heap s !! r_ptr r).
  { intros tid r E. rewrite lookup_insert_ne by (intros Hc; by apply (Hu tid r E)). by apply (Eh tid). }
  split; cbn [heap connections_ readers out plain_step fst snd].
  - rewrite lookup_insert_eq. by destruct up.
  - intros tid r E. rewrite Er in E. rewrite (Hh tid r E). by apply (Hr tid).
  - intros p Hp. unfold held. cbn [readers]. rewrite Er. destruct (decide (p = connections_ s1)) as [| Hne]; [by left |].
    rewrite lookup_insert_ne in Hp by done. by apply En.
  - rewrite Er, Eo. by rewrite (pending_ext _ (heap s) (readers s)).
Qed.

Lemma begin_sim s x tid m : sim s x -> readers s !! tid = None -> zlen m <= 65536 ->
  sim (getConnectionList tid m s) (plain_step x (Begin tid m)).
Proof.
  intros [Hl Hr Hn Ho] Hf Hm. destruct x as [[l] o]. cbn [fst snd Chat.connections_] in *.
  unfold plain_step, Chat.onStringMessage, getConnectionList. rewrite send_to_frames by lia.
  split; cbn [heap connections_ readers out fst snd Chat.connections_].
  - done.
  - intros tid' r E. apply lookup_insert_Some in E as [[_ <-] | [_ E]]; [cbn; by rewrite Hl | by apply (Hr tid')].
  - intros p Hp. destruct (Hn p Hp) as [| (tid' & r & E & Hp')]; [by left | right].
    exists tid', r. cbn [readers]. rewrite lookup_insert_ne by congruence. done.
  - rewrite pending_insert by done. unfold owed at 1. cbn [r_pos r_msg r_ptr]. rewrite Hl. cbn [default from_option].
    unfold after. rewrite filter_all by (by apply Forall_true). rewrite (Permutation_app_comm (map _ _)), app_assoc. by rewrite Ho.
Qed.

Lemma next_sim s x tid r : sim s x -> readers s !! tid = Some r ->
  exists s', onStringMessage_step tid r s = Ok s' /\ sim s' x
    /\ (length (pending (heap s') (readers s')) + size (readers s') < length (pending (heap s) (readers s)) + size (readers s))%nat.
Proof.
  intros [Hl Hr Hn Ho] E. destruct (Hr tid r E) as [[l Hp] Hm]. unfold onStringMessage_step, deref. rewrite Hp. rsimp.
  pose proof (pending_delete (heap s) (readers s) tid r E) as Hd.
  assert (Howed : owed (heap s) r = map (fun c => (c, frame (r_msg r))) (after (r_pos r) l)) by (unfold owed; by rewrite Hp).
  pose proof (next_conn_spec (r_pos r) l) as Hnext. destruct (next_conn (r_pos r) l) as [c |].
  - destruct Hnext as [_ Hnext]. rewrite send_to_frames by lia. rsimp. eexists. split; [done |].
    cbn [map]. set (r' := {| r_ptr := r_ptr r; r_pos := Some c; r_msg := r_msg r |}).
    assert (Hins : pending (heap s) (<[tid:=r']> (readers s)) ≡ₚ owed (heap s) r' ++ pending (heap s) (delete tid (readers s))).
    { rewrite <- insert_delete_eq. apply pending_insert, lookup_delete_eq. }
    assert (Hr' : owed (heap s) r ≡ₚ (c, frame (r_msg r)) :: owed (heap s) r').
    { rewrite Howed, Hnext. cbn [map]. unfold owed. cbn [r' r_pos r_ptr r_msg]. by rewrite Hp. }
    split; [split; cbn [heap connections_ readers out] |].
    + done.
    + intros tid' r2 E2. apply lookup_insert_Some in E2 as [[_ <-] | [_ E2]]; [by apply (Hr tid r) | by apply (Hr tid')].
    + intros p Hq. destruct (Hn p Hq) as [| (tid' & r2 & E2 & Hp2)]; [by left | right].
      destruct (decide (tid' = tid)) as [-> | Hne]; [exists tid, r' | exists tid', r2]; cbn [readers].
      * rewrite lookup_insert_eq. split; [done |]. cbn. congruence.
      * by rewrite lookup_insert_ne.
    + rewrite Hins, <- app_assoc. cbn [app]. rewrite <- Ho, Hd, Hr'. cbn [app]. done.
    + cbn [heap readers]. rewrite Hins, Hd, Hr'. rewrite map_size_insert_Some by done. cbn [app length]. lia.
  - rewrite Hnext in Howed. cbn [map] in Howed. rewrite Howed in Hd. cbn [app] in Hd.
    set (s1 := mkServer (heap s) (connections_ s) (delete tid (readers s)) (out s)).
    destruct (release_spec (r_ptr r) s1) as (E1 & E2 & E3 & E4 & E5). eexists. split; [done |].
    assert (Hpend : pending (heap (release (r_ptr r) s1)) (readers (release (r_ptr r) s1)) = pending (heap s) (delete tid (readers s))).
    { rewrite E2. apply pending_ext. intros tid' r2 E'. apply E4. right. by exists tid', r2. }
    split; [split |].
    + rewrite E1, E4 by (by left). done.
    + intros tid' r2 E'. rewrite E2 in E'. rewrite E4 by (right; by exists tid', r2). cbn in E'.
      apply lookup_delete_Some in E' as [_ E']. by apply (Hr tid').
    + intros p Hq. rewrite E1. unfold held. rewrite E2. destruct (E5 p Hq) as [Hq1 Hq2].
      destruct (decide (p = r_ptr r)) as [Heq | Hne]; [rewrite Heq; by apply Hq2 |].
      destruct (Hn p Hq1) as [| (tid' & r2 & E' & Hp')]; [by left | right]. exists tid', r2. split; [| done].
      cbn. rewrite lookup_delete_ne; [done |]. intros <-. congruence.
    + rewrite E3, Hpend. by rewrite <- Hd.
    + rewrite Hpend, Hd, E2. cbn [readers s1]. rewrite map_size_delete_Some by (by eexists).
      assert (size (readers s) <> 0)%nat; [| lia]. rewrite map_size_non_empty_iff. intros He. by rewrite He, lookup_empty in E.
Qed.

Lemma sim_new : sim ChatServer_new ({| Chat.connections_ := ∅ |}, []).
Proof.
  split; cbn.
  - done.
  - intros tid r E. by rewrite lookup_empty in E.
  - intros p [l E]. apply lookup_singleton_Some in E as [<- _]. by left.
  - unfold pending. by rewrite map_to_list_empty.
Qed.

Lemma run_sim s0 acts s : run s0 acts s -> s0 = ChatServer_new -> sim s (plain_run acts).
Proof.
  induction 1 as [| s0 acts s1 a s2 Hrun IH Hstep]; intros ->; [exact sim_new |].
  specialize (IH eq_refl). unfold plain_run in *. rewrite fold_left_app. cbn [fold_left].
  destruct Hstep as [s1 s2 conn up E | s1 tid m Hf Hm | s1 s2 tid r Hr E].
  - destruct (onConnection_sim s1 _ conn up IH) as (s' & E' & Hs). rewrite E' in E. by injection E as <-.
  - by apply begin_sim.
  - destruct (next_sim s1 _ tid r IH Hr) as (s' & E' & Hs & _). rewrite E' in E. injection E as <-.
    by destruct (fold_left _ _ _).
Qed.

(** The threads that are sending can finish. *)
Lemma readers_finish n : forall s x, sim s x -> (length (pending (heap s) (readers s)) + size (readers s) < n)%nat ->
  exists nexts s', run s (map Next nexts) s' /\ readers s' = ∅ /\ sim s' x.
Proof.
  induction n as [| n IH]; intros s x Hs Hn; [lia |].
  destruct (decide (readers s = ∅)) as [He | (tid & r & E)%map_choose]; [exists [], s; split; [apply run_nil | done] |].
  destruct (next_sim s x tid r Hs E) as (s1 & E1 & Hs1 & Hlt).
  destruct (IH s1 x Hs1 ltac:(lia)) as (nexts & s' & Hrun & He & Hs'). exists (tid :: nexts), s'.
  split; [| done]. clear - E E1 Hrun. cbn [map]. revert Hrun. generalize (map Next nexts). intros acts Hrun.
  assert (Hfirst : run s [Next tid] s1) by (change [Next tid] with ([] ++ [Next tid]); econstructor; [constructor | by econstructor]).
  induction Hrun as [| s1 acts s2 a s3 _ IHr Hst]; [done |]. specialize (IHr E1 Hfirst).
  change (Next tid :: acts ++ [a]) with ((Next tid :: acts) ++ [a]). by econstructor.
Qed.

(** C20: The copy-on-write server does what the plain one does, atomically, at the
    moment a thread takes the list: in every interleaving of connections that
    come and go with threads that are in the middle of sending, the server's
    list is that of the plain server; no handler fails, so no list is freed
    while a thread iterates over it and the assertion of [onConnection] holds;
    a list that nobody points to is freed; nothing is sent that the plain
    server does not send; and the threads that are sending can finish, after
    which exactly the deliveries of the plain server have been made. *)
Theorem copy_on_write_refines acts s :
  run ChatServer_new acts s ->
  heap s !! connections_ s = Some (Chat.connections_ (plain_run acts).1)
  /\ (forall conn up, is_ok (onConnection conn up s))
  /\ (forall tid r, readers s !! tid = Some r -> is_ok (onStringMessage_step tid r s))
  /\ (forall p, is_Some (heap s !! p) <-> p = connections_ s \/ held p s)
  /\ out s ⊆+ (plain_run acts).2
  /\ exists nexts s', run s (map Next nexts) s' /\ readers s' = ∅ /\ out s' ≡ₚ (plain_run acts).2.
Proof.
  intros Hrun. pose proof (run_sim _ _ _ Hrun eq_refl) as Hs. pose proof Hs as [Hl Hr Hn Ho]. split; [done |].
  split; [intros conn up; destruct (onConnection_sim s _ conn up Hs) as (s' & E & _); by exists s' |].
  split; [intros tid r E; destruct (next_sim s _ tid r Hs E) as (s' & E' & _); by exists s' |].
  split; [intros p; split; [apply Hn | intros [-> | (tid & r & E & <-)]; [by rewrite Hl | by apply (Hr tid r E)]] |].
  split; [rewrite <- Ho; by apply submseteq_inserts_r |].
  destruct (readers_finish _ s _ Hs (Nat.lt_succ_diag_r _)) as (nexts & s' & Hrun' & He & Hs').
  exists nexts, s'. split; [done |]. split; [done |]. destruct Hs' as [_ _ _ Ho']. rewrite He in Ho'.
  unfold pending in Ho'. rewrite map_to_list_empty in Ho'. cbn in Ho'. by rewrite app_nil_r in Ho'.
Qed.

(** Two clients; a third connects while a message is being sent to them, and
    one of them leaves: the list is copied once. *)
Definition demo_actions : list action :=
  [Connection 1 true; Connection 2 true; Begin 10 (bs "hi"); Next 10; Connection 3 true; Connection 2 false; Next 10].

Lemma copy_on_write_refines_witness :
  exists s, run ChatServer_new demo_actions s
    /\ heap s = {[ 0%nat := {[1; 2]}; 1%nat := {[1; 3]} ]}
    /\ heap s !! connections_ s = Some (Chat.connections_ (plain_run demo_actions).1)
    /\ map fst (out s) = [1; 2]
    /\ exists nexts s', run s (map Next nexts) s' /\ readers s' = ∅ /\ out s' ≡ₚ (plain_run demo_actions).2.
Proof.
  destruct (perform_all demo_actions) as [s |] eqn:E; [| vm_compute in E; discriminate E].
  assert (Hh : heap <$> perform_all demo_actions = Ok {[ 0%nat := {[1; 2]}; 1%nat := {[1; 3]} ]}) by (vm_compute; reflexivity).
  assert (Ho : map fst ∘ out <$> perform_all demo_actions = Ok [1; 2]) by (vm_compute; reflexivity).
  rewrite E in Hh, Ho. apply perform_run in E as Hrun. injection Hh as Hh. injection Ho as Ho. exists s.
  destruct (copy_on_write_refines demo_actions s Hrun) as (H1 & _ & _ & _ & _ & H2).
  split; [exact Hrun |]. split; [exact Hh |]. split; [exact H1 |]. split; [exact Ho | exact H2].
Defined.
