(* ===== verification/ChatHighPerformance.v ===== *)
(** * ChatHighPerformance: [examples/asio/chat/server_threaded_highperformance.cc]

    The server with a list of connections per thread: the order in which its
    clients get the messages. *)
From S2P Require Import Prelude Endian Buffer Framing LengthHeaderCodec Chat.

(** [connections_] has the instance of each thread that called [threadInit],
    a thread being its loop; [functors] are the [distributeMessage] functors
    waiting in each loop; [sending] is the thread that has the mutex in
    [onStringMessage], its message and the loops it has not come to.  Not in
    the code: [out] records the deliveries, [log] the messages in the order in
    which they got the mutex, [joined] how many messages the loop of a
    connection had distributed when it came up. *)
(*@ muduo/examples/asio/chat/server_threaded_highperformance.cc 115-127 ChatServer *)
Record ChatServer := mkServer {
  loops_ : gset Z;
  connections_ : gmap Z (gset Z);
  functors : gmap Z (list (list byte));
  sending : option (list byte * list Z);
  out : list delivery;
  log : list (list byte);
  joined : gmap Z nat
}.

Definition ChatServer_new : ChatServer := mkServer ∅ ∅ ∅ None [] [] ∅.

(** [connections_.instance()] in the thread of [loop]. *)
Definition instance (loop : Z) (s : ChatServer) : gset Z := default ∅ (connections_ s !! loop).
Definition waiting_in (loop : Z) (s : ChatServer) : list (list byte) := default [] (functors s !! loop).

(** Messages that got the mutex and that the loop has not distributed. *)
Definition to_queue (loop : Z) (s : ChatServer) : list (list byte) :=
  match sending s with Some (m, rest) => if decide (loop ∈ rest) then [m] else [] | None => [] end.
Definition on_the_way (loop : Z) (s : ChatServer) : list (list byte) := waiting_in loop s ++ to_queue loop s.
Definition distributed (loop : Z) (s : ChatServer) : list (list byte) :=
  take (length (log s) - length (on_the_way loop s)) (log s).

(*@ muduo/examples/asio/chat/server_threaded_highperformance.cc 103-113 ChatServer::threadInit *)
Definition threadInit (loop : Z) (s : ChatServer) : res ChatServer :=
  assert_ (bool_decide (connections_ s !! loop = None));;
  let s := mkServer (loops_ s) (<[loop := ∅]> (connections_ s)) (functors s) (sending s) (out s) (log s) (joined s) in
  assert_ (negb (bool_decide (connections_ s !! loop = None)));;
  mret (mkServer (loops_ s ∪ {[loop]}) (connections_ s) (functors s) (sending s) (out s) (log s) (joined s)).

(*@ muduo/examples/asio/chat/server_threaded_highperformance.cc 47-62 ChatServer::onConnection *)
Definition onConnection (loop conn : Z) (connected : bool) (s : ChatServer) : ChatServer :=
  let l := if connected then instance loop s ∪ {[conn]} else instance loop s ∖ {[conn]} in
  mkServer (loops_ s) (<[loop := l]> (connections_ s)) (functors s) (sending s) (out s) (log s)
    (if connected then <[conn := length (distributed loop s)]> (joined s) else joined s).

(** [onStringMessage] locks the mutex, queues the functor in one loop after
    the other, and unlocks it. *)
(*@ muduo/examples/asio/chat/server_threaded_highperformance.cc 65-85 ChatServer::onStringMessage *)
Definition onStringMessage (message : list byte) (s : ChatServer) : ChatServer :=
  mkServer (loops_ s) (connections_ s) (functors s) (Some (message, elements (loops_ s))) (out s)
    (log s ++ [message]) (joined s).
Definition onStringMessage_next (message : list byte) (rest : list Z) (s : ChatServer) : ChatServer :=
  match rest with
  | [] => mkServer (loops_ s) (connections_ s) (functors s) None (out s) (log s) (joined s)
  | loop :: rest =>
      mkServer (loops_ s) (connections_ s) (<[loop := waiting_in loop s ++ [message]]> (functors s))
        (Some (message, rest)) (out s) (log s) (joined s)
  end.

(*@ muduo/examples/asio/chat/server_threaded_highperformance.cc 90-100 ChatServer::distributeMessage *)
Definition distributeMessage (loop : Z) (message : list byte) (s : ChatServer) : res ChatServer :=
  ds ← send_to (elements (instance loop s)) message;
  mret (mkServer (loops_ s) (connections_ s) (functors s) (sending s) (out s ++ ds) (log s) (joined s)).

(** The loop takes a functor from its queue and runs it. *)
Definition take_functor (loop : Z) (rest : list (list byte)) (s : ChatServer) : ChatServer :=
  mkServer (loops_ s) (connections_ s) (<[loop := rest]> (functors s)) (sending s) (out s) (log s) (joined s).

(** One step of one thread.  The mutex excludes [threadInit] and a second
    [onStringMessage]; a connection comes up once, in the thread of a loop
    that was initialised. *)
Inductive step : ChatServer -> ChatServer -> Prop :=
| step_threadInit s s' loop :
    sending s = None -> loop ∉ loops_ s -> threadInit loop s = Ok s' -> step s s'
| step_up s loop conn :
    loop ∈ loops_ s -> joined s !! conn = None -> step s (onConnection loop conn true s)
| step_down s loop conn :
    conn ∈ instance loop s -> step s (onConnection loop conn false s)
| step_message s m :
    sending s = None -> zlen m <= 65536 -> step s (onStringMessage m s)
| step_queue s m rest :
    sending s = Some (m, rest) -> step s (onStringMessage_next m rest s)
| step_functor s s' loop m rest :
    waiting_in loop s = m :: rest -> distributeMessage loop m (take_functor loop rest s) = Ok s' -> step s s'.

(** ** The invariant *)

Definition stream (ms : list (list byte)) : list byte := concat (map frame ms).

Record inv (s : ChatServer) : Prop := {
  inv_way loop : loop ∈ loops_ s -> log s = distributed loop s ++ on_the_way loop s;
  inv_other loop : loop ∉ loops_ s -> connections_ s !! loop = None /\ waiting_in loop s = [];
  inv_rest m rest : sending s = Some (m, rest) -> NoDup rest /\ (forall loop, loop ∈ rest -> loop ∈ loops_ s);
  inv_one loop loop' c : c ∈ instance loop s -> c ∈ instance loop' s -> loop = loop';
  inv_here loop c : c ∈ instance loop s -> exists j, joined s !! c = Some j /\ (j <= length (distributed loop s))%nat
      /\ received c (out s) = stream (drop j (distributed loop s));
  inv_never c : joined s !! c = None -> received c (out s) = [];
  inv_past c j : joined s !! c = Some j -> exists n, received c (out s) = stream (take n (drop j (log s)));
  inv_short : Forall (fun m => zlen m <= 65536) (log s)
}.

Lemma distributed_way loop s d : log s = d ++ on_the_way loop s -> distributed loop s = d.
Proof. intros H. unfold distributed. rewrite H, length_app. rewrite Nat.add_sub. apply take_app_length. Qed.

Lemma not_here loop c s : inv s -> joined s !! c = None -> c ∉ instance loop s.
Proof. intros H Hj Hc. destruct (inv_here s H loop c Hc) as (j & E & _). congruence. Qed.

Lemma here_in_loops loop c s : inv s -> c ∈ instance loop s -> loop ∈ loops_ s.
Proof.
  intros H Hc. destruct (decide (loop ∈ loops_ s)) as [| Hn]; [done |].
  destruct (inv_other s H loop Hn) as [E _]. unfold instance in Hc. rewrite E in Hc. by apply not_elem_of_empty in Hc.
Qed.

Lemma stream_app ms1 ms2 : stream (ms1 ++ ms2) = stream ms1 ++ stream ms2.
Proof. unfold stream. by rewrite map_app, concat_app. Qed.

Lemma instance_insert loop loop' l (f : gmap Z (gset Z)) :
  default ∅ (<[loop := l]> f !! loop') = if decide (loop = loop') then l else default ∅ (f !! loop').
Proof. destruct (decide (loop = loop')) as [-> |]; [by rewrite lookup_insert_eq | by rewrite lookup_insert_ne]. Qed.

Lemma threadInit_ok loop s : inv s -> loop ∉ loops_ s ->
  threadInit loop s = Ok (mkServer (loops_ s ∪ {[loop]}) (<[loop := ∅]> (connections_ s)) (functors s) (sending s) (out s) (log s) (joined s)).
Proof.
  intros H Hn. destruct (inv_other s H loop Hn) as [E _]. unfold threadInit. rewrite E. cbn. by rewrite lookup_insert_eq.
Qed.

Lemma threadInit_inv loop s s' : inv s -> sending s = None -> loop ∉ loops_ s -> threadInit loop s = Ok s' -> inv s'.
Proof.
  intros H Hsend Hn E. rewrite threadInit_ok in E by done. injection E as <-. pose proof (inv_other s H loop Hn) as [Ec Ew].
  assert (Hinst : forall l, default ∅ (<[loop := ∅]> (connections_ s) !! l) = instance l s).
  { intros l. rewrite instance_insert. case_decide as Hd; [| done]. unfold instance. by rewrite <- Hd, Ec. }
  split; cbn [loops_ connections_ sending out log joined].
  - intros l Hl. destruct (decide (l = loop)) as [-> | Hne].
    + unfold distributed, on_the_way, waiting_in, to_queue. cbn [functors sending log]. rewrite Hsend.
      unfold waiting_in in Ew. rewrite Ew. cbn. by rewrite Nat.sub_0_r, firstn_all, app_nil_r.
    + apply (inv_way s H l). set_solver.
  - intros l Hl. rewrite lookup_insert_ne by set_solver. apply (inv_other s H l). set_solver.
  - intros m rest. rewrite Hsend. done.
  - intros l l' c. unfold instance at 1 2. cbn [connections_]. rewrite !Hinst. apply (inv_one s H).
  - intros l c. unfold instance. cbn [connections_]. rewrite Hinst. apply (inv_here s H).
  - apply (inv_never s H).
  - apply (inv_past s H).
  - apply (inv_short s H).
Qed.

Lemma up_inv loop conn s : inv s -> loop ∈ loops_ s -> joined s !! conn = None -> inv (onConnection loop conn true s).
Proof.
  intros H Hl Hj. pose proof (fun l => not_here l conn s H Hj) as Hnot.
  assert (Hin : forall l c, c ∈ instance l (onConnection loop conn true s) <-> c ∈ instance l s \/ (l = loop /\ c = conn)).
  { intros l c. unfold onConnection, instance at 1. cbn [connections_]. rewrite instance_insert.
    case_decide as Hd; [rewrite <- Hd, elem_of_union, elem_of_singleton; naive_solver | naive_solver]. }
  split.
  - apply (inv_way s H).
  - intros l Hn. cbn [loops_ connections_ onConnection] in *. rewrite lookup_insert_ne by (intros ->; done). by apply (inv_other s H).
  - apply (inv_rest s H).
  - intros l l' c. rewrite !Hin. intros [Hc | [-> ->]] [Hc' | [-> Ec]]; try done; [by apply (inv_one s H l l' c) | subst c; by destruct (Hnot l) | by destruct (Hnot l')].
  - intros l c Hc. apply Hin in Hc as [Hc | [-> ->]]; cbn [joined out onConnection].
    + rewrite lookup_insert_ne by (intros ->; by apply (Hnot l)). exact (inv_here s H l c Hc).
    + rewrite lookup_insert_eq. eexists. split; [done |]. split; [done |]. rewrite (inv_never s H conn Hj).
      change (distributed loop (onConnection loop conn true s)) with (distributed loop s). by rewrite drop_all.
  - intros c. cbn [joined out onConnection]. intros E. apply lookup_insert_None in E as [E _]. by apply (inv_never s H).
  - intros c j. cbn [joined out log onConnection]. intros E. apply lookup_insert_Some in E as [[<- <-] | [_ E]]; [| by apply (inv_past s H)].
    exists 0%nat. by rewrite (inv_never s H conn Hj).
  - apply (inv_short s H).
Qed.

Lemma down_inv loop conn s : inv s -> conn ∈ instance loop s -> inv (onConnection loop conn false s).
Proof.
  intros H Hc. pose proof (here_in_loops loop conn s H Hc) as Hl.
  assert (Hin : forall l c, c ∈ instance l (onConnection loop conn false s) -> c ∈ instance l s).
  { intros l c. unfold onConnection, instance at 1. cbn [connections_]. rewrite instance_insert.
    case_decide as Hd; [rewrite <- Hd, elem_of_difference; naive_solver | done]. }
  split.
  - apply (inv_way s H).
  - intros l Hn. cbn [loops_ connections_ onConnection] in *. rewrite lookup_insert_ne by (intros ->; done). by apply (inv_other s H).
  - apply (inv_rest s H).
  - intros l l' c H1 H2. by apply (inv_one s H l l' c); apply Hin.
  - intros l c Hc'. exact (inv_here s H l c (Hin l c Hc')).
  - apply (inv_never s H).
  - apply (inv_past s H).
  - apply (inv_short s H).
Qed.

(** A step after which no loop has distributed more or less. *)
Lemma same_distributed_inv s s' :
  inv s -> loops_ s' = loops_ s -> connections_ s' = connections_ s -> out s' = out s -> joined s' = joined s ->
  (exists ms, log s' = log s ++ ms /\ Forall (fun m => zlen m <= 65536) ms) ->
  (forall loop, loop ∈ loops_ s -> log s' = distributed loop s ++ on_the_way loop s') ->
  (forall loop, loop ∉ loops_ s -> waiting_in loop s' = waiting_in loop s) ->
  (forall m rest, sending s' = Some (m, rest) -> NoDup rest /\ (forall loop, loop ∈ rest -> loop ∈ loops_ s)) ->
  inv s'.
Proof.
  intros H E1 E2 E3 E4 (ms & E5 & Hms) Hway Hother Hrest.
  assert (Hd : forall l, l ∈ loops_ s -> distributed l s' = distributed l s) by (intros l Hl; by apply distributed_way, Hway).
  assert (Hi : forall l, instance l s' = instance l s) by (intros l; unfold instance; by rewrite E2).
  split; rewrite ?E1, ?E2, ?E3, ?E4.
  - intros l Hl. rewrite Hd by done. by apply Hway.
  - intros l Hl. rewrite Hother by done. by apply (inv_other s H).
  - done.
  - intros l l' c. rewrite !Hi. apply (inv_one s H).
  - intros l c. rewrite Hi. intros Hc. rewrite Hd by (by eapply here_in_loops). by apply (inv_here s H).
  - apply (inv_never s H).
  - intros c j E. destruct (inv_past s H c j E) as (n & En). rewrite E5, En.
    exists (length (take n (drop j (log s)))). destruct (decide (j <= length (log s))%nat) as [Hj | Hj].
    + rewrite drop_app_le by done. rewrite length_take, take_app_le by lia. f_equal.
      destruct (Nat.min_spec n (length (drop j (log s)))) as [[_ ->] | [Hle ->]]; [done |]. by rewrite firstn_all, take_ge by lia.
    + rewrite (drop_ge (log s)), take_nil by lia. done.
  - rewrite E5. apply Forall_app. split; [apply (inv_short s H) | done].
Qed.

Lemma message_inv m s : inv s -> sending s = None -> zlen m <= 65536 -> inv (onStringMessage m s).
Proof.
  intros H Hs Hm. apply (same_distributed_inv s); try done.
  - exists [m]. by repeat constructor.
  - intros l Hl. cbn [log onStringMessage]. rewrite (inv_way s H l Hl) at 1. unfold on_the_way, to_queue. rewrite Hs.
    cbn [sending onStringMessage]. rewrite decide_True by (by apply elem_of_elements). rewrite app_nil_r. by rewrite <- app_assoc.
  - intros m' rest [= <- <-]. split; [apply NoDup_elements |]. intros l. by rewrite elem_of_elements.
Qed.

Lemma queue_inv m rest s : inv s -> sending s = Some (m, rest) -> inv (onStringMessage_next m rest s).
Proof.
  intros H Hs. destruct (inv_rest s H m rest Hs) as [Hnd Hin].
  assert (Hway : forall l, on_the_way l (onStringMessage_next m rest s) = on_the_way l s).
  { intros l. unfold on_the_way, to_queue, waiting_in. rewrite Hs. destruct rest as [| l0 rest]; [done |].
    cbn [onStringMessage_next functors sending]. apply NoDup_cons in Hnd as [Hl0 _].
    destruct (decide (l = l0)) as [-> | Hne].
    - rewrite lookup_insert_eq. rewrite decide_False by done. rewrite decide_True by (by left). cbn. by rewrite app_nil_r.
    - rewrite lookup_insert_ne by done. f_equal.
      destruct (decide (l ∈ rest)) as [Hr | Hr]; [rewrite decide_True by (by right) | rewrite decide_False by (by intros [|]%elem_of_cons)]; done. }
  apply (same_distributed_inv s); try (by destruct rest).
  - exists []. by destruct rest; cbn; rewrite app_nil_r.
  - intros l Hl. rewrite Hway. destruct rest; by apply (inv_way s H).
  - intros l Hl. destruct rest as [| l0 rest]; [done |]. unfold waiting_in. cbn. rewrite lookup_insert_ne; [done |].
    intros ->. apply Hl, Hin. by left.
  - intros m' rest' E. destruct rest as [| l0 rest]; [done |]. injection E as <- <-.
    apply NoDup_cons in Hnd as [_ Hnd]. split; [done |]. intros l Hl. apply Hin. by right.
Qed.

Lemma functor_log loop m rest s : inv s -> waiting_in loop s = m :: rest ->
  loop ∈ loops_ s /\ zlen m <= 65536
  /\ log s = (distributed loop s ++ [m]) ++ on_the_way loop (take_functor loop rest s).
Proof.
  intros H E. assert (Hl : loop ∈ loops_ s).
  { destruct (decide (loop ∈ loops_ s)) as [| Hn]; [done |]. destruct (inv_other s H loop Hn) as [_ E']. congruence. }
  pose proof (inv_way s H loop Hl) as Hw. unfold on_the_way at 1 in Hw. rewrite E in Hw.
  split; [done |]. split.
  - pose proof (inv_short s H) as Hs. rewrite Hw in Hs. apply Forall_app in Hs as [_ Hs]. cbn [app] in Hs. by apply Forall_cons in Hs as [Hs _].
  - rewrite Hw at 1. unfold on_the_way, waiting_in. cbn [functors take_functor]. rewrite lookup_insert_eq.
    change (to_queue loop (take_functor loop rest s)) with (to_queue loop s). cbn [default from_option id]. by rewrite <- app_assoc.
Qed.

Lemma functor_ok loop m rest s : inv s -> waiting_in loop s = m :: rest ->
  distributeMessage loop m (take_functor loop rest s)
  = Ok (mkServer (loops_ s) (connections_ s) (<[loop := rest]> (functors s)) (sending s)
          (out s ++ map (fun c => (c, frame m)) (elements (instance loop s))) (log s) (joined s)).
Proof.
  intros H E. destruct (functor_log loop m rest s H E) as (_ & Hm & _).
  unfold distributeMessage. change (instance loop (take_functor loop rest s)) with (instance loop s).
  by rewrite send_to_frames by lia.
Qed.

Lemma functor_inv loop m rest s s' : inv s -> waiting_in loop s = m :: rest ->
  distributeMessage loop m (take_functor loop rest s) = Ok s' -> inv s'.
Proof.
  intros H E E'. rewrite functor_ok in E' by done. destruct (functor_log loop m rest s H E) as (Hl & Hm & Hw).
  set (out' := out s ++ _) in E'. injection E' as <-. set (s' := mkServer _ _ _ _ _ _ _).
  assert (Hd : distributed loop s' = distributed loop s ++ [m]) by (by apply distributed_way).
  assert (Hway : forall l, l <> loop -> on_the_way l s' = on_the_way l s).
  { intros l Hne. unfold on_the_way, waiting_in. cbn [functors s']. by rewrite lookup_insert_ne. }
  assert (Hd' : forall l, l <> loop -> distributed l s' = distributed l s).
  { intros l Hne. unfold distributed. by rewrite Hway. }
  assert (Hr : forall c, received c out' = received c (out s) ++ if decide (c ∈ instance loop s) then frame m else []).
  { intros c. unfold out'. rewrite received_app, received_broadcast by apply NoDup_elements. f_equal.
    destruct (decide (c ∈ instance loop s)) as [Hc | Hc];
      [rewrite decide_True by (by apply elem_of_elements) | rewrite decide_False by (by rewrite elem_of_elements)]; done. }
  assert (Hhere : forall c, c ∈ instance loop s -> exists j, joined s !! c = Some j /\ (j <= length (distributed loop s'))%nat
      /\ received c out' = stream (drop j (distributed loop s'))).
  { intros c Hc. destruct (inv_here s H loop c Hc) as (j & Ej & Hj & Er). exists j. split; [done |].
    rewrite Hd, length_app, Hr, decide_True, Er by done. split; [lia |].
    rewrite drop_app_le, stream_app by done. cbn. by rewrite app_nil_r. }
  split; cbn [loops_ connections_ sending out log joined s'].
  - intros l Hl'. destruct (decide (l = loop)) as [-> | Hne]; [by rewrite Hd | rewrite Hd', Hway by done; by apply (inv_way s H)].
  - intros l Hn. destruct (inv_other s H l Hn) as [E1 E2]. split; [done |]. unfold waiting_in. cbn [functors s'].
    rewrite lookup_insert_ne; [done | by intros ->].
  - apply (inv_rest s H).
  - apply (inv_one s H).
  - intros l c Hc. change (instance l s') with (instance l s) in Hc.
    destruct (decide (l = loop)) as [-> | Hne]; [by apply Hhere |]. rewrite Hd' by done.
    rewrite Hr, decide_False, app_nil_r by (intros Hc'; apply Hne; by apply (inv_one s H l loop c)). by apply (inv_here s H).
  - intros c Ec. rewrite Hr, decide_False, app_nil_r by (by apply (not_here loop c s H)). by apply (inv_never s H).
  - intros c j Ec. destruct (decide (c ∈ instance loop s)) as [Hc | Hc].
    + destruct (Hhere c Hc) as (j' & Ej & Hj & ->). rewrite Ec in Ej. injection Ej as <-.
      exists (length (drop j (distributed loop s'))). f_equal. rewrite Hw, <- Hd, drop_app_le by done. by rewrite take_app_length.
    + rewrite Hr, decide_False, app_nil_r by done. by apply (inv_past s H).
  - apply (inv_short s H).
Qed.

Lemma hp_inv_new : inv ChatServer_new.
Proof.
  split; cbn.
  - intros loop Hl. by apply not_elem_of_empty in Hl.
  - intros loop _. unfold waiting_in. cbn. by rewrite !lookup_empty.
  - done.
  - intros loop loop' c Hc. unfold instance in Hc. cbn in Hc. rewrite lookup_empty in Hc. by apply not_elem_of_empty in Hc.
  - intros loop c Hc. unfold instance in Hc. cbn in Hc. rewrite lookup_empty in Hc. by apply not_elem_of_empty in Hc.
  - done.
  - intros c j E. by rewrite lookup_empty in E.
  - done.
Qed.

Lemma step_inv s s' : step s s' -> inv s -> inv s'.
Proof.
  intros Hs H. destruct Hs.
  - by eapply threadInit_inv.
  - by apply up_inv.
  - by apply down_inv.
  - by apply message_inv.
  - by apply queue_inv.
  - by eapply functor_inv.
Qed.

Lemma reachable_inv s : rtc step ChatServer_new s -> inv s.
Proof.
  pose proof hp_inv_new as H0. revert H0. generalize ChatServer_new. intros s0 H0 H.
  induction H as [| s1 s2 s3 H12 _ IH]; [done |]. by apply IH, (step_inv s1).
Qed.

(** The codec of a client takes the messages out of the bytes it is sent. *)
Lemma client_receives ms chunks b :
  Forall (fun m => zlen m <= 65536) ms -> holds [] b -> Forall (fun ch => zlen ch < 2 ^ 62) chunks -> concat chunks = stream ms ->
  safe (run_chunks LengthHeaderCodec.onMessage chunks b) (fun '(ms', stop, b') => ms' = ms /\ stop = false /\ holds [] b').
Proof.
  intros Hms Hb Hc Heq. rewrite Forall_forall in Hms.
  pose proof (run_chunks_encoded next _ _ length_header_implements frame ms chunks b) as Hr.
  rewrite map_id in Hr. apply Hr; try done. intros m k Hin. by apply length_header_frame, Hms.
Qed.

(** C21: The server with a list of connections per thread keeps one order: however
    its threads interleave, the messages that got the mutex form one sequence,
    and every client that was ever connected is sent a contiguous piece of it
    that starts where its loop was when it came up, so no two clients see two
    messages in different orders; a client that is still connected has been
    sent everything from there up to the messages that wait in its loop or are
    just being queued, none lost and none twice; what a client's codec takes
    out of the bytes, however they are cut, is that piece; and no handler
    fails an assertion. *)
Theorem chat_total_order s :
  rtc step ChatServer_new s ->
  (forall c j, joined s !! c = Some j -> exists n, let piece := take n (drop j (log s)) in
     received c (out s) = stream piece
     /\ forall chunks b, holds [] b -> Forall (fun ch => zlen ch < 2 ^ 62) chunks -> concat chunks = received c (out s) ->
          safe (run_chunks LengthHeaderCodec.onMessage chunks b)
            (fun '(ms, stop, b') => ms = piece /\ stop = false /\ holds [] b'))
  /\ (forall loop c, c ∈ instance loop s -> exists j, joined s !! c = Some j /\ (j <= length (distributed loop s))%nat
       /\ received c (out s) = stream (drop j (distributed loop s))
       /\ log s = distributed loop s ++ waiting_in loop s ++ to_queue loop s)
  /\ (forall loop, loop ∉ loops_ s -> is_ok (threadInit loop s))
  /\ (forall loop m rest, waiting_in loop s = m :: rest -> is_ok (distributeMessage loop m (take_functor loop rest s))).
Proof.
  intros Hr. pose proof (reachable_inv s Hr) as H. split; [| split; [| split]].
  - intros c j E. destruct (inv_past s H c j E) as (n & En). exists n. split; [done |].
    intros chunks b Hb Hc Heq. rewrite En in Heq. apply client_receives; try done.
    apply Forall_take, Forall_drop, (inv_short s H).
  - intros loop c Hc. destruct (inv_here s H loop c Hc) as (j & Ej & Hj & Er). exists j. split; [done |]. split; [done |].
    split; [done |]. apply (inv_way s H). by eapply here_in_loops.
  - intros loop Hn. eexists. by apply threadInit_ok.
  - intros loop m rest E. eexists. by apply functor_ok.
Qed.

(** A schedule, performed. *)
Inductive action : Type :=
| Init (loop : Z)
| Up (loop conn : Z)
| Message (m : list byte)
| Queue
| Functor (loop : Z).

Definition perform (s : ChatServer) (a : action) : res ChatServer :=
  match a with
  | Init loop => if decide (sending s = None /\ loop ∉ loops_ s) then threadInit loop s else Err BadAccess
  | Up loop conn => if decide (loop ∈ loops_ s /\ joined s !! conn = None) then mret (onConnection loop conn true s) else Err BadAccess
  | Message m => if decide (sending s = None /\ zlen m <= 65536) then mret (onStringMessage m s) else Err BadAccess
  | Queue => match sending s with Some (m, rest) => mret (onStringMessage_next m rest s) | None => Err BadAccess end
  | Functor loop => match waiting_in loop s with m :: rest => distributeMessage loop m (take_functor loop rest s) | [] => Err BadAccess end
  end.
Definition perform_all (acts : list action) : res ChatServer :=
  fold_left (fun s a => s ← s; perform s a) acts (Ok ChatServer_new).

Lemma perform_reachable acts s : perform_all acts = Ok s -> rtc step ChatServer_new s.
Proof.
  revert s. induction acts as [| a acts IH] using rev_ind; intros s H; [by injection H as <- |].
  unfold perform_all in *. rewrite fold_left_app in H. cbn [fold_left] in H.
  destruct (fold_left _ acts _) as [s1 |]; [| done]. cbn [mbind res_bind] in H.
  eapply rtc_r; [by apply IH |]. destruct a as [loop | loop conn | m | | loop]; cbn [perform] in H.
  - destruct (decide _) as [[H1 H2] |]; [| done]. by eapply step_threadInit.
  - destruct (decide _) as [[H1 H2] |]; [| done]. injection H as <-. by apply step_up.
  - destruct (decide _) as [[H1 H2] |]; [| done]. injection H as <-. by apply step_message.
  - destruct (sending s1) as [[m rest] |] eqn:E; [| done]. injection H as <-. by apply step_queue.
  - destruct (waiting_in loop s1) as [| m rest] eqn:E; [done |]. by eapply step_functor.
Qed.

(** Two loops, a client in each; one message. *)
Definition demo_actions : list action :=
  [Init 1; Init 2; Up 1 10; Up 2 20; Message (bs "hi"); Queue; Functor 2; Queue; Queue; Functor 1].
Definition demo_state : ChatServer :=
  mkServer {[1; 2]} {[1 := {[10]}; 2 := {[20]}]} {[1 := []; 2 := []]} None
    [(20, frame (bs "hi")); (10, frame (bs "hi"))] [bs "hi"] {[10 := 0%nat; 20 := 0%nat]}.

Lemma chat_total_order_witness :
  rtc step ChatServer_new demo_state
  /\ received 20 (out demo_state) = stream [bs "hi"]
  /\ (exists j, joined demo_state !! 20 = Some j /\ (j <= length (distributed 2 demo_state))%nat
       /\ received 20 (out demo_state) = stream (drop j (distributed 2 demo_state))
       /\ log demo_state = distributed 2 demo_state ++ waiting_in 2 demo_state ++ to_queue 2 demo_state).
Proof.
  assert (Hrun : rtc step ChatServer_new demo_state) by (apply (perform_reachable demo_actions); vm_compute; reflexivity).
  destruct (chat_total_order demo_state Hrun) as (_ & H & _). split; [exact Hrun |]. split; [by_evaluation |].
  apply (H 2 20). by_evaluation.
Defined.
