(* ===== verification/CodecLoop.v ===== *)
(** * CodecLoop: what the two protobuf codecs have in common

    [RpcCodec] ([muduo/net/protorpc/]) and [ProtobufCodec]
    ([examples/protobuf/codec/], "FIXME: merge with RpcCodec") have the same
    message loop, error codes and default error callback; they differ in the
    shortest message and in how a message is parsed, the parameters here. *)
From S2P Require Import Prelude Endian Buffer Framing.

(*@ muduo/muduo/net/protorpc/RpcCodec.h 33-41 RpcCodec::ErrorCode *)
Inductive ErrorCode : Type :=
| kNoError | kInvalidLength | kCheckSumError | kInvalidNameLen | kUnknownMessageType | kParseError.

(*@ muduo/muduo/net/protorpc/RpcCodec.h 84-84 RpcCodec::kHeaderLen *)
Definition kHeaderLen : Z := 4.
(*@ muduo/muduo/net/protorpc/RpcCodec.h 86-86 RpcCodec::kMaxMessageLen *)
Definition kMaxMessageLen : Z := 64 * 1024 * 1024.

(*@ muduo/muduo/net/protorpc/RpcCodec.cc 111-130 RpcCodec::errorCodeToString *)
Definition errorCodeToString (e : ErrorCode) : list byte :=
  match e with
  | kNoError => bs "NoError"
  | kInvalidLength => bs "InvalidLength"
  | kCheckSumError => bs "CheckSumError"
  | kInvalidNameLen => bs "InvalidNameLen"
  | kUnknownMessageType => bs "UnknownMessageType"
  | kParseError => bs "ParseError"
  end.

(** The default callback only shuts the sending side down. *)
(*@ muduo/muduo/net/protorpc/RpcCodec.cc 132-142 RpcCodec::defaultErrorCallback *)
Definition defaultErrorCallback (_ : ErrorCode) (buf : Buffer) : res Buffer := mret buf.

(*@ muduo/muduo/net/protorpc/RpcCodec.cc 144-149 RpcCodec::asInt32 *)
Definition asInt32 (buf : list byte) : Z := s32 (networkToHost32 (le_val (ztake 4 buf))).

Inductive event (M : Type) : Type := Message (m : M) | Error (e : ErrorCode).
Arguments Message {M} m.
Arguments Error {M} e.

(** [parse] gets the bytes after the length header, and their number. *)
Section codec_loop.
Context {M : Type}.
Variables (kMinMessageLen : Z) (parse : list byte -> Z -> ErrorCode * option M).

(** [errorCallback_] may do anything to the buffer; the loop then goes on. *)
Variable errorCallback_ : ErrorCode -> Buffer -> res Buffer.

Fixpoint onMessage_loop (fuel : nat) (buf : Buffer) : res (list (event M) * Buffer) :=
  match fuel with
  | O => Err OutOfFuel
  | S fuel =>
      if u64 (kMinMessageLen + kHeaderLen) <=? readableBytes buf
      then
        len ← peekInt32 buf;
        if (kMaxMessageLen <? len) || (len <? kMinMessageLen)
        then
          buf ← errorCallback_ kInvalidLength buf;
          '(es, buf) ← onMessage_loop fuel buf;
          mret (Error kInvalidLength :: es, buf)
        else if u64 (s32 (len + kHeaderLen)) <=? readableBytes buf
        then
          text ← mem_read (peek buf + kHeaderLen) (peek buf + kHeaderLen + len) (buffer_ buf);
          match parse text len with
          | (kNoError, Some m) =>
              buf ← retrieve buf (kHeaderLen + len);
              '(es, buf) ← onMessage_loop fuel buf;
              mret (Message m :: es, buf)
          | (e, _) =>
              buf ← errorCallback_ e buf;
              '(es, buf) ← onMessage_loop fuel buf;
              mret (Error e :: es, buf)
          end
        else mret ([], buf)
      else mret ([], buf)
  end.

Definition codec_onMessage (buf : Buffer) : res (list (event M) * Buffer) :=
  onMessage_loop (S (Z.to_nat (readableBytes buf))) buf.

(** The first message of a list of bytes. *)
Definition codec_next (l : list byte) : next_result M :=
  if kMinMessageLen + 4 <=? zlen l
  then
    let len := s32 (be_val (ztake 4 l)) in
    if (kMaxMessageLen <? len) || (len <? kMinMessageLen) then Invalid
    else if len + 4 <=? zlen l
    then match parse (zslice 4 (4 + len) l) len with
         | (kNoError, Some m) => Got m (zdrop (4 + len) l)
         | _ => Invalid
         end
    else NeedMore
  else NeedMore.

Hypothesis min_positive : 0 < kMinMessageLen < 2 ^ 30.

#[export] Instance codec_next_stable : StableNext codec_next.
Proof using min_positive.
  unfold codec_next. split.
  - intros l m rest H. destruct (kMinMessageLen + 4 <=? zlen l) eqn:E; [| done].
    destruct (_ || _) eqn:Eb; [done |]. destruct (s32 _ + 4 <=? zlen l) eqn:El; [| done].
    apply orb_false_elim in Eb as [_ Eb].
    destruct (parse _ _) as [[] [m' |]]; try done. injection H as _ <-.
    unfold zdrop, zlen in *. rewrite length_drop. lia.
  - intros l k m rest H. pose proof (zlen_nonneg k).
    destruct (kMinMessageLen + 4 <=? zlen l) eqn:E; [| done]. rewrite zlen_app, (proj2 (Z.leb_le (kMinMessageLen + 4) _)) by lia.
    rewrite ztake_app_l by lia. destruct (_ || _) eqn:Eb; [done |].
    apply orb_false_elim in Eb as [_ Eb].
    destruct (s32 _ + 4 <=? zlen l) eqn:El; [| done].
    rewrite (proj2 (Z.leb_le _ (zlen l + zlen k))) by lia.
    rewrite zslice_app_l, zdrop_app_l by lia.
    destruct (parse _ _) as [[] [m' |]]; try done. by injection H as <- <-.
  - intros l k H. pose proof (zlen_nonneg k).
    destruct (kMinMessageLen + 4 <=? zlen l) eqn:E; [| done]. rewrite zlen_app, (proj2 (Z.leb_le (kMinMessageLen + 4) _)) by lia.
    rewrite ztake_app_l by lia. destruct (_ || _) eqn:Eb; [done |].
    apply orb_false_elim in Eb as [_ Eb].
    destruct (s32 _ + 4 <=? zlen l) eqn:El; [| done].
    rewrite (proj2 (Z.leb_le _ (zlen l + zlen k))) by lia. rewrite zslice_app_l by lia.
    by destruct (parse _ _) as [[] [m' |]].
Qed.

(** One turn of the loop: it stops, or takes a message out, or calls the error
    callback with the buffer as it was. *)
Lemma onMessage_turn fuel l b :
  holds l b ->
  match codec_next l with
  | NeedMore => onMessage_loop (S fuel) b = Ok ([], b)
  | Got m rest =>
      exists b', holds rest b'
        /\ onMessage_loop (S fuel) b
           = '(es, b) ← onMessage_loop fuel b'; mret (Message m :: es, b)
  | Invalid =>
      exists e, onMessage_loop (S fuel) b
        = b ← errorCallback_ e b; '(es, b) ← onMessage_loop fuel b; mret (Error e :: es, b)
  end.
Proof using min_positive.
  intros H. cbn [onMessage_loop]. unfold codec_next, kMaxMessageLen, kHeaderLen.
  rewrite (holds_readable _ _ H), u64_small by lia.
  destruct (Z.leb_spec (kMinMessageLen + 4) (zlen l)) as [H12 | H12]; [| done].
  rewrite (peekInt32_repr _ _ (holds_repr _ _ H)) by (cbn; lia). cbn [q_bytes]. rsimp.
  set (len := s32 _).
  destruct ((_ <? len) || (len <? kMinMessageLen)) eqn:Eb; [by eexists |].
  apply orb_false_elim in Eb as [Eb1 Eb2].
  rewrite (s32_small (len + 4)), (u64_small (len + 4)) by lia.
  destruct (Z.leb_spec (len + 4) (zlen l)) as [Hf | Hf]; [| done].
  replace (peek b + 4 + len) with (peek b + (4 + len)) by lia.
  rewrite (read_range l) by (done || lia). rsimp.
  destruct (parse (zslice 4 (4 + len) l) len) as [e m] eqn:Ep.
  destruct e; try by eexists.
  destruct m as [m |]; [| by eexists].
  destruct (retrieve_holds l b (4 + len) H ltac:(lia)) as (b' & -> & Hb'). by exists b'.
Qed.

Lemma onMessage_drain fuel : forall l b ms r,
  holds l b -> (length l < fuel)%nat -> drain codec_next fuel l = (ms, false, r) ->
  exists b', onMessage_loop fuel b = Ok (map Message ms, b') /\ holds r b'.
Proof using min_positive.
  induction fuel as [| fuel IH]; intros l b ms r H Hl Hd; [lia |].
  pose proof (onMessage_turn fuel l b H) as Ht. cbn [drain] in Hd.
  destruct (codec_next l) as [| | m rest] eqn:E; [| done |].
  - injection Hd as <- <-. by exists b.
  - pose proof (next_shorter _ _ _ E). destruct Ht as (b1 & Hb1 & ->).
    destruct (drain codec_next fuel rest) as [[ms1 s1] r1] eqn:Er. simplify_eq.
    destruct (IH rest b1 ms1 r Hb1 ltac:(lia) Er) as (b' & -> & Hb'). rsimp. by exists b'.
Qed.

Lemma codec_implements :
  implements codec_next Message (fun b => '(es, b) ← codec_onMessage b; mret (es, false, b)).
Proof using min_positive.
  intros l b ms r H Hd. unfold codec_onMessage. rewrite (holds_readable _ _ H).
  replace (S (Z.to_nat (zlen l))) with (S (length l)) by (unfold zlen; lia).
  destruct (onMessage_drain (S (length l)) l b ms r H ltac:(lia) Hd) as (b' & -> & Hb'). rsimp. by exists b'.
Qed.
End codec_loop.

(** With the default error callback, a frame that cannot be decoded is tried
    again for ever. *)
Lemma bad_frame_loops {M} kMinMessageLen (parse : list byte -> Z -> ErrorCode * option M) l b fuel :
  0 < kMinMessageLen < 2 ^ 30 -> holds l b -> codec_next kMinMessageLen parse l = Invalid ->
  onMessage_loop kMinMessageLen parse defaultErrorCallback fuel b = Err OutOfFuel.
Proof.
  intros Hmin H Hi. induction fuel as [| fuel IH]; [done |].
  pose proof (onMessage_turn kMinMessageLen parse defaultErrorCallback Hmin fuel l b H) as Ht.
  rewrite Hi in Ht. destruct Ht as (e & ->). change (defaultErrorCallback e b) with (Ok b). rsimp. by rewrite IH.
Qed.

(** ** Frames with a checksum *)

Definition summed (adler32 : list byte -> Z) (body : list byte) : list byte := body ++ be_bytes 4 (s32 (adler32 body)).
Definition framed (adler32 : list byte -> Z) (body : list byte) : list byte :=
  be_bytes 4 (zlen (summed adler32 body)) ++ summed adler32 body.

Lemma zlen_summed adler32 body : zlen (summed adler32 body) = zlen body + 4.
Proof. unfold summed. by rewrite zlen_app, zlen_be_bytes. Qed.

(** What the checksum test of [parse] reads. *)
Lemma summed_ok adler32 body :
  ztake (zlen body) (summed adler32 body) = body /\ asInt32 (zdrop (zlen body) (summed adler32 body)) = s32 (adler32 body).
Proof.
  unfold summed. split; [by rewrite ztake_app_l, ztake_all |].
  unfold asInt32. rewrite zdrop_app_r, Z.sub_diag, zdrop_0 by lia. rewrite (ztake_all 4) by (rewrite zlen_be_bytes; lia).
  rewrite header_value by (by rewrite zlen_be_bytes). rewrite be_val_bytes. change (wrapu (8 * Z.of_nat 4)) with (wrapu 32).
  unfold s32. by rewrite wrapu_wraps, wraps_wrapu by lia.
Qed.

Lemma codec_next_framed {M} kMinMessageLen (parse : list byte -> Z -> ErrorCode * option M) adler32 body m k :
  0 < kMinMessageLen <= zlen body + 4 -> zlen body + 4 <= kMaxMessageLen ->
  parse (summed adler32 body) (zlen body + 4) = (kNoError, Some m) ->
  codec_next kMinMessageLen parse (framed adler32 body ++ k) = Got m k.
Proof.
  intros Hmin Hmax Hp. pose proof (zlen_nonneg k). unfold codec_next, framed. set (full := summed adler32 body) in *.
  assert (Hfull : zlen full = zlen body + 4) by apply zlen_summed. unfold kMaxMessageLen in *.
  rewrite zlen_app, zlen_frame. rewrite (proj2 (Z.leb_le (_ + 4) _)) by lia.
  rewrite ztake_frame, be_header by lia.
  rewrite (proj2 (Z.ltb_ge (64 * 1024 * 1024) _)), (proj2 (Z.ltb_ge (zlen full) kMinMessageLen)) by lia. cbn [orb].
  rewrite (proj2 (Z.leb_le _ _)) by lia. by rewrite zslice_frame, zdrop_frame, Hfull, Hp.
Qed.

(** The end of both [fillEmptyBuffer] and [send]: the checksum and the length. *)
Definition finish_frame (adler32 : list byte -> Z) (buf : Buffer) : res Buffer :=
  text ← mem_read (peek buf) (peek buf + readableBytes buf) (buffer_ buf);
  appendInt32 buf (s32 (adler32 text)).
Definition prepend_length (buf : Buffer) : res Buffer :=
  prepend buf (le_bytes 4 (s32 (hostToNetwork32 (s32 (readableBytes buf))))).

Lemma finish_frame_ok adler32 body cap b : repr {| q_bytes := body; q_room := kCheapPrepend; q_cap := cap |} b ->
  cap < 2 ^ 62 -> zlen body < 2 ^ 31 - 8 ->
  exists b1 b2, finish_frame adler32 b = Ok b1 /\ readableBytes b1 = zlen body + 4 /\ prepend_length b1 = Ok b2
    /\ mem_read (peek b2) (peek b2 + readableBytes b2) (buffer_ b2) = Ok (framed adler32 body).
Proof.
  intros Hb Hcap Hlen. pose proof (zlen_nonneg body). unfold finish_frame, prepend_length.
  rewrite (read_all _ _ (repr_holds _ _ Hb)). rsimp.
  edestruct appendInt32_repr with (x := s32 (adler32 body)) as (b1 & E1 & Hb1); [exact Hb | |].
  { apply q_push_some. cbn [q_cap]. rewrite zlen_be_bytes. unfold vector_max_size. lia. }
  cbn [q_bytes q_room q_cap] in *. exists b1.
  pose proof (holds_readable _ _ (repr_holds _ _ Hb1)) as Hr. cbn [q_bytes] in Hr.
  change (body ++ be_bytes 4 (s32 (adler32 body))) with (summed adler32 body) in *. rewrite zlen_summed in Hr.
  rewrite E1, Hr. rewrite (s32_small (zlen body + 4)), int32_image by lia.
  edestruct prepend_repr as (b2 & -> & Hb2); [exact Hb1 | |].
  { apply q_unshift_some. cbn [q_room]. rewrite zlen_be_bytes. by_evaluation. }
  exists b2. split; [done |]. split; [done |]. split; [done |].
  rewrite (read_all _ _ (repr_holds _ _ Hb2)). cbn [q_bytes]. unfold framed. by rewrite zlen_summed.
Qed.

(** zlib's checksum, for the concrete instances. *)
Definition zlib_adler32 (l : list byte) : Z :=
  let '(a, b) := fold_left (fun '(a, b) x => let a := (a + byte_val x) mod 65521 in (a, (b + a) mod 65521))
                           l (1, 0) in
  b * 65536 + a.
