(* ===== verification/IdleWheel.v ===== *)
(** * IdleWheel: [examples/idleconnection/echo.cc] and [echo.h]

    The echo server that closes idle connections with a timing wheel: a
    circular buffer of buckets of reference-counted entries, whose destructor
    shuts the connection down when the last bucket lets it go. *)
From S2P Require Import Prelude.

(** A connection is a number, and so is an [Entry] (its reference count
    block: a number is never used again, so a [weak_ptr] to an entry that was
    destroyed stays expired).  [entries] are the ones not destroyed, with
    their connection; a bucket is the set of entries it holds a [shared_ptr]
    to; [context] is the [weak_ptr] in the connection's context; [alive] are
    the connections to which somebody holds a [TcpConnectionPtr]. *)
(*@ muduo/examples/idleconnection/echo.h 71-87 EchoServer *)
Record EchoServer := mkServer {
  connectionBuckets_ : list (gset nat);
  entries : gmap nat Z;
  next_entry : nat;
  context : gmap Z nat;
  alive : gset Z
}.

(** [connectionBuckets_(idleSeconds)] and [resize(idleSeconds)]. *)
(*@ muduo/examples/idleconnection/echo.cc 15-33 EchoServer::EchoServer *)
Definition EchoServer_new (idleSeconds : nat) : EchoServer := mkServer (replicate idleSeconds ∅) ∅ 0 ∅ ∅.

(** [connectionBuckets_.back().insert(entry)]. *)
Definition insert_back (e : nat) (s : EchoServer) : res EchoServer :=
  match reverse (connectionBuckets_ s) with
  | [] => Err BadAccess
  | b :: bs => mret (mkServer (reverse (({[e]} ∪ b) :: bs)) (entries s) (next_entry s) (context s) (alive s))
  end.

(** The [shared_ptr] on the stack goes away at the end, when the bucket has
    its own. *)
(*@ muduo/examples/idleconnection/echo.cc 42-78 EchoServer::onConnection *)
Definition onConnection (conn : Z) (connected : bool) (s : EchoServer) : res EchoServer :=
  if connected
  then
    let entry := next_entry s in
    let s := mkServer (connectionBuckets_ s) (<[entry := conn]> (entries s)) (S entry) (context s) (alive s) in
    s ← insert_back entry s;
    mret (mkServer (connectionBuckets_ s) (entries s) (next_entry s) (<[conn := entry]> (context s)) (alive s))
  else
    assert_ (negb (bool_decide (context s !! conn = None)));;
    mret s.

(** What is sent to the connection comes first. *)
(*@ muduo/examples/idleconnection/echo.cc 81-108 EchoServer::onMessage *)
Definition onMessage (conn : Z) (msg : list byte) (s : EchoServer) : res (list byte * EchoServer) :=
  match context s !! conn with
  | None => Err AssertFail
  | Some weakEntry =>
      s ← (if bool_decide (is_Some (entries s !! weakEntry)) then insert_back weakEntry s else mret s);
      mret (msg, s)
  end.

(** The connections that the destructor of the entries shuts down: those that
    [weakConn_.lock()] finds. *)
(*@ muduo/examples/idleconnection/echo.h 54-66 EchoServer::Entry::~Entry *)
Definition destroy (dead : gset nat) (s : EchoServer) : gset Z * EchoServer :=
  (filter (fun c => c ∈ alive s) (map_to_set (C := gset Z) (fun _ c => c) (filter (fun kv => kv.1 ∈ dead) (entries s))),
   mkServer (connectionBuckets_ s) (filter (fun kv => kv.1 ∉ dead) (entries s)) (next_entry s) (context s) (alive s)).

(** [push_back] on a full circular buffer overwrites the front; its entries
    are destroyed if no other bucket holds them.  The result is the set of the
    connections shut down (the order, that of a hash table, is not fixed). *)
(*@ muduo/examples/idleconnection/echo.cc 111-121 EchoServer::onTimer *)
Definition onTimer (s : EchoServer) : gset Z * EchoServer :=
  match connectionBuckets_ s with
  | [] => (∅, s)
  | front :: bs =>
      let bs := bs ++ [∅] in
      destroy (front ∖ ⋃ bs) (mkServer bs (entries s) (next_entry s) (context s) (alive s))
  end.

(** ** Runs *)

(** [Gone]: the last [TcpConnectionPtr] to the connection goes away. *)
Inductive event : Type :=
| Up (conn : Z)
| Down (conn : Z)
| Gone (conn : Z)
| Received (conn : Z) (msg : list byte)
| Tick.

Inductive effect : Type :=
| Echo (conn : Z) (msg : list byte)
| Shutdown (conns : gset Z).

Definition handle (e : event) (s : EchoServer) : res (list effect * EchoServer) :=
  match e with
  | Up c =>
      s ← onConnection c true (mkServer (connectionBuckets_ s) (entries s) (next_entry s) (context s) ({[c]} ∪ alive s));
      mret ([], s)
  | Down c => s ← onConnection c false s; mret ([], s)
  | Gone c => mret ([], mkServer (connectionBuckets_ s) (entries s) (next_entry s) (context s) (alive s ∖ {[c]}))
  | Received c msg => '(echo, s) ← onMessage c msg s; mret ([Echo c echo], s)
  | Tick => let '(conns, s) := onTimer s in mret ([Shutdown conns], s)
  end.

Fixpoint run (es : list event) (s : EchoServer) : res (list effect * EchoServer) :=
  match es with
  | [] => mret ([], s)
  | e :: es => '(out, s) ← handle e s; '(out', s) ← run es s; mret (out ++ out', s)
  end.

(** ** What the wheel is for

    The specification counts ticks and remembers, for every connection that
    was not found idle, the tick of its last activity; at the [n]-th tick
    after that the connection is shut down, once. *)
Record idle_spec := mkSpec {
  ticks : nat;
  last_active : gmap Z nat;
  known : gset Z;
  living : gset Z
}.

Definition spec_new : idle_spec := mkSpec 0 ∅ ∅ ∅.

Definition found_idle (n : nat) (x : idle_spec) : gset Z :=
  filter (fun c => c ∈ living x) (dom (filter (fun kv => kv.2 + n = S (ticks x))%nat (last_active x))).

(** [None]: not something that happens to a server. *)
Definition spec_handle (n : nat) (e : event) (x : idle_spec) : option (list effect * idle_spec) :=
  match e with
  | Up c =>
      if decide (c ∈ known x) then None
      else Some ([], mkSpec (ticks x) (<[c := ticks x]> (last_active x)) ({[c]} ∪ known x) ({[c]} ∪ living x))
  | Down c => if decide (c ∈ known x) then Some ([], x) else None
  | Gone c => Some ([], mkSpec (ticks x) (last_active x) (known x) (living x ∖ {[c]}))
  | Received c msg =>
      if decide (c ∈ known x)
      then Some ([Echo c msg],
                 if decide (is_Some (last_active x !! c))
                 then mkSpec (ticks x) (<[c := ticks x]> (last_active x)) (known x) (living x) else x)
      else None
  | Tick =>
      Some ([Shutdown (found_idle n x)],
            mkSpec (S (ticks x)) (filter (fun kv => kv.2 + n <> S (ticks x))%nat (last_active x)) (known x) (living x))
  end.

Fixpoint spec_run (n : nat) (es : list event) (x : idle_spec) : option (list effect * idle_spec) :=
  match es with
  | [] => Some ([], x)
  | e :: es => '(out, x) ← spec_handle n e x; '(out', x) ← spec_run n es x; Some (out ++ out', x)
  end.

(** ** The invariant *)

(** The bucket of tick [t], counting from the back, and the entries there:
    the entry of a connection last active at tick [t] is in the bucket of that
    tick, and in no later one. *)
Record repr (n : nat) (s : EchoServer) (x : idle_spec) : Prop := {
  repr_len : length (connectionBuckets_ s) = n;
  repr_alive : alive s = living x;
  repr_fresh e : is_Some (entries s !! e) -> (e < next_entry s)%nat;
  repr_fresh_context c e : context s !! c = Some e -> (e < next_entry s)%nat;
  repr_known c : is_Some (context s !! c) <-> c ∈ known x;
  repr_entry e c : entries s !! e = Some c -> context s !! c = Some e;
  repr_inj c c' e : context s !! c = Some e -> context s !! c' = Some e -> c = c';
  repr_last c : is_Some (last_active x !! c) <-> exists e, entries s !! e = Some c;
  repr_recent c t : last_active x !! c = Some t -> (t <= ticks x < t + n)%nat;
  repr_bucket c t e : last_active x !! c = Some t -> context s !! c = Some e ->
    exists b, connectionBuckets_ s !! (n - 1 - (ticks x - t))%nat = Some b /\ e ∈ b;
  repr_in i b e : connectionBuckets_ s !! i = Some b -> e ∈ b ->
    exists c t, entries s !! e = Some c /\ last_active x !! c = Some t /\ (i + (ticks x - t) <= n - 1)%nat
}.

Lemma insert_back_ok n e s : length (connectionBuckets_ s) = S n ->
  exists b, connectionBuckets_ s !! n = Some b
    /\ insert_back e s = Ok (mkServer (<[n := {[e]} ∪ b]> (connectionBuckets_ s)) (entries s) (next_entry s) (context s) (alive s)).
Proof.
  intros Hl. unfold insert_back. destruct (reverse (connectionBuckets_ s)) as [| b bs] eqn:E.
  { apply (f_equal length) in E. rewrite length_reverse, Hl in E. done. }
  apply (f_equal reverse) in E. rewrite reverse_involutive, reverse_cons in E. rewrite E in *.
  rewrite length_app in Hl. cbn in Hl. assert (Hn : n = length (reverse bs)) by lia. subst n.
  exists b. split; [by rewrite list_lookup_middle |]. rewrite reverse_cons. rewrite insert_app_r_alt by lia. by rewrite Nat.sub_diag.
Qed.

(** The part of [repr] that is about the buckets. *)
Record placed (n : nat) (bs : list (gset nat)) (ents : gmap nat Z) (ctx : gmap Z nat) (last : gmap Z nat) (now : nat) : Prop := {
  placed_bucket c t e : last !! c = Some t -> ctx !! c = Some e -> exists b, bs !! (n - 1 - (now - t))%nat = Some b /\ e ∈ b;
  placed_in i b e : bs !! i = Some b -> e ∈ b ->
    exists c t, ents !! e = Some c /\ last !! c = Some t /\ (i + (now - t) <= n - 1)%nat
}.

Lemma placed_insert n bs b ents ctx last now c e ents' ctx' :
  placed (S n) bs ents ctx last now -> length bs = S n -> bs !! n = Some b ->
  (forall c t, last !! c = Some t -> (t <= now)%nat) ->
  ents' !! e = Some c -> ctx' !! c = Some e ->
  (forall e', e' <> e -> ents' !! e' = ents !! e') -> (forall c', c' <> c -> ctx' !! c' = ctx !! c') ->
  (forall e', e' <> e -> ents !! e' <> Some c) ->
  placed (S n) (<[n := {[e]} ∪ b]> bs) ents' ctx' (<[c := now]> last) now.
Proof.
  intros [Hb Hi] Hl Hn Ht He Hc He' Hc' Hone. split.
  - intros c2 t2 e2 E2 Ec2. destruct (decide (c2 = c)) as [-> | Hne].
    + rewrite lookup_insert_eq in E2. injection E2 as <-. rewrite Hc in Ec2. injection Ec2 as <-.
      rewrite Nat.sub_diag. replace (S n - 1 - 0)%nat with n by lia. rewrite list_lookup_insert_eq by lia.
      eexists. split; [done |]. set_solver.
    + rewrite lookup_insert_ne in E2 by done. rewrite Hc' in Ec2 by done. destruct (Hb c2 t2 e2 E2 Ec2) as (b2 & Eb2 & Hin).
      destruct (decide (S n - 1 - (now - t2) = n)%nat) as [Heq | Hne2].
      * rewrite Heq in *. rewrite list_lookup_insert_eq by lia. rewrite Hn in Eb2. injection Eb2 as <-. eexists. split; [done |]. set_solver.
      * rewrite list_lookup_insert_ne by done. by exists b2.
  - intros i b2 e2 Eb2 Hin. destruct (decide (e2 = e)) as [-> | Hne].
    + exists c, now. rewrite lookup_insert_eq. split; [done |]. split; [done |]. apply lookup_lt_Some in Eb2. rewrite length_insert in Eb2. lia.
    + assert (exists b0, bs !! i = Some b0 /\ e2 ∈ b0) as (b0 & Eb0 & Hin0).
      { destruct (decide (i = n)) as [-> | Hni].
        - rewrite list_lookup_insert_eq in Eb2 by lia. injection Eb2 as <-. exists b. split; [done |]. set_solver.
        - rewrite list_lookup_insert_ne in Eb2 by done. by exists b2. }
      destruct (Hi i b0 e2 Eb0 Hin0) as (c2 & t2 & E1 & E2 & Hlt). exists c2, t2. rewrite He' by done.
      assert (c2 <> c) by (intros ->; by apply (Hone e2)). by rewrite lookup_insert_ne.
Qed.

Lemma repr_placed n s x : repr n s x -> placed n (connectionBuckets_ s) (entries s) (context s) (last_active x) (ticks x).
Proof. intros []. by split. Qed.

Lemma up_repr n s x c : repr (S n) s x -> c ∉ known x ->
  exists s', handle (Up c) s = Ok ([], s')
    /\ repr (S n) s' (mkSpec (ticks x) (<[c := ticks x]> (last_active x)) ({[c]} ∪ known x) ({[c]} ∪ living x)).
Proof.
  intros H Hc. pose proof (repr_placed _ _ _ H) as Hp. destruct H as [Hlen Hal Hfr Hfc Hkn Hent Hinj Hlast Hrec _ _].
  assert (Hctx : context s !! c = None) by (apply eq_None_not_Some; by rewrite Hkn).
  assert (Hent_c : forall e, entries s !! e <> Some c) by (intros e E; apply Hent in E; congruence).
  assert (Hnone : entries s !! next_entry s = None).
  { apply eq_None_not_Some. intros Hs. apply Hfr in Hs. lia. }
  unfold handle, onConnection.
  set (s1 := mkServer (connectionBuckets_ s) (<[next_entry s := c]> (entries s)) (S (next_entry s)) (context s) ({[c]} ∪ alive s)).
  destruct (insert_back_ok n (next_entry s) s1 Hlen) as (b & Eb & E). cbn [connectionBuckets_ entries next_entry context alive] in *.
  fold s1. rewrite E. rsimp. eexists. split; [done |].
  pose proof (placed_insert n (connectionBuckets_ s) b (entries s) (context s) (last_active x) (ticks x) c (next_entry s)
    (<[next_entry s := c]> (entries s)) (<[c := next_entry s]> (context s)) Hp Hlen Eb) as Hp'.
  destruct Hp' as [Hp1 Hp2].
  { intros c' t Ht. apply Hrec in Ht. lia. }
  { by rewrite lookup_insert_eq. }
  { by rewrite lookup_insert_eq. }
  { intros e' He. by rewrite lookup_insert_ne. }
  { intros c' Hne. by rewrite lookup_insert_ne. }
  { intros e' _. apply Hent_c. }
  split; cbn [connectionBuckets_ entries next_entry context alive ticks last_active known living s1].
  - by rewrite length_insert.
  - by rewrite Hal.
  - intros e [c' He]. apply lookup_insert_Some in He as [[<- _] | [_ He]]; [lia |]. specialize (Hfr e ltac:(by eexists)). lia.
  - intros c' e He. apply lookup_insert_Some in He as [[_ <-] | [_ He]]; [lia |]. specialize (Hfc _ _ He). lia.
  - intros c'. rewrite elem_of_union, elem_of_singleton, <- Hkn. destruct (decide (c' = c)) as [-> | Hne].
    + rewrite lookup_insert_eq. naive_solver.
    + rewrite lookup_insert_ne by done. naive_solver.
  - intros e c' He. apply lookup_insert_Some in He as [[<- <-] | [Hne He]]; [by rewrite lookup_insert_eq |].
    rewrite lookup_insert_ne; [by apply Hent |]. intros ->. by apply (Hent_c e).
  - intros c1 c2 e E1 E2. apply lookup_insert_Some in E1 as [[<- <-] | [_ E1]], E2 as [[<- E2] | [_ E2]]; try done.
    + specialize (Hfc _ _ E2). lia.
    + subst e. specialize (Hfc _ _ E1). lia.
    + by apply (Hinj c1 c2 e).
  - intros c'. destruct (decide (c' = c)) as [-> | Hne].
    + rewrite lookup_insert_eq. split; [intros _ | by eexists]. exists (next_entry s). by rewrite lookup_insert_eq.
    + rewrite lookup_insert_ne by done. rewrite Hlast. split; intros (e & E1); exists e.
      * rewrite lookup_insert_ne; [done |]. intros <-. congruence.
      * apply lookup_insert_Some in E1 as [[_ E1] | [_ E1]]; [congruence | done].
  - intros c' t Ht. apply lookup_insert_Some in Ht as [[_ <-] | [_ Ht]]; [lia | by apply (Hrec c')].
  - exact Hp1.
  - exact Hp2.
Qed.

Lemma received_repr n s x c msg : repr (S n) s x -> c ∈ known x ->
  exists s', handle (Received c msg) s = Ok ([Echo c msg], s')
    /\ repr (S n) s' (if decide (is_Some (last_active x !! c))
                      then mkSpec (ticks x) (<[c := ticks x]> (last_active x)) (known x) (living x) else x).
Proof.
  intros H Hc. pose proof (repr_placed _ _ _ H) as Hp. pose proof H as [Hlen Hal Hfr Hfc Hkn Hent Hinj Hlast Hrec _ _].
  apply Hkn in Hc as [e He]. unfold handle, onMessage. rewrite He.
  assert (Hone : forall e', entries s !! e' = Some c -> e' = e) by (intros e' E; apply Hent in E; congruence).
  destruct (decide (is_Some (last_active x !! c))) as [Hl | Hl].
  - pose proof Hl as [e' Hec]%Hlast. rewrite (Hone _ Hec) in Hec. rewrite bool_decide_eq_true_2 by (by eexists).
    destruct (insert_back_ok n e s Hlen) as (b & Eb & ->). rsimp. eexists. split; [done |].
    destruct (placed_insert n (connectionBuckets_ s) b (entries s) (context s) (last_active x) (ticks x) c e
      (entries s) (context s) Hp Hlen Eb) as [Hp1 Hp2]; try done.
    { intros c' t Ht. apply Hrec in Ht. lia. }
    { intros e2 Hne E2. by apply Hne, Hone. }
    split; try done; cbn [connectionBuckets_ entries next_entry context alive ticks last_active known living].
    + by rewrite length_insert.
    + intros c'. rewrite <- Hlast. destruct (decide (c' = c)) as [-> | Hne]; [rewrite lookup_insert_eq; by split | by rewrite lookup_insert_ne].
    + intros c' t Ht. apply lookup_insert_Some in Ht as [[_ <-] | [_ Ht]]; [lia | by apply (Hrec c')].
  - rewrite bool_decide_eq_false_2.
    + rsimp. by exists s.
    + intros [c' Ec]. apply Hl, Hlast. exists e. rewrite Ec. f_equal. apply (Hinj c' c e); [by apply Hent | done].
Qed.

(** The front bucket's entries that are in no other bucket are those of the
    connections last active [n] ticks ago. *)
Lemma tick_repr n s x : repr (S n) s x ->
  exists s', handle Tick s = Ok ([Shutdown (found_idle (S n) x)], s')
    /\ repr (S n) s' (mkSpec (S (ticks x)) (filter (fun kv => kv.2 + S n <> S (ticks x))%nat (last_active x)) (known x) (living x)).
Proof.
  intros [Hlen Hal Hfr Hfc Hkn Hent Hinj Hlast Hrec Hb Hi]. unfold handle, onTimer.
  destruct (connectionBuckets_ s) as [| front bs] eqn:Ebs; [done |]. cbn [length] in Hlen.
  set (dead := front ∖ ⋃ (bs ++ [∅])).
  assert (Hdead : forall e c t, entries s !! e = Some c -> last_active x !! c = Some t -> e ∈ dead <-> (t + S n = S (ticks x))%nat).
  { intros e c t Ee Et. pose proof (Hrec c t Et). destruct (Hb c t e Et (Hent _ _ Ee)) as (b & Eb & Hin).
    unfold dead. rewrite elem_of_difference, elem_of_union_list. split.
    - intros [Hf Hnot]. destruct (decide (t + S n = S (ticks x))%nat) as [| Hne]; [done |]. exfalso. apply Hnot. exists b.
      split; [| done]. apply elem_of_app. left. replace (S n - 1 - (ticks x - t))%nat with (S (n - 1 - (ticks x - t)))%nat in Eb by lia.
      cbn in Eb. by eapply list_elem_of_lookup_2.
    - intros Heq. replace (S n - 1 - (ticks x - t))%nat with 0%nat in Eb by lia. injection Eb as <-. split; [done |].
      intros (b & Hbin & Hin'). apply elem_of_app in Hbin as [Hbin | Hbin]; [| apply list_elem_of_singleton in Hbin as ->; by apply not_elem_of_empty in Hin'].
      apply list_elem_of_lookup in Hbin as (i & Ei). destruct (Hi (S i) b e Ei Hin') as (c' & t' & E1 & E2 & Hlt).
      rewrite Ee in E1. injection E1 as <-. rewrite Et in E2. injection E2 as <-. lia. }
  unfold destroy. cbn [connectionBuckets_ entries next_entry context alive].
  exists (mkServer (bs ++ [∅]) (filter (fun kv => kv.1 ∉ dead) (entries s)) (next_entry s) (context s) (alive s)).
  split; [| split; cbn [connectionBuckets_ entries next_entry context alive ticks last_active known living]].
  - rsimp. do 4 f_equal. apply set_eq. intros c. unfold found_idle. rewrite !elem_of_filter, Hal.
    rewrite elem_of_map_to_set, elem_of_dom. apply and_iff_compat_l. split.
    + intros (e & c' & Hf & ->). apply map_lookup_filter_Some in Hf as [Ee Hd]. cbn in Hd.
      destruct (proj2 (Hlast c) (ex_intro _ e Ee)) as [t Et]. exists t. apply map_lookup_filter_Some. split; [done |]. cbn. by apply (Hdead e c t).
    + intros [t Ht]. apply map_lookup_filter_Some in Ht as [Et Heq]. cbn in Heq.
      destruct (proj1 (Hlast c) (ex_intro _ t Et)) as [e Ee]. exists e, c. split; [| done]. apply map_lookup_filter_Some. split; [done |]. cbn. by apply (Hdead e c t).
  - rewrite length_app. cbn. lia.
  - done.
  - intros e [c He]. apply map_lookup_filter_Some in He as [He _]. apply Hfr. by eexists.
  - done.
  - done.
  - intros e c He. apply map_lookup_filter_Some in He as [He _]. by apply Hent.
  - done.
  - intros c. split.
    + intros [t Ht]. apply map_lookup_filter_Some in Ht as [Et Hne]. cbn in Hne. destruct (proj1 (Hlast c) (ex_intro _ t Et)) as [e Ee].
      exists e. apply map_lookup_filter_Some. split; [done |]. cbn. by rewrite (Hdead e c t).
    + intros [e He]. apply map_lookup_filter_Some in He as [Ee Hd]. cbn in Hd. destruct (proj2 (Hlast c) (ex_intro _ e Ee)) as [t Et].
      exists t. apply map_lookup_filter_Some. split; [done |]. cbn. by rewrite <- (Hdead e c t).
  - intros c t Ht. apply map_lookup_filter_Some in Ht as [Et Hne]. cbn in Hne. specialize (Hrec c t Et). lia.
  - intros c t e Ht Ec. apply map_lookup_filter_Some in Ht as [Et Hne]. cbn in Hne. pose proof (Hrec c t Et).
    destruct (Hb c t e Et Ec) as (b & Eb & Hin). exists b. split; [| done].
    replace (S n - 1 - (ticks x - t))%nat with (S (S n - 1 - (S (ticks x) - t)))%nat in Eb by lia. cbn in Eb.
    apply lookup_app_l_Some. exact Eb.
  - intros i b e Eb Hin. apply lookup_app_Some in Eb as [Eb | [Hge Eb]].
    + destruct (Hi (S i) b e Eb Hin) as (c & t & E1 & E2 & Hlt). exists c, t. pose proof (Hrec c t E2).
      assert (t + S n <> S (ticks x))%nat as Hne by lia.
      split; [apply map_lookup_filter_Some; split; [done |]; cbn; by rewrite (Hdead e c t) |].
      split; [by apply map_lookup_filter_Some |]. lia.
    + apply list_lookup_singleton_Some in Eb as [_ <-]. by apply not_elem_of_empty in Hin.
Qed.

Lemma wheel_handle_repr n e s x out x' : repr (S n) s x -> spec_handle (S n) e x = Some (out, x') ->
  exists s', handle e s = Ok (out, s') /\ repr (S n) s' x'.
Proof.
  intros H E. destruct e as [c | c | c | c msg |]; cbn [spec_handle] in E.
  - destruct (decide (c ∈ known x)) as [| Hc]; [done |]. injection E as <- <-. by apply up_repr.
  - destruct (decide (c ∈ known x)) as [Hc |]; [| done]. injection E as <- <-. apply (repr_known _ _ _ H) in Hc as [e Ee].
    exists s. unfold handle, onConnection. by rewrite Ee.
  - injection E as <- <-. eexists. split; [done |]. destruct H. split; try done. cbn. congruence.
  - destruct (decide (c ∈ known x)) as [Hc |]; [| done]. injection E as <- <-. by apply received_repr.
  - injection E as <- <-. by apply tick_repr.
Qed.

Lemma wheel_run_repr n es : forall s x out x', repr (S n) s x -> spec_run (S n) es x = Some (out, x') ->
  exists s', run es s = Ok (out, s') /\ repr (S n) s' x'.
Proof.
  induction es as [| e es IH]; intros s x out x' H E; cbn [spec_run run] in *.
  { injection E as <- <-. by exists s. }
  destruct (spec_handle (S n) e x) as [[out1 x1] |] eqn:E1; [| done]. cbn [mbind option_bind] in E.
  destruct (wheel_handle_repr n e s x out1 x1 H E1) as (s1 & -> & H1). rsimp.
  destruct (spec_run (S n) es x1) as [[out2 x2] |] eqn:E2; [| done]. cbn [mbind option_bind] in E. injection E as <- <-.
  destruct (IH s1 x1 out2 x2 H1 E2) as (s2 & -> & H2). rsimp. by exists s2.
Qed.

Lemma wheel_repr_new n : repr (S n) (EchoServer_new (S n)) spec_new.
Proof.
  split; cbn [EchoServer_new connectionBuckets_ entries next_entry context alive spec_new ticks last_active known living].
  - apply length_replicate.
  - done.
  - intros e He. rewrite lookup_empty in He. by apply is_Some_None in He.
  - intros c e He. by rewrite lookup_empty in He.
  - intros c. rewrite lookup_empty. split; [intros He; by apply is_Some_None in He | intros Hc; by apply not_elem_of_empty in Hc].
  - intros e c He. by rewrite lookup_empty in He.
  - intros c c' e He. by rewrite lookup_empty in He.
  - intros c. rewrite lookup_empty. split; [intros He; by apply is_Some_None in He | intros [e He]; by rewrite lookup_empty in He].
  - intros c t Ht. by rewrite lookup_empty in Ht.
  - intros c t e Ht. by rewrite lookup_empty in Ht.
  - intros i b e Hb. apply lookup_replicate in Hb as [-> _]. intros He. by apply not_elem_of_empty in He.
Qed.

(** C23: The timing wheel does what its specification says, whatever connections
    come, speak, close and are destroyed in whatever order: with [n] buckets
    ([n] at least 1) a connection that is still there is shut down at the
    [n]-th tick after its last activity, once, and at no other tick; every
    message is echoed; no handler fails an assertion or touches a bucket that
    is not there. *)
Theorem wheel_closes_idle n es out x :
  (1 <= n)%nat -> spec_run n es spec_new = Some (out, x) ->
  exists s, run es (EchoServer_new n) = Ok (out, s) /\ repr n s x.
Proof.
  intros Hn E. destruct n as [| n]; [lia |]. exact (wheel_run_repr n es _ spec_new out x (wheel_repr_new n) E).
Qed.

(** Three seconds: connection 1 speaks once and is idle, connection 2 closes. *)
Definition demo_events : list event :=
  [Up 1; Tick; Up 2; Received 1 (bs "x"); Tick; Down 2; Gone 2; Tick; Tick; Received 1 (bs "y"); Tick; Tick; Tick].

Lemma wheel_closes_idle_witness :
  (exists x, spec_run 3 demo_events spec_new
   = Some ([Shutdown ∅; Echo 1 (bs "x"); Shutdown ∅; Shutdown ∅; Shutdown {[1]}; Echo 1 (bs "y"); Shutdown ∅; Shutdown ∅; Shutdown ∅], x))
  /\ exists x s, run demo_events (EchoServer_new 3)
       = Ok ([Shutdown ∅; Echo 1 (bs "x"); Shutdown ∅; Shutdown ∅; Shutdown {[1]}; Echo 1 (bs "y"); Shutdown ∅; Shutdown ∅; Shutdown ∅], s)
       /\ repr 3 s x.
Proof.
  assert (H : exists x, spec_run 3 demo_events spec_new
    = Some ([Shutdown ∅; Echo 1 (bs "x"); Shutdown ∅; Shutdown ∅; Shutdown {[1]}; Echo 1 (bs "y"); Shutdown ∅; Shutdown ∅; Shutdown ∅], x))
    by (eexists; vm_compute; reflexivity).
  split; [exact H |]. destruct H as [x Hx]. exists x. apply (wheel_closes_idle 3 demo_events); [lia | exact Hx].
Defined.
