(* ===== verification/IdleList.v ===== *)
(** * IdleList: [examples/idleconnection/sortedlist.cc]

    The echo server that closes idle connections with a list of connections
    in the order of their last activity, which its timer reads from the front
    up to the first connection that is not idle. *)
From stdpp Require Import sorting.
From S2P Require Import Prelude Timestamp.
From Stdlib Require Import Sorting.Sorted Floats.SpecFloat.

(** An iterator of the list is the number of its node; numbers are not used
    again.  The list has a [weak_ptr] to the connection of each node. *)
(*@ muduo/examples/idleconnection/sortedlist.cc 39-45 EchoServer::Node *)
Record Node := mkNode { lastReceiveTime : Z; position : nat }.

(** [context]: the node in the context of a connection; [alive]: the
    connections to which somebody holds a [TcpConnectionPtr]. *)
(*@ muduo/examples/idleconnection/sortedlist.cc 48-56 EchoServer *)
Record EchoServer := mkServer {
  idleSeconds_ : Z;
  connectionList_ : list (nat * Z);
  next_node : nat;
  context : gmap Z Node;
  alive : gset Z
}.

(*@ muduo/examples/idleconnection/sortedlist.cc 58-73 EchoServer::EchoServer *)
Definition EchoServer_new (idleSeconds : Z) : EchoServer := mkServer idleSeconds [] 0 ∅ ∅.

(** [connectionList_.erase(position)]: the iterator must be valid. *)
Definition erase (p : nat) (l : list (nat * Z)) : res (list (nat * Z)) :=
  if decide (p ∈ map fst l) then mret (filter (fun x => x.1 <> p) l) else Err BadAccess.

(** [now] is [Timestamp::now()]. *)
(*@ muduo/examples/idleconnection/sortedlist.cc 76-110 EchoServer::onConnection *)
Definition onConnection (conn : Z) (connected : bool) (now : Z) (s : EchoServer) : res EchoServer :=
  if connected
  then
    let node := mkNode now (next_node s) in
    mret (mkServer (idleSeconds_ s) (connectionList_ s ++ [(next_node s, conn)]) (S (next_node s))
            (<[conn := node]> (context s)) (alive s))
  else
    match context s !! conn with
    | None => Err AssertFail
    | Some node =>
        l ← erase (position node) (connectionList_ s);
        mret (mkServer (idleSeconds_ s) l (next_node s) (context s) (alive s))
    end.

(*@ muduo/examples/idleconnection/sortedlist.cc 113-142 EchoServer::onMessage *)
Definition onMessage (conn : Z) (msg : list byte) (time : Z) (s : EchoServer) : res (list byte * EchoServer) :=
  match context s !! conn with
  | None => Err AssertFail
  | Some node =>
      l ← erase (position node) (connectionList_ s);
      mret (msg, mkServer (idleSeconds_ s) (l ++ [(next_node s, conn)]) (S (next_node s))
                   (<[conn := mkNode time (next_node s)]> (context s)) (alive s))
  end.

(** [age > idleSeconds_] and [age < 0]. *)
Definition expired (idleSeconds now t : Z) : bool := dbl_lt (dbl_of_Z idleSeconds) (timeDifference now t).
Definition in_future (now t : Z) : bool := dbl_lt (timeDifference now t) (dbl_of_Z 0).

(** The loop: the connections it shuts down, what is left of the list, and
    the contexts. *)
Fixpoint onTimer_loop (idleSeconds now : Z) (l : list (nat * Z)) (context : gmap Z Node) (alive : gset Z) :
    res (list Z * list (nat * Z) * gmap Z Node) :=
  match l with
  | [] => mret ([], [], context)
  | (p, conn) :: l =>
      if decide (conn ∈ alive)
      then
        match context !! conn with
        | None => Err BadAccess
        | Some n =>
            if expired idleSeconds now (lastReceiveTime n)
            then '(shut, l, context) ← onTimer_loop idleSeconds now l context alive; mret (conn :: shut, (p, conn) :: l, context)
            else if in_future now (lastReceiveTime n)
            then '(shut, l, context) ← onTimer_loop idleSeconds now l (<[conn := mkNode now (position n)]> context) alive;
                 mret (shut, (p, conn) :: l, context)
            else mret ([], (p, conn) :: l, context)
        end
      else onTimer_loop idleSeconds now l context alive
  end.

(*@ muduo/examples/idleconnection/sortedlist.cc 145-187 EchoServer::onTimer *)
Definition onTimer (now : Z) (s : EchoServer) : res (list Z * EchoServer) :=
  '(shut, l, context) ← onTimer_loop (idleSeconds_ s) now (connectionList_ s) (context s) (alive s);
  mret (shut, mkServer (idleSeconds_ s) l (next_node s) context (alive s)).

(** ** Runs *)

Inductive event : Type :=
| Up (conn : Z) (now : Z)
| Down (conn : Z)
| Gone (conn : Z)
| Received (conn : Z) (msg : list byte) (time : Z)
| Tick (now : Z).

Inductive effect : Type :=
| Echo (conn : Z) (msg : list byte)
| Shutdown (conns : gset Z).

Definition handle (e : event) (s : EchoServer) : res (list effect * EchoServer) :=
  match e with
  | Up c now =>
      s ← onConnection c true now (mkServer (idleSeconds_ s) (connectionList_ s) (next_node s) (context s) ({[c]} ∪ alive s));
      mret ([], s)
  | Down c => s ← onConnection c false 0 s; mret ([], s)
  | Gone c => mret ([], mkServer (idleSeconds_ s) (connectionList_ s) (next_node s) (context s) (alive s ∖ {[c]}))
  | Received c msg time => '(echo, s) ← onMessage c msg time s; mret ([Echo c echo], s)
  | Tick now => '(conns, s) ← onTimer now s; mret ([Shutdown (list_to_set conns)], s)
  end.

Fixpoint run (es : list event) (s : EchoServer) : res (list effect * EchoServer) :=
  match es with
  | [] => mret ([], s)
  | e :: es => '(out, s) ← handle e s; '(out', s) ← run es s; mret (out ++ out', s)
  end.

(** ** What the list is for

    The specification remembers the time of the last activity of every open
    connection and at a tick looks at all of them. *)
Record idle_spec := mkSpec {
  clock : Z;
  last_active : gmap Z Z;
  known : gset Z
}.
Definition spec_new : idle_spec := mkSpec 0 ∅ ∅.

(** [None]: not something that happens to a server.  The times of the events
    do not decrease; a connection is destroyed after it was closed. *)
Definition spec_handle (idleSeconds : Z) (e : event) (x : idle_spec) : option (list effect * idle_spec) :=
  match e with
  | Up c now =>
      if decide (c ∉ known x /\ clock x <= now)
      then Some ([], mkSpec now (<[c := now]> (last_active x)) ({[c]} ∪ known x)) else None
  | Down c => if decide (is_Some (last_active x !! c)) then Some ([], mkSpec (clock x) (delete c (last_active x)) (known x)) else None
  | Gone c => if decide (last_active x !! c = None) then Some ([], x) else None
  | Received c msg time =>
      if decide (is_Some (last_active x !! c) /\ clock x <= time)
      then Some ([Echo c msg], mkSpec time (<[c := time]> (last_active x)) (known x)) else None
  | Tick now =>
      if decide (clock x <= now)
      then Some ([Shutdown (dom (filter (fun kv => expired idleSeconds now kv.2 = true) (last_active x)))],
                 mkSpec now (last_active x) (known x))
      else None
  end.

Fixpoint spec_run (idleSeconds : Z) (es : list event) (x : idle_spec) : option (list effect * idle_spec) :=
  match es with
  | [] => Some ([], x)
  | e :: es => x1 ← spec_handle idleSeconds e x; x2 ← spec_run idleSeconds es x1.2; Some (x1.1 ++ x2.1, x2.2)
  end.

(** ** The invariant *)

(** Of two nodes the first one has the connection that was active earlier. *)
Definition time_of (x : idle_spec) (nc : nat * Z) : Z := default 0 (last_active x !! nc.2).

Record repr (idleSeconds : Z) (s : EchoServer) (x : idle_spec) : Prop := {
  repr_idle : idleSeconds_ s = idleSeconds;
  repr_known c : is_Some (context s !! c) -> c ∈ known x;
  repr_open c t : last_active x !! c = Some t ->
    c ∈ alive s /\ t <= clock x /\ exists p, context s !! c = Some (mkNode t p) /\ (p, c) ∈ connectionList_ s;
  repr_node p c : (p, c) ∈ connectionList_ s ->
    (p < next_node s)%nat /\ exists t, last_active x !! c = Some t /\ context s !! c = Some (mkNode t p);
  repr_nodup : NoDup (map fst (connectionList_ s));
  repr_sorted : StronglySorted (fun a b => time_of x a <= time_of x b) (connectionList_ s)
}.

(** ** Times *)

Definition nonneg (x : double) : bool :=
  match x with S754_infinity s | S754_finite s _ _ => negb s | _ => true end.

Lemma nonneg_round m e l : nonneg (binary_round_aux 53 1024 false m e l) = true.
Proof.
  unfold binary_round_aux. destruct (shr_fexp 53 1024 m e l) as [mrs e']. destruct (shr_fexp _ _ _ _ _) as [mrs' e''].
  destruct (shr_m mrs') as [| p | p]; [done | | done]. by destruct (_ <=? _).
Qed.

Lemma nonneg_of_Z d : 0 <= d -> nonneg (dbl_of_Z d) = true.
Proof.
  intros Hd. unfold dbl_of_Z, binary_normalize. destruct d as [| d | d]; [done | | lia].
  unfold binary_round. destruct (shl_align _ _ _) as [mz ez]. apply nonneg_round.
Qed.

Lemma nonneg_div x : nonneg x = true -> nonneg (dbl_div x (dbl_of_Z kMicroSecondsPerSecond)) = true.
Proof.
  intros Hx. change (dbl_of_Z kMicroSecondsPerSecond) with (S754_finite false 8589934592000000 (-33)).
  unfold dbl_div, SFdiv. destruct x as [s | s | | s m e]; try done; cbn [nonneg] in Hx; destruct s; try done.
  cbn [xorb]. destruct (SFdiv_core_binary _ _ _ _ _ _) as [[mz ez] lz]. apply nonneg_round.
Qed.

(** A time that is not later than [now] is not in the future. *)
Lemma not_in_future now t : 0 <= t <= now -> now < 2 ^ 63 -> in_future now t = false.
Proof.
  intros Ht Hn. unfold in_future, timeDifference. rewrite s64_small by lia.
  pose proof (nonneg_div _ (nonneg_of_Z (now - t) ltac:(lia))) as H. change (dbl_of_Z 0) with (S754_zero false).
  unfold dbl_lt, SFltb. by destruct (dbl_div _ _) as [[] | [] | | [] m e].
Qed.

(** ** The loop of the timer *)

(** Rounding is monotone at the times [ts]: of two times the earlier one is
    not less expired. *)
Definition monotone_at (idleSeconds : Z) (ts : list Z) : Prop :=
  Forall (fun now => Forall (fun a => Forall (fun b =>
    a <= b -> b <= now -> expired idleSeconds now b = true -> expired idleSeconds now a = true) ts) ts) ts.

Section timer.
Context (idleSeconds : Z) (ts : list Z).
Hypothesis ts_mono : monotone_at idleSeconds ts.
Hypothesis ts_range : Forall (fun t => 0 <= t < 2 ^ 63) ts.

Lemma mono now a b : now ∈ ts -> a ∈ ts -> b ∈ ts -> a <= b -> b <= now ->
  expired idleSeconds now b = true -> expired idleSeconds now a = true.
Proof using ts_mono.
  intros Hn Ha Hb. unfold monotone_at in ts_mono. rewrite Forall_forall in ts_mono. specialize (ts_mono now Hn).
  cbn beta in ts_mono. rewrite Forall_forall in ts_mono. specialize (ts_mono a Ha). cbn beta in ts_mono.
  rewrite Forall_forall in ts_mono. exact (ts_mono b Hb).
Qed.

(** The break at the first connection that is not idle leaves out none. *)
Lemma onTimer_loop_ok now (last : Z -> Z) ctx al l :
  now ∈ ts -> (forall p c, (p, c) ∈ l -> c ∈ al /\ last c ∈ ts /\ last c <= now /\ ctx !! c = Some (mkNode (last c) p)) ->
  StronglySorted (fun a b => last a.2 <= last b.2) l ->
  exists shut, onTimer_loop idleSeconds now l ctx al = Ok (shut, l, ctx)
    /\ forall c, c ∈ shut <-> (exists p, (p, c) ∈ l) /\ expired idleSeconds now (last c) = true.
Proof using ts_mono ts_range.
  intros Hnow. induction l as [| [p c] l IH]; intros Hl Hs; cbn [onTimer_loop].
  { exists []. split; [done |]. intros c. split; [by inversion 1 | intros [[p Hp] _]; inversion Hp]. }
  apply StronglySorted_cons in Hs as [Hf Hs]. destruct (Hl p c ltac:(by left)) as (Hal & Hts & Hle & Ec).
  rewrite decide_True by done. rewrite Ec. cbn [lastReceiveTime position].
  rewrite Forall_forall in ts_range. pose proof (ts_range _ Hts) as Hr1. pose proof (ts_range _ Hnow) as Hr2. cbn beta in *.
  destruct (expired idleSeconds now (last c)) eqn:Ex.
  - destruct (IH ltac:(intros; apply Hl; by right) Hs) as (shut & -> & Hshut). rsimp. exists (c :: shut). split; [done |].
    intros c'. rewrite elem_of_cons, Hshut. split.
    + intros [-> | [[p' Hp'] Hx]]; [split; [exists p; by left | done] | split; [exists p'; by right | done]].
    + intros [[p' Hp'] Hx]. apply elem_of_cons in Hp' as [[= -> ->] | Hp']; [by left | right; by eauto].
  - rewrite not_in_future by lia. exists []. split; [done |]. intros c'. split; [by inversion 1 |].
    intros [[p' Hp'] Hx]. apply elem_of_cons in Hp' as [[= -> ->] | Hp']; [congruence |].
    rewrite Forall_forall in Hf. pose proof (Hf _ Hp') as Hlt. cbn in Hlt.
    destruct (Hl p' c' ltac:(by right)) as (_ & Hts' & Hle' & _).
    rewrite (mono now (last c) (last c')) in Ex by done. done.
Qed.

(** ** The handlers *)

Definition times (e : event) : list Z :=
  match e with Up _ now => [now] | Received _ _ time => [time] | Tick now => [now] | _ => [] end.

Definition recorded (x : idle_spec) : Prop := forall c t, last_active x !! c = Some t -> t ∈ ts.

(** A node per connection. *)
Lemma list_same_node s x p p' c : repr idleSeconds s x -> (p, c) ∈ connectionList_ s -> (p', c) ∈ connectionList_ s -> p = p'.
Proof using Type.
  intros H H1 H2. apply (repr_node _ _ _ H) in H1 as (_ & t1 & _ & E1). apply (repr_node _ _ _ H) in H2 as (_ & t2 & _ & E2). congruence.
Qed.

Lemma erase_ok p c l : (p, c) ∈ l -> erase p l = Ok (filter (fun x => x.1 <> p) l).
Proof using Type. intros H. unfold erase. rewrite decide_True; [done |]. apply list_elem_of_fmap. by exists (p, c). Qed.

Lemma sorted_filter {A} (R : A -> A -> Prop) (P : A -> Prop) `{!forall x, Decision (P x)} l :
  StronglySorted R l -> StronglySorted R (filter P l).
Proof using Type.
  induction 1 as [| a l Hs IH Hf]; [constructor |]. rewrite filter_cons. case_decide; [| done].
  constructor; [done |]. rewrite Forall_forall in *. intros y [_ Hy]%list_elem_of_filter. by apply Hf.
Qed.

Lemma sorted_ext {A} (R R' : A -> A -> Prop) l :
  (forall a b, a ∈ l -> b ∈ l -> R a b -> R' a b) -> StronglySorted R l -> StronglySorted R' l.
Proof using Type.
  intros H. induction 1 as [| a l Hs IH Hf]; constructor.
  - apply IH. intros a' b Ha Hb. apply H; by right.
  - rewrite Forall_forall in *. intros y Hy. apply H; [by left | by right | by apply Hf].
Qed.

Lemma nodup_filter_fst (l : list (nat * Z)) p : NoDup (map fst l) -> NoDup (map fst (filter (fun x => x.1 <> p) l)).
Proof using Type.
  induction l as [| [q c] l IH]; [done |]. cbn [map fst]. intros [Hq Hn]%NoDup_cons. rewrite filter_cons. case_decide; [| by apply IH].
  cbn [map fst]. constructor; [| by apply IH]. intros Hin. apply Hq. apply list_elem_of_fmap in Hin as ([q' c'] & Hq' & [_ Hin]%list_elem_of_filter).
  apply list_elem_of_fmap. by exists (q', c').
Qed.

Lemma nodup_fst (l : list (nat * Z)) p c c' : NoDup (map fst l) -> (p, c) ∈ l -> (p, c') ∈ l -> c = c'.
Proof using Type.
  induction l as [| [q d] l IH]; [by inversion 2 |]. cbn [map fst]. intros [Hq Hnd]%NoDup_cons H1 H2.
  assert (Hno : forall c0, (q, c0) ∉ l) by (intros c0 Hc; apply Hq, list_elem_of_fmap; by exists (q, c0)).
  apply elem_of_cons in H1 as [[= -> ->] | H1], H2 as [[= E2] | H2]; try done.
  - by destruct (Hno c').
  - subst. by destruct (Hno c).
  - by apply IH.
Qed.

(** The connection moves, or comes, to the back of the list. *)
Lemma back_repr s x c l now al kn :
  repr idleSeconds s x -> clock x <= now ->
  (forall p c', (p, c') ∈ l <-> (p, c') ∈ connectionList_ s /\ c' <> c) ->
  NoDup (map fst l) -> StronglySorted (fun a b => time_of x a <= time_of x b) l ->
  c ∈ al -> (forall c', c' ∈ alive s -> c' ∈ al) -> (forall c', c' ∈ known x -> c' ∈ kn) -> c ∈ kn ->
  repr idleSeconds
    (mkServer (idleSeconds_ s) (l ++ [(next_node s, c)]) (S (next_node s)) (<[c := mkNode now (next_node s)]> (context s)) al)
    (mkSpec now (<[c := now]> (last_active x)) kn).
Proof using Type.
  intros H Hnow Hl Hnd Hs Hal Hals Hkn Hc.
  assert (Hfresh : forall p c', (p, c') ∈ l -> (p < next_node s)%nat).
  { intros p c' Hin. apply Hl in Hin as [Hin _]. by apply (repr_node _ _ _ H) in Hin as [Hlt _]. }
  split; cbn [idleSeconds_ connectionList_ next_node context alive clock last_active known].
  - apply (repr_idle _ _ _ H).
  - intros c' [n E]. apply lookup_insert_Some in E as [[<- _] | [_ E]]; [done | apply Hkn, (repr_known _ _ _ H); by eexists].
  - intros c' t E. apply lookup_insert_Some in E as [[<- <-] | [Hne E]].
    + split; [done |]. split; [lia |]. exists (next_node s). rewrite lookup_insert_eq. split; [done |]. apply elem_of_app. right. by left.
    + destruct (repr_open _ _ _ H c' t E) as (H1 & H2 & p & H3 & H4). split; [by apply Hals |]. split; [lia |]. exists p.
      rewrite lookup_insert_ne by done. split; [done |]. apply elem_of_app. left. by apply Hl.
  - intros p c' Hin. apply elem_of_app in Hin as [Hin | Hin].
    + pose proof (Hfresh _ _ Hin). apply Hl in Hin as [Hin Hne]. destruct (repr_node _ _ _ H p c' Hin) as (_ & t & E1 & E2).
      split; [lia |]. exists t. by rewrite !lookup_insert_ne.
    + apply list_elem_of_singleton in Hin as [= -> ->]. split; [lia |]. exists now. by rewrite !lookup_insert_eq.
  - rewrite map_app. apply NoDup_app. split; [done |]. split; [| cbn; apply NoDup_singleton].
    intros p Hp Hp'. cbn in Hp'. apply list_elem_of_singleton in Hp' as ->.
    apply list_elem_of_fmap in Hp as ([q c'] & Hq & Hin). cbn in Hq. subst q. specialize (Hfresh _ _ Hin). lia.
  - assert (Htime : forall a, a ∈ l -> time_of (mkSpec now (<[c := now]> (last_active x)) kn) a = time_of x a /\ time_of x a <= now).
    { intros [p c'] Hin. apply Hl in Hin as [Hin Hne]. unfold time_of. cbn. rewrite lookup_insert_ne by done. split; [done |].
      destruct (repr_node _ _ _ H p c' Hin) as (_ & t & E1 & _). rewrite E1. cbn. destruct (repr_open _ _ _ H c' t E1) as (_ & Ht & _). lia. }
    apply StronglySorted_app. split; [| split; [| by repeat constructor]].
    + intros a b Ha Hb. apply list_elem_of_singleton in Hb as ->. destruct (Htime a Ha) as [-> Hle].
      unfold time_of at 2. cbn [last_active snd]. by rewrite lookup_insert_eq.
    + apply (sorted_ext (fun a b => time_of x a <= time_of x b)); [| done]. intros a b Ha Hb Hab.
      destruct (Htime a Ha) as [-> _], (Htime b Hb) as [-> _]. done.
Qed.

Lemma up_list_repr c now s x out x' :
  repr idleSeconds s x -> recorded x -> Forall (fun t => t ∈ ts) (times (Up c now)) ->
  spec_handle idleSeconds (Up c now) x = Some (out, x') ->
  exists s', handle (Up c now) s = Ok (out, s') /\ repr idleSeconds s' x' /\ recorded x'.
Proof using ts_mono ts_range.
  intros H Hrec Ht E. cbn [spec_handle times] in *.
  case_decide as Hd; [| done]. destruct Hd as [Hc Hnow]. injection E as <- <-. apply Forall_cons in Ht as [Ht _].
  eexists. split; [reflexivity |]. split.
  - apply (back_repr s x c (connectionList_ s) now); [done.. | | | | set_solver | set_solver | set_solver | set_solver].
    + intros p c'. split; [| by intros []]. intros Hin. split; [done |]. intros ->.
      apply (repr_node _ _ _ H) in Hin as (_ & t & _ & E). apply Hc, (repr_known _ _ _ H). by eexists.
    + apply (repr_nodup _ _ _ H).
    + apply (repr_sorted _ _ _ H).
  - intros c' t E. cbn [last_active] in E. apply lookup_insert_Some in E as [[_ <-] | [_ E]]; [done | by apply (Hrec c')].
Qed.
Lemma down_list_repr c s x out x' :
  repr idleSeconds s x -> recorded x -> Forall (fun t => t ∈ ts) (times (Down c)) ->
  spec_handle idleSeconds (Down c) x = Some (out, x') ->
  exists s', handle (Down c) s = Ok (out, s') /\ repr idleSeconds s' x' /\ recorded x'.
Proof using ts_mono ts_range.
  intros H Hrec Ht E. cbn [spec_handle times] in *.
  case_decide as Hd; [| done]. destruct Hd as [t Ec]. injection E as <- <-.
  destruct (repr_open _ _ _ H c t Ec) as (_ & _ & p & Ep & Hin).
  unfold handle, onConnection. rewrite Ep. cbn [position]. rewrite (erase_ok p c) by done. rsimp. eexists. split; [reflexivity |].
  assert (Hf : forall p' c', (p', c') ∈ filter (fun x => x.1 <> p) (connectionList_ s) -> (p', c') ∈ connectionList_ s /\ c' <> c).
  { intros p' c' [Hp' Hin']%list_elem_of_filter. split; [done |]. intros ->. by apply Hp', (list_same_node s x p' p c). }
  split; [| intros c' t' E; cbn [last_active] in E; apply lookup_delete_Some in E as [_ E]; by apply (Hrec c')].
  split; cbn [idleSeconds_ connectionList_ next_node context alive clock last_active known].
  - apply (repr_idle _ _ _ H).
  - apply (repr_known _ _ _ H).
  - intros c' t' E. apply lookup_delete_Some in E as [Hne E]. destruct (repr_open _ _ _ H c' t' E) as (H1 & H2 & p' & H3 & H4).
    split; [done |]. split; [done |]. exists p'. split; [done |]. apply list_elem_of_filter. split; [| done].
    cbn. intros ->. apply Hne. by rewrite (nodup_fst _ p c c' (repr_nodup _ _ _ H) Hin H4).
  - intros p' c' Hin'. destruct (Hf _ _ Hin') as [Hin2 Hne]. destruct (repr_node _ _ _ H p' c' Hin2) as (Hlt & t' & E1 & E2).
    split; [done |]. exists t'. by rewrite lookup_delete_ne.
  - apply nodup_filter_fst, (repr_nodup _ _ _ H).
  - apply (sorted_ext (fun a b => time_of x a <= time_of x b)); [| by apply sorted_filter, (repr_sorted _ _ _ H)].
    intros [pa ca] [pb cb] Ha Hb. destruct (Hf _ _ Ha) as [_ Hna], (Hf _ _ Hb) as [_ Hnb].
    unfold time_of. cbn. by rewrite !lookup_delete_ne.
Qed.
Lemma gone_list_repr c s x out x' :
  repr idleSeconds s x -> recorded x -> Forall (fun t => t ∈ ts) (times (Gone c)) ->
  spec_handle idleSeconds (Gone c) x = Some (out, x') ->
  exists s', handle (Gone c) s = Ok (out, s') /\ repr idleSeconds s' x' /\ recorded x'.
Proof using ts_mono ts_range.
  intros H Hrec Ht E. cbn [spec_handle times] in *.
  case_decide as Hd; [| done]. injection E as <- <-. eexists. split; [reflexivity |]. split; [| done].
  destruct H as [H1 H2 H3 H4 H5 H6]. split; try done. cbn [alive connectionList_ context].
  intros c' t E. destruct (H3 c' t E) as (Ha & Hr). split; [| done]. apply elem_of_difference. split; [done |].
  intros Hcc%elem_of_singleton. congruence.
Qed.
Lemma received_list_repr c msg now s x out x' :
  repr idleSeconds s x -> recorded x -> Forall (fun t => t ∈ ts) (times (Received c msg now)) ->
  spec_handle idleSeconds (Received c msg now) x = Some (out, x') ->
  exists s', handle (Received c msg now) s = Ok (out, s') /\ repr idleSeconds s' x' /\ recorded x'.
Proof using ts_mono ts_range.
  intros H Hrec Ht E. cbn [spec_handle times] in *.
  case_decide as Hd; [| done]. destruct Hd as [[t Ec] Hnow]. injection E as <- <-. apply Forall_cons in Ht as [Ht _].
  destruct (repr_open _ _ _ H c t Ec) as (Hal & _ & p & Ep & Hin).
  unfold handle, onMessage. rewrite Ep. cbn [position]. rewrite (erase_ok p c) by done. rsimp. eexists. split; [reflexivity |]. split.
  - apply back_repr; try done.
    + intros p' c'. rewrite list_elem_of_filter. cbn. split.
      * intros [Hp' Hin']. split; [done |]. intros ->. by apply Hp', (list_same_node s x p' p c).
      * intros [Hin' Hne]. split; [| done]. intros ->. apply Hne.
         by rewrite (nodup_fst _ p c c' (repr_nodup _ _ _ H) Hin Hin').
    + apply nodup_filter_fst, (repr_nodup _ _ _ H).
    + apply sorted_filter, (repr_sorted _ _ _ H).
    + apply (repr_known _ _ _ H). by eexists.
  - intros c' t' E. cbn [last_active] in E. apply lookup_insert_Some in E as [[_ <-] | [_ E]]; [done | by apply (Hrec c')].
Qed.
Lemma tick_list_repr now s x out x' :
  repr idleSeconds s x -> recorded x -> Forall (fun t => t ∈ ts) (times (Tick now)) ->
  spec_handle idleSeconds (Tick now) x = Some (out, x') ->
  exists s', handle (Tick now) s = Ok (out, s') /\ repr idleSeconds s' x' /\ recorded x'.
Proof using ts_mono ts_range.
  intros H Hrec Ht E. cbn [spec_handle times] in *.
  case_decide as Hnow; [| done]. injection E as <- <-. apply Forall_cons in Ht as [Ht _].
  destruct (onTimer_loop_ok now (fun c => default 0 (last_active x !! c)) (context s) (alive s) (connectionList_ s))
    as (shut & El & Hshut); [done | | exact (repr_sorted _ _ _ H) |].
  { intros p c Hin. destruct (repr_node _ _ _ H p c Hin) as (_ & t & E1 & E2). rewrite E1. cbn.
    destruct (repr_open _ _ _ H c t E1) as (Hal & Hle & _). split_and!; [done | by apply (Hrec c) | lia | done]. }
  unfold handle, onTimer. rewrite (repr_idle _ _ _ H), El. rsimp. eexists. split; [| split; [| exact Hrec]].
  - do 4 f_equal. apply set_eq. intros c. rewrite elem_of_list_to_set, Hshut, elem_of_dom. split.
    + intros [[p Hin] Hx]. destruct (repr_node _ _ _ H p c Hin) as (_ & t & E1 & _). rewrite E1 in Hx. exists t.
      by apply map_lookup_filter_Some.
    + intros [t Hf]. apply map_lookup_filter_Some in Hf as [E1 Hx]. rewrite E1. cbn in *.
      destruct (repr_open _ _ _ H c t E1) as (_ & _ & p & _ & Hin). split; [by exists p | done].
  - destruct H as [H1 H2 H3 H4 H5 H6]. split; try done. cbn. intros c t E. destruct (H3 c t E) as (Ha & Hle & Hp). split; [done |]. split; [lia | done].
Qed.
Lemma list_handle_repr e s x out x' :
  repr idleSeconds s x -> recorded x -> Forall (fun t => t ∈ ts) (times e) -> spec_handle idleSeconds e x = Some (out, x') ->
  exists s', handle e s = Ok (out, s') /\ repr idleSeconds s' x' /\ recorded x'.
Proof using ts_mono ts_range.
  intros H Hrec Ht E. destruct e as [c now | c | c | c msg now | now].
  - by apply (up_list_repr c now s x).
  - by apply (down_list_repr c s x).
  - by apply (gone_list_repr c s x).
  - by apply (received_list_repr c msg now s x).
  - by apply (tick_list_repr now s x).
Qed.

Lemma list_repr_new : repr idleSeconds (EchoServer_new idleSeconds) spec_new.
Proof using Type.
  split; cbn.
  - done.
  - intros c Hc. rewrite lookup_empty in Hc. by apply is_Some_None in Hc.
  - intros c t E. by rewrite lookup_empty in E.
  - intros p c Hin. by inversion Hin.
  - constructor.
  - constructor.
Qed.

Lemma list_run_repr es : forall s x out x',
  repr idleSeconds s x -> recorded x -> Forall (fun t => t ∈ ts) (mjoin (map times es)) ->
  spec_run idleSeconds es x = Some (out, x') -> exists s', run es s = Ok (out, s') /\ repr idleSeconds s' x'.
Proof using ts_mono ts_range.
  induction es as [| e es IH]; intros s x out x' H Hrec Ht E; cbn [spec_run run] in *.
  { injection E as <- <-. by exists s. }
  change (mjoin (map times (e :: es))) with (times e ++ mjoin (map times es)) in Ht. apply Forall_app in Ht as [Ht1 Ht2].
  destruct (spec_handle idleSeconds e x) as [[out1 x1] |] eqn:E1; [| done]. cbn [mbind option_bind fst snd] in E.
  destruct (list_handle_repr e s x out1 x1 H Hrec Ht1 E1) as (s1 & -> & H1 & Hrec1). rsimp.
  destruct (spec_run idleSeconds es x1) as [[out2 x2] |] eqn:E2; [| done]. cbn [mbind option_bind fst snd] in E. injection E as <- <-.
  destruct (IH s1 x1 out2 x2 H1 Hrec1 Ht2 E2) as (s2 & -> & H2). rsimp. by exists s2.
Qed.
End timer.

(** C24: Stopping at the first connection that is not idle is enough: whatever
    connections come, speak, close and are destroyed, with times that do not
    decrease, the list is in the order of the last activity, every tick shuts
    down exactly the open connections that were silent for more than the idle
    time (as the code computes it, in floating point, with rounding that keeps
    the order of the times at hand), every message is echoed, and no handler
    fails an assertion or uses an iterator that is not valid. *)
Theorem sorted_list_closes_idle idleSeconds es out x :
  Forall (fun t => 0 <= t < 2 ^ 63) (mjoin (map times es)) -> monotone_at idleSeconds (mjoin (map times es)) ->
  spec_run idleSeconds es spec_new = Some (out, x) ->
  exists s, run es (EchoServer_new idleSeconds) = Ok (out, s) /\ repr idleSeconds s x.
Proof.
  intros Hr Hm E. apply (list_run_repr idleSeconds (mjoin (map times es)) Hm Hr es _ spec_new); [apply list_repr_new | | by apply Forall_forall | done].
  intros c t Et. cbn in Et. by rewrite lookup_empty in Et.
Qed.

(** Ten idle seconds; connection 1 is silent from 1 s on. *)
Definition demo_events : list event :=
  [Up 1 500000; Up 2 600000; Received 1 (bs "x") 1000000; Received 2 (bs "y") 5500000; Tick 11000000; Tick 11000001;
   Down 1; Gone 1; Tick 12000000; Tick 15500001].

Lemma sorted_list_closes_idle_witness :
  exists x s, run demo_events (EchoServer_new 10)
       = Ok ([Echo 1 (bs "x"); Echo 2 (bs "y"); Shutdown ∅; Shutdown {[1]}; Shutdown ∅; Shutdown {[2]}], s)
       /\ repr 10 s x.
Proof.
  assert (H : exists x, spec_run 10 demo_events spec_new
    = Some ([Echo 1 (bs "x"); Echo 2 (bs "y"); Shutdown ∅; Shutdown {[1]}; Shutdown ∅; Shutdown {[2]}], x))
    by (eexists; vm_compute; reflexivity).
  destruct H as [x Hx]. exists x. apply (sorted_list_closes_idle 10 demo_events); [by_evaluation | by_evaluation | exact Hx].
Defined.
