(* ===== verification/RpcCodec.v ===== *)
(** * RpcCodec: [muduo/net/protorpc/RpcCodec.h] and [RpcCodec.cc]

    Frames of a length, a tag, a protobuf message and a checksum. *)
From S2P Require Import Prelude Endian Buffer Framing CodecLoop.

(*@ muduo/muduo/net/protorpc/RpcCodec.h 85-85 RpcCodec::kMinMessageLen *)
Definition kMinMessageLen : Z := 2 * kHeaderLen.

(** [M] is the generated class RpcMessage: [SerializeWithCachedSizesToArray]
    and [ParseFromArray]; [adler32] is zlib's, started with 1. *)
Section rpc.
Context {M : Type}.
Variables (serialize : M -> list byte) (parseFrom : list byte -> option M) (adler32 : list byte -> Z).

(** The [len] bytes after the length header. *)
(*@ muduo/muduo/net/protorpc/RpcCodec.cc 151-189 RpcCodec::parse *)
Definition parse (buf : list byte) (len : Z) : ErrorCode * option M :=
  let expectedCheckSum := asInt32 (zdrop (len - kHeaderLen) buf) in
  let checkSum := s32 (adler32 (ztake (len - kHeaderLen) buf)) in
  if checkSum =? expectedCheckSum
  then if decide (ztake kHeaderLen buf = bs "RPC0")
       then
         let data := zdrop kHeaderLen buf in
         let dataLen := len - 2 * kHeaderLen in
         match parseFrom (ztake dataLen data) with
         | Some m => (kNoError, Some m)
         | None => (kParseError, None)
         end
       else (kUnknownMessageType, None)
  else (kCheckSumError, None).

Variable errorCallback_ : ErrorCode -> Buffer -> res Buffer.

(*@ muduo/muduo/net/protorpc/RpcCodec.cc 66-98 RpcCodec::onMessage *)
Definition onMessage : Buffer -> res (list (event M) * Buffer) := codec_onMessage kMinMessageLen parse errorCallback_.

(*@ muduo/muduo/net/protorpc/RpcCodec.cc 33-64 RpcCodec::send *)
Definition send (message : M) : res (list byte) :=
  let data := serialize message in
  let byte_size := zlen data in
  buf ← append Buffer_new (bs "RPC0");
  buf ← ensureWritableBytes buf (byte_size + kHeaderLen);
  buf ← copy_to buf (beginWrite buf) data;
  let buf := hasWritten buf byte_size in
  text ← mem_read (peek buf) (peek buf + readableBytes buf) (buffer_ buf);
  let checkSum := s32 (adler32 text) in
  buf ← appendInt32 buf checkSum;
  assert_ (readableBytes buf =? kHeaderLen + byte_size + kHeaderLen);;
  let len := s32 (hostToNetwork32 (s32 (readableBytes buf))) in
  buf ← prepend buf (le_bytes 4 len);
  mem_read (peek buf) (peek buf + readableBytes buf) (buffer_ buf).

Definition next : list byte -> next_result M := codec_next kMinMessageLen parse.
Definition body (m : M) : list byte := bs "RPC0" ++ serialize m.
Definition frame (m : M) : list byte := framed adler32 (body m).
End rpc.

Lemma kMin_range : 0 < kMinMessageLen < 2 ^ 30.
Proof. by_evaluation. Qed.

#[export] Instance next_stable {M} (parseFrom : list byte -> option M) adler32 : StableNext (next parseFrom adler32).
Proof. apply codec_next_stable, kMin_range. Qed.

Lemma rpc_implements {M} (parseFrom : list byte -> option M) adler32 errorCallback_ :
  implements (next parseFrom adler32) Message
    (fun b => '(es, b) ← onMessage parseFrom adler32 errorCallback_ b; mret (es, false, b)).
Proof. apply codec_implements, kMin_range. Qed.

(** ** Round trip *)
Section roundtrip.
Context {M : Type} (serialize : M -> list byte) (parseFrom : list byte -> option M).
Context (adler32 : list byte -> Z) (errorCallback_ : ErrorCode -> Buffer -> res Buffer).
#[local] Abbreviation frame := (frame serialize adler32).
#[local] Abbreviation next := (next parseFrom adler32).

Lemma zlen_body m : zlen (body serialize m) = 4 + zlen (serialize m).
Proof using Type. unfold body. by rewrite zlen_app. Qed.

Lemma rpc_frame m k :
  parseFrom (serialize m) = Some m -> zlen (serialize m) <= kMaxMessageLen - kMinMessageLen ->
  next (frame m ++ k) = Got m k.
Proof using Type.
  intros Hp Hm. pose proof (zlen_nonneg (serialize m)). pose proof (zlen_body m) as Hl.
  unfold next, frame, kMaxMessageLen, kMinMessageLen, kHeaderLen in *.
  apply codec_next_framed; [lia | unfold kMaxMessageLen; lia |].
  unfold parse. destruct (summed_ok adler32 (body serialize m)) as [Ht Hs]. unfold kHeaderLen.
  replace (_ + 4 - 4) with (zlen (body serialize m)) by lia. rewrite Ht, Hs, Z.eqb_refl.
  replace (_ + 4 - 2 * 4) with (zlen (serialize m)) by lia. unfold summed, body. rewrite <- !app_assoc.
  rewrite ztake_app_l by done. rewrite (ztake_all 4 (bs "RPC0")) by done. rewrite decide_True by done.
  rewrite zdrop_app_r by done. change (4 - zlen (bs "RPC0")) with 0. rewrite zdrop_0.
  rewrite ztake_app_l by lia. rewrite ztake_all by lia. by rewrite Hp.
Qed.

(** [RPC0], then the serialized message in the space reserved for it. *)
Lemma send_body m b1 :
  repr {| q_bytes := bs "RPC0"; q_room := kCheapPrepend; q_cap := 1036 |} b1 ->
  zlen (serialize m) < 2 ^ 31 - 12 ->
  exists b2 b3 cap,
    ensureWritableBytes b1 (zlen (serialize m) + kHeaderLen) = Ok b2
    /\ copy_to b2 (beginWrite b2) (serialize m) = Ok b3
    /\ cap < 2 ^ 32
    /\ repr {| q_bytes := body serialize m; q_room := kCheapPrepend; q_cap := cap |}
            (hasWritten b3 (zlen (serialize m))).
Proof using Type.
  intros H Hm. pose proof (zlen_nonneg (serialize m)). unfold kHeaderLen.
  destruct (ensureWritableBytes_repr _ b1 (zlen (serialize m) + 4) H) as (b2 & E2 & H2 & W2);
    [lia | buflia |].
  destruct (copy_to_tail _ b2 (serialize m) H2) as (b3 & E3 & H3 & _); [lia |].
  cbn [q_bytes q_room q_cap] in H3.
  exists b2, b3, (1036 + (zlen (serialize m) + 4)). split_and!; [done.. | lia | exact H3].
Qed.

Lemma rpc_send_frame m :
  zlen (serialize m) < 2 ^ 31 - 12 -> send serialize adler32 m = Ok (frame m).
Proof using Type.
  intros Hm. pose proof (zlen_nonneg (serialize m)). unfold send.
  assert (Hcap : q_cap q_empty + zlen (bs "RPC0") <= vector_max_size) by by_evaluation.
  destruct (append_repr q_empty Buffer_new (bs "RPC0") _ repr_new
              (q_push_some q_empty (bs "RPC0") Hcap)) as (b1 & -> & Hb1). rsimp.
  destruct (send_body m b1 Hb1 Hm) as (b2 & b3 & cap & -> & Hcp & Hcap2 & Hb3). rsimp.
  rewrite Hcp. rsimp. set (b4 := hasWritten b3 _) in *. pose proof (zlen_body m) as Hl.
  destruct (finish_frame_ok adler32 _ _ _ Hb3 ltac:(lia) ltac:(lia)) as (b5 & b6 & E5 & Hr & E6 & E7).
  unfold finish_frame, prepend_length in *. 
  rewrite (read_all _ _ (repr_holds _ _ Hb3)) in E5 |- *. rsimp. cbn [mbind res_bind] in E5.
  rewrite E5. rsimp. rewrite Hr in *. unfold kHeaderLen. step_assert; [lia |]. rewrite E6. rsimp. exact E7.
Qed.
End roundtrip.

(** C19: What is sent with the codec is received by the codec: for protobuf
    functions that parse what they serialize, messages of up to 64 MB go
    through [send], and in whatever pieces their bytes arrive the message
    callback gets exactly these messages in this order, the error callback is
    never called, and nothing is left in the buffer. *)
Theorem rpc_roundtrip {M} serialize parseFrom adler32 errorCallback_ (ms : list M) frames chunks b :
  holds [] b ->
  Forall (fun m => parseFrom (serialize m) = Some m) ms ->
  Forall (fun m => zlen (serialize m) <= kMaxMessageLen - kMinMessageLen) ms ->
  Forall2 (fun m f => send serialize adler32 m = Ok f) ms frames ->
  Forall (fun c => zlen c < 2 ^ 62) chunks ->
  concat chunks = concat frames ->
  safe (run_chunks (fun b => '(es, b) ← onMessage parseFrom adler32 errorCallback_ b; mret (es, false, b))
                   chunks b)
    (fun '(es, _, b') => es = map Message ms /\ holds [] b').
Proof.
  intros H Hp Hm Hs Hc Heq.
  assert (Hf : frames = map (frame serialize adler32) ms).
  { clear Heq. induction Hs as [| m f ms fs Hs _ IH]; [done |]. cbn [map].
    apply Forall_cons in Hp as [_ Hp], Hm as [Hm1 Hm]. rewrite <- IH by done. f_equal.
    rewrite rpc_send_frame in Hs; [by injection Hs |].
    unfold kMaxMessageLen, kMinMessageLen, kHeaderLen in Hm1. lia. }
  rewrite Hf in Heq. rewrite Forall_forall in Hp, Hm.
  eapply safe_mono.
  - apply (run_chunks_encoded _ _ _ (rpc_implements parseFrom adler32 errorCallback_)
             (frame serialize adler32) ms); try done.
    intros m k Hin. by apply rpc_frame; [apply Hp | apply Hm].
  - by intros [[es stop] b'] (-> & _ & Hb').
Qed.

(** With the default error callback a frame that cannot be decoded (a bad
    length, checksum, tag or body) hangs the I/O thread: the callback leaves
    the frame in the buffer and the loop only stops when too few bytes are
    left, so [onMessage] does not return however long it runs. *)
Theorem rpc_bad_frame_never_returns {M} (parseFrom : list byte -> option M) adler32 l b fuel :
  holds l b -> next parseFrom adler32 l = Invalid ->
  onMessage_loop kMinMessageLen (parse parseFrom adler32) defaultErrorCallback fuel b = Err OutOfFuel.
Proof.
  apply bad_frame_loops, kMin_range.
Qed.

(** ** Concrete instances *)

(** Messages that are byte strings. *)
Definition demo_rpc : list (list byte) := [bs "request"; []; bs "response"].
Definition demo_rpc_frames : list (list byte) := map (frame (fun m => m) zlib_adler32) demo_rpc.
Definition demo_rpc_chunks : list (list byte) :=
  let s := concat demo_rpc_frames in [zslice 0 3 s; zslice 3 25 s; zdrop 25 s].

Lemma rpc_roundtrip_witness :
  safe (run_chunks (fun b => '(es, b) ← onMessage Some zlib_adler32 defaultErrorCallback b; mret (es, false, b))
                   demo_rpc_chunks Buffer_new)
    (fun '(es, _, b') => es = map Message demo_rpc /\ holds [] b').
Proof.
  apply (rpc_roundtrip (fun m => m) Some zlib_adler32 defaultErrorCallback demo_rpc demo_rpc_frames).
  - apply holds_new.
  - by_evaluation.
  - by_evaluation.
  - repeat constructor.
  - by_evaluation.
  - vm_compute. reflexivity.
Defined.

(** Twelve zero bytes. *)
Definition demo_bad : list byte := replicate 12 Byte.x00.

Lemma rpc_bad_frame_never_returns_witness :
  exists b, holds demo_bad b
    /\ onMessage_loop kMinMessageLen (parse (M := list byte) Some zlib_adler32) defaultErrorCallback 1000 b = Err OutOfFuel.
Proof.
  destruct (append_repr q_empty Buffer_new demo_bad _ repr_new
              (q_push_some q_empty demo_bad ltac:(by_evaluation))) as (b & _ & Hb).
  exists b. split; [exact (repr_holds _ _ Hb) |].
  apply (rpc_bad_frame_never_returns Some zlib_adler32 demo_bad); [exact (repr_holds _ _ Hb) |].
  vm_compute. reflexivity.
Defined.
