(* ===== verification/ProtobufCodec.v ===== *)
(** * ProtobufCodec: [examples/protobuf/codec/codec.cc], [codec.h] and [dispatcher.h]

    Messages of any protobuf type, framed with the name of their type, and the
    dispatcher that hands each received message to the callback registered for
    its type. *)
From S2P Require Import Prelude Endian Buffer Framing CodecLoop.

(*@ muduo/examples/protobuf/codec/codec.h 98-98 ProtobufCodec::kMinMessageLen *)
Definition kMinMessageLen : Z := 2 * kHeaderLen + 2.

Lemma pb_kMin_range : 0 < kMinMessageLen < 2 ^ 30.
Proof. by_evaluation. Qed.

(** The table and the callback are those of [RpcCodec], word for word. *)
(*@ muduo/examples/protobuf/codec/codec.cc 64-94 ProtobufCodec::errorCodeToString *)
Definition errorCodeToString : ErrorCode -> list byte := CodecLoop.errorCodeToString.
(*@ muduo/examples/protobuf/codec/codec.cc 96-106 ProtobufCodec::defaultErrorCallback *)
Definition defaultErrorCallback : ErrorCode -> Buffer -> res Buffer := CodecLoop.defaultErrorCallback.

(** What the codec uses of the protobuf library: [Descriptor] is a message
    type, [M] a message object. [FindMessageTypeByName] asks the generated
    pool, [GetPrototype] the generated factory; [ParseFromArray] takes the
    object it is called on, and gives its result and the object as it leaves
    it. [adler32] is zlib's, started with 1. *)
Record protobuf (Descriptor M : Type) := {
  GetDescriptor : M -> Descriptor;
  full_name : Descriptor -> list byte;
  FindMessageTypeByName : list byte -> option Descriptor;
  GetPrototype : Descriptor -> option M;
  Serialize : M -> list byte;
  ParseFromArray : M -> list byte -> bool * M;
}.
Arguments GetDescriptor {_ _} _ _.
Arguments full_name {_ _} _ _.
Arguments FindMessageTypeByName {_ _} _ _.
Arguments GetPrototype {_ _} _ _.
Arguments Serialize {_ _} _ _.
Arguments ParseFromArray {_ _} _ _ _.

Section codec.
Context {Descriptor M : Type} (lib : protobuf Descriptor M) (adler32 : list byte -> Z).

Definition GetTypeName (m : M) : list byte := full_name lib (GetDescriptor lib m).

(** [typeName.c_str()] ends with a NUL, which is sent too. *)
(*@ muduo/examples/protobuf/codec/codec.cc 22-54 ProtobufCodec::fillEmptyBuffer *)
Definition fillEmptyBuffer (buf : Buffer) (message : M) : res Buffer :=
  assert_ (readableBytes buf =? 0);;
  let typeName := GetTypeName message in
  let nameLen := s32 (zlen typeName + 1) in
  buf ← appendInt32 buf nameLen;
  buf ← append buf (typeName ++ [Byte.x00]);
  let data := Serialize lib message in
  let byte_size := zlen data in
  buf ← ensureWritableBytes buf byte_size;
  buf ← copy_to buf (beginWrite buf) data;
  let buf := hasWritten buf byte_size in
  text ← mem_read (peek buf) (peek buf + readableBytes buf) (buffer_ buf);
  let checkSum := s32 (adler32 text) in
  buf ← appendInt32 buf checkSum;
  assert_ (readableBytes buf =? 4 + nameLen + byte_size + 4);;
  let len := s32 (hostToNetwork32 (s32 (readableBytes buf))) in
  prepend buf (le_bytes 4 len).

(** What goes to [conn->send]. *)
(*@ muduo/examples/protobuf/codec/codec.h 74-81 ProtobufCodec::send *)
Definition send (message : M) : res (list byte) :=
  buf ← fillEmptyBuffer Buffer_new message;
  mem_read (peek buf) (peek buf + readableBytes buf) (buffer_ buf).

(*@ muduo/examples/protobuf/codec/codec.cc 147-162 ProtobufCodec::createMessage *)
Definition createMessage (typeName : list byte) : option M :=
  descriptor ← FindMessageTypeByName lib typeName;
  GetPrototype lib descriptor.

(** The [len] bytes after the length header; the message is the pointer that
    is returned, null or not. *)
(*@ muduo/examples/protobuf/codec/codec.cc 164-213 ProtobufCodec::parse *)
Definition parse (buf : list byte) (len : Z) : ErrorCode * option M :=
  let expectedCheckSum := asInt32 (zdrop (len - kHeaderLen) buf) in
  let checkSum := s32 (adler32 (ztake (len - kHeaderLen) buf)) in
  if checkSum =? expectedCheckSum
  then
    let nameLen := asInt32 buf in
    if (2 <=? nameLen) && (nameLen <=? len - 2 * kHeaderLen)
    then
      let typeName := zslice kHeaderLen (kHeaderLen + nameLen - 1) buf in
      match createMessage typeName with
      | Some message =>
          let data := zdrop (kHeaderLen + nameLen) buf in
          let dataLen := len - nameLen - 2 * kHeaderLen in
          match ParseFromArray lib message (ztake dataLen data) with
          | (true, message) => (kNoError, Some message)
          | (false, message) => (kParseError, Some message)
          end
      | None => (kUnknownMessageType, None)
      end
    else (kInvalidNameLen, None)
  else (kCheckSumError, None).

Variable errorCallback_ : ErrorCode -> Buffer -> res Buffer.

(*@ muduo/examples/protobuf/codec/codec.cc 115-145 ProtobufCodec::onMessage *)
Definition onMessage : Buffer -> res (list (event M) * Buffer) := codec_onMessage kMinMessageLen parse errorCallback_.

Definition next : list byte -> next_result M := codec_next kMinMessageLen parse.
Definition body (m : M) : list byte :=
  be_bytes 4 (zlen (GetTypeName m) + 1) ++ GetTypeName m ++ [Byte.x00] ++ Serialize lib m.
Definition frame (m : M) : list byte := framed adler32 (body m).

(** A message object the library can give back: its type is known under its
    name, and parsing its bytes into a fresh object of the type gives it. *)
Definition sendable (m : M) : Prop :=
  GetTypeName m <> []
  /\ zlen (GetTypeName m) + 1 + zlen (Serialize lib m) + 8 <= kMaxMessageLen
  /\ exists prototype, createMessage (GetTypeName m) = Some prototype
       /\ ParseFromArray lib prototype (Serialize lib m) = (true, m).

#[export] Instance next_stable : StableNext next.
Proof using Type. apply codec_next_stable, pb_kMin_range. Qed.

Lemma pb_zlen_body m : zlen (body m) = zlen (GetTypeName m) + 5 + zlen (Serialize lib m).
Proof using Type. unfold body. rewrite !zlen_app, zlen_be_bytes. change (zlen [Byte.x00]) with 1. lia. Qed.
End codec.

(** ** The dispatcher *)
Section dispatcher.
Context {Descriptor M F : Type} `{Countable Descriptor} (lib : protobuf Descriptor M).

(** [T] by its descriptor: an object of the generated class [T] is one whose
    descriptor is [T::descriptor()]. [F] are the user's callbacks. *)
(*@ muduo/examples/protobuf/codec/dispatcher.h 38-65 CallbackT *)
Record CallbackT := { T_descriptor : Descriptor; callback_ : F }.

(** A call of a user's callback with a message. *)
Inductive call : Type := Call (f : F) (message : M) | CallError (e : ErrorCode).

(** [down_pointer_cast] asserts, too, that the object is a [T]. *)
(*@ muduo/examples/protobuf/codec/dispatcher.h 54-61 CallbackT::onMessage *)
Definition CallbackT_onMessage (cb : CallbackT) (message : M) : res call :=
  assert_ (bool_decide (GetDescriptor lib message = T_descriptor cb));;
  mret (Call (callback_ cb) message).

(*@ muduo/examples/protobuf/codec/dispatcher.h 67-106 ProtobufDispatcher *)
Record ProtobufDispatcher := { callbacks_ : gmap Descriptor CallbackT; defaultCallback_ : F }.

(*@ muduo/examples/protobuf/codec/dispatcher.h 74-77 ProtobufDispatcher::ProtobufDispatcher *)
Definition ProtobufDispatcher_new (defaultCb : F) : ProtobufDispatcher :=
  {| callbacks_ := ∅; defaultCallback_ := defaultCb |}.

(*@ muduo/examples/protobuf/codec/dispatcher.h 79-92 ProtobufDispatcher::onProtobufMessage *)
Definition onProtobufMessage (d : ProtobufDispatcher) (message : M) : res call :=
  match callbacks_ d !! GetDescriptor lib message with
  | Some it => CallbackT_onMessage it message
  | None => mret (Call (defaultCallback_ d) message)
  end.

(*@ muduo/examples/protobuf/codec/dispatcher.h 94-99 ProtobufDispatcher::registerMessageCallback *)
Definition registerMessageCallback (d : ProtobufDispatcher) (T : Descriptor) (callback : F) : ProtobufDispatcher :=
  let pd := {| T_descriptor := T; callback_ := callback |} in
  {| callbacks_ := <[ T := pd ]> (callbacks_ d); defaultCallback_ := defaultCallback_ d |}.

(** The registrations of a program, in the order it makes them. *)
Definition register_all (d : ProtobufDispatcher) (rs : list (Descriptor * F)) : ProtobufDispatcher :=
  fold_left (fun d '(T, f) => registerMessageCallback d T f) rs d.

(** The callback registered last for a type. *)
Definition registered (rs : list (Descriptor * F)) (T : Descriptor) : option F :=
  fold_left (fun found '(T', f) => if decide (T' = T) then Some f else found) rs None.
Definition chosen (defaultCb : F) (rs : list (Descriptor * F)) (m : M) : F :=
  default defaultCb (registered rs (GetDescriptor lib m)).

(** A message the codec took out goes to the dispatcher, its
    [messageCallback_]; an error has gone to the error callback. *)
Definition deliver (d : ProtobufDispatcher) (e : event M) : res call :=
  match e with
  | Message m => onProtobufMessage d m
  | Error e => mret (CallError e)
  end.

(** Every callback is kept under the descriptor of its own type. *)
Definition typed (d : ProtobufDispatcher) : Prop :=
  map_Forall (fun T cb => T_descriptor cb = T) (callbacks_ d).

Lemma register_typed d T f : typed d -> typed (registerMessageCallback d T f).
Proof using Type. intros Hd. by apply map_Forall_insert_2. Qed.

Lemma register_all_spec d rs found :
  typed d ->
  typed (register_all d rs) /\ defaultCallback_ (register_all d rs) = defaultCallback_ d
  /\ forall T, callback_ <$> callbacks_ d !! T = found T ->
       callback_ <$> callbacks_ (register_all d rs) !! T
       = fold_left (fun found '(T', f) => if decide (T' = T) then Some f else found) rs (found T).
Proof using Type.
  revert d found. induction rs as [| [T' f] rs IH]; intros d found Hd; [done |].
  destruct (IH (registerMessageCallback d T' f) (fun T => if decide (T' = T) then Some f else found T))
    as (H1 & H2 & H3); [by apply register_typed |].
  split; [exact H1 |]. split; [exact H2 |]. intros T HT. cbn [fold_left]. apply H3.
  cbn [registerMessageCallback callbacks_]. destruct (decide (T' = T)) as [-> |].
  - by rewrite lookup_insert_eq.
  - by rewrite lookup_insert_ne.
Qed.

Lemma dispatch_chosen defaultCb rs m :
  onProtobufMessage (register_all (ProtobufDispatcher_new defaultCb) rs) m = Ok (Call (chosen defaultCb rs m) m).
Proof using Type.
  destruct (register_all_spec (ProtobufDispatcher_new defaultCb) rs (fun _ => None)) as (Ht & Hd & Hl).
  { apply map_Forall_empty. }
  specialize (Hl (GetDescriptor lib m)). cbn [callbacks_ ProtobufDispatcher_new] in Hl.
  rewrite lookup_empty in Hl. specialize (Hl eq_refl).
  unfold onProtobufMessage, chosen, registered. rewrite <- Hl.
  destruct (callbacks_ _ !! _) as [cb |] eqn:E.
  - unfold CallbackT_onMessage. rewrite bool_decide_eq_true_2 by (symmetry; exact (Ht _ _ E)). done.
  - by rewrite Hd.
Qed.
End dispatcher.

(** ** What is sent *)
Section sent.
Context {Descriptor M : Type} (lib : protobuf Descriptor M) (adler32 : list byte -> Z).

Lemma asInt32_be n (l : list byte) : 0 <= n < 2 ^ 31 -> asInt32 (be_bytes 4 n ++ l) = n.
Proof.
  intros Hn. unfold asInt32. rewrite ztake_app_l by (rewrite zlen_be_bytes; lia).
  rewrite ztake_all by (rewrite zlen_be_bytes; lia). rewrite header_value by (by rewrite zlen_be_bytes).
  apply be_header. lia.
Qed.

(** [parse] takes apart what [fillEmptyBuffer] puts together. *)
Lemma parse_body m : sendable lib m ->
  parse lib adler32 (summed adler32 (body lib m)) (zlen (body lib m) + 4) = (kNoError, Some m).
Proof.
  intros (Hname & Hlen & prototype & Hcreate & Hparse).
  pose proof (pb_zlen_body lib m) as Hl. pose proof (zlen_nonneg (Serialize lib m)).
  assert (Hn : 1 <= zlen (GetTypeName lib m)).
  { destruct (GetTypeName lib m); [done |]. rewrite zlen_cons. pose proof (zlen_nonneg l). lia. }
  unfold parse, kMaxMessageLen, kHeaderLen in *. destruct (summed_ok adler32 (body lib m)) as [Ht Hs].
  replace (_ + 4 - 4) with (zlen (body lib m)) by lia. rewrite Ht, Hs, Z.eqb_refl.
  unfold summed, body in *. rewrite <- !app_assoc. rewrite asInt32_be by lia.
  set (name := GetTypeName lib m) in *. set (data := Serialize lib m) in *.
  rewrite (proj2 (Z.leb_le 2 _)), (proj2 (Z.leb_le (zlen name + 1) _)) by lia. cbn [andb].
  pose proof (zlen_be_bytes 4 (zlen name + 1)) as Hh.
  rewrite zslice_app_r by lia. rewrite Hh.
  replace (4 - Z.of_nat 4) with 0 by lia. replace (4 + (zlen name + 1) - 1 - Z.of_nat 4) with (zlen name) by lia.
  rewrite zslice_app_l, zslice_full by lia. rewrite Hcreate.
  rewrite zdrop_app_r by lia. rewrite Hh.
  rewrite zdrop_app_r by lia. replace (4 + (zlen name + 1) - Z.of_nat 4 - zlen name) with (zlen [Byte.x00]) by (change (zlen [Byte.x00]) with 1; lia).
  rewrite zdrop_app_r, Z.sub_diag, zdrop_0 by lia. rewrite ztake_app_l by lia. rewrite ztake_all by lia. by rewrite Hparse.
Qed.

Lemma protobuf_frame m k : sendable lib m -> next lib adler32 (frame lib adler32 m ++ k) = Got m k.
Proof.
  intros Hm. pose proof (pb_zlen_body lib m) as Hl. pose proof (zlen_nonneg (Serialize lib m)).
  pose proof (zlen_nonneg (GetTypeName lib m)). pose proof (parse_body m Hm) as Hp.
  destruct Hm as (Hname & Hlen & _).
  apply codec_next_framed; [| unfold kMaxMessageLen in *; lia | done].
  unfold kMinMessageLen, kHeaderLen. destruct (GetTypeName lib m); [done |].
  rewrite zlen_cons in *. pose proof (zlen_nonneg l). lia.
Qed.

(** The length of the name, the name and its NUL, then the serialized message
    in the space reserved for it. *)
Lemma fill_body m :
  zlen (GetTypeName lib m) + zlen (Serialize lib m) < 2 ^ 31 - 16 ->
  exists b1 b2 b3 b4 cap,
    appendInt32 Buffer_new (s32 (zlen (GetTypeName lib m) + 1)) = Ok b1
    /\ append b1 (GetTypeName lib m ++ [Byte.x00]) = Ok b2
    /\ ensureWritableBytes b2 (zlen (Serialize lib m)) = Ok b3
    /\ copy_to b3 (beginWrite b3) (Serialize lib m) = Ok b4
    /\ cap < 2 ^ 33
    /\ repr {| q_bytes := body lib m; q_room := kCheapPrepend; q_cap := cap |}
            (hasWritten b4 (zlen (Serialize lib m))).
Proof.
  intros Hm. set (name := GetTypeName lib m) in *. set (data := Serialize lib m) in *.
  pose proof (zlen_nonneg name). pose proof (zlen_nonneg data). rewrite s32_small by lia.
  edestruct appendInt32_repr with (x := zlen name + 1) as (b1 & E1 & H1); [exact repr_new | |].
  { apply q_push_some. rewrite zlen_be_bytes. by_evaluation. }
  rewrite zlen_be_bytes in H1.
  assert (Hl : zlen (name ++ [Byte.x00]) = zlen name + 1) by (by rewrite zlen_app).
  edestruct append_repr with (d := name ++ [Byte.x00]) as (b2 & E2 & H2); [exact H1 | |].
  { apply q_push_some. rewrite Hl. cbn [q_cap q_empty]. buflia. }
  rewrite Hl in H2. cbn [q_empty q_bytes q_room q_cap] in H2.
  destruct (ensureWritableBytes_repr _ b2 (zlen data) H2) as (b3 & E3 & H3 & W3); [lia | buflia |].
  destruct (copy_to_tail _ b3 data H3) as (b4 & E4 & H4 & _); [lia |].
  cbn [q_bytes q_room q_cap] in H4. exists b1, b2, b3, b4.
  eexists. split_and!; [done.. | | unfold body; fold name data; rewrite <- !app_assoc in H4; exact H4].
  buflia.
Qed.

Lemma protobuf_send_frame m : sendable lib m -> send lib adler32 m = Ok (frame lib adler32 m).
Proof.
  intros (_ & Hlen & _). pose proof (zlen_nonneg (Serialize lib m)). pose proof (zlen_nonneg (GetTypeName lib m)).
  unfold kMaxMessageLen in Hlen.
  destruct (fill_body m ltac:(lia)) as (b1 & b2 & b3 & b4 & cap & E1 & E2 & E3 & E4 & Hcap & Hb).
  unfold send, fillEmptyBuffer. step_assert; [done |]. rewrite E1. rsimp. rewrite E2. rsimp. rewrite E3. rsimp.
  rewrite E4. rsimp. set (b5 := hasWritten b4 _) in *. pose proof (pb_zlen_body lib m) as Hl.
  destruct (finish_frame_ok adler32 _ _ _ Hb ltac:(lia) ltac:(lia)) as (b6 & b7 & E6 & Hr & E7 & E8).
  unfold finish_frame, prepend_length in *.
  rewrite (read_all _ _ (repr_holds _ _ Hb)) in E6 |- *. rsimp. cbn [mbind res_bind] in E6.
  rewrite E6. rsimp. rewrite (s32_small (zlen (GetTypeName lib m) + 1)) by lia. rewrite Hr in E7 |- *. step_assert; [lia |]. rewrite E7. rsimp. exact E8.
Qed.
End sent.

(** ** A connection with the codec and the dispatcher *)
Section dispatched.
Context {Descriptor M F : Type} `{Countable Descriptor} (lib : protobuf Descriptor M) (adler32 : list byte -> Z).
Context (errorCallback_ : ErrorCode -> Buffer -> res Buffer).

(** The codec as the connection's message callback, with
    [ProtobufDispatcher::onProtobufMessage] as its message callback. *)
Definition server_onMessage (d : ProtobufDispatcher (Descriptor := Descriptor)) (b : Buffer) : res (list (call (M := M) (F := F)) * bool * Buffer) :=
  '(es, b) ← onMessage lib adler32 errorCallback_ b;
  calls ← mapM (deliver lib d) es;
  mret (calls, false, b).

Lemma deliver_all (defaultCb : F) rs (ms : list M) :
  mapM (deliver lib (register_all (ProtobufDispatcher_new defaultCb) rs)) (map Message ms)
  = Ok (map (fun m => Call (chosen lib defaultCb rs m) m) ms).
Proof using Type.
  induction ms as [| m ms IH]; [done |]. cbn [map mapM deliver]. rewrite dispatch_chosen. rsimp.
  rewrite IH. by rsimp.
Qed.

Lemma server_implements defaultCb (rs : list (Descriptor * F)) :
  implements (next lib adler32) (fun m => Call (chosen lib defaultCb rs m) m)
    (server_onMessage (register_all (ProtobufDispatcher_new defaultCb) rs)).
Proof using Type.
  intros l b ms r Hb Hd.
  destruct (codec_implements kMinMessageLen (parse lib adler32) errorCallback_ pb_kMin_range l b ms r Hb Hd)
    as (b' & E & Hb').
  exists b'. split; [| exact Hb']. unfold server_onMessage, onMessage.
  destruct (codec_onMessage _ _ _ _) as [[es b1] |]; [| done]. cbn in E. injection E as -> ->.
  rsimp. rewrite deliver_all. by rsimp.
Qed.
End dispatched.

(** C28: Whatever callbacks a program registers with a dispatcher, in whatever
    order, messages sent through the codec and received in whatever pieces
    (messages of types the library knows by name, that it parses back from
    what it wrote, and within the codec's length limit: [sendable])
    are each handed, in the order of sending, to the callback registered last
    for their type, or to the default one where there is none: the downcast
    in [CallbackT::onMessage] never fails, no error is reported, and nothing
    is left in the buffer. *)
Theorem protobuf_dispatched {Descriptor M F} `{Countable Descriptor} (lib : protobuf Descriptor M) adler32
    errorCallback_ (defaultCb : F) rs ms frames chunks b :
  holds [] b ->
  Forall (sendable lib) ms ->
  Forall2 (fun m f => send lib adler32 m = Ok f) ms frames ->
  Forall (fun c => zlen c < 2 ^ 62) chunks ->
  concat chunks = concat frames ->
  safe (run_chunks (server_onMessage lib adler32 errorCallback_ (register_all (ProtobufDispatcher_new defaultCb) rs))
                   chunks b)
    (fun '(calls, _, b') => calls = map (fun m => Call (chosen lib defaultCb rs m) m) ms /\ holds [] b').
Proof.
  intros Hb Hm Hs Hc Heq.
  assert (Hf : frames = map (frame lib adler32) ms).
  { clear Heq. induction Hs as [| m f ms fs Hs _ IH]; [done |]. cbn [map].
    apply Forall_cons in Hm as [Hm1 Hm]. rewrite <- IH by done. f_equal.
    rewrite protobuf_send_frame in Hs by done. by injection Hs. }
  rewrite Hf in Heq. rewrite Forall_forall in Hm. eapply safe_mono.
  - apply (run_chunks_encoded _ _ _ (server_implements lib adler32 errorCallback_ defaultCb rs)
             (frame lib adler32) ms); try done.
    intros m k Hin. apply protobuf_frame, Hm, Hin.
  - by intros [[es stop] b'] (-> & _ & Hb').
Qed.

(** ** A concrete library *)

(** Two message types, known to the pool as [muduo.Query] and [muduo.Answer];
    a message is its type and its text. *)
Definition demo_names : list (list byte) := [bs "muduo.Query"; bs "muduo.Answer"].
Definition demo_protobuf : protobuf nat (nat * list byte) := {|
  GetDescriptor := fst;
  full_name T := default (bs "muduo.Empty") (demo_names !! T);
  FindMessageTypeByName name := fst <$> list_find (fun n => n = name) demo_names;
  GetPrototype T := Some (T, []);
  Serialize := snd;
  ParseFromArray m data := (true, (fst m, data));
|}.

Definition demo_messages : list (nat * list byte) := [(0%nat, bs "1"); (1%nat, bs "yes"); (0%nat, [])].
Definition demo_callbacks : list (nat * list byte) := [(0%nat, bs "onOldQuery"); (7%nat, bs "onEmpty"); (0%nat, bs "onQuery")].
Definition demo_frames : list (list byte) := map (frame demo_protobuf zlib_adler32) demo_messages.
Definition demo_chunks : list (list byte) :=
  let s := concat demo_frames in [zslice 0 3 s; zslice 3 40 s; zdrop 40 s].

Lemma protobuf_dispatched_witness :
  safe (run_chunks (server_onMessage demo_protobuf zlib_adler32 defaultErrorCallback
                      (register_all (ProtobufDispatcher_new (bs "onUnknown")) demo_callbacks))
                   demo_chunks Buffer_new)
    (fun '(calls, _, b') =>
       calls = map (fun m => Call (chosen demo_protobuf (bs "onUnknown") demo_callbacks m) m) demo_messages
       /\ holds [] b')
  /\ map (chosen demo_protobuf (bs "onUnknown") demo_callbacks) demo_messages
     = [bs "onQuery"; bs "onUnknown"; bs "onQuery"].
Proof.
  split; [| reflexivity].
  apply (protobuf_dispatched demo_protobuf zlib_adler32 defaultErrorCallback (bs "onUnknown") demo_callbacks
           demo_messages demo_frames).
  - apply holds_new.
  - constructor; [| constructor; [| constructor; [| constructor]]];
      (split; [done | split; [by_evaluation | by eexists]]).
  - repeat constructor.
  - by_evaluation.
  - vm_compute. reflexivity.
Defined.
