(* ===== verification/FastCgi.v ===== *)
(** * FastCgi: [examples/fastcgi/fastcgi.cc], [fastcgi.h] and [fastcgi_test.cc]

    The records of the FastCGI protocol, the codec that collects a request
    from them, whatever pieces they arrive in, and the response it frames. *)
From S2P Require Import Prelude Endian Buffer Framing.

(** ** Records *)

(*@ muduo/examples/fastcgi/fastcgi.cc 5-13 FastCgiCodec::RecordHeader *)
Record RecordHeader := mkHeader {
  version : Z;
  type : Z;
  id : Z;
  length_ : Z;
  padding : Z;
  unused : Z
}.

(*@ muduo/examples/fastcgi/fastcgi.cc 15-15 FastCgiCodec::kRecordHeader *)
Definition kRecordHeader : Z := 8.

(** The struct as the bytes of memory it occupies, and back. *)
Definition header_bytes (h : RecordHeader) : list byte :=
  [byte_of (version h); byte_of (type h)] ++ le_bytes 2 (id h) ++ le_bytes 2 (length_ h)
  ++ [byte_of (padding h); byte_of (unused h)].
Definition header_of (l : list byte) : RecordHeader :=
  mkHeader (le_val (zslice 0 1 l)) (le_val (zslice 1 2 l)) (le_val (zslice 2 4 l)) (le_val (zslice 4 6 l))
           (le_val (zslice 6 7 l)) (le_val (zslice 7 8 l)).

(*@ muduo/examples/fastcgi/fastcgi.cc 17-30 FcgiType *)
Definition kFcgiBeginRequest : Z := 1.
Definition kFcgiEndRequest : Z := 3.
Definition kFcgiParams : Z := 4.
Definition kFcgiStdin : Z := 5.
Definition kFcgiStdout : Z := 6.
(*@ muduo/examples/fastcgi/fastcgi.cc 32-37 FcgiRole *)
Definition kFcgiResponder : Z := 1.
(*@ muduo/examples/fastcgi/fastcgi.cc 39-42 FcgiConstant *)
Definition kFcgiKeepConn : Z := 1.

(** ** The codec *)

Definition ParamMap : Type := gmap (list byte) (list byte).

(*@ muduo/examples/fastcgi/fastcgi.h 60-65 FastCgiCodec *)
Record FastCgiCodec := mkCodec {
  gotRequest_ : bool;
  keepConn_ : bool;
  stdin_ : Buffer;
  paramsStream_ : Buffer;
  params_ : ParamMap
}.

(*@ muduo/examples/fastcgi/fastcgi.h 20-25 FastCgiCodec::FastCgiCodec *)
Definition FastCgiCodec_new : FastCgiCodec := mkCodec false false Buffer_new Buffer_new ∅.

Definition set_got x (c : FastCgiCodec) := mkCodec x (keepConn_ c) (stdin_ c) (paramsStream_ c) (params_ c).
Definition set_keep x (c : FastCgiCodec) := mkCodec (gotRequest_ c) x (stdin_ c) (paramsStream_ c) (params_ c).
Definition set_stdin x (c : FastCgiCodec) := mkCodec (gotRequest_ c) (keepConn_ c) x (paramsStream_ c) (params_ c).
Definition set_stream x (c : FastCgiCodec) := mkCodec (gotRequest_ c) (keepConn_ c) (stdin_ c) x (params_ c).
Definition set_params x (c : FastCgiCodec) := mkCodec (gotRequest_ c) (keepConn_ c) (stdin_ c) (paramsStream_ c) x.

(** [(uint32_t)-1]. *)
Definition minus1 : Z := u32 (-1).

(*@ muduo/examples/fastcgi/fastcgi.cc 95-120 FastCgiCodec::readLen *)
Definition readLen (paramsStream : Buffer) : res (Z * Buffer) :=
  if 1 <=? readableBytes paramsStream
  then
    byte ← peekInt8 paramsStream;
    if negb (Z.land (u8 byte) 0x80 =? 0)
    then
      if 4 <=? readableBytes paramsStream
      then '(x, paramsStream) ← readInt32 paramsStream; mret (u32 (Z.land x 0x7fffffff), paramsStream)
      else mret (minus1, paramsStream)
    else '(x, paramsStream) ← readInt8 paramsStream; mret (u32 x, paramsStream)
  else mret (minus1, paramsStream).

Fixpoint parseAllParams_loop (fuel : nat) (c : FastCgiCodec) : res (bool * FastCgiCodec) :=
  match fuel with
  | O => Err OutOfFuel
  | S fuel =>
      if 0 <? readableBytes (paramsStream_ c)
      then
        '(nameLen, s) ← readLen (paramsStream_ c);
        if nameLen =? minus1 then mret (false, set_stream s c)
        else
          '(valueLen, s) ← readLen s;
          if valueLen =? minus1 then mret (false, set_stream s c)
          else if u32 (nameLen + valueLen) <=? readableBytes s
          then
            '(name, s) ← retrieveAsString s nameLen;
            '(value, s) ← retrieveAsString s valueLen;
            parseAllParams_loop fuel (set_params (<[ name := value ]> (params_ c)) (set_stream s c))
          else mret (false, set_stream s c)
      else mret (true, c)
  end.

(*@ muduo/examples/fastcgi/fastcgi.cc 72-93 FastCgiCodec::parseAllParams *)
Definition parseAllParams (c : FastCgiCodec) : res (bool * FastCgiCodec) :=
  parseAllParams_loop (S (Z.to_nat (readableBytes (paramsStream_ c)))) c.

(*@ muduo/examples/fastcgi/fastcgi.cc 46-58 FastCgiCodec::onParams *)
Definition onParams (content : list byte) (c : FastCgiCodec) : res (bool * FastCgiCodec) :=
  if 0 <? zlen content
  then s ← append (paramsStream_ c) content; mret (true, set_stream s c)
  else parseAllParams c.

(*@ muduo/examples/fastcgi/fastcgi.cc 60-70 FastCgiCodec::onStdin *)
Definition onStdin (content : list byte) (c : FastCgiCodec) : res FastCgiCodec :=
  if 0 <? zlen content
  then s ← append (stdin_ c) content; mret (set_stdin s c)
  else mret (set_got true c).

(*@ muduo/examples/fastcgi/fastcgi.cc 224-229 readInt16 *)
Definition readInt16 (p : list byte) : Z := u16 (networkToHost16 (le_val (ztake 2 p))).

(*@ muduo/examples/fastcgi/fastcgi.cc 231-247 FastCgiCodec::onBeginRequest *)
Definition onBeginRequest (header : RecordHeader) (buf : Buffer) (c : FastCgiCodec) : res (bool * FastCgiCodec) :=
  assert_ (length_ header <=? readableBytes buf);;
  assert_ (type header =? kFcgiBeginRequest);;
  if kRecordHeader <=? length_ header
  then
    role ← mem_read (peek buf + kRecordHeader) (peek buf + kRecordHeader + 2) (buffer_ buf);
    flags ← mem_read (peek buf + kRecordHeader + 2) (peek buf + kRecordHeader + 3) (buffer_ buf);
    if readInt16 role =? kFcgiResponder
    then mret (true, set_keep (u8 (le_val flags) =? kFcgiKeepConn) c)
    else mret (false, c)
  else mret (false, c).

Fixpoint parseRequest_loop (fuel : nat) (c : FastCgiCodec) (buf : Buffer) : res (FastCgiCodec * Buffer) :=
  match fuel with
  | O => Err OutOfFuel
  | S fuel =>
      if kRecordHeader <=? readableBytes buf
      then
        mem ← mem_read (peek buf) (peek buf + kRecordHeader) (buffer_ buf);
        let h := header_of mem in
        let header := mkHeader (version h) (type h) (u16 (networkToHost16 (id h)))
                               (u16 (networkToHost16 (length_ h))) (padding h) (unused h) in
        let total := kRecordHeader + length_ header + padding header in
        if total <=? readableBytes buf
        then
          content ← mem_read (peek buf + kRecordHeader) (peek buf + (kRecordHeader + length_ header)) (buffer_ buf);
          c ← (if type header =? kFcgiBeginRequest then '(_, c) ← onBeginRequest header buf c; mret c
               else if type header =? kFcgiParams then '(_, c) ← onParams content c; mret c
               else if type header =? kFcgiStdin then onStdin content c
               else mret c);
          buf ← retrieve buf total;
          parseRequest_loop fuel c buf
        else mret (c, buf)
      else mret (c, buf)
  end.

(*@ muduo/examples/fastcgi/fastcgi.cc 180-222 FastCgiCodec::parseRequest *)
Definition parseRequest (c : FastCgiCodec) (buf : Buffer) : res (FastCgiCodec * Buffer) :=
  parseRequest_loop (S (Z.to_nat (readableBytes buf))) c buf.

(** What the codec and its user do to the connection. *)
Inductive event : Type :=
| Send (data : list byte)
| Shutdown.

(** The callback may also change the map and the buffer it is given; what it
    leaves in them is thrown away. *)
(*@ muduo/examples/fastcgi/fastcgi.h 27-44 FastCgiCodec::onMessage *)
Definition onMessage (cb_ : ParamMap -> Buffer -> res (list event)) (c : FastCgiCodec) (buf : Buffer) :
    res (list event * FastCgiCodec * Buffer) :=
  '(c, buf) ← parseRequest c buf;
  if gotRequest_ c
  then
    es ← cb_ (params_ c) (stdin_ c);
    let c := set_stdin (retrieveAll (stdin_ c)) c in
    let c := set_stream (retrieveAll (paramsStream_ c)) c in
    let c := set_params ∅ c in
    let c := set_got false c in
    mret (if negb (keepConn_ c) then es ++ [Shutdown] else es, c, buf)
  else mret ([], c, buf).

(** ** The response *)

(*@ muduo/examples/fastcgi/fastcgi.cc 124-136 FastCgiCodec::endStdout *)
Definition endStdout (buf : Buffer) : res Buffer :=
  let header := mkHeader 1 kFcgiStdout (u16 (hostToNetwork16 1)) 0 0 0 in
  append buf (header_bytes header).

(*@ muduo/examples/fastcgi/fastcgi.cc 138-152 FastCgiCodec::endRequest *)
Definition endRequest (buf : Buffer) : res Buffer :=
  let header := mkHeader 1 kFcgiEndRequest (u16 (hostToNetwork16 1)) (u16 (hostToNetwork16 kRecordHeader)) 0 0 in
  buf ← append buf (header_bytes header);
  buf ← appendInt32 buf 0;
  appendInt32 buf 0.

(*@ muduo/examples/fastcgi/fastcgi.cc 154-178 FastCgiCodec::respond *)
Definition respond (response : Buffer) : res Buffer :=
  response ← (if (readableBytes response <? 65536) && (kRecordHeader <=? prependableBytes response)
              then
                let header := mkHeader 1 kFcgiStdout (u16 (hostToNetwork16 1))
                                (u16 (hostToNetwork16 (u16 (readableBytes response))))
                                (u8 (Z.land (u64 (- readableBytes response)) 7)) 0 in
                response ← prepend response (header_bytes header);
                append response (replicate (Z.to_nat (padding header)) NUL)
              else mret response);
  response ← endStdout response;
  endRequest response.

(** The callback of [fastcgi_test.cc]; the log lines are left out. *)
(*@ muduo/examples/fastcgi/fastcgi_test.cc 11-27 onRequest *)
Definition onRequest (params : ParamMap) (in_ : Buffer) : res (list event) :=
  response ← append Buffer_new (bs "Context-Type: text/plain" ++ [CR; LF; CR; LF]);
  response ← append response (bs "Hello FastCGI.");
  response ← respond response;
  data ← mem_read (peek response) (peek response + readableBytes response) (buffer_ response);
  mret [Send data].

(** ** What the records mean

    A record as the protocol defines it: eight bytes of header, with the length
    of the content and of the padding, then both. *)
Record rec := mkRec {
  r_version : byte;
  r_type : byte;
  r_id : Z;
  r_unused : byte;
  r_content : list byte;
  r_padding : list byte
}.

Definition enc (r : rec) : list byte :=
  [r_version r; r_type r] ++ be_bytes 2 (r_id r) ++ be_bytes 2 (zlen (r_content r))
  ++ [byte_of (zlen (r_padding r)); r_unused r] ++ r_content r ++ r_padding r.

Definition good_rec (r : rec) : Prop :=
  0 <= r_id r < 2 ^ 16 /\ zlen (r_content r) < 2 ^ 16 /\ zlen (r_padding r) < 2 ^ 8.

Definition rec_next (l : list byte) : next_result rec :=
  match l with
  | v :: t :: i1 :: i2 :: l1 :: l2 :: p :: u :: rest =>
      let len := be_val [l1; l2] in
      let pad := byte_val p in
      if len + pad <=? zlen rest
      then Got (mkRec v t (be_val [i1; i2]) u (ztake len rest) (zslice len (len + pad) rest)) (zdrop (len + pad) rest)
      else NeedMore
  | _ => NeedMore
  end.

Lemma be_val2_range x y : 0 <= be_val [x; y] < 2 ^ 16.
Proof. apply (be_val_range [x; y]). Qed.

#[export] Instance rec_next_stable : StableNext rec_next.
Proof.
  split.
  - intros [| v [| t [| i1 [| i2 [| l1 [| l2 [| p [| u rest]]]]]]]] m r H; try done. cbn [rec_next] in H.
    pose proof (be_val2_range l1 l2). pose proof (byte_val_range p).
    destruct (_ <=? _) eqn:E; [| done]. injection H as _ <-. unfold zdrop. rewrite length_drop. cbn [length]. lia.
  - intros [| v [| t [| i1 [| i2 [| l1 [| l2 [| p [| u rest]]]]]]]] k m r H; try done. cbn [rec_next app] in *.
    pose proof (be_val2_range l1 l2). pose proof (byte_val_range p). pose proof (zlen_nonneg k).
    destruct (_ <=? _) eqn:E; [| done]. injection H as <- <-. rewrite zlen_app, (proj2 (Z.leb_le _ _)) by lia.
    by rewrite ztake_app_l, zslice_app_l, zdrop_app_l by lia.
  - intros [| v [| t [| i1 [| i2 [| l1 [| l2 [| p [| u rest]]]]]]]] k H; try done. cbn [rec_next] in H.
    by destruct (_ <=? _).
Qed.

Lemma be_bytes2 z : exists x y, be_bytes 2 z = [x; y] /\ (0 <= z < 2 ^ 16 -> be_val [x; y] = z).
Proof.
  exists (byte_of (z / 256)), (byte_of z). split; [done |]. intros Hz.
  change [byte_of (z / 256); byte_of z] with (be_bytes 2 z).
  rewrite be_val_bytes. by apply wrapu_small.
Qed.

Lemma rec_next_enc r k : good_rec r -> rec_next (enc r ++ k) = Got r k.
Proof.
  intros (Hid & Hc & Hp). unfold enc. pose proof (zlen_nonneg (r_content r)). pose proof (zlen_nonneg (r_padding r)).
  destruct (be_bytes2 (r_id r)) as (i1 & i2 & -> & Hi). destruct (be_bytes2 (zlen (r_content r))) as (l1 & l2 & -> & Hl).
  cbn [app rec_next]. rewrite Hi, Hl, byte_val_of, Z.mod_small by lia. rewrite <- !app_assoc.
  pose proof (zlen_nonneg k). rewrite !zlen_app, (proj2 (Z.leb_le _ _)) by lia.
  rewrite ztake_app_l, ztake_all by lia. rewrite zslice_app_r, Z.sub_diag by lia.
  rewrite Z.add_simpl_l, zslice_app_l, zslice_full by lia. rewrite zdrop_app_r by lia.
  rewrite Z.add_simpl_l, zdrop_app_r, Z.sub_diag, zdrop_0 by lia. by destruct r.
Qed.

(** A record that is not complete yet. *)
Lemma rec_next_part r l k : good_rec r -> enc r = l ++ k -> k <> [] -> rec_next l = NeedMore.
Proof.
  intros Hr He Hk. destruct (rec_next l) as [| | m rest] eqn:E; [done | |].
  - destruct l as [| v [| t [| i1 [| i2 [| l1 [| l2 [| p [| u l]]]]]]]]; try done. cbn [rec_next] in E. by destruct (_ <=? _).
  - pose proof (next_app _ k _ _ E) as E'. rewrite <- He, <- (app_nil_r (enc r)), rec_next_enc in E' by done.
    injection E' as _ E'. symmetry in E'. by apply app_nil in E' as [_ ->].
Qed.

(** What a record does to the codec. *)
Definition handle (r : rec) (c : FastCgiCodec) : res FastCgiCodec :=
  if byte_val (r_type r) =? kFcgiBeginRequest
  then mret (if (kRecordHeader <=? zlen (r_content r)) && (be_val (ztake 2 (r_content r)) =? kFcgiResponder)
             then set_keep (le_val (zslice 2 3 (r_content r)) =? kFcgiKeepConn) c else c)
  else if byte_val (r_type r) =? kFcgiParams then '(_, c) ← onParams (r_content r) c; mret c
  else if byte_val (r_type r) =? kFcgiStdin then onStdin (r_content r) c
  else mret c.

Fixpoint handle_all (rs : list rec) (c : FastCgiCodec) : res FastCgiCodec :=
  match rs with
  | [] => mret c
  | r :: rs => c ← handle r c; handle_all rs c
  end.

Lemma handle_all_app rs1 rs2 c : handle_all (rs1 ++ rs2) c = c ← handle_all rs1 c; handle_all rs2 c.
Proof.
  revert c. induction rs1 as [| r rs1 IH]; intros c; [done |]. cbn [app handle_all].
  destruct (handle r c) as [c' |]; [| done]. rsimp. apply IH.
Qed.

Lemma network16 x y : u16 (networkToHost16 (le_val [x; y])) = be_val [x; y].
Proof.
  unfold networkToHost16. change u16 with (wrapu (8 * Z.of_nat 2)). rewrite networkToHost_image by done.
  apply wrapu_small, (be_val_range [x; y]).
Qed.

Lemma parseRequest_turn fuel l b : holds l b ->
  match rec_next l with
  | Got r rest => exists b', holds rest b'
      /\ forall c, parseRequest_loop (S fuel) c b = c ← handle r c; parseRequest_loop fuel c b'
  | _ => forall c, parseRequest_loop (S fuel) c b = Ok (c, b)
  end.
Proof.
  intros H. cbn [parseRequest_loop]. rewrite (holds_readable _ _ H). unfold kRecordHeader.
  destruct l as [| v [| t [| i1 [| i2 [| l1 [| l2 [| p [| u rest]]]]]]]]; try done. cbn [rec_next].
  pose proof (be_val2_range l1 l2). pose proof (byte_val_range p). pose proof (zlen_nonneg rest).
  set (l := v :: t :: i1 :: i2 :: l1 :: l2 :: p :: u :: rest) in *.
  assert (Hl : zlen l = 8 + zlen rest) by (unfold l; rewrite !zlen_cons; lia).
  assert (Hdrop : forall n, 0 <= n -> zdrop (8 + n) l = zdrop n rest).
  { intros n Hn. unfold l. change (v :: t :: i1 :: i2 :: l1 :: l2 :: p :: u :: rest) with ([v; t; i1; i2; l1; l2; p; u] ++ rest).
    rewrite zdrop_app_r by (change (zlen [v; t; i1; i2; l1; l2; p; u]) with 8; lia).
    f_equal. change (zlen [v; t; i1; i2; l1; l2; p; u]) with 8. lia. }
  assert (Hslice : forall i j, 0 <= i -> zslice (8 + i) (8 + j) l = zslice i j rest).
  { intros i j Hi. unfold zslice. rewrite Hdrop by lia. f_equal. lia. }
  rewrite (proj2 (Z.leb_le 8 _)) by lia.
  assert (Hhead : mem_read (peek b) (peek b + 8) (buffer_ b) = Ok [v; t; i1; i2; l1; l2; p; u]).
  { rewrite <- (Z.add_0_r (peek b)) at 1. by rewrite (read_range l) by (done || lia). }
  rewrite Hhead. rsimp.
  change (header_of [v; t; i1; i2; l1; l2; p; u])
    with (mkHeader (le_val [v]) (le_val [t]) (le_val [i1; i2]) (le_val [l1; l2]) (le_val [p]) (le_val [u])).
  cbn [version type id length_ padding unused]. rewrite !network16.
  assert (Hone : forall x, le_val [x] = byte_val x) by (intros; cbn; lia). rewrite !Hone.
  set (len := be_val [l1; l2]) in *. set (pad := byte_val p) in *.
  destruct (Z.leb_spec (8 + len + pad) (zlen l)) as [Hf | Hf].
  2: { by rewrite (proj2 (Z.leb_gt (len + pad) (zlen rest))) by lia. }
  rewrite (proj2 (Z.leb_le (len + pad) (zlen rest))) by lia.
  rewrite (read_range l) by (done || lia). rsimp.
  replace (zslice 8 (8 + len) l) with (ztake len rest) by (rewrite <- (Z.add_0_r 8) at 1; rewrite Hslice by lia; apply ztake_is_zslice).
  destruct (retrieve_holds l b (8 + len + pad) H ltac:(lia)) as (b' & E & Hb').
  replace (8 + len + pad) with (8 + (len + pad)) in Hb' by lia. rewrite Hdrop in Hb' by lia.
  exists b'. split; [exact Hb' |]. intros c. rewrite E.
  unfold handle. cbn [r_type r_content]. rewrite zlen_ztake by lia.
  destruct (byte_val t =? kFcgiBeginRequest) eqn:Et.
  - unfold onBeginRequest. cbn [length_ type]. rewrite (holds_readable _ _ H). do 2 (step_assert; [done || lia |]).
    unfold kRecordHeader. destruct (Z.leb_spec 8 len) as [H8 | H8]; [| done].
    replace (peek b + 8 + 2) with (peek b + 10) by lia. replace (peek b + 8 + 3) with (peek b + 11) by lia.
    rewrite !(read_range l) by (done || lia). rsimp.
    change (zslice 8 10 l) with (zslice (8 + 0) (8 + 2) l). change (zslice 10 11 l) with (zslice (8 + 2) (8 + 3) l).
    rewrite !Hslice by lia.
    rewrite <- ztake_is_zslice. rewrite ztake_ztake by lia.
    assert (zslice 2 3 (ztake len rest) = zslice 2 3 rest) as ->
      by (unfold zslice; rewrite zdrop_ztake, ztake_ztake by lia; done).
    assert (exists x y z more, rest = x :: y :: z :: more) as (x & y & z & more & ->).
    { destruct rest as [| x [| y [| z more]]]; [unfold zlen in *; cbn [length] in *; lia.. |]. by eexists _, _, _, _. }
    change (ztake 2 (x :: y :: z :: more)) with [x; y]. change (zslice 2 3 (x :: y :: z :: more)) with [z].
    unfold readInt16. change (ztake 2 [x; y]) with [x; y]. rewrite network16. rewrite !Hone.
    unfold u8. rewrite wrapu_small by (pose proof (byte_val_range z); lia). cbn [andb].
    by destruct (_ =? kFcgiResponder).
  - destruct (byte_val t =? kFcgiParams); [by destruct (onParams _ _) as [[??] |] |].
    destruct (byte_val t =? kFcgiStdin); [by destruct (onStdin _ _) |]. done.
Qed.

(** [parseRequest] handles the complete records at the front of the buffer. *)
Lemma parseRequest_drain fuel : forall l b rs r,
  holds l b -> (length l < fuel)%nat -> drain rec_next fuel l = (rs, false, r) ->
  exists b', holds r b' /\ forall c, parseRequest_loop fuel c b = c ← handle_all rs c; mret (c, b').
Proof.
  induction fuel as [| fuel IH]; intros l b rs r H Hl Hd; [lia |].
  pose proof (parseRequest_turn fuel l b H) as Ht. cbn [drain] in Hd.
  destruct (rec_next l) as [| | m rest] eqn:E; [| done |].
  - injection Hd as <- <-. by exists b.
  - pose proof (next_shorter _ _ _ E). destruct Ht as (b1 & Hb1 & Ht).
    destruct (drain rec_next fuel rest) as [[rs1 s1] r1] eqn:Er. simplify_eq.
    destruct (IH rest b1 rs1 r Hb1 ltac:(lia) Er) as (b' & Hb' & Hd). exists b'. split; [done |].
    intros c. rewrite Ht. cbn [handle_all]. destruct (handle m c) as [c1 |]; [| done]. rsimp. apply Hd.
Qed.

(** ** Name-value pairs *)

(** A length as the protocol encodes it: one byte, or four with the high bit set. *)
Definition enc_len (n : Z) : list byte := if n <? 128 then [byte_of n] else be_bytes 4 (n + 2 ^ 31).
Definition enc_param (kv : list byte * list byte) : list byte :=
  enc_len (zlen kv.1) ++ enc_len (zlen kv.2) ++ kv.1 ++ kv.2.
Definition short (kv : list byte * list byte) : Prop := zlen kv.1 < 2 ^ 31 /\ zlen kv.2 < 2 ^ 31.
Definition add_params (m : ParamMap) (ps : list (list byte * list byte)) : ParamMap :=
  fold_left (fun m '(k, v) => <[ k := v ]> m) ps m.

Lemma peekInt8_holds x l b : holds (x :: l) b -> peekInt8 b = Ok (s8 (byte_val x)).
Proof.
  intros H. pose proof (zlen_nonneg l). unfold peekInt8. rewrite (holds_readable _ _ H), zlen_cons. step_assert; [lia |].
  rewrite <- (Z.add_0_r (peek b)) at 1. rewrite (read_range (x :: l)) by (done || rewrite ?zlen_cons; lia). rsimp.
  change (zslice 0 1 (x :: l)) with [x]. do 2 f_equal. cbn. lia.
Qed.

Lemma high_bit x : (Z.land (u8 (s8 (byte_val x))) 0x80 =? 0) = (byte_val x <? 128)
  /\ (byte_val x < 128 -> s8 (byte_val x) = byte_val x).
Proof. split; [by destruct x |]. intros Hx. apply wraps_small; [lia |]. pose proof (byte_val_range x). lia. Qed.

Lemma readInt32_holds l b : holds l b -> 4 <= zlen l ->
  exists b', readInt32 b = Ok (s32 (be_val (ztake 4 l)), b') /\ holds (zdrop 4 l) b'.
Proof.
  intros H Hl. destruct (readInt32_repr _ b _ (holds_repr _ _ H)
    (q_drop_some {| q_bytes := l; q_room := 0; q_cap := zlen (buffer_ b) |} 4 ltac:(cbn; lia))) as (b' & E & Hb').
  exists b'. split; [exact E | exact (repr_holds _ _ Hb')].
Qed.

Lemma retrieveAsString_holds l k b : holds (l ++ k) b ->
  exists b', retrieveAsString b (zlen l) = Ok (l, b') /\ holds k b'.
Proof.
  intros H. pose proof (zlen_nonneg l). pose proof (zlen_nonneg k).
  assert (Hd : 0 <= zlen l <= zlen (l ++ k)) by (rewrite zlen_app; lia).
  destruct (retrieveAsString_repr _ b _ _ (holds_repr _ _ H)
    (q_drop_some {| q_bytes := l ++ k; q_room := 0; q_cap := zlen (buffer_ b) |} (zlen l) Hd)) as (b' & E & Hb').
  cbn [q_bytes] in *. rewrite ztake_app_l, ztake_all in E by lia. exists b'. split; [exact E |].
  apply repr_holds in Hb'. cbn [q_bytes] in Hb'. by rewrite zdrop_app_r, Z.sub_diag, zdrop_0 in Hb' by lia.
Qed.

Lemma readLen_enc n l b : 0 <= n < 2 ^ 31 -> holds (enc_len n ++ l) b ->
  exists b', readLen b = Ok (n, b') /\ holds l b'.
Proof.
  intros Hn H. pose proof (zlen_nonneg l). unfold readLen. rewrite (holds_readable _ _ H), zlen_app.
  unfold enc_len in *. destruct (Z.ltb_spec n 128) as [Hs | Hs]; cbn [app] in H.
  - change (zlen [byte_of n]) with 1. rewrite (proj2 (Z.leb_le 1 _)) by lia.
    rewrite (peekInt8_holds _ _ _ H). rsimp. destruct (high_bit (byte_of n)) as [-> Hv].
    rewrite byte_val_of, Z.mod_small in Hv |- * by lia. rewrite (proj2 (Z.ltb_lt n 128)) by done. cbn [negb].
    unfold readInt8, retrieveInt8. rewrite (peekInt8_holds _ _ _ H). rsimp.
    destruct (retrieve_holds _ b 1 H) as (b' & -> & Hb'); [rewrite zlen_cons; lia |]. rsimp. exists b'.
    rewrite byte_val_of, Z.mod_small, Hv by lia. split; [| exact Hb']. unfold u32. by rewrite wrapu_small by lia.
  - rewrite zlen_be_bytes, (proj2 (Z.leb_le 1 _)) by lia.
    assert (exists y, be_bytes 4 (n + 2 ^ 31) = byte_of ((n + 2 ^ 31) / 16777216) :: y) as (y & Hy).
    { eexists. unfold be_bytes. cbn [le_bytes rev app]. f_equal. f_equal. rewrite !Z.div_div by lia. done. }
    pose proof H as H2. rewrite Hy in H2. cbn [app] in H2. rewrite (peekInt8_holds _ _ _ H2). rsimp.
    destruct (high_bit (byte_of ((n + 2 ^ 31) / 16777216))) as [-> _].
    assert (Hq : 128 <= (n + 2 ^ 31) / 16777216 < 256).
    { split; [apply Z.div_le_lower_bound | apply Z.div_lt_upper_bound]; lia. }
    rewrite byte_val_of, Z.mod_small by lia. rewrite (proj2 (Z.ltb_ge _ 128)) by lia. cbn [negb].
    rewrite (proj2 (Z.leb_le 4 _)) by lia.
    destruct (readInt32_holds _ b H) as (b' & -> & Hb'); [rewrite zlen_app, zlen_be_bytes; lia |].
    rsimp. exists b'.
    rewrite zdrop_app_r in Hb' by (rewrite zlen_be_bytes; lia). rewrite zlen_be_bytes, zdrop_0 in Hb'.
    split; [| exact Hb']. rewrite ztake_app_l, ztake_all by (rewrite zlen_be_bytes; lia). rewrite be_val_bytes.
    change (wrapu (8 * Z.of_nat 4)) with (wrapu 32). rewrite wrapu_small by lia.
    unfold s32, wraps. replace (n + 2 ^ 31 + 2 ^ (32 - 1)) with (n + 1 * 2 ^ 32) by lia.
    rewrite Z.mod_add, Z.mod_small by lia. change 0x7fffffff with (Z.ones 31). rewrite Z.land_ones by lia.
    replace (n - 2 ^ (32 - 1)) with (n + (-1) * 2 ^ 31) by lia. rewrite Z.mod_add, Z.mod_small by lia.
    unfold u32. by rewrite wrapu_small by lia.
Qed.

(** Every name-value pair is found, the last of equal names wins, and nothing
    is left of the stream. *)
Lemma parseAllParams_enc fuel : forall ps c,
  Forall short ps -> holds (concat (map enc_param ps)) (paramsStream_ c) ->
  (length (concat (map enc_param ps)) < fuel)%nat ->
  exists s, holds [] s /\ parseAllParams_loop fuel c = Ok (true, set_params (add_params (params_ c) ps) (set_stream s c)).
Proof.
  induction fuel as [| fuel IH]; intros ps c Hs H Hf; [lia |]. cbn [parseAllParams_loop]. rewrite (holds_readable _ _ H).
  destruct ps as [| [k v] ps]; cbn [map concat] in *.
  { cbn. exists (paramsStream_ c). split; [done |]. by destruct c. }
  apply Forall_cons in Hs as [[Hk Hv] Hs]. cbn [fst snd] in *.
  pose proof (zlen_nonneg k). pose proof (zlen_nonneg v). 
  set (rest := concat (map enc_param ps)) in *. pose proof (zlen_nonneg rest).
  unfold enc_param in H, Hf |- * at 1. cbn [fst snd] in *. rewrite <- !app_assoc in H.
  assert (Hpos : forall n, 1 <= zlen (enc_len n)) by (intros n; unfold enc_len; destruct (_ <? _); [done | by rewrite zlen_be_bytes]).
  pose proof (Hpos (zlen k)). pose proof (Hpos (zlen v)).
  rewrite zlen_app, !zlen_app. rewrite (proj2 (Z.ltb_lt 0 _)) by lia.
  destruct (readLen_enc (zlen k) _ _ ltac:(lia) H) as (s1 & -> & Hs1). rsimp.
  assert (Hneq : forall n, 0 <= n < 2 ^ 31 -> (n =? minus1) = false) by (intros n Hn; change minus1 with (2 ^ 32 - 1); lia).
  rewrite Hneq by lia. destruct (readLen_enc (zlen v) _ _ ltac:(lia) Hs1) as (s2 & -> & Hs2). rsimp.
  rewrite Hneq by lia. rewrite (holds_readable _ _ Hs2), !zlen_app. unfold u32. rewrite wrapu_small by lia.
  rewrite (proj2 (Z.leb_le _ _)) by lia.
  destruct (retrieveAsString_holds _ _ _ Hs2) as (s3 & -> & Hs3). rsimp.
  destruct (retrieveAsString_holds _ _ _ Hs3) as (s4 & -> & Hs4). rsimp.
  destruct (IH ps (set_params (<[k:=v]> (params_ c)) (set_stream s4 c)) Hs Hs4) as (s5 & Hs5 & ->).
  { fold rest. rewrite !length_app in Hf. unfold zlen in *. lia. }
  exists s5. by split.
Qed.

(** ** Requests *)

Record request := mkRequest {
  q_flags : byte;
  q_params : list (list byte * list byte);
  q_stdin : list byte
}.

Definition nonempty (l : list byte) : bool := negb (zlen l =? 0).

(** The records of a request: the beginning with the responder's role, the
    stream of name-value pairs in records cut anywhere and closed by an empty
    one, the body in the same way. *)
Definition records_of (q : request) (rs : list rec) : Prop :=
  exists reserved pchunks schunks,
    map (fun r => (byte_val (r_type r), r_content r)) rs
    = (kFcgiBeginRequest, be_bytes 2 kFcgiResponder ++ [q_flags q] ++ reserved)
      :: map (pair kFcgiParams) pchunks ++ [(kFcgiParams, [])]
      ++ map (pair kFcgiStdin) schunks ++ [(kFcgiStdin, [])]
    /\ zlen reserved = 5
    /\ Forall nonempty pchunks /\ Forall nonempty schunks
    /\ concat pchunks = concat (map enc_param (q_params q)) /\ concat schunks = q_stdin q
    /\ Forall short (q_params q) /\ Forall good_rec rs.

Definition keep (q : request) : bool := byte_val (q_flags q) =? kFcgiKeepConn.

(** A codec between two requests, and one that has all of a request. *)
Record idle (c : FastCgiCodec) : Prop := {
  idle_got : gotRequest_ c = false;
  idle_stdin : holds [] (stdin_ c);
  idle_stream : holds [] (paramsStream_ c);
  idle_params : params_ c = ∅
}.
Record got (q : request) (c : FastCgiCodec) : Prop := {
  got_got : gotRequest_ c = true;
  got_keep : keepConn_ c = keep q;
  got_stdin : holds (q_stdin q) (stdin_ c);
  got_stream : holds [] (paramsStream_ c);
  got_params : params_ c = add_params ∅ (q_params q)
}.

Lemma idle_new : idle FastCgiCodec_new.
Proof. split; done || apply holds_new. Qed.

(** Records of one of the two streams, put into [get c]. *)
Section stream.
Context (t : Z) (get : FastCgiCodec -> Buffer) (set : Buffer -> FastCgiCodec -> FastCgiCodec).
Hypothesis handle_set : forall r c, byte_val (r_type r) = t -> 0 < zlen (r_content r) ->
  handle r c = s ← append (get c) (r_content r); mret (set s c).
Hypothesis get_set : forall s c, get (set s c) = s.
Hypothesis set_set : forall s s' c, set s (set s' c) = set s c.
Hypothesis set_get : forall c, set (get c) c = c.

Lemma handle_stream rs : forall chunks c l,
  map (fun r => (byte_val (r_type r), r_content r)) rs = map (pair t) chunks ->
  Forall nonempty chunks -> Forall good_rec rs -> holds l (get c) ->
  safe (handle_all rs c) (fun c' => exists s, holds (l ++ concat chunks) s /\ c' = set s c).
Proof using Type*.
  induction rs as [| r rs IH]; intros [| ch chunks] c l E Hne Hg H; try done; cbn [map concat handle_all] in *.
  { rewrite app_nil_r. by exists (get c). }
  injection E as Et Ec E. apply Forall_cons in Hne as [Hn Hne], Hg as [(_ & Hr & _) Hg].
  rewrite handle_set by (done || (rewrite Ec; pose proof (zlen_nonneg ch); unfold nonempty in Hn; destruct (zlen ch =? 0) eqn:Ez; [done | lia])).
  rewrite Ec in *. pose proof (append_holds _ _ ch H ltac:(lia)) as Hs.
  destruct (append (get c) ch) as [s |]; [| done]. rsimp.
  eapply safe_mono; [apply (IH chunks (set s c) (l ++ ch)); by rewrite ?get_set |].
  intros c' (s' & Hs' & ->). rewrite app_assoc. by exists s'.
Qed.
End stream.

Lemma map_app_split {A B} (f : A -> B) l : forall k1 k2,
  map f l = k1 ++ k2 -> exists l1 l2, l = l1 ++ l2 /\ map f l1 = k1 /\ map f l2 = k2.
Proof.
  induction l as [| x l IH]; intros [| y k1] k2 E; try done; cbn [map app] in *.
  - by exists [], [].
  - by exists [], (x :: l).
  - injection E as <- E. destruct (IH _ _ E) as (l1 & l2 & -> & <- & <-). by exists (x :: l1), l2.
Qed.

Definition is_end (r : rec) : Prop := byte_val (r_type r) = kFcgiStdin /\ r_content r = [].

(** Only the empty record that closes the body completes a request. *)
Lemma handle_not_end r c c' : ~ is_end r -> handle r c = Ok c' -> gotRequest_ c' = gotRequest_ c.
Proof.
  intros Hr H. unfold handle in H.
  destruct (_ =? kFcgiBeginRequest); [inv_res; by destruct (_ && _) |].
  destruct (_ =? kFcgiParams).
  - apply bind_Ok in H as ([ok c1] & H & E). injection E as <-. unfold onParams in H. destruct (0 <? _); [by inv_res |].
    unfold parseAllParams in H. revert H. generalize (S (Z.to_nat (readableBytes (paramsStream_ c)))). intros fuel.
    revert c ok. induction fuel as [| fuel IH]; intros c ok H; [done |]. cbn [parseAllParams_loop] in H.
    destruct (0 <? _); [| by inv_res].
    repeat (apply bind_Ok in H as ([? ?] & _ & H); try (case_match; [by inv_res |])).
    destruct (_ <=? _); [| by inv_res].
    do 2 (apply bind_Ok in H as ([? ?] & _ & H)). by apply IH in H.
  - destruct (byte_val (r_type r) =? kFcgiStdin) eqn:E; [| by inv_res].
    unfold onStdin in H. destruct (Z.ltb_spec 0 (zlen (r_content r))) as [| Hl]; [by inv_res |].
    destruct Hr. split; [lia |]. apply zlen_zero. pose proof (zlen_nonneg (r_content r)). lia.
Qed.

Lemma handle_begin q reserved r c :
  byte_val (r_type r) = kFcgiBeginRequest ->
  r_content r = be_bytes 2 kFcgiResponder ++ [q_flags q] ++ reserved -> zlen reserved = 5 ->
  handle r c = Ok (set_keep (keep q) c).
Proof.
  intros Ht Hc Hl. unfold handle. rewrite Ht, Hc, !zlen_app, zlen_be_bytes, Hl. cbn [Z.eqb kFcgiBeginRequest Pos.eqb].
  change (kRecordHeader <=? Z.of_nat 2 + (zlen [q_flags q] + 5)) with true.
  change (ztake 2 (be_bytes 2 kFcgiResponder ++ [q_flags q] ++ reserved)) with (be_bytes 2 kFcgiResponder).
  change (zslice 2 3 (be_bytes 2 kFcgiResponder ++ [q_flags q] ++ reserved)) with [q_flags q].
  change (be_val (be_bytes 2 kFcgiResponder) =? kFcgiResponder) with true. cbn [andb].
  unfold keep. assert (le_val [q_flags q] = byte_val (q_flags q)) as -> by (cbn; lia). done.
Qed.

Lemma not_ends (rs : list rec) t chunks :
  map (fun r => (byte_val (r_type r), r_content r)) rs = map (pair t) chunks ->
  t <> kFcgiStdin \/ Forall nonempty chunks -> Forall (fun r => ~ is_end r) rs.
Proof.
  revert chunks. induction rs as [| r rs IH]; intros [| ch chunks] E Ht; try done. cbn [map] in E. injection E as Et Ec E.
  constructor.
  - intros [He1 He2]. destruct Ht as [Ht | Ht]; [congruence |]. apply Forall_cons in Ht as [Ht _].
    rewrite <- Ec, He2 in Ht. done.
  - apply (IH chunks E). destruct Ht as [Ht | Ht]; [by left | right]. by apply Forall_cons in Ht as [_ Ht].
Qed.

(** All the records of a request, and nothing before the last one completes it. *)
Lemma request_collected q rs c : records_of q rs -> idle c ->
  (exists rs0 r, rs = rs0 ++ [r] /\ Forall (fun r => ~ is_end r) rs0)
  /\ safe (handle_all rs c) (got q).
Proof.
  intros (reserved & pchunks & schunks & E & Hres & Hp & Hs & Hpc & Hsc & Hshort & Hgood) [Hg0 Hin0 Hst0 Hpar0].
  destruct rs as [| r0 rs]; [done |]. cbn [map] in E. injection E as Et0 Ec0 E.
  apply map_app_split in E as (rp & rs' & -> & Ep & E).
  destruct rs' as [| r1 rs']; [done |]. cbn [map app] in E. injection E as Et1 Ec1 E.
  apply map_app_split in E as (rin & rend & -> & Ein & E).
  destruct rend as [| r2 [|]]; try done. cbn [map] in E. injection E as Et2 Ec2.
  apply Forall_cons in Hgood as [_ Hgood]. apply Forall_app in Hgood as [Hgp Hgood].
  apply Forall_cons in Hgood as [_ Hgood]. apply Forall_app in Hgood as [Hgin _].
  split.
  { exists (r0 :: rp ++ r1 :: rin), r2. split; [cbn; by rewrite <- app_assoc |].
    constructor; [intros [H _]; by rewrite Et0 in H |]. apply Forall_app. split; [by apply (not_ends _ _ _ Ep); left |].
    constructor; [intros [H _]; by rewrite Et1 in H |]. by apply (not_ends _ _ _ Ein); right. }
  cbn [handle_all]. rewrite (handle_begin q reserved) by done. rsimp. rewrite handle_all_app.
  eapply safe_bind.
  { apply (handle_stream kFcgiParams paramsStream_ set_stream) with (chunks := pchunks) (l := []); try done.
    - intros r c' Ht Hl. unfold handle, onParams. rewrite Ht, (proj2 (Z.ltb_lt _ _)) by done.
      cbn [Z.eqb kFcgiParams kFcgiBeginRequest Pos.eqb]. by destruct (append _ _).
    - by intros []. }
  intros c1 (s & Hs1 & ->). cbn [handle_all app] in *. unfold handle at 1. rewrite Et1, Ec1.
  cbn [Z.eqb kFcgiParams kFcgiBeginRequest Pos.eqb]. unfold onParams. change (0 <? zlen (A := byte) []) with false; cbn match.
  unfold parseAllParams. cbn [paramsStream_ set_stream].
  rewrite Hpc in Hs1. rewrite (holds_readable _ _ Hs1).
  destruct (parseAllParams_enc (S (Z.to_nat (zlen (concat (map enc_param (q_params q))))))
              (q_params q) (set_stream s (set_keep (keep q) c)) Hshort Hs1) as (s1 & Hs2 & ->); [unfold zlen; lia |].
  rsimp. rewrite handle_all_app. eapply safe_bind.
  { apply (handle_stream kFcgiStdin stdin_ set_stdin) with (chunks := schunks) (l := []); try done.
    - intros r c' Ht Hl. unfold handle, onStdin. rewrite Ht, (proj2 (Z.ltb_lt _ _)) by done.
      cbn [Z.eqb kFcgiParams kFcgiBeginRequest kFcgiStdin Pos.eqb]. by destruct (append _ _).
    - by intros []. }
  intros c2 (s2 & Hs3 & ->). cbn [handle_all app] in *. unfold handle. rewrite Et2, Ec2.
  cbn [Z.eqb kFcgiParams kFcgiBeginRequest kFcgiStdin Pos.eqb]. unfold onStdin. change (0 <? zlen (A := byte) []) with false; cbn match.
  rsimp. rewrite Hsc in Hs3. split; try done. cbn. by rewrite Hpar0.
Qed.

(** ** A connection *)

Section connection.
Variable cb_ : ParamMap -> Buffer -> res (list event).

(** Each arrival is appended to the input buffer, then the callback runs. *)
Fixpoint run_connection (chunks : list (list byte)) (c : FastCgiCodec) (buf : Buffer) :
    res (list event * FastCgiCodec * Buffer) :=
  match chunks with
  | [] => mret ([], c, buf)
  | ch :: chunks =>
      buf ← append buf ch;
      '(es, c, buf) ← onMessage cb_ c buf;
      '(es', c, buf) ← run_connection chunks c buf;
      mret (es ++ es', c, buf)
  end.

Lemma run_connection_app ch1 : forall ch2 c buf,
  run_connection (ch1 ++ ch2) c buf
  = '(es, c, buf) ← run_connection ch1 c buf; '(es', c, buf) ← run_connection ch2 c buf; mret (es ++ es', c, buf).
Proof using Type.
  induction ch1 as [| ch ch1 IH]; intros ch2 c buf; cbn [app run_connection].
  { rsimp. by destruct (run_connection ch2 c buf) as [[[??]?] |]. }
  destruct (append buf ch) as [b1 |]; [| done]. rsimp. destruct (onMessage cb_ c b1) as [[[es1 c1] b2] |]; [| done].
  rsimp. rewrite IH. destruct (run_connection ch1 c1 b2) as [[[es2 c2] b3] |]; [| done]. rsimp.
  destruct (run_connection ch2 c2 b3) as [[[es3 c3] b4] |]; [| done]. rsimp. by rewrite app_assoc.
Qed.

(** The callback answers a request with [body], framed. *)
Variable reply : ParamMap -> list byte -> list event.
Hypothesis cb_replies : forall params s buf, holds s buf -> safe (cb_ params buf) (fun es => es = reply params s).

Definition answers (q : request) : list event :=
  reply (add_params ∅ (q_params q)) (q_stdin q) ++ (if keep q then [] else [Shutdown]).

(** [onMessage] after [parseRequest]. *)
Definition complete (c : FastCgiCodec) (buf : Buffer) : res (list event * FastCgiCodec * Buffer) :=
  if gotRequest_ c
  then
    es ← cb_ (params_ c) (stdin_ c);
    let c := set_stdin (retrieveAll (stdin_ c)) c in
    let c := set_stream (retrieveAll (paramsStream_ c)) c in
    let c := set_params ∅ c in
    let c := set_got false c in
    mret (if negb (keepConn_ c) then es ++ [Shutdown] else es, c, buf)
  else mret ([], c, buf).

Lemma complete_request q c buf : got q c ->
  safe (complete c buf) (fun '(es, c', buf') => es = answers q /\ idle c' /\ keepConn_ c' = keep q /\ buf' = buf).
Proof using cb_replies.
  intros [Hg Hk Hin Hst Hpar]. unfold complete. rewrite Hg.
  eapply safe_bind; [exact (cb_replies _ _ _ Hin) |]. intros es ->. cbn.
  rewrite Hk, Hpar. unfold answers. split; [by destruct (keep q); rewrite ?app_nil_r |].
  split; [| done]. split; try done; by eapply retrieveAll_holds.
Qed.

Lemma fcgi_onMessage_drain l c buf rs r : holds l buf -> drain_all rec_next l = (rs, false, r) ->
  exists buf', holds r buf' /\ onMessage cb_ c buf = c ← handle_all rs c; complete c buf'.
Proof using Type.
  intros H Hd. unfold onMessage, parseRequest. rewrite (holds_readable _ _ H).
  replace (Z.to_nat (zlen l)) with (length l) by (unfold zlen; lia).
  destruct (parseRequest_drain (S (length l)) l buf rs r H ltac:(lia) Hd) as (b' & Hb' & E).
  exists b'. split; [done |]. rewrite E. by destruct (handle_all rs c).
Qed.

(** Nothing more arrives. *)
Lemma run_nothing chunks : forall c buf, gotRequest_ c = false -> holds [] buf -> concat chunks = [] ->
  safe (run_connection chunks c buf) (fun '(es, c', buf') => es = [] /\ c' = c /\ holds [] buf').
Proof using Type.
  induction chunks as [| ch chunks IH]; intros c buf Hg H E; [done |]. cbn [concat run_connection] in *.
  apply app_nil in E as [-> E]. eapply safe_bind; [by apply (append_holds [] buf []) |]. intros b1 Hb1.
  destruct (fcgi_onMessage_drain [] c b1 [] [] Hb1 eq_refl) as (b2 & Hb2 & ->). cbn [handle_all]. rsimp.
  unfold complete. rewrite Hg. rsimp. eapply safe_bind; [by apply IH |].
  by intros [[es c'] b3] (-> & -> & H3).
Qed.

Lemma handle_all_not_ends rs : forall c c', Forall (fun r => ~ is_end r) rs -> handle_all rs c = Ok c' ->
  gotRequest_ c' = gotRequest_ c.
Proof using Type.
  induction rs as [| r rs IH]; intros c c' Hr H; [by injection H as -> |]. apply Forall_cons in Hr as [Hr Hrs].
  cbn [handle_all] in H. apply bind_Ok in H as (c1 & H1 & H). rewrite (IH _ _ Hrs H). by eapply handle_not_end.
Qed.

(** The bytes of one request, from some record on, in whatever pieces. *)
Lemma run_request q chunks : forall l c buf rs0 r,
  gotRequest_ c = false -> Forall (fun r => ~ is_end r) rs0 -> Forall good_rec (rs0 ++ [r]) ->
  safe (handle_all (rs0 ++ [r]) c) (got q) ->
  holds l buf -> Forall (fun ch => zlen ch < 2 ^ 62) chunks ->
  l ++ concat chunks = concat (map enc (rs0 ++ [r])) ->
  waiting rec_next l ->
  safe (run_connection chunks c buf)
    (fun '(es, c', buf') => es = answers q /\ idle c' /\ keepConn_ c' = keep q /\ holds [] buf').
Proof using cb_replies.
  induction chunks as [| ch chunks IH]; intros l c buf rs0 r Hg Hends Hgood Hall H Hch Hl Hw.
  { exfalso. cbn [concat] in Hl. rewrite app_nil_r in Hl. unfold waiting in Hw.
    rewrite Hl, <- (app_nil_r (concat _)), (drain_encoded rec_next enc) in Hw.
    - cbn in Hw. rewrite app_nil_r in Hw. injection Hw as Hw _. by destruct rs0.
    - intros m k Hm. apply rec_next_enc. rewrite Forall_forall in Hgood. by apply Hgood. }
  apply Forall_cons in Hch as [Hch Hchs]. cbn [concat run_connection] in *. rewrite app_assoc in Hl.
  eapply safe_bind; [by apply append_holds |]. intros b1 Hb1.
  destruct (drain_part rec_next enc (rs0 ++ [r]) (l ++ ch) (concat chunks)) as (rs1 & rs2 & l' & Ers & Hd & Hl'); [.. | done |].
  { intros m k Hm. apply rec_next_enc. rewrite Forall_forall in Hgood. by apply Hgood. }
  { intros m l1 k Hm. apply rec_next_part. rewrite Forall_forall in Hgood. by apply Hgood. }
  { done. }
  destruct (fcgi_onMessage_drain (l ++ ch) c b1 rs1 l' Hb1 Hd) as (b2 & Hb2 & ->).
  rewrite Ers, handle_all_app in Hall. destruct (handle_all rs1 c) as [c1 |] eqn:Ec1; [| done]. cbn [mbind res_bind] in *.
  destruct rs2 as [| r2 rs2 _] using rev_ind.
  - cbn [handle_all safe mret res_ret] in Hall. apply app_nil in Hl' as [-> Hnil].
    eapply safe_bind; [by apply complete_request |]. intros [[es c2] b3] (-> & Hi & Hk & ->).
    eapply safe_bind; [apply run_nothing; [apply Hi | done | done] |]. intros [[es c3] b4] (-> & -> & Hb4).
    cbn. by rewrite app_nil_r.
  - rewrite app_assoc in Ers. apply app_inj_tail in Ers as [-> ->]. apply Forall_app in Hends as [He1 He2].
    pose proof (handle_all_not_ends _ _ _ He1 Ec1) as Hg1. rewrite Hg in Hg1. unfold complete. rewrite Hg1. rsimp.
    rewrite <- app_assoc in Hgood. apply Forall_app in Hgood as [_ Hgood].
    eapply safe_bind.
    + apply (IH l' c1 b2 rs2 r2); try done. exact (drain_waiting _ _ _ _ Hd).
    + intros [[es c2] b3] Hq. exact Hq.
Qed.

(** A session: requests, the records they are sent as, and the pieces in which
    the bytes of the records arrive. *)
Definition sent (x : request * list rec * list (list byte)) : Prop :=
  records_of x.1.1 x.1.2 /\ concat x.2 = concat (map enc x.1.2) /\ Forall (fun ch => zlen ch < 2 ^ 62) x.2.

Lemma run_session session : forall c buf,
  idle c -> holds [] buf -> Forall sent session ->
  safe (run_connection (concat (map snd session)) c buf)
    (fun '(es, c', buf') => es = concat (map (fun x => answers x.1.1) session) /\ idle c' /\ holds [] buf').
Proof using cb_replies.
  induction session as [| [[q rs] chunks] session IH]; intros c buf Hc Hb Hs; [done |].
  apply Forall_cons in Hs as [(Hrec & Heq & Hch) Hs]. cbn [map concat fst snd] in *. rewrite run_connection_app.
  destruct (request_collected q rs c Hrec Hc) as [(rs0 & r & -> & Hends) Hall].
  assert (Hgood : Forall good_rec (rs0 ++ [r])) by (destruct Hrec as (? & ? & ? & ? & ? & ? & ? & ? & ? & ? & ?); done).
  eapply safe_bind; [apply (run_request q chunks [] c buf rs0 r); try done; apply Hc |].
  intros [[es c1] b1] (-> & Hc1 & _ & Hb1). eapply safe_bind; [by apply IH |].
  intros [[es c2] b2] (-> & Hc2 & Hb2). done.
Qed.
End connection.

(** ** The response *)

(** Its records: the body in one record padded to a multiple of eight bytes,
    the empty record that closes the output, the end of the request. *)
Definition response_rec (t : Z) (content padding : list byte) : rec :=
  mkRec (byte_of 1) (byte_of t) 1 (byte_of 0) content padding.
Definition response_recs (body : list byte) : list rec :=
  [response_rec kFcgiStdout body (replicate (Z.to_nat (- zlen body mod 8)) NUL);
   response_rec kFcgiStdout [] [];
   response_rec kFcgiEndRequest (replicate 8 NUL) []].
Definition response (body : list byte) : list byte := concat (map enc (response_recs body)).

Lemma header_bytes_enc t content padding :
  0 <= t < 256 -> zlen content < 2 ^ 16 -> zlen padding < 2 ^ 8 ->
  header_bytes (mkHeader 1 t (u16 (hostToNetwork16 1)) (u16 (hostToNetwork16 (zlen content))) (zlen padding) 0)
    ++ content ++ padding
  = enc (response_rec t content padding).
Proof.
  intros Ht Hc Hp. unfold header_bytes, enc, response_rec.
  cbn [version type id length_ FastCgi.padding unused r_version r_type r_id r_content r_padding r_unused].
  assert (Hn : forall x, le_bytes 2 (u16 (hostToNetwork16 x)) = be_bytes 2 x).
  { intros x. change u16 with (wrapu (8 * Z.of_nat 2)). rewrite le_bytes_wrap. apply hostToNetwork16_image. }
  rewrite !Hn. by rewrite <- !app_assoc.
Qed.

Lemma append_room8 l b d : holds l b -> 8 <= readerIndex_ b -> zlen d < 2 ^ 62 ->
  safe (append b d) (fun b' => holds (l ++ d) b' /\ 8 <= readerIndex_ b').
Proof.
  intros H Hr Hd. pose proof (append_holds _ _ d H Hd) as Hs. destruct (append b d) as [b' |] eqn:E; [| exact Hs].
  split; [exact Hs |]. destruct (append_room _ _ _ E) as [-> | ->]; [lia |]. unfold kCheapPrepend. lia.
Qed.

Lemma respond_frames body b : holds body b -> 8 <= readerIndex_ b -> zlen body < 65536 ->
  safe (respond b) (holds (response body)).
Proof.
  intros H Hroom Hlen. pose proof (zlen_nonneg body). unfold respond. rewrite (holds_readable _ _ H).
  rewrite (proj2 (Z.ltb_lt _ _)) by lia. unfold prependableBytes, kRecordHeader. rewrite (proj2 (Z.leb_le _ _)) by lia.
  cbn [andb FastCgi.padding].
  assert (u16 (zlen body) = zlen body) as -> by (apply wrapu_small; lia).
  assert (Hpad : u8 (Z.land (u64 (- zlen body)) 7) = - zlen body mod 8).
  { change 7 with (Z.ones 3). rewrite Z.land_ones by lia. unfold u64, wrapu. change (2 ^ 3) with 8.
    rewrite Z.mod_mod_divide by (by exists (2 ^ 61)).
    unfold u8. apply wrapu_small. pose proof (Z.mod_pos_bound (- zlen body) 8). lia. }
  rewrite Hpad. pose proof (Z.mod_pos_bound (- zlen body) 8 ltac:(lia)) as Hm.
  set (pad := replicate (Z.to_nat (- zlen body mod 8)) NUL).
  assert (Hl : zlen pad = - zlen body mod 8) by (unfold pad; rewrite zlen_replicate; lia). rewrite <- Hl.
  set (h := header_bytes (mkHeader 1 kFcgiStdout _ _ (zlen pad) 0)).
  assert (Hh : forall hd, zlen (header_bytes hd) = 8) by (intros; unfold header_bytes; by rewrite !zlen_app, !zlen_le_bytes).
  assert (Hh8 : zlen h = 8) by apply Hh.
  destruct (prepend_holds body b h H) as (b1 & -> & Hb1 & _); [lia | unfold kCheapPrepend; lia |].
  rsimp. eapply safe_bind; [apply append_holds; [exact Hb1 | lia] |]. intros b2 Hb2.
  eapply safe_bind; [apply append_holds; [exact Hb2 | rewrite Hh; lia] |]. intros b3 Hb3.
  unfold endRequest. eapply safe_bind; [apply append_holds; [exact Hb3 | rewrite Hh; lia] |]. intros b4 Hb4.
  unfold appendInt32. rewrite int32_image.
  eapply safe_bind; [apply append_holds; [exact Hb4 | by rewrite zlen_be_bytes] |]. intros b5 Hb5.
  eapply safe_mono; [apply append_holds; [exact Hb5 | by rewrite zlen_be_bytes] |]. intros b6 Hb6.
  assert (response body = h ++ body ++ pad ++ (header_bytes (mkHeader 1 kFcgiStdout (u16 (hostToNetwork16 1)) 0 0 0))
    ++ (header_bytes (mkHeader 1 kFcgiEndRequest (u16 (hostToNetwork16 1)) (u16 (hostToNetwork16 kRecordHeader)) 0 0))
    ++ be_bytes 4 0 ++ be_bytes 4 0) as ->; [| by rewrite <- !app_assoc in Hb6].
  unfold response, response_recs. cbn [map concat]. rewrite app_nil_r. fold pad.
  rewrite <- (header_bytes_enc kFcgiStdout body pad) by (unfold kFcgiStdout; lia). fold h. rewrite <- !app_assoc. reflexivity.
Qed.

Lemma response_decodes body : zlen body < 65536 -> drain_all rec_next (response body) = (response_recs body, false, []).
Proof.
  intros Hlen. rewrite <- (app_nil_r (response body)). unfold response. rewrite (drain_encoded rec_next enc).
  - reflexivity.
  - assert (Hg : Forall good_rec (response_recs body)).
    { pose proof (Z.mod_pos_bound (- zlen body) 8).
      constructor; [| constructor; [| constructor; [| constructor]]];
        (split; [cbn; lia | split; cbn [r_content r_padding response_rec]; rewrite ?zlen_replicate; done || lia]). }
    rewrite Forall_forall in Hg. intros m k Hm. by apply rec_next_enc, Hg.
Qed.

(** What the example answers. *)
Definition hello : list byte := bs "Context-Type: text/plain" ++ [CR; LF; CR; LF] ++ bs "Hello FastCGI.".

(** A callback in the manner of the example: some code fills a response from the
    parameters and the body, the codec frames it, and it is sent. *)
Definition responder (fill : ParamMap -> Buffer -> res Buffer) (params : ParamMap) (in_ : Buffer)
  : res (list event) :=
  response ← fill params in_;
  response ← respond response;
  data ← mem_read (peek response) (peek response + readableBytes response) (buffer_ response);
  mret [Send data].

(** [fill] puts [body] into a new [Buffer]. *)
Definition fills (fill : ParamMap -> Buffer -> res Buffer) (body : ParamMap -> list byte -> list byte) : Prop :=
  forall params s buf, holds s buf -> zlen (body params s) < 65536
    /\ safe (fill params buf) (fun b => holds (body params s) b /\ 8 <= readerIndex_ b).

Lemma responder_replies fill body params s buf : fills fill body -> holds s buf ->
  safe (responder fill params buf) (fun es => es = [Send (response (body params s))]).
Proof.
  intros Hf H. destruct (Hf params s buf H) as [Hlen Hfill]. unfold responder.
  eapply safe_bind; [exact Hfill |]. intros b [Hb Hr].
  eapply safe_bind; [by apply (respond_frames (body params s)) |]. intros b2 Hb2.
  by rewrite (read_all _ _ Hb2).
Qed.

(** The callback of the example is one. *)
Definition fill_hello (_ : ParamMap) (_ : Buffer) : res Buffer :=
  response ← append Buffer_new (bs "Context-Type: text/plain" ++ [CR; LF; CR; LF]);
  append response (bs "Hello FastCGI.").

Lemma onRequest_responder params buf : onRequest params buf = responder fill_hello params buf.
Proof. unfold onRequest, responder, fill_hello. by destruct (append Buffer_new _). Qed.

Lemma hello_fills : fills fill_hello (fun _ _ => hello).
Proof.
  intros params s buf _. split; [by_evaluation |]. unfold fill_hello.
  eapply safe_bind; [apply (append_room8 []); [apply holds_new | by_evaluation | by_evaluation] |].
  intros b1 [Hb1 Hr1]. apply (append_room8 _ _ _ Hb1 Hr1). by_evaluation.
Qed.

(** What the server sends in a session. *)
Definition replies (body : ParamMap -> list byte -> list byte)
    (session : list (request * list rec * list (list byte))) : list event :=
  concat (map (fun '(q, _, _) => Send (response (body (add_params ∅ (q_params q)) (q_stdin q)))
                                 :: (if keep q then [] else [Shutdown])) session).

Lemma session_served cb_ body session :
  (forall params s buf, holds s buf -> safe (cb_ params buf) (fun es => es = [Send (response (body params s))])) ->
  Forall sent session ->
  safe (run_connection cb_ (concat (map snd session)) FastCgiCodec_new Buffer_new)
    (fun '(es, c, buf) => es = replies body session /\ idle c /\ holds [] buf).
Proof.
  intros Hcb Hs.
  eapply safe_mono; [apply (run_session cb_ (fun p s => [Send (response (body p s))]) Hcb session); [apply idle_new | apply holds_new | done] |].
  intros [[es c] buf] (-> & Hc & Hb). split; [| done]. unfold replies. f_equal.
  apply map_ext. by intros [[q rs] chunks].
Qed.

(** C27: A connection to a FastCGI server.  Requests in the responder role, of any
    number of parameters (names and values below 2^31 bytes, the format's limit)
    and a body of any length, cut by the web server into records anywhere, with any
    padding, and by the network into pieces anywhere, each sent when the one
    before it has arrived (so that no piece holds bytes of two requests), reach
    the callback one by one, with exactly their parameters (the last of equal
    names) and their body.  A callback that fills a response of less than 65536
    bytes, has the codec's [respond] frame it and sends it, as that of the
    example does, answers each request with records that decode to exactly the
    response, the end of the output and the end of the request.  The connection
    is shut down exactly after the requests that do not ask to keep it; the
    codec is then ready for the next request, and no byte is left over. *)
Theorem fastcgi_served session :
  Forall sent session ->
  (forall fill body, fills fill body ->
     safe (run_connection (responder fill) (concat (map snd session)) FastCgiCodec_new Buffer_new)
       (fun '(es, c, buf) => es = replies body session /\ idle c /\ holds [] buf))
  /\ safe (run_connection onRequest (concat (map snd session)) FastCgiCodec_new Buffer_new)
       (fun '(es, c, buf) => es = replies (fun _ _ => hello) session /\ idle c /\ holds [] buf)
  /\ forall body, zlen body < 65536 ->
       drain_all rec_next (response body) = (response_recs body, false, []).
Proof.
  intros Hs. split; [| split; [| intros; by apply response_decodes]].
  - intros fill body Hf. apply session_served; [| done]. intros params s buf. by apply responder_replies.
  - apply session_served; [| done]. intros params s buf H. rewrite onRequest_responder.
    by apply (responder_replies _ (fun _ _ => hello) params s buf hello_fills).
Qed.

(** ** A concrete session: two requests, the first one in two pieces *)

Definition demo_rec (t : Z) (content : list byte) (pad : nat) : rec :=
  mkRec (byte_of 1) (byte_of t) 1 NUL content (replicate pad NUL).
Definition demo_request (flags : byte) : request :=
  mkRequest flags [(bs "REQUEST_URI", bs "/"); (bs "LONG", replicate 200 SP)] (bs "a=1&b=2").
Definition demo_recs (flags : byte) : list rec :=
  let ps := concat (map enc_param (q_params (demo_request flags))) in
  [demo_rec 1 (be_bytes 2 1 ++ [flags] ++ replicate 5 NUL) 0; demo_rec 4 (ztake 100 ps) 4; demo_rec 4 (zdrop 100 ps) 0;
   demo_rec 4 [] 0; demo_rec 5 (bs "a=1&b=2") 1; demo_rec 5 [] 0].
Definition demo_session : list (request * list rec * list (list byte)) :=
  let b1 := concat (map enc (demo_recs Byte.x01)) in
  [(demo_request Byte.x01, demo_recs Byte.x01, [ztake 30 b1; zdrop 30 b1]);
   (demo_request Byte.x00, demo_recs Byte.x00, [concat (map enc (demo_recs Byte.x00))])].

Lemma demo_sent : Forall sent demo_session.
Proof.
  assert (H : forall flags, records_of (demo_request flags) (demo_recs flags)).
  { intros flags. exists (replicate 5 NUL).
    exists [ztake 100 (concat (map enc_param (q_params (demo_request flags)))); zdrop 100 (concat (map enc_param (q_params (demo_request flags))))].
    exists [bs "a=1&b=2"]. split; [reflexivity |]. split; [done |].
    split; [repeat constructor |]. split; [repeat constructor |]. split; [reflexivity |]. split; [reflexivity |].
    split; [repeat constructor |]. by destruct flags; repeat constructor. }
  constructor; [| constructor; [| constructor]]; (split; [apply H | split; [reflexivity | repeat constructor]]).
Qed.

Lemma fastcgi_served_witness :
  safe (run_connection onRequest (concat (map snd demo_session)) FastCgiCodec_new Buffer_new)
    (fun '(es, c, buf) =>
       es = [Send (response hello); Send (response hello); Shutdown] /\ idle c /\ holds [] buf).
Proof. exact (proj1 (proj2 (fastcgi_served demo_session demo_sent))). Defined.

(** Two requests in one piece are taken for one: the callback is called once,
    and its input is both bodies. *)
Example pipelined_requests_merge :
  match run_connection (fun _ in_ => mret [Send (contents in_)])
          [concat (map enc (demo_recs Byte.x01)) ++ concat (map enc (demo_recs Byte.x01))]
          FastCgiCodec_new Buffer_new with
  | Ok (es, _, _) => es = [Send (bs "a=1&b=2a=1&b=2")]
  | Err _ => False
  end.
Proof. vm_compute. reflexivity. Qed.
