(* ===== verification/RpcChannel.v ===== *)
(** * RpcChannel: remote calls over a connection

    [muduo/net/protorpc/RpcChannel.h], [RpcChannel.cc].  First the channel's
    operations; then a client and a server channel over two streams that keep
    order (what [RpcCodec.v] shows of the codec and [TcpConnection.v] of the
    connection), with any number of threads calling and the server answering
    in any order. *)
From S2P Require Import Prelude.

(** ** Messages: the generated class of rpc.proto *)

Inductive MessageType : Type := REQUEST | RESPONSE | ERROR.

(** An optional field that is not set reads as the empty string;
    [has_response] is whether [response_] is set. *)
Record RpcMessage : Type := mkMessage {
  type_ : MessageType;
  msg_id : Z;
  service_ : list byte;
  method_ : list byte;
  request_ : list byte;
  response_ : option (list byte)
}.

(** ** The channel *)

(** [response] is the address of the caller's message object (0 is NULL),
    [done] its closure, if there is one. *)
(*@ muduo/muduo/net/protorpc/RpcChannel.h 133-137 RpcChannel::OutstandingCall *)
Record OutstandingCall : Type := mkCall { response : Z; done_ : option Z }.

(** The methods of each service by name. *)
Abbreviation service_map := (gmap (list byte) (gset (list byte))).

(** [services_] is not initialised by the constructors: [Unset]. *)
Inductive services : Type := Unset | Services (m : option service_map).

(*@ muduo/muduo/net/protorpc/RpcChannel.h 139-146 RpcChannel *)
Record RpcChannel : Type := mkChannel {
  id_ : Z;
  outstandings_ : gmap Z OutstandingCall;
  services_ : services
}.

(*@ muduo/muduo/net/protorpc/RpcChannel.cc 27-32 RpcChannel::RpcChannel *)
Definition RpcChannel_new : RpcChannel := mkChannel 0 ∅ Unset.

(*@ muduo/muduo/net/protorpc/RpcChannel.h 107-110 RpcChannel::setServices *)
Definition setServices (m : service_map) (ch : RpcChannel) : RpcChannel :=
  mkChannel (id_ ch) (outstandings_ ch) (Services (Some m)).

(** [CallMethod] is two atomic actions: the number is drawn and the message
    sent, then the call is registered under the lock. *)
(*@ muduo/muduo/net/protorpc/RpcChannel.cc 50-57 RpcChannel::CallMethod *)
Definition CallMethod_send (service method request : list byte) (ch : RpcChannel) : Z * RpcMessage * RpcChannel :=
  let id := s64 (id_ ch + 1) in
  (id, mkMessage REQUEST (u64 id) service method request None, mkChannel id (outstandings_ ch) (services_ ch)).
(*@ muduo/muduo/net/protorpc/RpcChannel.cc 59-61 RpcChannel::CallMethod *)
Definition CallMethod_register (id : Z) (out : OutstandingCall) (ch : RpcChannel) : RpcChannel :=
  mkChannel (id_ ch) (<[id := out]> (outstandings_ ch)) (services_ ch).

(** What handling a message makes the program do: complete a call (parse the
    text into the response, run the closure, delete the response), or call a
    method of a service, which will run [doneCallback] when it has answered. *)
Inductive effect : Type :=
| Complete (out : OutstandingCall) (text : list byte)
| Serve (id : Z) (service method request : list byte).

(*@ muduo/muduo/net/protorpc/RpcChannel.cc 71-145 RpcChannel::onRpcMessage *)
Definition onRpcMessage (message : RpcMessage) (ch : RpcChannel) : res (RpcChannel * option effect) :=
  match type_ message with
  | RESPONSE =>
      let id := s64 (msg_id message) in
      match response_ message with
      | None => Err AssertFail
      | Some text =>
          let '(out, ch) :=
            match outstandings_ ch !! id with
            | Some out => (out, mkChannel (id_ ch) (delete id (outstandings_ ch)) (services_ ch))
            | None => (mkCall 0 None, ch)
            end in
          if negb (response out =? 0) then mret (ch, Some (Complete out text)) else mret (ch, None)
      end
  | REQUEST =>
      match services_ ch with
      | Unset => Err BadAccess
      | Services None => mret (ch, None)
      | Services (Some services) =>
          match services !! service_ message with
          | Some methods =>
              if decide (method_ message ∈ methods)
              then mret (ch, Some (Serve (s64 (msg_id message)) (service_ message) (method_ message) (request_ message)))
              else mret (ch, None)
          | None => mret (ch, None)
          end
      end
  | ERROR => mret (ch, None)
  end.

(*@ muduo/muduo/net/protorpc/RpcChannel.cc 147-155 RpcChannel::doneCallback *)
Definition doneCallback (text : list byte) (id : Z) : RpcMessage :=
  mkMessage RESPONSE (u64 id) [] [] [] (Some text).

(*@ muduo/muduo/net/protorpc/RpcServer.cc 33-37 RpcServer::registerService *)
Definition registerService (name : list byte) (methods : gset (list byte)) (m : service_map) : service_map :=
  <[name := methods]> m.

(** [RpcServer::onConnection] gives every new connection a channel with the
    server's services. *)
(*@ muduo/muduo/net/protorpc/RpcServer.cc 44-62 RpcServer::onConnection *)
Definition server_channel (m : service_map) : RpcChannel := setServices m RpcChannel_new.

(** ** A client and a server *)

(** A call somebody made. *)
Record call : Type := mkCallInfo {
  ci_service : list byte; ci_method : list byte; ci_request : list byte; ci_out : OutstandingCall
}.

Section system.
(** What a method answers. *)
Variable impl : list byte -> list byte -> list byte -> list byte.
Variable provided : service_map.

Record sys : Type := mkSys {
  client : RpcChannel;
  server : RpcChannel;
  c2s : list RpcMessage;
  s2c : list RpcMessage;
  (** the threads between sending and registering *)
  inflight : list (Z * (Z * OutstandingCall));
  (** the calls the server's services have not answered yet *)
  serving : list (Z * (list byte * list byte * list byte));
  (** the client's response objects that were not deleted *)
  objects : gset Z;
  (** histories: the calls made; those completed, with the answer; the
      requests the server has no method for; the responses that found nothing
      registered, with their text *)
  calls : list call;
  completed : list (Z * (OutstandingCall * list byte));
  dropped : list RpcMessage;
  early : list (Z * list byte)
}.

Definition init : sys :=
  mkSys RpcChannel_new (server_channel provided) [] [] [] [] ∅ [] [] [] [].

Inductive event : Type :=
(** thread [t] draws a number and sends *)
| EvCall (t : Z) (c : call)
| EvRegister (t : Z)
| EvServerReceive
(** the [i]-th call being served is answered *)
| EvAnswer (i : nat)
| EvClientReceive.

(** A caller is not inside another call, and passes a response object of its
    own; [delete] of an object that is not there is a fault. *)
Definition run_event (e : event) (w : sys) : res sys :=
  match e with
  | EvCall t c =>
      if decide (t ∈ (inflight w).*1 \/ response (ci_out c) ∈ objects w \/ response (ci_out c) = 0) then mret w
      else
        let '(id, m, ch) := CallMethod_send (ci_service c) (ci_method c) (ci_request c) (client w) in
        mret (mkSys ch (server w) (c2s w ++ [m]) (s2c w) (inflight w ++ [(t, (id, ci_out c))]) (serving w)
                ({[response (ci_out c)]} ∪ objects w) (calls w ++ [c]) (completed w) (dropped w) (early w))
  | EvRegister t =>
      match list_find (fun x => x.1 = t) (inflight w) with
      | None => mret w
      | Some (i, (_, (id, out))) =>
          mret (mkSys (CallMethod_register id out (client w)) (server w) (c2s w) (s2c w) (delete i (inflight w))
                  (serving w) (objects w) (calls w) (completed w) (dropped w) (early w))
      end
  | EvServerReceive =>
      match c2s w with
      | [] => mret w
      | m :: rest =>
          '(ch, e) ← onRpcMessage m (server w);
          match e with
          | Some (Serve id s me r) =>
              mret (mkSys (client w) ch rest (s2c w) (inflight w) (serving w ++ [(id, (s, me, r))])
                      (objects w) (calls w) (completed w) (dropped w) (early w))
          | Some (Complete _ _) => Err BadAccess
          | None => mret (mkSys (client w) ch rest (s2c w) (inflight w) (serving w) (objects w) (calls w)
                            (completed w) (dropped w ++ [m]) (early w))
          end
      end
  | EvAnswer i =>
      match serving w !! i with
      | None => mret w
      | Some (id, (s, me, r)) =>
          mret (mkSys (client w) (server w) (c2s w) (s2c w ++ [doneCallback (impl s me r) id]) (inflight w)
                  (delete i (serving w)) (objects w) (calls w) (completed w) (dropped w) (early w))
      end
  | EvClientReceive =>
      match s2c w with
      | [] => mret w
      | m :: rest =>
          '(ch, e) ← onRpcMessage m (client w);
          match e with
          | Some (Complete out text) =>
              if decide (response out ∈ objects w)
              then mret (mkSys ch (server w) (c2s w) rest (inflight w) (serving w) (objects w ∖ {[response out]})
                           (calls w) (completed w ++ [(s64 (msg_id m), (out, text))]) (dropped w) (early w))
              else Err BadAccess
          | Some (Serve _ _ _ _) => Err BadAccess
          | None => mret (mkSys ch (server w) (c2s w) rest (inflight w) (serving w) (objects w) (calls w)
                            (completed w) (dropped w) (early w ++ [(s64 (msg_id m), default [] (response_ m))]))
          end
      end
  end.

Fixpoint run_events (es : list event) (w : sys) : res sys :=
  match es with [] => mret w | e :: es => w ← run_event e w; run_events es w end.
End system.

(** ** Numbered calls *)

(** The [k]-th call gets the number [k + 1]. *)
Definition number {X} (f : call -> X) (cs : list call) : list (Z * X) :=
  imap (fun k c => (Z.of_nat k + 1, f c)) cs.

Section numbers.
Context {X : Type} (f : call -> X).

Lemma number_snoc cs c : number f (cs ++ [c]) = number f cs ++ [(Z.of_nat (length cs) + 1, f c)].
Proof. unfold number. rewrite imap_app. simpl. by rewrite Nat.add_0_r. Qed.

Lemma elem_number cs i x : (i, x) ∈ number f cs -> 1 <= i <= Z.of_nat (length cs) /\
  exists c, cs !! Z.to_nat (i - 1) = Some c /\ x = f c.
Proof.
  intros (k & c & Heq & Hk)%elem_of_lookup_imap. simplify_eq.
  pose proof (lookup_lt_Some _ _ _ Hk). split; [lia|].
  exists c. by replace (Z.to_nat (Z.of_nat k + 1 - 1)) with k by lia.
Qed.

Lemma number_ids_NoDup cs : NoDup (number f cs).*1.
Proof.
  induction cs as [|c cs IH] using rev_ind; [apply NoDup_nil_2|].
  rewrite number_snoc, fmap_app. apply NoDup_app. split; [done|].
  split; [|apply NoDup_singleton].
  intros i Hi Hl%list_elem_of_singleton. simpl in Hl. subst i.
  apply list_elem_of_fmap in Hi as ([j x] & Hj & (Hb & _)%elem_number). simpl in Hj. lia.
Qed.
End numbers.

Section correctness.
Variable impl : list byte -> list byte -> list byte -> list byte.
Variable provided : service_map.

(** The answer the services give to a call, to a request and to what is being
    served. *)
Definition answer (c : call) : list byte := impl (ci_service c) (ci_method c) (ci_request c).
Definition req_answer (m : RpcMessage) : Z * list byte :=
  (s64 (msg_id m), impl (service_ m) (method_ m) (request_ m)).
Definition resp_answer (m : RpcMessage) : Z * list byte := (s64 (msg_id m), default [] (response_ m)).
Definition serving_answer (x : Z * (list byte * list byte * list byte)) : Z * list byte :=
  (x.1, impl x.2.1.1 x.2.1.2 x.2.2).

(** The calls that are not completed yet. *)
Definition live (w : sys) : list (Z * OutstandingCall) :=
  (inflight w).*2 ++ map_to_list (outstandings_ (client w)).
Definition completed_outs (w : sys) : list (Z * OutstandingCall) :=
  (fun x => (x.1, x.2.1)) <$> completed w.
Definition completed_texts (w : sys) : list (Z * list byte) :=
  (fun x => (x.1, x.2.2)) <$> completed w.
(** The answers under way or arrived. *)
Definition answers (w : sys) : list (Z * list byte) :=
  (req_answer <$> c2s w) ++ (serving_answer <$> serving w) ++ (resp_answer <$> s2c w) ++
  completed_texts w ++ early w ++ (req_answer <$> dropped w).

Record Inv (w : sys) : Prop := {
  inv_id : id_ (client w) = Z.of_nat (length (calls w));
  inv_bound : Z.of_nat (length (calls w)) < 2 ^ 63;
  inv_services : services_ (server w) = Services (Some provided);
  inv_c2s : Forall (fun m => type_ m = REQUEST) (c2s w);
  inv_s2c : Forall (fun m => type_ m = RESPONSE /\ is_Some (response_ m)) (s2c w);
  inv_live : live w ++ completed_outs w ≡ₚ number ci_out (calls w);
  inv_answers : answers w ≡ₚ number answer (calls w);
  inv_threads : NoDup (inflight w).*1;
  inv_distinct : NoDup ((fun x => response x.2) <$> live w);
  inv_objects : forall a, a ∈ objects w <-> a ∈ ((fun x => response x.2) <$> live w);
  inv_null : 0 ∉ objects w
}.

Lemma init_inv : Inv (init provided).
Proof.
  split; simpl; try done; try apply NoDup_nil_2. intros a. rewrite elem_of_nil. set_solver.
Qed.

Lemma live_ids_NoDup w : Inv w -> NoDup (live w ++ completed_outs w).*1.
Proof. intros HI. rewrite (inv_live w HI). apply number_ids_NoDup. Qed.

Lemma id_wire z : 0 <= z < 2 ^ 63 -> s64 (u64 z) = z.
Proof. intros Hz. rewrite u64_small by lia. apply s64_small. lia. Qed.

(** The number of a live call is its own: nothing is registered under it. *)
Lemma inflight_unregistered w i t id out : Inv w -> inflight w !! i = Some (t, (id, out)) ->
  outstandings_ (client w) !! id = None.
Proof.
  intros HI Hi. pose proof (live_ids_NoDup w HI) as Hnd. unfold live in Hnd.
  rewrite <- app_assoc, fmap_app in Hnd. apply NoDup_app in Hnd as (_ & Hd & _).
  destruct (outstandings_ (client w) !! id) eqn:Ho; [|done].
  exfalso. apply (Hd id).
  - apply list_elem_of_fmap. exists (id, out). split; [done|].
    apply list_elem_of_fmap. exists (t, (id, out)). split; [done|].
    by eapply list_elem_of_lookup_2.
  - rewrite fmap_app. apply elem_of_app. left. apply list_elem_of_fmap. exists (id, o).
    split; [done|]. by apply elem_of_map_to_list.
Qed.

Definition step_ok (w : sys) (r : res sys) : Prop :=
  exists w', r = Ok w' /\ Inv w' /\ (length (calls w') <= S (length (calls w)))%nat.

Lemma step_same w : Inv w -> step_ok w (mret w).
Proof. intros HI. exists w. split; [done|]. split; [done|]. lia. Qed.

Lemma call_step w t c : Inv w -> Z.of_nat (length (calls w)) + 1 < 2 ^ 63 ->
  step_ok w (run_event impl (EvCall t c) w).
Proof.
  intros HI Hb. simpl. case_decide as Hg; [by apply step_same|].
  apply Decidable.not_or in Hg as [Ht Hg]. apply Decidable.not_or in Hg as [Hf Hn].
  rewrite (inv_id w HI), s64_small by lia.
  set (x := (Z.of_nat (length (calls w)) + 1, ci_out c)).
  eexists. split; [done|]. split; [|simpl; rewrite length_app; simpl; lia].
  match goal with |- Inv ?W => assert (Hlv : live W ≡ₚ x :: live w) end.
  { unfold live. simpl. rewrite fmap_app. simpl. subst x. solve_Permutation. }
  destruct HI as [Hid Hbd Hsv Hc2s Hs2c Hlive Hans Hth Hdis Hobj Hnull].
  split; simpl; try done.
  - rewrite length_app. simpl. lia.
  - rewrite length_app. simpl. lia.
  - by apply Forall_app_2; [|repeat constructor].
  - rewrite Hlv, number_snoc, <- Hlive. subst x. unfold completed_outs. simpl. solve_Permutation.
  - unfold answers in *. simpl. rewrite number_snoc, <- Hans, fmap_app. simpl. unfold req_answer at 2. simpl.
    rewrite id_wire by lia. change (impl _ _ _) with (answer c). unfold completed_texts. solve_Permutation.
  - rewrite fmap_app. apply NoDup_app. split; [done|]. simpl.
    split; [|apply NoDup_singleton]. intros y Hy Hl%list_elem_of_singleton. by subst y.
  - rewrite Hlv. simpl. apply NoDup_cons. by rewrite <- Hobj.
  - intros a. rewrite Hlv. simpl. rewrite elem_of_cons, elem_of_union, elem_of_singleton, Hobj. done.
  - rewrite elem_of_union, elem_of_singleton. intros [?|?]; [congruence | done].
Qed.

Lemma register_step w t : Inv w -> step_ok w (run_event impl (EvRegister t) w).
Proof.
  intros HI. simpl.
  destruct (list_find _ _) as [[i [t' [id out]]]|] eqn:Hfind; [|by apply step_same].
  apply list_find_Some in Hfind as (Hi & Ht & _). simpl in Ht. subst t'.
  pose proof (inflight_unregistered w i t id out HI Hi) as Hno.
  eexists. split; [done|]. split; [|simpl; lia].
  assert (Hlv : live (mkSys (CallMethod_register id out (client w)) (server w) (c2s w) (s2c w) (delete i (inflight w))
             (serving w) (objects w) (calls w) (completed w) (dropped w) (early w)) ≡ₚ live w).
  { unfold live. simpl. rewrite map_to_list_insert by done.
    rewrite (delete_Permutation (inflight w) i _ Hi) at 2. simpl. solve_Permutation. }
  destruct HI as [Hid Hbd Hsv Hc2s Hs2c Hlive Hans Hth Hdis Hobj Hnull].
  split; try done.
  - by rewrite Hlv.
  - rewrite (delete_Permutation (inflight w) i _ Hi) in Hth. by apply NoDup_cons in Hth as [_ Hth].
  - by rewrite Hlv.
  - intros a. by rewrite Hlv.
Qed.

Lemma answer_step w i : Inv w -> step_ok w (run_event impl (EvAnswer i) w).
Proof.
  intros HI. simpl. destruct (serving w !! i) as [[id [[s me] r]]|] eqn:Hi; [|by apply step_same].
  eexists. split; [done|]. split; [|simpl; lia].
  assert (Hr : 0 <= id < 2 ^ 63).
  { assert (Hin : (id, impl s me r) ∈ answers w).
    { unfold answers. rewrite !elem_of_app. right. left. apply list_elem_of_fmap.
      exists (id, (s, me, r)). split; [done|]. by eapply list_elem_of_lookup_2. }
    rewrite (inv_answers w HI) in Hin. apply elem_number in Hin as [Hin _].
    pose proof (inv_bound w HI). lia. }
  destruct HI as [Hid Hbd Hsv Hc2s Hs2c Hlive Hans Hth Hdis Hobj Hnull].
  split; try done.
  - simpl. apply Forall_app_2; [done|]. repeat constructor. by eexists.
  - rewrite <- Hans. unfold answers, completed_texts. simpl.
    rewrite (delete_Permutation (serving w) i _ Hi) at 2.
    rewrite fmap_app. simpl. unfold resp_answer at 2. simpl. rewrite id_wire by done.
    unfold serving_answer at 2. simpl. solve_Permutation.
Qed.

Lemma server_step w : Inv w -> step_ok w (run_event impl EvServerReceive w).
Proof.
  intros HI. simpl. destruct (c2s w) as [|m rest] eqn:Hq; [by apply step_same|].
  destruct HI as [Hid Hbd Hsv Hc2s Hs2c Hlive Hans Hth Hdis Hobj Hnull].
  rewrite Hq in Hc2s. apply Forall_cons in Hc2s as [Hty Hc2s].
  unfold answers in Hans. rewrite Hq in Hans.
  unfold onRpcMessage. rewrite Hty, Hsv.
  assert (Hdrop : step_ok w (mret (mkSys (client w) (server w) rest (s2c w) (inflight w) (serving w) (objects w) (calls w)
                            (completed w) (dropped w ++ [m]) (early w)))).
  { eexists. split; [done|]. split; [|simpl; lia]. split; try done.
    rewrite <- Hans. unfold answers, completed_texts. simpl. rewrite fmap_app. simpl. solve_Permutation. }
  destruct (provided !! service_ m) as [methods|]; [|exact Hdrop].
  case_decide; [|exact Hdrop]. rsimp.
  eexists. split; [done|]. split; [|simpl; lia]. split; try done.
  rewrite <- Hans. unfold answers, completed_texts. simpl. rewrite fmap_app. simpl.
  change (serving_answer (s64 (msg_id m), _)) with (req_answer m). solve_Permutation.
Qed.

Lemma registered_object w id out : Inv w -> outstandings_ (client w) !! id = Some out ->
  response out ∈ objects w /\ response out <> 0.
Proof.
  intros HI Ho. assert (Hin : response out ∈ objects w).
  { apply (inv_objects w HI). apply list_elem_of_fmap. exists (id, out). split; [done|].
    apply elem_of_app. right. by apply elem_of_map_to_list. }
  split; [done|]. intros H0. apply (inv_null w HI). by rewrite <- H0.
Qed.

Lemma client_step w : Inv w -> step_ok w (run_event impl EvClientReceive w).
Proof.
  intros HI. simpl. destruct (s2c w) as [|m rest] eqn:Hq; [by apply step_same|].
  pose proof (registered_object w (s64 (msg_id m))) as Hreg.
  pose proof HI as HI'.
  destruct HI' as [Hid Hbd Hsv Hc2s Hs2c Hlive Hans Hth Hdis Hobj Hnull].
  rewrite Hq in Hs2c. apply Forall_cons in Hs2c as [[Hty [text Htext]] Hs2c].
  unfold answers in Hans. rewrite Hq in Hans.
  unfold onRpcMessage. rewrite Hty, Htext.
  destruct (outstandings_ (client w) !! s64 (msg_id m)) as [out|] eqn:Ho.
  - destruct (Hreg out HI eq_refl) as [Hin Hn0].
    rewrite (proj2 (Z.eqb_neq _ _) Hn0). simpl. rewrite decide_True by done.
    eexists. split; [done|]. split; [|simpl; lia].
    match goal with |- Inv ?W => assert (Hlv : live w ≡ₚ (s64 (msg_id m), out) :: live W) end.
    { unfold live. simpl. rewrite <- (map_to_list_delete _ _ _ Ho). solve_Permutation. }
    rewrite Hlv in Hdis, Hlive. simpl in Hdis. apply NoDup_cons in Hdis as [Hnin Hdis].
    split; try done.
    + rewrite <- Hlive. unfold completed_outs. simpl. rewrite fmap_app. simpl. solve_Permutation.
    + rewrite <- Hans. unfold answers, completed_texts. simpl. rewrite fmap_app. simpl.
      unfold resp_answer at 2. rewrite Htext. simpl. solve_Permutation.
    + intros a. simpl. rewrite elem_of_difference, elem_of_singleton, Hobj, Hlv. simpl.
      rewrite elem_of_cons. split; [tauto|]. intros Ha. split; [by right|]. intros ->. done.
    + simpl. rewrite elem_of_difference. tauto.
  - simpl. eexists. split; [done|]. split; [|simpl; lia]. split; try done.
    rewrite <- Hans. unfold answers, completed_texts. simpl. unfold resp_answer at 2. rewrite Htext.
    simpl. solve_Permutation.
Qed.

Lemma event_step e w : Inv w -> Z.of_nat (length (calls w)) + 1 < 2 ^ 63 ->
  step_ok w (run_event impl e w).
Proof.
  intros HI Hb. destruct e;
    [by apply call_step | by apply register_step | by apply server_step | by apply answer_step | by apply client_step].
Qed.

Lemma rpc_events_inv es : forall w, Inv w -> Z.of_nat (length (calls w) + length es) < 2 ^ 63 ->
  exists w', run_events impl es w = Ok w' /\ Inv w'.
Proof.
  induction es as [|e es IH]; intros w HI Hb; simpl in Hb |- *; [by exists w|].
  destruct (event_step e w HI ltac:(lia)) as (w1 & -> & HI1 & Hl). rsimp.
  apply (IH w1 HI1). lia.
Qed.

(** What a quiet system is: nothing under way. *)
Definition quiet (w : sys) : Prop :=
  c2s w = [] /\ s2c w = [] /\ inflight w = [] /\ serving w = [].

Lemma answer_ids_NoDup w : Inv w -> NoDup (answers w).*1.
Proof. intros HI. rewrite (inv_answers w HI). apply number_ids_NoDup. Qed.

Lemma early_not_completed w id : Inv w -> id ∈ (early w).*1 -> id ∉ (completed w).*1.
Proof.
  intros HI He Hc. pose proof (answer_ids_NoDup w HI) as Hnd. unfold answers in Hnd.
  rewrite !fmap_app in Hnd.
  apply NoDup_app in Hnd as (_ & _ & Hnd). apply NoDup_app in Hnd as (_ & _ & Hnd).
  apply NoDup_app in Hnd as (_ & _ & Hnd). apply NoDup_app in Hnd as (_ & Hd & _).
  apply (Hd id).
  - unfold completed_texts. by rewrite <- list_fmap_compose.
  - apply elem_of_app. by left.
Qed.

(** *** Which calls cannot complete *)

(** The server has the method. *)
Definition provides (service method : list byte) : Prop :=
  exists methods, provided !! service = Some methods /\ method ∈ methods.

(** A response that is received while the thread that made the call is still
    between sending and registering it: the calls that this happens to in a run,
    by number.  Whether it happens is a matter of the order of the events only. *)
Definition overtaken_by (e : event) (w : sys) : list Z :=
  match e, s2c w with
  | EvClientReceive, m :: _ =>
      if decide (s64 (msg_id m) ∈ (inflight w).*2.*1) then [s64 (msg_id m)] else []
  | _, _ => []
  end.
Fixpoint overtaken (es : list event) (w : sys) : list Z :=
  match es with
  | [] => []
  | e :: es => overtaken_by e w ++ match run_event impl e w with Ok w' => overtaken es w' | Err _ => [] end
  end.

(** The calls behind the messages. *)
Definition of_call (w : sys) (id : Z) (Q : call -> Prop) : Prop :=
  exists c, calls w !! Z.to_nat (id - 1) = Some c /\ Q c.
Record Hist (w : sys) : Prop := {
  h_req m : m ∈ c2s w ++ dropped w ->
    of_call w (s64 (msg_id m)) (fun c => service_ m = ci_service c /\ method_ m = ci_method c);
  h_dropped m : m ∈ dropped w -> ~ provides (service_ m) (method_ m);
  h_known id : id ∈ (serving w).*1 ++ ((fun m => s64 (msg_id m)) <$> s2c w) ++ (completed w).*1 ++ (early w).*1 ->
    of_call w id (fun c => provides (ci_service c) (ci_method c))
}.

Lemma init_hist : Hist (init provided).
Proof. split; cbn; intros ? []%not_elem_of_nil. Qed.

Lemma of_call_grows w w' c id Q : calls w' = calls w ++ [c] -> of_call w id Q -> of_call w' id Q.
Proof. intros E (c' & Hc & HQ). exists c'. split; [|done]. rewrite E. by apply lookup_app_l_Some. Qed.

Lemma serving_range w i id x : Inv w -> serving w !! i = Some (id, x) -> 0 <= id < 2 ^ 63.
Proof.
  intros HI Hi. assert (Hin : (id, impl x.1.1 x.1.2 x.2) ∈ answers w).
  { unfold answers. rewrite !elem_of_app. right. left. apply list_elem_of_fmap.
    exists (id, x). split; [done|]. by eapply list_elem_of_lookup_2. }
  rewrite (inv_answers w HI) in Hin. apply elem_number in Hin as [Hin _].
  pose proof (inv_bound w HI). lia.
Qed.

(** A response on its way is for a call that is not completed; if nothing is
    registered for it, its thread has not come that far. *)
Lemma unregistered_inflight w m rest : Inv w -> s2c w = m :: rest ->
  outstandings_ (client w) !! s64 (msg_id m) = None <-> s64 (msg_id m) ∈ (inflight w).*2.*1.
Proof.
  intros HI Hq. pose proof (answer_ids_NoDup w HI) as Hnd.
  assert (Hans : (s64 (msg_id m), default [] (response_ m)) ∈ answers w).
  { unfold answers. rewrite Hq, !elem_of_app. right. right. left. apply list_elem_of_fmap. exists m.
    split; [done | apply list_elem_of_here]. }
  split.
  - intros Hno. rewrite (inv_answers w HI) in Hans. apply elem_number in Hans as (Hb & c & Hc & _).
    assert (Hn : (s64 (msg_id m), ci_out c) ∈ number ci_out (calls w)).
    { apply elem_of_lookup_imap. exists (Z.to_nat (s64 (msg_id m) - 1)), c.
      split; [f_equal; lia | done]. }
    rewrite <- (inv_live w HI) in Hn. unfold live in Hn. rewrite !elem_of_app in Hn.
    destruct Hn as [[Hn | Hn] | Hn].
    + apply list_elem_of_fmap. by exists (s64 (msg_id m), ci_out c).
    + apply elem_of_map_to_list in Hn. congruence.
    + exfalso. unfold answers in Hnd. rewrite Hq, !fmap_app in Hnd. cbn [fmap list_fmap] in Hnd.
      apply NoDup_app in Hnd as (_ & _ & Hnd). apply NoDup_app in Hnd as (_ & _ & Hnd).
      apply NoDup_app in Hnd as (_ & Hd & _). apply (Hd (s64 (msg_id m))); [by left|].
      apply elem_of_app. left. unfold completed_texts. rewrite <- list_fmap_compose.
      apply list_elem_of_fmap in Hn as ([id [o t]] & E & Hc'). injection E as E _. cbn in E.
      apply list_elem_of_fmap. by exists (id, (o, t)).
  - intros ([id out] & E & ([t [id' out']] & E' & Hi)%list_elem_of_fmap)%list_elem_of_fmap.
    cbn in E, E'. simplify_eq. apply list_elem_of_lookup in Hi as [i Hi].
    by eapply inflight_unregistered.
Qed.

Lemma hist_step e w w' : Inv w -> Z.of_nat (length (calls w)) + 1 < 2 ^ 63 -> Hist w ->
  run_event impl e w = Ok w' -> Hist w' /\ (early w').*1 = (early w).*1 ++ overtaken_by e w.
Proof.
  intros HI Hb HH Hr. pose proof HH as [Hreq Hdrop Hknown].
  assert (Hsame : Hist w /\ (early w).*1 = (early w).*1 ++ []) by (by rewrite app_nil_r).
  destruct e as [t c | t | | i |]; cbn [run_event overtaken_by] in *.
  - case_decide; [injection Hr as <-; by destruct (s2c w)|]. cbn in Hr. injection Hr as <-.
    split; [|by rewrite app_nil_r]. split; cbn.
    + intros m. rewrite !elem_of_app. intros [[Hm | ->%list_elem_of_singleton] | Hm].
      * eapply of_call_grows; [done|]. apply Hreq, elem_of_app. by left.
      * cbn. rewrite (inv_id w HI), (s64_small (Z.of_nat _ + 1)), id_wire by lia.
        exists c. split; [|done]. apply list_lookup_middle. lia.
      * eapply of_call_grows; [done|]. apply Hreq, elem_of_app. by right.
    + done.
    + intros id Hid. eapply of_call_grows; [done | by apply Hknown].
  - destruct (list_find _ _) as [[i [t' [id out]]]|]; cbn in Hr; injection Hr as <-; [|by destruct (s2c w)].
    split; [by split | by rewrite app_nil_r].
  - destruct (c2s w) as [|m rest] eqn:Hq; [by injection Hr as <-|].
    unfold onRpcMessage in Hr. rewrite (inv_services w HI) in Hr.
    pose proof (inv_c2s w HI) as Hty. rewrite Hq in Hty. apply Forall_cons in Hty as [Hty _]. rewrite Hty in Hr.
    assert (Hrest : forall m', m' ∈ rest \/ m' ∈ dropped w -> of_call w (s64 (msg_id m'))
      (fun c => service_ m' = ci_service c /\ method_ m' = ci_method c)).
    { intros m' Hm. apply Hreq. rewrite elem_of_app, elem_of_cons. tauto. }
    assert (Hm : of_call w (s64 (msg_id m)) (fun c => service_ m = ci_service c /\ method_ m = ci_method c))
      by (apply Hreq; by left).
    assert (Hdr : forall w', ~ provides (service_ m) (method_ m) ->
      Ok (mkSys (client w) (server w) rest (s2c w) (inflight w) (serving w) (objects w) (calls w)
                            (completed w) (dropped w ++ [m]) (early w)) = Ok w' ->
      Hist w' /\ (early w').*1 = (early w).*1 ++ []).
    { intros w0 Hno [= <-]. split; [|by rewrite app_nil_r]. split; cbn; [| |done].
      - intros m'. rewrite !elem_of_app, list_elem_of_singleton.
        intros [? | [? | ->]]; [apply Hrest; by left | apply Hrest; by right | exact Hm].
      - intros m'. rewrite elem_of_app, list_elem_of_singleton. intros [? | ->]; auto. }
    destruct (provided !! service_ m) as [methods|] eqn:Hp.
    2: { apply Hdr; [|done]. intros (? & ? & _). congruence. }
    case_decide as Hme; [|apply Hdr; [|done]; intros (? & ? & ?); congruence].
    cbn in Hr. injection Hr as <-. split; [|by rewrite app_nil_r]. split; cbn; [| done |].
    + intros m'. rewrite elem_of_app. apply Hrest.
    + intros id. rewrite fmap_app, <- app_assoc, elem_of_app. cbn. rewrite elem_of_cons.
      intros [Hid | [-> | Hid]]; try (apply Hknown, elem_of_app; tauto).
      destruct Hm as (c & Hc & E1 & E2). exists c. rewrite <- E1, <- E2. split; [done|]. by exists methods.
  - destruct (serving w !! i) as [[id [[s me] r]]|] eqn:Hi; cbn in Hr; injection Hr as <-; [|by destruct (s2c w)].
    split; [|by rewrite app_nil_r]. split; cbn; [done | done |].
    pose proof (serving_range w i id _ HI Hi) as Hid.
    assert (Hin : id ∈ (serving w).*1) by (apply list_elem_of_fmap; eexists; split; [|by eapply list_elem_of_lookup_2]; done).
    intros x. rewrite fmap_app, !elem_of_app. cbn. rewrite list_elem_of_singleton, id_wire by done.
    intros [Hx | [[Hx | ->] | Hx]]; apply Hknown; rewrite !elem_of_app; try tauto.
    left. apply list_elem_of_fmap in Hx as (y & -> & Hy). apply list_elem_of_fmap. exists y. split; [done|].
    rewrite (delete_Permutation (serving w) i _ Hi). by right.
  - destruct (s2c w) as [|m rest] eqn:Hq; [by injection Hr as <-|].
    pose proof (unregistered_inflight w m rest HI Hq) as Hun.
    assert (Hm : of_call w (s64 (msg_id m)) (fun c => provides (ci_service c) (ci_method c))).
    { apply Hknown. rewrite !elem_of_app. right. left. by left. }
    assert (Hk : forall id, id ∈ (serving w).*1 \/ id ∈ ((fun m => s64 (msg_id m)) <$> rest) \/ id ∈ (completed w).*1
        \/ id ∈ (early w).*1 \/ id = s64 (msg_id m) -> of_call w id (fun c => provides (ci_service c) (ci_method c))).
    { intros id [? | [? | [? | [? | ->]]]]; [..| done];
        apply Hknown; rewrite !elem_of_app; cbn; rewrite elem_of_cons; tauto. }
    pose proof (inv_s2c w HI) as Hs. rewrite Hq in Hs. apply Forall_cons in Hs as [[Hty [text Htext]] _].
    unfold onRpcMessage in Hr. rewrite Hty, Htext in Hr.
    destruct (outstandings_ (client w) !! s64 (msg_id m)) as [out|] eqn:Ho.
    + destruct (registered_object w _ _ HI Ho) as [Hin Hn0].
      rewrite (proj2 (Z.eqb_neq _ _) Hn0) in Hr. cbn [negb mbind res_bind mret res_ret] in Hr.
      rewrite decide_True in Hr by done. injection Hr as <-.
      rewrite decide_False by (intros Hx; by apply Hun in Hx). split; [|by rewrite app_nil_r].
      split; cbn; [done | done |]. intros id. rewrite fmap_app, !elem_of_app. cbn.
      rewrite list_elem_of_singleton. intros Hx. apply Hk. tauto.
    + cbn in Hr. injection Hr as <-. rewrite decide_True by (by apply Hun).
      cbn. split; [|by rewrite fmap_app]. split; cbn; [done | done |].
      intros id. rewrite fmap_app, !elem_of_app. cbn. rewrite list_elem_of_singleton. intros Hx. apply Hk. tauto.
Qed.

Lemma hist_run es : forall w w', Inv w -> Z.of_nat (length (calls w) + length es) < 2 ^ 63 -> Hist w ->
  run_events impl es w = Ok w' -> Hist w' /\ (early w').*1 = (early w).*1 ++ overtaken es w.
Proof.
  induction es as [|e es IH]; intros w w' HI Hb HH Hr; cbn [run_events overtaken length] in *.
  - injection Hr as <-. by rewrite app_nil_r.
  - destruct (event_step e w HI ltac:(lia)) as (w1 & Hw1 & HI1 & Hl).
    rewrite Hw1 in Hr |- *. cbn [mbind res_bind] in Hr.
    destruct (hist_step e w w1 HI ltac:(lia) HH Hw1) as [HH1 He].
    destruct (IH w1 w' HI1 ltac:(lia) HH1 Hr) as [HH' ->]. split; [done|]. by rewrite He, <- app_assoc.
Qed.

(** Once nothing is under way: which calls were completed. *)
Lemma quiet_completed w k c : Inv w -> Hist w -> quiet w -> calls w !! k = Some c ->
  Z.of_nat k + 1 ∈ (completed w).*1 <->
  provides (ci_service c) (ci_method c) /\ Z.of_nat k + 1 ∉ (early w).*1.
Proof.
  intros HI HH (Q1 & Q2 & Q3 & Q4) Hk.
  assert (Hc : forall id Q, id = Z.of_nat k + 1 -> of_call w id Q -> Q c).
  { intros id Q -> (c' & Hc' & HQ). replace (Z.to_nat (Z.of_nat k + 1 - 1)) with k in Hc' by lia. by simplify_eq. }
  split.
  - intros Hin. split; [|intros He; by eapply early_not_completed].
    apply (Hc _ (fun c => provides (ci_service c) (ci_method c)) eq_refl), (h_known w HH).
    rewrite !elem_of_app. tauto.
  - intros [Hpr Hne]. assert (Hn : (Z.of_nat k + 1, answer c) ∈ number answer (calls w))
      by (apply elem_of_lookup_imap; by exists k, c).
    rewrite <- (inv_answers w HI) in Hn. unfold answers in Hn. rewrite Q1, Q2, Q4, !elem_of_app in Hn. cbn in Hn.
    destruct Hn as [?%not_elem_of_nil | [?%not_elem_of_nil | [?%not_elem_of_nil | [Hn | [Hn | Hn]]]]]; try done.
    + apply list_elem_of_fmap in Hn as ([id [o t]] & E & Hn). injection E as E _. apply list_elem_of_fmap.
      by exists (id, (o, t)).
    + destruct Hne. apply list_elem_of_fmap. by exists (Z.of_nat k + 1, answer c).
    + apply list_elem_of_fmap in Hn as (m & E & Hm). injection E as E _.
      destruct (h_dropped w HH m Hm). destruct (Hc _ _ (eq_sym E) (h_req w HH m ltac:(apply elem_of_app; by right))) as [-> ->].
      done.
Qed.

(** C13: For every interleaving of calls, registrations, deliveries and answers
    (fewer than 2^63 of them), in any order of answering: nothing faults; no call is
    completed twice; every completion hands a call its own response object and
    closure and the answer of the service to its own request; the response
    objects not deleted yet are exactly those of the calls not completed yet;
    and when nothing is under way, the completed calls are exactly those that
    named a method of the server and whose response was not received while their
    thread was still between sending the request and registering the call. *)
Theorem calls_complete_once es : Z.of_nat (length es) < 2 ^ 63 ->
  exists w, run_events impl es (init provided) = Ok w /\
    NoDup (completed w).*1 /\
    (forall id out text, (id, (out, text)) ∈ completed w ->
       exists c, calls w !! Z.to_nat (id - 1) = Some c /\ out = ci_out c /\ text = answer c) /\
    NoDup ((fun x => response x.2) <$> live w) /\
    (forall a, a ∈ objects w <-> a ∈ ((fun x => response x.2) <$> live w)) /\
    live w ++ completed_outs w ≡ₚ number ci_out (calls w) /\
    (quiet w -> forall k c, calls w !! k = Some c ->
       Z.of_nat k + 1 ∈ (completed w).*1 <->
       provides (ci_service c) (ci_method c) /\ Z.of_nat k + 1 ∉ overtaken es (init provided)).
Proof.
  intros Hb. destruct (rpc_events_inv es (init provided) init_inv Hb) as (w & Hw & HI).
  destruct (hist_run es _ w init_inv Hb init_hist Hw) as [HH He].
  exists w. split; [done|].
  assert (Hids : (completed w).*1 = (completed_outs w).*1).
  { unfold completed_outs. by rewrite <- list_fmap_compose. }
  pose proof (live_ids_NoDup w HI) as Hnd. rewrite fmap_app in Hnd.
  apply NoDup_app in Hnd as (_ & _ & Hnd).
  split; [by rewrite Hids|].
  split.
  { intros id out text Hc.
    assert (H1 : (id, out) ∈ number ci_out (calls w)).
    { rewrite <- (inv_live w HI). apply elem_of_app. right. apply list_elem_of_fmap. by exists (id, (out, text)). }
    assert (H2 : (id, text) ∈ number answer (calls w)).
    { rewrite <- (inv_answers w HI). unfold answers. rewrite !elem_of_app. do 3 right. left.
      apply list_elem_of_fmap. by exists (id, (out, text)). }
    apply elem_number in H1 as (_ & c & Hc1 & ->). apply elem_number in H2 as (_ & c' & Hc2 & ->).
    exists c. by simplify_eq. }
  split; [apply (inv_distinct w HI)|]. split; [apply (inv_objects w HI)|].
  split; [apply (inv_live w HI)|].
  intros Hq k c Hk. rewrite (quiet_completed w k c HI HH Hq Hk). cbn in He. by rewrite He.
Qed.

Lemma early_grows e w w' id : run_event impl e w = Ok w' -> id ∈ (early w).*1 -> id ∈ (early w').*1.
Proof.
  intros He Hi. destruct e; simpl in He; repeat case_match; simplify_eq; try inv_res; try done.
  all: repeat case_match; unfold mret, res_ret in He; simplify_eq; simpl; try done.
  all: rewrite fmap_app; apply elem_of_app; by left.
Qed.

Lemma early_stays es id : forall w w', Inv w -> Z.of_nat (length (calls w) + length es) < 2 ^ 63 ->
  run_events impl es w = Ok w' -> id ∈ (early w).*1 -> id ∉ (completed w').*1.
Proof.
  induction es as [|e es IH]; intros w w' HI Hb Hr Hi; simpl in Hb, Hr.
  - injection Hr as <-. by apply early_not_completed.
  - apply bind_Ok in Hr as (w1 & Hw1 & Hr).
    destruct (event_step e w HI ltac:(lia)) as (w2 & Hw2 & HI2 & Hl).
    rewrite Hw2 in Hw1. simplify_eq.
    apply (IH w1 w' HI2); [lia | done | by eapply early_grows].
Qed.

(** A call is registered only after its request was sent: when the response is
    received in between, by the loop thread, it finds nothing registered and is
    thrown away; then the call is registered, and whatever happens afterwards it
    is never completed: its closure does not run and its response object is
    not deleted. *)
Theorem early_response_lost t c methods es : response (ci_out c) <> 0 ->
  provided !! ci_service c = Some methods -> ci_method c ∈ methods ->
  Z.of_nat (5 + length es) < 2 ^ 63 ->
  exists w, run_events impl [EvCall t c; EvServerReceive; EvAnswer 0; EvClientReceive; EvRegister t]
      (init provided) = Ok w /\
    quiet w /\ outstandings_ (client w) = {[1 := ci_out c]} /\
    exists w', run_events impl es w = Ok w' /\ 1 ∉ (completed w').*1.
Proof.
  intros Hn Hp Hm Hb.
  assert (Hrun : exists w, run_events impl [EvCall t c; EvServerReceive; EvAnswer 0; EvClientReceive; EvRegister t]
      (init provided) = Ok w /\ quiet w /\ outstandings_ (client w) = {[1 := ci_out c]} /\
      early w = [(1, answer c)] /\ length (calls w) = 1%nat).
  { cbn [run_events].
    assert (H1 : run_event impl (EvCall t c) (init provided) = Ok (mkSys (mkChannel 1 ∅ Unset) (server_channel provided)
      [mkMessage REQUEST 1 (ci_service c) (ci_method c) (ci_request c) None] [] [(t, (1, ci_out c))] []
      ({[response (ci_out c)]} ∪ ∅) [c] [] [] [])).
    { unfold run_event. case_decide as Hg; [|done]. simpl in Hg. rewrite elem_of_nil, elem_of_empty in Hg. tauto. }
    rewrite H1. clear H1. cbn [mbind res_bind].
    assert (H2 : onRpcMessage (mkMessage REQUEST 1 (ci_service c) (ci_method c) (ci_request c) None)
      (server_channel provided) = Ok (server_channel provided,
      Some (Serve 1 (ci_service c) (ci_method c) (ci_request c)))).
    { unfold onRpcMessage, server_channel, setServices. cbn [type_ services_ service_ method_].
      by rewrite Hp, decide_True by done. }
    assert (H3 : forall text, onRpcMessage (doneCallback text 1) (mkChannel 1 ∅ Unset) = Ok (mkChannel 1 ∅ Unset, None))
      by done.
    cbn [run_event c2s server]. rewrite H2. simpl. rewrite H3. simpl. rewrite decide_True by done. simpl.
    eexists. split; [done|]. split; [done|]. split; [done|]. done. }
  destruct Hrun as (w & Hw & Hq & Ho & He & Hl). exists w. split; [done|]. split; [done|]. split; [done|].
  destruct (rpc_events_inv [EvCall t c; EvServerReceive; EvAnswer 0; EvClientReceive; EvRegister t]
    (init provided) init_inv ltac:(simpl; lia)) as (w0 & Hw0 & HI).
  rewrite Hw in Hw0. simplify_eq.
  destruct (rpc_events_inv es w0 HI ltac:(lia)) as (w' & Hw' & _). exists w'. split; [done|].
  apply (early_stays es 1 w0 w' HI); [lia | done |]. rewrite He. simpl. set_solver.
Qed.
End correctness.

(** ** Examples *)

Definition demo_impl (s m r : list byte) : list byte := m ++ r.
Definition demo_provided : service_map := registerService [byte_of 83] {[ [byte_of 101] ]} ∅.
Definition demo_call (a : Z) : call := mkCallInfo [byte_of 83] [byte_of 101] [byte_of a] (mkCall a (Some a)).

(** Two calls answered in the opposite order; a third is overtaken by its
    response, and a fourth names a method that the server does not have. *)
Definition demo_events : list event :=
  [EvCall 1 (demo_call 11); EvCall 2 (demo_call 22); EvRegister 2; EvRegister 1; EvServerReceive;
   EvServerReceive; EvAnswer 1; EvAnswer 0; EvClientReceive; EvClientReceive;
   EvCall 1 (demo_call 33); EvServerReceive; EvAnswer 0; EvClientReceive; EvRegister 1;
   EvCall 2 (mkCallInfo [byte_of 83] [byte_of 102] [] (mkCall 44 None)); EvRegister 2; EvServerReceive].

Lemma calls_complete_once_witness :
  exists w, run_events demo_impl demo_events (init demo_provided) = Ok w /\ length (calls w) = 4%nat /\
    2 ∈ (completed w).*1 /\ 3 ∉ (completed w).*1.
Proof.
  destruct (calls_complete_once demo_impl demo_provided demo_events ltac:(simpl; lia))
    as (w & Hw & _ & _ & _ & _ & _ & Hq).
  exists w. split; [exact Hw|]. vm_compute in Hw. injection Hw as <-. split; [reflexivity|].
  specialize (Hq ltac:(by repeat split)). split.
  - apply (Hq 1%nat (demo_call 22) eq_refl). split; [eexists; split; [reflexivity | by_evaluation] | by_evaluation].
  - intros [_ Hn]%(Hq 2%nat (demo_call 33) eq_refl). apply Hn. by_evaluation.
Defined.

Lemma early_response_lost_witness :
  exists w, run_events demo_impl [EvCall 1 (demo_call 11); EvServerReceive; EvAnswer 0; EvClientReceive; EvRegister 1]
      (init demo_provided) = Ok w /\ outstandings_ (client w) = {[1 := mkCall 11 (Some 11)]}.
Proof.
  destruct (early_response_lost demo_impl demo_provided 1 (demo_call 11) {[ [byte_of 101] ]} []
    ltac:(discriminate) eq_refl ltac:(set_solver) ltac:(simpl; lia)) as (w & Hw & _ & Ho & _).
  exists w. split; [exact Hw | exact Ho].
Defined.
