(* ===== verification/WordCount.v ===== *)
(** * WordCount: [examples/wordcount/hasher.cc] and [receiver.cc]

    Distributed word counting: a hasher counts the words of its files in a
    table of limited size and sends the counts, a line each, to the receiver
    the hash of the word picks; the receivers add up.  [throttle] makes the
    hasher wait while a connection is congested: it delays what is sent and does
    not change it, so [throttler_send] leaves it out and it has a section of its
    own.

    Parameters: the hash function, and the order in which an unordered map is
    gone through. *)
From stdpp Require Import sorting.
From S2P Require Import Prelude Buffer Format Framing.

(** [WordCountMap]: words and [int64_t]s. *)
Abbreviation WordCountMap := (gmap (list byte) Z).
(** [m[word] += count]. *)
Definition count_word (word : list byte) (count : Z) (m : WordCountMap) : WordCountMap :=
  <[word := s64 (default 0 (m !! word) + count)]> m.

Definition TAB : byte := Byte.x09.

(** ** The hasher *)

(** [in >> word] until the end of the file. *)
Fixpoint words_from (cur : list byte) (l : list byte) : list (list byte) :=
  match l with
  | [] => match cur with [] => [] | _ => [cur] end
  | b :: l =>
      if is_space b then match cur with [] => words_from [] l | _ => cur :: words_from [] l end
      else words_from (cur ++ [b]) l
  end.
Definition words (file : list byte) : list (list byte) := words_from [] file.

Section hasher.
Context (g_batchSize : Z) (hash : list byte -> Z) (iterate : WordCountMap -> list (list byte * Z)).

(*@ muduo/examples/wordcount/hasher.cc 24-24 kMaxHashSize *)
Definition kMaxHashSize : Z := 10 * 1000 * 1000.

(** [conn_] is what was sent on the connection, while there is one; [out_] is
    [buffer_]. *)
(*@ muduo/examples/wordcount/hasher.cc 120-124 SendThrottler *)
Record SendThrottler : Type := mkThrottler { conn_ : option (list byte); out_ : Buffer }.

(** [conn_->send(&buffer_)], from a thread other than the loop's. *)
Definition conn_send_buffer (t : SendThrottler) : res SendThrottler :=
  match conn_ t with
  | Some sent => '(data, b) ← retrieveAllAsString (out_ t); mret (mkThrottler (Some (sent ++ data)) b)
  | None => Err BadAccess
  end.

(*@ muduo/examples/wordcount/hasher.cc 58-71 SendThrottler::send *)
Definition throttler_send (word : list byte) (count : Z) (t : SendThrottler) : res SendThrottler :=
  b ← append (out_ t) word;
  b ← append b (snprintf 64 ([TAB] ++ dec count ++ kCRLF));
  let t := mkThrottler (conn_ t) b in
  if g_batchSize <=? readableBytes b then conn_send_buffer t else mret t.

(** Until [shutdown]. *)
(*@ muduo/examples/wordcount/hasher.cc 47-56 SendThrottler::disconnect *)
Definition throttler_disconnect (t : SendThrottler) : res SendThrottler :=
  if 0 <? readableBytes (out_ t) then conn_send_buffer t else mret t.

(** The first connection callback. *)
(*@ muduo/examples/wordcount/hasher.cc 74-91 SendThrottler::onConnection *)
Definition throttler_onConnection (connected : bool) (t : SendThrottler) : SendThrottler :=
  if connected then mkThrottler (Some []) (out_ t) else mkThrottler None (out_ t).

(** [throttle] and the two callbacks that the loop's thread runs: whether the
    connection is congested, and where the hasher's thread is. *)
Inductive hasher_thread : Type := Running | Checking | Waiting.
(*@ muduo/examples/wordcount/hasher.cc 126-128 SendThrottler *)
Record Congestion : Type := mkCongestion { congestion_ : bool; thread_ : hasher_thread }.

(** One turn of the loop in [throttle], under the mutex. *)
(*@ muduo/examples/wordcount/hasher.cc 110-118 SendThrottler::throttle *)
Definition throttle_turn (s : Congestion) : Congestion :=
  mkCongestion (congestion_ s) (if congestion_ s then Waiting else Running).
(*@ muduo/examples/wordcount/hasher.cc 93-97 SendThrottler::onHighWaterMark *)
Definition onHighWaterMark (s : Congestion) : Congestion := mkCongestion true (thread_ s).
(*@ muduo/examples/wordcount/hasher.cc 99-108 SendThrottler::onWriteComplete *)
Definition onWriteComplete (s : Congestion) : Congestion :=
  let oldCong := congestion_ s in
  mkCongestion false (if oldCong then match thread_ s with Waiting => Checking | t => t end else thread_ s).

Inductive congestion_step : Congestion -> Congestion -> Prop :=
| step_throttle b : congestion_step (mkCongestion b Running) (mkCongestion b Checking)
| step_turn b : congestion_step (mkCongestion b Checking) (throttle_turn (mkCongestion b Checking))
| step_spurious b : congestion_step (mkCongestion b Waiting) (mkCongestion b Checking)
| step_high s : congestion_step s (onHighWaterMark s)
| step_complete s : congestion_step s (onWriteComplete s).

(** The words counted until the table is too big: the flag is whether the
    stream is still good. *)
Fixpoint count_batch (ws : list (list byte)) (wordcounts : WordCountMap) : WordCountMap * list (list byte) * bool :=
  match ws with
  | [] => (wordcounts, [], false)
  | word :: ws =>
      let wordcounts := count_word word 1 wordcounts in
      if kMaxHashSize <? Z.of_nat (size wordcounts) then (wordcounts, ws, true) else count_batch ws wordcounts
  end.

Fixpoint send_records (records : list (list byte * Z)) (buckets_ : list SendThrottler) : res (list SendThrottler) :=
  match records with
  | [] => mret buckets_
  | (word, count) :: records =>
      let idx := Z.to_nat (hash word mod zlen buckets_) in
      match buckets_ !! idx with
      | Some t => t ← throttler_send word count t; send_records records (<[idx := t]> buckets_)
      | None => Err BadAccess
      end
  end.

Fixpoint processFile_loop (fuel : nat) (ws : list (list byte)) (buckets_ : list SendThrottler) : res (list SendThrottler) :=
  match fuel with
  | O => Err OutOfFuel
  | S fuel =>
      let '(wordcounts, ws, good) := count_batch ws ∅ in
      buckets_ ← send_records (iterate wordcounts) buckets_;
      if good then processFile_loop fuel ws buckets_ else mret buckets_
  end.

(** A file that cannot be opened has no contents. *)
(*@ muduo/examples/wordcount/hasher.cc 186-215 WordCountSender::processFile *)
Definition processFile (file : option (list byte)) (buckets_ : list SendThrottler) : res (list SendThrottler) :=
  match file with
  | Some file => let ws := words file in processFile_loop (S (length ws)) ws buckets_
  | None => mret buckets_
  end.

Fixpoint each {A} (f : A -> res A) (l : list A) : res (list A) :=
  match l with [] => mret [] | x :: l => x ← f x; l ← each f l; mret (x :: l) end.

(** [main], with [n] receivers that are all up. *)
(*@ muduo/examples/wordcount/hasher.cc 217-239 main *)
Definition hasher_main (n : nat) (files : list (option (list byte))) : res (list SendThrottler) :=
  let connected := throttler_onConnection true (mkThrottler None Buffer_new) in
  buckets_ ← foldl (fun r file => buckets_ ← r; processFile file buckets_) (mret (replicate n connected)) files;
  each throttler_disconnect buckets_.
End hasher.

(** ** The receiver *)

(** [written]: the contents of the file [shard], and that the loop was quit. *)
(*@ muduo/examples/wordcount/receiver.cc 89-93 WordCountReceiver *)
Record Receiver : Type := mkReceiver {
  senders_ : Z;
  wordcounts_ : WordCountMap;
  written : option (list byte)
}.
(*@ muduo/examples/wordcount/receiver.cc 31-37 WordCountReceiver::start *)
Definition receiver_start (senders : Z) : Receiver := mkReceiver senders ∅ None.

Section receiver.
Context (iterate : WordCountMap -> list (list byte * Z)).

Definition shard_line (r : list byte * Z) : list byte := r.1 ++ [TAB] ++ dec r.2 ++ [LF].
(*@ muduo/examples/wordcount/receiver.cc 78-87 WordCountReceiver::output *)
Definition output (r : Receiver) : Receiver :=
  mkReceiver (senders_ r) (wordcounts_ r) (Some (concat (map shard_line (iterate (wordcounts_ r))))).

(*@ muduo/examples/wordcount/receiver.cc 40-53 WordCountReceiver::onConnection *)
Definition receiver_onConnection (connected : bool) (r : Receiver) : Receiver :=
  if connected then r
  else
    let r := mkReceiver (s32 (senders_ r - 1)) (wordcounts_ r) (written r) in
    if senders_ r =? 0 then output r else r.

(** The flag is whether the connection was shut down.  [atoll] starts at the
    tab and stops at the end of the line at the latest. *)
Fixpoint receiver_onMessage_loop (fuel : nat) (buf : Buffer) (r : Receiver) : res (Receiver * bool * Buffer) :=
  match fuel with
  | O => Err OutOfFuel
  | S fuel =>
      found ← findCRLF buf;
      match found with
      | Some crlf =>
          line ← mem_read (peek buf) crlf (buffer_ buf);
          let tab := find_byte TAB line in
          let '(r, bad) :=
            if negb (tab =? zlen line)
            then (mkReceiver (senders_ r) (count_word (ztake tab line) (atoll (zdrop tab line ++ kCRLF)) (wordcounts_ r)) (written r), false)
            else (r, true) in
          buf ← retrieveUntil buf (crlf + 2);
          '(r, shut, buf) ← receiver_onMessage_loop fuel buf r;
          mret (r, bad || shut, buf)
      | None => mret (r, false, buf)
      end
  end.
(*@ muduo/examples/wordcount/receiver.cc 55-76 WordCountReceiver::onMessage *)
Definition receiver_onMessage (buf : Buffer) (r : Receiver) : res (Receiver * bool * Buffer) :=
  receiver_onMessage_loop (S (Z.to_nat (readableBytes buf))) buf r.

(** What happens to a receiver with the input buffers of its connections. *)
Inductive event : Type := Data (j : nat) (data : list byte) | Down (j : nat).

Definition perform (e : event) (s : Receiver * list Buffer) : res (Receiver * list Buffer) :=
  let '(r, bufs) := s in
  match e with
  | Data j data =>
      match bufs !! j with
      | Some b =>
          b ← append b data;
          '(r, _, b) ← receiver_onMessage b r;
          mret (r, <[j := b]> bufs)
      | None => Err BadAccess
      end
  | Down j => mret (receiver_onConnection false r, bufs)
  end.
Fixpoint run (es : list event) (s : Receiver * list Buffer) : res (Receiver * list Buffer) :=
  match es with [] => mret s | e :: es => s ← perform e s; run es s end.
End receiver.

(** ** Counting *)

(** The reference: how often a word occurs, and what a list of records says. *)
Definition occurrences (w : list byte) (ws : list (list byte)) : Z := zlen (filter (fun v => v = w) ws).
Abbreviation record := (list byte * Z)%type.
Fixpoint total (w : list byte) (rs : list record) : Z :=
  match rs with [] => 0 | r :: rs => (if decide (r.1 = w) then r.2 else 0) + total w rs end.

Lemma occurrences_app w ws1 ws2 : occurrences w (ws1 ++ ws2) = occurrences w ws1 + occurrences w ws2.
Proof. unfold occurrences. by rewrite filter_app, zlen_app. Qed.
Lemma occurrences_bounds w ws : 0 <= occurrences w ws <= zlen ws.
Proof. unfold occurrences, zlen. pose proof (length_filter (fun v => v = w) ws). lia. Qed.
Lemma occurrences_none w ws : w ∉ ws -> occurrences w ws = 0.
Proof.
  intros Hw. unfold occurrences. rewrite filter_none; [done |]. apply Forall_forall. intros v Hv ->. done.
Qed.
Lemma occurrences_some w ws : w ∈ ws -> 1 <= occurrences w ws.
Proof.
  intros Hw. unfold occurrences. assert (Hin : w ∈ filter (fun v => v = w) ws) by by apply list_elem_of_filter.
  destruct (filter _ ws) as [| v vs]; [by apply elem_of_nil in Hin |]. rewrite zlen_cons. pose proof (zlen_nonneg vs). lia.
Qed.

Lemma total_app w rs1 rs2 : total w (rs1 ++ rs2) = total w rs1 + total w rs2.
Proof. induction rs1 as [| r rs1 IH]; [done |]. cbn [app total]. rewrite IH. lia. Qed.
#[export] Instance total_perm w : Proper ((≡ₚ) ==> eq) (total w).
Proof.
  intros rs1 rs2 H. induction H as [| r rs1 rs2 _ IH | r1 r2 rs | rs1 rs2 rs3 _ IH1 _ IH2]; cbn [total]; [done | by rewrite IH | lia | congruence].
Qed.
Lemma total_none w rs : w ∉ rs.*1 -> total w rs = 0.
Proof.
  induction rs as [| [v c] rs IH]; intros Hw; [done |]. cbn [fmap list_fmap fst] in Hw. apply not_elem_of_cons in Hw as [Hv Hw].
  cbn [total fst snd]. rewrite decide_False, IH by done. done.
Qed.
Definition positive (rs : list record) : Prop := Forall (fun r => 1 <= r.2) rs.
Lemma total_nonneg w rs : positive rs -> 0 <= total w rs.
Proof. induction 1 as [| r rs Hr _ IH]; [done |]. cbn [total]. case_decide; lia. Qed.

(** A table that holds the counts of records, or of words. *)
Definition sums (rs : list record) (m : WordCountMap) : Prop :=
  forall w, m !! w = if decide (w ∈ rs.*1) then Some (total w rs) else None.

Lemma sums_add rs m w c : sums rs m -> s64 (total w rs + c) = total w rs + c -> sums (rs ++ [(w, c)]) (count_word w c m).
Proof.
  intros Hm Hs v. unfold count_word. rewrite fmap_app, total_app. cbn [fmap list_fmap fst total snd].
  destruct (decide (v = w)) as [-> | Hne].
  - rewrite lookup_insert_eq, Hm. rewrite (decide_True (P := w ∈ rs.*1 ++ [w])) by (apply elem_of_app; right; by left).
    rewrite (decide_True (P := w = w)) by done. f_equal. rewrite Z.add_0_r, <- Hs. case_decide as Hin; [done |].
    by rewrite total_none by done.
  - rewrite lookup_insert_ne, Hm by done. rewrite (decide_False (P := w = v)) by done. rewrite !Z.add_0_r.
    apply decide_ext. rewrite elem_of_app, list_elem_of_singleton. naive_solver.
Qed.

(** One for each word. *)
Definition ones (ws : list (list byte)) : list record := map (fun w => (w, 1)) ws.
Lemma ones_fst ws : (ones ws).*1 = ws.
Proof. induction ws as [| w ws IH]; [done |]. change ((ones (w :: ws)).*1) with (w :: (ones ws).*1). by rewrite IH. Qed.
Lemma ones_total w ws : total w (ones ws) = occurrences w ws.
Proof.
  induction ws as [| v ws IH]; [done |]. cbn [ones map total fst snd]. fold (ones ws). rewrite IH. unfold occurrences. rewrite filter_cons.
  case_decide; [by rewrite zlen_cons | lia].
Qed.

(** ** What the hasher sends *)

Definition rec_line (r : record) : list byte := r.1 ++ [TAB] ++ dec r.2.
Definition rec_bytes (r : record) : list byte := rec_line r ++ crlf.
(** Words are not empty and have no white space; counts fit. *)
Definition word_ok (w : list byte) : Prop := Forall (fun b => is_space b = false) w /\ zlen w < 2 ^ 62.
Definition rec_ok (r : record) : Prop := word_ok r.1 /\ 1 <= r.2 < 2 ^ 63.

Lemma dec_short c : 0 <= c < 2 ^ 63 -> zlen (dec c) <= 19.
Proof. intros Hc. unfold dec. destruct (Z.ltb_spec c 0); [lia |]. apply dec_u_len; [| lia]. change (10 ^ 19) with 10000000000000000000. lia. Qed.

Section sending.
Context (g_batchSize : Z) (hash : list byte -> Z) (iterate : WordCountMap -> list record).
Context (Hiterate : forall m, iterate m ≡ₚ map_to_list m).

(** The bytes of a throttler: sent, and waiting. *)
Definition throttled (l : list byte) (t : SendThrottler) : Prop :=
  exists sent rest, conn_ t = Some sent /\ holds rest (out_ t) /\ sent ++ rest = l.

Lemma conn_send_ok l t : throttled l t -> exists t', conn_send_buffer t = Ok t' /\ conn_ t' = Some l /\ holds [] (out_ t').
Proof using Type.
  intros (sent & rest & Hc & Hr & <-). unfold conn_send_buffer. rewrite Hc.
  destruct (retrieveAllAsString_repr _ _ (holds_repr _ _ Hr)) as (b' & -> & Hb'). rsimp. eexists. split; [done |].
  split; [done |]. exact (repr_holds _ _ Hb').
Qed.

Lemma throttler_send_ok l t w c :
  throttled l t -> rec_ok (w, c) -> safe (throttler_send g_batchSize w c t) (throttled (l ++ rec_bytes (w, c))).
Proof using Type.
  intros (sent & rest & Hc & Hr & <-) [[_ Hw] Hn]. cbn [fst snd] in *. unfold throttler_send.
  eapply safe_bind; [by apply (append_holds rest) |]. intros b1 Hb1. cbn beta in Hb1.
  assert (Htext : snprintf 64 ([TAB] ++ dec c ++ crlf) = [TAB] ++ dec c ++ crlf).
  { unfold snprintf. apply ztake_all. rewrite !zlen_app. pose proof (dec_short c ltac:(lia)).
    change (zlen [TAB]) with 1. change (zlen crlf) with 2. lia. }
  change kCRLF with crlf. rewrite Htext. assert (Hshort : zlen ([TAB] ++ dec c ++ crlf) < 2 ^ 62).
  { rewrite !zlen_app. pose proof (dec_short c ltac:(lia)). change (zlen [TAB]) with 1. change (zlen crlf) with 2. lia. }
  eapply safe_bind; [by apply (append_holds (rest ++ w)) |]. intros b2 Hb2. cbn beta in Hb2.
  assert (Ht : throttled ((sent ++ rest) ++ rec_bytes (w, c)) (mkThrottler (conn_ t) b2)).
  { exists sent, ((rest ++ w) ++ [TAB] ++ dec c ++ crlf). split; [done |]. split; [done |].
    unfold rec_bytes, rec_line. cbn [fst snd]. by rewrite <- !app_assoc. }
  destruct (_ <=? _); [| done]. destruct (conn_send_ok _ _ Ht) as (t' & -> & Hc' & Hb'). cbn [safe].
  exists ((sent ++ rest) ++ rec_bytes (w, c)), []. split; [done |]. split; [done |]. by rewrite app_nil_r.
Qed.

(** After the records [L], bucket [i] has those whose words hash to it. *)
Definition bucket (n : Z) (w : list byte) : Z := hash w mod n.
Definition stream (n : Z) (i : nat) (L : list record) : list byte :=
  concat (map rec_bytes (filter (fun r => bucket n r.1 = Z.of_nat i) L)).
Definition buckets_hold (n : nat) (L : list record) (bs : list SendThrottler) : Prop :=
  length bs = n /\ forall i t, bs !! i = Some t -> throttled (stream (Z.of_nat n) i L) t.

Lemma stream_snoc n i L r : stream n i (L ++ [r]) = stream n i L ++ (if decide (bucket n r.1 = Z.of_nat i) then rec_bytes r else []).
Proof using Type.
  unfold stream. rewrite filter_app, map_app, concat_app. f_equal. rewrite filter_cons. case_decide; [| done].
  cbn. by rewrite app_nil_r.
Qed.

Lemma send_records_ok n rs : (0 < n)%nat -> Forall rec_ok rs -> forall L bs, buckets_hold n L bs ->
  safe (send_records g_batchSize hash rs bs) (buckets_hold n (L ++ rs)).
Proof using Type.
  intros Hn Hrs. induction Hrs as [| [w c] rs Hr _ IH]; intros L bs Hbs; cbn [send_records]; [by rewrite app_nil_r |].
  pose proof Hbs as [Hlen Hb].
  assert (Hz : zlen bs = Z.of_nat n) by (unfold zlen; by rewrite Hlen). rewrite Hz.
  pose proof (Z.mod_pos_bound (hash w) (Z.of_nat n) ltac:(lia)) as Hi. set (i := Z.to_nat (hash w mod Z.of_nat n)).
  assert (Hii : Z.of_nat i = bucket (Z.of_nat n) w) by (unfold i, bucket; lia).
  destruct (lookup_lt_is_Some_2 bs i) as [t Et]; [lia |]. rewrite Et.
  eapply safe_bind; [by apply throttler_send_ok; [apply Hb |] |]. intros t' Ht'. cbn beta in Ht'.
  rewrite cons_middle, app_assoc. apply IH. split; [by rewrite length_insert |]. intros k tk Hk. rewrite stream_snoc. cbn [fst].
  apply list_lookup_insert_Some in Hk as [(<- & <- & _) | [Hne Hk]].
  - by rewrite decide_True by done.
  - rewrite decide_False by (rewrite <- Hii; lia). rewrite app_nil_r. by apply Hb.
Qed.

(** Records that say how often each word occurs. *)
Definition says (ws : list (list byte)) (rs : list record) : Prop :=
  (forall w, total w rs = occurrences w ws) /\ (forall w, w ∈ rs.*1 <-> w ∈ ws).
Lemma says_app ws1 ws2 rs1 rs2 : says ws1 rs1 -> says ws2 rs2 -> says (ws1 ++ ws2) (rs1 ++ rs2).
Proof using Type.
  intros [H1 H2] [H3 H4]. split; intros w.
  - by rewrite total_app, occurrences_app, H1, H3.
  - by rewrite fmap_app, !elem_of_app, H2, H4.
Qed.

Lemma map_total (m : WordCountMap) w : total w (map_to_list m) = default 0 (m !! w).
Proof using Type.
  induction m as [| v c m Hv IH] using map_ind; [by rewrite map_to_list_empty, lookup_empty |].
  rewrite map_to_list_insert by done. cbn [total fst snd]. rewrite IH. case_decide as E.
  - subst v. rewrite lookup_insert_eq, Hv. cbn. lia.
  - by rewrite lookup_insert_ne.
Qed.

Lemma iterate_says ws m : sums (ones ws) m -> says ws (iterate m).
Proof using Hiterate.
  intros Hm. split; intros w.
  - rewrite (Hiterate m), map_total, Hm, ones_fst, ones_total. case_decide; [done |]. cbn. by rewrite occurrences_none.
  - rewrite (Hiterate m). rewrite list_elem_of_fmap. split.
    + intros ([v c] & -> & Hin). apply elem_of_map_to_list in Hin. rewrite Hm, ones_fst in Hin. by case_decide.
    + intros Hw. exists (w, occurrences w ws). split; [done |]. apply elem_of_map_to_list.
      by rewrite Hm, ones_fst, ones_total, decide_True.
Qed.

Lemma says_ok ws rs : says ws rs -> Forall word_ok ws -> zlen ws < 2 ^ 63 -> NoDup rs.*1 -> Forall rec_ok rs.
Proof using Type.
  intros [H1 H2] Hws Hlen Hnd. apply Forall_forall. intros [w c] Hin.
  assert (Hw : w ∈ ws) by (apply H2, list_elem_of_fmap; by exists (w, c)).
  assert (Hc : c = occurrences w ws).
  { rewrite <- H1. apply list_elem_of_split in Hin as (rs1 & rs2 & ->). rewrite fmap_app in Hnd. cbn [fmap list_fmap fst] in Hnd.
    apply NoDup_app in Hnd as (_ & Hd & Hnd). apply NoDup_cons in Hnd as [Hn2 _].
    rewrite total_app. cbn [total fst snd]. rewrite decide_True, !total_none; [lia | done | | done].
    intros Hin. apply (Hd w Hin). by left. }
  split; cbn [fst snd]; [by apply (proj1 (Forall_forall _ _) Hws) |]. subst c.
  pose proof (occurrences_bounds w ws). pose proof (occurrences_some w ws Hw). lia.
Qed.

Lemma count_batch_ok ws : forall seen m, sums (ones seen) m -> zlen (seen ++ ws) < 2 ^ 63 ->
  exists used ws' good m', count_batch ws m = (m', ws', good) /\ ws = used ++ ws' /\ sums (ones (seen ++ used)) m'
    /\ (good = false -> ws' = []) /\ (good = true -> used <> []).
Proof using Type.
  induction ws as [| w ws IH]; intros seen m Hm Hlen; cbn [count_batch].
  - exists [], [], false, m. rewrite !app_nil_r. done.
  - assert (Hm1 : sums (ones (seen ++ [w])) (count_word w 1 m)).
    { unfold ones. rewrite map_app. apply sums_add; [done |]. fold (ones seen). rewrite ones_total. apply s64_small.
      pose proof (occurrences_bounds w seen). rewrite zlen_app, zlen_cons in Hlen. pose proof (zlen_nonneg ws). lia. }
    destruct (kMaxHashSize <? _).
    + exists [w], ws, true, (count_word w 1 m). done.
    + destruct (IH (seen ++ [w]) _ Hm1) as (used & ws' & good & m' & -> & -> & Hm' & Hg & _); [by rewrite <- app_assoc |].
      exists (w :: used), ws', good, m'. rewrite <- app_assoc in Hm'. done.
Qed.

Lemma processFile_loop_ok n : (0 < n)%nat -> forall fuel ws L bs,
  (length ws < fuel)%nat -> buckets_hold n L bs -> Forall word_ok ws -> zlen ws < 2 ^ 63 ->
  safe (processFile_loop g_batchSize hash iterate fuel ws bs)
    (fun bs' => exists rs, says ws rs /\ Forall rec_ok rs /\ buckets_hold n (L ++ rs) bs').
Proof using Hiterate.
  intros Hn. induction fuel as [| fuel IH]; intros ws L bs Hf Hbs Hws Hlen; [lia |]. cbn [processFile_loop].
  destruct (count_batch_ok ws [] ∅) as (used & ws' & good & m' & -> & -> & Hm & Hg1 & Hg2); [by intros w | done |].
  cbn [app] in Hm. apply Forall_app in Hws as [Hu Hws']. rewrite zlen_app in Hlen.
  pose proof (zlen_nonneg used). pose proof (zlen_nonneg ws'). pose proof (iterate_says _ _ Hm) as Hs.
  assert (Hok : Forall rec_ok (iterate m')).
  { apply (says_ok used); [done | done | lia |]. rewrite (Hiterate m'). apply NoDup_fst_map_to_list. }
  eapply safe_bind; [by apply send_records_ok |]. intros bs1 Hbs1. cbn beta in Hbs1. destruct good.
  - eapply safe_mono; [apply (IH ws' (L ++ iterate m')); [| done | done | lia] |].
    + rewrite length_app in Hf. destruct used; [by specialize (Hg2 eq_refl) | cbn in Hf; lia].
    + intros bs' (rs & Hs' & Hok' & Hbs'). exists (iterate m' ++ rs). rewrite app_assoc. split; [by apply says_app |].
      split; [by apply Forall_app | done].
  - rewrite (Hg1 eq_refl), app_nil_r. by exists (iterate m').
Qed.
End sending.

Lemma words_from_ok l : forall cur, Forall (fun b => is_space b = false) cur -> zlen cur + zlen l < 2 ^ 62 ->
  Forall word_ok (words_from cur l) /\ zlen (words_from cur l) <= zlen l + 1.
Proof.
  induction l as [| b l IH]; intros cur Hcur Hlen; cbn [words_from].
  - destruct cur; [split; [constructor | done] |]. split; [| done]. constructor; [| constructor]. split; [done |].
    change (zlen (A := byte) []) with 0 in Hlen. lia.
  - rewrite zlen_cons in Hlen. pose proof (zlen_nonneg l). pose proof (zlen_nonneg cur). rewrite zlen_cons. destruct (is_space b) eqn:Eb.
    + destruct (IH []) as [H1 H2]; [constructor | change (zlen (A := byte) []) with 0; lia |].
      destruct cur as [| a cur]; [split; [done | lia] |]. split; [| rewrite zlen_cons; lia].
      constructor; [| done]. split; [done | lia].
    + destruct (IH (cur ++ [b])) as [H1 H2]; [| rewrite zlen_snoc; lia | split; [done | lia]].
      apply Forall_app. split; [done |]. by constructor.
Qed.

(** The words of a list of files. *)
Definition words_of (files : list (option (list byte))) : list (list byte) := concat (map (from_option words []) files).
Definition files_ok (files : list (option (list byte))) : Prop :=
  Forall (fun f => match f with Some l => zlen l < 2 ^ 61 | None => True end) files.

Section hashing.
Context (g_batchSize : Z) (hash : list byte -> Z) (iterate : WordCountMap -> list record).
Context (Hiterate : forall m, iterate m ≡ₚ map_to_list m).

Lemma processFile_ok n file L bs :
  (0 < n)%nat -> match file with Some l => zlen l < 2 ^ 61 | None => True end -> buckets_hold hash n L bs ->
  safe (processFile g_batchSize hash iterate file bs)
    (fun bs' => exists rs, says (from_option words [] file) rs /\ Forall rec_ok rs /\ buckets_hold hash n (L ++ rs) bs').
Proof using Hiterate.
  intros Hn Hf Hbs. destruct file as [l |]; cbn [processFile from_option].
  - destruct (words_from_ok l []) as [H1 H2]; [constructor | change (zlen (A := byte) []) with 0; lia |].
    apply processFile_loop_ok; try done; [lia | unfold words; lia].
  - exists []. rewrite app_nil_r. split; [done |]. split; [constructor | done].
Qed.

Lemma files_run n files : (0 < n)%nat -> files_ok files -> forall ws L r,
  safe r (fun bs => exists rs, says ws rs /\ Forall rec_ok rs /\ buckets_hold hash n (L ++ rs) bs) ->
  safe (foldl (fun r file => bs ← r; processFile g_batchSize hash iterate file bs) r files)
    (fun bs => exists rs, says (ws ++ words_of files) rs /\ Forall rec_ok rs /\ buckets_hold hash n (L ++ rs) bs).
Proof using Hiterate.
  intros Hn Hfs. induction Hfs as [| f files Hf _ IH]; intros ws L r Hr; cbn [foldl].
  - unfold words_of. cbn. by rewrite app_nil_r.
  - change (words_of (f :: files)) with (from_option words [] f ++ words_of files). rewrite app_assoc. apply IH.
    eapply safe_bind; [exact Hr |]. intros bs (rs & Hs & Hok & Hbs).
    eapply safe_mono; [by apply (processFile_ok n f (L ++ rs)) |]. intros bs' (rs' & Hs' & Hok' & Hbs').
    exists (rs ++ rs'). rewrite app_assoc. split; [by apply says_app |]. split; [by apply Forall_app | done].
Qed.

Lemma each_ok {A} (f : A -> res A) (Q : A -> A -> Prop) l :
  (forall x, x ∈ l -> exists x', f x = Ok x' /\ Q x x') -> exists l', each f l = Ok l' /\ Forall2 Q l l'.
Proof using Type.
  induction l as [| x l IH]; intros H; cbn [each]; [by exists [] |].
  destruct (H x) as (x' & -> & Hx); [by left |]. destruct IH as (l' & -> & Hl); [intros y Hy; apply H; by right |].
  rsimp. exists (x' :: l'). split; [done |]. by constructor.
Qed.

(** The hasher sends to each receiver the counts of the words that hash to it. *)
Lemma hasher_main_ok n files :
  (0 < n)%nat -> files_ok files ->
  safe (hasher_main g_batchSize hash iterate n files) (fun bs => exists L,
    says (words_of files) L /\ Forall rec_ok L /\ length bs = n
    /\ forall i t, bs !! i = Some t -> conn_ t = Some (stream hash (Z.of_nat n) i L)).
Proof using Hiterate.
  intros Hn Hfs. unfold hasher_main. eapply safe_bind.
  - apply (files_run n files Hn Hfs [] []). exists []. split; [done |]. split; [constructor |].
    split; [by rewrite length_replicate |]. intros i t Hi. apply lookup_replicate_1 in Hi as [-> _].
    exists [], []. split; [done |]. split; [apply holds_new | done].
  - intros bs (L & Hs & Hok & Hlen & Hb). cbn [app] in Hb.
    destruct (each_ok throttler_disconnect (fun t t' => forall l, throttled l t -> conn_ t' = Some l) bs) as (bs' & -> & Hall).
    + intros t Hin. apply list_elem_of_lookup in Hin as [i Hi]. pose proof (Hb i t Hi) as Ht. unfold throttler_disconnect.
      assert (Hl : forall l, throttled l t -> l = stream hash (Z.of_nat n) i L).
      { intros l (s1 & r1 & E1 & Hr1 & <-). destruct Ht as (s2 & r2 & E2 & Hr2 & <-).
        assert (s1 = s2) as -> by congruence. f_equal. destruct Hr1 as [_ <-]. by destruct Hr2 as [_ <-]. }
      destruct (0 <? _) eqn:E.
      * destruct (conn_send_ok _ _ Ht) as (t' & -> & Hc & _). exists t'. split; [done |]. intros l Hl'. by rewrite (Hl l Hl').
      * exists t. split; [done |]. intros l (s1 & r1 & E1 & Hr1 & <-). rewrite E1. f_equal.
        rewrite (holds_readable _ _ Hr1) in E. apply Z.ltb_ge in E. rewrite (zlen_zero r1), app_nil_r; [done |].
        pose proof (zlen_nonneg r1). lia.
    + cbn [safe]. exists L. split; [done |]. split; [done |]. pose proof (Forall2_length _ _ _ Hall) as Hl.
      split; [congruence |]. intros i t' Hi. destruct (lookup_lt_is_Some_2 bs i) as [t Et].
      { rewrite Hl. by eapply lookup_lt_Some. }
      pose proof (Forall2_lookup_lr _ _ _ _ _ _ Hall Et Hi) as Ht. apply Ht. by apply Hb.
Qed.
End hashing.

(** ** What the receiver makes of it *)

Definition take_line (line : list byte) (r : Receiver) : Receiver * bool :=
  let tab := find_byte TAB line in
  if negb (tab =? zlen line)
  then (mkReceiver (senders_ r) (count_word (ztake tab line) (atoll (zdrop tab line ++ kCRLF)) (wordcounts_ r)) (written r), false)
  else (r, true).
Definition take_lines (lines : list (list byte)) (r : Receiver) : Receiver := foldl (fun r l => (take_line l r).1) r lines.

Lemma receiver_loop_ok fuel : forall l b r lines rest,
  holds l b -> (length l < fuel)%nat -> drain next_line fuel l = (lines, false, rest) ->
  exists shut b', receiver_onMessage_loop fuel b r = Ok (take_lines lines r, shut, b') /\ holds rest b'.
Proof.
  induction fuel as [| fuel IH]; intros l b r lines rest Hb Hf Hd; [lia |]. cbn [receiver_onMessage_loop drain] in *.
  rewrite (findCRLF_holds _ _ Hb). change kCRLF with crlf. rsimp.
  destruct (next_line l) as [| | m rest1] eqn:En.
  - injection Hd as <- <-. unfold next_line in En. destruct (find_sub crlf l) as [i |]; [done |]. cbn [option_fmap option_map fmap].
    by exists false, b.
  - done.
  - pose proof (next_shorter _ _ _ En) as Hsh. unfold next_line in En. destruct (find_sub crlf l) as [i |] eqn:Ei; [| done].
    injection En as <- <-. destruct (crlf_range l i Ei) as [Hi0 Hi2]. cbn [option_fmap option_map fmap].
    pose proof (read_range l b 0 i Hb ltac:(lia) ltac:(lia)) as Hread. rewrite Z.add_0_r, <- ztake_is_zslice in Hread. rewrite Hread. rsimp.
    replace (peek b + i + 2) with (peek b + (i + 2)) by lia.
    destruct (retrieveUntil_holds l b (i + 2) Hb) as (b1 & Eb1 & Hb1); [lia |].
    destruct (drain next_line fuel (zdrop (i + 2) l)) as [[ms stop] rr] eqn:Ed. injection Hd as <- -> <-.
    destruct (IH _ b1 (take_line (ztake i l) r).1 ms rr Hb1) as (shut & b' & E & Hb'); [lia | done |].
    change (take_lines (ztake i l :: ms) r) with (take_lines ms (take_line (ztake i l) r).1).
    unfold take_line at 1. unfold take_line in E. cbv zeta in *. change kCRLF with crlf in *. destruct (negb _); cbn [fst] in *; rewrite Eb1; rsimp; rewrite E; rsimp; by eexists _, b'.
Qed.

Lemma dec_digits_only c : 0 <= c -> Forall (fun b => is_digit b = true) (dec c).
Proof. intros Hc. unfold dec. destruct (Z.ltb_spec c 0); [lia |]. by apply dec_digits_digits. Qed.
Lemma rec_line_plain r : rec_ok r -> (CR ∉ rec_line r) /\ TAB ∉ r.1.
Proof.
  intros [[Hw _] Hc]. assert (Hsp : forall b, is_space b = true -> b ∉ r.1).
  { intros b Hb Hin. rewrite Forall_forall in Hw. by rewrite (Hw b Hin) in Hb. }
  split; [| by apply Hsp]. unfold rec_line. rewrite !not_elem_of_app. split; [by apply Hsp |]. split.
  - intros Hin. by apply list_elem_of_singleton in Hin.
  - intros Hin. pose proof (dec_digits_only r.2 ltac:(lia)) as Hd. rewrite Forall_forall in Hd. by specialize (Hd CR Hin).
Qed.

Lemma take_rec rc r : rec_ok rc ->
  take_line (rec_line rc) r = (mkReceiver (senders_ r) (count_word rc.1 rc.2 (wordcounts_ r)) (written r), false).
Proof.
  intros Hok. destruct (rec_line_plain rc Hok) as [_ Ht]. destruct Hok as [_ Hc]. unfold take_line, rec_line. cbv zeta.
  change ([TAB] ++ dec rc.2) with (TAB :: dec rc.2). rewrite find_byte_split by done.
  pose proof (zlen_nonneg (dec rc.2)). rewrite zlen_app, zlen_cons, (proj2 (Z.eqb_neq _ _)) by lia. cbn [negb].
  rewrite ztake_app_l, ztake_all, zdrop_app_r, Z.sub_diag, zdrop_0 by lia. do 3 f_equal. f_equal.
  unfold atoll. change ((TAB :: dec rc.2) ++ kCRLF) with (TAB :: (dec rc.2 ++ CR :: [LF])). cbn [scan_int]. change (is_space TAB) with true. cbn match.
  rewrite scan_int_dec; [| | done]; [apply s64_small; lia |]. split; [lia |]. change (10 ^ 40) with 10000000000000000000000000000000000000000. lia.
Qed.

#[export] Instance sums_perm : Proper ((≡ₚ) ==> eq ==> iff) sums.
Proof.
  assert (H : forall rs1 rs2 m, rs1 ≡ₚ rs2 -> sums rs1 m -> sums rs2 m).
  { intros rs1 rs2 m Hp Hm w. rewrite Hm, (total_perm w _ _ Hp). apply decide_ext. by rewrite Hp. }
  intros rs1 rs2 Hp m1 m2 <-. split; by apply H.
Qed.

Lemma take_recs rs : forall D r, Forall rec_ok rs -> positive D -> (forall w, total w (D ++ rs) < 2 ^ 63) -> sums D (wordcounts_ r) ->
  let r' := take_lines (map rec_line rs) r in
  sums (D ++ rs) (wordcounts_ r') /\ senders_ r' = senders_ r /\ written r' = written r.
Proof.
  induction rs as [| rc rs IH]; intros D r Hok HD Hb Hs; [by rewrite app_nil_r |]. apply Forall_cons in Hok as [Hrc Hok].
  change (take_lines (map rec_line (rc :: rs)) r) with (take_lines (map rec_line rs) (take_line (rec_line rc) r).1).
  rewrite (take_rec rc r Hrc). cbn [fst]. set (r1 := mkReceiver _ _ _).
  assert (Hpos : positive (rc :: rs)) by (constructor; [by apply Hrc | apply (Forall_impl _ _ _ Hok); by intros ? [_ [? _]]]).
  destruct (IH (D ++ [rc]) r1 Hok) as (H1 & H2 & H3).
  - apply Forall_app. split; [done |]. constructor; [by apply Hrc | constructor].
  - intros w. specialize (Hb w). by rewrite <- app_assoc.
  - destruct rc as [w c]. apply sums_add; [done |]. apply s64_small. specialize (Hb w). rewrite total_app in Hb. cbn [total fst snd] in Hb.
    rewrite decide_True in Hb by done. pose proof (total_nonneg w D HD). apply Forall_cons in Hpos as [Hc Hpos]. cbn [snd] in Hc.
    pose proof (total_nonneg w rs Hpos). cbn [fst snd]. lia.
  - rewrite <- app_assoc in H1. done.
Qed.

(** ** Connections that deliver the records and close *)

Definition on (e : event) : nat := match e with Data j _ => j | Down j => j end.
Definition proj (j : nat) (es : list event) : list event := filter (fun e => on e = j) es.
Definition alive (es : list event) : gset nat := list_to_set (map on es).

Lemma alive_proj j es : j ∈ alive es <-> proj j es <> [].
Proof.
  unfold alive, proj. rewrite elem_of_list_to_set, list_elem_of_fmap. split.
  - intros (e & -> & He) Hnil. assert (Hin : e ∈ filter (fun e' => on e' = on e) es) by by apply list_elem_of_filter.
    rewrite Hnil in Hin. by apply elem_of_nil in Hin.
  - intros Hne. destruct (filter _ es) as [| e l] eqn:E; [done |]. exists e.
    assert (Hin : e ∈ filter (fun e => on e = j) es) by (rewrite E; by left). apply list_elem_of_filter in Hin as [-> ?]. done.
Qed.

Lemma total_concat w (f g : nat -> list record) l :
  (forall j, j ∈ l -> exists rest, g j = f j ++ rest /\ positive rest) ->
  total w (concat (map f l)) <= total w (concat (map g l)).
Proof.
  induction l as [| j l IH]; intros H; [done |]. cbn [map concat]. rewrite !total_app.
  destruct (H j) as (rest & E & Hp); [by left |]. rewrite E, total_app. pose proof (total_nonneg w rest Hp).
  specialize (IH ltac:(intros k Hk; apply H; by right)). lia.
Qed.
Lemma concat_update (f : nat -> list record) j rs l : NoDup l -> j ∈ l ->
  concat (map (fun k => if decide (k = j) then f k ++ rs else f k) l) ≡ₚ concat (map f l) ++ rs.
Proof.
  induction 1 as [| k l Hk Hnd IH]; intros Hj; [by apply elem_of_nil in Hj |]. cbn [map concat].
  destruct (decide (k = j)) as [-> | Hne].
  - rewrite <- app_assoc, <- app_assoc. apply Permutation_app_head. rewrite (Permutation_app_comm rs).
    erewrite map_ext_in; [reflexivity |]. intros k Hin. cbn beta. rewrite decide_False; [done |].
    intros ->. by apply Hk, list_elem_of_In.
  - rewrite IH by (by apply elem_of_cons in Hj as [|]). by rewrite app_assoc.
Qed.

Section receiving.
Context (iterate : WordCountMap -> list record) (J : nat) (recs : nat -> list record).
Context (HJ : Z.of_nat J < 2 ^ 31) (Hrecs : forall j, Forall rec_ok (recs j)).
Definition all_recs : list record := concat (map recs (seq 0 J)).
Context (Htotal : forall w, total w all_recs < 2 ^ 63).

(** Of connection [j]: closed, with everything taken; or with records to come. *)
Definition conn_rest (j : nat) (es : list event) (bufs : list Buffer) (rest : list record) : Prop :=
  proj j es = [] /\ rest = []
  \/ exists ds l b, proj j es = map (Data j) ds ++ [Down j] /\ bufs !! j = Some b /\ holds l b /\ next_line l = NeedMore
       /\ l ++ concat ds = concat (map rec_bytes rest) /\ Forall (fun d => zlen d < 2 ^ 62) ds.

Record receiver_inv (es : list event) (r : Receiver) (bufs : list Buffer) : Prop := {
  inv_bufs : length bufs = J;
  inv_on : Forall (fun e => (on e < J)%nat) es;
  inv_done : exists done : nat -> list record,
    sums (concat (map done (seq 0 J))) (wordcounts_ r)
    /\ forall j, (j < J)%nat -> exists rest, recs j = done j ++ rest /\ conn_rest j es bufs rest;
  inv_senders : senders_ r = Z.of_nat (size (alive es));
  inv_written : alive es = ∅ -> written r = Some (concat (map shard_line (iterate (wordcounts_ r))))
}.

Lemma recs_positive rs : Forall rec_ok rs -> positive rs.
Proof using Type. intros H. apply (Forall_impl _ _ _ H). by intros r [_ [? _]]. Qed.

Lemma rec_bytes_lines rs : map rec_bytes rs = map (fun m => m ++ crlf) (map rec_line rs).
Proof using Type. by rewrite map_map. Qed.

Lemma proj_cons_ne e j es : on e <> j -> proj j (e :: es) = proj j es.
Proof using Type. intros H. unfold proj. by rewrite filter_cons_False. Qed.
Lemma proj_cons_eq e es : proj (on e) (e :: es) = e :: proj (on e) es.
Proof using Type. unfold proj. by rewrite filter_cons_True. Qed.
Lemma alive_cons e es : alive (e :: es) = {[on e]} ∪ alive es.
Proof using Type. done. Qed.

Lemma data_inv j d es r bufs :
  receiver_inv (Data j d :: es) r bufs ->
  safe (perform iterate (Data j d) (r, bufs)) (fun '(r, bufs) => receiver_inv es r bufs).
Proof using Type*.
  intros [Hlen Hon (done & Hsums & Hdone) Hsend _]. apply Forall_cons in Hon as [Hj Hon]. cbn [on] in Hj.
  destruct (Hdone j Hj) as (rest & Hr & [[Hnil _] | (ds & l & b & Hp & Hbuf & Hb & Hn & Heq & Hshort)]).
  { change j with (on (Data j d)) in Hnil at 1. by rewrite proj_cons_eq in Hnil. }
  change j with (on (Data j d)) in Hp at 1. rewrite proj_cons_eq in Hp. cbn [on] in Hp.
  destruct ds as [| d' ds]; [done |]. cbn [map app concat] in Hp, Heq. injection Hp as <- Hp. apply Forall_cons in Hshort as [Hd Hshort].
  assert (Hrest : Forall rec_ok rest) by (pose proof (Hrecs j) as Hok; rewrite Hr in Hok; by apply Forall_app in Hok as [_ Hok]).
  cbn [perform]. rewrite Hbuf. eapply safe_bind; [by apply (append_holds l) |]. intros b1 Hb1. cbn beta in Hb1.
  rewrite app_assoc, rec_bytes_lines in Heq.
  destruct (drain_part next_line (fun m => m ++ crlf) (map rec_line rest) (l ++ d) (concat ds)) as (ms1 & ms2 & l' & Hms & Hdrain & Hw).
  - intros m k Hm. apply list_elem_of_fmap in Hm as (rc & -> & Hin). apply next_line_enc, rec_line_plain. by apply (proj1 (Forall_forall _ _) Hrest).
  - intros m l1 k Hm. apply list_elem_of_fmap in Hm as (rc & -> & Hin). apply next_line_prefix, rec_line_plain. by apply (proj1 (Forall_forall _ _) Hrest).
  - done.
  - done.
  - apply map_eq_app in Hms as (rs1 & rs2 & -> & <- & <-). apply Forall_app in Hrest as [Hok1 Hok2].
    unfold drain_all in Hdrain. assert (Hfuel : S (length (l ++ d)) = S (Z.to_nat (zlen (l ++ d)))) by (unfold zlen; by rewrite Nat2Z.id).
    destruct (receiver_loop_ok _ _ b1 r _ _ Hb1 (Nat.lt_succ_diag_r _) Hdrain) as (shut & b' & E & Hb').
    unfold receiver_onMessage. rewrite (holds_readable _ _ Hb1), <- Hfuel, E. rsimp. cbn [safe].
    set (D := concat (map done (seq 0 J))) in *. set (done' := fun k => if decide (k = j) then done k ++ rs1 else done k).
    assert (HD : concat (map done' (seq 0 J)) ≡ₚ D ++ rs1) by (apply concat_update; [apply NoDup_seq | apply elem_of_seq; lia]).
    assert (Hpos : forall k, k ∈ seq 0 J -> exists rest, recs k = done k ++ rest /\ positive rest).
    { intros k Hk. apply elem_of_seq in Hk. destruct (Hdone k ltac:(lia)) as (rk & Ek & _). exists rk. split; [done |].
      apply recs_positive. pose proof (Hrecs k) as Hok. rewrite Ek in Hok. by apply Forall_app in Hok as [_ Hok]. }
    assert (HDpos : positive D).
    { unfold D, positive. apply Forall_concat, Forall_map, Forall_forall. intros k Hk. destruct (Hpos k Hk) as (rk & Ek & _).
      apply recs_positive. pose proof (Hrecs k) as Hok. rewrite Ek in Hok. by apply Forall_app in Hok as [Hok _]. }
    destruct (take_recs rs1 D r Hok1 HDpos) as (Hs1 & Hs2 & Hs3); [| done |].
    { intros w. rewrite <- (total_perm w _ _ HD). eapply Z.le_lt_trans; [| apply (Htotal w)]. apply total_concat. intros k Hk.
      unfold done'. destruct (decide (k = j)) as [-> | Hne]; [| by apply Hpos].
      exists rs2. split; [by rewrite Hr, app_assoc | by apply recs_positive]. }
    assert (Hal : alive (Data j d :: es) = alive es).
    { rewrite alive_cons. cbn [on]. assert (Hin : j ∈ alive es); [| set_solver]. apply alive_proj. rewrite Hp. by destruct (map (Data j) ds). }
    split; [by rewrite length_insert | done | | by rewrite Hs2, <- Hal |].
    + exists done'. split; [by rewrite HD |]. intros k Hk. unfold done'. destruct (decide (k = j)) as [-> | Hne].
      * exists rs2. split; [by rewrite Hr, app_assoc |]. right. exists ds, l', b'. split; [done |].
        split; [apply list_lookup_insert_eq; lia |]. split; [done |]. split.
        { pose proof (drain_waiting next_line _ _ _ Hdrain) as Hwait. unfold waiting, drain_all in Hwait. cbn [drain] in Hwait.
          destruct (next_line l') as [| | m rr]; [done | done |]. by destruct (drain next_line (length l') rr) as [[??]?]. }
        by rewrite rec_bytes_lines.
      * destruct (Hdone k Hk) as (rk & Ek & Hck). exists rk. split; [done |]. unfold conn_rest in *.
        rewrite proj_cons_ne in Hck by (cbn; congruence). by rewrite list_lookup_insert_ne by done.
    + intros Hnil. assert (Hin : j ∈ alive es); [| rewrite Hnil in Hin; by apply not_elem_of_empty in Hin].
      apply alive_proj. rewrite Hp. by destruct (map (Data j) ds).
Qed.

Lemma wc_down_inv j es r bufs :
  receiver_inv (Down j :: es) r bufs ->
  safe (perform iterate (Down j) (r, bufs)) (fun '(r, bufs) => receiver_inv es r bufs).
Proof using Type*.
  intros [Hlen Hon (done & Hsums & Hdone) Hsend _]. apply Forall_cons in Hon as [Hj Hon]. cbn [on] in Hj.
  destruct (Hdone j Hj) as (rest & Hr & [[Hnil _] | (ds & l & b & Hp & Hbuf & Hb & Hn & Heq & Hshort)]).
  { change j with (on (Down j)) in Hnil at 1. by rewrite proj_cons_eq in Hnil. }
  change j with (on (Down j)) in Hp at 1. rewrite proj_cons_eq in Hp. cbn [on] in Hp.
  destruct ds as [| d' ds]; [| done]. cbn [map app concat] in Hp, Heq. injection Hp as Hp. rewrite app_nil_r in Heq.
  assert (Hj' : j ∉ alive es) by (rewrite alive_proj; intros Hne; exact (Hne Hp)).
  assert (Hsize : size (alive (Down j :: es)) = S (size (alive es))).
  { rewrite alive_cons, size_union by set_solver. by rewrite size_singleton. }
  assert (Hle : (size (alive (Down j :: es)) <= J)%nat).
  { rewrite <- (length_seq J 0), <- (size_list_to_set (C := gset nat)) by apply NoDup_seq. apply subseteq_size. intros k Hk.
    apply elem_of_list_to_set, elem_of_seq. unfold alive in Hk. rewrite elem_of_list_to_set, list_elem_of_fmap in Hk.
    destruct Hk as (e & -> & He). apply elem_of_cons in He as [-> | He]; [cbn; lia |]. rewrite Forall_forall in Hon. specialize (Hon e He). lia. }
  cbn [perform receiver_onConnection safe mret res_ret senders_]. rewrite Hsend, Hsize, s32_small by lia.
  replace (Z.of_nat (S (size (alive es))) - 1) with (Z.of_nat (size (alive es))) by lia.
  set (r1 := mkReceiver _ _ _).
  assert (Hkey : forall r', wordcounts_ r' = wordcounts_ r -> senders_ r' = Z.of_nat (size (alive es)) ->
    (alive es = ∅ -> written r' = Some (concat (map shard_line (iterate (wordcounts_ r'))))) -> receiver_inv es r' bufs).
  { intros r' E1 E2 E3. split; [done | done | | done | done]. exists done. split; [by rewrite E1 |]. intros k Hk.
    destruct (decide (k = j)) as [-> | Hne].
    - exists []. split; [| by left]. destruct rest as [| rc rest]; [done |]. exfalso.
      assert (Hrc : True) by done. unfold next_line in Hn. rewrite Heq in Hn. cbn [map concat] in Hn.
      assert (Hfs : find_sub crlf (rec_bytes rc ++ concat (map rec_bytes rest)) <> None).
      { unfold rec_bytes at 1. rewrite <- app_assoc. clear. induction (rec_line rc) as [| x a IH]; cbn [app].
        - cbn. done.
        - cbn [find_sub]. destruct (starts_with _ _); [done |]. by destruct (find_sub crlf (a ++ _)). }
      by destruct (find_sub crlf _).
    - destruct (Hdone k Hk) as (rk & Ek & Hck). exists rk. split; [done |]. unfold conn_rest in *.
      by rewrite proj_cons_ne in Hck by (cbn; congruence). }
  destruct (Z.eqb_spec (Z.of_nat (size (alive es))) 0) as [E0 | E0].
  - by apply Hkey.
  - apply Hkey; [done | done |]. intros Hnil. rewrite Hnil, size_empty in E0. done.
Qed.

Lemma receiver_run es : forall r bufs, receiver_inv es r bufs ->
  safe (run iterate es (r, bufs)) (fun '(r, bufs) => receiver_inv [] r bufs).
Proof using Type*.
  induction es as [| e es IH]; intros r bufs H; [done |]. cbn [run].
  eapply (safe_bind _ _ (fun '(r, bufs) => receiver_inv es r bufs)).
  - destruct e as [j d | j]; [by apply data_inv | by apply wc_down_inv].
  - intros [r' bufs'] H'. by apply IH.
Qed.
End receiving.

(** ** Together *)

Lemma total_filter w (P : list byte -> Prop) `{!forall w, Decision (P w)} rs :
  total w (filter (fun r => P r.1) rs) = if decide (P w) then total w rs else 0.
Proof.
  induction rs as [| [v c] rs IH]; [by case_decide |]. rewrite filter_cons. cbn [fst]. cbn [total fst snd].
  destruct (decide (P v)) as [Hv | Hv]; cbn [total fst snd]; rewrite IH;
    destruct (decide (v = w)) as [-> | Hne]; try case_decide; done || lia.
Qed.
Lemma fst_filter w (P : list byte -> Prop) `{!forall w, Decision (P w)} (rs : list record) :
  w ∈ (filter (fun r => P r.1) rs).*1 <-> P w /\ w ∈ rs.*1.
Proof.
  rewrite !list_elem_of_fmap. setoid_rewrite list_elem_of_filter. split.
  - intros ([v c] & -> & Hv & Hin). split; [done |]. by exists (v, c).
  - intros (Hw & [v c] & -> & Hin). by exists (v, c).
Qed.
Lemma map_seq_default {A B} (f : list A -> B) (Ls : list (list A)) :
  map (fun j => f (default [] (Ls !! j))) (seq 0 (length Ls)) = map f Ls.
Proof. induction Ls as [| L Ls IH]; [done |]. cbn [length seq map]. f_equal. rewrite <- seq_shift, map_map. exact IH. Qed.

Section together.
Context (g_batchSize : Z) (hash : list byte -> Z) (iterate : WordCountMap -> list record).
Context (Hiterate : forall m, iterate m ≡ₚ map_to_list m).

Lemma hashers_ok n senders outs :
  (0 < n)%nat -> Forall files_ok senders -> Forall2 (fun files bs => hasher_main g_batchSize hash iterate n files = Ok bs) senders outs ->
  exists Ls, length Ls = length senders /\ says (concat (map words_of senders)) (concat Ls) /\ Forall rec_ok (concat Ls)
    /\ forall j bs i t, outs !! j = Some bs -> bs !! i = Some t ->
         conn_ t = Some (stream hash (Z.of_nat n) i (default [] (Ls !! j))).
Proof using Hiterate.
  intros Hn Hok H. induction H as [| files bs senders outs Hf _ IH].
  - exists []. by split_and!.
  - apply Forall_cons in Hok as [Hfok Hok]. destruct (IH Hok) as (Ls & Hlen & Hs & Hrok & Hc).
    pose proof (hasher_main_ok g_batchSize hash iterate Hiterate n files Hn Hfok) as Hm. rewrite Hf in Hm.
    destruct Hm as (L & HsL & HokL & _ & HcL). exists (L :: Ls). split; [cbn; by rewrite Hlen |].
    split; [by apply says_app |]. split; [by apply Forall_app |].
    intros [| j] bs' i t Hj Ht; [injection Hj as <-; by apply HcL | by apply (Hc j bs')].
Qed.

Definition picks (n i : nat) (w : list byte) : Prop := bucket hash (Z.of_nat n) w = Z.of_nat i.
#[local] Instance picks_dec n i w : Decision (picks n i w) := decide (bucket hash (Z.of_nat n) w = Z.of_nat i).

(** What arrives at receiver [i]: from each sender the bytes sent to it, in any
    pieces, and then the end; the connections interleave in any way. *)
Definition arrives_at (i : nat) (outs : list (list SendThrottler)) (es : list event) : Prop :=
  Forall (fun e => (on e < length outs)%nat) es
  /\ forall j bs, outs !! j = Some bs -> exists ds t, bs !! i = Some t /\ conn_ t = Some (concat ds)
       /\ proj j es = map (Data j) ds ++ [Down j] /\ Forall (fun d => zlen d < 2 ^ 62) ds.

(** C30: The cluster counts as one program would: when all the senders are done,
    the receiver that the hash of a word picks has written how often the word
    occurs in all the files of all the senders, and the other receivers have no
    entry for it; whatever the batches, the order of the tables, the pieces in
    which the bytes arrive and the interleaving of the connections.  A hasher
    runs without a fault. *)
Theorem word_count_correct n senders :
  (0 < n)%nat -> (0 < length senders)%nat -> Z.of_nat (length senders) < 2 ^ 31 ->
  Forall files_ok senders -> zlen (concat (map words_of senders)) < 2 ^ 63 ->
  Forall (fun files => safe (hasher_main g_batchSize hash iterate n files) (fun _ => True)) senders
  /\ forall outs, Forall2 (fun files bs => hasher_main g_batchSize hash iterate n files = Ok bs) senders outs ->
     forall i es, (i < n)%nat -> arrives_at i outs es ->
     safe (run iterate es (receiver_start (Z.of_nat (length senders)), replicate (length senders) Buffer_new)) (fun '(r, _) =>
       written r = Some (concat (map shard_line (iterate (wordcounts_ r))))
       /\ forall w, wordcounts_ r !! w
          = if decide (hash w mod Z.of_nat n = Z.of_nat i /\ w ∈ concat (map words_of senders))
            then Some (occurrences w (concat (map words_of senders))) else None).
Proof using Hiterate.
  intros Hn HJ HJ31 Hok Hlen. split.
  { apply (Forall_impl _ _ _ Hok). intros files Hf. eapply safe_mono; [by apply hasher_main_ok |]. done. }
  intros outs Hout i es Hi [Hon Harr]. destruct (hashers_ok n senders outs Hn Hok Hout) as (Ls & HlenL & Hs & Hrok & Hc).
  pose proof (Forall2_length _ _ _ Hout) as Hlo. set (J := length senders) in *.
  set (recs := fun j => filter (fun r : record => picks n i r.1) (default [] (Ls !! j))).
  assert (Hall : all_recs J recs = filter (fun r : record => picks n i r.1) (concat Ls)).
  { unfold all_recs, recs. rewrite <- HlenL, (map_seq_default (filter (fun r : record => picks n i r.1)) Ls).
    clear. induction Ls as [| L Ls IH]; [done |]. cbn. by rewrite IH, filter_app. }
  assert (Hrecs : forall j, Forall rec_ok (recs j)).
  { intros j. unfold recs. apply Forall_forall. intros r [_ Hin]%list_elem_of_filter. rewrite Forall_forall in Hrok. apply Hrok.
    destruct (Ls !! j) as [L |] eqn:E; [| by apply elem_of_nil in Hin]. apply list_elem_of_In, in_concat. exists L.
    split; apply list_elem_of_In; [by eapply list_elem_of_lookup_2 | done]. }
  destruct Hs as [Hs1 Hs2].
  assert (Htot : forall w, total w (all_recs J recs) < 2 ^ 63).
  { intros w. rewrite Hall, (total_filter w (picks n i)), Hs1. pose proof (occurrences_bounds w (concat (map words_of senders))). case_decide; lia. }
  assert (Hin : receiver_inv iterate J recs es (receiver_start (Z.of_nat J)) (replicate J Buffer_new)).
  { assert (Hal : alive es = list_to_set (seq 0 J)).
    { apply set_eq. intros j. rewrite elem_of_list_to_set, elem_of_seq. split.
      - unfold alive. rewrite elem_of_list_to_set, list_elem_of_fmap. intros (e & -> & He). rewrite Forall_forall in Hon. specialize (Hon e He). lia.
      - intros Hj. destruct (lookup_lt_is_Some_2 outs j) as [bs Hbs]; [lia |]. destruct (Harr j bs Hbs) as (ds & t & _ & _ & E & _).
        apply alive_proj. rewrite E. by destruct (map (Data j) ds). }
    split; [by rewrite length_replicate | by rewrite <- Hlo in Hon | | |].
    - exists (fun _ => []). split.
      + intros w. replace (concat (map (fun _ => []) (seq 0 J))) with (@nil record); [done |]. clear. by induction (seq 0 J).
      + intros j Hj. exists (recs j). split; [done |]. destruct (lookup_lt_is_Some_2 outs j) as [bs Hbs]; [lia |].
        destruct (Harr j bs Hbs) as (ds & t & Ht & Hct & E & Hds). right. exists ds, [], Buffer_new. split; [done |].
        split; [apply lookup_replicate_2; lia |]. split; [apply holds_new |]. split; [done |].
        rewrite (Hc j bs i t Hbs Ht) in Hct. injection Hct as <-. split; [done | done].
    - rewrite Hal, size_list_to_set by apply NoDup_seq. by rewrite length_seq.
    - rewrite Hal. intros E. exfalso. assert (Hz : 0%nat ∈ (list_to_set (seq 0 J) : gset nat)) by (apply elem_of_list_to_set, elem_of_seq; lia).
      rewrite E in Hz. by apply not_elem_of_empty in Hz. }
  eapply safe_mono; [exact (receiver_run iterate J recs HJ31 Hrecs Htot es _ _ Hin) |].
  intros [r bufs] [_ _ (done & Hsums & Hdone) _ Hw]. split; [by apply Hw |]. intros w. rewrite Hsums.
  assert (E : concat (map done (seq 0 J)) = all_recs J recs).
  { unfold all_recs. f_equal. apply map_ext_in. intros j Hj%in_seq. destruct (Hdone j ltac:(lia)) as (rest & Er & [[_ ->] | (ds & l & b & Ep & _)]).
    - by rewrite Er, app_nil_r.
    - cbn in Ep. by destruct (map (Data j) ds). }
  rewrite E, Hall, (total_filter w (picks n i)), Hs1. pose proof (fst_filter w (picks n i) (concat Ls)) as Hfst. rewrite Hs2 in Hfst.
  destruct (decide (picks n i w)) as [Hb | Hb]; [by apply decide_ext |].
  rewrite !decide_False; [done | by intros [? _] | naive_solver].
Qed.
End together.

(** ** Two hashers, two receivers *)

Definition demo_hash (w : list byte) : Z := fold_left (fun a b => a + byte_val b) w 0.
Definition demo_senders : list (list (option (list byte))) :=
  [[Some (bs "the cat saw the dog"); None]; [Some (bs "a dog"); Some (bs "saw the end")]].
Definition demo_outs : list (list SendThrottler) :=
  map (fun files => match hasher_main 16 demo_hash map_to_list 2 files with Ok bs => bs | Err _ => [] end) demo_senders.
Definition demo_sent (j i : nat) : list byte := match demo_outs !! j ≫= lookup i with Some t => default [] (conn_ t) | None => [] end.
Definition demo_events : list event :=
  [Data 0 (ztake 5 (demo_sent 0 0)); Data 1 (demo_sent 1 0); Data 0 (zdrop 5 (demo_sent 0 0)); Down 0; Down 1].

Definition demo_bucket (j : nat) : SendThrottler :=
  default (mkThrottler None Buffer_new) (demo_outs !! j ≫= lookup 0%nat).
Definition demo_pieces (j : nat) : list (list byte) :=
  match j with O => [ztake 5 (demo_sent 0 0); zdrop 5 (demo_sent 0 0)] | _ => [demo_sent 1 0] end.

(** By evaluation, for each of the two hashers. *)
Lemma demo_bucket_ok j : (j < 2)%nat ->
  demo_outs !! j ≫= lookup 0%nat = Some (demo_bucket j) /\ conn_ (demo_bucket j) = Some (concat (demo_pieces j))
  /\ proj j demo_events = map (Data j) (demo_pieces j) ++ [Down j] /\ Forall (fun d => zlen d < 2 ^ 62) (demo_pieces j).
Proof.
  intros Hj. destruct j as [| [| j]]; [| | lia];
    (split; [vm_compute; reflexivity |]; split; [vm_compute; reflexivity |]; split; [vm_compute; reflexivity | by_evaluation]).
Qed.

Lemma demo_arrives : arrives_at 0 demo_outs demo_events.
Proof.
  split; [by_evaluation |]. intros j bs Hj. pose proof (lookup_lt_Some _ _ _ Hj) as Hlt. unfold demo_outs in Hlt. rewrite length_map in Hlt.
  destruct (demo_bucket_ok j Hlt) as (E & H). rewrite Hj in E. exists (demo_pieces j), (demo_bucket j). by split.
Qed.

Lemma demo_hashers : Forall2 (fun files bs => hasher_main 16 demo_hash map_to_list 2 files = Ok bs) demo_senders demo_outs.
Proof. repeat constructor; vm_compute; reflexivity. Qed.

Lemma word_count_correct_witness :
  safe (run map_to_list demo_events (receiver_start (Z.of_nat (length demo_senders)), replicate (length demo_senders) Buffer_new))
    (fun '(r, _) =>
      written r = Some (concat (map shard_line (map_to_list (wordcounts_ r))))
      /\ forall w, wordcounts_ r !! w
         = if decide (demo_hash w mod Z.of_nat 2 = Z.of_nat 0 /\ w ∈ concat (map words_of demo_senders))
           then Some (occurrences w (concat (map words_of demo_senders))) else None).
Proof.
  assert (Hlen : zlen (concat (map words_of demo_senders)) < 2 ^ 63) by (vm_compute; reflexivity).
  assert (Hok : Forall files_ok demo_senders) by (repeat constructor).
  exact (proj2 (word_count_correct 16 demo_hash map_to_list (fun m => reflexivity _) 2 demo_senders
    (le_S _ _ (le_n 1)) (le_S _ _ (le_n 1)) eq_refl Hok Hlen) demo_outs demo_hashers 0%nat demo_events (le_S _ _ (le_n 1)) demo_arrives).
Defined.

Lemma demo_counts :
  exists r bufs, run map_to_list demo_events (receiver_start 2, replicate 2 Buffer_new) = Ok (r, bufs)
    /\ wordcounts_ r !! bs "dog" = Some 2 /\ wordcounts_ r !! bs "the" = None /\ wordcounts_ r !! bs "cat" = Some 1.
Proof. do 2 eexists. split; [vm_compute; reflexivity |]. split_and!; vm_compute; reflexivity. Qed.

(** ** The hasher is not left waiting *)

(** A waiting hasher waits for a congested connection: when the connection has
    written everything the hasher is on its way again, and goes on unless the
    connection is congested anew. *)
Theorem throttle_wakes s :
  rtc congestion_step (mkCongestion false Running) s ->
  (thread_ s = Waiting -> congestion_ s = true)
  /\ thread_ (onWriteComplete s) <> Waiting
  /\ (thread_ s = Checking -> congestion_ s = false -> thread_ (throttle_turn s) = Running).
Proof.
  intros Hs. assert (Hw : thread_ s = Waiting -> congestion_ s = true).
  { revert Hs. generalize (mkCongestion false Running), (eq_refl : thread_ (mkCongestion false Running) = Running). intros s0 E0 Hs.
    assert (H0 : thread_ s0 = Waiting -> congestion_ s0 = true) by congruence. clear E0.
    induction Hs as [| s1 s2 s3 H12 _ IH]; [done |]. apply IH. destruct H12 as [| [] | | | [[] []]]; done || by cbn. }
  split; [done |]. split; [| by destruct s as [[] []]]. destruct s as [[] []]; cbn in *; try done. by specialize (Hw eq_refl).
Qed.
