(* ===== verification/Tunnel.v ===== *)
(** * Tunnel: [examples/socks4a/tunnel.h]

    A [Tunnel] relays between a connection a server accepted and one its own
    [TcpClient] makes.  Two programs use it: [Socks4a.v] and [TcpRelay.v].  They
    run in one thread, so that a handler is a step.

    Of a [TcpConnection] the programs use the state, the context, the input
    buffer and the callbacks; socket options are left out.  A tunnel is known by the name its client is
    given, the name of the connection it serves.  When objects die is followed
    only where the code asks: [weak_ptr::lock] of the high water mark callback. *)
From S2P Require Import Prelude Buffer Framing Sockets.

(** ** Connections *)

(** [kConnecting] ends before any callback runs. *)
Inductive StateE : Type := kDisconnected | kConnected | kDisconnecting.
#[export] Instance tunnel_state_eq_dec : EqDecision StateE.
Proof. solve_decision. Defined.

(** Whose callbacks a connection has: the server program's, or those of the
    client of a tunnel, which are the tunnel's own or the library's defaults. *)
Inductive Callbacks : Type := OfServer | OfClient (t : Z) (own : bool).
#[export] Instance callbacks_eq_dec : EqDecision Callbacks.
Proof. solve_decision. Defined.

(** [sent] and [received] are the bytes given to [send] while connected, and
    the bytes that arrived. *)
Record Conn : Type := mkConn {
  state_ : StateE;
  context_ : option Z;
  callbacks : Callbacks;
  highWater : option Z;
  inputBuffer_ : Buffer;
  sent : list byte;
  received : list byte
}.
Definition Conn_new (cb : Callbacks) : Conn := mkConn kConnected None cb None Buffer_new [] [].
Definition with_state s (x : Conn) := mkConn s (context_ x) (callbacks x) (highWater x) (inputBuffer_ x) (sent x) (received x).
Definition with_context o (x : Conn) := mkConn (state_ x) o (callbacks x) (highWater x) (inputBuffer_ x) (sent x) (received x).
Definition with_highWater o (x : Conn) := mkConn (state_ x) (context_ x) (callbacks x) o (inputBuffer_ x) (sent x) (received x).
Definition with_input b (x : Conn) := mkConn (state_ x) (context_ x) (callbacks x) (highWater x) b (sent x) (received x).
Definition with_sent d (x : Conn) := mkConn (state_ x) (context_ x) (callbacks x) (highWater x) (inputBuffer_ x) (sent x ++ d) (received x).
Definition with_received d (x : Conn) := mkConn (state_ x) (context_ x) (callbacks x) (highWater x) (inputBuffer_ x) (sent x) (received x ++ d).

(** ** Tunnels *)

(** [client_] is the address, whether its callbacks are the tunnel's, whether
    its connector is at work, and its connection. *)
(*@ muduo/examples/socks4a/tunnel.h 121-122 Tunnel *)
Record Tunnel : Type := mkTunnel {
  serverAddr : sockaddr_in;
  own : bool;
  connecting : bool;
  connection_ : option Z;
  serverConn_ : option Z
}.
Definition with_own b (t : Tunnel) := mkTunnel (serverAddr t) b (connecting t) (connection_ t) (serverConn_ t).
Definition with_connecting b (t : Tunnel) := mkTunnel (serverAddr t) (own t) b (connection_ t) (serverConn_ t).
Definition with_connection o (t : Tunnel) := mkTunnel (serverAddr t) (own t) (connecting t) o (serverConn_ t).

(** All objects, and the keys of the map [g_tunnels] of both programs. *)
Record World : Type := mkWorld {
  conns : gmap Z Conn;
  tunnels : gmap Z Tunnel;
  g_tunnels : gset Z
}.
Definition World_new : World := mkWorld ∅ ∅ ∅.
Definition put (i : Z) (x : Conn) (w : World) : World := mkWorld (<[i := x]> (conns w)) (tunnels w) (g_tunnels w).
Definition put_tunnel (i : Z) (t : Tunnel) (w : World) : World := mkWorld (conns w) (<[i := t]> (tunnels w)) (g_tunnels w).
Definition with_g (f : gset Z -> gset Z) (w : World) : World := mkWorld (conns w) (tunnels w) (f (g_tunnels w)).
Definition get (i : Z) (w : World) : res Conn := match conns w !! i with Some x => mret x | None => Err BadAccess end.
Definition the_tunnel (i : Z) (w : World) : res Tunnel := match tunnels w !! i with Some t => mret t | None => Err BadAccess end.

Definition connected (x : Conn) : bool := bool_decide (state_ x = kConnected).

(** [TcpConnection::shutdown], [send(const void*, size_t)], and [send(Buffer* )]
    with the input buffer of another connection, which it empties if it
    sends. *)
Definition shutdown (i : Z) (w : World) : res World :=
  x ← get i w; mret (if connected x then put i (with_state kDisconnecting x) w else w).
Definition send (i : Z) (data : list byte) (w : World) : res World :=
  x ← get i w; mret (if connected x then put i (with_sent data x) w else w).
Definition send_input (dst src : Z) (w : World) : res World :=
  y ← get dst w;
  if connected y
  then
    x ← get src w;
    data ← mem_read (peek (inputBuffer_ x)) (peek (inputBuffer_ x) + readableBytes (inputBuffer_ x)) (buffer_ (inputBuffer_ x));
    mret (put src (with_input (retrieveAll (inputBuffer_ x)) x) (put dst (with_sent data y) w))
  else mret w.

(** ** The tunnel's functions *)

(*@ muduo/examples/socks4a/tunnel.h 17-24 Tunnel::Tunnel *)
Definition Tunnel_new (addr : sockaddr_in) (serverConn : Z) : Tunnel := mkTunnel addr false false None (Some serverConn).

Definition serverConn (t : Z) (w : World) : res Z :=
  k ← the_tunnel t w; match serverConn_ k with Some c => mret c | None => Err BadAccess end.

(*@ muduo/examples/socks4a/tunnel.h 31-40 Tunnel::setup *)
Definition setup (t : Z) (w : World) : res World :=
  k ← the_tunnel t w;
  let w := put_tunnel t (with_own true k) w in
  c ← serverConn t w;
  x ← get c w;
  mret (put c (with_highWater (Some t) x) w).

(*@ muduo/examples/socks4a/tunnel.h 42-51 Tunnel::teardown *)
Definition teardown (t : Z) (w : World) : res World :=
  k ← the_tunnel t w;
  let w := put_tunnel t (with_own false k) w in
  match serverConn_ k with
  | Some c =>
      x ← get c w;
      shutdown c (put c (with_context None x) w)
  | None => mret w
  end.

(*@ muduo/examples/socks4a/tunnel.h 53-56 Tunnel::connect *)
Definition connect (t : Z) (w : World) : res World :=
  k ← the_tunnel t w; mret (put_tunnel t (with_connecting true k) w).

(** [TcpClient::disconnect] shuts down the connection there is; it does not
    stop a connector that is at work. *)
(*@ muduo/examples/socks4a/tunnel.h 58-62 Tunnel::disconnect *)
Definition disconnect (t : Z) (w : World) : res World :=
  k ← the_tunnel t w; match connection_ k with Some u => shutdown u w | None => mret w end.

(*@ muduo/examples/socks4a/tunnel.h 64-83 Tunnel::onClientConnection *)
Definition onClientConnection (t conn : Z) (w : World) : res World :=
  y ← get conn w;
  if connected y
  then
    let w := put conn (with_highWater (Some t) y) w in
    c ← serverConn t w;
    x ← get c w;
    let w := put c (with_context (Some conn) x) w in
    if 0 <? readableBytes (inputBuffer_ x) then send_input conn c w else mret w
  else teardown t w.

(*@ muduo/examples/socks4a/tunnel.h 85-99 Tunnel::onClientMessage *)
Definition onClientMessage (t conn : Z) (w : World) : res World :=
  k ← the_tunnel t w;
  match serverConn_ k with
  | Some c => send_input c conn w
  | None => Err FatalLog
  end.

(*@ muduo/examples/socks4a/tunnel.h 101-107 Tunnel::onHighWaterMark *)
Definition onHighWaterMark (t : Z) (w : World) : res World := disconnect t w.

(** Who holds a tunnel: the map, its client's callbacks, the callbacks of its
    client's connection. *)
Definition lock (t : Z) (w : World) : bool :=
  match tunnels w !! t with
  | Some k => bool_decide (t ∈ g_tunnels w) || own k || bool_decide (connection_ k <> None)
  | None => false
  end.

(*@ muduo/examples/socks4a/tunnel.h 109-118 Tunnel::onHighWaterMarkWeak *)
Definition onHighWaterMarkWeak (t : Z) (w : World) : res World :=
  if lock t w then onHighWaterMark t w else mret w.

(** ** What happens *)

(** The answers of the name server come with the message that asks. *)
Definition resolver : Type := list byte -> option Z.

Inductive event : Type :=
| Accept (c : Z)
| ServerData (c : Z) (data : list byte) (dns : resolver)
| ServerClosed (c : Z)
| Connected (t u : Z)
| ClientData (u : Z) (data : list byte)
| ClientClosed (u : Z)
| HighWater (i : Z).

(** The program that uses the tunnels. *)
Class Program : Type := {
  onServerConnection : Z -> World -> res World;
  onServerMessage : resolver -> Z -> World -> res World
}.

Section events.
Context `{Program}.

(** [defaultMessageCallback]; [defaultConnectionCallback] only logs. *)
Definition defaultMessageCallback (u : Z) (w : World) : res World :=
  y ← get u w; mret (put u (with_input (retrieveAll (inputBuffer_ y)) y) w).

(** Data arrives, or a connection closes, only while it is not closed. *)
Definition arrives (i : Z) (data : list byte) (callback : Conn -> World -> res World) (w : World) : res World :=
  match conns w !! i with
  | Some x =>
      if decide (state_ x = kDisconnected) then mret w
      else
        b ← append (inputBuffer_ x) data;
        callback x (put i (with_received data (with_input b x)) w)
  | None => mret w
  end.
Definition closes (i : Z) (callback : Conn -> World -> res World) (w : World) : res World :=
  match conns w !! i with
  | Some x => if decide (state_ x = kDisconnected) then mret w else callback x (put i (with_state kDisconnected x) w)
  | None => mret w
  end.

(** What cannot happen in a state does nothing there. *)
Definition perform (e : event) (w : World) : res World :=
  match e with
  | Accept c =>
      match conns w !! c with
      | None => onServerConnection c (put c (Conn_new OfServer) w)
      | Some _ => mret w
      end
  | ServerData c data dns =>
      arrives c data (fun x => match callbacks x with OfServer => onServerMessage dns c | _ => fun _ => mret w end) w
  | ServerClosed c => closes c (fun x => match callbacks x with OfServer => onServerConnection c | _ => fun _ => mret w end) w
  | Connected t u =>
      match tunnels w !! t, conns w !! u with
      | Some k, None =>
          if connecting k
          then
            let w := put u (Conn_new (OfClient t (own k))) (put_tunnel t (with_connection (Some u) (with_connecting false k)) w) in
            if own k then onClientConnection t u w else mret w
          else mret w
      | _, _ => mret w
      end
  | ClientData u data =>
      arrives u data (fun y => match callbacks y with
        | OfClient t own => if own then onClientMessage t u else defaultMessageCallback u
        | OfServer => fun _ => mret w
        end) w
  | ClientClosed u =>
      closes u (fun y => match callbacks y with
        | OfClient t own => fun w =>
            w ← (if own then onClientConnection t u w else mret w);
            k ← the_tunnel t w;
            mret (put_tunnel t (with_connection None k) w)
        | OfServer => fun _ => mret w
        end) w
  | HighWater i =>
      match conns w !! i with
      | Some x => match highWater x with Some t => onHighWaterMarkWeak t w | None => mret w end
      | None => mret w
      end
  end.

Fixpoint run (es : list event) (w : World) : res World :=
  match es with
  | [] => mret w
  | e :: es => w ← perform e w; run es w
  end.
End events.

(** ** What a session is

    A program says which requests open a tunnel to an address and with which
    answer ([opened addr req greeting]: [req] is what it takes from the
    client's bytes, [greeting] what it sends first), and what a connection
    without a tunnel may look like ([lone]). *)
Section sessions.
Context (opened : sockaddr_in -> list byte -> list byte -> Prop) (lone : StateE -> list byte -> list byte -> Prop).

(** The parts of a world a session consists of: the connection that was
    accepted, its tunnel, the connections of its client, and whether it is in
    the map. *)
Definition server (c : Z) (w : World) : option Conn :=
  match conns w !! c with Some x => if decide (callbacks x = OfServer) then Some x else None | None => None end.
Definition links (c : Z) (w : World) : gmap Z Conn :=
  filter (fun p : Z * Conn => callbacks p.2 = OfClient c true) (conns w).

(** The bytes of the client are the request, those sent on, and those that wait
    in the buffer; the greeting and the bytes of the other side are those sent
    to the client, and those that wait. *)
Record relays (x y : Conn) (req greeting up down : list byte) : Prop := {
  relays_up : received x = req ++ sent y ++ up;
  relays_down : greeting ++ received y = sent x ++ down;
  relays_up_holds : holds up (inputBuffer_ x);
  relays_down_holds : holds down (inputBuffer_ y);
  relays_up_now : state_ y = kConnected -> up = [];
  relays_down_now : state_ x = kConnected -> down = []
}.

(** A session has no tunnel, or one that waits for its connection, or one that
    has it, or one whose connection is closed. *)
Inductive session (c : Z) : option Conn -> option Tunnel -> gmap Z Conn -> bool -> Prop :=
| session_none : session c None None ∅ false
| session_lone x :
    lone (state_ x) (sent x) (received x) -> context_ x = None -> highWater x = None ->
    holds (received x) (inputBuffer_ x) ->
    session c (Some x) None ∅ false
| session_waiting x addr req greeting up g :
    g = bool_decide (state_ x <> kDisconnected) ->
    opened addr req greeting -> context_ x = None -> highWater x = Some c ->
    received x = req ++ up -> holds up (inputBuffer_ x) -> sent x = greeting ->
    session c (Some x) (Some (mkTunnel addr true true None (Some c))) ∅ g
| session_up x u y addr req greeting up down g :
    g = bool_decide (state_ x <> kDisconnected) ->
    opened addr req greeting -> context_ x = Some u -> highWater x = Some c -> highWater y = Some c ->
    relays x y req greeting up down -> state_ y <> kDisconnected ->
    session c (Some x) (Some (mkTunnel addr true false (Some u) (Some c))) {[u := y]} g
| session_closed x u y addr req greeting up down g :
    g = bool_decide (state_ x <> kDisconnected) ->
    opened addr req greeting -> context_ x = None -> highWater x = Some c -> highWater y = Some c ->
    relays x y req greeting up down -> state_ y = kDisconnected -> state_ x <> kConnected ->
    session c (Some x) (Some (mkTunnel addr false false None (Some c))) {[u := y]} g.

Definition session_of (c : Z) (w : World) : Prop :=
  session c (server c w) (tunnels w !! c) (links c w) (bool_decide (c ∈ g_tunnels w)).

Record inv (w : World) : Prop := {
  inv_session : forall c, session_of c w;
  inv_own : forall u y t b, conns w !! u = Some y -> callbacks y = OfClient t b -> b = true
}.

(** ** Views after an update *)

Lemma server_Some c w x : server c w = Some x <-> conns w !! c = Some x /\ callbacks x = OfServer.
Proof using Type.
  unfold server. destruct (conns w !! c) as [x' |]; [| naive_solver]. case_decide; naive_solver.
Qed.
Lemma links_Some c w u y : links c w !! u = Some y <-> conns w !! u = Some y /\ callbacks y = OfClient c true.
Proof using Type. unfold links. by rewrite map_lookup_filter_Some. Qed.

Lemma server_put_eq c x w : callbacks x = OfServer -> server c (put c x w) = Some x.
Proof using Type. intros Hx. apply server_Some. cbn [conns put]. by rewrite lookup_insert_eq. Qed.
Lemma server_put_ne c i x w : c <> i -> server c (put i x w) = server c w.
Proof using Type. intros Hne. unfold server. cbn [conns put]. by rewrite lookup_insert_ne by done. Qed.
Lemma server_put_client c i t b y w : callbacks y = OfClient t b -> server i w = None -> server c (put i y w) = server c w.
Proof using Type.
  intros Hy Hi. destruct (decide (c = i)) as [-> | Hne]; [| by apply server_put_ne].
  rewrite Hi. unfold server. cbn [conns put]. by rewrite lookup_insert_eq, decide_False by congruence.
Qed.
Lemma links_put_eq c u y w : callbacks y = OfClient c true -> links c (put u y w) = <[u := y]> (links c w).
Proof using Type. intros Hy. unfold links. cbn [conns put]. by rewrite map_filter_insert_True. Qed.
(** A connection that was not of [c] and is not. *)
Lemma links_put_ne c i x w : callbacks x <> OfClient c true -> links c w !! i = None -> links c (put i x w) = links c w.
Proof using Type.
  intros Hx Hi. apply map_eq. intros u. apply option_eq. intros y. rewrite !links_Some. cbn [conns put].
  destruct (decide (u = i)) as [-> | Hne]; [| by rewrite lookup_insert_ne by done].
  rewrite lookup_insert_eq. split; [intros [[= ->] ?]; done |].
  intros Hy. apply links_Some in Hy. congruence.
Qed.
Lemma server_no_link c u x w : server u w = Some x -> links c w !! u = None.
Proof using Type.
  intros Hs. apply server_Some in Hs as [Hu Hx]. apply eq_None_not_Some. intros [y Hy]. apply links_Some in Hy as [Hy Hcb].
  congruence.
Qed.
Lemma link_no_server c u y w : links c w !! u = Some y -> server u w = None.
Proof using Type.
  intros Hl. apply links_Some in Hl as [Hu Hy]. unfold server. by rewrite Hu, decide_False by congruence.
Qed.
Lemma link_one c c' u y w : links c w !! u = Some y -> c' <> c -> links c' w !! u = None.
Proof using Type.
  intros Hl Hne. apply links_Some in Hl as [Hu Hy]. apply eq_None_not_Some. intros [y' Hy'].
  apply links_Some in Hy' as [Hu' Hy']. congruence.
Qed.
Lemma absent_views u w : conns w !! u = None -> server u w = None /\ forall c, links c w !! u = None.
Proof using Type.
  intros Hu. split; [unfold server; by rewrite Hu |]. intros c. apply eq_None_not_Some. intros [y Hy].
  apply links_Some in Hy as [Hy _]. congruence.
Qed.

(** ** Steps of one session *)

(** The objects of the session of [c]: its connection and those of its
    client; a connection that may become one of them. *)
Definition mine (c i : Z) (x : Conn) : Prop := (i = c /\ callbacks x = OfServer) \/ callbacks x = OfClient c true.
Definition ours (c i : Z) (w : World) : Prop := forall x, conns w !! i = Some x -> mine c i x.

(** From [w] to [w'] only the session of [c] changes. *)
Record touches (c : Z) (w w' : World) : Prop := {
  touches_server c' : c' <> c -> server c' w' = server c' w;
  touches_tunnel c' : c' <> c -> tunnels w' !! c' = tunnels w !! c';
  touches_links c' : c' <> c -> links c' w' = links c' w;
  touches_g c' : c' <> c -> c' ∈ g_tunnels w' <-> c' ∈ g_tunnels w;
  touches_ours i : ours c i w -> ours c i w';
  touches_own u y t b : conns w' !! u = Some y -> callbacks y = OfClient t b -> b = true \/ conns w !! u = Some y
}.

Lemma touches_inv c w w' : inv w -> touches c w w' -> session_of c w' -> inv w'.
Proof using Type.
  intros [H1 H2] Ht Hc. split.
  - intros c'. destruct (decide (c' = c)) as [-> | Hne]; [done |]. unfold session_of.
    rewrite (touches_server _ _ _ Ht), (touches_tunnel _ _ _ Ht), (touches_links _ _ _ Ht) by done.
    rewrite (bool_decide_ext _ _ (touches_g _ _ _ Ht c' Hne)). apply H1.
  - intros u y t b Hu Hy. destruct (touches_own _ _ _ Ht u y t b Hu Hy) as [| Hu']; [done |]. by eapply H2.
Qed.

Lemma touches_refl c w : touches c w w.
Proof using Type. split; try done. intros. by right. Qed.

Lemma touches_put c i x w w' : touches c w w' -> ours c i w -> mine c i x -> touches c w (put i x w').
Proof using Type.
  intros Ht Hi Hx. pose proof (touches_ours _ _ _ Ht i Hi) as Hi'. split.
  - intros c' Hne. rewrite <- (touches_server _ _ _ Ht c' Hne). destruct (decide (c' = i)) as [-> | Hne']; [| by apply server_put_ne].
    unfold server. cbn [conns put]. rewrite lookup_insert_eq. destruct Hx as [[-> _] | Hx]; [done |].
    rewrite decide_False by congruence. destruct (conns w' !! i) as [x' |] eqn:E; [| done].
    destruct (Hi' x' E) as [[-> _] | Hx']; [done |]. by rewrite decide_False by congruence.
  - apply Ht.
  - intros c' Hne. rewrite <- (touches_links _ _ _ Ht c' Hne). apply links_put_ne.
    + destruct Hx as [[_ ->] | ->]; congruence.
    + apply eq_None_not_Some. intros [y Hy]. apply links_Some in Hy as [Hy Hcb].
      destruct (Hi' y Hy) as [[_ ?] | ?]; congruence.
  - apply Ht.
  - intros j Hj x' Hx'. cbn [conns put] in Hx'. apply lookup_insert_Some in Hx' as [[<- <-] | [_ Hx']]; [done |].
    by apply (touches_ours _ _ _ Ht j Hj).
  - intros u y t b Hu Hy. cbn [conns put] in Hu. apply lookup_insert_Some in Hu as [[<- <-] | [_ Hu]].
    + left. destruct Hx as [[_ ?] | ?]; congruence.
    + by apply (touches_own _ _ _ Ht u y t b).
Qed.
Lemma touches_put_tunnel c k w w' : touches c w w' -> touches c w (put_tunnel c k w').
Proof using Type.
  intros Ht. split; try apply Ht. intros c' Hne. cbn [tunnels put_tunnel]. rewrite lookup_insert_ne by done. by apply Ht.
Qed.
Lemma touches_with_g c f w w' :
  (forall c', c' <> c -> c' ∈ f (g_tunnels w') <-> c' ∈ g_tunnels w') -> touches c w w' -> touches c w (with_g f w').
Proof using Type.
  intros Hf Ht. split; try apply Ht. intros c' Hne. cbn [g_tunnels with_g]. rewrite Hf by done. by apply Ht.
Qed.

Lemma ours_server c x w : server c w = Some x -> ours c c w.
Proof using Type. intros [H1 H2]%server_Some x' Hx'. left. split; [done |]. congruence. Qed.
Lemma ours_link c u y w : links c w !! u = Some y -> ours c u w.
Proof using Type. intros [H1 H2]%links_Some x' Hx'. right. congruence. Qed.
Lemma ours_absent c i w : conns w !! i = None -> ours c i w.
Proof using Type. intros H1 x' Hx'. congruence. Qed.

Lemma touches1 c x x0 w : server c w = Some x0 -> callbacks x = OfServer -> touches c w (put c x w).
Proof using Type. intros Hc Hx. apply touches_put; [apply touches_refl | by eapply ours_server | by left]. Qed.
Lemma touches2 c x x0 u y w :
  server c w = Some x0 -> ours c u w -> callbacks x = OfServer -> callbacks y = OfClient c true ->
  touches c w (put c x (put u y w)).
Proof using Type.
  intros Hc Hu Hx Hy. apply touches_put; [apply touches_put; [apply touches_refl | done | by right] | by eapply ours_server | by left].
Qed.

Lemma put_comm i j x y w : i <> j -> put i x (put j y w) = put j y (put i x w).
Proof using Type. intros Hne. unfold put. cbn [conns tunnels g_tunnels]. by rewrite insert_insert_ne by done. Qed.
Lemma put_put i x y w : put i x (put i y w) = put i x w.
Proof using Type. unfold put. cbn [conns tunnels g_tunnels]. by rewrite insert_insert_eq. Qed.
Lemma put_get i x w : conns w !! i = Some x -> put i x w = w.
Proof using Type. intros Hi. unfold put. rewrite insert_id by done. by destruct w. Qed.

Lemma get_put i x w : get i (put i x w) = Ok x.
Proof using Type. unfold get. cbn [conns put]. by rewrite lookup_insert_eq. Qed.
Lemma get_put_ne i j x w : i <> j -> get i (put j x w) = get i w.
Proof using Type. intros Hne. unfold get. cbn [conns put]. by rewrite lookup_insert_ne by done. Qed.
Lemma get_Some i x w : conns w !! i = Some x -> get i w = Ok x.
Proof using Type. unfold get. by intros ->. Qed.

(** The session after its connection, or both connections, changed. *)
Lemma session_put1 c x w :
  ours c c w -> links c w !! c = None -> callbacks x = OfServer ->
  session c (Some x) (tunnels w !! c) (links c w) (bool_decide (c ∈ g_tunnels w)) -> session_of c (put c x w).
Proof using Type.
  intros Hc Hl Hx Hs. unfold session_of. rewrite server_put_eq, links_put_ne by (done || congruence). exact Hs.
Qed.
Lemma session_put2 c x x0 u y y0 w :
  server c w = Some x0 -> (links c w = {[u := y0]} \/ links c w = ∅ /\ conns w !! u = None) ->
  callbacks x = OfServer -> callbacks y = OfClient c true ->
  session c (Some x) (tunnels w !! c) {[u := y]} (bool_decide (c ∈ g_tunnels w)) -> session_of c (put c x (put u y w)).
Proof using Type.
  intros Hc Hl Hx Hy Hs. assert (Hne : u <> c).
  { intros ->. destruct Hl as [Hl | [_ Hl]]; [| apply server_Some in Hc as [? _]; congruence].
    pose proof (server_no_link c c x0 w Hc) as Hn. rewrite Hl, lookup_singleton_eq in Hn. done. }
  assert (Hl' : links c (put u y w) = {[u := y]}).
  { rewrite links_put_eq by done. destruct Hl as [-> | [-> _]]; [apply insert_singleton_eq | by rewrite insert_empty]. }
  unfold session_of. rewrite server_put_eq, links_put_ne; [| congruence | | done].
  - by rewrite Hl'.
  - rewrite Hl'. by apply lookup_singleton_ne.
Qed.

(** ** The steps every program has *)

(** The facts of a session with a tunnel. *)
Definition waiting (c : Z) (x : Conn) (k : Tunnel) (w : World) addr req greeting : Prop :=
  k = mkTunnel addr true true None (Some c) /\ links c w = ∅ /\ context_ x = None
  /\ exists up, received x = req ++ up /\ holds up (inputBuffer_ x) /\ sent x = greeting.
Definition linked (c : Z) (x : Conn) (k : Tunnel) (w : World) addr req greeting (u : Z) (y : Conn) : Prop :=
  conns w !! u = Some y /\ callbacks y = OfClient c true /\ u <> c /\ links c w = {[u := y]} /\ highWater y = Some c
  /\ exists up down, relays x y req greeting up down
     /\ (k = mkTunnel addr true false (Some u) (Some c) /\ context_ x = Some u /\ state_ y <> kDisconnected
         \/ k = mkTunnel addr false false None (Some c) /\ context_ x = None /\ state_ y = kDisconnected /\ state_ x <> kConnected).

Lemma tunnel_session w c k : inv w -> tunnels w !! c = Some k ->
  exists x, server c w = Some x /\ conns w !! c = Some x /\ callbacks x = OfServer /\ highWater x = Some c
    /\ bool_decide (c ∈ g_tunnels w) = bool_decide (state_ x <> kDisconnected)
    /\ exists addr req greeting, opened addr req greeting
       /\ (waiting c x k w addr req greeting \/ exists u y, linked c x k w addr req greeting u y).
Proof using Type.
  intros H Hk. pose proof (inv_session w H c) as Hs. unfold session_of in Hs. rewrite Hk in Hs.
  remember (server c w) as o eqn:Ho. remember (links c w) as L eqn:HL. remember (bool_decide (c ∈ g_tunnels w)) as g eqn:Hg.
  assert (Hlink : forall u y, {[u := y]} = L -> conns w !! u = Some y /\ callbacks y = OfClient c true /\ (o <> None -> u <> c)).
  { intros u y <-. pose proof (f_equal (fun m => m !! u) HL) as Hu. cbn beta in Hu. rewrite lookup_singleton_eq in Hu. symmetry in Hu.
    apply links_Some in Hu as Hu'. split_and!; try apply Hu'. intros Hn ->. rewrite Ho, (link_no_server _ _ _ _ Hu) in Hn. done. }
  inversion Hs as [| | x addr req greeting up g' Ho1 | x u y addr req greeting up down g' Ho1 | x u y addr req greeting up down g' Ho1];
    exists x; (assert (Hsx : server c w = Some x) by congruence); apply server_Some in Hsx as Ho'; destruct Ho' as [Hx Hcb];
    (split; [done |]; split; [done |]; split; [done |]; split; [done |]; split; [congruence |]); exists addr, req, greeting;
    (split; [done |]).
  - left. split_and!; eauto; congruence.
  - right. destruct (Hlink u y) as (Hu & Hy & Hne); [done |]. exists u, y.
    split; [done |]. split; [done |]. split; [apply Hne; congruence |]. split; [congruence |]. split; [done |].
    exists up, down. split; [done |]. left. auto.
  - right. destruct (Hlink u y) as (Hu & Hy & Hne); [done |]. exists u, y.
    split; [done |]. split; [done |]. split; [apply Hne; congruence |]. split; [congruence |]. split; [done |].
    exists up, down. split; [done |]. right. auto.
Qed.

(** ** The steps every program has *)

Lemma connected_true x : state_ x = kConnected -> connected x = true.
Proof using Type. apply bool_decide_eq_true_2. Qed.
Lemma connected_false x : state_ x <> kConnected -> connected x = false.
Proof using Type. apply bool_decide_eq_false_2. Qed.

(** Sending the input buffer of one connection on another. *)
Lemma send_input_ok dst src y x l w :
  dst <> src -> conns w !! dst = Some y -> conns w !! src = Some x -> holds l (inputBuffer_ x) ->
  send_input dst src w
  = Ok (if connected y then put src (with_input (retrieveAll (inputBuffer_ x)) x) (put dst (with_sent l y) w) else w).
Proof using Type.
  intros Hne Hy Hx Hl. unfold send_input. rewrite (get_Some _ _ _ Hy). rsimp. destruct (connected y); [| done].
  rewrite (get_Some _ _ _ Hx). rsimp. by rewrite (read_all _ _ Hl).
Qed.

Lemma relays_forward x y req greeting up down d b :
  relays x y req greeting up down -> state_ y = kConnected -> holds (up ++ d) b ->
  relays (with_input (retrieveAll b) (with_received d (with_input b x))) (with_sent (up ++ d) y) req greeting [] down.
Proof using Type.
  intros [] Hy Hb. split; cbn; try done.
  - rewrite relays_up0, app_nil_r, <- !app_assoc. done.
  - by eapply retrieveAll_holds.
Qed.
Lemma relays_keep x y req greeting up down d b :
  relays x y req greeting up down -> state_ y <> kConnected -> holds (up ++ d) b ->
  relays (with_received d (with_input b x)) y req greeting (up ++ d) down.
Proof using Type.
  intros [] Hy Hb. split; cbn; try done. rewrite relays_up0, <- !app_assoc. done.
Qed.

(** Bytes from the client: to the other side if it is there, else they wait. *)
Lemma forward_inv w c x k d b :
  inv w -> server c w = Some x -> tunnels w !! c = Some k ->
  (forall l, holds l (inputBuffer_ x) -> holds (l ++ d) b) ->
  let w1 := put c (with_received d (with_input b x)) w in
  exists w', match context_ x with Some u => send_input u c w1 | None => mret w1 end = Ok w' /\ inv w'.
Proof using Type.
  intros H Hx Hk Hb w1. pose proof (ours_server c x w Hx) as Hours.
  destruct (tunnel_session w c k H Hk) as (x' & Hx' & Hcx & Hcb & Hhw & Hg & addr & req & greeting & Hop & Hcase).
  assert (x' = x) as -> by congruence.
  destruct Hcase as [(-> & HL & Hctx & up & Hrec & Hup & Hsent) | (u & y & Hu & Hy & Hne & HL & Hhy & up & down & Hrel & [(-> & Hctx & Hst) | (-> & Hctx & Hst & Hxst)])];
    rewrite Hctx.
  - eexists. split; [done |]. apply (touches_inv c w); [done | by eapply touches1 |].
    apply session_put1; [done | by rewrite HL | done |]. rewrite Hk, HL, Hg.
    eapply session_waiting; cbn; [done | done | done | done | | by apply Hb | done]. by rewrite Hrec, <- app_assoc.
  - rewrite (send_input_ok u c y (with_received d (with_input b x)) (up ++ d)); [| done | cbn; by rewrite lookup_insert_ne by done | cbn; by rewrite lookup_insert_eq | by apply Hb, (relays_up_holds _ _ _ _ _ _ Hrel)].
    eexists. split; [done |].
    assert (Hou : ours c u w) by (intros y' Hy'; right; congruence).
    destruct (decide (state_ y = kConnected)) as [Hyc | Hyc]; [rewrite (connected_true y) by done | rewrite (connected_false y) by done].
    + unfold w1. rewrite (put_comm u c), put_put by done.
      apply (touches_inv c w); [done | by eapply touches2; eauto |].
      eapply session_put2; [done | by left | done | done |]. rewrite Hk, Hg.
      eapply session_up; [done | done | done | done | done | by apply relays_forward; [| | apply Hb, (relays_up_holds _ _ _ _ _ _ Hrel)] | done].
    + apply (touches_inv c w); [done | by eapply touches1 |].
      apply session_put1; [done | rewrite HL; by apply lookup_singleton_ne | done |]. rewrite Hk, HL, Hg.
      eapply session_up; [done | done | done | done | done | by apply relays_keep; [| | apply Hb, (relays_up_holds _ _ _ _ _ _ Hrel)] | done].
  - eexists. split; [done |]. apply (touches_inv c w); [done | by eapply touches1 |].
    apply session_put1; [done | rewrite HL; by apply lookup_singleton_ne | done |]. rewrite Hk, HL, Hg.
    eapply session_closed; [done | done | done | done | done | | done | done].
    apply relays_keep; [done | congruence | apply Hb, (relays_up_holds _ _ _ _ _ _ Hrel)].
Qed.

(** The session of a connection that a tunnel's client made. *)
Lemma link_session w c u y :
  inv w -> conns w !! u = Some y -> callbacks y = OfClient c true ->
  exists k x addr req greeting, tunnels w !! c = Some k /\ server c w = Some x /\ conns w !! c = Some x /\ callbacks x = OfServer
    /\ highWater x = Some c /\ bool_decide (c ∈ g_tunnels w) = bool_decide (state_ x <> kDisconnected)
    /\ opened addr req greeting /\ linked c x k w addr req greeting u y.
Proof using Type.
  intros H Hu Hy. assert (Hl : links c w !! u = Some y) by (by apply links_Some).
  assert (exists k, tunnels w !! c = Some k) as [k Hk].
  { pose proof (inv_session w H c) as Hs. unfold session_of in Hs.
    destruct (tunnels w !! c) as [k |]; [by exists k |].
    assert (HL : links c w = ∅) by (by inversion Hs). by rewrite HL, lookup_empty in Hl. }
  destruct (tunnel_session w c k H Hk) as (x & Hx & Hcx & Hcb & Hhw & Hg & addr & req & greeting & Hop & [(_ & HL & _) | (u' & y' & Hlink)]).
  - by rewrite HL, lookup_empty in Hl.
  - pose proof Hlink as (_ & _ & _ & HL & _). rewrite HL in Hl. apply lookup_singleton_Some in Hl as [-> ->].
    exists k, x, addr, req, greeting. done.
Qed.

Lemma relays_backward x y req greeting up down d b :
  relays x y req greeting up down -> state_ x = kConnected -> holds (down ++ d) b ->
  relays (with_sent (down ++ d) x) (with_input (retrieveAll b) (with_received d (with_input b y))) req greeting up [].
Proof using Type.
  intros [] Hx Hb. split; cbn; try done.
  - rewrite app_nil_r, !app_assoc, relays_down0, <- !app_assoc. done.
  - by eapply retrieveAll_holds.
Qed.
Lemma relays_keep_back x y req greeting up down d b :
  relays x y req greeting up down -> state_ x <> kConnected -> holds (down ++ d) b ->
  relays x (with_received d (with_input b y)) req greeting up (down ++ d).
Proof using Type.
  intros [] Hx Hb. split; cbn; try done. by rewrite app_assoc, relays_down0, <- app_assoc.
Qed.

(** Bytes from the other side, while its connection is not closed. *)
Lemma backward_inv w c u y d b :
  inv w -> conns w !! u = Some y -> callbacks y = OfClient c true -> state_ y <> kDisconnected ->
  (forall l, holds l (inputBuffer_ y) -> holds (l ++ d) b) ->
  exists w', onClientMessage c u (put u (with_received d (with_input b y)) w) = Ok w' /\ inv w'.
Proof using Type.
  intros H Hu Hy Hst Hb.
  destruct (link_session w c u y H Hu Hy) as (k & x & addr & req & greeting & Hk & Hx & Hcx & Hcb & Hhw & Hg & Hop
    & (_ & _ & Hne & HL & Hhy & up & down & Hrel & [(-> & Hctx & _) | (_ & _ & Hst' & _)])); [| done].
  pose proof (Hb _ (relays_down_holds _ _ _ _ _ _ Hrel)) as Hb'.
  assert (Hou : ours c u w) by (intros y' Hy'; right; congruence).
  unfold onClientMessage, the_tunnel. cbn [tunnels put]. rewrite Hk. rsimp. cbn [serverConn_].
  rewrite (send_input_ok c u x (with_received d (with_input b y)) (down ++ d));
    [| done | cbn; by rewrite lookup_insert_ne by done | cbn; by rewrite lookup_insert_eq | done].
  eexists. split; [done |].
  destruct (decide (state_ x = kConnected)) as [Hxc | Hxc]; [rewrite (connected_true x) by done | rewrite (connected_false x) by done].
  - rewrite (put_comm c u), put_put, (put_comm u c) by done.
    apply (touches_inv c w); [done | by eapply touches2; eauto |].
    eapply session_put2; [done | by left | done | done |]. rewrite Hk, Hg.
    eapply session_up; [done | done | done | done | done | by apply relays_backward | done].
  - rewrite <- (put_get c x (put u _ w)) by (cbn; by rewrite lookup_insert_ne by done).
    apply (touches_inv c w); [done | by eapply touches2; eauto |].
    eapply session_put2; [done | by left | done | done |]. rewrite Hk, Hg.
    eapply session_up; [done | done | done | done | done | by apply relays_keep_back | done].
Qed.

Lemma shutdown_ok i x w :
  conns w !! i = Some x -> shutdown i w = Ok (put i (if connected x then with_state kDisconnecting x else x) w).
Proof using Type. intros Hx. unfold shutdown. rewrite (get_Some _ _ _ Hx). rsimp. destruct (connected x); [done |]. by rewrite put_get. Qed.

Definition shut (x : Conn) : Conn := if connected x then with_state kDisconnecting x else x.
Lemma shut_state x : state_ (shut x) = (if connected x then kDisconnecting else state_ x).
Proof using Type. unfold shut. by destruct (connected x). Qed.
Lemma shut_not_connected x : state_ (shut x) <> kConnected.
Proof using Type. unfold shut, connected. by case_bool_decide. Qed.
Lemma shut_closed x : state_ (shut x) = kDisconnected <-> state_ x = kDisconnected.
Proof using Type. unfold shut, connected. case_bool_decide as E; [by rewrite E | done]. Qed.
Lemma shut_fields x :
  context_ (shut x) = context_ x /\ callbacks (shut x) = callbacks x /\ highWater (shut x) = highWater x
  /\ inputBuffer_ (shut x) = inputBuffer_ x /\ sent (shut x) = sent x /\ received (shut x) = received x.
Proof using Type. unfold shut. by destruct (connected x). Qed.

(** Only the states of the two connections matter to [relays], and closing
    them only weakens it. *)
Lemma relays_states x x' y y' req greeting up down :
  relays x y req greeting up down ->
  sent x' = sent x -> received x' = received x -> inputBuffer_ x' = inputBuffer_ x ->
  sent y' = sent y -> received y' = received y -> inputBuffer_ y' = inputBuffer_ y ->
  (state_ x' = kConnected -> state_ x = kConnected) -> (state_ y' = kConnected -> state_ y = kConnected) ->
  relays x' y' req greeting up down.
Proof using Type.
  intros [] Hx1 Hx2 Hx3 Hy1 Hy2 Hy3 Hx Hy. split; rewrite ?Hx1, ?Hx2, ?Hx3, ?Hy1, ?Hy2, ?Hy3; auto.
Qed.
Lemma relays_shut_client x y req greeting up down :
  relays x y req greeting up down -> relays x (shut y) req greeting up down.
Proof using Type.
  intros Hrel. pose proof (shut_fields y) as (_ & _ & _ & ? & ? & ?). pose proof (shut_not_connected y).
  eapply relays_states; eauto. done.
Qed.

(** ** Closing a tunnel from either side *)

Lemma links_with_g c f w : links c (with_g f w) = links c w.
Proof using Type. done. Qed.

Lemma disconnect_inv w c k : inv w -> tunnels w !! c = Some k -> exists w', disconnect c w = Ok w' /\ inv w'.
Proof using Type.
  intros H Hk.
  destruct (tunnel_session w c k H Hk) as (x & Hx & Hcx & Hcb & Hhw & Hg & addr & req & greeting & Hop
    & [(-> & _) | (u & y & Hu & Hy & Hne & HL & Hhy & up & down & Hrel & [(-> & Hctx & Hst) | (-> & _)])]);
    unfold disconnect, the_tunnel; rewrite Hk; rsimp; cbn [connection_]; try (by eexists).
  rewrite (shutdown_ok u y) by done. eexists. split; [done |]. change (if connected y then _ else _) with (shut y).
  pose proof (shut_fields y) as (F1 & F2 & F3 & F4 & F5 & F6).
  rewrite <- (put_get c x (put u _ w)) by (cbn; by rewrite lookup_insert_ne by done).
  assert (Hou : ours c u w) by (intros y' Hy'; right; congruence).
  apply (touches_inv c w); [done | eapply touches2; eauto; congruence |].
  eapply session_put2; [done | by left | done | congruence |]. rewrite Hk, Hg.
  eapply session_up; [done | done | done | done | congruence | by apply relays_shut_client | by rewrite shut_closed].
Qed.

(** The client of the program closed its connection: the handlers of both
    programs, which take the tunnel out of the map. *)
Lemma server_down_inv w c x k :
  inv w -> server c w = Some x -> tunnels w !! c = Some k ->
  exists w', disconnect c (put c (with_state kDisconnected x) w) = Ok w' /\ inv (with_g (fun g => g ∖ {[c]}) w').
Proof using Type.
  intros H Hx Hk.
  destruct (tunnel_session w c k H Hk) as (x' & Hx' & Hcx & Hcb & Hhw & Hg & addr & req & greeting & Hop & Hcase).
  assert (x' = x) as -> by congruence. unfold disconnect, the_tunnel. cbn [tunnels put]. rewrite Hk. rsimp.
  assert (Hg' : bool_decide (c ∈ g_tunnels w ∖ {[c]}) = false) by (apply bool_decide_eq_false_2; set_solver).
  assert (Ht : forall w', touches c w w' -> touches c w (with_g (fun g => g ∖ {[c]}) w')).
  { intros w' Hw'. apply touches_with_g; [set_solver | done]. }
  destruct Hcase as [(-> & HL & Hctx & up & Hrec & Hup & Hsent) | (u & y & Hu & Hy & Hne & HL & Hhy & up & down & Hrel & Hcase)].
  - eexists. split; [done |]. apply (touches_inv c w); [done | by apply Ht; eapply touches1 |].
    apply (session_put1 c _ (with_g (fun g => g ∖ {[c]}) w)); [by eapply ours_server | by rewrite links_with_g, HL | done |].
    cbn [tunnels with_g g_tunnels]. rewrite Hk, Hg'. rewrite links_with_g, HL.
    by eapply session_waiting.
  - assert (Hou : ours c u w) by (intros y' Hy'; right; congruence). pose proof (shut_fields y) as (F1 & F2 & F3 & F4 & F5 & F6).
    destruct Hcase as [(-> & Hctx & Hst) | (-> & Hctx & Hst & Hxst)]; cbn [connection_].
    + rewrite (shutdown_ok u y) by (cbn; by rewrite lookup_insert_ne by done). eexists. split; [done |].
      change (if connected y then _ else _) with (shut y). rewrite (put_comm u c) by done.
      apply (touches_inv c w); [done | apply Ht; eapply touches2; eauto; congruence |].
      eapply (session_put2 c _ x u (shut y) y (with_g (fun g => g ∖ {[c]}) w)); [done | by left | done | congruence |].
      cbn [tunnels with_g g_tunnels]. rewrite Hk, Hg'.
      eapply session_up; [done | done | done | done | congruence | | by rewrite shut_closed].
      eapply relays_states; [by apply relays_shut_client | done.. | |]; done.
    + eexists. split; [done |]. apply (touches_inv c w); [done | by apply Ht; eapply touches1 |].
      apply (session_put1 c _ (with_g (fun g => g ∖ {[c]}) w)); [by eapply ours_server | | done |].
      { rewrite links_with_g, HL. by apply lookup_singleton_ne. }
      cbn [tunnels with_g g_tunnels]. rewrite Hk, Hg'. rewrite links_with_g, HL.
      eapply session_closed; [done | done | done | done | done | | done | done].
      eapply relays_states; [done | done.. | |]; done.
Qed.

Lemma links_put_tunnel c i k w : links c (put_tunnel i k w) = links c w.
Proof using Type. done. Qed.
Lemma serverConn_put c k w : serverConn_ k = Some c -> serverConn c (put_tunnel c k w) = Ok c.
Proof using Type. intros Hk. unfold serverConn, the_tunnel. cbn [tunnels put_tunnel]. rewrite lookup_insert_eq. rsimp. by rewrite Hk. Qed.

(** The other side closed its connection: what the tunnel does, and its client. *)
Lemma client_down_inv w c u y :
  inv w -> conns w !! u = Some y -> callbacks y = OfClient c true -> state_ y <> kDisconnected ->
  exists w1 k w', onClientConnection c u (put u (with_state kDisconnected y) w) = Ok w1 /\ the_tunnel c w1 = Ok k
    /\ w' = put_tunnel c (with_connection None k) w1 /\ inv w'.
Proof using Type.
  intros H Hu Hy Hst.
  destruct (link_session w c u y H Hu Hy) as (k & x & addr & req & greeting & Hk & Hx & Hcx & Hcb & Hhw & Hg & Hop
    & (_ & _ & Hne & HL & Hhy & up & down & Hrel & [(-> & Hctx & _) | (_ & _ & Hst' & _)])); [| done].
  set (y' := with_state kDisconnected y). 
  assert (Hf : let x' := shut (with_context None x) in context_ x' = None /\ callbacks x' = callbacks x /\ highWater x' = highWater x
    /\ inputBuffer_ x' = inputBuffer_ x /\ sent x' = sent x /\ received x' = received x) by exact (shut_fields (with_context None x)).
  destruct Hf as (F1 & F2 & F3 & F4 & F5 & F6).
  assert (Hou : ours c u w) by (intros y0 Hy0; right; congruence).
  exists (put c (shut (with_context None x)) (put u y' (put_tunnel c (mkTunnel addr false false (Some u) (Some c)) w))),
    (mkTunnel addr false false (Some u) (Some c)). eexists. split_and!; [| | done |].
  - unfold onClientConnection. rewrite get_put. rsimp. rewrite (connected_false y') by done.
    unfold teardown, the_tunnel. cbn [tunnels put]. rewrite Hk. rsimp. cbn [serverConn_].
    rewrite (get_Some c x) by (cbn; by rewrite lookup_insert_ne by done). rsimp.
    rewrite (shutdown_ok c (with_context None x)) by (cbn; by rewrite lookup_insert_eq). by rewrite put_put.
  - unfold the_tunnel. cbn [tunnels put put_tunnel]. by rewrite lookup_insert_eq.
  - set (k' := mkTunnel addr false false None (Some c)).
    apply (touches_inv c w); [done | |].
    { apply touches_put_tunnel, touches_put; [apply touches_put; [apply touches_put_tunnel, touches_refl | done | by right] | by eapply ours_server | left; split; [done | congruence]]. }
    eapply (session_put2 c _ x u y' y (put_tunnel c k' (put_tunnel c (mkTunnel addr false false (Some u) (Some c)) w)));
      [done | by left | by rewrite F2 | done |].
    cbn [tunnels put_tunnel g_tunnels]. rewrite lookup_insert_eq, Hg.
    eapply session_closed; [| done | by rewrite F1 | by rewrite F3 | done | | done | apply shut_not_connected].
    + apply bool_decide_ext. by rewrite shut_closed.
    + eapply relays_states; [done | first [done | congruence].. | |]; [intros E; by destruct (shut_not_connected _ E) | done].
Qed.

(** The tunnel's client has its connection. *)
Lemma client_up_inv w c u k :
  inv w -> tunnels w !! c = Some k -> connecting k = true -> conns w !! u = None ->
  own k = true /\
  exists w', onClientConnection c u (put u (Conn_new (OfClient c true))
      (put_tunnel c (with_connection (Some u) (with_connecting false k)) w)) = Ok w' /\ inv w'.
Proof using Type.
  intros H Hk Hc Hu.
  destruct (tunnel_session w c k H Hk) as (x & Hx & Hcx & Hcb & Hhw & Hg & addr & req & greeting & Hop
    & [(-> & HL & Hctx & up & Hrec & Hup & Hsent) | (u' & y & _ & _ & _ & _ & _ & up & down & _ & [(-> & _) | (-> & _)])]); try done.
  split; [done |]. assert (Hne : u <> c) by (intros ->; congruence).
  unfold with_connection, with_connecting. cbn [serverAddr own connecting connection_ serverConn_]. set (k' := mkTunnel addr true false (Some u) (Some c)).
  set (y := with_highWater (Some c) (Conn_new (OfClient c true))).
  assert (Hrun : forall w1, w1 = put u y (put_tunnel c k' w) -> onClientConnection c u (put u (Conn_new (OfClient c true)) (put_tunnel c k' w))
    = if 0 <? zlen up then send_input u c (put c (with_context (Some u) x) w1) else Ok (put c (with_context (Some u) x) w1)).
  { intros w1 ->. unfold onClientConnection. rewrite get_put. rsimp. cbn [connected state_ Conn_new]. rewrite put_put. fold y.
    change (put u y (put_tunnel c k' w)) with (put_tunnel c k' (put u y w)). rewrite serverConn_put by done. rsimp.
    change (get c (put_tunnel c k' (put u y w))) with (get c (put u y w)). rewrite get_put_ne, (get_Some c x) by done. rsimp.
    by rewrite (holds_readable _ _ Hup). }
  rewrite (Hrun _ eq_refl). assert (Hou : ours c u w) by by apply ours_absent.
  assert (Ht : forall x' y', callbacks x' = OfServer -> callbacks y' = OfClient c true ->
            touches c w (put c x' (put u y' (put_tunnel c k' w)))).
  { intros x' y' Hx' Hy'. apply touches_put; [apply touches_put; [apply touches_put_tunnel, touches_refl | done | by right] | by eapply ours_server | by left]. }
  destruct (Z.ltb_spec 0 (zlen up)) as [Hlen | Hlen].
  - rewrite (send_input_ok u c y (with_context (Some u) x) up);
      [| done | cbn; rewrite lookup_insert_ne by done; by rewrite lookup_insert_eq | cbn; by rewrite lookup_insert_eq | done].
    rewrite (connected_true y) by done. eexists. split; [done |].
    rewrite (put_comm u c), !put_put by done.
    apply (touches_inv c w); [done | by apply Ht |].
    eapply (session_put2 c _ x u _ y (put_tunnel c k' w)); [done | by right | done | done |].
    cbn [tunnels put_tunnel g_tunnels]. rewrite lookup_insert_eq, Hg.
    eapply session_up; [done | done | done | done | done | | done].
    split; cbn; [by rewrite app_nil_r | by rewrite Hsent | by eapply retrieveAll_holds | apply holds_new | done | done].
  - eexists. split; [done |].
    apply (touches_inv c w); [done | by apply Ht |].
    eapply (session_put2 c _ x u _ y (put_tunnel c k' w)); [done | by right | done | done |].
    cbn [tunnels put_tunnel g_tunnels]. rewrite lookup_insert_eq, Hg.
    assert (up = []) as -> by (destruct up; [done | rewrite zlen_cons in Hlen; pose proof (zlen_nonneg up); lia]).
    eapply session_up; [done | done | done | done | done | | done].
    split; cbn; [done | by rewrite Hsent | done | apply holds_new | done | done].
Qed.

Lemma setup_ok w c x addr : conns w !! c = Some x ->
  setup c (put_tunnel c (Tunnel_new addr c) w)
  = Ok (put c (with_highWater (Some c) x) (put_tunnel c (mkTunnel addr true false None (Some c)) w)).
Proof using Type.
  intros Hx. unfold setup, the_tunnel. cbn [tunnels put_tunnel]. rewrite lookup_insert_eq. rsimp.
  rewrite serverConn_put by done. rsimp. unfold get. cbn [conns put_tunnel]. rewrite Hx. rsimp.
  unfold put_tunnel. cbn [conns tunnels g_tunnels]. by rewrite insert_insert_eq.
Qed.
Lemma tunnel_connect_ok w c x addr :
  connect c (put c x (put_tunnel c (mkTunnel addr true false None (Some c)) w))
  = Ok (put c x (put_tunnel c (mkTunnel addr true true None (Some c)) w)).
Proof using Type.
  unfold connect, the_tunnel. cbn [tunnels put_tunnel put]. rewrite lookup_insert_eq. rsimp.
  unfold put, put_tunnel. cbn [conns tunnels g_tunnels]. by rewrite insert_insert_eq.
Qed.

(** A program opens a tunnel for a connection that has none. *)
Lemma open_inv w c x addr req greeting up :
  inv w -> tunnels w !! c = None -> (server c w <> None \/ conns w !! c = None) ->
  opened addr req greeting -> callbacks x = OfServer -> context_ x = None -> highWater x = Some c ->
  received x = req ++ up -> holds up (inputBuffer_ x) -> sent x = greeting -> state_ x <> kDisconnected ->
  inv (with_g (fun g => {[c]} ∪ g) (put c x (put_tunnel c (mkTunnel addr true true None (Some c)) w))).
Proof using Type.
  intros H Hk Hc Hop Hcb Hctx Hhw Hrec Hup Hsent Hst.
  assert (Hours : ours c c w).
  { destruct Hc as [Hc | Hc]; [| by apply ours_absent]. destruct (server c w) as [x0 |] eqn:E; [by eapply ours_server | done]. }
  assert (HL : links c w = ∅).
  { pose proof (inv_session w H c) as Hs. unfold session_of in Hs. rewrite Hk in Hs. by inversion Hs. }
  apply (touches_inv c w); [done | |].
  { apply touches_with_g; [set_solver |]. apply touches_put; [apply touches_put_tunnel, touches_refl | done | by left]. }
  apply (session_put1 c x (with_g (fun g => {[c]} ∪ g) (put_tunnel c (mkTunnel addr true true None (Some c)) w)));
    [done | by rewrite links_with_g, links_put_tunnel, HL | done |].
  rewrite links_with_g, links_put_tunnel, HL. cbn [tunnels put_tunnel with_g g_tunnels]. rewrite lookup_insert_eq.
  eapply session_waiting; [| done..]. rewrite !bool_decide_eq_true_2 by (done || set_solver). done.
Qed.

(** A connection without a tunnel. *)
Lemma lone_inv w c x :
  inv w -> tunnels w !! c = None -> (server c w <> None \/ conns w !! c = None) ->
  lone (state_ x) (sent x) (received x) -> callbacks x = OfServer -> context_ x = None -> highWater x = None ->
  holds (received x) (inputBuffer_ x) -> inv (put c x w).
Proof using Type.
  intros H Hk Hc Hl Hcb Hctx Hhw Hb.
  assert (Hours : ours c c w).
  { destruct Hc as [Hc | Hc]; [| by apply ours_absent]. destruct (server c w) as [x0 |] eqn:E; [by eapply ours_server | done]. }
  pose proof (inv_session w H c) as Hs. unfold session_of in Hs. rewrite Hk in Hs.
  assert (HL : links c w = ∅) by (by inversion Hs). assert (Hg : bool_decide (c ∈ g_tunnels w) = false) by (by inversion Hs).
  apply (touches_inv c w); [done | apply touches_put; [apply touches_refl | done | by left] |].
  apply session_put1; [done | by rewrite HL | done |]. rewrite Hk, HL, Hg. by apply session_lone.
Qed.

Lemma append_keeps b0 l0 d :
  holds l0 b0 -> zlen d < 2 ^ 62 -> safe (append b0 d) (fun b => forall l, holds l b0 -> holds (l ++ d) b).
Proof using Type.
  intros H0 Hd. eapply safe_mono; [by apply (append_holds l0) |]. intros b Hb l Hl.
  assert (l = l0) as -> by (destruct H0 as [_ <-]; by destruct Hl as [_ <-]). done.
Qed.

(** ** What a program owes

    [good_dns] restricts the answers of the name server. *)
Context (good_dns : resolver -> Prop).

Class Serves `{Program} : Prop := {
  serves_up w c :
    inv w -> conns w !! c = None -> tunnels w !! c = None ->
    safe (onServerConnection c (put c (Conn_new OfServer) w)) inv;
  serves_down w c x :
    inv w -> server c w = Some x -> state_ x <> kDisconnected ->
    safe (onServerConnection c (put c (with_state kDisconnected x) w)) inv;
  serves_message w c x d b dns :
    inv w -> server c w = Some x -> state_ x <> kDisconnected -> good_dns dns ->
    (forall l, holds l (inputBuffer_ x) -> holds (l ++ d) b) ->
    safe (onServerMessage dns c (put c (with_received d (with_input b x)) w)) inv
}.

Definition good_event (e : event) : Prop :=
  match e with
  | ServerData _ d dns => zlen d < 2 ^ 62 /\ good_dns dns
  | ClientData _ d => zlen d < 2 ^ 62
  | _ => True
  end.

Context `{Hprogram : Program, Hserves : !Serves}.

Lemma server_input w c x : inv w -> server c w = Some x -> exists l, holds l (inputBuffer_ x).
Proof using Type.
  intros H Hx. destruct (tunnels w !! c) as [k |] eqn:Hk.
  - destruct (tunnel_session w c k H Hk) as (x' & Hx' & _ & _ & _ & _ & addr & req & greeting & _
      & [(_ & _ & _ & up & _ & Hup & _) | (u & y & _ & _ & _ & _ & _ & up & down & Hrel & _)]);
      (assert (x' = x) as -> by congruence); [by exists up | exists up; apply Hrel].
  - pose proof (inv_session w H c) as Hs. unfold session_of in Hs. rewrite Hk, Hx in Hs. inversion Hs. by eexists.
Qed.

Lemma server_or_client w i x : inv w -> conns w !! i = Some x ->
  server i w = Some x /\ callbacks x = OfServer \/ exists c, callbacks x = OfClient c true.
Proof using Type.
  intros H Hx. destruct (callbacks x) as [| c b] eqn:E.
  - left. split; [by apply server_Some | done].
  - right. exists c. by rewrite (inv_own w H i x c b Hx E).
Qed.

Lemma high_water_inv w i x : inv w -> conns w !! i = Some x ->
  exists w', match highWater x with Some t => onHighWaterMarkWeak t w | None => mret w end = Ok w' /\ inv w'.
Proof using Type.
  intros H Hx. destruct (highWater x) as [t |] eqn:Et; [| by eexists]. unfold onHighWaterMarkWeak, lock.
  destruct (tunnels w !! t) as [k |] eqn:Hk; [| by eexists].
  destruct (_ || _); [by eapply disconnect_inv | by eexists].
Qed.

Lemma tunnel_perform_inv e w : inv w -> good_event e -> safe (perform e w) inv.
Proof using Hserves.
  intros H He. destruct e as [c | c d dns | c | t u | u d | u | i]; cbn [perform].
  - destruct (conns w !! c) as [x |] eqn:Hc; [done |]. apply serves_up; [done | done |].
    pose proof (inv_session w H c) as Hs. unfold session_of in Hs. destruct (absent_views c w Hc) as [E _].
    rewrite E in Hs. by inversion Hs.
  - unfold arrives. destruct (conns w !! c) as [x |] eqn:Hc; [| done]. case_decide as Hst; [done |].
    destruct He as [Hd Hdns]. destruct (server_or_client w c x H Hc) as [[Hx Hcb] | [t Hcb]].
    + destruct (server_input w c x H Hx) as [l Hl]. eapply safe_bind; [by eapply append_keeps |]. intros b Hb.
      rewrite Hcb. by apply serves_message.
    + destruct (link_session w t c x H Hc Hcb) as (k & x' & addr & req & greeting & _ & _ & _ & _ & _ & _ & _
        & (_ & _ & _ & _ & _ & up & down & Hrel & _)).
      eapply safe_bind; [eapply append_keeps; [by apply (relays_down_holds _ _ _ _ _ _ Hrel) | done] |]. intros b _. by rewrite Hcb.
  - unfold closes. destruct (conns w !! c) as [x |] eqn:Hc; [| done]. case_decide as Hst; [done |].
    destruct (server_or_client w c x H Hc) as [[Hx Hcb] | [t Hcb]]; rewrite Hcb; [by apply serves_down | done].
  - destruct (tunnels w !! t) as [k |] eqn:Hk; [| done]. destruct (conns w !! u) as [y |] eqn:Hu; [done |].
    destruct (connecting k) eqn:Ec; [| done]. destruct (client_up_inv w t u k H Hk Ec Hu) as (-> & w' & -> & Hw'). done.
  - unfold arrives. destruct (conns w !! u) as [y |] eqn:Hu; [| done]. case_decide as Hst; [done |].
    destruct (server_or_client w u y H Hu) as [[Hy Hcb] | [t Hcb]].
    + destruct (server_input w u y H Hy) as [l Hl]. eapply safe_bind; [by eapply append_keeps |]. intros b _. by rewrite Hcb.
    + destruct (link_session w t u y H Hu Hcb) as (k & x' & addr & req & greeting & _ & _ & _ & _ & _ & _ & _
        & (_ & _ & _ & _ & _ & up & down & Hrel & _)).
      eapply safe_bind; [eapply append_keeps; [by apply (relays_down_holds _ _ _ _ _ _ Hrel) | done] |]. intros b Hb. rewrite Hcb.
      destruct (backward_inv w t u y d b H Hu Hcb Hst Hb) as (w' & -> & Hw'). done.
  - unfold closes. destruct (conns w !! u) as [y |] eqn:Hu; [| done]. case_decide as Hst; [done |].
    destruct (server_or_client w u y H Hu) as [[Hy Hcb] | [t Hcb]]; rewrite Hcb; [done |].
    destruct (client_down_inv w t u y H Hu Hcb Hst) as (w1 & k & w' & -> & Ek & -> & Hw'). rsimp. rewrite Ek. done.
  - destruct (conns w !! i) as [x |] eqn:Hx; [| done]. destruct (high_water_inv w i x H Hx) as (w' & -> & Hw'). done.
Qed.

Lemma tunnel_inv_new : inv World_new.
Proof using Type.
  split; [| done]. intros c. unfold session_of, server, links. cbn. rewrite !lookup_empty.
  rewrite map_filter_empty, bool_decide_eq_false_2 by apply not_elem_of_empty. apply session_none.
Qed.

Lemma tunnel_run_inv es : forall w, inv w -> Forall good_event es -> safe (run es w) inv.
Proof using Hserves.
  induction es as [| e es IH]; intros w H Hes; [done |]. apply Forall_cons in Hes as [He Hes]. cbn [run].
  eapply safe_bind; [by apply tunnel_perform_inv |]. intros w' Hw'. by apply IH.
Qed.

(** What holds of the tunnel of [c] and its connections. *)
Definition relayed (w : World) : Prop :=
  forall c k, tunnels w !! c = Some k ->
  exists x req greeting, server c w = Some x /\ opened (serverAddr k) req greeting
    /\ (c ∈ g_tunnels w <-> state_ x <> kDisconnected)
    /\ (links c w = ∅ /\ connecting k = true /\ sent x = greeting
           /\ (exists up, received x = req ++ up /\ holds up (inputBuffer_ x))
         \/ exists u y up down, links c w = {[u := y]} /\ connecting k = false /\ relays x y req greeting up down
              /\ (state_ y = kDisconnected -> state_ x <> kConnected)).

Lemma inv_relayed w : inv w -> relayed w.
Proof using Type.
  intros H c k Hk.
  destruct (tunnel_session w c k H Hk) as (x & Hx & Hcx & Hcb & Hhw & Hg & addr & req & greeting & Hop & Hcase).
  exists x, req, greeting. split; [done |].
  assert (Hg' : c ∈ g_tunnels w <-> state_ x <> kDisconnected) by by by rewrite <- (bool_decide_eq_true (c ∈ g_tunnels w)), Hg, bool_decide_eq_true.
  destruct Hcase as [(-> & HL & Hctx & up & Hrec & Hup & Hsent) | (u & y & Hu & Hy & Hne & HL & Hhy & up & down & Hrel & [(-> & Hctx & Hst) | (-> & Hctx & Hst & Hxst)])];
    (split; [done |]; split; [done |]).
  - left. split_and!; [done..|]. by exists up.
  - right. exists u, y, up, down. split_and!; done.
  - right. exists u, y, up, down. split_and!; done.
Qed.
End sessions.
