(* ===== verification/TcpRelay.v ===== *)
(** * TcpRelay: [examples/socks4a/tcprelay.cc]

    Every connection gets a tunnel to one address. *)
From S2P Require Import Prelude Buffer Framing Sockets Tunnel.

Section relay.
Context (g_serverAddr : sockaddr_in).

(*@ muduo/examples/socks4a/tcprelay.cc 14-31 onServerConnection *)
Definition relay_onServerConnection (conn : Z) (w : World) : res World :=
  x ← get conn w;
  if connected x
  then
    let w := put_tunnel conn (Tunnel_new g_serverAddr conn) w in
    w ← setup conn w;
    w ← connect conn w;
    mret (with_g (fun g => {[conn]} ∪ g) w)
  else
    assert_ (bool_decide (conn ∈ g_tunnels w));;
    w ← disconnect conn w;
    mret (with_g (fun g => g ∖ {[conn]}) w).

(*@ muduo/examples/socks4a/tcprelay.cc 33-42 onServerMessage *)
Definition relay_onServerMessage (_ : resolver) (conn : Z) (w : World) : res World :=
  x ← get conn w;
  match context_ x with Some clientConn => send_input clientConn conn w | None => mret w end.

#[export] Instance relay_program : Program :=
  {| onServerConnection := relay_onServerConnection; onServerMessage := relay_onServerMessage |}.

(** Nothing is taken from the bytes and nothing added to them. *)
Definition relay_opened (addr : sockaddr_in) (req greeting : list byte) : Prop := addr = g_serverAddr /\ req = [] /\ greeting = [].
Definition relay_lone (_ : StateE) (_ _ : list byte) : Prop := False.

Lemma relay_tunnel w c x : inv relay_opened relay_lone w -> server c w = Some x -> exists k, tunnels w !! c = Some k.
Proof.
  intros H Hx. pose proof (inv_session _ _ w H c) as Hs. unfold session_of in Hs. rewrite Hx in Hs.
  destruct (tunnels w !! c) as [k |]; [by exists k |]. inversion Hs as [| ? [] | | |].
Qed.

#[export] Instance relay_serves : Serves relay_opened relay_lone (fun _ => True).
Proof.
  split.
  - intros w c H Hc Hk. unfold onServerConnection, relay_program, relay_onServerConnection.
    rewrite get_put. rsimp. rewrite connected_true by done.
    rewrite (setup_ok _ c (Conn_new OfServer)) by (cbn; by rewrite lookup_insert_eq). rsimp. rewrite tunnel_connect_ok. rsimp. cbn [safe].
    change (put_tunnel c ?k (put c ?x w)) with (put c x (put_tunnel c k w)). rewrite put_put.
    apply (open_inv relay_opened relay_lone w c (with_highWater (Some c) (Conn_new OfServer)) g_serverAddr [] [] []); try done;
      by right.
  - intros w c x H Hx Hst. destruct (relay_tunnel w c x H Hx) as [k Hk].
    unfold onServerConnection, relay_program, relay_onServerConnection. rewrite get_put. rsimp.
    rewrite connected_false by done. cbn [g_tunnels put].
    destruct (tunnel_session _ _ w c k H Hk) as (x' & Hx' & _ & _ & _ & Hg & _). assert (x' = x) as -> by congruence.
    rewrite Hg, bool_decide_eq_true_2 by done. cbn [assert_]. rsimp.
    destruct (server_down_inv _ _ w c x k H Hx Hk) as (w' & -> & Hw'). exact Hw'.
  - intros w c x d b dns H Hx Hst _ Hb. destruct (relay_tunnel w c x H Hx) as [k Hk].
    unfold onServerMessage, relay_program, relay_onServerMessage. rewrite get_put. rsimp. cbn [context_ with_received with_input].
    destruct (forward_inv _ _ w c x k d b H Hx Hk Hb) as (w' & E & Hw'). rewrite E. exact Hw'.
Qed.

(** The relay is transparent: whatever the order in which connections come and
    go and data arrives, no assertion fails, and for every connection the bytes
    sent to the other side are those the client sent, those sent to the client
    are those of the other side, in order and once, up to what waits in the
    buffers; nothing waits while there is somebody to send it to. *)
Theorem tcp_relay_transparent es :
  Forall (good_event (fun _ => True)) es ->
  safe (run es World_new) (relayed relay_opened).
Proof.
  intros Hes. eapply safe_mono; [by apply (tunnel_run_inv relay_opened relay_lone (fun _ => True)); [apply tunnel_inv_new |] |].
  apply inv_relayed.
Qed.
End relay.

Definition demo_relay : list event :=
  [Accept 1; ServerData 1 (bs "early") (fun _ => None); Connected 1 2; ClientData 2 (bs "answer");
   ServerData 1 (bs "late") (fun _ => None); ClientClosed 2; ServerClosed 1].
Lemma demo_relay_good : Forall (good_event (fun _ => True)) demo_relay.
Proof. by repeat constructor. Qed.

Lemma tcp_relay_transparent_witness :
  safe (run (H := relay_program zero_addr) demo_relay World_new) (relayed (relay_opened zero_addr)).
Proof. exact (tcp_relay_transparent zero_addr demo_relay demo_relay_good). Defined.

(** A client that closes before the connection to the other side is made: its
    tunnel is told to disconnect and has nothing to disconnect; when the
    connection comes it is kept, with nobody at the other end, and nothing but
    the server can close it. *)
Theorem late_connection_stays :
  exists w x y, run (H := relay_program zero_addr) [Accept 1; ServerClosed 1; Connected 1 2] World_new = Ok w
    /\ conns w !! 1 = Some x /\ state_ x = kDisconnected /\ g_tunnels w = ∅
    /\ conns w !! 2 = Some y /\ state_ y = kConnected /\ context_ x = Some 2.
Proof. do 3 eexists. split; [vm_compute; reflexivity |]. split_and!; vm_compute; reflexivity. Qed.
