(* ===== verification/Socks4a.v ===== *)
(** * Socks4a: [examples/socks4a/socks4a.cc]

    A SOCKS proxy, versions 4 and 4a: a request names an address, or a host the
    name server knows, and the connection gets a tunnel to it. *)
From S2P Require Import Prelude Endian Buffer Framing Sockets Tunnel.

(*@ muduo/examples/socks4a/socks4a.cc 13-29 onServerConnection *)
Definition socks_onServerConnection (conn : Z) (w : World) : res World :=
  x ← get conn w;
  if connected x then mret w
  else if bool_decide (conn ∈ g_tunnels w)
  then w ← disconnect conn w; mret (with_g (fun g => g ∖ {[conn]}) w)
  else mret w.

Definition granted : list byte := [Byte.x00; Byte.x5a] ++ bs "UVWXYZ".
Definition rejected : list byte := [Byte.x00; Byte.x5b] ++ bs "UVWXYZ".

(** [dns] is [gethostbyname], its answer for this message.  The name is the C
    string at [where+1], which ends at [endOfHostName]. *)
(*@ muduo/examples/socks4a/socks4a.cc 31-109 onServerMessage *)
Definition socks_onServerMessage (dns : resolver) (conn : Z) (w : World) : res World :=
  x ← get conn w;
  let buf := inputBuffer_ x in
  if bool_decide (conn ∉ g_tunnels w)
  then
    if 128 <? readableBytes buf then shutdown conn w
    else if 8 <? readableBytes buf
    then
      rest ← mem_read (peek buf + 8) (peek buf + readableBytes buf) (buffer_ buf);
      let where_ := find_byte NUL rest in
      if negb (where_ =? zlen rest)
      then
        head ← mem_read (peek buf) (peek buf + 8) (buffer_ buf);
        let ver := s8 (le_val (zslice 0 1 head)) in
        let cmd := s8 (le_val (zslice 1 2 head)) in
        let port := le_val (zslice 2 4 head) in
        let ip := le_val (zslice 4 8 head) in
        let socks4a := networkToHost32 ip <? 256 in
        let tail := zdrop (where_ + 1) rest in
        let endOfHostName := find_byte NUL tail in
        if socks4a && (endOfHostName =? zlen tail) then mret w
        else
          let '(where_, s_addr, okay) :=
            if socks4a
            then match dns (ztake endOfHostName tail) with
                 | Some a => (where_ + 1 + endOfHostName, a, true)
                 | None => (where_ + 1 + endOfHostName, ip, false)
                 end
            else (where_, ip, true) in
          let serverAddr := mkAddr AF_INET port s_addr in
          if (ver =? 4) && (cmd =? 1) && okay
          then
            let w := put_tunnel conn (Tunnel_new serverAddr conn) w in
            w ← setup conn w;
            w ← connect conn w;
            let w := with_g (fun g => {[conn]} ∪ g) w in
            x ← get conn w;
            buf ← retrieveUntil (inputBuffer_ x) (peek (inputBuffer_ x) + 8 + where_ + 1);
            send conn granted (put conn (with_input buf x) w)
          else w ← send conn rejected w; shutdown conn w
      else mret w
    else mret w
  else match context_ x with Some clientConn => send_input clientConn conn w | None => mret w end.

#[export] Instance socks_program : Program :=
  {| onServerConnection := socks_onServerConnection; onServerMessage := socks_onServerMessage |}.

(** ** Requests *)

(** A request for an address, and one for a name: version and command, port and
    address in network order, a user, and for an address [0.0.0.x] a name. *)
Inductive asks (resolves : list byte -> Z -> Prop) : sockaddr_in -> list byte -> Prop :=
| asks_address port ip user :
    zlen port = 2 -> zlen ip = 4 -> NUL ∉ user -> 256 <= be_val ip ->
    asks resolves (mkAddr AF_INET (le_val port) (le_val ip)) ([Byte.x04; Byte.x01] ++ port ++ ip ++ user ++ [NUL])
| asks_name port ip user host a :
    zlen port = 2 -> zlen ip = 4 -> NUL ∉ user -> be_val ip < 256 -> NUL ∉ host -> resolves host a ->
    asks resolves (mkAddr AF_INET (le_val port) a) ([Byte.x04; Byte.x01] ++ port ++ ip ++ user ++ [NUL] ++ host ++ [NUL]).

(** What the handler makes of the unread bytes of a connection without a
    tunnel: too many, not yet a request, a tunnel and the length of its
    request, or a refusal. *)
Inductive verdict : Type := TooLong | Incomplete | Granted (addr : sockaddr_in) (len : Z) | Refused.

Definition judge (dns : resolver) (l : list byte) : verdict :=
  if 128 <? zlen l then TooLong
  else if 8 <? zlen l
  then
    let rest := zdrop 8 l in
    let where_ := find_byte NUL rest in
    if where_ =? zlen rest then Incomplete
    else
      let head := ztake 8 l in
      let ip := le_val (zslice 4 8 head) in
      let socks4a := networkToHost32 ip <? 256 in
      let tail := zdrop (where_ + 1) rest in
      let stop := find_byte NUL tail in
      if socks4a && (stop =? zlen tail) then Incomplete
      else
        let '(len, s_addr, okay) :=
          if socks4a
          then match dns (ztake stop tail) with
               | Some a => (where_ + 1 + stop, a, true)
               | None => (where_ + 1 + stop, ip, false)
               end
          else (where_, ip, true) in
        if (s8 (le_val (zslice 0 1 head)) =? 4) && (s8 (le_val (zslice 1 2 head)) =? 1) && okay
        then Granted (mkAddr AF_INET (le_val (zslice 2 4 head)) s_addr) (8 + len + 1) else Refused
  else Incomplete.

Section socks.
Context (resolves : list byte -> Z -> Prop).
Definition good_dns (dns : resolver) : Prop := forall host a, dns host = Some a -> resolves host a.

(** A refused connection may get a tunnel all the same, see below. *)
Definition socks_opened (addr : sockaddr_in) (req greeting : list byte) : Prop :=
  asks resolves addr req /\ (greeting = granted \/ greeting = rejected).
Definition socks_lone (s : StateE) (sent received : list byte) : Prop :=
  match s with
  | kConnected => sent = []
  | kDisconnecting => sent = rejected \/ sent = [] /\ 128 < zlen received
  | kDisconnected => True
  end.
End socks.

(** ** The verdict is right *)

Lemma zdrop_past {A} (a : list A) c k : zdrop (zlen a + 1) (a ++ c :: k) = k.
Proof. rewrite zdrop_app_r by lia. by replace (zlen a + 1 - zlen a) with 1 by lia. Qed.
(** Up to the first [c]. *)
Lemma find_byte_cut c l : find_byte c l <> zlen l ->
  exists a k, l = a ++ c :: k /\ (c ∉ a) /\ find_byte c l = zlen a /\ zdrop (find_byte c l + 1) l = k.
Proof.
  induction l as [| b l IH]; [done |]. cbn [find_byte]. case_decide as Hb.
  - intros _. subst b. exists [], l. split_and!; done || apply not_elem_of_nil.
  - rewrite zlen_cons. intros Hne. destruct IH as (a & k & -> & Ha & Hf & _); [lia |].
    exists (b :: a), k. split; [done |]. split; [by apply not_elem_of_cons |]. rewrite Hf, zlen_cons. split; [done |].
    replace (1 + zlen a + 1) with (zlen (b :: a) + 1) by (rewrite zlen_cons; lia). exact (zdrop_past (b :: a) c k).
Qed.
Lemma ztake_len {A} (a k : list A) : ztake (zlen a) (a ++ k) = a.
Proof. by rewrite ztake_app_l, ztake_all by lia. Qed.

(** The head of a request, byte by byte. *)
Lemma judge_head dns b0 b1 p0 p1 a0 a1 a2 a3 rest :
  let l := [b0; b1; p0; p1; a0; a1; a2; a3] ++ rest in
  let ip := le_val [a0; a1; a2; a3] in
  let where_ := find_byte NUL rest in
  let tail := zdrop (where_ + 1) rest in
  let stop := find_byte NUL tail in
  judge dns l =
  if 128 <? 8 + zlen rest then TooLong
  else if where_ =? zlen rest then Incomplete
  else if (be_val [a0; a1; a2; a3] <? 256) && (stop =? zlen tail) then Incomplete
  else
    let '(len, s_addr, okay) :=
      if be_val [a0; a1; a2; a3] <? 256
      then match dns (ztake stop tail) with
           | Some a => (where_ + 1 + stop, a, true)
           | None => (where_ + 1 + stop, ip, false)
           end
      else (where_, ip, true) in
    if (s8 (byte_val b0) =? 4) && (s8 (byte_val b1) =? 1) && okay
    then Granted (mkAddr AF_INET (le_val [p0; p1]) s_addr) (8 + len + 1) else Refused.
Proof.
  intros l ip where_ tail stop. unfold judge. pose proof (zlen_nonneg rest).
  assert (El : zlen l = 8 + zlen rest) by (unfold l; by rewrite zlen_app). rewrite El.
  change (zdrop 8 l) with rest. fold where_ tail stop. change (ztake 8 l) with [b0; b1; p0; p1; a0; a1; a2; a3].
  change (zslice 4 8 [b0; b1; p0; p1; a0; a1; a2; a3]) with [a0; a1; a2; a3]. fold ip.
  change (zslice 0 1 [b0; b1; p0; p1; a0; a1; a2; a3]) with [b0]. change (zslice 1 2 [b0; b1; p0; p1; a0; a1; a2; a3]) with [b1].
  change (zslice 2 4 [b0; b1; p0; p1; a0; a1; a2; a3]) with [p0; p1].
  assert (Eb : forall b, le_val [b] = byte_val b) by (intros b; cbn [le_val]; lia). rewrite !Eb.
  assert (Eip : networkToHost32 ip = be_val [a0; a1; a2; a3]) by (by apply header_value). rewrite Eip.
  destruct (128 <? 8 + zlen rest); [done |].
  destruct (Z.ltb_spec 8 (8 + zlen rest)) as [| Hr]; [done |].
  assert (rest = []) as -> by (apply zlen_zero; lia). done.
Qed.

Lemma s8_byte b n : 0 <= n < 128 -> s8 (byte_val b) = n -> b = byte_of n.
Proof.
  intros Hn Hb. pose proof (byte_val_range b) as Hr. rewrite <- (byte_of_val b). f_equal.
  unfold s8, wraps in Hb. change (2 ^ (8 - 1)) with 128 in Hb. change (2 ^ 8) with 256 in Hb.
  destruct (Z.lt_ge_cases (byte_val b + 128) 256).
  - rewrite Z.mod_small in Hb by lia. lia.
  - replace (byte_val b + 128) with (byte_val b - 128 + 1 * 256) in Hb by lia.
    rewrite Z_mod_plus_full, Z.mod_small in Hb by lia. lia.
Qed.

Lemma list_head8 (l : list byte) : 8 <= zlen l ->
  exists b0 b1 p0 p1 a0 a1 a2 a3 rest, l = [b0; b1; p0; p1; a0; a1; a2; a3] ++ rest.
Proof.
  intros Hl. destruct l as [| b0 [| b1 [| p0 [| p1 [| a0 [| a1 [| a2 [| a3 rest]]]]]]]]; try (unfold zlen in Hl; cbn in Hl; lia).
  by exists b0, b1, p0, p1, a0, a1, a2, a3, rest.
Qed.

Lemma judge_granted resolves dns l addr n :
  good_dns resolves dns -> judge dns l = Granted addr n ->
  exists req rest, l = req ++ rest /\ asks resolves addr req /\ n = zlen req.
Proof.
  intros Hdns Hj. destruct (Z.le_gt_cases 8 (zlen l)) as [Hl | Hl].
  2: { unfold judge in Hj. rewrite !(proj2 (Z.ltb_ge _ _)) in Hj by lia. done. }
  destruct (list_head8 l Hl) as (b0 & b1 & p0 & p1 & a0 & a1 & a2 & a3 & rest & ->). rewrite judge_head in Hj. cbv zeta in Hj.
  destruct (128 <? _); [done |]. destruct (Z.eqb_spec (find_byte NUL rest) (zlen rest)) as [| Hne]; [done |].
  destruct (find_byte_cut NUL rest Hne) as (user & tail & -> & Hu & Ef & Ed). rewrite Ed, Ef in Hj.
  destruct (be_val _ <? 256) eqn:E4; cbn [andb] in Hj.
  - apply Z.ltb_lt in E4. destruct (Z.eqb_spec (find_byte NUL tail) (zlen tail)) as [| Hne']; [done |].
    destruct (find_byte_cut NUL tail Hne') as (host & k & -> & Hh & Eh & _). rewrite Eh, ztake_len in Hj.
    destruct (dns host) as [a |] eqn:Ea; rewrite ?andb_true_r, ?andb_false_r in Hj; [| done].
    destruct (_ && _) eqn:Ev; [| done]. apply andb_prop in Ev as [E0%Z.eqb_eq E1%Z.eqb_eq]. injection Hj as <- <-.
    apply (s8_byte _ 4) in E0; [| lia]. apply (s8_byte _ 1) in E1; [| lia]. subst b0 b1.
    exists ([Byte.x04; Byte.x01] ++ [p0; p1] ++ [a0; a1; a2; a3] ++ user ++ [NUL] ++ host ++ [NUL]), k.
    split; [cbn; rewrite <- !app_assoc; cbn; by rewrite <- app_assoc |]. split; [exact (asks_name resolves [p0; p1] [a0; a1; a2; a3] user host a eq_refl eq_refl Hu E4 Hh (Hdns _ _ Ea)) |].
    rewrite !zlen_app. change (zlen [Byte.x04; Byte.x01]) with 2. change (zlen [p0; p1]) with 2.
    change (zlen [a0; a1; a2; a3]) with 4. change (zlen [NUL]) with 1. lia.
  - apply Z.ltb_ge in E4. rewrite andb_true_r in Hj.
    destruct (_ && _) eqn:Ev; [| done]. apply andb_prop in Ev as [E0%Z.eqb_eq E1%Z.eqb_eq]. injection Hj as <- <-.
    apply (s8_byte _ 4) in E0; [| lia]. apply (s8_byte _ 1) in E1; [| lia]. subst b0 b1.
    exists ([Byte.x04; Byte.x01] ++ [p0; p1] ++ [a0; a1; a2; a3] ++ user ++ [NUL]), tail.
    split; [cbn; by rewrite <- app_assoc |]. split; [exact (asks_address resolves [p0; p1] [a0; a1; a2; a3] user eq_refl eq_refl Hu E4) |].
    rewrite !zlen_app. change (zlen [Byte.x04; Byte.x01]) with 2. change (zlen [p0; p1]) with 2.
    change (zlen [a0; a1; a2; a3]) with 4. change (zlen [NUL]) with 1. lia.
Qed.

Lemma split_unique (c : byte) a k a' k' : c ∉ a -> c ∉ a' -> a ++ c :: k = a' ++ c :: k' -> a = a' /\ k = k'.
Proof.
  intros Ha Ha' Heq. assert (Hl : zlen a = zlen a') by (by rewrite <- (find_byte_split c a k), Heq, find_byte_split).
  apply app_inj_1 in Heq as [-> [= ->]]; [done |]. unfold zlen in Hl. lia.
Qed.
Lemma list2 (l : list byte) : zlen l = 2 -> exists a b, l = [a; b].
Proof. intros Hl. destruct l as [| a [| b [| c l]]]; try (unfold zlen in Hl; cbn in Hl; lia). by exists a, b. Qed.
Lemma list4 (l : list byte) : zlen l = 4 -> exists a b c d, l = [a; b; c; d].
Proof. intros Hl. destruct l as [| a [| b [| c [| d [| e l]]]]]; try (unfold zlen in Hl; cbn in Hl; lia). by exists a, b, c, d. Qed.

Lemma judge_complete dns addr req :
  asks (fun host a => dns host = Some a) addr req -> zlen req <= 128 -> judge dns req = Granted addr (zlen req).
Proof.
  intros Ha Hlen.
  destruct Ha as [port ip user Hp Hi Hu H4 | port ip user host a Hp Hi Hu H4 Hh Hdns];
    destruct (list2 port Hp) as (p0 & p1 & ->); destruct (list4 ip Hi) as (a0 & a1 & a2 & a3 & ->).
  - pose proof (judge_head dns Byte.x04 Byte.x01 p0 p1 a0 a1 a2 a3 (user ++ [NUL])) as Hj. cbn [app] in *. rewrite Hj. cbv zeta.
    rewrite !zlen_cons in *. rewrite (proj2 (Z.ltb_ge _ _)) by lia. rewrite find_byte_split, zlen_app by done. change (zlen [NUL]) with 1.
    rewrite (proj2 (Z.eqb_neq _ _)) by lia. rewrite (proj2 (Z.ltb_ge _ _)) by done. cbn [andb].
    change (s8 (byte_val Byte.x04) =? 4) with true. change (s8 (byte_val Byte.x01) =? 1) with true. cbn [andb].
    f_equal. lia.
  - pose proof (judge_head dns Byte.x04 Byte.x01 p0 p1 a0 a1 a2 a3 (user ++ NUL :: host ++ [NUL])) as Hj. cbn [app] in *. rewrite Hj. cbv zeta.
    rewrite !zlen_cons in *. rewrite (proj2 (Z.ltb_ge _ _)) by lia. rewrite find_byte_split, zdrop_past, find_byte_split, ztake_len by done.
    rewrite !zlen_app, zlen_cons, zlen_app. change (zlen [NUL]) with 1. pose proof (zlen_nonneg host). rewrite (proj2 (Z.eqb_neq _ _)) by lia.
    rewrite (proj2 (Z.eqb_neq _ _)) by lia. rewrite (proj2 (Z.ltb_lt _ _)) by done. cbn [andb]. rewrite Hdns.
    change (s8 (byte_val Byte.x04) =? 4) with true. change (s8 (byte_val Byte.x01) =? 1) with true. cbn [andb].
    f_equal. lia.
Qed.

Lemma judge_partial resolves dns addr req l k :
  asks resolves addr req -> zlen req <= 128 -> req = l ++ k -> k <> [] -> judge dns l = Incomplete.
Proof.
  intros Ha Hlen Heq Hk. assert (Hl : zlen l <= 128) by (rewrite Heq, zlen_app in Hlen; pose proof (zlen_nonneg k); lia).
  destruct (Z.le_gt_cases 8 (zlen l)) as [H8 | H8].
  2: { unfold judge. by rewrite !(proj2 (Z.ltb_ge _ _)) by lia. }
  destruct (list_head8 l H8) as (b0 & b1 & p0 & p1 & a0 & a1 & a2 & a3 & rest & ->). rewrite judge_head. cbv zeta.
  rewrite zlen_app in Hl. change (zlen [b0; b1; p0; p1; a0; a1; a2; a3]) with 8 in Hl. rewrite (proj2 (Z.ltb_ge _ _)) by lia.
  destruct (Z.eqb_spec (find_byte NUL rest) (zlen rest)) as [| Hne]; [done |].
  destruct (find_byte_cut NUL rest Hne) as (user' & tail & -> & Hu' & Ef & Ed). rewrite Ed.
  destruct Ha as [port ip user Hp Hi Hu H4 | port ip user host a Hp Hi Hu H4 Hh Hdns];
    destruct (list2 port Hp) as (q0 & q1 & ->); destruct (list4 ip Hi) as (c0 & c1 & c2 & c3 & ->);
    injection Heq as <- <- <- <- <- <- <- <- Heq; rewrite <- app_assoc in Heq; cbn [app] in Heq;
    apply split_unique in Heq as [-> Heq]; try done.
  - symmetry in Heq. apply app_nil in Heq as [_ ->]. done.
  - rewrite (proj2 (Z.ltb_lt _ _)) by done. destruct (exists_last Hk) as (k' & z & ->).
    rewrite app_assoc in Heq. apply app_inj_tail in Heq as [-> _]. apply not_elem_of_app in Hh as [Hh _].
    by rewrite find_byte_notin, Z.eqb_refl by done.
Qed.

(** ** The handler does what the verdict says *)

Definition reply (data : list byte) (x : Conn) : Conn := if connected x then with_sent data x else x.
Lemma send_ok c x data w : conns w !! c = Some x -> send c data w = Ok (put c (reply data x) w).
Proof. intros Hx. unfold send. rewrite (get_Some _ _ _ Hx). rsimp. unfold reply. destruct (connected x); [done |]. by rewrite put_get. Qed.

Definition does (dns : resolver) (c : Z) (x : Conn) (l : list byte) (w : World) (m : res World) : Prop :=
  match judge dns l with
  | TooLong => m = Ok (put c (shut x) w)
  | Incomplete => m = Ok w
  | Refused => m = Ok (put c (shut (reply rejected x)) w)
  | Granted addr n =>
      exists b, holds (zdrop n l) b
        /\ m = Ok (with_g (fun g => {[c]} ∪ g) (put c (reply granted (with_input b (with_highWater (Some c) x)))
                                                  (put_tunnel c (mkTunnel addr true true None (Some c)) w)))
  end.

Lemma open_ok c x addr l n w :
  conns w !! c = Some x -> holds l (inputBuffer_ x) -> 0 <= n -> 8 + n + 1 <= zlen l ->
  exists b, holds (zdrop (8 + n + 1) l) b
    /\ (w ← setup c (put_tunnel c (Tunnel_new addr c) w);
        w ← connect c w;
        let w := with_g (fun g => {[c]} ∪ g) w in
        x ← get c w;
        buf ← retrieveUntil (inputBuffer_ x) (peek (inputBuffer_ x) + 8 + n + 1);
        send c granted (put c (with_input buf x) w))
       = Ok (with_g (fun g => {[c]} ∪ g) (put c (reply granted (with_input b (with_highWater (Some c) x)))
                                             (put_tunnel c (mkTunnel addr true true None (Some c)) w))).
Proof.
  intros Hx Hl Hn Hn'. destruct (retrieveUntil_holds l (inputBuffer_ x) (8 + n + 1) Hl ltac:(lia)) as (b & Eb & Hb).
  replace (peek (inputBuffer_ x) + (8 + n + 1)) with (peek (inputBuffer_ x) + 8 + n + 1) in Eb by lia. exists b. split; [done |].
  rewrite (setup_ok w c x addr Hx). rsimp. rewrite tunnel_connect_ok. rsimp. cbv zeta.
  set (w' := put_tunnel c (mkTunnel addr true true None (Some c)) w).
  change (get c (with_g (fun g => {[c]} ∪ g) (put c (with_highWater (Some c) x) w'))) with (get c (put c (with_highWater (Some c) x) w')).
  rewrite get_put. rsimp. change (inputBuffer_ (with_highWater (Some c) x)) with (inputBuffer_ x). rewrite Eb. rsimp.
  rewrite (send_ok c (with_input b (with_highWater (Some c) x))) by (cbn; by rewrite lookup_insert_eq). f_equal.
  unfold put, with_g. cbn [conns tunnels g_tunnels]. by rewrite !insert_insert_eq.
Qed.

Lemma socks_message_does dns c x l w :
  conns w !! c = Some x -> c ∉ g_tunnels w -> holds l (inputBuffer_ x) ->
  does dns c x l w (socks_onServerMessage dns c w).
Proof.
  intros Hx Hg Hl. unfold socks_onServerMessage, does, judge. rewrite (get_Some _ _ _ Hx). rsimp. cbv zeta.
  rewrite bool_decide_eq_true_2 by done. rewrite (holds_readable _ _ Hl).
  destruct (Z.ltb_spec 128 (zlen l)) as [| H128]; [by apply shutdown_ok |]. destruct (Z.ltb_spec 8 (zlen l)) as [H8 |]; [| done].
  rewrite (read_range l _ 8 (zlen l)) by (done || lia). rsimp.
  assert (Hrest : zslice 8 (zlen l) l = zdrop 8 l) by (unfold zslice; by rewrite ztake_all by (rewrite zlen_zdrop; lia)).
  rewrite Hrest. pose proof (zlen_zdrop 8 l ltac:(lia)) as Hzr. set (rest := zdrop 8 l) in *.
  pose proof (find_byte_bounds NUL rest) as Hb. set (where_ := find_byte NUL rest) in *.
  destruct (Z.eqb_spec where_ (zlen rest)) as [| Hne]; cbn [negb]; [done |].
  pose proof (read_range l _ 0 8 Hl ltac:(lia) ltac:(lia)) as Hhead. rewrite Z.add_0_r, <- ztake_is_zslice in Hhead. rewrite Hhead. rsimp.
  set (head := ztake 8 l). pose proof (zlen_zdrop (where_ + 1) rest ltac:(lia)) as Hzt. set (tail := zdrop (where_ + 1) rest) in *.
  pose proof (find_byte_bounds NUL tail) as Hbt. set (stop := find_byte NUL tail) in *.
  assert (Href : (w' ← send c rejected w; shutdown c w') = Ok (put c (shut (reply rejected x)) w)).
  { rewrite (send_ok c x) by done. rsimp. rewrite (shutdown_ok c (reply rejected x)) by (cbn; by rewrite lookup_insert_eq). by rewrite put_put. }
  destruct (networkToHost32 (le_val (zslice 4 8 head)) <? 256); cbn [andb].
  - destruct (Z.eqb_spec stop (zlen tail)) as [| Hne']; [done |].
    destruct (dns (ztake stop tail)) as [a |]; [| by rewrite andb_false_r]. rewrite andb_true_r.
    destruct (_ && _); [| done]. apply open_ok; [done | done | lia | lia].
  - rewrite andb_true_r. destruct (_ && _); [| done]. apply open_ok; [done | done | lia | lia].
Qed.

(** ** The proxy serves *)

Section socks_serves.
Context (resolves : list byte -> Z -> Prop).
Abbreviation socks_inv := (inv (socks_opened resolves) socks_lone).

(** A connection that is not closed and not in the map has no tunnel. *)
Lemma socks_no_tunnel w c x :
  socks_inv w -> server c w = Some x -> state_ x <> kDisconnected -> c ∉ g_tunnels w ->
  tunnels w !! c = None /\ socks_lone (state_ x) (sent x) (received x) /\ context_ x = None /\ highWater x = None
  /\ holds (received x) (inputBuffer_ x).
Proof.
  intros H Hx Hst Hg. destruct (tunnels w !! c) as [k |] eqn:Hk.
  - destruct (tunnel_session _ _ w c k H Hk) as (x' & Hx' & _ & _ & _ & E & _). assert (x' = x) as -> by congruence.
    rewrite bool_decide_eq_false_2, bool_decide_eq_true_2 in E by done. done.
  - pose proof (inv_session _ _ w H c) as Hs. unfold session_of in Hs. rewrite Hk, Hx in Hs. inversion Hs; subst. done.
Qed.
Lemma socks_tunnel w c : socks_inv w -> c ∈ g_tunnels w -> exists k, tunnels w !! c = Some k.
Proof.
  intros H Hg. destruct (tunnels w !! c) as [k |] eqn:Hk; [by exists k |].
  pose proof (inv_session _ _ w H c) as Hs. unfold session_of in Hs. rewrite Hk, bool_decide_eq_true_2 in Hs by done. inversion Hs.
Qed.

Lemma judge_long dns l : judge dns l = TooLong -> 128 < zlen l.
Proof.
  unfold judge. destruct (Z.ltb_spec 128 (zlen l)); [done |]. destruct (8 <? _); [| done]. cbv zeta.
  destruct (_ =? _); [done |]. destruct (_ && _); [done |]. destruct (if _ <? 256 then _ else _) as [[??]?]. by destruct (_ && _).
Qed.
Lemma judge_granted_short dns l addr n : judge dns l = Granted addr n -> zlen l <= 128.
Proof. unfold judge. destruct (Z.ltb_spec 128 (zlen l)); [done | lia]. Qed.

Lemma reply_fields data x :
  state_ (reply data x) = state_ x /\ context_ (reply data x) = context_ x /\ callbacks (reply data x) = callbacks x
  /\ highWater (reply data x) = highWater x /\ inputBuffer_ (reply data x) = inputBuffer_ x /\ received (reply data x) = received x
  /\ sent (reply data x) = if connected x then sent x ++ data else sent x.
Proof. unfold reply. by destruct (connected x). Qed.

(** The verdict on a connection without a tunnel. *)
Lemma socks_lone_message w c x d b dns :
  socks_inv w -> server c w = Some x -> state_ x <> kDisconnected -> c ∉ g_tunnels w -> good_dns resolves dns ->
  holds (received x ++ d) b ->
  exists w', socks_onServerMessage dns c (put c (with_received d (with_input b x)) w) = Ok w' /\ socks_inv w'.
Proof.
  intros H Hx Hst Hg Hdns Hb. destruct (socks_no_tunnel w c x H Hx Hst Hg) as (Hk & Hlone & Hctx & Hhw & _).
  assert (Hs : server c w <> None \/ conns w !! c = None) by (left; congruence). apply server_Some in Hx as [Hcx Hcb].
  set (x1 := with_received d (with_input b x)). set (l := received x ++ d) in *.
  assert (Hin : conns (put c x1 w) !! c = Some x1) by (cbn; by rewrite lookup_insert_eq).
  pose proof (socks_message_does dns c x1 l (put c x1 w) Hin Hg Hb) as Hdo. unfold does in Hdo.
  assert (Hstate : state_ x = kConnected /\ sent x = [] \/ state_ x = kDisconnecting /\ (sent x = rejected \/ sent x = [] /\ 128 < zlen l)).
  { unfold l. rewrite zlen_app. pose proof (zlen_nonneg d). destruct (state_ x) eqn:E; [done | by left |]. right. split; [done |].
    destruct Hlone as [-> | [-> Hlong]]; [by left | right; split; [done | lia]]. }
  destruct (judge dns l) as [| | addr n |] eqn:Ej.
  - apply judge_long in Ej. rewrite Hdo, put_put. eexists. split; [done |].
    pose proof (shut_fields x1) as (F1 & F2 & F3 & F4 & F5 & F6). apply lone_inv; try done.
    + rewrite shut_state, F5, F6. cbn [sent received x1 with_received with_input state_]. fold l. unfold connected. cbn [state_ x1 with_received with_input].
      destruct Hstate as [[-> ->] | [-> Hs']]; [rewrite bool_decide_eq_true_2 by done | rewrite bool_decide_eq_false_2 by done]; cbn; auto.
    + by rewrite F2.
    + by rewrite F1.
    + by rewrite F3.
    + by rewrite F6, F4.
  - rewrite Hdo. eexists. split; [done |]. apply lone_inv; try done. cbn. destruct Hstate as [[-> ->] | [-> Hs']]; done.
  - destruct Hdo as (b' & Hb' & ->). eexists. split; [done |].
    set (x2 := with_input b' (with_highWater (Some c) x1)). pose proof (reply_fields granted x2) as (F1 & F2 & F3 & F4 & F5 & F6 & F7).
    change (put_tunnel c ?k (put c x1 w)) with (put c x1 (put_tunnel c k w)). rewrite put_put.
    destruct (judge_granted _ _ _ _ _ Hdns Ej) as (req & rest & Hl & Hasks & Hn). apply judge_granted_short in Ej.
    apply (open_inv _ _ w c (reply granted x2) addr req (sent (reply granted x2)) rest); try done; rewrite ?F1, ?F2, ?F3, ?F4, ?F5, ?F6; try done.
    + split; [done |]. rewrite F7. unfold connected. cbn [state_ sent x2 x1 with_received with_input with_highWater].
      destruct Hstate as [[-> ->] | [-> [-> | [_ Hlong]]]]; [left; by rewrite bool_decide_eq_true_2 | right; by rewrite bool_decide_eq_false_2 | lia].
    + cbn [inputBuffer_ x2 with_input]. by rewrite Hl, Hn, zdrop_app_r, Z.sub_diag, zdrop_0 in Hb' by lia.
  - rewrite Hdo, put_put. eexists. split; [done |]. set (x2 := reply rejected x1).
    pose proof (reply_fields rejected x1) as (F1 & F2 & F3 & F4 & F5 & F6 & F7). fold x2 in F1, F2, F3, F4, F5, F6, F7.
    pose proof (shut_fields x2) as (G1 & G2 & G3 & G4 & G5 & G6). apply lone_inv; try done.
    + rewrite shut_state, G5, G6, F1, F6, F7. unfold connected. rewrite F1. cbn [sent received x1 with_received with_input state_]. fold l.
      destruct Hstate as [[-> ->] | [-> Hs']]; [rewrite bool_decide_eq_true_2 by done | rewrite bool_decide_eq_false_2 by done]; cbn; auto.
    + by rewrite G2, F3.
    + by rewrite G1, F2.
    + by rewrite G3, F4.
    + by rewrite G6, G4, F6, F5.
Qed.

#[export] Instance socks_serves : Serves (socks_opened resolves) socks_lone (good_dns resolves).
Proof.
  split.
  - intros w c H Hc Hk. unfold onServerConnection, socks_program, socks_onServerConnection. rewrite get_put. rsimp.
    rewrite connected_true by done. apply lone_inv; try done. by right.
  - intros w c x H Hx Hst. unfold onServerConnection, socks_program, socks_onServerConnection. rewrite get_put. rsimp.
    rewrite connected_false by done. cbn [g_tunnels put]. case_bool_decide as Hg.
    + destruct (socks_tunnel w c H Hg) as [k Hk]. destruct (server_down_inv _ _ w c x k H Hx Hk) as (w' & -> & Hw'). exact Hw'.
    + destruct (socks_no_tunnel w c x H Hx Hst Hg) as (Hk & Hlone & Hctx & Hhw & Hl).
      assert (Hs : server c w <> None \/ conns w !! c = None) by (left; congruence). apply server_Some in Hx as [_ Hcb].
      apply lone_inv; try done.
  - intros w c x d b dns H Hx Hst Hdns Hb. unfold onServerMessage, socks_program.
    destruct (decide (c ∈ g_tunnels w)) as [Hg | Hg].
    + destruct (socks_tunnel w c H Hg) as [k Hk]. unfold socks_onServerMessage. rewrite get_put. rsimp. cbv zeta.
      cbn [g_tunnels put]. rewrite bool_decide_eq_false_2 by (intros Hn; exact (Hn Hg)).
      cbn [context_ with_received with_input]. destruct (forward_inv _ _ w c x k d b H Hx Hk Hb) as (w' & E & Hw'). rewrite E. exact Hw'.
    + destruct (socks_no_tunnel w c x H Hx Hst Hg) as (_ & _ & _ & _ & Hl).
      destruct (socks_lone_message w c x d b dns H Hx Hst Hg Hdns (Hb _ Hl)) as (w' & -> & Hw'). exact Hw'.
Qed.

(** C31: Clients, servers and name servers may do what they like, in any order: no
    assertion fails and nothing is read that is not there; a tunnel is opened
    for a request and to the address it names, and for every tunnel the bytes
    sent to the server are those the client sent after its request, those sent
    to the client are the reply and what the server sent, in order and once, up
    to what waits in the buffers; nothing waits while there is somebody to send
    it to, and a server that closes has its client closed.  A connection
    without a tunnel that was not refused has been sent nothing. *)
Theorem socks_proxy_relays es :
  Forall (good_event (good_dns resolves)) es ->
  safe (run es World_new) (fun w =>
    relayed (socks_opened resolves) w
    /\ forall c x, server c w = Some x -> tunnels w !! c = None -> state_ x = kConnected -> sent x = []).
Proof.
  intros Hes. eapply safe_mono; [by apply (tunnel_run_inv (socks_opened resolves) socks_lone (good_dns resolves)); [apply tunnel_inv_new |] |].
  intros w Hw. split; [by apply (inv_relayed _ socks_lone) |]. intros c x Hx Hk Hst.
  pose proof (inv_session _ _ w Hw c) as Hs. unfold session_of in Hs. rewrite Hx, Hk in Hs. inversion Hs as [| x' Hl | | |]; subst.
  by rewrite Hst in Hl.
Qed.

(** A request that arrives in pieces. *)
Lemma socks_pieces dns addr req chunks : forall w c x l,
  socks_inv w -> server c w = Some x -> state_ x = kConnected -> c ∉ g_tunnels w -> received x = l ->
  asks (fun host a => dns host = Some a) addr req -> good_dns resolves dns -> zlen req <= 128 ->
  l ++ concat chunks = req -> Forall (fun d => d <> []) chunks -> chunks <> [] ->
  safe (run (map (fun d => ServerData c d dns) chunks) w) (fun w' =>
    tunnels w' !! c = Some (mkTunnel addr true true None (Some c))
    /\ exists x', server c w' = Some x' /\ state_ x' = kConnected /\ sent x' = granted /\ holds [] (inputBuffer_ x')).
Proof.
  induction chunks as [| d chunks IH]; intros w c x l H Hx Hst Hg <- Hasks Hdns Hlen Heq Hne Hn; [done |].
  apply Forall_cons in Hne as [Hd Hne]. cbn [map concat] in *. cbn [run].
  destruct (socks_no_tunnel w c x H Hx ltac:(congruence) Hg) as (Hk & Hlone & Hctx & Hhw & Hl).
  apply server_Some in Hx as Hx'. destruct Hx' as [Hcx Hcb].
  assert (Hshort : zlen d < 2 ^ 62).
  { rewrite <- Heq, !zlen_app in Hlen. pose proof (zlen_nonneg (received x)). pose proof (zlen_nonneg (concat chunks)). lia. }
  assert (Hrest : forall w', perform (ServerData c d dns) w = Ok w' -> socks_inv w').
  { intros w' E. pose proof (tunnel_perform_inv _ _ _ (ServerData c d dns) w H ltac:(done)) as Hp. by rewrite E in Hp. }
  unfold perform, arrives in *. rewrite Hcx in *. rewrite decide_False in * by congruence. rewrite Hcb in *.
  pose proof (append_holds _ _ d Hl Hshort) as Hap. destruct (append (inputBuffer_ x) d) as [b | f]; [| by rewrite Hap].
  cbn [safe] in Hap. cbn [mbind res_bind] in *. unfold onServerMessage, socks_program in *.
  set (x1 := with_received d (with_input b x)) in *. set (w1 := put c x1 w) in *.
  assert (Hin : conns w1 !! c = Some x1) by (cbn; by rewrite lookup_insert_eq).
  pose proof (socks_message_does dns c x1 _ w1 Hin Hg Hap) as Hdo. unfold does in Hdo.
  destruct (decide (chunks = [])) as [-> | Hn'].
  - cbn [concat] in Heq. rewrite app_nil_r in Heq. rewrite Heq in *.
    rewrite (judge_complete dns addr req Hasks Hlen) in Hdo. destruct Hdo as (b' & Hb' & ->). rsimp. cbn [run map mret res_ret safe].
    rewrite zdrop_all in Hb' by lia. set (x2 := with_input b' (with_highWater (Some c) x1)).
    pose proof (reply_fields granted x2) as (F1 & F2 & F3 & F4 & F5 & F6 & F7).
    split; [cbn; by rewrite lookup_insert_eq |]. exists (reply granted x2).
    split; [apply server_Some; split; [cbn [conns with_g put]; by rewrite lookup_insert_eq | by rewrite F3] |]. rewrite F1, F5, F7, connected_true by done.
    rewrite Hst in Hlone. split; [done |]. split; [cbn; by rewrite Hlone | done].
  - assert (Hk' : concat chunks <> []).
    { destruct chunks as [| d' chunks]; [done |]. apply Forall_cons in Hne as [Hd' _]. cbn. by destruct d'. }
    rewrite (judge_partial _ dns addr req (received x ++ d) (concat chunks) Hasks Hlen) in Hdo; [| by rewrite <- app_assoc | done].
    rewrite Hdo in *. rsimp. eapply (IH w1 c x1 (received x ++ d)); try done.
    + by apply Hrest.
    + by apply server_Some.
    + by rewrite <- app_assoc.
Qed.

(** A request, in whatever pieces it arrives on a new connection, opens the
    tunnel it asks for when its last byte is there, and not before; the client
    is told so, and nothing of the request is left in the buffer. *)
Theorem socks_request_granted es c dns addr req chunks :
  Forall (good_event (good_dns resolves)) es -> good_dns resolves dns ->
  asks (fun host a => dns host = Some a) addr req -> zlen req <= 128 ->
  concat chunks = req -> Forall (fun d => d <> []) chunks -> chunks <> [] ->
  safe (run es World_new) (fun w => conns w !! c = None ->
    safe (run (Accept c :: map (fun d => ServerData c d dns) chunks) w) (fun w' =>
      tunnels w' !! c = Some (mkTunnel addr true true None (Some c))
      /\ exists x, server c w' = Some x /\ state_ x = kConnected /\ sent x = granted /\ holds [] (inputBuffer_ x))).
Proof.
  intros Hes Hdns Hasks Hlen Heq Hne Hn.
  eapply safe_mono; [by apply (tunnel_run_inv (socks_opened resolves) socks_lone (good_dns resolves)); [apply tunnel_inv_new |] |].
  intros w Hw Hc. cbn [run]. pose proof (tunnel_perform_inv _ _ _ (Accept c) w Hw I) as Hp. cbn [perform] in *. rewrite Hc in *.
  destruct (absent_views c w Hc) as [Hs _]. pose proof (inv_session _ _ w Hw c) as Hse. unfold session_of in Hse. rewrite Hs in Hse.
  assert (Hg : c ∉ g_tunnels w) by (eapply bool_decide_eq_false_1; by inversion Hse).
  unfold onServerConnection, socks_program, socks_onServerConnection in *. rewrite get_put in *. cbn [mbind res_bind] in *.
  rewrite connected_true in * by done. rsimp. cbn [mret res_ret safe] in Hp.
  eapply (socks_pieces dns addr req chunks _ c (Conn_new OfServer) []); try done. by apply server_put_eq.
Qed.
End socks_serves.

(** ** A client that asks for a name *)

Definition demo_dns : resolver := fun host => if decide (host = bs "example") then Some 16777343 else None.
Definition demo_resolves (host : list byte) (a : Z) : Prop := host = bs "example" /\ a = 16777343.
Definition demo_addr : sockaddr_in := mkAddr AF_INET (le_val [Byte.x00; Byte.x50]) 16777343.
Definition demo_request : list byte :=
  [Byte.x04; Byte.x01] ++ [Byte.x00; Byte.x50] ++ [Byte.x00; Byte.x00; Byte.x00; Byte.x01] ++ bs "me" ++ [NUL] ++ bs "example" ++ [NUL].

Lemma demo_dns_good : good_dns demo_resolves demo_dns.
Proof. intros host a. unfold demo_dns. case_decide; [intros [= <-]; by split | done]. Qed.
Lemma demo_asks : asks (fun host a => demo_dns host = Some a) demo_addr demo_request.
Proof.
  apply (asks_name _ [Byte.x00; Byte.x50] [Byte.x00; Byte.x00; Byte.x00; Byte.x01] (bs "me") (bs "example") 16777343);
    try reflexivity; by_evaluation.
Qed.

Definition demo_socks : list event :=
  [Accept 1; ServerData 1 (ztake 11 demo_request) demo_dns; ServerData 1 (zdrop 11 demo_request ++ bs "GET") demo_dns;
   Connected 1 2; ClientData 2 (bs "200") ; ServerData 1 (bs "bye") demo_dns; ClientClosed 2; ServerClosed 1].
Lemma demo_socks_good : Forall (good_event (good_dns demo_resolves)) demo_socks.
Proof.
  assert (Hd : forall d : list byte, zlen d < 2 ^ 62 -> zlen d < 2 ^ 62 /\ good_dns demo_resolves demo_dns) by (split; [done | apply demo_dns_good]).
  unfold demo_socks. rewrite !Forall_cons, Forall_nil. split_and!; try exact I; cbn [good_event]; try apply Hd; vm_compute; reflexivity.
Qed.

Lemma socks_proxy_relays_witness :
  safe (run demo_socks World_new) (fun w =>
    relayed (socks_opened demo_resolves) w
    /\ forall c x, server c w = Some x -> tunnels w !! c = None -> state_ x = kConnected -> sent x = []).
Proof. exact (socks_proxy_relays demo_resolves demo_socks demo_socks_good). Defined.

Lemma demo_socks_run :
  exists w x y, run demo_socks World_new = Ok w /\ conns w !! 1 = Some x /\ conns w !! 2 = Some y
    /\ sent x = granted ++ bs "200" /\ sent y = bs "GETbye" /\ g_tunnels w = ∅.
Proof. do 3 eexists. split; [vm_compute; reflexivity |]. split_and!; vm_compute; reflexivity. Qed.

Lemma socks_request_granted_witness :
  safe (run demo_socks World_new) (fun w => conns w !! 3 = None ->
    safe (run (Accept 3 :: map (fun d => ServerData 3 d demo_dns) [ztake 5 demo_request; zdrop 5 demo_request]) w) (fun w' =>
      tunnels w' !! 3 = Some (mkTunnel demo_addr true true None (Some 3))
      /\ exists x, server 3 w' = Some x /\ state_ x = kConnected /\ sent x = granted /\ holds [] (inputBuffer_ x))).
Proof.
  apply (socks_request_granted demo_resolves demo_socks 3 demo_dns demo_addr demo_request [ztake 5 demo_request; zdrop 5 demo_request]).
  - exact demo_socks_good.
  - exact demo_dns_good.
  - exact demo_asks.
  - vm_compute. discriminate.
  - reflexivity.
  - repeat constructor; vm_compute; discriminate.
  - discriminate.
Defined.

(** A request that was refused stays in the buffer and is judged again with the
    next bytes: a client that was told no, and shut down, gets its tunnel when
    the name is known by then. *)
Theorem refused_then_opened :
  exists w x y, run [Accept 1; ServerData 1 demo_request (fun _ => None); ServerData 1 (bs "x") demo_dns; Connected 1 2] World_new = Ok w
    /\ conns w !! 1 = Some x /\ state_ x = kDisconnecting /\ sent x = rejected
    /\ conns w !! 2 = Some y /\ state_ y = kConnected /\ sent y = bs "x".
Proof. do 3 eexists. split; [vm_compute; reflexivity |]. split_and!; vm_compute; reflexivity. Qed.
