(* ===== verification/Multiplexer.v ===== *)
(** * Multiplexer: many clients over one connection, and back

    [examples/multiplexer/multiplexer.cc] (Module [Mux]) gives every client a
    number and passes what it sends to one backend connection in packets of at
    most 255 bytes; [demux.cc] (Module [Demux]) takes the packets apart and
    keeps one connection per number to the real server.  Each handler runs as
    one step.  A connection is what the two programs use of a [TcpConnection]:
    whether it is connected, its context, its peer's text, its input buffer,
    and the bytes sent on it. *)
From S2P Require Import Prelude Buffer Format Framing.

(** ** Connections *)

Record Conn : Type := mkConn {
  connected : bool;
  context_ : option Z;
  peer_ : list byte;
  sent : list byte
}.
Abbreviation conn_store := (gmap Z Conn).

Definition Conn_new (peer : list byte) : Conn := mkConn true None peer [].

(** [TcpConnection::send(const void*, size_t)], [send(Buffer* )] (which empties
    the buffer when it sends), [shutdown]; a connection that is not connected
    any more ignores them. *)
Definition conn_send (c : Z) (data : list byte) (s : conn_store) : conn_store :=
  alter (fun x => if connected x then mkConn true (context_ x) (peer_ x) (sent x ++ data) else x) c s.
Definition conn_send_buffer (c : Z) (buf : Buffer) (s : conn_store) : res (Buffer * conn_store) :=
  match s !! c with
  | Some x =>
      if connected x
      then data ← mem_read (peek buf) (peek buf + readableBytes buf) (buffer_ buf);
           mret (retrieveAll buf, conn_send c data s)
      else mret (buf, s)
  | None => Err BadAccess
  end.
Definition conn_shutdown (c : Z) (s : conn_store) : conn_store :=
  alter (fun x => mkConn false (context_ x) (peer_ x) (sent x)) c s.
Definition conn_context (c : Z) (id : Z) (s : conn_store) : conn_store :=
  alter (fun x => mkConn (connected x) (Some id) (peer_ x) (sent x)) c s.

Definition get_conn (c : Z) (s : conn_store) : res Conn :=
  match s !! c with Some x => mret x | None => Err BadAccess end.

(** ** Packets *)

(*@ muduo/examples/multiplexer/multiplexer.cc 23-23 kMaxPacketLen *)
Definition kMaxPacketLen : Z := 255.
(*@ muduo/examples/multiplexer/multiplexer.cc 24-24 kHeaderLen *)
Definition kHeaderLen : Z := 3.

(** The header of both programs: the length, then the number, low byte
    first. *)
Definition packet_header (len id : Z) : list byte :=
  [byte_of len; byte_of (Z.land id 255); byte_of (Z.shiftr (Z.land id 65280) 8)].
Definition packet_id (lo hi : byte) : Z := Z.lor (byte_val lo) (Z.shiftl (byte_val hi) 8).

Section loops.
Context {W : Type}.

(** [while (buf->readableBytes() > kHeaderLen)]: the loop of both programs that
    takes packets apart; [handle] is what each does with one. *)
Context (handle : Z -> list byte -> W -> res W).
Fixpoint packet_loop (fuel : nat) (buf : Buffer) (w : W) : res (Buffer * W) :=
  match fuel with
  | O => Err OutOfFuel
  | S fuel =>
      if kHeaderLen <? readableBytes buf
      then
        header ← mem_read (peek buf) (peek buf + kHeaderLen) (buffer_ buf);
        match header with
        | [b0; b1; b2] =>
            let len := byte_val b0 in
            if readableBytes buf <? len + kHeaderLen then mret (buf, w)
            else
              data ← mem_read (peek buf + kHeaderLen) (peek buf + kHeaderLen + len) (buffer_ buf);
              w ← handle (packet_id b1 b2) data w;
              buf ← retrieve buf (len + kHeaderLen);
              packet_loop fuel buf w
        | _ => Err BadAccess
        end
      else mret (buf, w)
  end.

(** [while (buf->readableBytes() > kMaxPacketLen)]: the loop of both that makes
    packets; [send_packet] sends one and leaves its buffer. *)
Context (send_packet : Buffer -> W -> res (Buffer * W)).
Fixpoint pieces_loop (fuel : nat) (buf : Buffer) (w : W) : res (Buffer * W) :=
  match fuel with
  | O => Err OutOfFuel
  | S fuel =>
      if kMaxPacketLen <? readableBytes buf
      then
        data ← mem_read (peek buf) (peek buf + kMaxPacketLen) (buffer_ buf);
        packet ← append Buffer_new data;
        buf ← retrieve buf kMaxPacketLen;
        '(_, w) ← send_packet packet w;
        pieces_loop fuel buf w
      else mret (buf, w)
  end.

(** The loop, and the packet of what is left. *)
Definition send_pieces (buf : Buffer) (w : W) : res (Buffer * W) :=
  '(buf, w) ← pieces_loop (S (Z.to_nat (readableBytes buf))) buf w;
  if 0 <? readableBytes buf then send_packet buf w else mret (buf, w).
End loops.

(** ** Module Mux: multiplexer.cc *)

Module Mux.

(*@ muduo/examples/multiplexer/multiplexer.cc 22-22 kMaxConns *)
Definition kMaxConns : Z := 10.

(** [conns] are the connections the server and the backend client know of. *)
(*@ muduo/examples/multiplexer/multiplexer.cc 285-296 MultiplexServer *)
Record MultiplexServer : Type := mkMux {
  backendConn_ : option Z;
  clientConns_ : gmap Z Z;
  availIds_ : list Z;
  transferred_ : Z;
  receivedMessages_ : Z;
  conns : conn_store
}.
Definition with_conns (f : conn_store -> conn_store) (m : MultiplexServer) : MultiplexServer :=
  mkMux (backendConn_ m) (clientConns_ m) (availIds_ m) (transferred_ m) (receivedMessages_ m) (f (conns m)).
Definition with_ids (cs : gmap Z Z) (ids : list Z) (m : MultiplexServer) : MultiplexServer :=
  mkMux (backendConn_ m) cs ids (transferred_ m) (receivedMessages_ m) (conns m).
Definition with_backend (b : option Z) (m : MultiplexServer) : MultiplexServer :=
  mkMux b (clientConns_ m) (availIds_ m) (transferred_ m) (receivedMessages_ m) (conns m).
Definition counted (len : Z) (m : MultiplexServer) : MultiplexServer :=
  mkMux (backendConn_ m) (clientConns_ m) (availIds_ m) (s64 (transferred_ m + len))
    (s64 (receivedMessages_ m + 1)) (conns m).

Definition MultiplexServer_new : MultiplexServer := mkMux None ∅ [] 0 0 ∅.

(*@ muduo/examples/multiplexer/multiplexer.cc 68-87 MultiplexServer::sendBackendPacket *)
Definition sendBackendPacket (id : Z) (buf : Buffer) (m : MultiplexServer) : res (Buffer * MultiplexServer) :=
  let len := readableBytes buf in
  assert_ (len <=? kMaxPacketLen);;
  buf ← prepend buf (packet_header len id);
  match backendConn_ m with
  | Some backendConn =>
      '(buf, s) ← conn_send_buffer backendConn buf (conns m);
      mret (buf, with_conns (fun _ => s) m)
  | None => mret (buf, m)
  end.

(*@ muduo/examples/multiplexer/multiplexer.cc 89-95 MultiplexServer::sendBackendString *)
Definition sendBackendString (id : Z) (msg : list byte) (m : MultiplexServer) : res MultiplexServer :=
  assert_ (zlen msg <=? kMaxPacketLen);;
  buf ← append Buffer_new msg;
  '(_, m) ← sendBackendPacket id buf m;
  mret m.

(*@ muduo/examples/multiplexer/multiplexer.cc 97-110 MultiplexServer::sendBackendBuffer *)
Definition sendBackendBuffer (id : Z) (buf : Buffer) (m : MultiplexServer) : res (Buffer * MultiplexServer) :=
  send_pieces (sendBackendPacket id) buf m.

(** Packets for a number nobody has are dropped. *)
Definition to_client (id : Z) (data : list byte) (m : MultiplexServer) : res MultiplexServer :=
  mret (match clientConns_ m !! id with
        | Some clientConn => with_conns (conn_send clientConn data) m
        | None => m
        end).

(*@ muduo/examples/multiplexer/multiplexer.cc 112-142 MultiplexServer::sendToClient *)
Definition sendToClient (buf : Buffer) (m : MultiplexServer) : res (Buffer * MultiplexServer) :=
  packet_loop to_client (S (Z.to_nat (readableBytes buf))) buf m.

Definition conn_text (id : Z) (peer status : list byte) : list byte :=
  snprintf 256 (bs "CONN " ++ dec id ++ bs " FROM " ++ peer ++ bs " IS " ++ status ++ kCRLF).

(*@ muduo/examples/multiplexer/multiplexer.cc 144-199 MultiplexServer::onClientConnection *)
Definition onClientConnection (conn : Z) (m : MultiplexServer) : res MultiplexServer :=
  x ← get_conn conn (conns m);
  if connected x
  then
    let '(id, m) := match availIds_ m with
                    | id :: ids => (id, with_ids (<[id := conn]> (clientConns_ m)) ids m)
                    | [] => (-1, m)
                    end in
    if id <=? 0 then mret (with_conns (conn_shutdown conn) m)
    else sendBackendString 0 (conn_text id (peer_ x) (bs "UP")) (with_conns (conn_context conn id) m)
  else
    match context_ x with
    | Some id =>
        assert_ ((0 <? id) && (id <=? kMaxConns));;
        m ← sendBackendString 0 (conn_text id (peer_ x) (bs "DOWN")) m;
        match backendConn_ m with
        | Some _ => mret (with_ids (delete id (clientConns_ m)) (availIds_ m ++ [id]) m)
        | None =>
            assert_ (bool_decide (availIds_ m = []));;
            assert_ (bool_decide (clientConns_ m = ∅));;
            mret m
        end
    | None => mret m
    end.

(*@ muduo/examples/multiplexer/multiplexer.cc 201-217 MultiplexServer::onClientMessage *)
Definition onClientMessage (conn : Z) (buf : Buffer) (m : MultiplexServer) : res (Buffer * MultiplexServer) :=
  let m := counted (readableBytes buf) m in
  x ← get_conn conn (conns m);
  match context_ x with
  | Some id => sendBackendBuffer id buf m
  | None => mret (retrieveAll buf, m)
  end.

(** The order of the shutdowns, by number in the code, does not matter: the
    connections are different ones. *)
(*@ muduo/examples/multiplexer/multiplexer.cc 219-259 MultiplexServer::onBackendConnection *)
Definition onBackendConnection (conn : Z) (m : MultiplexServer) : res MultiplexServer :=
  x ← get_conn conn (conns m);
  if connected x
  then
    let m := with_backend (Some conn) m in
    assert_ (bool_decide (availIds_ m = []));;
    mret (with_ids (clientConns_ m) (seqZ 1 kMaxConns) m)
  else
    let connsToDestroy := (map_to_list (clientConns_ m)).*2 in
    let m := with_ids ∅ [] (with_backend None m) in
    mret (with_conns (fun s => fold_left (fun s c => conn_shutdown c s) connsToDestroy s) m).

(*@ muduo/examples/multiplexer/multiplexer.cc 261-267 MultiplexServer::onBackendMessage *)
Definition onBackendMessage (buf : Buffer) (m : MultiplexServer) : res (Buffer * MultiplexServer) :=
  sendToClient buf (counted (readableBytes buf) m).
End Mux.

(** ** Module Demux: demux.cc *)

Module Demux.

(** [client] is the name of the [TcpClient] that was started. *)
(*@ muduo/examples/multiplexer/demux.cc 29-35 Entry *)
Record Entry : Type := mkEntry {
  connId : Z;
  client : list byte;
  connection : option Z;
  pending : Buffer
}.

(*@ muduo/examples/multiplexer/demux.cc 220-224 DemuxServer *)
Record DemuxServer : Type := mkDemux {
  serverConn_ : option Z;
  socksConns_ : gmap Z Entry;
  conns : conn_store
}.
Definition with_conns (f : conn_store -> conn_store) (d : DemuxServer) : DemuxServer :=
  mkDemux (serverConn_ d) (socksConns_ d) (f (conns d)).
Definition with_socks (s : gmap Z Entry) (d : DemuxServer) : DemuxServer := mkDemux (serverConn_ d) s (conns d).
Definition DemuxServer_new : DemuxServer := mkDemux None ∅ ∅.

Definition with_pending (b : Buffer) (e : Entry) : Entry := mkEntry (connId e) (client e) (connection e) b.
Definition with_connection (c : Z) (e : Entry) : Entry := mkEntry (connId e) (client e) (Some c) (pending e).

(** [assert(socksConns_.find(connId) != socksConns_.end())] and the entry. *)
Definition the_entry (id : Z) (d : DemuxServer) : res Entry :=
  match socksConns_ d !! id with Some e => mret e | None => Err AssertFail end.

(*@ muduo/examples/multiplexer/demux.cc 203-218 DemuxServer::sendServerPacket *)
Definition sendServerPacket (id : Z) (buf : Buffer) (d : DemuxServer) : res (Buffer * DemuxServer) :=
  let len := readableBytes buf in
  assert_ (len <=? kMaxPacketLen);;
  buf ← prepend buf (packet_header len id);
  match serverConn_ d with
  | Some serverConn =>
      '(buf, s) ← conn_send_buffer serverConn buf (conns d);
      mret (buf, with_conns (fun _ => s) d)
  | None => mret (buf, d)
  end.

(** Destroying the [TcpClient]s with the entries is not followed further. *)
(*@ muduo/examples/multiplexer/demux.cc 56-80 DemuxServer::onServerConnection *)
Definition onServerConnection (conn : Z) (d : DemuxServer) : res DemuxServer :=
  x ← get_conn conn (conns d);
  if connected x
  then
    match serverConn_ d with
    | Some _ => mret (with_conns (conn_shutdown conn) d)
    | None => mret (mkDemux (Some conn) (socksConns_ d) (conns d))
    end
  else if bool_decide (serverConn_ d = Some conn) then mret (mkDemux None ∅ (conns d)) else mret d.

(*@ muduo/examples/multiplexer/demux.cc 120-156 DemuxServer::doCommand *)
Definition doCommand (cmd : list byte) (d : DemuxServer) : res DemuxServer :=
  let kConn := bs "CONN " in
  if zlen cmd <? zlen kConn then Err BadAccess
  else
    let id := atoi (zdrop (zlen kConn) cmd) in
    let isUp := match find_sub (bs " IS UP") cmd with Some _ => true | None => false end in
    if isUp
    then
      assert_ (bool_decide (socksConns_ d !! id = None));;
      let connName := snprintf 256 (bs "SocksClient " ++ dec id) in
      mret (with_socks (<[id := mkEntry id connName None Buffer_new]> (socksConns_ d)) d)
    else
      e ← the_entry id d;
      match connection e with
      | Some socksConn => mret (with_conns (conn_shutdown socksConn) d)
      | None => mret (with_socks (delete id (socksConns_ d)) d)
      end.

Definition on_packet (id : Z) (data : list byte) (d : DemuxServer) : res DemuxServer :=
  if negb (id =? 0)
  then
    e ← the_entry id d;
    match connection e with
    | Some socksConn =>
        assert_ (readableBytes (pending e) =? 0);;
        mret (with_conns (conn_send socksConn data) d)
    | None =>
        p ← append (pending e) data;
        mret (with_socks (<[id := with_pending p e]> (socksConns_ d)) d)
    end
  else doCommand data d.

(*@ muduo/examples/multiplexer/demux.cc 82-118 DemuxServer::onServerMessage *)
Definition onServerMessage (buf : Buffer) (d : DemuxServer) : res (Buffer * DemuxServer) :=
  packet_loop on_packet (S (Z.to_nat (readableBytes buf))) buf d.

(*@ muduo/examples/multiplexer/demux.cc 158-185 DemuxServer::onSocksConnection *)
Definition onSocksConnection (id conn : Z) (d : DemuxServer) : res DemuxServer :=
  e ← the_entry id d;
  x ← get_conn conn (conns d);
  if connected x
  then
    let e := with_connection conn e in
    let d := with_socks (<[id := e]> (socksConns_ d)) d in
    if 0 <? readableBytes (pending e)
    then
      '(p, s) ← conn_send_buffer conn (pending e) (conns d);
      mret (with_conns (fun _ => s) (with_socks (<[id := with_pending p e]> (socksConns_ d)) d))
    else mret d
  else
    match serverConn_ d with
    | Some _ =>
        buffer ← append Buffer_new (snprintf 256 (bs "DISCONNECT " ++ dec id ++ kCRLF));
        '(_, d) ← sendServerPacket 0 buffer d;
        mret d
    | None => mret (with_socks (delete id (socksConns_ d)) d)
    end.

(*@ muduo/examples/multiplexer/demux.cc 187-201 DemuxServer::onSocksMessage *)
Definition onSocksMessage (id : Z) (buf : Buffer) (d : DemuxServer) : res (Buffer * DemuxServer) :=
  e ← the_entry id d;
  send_pieces (sendServerPacket id) buf d.
End Demux.

(** ** Packets on the wire *)

Definition packet : Type := Z * list byte.
Definition enc (p : packet) : list byte := packet_header (zlen p.2) p.1 ++ p.2.

Definition good_packet (p : packet) : Prop := 0 <= p.1 < 65536 /\ 0 < zlen p.2 <= kMaxPacketLen.

(** The first packet of a stream. *)
Definition next_packet (l : list byte) : next_result packet :=
  match l with
  | b0 :: b1 :: b2 :: rest =>
      if (0 <? zlen rest) && (byte_val b0 <=? zlen rest)
      then Got (packet_id b1 b2, ztake (byte_val b0) rest) (zdrop (byte_val b0) rest)
      else NeedMore
  | _ => NeedMore
  end.

#[export] Instance next_packet_stable : StableNext next_packet.
Proof.
  split.
  - intros l m rest H. destruct l as [| b0 [| b1 [| b2 l]]]; try done. cbn [next_packet] in H.
    destruct (_ && _) eqn:E; simplify_eq. unfold zdrop. rewrite length_drop. simpl. lia.
  - intros l k m rest H. destruct l as [| b0 [| b1 [| b2 l]]]; try done. cbn [next_packet app] in *.
    destruct (_ && _) eqn:E; simplify_eq. pose proof (zlen_nonneg k).
    apply andb_prop in E as [E1%Z.ltb_lt E2%Z.leb_le].
    rewrite zlen_app, (proj2 (Z.ltb_lt _ _)), (proj2 (Z.leb_le _ _)) by lia. cbn [andb].
    by rewrite ztake_app_l, zdrop_app_l by lia.
  - intros l k H. destruct l as [| b0 [| b1 [| b2 l]]]; try done. cbn [next_packet] in H.
    by destruct (_ && _).
Qed.

Lemma packet_id_header id : 0 <= id < 65536 ->
  packet_id (byte_of (Z.land id 255)) (byte_of (Z.shiftr (Z.land id 65280) 8)) = id.
Proof.
  intros Hid. unfold packet_id. rewrite !byte_val_of.
  assert (H1 : Z.land id 255 = id mod 256) by (change 255 with (Z.ones 8); by rewrite Z.land_ones by lia).
  assert (H2 : Z.shiftr (Z.land id 65280) 8 = id / 256).
  { rewrite Z.shiftr_land. change (Z.shiftr 65280 8) with (Z.ones 8).
    rewrite Z.land_ones, Z.shiftr_div_pow2 by lia. change (2 ^ 8) with 256.
    apply Z.mod_small. split; [apply Z.div_pos; lia | apply Z.div_lt_upper_bound; lia]. }
  rewrite H1, H2, Z.mod_mod by lia.
  rewrite (Z.mod_small (id / 256)) by (split; [apply Z.div_pos; lia | apply Z.div_lt_upper_bound; lia]).
  rewrite Z.shiftl_mul_pow2 by lia. change (2 ^ 8) with 256.
  rewrite Z.lor_comm. pose proof (Z.add_lor_land (id / 256 * 256) (id mod 256)) as Hadd.
  assert (Hz : Z.land (id / 256 * 256) (id mod 256) = 0).
  { apply Z.bits_inj'. intros n Hn. rewrite Z.land_spec, Z.bits_0.
    destruct (Z.lt_ge_cases n 8).
    - change 256 with (2 ^ 8). rewrite Z.mul_pow2_bits_low by lia. done.
    - change 256 with (2 ^ 8). rewrite (Z.mod_pow2_bits_high id 8 n) by lia. apply andb_false_r. }
  pose proof (Z.div_mod id 256). lia.
Qed.

Lemma next_enc p k : good_packet p -> next_packet (enc p ++ k) = Got p k.
Proof.
  destruct p as [id d]. intros [Hid Hd]. cbn [fst snd] in *. unfold kMaxPacketLen in Hd.
  unfold enc, packet_header. cbn [fst snd app next_packet].
  rewrite byte_val_of, Z.mod_small by lia. pose proof (zlen_nonneg k).
  rewrite zlen_app, (proj2 (Z.ltb_lt _ _)), (proj2 (Z.leb_le _ _)) by lia. cbn [andb].
  rewrite packet_id_header by done. rewrite ztake_app_l, zdrop_app_l by lia.
  by rewrite ztake_all, zdrop_all by lia.
Qed.

Lemma next_part p l k : good_packet p -> enc p = l ++ k -> k <> [] -> next_packet l = NeedMore.
Proof.
  destruct p as [id d]. intros [Hid Hd] He Hk. cbn [fst snd] in *. unfold kMaxPacketLen in Hd.
  unfold enc, packet_header in He. cbn [fst snd app] in He.
  destruct l as [| b0 [| b1 [| b2 l]]]; try done. cbn [app] in He. injection He as <- <- <- ->.
  cbn [next_packet]. rewrite byte_val_of, Z.mod_small by lia.
  assert (0 < zlen k) by (destruct k; [done |]; rewrite zlen_cons; pose proof (zlen_nonneg k); lia).
  rewrite (proj2 (Z.leb_gt _ _)) by (rewrite zlen_app; lia). by rewrite andb_false_r.
Qed.

(** The packets a message is cut into. *)
Fixpoint pieces (fuel : nat) (l : list byte) : list (list byte) :=
  match fuel with
  | O => []
  | S fuel => if kMaxPacketLen <? zlen l then ztake kMaxPacketLen l :: pieces fuel (zdrop kMaxPacketLen l)
              else if 0 <? zlen l then [l] else []
  end.

Lemma pieces_concat fuel : forall l, zlen l < Z.of_nat fuel -> concat (pieces fuel l) = l.
Proof.
  induction fuel as [| fuel IH]; intros l Hl; pose proof (zlen_nonneg l); [lia |]. cbn [pieces].
  unfold kMaxPacketLen in *. destruct (Z.ltb_spec 255 (zlen l)).
  - cbn [concat]. rewrite IH by (rewrite zlen_zdrop; lia). apply ztake_zdrop.
  - destruct (Z.ltb_spec 0 (zlen l)); cbn [concat]; [apply app_nil_r |].
    symmetry. apply zlen_zero. lia.
Qed.
Lemma pieces_good fuel : forall l, Forall (fun d => 0 < zlen d <= kMaxPacketLen) (pieces fuel l).
Proof.
  induction fuel as [| fuel IH]; intros l; cbn [pieces]; [constructor |]. unfold kMaxPacketLen in *.
  destruct (Z.ltb_spec 255 (zlen l)).
  - constructor; [| done]. rewrite zlen_ztake; lia.
  - destruct (Z.ltb_spec 0 (zlen l)); repeat constructor; lia.
Qed.

(** ** The loops *)

(** A buffer that holds the bytes and has its room in front. *)
Definition ready (l : list byte) (b : Buffer) : Prop := holds l b /\ kCheapPrepend <= readerIndex_ b.

Lemma ready_new : ready [] Buffer_new.
Proof. split; [apply holds_new | done]. Qed.
Lemma ready_readable l b : ready l b -> readableBytes b = zlen l.
Proof. intros [H _]. by apply holds_readable. Qed.
Lemma ready_all l b : ready l b -> ready [] (retrieveAll b).
Proof. intros [H _]. split; [by eapply retrieveAll_holds | done]. Qed.
Lemma ready_append l b d : ready l b -> zlen d < 2 ^ 62 -> safe (append b d) (ready (l ++ d)).
Proof.
  intros [H Hr] Hd. pose proof (append_holds l b d H Hd) as Ha.
  destruct (append b d) as [b' | f] eqn:E; [| done]. split; [done |].
  destruct (append_room _ _ _ E) as [-> | ->]; [done | lia].
Qed.
Lemma ready_retrieve l b n : ready l b -> 0 <= n <= zlen l ->
  exists b', retrieve b n = Ok b' /\ ready (zdrop n l) b'.
Proof.
  intros [H Hr] Hn. destruct (retrieve_holds l b n H Hn) as (b' & E & H'). exists b'. split; [done |].
  split; [done |]. destruct (retrieve_room l b n b' H ltac:(lia) E) as [?| ->]; lia.
Qed.
Lemma ready_prepend l b d : ready l b -> zlen d <= kCheapPrepend ->
  exists b', prepend b d = Ok b' /\ holds (d ++ l) b'.
Proof.
  intros [H Hr] Hd. destruct (prepend_holds l b d H ltac:(lia) Hd) as (b' & ? & ? & _). eauto.
Qed.

(** A buffer filled from an empty one. *)
Lemma ready_filled d : zlen d < 2 ^ 62 -> safe (append Buffer_new d) (ready d).
Proof. apply (ready_append [] Buffer_new d), ready_new. Qed.

Section loop_facts.
Context {W : Type}.

Fixpoint handle_all (handle : Z -> list byte -> W -> res W) (ps : list packet) (w : W) : res W :=
  match ps with [] => mret w | p :: ps => w ← handle p.1 p.2 w; handle_all handle ps w end.

Lemma next_packet_got l m rest : next_packet l = Got m rest ->
  exists b0 b1 b2, ztake 3 l = [b0; b1; b2] /\ 3 < zlen l /\ byte_val b0 + 3 <= zlen l /\
    m = (packet_id b1 b2, zslice 3 (3 + byte_val b0) l) /\ rest = zdrop (byte_val b0 + 3) l.
Proof using.
  intros H. destruct l as [| b0 [| b1 [| b2 l]]]; try done. cbn [next_packet] in H.
  destruct (_ && _) eqn:E; simplify_eq. apply andb_prop in E as [E1%Z.ltb_lt E2%Z.leb_le].
  exists b0, b1, b2. rewrite !zlen_cons. pose proof (byte_val_range b0).
  split; [done |]. split; [lia |]. split; [lia |].
  change (b0 :: b1 :: b2 :: l) with ([b0; b1; b2] ++ l).
  split; [f_equal |].
  - rewrite zslice_app_r by (rewrite ?zlen_cons, ?zlen_nil; lia).
    change (zlen [b0; b1; b2]) with 3. rewrite ztake_is_zslice. f_equal; lia.
  - rewrite zdrop_app_r by (rewrite ?zlen_cons, ?zlen_nil; lia).
    change (zlen [b0; b1; b2]) with 3. f_equal. lia.
Qed.
Lemma next_packet_more l : next_packet l = NeedMore -> 3 < zlen l ->
  exists b0 b1 b2, ztake 3 l = [b0; b1; b2] /\ zlen l < byte_val b0 + 3.
Proof using.
  intros H Hl. destruct l as [| b0 [| b1 [| b2 l]]]; try done.
  cbn [next_packet] in H. destruct (_ && _) eqn:E; [done |].
  rewrite !zlen_cons in *. exists b0, b1, b2. split; [done |].
  apply andb_false_iff in E as [E%Z.ltb_ge | E%Z.leb_gt]; lia.
Qed.
Lemma next_packet_valid l : next_packet l <> Invalid.
Proof using. destruct l as [| ? [| ? [| ? ?]]]; try done. cbn [next_packet]. by destruct (_ && _). Qed.

Context (emit : list byte -> W -> W) (send_packet : Buffer -> W -> res (Buffer * W)) (P : W -> Prop).
Hypothesis Hkeep : forall l w, P w -> P (emit l w).
Hypothesis Hsend : forall l buf w, P w -> ready l buf -> zlen l <= kMaxPacketLen ->
  exists buf', send_packet buf w = Ok (buf', emit l w) /\ ready [] buf'.

Definition emit_all (ds : list (list byte)) (w : W) : W := fold_left (fun w d => emit d w) ds w.

Lemma pieces_ok fuel : forall l buf w, P w -> ready l buf -> (length l < fuel)%nat ->
  safe ('(buf, w) ← pieces_loop send_packet fuel buf w;
        if 0 <? readableBytes buf then send_packet buf w else mret (buf, w))
    (fun '(buf', w') => ready [] buf' /\ w' = emit_all (pieces fuel l) w).
Proof using Hkeep Hsend.
  induction fuel as [| fuel IH]; intros l buf w Hw Hb Hf; [lia |]. cbn [pieces_loop pieces].
  rewrite (ready_readable _ _ Hb). unfold kMaxPacketLen in *.
  destruct (Z.ltb_spec 255 (zlen l)) as [Hl | Hl].
  - pose proof Hb as [Hh _]. rewrite <- (Z.add_0_r (peek buf)) at 1.
    rewrite (read_range l) by (done || lia). rewrite <- ztake_is_zslice. rsimp.
    pose proof (ready_filled (ztake 255 l)) as Hfill. rewrite zlen_ztake in Hfill by lia.
    specialize (Hfill ltac:(lia)). destruct (append Buffer_new (ztake 255 l)) as [packet | f]; [| done].
    cbn [safe] in Hfill. rsimp. destruct (ready_retrieve l buf 255 Hb) as (buf1 & Hr & Hb1); [lia |].
    rewrite Hr. rsimp. destruct (Hsend (ztake 255 l) packet w Hw Hfill) as (p' & Hs & _).
    { rewrite zlen_ztake; lia. }
    rewrite Hs. rsimp. apply IH; [by apply Hkeep | done |]. unfold zdrop. rewrite length_drop.
    unfold zlen in Hl. lia.
  - rsimp. rewrite (ready_readable _ _ Hb). destruct (Z.ltb_spec 0 (zlen l)).
    + destruct (Hsend l buf w Hw Hb) as (b' & -> & Hb'); [lia |]. done.
    + cbn [safe mret res_ret]. split; [| done]. rewrite (zlen_zero l) in Hb by (pose proof (zlen_nonneg l); lia). done.
Qed.

Lemma send_pieces_ok l buf w : P w -> ready l buf ->
  safe (send_pieces send_packet buf w)
    (fun '(buf', w') => ready [] buf' /\ w' = emit_all (pieces (S (length l)) l) w).
Proof using Hkeep Hsend.
  intros Hw Hb. unfold send_pieces. rewrite (ready_readable _ _ Hb).
  replace (S (Z.to_nat (zlen l))) with (S (length l)) by (unfold zlen; lia).
  apply pieces_ok; [done | done | lia].
Qed.
End loop_facts.

(** What the loop does to the buffer does not depend on what is done with a
    packet. *)
Lemma packet_loop_ok fuel : forall l buf ms r,
  ready l buf -> (length l < fuel)%nat -> drain next_packet fuel l = (ms, false, r) ->
  exists buf', ready r buf' /\
    forall W (handle : Z -> list byte -> W -> res W) w,
      packet_loop handle fuel buf w = (w ← handle_all handle ms w; Ok (buf', w)).
Proof.
  induction fuel as [| fuel IH]; intros l buf ms r Hb Hf Hd; [lia |]. cbn [drain packet_loop] in *.
  pose proof (ready_readable _ _ Hb) as Hn. rewrite Hn. pose proof (zlen_nonneg l). unfold kHeaderLen.
  destruct (next_packet l) as [| | m rest] eqn:E; simplify_eq.
  - exists buf. split; [done |]. intros W handle w. destruct (Z.ltb_spec 3 (zlen r)); [| done].
    destruct (next_packet_more r E) as (b0 & b1 & b2 & Ht & Hl); [done |]. destruct Hb as [Hb _].
    rewrite <- (Z.add_0_r (peek buf)) at 1. rewrite (read_range r) by (done || lia).
    rewrite <- ztake_is_zslice, Ht. rsimp. by rewrite (proj2 (Z.ltb_lt _ _)) by lia.
  - destruct (next_packet_got _ _ _ E) as (b0 & b1 & b2 & Ht & Hl & Hl2 & -> & ->).
    pose proof (next_shorter _ _ _ E) as Hsh. pose proof (byte_val_range b0).
    destruct (drain next_packet fuel (zdrop (byte_val b0 + 3) l)) as [[ms1 s1] r1] eqn:Ed. simplify_eq.
    destruct (ready_retrieve l buf (byte_val b0 + 3) Hb) as (buf1 & Hr & Hb1); [lia |].
    destruct (IH _ buf1 ms1 r Hb1) as (buf' & Hb' & Hrun); [lia | done |].
    exists buf'. split; [done |]. intros W handle w. rewrite (proj2 (Z.ltb_lt _ _)) by lia. destruct Hb as [Hb _].
    rewrite <- (Z.add_0_r (peek buf)) at 1. rewrite (read_range l) by (done || lia).
    rewrite <- ztake_is_zslice, Ht. rsimp. rewrite (proj2 (Z.ltb_ge _ _)) by lia.
    rewrite <- Z.add_assoc. rewrite (read_range l) by (done || lia). rsimp. cbn [handle_all fst snd].
    destruct (handle _ _ w) as [w' | f]; [| done]. rsimp. rewrite Hr. rsimp. apply Hrun.
Qed.
