(* ===== verification/MuxDemux.v ===== *)
(** * MuxDemux: multiplexer and demultiplexer connected

    The two programs of [Multiplexer.v] over the connection between them, with
    any clients at one end and the real server at the other.  Every history of
    clients connecting, sending and closing, of bytes arriving in pieces, and of
    the real server's connections, while the connection between the two
    programs lasts and no number is used twice (so for up to [kMaxConns]
    clients).  What happens when one is used again, and when that connection
    breaks, is the subject of the last part. *)
From S2P Require Import Prelude Buffer Format Framing Multiplexer.

(** ** The whole system *)

(** The connection between the two programs is number 0 of both.  [up_taken]
    and [down_taken] count the bytes that have arrived in each direction,
    [from_client] and [from_socks] record by number what the programs
    received; [gone] are the server's connections that went down. *)
Record sys : Type := mkSys {
  mux : Mux.MultiplexServer;
  dmx : Demux.DemuxServer;
  up_taken : nat;
  d_in : Buffer;
  down_taken : nat;
  b_in : Buffer;
  c_in : gmap Z Buffer;
  s_in : gmap Z Buffer;
  gone : gset Z;
  from_client : gmap Z (list byte);
  from_socks : gmap Z (list byte);
  accepted : Z
}.

Definition sent_on (c : Z) (s : conn_store) : list byte := match s !! c with Some x => sent x | None => [] end.
Definition received (id : Z) (h : gmap Z (list byte)) : list byte := default [] (h !! id).
Definition receive (id : Z) (data : list byte) (h : gmap Z (list byte)) : gmap Z (list byte) :=
  <[id := received id h ++ data]> h.

Definition up_wire (w : sys) : list byte := drop (up_taken w) (sent_on 0 (Mux.conns (mux w))).
Definition down_wire (w : sys) : list byte := drop (down_taken w) (sent_on 0 (Demux.conns (dmx w))).

(** Both ends of the connection have come up. *)
Definition init : res sys :=
  m ← Mux.onBackendConnection 0 (Mux.with_conns (fun _ => {[0 := Conn_new []]}) Mux.MultiplexServer_new);
  d ← Demux.onServerConnection 0 (Demux.with_conns (fun _ => {[0 := Conn_new []]}) Demux.DemuxServer_new);
  mret (mkSys m d 0 Buffer_new 0 Buffer_new ∅ ∅ ∅ ∅ ∅ 0).

(** What [InetAddress::toIpPort] prints: digits, dots and a colon. *)
Definition addr_byte (b : byte) : bool := is_digit b || (byte_val b =? 46) || (byte_val b =? 58).
Definition addr_text (peer : list byte) : Prop := Forall (fun b => addr_byte b = true) peer /\ zlen peer <= 21.

Inductive event : Type :=
| EvClientUp (c : Z) (peer : list byte)
| EvClientData (c : Z) (data : list byte)
| EvClientDown (c : Z)
(** [n] bytes arrive at the demultiplexer *)
| EvUp (n : nat)
| EvSocksUp (id s : Z)
| EvSocksData (id : Z) (data : list byte)
| EvSocksDown (id : Z)
(** [n] bytes arrive at the multiplexer *)
| EvDown (n : nat).

Definition small (l : list byte) : bool := zlen l <? 2 ^ 62.

(** An event that cannot happen in the state leaves it alone. *)
Definition run_event (e : event) (w : sys) : res sys :=
  let m := mux w in let d := dmx w in
  match e with
  | EvClientUp c peer =>
      if decide (Mux.conns m !! c = None /\ accepted w < Mux.kMaxConns /\ addr_text peer)
      then
        m ← Mux.onClientConnection c (Mux.with_conns (<[c := Conn_new peer]>) m);
        mret (mkSys m d (up_taken w) (d_in w) (down_taken w) (b_in w) (c_in w) (s_in w) (gone w)
                (from_client w) (from_socks w) (accepted w + 1))
      else mret w
  | EvClientData c data =>
      match Mux.conns m !! c with
      | Some x =>
          if (c =? 0) || negb (connected x) || negb (small data) then mret w
          else
            buf ← append (default Buffer_new (c_in w !! c)) data;
            '(buf, m) ← Mux.onClientMessage c buf m;
            mret (mkSys m d (up_taken w) (d_in w) (down_taken w) (b_in w) (<[c := buf]> (c_in w)) (s_in w) (gone w)
                    (match context_ x with Some id => receive id data (from_client w) | None => from_client w end)
                    (from_socks w) (accepted w))
      | None => mret w
      end
  | EvClientDown c =>
      match Mux.conns m !! c with
      | Some x =>
          if (c =? 0) || negb (connected x) then mret w
          else
            m ← Mux.onClientConnection c (Mux.with_conns (conn_shutdown c) m);
            mret (mkSys m d (up_taken w) (d_in w) (down_taken w) (b_in w) (c_in w) (s_in w) (gone w)
                    (from_client w) (from_socks w) (accepted w))
      | None => mret w
      end
  | EvUp n =>
      let chunk := take n (up_wire w) in
      if negb (small chunk) then mret w
      else
        buf ← append (d_in w) chunk;
        '(buf, d) ← Demux.onServerMessage buf d;
        mret (mkSys m d (up_taken w + length chunk) buf (down_taken w) (b_in w) (c_in w) (s_in w) (gone w)
                (from_client w) (from_socks w) (accepted w))
  | EvSocksUp id s =>
      match Demux.socksConns_ d !! id with
      | Some e =>
          if decide (Demux.connection e = None /\ Demux.conns d !! s = None)
          then
            d ← Demux.onSocksConnection id s (Demux.with_conns (<[s := Conn_new []]>) d);
            mret (mkSys m d (up_taken w) (d_in w) (down_taken w) (b_in w) (c_in w) (s_in w) (gone w)
                    (from_client w) (from_socks w) (accepted w))
          else mret w
      | None => mret w
      end
  | EvSocksData id data =>
      match Demux.socksConns_ d !! id with
      | Some (Demux.mkEntry _ _ (Some s) _) =>
          if bool_decide (s ∈ gone w) || negb (small data) then mret w
          else
            buf ← append (default Buffer_new (s_in w !! s)) data;
            '(buf, d) ← Demux.onSocksMessage id buf d;
            mret (mkSys m d (up_taken w) (d_in w) (down_taken w) (b_in w) (c_in w) (<[s := buf]> (s_in w)) (gone w)
                    (from_client w) (receive id data (from_socks w)) (accepted w))
      | _ => mret w
      end
  | EvSocksDown id =>
      match Demux.socksConns_ d !! id with
      | Some (Demux.mkEntry _ _ (Some s) _) =>
          if bool_decide (s ∈ gone w) then mret w
          else
            d ← Demux.onSocksConnection id s (Demux.with_conns (conn_shutdown s) d);
            mret (mkSys m d (up_taken w) (d_in w) (down_taken w) (b_in w) (c_in w) (s_in w) ({[s]} ∪ gone w)
                    (from_client w) (from_socks w) (accepted w))
      | _ => mret w
      end
  | EvDown n =>
      let chunk := take n (down_wire w) in
      if negb (small chunk) then mret w
      else
        buf ← append (b_in w) chunk;
        '(buf, m) ← Mux.onBackendMessage buf m;
        mret (mkSys m d (up_taken w) (d_in w) (down_taken w + length chunk) buf (c_in w) (s_in w) (gone w)
                (from_client w) (from_socks w) (accepted w))
  end.

Fixpoint run_events (es : list event) (w : sys) : res sys :=
  match es with [] => mret w | e :: es => w ← run_event e w; run_events es w end.

(** ** Commands *)

Lemma atoi_dec n b r : 0 <= n < 2 ^ 31 -> is_digit b = false -> atoi (dec n ++ b :: r) = n.
Proof. intros Hn Hb. unfold atoi. rewrite scan_int_dec by (done || lia). apply s32_small. lia. Qed.

Lemma find_sub_present pat a b : find_sub pat (a ++ pat ++ b) <> None.
Proof.
  induction a as [| x a IH]; cbn [app].
  - assert (Hs : starts_with pat (pat ++ b) = true) by (apply starts_with_true; eauto).
    destruct (pat ++ b); cbn [find_sub]; by rewrite Hs.
  - cbn [find_sub]. destruct (starts_with _ _); [done |]. by destruct (find_sub pat (a ++ pat ++ b)).
Qed.
Lemma find_sub_absent pat l c : c ∈ pat -> c ∉ l -> find_sub pat l = None.
Proof.
  intros Hc Hl. destruct (find_sub pat l) as [i |] eqn:E; [| done].
  apply find_sub_Some in E as (_ & _ & Hs). exfalso. apply Hl. rewrite <- Hs in Hc.
  unfold zslice, ztake, zdrop in Hc. apply list_elem_of_In in Hc. apply list_elem_of_In.
  rewrite <- (firstn_skipn (Z.to_nat i) l). apply in_or_app. right.
  match type of Hc with In _ (take ?k ?x) => rewrite <- (firstn_skipn k x) end. apply in_or_app. by left.
Qed.

Section command.
Variables (id : Z) (peer : list byte).
Hypothesis Hid : 1 <= id <= Mux.kMaxConns.
Hypothesis Hpeer : addr_text peer.

Lemma conn_text_whole status : zlen status <= 4 ->
  Mux.conn_text id peer status = bs "CONN " ++ dec id ++ bs " FROM " ++ peer ++ bs " IS " ++ status ++ kCRLF
  /\ 0 < zlen (Mux.conn_text id peer status) <= kMaxPacketLen.
Proof using Hid Hpeer.
  intros Hs. destruct Hpeer as [_ Hp]. unfold Mux.kMaxConns in Hid. pose proof (zlen_nonneg peer).
  assert (Hd : zlen (dec id) <= 2).
  { unfold dec. destruct (Z.ltb_spec id 0); [lia |]. apply dec_u_len; lia. }
  pose proof (zlen_nonneg (dec id)). pose proof (zlen_nonneg status).
  unfold Mux.conn_text, snprintf, kMaxPacketLen.
  rewrite ztake_all; rewrite !zlen_app; change (zlen (bs "CONN ")) with 5; change (zlen (bs " FROM ")) with 6;
    change (zlen (bs " IS ")) with 4; change (zlen kCRLF) with 2; [split; [done |] |]; lia.
Qed.

Lemma conn_text_id status : zlen status <= 4 -> atoi (zdrop (zlen (bs "CONN ")) (Mux.conn_text id peer status)) = id.
Proof using Hid Hpeer.
  intros Hs. destruct (conn_text_whole status Hs) as [-> _].
  rewrite zdrop_app_r by done. rewrite Z.sub_diag, zdrop_0.
  unfold Mux.kMaxConns in Hid. change (bs " FROM ") with (byte_of 32 :: bs "FROM "). cbn [app].
  apply atoi_dec; [lia | done].
Qed.

Lemma conn_text_up : find_sub (bs " IS UP") (Mux.conn_text id peer (bs "UP")) <> None.
Proof using Hid Hpeer.
  destruct (conn_text_whole (bs "UP")) as [-> _]; [done |].
  replace (bs "CONN " ++ dec id ++ bs " FROM " ++ peer ++ bs " IS " ++ bs "UP" ++ kCRLF)
    with ((bs "CONN " ++ dec id ++ bs " FROM " ++ peer) ++ bs " IS UP" ++ kCRLF)
    by (rewrite <- !app_assoc; done).
  apply find_sub_present.
Qed.

Lemma conn_text_down : find_sub (bs " IS UP") (Mux.conn_text id peer (bs "DOWN")) = None.
Proof using Hid Hpeer.
  destruct (conn_text_whole (bs "DOWN")) as [-> _]; [done |]. destruct Hpeer as [Hp _].
  apply (find_sub_absent _ _ (byte_of 85)); [by_evaluation |].
  rewrite !not_elem_of_app.
  split; [by_evaluation |]. split; [| split; [by_evaluation |]; split; [| by_evaluation]].
  - intros Hin. unfold dec in Hin. unfold Mux.kMaxConns in Hid. destruct (Z.ltb_spec id 0); [lia |].
    pose proof (dec_digits_digits 40 id ltac:(lia)) as Hd. rewrite Forall_forall in Hd.
    apply Hd in Hin. by vm_compute in Hin.
  - intros Hin. rewrite Forall_forall in Hp. apply Hp in Hin. by vm_compute in Hin.
Qed.

Lemma doCommand_up d : Demux.doCommand (Mux.conn_text id peer (bs "UP")) d
  = (assert_ (bool_decide (Demux.socksConns_ d !! id = None));;
     mret (Demux.with_socks (<[id := Demux.mkEntry id (snprintf 256 (bs "SocksClient " ++ dec id)) None Buffer_new]>
                               (Demux.socksConns_ d)) d)).
Proof using Hid Hpeer.
  unfold Demux.doCommand. rewrite conn_text_id by done.
  assert (Hl : zlen (Mux.conn_text id peer (bs "UP")) <? zlen (bs "CONN ") = false).
  { apply Z.ltb_ge. destruct (conn_text_whole (bs "UP")) as [-> _]; [done |].
    rewrite zlen_app. match goal with |- _ <= _ + zlen ?x => pose proof (zlen_nonneg x) end. lia. }
  rewrite Hl. pose proof conn_text_up as Hu. revert Hu.
  destruct (find_sub (bs " IS UP") (Mux.conn_text id peer (bs "UP"))); intros Hu; [reflexivity | by destruct Hu].
Qed.
Lemma doCommand_down d : Demux.doCommand (Mux.conn_text id peer (bs "DOWN")) d
  = (e ← Demux.the_entry id d;
     match Demux.connection e with
     | Some s => mret (Demux.with_conns (conn_shutdown s) d)
     | None => mret (Demux.with_socks (delete id (Demux.socksConns_ d)) d)
     end).
Proof using Hid Hpeer.
  unfold Demux.doCommand. rewrite conn_text_id by done.
  assert (Hl : zlen (Mux.conn_text id peer (bs "DOWN")) <? zlen (bs "CONN ") = false).
  { apply Z.ltb_ge. destruct (conn_text_whole (bs "DOWN")) as [-> _]; [done |].
    rewrite zlen_app. match goal with |- _ <= _ + zlen ?x => pose proof (zlen_nonneg x) end. lia. }
  rewrite Hl. rewrite conn_text_down. reflexivity.
Qed.
End command.

(** ** What is under way *)

(** The packets the multiplexer sends. *)
Inductive pkt : Type :=
| PData (id : Z) (d : list byte)
| PUp (id : Z) (peer : list byte)
| PDown (id : Z) (peer : list byte).
Definition raw (p : pkt) : packet :=
  match p with
  | PData id d => (id, d)
  | PUp id peer => (0, Mux.conn_text id peer (bs "UP"))
  | PDown id peer => (0, Mux.conn_text id peer (bs "DOWN"))
  end.
Definition pkt_ok (p : pkt) : Prop :=
  match p with
  | PData id d => 1 <= id <= Mux.kMaxConns /\ 0 < zlen d <= kMaxPacketLen
  | PUp id peer | PDown id peer => 1 <= id <= Mux.kMaxConns /\ addr_text peer
  end.

Lemma raw_good p : pkt_ok p -> good_packet (raw p).
Proof.
  destruct p as [id d | id peer | id peer]; intros [Hid H]; unfold good_packet; cbn [raw fst snd];
    unfold Mux.kMaxConns in *; (split; [lia |]); [lia | |].
  - by apply conn_text_whole.
  - by apply conn_text_whole.
Qed.

(** The bytes for a number in a list of packets. *)
Definition payload (id : Z) (ps : list packet) : list byte := concat (snd <$> filter (fun p => p.1 = id) ps).

Lemma payload_app id ps qs : payload id (ps ++ qs) = payload id ps ++ payload id qs.
Proof. unfold payload. by rewrite filter_app, fmap_app, concat_app. Qed.
Lemma payload_cons id p ps : payload id (p :: ps) = (if decide (p.1 = id) then p.2 else []) ++ payload id ps.
Proof. unfold payload. rewrite filter_cons. by case_decide. Qed.
Lemma payload_same id ds : payload id (map (pair id) ds) = concat ds.
Proof. induction ds as [| d ds IH]; [done |]. cbn [map concat]. by rewrite payload_cons, decide_True, IH. Qed.
Lemma payload_other id id' ds : id <> id' -> payload id' (map (pair id) ds) = [].
Proof. intros Hn. induction ds as [| d ds IH]; [done |]. cbn [map]. by rewrite payload_cons, decide_False, IH. Qed.

(** A stream of packets makes sense after the numbers [s.1] have been
    announced, of which [s.2] are in use: a number is announced once, and used
    only between its announcement and its end. *)
Definition track (p : pkt) (s : gset Z * gset Z) : option (gset Z * gset Z) :=
  match p with
  | PData id _ => if decide (id ∈ s.2) then Some s else None
  | PUp id _ => if decide (id ∈ s.1) then None else Some ({[id]} ∪ s.1, {[id]} ∪ s.2)
  | PDown id _ => if decide (id ∈ s.2) then Some (s.1, s.2 ∖ {[id]}) else None
  end.
Fixpoint replay (ps : list pkt) (s : gset Z * gset Z) : option (gset Z * gset Z) :=
  match ps with [] => Some s | p :: ps => s ← track p s; replay ps s end.

Lemma replay_app ps qs s : replay (ps ++ qs) s = (s ← replay ps s; replay qs s).
Proof.
  revert s. induction ps as [| p ps IH]; intros s; cbn [app replay]; [done |].
  destruct (track p s); [apply IH | done].
Qed.

Lemma track_grows p s s' : track p s = Some s' -> s.1 ⊆ s'.1.
Proof. destruct p; simpl; intros H; case_decide; simplify_eq; set_solver. Qed.

(** What was announced and has ended gets no more data. *)
Lemma replay_closed id ps : forall s s', 1 <= id -> replay ps s = Some s' -> id ∈ s.1 -> id ∉ s.2 ->
  payload id (map raw ps) = [].
Proof.
  induction ps as [| p ps IH]; intros s s' Hid H H1 H2; [done |]. cbn [replay map] in *.
  destruct (track p s) as [t |] eqn:Ht; [| done]. simpl in H.
  rewrite payload_cons. pose proof (track_grows p s t Ht) as Hg.
  assert (Hp : id ∉ t.2 /\ (raw p).1 <> id).
  { destruct p as [i d | i a | i a]; simpl in Ht |- *; case_decide; simplify_eq; simpl; split; set_solver by lia. }
  destruct Hp as [Hp Hr]. rewrite decide_False by done. cbn [app].
  apply (IH t s'); [done | done | set_solver | done].
Qed.

Lemma replay_data ds id : forall s, id ∈ s.2 -> replay (map (PData id) ds) s = Some s.
Proof.
  induction ds as [| d ds IH]; intros s Hs; [done |]. cbn [map replay track].
  rewrite decide_True by done. simpl. by apply IH.
Qed.

Lemma raw_data id ds : map raw (map (PData id) ds) = map (pair id) ds.
Proof. rewrite map_map. done. Qed.

(** ** The demultiplexer *)

(** The connection to the other program is up, and [out] has been sent on it. *)
Definition link (s : conn_store) (out : list byte) : Prop :=
  exists x, s !! 0 = Some x /\ connected x = true /\ sent x = out.

Lemma link_sent_on s out : link s out -> sent_on 0 s = out.
Proof. intros (x & Hx & _ & <-). unfold sent_on. by rewrite Hx. Qed.
Lemma link_other c f s out : c <> 0 -> link s out -> link (alter f c s) out.
Proof. intros Hc (x & Hx & H). exists x. split; [| done]. by rewrite lookup_alter_ne by done. Qed.
Lemma link_new c y s out : c <> 0 -> link s out -> link (<[c := y]> s) out.
Proof. intros Hc (x & Hx & H). exists x. split; [| done]. by rewrite lookup_insert_ne by done. Qed.
Lemma link_send s out data : link s out -> link (conn_send 0 data s) (out ++ data).
Proof.
  intros (x & Hx & Hc & <-). unfold conn_send, link. rewrite lookup_alter_eq, Hx. simpl. rewrite Hc. eauto.
Qed.
Lemma send_other c c' data s : c <> c' -> conn_send c data s !! c' = s !! c'.
Proof. intros. unfold conn_send. by rewrite lookup_alter_ne by done. Qed.

(** Sending a buffer on the link. *)
Lemma send_buffer_link l buf s out : holds l buf -> link s out ->
  conn_send_buffer 0 buf s = Ok (retrieveAll buf, conn_send 0 l s).
Proof.
  intros Hb (x & Hx & Hc & _). unfold conn_send_buffer. rewrite Hx, Hc, (read_all l buf Hb). done.
Qed.

Definition entry_ok (from : gmap Z (list byte)) (ps : list pkt) (open gone : gset Z) (s : conn_store)
    (id : Z) (e : Demux.Entry) : Prop :=
  match Demux.connection e with
  | None => exists p, ready p (Demux.pending e) /\ received id from = p ++ payload id (map raw ps)
  | Some c => c <> 0 /\ ready [] (Demux.pending e) /\ exists x, s !! c = Some x
      /\ sent x `prefix_of` received id from
      /\ (c ∉ gone -> received id from = sent x ++ payload id (map raw ps))
      /\ (c ∈ gone -> connected x = false)
      /\ (connected x = true \/ c ∈ gone \/ id ∉ open)
  end.

Record dinv (from : gmap Z (list byte)) (ps : list pkt) (seen open gone : gset Z) (out : list byte)
    (d : Demux.DemuxServer) : Prop := {
  d_server : Demux.serverConn_ d = Some 0;
  d_link : link (Demux.conns d) out;
  d_ids id : id ∈ seen -> 1 <= id <= Mux.kMaxConns;
  d_seen id e : Demux.socksConns_ d !! id = Some e -> id ∈ seen;
  d_open id : id ∈ open -> is_Some (Demux.socksConns_ d !! id);
  d_entry id e : Demux.socksConns_ d !! id = Some e -> entry_ok from ps open gone (Demux.conns d) id e;
  d_absent id : 1 <= id -> id ∉ seen -> received id from = payload id (map raw ps);
  d_apart id id' e e' c : Demux.socksConns_ d !! id = Some e -> Demux.socksConns_ d !! id' = Some e' ->
    Demux.connection e = Some c -> Demux.connection e' = Some c -> id = id';
  d_gone c : c ∈ gone -> is_Some (Demux.conns d !! c)
}.

Lemma entry_skip from p ps open gone s id e : (raw p).1 <> id ->
  entry_ok from (p :: ps) open gone s id e <-> entry_ok from ps open gone s id e.
Proof.
  intros Hn. unfold entry_ok. cbn [map]. by rewrite payload_cons, decide_False.
Qed.
Lemma entry_conns from ps open gone s s' id e :
  (forall c, Demux.connection e = Some c -> s' !! c = s !! c) ->
  entry_ok from ps open gone s id e -> entry_ok from ps open gone s' id e.
Proof.
  intros Hs. unfold entry_ok. destruct (Demux.connection e) as [c |]; [| done]. by rewrite (Hs c).
Qed.
Lemma entry_data from data ps open gone s id e c : Demux.connection e = Some c -> id ∈ open ->
  entry_ok from (PData id data :: ps) open gone s id e ->
  entry_ok from ps open gone (conn_send c data s) id e.
Proof.
  intros Hc Hop. unfold entry_ok. rewrite Hc. cbn [map]. rewrite payload_cons, decide_True by done.
  intros (Hc0 & Hpend & x & Hx & Hpre & Heq & Hgn & Hst). split; [done |]. split; [done |].
  unfold conn_send. rewrite lookup_alter_eq, Hx. simpl. cbn [snd raw] in Heq.
  destruct (connected x) eqn:Hcx.
  - assert (Hng : c ∉ gone) by (intros Hin; by specialize (Hgn Hin)). specialize (Heq Hng).
    eexists. split; [done |]. cbn [sent connected]. rewrite Heq, app_assoc. split; [by eexists |].
    split; [done |]. split; [by intros | by left].
  - exists x. assert (c ∈ gone) by (by destruct Hst as [? | [? | ?]]). rewrite Hcx. tauto.
Qed.
Lemma absent_skip from p ps (seen : gset Z) id : (raw p).1 <> id ->
  received id from = payload id (map raw (p :: ps)) -> received id from = payload id (map raw ps).
Proof. intros Hn. cbn [map]. by rewrite payload_cons, decide_False. Qed.

Ltac dsplit := split; cbn [Demux.serverConn_ Demux.socksConns_ Demux.conns Demux.with_conns Demux.with_socks]; try done.

(** Data for a number. *)
Lemma on_data_ok from id data ps seen open gone out d :
  dinv from (PData id data :: ps) seen open gone out d -> pkt_ok (PData id data) -> id ∈ open ->
  safe (Demux.on_packet id data d) (dinv from ps seen open gone out).
Proof.
  intros [Hsv Hlk Hids Hseen Hopen Hent Habs Hap Hgo] [Hid Hlen] Hin.
  unfold Demux.on_packet. rewrite (proj2 (Z.eqb_neq id 0)) by lia. cbn [negb].
  destruct (Hopen id Hin) as [e He]. pose proof (Hent id e He) as Hi.
  assert (Habs' : forall id', 1 <= id' -> id' ∉ seen -> received id' from = payload id' (map raw ps)).
  { intros id' Hid' Hn. apply (absent_skip from (PData id data) ps seen); [| auto].
    intros <-. by apply Hn, Hseen with e. }
  unfold Demux.the_entry. rewrite He. rsimp. destruct (Demux.connection e) as [c |] eqn:Hc.
  - pose proof (entry_data from data ps open gone (Demux.conns d) id e c Hc Hin Hi) as Hi'.
    unfold entry_ok in Hi. rewrite Hc in Hi. destruct Hi as (Hc0 & Hpend & x & Hx & _).
    rewrite (ready_readable _ _ Hpend). cbn [zlen length Z.of_nat Z.eqb assert_]. rsimp. cbn [safe].
    dsplit.
    + by apply link_other.
    + intros id' e' He'. destruct (decide (id = id')) as [<- | Hne]; [by simplify_eq |].
      apply (entry_conns _ _ _ _ (Demux.conns d)).
      * intros c' Hc'. apply send_other. intros <-. apply Hne. by eapply Hap.
      * apply (entry_skip from (PData id data)); [done | auto].
    + intros c' Hc'. unfold conn_send. rewrite lookup_alter_is_Some. by apply Hgo.
  - unfold entry_ok in Hi. rewrite Hc in Hi. destruct Hi as (p & Hp & Heq). unfold kMaxPacketLen in Hlen.
    eapply safe_bind; [apply (ready_append p _ data Hp); lia |]. intros b' Hb'. cbn [safe mret res_ret].
    dsplit.
    + intros id' e' [[<- <-] | [Hne He']]%lookup_insert_Some; by eapply Hseen.
    + intros id' Hin'. apply lookup_insert_is_Some. destruct (decide (id = id')); [by left | right]. auto.
    + intros id' e' [[<- <-] | [Hne He']]%lookup_insert_Some.
      * unfold entry_ok. cbn [Demux.connection Demux.with_pending Demux.pending]. rewrite Hc.
        exists (p ++ data). split; [done |]. rewrite Heq. cbn [map]. rewrite payload_cons, decide_True by done.
        apply app_assoc.
      * apply (entry_skip from (PData id data)); [done | auto].
    + intros i i' e1 e2 c [[<- <-] | [Hne He1]]%lookup_insert_Some [[<- <-] | [Hne2 He2]]%lookup_insert_Some;
        cbn [Demux.connection Demux.with_pending]; intros H1 H2; try congruence. by eapply Hap.
Qed.

(** A number is announced. *)
Lemma on_up_ok from id peer ps seen open gone out d :
  dinv from (PUp id peer :: ps) seen open gone out d -> pkt_ok (PUp id peer) -> id ∉ seen ->
  safe (Demux.on_packet 0 (Mux.conn_text id peer (bs "UP")) d)
    (dinv from ps ({[id]} ∪ seen) ({[id]} ∪ open) gone out).
Proof.
  intros [Hsv Hlk Hids Hseen Hopen Hent Habs Hap Hgo] [Hid Hpeer] Hn.
  unfold Demux.on_packet. cbn [Z.eqb negb]. rewrite (doCommand_up id peer Hid Hpeer).
  assert (Hno : Demux.socksConns_ d !! id = None).
  { destruct (Demux.socksConns_ d !! id) eqn:E; [| done]. by apply Hseen in E. }
  rewrite bool_decide_true by done. cbn [assert_]. rsimp. cbn [safe].
  assert (Hcmd : forall id', 1 <= id' -> (raw (PUp id peer)).1 <> id') by (cbn [raw fst]; lia).
  dsplit.
  - intros id' [->%elem_of_singleton | H]%elem_of_union; auto.
  - intros id' e' [[<- <-] | [Hne He']]%lookup_insert_Some; [set_solver |].
    apply elem_of_union_r. by eapply Hseen.
  - intros id' [->%elem_of_singleton | H]%elem_of_union; apply lookup_insert_is_Some; [by left |].
    destruct (decide (id = id')); [by left | right]. auto.
  - intros id' e' [[<- <-] | [Hne He']]%lookup_insert_Some.
    + unfold entry_ok. cbn [Demux.connection Demux.pending]. exists []. split; [apply ready_new |].
      apply (absent_skip from (PUp id peer) ps seen); [| apply Habs; [lia | done]]. apply Hcmd. lia.
    + specialize (Hent id' e' He').
      rewrite (entry_skip from (PUp id peer)) in Hent by (apply Hcmd, Hids; by eapply Hseen).
      unfold entry_ok in *. destruct (Demux.connection e') as [c |]; [| done].
      destruct Hent as (? & ? & x & ? & ? & ? & ? & Hst). split; [done |]. split; [done |].
      exists x. split_and!; try done. destruct Hst as [? | [? | ?]]; [by left | by right; left | right; right].
      set_solver.
  - intros id' Hid' Hn'. apply (absent_skip from (PUp id peer) ps seen); [by apply Hcmd |].
    apply Habs; set_solver.
  - intros i i' e1 e2 c [[<- <-] | [Hne He1]]%lookup_insert_Some [[<- <-] | [Hne2 He2]]%lookup_insert_Some;
      cbn [Demux.connection]; intros H1 H2; try congruence. by eapply Hap.
Qed.

(** The end of a number: its server connection is shut down, or given up when
    it has not come up yet. *)
Lemma on_down_ok from id peer ps seen open gone out d final :
  dinv from (PDown id peer :: ps) seen open gone out d -> pkt_ok (PDown id peer) -> id ∈ open ->
  replay ps (seen, open ∖ {[id]}) = Some final ->
  safe (Demux.on_packet 0 (Mux.conn_text id peer (bs "DOWN")) d) (dinv from ps seen (open ∖ {[id]}) gone out).
Proof.
  intros [Hsv Hlk Hids Hseen Hopen Hent Habs Hap Hgo] [Hid Hpeer] Hin Hrep.
  unfold Demux.on_packet. cbn [Z.eqb negb]. rewrite (doCommand_down id peer Hid Hpeer).
  destruct (Hopen id Hin) as [e He]. unfold Demux.the_entry. rewrite He. rsimp.
  assert (Hcmd : forall id', 1 <= id' -> (raw (PDown id peer)).1 <> id') by (cbn [raw fst]; lia).
  assert (Habs' : forall id', 1 <= id' -> id' ∉ seen -> received id' from = payload id' (map raw ps)).
  { intros id' Hid' Hn. apply (absent_skip from (PDown id peer) ps seen); [by apply Hcmd | auto]. }
  assert (Hskip : forall id' e', Demux.socksConns_ d !! id' = Some e' ->
    entry_ok from ps open gone (Demux.conns d) id' e').
  { intros id' e' He'. apply (entry_skip from (PDown id peer)); [apply Hcmd, Hids; by eapply Hseen | auto]. }
  assert (Hless : forall s id' e', entry_ok from ps open gone s id' e' -> entry_ok from ps (open ∖ {[id]}) gone s id' e').
  { intros s id' e'. unfold entry_ok. destruct (Demux.connection e') as [c |]; [| done].
    intros (? & ? & x & ? & ? & ? & ? & Hst). split; [done |]. split; [done |]. exists x. split_and!; try done.
    destruct Hst as [? | [? | ?]]; [by left | by right; left | right; right]. set_solver. }
  destruct (Demux.connection e) as [c |] eqn:Hc; cbn [safe mret res_ret].
  - pose proof (Hskip id e He) as Hi. unfold entry_ok in Hi. rewrite Hc in Hi.
    destruct Hi as (Hc0 & Hpend & x & Hx & Hpre & Heq & Hgn & Hst).
    dsplit.
    + by apply link_other.
    + intros id' Hi'. apply Hopen. set_solver.
    + intros id' e' He'. destruct (decide (id = id')) as [<- | Hne].
      * simplify_eq. unfold entry_ok. rewrite Hc. split; [done |]. split; [done |].
        unfold conn_shutdown. rewrite lookup_alter_eq, Hx. simpl. eexists. split; [done |].
        cbn [sent connected]. split_and!; try done. right; right. set_solver.
      * apply Hless. apply (entry_conns _ _ _ _ (Demux.conns d)); [| by apply Hskip].
        intros c' Hc'. unfold conn_shutdown. apply lookup_alter_ne. intros ->. apply Hne. by eapply Hap.
    + intros c' Hc'. unfold conn_shutdown. rewrite lookup_alter_is_Some. by apply Hgo.
  - dsplit.
    + intros id' e' [_ He']%lookup_delete_Some. by eapply Hseen.
    + intros id' Hi'. rewrite lookup_delete_ne by set_solver. apply Hopen. set_solver.
    + intros id' e' [_ He']%lookup_delete_Some. apply Hless, Hskip, He'.
    + intros i i' e1 e2 c [_ He1]%lookup_delete_Some [_ He2]%lookup_delete_Some. by eapply Hap.
Qed.

Lemma on_packet_ok from p ps seen open gone out d s' final :
  dinv from (p :: ps) seen open gone out d -> pkt_ok p ->
  track p (seen, open) = Some s' -> replay ps s' = Some final ->
  safe (Demux.on_packet (raw p).1 (raw p).2 d) (dinv from ps s'.1 s'.2 gone out).
Proof.
  intros Hd Hok Ht Hrep.
  destruct p as [id data | id peer | id peer]; cbn [raw fst snd track] in *; case_decide; simplify_eq; cbn [fst snd] in *.
  - by apply on_data_ok.
  - by eapply on_up_ok.
  - by eapply on_down_ok.
Qed.

Lemma handle_packets_ok from qs gone out : forall ps seen open d final,
  dinv from (ps ++ qs) seen open gone out d -> Forall pkt_ok ps ->
  replay (ps ++ qs) (seen, open) = Some final ->
  exists seen' open', replay qs (seen', open') = Some final /\
    safe (handle_all Demux.on_packet (map raw ps) d) (dinv from qs seen' open' gone out).
Proof.
  induction ps as [| p ps IH]; intros seen open d final Hd Hok Hrep; cbn [app map handle_all replay] in *.
  - by exists seen, open.
  - apply Forall_cons in Hok as [Hp Hok]. destruct (track p (seen, open)) as [[s1 o1] |] eqn:Ht; [| done].
    simpl in Hrep. pose proof (on_packet_ok _ _ _ _ _ _ _ _ _ _ Hd Hp Ht Hrep) as Hs. cbn [fst snd] in Hs.
    destruct (Demux.on_packet (raw p).1 (raw p).2 d) as [d1 | f].
    + apply (IH s1 o1 d1 final Hs Hok Hrep).
    + cbn [safe] in Hs. subst f.
      assert (Hq : exists s2 o2, replay qs (s2, o2) = Some final).
      { rewrite replay_app in Hrep. destruct (replay ps (s1, o1)) as [[s2 o2] |]; [| done]. by exists s2, o2. }
      destruct Hq as (s2 & o2 & Hq). exists s2, o2. split; [done |]. done.
Qed.

Lemma received_receive id id' data h :
  received id' (receive id data h) = received id' h ++ (if decide (id = id') then data else []).
Proof.
  unfold received at 1, receive. case_decide as E.
  - subst id'. by rewrite lookup_insert_eq.
  - rewrite lookup_insert_ne by done. by rewrite app_nil_r.
Qed.

(** More is sent to the demultiplexer. *)
Lemma dinv_push from from' ps qs seen open gone out d :
  (forall id, 1 <= id -> received id from' = received id from ++ payload id (map raw qs)) ->
  dinv from ps seen open gone out d -> dinv from' (ps ++ qs) seen open gone out d.
Proof.
  intros Hf [Hsv Hlk Hids Hseen Hopen Hent Habs Hap Hgo]. split; try done.
  - intros id e He. pose proof (Hids id (Hseen id e He)) as Hid. specialize (Hent id e He). unfold entry_ok in *.
    rewrite Hf, map_app, payload_app by lia. destruct (Demux.connection e) as [c |].
    + destruct Hent as (? & ? & x & ? & Hp & Heq & ? & ?). split; [done |]. split; [done |]. exists x.
      split_and!; try done; [by apply prefix_app_r |]. intros Hn. by rewrite (Heq Hn), app_assoc.
    + destruct Hent as (p & ? & ->). exists p. split; [done |]. by rewrite app_assoc.
  - intros id Hid Hn. by rewrite Hf, map_app, payload_app, (Habs id Hid Hn) by done.
Qed.

(** The demultiplexer sends a packet. *)
Definition emit_packet (id : Z) (l : list byte) (d : Demux.DemuxServer) : Demux.DemuxServer :=
  Demux.with_conns (conn_send 0 (enc (id, l))) d.

Lemma zlen_header len id : zlen (packet_header len id) = 3.
Proof. done. Qed.

Lemma sendServerPacket_ok id l buf d out : Demux.serverConn_ d = Some 0 -> link (Demux.conns d) out ->
  ready l buf -> zlen l <= kMaxPacketLen ->
  exists buf', Demux.sendServerPacket id buf d = Ok (buf', emit_packet id l d) /\ ready [] buf'.
Proof.
  intros Hs Hl Hb Hlen. unfold Demux.sendServerPacket. rewrite (ready_readable _ _ Hb).
  step_assert; [lia |]. destruct (ready_prepend l buf (packet_header (zlen l) id) Hb) as (b1 & -> & Hb1).
  { by rewrite zlen_header. }
  rsimp. rewrite Hs, (send_buffer_link _ _ _ _ Hb1 Hl). rsimp.
  eexists. split; [done |]. split; [by eapply retrieveAll_holds | done].
Qed.

Lemma emit_packet_ok from ps seen open gone out d id l :
  dinv from ps seen open gone out d -> dinv from ps seen open gone (out ++ enc (id, l)) (emit_packet id l d).
Proof.
  intros [Hsv Hlk Hids Hseen Hopen Hent Habs Hap Hgo].
  split; cbn [emit_packet Demux.serverConn_ Demux.socksConns_ Demux.conns Demux.with_conns]; try done.
  - by apply link_send.
  - intros id' e' He'. specialize (Hent id' e' He').
    apply (entry_conns _ _ _ _ (Demux.conns d)); [| done]. intros c Hc. apply send_other.
    unfold entry_ok in Hent. rewrite Hc in Hent. destruct Hent as [? _]. done.
  - intros c Hc. unfold conn_send. rewrite lookup_alter_is_Some. by apply Hgo.
Qed.

Lemma emit_packets_ok from ps seen open gone id ds : forall out d,
  dinv from ps seen open gone out d ->
  dinv from ps seen open gone (out ++ concat (map enc (map (pair id) ds))) (emit_all (emit_packet id) ds d).
Proof.
  induction ds as [| l ds IH]; intros out d Hd; cbn [map concat]; [by rewrite app_nil_r |].
  rewrite app_assoc. apply IH. by apply emit_packet_ok.
Qed.

(** A server connection sends: cut into packets it goes to the multiplexer. *)
Lemma onSocksMessage_ok from ps seen open gone out d id data buf :
  dinv from ps seen open gone out d -> is_Some (Demux.socksConns_ d !! id) -> ready data buf ->
  safe (Demux.onSocksMessage id buf d) (fun '(buf', d') => ready [] buf' /\ Demux.socksConns_ d' = Demux.socksConns_ d
    /\ dinv from ps seen open gone (out ++ concat (map enc (map (pair id) (pieces (S (length data)) data)))) d').
Proof.
  intros Hd [e He] Hb. unfold Demux.onSocksMessage, Demux.the_entry. rewrite He. rsimp.
  eapply safe_mono; [apply (send_pieces_ok (emit_packet id) (Demux.sendServerPacket id)
    (fun d => Demux.serverConn_ d = Some 0 /\ exists out, link (Demux.conns d) out)) with (l := data) |].
  - intros l d1 [H1 [out1 H2]]. split; [done |]. eexists. by apply link_send.
  - intros l b1 d1 [H1 [out1 H2]]. by apply (sendServerPacket_ok id l b1 d1 out1).
  - split; [apply (d_server _ _ _ _ _ _ _ Hd) | eexists; apply (d_link _ _ _ _ _ _ _ Hd)].
  - done.
  - intros [buf' d'] [Hb' ->]. split; [done |]. split; [| by apply emit_packets_ok].
    clear Hb. revert d Hd He. generalize (pieces (S (length data)) data). intros ds d _ _. revert d.
    induction ds as [| l ds IH]; intros d; [done |]. exact (IH (emit_packet id l d)).
Qed.

(** A server connection comes up: what was waiting is sent. *)
Lemma onSocksUp_ok from ps seen open gone out d id e s :
  dinv from ps seen open gone out d -> Demux.socksConns_ d !! id = Some e -> Demux.connection e = None ->
  Demux.conns d !! s = None ->
  exists d', Demux.onSocksConnection id s (Demux.with_conns (<[s := Conn_new []]>) d) = Ok d'
    /\ dinv from ps seen open gone out d'.
Proof.
  intros Hd He Hc Hs. pose proof Hd as [Hsv Hlk Hids Hseen Hopen Hent Habs Hap Hgo].
  assert (Hs0 : s <> 0) by (intros ->; destruct Hlk as (x & Hx & _); congruence).
  assert (Hsg : s ∉ gone) by (intros Hin; destruct (Hgo s Hin); congruence).
  pose proof (Hent id e He) as Hi. unfold entry_ok in Hi. rewrite Hc in Hi. destruct Hi as (p & Hp & Heq).
  (* what both branches come to *)
  assert (Hgoal : forall b sn, ready [] b -> received id from = sn ++ payload id (map raw ps) ->
    dinv from ps seen open gone out (Demux.mkDemux (Some 0)
      (<[id := Demux.with_pending b (Demux.with_connection s e)]> (Demux.socksConns_ d))
      (<[s := mkConn true None [] sn]> (Demux.conns d)))).
  { intros b sn Hb Hsn. split; cbn [Demux.serverConn_ Demux.socksConns_ Demux.conns]; try done.
    - by apply link_new.
    - intros id' e' [[<- <-] | [Hne He']]%lookup_insert_Some; by eapply Hseen.
    - intros id' Hin'. apply lookup_insert_is_Some. destruct (decide (id = id')); [by left | right]. auto.
    - intros id' e' [[<- <-] | [Hne He']]%lookup_insert_Some.
      + unfold entry_ok. cbn [Demux.connection Demux.with_pending Demux.with_connection Demux.pending].
        split; [done |]. split; [done |]. rewrite lookup_insert_eq. eexists. split; [done |].
        cbn [sent connected]. rewrite Hsn. split; [by eexists |]. split; [done |]. split; [done | by left].
      + apply (entry_conns _ _ _ _ (Demux.conns d)); [| auto]. intros c' Hc'. apply lookup_insert_ne.
        intros <-. specialize (Hent id' e' He'). unfold entry_ok in Hent. rewrite Hc' in Hent.
        destruct Hent as (_ & _ & x & Hx & _). congruence.
    - assert (Hnew : forall i e1, Demux.socksConns_ d !! i = Some e1 -> Demux.connection e1 = Some s -> False).
      { intros i e1 H1 H2. specialize (Hent i e1 H1). unfold entry_ok in Hent. rewrite H2 in Hent.
        destruct Hent as (_ & _ & x & Hx & _). congruence. }
      intros i i' e1 e2 c [[<- <-] | [Hne He1]]%lookup_insert_Some [[<- <-] | [Hne2 He2]]%lookup_insert_Some;
        cbn [Demux.connection Demux.with_pending Demux.with_connection]; intros H1 H2; simplify_eq;
        [done | by destruct (Hnew i' e2) | by destruct (Hnew i e1) | by eapply Hap].
    - intros c Hc'. apply lookup_insert_is_Some. destruct (decide (s = c)); [by left | right]. auto. }
  unfold Demux.onSocksConnection, Demux.the_entry. cbn [Demux.socksConns_ Demux.with_conns Demux.conns]. rewrite He. rsimp.
  unfold get_conn. rewrite lookup_insert_eq. rsimp. cbn [connected Conn_new].
  cbn [Demux.pending Demux.with_connection]. rewrite (ready_readable _ _ Hp).
  destruct (Z.ltb_spec 0 (zlen p)) as [Hl | Hl].
  - unfold conn_send_buffer. cbn [Demux.conns Demux.with_socks Demux.with_conns].
    rewrite lookup_insert_eq. cbn [connected Conn_new].
    rewrite (read_all p _ (proj1 Hp)). rsimp. eexists. split; [done |].
    unfold Demux.with_conns, Demux.with_socks. cbn [Demux.serverConn_ Demux.socksConns_ Demux.conns].
    rewrite Hsv, insert_insert_eq. unfold conn_send. rewrite alter_insert_eq. cbn [connected context_ peer_ sent Conn_new app].
    apply Hgoal; [by eapply ready_all | done].
  - eexists. split; [done |].
    rewrite (zlen_zero p) in Hp, Heq by (pose proof (zlen_nonneg p); lia).
    pose proof (Hgoal (Demux.pending e) [] Hp Heq) as Hg. unfold Demux.with_socks, Demux.with_conns.
    cbn [Demux.serverConn_ Demux.socksConns_ Demux.conns]. rewrite Hsv. exact Hg.
Qed.

(** A server connection goes down: the number stays, a notice is sent. *)
Lemma onSocksDown_ok from ps seen open gone out d id e s :
  dinv from ps seen open gone out d -> Demux.socksConns_ d !! id = Some e -> Demux.connection e = Some s ->
  safe (Demux.onSocksConnection id s (Demux.with_conns (conn_shutdown s) d))
    (dinv from ps seen open ({[s]} ∪ gone)
       (out ++ enc (0, snprintf 256 (bs "DISCONNECT " ++ dec id ++ kCRLF)))).
Proof.
  intros Hd He Hc. pose proof Hd as [Hsv Hlk Hids Hseen Hopen Hent Habs Hap Hgo].
  pose proof (Hent id e He) as Hi. unfold entry_ok in Hi. rewrite Hc in Hi.
  destruct Hi as (Hs0 & Hpend & x & Hx & Hpre & Heq & Hgn & Hst).
  assert (Hlk' : link (conn_shutdown s (Demux.conns d)) out) by (by apply link_other).
  assert (Hd' : dinv from ps seen open ({[s]} ∪ gone) out (Demux.with_conns (conn_shutdown s) d)).
  { dsplit.
    - intros id' e' He'. specialize (Hent id' e' He'). unfold entry_ok in *.
      destruct (Demux.connection e') as [c' |]; [| done].
      destruct Hent as (? & ? & x' & Hx' & ? & Heq' & Hgn' & Hst'). split; [done |]. split; [done |].
      unfold conn_shutdown. destruct (decide (s = c')) as [<- | Hne].
      + rewrite lookup_alter_eq, Hx'. simpl. eexists. split; [done |]. cbn [sent connected].
        split_and!; try done; [set_solver | right; left; set_solver].
      + rewrite lookup_alter_ne by done. exists x'. split_and!; try done; [set_solver | set_solver |].
        destruct Hst' as [? | [? | ?]]; [by left | right; left; set_solver | by right; right].
    - intros c' Hc'. unfold conn_shutdown. rewrite lookup_alter_is_Some.
      apply elem_of_union in Hc' as [->%elem_of_singleton | Hc']; [by eexists | by apply Hgo]. }
  unfold Demux.onSocksConnection, Demux.the_entry. cbn [Demux.socksConns_ Demux.with_conns Demux.conns]. rewrite He. rsimp.
  assert (Hsh : conn_shutdown s (Demux.conns d) !! s = Some (mkConn false (context_ x) (peer_ x) (sent x)))
    by (unfold conn_shutdown; by rewrite lookup_alter_eq, Hx).
  unfold get_conn. rewrite Hsh. rsimp. cbn [connected Demux.serverConn_ Demux.with_conns]. rewrite Hsv.
  set (text := snprintf _ _).
  assert (Htext : zlen text <= kMaxPacketLen).
  { unfold text, snprintf, kMaxPacketLen. rewrite ztake_is_zslice.
    unfold zslice, zlen, ztake, zdrop. rewrite length_take. lia. }
  eapply safe_bind; [apply ready_filled; unfold kMaxPacketLen in Htext; lia |]. intros b Hb.
  destruct (sendServerPacket_ok 0 text b (Demux.with_conns (conn_shutdown s) d) out) as (b' & -> & _); try done.
  rsimp. cbn [safe]. by apply emit_packet_ok.
Qed.

(** ** The multiplexer *)

(** [k] clients were accepted so far, [qs] are the packets that come back. *)
Record minv (from : gmap Z (list byte)) (qs : list packet) (k : Z) (out : list byte)
    (m : Mux.MultiplexServer) : Prop := {
  m_backend : Mux.backendConn_ m = Some 0;
  m_link : link (Mux.conns m) out;
  m_count : 0 <= k <= Mux.kMaxConns;
  m_avail : exists freed, Mux.availIds_ m = seqZ (k + 1) (Mux.kMaxConns - k) ++ freed;
  m_clients id c : Mux.clientConns_ m !! id = Some c -> 1 <= id <= k /\ c <> 0 /\ exists x,
    Mux.conns m !! c = Some x /\ connected x = true /\ context_ x = Some id
    /\ received id from = sent x ++ payload id qs;
  m_conns c x : c <> 0 -> Mux.conns m !! c = Some x -> addr_text (peer_ x) /\ exists id,
    context_ x = Some id /\ 1 <= id <= k /\ sent x `prefix_of` received id from
    /\ (connected x = true -> Mux.clientConns_ m !! id = Some c);
  m_new id : k < id -> received id from = [] /\ payload id qs = []
}.

Definition emit_up (id : Z) (l : list byte) (m : Mux.MultiplexServer) : Mux.MultiplexServer :=
  Mux.with_conns (conn_send 0 (enc (id, l))) m.

Lemma sendBackendPacket_ok id l buf m out : Mux.backendConn_ m = Some 0 -> link (Mux.conns m) out ->
  ready l buf -> zlen l <= kMaxPacketLen ->
  exists buf', Mux.sendBackendPacket id buf m = Ok (buf', emit_up id l m) /\ ready [] buf'.
Proof.
  intros Hs Hl Hb Hlen. unfold Mux.sendBackendPacket. rewrite (ready_readable _ _ Hb).
  step_assert; [lia |]. destruct (ready_prepend l buf (packet_header (zlen l) id) Hb) as (b1 & -> & Hb1).
  { by rewrite zlen_header. }
  rsimp. rewrite Hs, (send_buffer_link _ _ _ _ Hb1 Hl). rsimp.
  eexists. split; [done |]. split; [by eapply retrieveAll_holds | done].
Qed.

Lemma sendBackendString_ok id text m out : Mux.backendConn_ m = Some 0 -> link (Mux.conns m) out ->
  zlen text <= kMaxPacketLen -> safe (Mux.sendBackendString id text m) (fun m' => m' = emit_up id text m).
Proof.
  intros Hs Hl Hlen. unfold Mux.sendBackendString. step_assert; [lia |].
  unfold kMaxPacketLen in Hlen. eapply safe_bind; [apply ready_filled; lia |]. intros b Hb.
  destruct (sendBackendPacket_ok id text b m out Hs Hl Hb) as (b' & -> & _); [done |]. done.
Qed.

Lemma emit_up_ok from qs k out m id l : minv from qs k out m -> minv from qs k (out ++ enc (id, l)) (emit_up id l m).
Proof.
  intros [Hb Hl Hk Hav Hcl Hcs Hnew].
  split; cbn [emit_up Mux.with_conns Mux.backendConn_ Mux.conns Mux.availIds_ Mux.clientConns_]; try done.
  - by apply link_send.
  - intros i c Hc. destruct (Hcl i c Hc) as (? & ? & x & ? & ?). split; [done |]. split; [done |].
    exists x. by rewrite send_other.
  - intros c x Hc Hx. rewrite send_other in Hx by done. auto.
Qed.
Lemma emit_ups_ok from qs k id ds : forall out m, minv from qs k out m ->
  minv from qs k (out ++ concat (map enc (map (pair id) ds))) (emit_all (emit_up id) ds m).
Proof.
  induction ds as [| l ds IH]; intros out m Hm; cbn [map concat]; [by rewrite app_nil_r |].
  rewrite app_assoc. apply IH. by apply emit_up_ok.
Qed.

(** A client connects: it gets the next number, which is announced. *)
Lemma onClientUp_ok from qs k out m c peer :
  minv from qs k out m -> Mux.conns m !! c = None -> k < Mux.kMaxConns -> addr_text peer ->
  safe (Mux.onClientConnection c (Mux.with_conns (<[c := Conn_new peer]>) m))
    (fun m' => minv from qs (k + 1) (out ++ enc (raw (PUp (k + 1) peer))) m'
               /\ Mux.clientConns_ m' = <[k + 1 := c]> (Mux.clientConns_ m)).
Proof.
  intros [Hb Hl Hk Hav Hcl Hcs Hnew] Hc Hlt Hpeer.
  assert (Hc0 : c <> 0) by (intros ->; destruct Hl as (x & Hx & _); congruence).
  unfold Mux.onClientConnection, get_conn. cbn [Mux.conns Mux.with_conns]. rewrite lookup_insert_eq. rsimp.
  cbn [connected Conn_new peer_ Mux.availIds_ Mux.clientConns_ Mux.with_conns].
  destruct Hav as [freed Hav]. rewrite Hav. rewrite seqZ_cons by lia. cbn [app].
  rewrite (proj2 (Z.leb_gt _ _)) by lia.
  set (m1 := Mux.with_conns (conn_context c (k + 1)) _).
  assert (Hl1 : link (Mux.conns m1) out) by (unfold m1; cbn; apply link_other; [done |]; by apply link_new).
  assert (Hcs1 : Mux.conns m1 = <[c := mkConn true (Some (k + 1)) peer []]> (Mux.conns m)).
  { unfold m1. cbn. unfold conn_context. by rewrite alter_insert_eq. }
  destruct (conn_text_whole (k + 1) peer ltac:(lia) Hpeer (bs "UP")) as [_ Htext]; [done |].
  eapply safe_mono; [apply (sendBackendString_ok 0 (Mux.conn_text (k + 1) peer (bs "UP")) m1 out); [exact Hb | exact Hl1 | apply Htext] |].
  intros m' ->. split; [| done]. cbn [raw]. apply emit_up_ok. split.
  - done.
  - done.
  - lia.
  - exists freed. unfold m1. cbn [Mux.availIds_ Mux.with_conns Mux.with_ids]. do 2 f_equal; lia.
  - intros i c' Hi. rewrite Hcs1. unfold m1 in Hi. cbn in Hi.
    apply lookup_insert_Some in Hi as [[<- <-] | [Hne Hi]].
    + split; [lia |]. split; [done |]. rewrite lookup_insert_eq. eexists. split; [done |].
      destruct (Hnew (k + 1)) as [-> ->]; [lia |]. done.
    + destruct (Hcl i c' Hi) as (? & ? & x & Hx & ?). split; [lia |]. split; [done |]. exists x.
      rewrite lookup_insert_ne by (intros <-; congruence). done.
  - intros c' x Hc' Hx. rewrite Hcs1 in Hx. unfold m1. cbn [Mux.clientConns_ Mux.with_conns Mux.with_ids].
    apply lookup_insert_Some in Hx as [[<- <-] | [Hne Hx]].
    + split; [done |]. exists (k + 1). split; [done |]. split; [lia |]. split; [apply prefix_nil |].
      intros _. by rewrite lookup_insert_eq.
    + destruct (Hcs c' x Hc' Hx) as (? & i & ? & ? & ? & Hi). split; [done |]. exists i.
      split; [done |]. split; [lia |]. split; [done |]. intros Hx'. rewrite lookup_insert_ne by lia. auto.
  - intros i Hi. apply Hnew. lia.
Qed.

(** A client closes: its number is given back, which is announced. *)
Lemma onClientDown_ok from qs k out m c x : c <> 0 ->
  minv from qs k out m -> Mux.conns m !! c = Some x -> connected x = true ->
  exists id, Mux.clientConns_ m !! id = Some c /\ 1 <= id <= Mux.kMaxConns /\ addr_text (peer_ x) /\
  safe (Mux.onClientConnection c (Mux.with_conns (conn_shutdown c) m))
    (fun m' => minv from qs k (out ++ enc (raw (PDown id (peer_ x)))) m'
               /\ Mux.clientConns_ m' = delete id (Mux.clientConns_ m)).
Proof.
  intros Hc0 [Hb Hl Hk Hav Hcl Hcs Hnew] Hx Hcon.
  destruct (Hcs c x Hc0 Hx) as (Hpeer & id & Hctx & Hid & Hpre & Hin). specialize (Hin Hcon).
  exists id. split; [done |]. split; [unfold Mux.kMaxConns in *; lia |]. split; [done |].
  assert (Hsh : conn_shutdown c (Mux.conns m) !! c = Some (mkConn false (Some id) (peer_ x) (sent x)))
    by (unfold conn_shutdown; by rewrite lookup_alter_eq, Hx, <- Hctx).
  unfold Mux.onClientConnection, get_conn. cbn [Mux.conns Mux.with_conns]. rewrite Hsh. rsimp.
  cbn [connected context_ peer_]. step_assert; [unfold Mux.kMaxConns in *; lia |].
  set (m1 := Mux.with_conns _ m).
  assert (Hl1 : link (Mux.conns m1) out) by (unfold m1; cbn; by apply link_other).
  destruct (conn_text_whole id (peer_ x) ltac:(unfold Mux.kMaxConns in *; lia) Hpeer (bs "DOWN")) as [_ Htext]; [done |].
  eapply safe_bind; [apply (sendBackendString_ok 0 (Mux.conn_text id (peer_ x) (bs "DOWN")) m1 out); [exact Hb | exact Hl1 | apply Htext] |].
  intros m' ->. cbn [emit_up Mux.with_conns Mux.backendConn_]. unfold m1 at 1. cbn [Mux.with_conns Mux.backendConn_].
  rewrite Hb. cbn [safe mret res_ret]. split; [| done].
  change (minv from qs k (out ++ enc (raw (PDown id (peer_ x))))
    (emit_up 0 (Mux.conn_text id (peer_ x) (bs "DOWN"))
       (Mux.with_ids (delete id (Mux.clientConns_ m)) (Mux.availIds_ m ++ [id]) m1))).
  cbn [raw]. apply emit_up_ok. unfold m1.
  split; cbn [Mux.with_ids Mux.with_conns Mux.backendConn_ Mux.conns Mux.availIds_ Mux.clientConns_]; try done.
  - destruct Hav as [freed ->]. exists (freed ++ [id]). by rewrite app_assoc.
  - intros i c' [Hne Hi]%lookup_delete_Some. destruct (Hcl i c' Hi) as (? & ? & y & Hy & ? & Hyi & ?).
    split; [done |]. split; [done |]. exists y. unfold conn_shutdown. rewrite lookup_alter_ne; [done |].
    intros <-. rewrite Hx in Hy. congruence.
  - intros c' y Hc' Hy. unfold conn_shutdown in Hy. destruct (decide (c = c')) as [<- | Hne].
    + rewrite lookup_alter_eq, Hx in Hy. simpl in Hy. simplify_eq. cbn [peer_ context_ connected sent]. split; [done |].
      exists id. done.
    + rewrite lookup_alter_ne in Hy by done. destruct (Hcs c' y Hc' Hy) as (? & i & ? & ? & ? & Hi).
      split; [done |]. exists i. split_and!; try done; try lia. intros Hcy. specialize (Hi Hcy).
      rewrite lookup_delete_ne; [done |]. intros <-. congruence.
Qed.

(** A client sends: cut into packets it goes to the demultiplexer. *)
Lemma onClientMessage_ok from qs k out m c x data buf : c <> 0 ->
  minv from qs k out m -> Mux.conns m !! c = Some x -> connected x = true -> ready data buf ->
  exists id, context_ x = Some id /\ Mux.clientConns_ m !! id = Some c /\ 1 <= id <= Mux.kMaxConns /\
  safe (Mux.onClientMessage c buf m) (fun '(buf', m') => ready [] buf' /\ Mux.clientConns_ m' = Mux.clientConns_ m
    /\ minv from qs k (out ++ concat (map enc (map (pair id) (pieces (S (length data)) data)))) m').
Proof.
  intros Hc0 Hm Hx Hcon Hbuf. pose proof Hm as [Hb Hl Hk Hav Hcl Hcs Hnew].
  destruct (Hcs c x Hc0 Hx) as (Hpeer & id & Hctx & Hid & Hpre & Hin).
  exists id. split; [done |]. split; [auto |]. split; [unfold Mux.kMaxConns in *; lia |].
  unfold Mux.onClientMessage, get_conn. cbn [Mux.counted Mux.conns]. rewrite Hx. rsimp. rewrite Hctx.
  set (m1 := Mux.counted _ m).
  assert (Hm1 : minv from qs k out m1) by (by destruct Hm; split).
  eapply safe_mono; [apply (send_pieces_ok (emit_up id) (Mux.sendBackendPacket id)
    (fun m => Mux.backendConn_ m = Some 0 /\ exists out, link (Mux.conns m) out)) with (l := data) |].
  - intros l d1 [H1 [out1 H2]]. split; [done |]. eexists. by apply link_send.
  - intros l b1 d1 [H1 [out1 H2]]. by apply (sendBackendPacket_ok id l b1 d1 out1).
  - split; [done | by eexists].
  - done.
  - intros [buf' m'] [Hb' ->]. split; [done |]. split; [| by apply emit_ups_ok].
    change (Mux.clientConns_ m) with (Mux.clientConns_ m1). generalize (pieces (S (length data)) data). intros ds.
    clearbody m1. clear. revert m1. induction ds as [| l ds IH]; intros m1; [done |]. exact (IH (emit_up id l m1)).
Qed.

(** A packet comes back to its client. *)
Lemma to_client_ok from q qs k out m :
  minv from (q :: qs) k out m -> exists m', Mux.to_client q.1 q.2 m = Ok m' /\ minv from qs k out m'
    /\ Mux.clientConns_ m' = Mux.clientConns_ m.
Proof.
  intros [Hb Hl Hk Hav Hcl Hcs Hnew]. unfold Mux.to_client. eexists. split; [done |].
  assert (Hnew' : forall id, k < id -> received id from = [] /\ payload id qs = []).
  { intros id Hid. destruct (Hnew id Hid) as [H1 H2]. split; [done |]. rewrite payload_cons in H2. by apply app_nil in H2 as [_ H2]. }
  destruct (Mux.clientConns_ m !! q.1) as [c |] eqn:Hq; (split; [| done]).
  - destruct (Hcl _ _ Hq) as (Hid & Hc0 & x & Hx & Hcon & Hctx & Heq).
    rewrite payload_cons, decide_True in Heq by done.
    assert (Hs : conn_send c q.2 (Mux.conns m) !! c = Some (mkConn true (Some q.1) (peer_ x) (sent x ++ q.2))).
    { unfold conn_send. rewrite lookup_alter_eq, Hx. simpl. by rewrite Hcon, Hctx. }
    split; cbn [Mux.with_conns Mux.backendConn_ Mux.conns Mux.availIds_ Mux.clientConns_]; try done.
    + by apply link_other.
    + intros i c' Hi. destruct (Hcl i c' Hi) as (? & ? & y & Hy & Hcy & Hyi & Heqy). split; [done |]. split; [done |].
      destruct (decide (c = c')) as [<- | Hne].
      * rewrite Hx in Hy. simplify_eq. rewrite Hs. eexists. split; [done |]. cbn [connected context_ sent].
        split; [done |]. split; [done |]. by rewrite Heq, app_assoc.
      * rewrite send_other by done. exists y. split_and!; try done. rewrite Heqy, payload_cons, decide_False; [done |].
        intros <-. congruence.
    + intros c' y Hc' Hy. destruct (decide (c = c')) as [<- | Hne].
      * rewrite Hs in Hy. simplify_eq. cbn [peer_ context_ sent]. destruct (Hcs c x Hc0 Hx) as (? & _). split; [done |].
        exists q.1. split_and!; try done; try lia. rewrite Heq, app_assoc. by eexists.
      * rewrite send_other in Hy by done. auto.
  - split; try done. intros i c Hi. destruct (Hcl i c Hi) as (? & ? & y & ? & ? & ? & Heqy).
    split; [done |]. split; [done |]. exists y. split_and!; try done.
    rewrite Heqy, payload_cons, decide_False; [done |]. intros <-. congruence.
Qed.
Lemma to_clients_ok from qs1 : forall qs k out m, minv from (qs1 ++ qs) k out m ->
  exists m', handle_all Mux.to_client qs1 m = Ok m' /\ minv from qs k out m' /\ Mux.clientConns_ m' = Mux.clientConns_ m.
Proof.
  induction qs1 as [| q qs1 IH]; intros qs k out m Hm; cbn [app handle_all] in *; [by exists m |].
  destruct (to_client_ok _ _ _ _ _ _ Hm) as (m1 & -> & Hm1 & Hc1). rsimp.
  destruct (IH _ _ _ _ Hm1) as (m2 & -> & Hm2 & Hc2). exists m2. split; [done |]. split; [done |]. congruence.
Qed.

(** More is sent to the multiplexer. *)
Lemma minv_push from from' qs rs k out m :
  (forall id, 1 <= id -> received id from' = received id from ++ payload id rs) ->
  (forall id, k < id -> payload id rs = []) ->
  minv from qs k out m -> minv from' (qs ++ rs) k out m.
Proof.
  intros Hf Hn [Hb Hl Hk Hav Hcl Hcs Hnew]. split; try done.
  - intros id c Hc. destruct (Hcl id c Hc) as (? & ? & x & ? & ? & ? & Heq). split; [done |]. split; [done |].
    exists x. split_and!; try done. by rewrite Hf, payload_app, Heq, app_assoc by lia.
  - intros c x Hc Hx. destruct (Hcs c x Hc Hx) as (? & id & ? & ? & ? & ?). split; [done |]. exists id.
    split_and!; try done; try lia. rewrite Hf by lia. by apply prefix_app_r.
  - intros id Hid. destruct (Hnew id Hid) as [H1 H2]. rewrite Hf, payload_app, H1, H2, (Hn id Hid) by lia. done.
Qed.

(** ** The whole system *)

Definition stream (ps : list packet) : list byte := concat (map enc ps).

(** What has arrived of a stream and waits in the buffer, with what is still on
    the wire, is the encoding of the packets under way. *)
Definition flow (b : Buffer) (taken : nat) (out : list byte) (ps : list packet) : Prop :=
  (taken <= length out)%nat /\ exists l, ready l b /\ waiting next_packet l /\ l ++ drop taken out = stream ps.

Lemma flow_push b taken out ps rs : flow b taken out ps -> flow b taken (out ++ stream rs) (ps ++ rs).
Proof.
  intros (Ht & l & Hl & Hw & Heq). split; [rewrite length_app; lia |]. exists l. split; [done |]. split; [done |].
  rewrite drop_app_le by lia. unfold stream in *. by rewrite map_app, concat_app, app_assoc, Heq.
Qed.

(** [n] more bytes arrive and complete some of the packets. *)
Lemma flow_arrive {W} (handle : Z -> list byte -> W -> res W) b taken out ps n (w : Buffer -> W) (Q : Buffer * W -> Prop) :
  flow b taken out ps -> Forall good_packet ps -> small (take n (drop taken out)) = true ->
  (forall b0 ps1 ps2 b', ps = ps1 ++ ps2 -> flow b' (taken + length (take n (drop taken out))) out ps2 ->
     safe (handle_all handle ps1 (w b0)) (fun w' => Q (b', w'))) ->
  safe (b ← append b (take n (drop taken out)); packet_loop handle (S (Z.to_nat (readableBytes b))) b (w b)) Q.
Proof.
  intros (Ht & l & Hl & _ & Heq) Hgood Hsm HQ. set (chunk := take n (drop taken out)) in *.
  unfold small in Hsm. apply Z.ltb_lt in Hsm.
  eapply safe_bind; [by apply (ready_append l b chunk) |]. intros b1 Hb1.
  assert (Hcut : (l ++ chunk) ++ drop (taken + length chunk) out = stream ps).
  { rewrite <- Heq, <- app_assoc. f_equal. rewrite <- drop_drop.
    rewrite <- (take_drop n (drop taken out)) at 2. fold chunk. f_equal. unfold chunk.
    rewrite length_take. destruct (Nat.le_ge_cases n (length (drop taken out))) as [Hle | Hge].
    - by rewrite Nat.min_l.
    - rewrite Nat.min_r by done. by rewrite !drop_ge. }
  assert (Hlen : (taken + length chunk <= length out)%nat).
  { unfold chunk. rewrite length_take, length_drop. lia. }
  rewrite Forall_forall in Hgood.
  destruct (drain_part next_packet enc ps (l ++ chunk) (drop (taken + length chunk) out)) with (4 := Hcut) as (ps1 & ps2 & r & Hps & Hd & Hr).
  - intros p k Hp. by apply next_enc, Hgood.
  - intros p l' k Hp. by apply next_part, Hgood.
  - done.
  - rewrite (ready_readable _ _ Hb1). unfold drain_all in Hd.
    replace (S (Z.to_nat (zlen (l ++ chunk)))) with (S (length (l ++ chunk))) by (unfold zlen; lia).
    destruct (packet_loop_ok (S (length (l ++ chunk))) (l ++ chunk) b1 ps1 r Hb1 ltac:(lia) Hd) as (b' & Hb' & ->).
    eapply safe_bind; [apply (HQ b1 ps1 ps2 b' Hps) |].
    + split; [done |]. exists r. split; [done |]. split; [| done]. by apply (drain_waiting next_packet (l ++ chunk) ps1).
    + intros w' Hw'. exact Hw'.
Qed.

Record winv_at (w : sys) (ps : list pkt) (qs : list packet) (seen open : gset Z) (up down : list byte) : Prop := {
  wi_m : minv (from_socks w) qs (accepted w) up (mux w);
  wi_d : dinv (from_client w) ps seen open (gone w) down (dmx w);
  wi_replay : replay ps (seen, open) = Some (list_to_set (seqZ 1 (accepted w)), dom (Mux.clientConns_ (mux w)));
  wi_ps : Forall pkt_ok ps;
  wi_qs : Forall good_packet qs;
  wi_up : flow (d_in w) (up_taken w) up (map raw ps);
  wi_down : flow (b_in w) (down_taken w) down qs;
  wi_cin : map_Forall (fun _ b => ready [] b) (c_in w);
  wi_sin : map_Forall (fun _ b => ready [] b) (s_in w)
}.
Definition winv (w : sys) : Prop := exists ps qs seen open up down, winv_at w ps qs seen open up down.

Lemma replay_grows ps : forall s s', replay ps s = Some s' -> s.1 ⊆ s'.1.
Proof.
  induction ps as [| p ps IH]; intros s s' H; cbn [replay] in H; [by simplify_eq |].
  destruct (track p s) as [t |] eqn:Ht; [| done]. simpl in H.
  pose proof (track_grows p s t Ht). pose proof (IH t s' H). set_solver.
Qed.

Lemma map_Forall_ready (m : gmap Z Buffer) c : map_Forall (fun _ b => ready [] b) m -> ready [] (default Buffer_new (m !! c)).
Proof. intros Hm. destruct (m !! c) as [b |] eqn:E; [by apply (Hm c) | apply ready_new]. Qed.
Lemma map_Forall_stored (m : gmap Z Buffer) c b : map_Forall (fun _ b => ready [] b) m -> ready [] b ->
  map_Forall (fun _ b => ready [] b) (<[c := b]> m).
Proof. intros Hm Hb. by apply map_Forall_insert_2. Qed.

Lemma pieces_packets id data : 0 <= id < 65536 ->
  Forall good_packet (map (pair id) (pieces (S (length data)) data)).
Proof.
  intros Hid. apply Forall_map. eapply Forall_impl; [apply pieces_good |]. intros d Hd. by split.
Qed.
Lemma pieces_whole data : concat (pieces (S (length data)) data) = data.
Proof. apply pieces_concat. unfold zlen. lia. Qed.

Definition first (c : Conn) : sys :=
  mkSys (Mux.mkMux (Some 0) ∅ (seqZ 1 Mux.kMaxConns) 0 0 {[0 := c]}) (Demux.mkDemux (Some 0) ∅ {[0 := c]})
    0 Buffer_new 0 Buffer_new ∅ ∅ ∅ ∅ ∅ 0.
Lemma init_first : init = Ok (first (Conn_new [])).
Proof. reflexivity. Qed.

Lemma init_winv : winv (first (Conn_new [])).
Proof.
  assert (Hl : link {[0 := Conn_new []]} []) by (by exists (Conn_new [])).
  exists [], [], ∅, ∅, [], []. split; cbn [first mux dmx from_client from_socks accepted gone d_in b_in c_in s_in up_taken down_taken].
  - split; cbn [Mux.backendConn_ Mux.conns Mux.availIds_ Mux.clientConns_]; try done.
    + by exists [].
    + intros c x Hc Hx. by rewrite lookup_singleton_ne in Hx.
  - split; cbn [Demux.serverConn_ Demux.conns Demux.socksConns_]; try done.
  - reflexivity.
  - constructor.
  - constructor.
  - split; [done |]. exists []. split; [apply ready_new | by split].
  - split; [done |]. exists []. split; [apply ready_new | by split].
  - apply map_Forall_empty.
  - apply map_Forall_empty.
Qed.

Lemma ids_succ k : 0 <= k -> list_to_set (seqZ 1 (k + 1)) = ({[k + 1]} ∪ list_to_set (seqZ 1 k) : gset Z).
Proof.
  intros Hk. apply leibniz_equiv. intros i.
  rewrite elem_of_union, elem_of_singleton, !elem_of_list_to_set, !elem_of_seqZ. lia.
Qed.
Lemma stream_one p : stream [p] = enc p.
Proof. apply app_nil_r. Qed.

Ltac wsplit := split; cbn [mux dmx up_taken d_in down_taken b_in c_in s_in gone from_client from_socks accepted]; try done.

Lemma client_up_step w c peer : winv w -> safe (run_event (EvClientUp c peer) w) winv.
Proof.
  intros (ps & qs & seen & open & up & down & [Hm Hd Hrep Hps Hqs Hup Hdn Hci Hsi]). cbn [run_event].
  case_decide as Hg; [| by exists ps, qs, seen, open, up, down].
  destruct Hg as (Hc & Hk & Hpeer). pose proof (m_count _ _ _ _ _ Hm) as Hk0.
  eapply safe_bind; [by apply (onClientUp_ok (from_socks w) qs (accepted w) up) |].
  intros m' [Hm' Hcl]. cbn [safe mret res_ret].
  exists (ps ++ [PUp (accepted w + 1) peer]), qs, seen, open, (up ++ enc (raw (PUp (accepted w + 1) peer))), down.
  wsplit.
  - apply (dinv_push (from_client w)); [| done]. intros id Hid. cbn [map].
    rewrite payload_cons, decide_False by (cbn [raw fst]; lia). by rewrite !app_nil_r.
  - rewrite replay_app, Hrep. cbn [mbind option_bind replay track fst snd].
    rewrite decide_False by (rewrite elem_of_list_to_set, elem_of_seqZ; lia).
    cbn [mbind option_bind replay]. rewrite Hcl, dom_insert_L, ids_succ by lia. done.
  - apply Forall_app_2; [done |]. repeat constructor; [lia | lia | apply Hpeer..].
  - rewrite map_app, <- stream_one. by apply flow_push.
Qed.

Lemma client_down_step w c : winv w -> safe (run_event (EvClientDown c) w) winv.
Proof.
  intros (ps & qs & seen & open & up & down & [Hm Hd Hrep Hps Hqs Hup Hdn Hci Hsi]). cbn [run_event].
  destruct (Mux.conns (mux w) !! c) as [x |] eqn:Hx; [| by exists ps, qs, seen, open, up, down].
  destruct ((c =? 0) || negb (connected x)) eqn:Hg; [by exists ps, qs, seen, open, up, down |].
  apply orb_false_iff in Hg as [Hc0%Z.eqb_neq Hcon%negb_false_iff].
  destruct (onClientDown_ok _ _ _ _ _ c x Hc0 Hm Hx Hcon) as (id & Hin & Hid & Hpeer & Hs).
  eapply safe_bind; [exact Hs |]. intros m' [Hm' Hcl]. cbn [safe mret res_ret].
  exists (ps ++ [PDown id (peer_ x)]), qs, seen, open, (up ++ enc (raw (PDown id (peer_ x)))), down.
  wsplit.
  - apply (dinv_push (from_client w)); [| done]. intros i Hi. cbn [map].
    rewrite payload_cons, decide_False by (cbn [raw fst]; lia). by rewrite !app_nil_r.
  - rewrite replay_app, Hrep. cbn [mbind option_bind replay track fst snd].
    rewrite decide_True by (by apply elem_of_dom_2 in Hin).
    cbn [mbind option_bind replay]. rewrite Hcl, dom_delete_L. done.
  - apply Forall_app_2; [done |]. repeat constructor; [apply Hid | apply Hid | apply Hpeer..].
  - rewrite map_app, <- stream_one. by apply flow_push.
Qed.

Lemma client_data_step w c data : winv w -> safe (run_event (EvClientData c data) w) winv.
Proof.
  intros (ps & qs & seen & open & up & down & [Hm Hd Hrep Hps Hqs Hup Hdn Hci Hsi]). cbn [run_event].
  destruct (Mux.conns (mux w) !! c) as [x |] eqn:Hx; [| by exists ps, qs, seen, open, up, down].
  destruct ((c =? 0) || negb (connected x) || negb (small data)) eqn:Hg; [by exists ps, qs, seen, open, up, down |].
  apply orb_false_iff in Hg as [Hg Hsm%negb_false_iff].
  apply orb_false_iff in Hg as [Hc0%Z.eqb_neq Hcon%negb_false_iff]. apply Z.ltb_lt in Hsm.
  eapply safe_bind; [apply (ready_append [] _ data); [by apply map_Forall_ready | done] |]. intros buf Hbuf.
  destruct (onClientMessage_ok _ _ _ _ _ c x data buf Hc0 Hm Hx Hcon Hbuf) as (id & Hctx & Hin & Hid & Hs).
  eapply safe_bind; [exact Hs |]. intros [buf' m'] (Hb' & Hcl & Hm'). cbn [safe mret res_ret].
  rewrite Hctx. set (ds := pieces (S (length data)) data) in *.
  exists (ps ++ map (PData id) ds), qs, seen, open, (up ++ stream (map (pair id) ds)), down.
  wsplit.
  - apply (dinv_push (from_client w)); [| done]. intros i Hi. rewrite received_receive, raw_data.
    case_decide as E; [subst i | by rewrite payload_other by done].
    rewrite payload_same. unfold ds. by rewrite pieces_whole.
  - rewrite replay_app, Hrep. cbn [mbind option_bind]. rewrite replay_data; [by rewrite Hcl |].
    cbn [snd]. by apply elem_of_dom_2 in Hin.
  - apply Forall_app_2; [done |]. apply Forall_map. eapply Forall_impl; [apply pieces_good |].
    intros d Hdl. by split.
  - rewrite map_app, raw_data. by apply flow_push.
  - by apply map_Forall_stored.
Qed.

Lemma safe_assoc {A B C} (m : res A) (k : A -> res B) (f : B -> res C) (Q : C -> Prop) :
  safe (m ≫= k) (fun b => safe (f b) Q) -> safe (m ≫= fun a => k a ≫= f) Q.
Proof. destruct m as [a | e]; [| done]. rsimp. intros H. by eapply safe_bind. Qed.

(** A prefix of what is under way reaches the demultiplexer. *)
Lemma up_step w n : winv w -> safe (run_event (EvUp n) w) winv.
Proof.
  intros (ps & qs & seen & open & up & down & [Hm Hd Hrep Hps Hqs Hup Hdn Hci Hsi]). cbn [run_event].
  unfold up_wire. rewrite (link_sent_on _ _ (m_link _ _ _ _ _ Hm)).
  destruct (negb _) eqn:Hsm; [by exists ps, qs, seen, open, up, down |]. apply negb_false_iff in Hsm.
  apply safe_assoc. unfold Demux.onServerMessage.
  apply (flow_arrive Demux.on_packet _ _ _ _ _ (fun _ => dmx w) _ Hup); [| exact Hsm |].
  - apply Forall_map. eapply Forall_impl; [exact Hps |]. intros p. apply raw_good.
  - intros _ ps1 ps2 b' Heq Hflow. apply map_eq_app in Heq as (qs1 & qs2 & -> & <- & <-).
    apply Forall_app in Hps as [Hps1 Hps2].
    destruct (handle_packets_ok _ qs2 _ _ qs1 seen open (dmx w) _ Hd Hps1 Hrep) as (seen' & open' & Hrep' & Hs).
    eapply safe_mono; [exact Hs |]. intros d' Hd'. cbn [safe mret res_ret].
    exists qs2, qs, seen', open', up, down. by wsplit.
Qed.

(** A prefix of what comes back reaches the multiplexer. *)
Lemma down_step w n : winv w -> safe (run_event (EvDown n) w) winv.
Proof.
  intros (ps & qs & seen & open & up & down & [Hm Hd Hrep Hps Hqs Hup Hdn Hci Hsi]). cbn [run_event].
  unfold down_wire. rewrite (link_sent_on _ _ (d_link _ _ _ _ _ _ _ Hd)).
  destruct (negb _) eqn:Hsm; [by exists ps, qs, seen, open, up, down |]. apply negb_false_iff in Hsm.
  apply safe_assoc. unfold Mux.onBackendMessage, Mux.sendToClient.
  apply (flow_arrive Mux.to_client _ _ _ _ _ (fun b => Mux.counted (readableBytes b) (mux w)) _ Hdn); [done | exact Hsm |].
  intros b0 qs1 qs2 b' -> Hflow. apply Forall_app in Hqs as [Hqs1 Hqs2].
  destruct (to_clients_ok (from_socks w) qs1 qs2 (accepted w) up (Mux.counted (readableBytes b0) (mux w)))
    as (m' & -> & Hm' & Hcl); [by destruct Hm; split |].
  cbn [safe mret res_ret]. exists ps, qs2, seen, open, up, down. wsplit. by rewrite Hcl.
Qed.

Lemma socks_up_step w id s : winv w -> safe (run_event (EvSocksUp id s) w) winv.
Proof.
  intros (ps & qs & seen & open & up & down & [Hm Hd Hrep Hps Hqs Hup Hdn Hci Hsi]). cbn [run_event].
  destruct (Demux.socksConns_ (dmx w) !! id) as [e |] eqn:He; [| by exists ps, qs, seen, open, up, down].
  case_decide as Hg; [| by exists ps, qs, seen, open, up, down]. destruct Hg as [Hc Hs].
  destruct (onSocksUp_ok _ _ _ _ _ _ _ id e s Hd He Hc Hs) as (d' & -> & Hd'). rsimp. cbn [safe].
  exists ps, qs, seen, open, up, down. by wsplit.
Qed.

(** The numbers in use at the demultiplexer were given out. *)
Lemma entry_number w ps qs seen open up down id e : winv_at w ps qs seen open up down ->
  Demux.socksConns_ (dmx w) !! id = Some e -> 1 <= id <= accepted w.
Proof.
  intros Hw He. pose proof (replay_grows _ _ _ (wi_replay _ _ _ _ _ _ _ Hw)) as Hg. cbn [fst] in Hg.
  apply (d_seen _ _ _ _ _ _ _ (wi_d _ _ _ _ _ _ _ Hw)), Hg in He.
  apply elem_of_list_to_set, elem_of_seqZ in He. lia.
Qed.

Lemma socks_data_step w id data : winv w -> safe (run_event (EvSocksData id data) w) winv.
Proof.
  intros (ps & qs & seen & open & up & down & Hw). pose proof Hw as [Hm Hd Hrep Hps Hqs Hup Hdn Hci Hsi].
  cbn [run_event].
  destruct (Demux.socksConns_ (dmx w) !! id) as [[i n [s |] p] |] eqn:He; try by exists ps, qs, seen, open, up, down.
  destruct (_ || negb (small data)) eqn:Hg; [by exists ps, qs, seen, open, up, down |].
  apply orb_false_iff in Hg as [_ Hsm%negb_false_iff]. apply Z.ltb_lt in Hsm.
  pose proof (entry_number _ _ _ _ _ _ _ id _ Hw He) as Hid. pose proof (m_count _ _ _ _ _ Hm) as Hk.
  unfold Mux.kMaxConns in Hk.
  eapply safe_bind; [apply (ready_append [] _ data); [by apply map_Forall_ready | done] |]. intros buf Hbuf.
  eapply safe_bind; [apply (onSocksMessage_ok _ _ _ _ _ _ _ id data buf Hd); [by eexists | done] |].
  intros [buf' d'] (Hb' & _ & Hd'). cbn [safe mret res_ret]. set (ds := pieces (S (length data)) data) in *.
  exists ps, (qs ++ map (pair id) ds), seen, open, up, (down ++ stream (map (pair id) ds)).
  wsplit.
  - apply (minv_push (from_socks w)); [| | done].
    + intros i' Hi. rewrite received_receive. case_decide as E; [subst i' | by rewrite payload_other by done].
      rewrite payload_same. unfold ds. by rewrite pieces_whole.
    + intros i' Hi. apply payload_other. lia.
  - apply Forall_app_2; [done |]. apply pieces_packets. lia.
  - by apply flow_push.
  - by apply map_Forall_stored.
Qed.

Lemma socks_down_step w id : winv w -> safe (run_event (EvSocksDown id) w) winv.
Proof.
  intros (ps & qs & seen & open & up & down & Hw). pose proof Hw as [Hm Hd Hrep Hps Hqs Hup Hdn Hci Hsi].
  cbn [run_event].
  destruct (Demux.socksConns_ (dmx w) !! id) as [[i n [s |] p] |] eqn:He; try by exists ps, qs, seen, open, up, down.
  case_bool_decide; [by exists ps, qs, seen, open, up, down |].
  eapply safe_bind; [apply (onSocksDown_ok _ _ _ _ _ _ _ id _ s Hd He eq_refl) |].
  intros d' Hd'. cbn [safe mret res_ret]. set (text := snprintf _ _) in *.
  assert (Htext : 0 < zlen text <= kMaxPacketLen).
  { unfold text, snprintf, kMaxPacketLen.
    split; [| unfold zlen, ztake; rewrite length_take; lia].
    rewrite ztake_app_r by (change (zlen (bs "DISCONNECT ")) with 11; lia). rewrite zlen_app.
    change (zlen (bs "DISCONNECT ")) with 11. match goal with |- _ < _ + zlen ?x => pose proof (zlen_nonneg x) end. lia. }
  exists ps, (qs ++ [(0, text)]), seen, open, up, (down ++ enc (0, text)).
  wsplit.
  - apply (minv_push (from_socks w)); [| | done].
    + intros i' Hi. rewrite payload_cons, decide_False by (cbn [fst]; lia). by rewrite !app_nil_r.
    + intros i' Hi. pose proof (m_count _ _ _ _ _ Hm). rewrite payload_cons, decide_False by (cbn [fst]; lia). done.
  - apply Forall_app_2; [done |]. repeat constructor; cbn [fst snd]; lia.
  - rewrite <- stream_one. by apply flow_push.
Qed.

Lemma run_event_winv e w : winv w -> safe (run_event e w) winv.
Proof.
  intros Hw. destruct e; [by apply client_up_step | by apply client_data_step | by apply client_down_step | by apply up_step
    | by apply socks_up_step | by apply socks_data_step | by apply socks_down_step | by apply down_step].
Qed.
Lemma run_events_winv es : forall w, winv w -> safe (run_events es w) winv.
Proof.
  induction es as [| e es IH]; intros w Hw; [done |]. cbn [run_events].
  eapply safe_bind; [by apply run_event_winv |]. exact IH.
Qed.

(** With nothing on the wire no packet is under way. *)
Lemma flow_quiet b taken out ps : flow b taken out ps -> Forall good_packet ps -> drop taken out = [] -> ps = [].
Proof.
  intros (_ & l & _ & Hw & Heq) Hgood Hq. rewrite Hq, app_nil_r in Heq. destruct ps as [| p ps]; [done |].
  apply Forall_inv in Hgood. exfalso. unfold waiting in Hw.
  unfold stream in Heq. cbn [map concat] in Heq.
  rewrite Heq, (drain_all_got next_packet _ p (concat (map enc ps))) in Hw by (by apply next_enc).
  destruct (drain_all _ _) as [[ms st] r]. simplify_eq.
Qed.

(** C14: The tunnel is transparent while the connection between its two programs
    lasts and no client gets the number of an earlier one (so for up to
    [kMaxConns] clients): whatever the clients and the real server do, in whatever pieces the bytes between the two programs
    arrive, no assertion fails in either program, and what the server receives
    on the connection of a number is a prefix of what the client of that number
    sent, and the other way round: nothing is lost, reordered or given to
    somebody else, and when nothing is on the wire everything has been handed
    on, for the connections that are still up. *)
Theorem mux_demux_transparent es :
  safe (w ← init; run_events es w) (fun w =>
    (forall id e s, Demux.socksConns_ (dmx w) !! id = Some e -> Demux.connection e = Some s ->
       exists x, Demux.conns (dmx w) !! s = Some x /\ sent x `prefix_of` received id (from_client w)
         /\ (up_wire w = [] -> s ∉ gone w -> sent x = received id (from_client w)))
    /\ (forall c x, c <> 0 -> Mux.conns (mux w) !! c = Some x ->
       exists id, context_ x = Some id /\ sent x `prefix_of` received id (from_socks w)
         /\ (down_wire w = [] -> connected x = true -> sent x = received id (from_socks w)))
    /\ (forall c c' x x', c <> 0 -> c' <> 0 -> Mux.conns (mux w) !! c = Some x -> Mux.conns (mux w) !! c' = Some x' ->
       connected x = true -> connected x' = true -> context_ x = context_ x' -> c = c')).
Proof.
  rewrite init_first. rsimp. eapply safe_mono; [apply run_events_winv, init_winv |].
  intros w (ps & qs & seen & open & up & down & [Hm Hd Hrep Hps Hqs Hup Hdn Hci Hsi]).
  unfold up_wire, down_wire.
  rewrite (link_sent_on _ _ (m_link _ _ _ _ _ Hm)), (link_sent_on _ _ (d_link _ _ _ _ _ _ _ Hd)).
  destruct Hm as [_ _ _ _ Hcl Hcs _]. destruct Hd as [_ _ _ _ _ Hent _ _ _].
  split; [| split].
  - intros id e s He Hc. specialize (Hent id e He). unfold entry_ok in Hent. rewrite Hc in Hent.
    destruct Hent as (_ & _ & x & Hx & Hpre & Heq & _). exists x. split; [done |]. split; [done |].
    intros Hq Hs. rewrite (Heq Hs).
    assert (Hnil : map raw ps = []).
    { apply (flow_quiet _ _ _ _ Hup); [| done]. apply Forall_map. eapply Forall_impl; [exact Hps |]. intros p. apply raw_good. }
    rewrite Hnil. symmetry. apply app_nil_r.
  - intros c x Hc Hx. destruct (Hcs c x Hc Hx) as (_ & id & Hctx & _ & Hpre & Hin).
    exists id. split; [done |]. split; [done |]. intros Hq Hcon.
    destruct (Hcl id c (Hin Hcon)) as (_ & _ & y & Hy & _ & _ & Heq). simplify_eq.
    rewrite (flow_quiet _ _ _ _ Hdn Hqs Hq) in Heq. rewrite Heq. symmetry. apply app_nil_r.
  - intros c c' x x' Hc Hc' Hx Hx' H1 H2 Heq.
    destruct (Hcs c x Hc Hx) as (_ & id & Hctx & _ & _ & Hin). destruct (Hcs c' x' Hc' Hx') as (_ & id' & Hctx' & _ & _ & Hin').
    specialize (Hin H1). specialize (Hin' H2). rewrite Hctx, Hctx' in Heq. by simplify_eq.
Qed.

(** ** What goes wrong *)

(** A number is not usable twice: the demultiplexer keeps the entry of a client
    that closed after its server connection had come up, so announcing the
    number again (the multiplexer gives numbers back and reuses them) fails an
    assertion. *)
Theorem reused_number_asserts id peer peer' s d : 1 <= id <= Mux.kMaxConns -> addr_text peer -> addr_text peer' ->
  Demux.serverConn_ d = Some 0 -> s <> 0 -> (exists out, link (Demux.conns d) out) ->
  Demux.socksConns_ d !! id = None -> Demux.conns d !! s = None ->
  safe (d ← Demux.on_packet 0 (Mux.conn_text id peer (bs "UP")) d;
        d ← Demux.onSocksConnection id s (Demux.with_conns (<[s := Conn_new []]>) d);
        d ← Demux.on_packet 0 (Mux.conn_text id peer (bs "DOWN")) d;
        Demux.onSocksConnection id s (Demux.with_conns (conn_shutdown s) d))
    (fun d => Demux.on_packet 0 (Mux.conn_text id peer' (bs "UP")) d = Err AssertFail).
Proof.
  intros Hid Hp Hp' Hsv Hs0 [out Hl] Hno Hs.
  set (e0 := Demux.mkEntry id (snprintf 256 (bs "SocksClient " ++ dec id)) None Buffer_new).
  set (e1 := Demux.with_connection s e0).
  set (d1 := Demux.with_socks (<[id := e0]> (Demux.socksConns_ d)) d).
  set (d2 := Demux.with_socks (<[id := e1]> (Demux.socksConns_ d)) (Demux.with_conns (<[s := Conn_new []]>) d)).
  set (d3 := Demux.with_conns (conn_shutdown s) d2).
  assert (H1 : Demux.on_packet 0 (Mux.conn_text id peer (bs "UP")) d = Ok d1).
  { unfold Demux.on_packet. cbn [Z.eqb negb]. by rewrite (doCommand_up id peer Hid Hp), bool_decide_true. }
  assert (H2 : Demux.onSocksConnection id s (Demux.with_conns (<[s := Conn_new []]>) d1) = Ok d2).
  { unfold Demux.onSocksConnection, Demux.the_entry, get_conn, d1.
    cbn [Demux.socksConns_ Demux.conns Demux.with_conns Demux.with_socks]. rewrite !lookup_insert_eq. rsimp.
    cbn [connected Conn_new]. change (readableBytes _) with 0. cbn [Z.ltb Z.compare].
    unfold Demux.with_socks, Demux.with_conns. cbn [Demux.socksConns_ Demux.conns Demux.serverConn_].
    by rewrite insert_insert_eq. }
  assert (H3 : Demux.on_packet 0 (Mux.conn_text id peer (bs "DOWN")) d2 = Ok d3).
  { unfold Demux.on_packet. cbn [Z.eqb negb]. rewrite (doCommand_down id peer Hid Hp).
    unfold Demux.the_entry, d2. cbn [Demux.socksConns_ Demux.with_socks]. by rewrite lookup_insert_eq. }
  rewrite H1. rsimp. rewrite H2. rsimp. rewrite H3. rsimp. clear H1 H2 H3.
  set (d4 := Demux.with_conns (conn_shutdown s) d3).
  assert (He : Demux.socksConns_ d4 !! id = Some e1) by apply lookup_insert_eq.
  assert (Hc : Demux.conns d4 !! s = Some (mkConn false None [] [])).
  { unfold d4, d3, d2. cbn [Demux.conns Demux.with_conns Demux.with_socks]. unfold conn_shutdown.
    by rewrite !alter_insert_eq, lookup_insert_eq. }
  assert (Hl4 : link (Demux.conns d4) out).
  { unfold d4, d3, d2. cbn [Demux.conns Demux.with_conns Demux.with_socks]. by do 2 (apply link_other; [done |]); apply link_new. }
  unfold Demux.onSocksConnection, Demux.the_entry, get_conn. rewrite He, Hc. rsimp. cbn [connected].
  change (Demux.serverConn_ d4) with (Demux.serverConn_ d). rewrite Hsv.
  set (text := snprintf 256 _).
  assert (Htext : zlen text <= 255) by (unfold text, snprintf, zlen, ztake; rewrite length_take; lia).
  eapply safe_bind; [apply ready_filled; lia |]. intros b Hb.
  destruct (sendServerPacket_ok 0 text b d4 out) as (b' & -> & _); [exact Hsv | done | done | unfold kMaxPacketLen; lia |].
  rsimp. cbn [safe mret res_ret]. unfold Demux.on_packet. cbn [Z.eqb negb]. rewrite (doCommand_up id peer' Hid Hp').
  change (Demux.socksConns_ (emit_packet 0 text d4)) with (Demux.socksConns_ d4). by rewrite He.
Qed.

(** A client of an earlier backend connection that closes after the backend
    came back gives its number back although somebody else has it: the new
    client with that number is forgotten, what comes for it is dropped, and the
    number is handed out again. *)
Definition stale_history : res Mux.MultiplexServer :=
  let up c m := Mux.onClientConnection c (Mux.with_conns (<[c := Conn_new (bs "1.1.1.1:1")]>) m) in
  m ← Mux.onBackendConnection 0 (Mux.with_conns (<[0 := Conn_new []]>) Mux.MultiplexServer_new);
  m ← up 1 m;
  m ← Mux.onBackendConnection 0 (Mux.with_conns (conn_shutdown 0) m);
  m ← Mux.onBackendConnection 10 (Mux.with_conns (<[10 := Conn_new []]>) m);
  m ← up 2 m;
  m ← Mux.onClientConnection 1 (Mux.with_conns (conn_shutdown 1) m);
  buf ← append Buffer_new (enc (1, bs "hello"));
  '(_, m) ← Mux.onBackendMessage buf m;
  mret m.

Theorem stale_client_takes_number :
  match stale_history with
  | Ok m => (x ← Mux.conns m !! 2; Some (connected x, context_ x, sent x)) = Some (true, Some 1, [])
      /\ Mux.clientConns_ m !! 1 = None /\ 1 ∈ Mux.availIds_ m
  | Err _ => False
  end.
Proof. vm_compute. split; [reflexivity |]. split; [reflexivity |]. repeat (constructor || by constructor). Qed.

(** Messages of clients while the backend is down: each leaves its header in the
    client's buffer, in front of what could not be sent, and the third one finds
    no room left. *)
Theorem backend_down_asserts a b c :
  (let message data x := '(buf, m) ← (x : res (Buffer * Mux.MultiplexServer));
                         buf ← append buf [data]; Mux.onClientMessage 1 buf m in
   m ← Mux.onBackendConnection 0 (Mux.with_conns (fun _ => {[0 := Conn_new []]}) Mux.MultiplexServer_new);
   m ← Mux.onClientConnection 1 (Mux.with_conns (<[1 := Conn_new (bs "1.1.1.1:1")]>) m);
   m ← Mux.onBackendConnection 0 (Mux.with_conns (conn_shutdown 0) m);
   message c (message b (message a (mret (Buffer_new, m)))))
  = Err AssertFail.
Proof. vm_compute. reflexivity. Qed.

(** ** Examples *)

(** A client sends "hello" while the server connection comes up, the server
    answers. *)
Definition demo_events : list event :=
  [EvClientUp 5 (bs "10.0.0.1:4000"); EvClientData 5 (bs "hel"); EvUp 37; EvClientData 5 (bs "lo"); EvUp 3;
   EvSocksUp 1 7; EvUp 100; EvSocksData 1 (bs "HTTP"); EvDown 2; EvDown 100].
Example demo_tunnel :
  match (w ← init; run_events demo_events w) with
  | Ok w => sent_on 7 (Demux.conns (dmx w)) = bs "hello" /\ sent_on 5 (Mux.conns (mux w)) = bs "HTTP"
      /\ up_wire w = [] /\ down_wire w = []
  | Err _ => False
  end.
Proof. vm_compute. repeat split. Qed.

Lemma reused_number_asserts_witness :
  safe (d ← Demux.on_packet 0 (Mux.conn_text 1 (bs "1.1.1.1:1") (bs "UP"))
              (Demux.mkDemux (Some 0) ∅ {[0 := Conn_new []]});
        d ← Demux.onSocksConnection 1 7 (Demux.with_conns (<[7 := Conn_new []]>) d);
        d ← Demux.on_packet 0 (Mux.conn_text 1 (bs "1.1.1.1:1") (bs "DOWN")) d;
        Demux.onSocksConnection 1 7 (Demux.with_conns (conn_shutdown 7) d))
    (fun d => Demux.on_packet 0 (Mux.conn_text 1 (bs "2.2.2.2:2") (bs "UP")) d = Err AssertFail).
Proof.
  apply reused_number_asserts.
  - done.
  - split; [by_evaluation | vm_compute; discriminate].
  - split; [by_evaluation | vm_compute; discriminate].
  - reflexivity.
  - done.
  - exists []. by exists (Conn_new []).
  - reflexivity.
  - reflexivity.
Defined.
