(* ===== verification/SimpleMux.v ===== *)
(** * SimpleMux: the multiplexer with one thread

    [examples/multiplexer/multiplexer_simple.cc] is the multiplexer without
    locks and statistics; it obeys one command of the backend, [DISCONNECT],
    that [multiplexer.cc] ignores.  The two are compared as implementations of
    one interface, [Multiplexing]: on every history in which the backend gives no
    command they do the same; and the command, as the demultiplexer sends it,
    closes the client it names here and nothing there. *)
From S2P Require Import Prelude Buffer Format Framing Multiplexer MuxDemux.

(** ** Module Simple: multiplexer_simple.cc *)

Module Simple.

(*@ muduo/examples/multiplexer/multiplexer_simple.cc 19-19 kMaxConns *)
Definition kMaxConns : Z := 10.

(*@ muduo/examples/multiplexer/multiplexer_simple.cc 249-256 MultiplexServer *)
Record MultiplexServer : Type := mkSimple {
  backendConn_ : option Z;
  clientConns_ : gmap Z Z;
  availIds_ : list Z;
  conns : conn_store
}.
Definition with_conns (f : conn_store -> conn_store) (m : MultiplexServer) : MultiplexServer :=
  mkSimple (backendConn_ m) (clientConns_ m) (availIds_ m) (f (conns m)).
Definition with_clients (cs : gmap Z Z) (m : MultiplexServer) : MultiplexServer :=
  mkSimple (backendConn_ m) cs (availIds_ m) (conns m).
Definition with_avail (ids : list Z) (m : MultiplexServer) : MultiplexServer :=
  mkSimple (backendConn_ m) (clientConns_ m) ids (conns m).
Definition with_backend (b : option Z) (m : MultiplexServer) : MultiplexServer :=
  mkSimple b (clientConns_ m) (availIds_ m) (conns m).

Definition MultiplexServer_new : MultiplexServer := mkSimple None ∅ [] ∅.

(*@ muduo/examples/multiplexer/multiplexer_simple.cc 146-161 MultiplexServer::sendBackendPacket *)
Definition sendBackendPacket (id : Z) (buf : Buffer) (m : MultiplexServer) : res (Buffer * MultiplexServer) :=
  let len := readableBytes buf in
  assert_ (len <=? kMaxPacketLen);;
  buf ← prepend buf (packet_header len id);
  match backendConn_ m with
  | Some conn =>
      '(buf, s) ← conn_send_buffer conn buf (conns m);
      mret (buf, with_conns (fun _ => s) m)
  | None => mret (buf, m)
  end.

(*@ muduo/examples/multiplexer/multiplexer_simple.cc 109-115 MultiplexServer::sendBackendString *)
Definition sendBackendString (id : Z) (msg : list byte) (m : MultiplexServer) : res MultiplexServer :=
  assert_ (zlen msg <=? kMaxPacketLen);;
  buf ← append Buffer_new msg;
  '(_, m) ← sendBackendPacket id buf m;
  mret m.

(*@ muduo/examples/multiplexer/multiplexer_simple.cc 131-144 MultiplexServer::sendBackendBuffer *)
Definition sendBackendBuffer (id : Z) (buf : Buffer) (m : MultiplexServer) : res (Buffer * MultiplexServer) :=
  send_pieces (sendBackendPacket id) buf m.

Definition kDisconnectCmd : list byte := bs "DISCONNECT ".

(** The guard of [doCommand]: a command longer than the name of the only one,
    and beginning with it. *)
Definition is_disconnect (cmd : list byte) : bool :=
  (zlen kDisconnectCmd <? zlen cmd) && starts_with kDisconnectCmd cmd.

(*@ muduo/examples/multiplexer/multiplexer_simple.cc 233-247 MultiplexServer::doCommand *)
Definition doCommand (cmd : list byte) (m : MultiplexServer) : MultiplexServer :=
  if is_disconnect cmd
  then
    let connId := atoi (zdrop (zlen kDisconnectCmd) cmd) in
    match clientConns_ m !! connId with
    | Some conn => with_conns (conn_shutdown conn) m
    | None => m
    end
  else m.

Definition on_packet (id : Z) (data : list byte) (m : MultiplexServer) : res MultiplexServer :=
  mret (if negb (id =? 0)
        then match clientConns_ m !! id with
             | Some conn => with_conns (conn_send conn data) m
             | None => m
             end
        else doCommand data m).

(*@ muduo/examples/multiplexer/multiplexer_simple.cc 200-231 MultiplexServer::sendToClient *)
Definition sendToClient (buf : Buffer) (m : MultiplexServer) : res (Buffer * MultiplexServer) :=
  packet_loop on_packet (S (Z.to_nat (readableBytes buf))) buf m.

Definition conn_text (id : Z) (peer status : list byte) : list byte :=
  snprintf 256 (bs "CONN " ++ dec id ++ bs " FROM " ++ peer ++ bs " IS " ++ status ++ kCRLF).

(*@ muduo/examples/multiplexer/multiplexer_simple.cc 54-107 MultiplexServer::onClientConnection *)
Definition onClientConnection (conn : Z) (m : MultiplexServer) : res MultiplexServer :=
  x ← get_conn conn (conns m);
  if connected x
  then
    let '(id, m) := match availIds_ m with
                    | front :: rest => (front, with_clients (<[front := conn]> (clientConns_ m)) (with_avail rest m))
                    | [] => (-1, m)
                    end in
    if id <=? 0 then mret (with_conns (conn_shutdown conn) m)
    else sendBackendString 0 (conn_text id (peer_ x) (bs "UP")) (with_conns (conn_context conn id) m)
  else
    match context_ x with
    | Some id =>
        assert_ ((0 <? id) && (id <=? kMaxConns));;
        m ← sendBackendString 0 (conn_text id (peer_ x) (bs "DOWN")) m;
        match backendConn_ m with
        | Some _ => mret (with_clients (delete id (clientConns_ m)) (with_avail (availIds_ m ++ [id]) m))
        | None =>
            assert_ (bool_decide (availIds_ m = []));;
            assert_ (bool_decide (clientConns_ m = ∅));;
            mret m
        end
    | None => mret m
    end.

(*@ muduo/examples/multiplexer/multiplexer_simple.cc 117-129 MultiplexServer::onClientMessage *)
Definition onClientMessage (conn : Z) (buf : Buffer) (m : MultiplexServer) : res (Buffer * MultiplexServer) :=
  x ← get_conn conn (conns m);
  match context_ x with
  | Some id => sendBackendBuffer id buf m
  | None => mret (retrieveAll buf, m)
  end.

(** [push_ids i n]: [for (int i = 1; i <= kMaxConns; ++i) availIds_.push(i)],
    [n] turns from [i] on. *)
Fixpoint push_ids (i : Z) (n : nat) (ids : list Z) : list Z :=
  match n with O => ids | S n => push_ids (i + 1) n (ids ++ [i]) end.

(*@ muduo/examples/multiplexer/multiplexer_simple.cc 163-193 MultiplexServer::onBackendConnection *)
Definition onBackendConnection (conn : Z) (m : MultiplexServer) : res MultiplexServer :=
  x ← get_conn conn (conns m);
  if connected x
  then
    let m := with_backend (Some conn) m in
    assert_ (bool_decide (availIds_ m = []));;
    mret (with_avail (push_ids 1 (Z.to_nat kMaxConns) (availIds_ m)) m)
  else
    let m := with_backend None m in
    let m := with_conns (fun s => fold_left (fun s c => conn_shutdown c s) ((map_to_list (clientConns_ m)).*2) s) m in
    mret (with_avail [] (with_clients ∅ m)).

(*@ muduo/examples/multiplexer/multiplexer_simple.cc 195-198 MultiplexServer::onBackendMessage *)
Definition onBackendMessage (buf : Buffer) (m : MultiplexServer) : res (Buffer * MultiplexServer) :=
  sendToClient buf m.
End Simple.

(** ** What both programs are *)

Class Multiplexing (M : Type) := {
  fresh_server : M;
  the_conns : M -> conn_store;
  set_conns : (conn_store -> conn_store) -> M -> M;
  client_connection : Z -> M -> res M;
  client_message : Z -> Buffer -> M -> res (Buffer * M);
  backend_connection : Z -> M -> res M;
  backend_message : Buffer -> M -> res (Buffer * M)
}.

#[export] Instance simple_multiplexing : Multiplexing Simple.MultiplexServer := {
  fresh_server := Simple.MultiplexServer_new;
  the_conns := Simple.conns;
  set_conns := Simple.with_conns;
  client_connection := Simple.onClientConnection;
  client_message := Simple.onClientMessage;
  backend_connection := Simple.onBackendConnection;
  backend_message := Simple.onBackendMessage
}.
#[export] Instance threaded_multiplexing : Multiplexing Mux.MultiplexServer := {
  fresh_server := Mux.MultiplexServer_new;
  the_conns := Mux.conns;
  set_conns := Mux.with_conns;
  client_connection := Mux.onClientConnection;
  client_message := Mux.onClientMessage;
  backend_connection := Mux.onBackendConnection;
  backend_message := Mux.onBackendMessage
}.

(** A history: any connections come up, in any order, send and go down. *)
Inductive mevent : Type :=
| ClientUp (c : Z) (peer : list byte)
| ClientData (c : Z) (data : list byte)
| ClientDown (c : Z)
| BackendUp (c : Z)
| BackendData (c : Z) (data : list byte)
| BackendDown (c : Z).

Section runs.
Context {M : Type} `{!Multiplexing M}.

(** The server and the input buffers of its connections. *)
Record node : Type := mkNode { server : M; c_ins : gmap Z Buffer; b_ins : gmap Z Buffer }.

Definition mstep (e : mevent) (w : node) : res node :=
  let m := server w in
  match e with
  | ClientUp c peer =>
      m ← client_connection c (set_conns <[c := Conn_new peer]> m);
      mret (mkNode m (<[c := Buffer_new]> (c_ins w)) (b_ins w))
  | ClientData c data =>
      buf ← append (default Buffer_new (c_ins w !! c)) data;
      '(buf, m) ← client_message c buf m;
      mret (mkNode m (<[c := buf]> (c_ins w)) (b_ins w))
  | ClientDown c =>
      m ← client_connection c (set_conns (conn_shutdown c) m);
      mret (mkNode m (c_ins w) (b_ins w))
  | BackendUp c =>
      m ← backend_connection c (set_conns <[c := Conn_new []]> m);
      mret (mkNode m (c_ins w) (<[c := Buffer_new]> (b_ins w)))
  | BackendData c data =>
      buf ← append (default Buffer_new (b_ins w !! c)) data;
      '(buf, m) ← backend_message buf m;
      mret (mkNode m (c_ins w) (<[c := buf]> (b_ins w)))
  | BackendDown c =>
      m ← backend_connection c (set_conns (conn_shutdown c) m);
      mret (mkNode m (c_ins w) (b_ins w))
  end.

Fixpoint mrun (es : list mevent) (w : node) : res node :=
  match es with [] => mret w | e :: es => w ← mstep e w; mrun es w end.
Definition history (es : list mevent) : res node := mrun es (mkNode fresh_server ∅ ∅).
End runs.
Arguments node : clear implicits.
Arguments history M {_} es.

(** No backend gives the command: [ins] holds what is unread of the stream of
    each, and every packet is one for a client, or for number 0 and something
    else.  Pieces are shorter than 2^62 bytes. *)
Definition is_command (p : packet) : bool := (p.1 =? 0) && Simple.is_disconnect p.2.
Fixpoint no_command (ins : gmap Z (list byte)) (es : list mevent) : bool :=
  match es with
  | [] => true
  | BackendUp c :: es => no_command (<[c := []]> ins) es
  | BackendData c data :: es =>
      let '(ps, _, r) := drain_all next_packet (default [] (ins !! c) ++ data) in
      (zlen data <? 2 ^ 62) && forallb (fun p => negb (is_command p)) ps && no_command (<[c := r]> ins) es
  | _ :: es => no_command ins es
  end.

(** ** They do the same *)

(** The state without the statistics. *)
Definition erase (m : Mux.MultiplexServer) : Simple.MultiplexServer :=
  Simple.mkSimple (Mux.backendConn_ m) (Mux.clientConns_ m) (Mux.availIds_ m) (Mux.conns m).
Definition erase_node (w : node Mux.MultiplexServer) : node Simple.MultiplexServer :=
  mkNode (erase (server w)) (c_ins w) (b_ins w).

Definition erased (r : Buffer * Mux.MultiplexServer) : Buffer * Simple.MultiplexServer := (r.1, erase r.2).

Lemma erase_packet id buf m :
  Simple.sendBackendPacket id buf (erase m) = erased <$> Mux.sendBackendPacket id buf m.
Proof.
  unfold Simple.sendBackendPacket, Mux.sendBackendPacket. cbn [erase Simple.backendConn_ Simple.conns].
  destruct (assert_ _); [| done]. rsimp. destruct (prepend _ _) as [b |]; [| done]. rsimp.
  destruct (Mux.backendConn_ m); [| done]. by destruct (conn_send_buffer _ _ _) as [[b' s] |].
Qed.

Lemma erase_string id msg m :
  Simple.sendBackendString id msg (erase m) = erase <$> Mux.sendBackendString id msg m.
Proof.
  unfold Simple.sendBackendString, Mux.sendBackendString.
  destruct (assert_ _); [| done]. rsimp. destruct (append _ _) as [b |]; [| done]. rsimp.
  rewrite erase_packet. by destruct (Mux.sendBackendPacket _ _ _) as [[b' m'] |].
Qed.

Lemma erase_pieces id fuel : forall buf m,
  pieces_loop (Simple.sendBackendPacket id) fuel buf (erase m)
  = erased <$> pieces_loop (Mux.sendBackendPacket id) fuel buf m.
Proof.
  induction fuel as [| fuel IH]; intros buf m; cbn [pieces_loop]; [done |].
  destruct (_ <? _); [| done]. destruct (mem_read _ _ _); [| done]. rsimp.
  destruct (append _ _) as [p |]; [| done]. rsimp. destruct (retrieve _ _) as [b |]; [| done]. rsimp.
  rewrite erase_packet. destruct (Mux.sendBackendPacket _ _ _) as [[p' m'] |]; [| done]. apply IH.
Qed.

Lemma erase_connection c m :
  Simple.onClientConnection c (erase m) = erase <$> Mux.onClientConnection c m.
Proof.
  unfold Simple.onClientConnection, Mux.onClientConnection. cbn [erase Simple.conns].
  destruct (get_conn _ _) as [x |]; [| done]. rsimp. destruct (connected x).
  - cbn [erase Simple.availIds_]. destruct (Mux.availIds_ m) as [| id ids]; [done |].
    destruct (_ <=? 0); [done |]. change (Simple.conn_text id) with (Mux.conn_text id).
    exact (erase_string _ _ (Mux.with_conns (conn_context c id) (Mux.with_ids _ ids m))).
  - destruct (context_ x) as [id |]; [| done].
    change (Simple.kMaxConns) with (Mux.kMaxConns). change (Simple.conn_text id) with (Mux.conn_text id).
    destruct (assert_ _); [| done]. rsimp. rewrite erase_string.
    destruct (Mux.sendBackendString _ _ _) as [m' |]; [| done]. rsimp. cbn [erase Simple.backendConn_].
    destruct (Mux.backendConn_ m'); [done |]. cbn [erase Simple.availIds_ Simple.clientConns_].
    destruct (decide (Mux.availIds_ m' = [])); [| by rewrite !(bool_decide_false (_ = [])) by done].
    rewrite !(bool_decide_true (_ = [])) by done. cbn [assert_]. rsimp.
    by destruct (decide (Mux.clientConns_ m' = ∅)); [rewrite !bool_decide_true | rewrite !bool_decide_false].
Qed.

Lemma erase_message c buf m :
  Simple.onClientMessage c buf (erase m) = erased <$> Mux.onClientMessage c buf m.
Proof.
  unfold Simple.onClientMessage, Mux.onClientMessage. cbn [erase Simple.conns Mux.conns Mux.counted].
  destruct (get_conn _ _) as [x |]; [| done]. rsimp. destruct (context_ x) as [id |]; [| done].
  unfold Simple.sendBackendBuffer, Mux.sendBackendBuffer, send_pieces.
  change (erase m) with (erase (Mux.counted (readableBytes buf) m)). rewrite erase_pieces.
  destruct (pieces_loop _ _ _ _) as [[b m'] |]; [| done]. rsimp. unfold erased at 1. cbn [fst snd].
  destruct (0 <? _); [apply erase_packet | done].
Qed.

Lemma erase_backend c m :
  Simple.onBackendConnection c (erase m) = erase <$> Mux.onBackendConnection c m.
Proof.
  unfold Simple.onBackendConnection, Mux.onBackendConnection. cbn [erase Simple.conns].
  destruct (get_conn _ _) as [x |]; [| done]. rsimp. destruct (connected x); [| done].
  cbn [Simple.with_backend Simple.availIds_ erase Mux.with_backend Mux.availIds_].
  destruct (decide (Mux.availIds_ m = [])) as [E | E].
  - rewrite E. done.
  - by rewrite bool_decide_false.
Qed.

(** *** The numbers of the clients *)

(** Clients have numbers from 1 on; 0 is nobody's. *)
Definition client_number (id : Z) : Prop := 0 < id <= Simple.kMaxConns.
Definition numbered (m : Simple.MultiplexServer) : Prop :=
  map_Forall (fun id _ => client_number id) (Simple.clientConns_ m) /\ Forall client_number (Simple.availIds_ m).
Lemma number_0 m : numbered m -> Simple.clientConns_ m !! 0 = None.
Proof. intros [H _]. destruct (_ !! 0) eqn:E; [| done]. apply H in E as [E _]. lia. Qed.

Definition numbers (m : Simple.MultiplexServer) : gmap Z Z * list Z := (Simple.clientConns_ m, Simple.availIds_ m).
Lemma numbered_same m m' : numbers m' = numbers m -> numbered m -> numbered m'.
Proof. unfold numbered. by intros [= -> ->]. Qed.

Lemma packet_numbers id buf m r : Simple.sendBackendPacket id buf m = Ok r -> numbers r.2 = numbers m.
Proof.
  unfold Simple.sendBackendPacket. destruct (assert_ _); [| done]. rsimp.
  destruct (prepend _ _) as [b |]; [| done]. rsimp. destruct (Simple.backendConn_ m); [| by intros [= <-]].
  destruct (conn_send_buffer _ _ _) as [[b' s] |]; [| done]. by intros [= <-].
Qed.
Lemma string_numbers id msg m m' : Simple.sendBackendString id msg m = Ok m' -> numbers m' = numbers m.
Proof.
  unfold Simple.sendBackendString. destruct (assert_ _); [| done]. rsimp.
  destruct (append _ _) as [b |]; [| done]. rsimp.
  destruct (Simple.sendBackendPacket _ _ _) as [[b' m1] |] eqn:E; [| done]. intros [= <-].
  exact (packet_numbers _ _ _ _ E).
Qed.
Lemma pieces_numbers id fuel : forall buf m r,
  pieces_loop (Simple.sendBackendPacket id) fuel buf m = Ok r -> numbers r.2 = numbers m.
Proof.
  induction fuel as [| fuel IH]; intros buf m r; cbn [pieces_loop]; [done |].
  destruct (_ <? _); [| by intros [= <-]]. destruct (mem_read _ _ _); [| done]. rsimp.
  destruct (append _ _) as [p |]; [| done]. rsimp. destruct (retrieve _ _) as [b |]; [| done]. rsimp.
  destruct (Simple.sendBackendPacket _ _ _) as [[p' m'] |] eqn:E; [| done]. rsimp.
  intros H. rewrite (IH _ _ _ H). exact (packet_numbers _ _ _ _ E).
Qed.
Lemma message_numbers c buf m r : Simple.onClientMessage c buf m = Ok r -> numbers r.2 = numbers m.
Proof.
  unfold Simple.onClientMessage. destruct (get_conn _ _) as [x |]; [| done]. rsimp.
  destruct (context_ x) as [id |]; [| by intros [= <-]]. unfold Simple.sendBackendBuffer, send_pieces.
  destruct (pieces_loop _ _ _ _) as [[b m'] |] eqn:E; [| done]. apply pieces_numbers in E. cbn [snd] in E. rsimp.
  rewrite <- E. destruct (0 <? _); [apply packet_numbers | by intros [= <-]].
Qed.
Lemma packets_numbers ps : forall m m', handle_all Simple.on_packet ps m = Ok m' -> numbers m' = numbers m.
Proof.
  induction ps as [| [id d] ps IH]; intros m m'; cbn [handle_all fst snd]; [by intros [= <-] |].
  unfold Simple.on_packet at 1. rsimp. intros H. rewrite (IH _ _ H). clear.
  unfold Simple.doCommand. destruct (negb _); [by destruct (Simple.clientConns_ m !! id) |].
  destruct (Simple.is_disconnect d); [| done]. by destruct (Simple.clientConns_ m !! _).
Qed.

Lemma connection_numbered c m m' : numbered m -> Simple.onClientConnection c m = Ok m' -> numbered m'.
Proof.
  intros [H0 Ha]. unfold Simple.onClientConnection. destruct (get_conn _ _) as [x |]; [| done]. rsimp.
  destruct (connected x).
  - destruct (Simple.availIds_ m) as [| id ids] eqn:E; cbn [Z.leb Z.compare].
    + intros [= <-]. split; [done |]. cbn. by rewrite E.
    + apply Forall_cons in Ha as [Hid Hids]. rewrite (proj2 (Z.leb_gt _ _)) by apply Hid.
      intros H%string_numbers. apply (numbered_same _ _ H). split; [| done].
      by apply map_Forall_insert_2.
  - destruct (context_ x) as [id |]; [| by intros [= <-]].
    destruct (assert_ _) eqn:Eid; [| done]. rsimp.
    assert (Hid : client_number id).
    { unfold assert_ in Eid. destruct (_ && _) eqn:E; [| done]. unfold client_number. lia. }
    destruct (Simple.sendBackendString _ _ _) as [m1 |] eqn:E; [| done]. rsimp.
    apply string_numbers in E. pose proof (numbered_same _ _ E (conj H0 Ha)) as [H1 H2].
    destruct (Simple.backendConn_ m1).
    + intros [= <-]. split; [by apply map_Forall_delete |].
      apply Forall_app. split; [done |]. by constructor.
    + clear Eid. destruct (assert_ (bool_decide (Simple.availIds_ _ = []))); [| done]. rsimp.
      destruct (assert_ _); [| done]. rsimp. intros [= <-]. by split.
Qed.

Lemma backend_numbered c m m' : numbered m -> Simple.onBackendConnection c m = Ok m' -> numbered m'.
Proof.
  intros [H0 Ha]. unfold Simple.onBackendConnection. destruct (get_conn _ _) as [x |]; [| done]. rsimp.
  destruct (connected x).
  - cbn [Simple.with_backend Simple.availIds_]. destruct (decide (Simple.availIds_ m = [])) as [E |];
      [| by rewrite bool_decide_false].
    rewrite E, bool_decide_true by done. cbn [assert_]. rsimp. intros [= <-]. split; [done |]. cbn.
    unfold client_number, Simple.kMaxConns. repeat constructor; lia.
  - intros [= <-]. split; [apply map_Forall_empty | constructor].
Qed.

(** *** Runs *)

Lemma packets_never_stop fuel : forall l ps s r, drain next_packet fuel l = (ps, s, r) -> s = false.
Proof.
  induction fuel as [| fuel IH]; intros l ps s r; cbn [drain]; [by intros [= <- <- <-] |].
  destruct (next_packet l) as [| | m rest] eqn:E; [by intros [= <- <- <-] | by apply next_packet_valid in E |].
  destruct (drain _ fuel rest) as [[ms1 s1] r1] eqn:Ed. intros [= <- <- <-]. exact (IH _ _ _ _ Ed).
Qed.

Lemma erase_to_client id d m : numbered (erase m) -> is_command (id, d) = false ->
  exists m1, Mux.to_client id d m = Ok m1 /\ Simple.on_packet id d (erase m) = Ok (erase m1) /\ numbered (erase m1).
Proof.
  intros Hm Hc. unfold Simple.on_packet, Mux.to_client. pose proof (number_0 _ Hm) as H0.
  cbn [erase Simple.clientConns_] in *. unfold is_command in Hc. cbn [fst snd] in Hc.
  eexists. split; [reflexivity |]. destruct (Z.eqb_spec id 0) as [-> | Hid]; cbn [negb andb] in *.
  - unfold Simple.doCommand. by rewrite Hc, H0.
  - by destruct (Mux.clientConns_ m !! id).
Qed.

Lemma erase_packets ps : forall m, numbered (erase m) -> forallb (fun p => negb (is_command p)) ps = true ->
  handle_all Simple.on_packet ps (erase m) = erase <$> handle_all Mux.to_client ps m.
Proof.
  induction ps as [| [id d] ps IH]; intros m Hm H; cbn [handle_all forallb fst snd] in *; [done |].
  apply andb_prop in H as [Hc%negb_true_iff H].
  destruct (erase_to_client id d m Hm Hc) as (m1 & -> & -> & Hm1). by apply IH.
Qed.

Lemma erase_backend_message l buf ps s r m : ready l buf -> drain_all next_packet l = (ps, s, r) ->
  numbered (erase m) -> forallb (fun p => negb (is_command p)) ps = true ->
  Simple.onBackendMessage buf (erase m) = erased <$> Mux.onBackendMessage buf m
  /\ forall b' m', Simple.onBackendMessage buf (erase m) = Ok (b', m') -> ready r b' /\ numbered m'.
Proof.
  intros Hb Hd Hm Hps. pose proof (packets_never_stop _ _ _ _ _ Hd) as ->. unfold drain_all in Hd.
  destruct (packet_loop_ok (S (length l)) l buf ps r Hb ltac:(lia) Hd) as (b1 & Hb1 & Hrun).
  unfold Simple.onBackendMessage, Mux.onBackendMessage, Simple.sendToClient, Mux.sendToClient.
  rewrite (ready_readable _ _ Hb).
  replace (S (Z.to_nat (zlen l))) with (S (length l)) by (unfold zlen; lia).
  rewrite !Hrun. change (erase m) with (erase (Mux.counted (zlen l) m)). rewrite erase_packets by done.
  split.
  - by destruct (handle_all Mux.to_client ps _).
  - intros b' m'. rewrite <- erase_packets by done.
    destruct (handle_all Simple.on_packet ps _) as [m1 |] eqn:E; [| done]. intros [= <- <-].
    split; [done |]. by apply (numbered_same _ _ (packets_numbers _ _ _ E)).
Qed.

Definition buffered (ins : gmap Z (list byte)) (bs : gmap Z Buffer) : Prop :=
  forall c, ready (default [] (ins !! c)) (default Buffer_new (bs !! c)).
Lemma buffered_insert ins bs c l b : buffered ins bs -> ready l b -> buffered (<[c := l]> ins) (<[c := b]> bs).
Proof.
  intros H Hb c'. destruct (decide (c = c')) as [<- |]; [by rewrite !lookup_insert_eq |].
  rewrite !lookup_insert_ne by done. apply H.
Qed.

Lemma client_same c f m :
  Simple.onClientConnection c (Simple.with_conns f (erase m)) = erase <$> Mux.onClientConnection c (Mux.with_conns f m).
Proof. apply (erase_connection c (Mux.with_conns f m)). Qed.
Lemma backend_same c f m :
  Simple.onBackendConnection c (Simple.with_conns f (erase m)) = erase <$> Mux.onBackendConnection c (Mux.with_conns f m).
Proof. apply (erase_backend c (Mux.with_conns f m)). Qed.

(** What happens in one step, when what arrives holds no command. *)
Lemma erase_step e w ins : no_command ins [e] = true -> buffered ins (b_ins w) -> numbered (erase (server w)) ->
  mstep e (erase_node w) = erase_node <$> mstep e w
  /\ forall w', mstep e w = Ok w' -> numbered (erase (server w'))
       /\ exists ins', buffered ins' (b_ins w') /\ forall es, no_command ins (e :: es) = true -> no_command ins' es = true.
Proof.
  destruct w as [m cs bs]. intros Hq Hb Hm. cbn [server b_ins] in *.
  destruct e as [c peer | c data | c | c | c data | c]; cbn [no_command mstep erase_node server c_ins b_ins] in *;
    cbn [client_connection client_message backend_connection backend_message set_conns
           simple_multiplexing threaded_multiplexing].
  - rewrite client_same. pose proof (connection_numbered c (Simple.with_conns <[c := Conn_new peer]> (erase m))) as Hn.
    rewrite client_same in Hn. destruct (Mux.onClientConnection _ _) as [m' |]; [| done].
    split; [done |]. intros w' [= <-]. split; [by apply Hn | by exists ins].
  - destruct (append _ _) as [b |]; [| done]. rsimp. pose proof (message_numbers c b (erase m)) as Hn.
    rewrite erase_message in *. destruct (Mux.onClientMessage c b m) as [[b' m'] |]; [| done].
    split; [done |]. intros w' [= <-]. split; [exact (numbered_same _ _ (Hn _ eq_refl) Hm) | by exists ins].
  - rewrite client_same. pose proof (connection_numbered c (Simple.with_conns (conn_shutdown c) (erase m))) as Hn.
    rewrite client_same in Hn. destruct (Mux.onClientConnection _ _) as [m' |]; [| done].
    split; [done |]. intros w' [= <-]. split; [by apply Hn | by exists ins].
  - rewrite backend_same. pose proof (backend_numbered c (Simple.with_conns <[c := Conn_new []]> (erase m))) as Hn.
    rewrite backend_same in Hn. destruct (Mux.onBackendConnection _ _) as [m' |]; [| done].
    split; [done |]. intros w' [= <-]. split; [by apply Hn | exists (<[c := []]> ins)].
    split; [apply buffered_insert, ready_new; done | done].
  - destruct (drain_all next_packet _) as [[ps s] r] eqn:Ed.
    apply andb_prop in Hq as [Hq _]. apply andb_prop in Hq as [Hs%Z.ltb_lt Hps].
    pose proof (ready_append _ _ data (Hb c) Hs) as Ha. destruct (append _ _) as [b |]; [| done]. rsimp.
    destruct (erase_backend_message _ b ps s r m Ha Ed Hm Hps) as [He Hkeep].
    rewrite He in *. destruct (Mux.onBackendMessage b m) as [[b' m'] |]; [| done].
    split; [done |]. intros w' [= <-]. destruct (Hkeep b' (erase m') eq_refl) as [Hr Hn].
    split; [done |]. exists (<[c := r]> ins). split; [by apply buffered_insert |]. intros es [_ H]%andb_prop. exact H.
  - rewrite backend_same. pose proof (backend_numbered c (Simple.with_conns (conn_shutdown c) (erase m))) as Hn.
    rewrite backend_same in Hn. destruct (Mux.onBackendConnection _ _) as [m' |]; [| done].
    split; [done |]. intros w' [= <-]. split; [by apply Hn | by exists ins].
Qed.

Lemma no_command_first ins e es : no_command ins (e :: es) = true -> no_command ins [e] = true.
Proof.
  destruct e as [| | | | c data |]; cbn [no_command]; try done. destruct (drain_all _ _) as [[ps s] r].
  intros [-> _]%andb_prop. done.
Qed.

Lemma erase_run es : forall ins w, no_command ins es = true -> buffered ins (b_ins w) -> numbered (erase (server w)) ->
  mrun es (erase_node w) = erase_node <$> mrun es w.
Proof.
  induction es as [| e es IH]; intros ins w Hq Hb Hm; cbn [mrun]; [done |].
  destruct (erase_step e w ins (no_command_first _ _ _ Hq) Hb Hm) as [-> Hkeep].
  destruct (mstep e w) as [w' |]; [| done]. rsimp.
  destruct (Hkeep w' eq_refl) as (Hm' & ins' & Hb' & Hq'). apply (IH ins'); [by apply Hq' | done | done].
Qed.

(** C29: While no backend gives the command, the two programs do the same on
    every history, whatever goes up, down and through them in which pieces:
    they fail together, in the same way, and otherwise have sent the same
    bytes on every connection, closed the same ones and given out the same
    numbers. *)
Theorem simple_is_threaded es : no_command ∅ es = true ->
  history Simple.MultiplexServer es = erase_node <$> history Mux.MultiplexServer es.
Proof.
  intros H. apply (erase_run es ∅ (mkNode Mux.MultiplexServer_new ∅ ∅) H).
  - intros c. apply ready_new.
  - split; [apply map_Forall_empty | constructor].
Qed.

(** ** The command *)

Definition small_piece (e : mevent) : Prop :=
  match e with BackendData _ data => zlen data < 2 ^ 62 | _ => True end.

(** What the handlers of a multiplexer keep, commands or not. *)
Class Keeps {M} `{!Multiplexing M} (inv : M -> Prop) : Prop := {
  keeps_fresh : inv fresh_server;
  keeps_conns f m : inv m -> inv (set_conns f m);
  keeps_client c m m' : inv m -> client_connection c m = Ok m' -> inv m';
  keeps_client_data c b m r : inv m -> client_message c b m = Ok r -> inv r.2;
  keeps_backend c m m' : inv m -> backend_connection c m = Ok m' -> inv m';
  keeps_backend_data l b m r : inv m -> ready l b -> backend_message b m = Ok r ->
    inv r.2 /\ exists l', ready l' r.1
}.

Section reach.
Context {M : Type} `{!Multiplexing M} (inv : M -> Prop) {Hinv : Keeps inv}.

Definition node_ok (w : node M) : Prop := inv (server w) /\ exists ins, buffered ins (b_ins w).

Lemma node_step e w w' : small_piece e -> node_ok w -> mstep e w = Ok w' -> node_ok w'.
Proof using Hinv.
  destruct w as [m cs bs]. intros Hs [Hm [ins Hb]]. cbn [server b_ins] in *.
  destruct e as [c peer | c data | c | c | c data | c]; cbn [mstep server c_ins b_ins small_piece] in *.
  - destruct (client_connection _ _) as [m' |] eqn:E; [| done]. intros [= <-].
    split; [by eapply keeps_client, E; apply keeps_conns | by exists ins].
  - destruct (append _ _) as [b |]; [| done]. rsimp.
    destruct (client_message _ _ _) as [[b' m'] |] eqn:E; [| done]. intros [= <-].
    split; [exact (keeps_client_data _ _ _ _ Hm E) | by exists ins].
  - destruct (client_connection _ _) as [m' |] eqn:E; [| done]. intros [= <-].
    split; [by eapply keeps_client, E; apply keeps_conns | by exists ins].
  - destruct (backend_connection _ _) as [m' |] eqn:E; [| done]. intros [= <-].
    split; [by eapply keeps_backend, E; apply keeps_conns |].
    exists (<[c := []]> ins). by apply buffered_insert, ready_new.
  - pose proof (ready_append _ _ data (Hb c) Hs) as Ha. destruct (append _ _) as [b |]; [| done]. rsimp.
    destruct (backend_message _ _) as [[b' m'] |] eqn:E; [| done]. intros [= <-].
    destruct (keeps_backend_data _ _ _ _ Hm Ha E) as (? & l' & Hl). split; [done |].
    exists (<[c := l']> ins). by apply buffered_insert.
  - destruct (backend_connection _ _) as [m' |] eqn:E; [| done]. intros [= <-].
    split; [by eapply keeps_backend, E; apply keeps_conns | by exists ins].
Qed.

Lemma node_run es : forall w w', Forall small_piece es -> node_ok w -> mrun es w = Ok w' -> node_ok w'.
Proof using Hinv.
  induction es as [| e es IH]; intros w w' Hs Hw; cbn [mrun]; [by intros [= <-] |].
  apply Forall_cons in Hs as [He Hs]. destruct (mstep e w) as [w1 |] eqn:E; [| done]. rsimp.
  intros H. by apply (IH w1 w' Hs (node_step _ _ _ He Hw E)).
Qed.

Lemma history_ok es w : Forall small_piece es -> history M es = Ok w -> node_ok w.
Proof using Hinv.
  intros Hs. apply node_run; [done |]. split; [apply keeps_fresh |]. exists ∅. intros c. apply ready_new.
Qed.
End reach.

(** The loop over packets, backwards. *)
Lemma packets_kept l b ps r (W : Type) (handle : Z -> list byte -> W -> res W) w b' w' :
  ready l b -> drain_all next_packet l = (ps, false, r) ->
  packet_loop handle (S (Z.to_nat (readableBytes b))) b w = Ok (b', w') ->
  ready r b' /\ handle_all handle ps w = Ok w'.
Proof.
  intros Hb Hd. unfold drain_all in Hd. rewrite (ready_readable _ _ Hb).
  replace (S (Z.to_nat (zlen l))) with (S (length l)) by (unfold zlen; lia).
  destruct (packet_loop_ok (S (length l)) l b ps r Hb ltac:(lia) Hd) as (b1 & Hb1 & ->).
  destruct (handle_all handle ps w); [| done]. by intros [= <- <-].
Qed.

Lemma drained l : exists ps r, drain_all next_packet l = (ps, false, r).
Proof.
  destruct (drain_all next_packet l) as [[ps s] r] eqn:E. pose proof (packets_never_stop _ _ _ _ _ E) as ->. eauto.
Qed.

Lemma to_clients_numbers ps : forall m m', handle_all Mux.to_client ps m = Ok m' -> numbers (erase m') = numbers (erase m).
Proof.
  induction ps as [| [id d] ps IH]; intros m m'; cbn [handle_all fst snd]; [by intros [= <-] |].
  unfold Mux.to_client at 1. rsimp. intros H. rewrite (IH _ _ H). by destruct (Mux.clientConns_ m !! id).
Qed.

#[export] Instance simple_keeps : Keeps (M:=Simple.MultiplexServer) numbered.
Proof.
  split; cbn [fresh_server set_conns client_connection client_message backend_connection backend_message
              simple_multiplexing threaded_multiplexing].
  - split; [apply map_Forall_empty | constructor].
  - intros f m H. exact H.
  - intros c m m' H E. by eapply connection_numbered.
  - intros c b m r H E. exact (numbered_same _ _ (message_numbers _ _ _ _ E) H).
  - intros c m m' H E. by eapply backend_numbered.
  - intros l b m [b' m'] H Hb E. destruct (drained l) as (ps & r & Hd).
    destruct (packets_kept _ _ _ _ _ _ _ _ _ Hb Hd E) as [Hr Hh].
    split; [by apply (numbered_same _ _ (packets_numbers _ _ _ Hh)) | by exists r].
Qed.
#[export] Instance threaded_keeps : Keeps (M:=Mux.MultiplexServer) (fun m => numbered (erase m)).
Proof.
  split; cbn [fresh_server set_conns client_connection client_message backend_connection backend_message
              simple_multiplexing threaded_multiplexing].
  - split; [apply map_Forall_empty | constructor].
  - intros f m H. exact H.
  - intros c m m' H E. apply (connection_numbered c (erase m)); [done |]. by rewrite erase_connection, E.
  - intros c b m [b' m'] H E. pose proof (message_numbers c b (erase m)) as Hn. rewrite erase_message, E in Hn.
    exact (numbered_same _ _ (Hn _ eq_refl) H).
  - intros c m m' H E. apply (backend_numbered c (erase m)); [done |]. by rewrite erase_backend, E.
  - intros l b m [b' m'] H Hb E. destruct (drained l) as (ps & r & Hd).
    destruct (packets_kept _ _ _ _ _ _ _ _ _ Hb Hd E) as [Hr Hh].
    split; [exact (numbered_same _ _ (to_clients_numbers _ _ _ Hh) H) | by exists r].
Qed.

(** What the demultiplexer sends when a server connection goes down. *)
Definition disconnect_text (id : Z) : list byte := snprintf 256 (bs "DISCONNECT " ++ dec id ++ kCRLF).

Lemma socks_down_notice d id s e x out : Demux.serverConn_ d = Some 0 -> link (Demux.conns d) out ->
  Demux.socksConns_ d !! id = Some e -> Demux.conns d !! s = Some x -> connected x = false ->
  safe (Demux.onSocksConnection id s d) (fun d' => link (Demux.conns d') (out ++ enc (0, disconnect_text id))).
Proof.
  intros Hsv Hl He Hx Hc. unfold Demux.onSocksConnection, Demux.the_entry, get_conn. rewrite He, Hx. rsimp.
  rewrite Hc, Hsv. fold (disconnect_text id).
  assert (Htext : zlen (disconnect_text id) <= 255) by (unfold disconnect_text, snprintf, zlen, ztake; rewrite length_take; lia).
  eapply safe_bind; [apply ready_filled; lia |]. intros b Hb.
  destruct (sendServerPacket_ok 0 (disconnect_text id) b d out Hsv Hl Hb Htext) as (b' & -> & _).
  by apply link_send.
Qed.

Lemma disconnect_text_whole id : client_number id ->
  disconnect_text id = Simple.kDisconnectCmd ++ dec id ++ kCRLF /\ 0 < zlen (disconnect_text id) <= kMaxPacketLen.
Proof.
  unfold client_number, Simple.kMaxConns. intros Hid.
  assert (Hd : zlen (dec id) <= 2).
  { unfold dec. destruct (Z.ltb_spec id 0); [lia |]. apply dec_u_len; lia. }
  pose proof (zlen_nonneg (dec id)).
  unfold disconnect_text, snprintf, kMaxPacketLen.
  rewrite ztake_all; rewrite !zlen_app; change (zlen (bs "DISCONNECT ")) with 11; change (zlen kCRLF) with 2;
    [split; [done |] |]; lia.
Qed.

Lemma disconnect_command id m : client_number id ->
  Simple.doCommand (disconnect_text id) m
  = match Simple.clientConns_ m !! id with Some c => Simple.with_conns (conn_shutdown c) m | None => m end.
Proof.
  intros Hid. destruct (disconnect_text_whole id Hid) as [Ht _]. unfold Simple.doCommand.
  assert (His : Simple.is_disconnect (disconnect_text id) = true).
  { rewrite Ht. unfold Simple.is_disconnect. apply andb_true_intro. split.
    - rewrite !zlen_app. change (zlen kCRLF) with 2. pose proof (zlen_nonneg (dec id)). lia.
    - apply starts_with_true. eauto. }
  rewrite His, Ht, zdrop_app_r by done. rewrite Z.sub_diag, zdrop_0.
  change kCRLF with (byte_of 13 :: [byte_of 10]). rewrite atoi_dec; [done | | done].
  unfold client_number, Simple.kMaxConns in Hid. lia.
Qed.

Lemma one_packet (W : Type) (handle : Z -> list byte -> W -> res W) p buf w :
  good_packet p -> ready (enc p) buf -> exists b', ready [] b' /\
    packet_loop handle (S (Z.to_nat (readableBytes buf))) buf w = (w ← handle p.1 p.2 w; Ok (b', w)).
Proof.
  intros Hp Hb. rewrite (ready_readable _ _ Hb).
  replace (S (Z.to_nat (zlen (enc p)))) with (S (length (enc p))) by (unfold zlen; lia).
  destruct (packet_loop_ok (S (length (enc p))) (enc p) buf [p] [] Hb ltac:(lia)) as (b' & Hb' & Hrun).
  - pose proof (drain_encoded next_packet enc [p] []) as Hd. cbn [map concat] in Hd. rewrite !app_nil_r in Hd.
    apply Hd. intros q k ->%list_elem_of_singleton. by apply next_enc.
  - exists b'. split; [done |]. rewrite Hrun. cbn [handle_all]. by destruct (handle p.1 p.2 w).
Qed.

(** The input buffer of backend connection [b]. *)
Definition backend_input {M} (b : Z) (w : node M) : Buffer := default Buffer_new (b_ins w !! b).

(** [enc p] arrives where nothing is unread. *)
Lemma packet_arrives {M} `{!Multiplexing M} (inv : M -> Prop) `{!Keeps inv} (handle : Z -> list byte -> M -> res M)
    (count : Z -> M -> M) w b p (Q : M -> Prop) :
  (forall buf m, backend_message buf m = packet_loop handle (S (Z.to_nat (readableBytes buf))) buf (count (readableBytes buf) m)) ->
  node_ok inv w -> good_packet p -> readableBytes (backend_input b w) = 0 ->
  (forall n, safe (handle p.1 p.2 (count n (server w))) Q) ->
  safe (mstep (BackendData b (enc p)) w) (fun w' => Q (server w')).
Proof.
  intros Hmsg [_ [ins Hb]] Hp Hz HQ. cbn [mstep].
  assert (Hr : ready [] (backend_input b w)).
  { specialize (Hb b). fold (backend_input b w) in Hb. pose proof (ready_readable _ _ Hb) as Hl. rewrite Hz in Hl.
    by rewrite <- (zlen_zero _ (eq_sym Hl)). }
  eapply safe_bind; [apply (ready_append [] _ (enc p) Hr) |].
  { destruct Hp as [_ Hp]. unfold enc, kMaxPacketLen in *. rewrite zlen_app. change (zlen (packet_header _ _)) with 3. lia. }
  intros buf Hbuf. rewrite Hmsg. destruct (one_packet M handle p buf (count (readableBytes buf) (server w)) Hp Hbuf) as (b' & _ & ->).
  specialize (HQ (readableBytes buf)). destruct (handle p.1 p.2 _) as [m' |]; [| done]. exact HQ.
Qed.

(** When a server connection goes down, the demultiplexer's notice shuts down
    the client it belonged to, and changes nothing else, if the multiplexer is
    the simple one. *)
Theorem closed_server_closes_client es w b c d id s e x out :
  Forall small_piece es -> history Simple.MultiplexServer es = Ok w ->
  Simple.clientConns_ (server w) !! id = Some c -> readableBytes (backend_input b w) = 0 ->
  Demux.serverConn_ d = Some 0 -> link (Demux.conns d) out ->
  Demux.socksConns_ d !! id = Some e -> Demux.conns d !! s = Some x -> connected x = false ->
  safe (d' ← Demux.onSocksConnection id s d;
        w' ← mstep (BackendData b (drop (length out) (sent_on 0 (Demux.conns d')))) w;
        mret (server w'))
    (fun m => m = Simple.with_conns (conn_shutdown c) (server w)).
Proof.
  intros Hs Hrun Hid Hz Hsv Hl He Hx Hc. pose proof (history_ok numbered es w Hs Hrun) as Hok.
  eapply safe_bind; [by apply (socks_down_notice d id s e x out) |]. intros d' Hl'.
  rewrite (link_sent_on _ _ Hl'), drop_app_length. destruct Hok as [Hn Hb]. pose proof (proj1 Hn id c Hid) as Hnum.
  apply (safe_bind _ _ (fun w' => (fun m => m = Simple.with_conns (conn_shutdown c) (server w)) (server w'))); [| intros w' Hw'; exact Hw'].
  apply (packet_arrives numbered Simple.on_packet (fun _ m => m) _ _ _ (fun m => m = Simple.with_conns (conn_shutdown c) (server w))); [done | by split | | done |].
  - split; [cbn; lia |]. by apply disconnect_text_whole.
  - intros _. cbn [fst snd]. unfold Simple.on_packet. cbn [Z.eqb negb safe mret res_ret].
    by rewrite disconnect_command, Hid.
Qed.

(** The threaded one ignores it: the client stays connected to nothing. *)
Theorem closed_server_keeps_client es w b d id s e x out :
  Forall small_piece es -> history Mux.MultiplexServer es = Ok w ->
  client_number id -> readableBytes (backend_input b w) = 0 ->
  Demux.serverConn_ d = Some 0 -> link (Demux.conns d) out ->
  Demux.socksConns_ d !! id = Some e -> Demux.conns d !! s = Some x -> connected x = false ->
  safe (d' ← Demux.onSocksConnection id s d;
        w' ← mstep (BackendData b (drop (length out) (sent_on 0 (Demux.conns d')))) w;
        mret (server w'))
    (fun m => erase m = erase (server w)).
Proof.
  intros Hs Hrun Hid Hz Hsv Hl He Hx Hc.
  pose proof (history_ok (fun m => numbered (erase m)) es w Hs Hrun) as Hok.
  eapply safe_bind; [by apply (socks_down_notice d id s e x out) |]. intros d' Hl'.
  rewrite (link_sent_on _ _ Hl'), drop_app_length. destruct Hok as [Hn Hb].
  apply (safe_bind _ _ (fun w' => (fun m => erase m = erase (server w)) (server w'))); [| intros w' Hw'; exact Hw'].
  apply (packet_arrives (fun m => numbered (erase m)) Mux.to_client Mux.counted _ _ _ (fun m => erase m = erase (server w))); [done | by split | | done |].
  - split; [cbn; lia |]. by apply disconnect_text_whole.
  - intros n. cbn [fst snd]. unfold Mux.to_client. cbn [safe mret res_ret].
    pose proof (number_0 _ Hn) as H0. cbn [erase Simple.clientConns_] in H0.
    change (Mux.clientConns_ (Mux.counted n (server w))) with (Mux.clientConns_ (server w)). by rewrite H0.
Qed.

(** Two clients; the backend answers the second, in two pieces, and sends a
    packet for nobody. *)
Definition mux_demo : list mevent :=
  let answer := enc (2, bs "world") in
  [BackendUp 0; ClientUp 5 (bs "10.0.0.1:99"); ClientUp 6 (bs "10.0.0.2:99"); ClientData 6 (bs "hello");
   BackendData 0 (ztake 2 answer); BackendData 0 (zdrop 2 answer ++ enc (0, bs "DISCONNECT")); ClientDown 5;
   BackendDown 0].
Lemma mux_demo_quiet : no_command ∅ mux_demo = true.
Proof. vm_compute. reflexivity. Qed.

Lemma simple_is_threaded_witness :
  no_command ∅ mux_demo = true
  /\ history Simple.MultiplexServer mux_demo = erase_node <$> history Mux.MultiplexServer mux_demo
  /\ (w ← history Simple.MultiplexServer mux_demo; mret (sent_on 6 (Simple.conns (server w)))) = Ok (bs "world").
Proof.
  split; [exact mux_demo_quiet |]. split; [by apply simple_is_threaded, mux_demo_quiet |]. vm_compute. reflexivity.
Defined.
