(* ===== verification/DancingLinks.v ===== *)
(** * Dancing links: the exact cover search of the sudoku server

    The class [SudokuSolver] of [examples/sudoku/sudoku.cc], apart from its
    constructor ([Sudoku.v]): nodes in an array, linked into a ring of column
    headers, a ring per column and a ring per row; [cover] and [uncover] take a
    column out and put it back by pointer updates only; [solve] searches.

    The abstract state is a matrix: a list of columns and a list of rows, a row
    being a list of (node, column) pairs.  [repr] relates it to the nodes.
    [cover] yields the matrix without the column and the rows that meet it, and
    [uncover] restores the array to what it was, node by node. *)
From S2P Require Import Prelude.

(** ** Nodes *)

(** A pointer is an index of [nodes_]. *)
(*@ muduo/examples/sudoku/sudoku.cc 9-20 Node *)
Record Node : Type := mkNode {
  left : nat; right : nat; up : nat; down : nat; col : nat; name : Z; size : Z
}.
Definition set_left (v : nat) (n : Node) : Node := mkNode v (right n) (up n) (down n) (col n) (name n) (size n).
Definition set_right (v : nat) (n : Node) : Node := mkNode (left n) v (up n) (down n) (col n) (name n) (size n).
Definition set_up (v : nat) (n : Node) : Node := mkNode (left n) (right n) v (down n) (col n) (name n) (size n).
Definition set_down (v : nat) (n : Node) : Node := mkNode (left n) (right n) (up n) v (col n) (name n) (size n).
Definition set_col (v : nat) (n : Node) : Node := mkNode (left n) (right n) (up n) (down n) v (name n) (size n).
Definition set_size (v : Z) (n : Node) : Node := mkNode (left n) (right n) (up n) (down n) (col n) (name n) v.

(*@ muduo/examples/sudoku/sudoku.cc 22-22 kMaxNodes *)
Definition kMaxNodes : Z := 1 + 81 * 4 + 9 * 9 * 9 * 4.

(** The part of [nodes_] that was handed out. *)
Abbreviation heap := (gmap nat Node).
Definition load (h : heap) (p : nat) : res Node :=
  match h !! p with Some n => Ok n | None => Err BadAccess end.
Definition store (p : nat) (f : Node -> Node) (h : heap) : res heap :=
  n ← load h p;
  mret (<[p := f n]> h).

(** No ring has more members than the array. *)
Definition fuel : nat := S (Z.to_nat kMaxNodes).

(** [for (p = stop->next; p != stop; p = p->next) body(p)] *)
Fixpoint ring_loop (n : nat) (next : Node -> nat) (stop p : nat) (body : nat -> heap -> res heap) (h : heap) : res heap :=
  match n with
  | O => Err OutOfFuel
  | S n =>
      if decide (p = stop) then mret h
      else h ← body p h;
           x ← load h p;
           ring_loop n next stop (next x) body h
  end.
Definition for_ring (next : Node -> nat) (stop : nat) (body : nat -> heap -> res heap) (h : heap) : res heap :=
  x ← load h stop;
  ring_loop fuel next stop (next x) body h.

(** ** Rings *)

(*@ muduo/examples/sudoku/sudoku.cc 240-246 SudokuSolver::put_left *)
Definition put_left (old nnew : nat) (h : heap) : res heap :=
  o ← load h old;
  h ← store nnew (set_left (left o)) h;
  h ← store nnew (set_right old) h;
  o ← load h old;
  h ← store (left o) (set_right nnew) h;
  store old (set_left nnew) h.

(*@ muduo/examples/sudoku/sudoku.cc 248-256 SudokuSolver::put_up *)
Definition put_up (old nnew : nat) (h : heap) : res heap :=
  o ← load h old;
  h ← store nnew (set_up (up o)) h;
  h ← store nnew (set_down old) h;
  o ← load h old;
  h ← store (up o) (set_down nnew) h;
  h ← store old (set_up nnew) h;
  o ← load h old;
  h ← store old (set_size (size o + 1)) h;
  store nnew (set_col old) h.

(** The bodies of the loops of [cover] and [uncover]. *)
Definition hide (j : nat) (h : heap) : res heap :=
  n ← load h j;
  h ← store (down n) (set_up (up n)) h;
  n ← load h j;
  h ← store (up n) (set_down (down n)) h;
  n ← load h j;
  c ← load h (col n);
  store (col n) (set_size (size c - 1)) h.
Definition unhide (j : nat) (h : heap) : res heap :=
  n ← load h j;
  c ← load h (col n);
  h ← store (col n) (set_size (size c + 1)) h;
  n ← load h j;
  h ← store (down n) (set_up j) h;
  n ← load h j;
  store (up n) (set_down j) h.

(*@ muduo/examples/sudoku/sudoku.cc 214-225 SudokuSolver::cover *)
Definition cover (c : nat) (h : heap) : res heap :=
  n ← load h c;
  h ← store (right n) (set_left (left n)) h;
  n ← load h c;
  h ← store (left n) (set_right (right n)) h;
  for_ring down c (fun row => for_ring right row hide) h.

(*@ muduo/examples/sudoku/sudoku.cc 227-238 SudokuSolver::uncover *)
Definition uncover (c : nat) (h : heap) : res heap :=
  h ← for_ring up c (fun row => for_ring left row unhide) h;
  n ← load h c;
  h ← store (right n) (set_left c) h;
  n ← load h c;
  store (left n) (set_right c) h.

Fixpoint min_loop (n : nat) (root cc c : nat) (min_size : Z) (h : heap) : res nat :=
  match n with
  | O => Err OutOfFuel
  | S n =>
      if decide (cc = root) then mret c
      else x ← load h cc;
           if size x <? min_size
           then if size x <=? 1 then mret cc else min_loop n root (right x) cc (size x) h
           else min_loop n root (right x) c min_size h
  end.
(*@ muduo/examples/sudoku/sudoku.cc 197-212 SudokuSolver::get_min_column *)
Definition get_min_column (root : nat) (h : heap) : res nat :=
  r ← load h root;
  let c := right r in
  x ← load h c;
  if 1 <? size x then min_loop fuel root (right x) c (size x) h else mret c.

(** ** The search *)

(** [inout_] is the caller's board. *)
(*@ muduo/examples/sudoku/sudoku.cc 133-138 SudokuSolver *)
Record SudokuSolver : Type := mkSolver {
  root_ : nat;
  inout_ : list Z;
  columns_ : list (option nat);
  stack_ : list nat;
  nodes_ : heap;
  cur_node_ : Z
}.
Definition with_heap (h : heap) (s : SudokuSolver) : SudokuSolver :=
  mkSolver (root_ s) (inout_ s) (columns_ s) (stack_ s) h (cur_node_ s).
Definition on_heap (f : heap -> res heap) (s : SudokuSolver) : res SudokuSolver :=
  h ← f (nodes_ s);
  mret (with_heap h s).
Definition with_stack (st : list nat) (s : SudokuSolver) : SudokuSolver :=
  mkSolver (root_ s) (inout_ s) (columns_ s) st (nodes_ s) (cur_node_ s).
Definition with_inout (b : list Z) (s : SudokuSolver) : SudokuSolver :=
  mkSolver (root_ s) b (columns_ s) (stack_ s) (nodes_ s) (cur_node_ s).

(** The [while] loop that reads a row off, and the loop over the stack. *)
Fixpoint read_row (n : nat) (h : heap) (p : nat) (cell val : Z) : res (Z * Z) :=
  match n with
  | O => Err OutOfFuel
  | S n =>
      if (cell =? -1) || (val =? -1)
      then x ← load h p;
           if name x <? 100 then read_row n h (right x) (name x) val
           else read_row n h (right x) cell (Z.rem (name x) 10)
      else mret (cell, val)
  end.
Definition write_board (i v : Z) (b : list Z) : res (list Z) :=
  if (0 <=? i) && (i <? zlen b) then Ok (<[Z.to_nat i := v]> b) else Err BadAccess.
Fixpoint write_out (h : heap) (st : list nat) (b : list Z) : res (list Z) :=
  match st with
  | [] => mret b
  | p :: st =>
      '(cell, val) ← read_row fuel h p (-1) (-1);
      b ← write_board cell val b;
      write_out h st b
  end.

Definition cover_col_of (j : nat) (h : heap) : res heap := x ← load h j; cover (col x) h.
Definition uncover_col_of (j : nat) (h : heap) : res heap := x ← load h j; uncover (col x) h.

(** The loop over the rows of the covered column [c]. *)
Fixpoint try_rows (solve : SudokuSolver -> res (bool * SudokuSolver)) (m c row : nat) (s : SudokuSolver)
    : res (bool * SudokuSolver) :=
  match m with
  | O => Err OutOfFuel
  | S m =>
      if decide (row = c) then s ← on_heap (uncover c) s; mret (false, s)
      else
        s ← on_heap (for_ring right row cover_col_of) (with_stack (stack_ s ++ [row]) s);
        '(done, s) ← solve s;
        if done : bool then mret (true, s)
        else
          s ← on_heap (for_ring left row uncover_col_of) (with_stack (removelast (stack_ s)) s);
          x ← load (nodes_ s) row;
          try_rows solve m c (down x) s
  end.

(** A call covers a column at least: the depth is bounded by the number of
    columns. *)
(*@ muduo/examples/sudoku/sudoku.cc 91-129 SudokuSolver::solve *)
Fixpoint solve (n : nat) (s : SudokuSolver) : res (bool * SudokuSolver) :=
  match n with
  | O => Err OutOfFuel
  | S n =>
      r ← load (nodes_ s) (root_ s);
      if decide (left r = root_ s)
      then b ← write_out (nodes_ s) (stack_ s) (inout_ s); mret (true, with_inout b s)
      else
        c ← get_min_column (root_ s) (nodes_ s);
        s ← on_heap (cover c) s;
        x ← load (nodes_ s) c;
        try_rows (solve n) fuel c (down x) s
  end.

(** ** Nodes of a heap *)

Definition node0 : Node := mkNode 0 0 0 0 0 0 0.
Definition nd (h : heap) (p : nat) : Node := default node0 (h !! p).
Definition here (h : heap) (p : nat) : Prop := is_Some (h !! p).

Lemma node_eq n m : left n = left m -> right n = right m -> up n = up m -> down n = down m -> col n = col m ->
  name n = name m -> size n = size m -> n = m.
Proof. destruct n, m; cbn; congruence. Qed.
Lemma load_ok h p : here h p -> load h p = Ok (nd h p).
Proof. unfold load, nd. by intros [n ->]. Qed.
Lemma store_ok p f h : here h p -> store p f h = Ok (<[p := f (nd h p)]> h).
Proof. intros Hp. unfold store. by rewrite load_ok. Qed.
Lemma here_insert p q n h : here (<[p := n]> h) q <-> p = q \/ here h q.
Proof. unfold here. by rewrite lookup_insert_is_Some'. Qed.
Lemma nd_insert p q n h : nd (<[p := n]> h) q = if decide (p = q) then n else nd h q.
Proof. unfold nd. rewrite lookup_insert. by case_decide. Qed.

(** Two heaps with the same nodes in the same places are equal. *)
Lemma heap_eq h h' : (forall p, here h p <-> here h' p) -> (forall p, here h p -> nd h p = nd h' p) -> h = h'.
Proof.
  unfold here, nd. intros Hd Hn. apply map_eq. intros p. specialize (Hd p). specialize (Hn p).
  destruct (h !! p) eqn:E, (h' !! p) eqn:E'; cbn in *; try done.
  - f_equal. apply Hn. by eexists.
  - destruct Hd as [Hd _]. destruct Hd; [by eexists | done].
  - destruct Hd as [_ Hd]. destruct Hd; [by eexists | done].
Qed.

(** ** Rings *)

(** From [a] along [l] to [b], with the way back. *)
Fixpoint chain (f g : nat -> nat) (a : nat) (l : list nat) (b : nat) : Prop :=
  match l with
  | [] => f a = b /\ g b = a
  | x :: l => f a = x /\ g x = a /\ chain f g x l b
  end.

Lemma chain_app f g l k : forall a x b,
  chain f g a (l ++ x :: k) b <-> chain f g a l x /\ chain f g x k b.
Proof. induction l as [| y l IH]; intros a x b; cbn; [tauto |]. rewrite IH. tauto. Qed.

Lemma chain_rev f g l : forall a b, chain f g a l b -> chain g f b (rev l) a.
Proof.
  induction l as [| x l IH]; intros a b; cbn [chain rev]; [tauto |]. intros (H1 & H2 & H3).
  apply chain_app. split; [by apply IH |]. split; [exact H2 | exact H1].
Qed.

Lemma chain_ext f g f' g' l : forall a b,
  (forall x, x ∈ a :: l -> f' x = f x) -> (forall x, x ∈ l ++ [b] -> g' x = g x) ->
  chain f g a l b -> chain f' g' a l b.
Proof.
  induction l as [| y l IH]; intros a b Hf Hg; cbn.
  - rewrite Hf, Hg by set_solver. done.
  - intros (H1 & H2 & H3). rewrite Hf, Hg by set_solver. split_and!; [done.. |].
    apply IH; [| | done]; intros x Hx; [apply Hf | apply Hg]; set_solver.
Qed.

Lemma chain_last f g l : forall a b, chain f g a l b -> g b ∈ a :: l.
Proof.
  induction l as [| x l IH]; intros a b; cbn; [intros [_ ->]; set_solver |].
  intros (_ & _ & H). apply IH in H. set_solver.
Qed.
Lemma chain_first f g l : forall a b, chain f g a l b -> f a ∈ l ++ [b].
Proof. intros a b. destruct l; cbn; [intros [-> _] | intros (-> & _)]; set_solver. Qed.

(** Taking [x] out. *)
Lemma chain_splice f g k x b l : forall a,
  NoDup (a :: l ++ x :: k) -> b ∉ l ++ x :: k -> chain f g a l x -> chain f g x k b ->
  chain (fun p => if decide (g x = p) then f x else f p)
        (fun p => if decide (f x = p) then g x else g p) a (l ++ k) b.
Proof.
  induction l as [| z l IH]; intros a Hnd Hb H1 H2.
  - cbn [app chain] in *. destruct H1 as [H1 H1']. apply NoDup_cons in Hnd as [Ha Hnd]. apply NoDup_cons in Hnd as [Hx Hnd].
    destruct k as [| y k]; cbn [chain] in *.
    + destruct H2 as [H2 H2']. rewrite !decide_True by done. by rewrite H1'.
    + destruct H2 as (H2 & H2' & H3). rewrite !decide_True by done. split_and!; [done.. |].
      apply NoDup_cons in Hnd as [Hy Hnd].
      eapply chain_ext; [| | exact H3]; cbn; intros p Hp; rewrite decide_False; try done.
      * rewrite H1'. intros <-. set_solver.
      * rewrite H2. intros <-. set_solver.
  - cbn [app chain] in *. destruct H1 as (H1 & H1' & H3).
    pose proof (chain_last _ _ _ _ _ H3) as Hl. pose proof (chain_first _ _ _ _ _ H2) as Hf.
    apply NoDup_cons in Hnd as [Ha Hnd]. pose proof Hnd as Hnd'. apply NoDup_cons in Hnd' as [Hz _].
    split; [| split].
    + rewrite decide_False; [done |]. intros <-. set_solver.
    + rewrite decide_False; [done |]. intros <-. set_solver.
    + apply IH; [done | set_solver | done | done].
Qed.

(** The members of a ring, in order, and all of them there. *)
Definition ring (h : heap) (f g : Node -> nat) (c : nat) (l : list nat) : Prop :=
  NoDup (c :: l) /\ chain (fun p => f (nd h p)) (fun p => g (nd h p)) c l c /\ Forall (here h) (c :: l).

Lemma ring_length h f g c l : (forall p, here h p -> Z.of_nat p < kMaxNodes) -> ring h f g c l -> (S (length l) < fuel)%nat.
Proof.
  intros Hb (Hnd & _ & Hh).
  assert (Hs : c :: l ⊆+ seq 0 (Z.to_nat kMaxNodes)).
  { apply NoDup_submseteq; [done |]. intros p Hp. rewrite Forall_forall in Hh. apply Hh, Hb in Hp.
    apply elem_of_seq. lia. }
  apply submseteq_length in Hs. rewrite length_seq in Hs. cbn [length] in Hs. unfold fuel. lia.
Qed.

Lemma chain_next f g a l b : chain f g a l b -> f a = default b (head l).
Proof. destruct l; cbn; tauto. Qed.
Lemma chain_prev f g a l b : chain f g a l b -> g b = default a (last l).
Proof.
  destruct l as [| x l _] using rev_ind; [cbn; tauto |].
  rewrite chain_app. intros [_ [_ H]]. rewrite last_snoc. exact H.
Qed.

(** A walk along a ring, and the walk back that undoes it: the body keeps the
    ring and an invariant, and is undone step by step. *)
Section walk.
Variables (fwd bwd : Node -> nat) (stop : nat) (l : list nat) (body inv : nat -> heap -> res heap).
Variable I : list nat -> heap -> Prop.
Hypothesis I_ring : forall done h, I done h -> ring h fwd bwd stop l /\ forall p, here h p -> Z.of_nat p < kMaxNodes.
Hypothesis I_step : forall done x todo h, l = done ++ x :: todo -> I done h ->
  exists h', body x h = Ok h' /\ inv x h' = Ok h /\ I (done ++ [x]) h'.

Lemma walk_from todo : forall done n h, l = done ++ todo -> I done h -> (length todo < n)%nat ->
  exists h', ring_loop n fwd stop (default stop (head todo)) body h = Ok h' /\ I l h'
    /\ forall m, ring_loop (length todo + m) bwd stop (default stop (last l)) inv h'
                 = ring_loop m bwd stop (default stop (last done)) inv h.
Proof using I_ring I_step.
  induction todo as [| x todo IH]; intros done n h Hl HI Hn; (destruct n as [| n]; [cbn in Hn; lia |]).
  - rewrite app_nil_r in Hl. subst done. exists h. cbn [head ring_loop from_option id]. by rewrite decide_True.
  - cbn [length] in Hn. destruct (I_ring done h HI) as [(Hnd & Hch & Hh) _].
    assert (Hx : x <> stop) by (apply NoDup_cons in Hnd as [Hnd _]; intros ->; apply Hnd; rewrite Hl; set_solver).
    destruct (I_step done x todo h Hl HI) as (h1 & Hb & Hi & H1).
    destruct (I_ring _ h1 H1) as [(_ & Hch1 & Hh1) _].
    assert (Hin : forall h, Forall (here h) (stop :: l) -> here h x).
    { intros h0 Hf. rewrite Forall_forall in Hf. apply Hf. rewrite Hl. set_solver. }
    rewrite Hl in Hch, Hch1. apply chain_app in Hch as [Hpre _]. apply chain_app in Hch1 as [_ Hpost].
    destruct (IH (done ++ [x]) n h1) as (h' & Hrun & HI' & Hback); [by rewrite <- app_assoc | done | lia |].
    exists h'. cbn [head from_option id ring_loop]. rewrite decide_False by done. rewrite Hb. rsimp.
    rewrite load_ok by by apply Hin. rsimp. pose proof (chain_next _ _ _ _ _ Hpost) as Hnext. cbn beta in Hnext. rewrite Hnext.
    split; [exact Hrun |]. split; [done |]. intros m. cbn [length].
    replace (S (length todo) + m)%nat with (length todo + S m)%nat by lia. rewrite Hback, last_snoc.
    cbn [from_option id ring_loop]. rewrite decide_False by done. rewrite Hi. rsimp. rewrite load_ok by by apply Hin. rsimp.
    pose proof (chain_prev _ _ _ _ _ Hpre) as Hprev. cbn beta in Hprev. by rewrite Hprev.
Qed.

Lemma walk_and_back h : I [] h ->
  exists h', for_ring fwd stop body h = Ok h' /\ for_ring bwd stop inv h' = Ok h /\ I l h'.
Proof using I_ring I_step.
  intros HI. destruct (I_ring [] h HI) as [Hr Hb]. pose proof (ring_length _ _ _ _ _ Hb Hr) as Hlen.
  destruct (walk_from l [] fuel h eq_refl HI ltac:(lia)) as (h' & Hrun & HI' & Hback).
  destruct (I_ring l h' HI') as [(_ & Hch' & Hh') _]. destruct Hr as (_ & Hch & Hh).
  exists h'. unfold for_ring. rewrite !load_ok by by (eapply Forall_inv). rsimp.
  pose proof (chain_next _ _ _ _ _ Hch) as ->. pose proof (chain_prev _ _ _ _ _ Hch') as ->.
  split; [exact Hrun |]. split; [| done].
  replace fuel with (length l + (fuel - length l))%nat by lia. rewrite Hback.
  destruct (fuel - length l)%nat eqn:E; [lia |]. cbn [last from_option id ring_loop]. by rewrite decide_True.
Qed.
End walk.

(** ** Building rings *)

Lemma chain_snoc f g a l x : NoDup (a :: l) -> x ∉ a :: l -> chain f g a l a ->
  chain (fun p => if decide (g a = p) then x else if decide (x = p) then a else f p)
        (fun p => if decide (a = p) then x else if decide (x = p) then g a else g p) a (l ++ [x]) a.
Proof.
  intros Hnd Hx Hch. apply not_elem_of_cons in Hx as [Hxa Hxl]. apply NoDup_cons in Hnd as [Ha Hnd].
  apply chain_app. destruct l as [| y l _] using rev_ind.
  - destruct Hch as [H1 H2]. cbn. rewrite !H2. split_and!; repeat case_decide; congruence.
  - apply chain_app in Hch as [H1 [H2 H3]]. apply not_elem_of_app in Hxl as [Hxl Hxy]. apply not_elem_of_cons in Hxy as [Hxy _].
    apply not_elem_of_app in Ha as [Hal Hay]. apply not_elem_of_cons in Hay as [Hay _].
    apply NoDup_app in Hnd as (_ & Hdis & _).
    assert (Hy : forall p, p ∈ l -> p <> y) by (intros p Hp ->; apply (Hdis y Hp); by left).
    rewrite H3. split; [apply chain_app; split |].
    + eapply chain_ext; [| | exact H1]; cbn; intros p Hp.
      * rewrite !decide_False; [done | |]; apply elem_of_cons in Hp as [-> | Hp]; try done; [intros <-; done |].
        intros <-. by apply (Hy y).
      * rewrite !decide_False; [done | |]; apply elem_of_app in Hp as [Hp | ->%list_elem_of_singleton]; try done; by intros <-.
    + cbn. split; repeat case_decide; congruence.
    + cbn. split; repeat case_decide; congruence.
Qed.

(** [x] is appended to the ring of [a]. *)
Lemma put_left_ok h a l x : ring h right left a l -> x ∉ a :: l -> here h x ->
  exists h', put_left a x h = Ok h' /\ (forall p, here h' p <-> here h p) /\ ring h' right left a (l ++ [x])
    /\ forall p, up (nd h' p) = up (nd h p) /\ down (nd h' p) = down (nd h p) /\ size (nd h' p) = size (nd h p)
         /\ col (nd h' p) = col (nd h p) /\ name (nd h' p) = name (nd h p)
         /\ (p ∉ a :: l ++ [x] -> left (nd h' p) = left (nd h p) /\ right (nd h' p) = right (nd h p)).
Proof.
  intros (Hnd & Hch & Hh) Hx Hhx. pose proof (chain_last _ _ _ _ _ Hch) as Hlast. cbn beta in Hlast.
  assert (Hha : here h a) by (by apply Forall_inv in Hh). assert (Hxa : x <> a) by (by apply not_elem_of_cons in Hx as [? _]).
  unfold put_left. rewrite load_ok by done. rsimp. rewrite store_ok by done. rsimp. set (lf := left (nd h a)) in *.
  assert (Hlx : x <> lf) by (by intros ->). assert (Hhl : here h lf) by (rewrite Forall_forall in Hh; by apply Hh).
  set (h1 := <[x := _]> h). rewrite store_ok by (unfold h1; rewrite here_insert; by left). rsimp. set (h2 := <[x := _]> h1).
  assert (D2 : forall p, here h2 p <-> here h p) by (intros p; unfold h2, h1; rewrite !here_insert; naive_solver).
  assert (E2 : nd h2 a = nd h a) by (unfold h2, h1; rewrite !nd_insert, !decide_False; done).
  rewrite load_ok by by apply D2. rsimp. rewrite E2. fold lf. rewrite store_ok by by apply D2. rsimp. set (h3 := <[lf := _]> h2).
  assert (D3 : forall p, here h3 p <-> here h p) by (intros p; unfold h3; rewrite here_insert, D2; naive_solver).
  rewrite store_ok by by apply D3. set (h4 := <[a := _]> h3). exists h4. split; [done |].
  assert (D4 : forall p, here h4 p <-> here h p) by (intros p; unfold h4; rewrite here_insert, D3; naive_solver).
  split; [done |].
  assert (F : forall p, nd h4 p = mkNode (if decide (a = p) then x else if decide (x = p) then lf else left (nd h p))
    (if decide (lf = p) then x else if decide (x = p) then a else right (nd h p))
    (up (nd h p)) (down (nd h p)) (col (nd h p)) (name (nd h p)) (size (nd h p))).
  { intros p. unfold h4, h3, h2, h1. clear - Hxa Hlx. clearbody lf. rewrite !nd_insert.
    repeat case_decide; subst; try done; by apply node_eq. }
  split; [split; [| split] |].
  - apply NoDup_cons in Hnd as [Ha Hnd]. apply not_elem_of_cons in Hx as [_ Hx]. apply NoDup_cons. split.
    + rewrite not_elem_of_app, list_elem_of_singleton. split; congruence.
    + apply NoDup_app. split; [done |]. split; [| apply NoDup_singleton]. by intros p Hp ->%list_elem_of_singleton.
  - pose proof (chain_snoc _ _ a l x Hnd Hx Hch) as Hs. eapply chain_ext; [| | exact Hs]; intros p _; cbn; by rewrite F.
  - rewrite Forall_forall in *. intros p Hp. apply D4. apply elem_of_cons in Hp as [-> | Hp]; [done |].
    apply elem_of_app in Hp as [Hp | ->%list_elem_of_singleton]; [apply Hh; by right | done].
  - intros p. rewrite F. cbn. split_and!; try done. intros Hp. apply not_elem_of_cons in Hp as [Hpa Hp].
    apply not_elem_of_app in Hp as [Hpl Hpx]. apply not_elem_of_cons in Hpx as [Hpx _].
    rewrite !decide_False; try done. intros <-. apply elem_of_cons in Hlast as [Hl | Hl]; [by apply Hpa | by apply Hpl].
Qed.

Lemma put_up_ok h c l x : ring h down up c l -> x ∉ c :: l -> here h x ->
  exists h', put_up c x h = Ok h' /\ (forall p, here h' p <-> here h p) /\ ring h' down up c (l ++ [x])
    /\ forall p, left (nd h' p) = left (nd h p) /\ right (nd h' p) = right (nd h p) /\ name (nd h' p) = name (nd h p)
         /\ size (nd h' p) = (if decide (c = p) then size (nd h p) + 1 else size (nd h p))
         /\ col (nd h' p) = (if decide (x = p) then c else col (nd h p))
         /\ (p ∉ c :: l ++ [x] -> up (nd h' p) = up (nd h p) /\ down (nd h' p) = down (nd h p)).
Proof.
  intros (Hnd & Hch & Hh) Hx Hhx. pose proof (chain_last _ _ _ _ _ Hch) as Hlast. cbn beta in Hlast.
  assert (Hhc : here h c) by (by apply Forall_inv in Hh). assert (Hxc : x <> c) by (by apply not_elem_of_cons in Hx as [? _]).
  unfold put_up. rewrite load_ok by done. rsimp. rewrite store_ok by done. rsimp. set (u := up (nd h c)) in *.
  assert (Hux : x <> u) by (by intros ->). assert (Hhu : here h u) by (rewrite Forall_forall in Hh; by apply Hh).
  set (h1 := <[x := _]> h). rewrite store_ok by (unfold h1; rewrite here_insert; by left). rsimp. set (h2 := <[x := _]> h1).
  assert (D2 : forall p, here h2 p <-> here h p) by (intros p; unfold h2, h1; rewrite !here_insert; naive_solver).
  assert (E2 : nd h2 c = nd h c) by (unfold h2, h1; rewrite !nd_insert, !decide_False; done).
  rewrite load_ok by by apply D2. rsimp. rewrite E2. fold u. rewrite store_ok by by apply D2. rsimp. set (h3 := <[u := _]> h2).
  assert (D3 : forall p, here h3 p <-> here h p) by (intros p; unfold h3; rewrite here_insert, D2; naive_solver).
  rewrite store_ok by by apply D3. rsimp. set (h4 := <[c := _]> h3).
  assert (D4 : forall p, here h4 p <-> here h p) by (intros p; unfold h4; rewrite here_insert, D3; naive_solver).
  rewrite load_ok by by apply D4. rsimp. rewrite store_ok by by apply D4. rsimp. set (h5 := <[c := _]> h4).
  assert (D5 : forall p, here h5 p <-> here h p) by (intros p; unfold h5; rewrite here_insert, D4; naive_solver).
  rewrite store_ok by by apply D5. set (h6 := <[x := _]> h5). exists h6. split; [done |].
  assert (D6 : forall p, here h6 p <-> here h p) by (intros p; unfold h6; rewrite here_insert, D5; naive_solver).
  split; [done |].
  assert (F : forall p, nd h6 p = mkNode (left (nd h p)) (right (nd h p))
    (if decide (c = p) then x else if decide (x = p) then u else up (nd h p))
    (if decide (u = p) then x else if decide (x = p) then c else down (nd h p))
    (if decide (x = p) then c else col (nd h p)) (name (nd h p)) (if decide (c = p) then size (nd h p) + 1 else size (nd h p))).
  { intros p. unfold h6, h5, h4, h3, h2, h1. clear - Hxc Hux. clearbody u. rewrite !nd_insert.
    repeat case_decide; subst; try done; by apply node_eq. }
  split; [split; [| split] |].
  - apply NoDup_cons in Hnd as [Ha Hnd]. apply not_elem_of_cons in Hx as [_ Hx]. apply NoDup_cons. split.
    + rewrite not_elem_of_app, list_elem_of_singleton. split; congruence.
    + apply NoDup_app. split; [done |]. split; [| apply NoDup_singleton]. by intros p Hp ->%list_elem_of_singleton.
  - pose proof (chain_snoc _ _ c l x Hnd Hx Hch) as Hs. eapply chain_ext; [| | exact Hs]; intros p _; cbn; by rewrite F.
  - rewrite Forall_forall in *. intros p Hp. apply D6. apply elem_of_cons in Hp as [-> | Hp]; [done |].
    apply elem_of_app in Hp as [Hp | ->%list_elem_of_singleton]; [apply Hh; by right | done].
  - intros p. rewrite F. cbn. split_and!; try done. intros Hp. apply not_elem_of_cons in Hp as [Hpa Hp].
    apply not_elem_of_app in Hp as [Hpl Hpx]. apply not_elem_of_cons in Hpx as [Hpx _].
    rewrite !decide_False; try done. intros <-. apply elem_of_cons in Hlast as [Hl | Hl]; [by apply Hpa | by apply Hpl].
Qed.

(** ** Columns *)

(** The rings and sizes of the columns [K]: column [c] holds [V c]. *)
Record vert (h : heap) (K : list nat) (V : nat -> list nat) : Prop := {
  v_ring c : c ∈ K -> ring h down up c (V c);
  v_size c : c ∈ K -> size (nd h c) = zlen (V c);
  v_col c j : c ∈ K -> j ∈ V c -> col (nd h j) = c;
  v_apart c d p : c ∈ K -> d ∈ K -> p ∈ c :: V c -> p ∈ d :: V d -> c = d
}.

(** The rows stay as they are. *)
Definition calm (h h' : heap) : Prop :=
  (forall p, here h' p <-> here h p)
  /\ forall p, left (nd h' p) = left (nd h p) /\ right (nd h' p) = right (nd h p)
               /\ col (nd h' p) = col (nd h p) /\ name (nd h' p) = name (nd h p).
Lemma calm_heap_refl h : calm h h.
Proof. split; [done |]. intros p. by split_and!. Qed.
Lemma calm_heap_trans h h1 h2 : calm h h1 -> calm h1 h2 -> calm h h2.
Proof.
  intros [Hd1 Hn1] [Hd2 Hn2]. split; [intros p; by rewrite Hd2 |].
  intros p. specialize (Hn1 p). specialize (Hn2 p). intuition congruence.
Qed.

Lemma vert_ext h K V W : (forall c, c ∈ K -> V c = W c) -> vert h K V -> vert h K W.
Proof.
  intros Heq [Hr Hs Hc Ha]. split.
  - intros c Hin. rewrite <- Heq by done. by apply Hr.
  - intros c Hin. rewrite <- Heq by done. by apply Hs.
  - intros c j Hin. rewrite <- Heq by done. by apply Hc.
  - intros c d p Hin Hin'. rewrite <- (Heq c), <- (Heq d) by done. by apply Ha.
Qed.
Lemma vert_sub h K K' V : K' ⊆ K -> vert h K V -> vert h K' V.
Proof. intros Hs [Hr Hz Hc Ha]. split; eauto. Qed.

Lemma filter_others (j : nat) l1 l2 : NoDup (l1 ++ j :: l2) -> filter (.≠ j) (l1 ++ j :: l2) = l1 ++ l2.
Proof.
  intros (H1 & H2 & H3)%NoDup_app. apply NoDup_cons in H3 as [H3 _].
  rewrite filter_app, filter_cons_False by tauto. rewrite !filter_all; [done | |]; apply Forall_forall; set_solver.
Qed.

(** The heap after [hide], field by field. *)
Definition hidden (j : nat) (h h' : heap) : Prop :=
  calm h h' /\ forall p,
    up (nd h' p) = (if decide (down (nd h j) = p) then up (nd h j) else up (nd h p))
    /\ down (nd h' p) = (if decide (up (nd h j) = p) then down (nd h j) else down (nd h p))
    /\ size (nd h' p) = (if decide (col (nd h j) = p) then size (nd h p) - 1 else size (nd h p)).

Lemma hide_unhide j h :
  here h j -> here h (up (nd h j)) -> here h (down (nd h j)) -> here h (col (nd h j)) ->
  up (nd h j) <> j -> down (nd h j) <> j -> col (nd h j) <> j ->
  down (nd h (up (nd h j))) = j -> up (nd h (down (nd h j))) = j ->
  exists h', hide j h = Ok h' /\ unhide j h' = Ok h /\ hidden j h h'.
Proof.
  intros Hj Hu Hd Hc Nu Nd Nc Bu Bd. unfold hide. rewrite load_ok by done. rsimp.
  set (u := up (nd h j)) in *. set (d := down (nd h j)) in *. set (c := col (nd h j)) in *.
  rewrite store_ok by done. rsimp.
  set (h1 := <[d := set_up u (nd h d)]> h).
  assert (E1 : nd h1 j = nd h j) by (unfold h1; rewrite nd_insert, decide_False by done; done).
  assert (D1 : forall p, here h1 p <-> here h p) by (intros p; unfold h1; rewrite here_insert; naive_solver).
  rewrite load_ok by by apply D1. rsimp. rewrite E1. fold u d. rewrite store_ok by by apply D1. rsimp.
  set (h2 := <[u := set_down d (nd h1 u)]> h1).
  assert (E2 : nd h2 j = nd h j) by (unfold h2; rewrite nd_insert, decide_False by done; done).
  assert (D2 : forall p, here h2 p <-> here h p) by (intros p; unfold h2; rewrite here_insert, D1; naive_solver).
  rewrite load_ok by by apply D2. rsimp. rewrite E2. fold c. rewrite !load_ok by by apply D2. rsimp.
  rewrite store_ok by by apply D2.
  set (h3 := <[c := set_size (size (nd h2 c) - 1) (nd h2 c)]> h2).
  assert (E3 : nd h3 j = nd h j) by (unfold h3; rewrite nd_insert, decide_False by done; done).
  assert (D3 : forall p, here h3 p <-> here h p) by (intros p; unfold h3; rewrite here_insert, D2; naive_solver).
  assert (F : forall p, nd h3 p = mkNode (left (nd h p)) (right (nd h p)) (if decide (d = p) then u else up (nd h p))
    (if decide (u = p) then d else down (nd h p)) (col (nd h p)) (name (nd h p))
    (if decide (c = p) then size (nd h p) - 1 else size (nd h p))).
  { intros p. unfold h3, h2, h1. clear. clearbody u d c. rewrite !nd_insert.
    repeat case_decide; subst; by apply node_eq. }
  exists h3. split; [done |]. split.
  - unfold unhide. rewrite load_ok by by apply D3. rsimp. rewrite E3. fold c. rewrite load_ok by by apply D3. rsimp.
    rewrite store_ok by by apply D3. rsimp.
    set (h4 := <[c := _]> h3).
    assert (E4 : nd h4 j = nd h j) by (unfold h4; rewrite nd_insert, decide_False by done; done).
    assert (D4 : forall p, here h4 p <-> here h p) by (intros p; unfold h4; rewrite here_insert, D3; naive_solver).
    rewrite load_ok by by apply D4. rsimp. rewrite E4. fold d. rewrite store_ok by by apply D4. rsimp.
    set (h5 := <[d := _]> h4).
    assert (E5 : nd h5 j = nd h j) by (unfold h5; rewrite nd_insert, decide_False by done; done).
    assert (D5 : forall p, here h5 p <-> here h p) by (intros p; unfold h5; rewrite here_insert, D4; naive_solver).
    rewrite load_ok by by apply D5. rsimp. rewrite E5. fold u. rewrite store_ok by by apply D5. f_equal.
    apply heap_eq.
    + intros p. rewrite here_insert, D5. naive_solver.
    + intros p _. rewrite nd_insert. unfold h5, h4. rewrite !nd_insert, !F. clear - Bu Bd. clearbody u d c.
      repeat case_decide; subst; apply node_eq; cbn; congruence || lia.
  - split; [split; [done |] |]; intros p; rewrite F; by split_and!.
Qed.

Lemma ring_links h f g c l1 j l2 : ring h f g c (l1 ++ j :: l2) ->
  f (nd h (g (nd h j))) = j /\ g (nd h (f (nd h j))) = j
  /\ g (nd h j) ∈ c :: l1 /\ f (nd h j) ∈ l2 ++ [c] /\ g (nd h j) <> j /\ f (nd h j) <> j /\ c <> j
  /\ here h j /\ here h (g (nd h j)) /\ here h (f (nd h j)).
Proof.
  intros (Hnd & Hch & Hh). apply chain_app in Hch as [H1 H2].
  pose proof (chain_last _ _ _ _ _ H1) as Hl. pose proof (chain_first _ _ _ _ _ H2) as Hf. cbn beta in *.
  assert (Hback : forall a l b, chain (fun p => f (nd h p)) (fun p => g (nd h p)) a l b -> f (nd h (g (nd h b))) = b).
  { intros a l b H. destruct l as [| x l _] using rev_ind.
    - destruct H as [H ->]. done.
    - apply chain_app in H as [_ [H ->]]. exact H. }
  assert (Hforth : forall a l b, chain (fun p => f (nd h p)) (fun p => g (nd h p)) a l b -> g (nd h (f (nd h a))) = a).
  { intros a l b H. destruct l; [by destruct H as [-> ->] | by destruct H as (-> & -> & _)]. }
  apply NoDup_cons in Hnd as [Hc Hnd]. apply NoDup_app in Hnd as (_ & Hd & Hnd). apply NoDup_cons in Hnd as [Hj _].
  rewrite Forall_forall in Hh. split_and!.
  - by eapply Hback.
  - by eapply Hforth.
  - done.
  - done.
  - intros E. rewrite E in Hl. apply elem_of_cons in Hl as [-> | Hl]; [set_solver |]. apply (Hd j Hl). set_solver.
  - intros E. rewrite E in Hf. apply elem_of_app in Hf as [Hf | Hf]; [done |]. set_solver.
  - intros ->. set_solver.
  - apply Hh. set_solver.
  - apply Hh. set_solver.
  - apply Hh. set_solver.
Qed.

Lemma ring_mono h h' f g c l :
  (forall p, p ∈ c :: l -> here h p -> here h' p /\ f (nd h' p) = f (nd h p) /\ g (nd h' p) = g (nd h p)) ->
  ring h f g c l -> ring h' f g c l.
Proof.
  intros He (Hnd & Hch & Hh). rewrite Forall_forall in Hh.
  assert (He' : forall p, p ∈ c :: l -> here h' p /\ f (nd h' p) = f (nd h p) /\ g (nd h' p) = g (nd h p)) by auto.
  split; [done |]. split.
  - eapply chain_ext; [| | exact Hch]; cbn; intros p Hp; apply He'; [done |].
    apply elem_of_app in Hp as [Hp | ->%list_elem_of_singleton]; [by right | by left].
  - apply Forall_forall. intros p Hp. by apply He'.
Qed.
Lemma ring_ext h h' f g c l : (forall p, here h' p <-> here h p) ->
  (forall p, p ∈ c :: l -> f (nd h' p) = f (nd h p) /\ g (nd h' p) = g (nd h p)) -> ring h f g c l -> ring h' f g c l.
Proof. intros Hd He. apply ring_mono. intros p Hp. rewrite Hd. split; [done | by apply He]. Qed.

(** A ring can be entered anywhere. *)
Lemma ring_rotate h f g a l1 x l2 : ring h f g a (l1 ++ x :: l2) -> ring h f g x (l2 ++ a :: l1).
Proof.
  intros (Hnd & Hch & Hh). assert (Hp : a :: l1 ++ x :: l2 ≡ₚ x :: l2 ++ a :: l1).
  { rewrite <- !Permutation_middle. rewrite (Permutation_app_comm l1). apply perm_swap. }
  split; [by rewrite <- Hp |]. split; [| by rewrite <- Hp]. apply chain_app in Hch as [H1 H2]. by apply chain_app.
Qed.

Lemma hidden_vert h h' K V c j : vert h K V -> c ∈ K -> j ∈ V c -> hidden j h h' ->
  vert h' K (fun d => filter (.≠ j) (V d)).
Proof.
  intros Hv Hc Hj [[Hd Hcalm] Hf]. pose proof Hv as [Hr Hs Hcol Ha].
  pose proof Hj as (l1 & l2 & Hl)%list_elem_of_split.
  pose proof (Hr c Hc) as Hring. pose proof Hring as (Hnd & Hch & Hh). rewrite Hl in Hring, Hnd, Hch.
  destruct (ring_links _ _ _ _ _ _ _ Hring) as (_ & _ & Hu & Hdn & _ & _ & Hcj & _).
  pose proof (Hcol c j Hc Hj) as Hcc.
  assert (Hout : forall d, d ∈ K -> d <> c -> filter (.≠ j) (V d) = V d).
  { intros d HdK Hne. apply filter_all, Forall_forall. intros p Hp ->. apply Hne.
    apply (Ha d c j); [done | done | set_solver | set_solver]. }
  assert (Hin : filter (.≠ j) (V c) = l1 ++ l2).
  { rewrite Hl. apply filter_others. by apply NoDup_cons in Hnd as [_ ?]. }
  assert (Hfar : forall d p, d ∈ K -> d <> c -> p ∈ d :: V d ->
    up (nd h j) <> p /\ down (nd h j) <> p /\ col (nd h j) <> p).
  { intros d p HdK Hne Hp.
    assert (Hnot : p ∉ c :: V c) by (intros Hp'; apply Hne; by apply (Ha d c p)).
    rewrite Hl in Hnot. rewrite Hcc. split_and!; intros <-; apply Hnot; set_solver. }
  split.
  - intros d HdK. destruct (decide (d = c)) as [-> | Hne].
    + rewrite Hin. split; [| split].
      * apply NoDup_cons in Hnd as [Hnc Hnd]. apply NoDup_cons. split; [set_solver |].
        apply NoDup_app in Hnd as (? & Hdis & Hnd). apply NoDup_cons in Hnd as [_ ?].
        apply NoDup_app. split; [done |]. split; [set_solver | done].
      * apply chain_app in Hch as [H1 H2]. eapply chain_ext; [| | apply (chain_splice (fun p => down (nd h p)) (fun p => up (nd h p)) l2 j c l1 c Hnd); [| exact H1 | exact H2]].
        -- intros p _. cbn. destruct (Hf p) as (_ & -> & _). done.
        -- intros p _. cbn. destruct (Hf p) as (-> & _). done.
        -- apply NoDup_cons in Hnd as [Hnc _]. done.
      * rewrite Hl in Hh. rewrite Forall_forall in *. intros p Hp. apply Hd, Hh. set_solver.
    + rewrite Hout by done. eapply ring_ext; [exact Hd | | by apply Hr]. intros p Hp.
      destruct (Hfar d p HdK Hne Hp) as (? & ? & ?). destruct (Hf p) as (-> & -> & _). by rewrite !decide_False.
  - intros d HdK. destruct (Hf d) as (_ & _ & ->). rewrite (Hs d HdK), Hcc. destruct (decide (c = d)) as [<- | Hne].
    + rewrite Hin, Hl. rewrite !zlen_app, zlen_cons. lia.
    + by rewrite Hout.
  - intros d x HdK [_ Hx]%list_elem_of_filter. destruct (Hcalm x) as (_ & _ & -> & _). by apply Hcol.
  - intros d e p HdK HeK Hp Hp'. apply (Ha d e p); [done | done | |].
    + apply elem_of_cons in Hp as [-> | [_ Hp]%list_elem_of_filter]; set_solver.
    + apply elem_of_cons in Hp' as [-> | [_ Hp']%list_elem_of_filter]; set_solver.
Qed.

Lemma hide_ok h K V c j : vert h K V -> c ∈ K -> j ∈ V c ->
  exists h', hide j h = Ok h' /\ unhide j h' = Ok h /\ calm h h' /\ vert h' K (fun d => filter (.≠ j) (V d)).
Proof.
  intros Hv Hc Hj. pose proof (v_ring _ _ _ Hv c Hc) as Hring. pose proof (v_col _ _ _ Hv c j Hc Hj) as Hcol.
  pose proof Hring as (_ & _ & Hh). pose proof Hj as (l1 & l2 & Hl)%list_elem_of_split. rewrite Hl in Hring.
  destruct (ring_links _ _ _ _ _ _ _ Hring) as (Bu & Bd & _ & _ & Nu & Nd & Nc & Hj' & Hu & Hd).
  destruct (hide_unhide j h) as (h' & H1 & H2 & H3); try done; rewrite ?Hcol; try done.
  { by apply Forall_inv in Hh. }
  exists h'. split; [done |]. split; [done |]. split; [apply H3 |]. by apply (hidden_vert h h' K V c j).
Qed.

(** ** The matrix *)

(** A row: its nodes with their columns. *)
Abbreviation row := (list (nat * nat)).
Definition nodes_of (rs : list row) (c : nat) : list nat := (filter (fun x => x.2 = c) (mjoin rs)).*1.
Definition without (c : nat) (rs : list row) : list row := filter (fun r => c ∉ r.*2) rs.

Lemma elem_of_nodes rs c p : p ∈ nodes_of rs c <-> exists r, r ∈ rs /\ (p, c) ∈ r.
Proof.
  unfold nodes_of. rewrite list_elem_of_fmap. split.
  - intros ([p' c'] & -> & [Heq (r & Hx & Hr)%list_elem_of_join]%list_elem_of_filter). cbn in *. subst c'. by exists r.
  - intros (r & Hr & Hx). exists (p, c). split; [done |]. apply list_elem_of_filter. split; [done |].
    apply list_elem_of_join. by exists r.
Qed.

(** The ring of a row, from each of its nodes. *)
Definition row_ok (h : heap) (r : row) : Prop :=
  forall l1 x l2, r = l1 ++ x :: l2 -> ring h right left x.1 (l2 ++ l1).*1.

Lemma row_ok_first h x (l : row) : ring h right left x.1 l.*1 -> row_ok h (x :: l).
Proof.
  intros Hr [| y l1] z l2 Heq; injection Heq as -> ->; [by rewrite app_nil_r |].
  rewrite fmap_app, fmap_cons in Hr |- *. by apply ring_rotate.
Qed.
Lemma nodes_of_single (r : row) c : nodes_of [r] c = (filter (fun x => x.2 = c) r).*1.
Proof. unfold nodes_of. change (mjoin [r]) with (r ++ []). by rewrite app_nil_r. Qed.
Lemma nodes_of_snoc rs (r : row) c : nodes_of (rs ++ [r]) c = nodes_of rs c ++ nodes_of [r] c.
Proof.
  unfold nodes_of. rewrite <- fmap_app, <- filter_app. do 2 f_equal. induction rs as [| r0 rs IH]; [done |].
  change (mjoin ((r0 :: rs) ++ [r])) with (r0 ++ mjoin (rs ++ [r])). rewrite IH. apply app_assoc.
Qed.

Lemma calm_row h h' r : calm h h' -> row_ok h r -> row_ok h' r.
Proof.
  intros [Hd Hn] Hr l1 x l2 Hl. eapply ring_ext; [exact Hd | | by apply Hr].
  intros p _. destruct (Hn p) as (-> & -> & _). done.
Qed.

Definition minus (gone l : list nat) : list nat := filter (.∉ gone) l.
Lemma filter_gone (l gone : list nat) y : filter (.≠ y) (minus gone l) = minus (gone ++ [y]) l.
Proof. unfold minus. rewrite list_filter_filter. apply list_filter_iff. intros p. set_solver. Qed.
Lemma minus_nil l : minus [] l = l.
Proof. apply filter_all, Forall_forall. set_solver. Qed.
Lemma elem_of_minus gone l p : p ∈ minus gone l <-> p ∉ gone /\ p ∈ l.
Proof. unfold minus. by rewrite list_elem_of_filter. Qed.

Definition bounded (h : heap) : Prop := forall p, here h p -> Z.of_nat p < kMaxNodes.
Lemma calm_bounded h h' : calm h h' -> bounded h -> bounded h'.
Proof. intros [Hd _] Hb p Hp. by apply Hb, Hd. Qed.

(** The mates of a node of a row are hidden, and shown again. *)
Lemma hide_row_ok h K V r l1 x l2 : bounded h -> vert h K V -> row_ok h r -> r = l1 ++ x :: l2 ->
  NoDup r.*1 -> (forall y, y ∈ l2 ++ l1 -> y.2 ∈ K /\ y.1 ∈ V y.2) ->
  exists h', for_ring right x.1 hide h = Ok h' /\ for_ring left x.1 unhide h' = Ok h
    /\ calm h h' /\ vert h' K (fun d => minus (l2 ++ l1).*1 (V d)).
Proof.
  intros Hb Hv Hrow Hr Hnd Hm.
  apply (walk_and_back right left x.1 (l2 ++ l1).*1 hide unhide
    (fun done h1 => calm h h1 /\ vert h1 K (fun d => minus done (V d)))).
  - intros done h1 [Hc _]. split; [| by apply (calm_bounded h)]. eapply calm_row in Hrow; [| exact Hc]. by apply Hrow.
  - intros done p todo h1 Hl [Hc Hv1].
    assert (Hy : exists y, y ∈ l2 ++ l1 /\ y.1 = p).
    { assert (p ∈ (l2 ++ l1).*1) as (y & -> & ?)%list_elem_of_fmap by (rewrite Hl; set_solver). by exists y. }
    destruct Hy as (y & Hy & <-). destruct (Hm y Hy) as [HK HV].
    assert (Hnew : y.1 ∉ done).
    { assert (Hnd' : NoDup (l2 ++ l1).*1).
      { assert (Hp : r.*1 ≡ₚ x.1 :: (l2 ++ l1).*1).
        { rewrite Hr, !fmap_app. cbn. rewrite (Permutation_app_comm (l2.*1)). symmetry. apply Permutation_middle. }
        rewrite Hp in Hnd. by apply NoDup_cons in Hnd as [_ ?]. }
      rewrite Hl in Hnd'. apply NoDup_app in Hnd' as (_ & Hdis & _). intros Hin. apply (Hdis _ Hin). set_solver. }
    destruct (hide_ok h1 K _ y.2 y.1 Hv1 HK) as (h2 & H1 & H2 & H3 & H4); [by apply elem_of_minus |].
    exists h2. split; [done |]. split; [done |]. split; [by eapply calm_heap_trans |].
    eapply vert_ext; [| exact H4]. intros d _. cbn. apply filter_gone.
  - split; [apply calm_heap_refl |]. eapply vert_ext; [| exact Hv]. intros d _. by rewrite minus_nil.
Qed.

(** The ring of headers: [c] is unlinked, and linked again. *)
Definition unlink (c : nat) (h : heap) : res heap :=
  n ← load h c;
  h ← store (right n) (set_left (left n)) h;
  n ← load h c;
  store (left n) (set_right (right n)) h.
Definition relink (c : nat) (h : heap) : res heap :=
  n ← load h c;
  h ← store (right n) (set_left c) h;
  n ← load h c;
  store (left n) (set_right c) h.

Lemma unlink_relink h root l1 c l2 : ring h right left root (l1 ++ c :: l2) ->
  exists h', unlink c h = Ok h' /\ relink c h' = Ok h /\ (forall p, here h' p <-> here h p)
    /\ ring h' right left root (l1 ++ l2)
    /\ forall p, up (nd h' p) = up (nd h p) /\ down (nd h' p) = down (nd h p) /\ size (nd h' p) = size (nd h p)
         /\ col (nd h' p) = col (nd h p) /\ name (nd h' p) = name (nd h p)
         /\ (p ∉ root :: l1 ++ c :: l2 -> left (nd h' p) = left (nd h p) /\ right (nd h' p) = right (nd h p)).
Proof.
  intros Hring. destruct (ring_links _ _ _ _ _ _ _ Hring) as (Bl & Br & Hl & Hr & Nl & Nr & Nc & Hc & Hhl & Hhr).
  unfold unlink. rewrite load_ok by done. rsimp.
  set (lf := left (nd h c)) in *. set (rt := right (nd h c)) in *. rewrite store_ok by done. rsimp.
  set (h1 := <[rt := set_left lf (nd h rt)]> h).
  assert (E1 : nd h1 c = nd h c) by (unfold h1; rewrite nd_insert, decide_False by done; done).
  assert (D1 : forall p, here h1 p <-> here h p) by (intros p; unfold h1; rewrite here_insert; naive_solver).
  rewrite load_ok by by apply D1. rsimp. rewrite E1. fold lf rt. rewrite store_ok by by apply D1.
  set (h2 := <[lf := set_right rt (nd h1 lf)]> h1).
  assert (E2 : nd h2 c = nd h c) by (unfold h2; rewrite nd_insert, decide_False by done; done).
  assert (D2 : forall p, here h2 p <-> here h p) by (intros p; unfold h2; rewrite here_insert, D1; naive_solver).
  assert (F : forall p, nd h2 p = mkNode (if decide (rt = p) then lf else left (nd h p))
    (if decide (lf = p) then rt else right (nd h p)) (up (nd h p)) (down (nd h p)) (col (nd h p)) (name (nd h p)) (size (nd h p))).
  { intros p. unfold h2, h1. clear. clearbody lf rt. rewrite !nd_insert. repeat case_decide; subst; by apply node_eq. }
  exists h2. split; [done |]. split; [| split; [done | split]].
  - unfold relink. rewrite load_ok by by apply D2. rsimp. rewrite E2. fold rt. rewrite store_ok by by apply D2. rsimp.
    set (h3 := <[rt := _]> h2).
    assert (E3 : nd h3 c = nd h c) by (unfold h3; rewrite nd_insert, decide_False by done; done).
    assert (D3 : forall p, here h3 p <-> here h p) by (intros p; unfold h3; rewrite here_insert, D2; naive_solver).
    rewrite load_ok by by apply D3. rsimp. rewrite E3. fold lf. rewrite store_ok by by apply D3. f_equal.
    apply heap_eq; intros p.
    + rewrite here_insert, D3. naive_solver.
    + intros _. rewrite nd_insert. unfold h3. rewrite !nd_insert, !F. clear - Bl Br. clearbody lf rt.
      repeat case_decide; subst; apply node_eq; cbn; congruence.
  - destruct Hring as (Hnd & Hch & Hh). split; [| split].
    + assert (Hp : l1 ++ c :: l2 ≡ₚ c :: l1 ++ l2) by (symmetry; apply Permutation_middle). rewrite Hp in Hnd.
      apply NoDup_cons in Hnd as [H1 Hnd]. apply NoDup_cons in Hnd as [_ Hnd]. apply NoDup_cons. split; [set_solver | done].
    + apply chain_app in Hch as [H1 H2].
      eapply chain_ext; [| | apply (chain_splice (fun p => right (nd h p)) (fun p => left (nd h p)) l2 c root l1 root Hnd); [| exact H1 | exact H2]].
      * intros p _. cbn. rewrite F. done.
      * intros p _. cbn. rewrite F. done.
      * apply NoDup_cons in Hnd as [? _]. done.
    + rewrite Forall_forall in *. intros p Hp. apply D2, Hh. set_solver.
  - intros p. rewrite F. cbn. split_and!; try done. intros Hp. rewrite !decide_False; [done | |]; intros <-; set_solver.
Qed.

Lemma same_row_aux (rows : list row) r r' p : NoDup (mjoin rows).*1 ->
  r ∈ rows -> r' ∈ rows -> p ∈ r.*1 -> p ∈ r'.*1 -> r = r'.
Proof.
  assert (Hin : forall (rows : list row) r p, r ∈ rows -> p ∈ r.*1 -> p ∈ (mjoin rows).*1).
  { intros rows1 r1 p1 Hr (x & -> & Hx)%list_elem_of_fmap. apply list_elem_of_fmap. exists x. split; [done |].
    apply list_elem_of_join. by exists r1. }
  induction rows as [| r0 rows IH]; intros Hnd Hr Hr' Hp Hp'; [by apply not_elem_of_nil in Hr |].
  cbn in Hnd. rewrite fmap_app in Hnd. apply NoDup_app in Hnd as (_ & Hdis & Hnd).
  apply elem_of_cons in Hr as [-> | Hr], Hr' as [-> | Hr']; [done | | |].
  - exfalso. apply (Hdis p Hp). by eapply Hin.
  - exfalso. apply (Hdis p Hp'). by eapply Hin.
  - by apply IH.
Qed.

Lemma split_row r x (c : nat) : (x, c) ∈ r -> NoDup r.*1 ->
  exists l1 l2 : row, r = l1 ++ (x, c) :: l2 /\ (forall y, y ∈ (l2 ++ l1).*1 <-> y ∈ r.*1 /\ y <> x)
    /\ (forall y, y ∈ l2 ++ l1 -> y ∈ r).
Proof.
  intros (l1 & l2 & ->)%list_elem_of_split Hnd. exists l1, l2. split; [done |].
  rewrite !fmap_app in Hnd |- *. cbn in Hnd |- *. apply NoDup_app in Hnd as (_ & Hdis & Hnd).
  apply NoDup_cons in Hnd as [Hx _]. split; [| set_solver]. intros y. split.
  - intros Hy. split; [set_solver |]. intros ->. apply elem_of_app in Hy as [Hy | Hy]; [done |]. apply (Hdis _ Hy). set_solver.
  - intros [Hy Hne]. set_solver.
Qed.

Definition avoid (ds : list nat) (rs : list row) : list row := filter (fun r => Forall (.∉ r.*2) ds) rs.

(** ** Exact covers *)

(** Rows of [rs] that have every column of [cs] once. *)
Definition exact (cs : list nat) (rs S : list row) : Prop := S ⊆ rs /\ (mjoin S).*2 ≡ₚ cs.

Lemma mjoin_cons (r : row) (S : list row) : (mjoin (r :: S)).*2 = r.*2 ++ (mjoin S).*2.
Proof. change (mjoin (r :: S)) with (r ++ mjoin S). apply fmap_app. Qed.
Lemma elem_of_avoid ds rs (r : row) : r ∈ avoid ds rs <-> r ∈ rs /\ forall d, d ∈ ds -> d ∉ r.*2.
Proof. unfold avoid. rewrite list_elem_of_filter, Forall_forall. tauto. Qed.

(** Every cover has a row for [c], and the rest covers what is left. *)
Lemma exact_pick cs rs S c : NoDup cs -> exact cs rs S -> c ∈ cs ->
  exists (r : row) (S' : list row), r ∈ rs /\ c ∈ r.*2 /\ exact (minus r.*2 cs) (avoid r.*2 rs) S'.
Proof.
  intros Hnd [Hsub Hp] Hc. rewrite <- Hp in Hc. apply list_elem_of_fmap in Hc as (x & -> & (r & Hx & Hr)%list_elem_of_join).
  apply list_elem_of_split in Hr as (S1 & S2 & ->). exists r, (S1 ++ S2).
  assert (Hp' : (mjoin (r :: S1 ++ S2)).*2 ≡ₚ cs) by (by rewrite (Permutation_middle S1 S2 r)).
  rewrite mjoin_cons in Hp'. rewrite <- Hp' in Hnd. apply NoDup_app in Hnd as (_ & Hdis & _).
  split; [apply Hsub; set_solver |]. split; [apply list_elem_of_fmap; by exists x |]. split.
  - intros r' Hr'. apply elem_of_avoid. split; [apply Hsub; set_solver |]. intros d Hd Hd'. apply (Hdis d Hd).
    apply list_elem_of_fmap in Hd' as (y & -> & Hy). apply list_elem_of_fmap. exists y. split; [done |].
    apply list_elem_of_join. by exists r'.
  - unfold minus. rewrite <- Hp', filter_app. rewrite filter_none, filter_all; [done | |]; apply Forall_forall; set_solver.
Qed.

Lemma exact_add cs rs S (r : row) : NoDup cs -> NoDup r.*2 -> r.*2 ⊆ cs -> r ∈ rs ->
  exact (minus r.*2 cs) (avoid r.*2 rs) S -> exact cs rs (r :: S).
Proof.
  intros Hnd Hndr Hin Hr [Hsub Hp]. split.
  - intros r' [-> | Hr']%elem_of_cons; [done |]. apply Hsub, elem_of_avoid in Hr' as [? _]. done.
  - rewrite mjoin_cons, Hp. apply NoDup_Permutation; [| done |].
    + apply NoDup_app. split; [done |]. split; [intros d Hd [Hd' _]%elem_of_minus; done | by apply NoDup_filter].
    + intros d. rewrite elem_of_app, elem_of_minus. split; [intros [Hd | [_ Hd]]; [by apply Hin | done] |].
      intros Hd. destruct (decide (d ∈ r.*2)); [by left | by right].
Qed.

(** What is left when [c] and then the columns of the mates were covered. *)
Lemma covered_all cs rs (r l1 : row) x l2 : r = l1 ++ x :: l2 ->
  minus (l2 ++ l1).*2 (filter (.≠ x.2) cs) = minus r.*2 cs
  /\ avoid (l2 ++ l1).*2 (without x.2 rs) = avoid r.*2 rs.
Proof.
  intros ->. split.
  - unfold minus. rewrite list_filter_filter. apply list_filter_iff. intros p.
    rewrite !fmap_app, fmap_cons, !not_elem_of_app, not_elem_of_cons. tauto.
  - unfold avoid, without. rewrite list_filter_filter. apply list_filter_iff. intros r'.
    rewrite !Forall_forall, !fmap_app, fmap_cons. setoid_rewrite elem_of_app. setoid_rewrite elem_of_cons. split.
    + intros [H1 H2] d [Hd | [-> | Hd]]; auto.
    + intros H. split; [| auto]. intros d [Hd | Hd]; auto.
Qed.

(** ** The column with the fewest rows *)

Lemma min_loop_ok h (l : list nat) root c0 : forall n cc c sz,
  chain (fun p => right (nd h p)) (fun p => left (nd h p)) c0 l root -> cc = default root (head l) ->
  root ∉ l -> Forall (here h) l -> (length l < n)%nat ->
  exists c', min_loop n root cc c sz h = Ok c' /\ c' ∈ c :: l.
Proof.
  revert c0. induction l as [| x l IH]; intros c0 n cc c sz Hch -> Hr Hh Hn; (destruct n as [| n]; [cbn in Hn; lia |]).
  - cbn. rewrite decide_True by done. exists c. set_solver.
  - cbn [head from_option id min_loop chain] in *. apply not_elem_of_cons in Hr as [Hx Hr]. apply Forall_cons in Hh as [Hhx Hh].
    destruct Hch as (_ & _ & Hch). rewrite decide_False, load_ok by done. rsimp.
    pose proof (chain_next _ _ _ _ _ Hch) as Hnext. cbn beta in Hnext. cbn [length] in Hn.
    destruct (_ <? _); [destruct (_ <=? _) |].
    + exists x. set_solver.
    + destruct (IH x n (right (nd h x)) x (size (nd h x)) Hch Hnext Hr Hh) as (c' & -> & Hc'); [lia |]. exists c'. set_solver.
    + destruct (IH x n (right (nd h x)) c sz Hch Hnext Hr Hh) as (c' & -> & Hc'); [lia |]. exists c'. set_solver.
Qed.
Section matrix.
Variables (root : nat) (hs : list nat) (rows0 : list row).

(** The full matrix: no node twice, no column twice in a row, and no header
    among the nodes. *)
Record matrix : Prop := {
  m_nodes : NoDup (mjoin rows0).*1;
  m_cols r : r ∈ rows0 -> NoDup r.*2;
  m_heads r x : r ∈ rows0 -> x ∈ r -> x.1 ∉ root :: hs
}.
Hypothesis Hm : matrix.

Lemma same_row r r' p : r ∈ rows0 -> r' ∈ rows0 -> p ∈ r.*1 -> p ∈ r'.*1 -> r = r'.
Proof using Hm. apply same_row_aux, Hm. Qed.
Lemma row_nodup r : r ∈ rows0 -> NoDup r.*1.
Proof using Hm.
  destruct Hm as [Hn _ _]. clear Hm. revert Hn. induction rows0 as [| r0 rows IH]; intros Hnd Hr; [by apply not_elem_of_nil in Hr |].
  cbn in Hnd. rewrite fmap_app in Hnd. apply NoDup_app in Hnd as (H1 & _ & H2).
  apply elem_of_cons in Hr as [-> | Hr]; [done | by apply IH].
Qed.
Lemma same_col r p q c : r ∈ rows0 -> (p, c) ∈ r -> (q, c) ∈ r -> p = q.
Proof using Hm.
  intros Hr Hp Hq. pose proof (m_cols Hm r Hr) as Hnd.
  apply list_elem_of_lookup in Hp as [i Hi], Hq as [j Hj].
  assert (i = j) as <-; [| congruence]. eapply (NoDup_lookup r.*2 i j c Hnd); rewrite list_lookup_fmap.
  - by rewrite Hi.
  - by rewrite Hj.
Qed.
Lemma same_node r p c d : r ∈ rows0 -> (p, c) ∈ r -> (p, d) ∈ r -> c = d.
Proof using Hm.
  intros Hr Hp Hq. pose proof (row_nodup r Hr) as Hnd.
  apply list_elem_of_lookup in Hp as [i Hi], Hq as [j Hj].
  assert (i = j) as <-; [| congruence]. eapply (NoDup_lookup r.*1 i j p Hnd); rewrite list_lookup_fmap.
  - by rewrite Hi.
  - by rewrite Hj.
Qed.

(** What is gone when the rows of the nodes [done] of column [c] were hidden. *)
Definition gone_rows (rs : list row) (c : nat) (done gone : list nat) : Prop :=
  forall y, y ∈ gone <-> exists r x, r ∈ rs /\ x ∈ done /\ (x, c) ∈ r /\ y ∈ r.*1 /\ y <> x.

(** The nodes of a column that are left when the rows that meet [c] went. *)
Lemma gone_nodes rs c gone d : rs ⊆ rows0 -> gone_rows rs c (nodes_of rs c) gone -> d <> c ->
  minus gone (nodes_of rs d) = nodes_of (without c rs) d.
Proof using Hm.
  intros Hsub Hg Hne.
  assert (Hyes : forall r p, r ∈ rs -> c ∈ r.*2 -> (p, d) ∈ r -> p ∈ gone).
  { intros r p Hr ([x c'] & -> & Hx)%list_elem_of_fmap Hp. cbn in *. apply Hg. exists r, x. split; [done |].
    split; [apply elem_of_nodes; by exists r |]. split; [done |]. split; [apply list_elem_of_fmap; by exists (p, d) |].
    intros ->. apply Hne. by apply (same_node r x d c'); [apply Hsub | ..]. }
  assert (Hno : forall r p, r ∈ rs -> c ∉ r.*2 -> (p, d) ∈ r -> p ∉ gone).
  { intros r p Hr Hc Hp (r' & x & Hr' & _ & Hx & Hy & _)%Hg. apply Hc.
    assert (r = r') as ->; [| apply list_elem_of_fmap; by exists (x, c)].
    apply (same_row r r' p); [by apply Hsub | by apply Hsub | | done]. apply list_elem_of_fmap. by exists (p, d). }
  clear Hsub Hg. unfold minus, nodes_of, without. induction rs as [| r rs IH]; [done |].
  change (mjoin (r :: rs)) with (r ++ mjoin rs). rewrite filter_app, fmap_app, filter_app. rewrite IH;
    [| intros q p Hq; apply (Hyes q p), list_elem_of_further, Hq | intros q p Hq; apply (Hno q p), list_elem_of_further, Hq].
  destruct (decide (c ∈ r.*2)) as [Hc | Hc].
  - rewrite filter_cons_False by tauto. rewrite filter_none; [done |]. apply Forall_forall.
    intros p ([p' d'] & -> & [Heq Hp]%list_elem_of_filter)%list_elem_of_fmap. cbn in *. subst d'.
    intros Hn. apply Hn, (Hyes r); [by left | done | done].
  - rewrite filter_cons_True by done. change (mjoin (r :: ?l)) with (r ++ mjoin l).
    rewrite filter_app, fmap_app. f_equal. apply filter_all, Forall_forall.
    intros p ([p' d'] & -> & [Heq Hp]%list_elem_of_filter)%list_elem_of_fmap. cbn in *. subst d'.
    apply (Hno r); [by left | done | done].
Qed.

Lemma gone_keeps rs c done gone : rs ⊆ rows0 -> gone_rows rs c done gone -> minus gone (nodes_of rs c) = nodes_of rs c.
Proof using Hm.
  intros Hsub Hg. apply filter_all, Forall_forall. intros y (r' & Hr' & Hy')%elem_of_nodes (r & x & Hr & _ & Hx & Hy & Hne)%Hg.
  apply Hne. assert (r = r') as <-.
  { apply (same_row r r' y); [by apply Hsub | by apply Hsub | done |]. apply list_elem_of_fmap. by exists (y, c). }
  by apply (same_col r y x c); [apply Hsub | ..].
Qed.

(** The rows that meet [c] are hidden one after the other, and shown again. *)
Lemma hide_rows_ok h cs rs c : bounded h -> vert h cs (nodes_of rs) -> rs ⊆ rows0 -> c ∈ cs ->
  (forall r, r ∈ rows0 -> row_ok h r) -> (forall r x, r ∈ rs -> x ∈ r -> x.2 ∈ cs) ->
  exists h', for_ring down c (fun row => for_ring right row hide) h = Ok h'
    /\ for_ring up c (fun row => for_ring left row unhide) h' = Ok h
    /\ calm h h' /\ exists gone, gone_rows rs c (nodes_of rs c) gone
                             /\ vert h' cs (fun d => minus gone (nodes_of rs d)).
Proof using Hm.
  intros Hb Hv Hsub Hc Hrows Hcols.
  apply (walk_and_back down up c (nodes_of rs c) (fun row => for_ring right row hide) (fun row => for_ring left row unhide)
    (fun done h1 => calm h h1 /\ exists gone, gone_rows rs c done gone /\ vert h1 cs (fun d => minus gone (nodes_of rs d)))).
  - intros done h1 (Hcalm & gone & Hg & Hv1). split; [| by apply (calm_bounded h)].
    pose proof (v_ring _ _ _ Hv1 c Hc) as Hr. cbn beta in Hr. by rewrite (gone_keeps _ _ _ _ Hsub Hg) in Hr.
  - intros done x todo h1 Hl (Hcalm & gone & Hg & Hv1).
    assert (Hx : x ∈ nodes_of rs c) by (rewrite Hl; set_solver). apply elem_of_nodes in Hx as (r & Hr & Hx).
    pose proof (row_nodup r (Hsub r Hr)) as Hnd.
    destruct (split_row r x c Hx Hnd) as (l1 & l2 & Hsplit & Hmates & Hin).
    destruct (hide_row_ok h1 cs _ r l1 (x, c) l2 (calm_bounded _ _ Hcalm Hb) Hv1 (calm_row _ _ _ Hcalm (Hrows r (Hsub r Hr))) Hsplit Hnd)
      as (h2 & H1 & H2 & H3 & H4).
    + intros [y d] Hy. pose proof (Hin _ Hy) as Hyr. split; [by apply (Hcols r)|]. cbn. apply elem_of_minus.
      split; [| apply elem_of_nodes; by exists r].
      intros (r' & x' & Hr' & Hx'd & Hx' & Hy' & _)%Hg.
      assert (r = r') as <-.
      { apply (same_row r r' y); [by apply Hsub | by apply Hsub | | done]. apply list_elem_of_fmap. by exists (y, d). }
      assert (x' = x) as -> by (by apply (same_col r x' x c); [apply Hsub | ..]).
      pose proof (v_ring _ _ _ Hv c Hc) as (Hndc & _). apply NoDup_cons in Hndc as [_ Hndc]. rewrite Hl in Hndc.
      apply NoDup_app in Hndc as (_ & Hdis & _). apply (Hdis x Hx'd). by left.
    + exists h2. split; [done |]. split; [done |]. split; [by eapply calm_heap_trans |].
      exists (gone ++ (l2 ++ l1).*1). split.
      * intros y. rewrite elem_of_app, (Hg y), Hmates. split.
        -- intros [(r' & x' & ? & ? & ?) | [Hy Hne]]; [exists r', x' | exists r, x]; set_solver.
        -- intros (r' & x' & Hr' & Hx'd & Hx' & Hy & Hne). apply elem_of_app in Hx'd as [Hx'd | ->%list_elem_of_singleton].
           ++ left. by exists r', x'.
           ++ right. assert (r = r') as ->; [| done].
              apply (same_row r r' x); [by apply Hsub | by apply Hsub | |]; apply list_elem_of_fmap; by exists (x, c).
      * eapply vert_ext; [| exact H4]. intros d _. unfold minus. rewrite list_filter_filter. apply list_filter_iff. set_solver.
  - split; [apply calm_heap_refl |]. exists []. split.
    + intros y. split; [intros Hy; by apply not_elem_of_nil in Hy |]. intros (? & ? & _ & Hx & _). by apply not_elem_of_nil in Hx.
    + eapply vert_ext; [| exact Hv]. intros d _. by rewrite minus_nil.
Qed.

(** A matrix in the heap: the active columns [cs] and rows [rs], out of the
    columns [hs] and the rows [rows0], with the names of the columns. *)
Variable nm : nat -> Z.
Record repr (h : heap) (cs : list nat) (rs : list row) : Prop := {
  r_bound : bounded h;
  r_head : ring h right left root cs;
  r_vert : vert h cs (nodes_of rs);
  r_cols r x : r ∈ rs -> x ∈ r -> x.2 ∈ cs;
  r_rows0 : rs ⊆ rows0;
  r_heads : cs ⊆ hs;
  r_rows r : r ∈ rows0 -> row_ok h r;
  r_colof r x : r ∈ rows0 -> x ∈ r -> col (nd h x.1) = x.2;
  r_names r x : r ∈ rows0 -> x ∈ r -> name (nd h x.1) = nm x.2
}.


Lemma cover_unlink c h : cover c h = (h ← unlink c h; for_ring down c (fun row => for_ring right row hide) h).
Proof using.
  unfold cover, unlink. destruct (load h c); [| done]. rsimp. destruct (store _ _ _) as [h1 |]; [| done]. rsimp.
  by destruct (load h1 c).
Qed.

(** [cover] takes the column and the rows that meet it out of the matrix, and
    [uncover] puts every node back as it was. *)
Lemma cover_ok h cs rs c : repr h cs rs -> c ∈ cs ->
  exists h', cover c h = Ok h' /\ uncover c h' = Ok h
    /\ repr h' (filter (.≠ c) cs) (without c rs) /\ ring h' down up c (nodes_of rs c).
Proof using Hm.
  intros [Hb Hhead Hv Hcols Hsub Hhs Hrows Hcolof Hnames] Hc.
  pose proof Hc as (l1 & l2 & Hcs)%list_elem_of_split. pose proof Hhead as Hhead'. rewrite Hcs in Hhead'.
  destruct (unlink_relink _ _ _ _ _ Hhead') as (h1 & H1 & R1 & D1 & Hhead1 & F1).
  assert (Hb1 : bounded h1) by (intros p Hp; by apply Hb, D1).
  assert (Hv1 : vert h1 cs (nodes_of rs)).
  { destruct Hv as [Hr Hs Hcol Ha]. split; [| | | exact Ha].
    - intros d Hd. eapply ring_ext; [exact D1 | | by apply Hr]. intros p _. destruct (F1 p) as (-> & -> & _). done.
    - intros d Hd. destruct (F1 d) as (_ & _ & -> & _). by apply Hs.
    - intros d j Hd Hj. destruct (F1 j) as (_ & _ & _ & -> & _). by apply Hcol. }
  assert (Hrows1 : forall r, r ∈ rows0 -> row_ok h1 r).
  { intros r Hr k1 x k2 Hl. eapply ring_ext; [exact D1 | | by apply (Hrows r Hr)]. intros p Hp.
    assert (Hpr : p ∈ r.*1) by (rewrite Hl, fmap_app, fmap_cons; rewrite fmap_app in Hp; set_solver).
    apply list_elem_of_fmap in Hpr as (y & -> & Hy). destruct (F1 y.1) as (_ & _ & _ & _ & _ & HF).
    destruct HF as [-> ->]; [| done]. rewrite <- Hcs. pose proof (m_heads Hm r y Hr Hy) as Hn. set_solver. }
  destruct (hide_rows_ok h1 cs rs c Hb1 Hv1 Hsub Hc Hrows1 Hcols) as (h2 & H2 & R2 & Hcalm & gone & Hg & Hv2).
  exists h2. split; [rewrite cover_unlink, H1; rsimp; exact H2 |].
  split; [unfold uncover; rewrite R2; rsimp; exact R1 |].
  assert (Hcs' : filter (.≠ c) cs = l1 ++ l2).
  { rewrite Hcs. apply filter_others. destruct Hhead' as (Hnd & _). by apply NoDup_cons in Hnd as [_ ?]. }
  split; [split |].
  - by apply (calm_bounded h1).
  - rewrite Hcs'. destruct Hcalm as [D2 F2]. eapply ring_ext; [exact D2 | | exact Hhead1].
    intros p _. destruct (F2 p) as (-> & -> & _). done.
  - eapply vert_ext; [| eapply vert_sub; [| exact Hv2]]; [| by intros d [_ ?]%list_elem_of_filter].
    intros d [Hd _]%list_elem_of_filter. cbn. by apply gone_nodes.
  - intros r x [Hr Hr']%list_elem_of_filter Hx. apply list_elem_of_filter. split; [| by apply (Hcols r)].
    intros <-. apply Hr. apply list_elem_of_fmap. by exists x.
  - intros r [_ Hr]%list_elem_of_filter. by apply Hsub.
  - intros d [_ Hd]%list_elem_of_filter. by apply Hhs.
  - intros r Hr. eapply calm_row; [exact Hcalm | by apply Hrows1].
  - intros r x Hr Hx. destruct Hcalm as [_ F2]. destruct (F2 x.1) as (_ & _ & -> & _).
    destruct (F1 x.1) as (_ & _ & _ & -> & _). by apply (Hcolof r).
  - intros r x Hr Hx. destruct Hcalm as [_ F2]. destruct (F2 x.1) as (_ & _ & _ & ->).
    destruct (F1 x.1) as (_ & _ & _ & _ & -> & _). by apply (Hnames r).
  - pose proof (v_ring _ _ _ Hv2 c Hc) as Hr. cbn beta in Hr. by rewrite (gone_keeps _ _ _ _ Hsub Hg) in Hr.
Qed.

(** Choosing a row: the columns of the mates of one of its nodes are covered,
    and uncovered. *)
Lemma cover_row_ok h cs rs r l1 x l2 : repr h cs rs -> r ∈ rows0 -> r = l1 ++ x :: l2 ->
  (forall y, y ∈ l2 ++ l1 -> y.2 ∈ cs) ->
  exists h', for_ring right x.1 cover_col_of h = Ok h' /\ for_ring left x.1 uncover_col_of h' = Ok h
    /\ repr h' (minus (l2 ++ l1).*2 cs) (avoid (l2 ++ l1).*2 rs).
Proof using Hm.
  intros Hrep Hr Hl Hcs.
  assert (Hnd : NoDup (l2 ++ l1).*2).
  { pose proof (m_cols Hm r Hr) as Hn. assert (Hp : r.*2 ≡ₚ x.2 :: (l2 ++ l1).*2).
    { rewrite Hl, !fmap_app. cbn. rewrite (Permutation_app_comm (l2.*2)). symmetry. apply Permutation_middle. }
    rewrite Hp in Hn. by apply NoDup_cons in Hn as [_ ?]. }
  destruct (walk_and_back right left x.1 (l2 ++ l1).*1 cover_col_of uncover_col_of
    (fun done h1 => exists k k', l2 ++ l1 = k ++ k' /\ done = k.*1 /\ repr h1 (minus k.*2 cs) (avoid k.*2 rs)))
    with (h := h) as (h' & H1 & H2 & k & k' & Hk & Hd & H3).
  - intros done h1 (k & k' & _ & _ & H1). split; [by apply (r_rows _ _ _ H1 r Hr l1 x l2) | apply H1].
  - intros done p todo h1 Hdone (k & k' & Hk & -> & H1). rewrite Hk, fmap_app in Hdone. apply app_inv_head in Hdone.
    destruct k' as [| [p' d] k']; [done |]. cbn in Hdone. injection Hdone as -> _.
    assert (Hy : (p, d) ∈ l2 ++ l1) by (rewrite Hk; set_solver).
    assert (Hyr : (p, d) ∈ r) by (rewrite Hl; set_solver).
    rewrite Hk, fmap_app, fmap_cons in Hnd. apply NoDup_app in Hnd as (_ & Hdis & _).
    destruct (cover_ok h1 _ _ d H1) as (h2 & C1 & C2 & C3 & _).
    { apply elem_of_minus. split; [| by apply (Hcs (p, d))]. intros Hin. apply (Hdis d Hin). by left. }
    assert (Hp : forall h0 cs0 rs0, repr h0 cs0 rs0 -> load h0 p = Ok (nd h0 p) /\ col (nd h0 p) = d).
    { intros h0 cs0 rs0 H0. split; [| by apply (r_colof _ _ _ H0 r (p, d))].
      apply load_ok. apply list_elem_of_split in Hyr as (k1 & k2 & ->).
      destruct (r_rows _ _ _ H0 _ Hr k1 (p, d) k2 eq_refl) as (_ & _ & Hh). by apply Forall_inv in Hh. }
    destruct (Hp _ _ _ H1) as [L1 K1]. destruct (Hp _ _ _ C3) as [L2 K2].
    exists h2. unfold cover_col_of, uncover_col_of. rewrite L1, L2. rsimp. rewrite K1, K2. split; [done |]. split; [done |].
    exists (k ++ [(p, d)]), k'. split; [by rewrite <- app_assoc |]. split; [by rewrite fmap_app |].
    rewrite fmap_app. cbn. unfold avoid, without in *. rewrite filter_gone, list_filter_filter in C3.
    erewrite (list_filter_iff (fun r => Forall _ _)); [exact C3 |]. intros q. rewrite Forall_app, Forall_singleton. tauto.
  - exists [], (l2 ++ l1). split; [done |]. split; [done |]. cbn. rewrite minus_nil. unfold avoid.
    rewrite filter_all by (apply Forall_forall; intros; constructor). done.
  - exists h'. split; [done |]. split; [done |].
    assert (length (l2 ++ l1) = length k) as Hlen by (apply (f_equal length) in Hd; by rewrite !length_fmap in Hd).
    rewrite Hk, length_app in Hlen. destruct k'; [| cbn in Hlen; lia]. rewrite app_nil_r in Hk. by rewrite Hk.
Qed.

Lemma get_min_column_ok h cs rs : repr h cs rs -> cs <> [] -> exists c, get_min_column root h = Ok c /\ c ∈ cs.
Proof using.
  intros Hrep Hne. pose proof (ring_length _ _ _ _ _ (r_bound _ _ _ Hrep) (r_head _ _ _ Hrep)) as Hlen.
  destruct (r_head _ _ _ Hrep) as (Hnd & Hch & Hh). destruct cs as [| c cs]; [done |].
  apply Forall_cons in Hh as [Hr Hh]. apply NoDup_cons in Hnd as [Hnr _].
  pose proof (chain_next _ _ _ _ _ Hch) as Hnext. cbn in Hnext. unfold get_min_column. rewrite load_ok by done. rsimp.
  rewrite Hnext. apply Forall_cons in Hh as [Hhc Hh]. rewrite load_ok by done. rsimp.
  destruct (1 <? _); [| exists c; split; [done | by left]]. cbn [chain] in Hch. destruct Hch as (_ & _ & Hch).
  apply (min_loop_ok h cs root c fuel); try done.
  - by apply (chain_next _ _ _ _ _ Hch).
  - by apply not_elem_of_cons in Hnr as [_ ?].
  - cbn in Hlen. lia.
Qed.

(** ** Reading a row off *)

(** A row names one cell (below 100) and, by the last digit of its other names,
    one value. *)
Definition means (r : row) (i v : Z) : Prop :=
  0 <= i < 100 /\ 0 <= v /\ (exists x, x ∈ r /\ nm x.2 = i) /\ (exists x, x ∈ r /\ 100 <= nm x.2)
  /\ forall x, x ∈ r -> nm x.2 = i \/ (100 <= nm x.2 /\ Z.rem (nm x.2) 10 = v).

Lemma read_row_from h i v p (k : list nat) : forall q cell val n, 0 <= i < 100 -> 0 <= v ->
  chain (fun p => right (nd h p)) (fun p => left (nd h p)) q k p ->
  (forall y, y ∈ q :: k -> here h y /\ (name (nd h y) = i \/ (100 <= name (nd h y) /\ Z.rem (name (nd h y)) 10 = v))) ->
  (cell = i \/ (cell = -1 /\ exists y, y ∈ q :: k /\ name (nd h y) = i)) ->
  (val = v \/ (val = -1 /\ exists y, y ∈ q :: k /\ 100 <= name (nd h y))) ->
  (length k + 1 < n)%nat -> read_row n h q cell val = Ok (i, v).
Proof using.
  induction k as [| y k IH]; intros q cell val n Hi Hv Hch Hall Hc Hval Hn; (destruct n as [| n]; [lia |]);
    cbn [read_row]; destruct ((cell =? -1) || (val =? -1)) eqn:E.
  1, 3: destruct (Hall q ltac:(by left)) as [Hq Hname]; rewrite load_ok by done; rsimp; cbn [chain] in Hch.
  - assert (Hrest : forall c' v', c' = i -> v' = v -> read_row n h (right (nd h q)) c' v' = Ok (i, v)).
    { intros c' v' -> ->. destruct n as [| n]; [cbn in Hn; lia |]. cbn [read_row].
      rewrite (proj2 (Z.eqb_neq i (-1))), (proj2 (Z.eqb_neq v (-1))) by lia. done. }
    destruct Hname as [Hname | [Hge Hname]].
    + rewrite (proj2 (Z.ltb_lt _ _)) by lia. apply Hrest; [done |]. destruct Hval as [-> | (_ & z & Hz & Hge)]; [done |].
      apply list_elem_of_singleton in Hz as ->. lia.
    + rewrite (proj2 (Z.ltb_ge _ _)) by lia. apply Hrest; [| done]. destruct Hc as [-> | (_ & z & Hz & Heq)]; [done |].
      apply list_elem_of_singleton in Hz as ->. lia.
  - destruct Hch as (-> & _ & Hch). cbn [length] in Hn.
    assert (Hsub : forall z, z ∈ y :: k -> z ∈ q :: y :: k) by (intros z Hz; by right).
    destruct Hname as [Hname | [Hge Hname]].
    + rewrite (proj2 (Z.ltb_lt _ _)) by lia. apply IH; try done; [by intros z Hz; apply Hall, Hsub | by left | | lia].
      destruct Hval as [-> | (-> & z & Hz & Hge)]; [by left | right]. split; [done |]. exists z. split; [| done].
      apply elem_of_cons in Hz as [-> | Hz]; [lia | done].
    + rewrite (proj2 (Z.ltb_ge _ _)) by lia. apply IH; try done; [by intros z Hz; apply Hall, Hsub | | by left | lia].
      destruct Hc as [-> | (-> & z & Hz & Heq)]; [by left | right]. split; [done |]. exists z. split; [| done].
      apply elem_of_cons in Hz as [-> | Hz]; [lia | done].
  - apply orb_false_elim in E as [E1%Z.eqb_neq E2%Z.eqb_neq].
    destruct Hc as [-> | [? _]]; [| done]. by destruct Hval as [-> | [? _]].
  - apply orb_false_elim in E as [E1%Z.eqb_neq E2%Z.eqb_neq].
    destruct Hc as [-> | [? _]]; [| done]. by destruct Hval as [-> | [? _]].
Qed.

Lemma read_row_ok h cs rs r i v p : repr h cs rs -> r ∈ rows0 -> means r i v -> p ∈ r.*1 ->
  read_row fuel h p (-1) (-1) = Ok (i, v).
Proof using.
  intros Hrep Hr (Hi & Hv & (x1 & Hx1 & Hn1) & (x2 & Hx2 & Hn2) & Hall) (x & -> & Hx)%list_elem_of_fmap.
  apply list_elem_of_split in Hx as (l1 & l2 & Hl). pose proof (r_rows _ _ _ Hrep r Hr l1 x l2 Hl) as Hring.
  pose proof (ring_length _ _ _ _ _ (r_bound _ _ _ Hrep) Hring) as Hlen. destruct Hring as (_ & Hch & Hh).
  assert (Hin : forall y, y ∈ r -> y.1 ∈ x.1 :: (l2 ++ l1).*1).
  { intros y Hy. rewrite Hl in Hy. apply elem_of_app in Hy as [Hy | [-> | Hy]%elem_of_cons]; [right | by left | right];
      apply list_elem_of_fmap; exists y; (split; [done |]); apply elem_of_app; tauto. }
  apply (read_row_from h i v x.1 (l2 ++ l1).*1); try done.
  - intros y Hy. split; [rewrite Forall_forall in Hh; by apply Hh |].
    assert (Hy' : exists z, z ∈ r /\ y = z.1).
    { rewrite Hl. apply elem_of_cons in Hy as [-> | (z & -> & Hz)%list_elem_of_fmap]; [exists x | exists z]; (split; [| done]).
      - apply elem_of_app. right. by left.
      - apply elem_of_app in Hz as [Hz | Hz]; apply elem_of_app; [right; by right | by left]. }
    destruct Hy' as (z & Hz & ->). rewrite (r_names _ _ _ Hrep r z Hr Hz). by apply Hall.
  - right. split; [done |]. exists x1.1. split; [by apply Hin |]. by rewrite (r_names _ _ _ Hrep r x1 Hr Hx1).
  - right. split; [done |]. exists x2.1. split; [by apply Hin |]. by rewrite (r_names _ _ _ Hrep r x2 Hr Hx2).
  - lia.
Qed.

(** ** The search is right *)

Variable decode : row -> Z * Z.
Hypothesis Hdec : forall r, r ∈ rows0 -> means r (decode r).1 (decode r).2.

Definition fill (cells : list (Z * Z)) (b : list Z) : list Z :=
  foldl (fun b iv => <[Z.to_nat iv.1 := iv.2]> b) b cells.
Definition picks (p : nat) (r : row) : Prop := r ∈ rows0 /\ p ∈ r.*1.

Lemma write_out_ok h cs rs st SR : repr h cs rs -> Forall2 picks st SR -> forall b,
  (forall r, r ∈ rows0 -> (decode r).1 < zlen b) -> write_out h st b = Ok (fill (decode <$> SR) b).
Proof using Hdec.
  intros Hrep. induction 1 as [| p r st SR [Hr Hp] _ IH]; intros b Hb; [done |].
  cbn [write_out fmap list_fmap fill foldl]. rewrite (read_row_ok h cs rs r _ _ p Hrep Hr (Hdec r Hr) Hp). rsimp.
  unfold write_board. pose proof (Hdec r Hr) as (Hi & _). rewrite (proj2 (Z.leb_le _ _)), (proj2 (Z.ltb_lt _ _)) by (auto; lia).
  cbn [andb]. rsimp. apply IH. intros r' Hr'. unfold zlen. rewrite length_insert. by apply Hb.
Qed.

Lemma on_heap_ok f s h : f (nodes_ s) = Ok h -> on_heap f s = Ok (with_heap h s).
Proof using. unfold on_heap. by intros ->. Qed.

(** What a search from the matrix ([cs], [rs]) yields, the rows [SR] having been
    chosen before. *)
Definition searched (cs : list nat) (rs SR : list row) (s : SudokuSolver) (m : res (bool * SudokuSolver)) : Prop :=
  (exists S s', m = Ok (true, s') /\ exact cs rs S /\ inout_ s' = fill (decode <$> SR ++ S) (inout_ s))
  \/ (m = Ok (false, s) /\ forall S, ~ exact cs rs S).

Definition searches (f : SudokuSolver -> res (bool * SudokuSolver)) (n : nat) : Prop := forall s cs rs SR,
  root_ s = root -> (length cs < n)%nat -> repr (nodes_ s) cs rs -> Forall2 picks (stack_ s) SR ->
  (forall r, r ∈ rows0 -> (decode r).1 < zlen (inout_ s)) -> searched cs rs SR s (f s).

Section try.
Variables (f : SudokuSolver -> res (bool * SudokuSolver)) (n : nat) (s : SudokuSolver) (h1 : heap).
Variables (cs : list nat) (rs SR : list row) (c : nat).
Hypothesis Hf : searches f n.
Hypothesis Hroot : root_ s = root.
Hypothesis Hn : (length cs < S n)%nat.
Hypothesis Hrep : repr (nodes_ s) cs rs.
Hypothesis Hstack : Forall2 picks (stack_ s) SR.
Hypothesis Hcells : forall r, r ∈ rows0 -> (decode r).1 < zlen (inout_ s).
Hypothesis Hc : c ∈ cs.
Hypothesis Hun : uncover c h1 = Ok (nodes_ s).
Hypothesis Hrep1 : repr h1 (filter (.≠ c) cs) (without c rs).
Hypothesis Hring : ring h1 down up c (nodes_of rs c).

Lemma try_ok todo : forall done m, nodes_of rs c = done ++ todo -> (length todo < m)%nat ->
  (forall x r S, x ∈ done -> r ∈ rs -> (x, c) ∈ r -> ~ exact (minus r.*2 cs) (avoid r.*2 rs) S) ->
  searched cs rs SR s (try_rows f m c (default c (head todo)) (with_heap h1 s)).
Proof using Type*.
  pose proof (r_head _ _ _ Hrep) as (Hnd & _). apply NoDup_cons in Hnd as [_ Hnd].
  induction todo as [| x todo IH]; intros done m Hl Hm' Hno; (destruct m as [| m]; [cbn in Hm'; lia |]).
  - cbn [head from_option try_rows]. rewrite decide_True by done. erewrite on_heap_ok by exact Hun. rsimp. right.
    split; [by destruct s |]. intros S HS. destruct (exact_pick _ _ _ c Hnd HS Hc) as (r & S' & Hr & Hcr & HS').
    apply list_elem_of_fmap in Hcr as ([p c'] & -> & Hp). rewrite app_nil_r in Hl.
    eapply (Hno p r S'); [rewrite <- Hl; apply elem_of_nodes; by exists r | done | exact Hp | exact HS'].
  - cbn [head from_option id try_rows]. pose proof Hring as (Hndc & Hch & Hh). rewrite Hl in Hndc, Hch.
    rewrite decide_False by (intros ->; apply NoDup_cons in Hndc as [Hx _]; apply Hx, elem_of_app; right; by left).
    assert (Hx : x ∈ nodes_of rs c) by (rewrite Hl; apply elem_of_app; right; by left).
    assert (Hhx : here h1 x) by (rewrite Forall_forall in Hh; apply Hh; by right).
    apply elem_of_nodes in Hx as (r & Hr & Hx). pose proof (r_rows0 _ _ _ Hrep r Hr) as Hr0.
    destruct (split_row r x c Hx (row_nodup r Hr0)) as (l1 & l2 & Hsplit & _ & Hin).
    destruct (cover_row_ok h1 _ _ r l1 (x, c) l2 Hrep1 Hr0 Hsplit) as (h2 & C1 & C2 & C3).
    { intros y Hy. apply list_elem_of_filter. split; [| apply (r_cols _ _ _ Hrep r y Hr); by apply Hin].
      pose proof (m_cols Hm r Hr0) as Hndr. rewrite Hsplit, fmap_app, fmap_cons in Hndr. apply NoDup_app in Hndr as (_ & Hdis & Hndr).
      apply NoDup_cons in Hndr as [Hcn _]. intros E. apply elem_of_app in Hy as [Hy | Hy].
      - apply Hcn. apply list_elem_of_fmap. by exists y.
      - apply (Hdis c); [apply list_elem_of_fmap; by exists y | by left]. }
    destruct (covered_all cs rs r l1 (x, c) l2 Hsplit) as [Ec Er]. cbn [snd] in Ec, Er. rewrite Ec, Er in C3.
    erewrite on_heap_ok by exact C1. rsimp.
    set (s2 := with_heap h2 (with_stack (stack_ (with_heap h1 s) ++ [x]) (with_heap h1 s))).
    assert (Hcols : r.*2 ⊆ cs) by (intros d (y & -> & Hy)%list_elem_of_fmap; by apply (r_cols _ _ _ Hrep r y Hr)).
    assert (Hshort : (length (minus r.*2 cs) < n)%nat).
    { apply Nat.lt_le_trans with (length cs); [| lia]. apply (length_filter_lt _ cs c); [done |].
      intros Hcn. apply Hcn, list_elem_of_fmap. by exists (x, c). }
    destruct (Hf s2 (minus r.*2 cs) (avoid r.*2 rs) (SR ++ [r])) as [(S & s' & -> & HS & Hout) | [-> HS]]; try done.
    + apply Forall2_app; [done |]. constructor; [| done]. split; [done |]. apply list_elem_of_fmap. by exists (x, c).
    + rsimp. left. exists (r :: S), s'. split; [done |]. split; [by apply exact_add; [| apply Hm | ..] |].
      rewrite Hout. by rewrite <- app_assoc.
    + rsimp. erewrite on_heap_ok by exact C2. rsimp.
      assert (Es : with_heap h1 (with_stack (removelast (stack_ s2)) s2) = with_heap h1 s).
      { unfold s2. cbn. rewrite removelast_last. by destruct s. }
      rewrite Es. cbn [nodes_ with_heap]. rewrite load_ok by done. rsimp.
      apply chain_app in Hch as [_ Hpost]. pose proof (chain_next _ _ _ _ _ Hpost) as Hnext. cbn beta in Hnext. rewrite Hnext.
      apply (IH (done ++ [x])); [by rewrite <- app_assoc | cbn in Hm'; lia |].
      intros y r' S [Hy | ->%list_elem_of_singleton]%elem_of_app Hr' Hy'; [by eapply Hno |].
      assert (r' = r) as ->; [| done]. apply (same_row r' r x); [by apply (r_rows0 _ _ _ Hrep) | done | |]; apply list_elem_of_fmap; by exists (x, c).
Qed.
End try.

(** [solve] finds an exact cover when there is one; otherwise it leaves every
    node, and the stack, as they were. *)
Lemma solve_ok n : searches (solve n) n.
Proof using Type*.
  induction n as [| n IH]; intros s cs rs SR Hroot Hn Hrep Hstack Hcells; [lia |].
  cbn [solve]. pose proof (r_head _ _ _ Hrep) as (Hnd & Hch & Hh). pose proof (chain_prev _ _ _ _ _ Hch) as Hprev. cbn beta in Hprev.
  rewrite Hroot, load_ok by (by apply Forall_inv in Hh). rsimp. rewrite Hprev.
  destruct (decide (cs = [])) as [-> | Hne].
  - cbn [last from_option]. rewrite decide_True by done. rewrite (write_out_ok _ [] rs _ SR Hrep Hstack) by done. rsimp. left.
    exists [], (with_inout (fill (decode <$> SR) (inout_ s)) s). split; [done |]. split; [split; [by intros ? ?%not_elem_of_nil | done] |].
    by rewrite app_nil_r.
  - rewrite decide_False.
    2: { destruct cs as [| d cs _] using rev_ind; [done |]. rewrite last_snoc. cbn. intros ->. apply NoDup_cons in Hnd as [Hnd _].
         apply Hnd, elem_of_app. right. by left. }
    destruct (get_min_column_ok _ cs rs Hrep Hne) as (c & Hmin & Hc). rewrite Hmin. rsimp.
    destruct (cover_ok _ cs rs c Hrep Hc) as (h1 & C1 & C2 & C3 & C4). rewrite (on_heap_ok _ s h1) by exact C1. rsimp.
    pose proof C4 as (_ & Hch1 & Hh1). cbn [nodes_ with_heap]. rewrite load_ok by (by apply Forall_inv in Hh1). rsimp.
    pose proof (chain_next _ _ _ _ _ Hch1) as Hnext. cbn beta in Hnext. rewrite Hnext.
    pose proof (ring_length _ _ _ _ _ (r_bound _ _ _ C3) C4) as Hlen.
    apply (try_ok (solve n) n s h1 cs rs SR c IH Hroot Hn Hrep Hstack Hcells Hc C2 C3 C4 _ []); [done | lia |].
    intros x r S Hx. by apply not_elem_of_nil in Hx.
Qed.
End matrix.
