(* ===== verification/Sudoku.v ===== *)
(** * The sudoku solver and its server

    [examples/sudoku/sudoku.cc]: the constructor of [SudokuSolver], which turns
    a board into an exact cover problem, and [solveSudoku]; the search itself is
    in [DancingLinks.v], the server in [SudokuServer.v]. *)
From S2P Require Import Prelude DancingLinks.

(** ** The board as an exact cover problem *)

(*@ muduo/examples/sudoku/sudoku.h 9-9 kCells *)
Definition kCells : Z := 81.
(*@ muduo/examples/sudoku/sudoku.cc 23-24 kMaxColumns *)
Definition kMaxColumns : Z := 400.
Definition kRow : Z := 100.
Definition kCol : Z := 200.
Definition kBox : Z := 300.

(** [for (x : l) f(x)]; the loops of the source run over fixed ranges. *)
Fixpoint for_each {A S} (l : list A) (f : A -> S -> res S) (s : S) : res S :=
  match l with [] => mret s | x :: l => s ← f x s; for_each l f s end.

Definition with_column (n : Z) (c : nat) (s : SudokuSolver) : SudokuSolver :=
  mkSolver (root_ s) (inout_ s) (<[Z.to_nat n := Some c]> (columns_ s)) (stack_ s) (nodes_ s) (cur_node_ s).
Definition column (n : Z) (s : SudokuSolver) : res (option nat) :=
  if 0 <=? n then match columns_ s !! Z.to_nat n with Some o => Ok o | None => Err BadAccess end else Err BadAccess.
Definition cell (b : list Z) (i : Z) : res Z :=
  if 0 <=? i then match b !! Z.to_nat i with Some v => Ok v | None => Err BadAccess end else Err BadAccess.

(** The next node of the array. *)
Definition new_node (n : Node) (s : SudokuSolver) : SudokuSolver :=
  mkSolver (root_ s) (inout_ s) (columns_ s) (stack_ s) (<[Z.to_nat (cur_node_ s) := n]> (nodes_ s)) (cur_node_ s + 1).

(*@ muduo/examples/sudoku/sudoku.cc 140-152 SudokuSolver::new_column *)
Definition new_column (n : Z) (s : SudokuSolver) : res (nat * SudokuSolver) :=
  assert_ (cur_node_ s <? kMaxNodes);;
  let c := Z.to_nat (cur_node_ s) in
  mret (c, new_node (mkNode c c c c c n 0) s).

(*@ muduo/examples/sudoku/sudoku.cc 154-161 SudokuSolver::append_column *)
Definition append_column (n : Z) (s : SudokuSolver) : res SudokuSolver :=
  old ← column n s;
  assert_ (bool_decide (old = None));;
  '(c, s) ← new_column n s;
  s ← on_heap (put_left (root_ s) c) s;
  mret (with_column n c s).

(*@ muduo/examples/sudoku/sudoku.cc 163-180 SudokuSolver::new_row *)
Definition new_row (c : Z) (s : SudokuSolver) : res (nat * SudokuSolver) :=
  old ← column c s;
  match old with
  | None => Err AssertFail
  | Some p =>
      assert_ (cur_node_ s <? kMaxNodes);;
      let r := Z.to_nat (cur_node_ s) in
      s ← on_heap (put_up p r) (new_node (mkNode r r r r p c 0) s);
      mret (r, s)
  end.

(*@ muduo/examples/sudoku/sudoku.cc 182-185 SudokuSolver::get_row_col *)
Definition get_row_col (row val : Z) : Z := kRow + row * 10 + val.
(*@ muduo/examples/sudoku/sudoku.cc 187-190 SudokuSolver::get_col_col *)
Definition get_col_col (col val : Z) : Z := kCol + col * 10 + val.
(*@ muduo/examples/sudoku/sudoku.cc 192-195 SudokuSolver::get_box_col *)
Definition get_box_col (box val : Z) : Z := kBox + box * 10 + val.

Definition row_of (i : Z) : Z := i / 9.
Definition col_of (i : Z) : Z := i mod 9.
Definition box_of (i : Z) : Z := row_of i / 3 * 3 + col_of i / 3.

(** [bool t[kCells][10]]: the entries that are true. *)
Definition table : Type := gset (Z * Z).
Definition set_true (i v : Z) (t : table) : res table :=
  if (0 <=? i) && (i <? kCells) && (0 <=? v) && (v <? 10) then Ok ({[(i, v)]} ∪ t) else Err BadAccess.
Definition is_true (t : table) (i v : Z) : bool := bool_decide ((i, v) ∈ t).

Definition mark (b : list Z) (i : Z) (t : table * table * table) : res (table * table * table) :=
  let '(rows, cols, boxes) := t in
  val ← cell b i;
  rows ← set_true (row_of i) val rows;
  cols ← set_true (col_of i) val cols;
  boxes ← set_true (box_of i) val boxes;
  mret (rows, cols, boxes).
Definition add_row (i v : Z) (s : SudokuSolver) : res SudokuSolver :=
  '(n0, s) ← new_row i s;
  '(nr, s) ← new_row (get_row_col (row_of i) v) s;
  '(nc, s) ← new_row (get_col_col (col_of i) v) s;
  '(nb, s) ← new_row (get_box_col (box_of i) v) s;
  s ← on_heap (put_left n0 nr) s;
  s ← on_heap (put_left n0 nc) s;
  on_heap (put_left n0 nb) s.

(** [memset] clears [columns_] after the root was made. *)
(*@ muduo/examples/sudoku/sudoku.cc 29-89 SudokuSolver::SudokuSolver *)
Definition SudokuSolver_new (board : list Z) : res SudokuSolver :=
  '(root, s) ← new_column 0 (mkSolver 0 board [] [] ∅ 0);
  s ← on_heap (store root (set_right root)) s;
  s ← on_heap (store root (set_left root)) s;
  let s := mkSolver root (inout_ s) (replicate (Z.to_nat kMaxColumns) None) (stack_ s) (nodes_ s) (cur_node_ s) in
  '(rows, cols, boxes) ← for_each (seqZ 0 kCells) (mark board) (∅, ∅, ∅);
  s ← for_each (seqZ 0 kCells) (fun i s =>
        val ← cell board i; if val =? 0 then append_column i s else mret s) s;
  s ← for_each (seqZ 0 9) (fun i => for_each (seqZ 1 9) (fun v s =>
        s ← (if negb (is_true rows i v) then append_column (get_row_col i v) s else mret s);
        s ← (if negb (is_true cols i v) then append_column (get_col_col i v) s else mret s);
        (if negb (is_true boxes i v) then append_column (get_box_col i v) s else mret s))) s;
  for_each (seqZ 0 kCells) (fun i s =>
    val ← cell board i;
    if val =? 0
    then for_each (seqZ 1 9) (fun v s =>
           if negb (is_true rows (row_of i) v || is_true cols (col_of i) v || is_true boxes (box_of i) v)
           then add_row i v s else mret s) s
    else mret s) s.

Definition digit_of (b : byte) : Z := char_val b - 48.

(*@ muduo/examples/sudoku/sudoku.cc 259-288 solveSudoku *)
Definition solveSudoku (puzzle : list byte) : res (list byte) :=
  assert_ (zlen puzzle =? kCells);;
  let board := map digit_of puzzle in
  if forallb (fun v => (0 <=? v) && (v <=? 9)) board
  then
    s ← SudokuSolver_new board;
    '(found, s) ← solve (Z.to_nat kMaxColumns) s;
    mret (if found : bool then map (fun v => byte_of (v + 48)) (inout_ s) else bs "NoSolution")
  else mret (bs "NoSolution").


(** ** The columns by name *)

Definition colptr (names : list Z) (n : Z) : option nat :=
  match list_find (n =.) names with Some (i, _) => Some (S i) | None => None end.
Definition colidx (names : list Z) (n : Z) : nat := default O (colptr names n).
Definition nm (names : list Z) (p : nat) : Z := nth (p - 1) names 0.
Definition heads (names : list Z) : list nat := seq 1 (length names).

Lemma colptr_Some names n p : colptr names n = Some p -> (0 < p)%nat /\ names !! (p - 1)%nat = Some n.
Proof.
  unfold colptr. destruct (list_find _ _) as [[i m] |] eqn:E; [| done]. intros [= <-].
  apply list_find_Some in E as (Hi & <- & _). split; [lia |]. cbn. by rewrite Nat.sub_0_r.
Qed.
Lemma colptr_in names n : n ∈ names -> exists p, colptr names n = Some p.
Proof.
  intros Hn. unfold colptr. destruct (list_find_elem_of (n =.) names n Hn eq_refl) as [[i m] ->]. by eexists.
Qed.
Lemma colptr_None names n : n ∉ names -> colptr names n = None.
Proof.
  intros Hn. destruct (colptr names n) as [p |] eqn:E; [| done]. apply colptr_Some in E as [_ E].
  destruct Hn. by eapply list_elem_of_lookup_2.
Qed.
Lemma colidx_spec names n : n ∈ names ->
  colptr names n = Some (colidx names n) /\ colidx names n ∈ heads names /\ nm names (colidx names n) = n.
Proof.
  intros Hn. destruct (colptr_in names n Hn) as [p Hp]. unfold colidx. rewrite Hp. cbn. split; [done |].
  apply colptr_Some in Hp as [Hp0 Hp]. split.
  - apply elem_of_seq. apply lookup_lt_Some in Hp. lia.
  - unfold nm. by apply nth_lookup_Some.
Qed.
Lemma colptr_snoc names n m : n ∉ names ->
  colptr (names ++ [n]) m = if decide (m = n) then Some (S (length names)) else colptr names m.
Proof.
  intros Hn. unfold colptr. destruct (list_find (m =.) names) as [[i x] |] eqn:E.
  - rewrite (list_find_app_l _ _ _ _ _ E). apply list_find_Some in E as (Hi & <- & _).
    rewrite decide_False; [done |]. intros ->. apply Hn. by eapply list_elem_of_lookup_2.
  - rewrite list_find_app_r by done. cbn. case_decide; [| done]. done.
Qed.

(** ** The constructor builds the matrix *)

(** The four names of a candidate: cell [i] gets [v]. *)
Definition names_of (c : Z * Z) : list Z :=
  [c.1; get_row_col (row_of c.1) c.2; get_col_col (col_of c.1) c.2; get_box_col (box_of c.1) c.2].

Definition untouched (s s' : SudokuSolver) : Prop :=
  root_ s' = root_ s /\ inout_ s' = inout_ s /\ stack_ s' = stack_ s /\ columns_ s' = columns_ s.

(** The rings are right, whatever the rows are. *)
Record partial (names : list Z) (V : nat -> list nat) (s : SudokuSolver) : Prop := {
  p_root : root_ s = O;
  p_cur : zlen names < cur_node_ s;
  p_max : cur_node_ s <= kMaxNodes;
  p_here p : here (nodes_ s) p <-> Z.of_nat p < cur_node_ s;
  p_len : zlen (columns_ s) = kMaxColumns;
  p_cols n : 0 <= n < kMaxColumns -> columns_ s !! Z.to_nat n = Some (colptr names n);
  p_head : ring (nodes_ s) right left O (heads names);
  p_vert : vert (nodes_ s) (heads names) V
}.

Lemma column_ok names V s n : partial names V s -> 0 <= n < kMaxColumns -> column n s = Ok (colptr names n).
Proof.
  intros Hp Hn. unfold column. rewrite (proj2 (Z.leb_le 0 n)) by lia. by rewrite (p_cols _ _ _ Hp n Hn).
Qed.

Lemma heads_snoc names n : heads (names ++ [n]) = heads names ++ [S (length names)].
Proof. unfold heads. rewrite length_app. cbn [length]. rewrite Nat.add_1_r, seq_S. done. Qed.

(** A node at the end of the array. *)
Lemma new_node_ok s n : (forall p, here (nodes_ s) p <-> Z.of_nat p < cur_node_ s) -> 0 <= cur_node_ s ->
  let r := Z.to_nat (cur_node_ s) in let h := nodes_ (new_node n s) in
  ~ here (nodes_ s) r /\ (forall p, here h p <-> Z.of_nat p < cur_node_ s + 1) /\ nd h r = n
  /\ forall p, p <> r -> nd h p = nd (nodes_ s) p.
Proof.
  intros Hh Hc r h. split; [rewrite Hh; unfold r; lia |]. unfold h. cbn [new_node nodes_]. split; [| split].
  - intros p. rewrite here_insert, Hh. unfold r. split; [intros [<- | ?]; lia |].
    intros Hp. destruct (decide (Z.to_nat (cur_node_ s) = p)); [by left | right; lia].
  - rewrite nd_insert. by rewrite decide_True.
  - intros p Hp. rewrite nd_insert. by rewrite decide_False.
Qed.

Lemma append_column_ok names s n : partial names (fun _ => []) s -> cur_node_ s = 1 + zlen names -> n ∉ names ->
  0 <= n < kMaxColumns -> 1 + zlen names < kMaxNodes ->
  exists s', append_column n s = Ok s' /\ partial (names ++ [n]) (fun _ => []) s' /\ cur_node_ s' = 1 + zlen (names ++ [n])
    /\ inout_ s' = inout_ s /\ stack_ s' = stack_ s.
Proof.
  intros Hp Hcur Hn Hr Hmax. unfold append_column. rewrite (column_ok _ _ _ _ Hp Hr), colptr_None by done. rsimp.
  change (assert_ (bool_decide (@None nat = None))) with (Ok tt). rsimp. unfold new_column.
  rewrite (proj2 (Z.ltb_lt _ _)) by lia. cbn [assert_]. rsimp.
  destruct Hp as [Hroot Hc Hm Hh Hlen Hcols Hhead Hvert]. pose proof (zlen_nonneg names) as Hz.
  set (c := Z.to_nat (cur_node_ s)).
  destruct (new_node_ok s (mkNode c c c c c n 0) Hh ltac:(lia)) as (Hfresh & Hh1 & Hnc & Hold). fold c in Hfresh, Hnc, Hold.
  set (s1 := new_node _ s) in *.
  assert (Ec : c = S (length names)) by (unfold c, zlen in *; lia).
  assert (Hhead1 : ring (nodes_ s1) right left O (heads names)).
  { eapply ring_mono; [| exact Hhead]. intros p _ Hp. rewrite Hold by by intros ->. rewrite Hh1.
    apply Hh in Hp. split; [lia | done]. }
  assert (Hcn : c ∉ O :: heads names).
  { rewrite Ec. apply not_elem_of_cons. split; [done |]. unfold heads. rewrite elem_of_seq. lia. }
  destruct (put_left_ok (nodes_ s1) O (heads names) c Hhead1 Hcn) as (h2 & Hrun & D2 & Hhead2 & F2); [apply Hh1; unfold c; lia |].
  erewrite on_heap_ok by (change (root_ s1) with (root_ s); rewrite Hroot; exact Hrun). rsimp. eexists. split; [done |].
  split; [| split; [| done]].
  2: { cbn. rewrite zlen_app. change (zlen [n]) with 1. lia. }
  split; cbn [with_column with_heap root_ cur_node_ nodes_ columns_]; change (cur_node_ s1) with (cur_node_ s + 1).
  - done.
  - rewrite zlen_app. change (zlen [n]) with 1. lia.
  - lia.
  - intros p. by rewrite D2, Hh1.
  - unfold zlen in *. rewrite length_insert. exact Hlen.
  - intros m Hmr. rewrite colptr_snoc by done. case_decide as Hmn.
    + subst m. rewrite list_lookup_insert_eq by (unfold zlen in Hlen; change (columns_ s1) with (columns_ s); lia). by rewrite Ec.
    + rewrite list_lookup_insert_ne by lia. by apply Hcols.
  - rewrite heads_snoc, <- Ec. exact Hhead2.
  - assert (Hin : forall d, d ∈ heads (names ++ [n]) -> d = c \/ d ∈ heads names).
    { intros d. rewrite heads_snoc, elem_of_app, list_elem_of_singleton, <- Ec. tauto. }
    split; [| | by intros d j _ ?%not_elem_of_nil |].
    + intros d Hd. destruct (F2 d) as (Hu & Hdn & _). split; [apply NoDup_singleton |]. split.
      * cbn. rewrite Hu, Hdn. destruct (Hin d Hd) as [-> | Hd']; [by rewrite Hnc |].
        rewrite Hold; [by destruct (v_ring _ _ _ Hvert d Hd') as (_ & ? & _) |]. intros ->. apply Hcn. by right.
      * constructor; [| done]. apply D2, Hh1. destruct (Hin d Hd) as [-> | Hd']; [unfold c; lia |].
        unfold heads in Hd'. apply elem_of_seq in Hd'. unfold zlen in *. lia.
    + intros d Hd. destruct (F2 d) as (_ & _ & -> & _). destruct (Hin d Hd) as [-> | Hd']; [by rewrite Hnc |].
      rewrite Hold; [by apply (v_size _ _ _ Hvert) |]. intros ->. apply Hcn. by right.
    + intros d e p _ _ ->%list_elem_of_singleton ?%list_elem_of_singleton. done.
Qed.

Definition push (c r : nat) (V : nat -> list nat) (d : nat) : list nat := if decide (c = d) then V d ++ [r] else V d.

(** The nodes but [r] keep their places in their rows. *)
Definition same_rows (r : nat) (h h' : heap) : Prop := forall p, p <> r ->
  left (nd h' p) = left (nd h p) /\ right (nd h' p) = right (nd h p) /\ col (nd h' p) = col (nd h p) /\ name (nd h' p) = name (nd h p).

Lemma new_row_ok names V s n : partial names V s -> n ∈ names -> 0 <= n < kMaxColumns -> cur_node_ s < kMaxNodes ->
  let r := Z.to_nat (cur_node_ s) in let c := colidx names n in
  exists s', new_row n s = Ok (r, s') /\ partial names (push c r V) s' /\ cur_node_ s' = cur_node_ s + 1
    /\ inout_ s' = inout_ s /\ stack_ s' = stack_ s /\ same_rows r (nodes_ s) (nodes_ s')
    /\ left (nd (nodes_ s') r) = r /\ right (nd (nodes_ s') r) = r /\ col (nd (nodes_ s') r) = c
    /\ name (nd (nodes_ s') r) = n.
Proof.
  intros Hp Hn Hr Hmax r c. destruct (colidx_spec names n Hn) as (Hcp & Hch & _). fold c in Hcp, Hch.
  unfold new_row. rewrite (column_ok _ _ _ _ Hp Hr), Hcp. rsimp. rewrite (proj2 (Z.ltb_lt _ _)) by done. cbn [assert_]. rsimp. fold r.
  destruct Hp as [Hroot Hc Hm Hh Hlen Hcols Hhead Hvert]. pose proof (zlen_nonneg names) as Hz.
  destruct (new_node_ok s (mkNode r r r r c n 0) Hh ltac:(lia)) as (Hfresh & Hh1 & Hnr & Hold). fold r in Hfresh, Hnr, Hold.
  set (s1 := new_node _ s) in *.
  assert (Hne : forall p, here (nodes_ s) p -> p <> r) by (intros p Hp' ->; done).
  assert (Hmono : forall f g a l, ring (nodes_ s) f g a l -> ring (nodes_ s1) f g a l).
  { intros f g a l. apply ring_mono. intros p _ Hp'. rewrite Hold by by apply Hne. rewrite Hh1. apply Hh in Hp'. split; [lia | done]. }
  pose proof (v_ring _ _ _ Hvert c Hch) as Hring. pose proof Hring as (_ & _ & Hin). rewrite Forall_forall in Hin.
  assert (Hrc : r ∉ c :: V c) by (intros Hr'; by apply (Hne r); [apply Hin |]).
  destruct (put_up_ok (nodes_ s1) c (V c) r (Hmono _ _ _ _ Hring) Hrc) as (h2 & Hrun & D2 & Hring2 & F2); [apply Hh1; unfold r; lia |].
  erewrite on_heap_ok by exact Hrun. rsimp. eexists. split; [done |]. cbn [with_heap cur_node_ inout_ stack_ nodes_].
  change (cur_node_ s1) with (cur_node_ s + 1).
  assert (Hsame : same_rows r (nodes_ s) h2).
  { intros p Hp'. destruct (F2 p) as (-> & -> & -> & _ & -> & _). rewrite decide_False by done. by rewrite Hold. }
  assert (Hcr : c <> r) by (apply Hne, Hin; by left).
  split; [| split_and!; try done].
  2-5: destruct (F2 r) as (H1 & H2 & H3 & _ & H5 & _); rewrite ?H1, ?H2, ?H3, ?H5, ?decide_True, ?Hnr by done; done.
  split; cbn [with_heap root_ cur_node_ nodes_ columns_]; change (cur_node_ s1) with (cur_node_ s + 1); try done.
  - lia.
  - lia.
  - intros p. by rewrite D2, Hh1.
  - eapply ring_ext; [exact D2 | | by apply Hmono]. intros p _. destruct (F2 p) as (-> & -> & _). done.
  - destruct Hvert as [Hvr Hvs Hvc Hva].
    assert (Hfar : forall d p, d ∈ heads names -> d <> c -> p ∈ d :: V d -> p ∉ c :: V c ++ [r] /\ p <> r).
    { intros d p Hd Hdc Hp'. assert (p <> r).
      { apply Hne. destruct (Hvr d Hd) as (_ & _ & Hf). rewrite Forall_forall in Hf. by apply Hf. }
      split; [| done]. intros [-> | [Hp'' | ->%list_elem_of_singleton]%elem_of_app]%elem_of_cons; [| | done].
      - apply Hdc. apply (Hva d c c); [done | done | done | by left].
      - apply Hdc. apply (Hva d c p); [done | done | done | by right]. }
    split; unfold push.
    + intros d Hd. case_decide as Hcd; [by subst d |]. eapply ring_ext; [exact D2 | | by apply Hmono, Hvr].
      intros p Hp'. destruct (Hfar d p Hd) as [Hf _]; [congruence | done |]. destruct (F2 p) as (_ & _ & _ & _ & _ & HF). destruct (HF Hf) as [-> ->]. done.
    + intros d Hd. destruct (F2 d) as (_ & _ & _ & -> & _).
      rewrite Hold by (apply Hne; destruct (Hvr d Hd) as (_ & _ & Hf); by apply Forall_inv in Hf). rewrite (Hvs d Hd).
      case_decide; [by rewrite zlen_snoc | done].
    + intros d j Hd Hj. destruct (F2 j) as (_ & _ & _ & _ & -> & _). case_decide as Hcd.
      * subst d. apply elem_of_app in Hj as [Hj | ->%list_elem_of_singleton]; [| by rewrite decide_True].
        assert (j <> r) by (apply Hne, Hin; by right). rewrite decide_False, Hold by done. by apply Hvc.
      * destruct (Hfar d j Hd) as [_ Hjr]; [congruence | by right |]. rewrite decide_False, Hold by done. by apply Hvc.
    + intros d e p Hd He Hp1 Hp2.
      assert (Hcase : forall d, d ∈ heads names -> p ∈ d :: (if decide (c = d) then V d ++ [r] else V d) ->
        (p = r /\ d = c) \/ (p <> r /\ p ∈ d :: V d)).
      { intros d0 Hd0 Hp0. destruct (decide (p = r)) as [-> | Hpr].
        - left. split; [done |]. case_decide; [done |]. exfalso. destruct (Hfar d0 r Hd0) as [_ ?]; [congruence | done | done].
        - right. split; [done |]. case_decide; [| done]. apply elem_of_cons in Hp0 as [-> | Hp0]; [by left |].
          apply elem_of_app in Hp0 as [Hp0 | ->%list_elem_of_singleton]; [by right | done]. }
      destruct (Hcase d Hd Hp1) as [[? ->] | [? ?]], (Hcase e He Hp2) as [[? ->] | [? ?]]; try done. by apply (Hva d e p).
Qed.

Lemma join_row_ok h a x y z : NoDup [a; x; y; z] -> (forall p, p ∈ [a; x; y; z] -> here h p) ->
  left (nd h a) = a -> right (nd h a) = a ->
  exists h1 h2 h', put_left a x h = Ok h1 /\ put_left a y h1 = Ok h2 /\ put_left a z h2 = Ok h'
    /\ (forall p, here h' p <-> here h p) /\ ring h' right left a [x; y; z]
    /\ forall p, up (nd h' p) = up (nd h p) /\ down (nd h' p) = down (nd h p) /\ size (nd h' p) = size (nd h p)
         /\ col (nd h' p) = col (nd h p) /\ name (nd h' p) = name (nd h p)
         /\ (p ∉ [a; x; y; z] -> left (nd h' p) = left (nd h p) /\ right (nd h' p) = right (nd h p)).
Proof.
  intros Hnd Hh Hl Hr. assert (Hdist : x ∉ [a] /\ y ∉ [a; x] /\ z ∉ [a; x; y]).
  { repeat (apply NoDup_cons in Hnd as [? Hnd]). set_solver. }
  destruct Hdist as (Hx & Hy & Hz).
  assert (R0 : ring h right left a []).
  { split; [apply NoDup_singleton |]. split; [split; [exact Hr | exact Hl] |]. constructor; [apply Hh; by left | done]. }
  destruct (put_left_ok h a [] x R0 Hx) as (h1 & E1 & D1 & R1 & F1); [apply Hh; set_solver |].
  destruct (put_left_ok h1 a [x] y R1 Hy) as (h2 & E2 & D2 & R2 & F2); [apply D1, Hh; set_solver |].
  destruct (put_left_ok h2 a [x; y] z R2 Hz) as (h3 & E3 & D3 & R3 & F3); [apply D2, D1, Hh; set_solver |].
  exists h1, h2, h3. split_and!; try done.
  - intros p. by rewrite D3, D2, D1.
  - intros p. destruct (F1 p) as (-> & -> & -> & -> & -> & G1) || idtac.
    destruct (F3 p) as (-> & -> & -> & -> & -> & G3), (F2 p) as (-> & -> & -> & -> & -> & G2), (F1 p) as (-> & -> & -> & -> & -> & G1).
    split_and!; try done. intros Hp. cbn [app] in *.
    destruct G3 as [-> ->]; [done |]. destruct G2 as [-> ->]; [set_solver |]. destruct G1 as [-> ->]; [set_solver | done].
Qed.

(** The constructor's state after the columns [names] and the rows of [cands]. *)
Definition row_for (names : list Z) (r : row) (c : Z * Z) : Prop := r.*2 = colidx names <$> names_of c.
Record built (b : list Z) (names : list Z) (cands : list (Z * Z)) (rows : list row) (s : SudokuSolver) : Prop := {
  bu_partial : partial names (nodes_of rows) s;
  bu_inout : inout_ s = b;
  bu_stack : stack_ s = [];
  bu_cur : cur_node_ s = 1 + zlen names + 4 * zlen cands;
  bu_rows : Forall2 (row_for names) rows cands;
  bu_repr : repr O (heads names) rows (nm names) (nodes_ s) (heads names) rows;
  bu_matrix : matrix O (heads names) rows
}.

(** Candidates whose names the code can look up. *)
Definition fits (names : list Z) (c : Z * Z) : Prop :=
  NoDup (names_of c) /\ forall n, n ∈ names_of c -> n ∈ names /\ 0 <= n < kMaxColumns.

Lemma colidx_inj names n m : n ∈ names -> m ∈ names -> colidx names n = colidx names m -> n = m.
Proof.
  intros Hn Hm' He. destruct (colidx_spec names n Hn) as (_ & _ & <-), (colidx_spec names m Hm') as (_ & _ & <-). by rewrite He.
Qed.

Lemma row_heads names c : fits names c -> forall d, d ∈ colidx names <$> names_of c -> d ∈ heads names.
Proof. intros [_ Hf] d (n & -> & Hn)%list_elem_of_fmap. apply colidx_spec. by apply Hf. Qed.
Lemma row_cols_nodup names c : fits names c -> NoDup (colidx names <$> names_of c).
Proof.
  intros [Hnd Hf]. apply NoDup_fmap_2_strong; [| done]. intros n m Hn Hm'. apply colidx_inj; by apply Hf.
Qed.

(** The nodes of the columns when the row of four new nodes was added. *)
Lemma push_nodes rows k c0 c1 c2 c3 d : NoDup [c0; c1; c2; c3] ->
  push c3 (k + 3) (push c2 (k + 2) (push c1 (k + 1) (push c0 k (nodes_of rows)))) d
  = nodes_of (rows ++ [[(k, c0); (k + 1, c1); (k + 2, c2); (k + 3, c3)]])%nat d.
Proof.
  intros Hnd. rewrite nodes_of_snoc. unfold push.
  assert (c0 <> c1 /\ c0 <> c2 /\ c0 <> c3 /\ c1 <> c2 /\ c1 <> c3 /\ c2 <> c3) as (? & ? & ? & ? & ? & ?).
  { repeat (apply NoDup_cons in Hnd as [? Hnd]). set_solver. }
  rewrite nodes_of_single, !filter_cons. cbn [snd]. repeat case_decide; subst; try done; by rewrite app_nil_r.
Qed.

Lemma partial_ext names V W s : (forall d, V d = W d) -> partial names V s -> partial names W s.
Proof. intros He [? ? ? ? ? ? ? Hv]. split; try done. by apply (vert_ext _ _ V). Qed.

(** The four nodes, each in its column, not yet in a row. *)
Lemma four_rows_ok names V s i v : partial names V s -> fits names (i, v) -> cur_node_ s + 4 <= kMaxNodes ->
  let k := Z.to_nat (cur_node_ s) in
  let c n := colidx names n in
  exists s1 s2 s3 s4, new_row i s = Ok (k, s1) /\ new_row (get_row_col (row_of i) v) s1 = Ok ((k + 1)%nat, s2)
    /\ new_row (get_col_col (col_of i) v) s2 = Ok ((k + 2)%nat, s3)
    /\ new_row (get_box_col (box_of i) v) s3 = Ok ((k + 3)%nat, s4)
    /\ partial names (push (c (get_box_col (box_of i) v)) (k + 3) (push (c (get_col_col (col_of i) v)) (k + 2)
         (push (c (get_row_col (row_of i) v)) (k + 1) (push (c i) k V)))) s4
    /\ cur_node_ s4 = cur_node_ s + 4 /\ inout_ s4 = inout_ s /\ stack_ s4 = stack_ s
    /\ (forall p, here (nodes_ s) p -> left (nd (nodes_ s4) p) = left (nd (nodes_ s) p) /\ right (nd (nodes_ s4) p) = right (nd (nodes_ s) p)
          /\ col (nd (nodes_ s4) p) = col (nd (nodes_ s) p) /\ name (nd (nodes_ s4) p) = name (nd (nodes_ s) p))
    /\ left (nd (nodes_ s4) k) = k /\ right (nd (nodes_ s4) k) = k
    /\ (forall j n, names_of (i, v) !! j = Some n -> col (nd (nodes_ s4) (k + j)) = c n /\ name (nd (nodes_ s4) (k + j)) = n).
Proof.
  intros Hp [_ Hf] Hmax k c. pose proof (p_cur _ _ _ Hp) as Hcur. pose proof (zlen_nonneg names) as Hz. pose proof (p_here _ _ _ Hp) as Hh.
  assert (Hin : forall n, n ∈ names_of (i, v) -> n ∈ names /\ 0 <= n < kMaxColumns) by done. unfold names_of in Hin. cbn [fst snd] in Hin.
  destruct (Hin i) as [N0 B0]; [set_solver |]. destruct (Hin (get_row_col (row_of i) v)) as [N1 B1]; [set_solver |].
  destruct (Hin (get_col_col (col_of i) v)) as [N2 B2]; [set_solver |]. destruct (Hin (get_box_col (box_of i) v)) as [N3 B3]; [set_solver |].
  destruct (new_row_ok _ _ _ _ Hp N0 B0) as (s1 & E1 & P1 & C1 & I1 & S1 & R1 & L1 & T1 & K1 & M1); [lia |].
  destruct (new_row_ok _ _ _ _ P1 N1 B1) as (s2 & E2 & P2 & C2 & I2 & S2 & R2 & _ & _ & K2 & M2); [lia |].
  destruct (new_row_ok _ _ _ _ P2 N2 B2) as (s3 & E3 & P3 & C3 & I3 & S3 & R3 & _ & _ & K3 & M3); [lia |].
  destruct (new_row_ok _ _ _ _ P3 N3 B3) as (s4 & E4 & P4 & C4 & I4 & S4 & R4 & _ & _ & K4 & M4); [lia |].
  fold k in E1, P1, R1, L1, T1, K1, M1.
  assert (Z.to_nat (cur_node_ s1) = k + 1 /\ Z.to_nat (cur_node_ s2) = k + 2 /\ Z.to_nat (cur_node_ s3) = k + 3)%nat
    as (X1 & X2 & X3) by (unfold k; lia).
  rewrite X1 in *. rewrite X2 in *. rewrite X3 in *.
  exists s1, s2, s3, s4. split_and!; try done; try congruence; try lia.
  - intros p Hp'. assert (Hpk : (p < k)%nat) by (apply Hh in Hp'; unfold k; lia).
    destruct (R4 p) as (-> & -> & -> & ->); [lia |]. destruct (R3 p) as (-> & -> & -> & ->); [lia |].
    destruct (R2 p) as (-> & -> & -> & ->); [lia |]. apply R1. lia.
  - destruct (R4 k) as (-> & _); [lia |]. destruct (R3 k) as (-> & _); [lia |]. destruct (R2 k) as (-> & _); [lia | done].
  - destruct (R4 k) as (_ & -> & _); [lia |]. destruct (R3 k) as (_ & -> & _); [lia |]. destruct (R2 k) as (_ & -> & _); [lia | done].
  - intros j n Hj. destruct j as [| [| [| [| j]]]]; cbn in Hj; try done; injection Hj as <-; rewrite ?Nat.add_0_r.
    + destruct (R4 k) as (_ & _ & -> & ->); [lia |]. destruct (R3 k) as (_ & _ & -> & ->); [lia |].
      destruct (R2 k) as (_ & _ & -> & ->); [lia | done].
    + destruct (R4 (k + 1)%nat) as (_ & _ & -> & ->); [lia |]. destruct (R3 (k + 1)%nat) as (_ & _ & -> & ->); [lia | done].
    + destruct (R4 (k + 2)%nat) as (_ & _ & -> & ->); [lia | done].
    + done.
Qed.

Lemma partial_heap names V W s h' (new : list nat) : partial names V s -> (forall d, V d = W d) ->
  (forall p, p ∈ new -> p ∉ O :: heads names) -> (forall p, here h' p <-> here (nodes_ s) p) ->
  (forall p, up (nd h' p) = up (nd (nodes_ s) p) /\ down (nd h' p) = down (nd (nodes_ s) p) /\ size (nd h' p) = size (nd (nodes_ s) p)
     /\ col (nd h' p) = col (nd (nodes_ s) p) /\ name (nd h' p) = name (nd (nodes_ s) p)
     /\ (p ∉ new -> left (nd h' p) = left (nd (nodes_ s) p) /\ right (nd h' p) = right (nd (nodes_ s) p))) ->
  partial names W (with_heap h' s).
Proof.
  intros [? ? ? Hh ? ? Hhead Hv] HW Hnew HD HF. split; try done; cbn [nodes_ with_heap].
  - intros p. by rewrite HD.
  - eapply ring_ext; [exact HD | | exact Hhead]. intros p Hp. destruct (HF p) as (_ & _ & _ & _ & _ & HG).
    destruct HG as [-> ->]; [| done]. intros Hp'. by apply (Hnew p).
  - apply (vert_ext _ _ V); [done |]. destruct Hv as [Hr Hs Hc Ha]. split; [| | | done].
    + intros d Hd. eapply ring_ext; [exact HD | | by apply Hr]. intros p _. destruct (HF p) as (-> & -> & _). done.
    + intros d Hd. destruct (HF d) as (_ & _ & -> & _). by apply Hs.
    + intros d j Hd Hj. destruct (HF j) as (_ & _ & _ & -> & _). by apply Hc.
Qed.

(** A row whose nodes come after all others joins the matrix. *)
Lemma matrix_snoc k (names : list Z) rows (r : row) : matrix O (heads names) rows ->
  (forall r' x, r' ∈ rows -> x ∈ r' -> (x.1 < k)%nat) -> (length names < k)%nat -> r.*1 = seq k (length r) -> NoDup r.*2 ->
  matrix O (heads names) (rows ++ [r]).
Proof.
  intros [Hn Hc Hh] Hold Hk Hr Hnd.
  assert (Hj : mjoin (rows ++ [r]) = mjoin rows ++ r).
  { clear. induction rows as [| r0 rows IH]; [apply app_nil_r |].
    change (mjoin ((r0 :: rows) ++ [r])) with (r0 ++ mjoin (rows ++ [r])). rewrite IH. apply app_assoc. }
  split.
  - rewrite Hj, fmap_app. apply NoDup_app. split; [done |]. split; [| rewrite Hr; apply NoDup_seq].
    intros p ([q d] & -> & (r' & Hx & Hr')%list_elem_of_join)%list_elem_of_fmap. rewrite Hr, elem_of_seq.
    specialize (Hold r' _ Hr' Hx). lia.
  - intros r' [Hr' | ->%list_elem_of_singleton]%elem_of_app; [by apply Hc | done].
  - intros r' x [Hr' | ->%list_elem_of_singleton]%elem_of_app Hx; [by apply (Hh r') |].
    assert (Hx1 : x.1 ∈ r.*1) by (apply list_elem_of_fmap; by exists x). rewrite Hr, elem_of_seq in Hx1.
    unfold heads. rewrite not_elem_of_cons, elem_of_seq. lia.
Qed.

Lemma add_row_ok b names cands rows s i v : built b names cands rows s -> fits names (i, v) -> cur_node_ s + 4 <= kMaxNodes ->
  exists s' r, add_row i v s = Ok s' /\ built b names (cands ++ [(i, v)]) (rows ++ [r]) s'.
Proof.
  intros [Hp Hin Hst Hcur Hrows Hrep Hmat] Hfit Hmax.
  destruct (four_rows_ok names _ s i v Hp Hfit Hmax) as (s1 & s2 & s3 & s4 & E1 & E2 & E3 & E4 & P4 & C4 & I4 & S4 & Hold & Hl & Hr & Hnew).
  set (k := Z.to_nat (cur_node_ s)) in *. cbn zeta in P4, Hnew.
  set (r := zip (seq k 4) (colidx names <$> names_of (i, v))).
  pose proof (p_cur _ _ _ Hp) as Hc. pose proof (zlen_nonneg names) as Hz. pose proof (p_here _ _ _ Hp) as Hh.
  assert (Hk : (length names < k)%nat) by (unfold k, zlen in *; lia).
  assert (Hnewh : forall p, p ∈ [k; (k + 1)%nat; (k + 2)%nat; (k + 3)%nat] -> (k <= p < k + 4)%nat).
  { intros p Hp'. rewrite !elem_of_cons, elem_of_nil in Hp'. lia. }
  destruct (join_row_ok (nodes_ s4) k (k + 1) (k + 2) (k + 3)) as (h1 & h2 & h' & J1 & J2 & J3 & HD & Hring & HF); try done.
  { repeat (apply NoDup_cons; split; [set_solver by lia |]). apply NoDup_nil_2. }
  { intros p Hp'%Hnewh. apply (p_here _ _ _ P4). unfold k in *. lia. }
  exists (with_heap h' s4), r. split.
  { unfold add_row. rewrite E1. rsimp. rewrite E2. rsimp. rewrite E3. rsimp. rewrite E4. rsimp.
    erewrite on_heap_ok by exact J1. rsimp. erewrite on_heap_ok by exact J2. rsimp. by erewrite on_heap_ok by exact J3. }
  assert (Hr2 : r.*2 = colidx names <$> names_of (i, v)) by done.
  assert (Hr1 : r.*1 = seq k (length r)) by (cbn; repeat f_equal; lia).
  assert (Hfresh : forall p, here (nodes_ s) p -> (p < k)%nat) by (intros p Hp'%Hh; unfold k; lia).
  assert (Hrh : forall r' x, r' ∈ rows -> x ∈ r' -> here (nodes_ s) x.1).
  { intros r' x Hr' Hx. apply list_elem_of_split in Hx as (l1 & l2 & Hl').
    destruct (r_rows _ _ _ _ _ _ _ Hrep r' Hr' l1 x l2 Hl') as (_ & _ & Hf). by apply Forall_inv in Hf. }
  assert (Hsame : forall p, here (nodes_ s) p -> left (nd h' p) = left (nd (nodes_ s) p) /\ right (nd h' p) = right (nd (nodes_ s) p)
    /\ col (nd h' p) = col (nd (nodes_ s) p) /\ name (nd h' p) = name (nd (nodes_ s) p) /\ here h' p).
  { intros p Hp'. pose proof (Hfresh p Hp'). destruct (HF p) as (_ & _ & _ & -> & -> & HG).
    destruct HG as [-> ->]; [intros Hn%Hnewh; lia |]. destruct (Hold p Hp') as (-> & -> & -> & ->).
    split_and!; try done. apply HD, (p_here _ _ _ P4). unfold k in *. lia. }
  assert (P' : partial names (nodes_of (rows ++ [r])) (with_heap h' s4)).
  { eapply (partial_heap names _ _ s4 h' [k; (k + 1)%nat; (k + 2)%nat; (k + 3)%nat] P4); [| | exact HD | exact HF].
    - intros d. pose proof (row_cols_nodup _ _ Hfit) as Hnd. unfold names_of in Hnd. cbn [fst snd fmap list_fmap] in Hnd.
      rewrite (push_nodes rows k _ _ _ _ d Hnd). unfold r, names_of. cbn [seq zip fmap list_fmap fst snd].
      by rewrite !(Nat.add_comm k).
    - intros p Hp'%Hnewh. unfold heads. rewrite not_elem_of_cons, elem_of_seq. lia. }
  split; try done; cbn [with_heap inout_ stack_ cur_node_ nodes_].
  - by rewrite I4.
  - by rewrite S4.
  - rewrite C4, Hcur, zlen_app. change (zlen [(i, v)]) with 1. lia.
  - apply Forall2_app; [done |]. by repeat constructor.
  - destruct Hrep as [_ _ _ Hrc _ _ Hrr Hrcol Hrn].
    assert (Hentry : forall x, x ∈ r -> exists j n, names_of (i, v) !! j = Some n /\ x = ((k + j)%nat, colidx names n)).
    { intros x (j & Hj)%list_elem_of_lookup. unfold r in Hj. apply lookup_zip_with_Some in Hj as (p & c & -> & Hp' & Hc').
      apply list_lookup_fmap_Some in Hc' as (n & -> & Hn). apply lookup_seq in Hp' as [-> _]. by exists j, n. }
    split; try done.
    + intros p Hp'. pose proof (p_max _ _ _ P') as Hm. apply (p_here _ _ _ P') in Hp'. lia.
    + apply P'.
    + apply P'.
    + intros r' x [Hr' | ->%list_elem_of_singleton]%elem_of_app Hx; [by apply (Hrc r') |].
      apply (row_heads names (i, v) Hfit). rewrite <- Hr2. apply list_elem_of_fmap. by exists x.
    + intros r' [Hr' | ->%list_elem_of_singleton]%elem_of_app.
      * intros l1 x l2 Hl'. eapply ring_mono; [| by apply (Hrr r' Hr' l1 x l2)]. intros p _ Hp'.
        destruct (Hsame p Hp') as (-> & -> & _ & _ & ?). done.
      * apply row_ok_first. cbn [fst fmap list_fmap].
        by replace (S k) with (k + 1)%nat by lia; replace (S (k + 1)) with (k + 2)%nat by lia; replace (S (k + 2)) with (k + 3)%nat by lia.
    + intros r' x [Hr' | ->%list_elem_of_singleton]%elem_of_app Hx.
      * destruct (Hsame x.1 (Hrh r' x Hr' Hx)) as (_ & _ & -> & _). by apply (Hrcol r').
      * destruct (Hentry x Hx) as (j & n & Hj & ->). cbn [fst snd]. destruct (HF (k + j)%nat) as (_ & _ & _ & -> & _). by apply Hnew.
    + intros r' x [Hr' | ->%list_elem_of_singleton]%elem_of_app Hx.
      * destruct (Hsame x.1 (Hrh r' x Hr' Hx)) as (_ & _ & _ & -> & _). by apply (Hrn r').
      * destruct (Hentry x Hx) as (j & n & Hj & ->). cbn [fst snd]. destruct (HF (k + j)%nat) as (_ & _ & _ & _ & -> & _).
        destruct (Hnew j n Hj) as [_ ->]. cbn. destruct Hfit as [_ Hf].
        by destruct (colidx_spec names n) as (_ & _ & ->); [apply Hf, (list_elem_of_lookup_2 _ j) |].
  - apply (matrix_snoc k); try done; [| by rewrite Hr2; apply row_cols_nodup].
    intros r' x Hr' Hx. by apply Hfresh, (Hrh r' x).
Qed.

(** ** What the loops of the constructor do *)

Definition cells : list Z := seqZ 0 kCells.
Definition at_ (b : list Z) (i : Z) : Z := nth (Z.to_nat i) b 0.

(** Some cell of unit [k] (of the rows, columns or boxes) is given [v]. *)
Definition used (b : list Z) (u : Z -> Z) (k v : Z) : bool :=
  existsb (fun i => (u i =? k) && (at_ b i =? v)) cells.

(** The columns the constructor appends when nothing is given, and the
    condition on each. *)
Definition all_names : list Z :=
  cells ++ mjoin (map (fun i => mjoin (map (fun v => [get_row_col i v; get_col_col i v; get_box_col i v]) (seqZ 1 9))) (seqZ 0 9)).
Definition wanted (b : list Z) (n : Z) : bool :=
  let k := (n mod 100) / 10 in let v := n mod 10 in
  if n <? 100 then at_ b n =? 0
  else if n <? 200 then negb (used b row_of k v)
  else if n <? 300 then negb (used b col_of k v)
  else negb (used b box_of k v).
Definition names0 (b : list Z) : list Z := filter (fun n => wanted b n = true) all_names.

(** The candidates: blank cells with the values their units do not have. *)
Definition all_cands : list (Z * Z) := mjoin (map (fun i => map (fun v => (i, v)) (seqZ 1 9)) cells).
Definition possible (b : list Z) (c : Z * Z) : bool :=
  (at_ b c.1 =? 0)
  && negb (used b row_of (row_of c.1) c.2 || used b col_of (col_of c.1) c.2 || used b box_of (box_of c.1) c.2).
Definition cands0 (b : list Z) : list (Z * Z) := filter (fun c => possible b c = true) all_cands.

Lemma elem_of_mjoin_map {A B} (f : A -> list B) l y : y ∈ mjoin (map f l) <-> exists x, x ∈ l /\ y ∈ f x.
Proof.
  rewrite list_elem_of_join. split.
  - intros (k & Hy & (x & -> & Hx)%list_elem_of_fmap). by exists x.
  - intros (x & Hx & Hy). exists (f x). split; [done |]. apply list_elem_of_fmap. by exists x.
Qed.
Lemma for_each_app {A S} (l k : list A) (f : A -> S -> res S) s :
  for_each (l ++ k) f s = (s ← for_each l f s; for_each k f s).
Proof. revert s. induction l as [| x l IH]; intros s; [done |]. cbn. destruct (f x s); [apply IH | done]. Qed.
Lemma for_each_ext {A S} (l : list A) (f g : A -> S -> res S) s :
  (forall x s, x ∈ l -> f x s = g x s) -> for_each l f s = for_each l g s.
Proof.
  revert s. induction l as [| x l IH]; intros s H; [done |]. cbn. rewrite H by by left.
  destruct (g x s); [| done]. apply IH. intros. apply H. by right.
Qed.
(** A loop in a loop is a loop over all the pairs; a guarded body is a loop
    over a filtered list. *)
Lemma for_each_join {A B S} (l : list A) (k : A -> list B) (f : B -> S -> res S) s :
  for_each l (fun x => for_each (k x) f) s = for_each (mjoin (map k l)) f s.
Proof.
  revert s. induction l as [| x l IH]; intros s; [done |]. cbn [for_each map].
  change (mjoin (k x :: map k l)) with (k x ++ mjoin (map k l)). rewrite for_each_app.
  destruct (for_each (k x) f s); [apply IH | done].
Qed.
Lemma for_each_filter {A S} (P : A -> bool) (l : list A) (f : A -> S -> res S) s :
  for_each l (fun x s => if P x then f x s else mret s) s = for_each (filter (fun x => P x = true) l) f s.
Proof.
  revert s. induction l as [| x l IH]; intros s; [done |]. cbn [for_each]. destruct (P x) eqn:E.
  - rewrite filter_cons_True by done. cbn. destruct (f x s); [apply IH | done].
  - rewrite filter_cons_False by by rewrite E. apply IH.
Qed.
Lemma for_each_map {A B S} (h : A -> B) (l : list A) (f : B -> S -> res S) s :
  for_each (map h l) f s = for_each l (fun x => f (h x)) s.
Proof. revert s. induction l as [| x l IH]; intros s; [done |]. cbn. destruct (f (h x) s); [apply IH | done]. Qed.

Definition board_ok (b : list Z) : Prop := zlen b = kCells /\ Forall (fun v => 0 <= v <= 9) b.

Lemma cell_ok b i : zlen b = kCells -> i ∈ cells -> cell b i = Ok (at_ b i).
Proof.
  intros Hb Hi%elem_of_seqZ. unfold cell, at_, kCells, zlen in *. rewrite (proj2 (Z.leb_le 0 i)) by lia.
  destruct (lookup_lt_is_Some_2 b (Z.to_nat i)) as [v Hv]; [lia |]. rewrite Hv. f_equal. symmetry. by apply nth_lookup_Some.
Qed.
Lemma at_range b i : board_ok b -> i ∈ cells -> 0 <= at_ b i <= 9.
Proof.
  intros [Hb Hr] Hi%elem_of_seqZ. unfold at_, kCells, zlen in *. rewrite Forall_forall in Hr. apply Hr.
  destruct (lookup_lt_is_Some_2 b (Z.to_nat i)) as [v Hv]; [lia |]. rewrite (nth_lookup_Some _ _ _ _ Hv).
  by eapply list_elem_of_lookup_2.
Qed.

Lemma used_spec b u k v : used b u k v = true <-> exists i, i ∈ cells /\ u i = k /\ at_ b i = v.
Proof.
  unfold used. rewrite existsb_exists. split.
  - intros (i & Hi & [H1 H2]%andb_prop). apply Z.eqb_eq in H1, H2. exists i. split; [by apply list_elem_of_In | done].
  - intros (i & Hi & <- & <-). exists i. rewrite !Z.eqb_refl. split; [by apply list_elem_of_In | done].
Qed.

Lemma units_range i : i ∈ cells -> 0 <= row_of i < 9 /\ 0 <= col_of i < 9 /\ 0 <= box_of i < 9.
Proof.
  intros Hi%elem_of_seqZ. unfold box_of, row_of, col_of, kCells in *.
  pose proof (Z.mod_pos_bound i 9). assert (0 <= i / 9 < 9) by (split; [apply Z.div_pos | apply Z.div_lt_upper_bound]; lia).
  pose proof (Z.div_mod (i / 9) 3). pose proof (Z.mod_pos_bound (i / 9) 3).
  pose proof (Z.div_mod (i mod 9) 3). pose proof (Z.mod_pos_bound (i mod 9) 3). lia.
Qed.

(** The tables after the marking loop. *)
Lemma set_true_ok i v t : 0 <= i < 9 -> 0 <= v <= 9 -> set_true i v t = Ok ({[(i, v)]} ∪ t).
Proof.
  intros Hi Hv. unfold set_true, kCells. rewrite (proj2 (Z.leb_le 0 i)), (proj2 (Z.ltb_lt i 81)),
    (proj2 (Z.leb_le 0 v)), (proj2 (Z.ltb_lt v 10)) by lia. done.
Qed.
Lemma mark_ok b i rows cols boxes : board_ok b -> i ∈ cells -> mark b i (rows, cols, boxes)
  = Ok ({[(row_of i, at_ b i)]} ∪ rows, {[(col_of i, at_ b i)]} ∪ cols, {[(box_of i, at_ b i)]} ∪ boxes).
Proof.
  intros Hb Hi. destruct (units_range i Hi) as (Ur & Uc & Ub). pose proof (at_range b i Hb Hi) as Hv.
  unfold mark. rewrite cell_ok by (try apply Hb; done). rsimp. by rewrite !set_true_ok.
Qed.
Lemma mark_all_ok b l t : board_ok b -> (forall i, i ∈ l -> i ∈ cells) ->
  exists rows cols boxes, for_each l (mark b) t = Ok (rows, cols, boxes)
    /\ (forall k v, (k, v) ∈ rows <-> (k, v) ∈ t.1.1 \/ exists i, i ∈ l /\ row_of i = k /\ at_ b i = v)
    /\ (forall k v, (k, v) ∈ cols <-> (k, v) ∈ t.1.2 \/ exists i, i ∈ l /\ col_of i = k /\ at_ b i = v)
    /\ (forall k v, (k, v) ∈ boxes <-> (k, v) ∈ t.2 \/ exists i, i ∈ l /\ box_of i = k /\ at_ b i = v).
Proof.
  intros Hb. revert t. induction l as [| i l IH]; intros [[rows cols] boxes] Hl.
  - exists rows, cols, boxes. split; [done |]. split_and!; intros k v; split; auto;
      intros [? | (i & Hi & _)]; try done; by apply not_elem_of_nil in Hi.
  - assert (Hi : i ∈ cells) by (apply Hl; by left). cbn [for_each]. rewrite mark_ok by done. rsimp.
    destruct (IH ({[(row_of i, at_ b i)]} ∪ rows, {[(col_of i, at_ b i)]} ∪ cols, {[(box_of i, at_ b i)]} ∪ boxes))
      as (rows' & cols' & boxes' & -> & H1 & H2 & H3); [intros j Hj; apply Hl; by right |].
    exists rows', cols', boxes'. split; [done |]. cbn [fst snd] in *.
    assert (Hcase : forall (f : Z -> Z) (t : table) k v,
      ((k, v) ∈ ({[(f i, at_ b i)]} ∪ t : table) \/ exists j, j ∈ l /\ f j = k /\ at_ b j = v)
      <-> ((k, v) ∈ t \/ exists j, j ∈ i :: l /\ f j = k /\ at_ b j = v)).
    { intros f t k v. rewrite elem_of_union, elem_of_singleton. setoid_rewrite elem_of_cons. split.
      - intros [[[= -> ->] | ?] | (j & ? & ? & ?)]; [right; exists i; by auto | by left | right; exists j; by auto].
      - intros [? | (j & [-> | ?] & ? & ?)]; [by auto | left; left; congruence | right; exists j; by auto]. }
    split_and!; intros k v; [rewrite H1 | rewrite H2 | rewrite H3]; apply Hcase.
Qed.

(** The name of a unit's value says which unit and which value. *)
Lemma wanted_unit b k v : 0 <= k < 9 -> 1 <= v < 10 ->
  wanted b (get_row_col k v) = negb (used b row_of k v)
  /\ wanted b (get_col_col k v) = negb (used b col_of k v)
  /\ wanted b (get_box_col k v) = negb (used b box_of k v).
Proof.
  intros Hk Hv. unfold wanted, get_row_col, get_col_col, get_box_col, kRow, kCol, kBox.
  assert (Hd : forall base c, base = c * 100 -> (base + k * 10 + v) mod 100 / 10 = k /\ (base + k * 10 + v) mod 10 = v).
  { intros base c ->. replace (c * 100 + k * 10 + v) with (k * 10 + v + c * 100) by lia. rewrite Z.mod_add by lia.
    rewrite (Z.mod_small (k * 10 + v)) by lia. replace (k * 10 + v + c * 100) with (v + (k + c * 10) * 10) by lia.
    rewrite Z.mod_add, Z.mod_small by lia. replace (k * 10 + v) with (v + k * 10) by lia.
    rewrite Z.div_add, Z.div_small by lia. lia. }
  destruct (Hd 100 1 eq_refl) as [-> ->], (Hd 200 2 eq_refl) as [-> ->], (Hd 300 3 eq_refl) as [-> ->].
  split_and!.
  - rewrite (proj2 (Z.ltb_ge _ _)), (proj2 (Z.ltb_lt _ _)) by lia. done.
  - rewrite !(proj2 (Z.ltb_ge _ _)), (proj2 (Z.ltb_lt _ 300)) by lia. done.
  - rewrite !(proj2 (Z.ltb_ge _ _)) by lia. done.
Qed.
Lemma wanted_cell b i : i ∈ cells -> wanted b i = (at_ b i =? 0).
Proof. intros Hi%elem_of_seqZ. unfold wanted, kCells in *. by rewrite (proj2 (Z.ltb_lt _ _)) by lia. Qed.

Lemma is_true_used t b u : (forall k v, (k, v) ∈ (t : table) <-> (k, v) ∈ (∅ : table) \/ exists i, i ∈ cells /\ u i = k /\ at_ b i = v) ->
  forall k v, is_true t k v = used b u k v.
Proof.
  intros Ht k v. apply Bool.eq_iff_eq_true. rewrite used_spec. unfold is_true. rewrite bool_decide_eq_true, Ht. set_solver.
Qed.

(** The loops over the fixed ranges are loops over the columns wanted and the
    candidates possible. *)
Section loops.
Variables (b : list Z) (rows cols boxes : table).
Hypothesis Hb : board_ok b.
Hypothesis Hrows : forall k v, is_true rows k v = used b row_of k v.
Hypothesis Hcols : forall k v, is_true cols k v = used b col_of k v.
Hypothesis Hboxes : forall k v, is_true boxes k v = used b box_of k v.

Lemma columns_loops s :
  (s ← for_each (seqZ 0 kCells) (fun i s => val ← cell b i; if val =? 0 then append_column i s else mret s) s;
   for_each (seqZ 0 9) (fun i => for_each (seqZ 1 9) (fun v s =>
        s ← (if negb (is_true rows i v) then append_column (get_row_col i v) s else mret s);
        s ← (if negb (is_true cols i v) then append_column (get_col_col i v) s else mret s);
        (if negb (is_true boxes i v) then append_column (get_box_col i v) s else mret s))) s)
  = for_each (names0 b) append_column s.
Proof using Hb Hrows Hcols Hboxes.
  unfold names0, all_names. rewrite filter_app, for_each_app. fold cells.
  rewrite (for_each_ext cells _ (fun i s => if wanted b i then append_column i s else mret s)).
  2: { intros i s' Hi. rewrite cell_ok, wanted_cell by (try apply Hb; done). done. }
  rewrite for_each_filter. destruct (for_each _ _ _) as [s1 |]; [| done]. rsimp.
  rewrite <- (for_each_filter (wanted b)), <- for_each_join. apply for_each_ext. intros i s2 Hi%elem_of_seqZ.
  rewrite <- for_each_join. apply for_each_ext. intros v s3 Hv%elem_of_seqZ.
  destruct (wanted_unit b i v) as (W1 & W2 & W3); [lia | lia |]. cbn [for_each]. rewrite W1, W2, W3, Hrows, Hcols, Hboxes.
  destruct (negb (used b row_of i v)); cbn [mbind res_bind]; [destruct (append_column _ s3); [| done] |]; rsimp;
    (destruct (negb (used b col_of i v)); rsimp; [destruct (append_column (get_col_col i v) _); [| done] |]; rsimp);
    (destruct (negb (used b box_of i v)); rsimp; [| done]; by destruct (append_column (get_box_col i v) _)).
Qed.

Lemma rows_loops s :
  for_each (seqZ 0 kCells) (fun i s =>
    val ← cell b i;
    if val =? 0
    then for_each (seqZ 1 9) (fun v s =>
           if negb (is_true rows (row_of i) v || is_true cols (col_of i) v || is_true boxes (box_of i) v)
           then add_row i v s else mret s) s
    else mret s) s
  = for_each (cands0 b) (fun c => add_row c.1 c.2) s.
Proof using Hb Hrows Hcols Hboxes.
  unfold cands0, all_cands. rewrite <- (for_each_filter (possible b)), <- for_each_join. apply for_each_ext. intros i s1 Hi.
  rewrite cell_ok by (try apply Hb; done). rsimp. rewrite for_each_map. unfold possible. cbn [fst snd].
  destruct (at_ b i =? 0); cbn [andb].
  - apply for_each_ext. intros v s2 _. by rewrite Hrows, Hcols, Hboxes.
  - generalize (seqZ 1 9). intros l. induction l as [| v l IH]; [done |]. cbn. exact IH.
Qed.
End loops.

(** ** The constructor runs *)

Lemma all_names_ok : NoDup all_names /\ (forall n, n ∈ all_names -> 0 <= n < kMaxColumns) /\ length all_names = 324%nat.
Proof.
  split; [by_evaluation |]. split; [| by vm_compute].
  intros n Hn. assert (Hall : Forall (fun n => 0 <= n < kMaxColumns) all_names) by by_evaluation.
  rewrite Forall_forall in Hall. by apply Hall.
Qed.
Lemma all_cands_ok : length all_cands = 729%nat
  /\ forall c, c ∈ all_cands -> NoDup (names_of c) /\ c.1 ∈ cells /\ 1 <= c.2 < 10 /\ Forall (.∈ all_names) (names_of c).
Proof.
  split; [by vm_compute |]. intros c Hc.
  assert (Hall : Forall (fun c => NoDup (names_of c) /\ c.1 ∈ cells /\ 1 <= c.2 < 10 /\ Forall (.∈ all_names) (names_of c)) all_cands)
    by by_evaluation.
  rewrite Forall_forall in Hall. by apply Hall.
Qed.

(** A candidate that is possible has all its columns. *)
Lemma possible_fits b c : c ∈ cands0 b -> fits (names0 b) c.
Proof.
  intros [Hp Hc]%list_elem_of_filter. destruct all_cands_ok as [_ Hall]. destruct (Hall c Hc) as (Hnd & Hi & Hv & Hin).
  split; [done |]. rewrite Forall_forall in Hin. unfold possible in Hp. apply andb_prop in Hp as [H0 Hn].
  apply negb_true_iff, orb_false_elim in Hn as [Hn H3]. apply orb_false_elim in Hn as [H1 H2].
  destruct (units_range c.1 Hi) as (Ur & Uc & Ub).
  intros n Hn. split; [| by apply all_names_ok, Hin]. apply list_elem_of_filter. split; [| by apply Hin].
  unfold names_of in Hn. rewrite !elem_of_cons, elem_of_nil in Hn. destruct Hn as [-> | [-> | [-> | [-> | []]]]].
  - by rewrite wanted_cell.
  - destruct (wanted_unit b _ _ Ur Hv) as (-> & _). by rewrite H1.
  - destruct (wanted_unit b _ _ Uc Hv) as (_ & -> & _). by rewrite H2.
  - destruct (wanted_unit b _ _ Ub Hv) as (_ & _ & ->). by rewrite H3.
Qed.

Lemma names0_ok b : NoDup (names0 b) /\ (forall n, n ∈ names0 b -> 0 <= n < kMaxColumns) /\ (length (names0 b) <= 324)%nat.
Proof.
  destruct all_names_ok as (Hnd & Hr & Hl). split; [by apply NoDup_filter |]. split.
  - intros n [_ Hn]%list_elem_of_filter. by apply Hr.
  - rewrite <- Hl. apply length_filter.
Qed.
Lemma cands0_length b : (length (cands0 b) <= 729)%nat.
Proof. destruct all_cands_ok as [<- _]. apply length_filter. Qed.

Lemma append_all ns : forall names s, partial names (fun _ => []) s -> cur_node_ s = 1 + zlen names -> NoDup (names ++ ns) ->
  (forall n, n ∈ ns -> 0 <= n < kMaxColumns) -> (length (names ++ ns) <= 324)%nat ->
  exists s', for_each ns append_column s = Ok s' /\ partial (names ++ ns) (fun _ => []) s'
    /\ cur_node_ s' = 1 + zlen (names ++ ns) /\ inout_ s' = inout_ s /\ stack_ s' = stack_ s.
Proof.
  induction ns as [| n ns IH]; intros names s Hp Hcur Hnd Hr Hlen.
  - exists s. rewrite app_nil_r. by split_and!.
  - cbn [for_each]. destruct (append_column_ok names s n Hp Hcur) as (s1 & -> & P1 & C1 & I1 & S1).
    + apply NoDup_app in Hnd as (_ & Hdis & _). intros Hn. apply (Hdis n Hn). by left.
    + apply Hr. by left.
    + rewrite length_app in Hlen. unfold zlen, kMaxNodes. lia.
    + rsimp. rewrite cons_middle, app_assoc in Hnd, Hlen |- *. destruct (IH (names ++ [n]) s1 P1 C1 Hnd) as (s' & -> & P' & C' & I' & S').
      * intros m Hm'. apply Hr. by right.
      * done.
      * exists s'. split; [done |]. split; [done |]. split; [done |]. by rewrite I', I1, S', S1.
Qed.

Lemma add_all b names cs : forall cands rows s, built b names cands rows s -> (forall c, c ∈ cs -> fits names c) ->
  zlen names <= 324 -> zlen (cands ++ cs) <= 729 ->
  exists s' rows', for_each cs (fun c => add_row c.1 c.2) s = Ok s' /\ built b names (cands ++ cs) rows' s'.
Proof.
  induction cs as [| [i v] cs IH]; intros cands rows s Hbu Hfit Hn Hc.
  - exists s, rows. by rewrite app_nil_r.
  - cbn [for_each fst snd]. destruct (add_row_ok b names cands rows s i v Hbu) as (s1 & r & -> & Hbu1).
    + apply Hfit. by left.
    + rewrite (bu_cur _ _ _ _ _ Hbu). rewrite zlen_app, zlen_cons in Hc. pose proof (zlen_nonneg cs). unfold kMaxNodes. lia.
    + rsimp. rewrite cons_middle, app_assoc in Hc |- *. apply (IH (cands ++ [(i, v)]) (rows ++ [r])); try done.
      intros c Hc'. apply Hfit. by right.
Qed.

(** No column, no row. *)
Lemma init_ok b : exists s,
  ('(root, s) ← new_column 0 (mkSolver 0 b [] [] ∅ 0);
   s ← on_heap (store root (set_right root)) s;
   s ← on_heap (store root (set_left root)) s;
   mret (mkSolver root (inout_ s) (replicate (Z.to_nat kMaxColumns) None) (stack_ s) (nodes_ s) (cur_node_ s))) = Ok s
  /\ partial [] (fun _ => []) s /\ cur_node_ s = 1 /\ inout_ s = b /\ stack_ s = [].
Proof.
  unfold new_column. rewrite (proj2 (Z.ltb_lt _ _)) by (cbn; unfold kMaxNodes; lia). cbn [assert_]. rsimp.
  set (s0 := new_node _ _). assert (H0 : here (nodes_ s0) O) by (unfold s0; cbn; apply here_insert; by left).
  change (Z.to_nat (cur_node_ _)) with O. erewrite on_heap_ok by by apply store_ok. rsimp.
  erewrite on_heap_ok by (apply store_ok; cbn [with_heap nodes_]; apply here_insert; by left). rsimp. eexists. split; [done |].
  cbn [with_heap root_ inout_ stack_ cur_node_ nodes_ columns_]. split; [| by split_and!].
  set (h := <[O := _]> _).
  assert (Hn : forall p, nd h p = if decide (O = p) then mkNode 0 0 0 0 0 0 0 else node0).
  { intros p. unfold h, s0. cbn [new_node nodes_]. change (Z.to_nat (cur_node_ _)) with O.
    case_decide as Hp; [by subst p |]. by rewrite !nd_insert, !decide_False by done. }
  assert (Hh : forall p, here h p <-> p = O).
  { intros p. unfold h, s0. cbn [new_node nodes_ cur_node_]. rewrite !here_insert. change (Z.to_nat 0) with O.
    unfold here. rewrite lookup_empty, is_Some_alt. naive_solver. }
  split; cbn [with_heap root_ inout_ stack_ cur_node_ nodes_ columns_]; change (cur_node_ s0) with 1; try done.
  - intros p. fold h. rewrite Hh. lia.
  - intros n Hn'. rewrite lookup_replicate_2; [done |]. unfold kMaxColumns in *. lia.
  - split; [apply NoDup_singleton |]. split; [cbn; fold h; rewrite !Hn; done |]. constructor; [by apply Hh | done].
  - split; intros c; intros; exfalso; match goal with H : c ∈ heads [] |- _ => by apply not_elem_of_nil in H end.
Qed.

Lemma empty_matrix names : matrix O (heads names) [].
Proof. split; [by apply NoDup_nil_2 | intros r H | intros r x H]; by apply not_elem_of_nil in H. Qed.
Lemma empty_repr names s : partial names (fun _ => []) s -> repr O (heads names) [] (nm names) (nodes_ s) (heads names) [].
Proof.
  intros Hp. split; try (intros r H; by apply not_elem_of_nil in H) || (intros r x H; by apply not_elem_of_nil in H).
  - intros p H%(p_here _ _ _ Hp). pose proof (p_max _ _ _ Hp). lia.
  - apply Hp.
  - apply Hp.
  - done.
Qed.

Lemma new_ok b : board_ok b -> exists s rows, SudokuSolver_new b = Ok s /\ built b (names0 b) (cands0 b) rows s.
Proof.
  intros Hb. destruct (init_ok b) as (s0 & Hinit & P0 & C0 & I0 & S0).
  destruct (mark_all_ok b cells (∅, ∅, ∅) Hb) as (rows & cols & boxes & Hmark & Hr & Hc & Hx); [done |].
  pose proof (is_true_used rows b row_of Hr) as Tr. pose proof (is_true_used cols b col_of Hc) as Tc.
  pose proof (is_true_used boxes b box_of Hx) as Tx. destruct (names0_ok b) as (Nnd & Nr & Nl).
  destruct (append_all (names0 b) [] s0 P0) as (s1 & Happ & P1 & C1 & I1 & S1); [by rewrite C0 | done | done | done |]. cbn [app] in *.
  assert (Hbu : built b (names0 b) [] [] s1).
  { split; [exact P1 | congruence | congruence | rewrite C1; change (zlen []) with 0; lia | constructor | | by apply empty_matrix].
    by apply empty_repr. }
  destruct (add_all b (names0 b) (cands0 b) [] [] s1 Hbu) as (s2 & rows' & Hadd & Hbu').
  { apply possible_fits. } { unfold zlen. lia. } { pose proof (cands0_length b). cbn. unfold zlen. lia. }
  exists s2, rows'. split; [| exact Hbu']. unfold SudokuSolver_new.
  destruct (new_column 0 _) as [[root s] |]; [| done]. rsimp. cbn [mbind res_bind] in Hinit |- *.
  destruct (on_heap (store root (set_right root)) s) as [s' |]; [| done]. cbn [mbind res_bind] in Hinit |- *.
  destruct (on_heap (store root (set_left root)) s') as [s'' |]; [| done]. cbn [mbind res_bind] in Hinit |- *.
  assert (E : forall x y : SudokuSolver, Ok x = Ok y -> x = y) by congruence. apply E in Hinit. cbv zeta. rewrite Hinit.
  fold cells. rewrite Hmark. cbn [mbind res_bind].
  pose proof (columns_loops b rows cols boxes Hb Tr Tc Tx s0) as Hcl. fold cells in Hcl.
  pose proof (rows_loops b rows cols boxes Hb Tr Tc Tx s1) as Hrl. fold cells in Hrl.
  rewrite Happ in Hcl. destruct (for_each cells _ s0) as [s3 |]; [| done]. cbn [mbind res_bind] in Hcl |- *.
  rewrite Hcl. cbn [mbind res_bind]. by rewrite Hrl.
Qed.

(** ** Sudoku *)

(** The values of unit [k] of the kind [u] (rows, columns or boxes). *)
Definition unit_values (u : Z -> Z) (g : list Z) (k : Z) : list Z := map (at_ g) (filter (fun i => u i = k) cells).

(** A solved board: every row, every column and every box has 1 to 9, each
    once. *)
Definition solved (g : list Z) : Prop :=
  zlen g = kCells /\ forall k, 0 <= k < 9 ->
    unit_values row_of g k ≡ₚ seqZ 1 9 /\ unit_values col_of g k ≡ₚ seqZ 1 9 /\ unit_values box_of g k ≡ₚ seqZ 1 9.
(** The given cells are kept. *)
Definition extends (b g : list Z) : Prop := forall i, i ∈ cells -> at_ b i <> 0 -> at_ g i = at_ b i.

(** What the rows, the columns and the boxes have in common. *)
Record kind (u : Z -> Z) (nmk : Z -> Z -> Z) : Prop := {
  k_in i v : nmk (u i) v ∈ names_of (i, v);
  k_all k v : 0 <= k < 9 -> 1 <= v < 10 -> nmk k v ∈ all_names /\ forall b, wanted b (nmk k v) = negb (used b u k v);
  k_only i v k w : i ∈ cells -> 1 <= v < 10 -> 0 <= k < 9 -> 1 <= w < 10 -> nmk k w ∈ names_of (i, v) -> u i = k /\ v = w;
  k_nine k : 0 <= k < 9 -> length (filter (fun i => u i = k) cells) = 9%nat;
  k_range i : i ∈ cells -> 0 <= u i < 9
}.

Lemma nine_by_table (P : Z -> Prop) `{!forall k, Decision (P k)} : Forall P (seqZ 0 9) -> forall k, 0 <= k < 9 -> P k.
Proof. intros Hall k Hk. rewrite Forall_forall in Hall. apply Hall, elem_of_seqZ. lia. Qed.
Lemma unit_name_in k v : 0 <= k < 9 -> 1 <= v < 10 ->
  get_row_col k v ∈ all_names /\ get_col_col k v ∈ all_names /\ get_box_col k v ∈ all_names.
Proof.
  intros Hk Hv. assert (Hin : forall n, n ∈ [get_row_col k v; get_col_col k v; get_box_col k v] -> n ∈ all_names).
  { intros n Hn. unfold all_names. apply elem_of_app. right. apply elem_of_mjoin_map. exists k. split; [apply elem_of_seqZ; lia |].
    apply elem_of_mjoin_map. exists v. split; [apply elem_of_seqZ; lia | done]. }
  split_and!; apply Hin; rewrite !elem_of_cons; tauto.
Qed.

Lemma names_numbers i v : i ∈ cells -> forall n, n ∈ names_of (i, v) ->
  n = i \/ n = 100 + row_of i * 10 + v \/ n = 200 + col_of i * 10 + v \/ n = 300 + box_of i * 10 + v.
Proof. intros _ n. unfold names_of. rewrite !elem_of_cons, elem_of_nil. cbn [fst snd]. tauto. Qed.

Lemma row_kind : kind row_of get_row_col.
Proof.
  split.
  - intros i v. unfold names_of. rewrite !elem_of_cons. cbn [fst snd]. tauto.
  - intros k v Hk Hv. split; [by apply unit_name_in | intros b; by apply wanted_unit].
  - intros i v k w Hi Hv Hk Hw Hn. pose proof (units_range i Hi) as (? & ? & ?).
    pose proof Hi as Hi'%elem_of_seqZ. apply (names_numbers i v Hi) in Hn. unfold get_row_col, kRow, kCells in *. lia.
  - apply nine_by_table; [apply _ |]. by_evaluation.
  - intros i Hi. by apply units_range.
Qed.
Lemma col_kind : kind col_of get_col_col.
Proof.
  split.
  - intros i v. unfold names_of. rewrite !elem_of_cons. cbn [fst snd]. tauto.
  - intros k v Hk Hv. split; [by apply unit_name_in | intros b; by apply wanted_unit].
  - intros i v k w Hi Hv Hk Hw Hn. pose proof (units_range i Hi) as (? & ? & ?).
    pose proof Hi as Hi'%elem_of_seqZ. apply (names_numbers i v Hi) in Hn. unfold get_col_col, kCol, kCells in *. lia.
  - apply nine_by_table; [apply _ |]. by_evaluation.
  - intros i Hi. by apply units_range.
Qed.
Lemma box_kind : kind box_of get_box_col.
Proof.
  split.
  - intros i v. unfold names_of. rewrite !elem_of_cons. cbn [fst snd]. tauto.
  - intros k v Hk Hv. split; [by apply unit_name_in | intros b; by apply wanted_unit].
  - intros i v k w Hi Hv Hk Hw Hn. pose proof (units_range i Hi) as (? & ? & ?).
    pose proof Hi as Hi'%elem_of_seqZ. apply (names_numbers i v Hi) in Hn. unfold get_box_col, kBox, kCells in *. lia.
  - apply nine_by_table; [apply _ |]. by_evaluation.
  - intros i Hi. by apply units_range.
Qed.

(** Candidates that cover every wanted column once. *)
Definition exact_names (b : list Z) (T : list (Z * Z)) : Prop :=
  T ⊆ cands0 b /\ mjoin (map names_of T) ≡ₚ names0 b.

Lemma cands0_spec b i v : (i, v) ∈ cands0 b ->
  i ∈ cells /\ 1 <= v < 10 /\ at_ b i = 0 /\ used b row_of (row_of i) v = false
  /\ used b col_of (col_of i) v = false /\ used b box_of (box_of i) v = false.
Proof.
  intros [Hp Hc]%list_elem_of_filter. destruct all_cands_ok as [_ Hall]. destruct (Hall _ Hc) as (_ & Hi & Hv & _).
  unfold possible in Hp. cbn [fst snd] in *. apply andb_prop in Hp as [H0 Hn]. apply Z.eqb_eq in H0.
  apply negb_true_iff, orb_false_elim in Hn as [Hn H3]. apply orb_false_elim in Hn as [H1 H2]. done.
Qed.

(** Writing the values of [T]. *)
Lemma at_insert b i j v : 0 <= i -> 0 <= j < zlen b -> at_ (<[Z.to_nat j := v]> b) i = if decide (j = i) then v else at_ b i.
Proof.
  intros Hi Hj. unfold at_, zlen in *. rewrite !nth_lookup. case_decide as Hd.
  - subst. by rewrite list_lookup_insert_eq by lia.
  - by rewrite list_lookup_insert_ne by lia.
Qed.
Lemma fill_at T : forall b i, (forall c, c ∈ T -> 0 <= c.1 < zlen b) -> NoDup T.*1 -> 0 <= i ->
  zlen (fill T b) = zlen b
  /\ (forall v, (i, v) ∈ T -> at_ (fill T b) i = v) /\ (i ∉ T.*1 -> at_ (fill T b) i = at_ b i).
Proof.
  induction T as [| [j w] T IH]; intros b i Hr Hnd Hi.
  - split; [done |]. split; [intros v Hv; by apply not_elem_of_nil in Hv | done].
  - cbn in Hnd. apply NoDup_cons in Hnd as [Hj Hnd]. change (fill ((j, w) :: T) b) with (fill T (<[Z.to_nat j := w]> b)).
    pose proof (Hr (j, w) ltac:(by left)) as Hjr. cbn [fst] in Hjr.
    destruct (IH (<[Z.to_nat j := w]> b) i) as (H1 & H2 & H3); [| done | done |].
    { intros c Hc. unfold zlen. rewrite length_insert. apply Hr. by right. }
    split; [rewrite H1; unfold zlen; by rewrite length_insert |]. split.
    + intros v [[= -> ->] | Hv]%elem_of_cons; [| by apply H2]. rewrite H3 by done. rewrite at_insert by lia. by rewrite decide_True.
    + intros Hn. apply not_elem_of_cons in Hn as [Hne Hn]. cbn [fst] in Hne. rewrite H3 by done. rewrite at_insert by lia.
      by rewrite decide_False by congruence.
Qed.

Lemma length_unit u nmk (g : list Z) k : kind u nmk -> 0 <= k < 9 -> length (unit_values u g k) = 9%nat.
Proof. intros Hk Hr. unfold unit_values. rewrite length_map. by apply Hk. Qed.
Lemma elem_of_unit u g k v : v ∈ unit_values u g k <-> exists i, i ∈ cells /\ u i = k /\ at_ g i = v.
Proof.
  unfold unit_values. rewrite list_elem_of_fmap. split.
  - intros (i & -> & [Hu Hi]%list_elem_of_filter). by exists i.
  - intros (i & Hi & Hu & <-). exists i. split; [done |]. by apply list_elem_of_filter.
Qed.
(** Nine values with 1 to 9 among them are a permutation. *)
Lemma nine_values l : length l = 9%nat -> (forall v, 1 <= v < 10 -> v ∈ l) -> l ≡ₚ seqZ 1 9.
Proof.
  intros Hl Hall. symmetry. apply submseteq_length_Permutation.
  - apply NoDup_submseteq; [apply NoDup_seqZ |]. intros v Hv%elem_of_seqZ. apply Hall. lia.
  - by rewrite Hl.
Qed.

Lemma NoDup_mjoin_map {A B} (f : A -> list B) l : NoDup l -> (forall x, x ∈ l -> NoDup (f x)) ->
  (forall x y z, x ∈ l -> y ∈ l -> z ∈ f x -> z ∈ f y -> x = y) -> NoDup (mjoin (map f l)).
Proof.
  induction 1 as [| x l Hx _ IH]; intros Hf Hd; [by apply NoDup_nil_2 |].
  change (mjoin (map f (x :: l))) with (f x ++ mjoin (map f l)). apply NoDup_app. split; [apply Hf; by left |]. split.
  - intros z Hz (y & Hy & Hzy)%elem_of_mjoin_map. apply Hx. rewrite (Hd x y z); [done | by left | by right | done | done].
  - apply IH; [intros y Hy; apply Hf; by right |]. intros y y' z Hy Hy'. apply Hd; by right.
Qed.
Lemma NoDup_mjoin_cells T : NoDup (mjoin (map names_of T)) -> NoDup T.*1.
Proof.
  induction T as [| c T IH]; intros Hnd; [by apply NoDup_nil_2 |].
  change (mjoin (map names_of (c :: T))) with (names_of c ++ mjoin (map names_of T)) in Hnd.
  apply NoDup_app in Hnd as (_ & Hdis & Hnd). cbn. apply NoDup_cons. split; [| by apply IH].
  intros ([i v] & Heq & Hin)%list_elem_of_fmap. apply (Hdis c.1); [by left |]. apply elem_of_mjoin_map.
  exists (i, v). split; [done |]. rewrite Heq. by left.
Qed.

(** A cover, written on the board, solves it. *)
Lemma cover_solves b T : board_ok b -> exact_names b T -> solved (fill T b) /\ extends b (fill T b).
Proof.
  intros Hb [Hsub Hp]. destruct (names0_ok b) as (Hnd & _ & _). pose proof Hnd as HndT. rewrite <- Hp in HndT.
  apply NoDup_mjoin_cells in HndT.
  assert (Hr : forall c, c ∈ T -> 0 <= c.1 < zlen b).
  { intros [i v] Hc%Hsub. apply cands0_spec in Hc as (Hi%elem_of_seqZ & _). destruct Hb as [-> _]. cbn [fst]. lia. }
  assert (Hfill : forall i, i ∈ cells -> (forall v, (i, v) ∈ T -> at_ (fill T b) i = v) /\ (at_ b i <> 0 -> at_ (fill T b) i = at_ b i)).
  { intros i Hi. pose proof Hi as Hi'%elem_of_seqZ. destruct (fill_at T b i Hr HndT ltac:(lia)) as (_ & H2 & H3).
    split; [done |]. intros Hne. apply H3. intros ([j v] & -> & Hc)%list_elem_of_fmap. apply Hne. by apply Hsub, cands0_spec in Hc as (_ & _ & ? & _). }
  split; [| intros i Hi; by apply Hfill].
  assert (Hunit : forall u nmk, kind u nmk -> forall k, 0 <= k < 9 -> unit_values u (fill T b) k ≡ₚ seqZ 1 9).
  { intros u nmk Hk k Hkr. apply nine_values; [by apply (length_unit u nmk) |]. intros v Hv. apply elem_of_unit.
    destruct (k_all _ _ Hk k v Hkr Hv) as [Hall Hw]. destruct (used b u k v) eqn:Hu.
    - apply used_spec in Hu as (i & Hi & Hui & Hat). exists i. split; [done |]. split; [done |].
      rewrite <- Hat. apply Hfill; [done | lia].
    - assert (Hn : nmk k v ∈ names0 b) by (apply list_elem_of_filter; by rewrite Hw, Hu).
      rewrite <- Hp in Hn. apply elem_of_mjoin_map in Hn as ([i w] & HiT & Hn).
      pose proof (Hsub _ HiT) as Hc. apply cands0_spec in Hc as (Hi & Hwr & _).
      destruct (k_only _ _ Hk i w k v Hi Hwr Hkr Hv Hn) as [Hui <-]. exists i. split; [done |]. split; [done |]. by apply Hfill. }
  split.
  - destruct Hb as [Hlen _]. destruct (fill_at T b 0 Hr HndT ltac:(lia)) as [-> _]. done.
  - intros k Hk. split_and!; [apply (Hunit _ _ row_kind) | apply (Hunit _ _ col_kind) | apply (Hunit _ _ box_kind)]; done.
Qed.

(** A solution, seen from one kind of unit. *)
Lemma NoDup_map_inj {A B} (f : A -> B) l x y : NoDup (map f l) -> x ∈ l -> y ∈ l -> f x = f y -> x = y.
Proof.
  induction l as [| z l IH]; intros Hnd Hx Hy He; [by apply not_elem_of_nil in Hx |]. cbn in Hnd. apply NoDup_cons in Hnd as [Hz Hnd].
  apply elem_of_cons in Hx as [-> | Hx], Hy as [-> | Hy]; [done | | | by apply IH]; exfalso; apply Hz.
  - rewrite He. apply list_elem_of_fmap. by exists y.
  - rewrite <- He. apply list_elem_of_fmap. by exists x.
Qed.

Section solution.
Variables (b g : list Z) (u : Z -> Z) (nmk : Z -> Z -> Z).
Hypothesis Hk : kind u nmk.
Hypothesis Hunits : forall k, 0 <= k < 9 -> unit_values u g k ≡ₚ seqZ 1 9.
Hypothesis Hext : extends b g.

Lemma solution_value i : i ∈ cells -> 1 <= at_ g i < 10.
Proof using Hk Hunits.
  intros Hi. assert (Hv : at_ g i ∈ unit_values u g (u i)) by (apply elem_of_unit; by exists i).
  rewrite (Hunits (u i) (k_range _ _ Hk i Hi)) in Hv. apply elem_of_seqZ in Hv. lia.
Qed.
Lemma solution_apart i j : i ∈ cells -> j ∈ cells -> u i = u j -> at_ g i = at_ g j -> i = j.
Proof using Hk Hunits.
  intros Hi Hj Hu Hg. pose proof (Hunits (u i) (k_range _ _ Hk i Hi)) as Hp.
  assert (Hnd : NoDup (unit_values u g (u i))) by (rewrite Hp; apply NoDup_seqZ).
  apply (NoDup_map_inj (at_ g) _ i j Hnd); [by apply list_elem_of_filter | by apply list_elem_of_filter | done].
Qed.
Lemma solution_unused i : i ∈ cells -> at_ b i = 0 -> used b u (u i) (at_ g i) = false.
Proof using Hk Hunits Hext.
  intros Hi H0. apply not_true_is_false. intros (j & Hj & Hu & Hv)%used_spec.
  pose proof (solution_value i Hi). assert (i = j) as ->; [| lia]. apply solution_apart; try done.
  rewrite (Hext j Hj); [done | lia].
Qed.
Lemma solution_wanted k v : 0 <= k < 9 -> 1 <= v < 10 -> wanted b (nmk k v) = true ->
  exists i, i ∈ cells /\ at_ b i = 0 /\ u i = k /\ at_ g i = v.
Proof using Hk Hunits Hext.
  intros Hkr Hv Hw. destruct (k_all _ _ Hk k v Hkr Hv) as [_ Hu]. rewrite Hu in Hw. apply negb_true_iff in Hw.
  assert (Hin : v ∈ unit_values u g k) by (rewrite (Hunits k Hkr); apply elem_of_seqZ; lia).
  apply elem_of_unit in Hin as (i & Hi & Hui & Hgi). exists i. split; [done |]. split; [| done].
  destruct (decide (at_ b i = 0)) as [H0 | H0]; [done |]. exfalso.
  assert (Ht : used b u k v = true); [| congruence]. apply used_spec. exists i. rewrite <- (Hext i Hi H0). done.
Qed.
End solution.

(** A solution of the board is a cover. *)
Lemma solution_covers b g : solved g -> extends b g -> exists T, exact_names b T.
Proof.
  intros [_ Hs] He.
  assert (Hrow : forall k, 0 <= k < 9 -> unit_values row_of g k ≡ₚ seqZ 1 9) by (intros k Hk; by apply Hs).
  assert (Hcol : forall k, 0 <= k < 9 -> unit_values col_of g k ≡ₚ seqZ 1 9) by (intros k Hk; by apply Hs).
  assert (Hbox : forall k, 0 <= k < 9 -> unit_values box_of g k ≡ₚ seqZ 1 9) by (intros k Hk; by apply Hs).
  pose proof (solution_value g _ _ row_kind Hrow) as Hval.
  set (T := map (fun i => (i, at_ g i)) (filter (fun i => at_ b i = 0) cells)). exists T.
  assert (HT : forall i v, (i, v) ∈ T <-> i ∈ cells /\ at_ b i = 0 /\ v = at_ g i).
  { intros i v. unfold T. rewrite list_elem_of_fmap. split.
    - intros (j & [= -> ->] & [H0 Hj]%list_elem_of_filter). done.
    - intros (Hi & H0 & ->). exists i. split; [done |]. by apply list_elem_of_filter. }
  assert (Hsub : T ⊆ cands0 b).
  { intros [i v] (Hi & H0 & ->)%HT. apply list_elem_of_filter. split.
    - unfold possible. cbn [fst snd]. rewrite H0, (solution_unused b g _ _ row_kind Hrow He), (solution_unused b g _ _ col_kind Hcol He),
        (solution_unused b g _ _ box_kind Hbox He) by done. done.
    - unfold all_cands. apply elem_of_mjoin_map. exists i. split; [done |]. apply list_elem_of_fmap. exists (at_ g i). split; [done |].
      apply elem_of_seqZ. pose proof (Hval i Hi). lia. }
  split; [done |]. apply NoDup_Permutation; [| apply names0_ok |].
  - apply NoDup_mjoin_map.
    + unfold T. apply NoDup_fmap_2; [by intros ? ? [= ? _] |]. apply NoDup_filter, NoDup_seqZ.
    + intros c Hc%Hsub. by apply possible_fits in Hc as [? _].
    + intros [i v] [j w] z (Hi & _ & ->)%HT (Hj & _ & ->)%HT Hz Hz'. assert (i = j) as ->; [| done].
      destruct (units_range i Hi) as (? & ? & ?). pose proof (Hval i Hi) as Vi. pose proof (Hval j Hj) as Vj.
      unfold names_of in Hz. cbn [fst snd] in Hz. rewrite !elem_of_cons, elem_of_nil in Hz. destruct Hz as [-> | [-> | [-> | [-> | []]]]].
      * pose proof Hi as Hi'%elem_of_seqZ. destruct (units_range j Hj) as (? & ? & ?).
        apply (names_numbers j _ Hj) in Hz'. unfold kCells in *. lia.
      * apply (k_only _ _ row_kind) in Hz' as [? ?]; [| done..]. by apply (solution_apart g _ _ row_kind Hrow).
      * apply (k_only _ _ col_kind) in Hz' as [? ?]; [| done..]. by apply (solution_apart g _ _ col_kind Hcol).
      * apply (k_only _ _ box_kind) in Hz' as [? ?]; [| done..]. by apply (solution_apart g _ _ box_kind Hbox).
  - intros n. split.
    + intros (c & Hc & Hn)%elem_of_mjoin_map. apply Hsub, possible_fits in Hc as [_ Hf]. by apply Hf.
    + intros [Hw Hn]%list_elem_of_filter. apply elem_of_mjoin_map. unfold all_names in Hn. apply elem_of_app in Hn as [Hn | Hn].
      * rewrite wanted_cell in Hw by done. apply Z.eqb_eq in Hw. exists (n, at_ g n). split; [by apply HT | by left].
      * apply elem_of_mjoin_map in Hn as (k & Hkr%elem_of_seqZ & (v & Hvr%elem_of_seqZ & Hn)%elem_of_mjoin_map).
        assert (Hfin : forall u nmk, kind u nmk -> (exists i, i ∈ cells /\ at_ b i = 0 /\ u i = k /\ at_ g i = v) -> n = nmk k v ->
          exists c, c ∈ T /\ n ∈ names_of c).
        { intros u nmk Hk (i & Hi & H0 & <- & <-) ->. exists (i, at_ g i). split; [by apply HT | by apply Hk]. }
        rewrite !elem_of_cons, elem_of_nil in Hn. destruct Hn as [-> | [-> | [-> | []]]].
        -- apply (Hfin _ _ row_kind); [| done]. apply (solution_wanted b g _ _ row_kind Hrow He); [lia | lia | done].
        -- apply (Hfin _ _ col_kind); [| done]. apply (solution_wanted b g _ _ col_kind Hcol He); [lia | lia | done].
        -- apply (Hfin _ _ box_kind); [| done]. apply (solution_wanted b g _ _ box_kind Hbox He); [lia | lia | done].
Qed.

(** ** The solver *)

Definition decode (names : list Z) (r : row) : Z * Z :=
  match r with
  | x :: y :: _ => (nm names x.2, Z.rem (nm names y.2) 10)
  | _ => (0, 0)
  end.

Section bridge.
Variables (b : list Z) (rows : list row) (s : SudokuSolver).
Let names := names0 b.
Hypothesis Hbu : built b names (cands0 b) rows s.

Lemma names_back r c : row_for names r c -> c ∈ cands0 b -> map (nm names) r.*2 = names_of c.
Proof using.
  intros Hr Hc. rewrite Hr. destruct (possible_fits b c Hc) as [_ Hf]. fold names in Hf.
  induction (names_of c) as [| n l IH]; [done |]. cbn. f_equal; [apply colidx_spec, Hf; by left | apply IH].
  intros m Hm. apply Hf. by right.
Qed.
Lemma decode_row r c : row_for names r c -> c ∈ cands0 b -> decode names r = c /\ means (nm names) r c.1 c.2.
Proof using.
  intros Hr Hc. pose proof (names_back r c Hr Hc) as Hback. destruct c as [i v].
  pose proof Hc as (Hi & Hv & _)%cands0_spec. pose proof Hi as Hi'%elem_of_seqZ. destruct (units_range i Hi) as (? & ? & ?).
  assert (Hrem : forall c k, 0 <= c -> 0 <= k -> Z.rem (c * 10 + k * 10 + v) 10 = v).
  { intros c k Hc0 Hk. rewrite Z.rem_mod_nonneg by lia. replace (c * 10 + k * 10 + v) with (v + (c + k) * 10) by lia.
    rewrite Z.mod_add, Z.mod_small by lia. done. }
  destruct r as [| [p0 c0] [| [p1 c1] [| [p2 c2] [| [p3 c3] [|]]]]]; try done.
  unfold names_of in Hback. cbn [map fmap list_fmap fst snd] in Hback. injection Hback as E0 E1 E2 E3.
  unfold get_row_col, get_col_col, get_box_col, kRow, kCol, kBox, kCells in *. split.
  - cbn. rewrite E0, E1. f_equal. apply (Hrem 10); lia.
  - split; [cbn; lia |]. split; [cbn; lia |]. split; [exists (p0, c0); split; [by left | done] |].
    split; [exists (p1, c1); split; [by right; left | cbn; lia] |].
    intros x Hx. rewrite !elem_of_cons, elem_of_nil in Hx. destruct Hx as [-> | [-> | [-> | [-> | []]]]]; cbn [fst snd].
    + by left.
    + right. rewrite E1. split; [lia | apply (Hrem 10); lia].
    + right. rewrite E2. split; [lia | apply (Hrem 20); lia].
    + right. rewrite E3. split; [lia | apply (Hrem 30); lia].
Qed.

Lemma row_cand r : r ∈ rows -> exists c, c ∈ cands0 b /\ row_for names r c.
Proof using Hbu.
  intros (i & Hi)%list_elem_of_lookup. destruct (Forall2_lookup_l _ _ _ _ _ (bu_rows _ _ _ _ _ Hbu) Hi) as (c & Hc & Hrc).
  exists c. split; [by eapply list_elem_of_lookup_2 | done].
Qed.
Lemma cand_row c : c ∈ cands0 b -> exists r, r ∈ rows /\ row_for names r c.
Proof using Hbu.
  intros (i & Hi)%list_elem_of_lookup. destruct (Forall2_lookup_r _ _ _ _ _ (bu_rows _ _ _ _ _ Hbu) Hi) as (r & Hr & Hrc).
  exists r. split; [by eapply list_elem_of_lookup_2 | done].
Qed.

Lemma heads_names : map (nm names) (heads names) = names /\ map (colidx names) names = heads names.
Proof using.
  assert (Hnm : forall i n, names !! i = Some n -> nm names (S i) = n).
  { intros i n Hi. unfold nm. cbn. rewrite Nat.sub_0_r. by apply nth_lookup_Some. }
  split; apply list_eq; intros i.
  - change (map (nm names) (heads names)) with (nm names <$> heads names). rewrite list_lookup_fmap. unfold heads.
    destruct (names !! i) as [n |] eqn:E.
    + pose proof (lookup_lt_Some _ _ _ E). rewrite lookup_seq_lt by done. cbn. f_equal. by apply Hnm.
    + apply lookup_ge_None in E. rewrite lookup_seq_ge by done. done.
  - change (map (colidx names) names) with (colidx names <$> names). rewrite list_lookup_fmap. unfold heads.
    destruct (names !! i) as [n |] eqn:E; cbn.
    + pose proof (lookup_lt_Some _ _ _ E). rewrite lookup_seq_lt by done. f_equal.
      destruct (colidx_spec names n) as (Hp & _ & _); [by eapply list_elem_of_lookup_2 |].
      apply colptr_Some in Hp as [Hpos Hp]. destruct (names0_ok b) as (Hnd & _). fold names in Hnd.
      pose proof (NoDup_lookup _ _ _ _ Hnd Hp E). cbn. lia.
    + apply lookup_ge_None in E. by rewrite lookup_seq_ge.
Qed.

Lemma exact_to_names S : exact (heads names) rows S -> exact_names b (decode names <$> S).
Proof using Hbu.
  intros [Hsub Hp]. split.
  - intros c (r & -> & Hr)%list_elem_of_fmap. apply Hsub, row_cand in Hr as (c & Hc & Hrc). by destruct (decode_row r c Hrc Hc) as [-> _].
  - destruct heads_names as [Hh _].
    assert (Hmap : mjoin (map names_of (decode names <$> S)) = map (nm names) (mjoin S).*2).
    { clear Hp. induction S as [| r S IH]; [done |].
      change (mjoin (map names_of (decode names <$> r :: S))) with (names_of (decode names r) ++ mjoin (map names_of (decode names <$> S))).
      rewrite mjoin_cons, map_app, IH by (intros r' Hr'; apply Hsub; by right). f_equal.
      destruct (row_cand r) as (c & Hc & Hrc); [apply Hsub; by left |]. destruct (decode_row r c Hrc Hc) as [-> _].
      symmetry. by apply names_back. }
    rewrite Hmap, (Permutation_map (nm names) Hp). by rewrite Hh.
Qed.
Lemma names_to_exact T : exact_names b T -> exists S, exact (heads names) rows S.
Proof using Hbu.
  intros [Hsub Hp].
  assert (HS : exists S, S ⊆ rows /\ (mjoin S).*2 = map (colidx names) (mjoin (map names_of T))).
  { clear Hp. induction T as [| c T IH]; [exists []; split; [by intros r ?%not_elem_of_nil | done] |].
    destruct IH as (S & HS & HE); [intros c' Hc'; apply Hsub; by right |].
    destruct (cand_row c) as (r & Hr & Hrc); [apply Hsub; by left |]. exists (r :: S). split.
    - intros r' [-> | Hr']%elem_of_cons; [done | by apply HS].
    - rewrite mjoin_cons, HE. change (mjoin (map names_of (c :: T))) with (names_of c ++ mjoin (map names_of T)).
      by rewrite map_app, Hrc. }
  destruct HS as (S & HS & HE). exists S. split; [done |]. rewrite HE. destruct heads_names as [_ <-]. by apply Permutation_map.
Qed.

(** The search on the matrix the constructor built. *)
Lemma solver_ok : board_ok b ->
  (exists s', solve (Z.to_nat kMaxColumns) s = Ok (true, s') /\ solved (inout_ s') /\ extends b (inout_ s'))
  \/ (solve (Z.to_nat kMaxColumns) s = Ok (false, s) /\ forall g, ~ (solved g /\ extends b g)).
Proof using Hbu.
  intros Hb. pose proof Hbu as [Hp Hin Hst _ _ Hrep Hmat].
  assert (Hdec : forall r, r ∈ rows -> means (nm names) r (decode names r).1 (decode names r).2).
  { intros r Hr. destruct (row_cand r Hr) as (c & Hc & Hrc). by destruct (decode_row r c Hrc Hc) as [-> Hm']. }
  assert (Hcell : forall r, r ∈ rows -> (decode names r).1 < zlen (inout_ s)).
  { intros r Hr. destruct (row_cand r Hr) as ([i v] & Hc & Hrc). destruct (decode_row r _ Hrc Hc) as [-> _].
    pose proof Hc as (Hi%elem_of_seqZ & _)%cands0_spec. rewrite Hin. destruct Hb as [-> _]. cbn [fst]. lia. }
  destruct (solve_ok O (heads names) rows Hmat (nm names) (decode names) Hdec (Z.to_nat kMaxColumns) s (heads names) rows [])
    as [(S & s' & Hs & HS & Hout) | [Hs Hno]]; try done.
  - apply (p_root _ _ _ Hp).
  - unfold heads. rewrite length_seq. destruct (names0_ok b) as (_ & _ & Hl). fold names in Hl. unfold kMaxColumns. lia.
  - by rewrite Hst.
  - left. exists s'. split; [done |]. rewrite Hout, Hin. apply cover_solves; [done |]. by apply exact_to_names.
  - right. split; [done |]. intros g [Hg He]. destruct (solution_covers b g Hg He) as [T HT].
    destruct (names_to_exact T HT) as [S HS]. by apply (Hno S).
Qed.
End bridge.

Lemma solveSudoku_answers puzzle : zlen puzzle = kCells ->
  (exists g, solveSudoku puzzle = Ok (map (fun v => byte_of (v + 48)) g) /\ solved g /\ extends (map digit_of puzzle) g)
  \/ (solveSudoku puzzle = Ok (bs "NoSolution") /\ forall g, ~ (solved g /\ extends (map digit_of puzzle) g)).
Proof.
  intros Hlen. unfold solveSudoku. rewrite Hlen, Z.eqb_refl. cbn [assert_]. rsimp. set (b := map digit_of puzzle).
  assert (Hb : zlen b = kCells) by (unfold b, zlen in *; by rewrite length_map).
  destruct (forallb _ b) eqn:Hvalid.
  - assert (Hok : board_ok b).
    { split; [done |]. apply Forall_forall. intros v Hv%list_elem_of_In. rewrite forallb_forall in Hvalid. specialize (Hvalid v Hv). lia. }
    destruct (new_ok b Hok) as (s & rows & -> & Hbu). rsimp.
    destruct (solver_ok b rows s Hbu Hok) as [(s' & -> & Hs & He) | [-> Hno]]; rsimp; [left; by eexists | by right].
  - right. split; [done |]. intros g [[_ Hs] He].
    assert (Hall : forallb (fun v => (0 <=? v) && (v <=? 9)) b = true); [| congruence]. apply forallb_forall.
    intros v (i & Hi)%list_elem_of_In%list_elem_of_lookup.
    assert (Hc : Z.of_nat i ∈ cells). { apply elem_of_seqZ. apply lookup_lt_Some in Hi. unfold zlen in Hb. lia. }
    assert (Hat : at_ b (Z.of_nat i) = v) by (unfold at_; rewrite Nat2Z.id; by apply nth_lookup_Some).
    destruct (decide (v = 0)) as [-> | Hv]; [done |].
    pose proof (solution_value g _ _ row_kind (fun k Hk => proj1 (Hs k Hk)) _ Hc) as Hval.
    rewrite (He _ Hc) in Hval by congruence. rewrite Hat in Hval. lia.
Qed.

(** C6: [solveSudoku] solves every puzzle that has a solution, and says so of every
    other: from 81 characters it returns 81 digits that complete the puzzle, or
    "NoSolution" and then no board completes it (one with a character that is
    not a digit, or with the same value twice in a row, included).  It never
    follows a dangling pointer and ends. *)
Theorem solveSudoku_correct puzzle : zlen puzzle = kCells ->
  (exists g, solveSudoku puzzle = Ok (map (fun v => byte_of (v + 48)) g) /\ solved g /\ extends (map digit_of puzzle) g)
  \/ (solveSudoku puzzle = Ok (bs "NoSolution") /\ forall g, ~ (solved g /\ extends (map digit_of puzzle) g)).
Proof. apply solveSudoku_answers. Qed.

Definition demo_puzzle : list byte :=
  bs "530070000600195000098000060800060003400803001700020006060000280000419005000080079".
Definition demo_solution : list byte :=
  bs "534678912672195348198342567859761423426853791713924856961537284287419635345286179".

Example demo_solved : solveSudoku demo_puzzle = Ok demo_solution.
Proof. vm_compute. reflexivity. Qed.
(** Two fives in the first row. *)
Definition demo_unsolvable : list byte :=
  bs "550070000600195000098000060800060003400803001700020006060000280000419005000080079".

Lemma solveSudoku_correct_witness : ~ exists g, solved g /\ extends (map digit_of demo_unsolvable) g.
Proof.
  destruct (solveSudoku_correct demo_unsolvable ltac:(reflexivity)) as [(g & He & Hs & _) | [_ H]]; [| intros [g Hg]; exact (H g Hg)].
  exfalso. assert (Hr : solveSudoku demo_unsolvable = Ok (bs "NoSolution")) by (vm_compute; reflexivity).
  rewrite Hr in He. injection He as He. apply (f_equal length) in He. rewrite length_map in He.
  destruct Hs as [Hl _]. unfold zlen in Hl. rewrite <- He in Hl. discriminate Hl.
Defined.
