(* ===== verification/SudokuServer.v ===== *)
(** * The sudoku server: [examples/sudoku/server_basic.cc]

    Requests, a line each, answered with the solver of [Sudoku.v]; the
    multi-loop server has the same two functions.  What goes to the connection
    is the list of strings sent; the flag is whether it was shut down. *)
From S2P Require Import Prelude Endian Buffer Framing DancingLinks Sudoku.

(*@ muduo/examples/sudoku/server_basic.cc 80-115 SudokuServer::processRequest *)
Definition processRequest (request : list byte) : res (option (list byte)) :=
  let colon := find_byte COLON request in
  let '(id, puzzle) := if colon =? zlen request then ([], request) else (ztake colon request, zdrop (colon + 1) request) in
  if zlen puzzle =? kCells
  then
    result ← solveSudoku puzzle;
    mret (Some (match id with [] => result ++ crlf | _ => id ++ [COLON] ++ result ++ crlf end))
  else mret None.

(** [len] is the local variable: it is read again only after a request. *)
Fixpoint onMessage_loop (fuel : nat) (len : Z) (buf : Buffer) : res (list (list byte) * bool * Buffer) :=
  match fuel with
  | O => Err OutOfFuel
  | S fuel =>
      if kCells + 2 <=? len
      then
        found ← findCRLF buf;
        match found with
        | Some pos =>
            request ← mem_read (peek buf) pos (buffer_ buf);
            buf ← retrieveUntil buf (pos + 2);
            reply ← processRequest request;
            match reply with
            | Some reply =>
                '(out, stop, buf) ← onMessage_loop fuel (readableBytes buf) buf;
                mret (reply :: out, stop, buf)
            | None => mret ([bs "Bad Request!" ++ crlf], true, buf)
            end
        | None => if 100 <? len then mret ([bs "Id too long!" ++ crlf], true, buf) else mret ([], false, buf)
        end
      else mret ([], false, buf)
  end.
(** Each turn but the last takes two bytes at least. *)
(*@ muduo/examples/sudoku/server_basic.cc 48-78 SudokuServer::onMessage *)
Definition onMessage (buf : Buffer) : res (list (list byte) * bool * Buffer) :=
  onMessage_loop (S (Z.to_nat (readableBytes buf))) (readableBytes buf) buf.

(** ** Requests as a stream of lines *)

(** A request: an identifier, perhaps none, and a puzzle. *)
Definition request : Type := list byte * list byte.
Definition line (r : request) : list byte := match r.1 with [] => r.2 | _ => r.1 ++ [COLON] ++ r.2 end.
Definition enc (r : request) : list byte := line r ++ crlf.

(** Requests the server means to serve: 81 characters, an identifier of at most
    17, and no separator where it would be misread. *)
Definition good (r : request) : Prop :=
  zlen r.2 = kCells /\ zlen r.1 <= 17 /\ COLON ∉ r.1 /\ (r.1 = [] -> COLON ∉ r.2) /\ CR ∉ line r.

(** The reply to a request is the solver's answer under its identifier. *)
Definition answers (r : request) (reply : list byte) : Prop :=
  exists result, solveSudoku r.2 = Ok result
    /\ reply = match r.1 with [] => result ++ crlf | _ => r.1 ++ [COLON] ++ result ++ crlf end.

(** The first line of at least 81 characters, and its end. *)
Definition next (l : list byte) : next_result (list byte) :=
  if kCells + 2 <=? zlen l
  then match find_sub crlf l with Some i => Got (ztake i l) (zdrop (i + 2) l) | None => NeedMore end
  else NeedMore.

#[export] Instance sudoku_stable : StableNext next.
Proof.
  unfold next. split.
  - intros l m rest H. destruct (_ <=? _); [| done]. destruct (find_sub crlf l) as [i |] eqn:E; [| done]. injection H as _ <-.
    destruct (crlf_range l i E). unfold zdrop, zlen in *. rewrite length_drop. lia.
  - intros l k m rest H. pose proof (zlen_nonneg k). destruct (Z.leb_spec (kCells + 2) (zlen l)); [| done].
    rewrite zlen_app, (proj2 (Z.leb_le _ _)) by lia. destruct (find_sub crlf l) as [i |] eqn:E; [| done]. injection H as <- <-.
    rewrite (find_sub_app_Some _ _ _ _ E). destruct (crlf_range l i E). by rewrite ztake_app_l, zdrop_app_l by lia.
  - intros l k H. destruct (_ <=? _); [| done]. by destruct (find_sub crlf l).
Qed.

Lemma zlen_line r : good r -> kCells <= zlen (line r) <= 99.
Proof.
  intros (H1 & H2 & _). unfold line. destruct (r.1); [unfold kCells in *; lia |].
  rewrite !zlen_app. change (zlen [COLON]) with 1. pose proof (zlen_nonneg (b :: l)). unfold kCells in *. lia.
Qed.

Lemma next_request r k : good r -> next (enc r ++ k) = Got (line r) k.
Proof.
  intros Hg. pose proof (zlen_line r Hg). pose proof (zlen_nonneg k). unfold next, enc.
  rewrite !zlen_app. change (zlen crlf) with 2. rewrite (proj2 (Z.leb_le _ _)) by lia.
  rewrite <- app_assoc, find_sub_cr by apply Hg. f_equal.
  - rewrite ztake_app_l, ztake_all by lia. done.
  - rewrite app_assoc, zdrop_app_r by (rewrite zlen_app; change (zlen crlf) with 2; lia).
    rewrite zlen_app. change (zlen crlf) with 2. by rewrite Z.sub_diag.
Qed.

(** The request, read back. *)
Lemma process_line r : good r -> exists reply, processRequest (line r) = Ok (Some reply) /\ answers r reply.
Proof.
  intros (Hp & Hi & Hc & Hcp & _). destruct r as [id p]. cbn [fst snd] in *. unfold processRequest.
  assert (Hs : exists result, solveSudoku p = Ok result).
  { destruct (solveSudoku_answers p Hp) as [(g & -> & _) | [-> _]]; by eexists. }
  destruct Hs as [result Hs]. destruct id as [| b id].
  - cbn [line fst snd]. rewrite find_byte_notin, Z.eqb_refl by by apply Hcp. rewrite Hp, Z.eqb_refl, Hs. rsimp.
    eexists. split; [done |]. by exists result.
  - unfold line. cbn [fst snd]. set (i := b :: id) in *. change ([COLON] ++ p) with (COLON :: p).
    rewrite find_byte_split by done. pose proof (zlen_nonneg p). rewrite zlen_app, zlen_cons.
    rewrite (proj2 (Z.eqb_neq _ _)) by lia. rewrite ztake_app_l, ztake_all by lia.
    rewrite zdrop_app_r by lia. replace (zlen i + 1 - zlen i) with 1 by lia. change (zdrop 1 (COLON :: p)) with p.
    rewrite Hp, Z.eqb_refl, Hs. rsimp. eexists. split; [done |]. by exists result.
Qed.

Definition enc_line (m : list byte) : list byte := m ++ crlf.

(** A strict prefix of a line has no end of line. *)
Lemma next_prefix m l k : CR ∉ m -> enc_line m = l ++ k -> k <> [] -> next l = NeedMore.
Proof.
  intros Hcr Heq Hk. unfold next. destruct (_ <=? _); [| done].
  pose proof (next_line_prefix m l k Hcr Heq Hk) as Hn. unfold next_line in Hn. by destruct (find_sub crlf l).
Qed.

Lemma onMessage_answers reqs : forall fuel l r b, holds l b -> l = concat (map enc reqs) ++ r -> next r = NeedMore ->
  zlen r <= 100 -> Forall good reqs -> (length reqs < fuel)%nat ->
  exists out b', onMessage_loop fuel (zlen l) b = Ok (out, false, b') /\ Forall2 answers reqs out /\ holds r b'.
Proof.
  induction reqs as [| q reqs IH]; intros [| fuel] l r b Hb Hl Hr Hshort Hg Hf; try (cbn in Hf; lia); cbn [onMessage_loop].
  - cbn in Hl. subst l. unfold next in Hr. exists [], b.
    destruct (_ <=? zlen r); [| done]. rewrite (findCRLF_holds _ _ Hb). change kCRLF with crlf.
    destruct (find_sub crlf r); [done |]. rsimp. by rewrite (proj2 (Z.ltb_ge _ _)) by lia.
  - apply Forall_cons in Hg as [Hq Hg]. cbn [map concat] in Hl. rewrite <- app_assoc in Hl. pose proof (zlen_line q Hq).
    pose proof (next_request q (concat (map enc reqs) ++ r) Hq) as Hn. rewrite <- Hl in Hn. unfold next in Hn.
    destruct (_ <=? zlen l); [| done]. destruct (find_sub crlf l) as [i |] eqn:Ei; [| done]. injection Hn as Hi Hd.
    destruct (crlf_range l i Ei) as [Hi0 Hi2]. rewrite (findCRLF_holds _ _ Hb). change kCRLF with crlf. rewrite Ei. rsimp. cbn [option_fmap option_map].
    pose proof (read_range l b 0 i Hb ltac:(lia) ltac:(lia)) as Hread. rewrite Z.add_0_r in Hread. rewrite Hread. rsimp.
    replace (peek b + i + 2) with (peek b + (i + 2)) by lia.
    destruct (retrieveUntil_holds l b (i + 2) Hb) as (b1 & -> & Hb1); [lia |]. rsimp.
    rewrite <- ztake_is_zslice, Hi. destruct (process_line q Hq) as (reply & -> & Ha). rsimp.
    rewrite Hd in Hb1. rewrite (holds_readable _ _ Hb1).
    destruct (IH fuel _ r b1 Hb1 eq_refl Hr Hshort Hg) as (out & b2 & -> & Hout & Hb2); [cbn in Hf; lia |]. rsimp.
    exists (reply :: out), b2. split; [done |]. split; [by constructor | done].
Qed.

(** What arrived so far of a stream of requests: those that are complete, and
    a piece short enough to wait for the rest. *)
Lemma requests_part reqs l w : Forall good reqs -> l ++ w = concat (map enc reqs) ->
  exists reqs1 reqs2 r, reqs = reqs1 ++ reqs2 /\ l = concat (map enc reqs1) ++ r
    /\ next r = NeedMore /\ zlen r <= 100 /\ r ++ w = concat (map enc reqs2).
Proof.
  revert l. induction reqs as [| q reqs IH]; intros l Hg Heq; cbn [map concat] in Heq.
  - apply app_nil in Heq as [-> ->]. exists [], [], []. split_and!; try done.
  - apply Forall_cons in Hg as [Hq Hg]. pose proof (zlen_line q Hq) as Hlen.
    destruct (decide (zlen (enc q) <= zlen l)) as [Hl | Hl].
    + assert (Hpre : l = enc q ++ zdrop (zlen (enc q)) l).
      { assert (Ht : ztake (zlen (enc q)) (l ++ w) = enc q) by (rewrite Heq, ztake_app_l, ztake_all; done || lia).
        rewrite ztake_app_l in Ht by lia. rewrite <- Ht at 1. by rewrite ztake_zdrop. }
      rewrite Hpre, <- app_assoc in Heq. apply app_inv_head in Heq.
      destruct (IH _ Hg Heq) as (reqs1 & reqs2 & r & -> & Hl' & Hr & Hs & Hw).
      exists (q :: reqs1), reqs2, r. split; [done |]. split; [| done]. cbn [map concat]. by rewrite <- app_assoc, <- Hl'.
    + exists [], (q :: reqs), l. split; [done |]. split; [done |].
      assert (Henc : enc q = l ++ zdrop (zlen l) (enc q)).
      { assert (Ht : ztake (zlen l) (enc q ++ concat (map enc reqs)) = l) by (rewrite <- Heq, ztake_app_l, ztake_all; done || lia).
        rewrite ztake_app_l in Ht by lia. rewrite <- Ht at 1. by rewrite ztake_zdrop. }
      split; [| split; [| done]].
      * apply (next_prefix (line q) l (zdrop (zlen l) (enc q))); [apply Hq | done |].
        intros Hnil. apply (f_equal zlen) in Hnil. pose proof (zlen_nonneg l). rewrite zlen_zdrop, zlen_nil in Hnil; lia.
      * unfold enc in Hl. rewrite zlen_app in Hl. change (zlen crlf) with 2 in Hl. lia.
Qed.

(** The fuel is enough for the requests in the buffer. *)
Lemma requests_fuel reqs r : Forall good reqs -> (length reqs < S (Z.to_nat (zlen (concat (map enc reqs) ++ r))))%nat.
Proof.
  intros Hg. unfold zlen. rewrite Nat2Z.id, length_app.
  induction Hg as [| q reqs Hq _ IH]; [cbn; lia |]. cbn [map concat length]. rewrite length_app.
  pose proof (zlen_line q Hq). unfold enc, zlen, kCells in *. rewrite length_app. lia.
Qed.

Lemma sudoku_chunks chunks : forall reqs r b, holds r b -> r ++ concat chunks = concat (map enc reqs) ->
  Forall good reqs -> Forall (fun c => zlen c < 2 ^ 62) chunks -> next r = NeedMore ->
  safe (run_chunks onMessage chunks b) (fun '(out, stop, b') => Forall2 answers reqs out /\ stop = false /\ holds [] b').
Proof.
  induction chunks as [| c chunks IH]; intros reqs r b Hb Heq Hg Hc Hn; cbn [run_chunks concat] in *.
  - rewrite app_nil_r in Heq. destruct reqs as [| q reqs].
    + cbn in Heq. subst r. split; [constructor | done].
    + apply Forall_cons in Hg as [Hq _]. cbn [map concat] in Heq. pose proof (next_request q (concat (map enc reqs)) Hq) as Hgot. congruence.
  - apply Forall_cons in Hc as [Hc Hcs]. eapply safe_bind; [by apply append_holds |]. intros b1 Hb1. cbn beta in Hb1.
    rewrite app_assoc in Heq. destruct (requests_part reqs _ _ Hg Heq) as (reqs1 & reqs2 & r1 & -> & Hl & Hr & Hs & Hw).
    apply Forall_app in Hg as [Hg1 Hg2]. unfold onMessage. rewrite (holds_readable _ _ Hb1).
    destruct (onMessage_answers reqs1 (S (Z.to_nat (zlen (r ++ c)))) _ r1 b1 Hb1 Hl Hr Hs Hg1) as (out & b2 & -> & Ho & Hb2).
    { rewrite Hl. by apply requests_fuel. }
    rsimp. eapply safe_bind; [by apply (IH reqs2 r1) |]. intros [[out2 stop] b3] (Ho2 & -> & Hb3). split; [by apply Forall2_app | done].
Qed.

(** Every request is answered, once, in order, under its identifier, however
    the stream of requests is cut; the connection is not shut down, and nothing
    is left in the buffer. *)
Theorem sudoku_server_answers reqs chunks b :
  holds [] b -> Forall good reqs -> Forall (fun c => zlen c < 2 ^ 62) chunks -> concat chunks = concat (map enc reqs) ->
  safe (run_chunks onMessage chunks b) (fun '(out, stop, b') => Forall2 answers reqs out /\ stop = false /\ holds [] b').
Proof. intros Hb Hg Hc Heq. by apply (sudoku_chunks chunks reqs []). Qed.

(** A longer identifier: the request is answered when it arrives at once, and
    refused when its end comes later. *)
Definition long_request : list byte := bs "an identifier of more than seventeen:" ++ demo_puzzle ++ crlf.
Theorem long_identifier_depends_on_cut :
  (exists b, run_chunks onMessage [long_request] Buffer_new
     = Ok ([bs "an identifier of more than seventeen:" ++ demo_solution ++ crlf], false, b))
  /\ exists b, run_chunks onMessage [ztake 117 long_request; zdrop 117 long_request] Buffer_new
     = Ok ([bs "Id too long!" ++ crlf], true, b).
Proof. split; eexists; vm_compute; reflexivity. Qed.

(** A bad request shorter than a puzzle is not answered. *)
Theorem short_request_unanswered :
  exists b, run_chunks onMessage [bs "hello" ++ crlf] Buffer_new = Ok ([], false, b).
Proof. eexists. vm_compute. reflexivity. Qed.

Definition demo_requests : list request := [(bs "a", demo_puzzle); ([], demo_unsolvable)].
Definition demo_pieces : list (list byte) :=
  let s := concat (map enc demo_requests) in [zslice 0 50 s; zslice 50 84 s; zdrop 84 s].

Lemma demo_good : Forall good demo_requests.
Proof.
  repeat constructor; try (by_evaluation || reflexivity); try discriminate; intros _; by_evaluation.
Qed.

Lemma sudoku_server_answers_witness :
  safe (run_chunks onMessage demo_pieces Buffer_new)
    (fun '(out, stop, b') => Forall2 answers demo_requests out /\ stop = false /\ holds [] b').
Proof.
  apply (sudoku_server_answers demo_requests demo_pieces Buffer_new holds_new demo_good).
  - by_evaluation.
  - vm_compute. reflexivity.
Defined.
