(* ===== verification/PubSub.v ===== *)
(** * PubSub: the publish/subscribe hub of [examples/hub]

    [codec.cc] (one parser for both sides), [hub.cc] (topics and the server)
    and what [pubsub.cc] sends.  A connection is what the hub uses of a
    [TcpConnection]: its state, its context and the bytes sent on it. *)
From S2P Require Import Prelude Buffer Framing.

(** ** The line protocol *)

(*@ muduo/examples/hub/codec.h 15-20 pubsub::ParseResult *)
Inductive ParseResult : Type := kError | kSuccess | kContinue.

(** The result, with the three output strings. *)
(*@ muduo/examples/hub/codec.cc 7-52 pubsub::parseMessage *)
Definition parseMessage (buf : Buffer)
  : res (ParseResult * (list byte * list byte * list byte) * Buffer) :=
  crlf ← findCRLF buf;
  match crlf with
  | Some crlf =>
      line ← mem_read (peek buf) crlf (buffer_ buf);
      let space := find_byte SP line in
      if negb (space =? zlen line)
      then
        let cmd := ztake space line in
        let topic := zdrop (space + 1) line in
        if decide (cmd = bs "pub")
        then
          let start := crlf + 2 in
          crlf ← findCRLF_from buf start;
          match crlf with
          | Some crlf =>
              content ← mem_read start crlf (buffer_ buf);
              buf ← retrieveUntil buf (crlf + 2);
              mret (kSuccess, (cmd, topic, content), buf)
          | None => mret (kContinue, (cmd, topic, []), buf)
          end
        else
          buf ← retrieveUntil buf (crlf + 2);
          mret (kSuccess, (cmd, topic, []), buf)
      else mret (kError, ([], [], []), buf)
  | None => mret (kContinue, ([], [], []), buf)
  end.

(** What a client sends. *)
Inductive command : Type :=
| Sub (topic : list byte)
| Unsub (topic : list byte)
| Pub (topic content : list byte).

(*@ muduo/examples/hub/pubsub.cc 38-43 PubSubClient::subscribe *)
Definition subscribe (topic : list byte) : list byte := bs "sub " ++ topic ++ kCRLF.
(*@ muduo/examples/hub/pubsub.cc 45-49 PubSubClient::unsubscribe *)
Definition unsubscribe (topic : list byte) : list byte := bs "unsub " ++ topic ++ kCRLF.
(*@ muduo/examples/hub/pubsub.cc 52-56 PubSubClient::publish *)
Definition publish (topic content : list byte) : list byte :=
  bs "pub " ++ topic ++ kCRLF ++ content ++ kCRLF.

Definition client_bytes (c : command) : list byte :=
  match c with
  | Sub t => subscribe t
  | Unsub t => unsubscribe t
  | Pub t x => publish t x
  end.

(** ** Connections *)

(** [context_] holds the set of subscriptions once the connection is up; the
    set is a node container: a reference to one of its strings is good as long
    as the string is in the set. *)
Record Conn : Type := mkConn {
  connected : bool;
  context_ : option (gset (list byte));
  sent : list (list byte)
}.

(** ** Topics *)

(** A time of 0 is the invalid [Timestamp]. *)
(*@ muduo/examples/hub/hub.cc 63-66 pubsub::Topic *)
Record Topic : Type := mkTopic {
  topic_ : list byte;
  content_ : list byte;
  lastPubTime_ : Z;
  audiences_ : gset Z
}.

(*@ muduo/examples/hub/hub.cc 24-27 Topic::Topic *)
Definition Topic_new (topic : list byte) : Topic :=
  {| topic_ := topic; content_ := []; lastPubTime_ := 0; audiences_ := ∅ |}.

(*@ muduo/examples/hub/hub.cc 192-194 pubsub::PubSubServer *)
Record PubSubServer : Type := mkServer {
  topics_ : gmap (list byte) Topic;
  conns : gmap Z Conn
}.

(** [TcpConnection::send] and [shutdown]; the shared pointers keep the objects
    of the audiences alive. *)
Definition send (conn : Z) (message : list byte) (w : PubSubServer) : PubSubServer :=
  {| topics_ := topics_ w;
     conns := alter (fun c => if connected c
                              then {| connected := true; context_ := context_ c; sent := sent c ++ [message] |}
                              else c) conn (conns w) |}.
Definition shutdown (conn : Z) (w : PubSubServer) : PubSubServer :=
  {| topics_ := topics_ w;
     conns := alter (fun c => {| connected := false; context_ := context_ c; sent := sent c |}) conn (conns w) |}.
Definition set_context (conn : Z) (s : gset (list byte)) (w : PubSubServer) : PubSubServer :=
  {| topics_ := topics_ w;
     conns := alter (fun c => {| connected := connected c; context_ := Some s; sent := sent c |}) conn (conns w) |}.
Definition set_topic (topic : list byte) (t : Topic) (w : PubSubServer) : PubSubServer :=
  {| topics_ := <[topic := t]> (topics_ w); conns := conns w |}.

(*@ muduo/examples/hub/hub.cc 58-61 Topic::makeMessage *)
Definition makeMessage (t : Topic) : list byte :=
  bs "pub " ++ topic_ t ++ kCRLF ++ content_ t ++ kCRLF.

(** The topic afterwards and the effect on the connections. *)
(*@ muduo/examples/hub/hub.cc 29-36 Topic::add *)
Definition add (t : Topic) (conn : Z) (w : PubSubServer) : Topic * PubSubServer :=
  let t := {| topic_ := topic_ t; content_ := content_ t; lastPubTime_ := lastPubTime_ t;
              audiences_ := {[conn]} ∪ audiences_ t |} in
  (t, if 0 <? lastPubTime_ t then send conn (makeMessage t) w else w).

(*@ muduo/examples/hub/hub.cc 38-41 Topic::remove *)
Definition remove (t : Topic) (conn : Z) : Topic :=
  {| topic_ := topic_ t; content_ := content_ t; lastPubTime_ := lastPubTime_ t;
     audiences_ := audiences_ t ∖ {[conn]} |}.

(** The set is traversed in the order of the addresses; [elements] stands for
    that order. *)
(*@ muduo/examples/hub/hub.cc 43-54 Topic::publish *)
Definition Topic_publish (t : Topic) (content : list byte) (time : Z) (w : PubSubServer)
  : Topic * PubSubServer :=
  let t := {| topic_ := topic_ t; content_ := content; lastPubTime_ := time;
              audiences_ := audiences_ t |} in
  let message := makeMessage t in
  (t, fold_left (fun w conn => send conn message w) (elements (audiences_ t)) w).

(** ** The server *)

(** The reference into [topics_]: the topic is inserted when it is not there. *)
(*@ muduo/examples/hub/hub.cc 182-190 PubSubServer::getTopic *)
Definition getTopic (topic : list byte) (w : PubSubServer) : Topic * PubSubServer :=
  match topics_ w !! topic with
  | Some t => (t, w)
  | None => (Topic_new topic, set_topic topic (Topic_new topic) w)
  end.

(** [boost::any_cast<ConnectionSubscription>(conn->getMutableContext())],
    dereferenced: NULL when the context holds nothing. *)
Definition connSub (conn : Z) (w : PubSubServer) : res (gset (list byte)) :=
  match conns w !! conn ≫= context_ with Some s => Ok s | None => Err BadAccess end.

(** A [const string&] argument: a string of its own, or a string of the
    connection's subscription set. *)
Inductive string_ref : Type := Own (s : list byte) | Node (s : list byte).
Definition deref (conn : Z) (r : string_ref) (w : PubSubServer) : res (list byte) :=
  match r with
  | Own s => Ok s
  | Node s => subs ← connSub conn w; if decide (s ∈ subs) then Ok s else Err BadAccess
  end.

(*@ muduo/examples/hub/hub.cc 154-162 PubSubServer::doSubscribe *)
Definition doSubscribe (conn : Z) (topic : list byte) (w : PubSubServer) : res PubSubServer :=
  subs ← connSub conn w;
  let w := set_context conn ({[topic]} ∪ subs) w in
  let '(t, w) := getTopic topic w in
  let '(t, w) := add t conn w in
  mret (set_topic topic t w).

(*@ muduo/examples/hub/hub.cc 164-172 PubSubServer::doUnsubscribe *)
Definition doUnsubscribe (conn : Z) (topic : string_ref) (w : PubSubServer) : res PubSubServer :=
  subs ← connSub conn w;
  t ← deref conn topic w;
  let w := set_context conn (subs ∖ {[t]}) w in
  t ← deref conn topic w;
  let '(tp, w) := getTopic t w in
  mret (set_topic t (remove tp conn) w).

(*@ muduo/examples/hub/hub.cc 174-180 PubSubServer::doPublish *)
Definition doPublish (topic content : list byte) (time : Z) (w : PubSubServer) : PubSubServer :=
  let '(t, w) := getTopic topic w in
  let '(t, w) := Topic_publish t content time w in
  set_topic topic t w.

(** [formatted] is [now.toFormattedString()]. *)
(*@ muduo/examples/hub/hub.cc 148-152 PubSubServer::timePublish *)
Definition timePublish (now : Z) (formatted : list byte) (w : PubSubServer) : PubSubServer :=
  doPublish (bs "utc_time") formatted now w.

(** The traversal of [connSub]: after the body, [++it] reads the node [it]
    points to. *)
Fixpoint unsubscribe_all (conn : Z) (its : list (list byte)) (w : PubSubServer) : res PubSubServer :=
  match its with
  | [] => mret w
  | it :: its =>
      w ← doUnsubscribe conn (Node it) w;
      _ ← deref conn (Node it) w;
      unsubscribe_all conn its w
  end.

(*@ muduo/examples/hub/hub.cc 90-107 PubSubServer::onConnection *)
Definition onConnection (conn : Z) (w : PubSubServer) : res PubSubServer :=
  match conns w !! conn with
  | None => Err BadAccess
  | Some c =>
      if connected c then mret (set_context conn ∅ w)
      else subs ← connSub conn w; unsubscribe_all conn (elements subs) w
  end.

(** The messages of the buffer, one per turn. *)
Fixpoint onMessage_loop (fuel : nat) (conn : Z) (buf : Buffer) (receiveTime : Z) (w : PubSubServer)
  : res (PubSubServer * Buffer) :=
  match fuel with
  | O => Err OutOfFuel
  | S fuel =>
      '(result, (cmd, topic, content), buf) ← parseMessage buf;
      match result with
      | kSuccess =>
          if decide (cmd = bs "pub")
          then onMessage_loop fuel conn buf receiveTime (doPublish topic content receiveTime w)
          else if decide (cmd = bs "sub")
          then w ← doSubscribe conn topic w; onMessage_loop fuel conn buf receiveTime w
          else if decide (cmd = bs "unsub")
          then w ← doUnsubscribe conn (Own topic) w; onMessage_loop fuel conn buf receiveTime w
          else mret (shutdown conn w, buf)
      | kError => mret (shutdown conn w, buf)
      | kContinue => mret (w, buf)
      end
  end.

(** A message takes two bytes at least out of the buffer. *)
(*@ muduo/examples/hub/hub.cc 109-146 PubSubServer::onMessage *)
Definition onMessage (conn : Z) (buf : Buffer) (receiveTime : Z) (w : PubSubServer)
  : res (PubSubServer * Buffer) :=
  onMessage_loop (S (Z.to_nat (readableBytes buf))) conn buf receiveTime w.

(** ** Parsing *)

Lemma crlf_after s k : find_sub kCRLF s = None -> find_sub kCRLF (s ++ kCRLF ++ k) = Some (zlen s).
Proof.
  induction s as [| b s IH]; [done |]. cbn [find_sub app]. intros H.
  destruct (starts_with kCRLF (b :: s)) eqn:E; [done |].
  assert (starts_with kCRLF (b :: s ++ kCRLF ++ k) = false) as ->.
  { destruct s as [| b2 s].
    - apply bool_decide_eq_false. by intros [= ->].
    - change (b :: (b2 :: s) ++ kCRLF ++ k) with ((b :: b2 :: s) ++ kCRLF ++ k).
      rewrite starts_with_app_inv; [done |]. rewrite !zlen_cons. change (zlen kCRLF) with 2.
      pose proof (zlen_nonneg s). lia. }
  destruct (find_sub kCRLF s) eqn:Es; [done |]. rewrite IH by done. cbn. by rewrite zlen_cons, Z.add_1_l.
Qed.

Lemma no_crlf_before p s : CR ∉ p -> find_sub kCRLF s = None -> find_sub kCRLF (p ++ s) = None.
Proof.
  induction p as [| b p IH]; [done |]. intros H Hs. apply not_elem_of_cons in H as [Hb Hp].
  cbn [app find_sub]. assert (starts_with kCRLF (b :: p ++ s) = false) as ->.
  { apply bool_decide_eq_false. cbn. intros Heq. injection Heq as Heq _. by apply Hb. }
  by rewrite IH.
Qed.

(** What the unread bytes begin with: a line with a space, and for [pub] a
    second one; or a line without; or less than that. *)
Inductive reading : Type :=
| More
| Bad
| Line (cmd topic content rest : list byte).

Definition read_one (l : list byte) : reading :=
  match find_sub kCRLF l with
  | None => More
  | Some n =>
      let line := ztake n l in
      let rest := zdrop (n + 2) l in
      let space := find_byte SP line in
      let cmd := ztake space line in
      let topic := zdrop (space + 1) line in
      if space =? zlen line then Bad
      else if decide (cmd = bs "pub") then
        match find_sub kCRLF rest with
        | None => More
        | Some m => Line cmd topic (ztake m rest) (zdrop (m + 2) rest)
        end
      else Line cmd topic [] rest
  end.

Lemma parse_read l b :
  holds l b ->
  match read_one l with
  | More => exists r, parseMessage b = Ok (kContinue, r, b)
  | Bad => exists r, parseMessage b = Ok (kError, r, b)
  | Line cmd topic content rest =>
      exists b', parseMessage b = Ok (kSuccess, (cmd, topic, content), b') /\ holds rest b'
  end.
Proof.
  intros Hb. unfold parseMessage, read_one. rewrite (findCRLF_holds _ _ Hb).
  destruct (find_sub kCRLF l) as [n |] eqn:En; rsimp; [| by eexists].
  cbn [option_fmap option_map]. pose proof (crlf_range _ _ En) as [Hn0 Hn].
  pose proof (read_range _ b 0 n Hb ltac:(lia) ltac:(lia)) as Hrd.
  rewrite Z.add_0_r in Hrd. rewrite Hrd. rsimp. clear Hrd.
  unfold zslice. rewrite zdrop_0, Z.sub_0_r. set (line := ztake n l).
  destruct (find_byte SP line =? zlen line); cbn [negb]; [by eexists |].
  rewrite <- !Z.add_assoc. destruct (decide _).
  - rewrite (findCRLF_from_holds _ b (n + 2) Hb) by lia. set (rest := zdrop (n + 2) l) in *.
    destruct (find_sub kCRLF rest) as [m |] eqn:Em; rsimp; cbn [option_fmap option_map]; [| by eexists].
    pose proof (crlf_range _ _ Em) as [Hm0 Hm]. unfold rest in Hm. rewrite zlen_zdrop in Hm by lia.
    rewrite <- (Z.add_assoc (peek b)), (read_range _ b _ _ Hb) by lia. rsimp.
    rewrite <- (Z.add_assoc (peek b)).
    destruct (retrieveUntil_holds _ b (n + 2 + m + 2) Hb) as (b' & -> & Hb'); [lia |]. rsimp.
    exists b'. split.
    + do 4 f_equal. unfold zslice. fold rest. f_equal. lia.
    + unfold rest. rewrite zdrop_zdrop by lia. by replace (n + 2 + (m + 2)) with (n + 2 + m + 2) by lia.
  - destruct (retrieveUntil_holds _ b (n + 2) Hb) as (b' & -> & Hb'); [lia |]. rsimp. by exists b'.
Qed.

Lemma read_one_shorter l cmd topic content rest :
  read_one l = Line cmd topic content rest -> (length rest < length l)%nat.
Proof.
  unfold read_one. destruct (find_sub kCRLF l) as [n |] eqn:En; [| done].
  apply crlf_range in En as [Hn0 Hn]. destruct (_ =? _); [done |].
  assert (zlen (zdrop (n + 2) l) < zlen l) as H1 by (rewrite zlen_zdrop; lia).
  destruct (decide _).
  - destruct (find_sub _ (zdrop (n + 2) l)) as [m |] eqn:Em; [| done]. intros [= _ _ _ <-].
    apply crlf_range in Em as [Hm0 Hm].
    assert (zlen (zdrop (m + 2) (zdrop (n + 2) l)) < zlen l) as H2 by (rewrite zlen_zdrop; lia).
    unfold zlen in H2. lia.
  - intros [= _ _ _ <-]. unfold zlen in H1. lia.
Qed.

(** ** What clients send is read as they mean it *)

(** The three strings of a command. *)
Definition fields (c : command) : list byte * list byte * list byte :=
  match c with
  | Sub t => (bs "sub", t, [])
  | Unsub t => (bs "unsub", t, [])
  | Pub t x => (bs "pub", t, x)
  end.

(** Topics and contents that a line can carry. *)
Definition line_safe (c : command) : Prop :=
  match c with
  | Sub t | Unsub t => find_sub kCRLF t = None
  | Pub t x => find_sub kCRLF t = None /\ find_sub kCRLF x = None
  end.

Lemma read_line cmd topic k :
  SP ∉ cmd -> CR ∉ cmd -> find_sub kCRLF topic = None ->
  read_one ((cmd ++ SP :: topic) ++ kCRLF ++ k)
  = if decide (cmd = bs "pub") then
      match find_sub kCRLF k with
      | None => More
      | Some m => Line cmd topic (ztake m k) (zdrop (m + 2) k)
      end
    else Line cmd topic [] k.
Proof.
  intros Hsp Hcr Ht. set (line := cmd ++ SP :: topic). pose proof (zlen_nonneg line).
  assert (Hno : find_sub kCRLF line = None).
  { unfold line. change (SP :: topic) with ([SP] ++ topic). rewrite app_assoc.
    apply no_crlf_before; [| done]. intros [Hin | Hin%list_elem_of_singleton]%elem_of_app; done. }
  unfold read_one. rewrite (crlf_after line k Hno). cbv zeta.
  assert (zdrop (zlen line + 2) (line ++ kCRLF ++ k) = k) as ->.
  { rewrite zdrop_app_r by lia. replace (zlen line + 2 - zlen line) with 2 by lia.
    rewrite zdrop_app_r by done. change (2 - zlen kCRLF) with 0. apply zdrop_0. }
  assert (ztake (zlen line) (line ++ kCRLF ++ k) = line) as ->.
  { rewrite ztake_app_l by lia. apply ztake_all. lia. }
  assert (find_byte SP line = zlen cmd) as -> by by apply find_byte_split.
  assert (ztake (zlen cmd) line = cmd) as ->.
  { unfold line. rewrite ztake_app_l by lia. apply ztake_all. lia. }
  assert (zdrop (zlen cmd + 1) line = topic) as ->.
  { unfold line. rewrite zdrop_app_r by lia. by replace (zlen cmd + 1 - zlen cmd) with 1 by lia. }
  rewrite (proj2 (Z.eqb_neq _ _)); [done |].
  unfold line. rewrite zlen_app, zlen_cons. pose proof (zlen_nonneg topic). lia.
Qed.

Lemma read_command c k :
  line_safe c ->
  let '(cmd, topic, content) := fields c in read_one (client_bytes c ++ k) = Line cmd topic content k.
Proof.
  assert (Hassoc : forall p t r : list byte, (p ++ t ++ kCRLF) ++ r = (p ++ t) ++ kCRLF ++ r).
  { intros. by rewrite <- !app_assoc. }
  destruct c as [t | t | t x]; intros Hl; cbn [client_bytes fields line_safe] in *.
  - unfold subscribe. rewrite Hassoc. exact (read_line (bs "sub") t k ltac:(by_evaluation) ltac:(by_evaluation) Hl).
  - unfold unsubscribe. rewrite Hassoc. exact (read_line (bs "unsub") t k ltac:(by_evaluation) ltac:(by_evaluation) Hl).
  - destruct Hl as [Ht Hx]. unfold publish.
    assert ((bs "pub " ++ t ++ kCRLF ++ x ++ kCRLF) ++ k
            = (bs "pub" ++ SP :: t) ++ kCRLF ++ (x ++ kCRLF ++ k)) as ->.
    { change (bs "pub" ++ SP :: t) with (bs "pub " ++ t). by rewrite <- !app_assoc. }
    rewrite (read_line (bs "pub") t) by (done || by_evaluation). rewrite decide_True, crlf_after by done.
    pose proof (zlen_nonneg x).
    rewrite ztake_app_l, ztake_all by lia. rewrite zdrop_app_r by lia.
    replace (zlen x + 2 - zlen x) with 2 by lia. rewrite zdrop_app_r by done.
    change (2 - zlen kCRLF) with 0. by rewrite zdrop_0.
Qed.

(** ** Publish/subscribe, abstractly *)

(** What the hub learns of: joining and leaving members, what they ask for,
    and the members it cuts off. *)
Inductive item : Type :=
| Joined (c : Z)
| Subscribed (c : Z) (t : list byte)
| Unsubscribed (c : Z) (t : list byte)
| Published (t x : list byte)
| Shut (c : Z)
| Left (c : Z).

Record member : Type := mkMember {
  m_open : bool; m_subs : gset (list byte); m_inbox : list (list byte)
}.
Record pubsub : Type := mkPubsub {
  members : gmap Z member; last : gmap (list byte) (list byte)
}.

Definition deliver (msg : list byte) (m : member) : member :=
  if m_open m then mkMember true (m_subs m) (m_inbox m ++ [msg]) else m.
Definition shut (m : member) : member := mkMember false (m_subs m) (m_inbox m).
(** A member and its new topic, with the last content published on it. *)
Definition joins_topic (t : list byte) (content : option (list byte)) (m : member) : member :=
  let m := mkMember (m_open m) ({[t]} ∪ m_subs m) (m_inbox m) in
  match content with Some x => deliver (publish t x) m | None => m end.
Definition leaves_topic (t : list byte) (m : member) : member :=
  mkMember (m_open m) (m_subs m ∖ {[t]}) (m_inbox m).
Definition hears (t x : list byte) (m : member) : member :=
  if decide (t ∈ m_subs m) then deliver (publish t x) m else m.

(** [None]: a member has left without unsubscribing. *)
Definition spec1 (i : item) (s : pubsub) : option pubsub :=
  match i with
  | Joined c => Some (mkPubsub (<[c := mkMember true ∅ []]> (members s)) (last s))
  | Subscribed c t => Some (mkPubsub (alter (joins_topic t (last s !! t)) c (members s)) (last s))
  | Unsubscribed c t => Some (mkPubsub (alter (leaves_topic t) c (members s)) (last s))
  | Published t x => Some (mkPubsub (hears t x <$> members s) (<[t := x]> (last s)))
  | Shut c => Some (mkPubsub (alter shut c (members s)) (last s))
  | Left c =>
      if decide ((m_subs <$> members s !! c) = Some ∅)
      then Some (mkPubsub (alter shut c (members s)) (last s)) else None
  end.

Fixpoint spec (h : list item) (s : pubsub) : option pubsub :=
  match h with
  | [] => Some s
  | i :: h => s ← spec1 i s; spec h s
  end.

(** The requests in a connection's bytes, and the bytes that are left.  A line
    without a space stays; one with an unknown command does not. *)
Fixpoint requests (fuel : nat) (c : Z) (l : list byte) : list item * list byte :=
  match fuel with
  | O => ([], l)
  | S fuel =>
      match read_one l with
      | More => ([], l)
      | Bad => ([Shut c], l)
      | Line cmd topic content rest =>
          let '(h, r) := requests fuel c rest in
          if decide (cmd = bs "pub") then (Published topic content :: h, r)
          else if decide (cmd = bs "sub") then (Subscribed c topic :: h, r)
          else if decide (cmd = bs "unsub") then (Unsubscribed c topic :: h, r)
          else ([Shut c], rest)
      end
  end.

(** ** The hub and its surroundings *)

(** A connection comes up, bytes arrive on it, it goes down; the timer of
    [timePublish] fires. *)
Inductive event : Type :=
| EvUp (c : Z)
| EvData (c : Z) (bytes : list byte) (time : Z)
| EvDown (c : Z)
| EvTick (now : Z) (formatted : list byte).

(** The server, with the input buffers of the connections. *)
Record hub : Type := mkHub { server : PubSubServer; inputs : gmap Z Buffer }.
Definition hub_new : hub := mkHub {| topics_ := ∅; conns := ∅ |} ∅.

Definition hub_step (e : event) (s : hub) : res hub :=
  let w := server s in
  match e with
  | EvUp c =>
      let conn := {| connected := true; context_ := None; sent := [] |} in
      w ← onConnection c {| topics_ := topics_ w; conns := <[c := conn]> (conns w) |};
      mret (mkHub w (<[c := Buffer_new]> (inputs s)))
  | EvData c bytes time =>
      match inputs s !! c with
      | None => Err BadAccess
      | Some b =>
          b ← append b bytes;
          '(w, b) ← onMessage c b time w;
          mret (mkHub w (<[c := b]> (inputs s)))
      end
  | EvDown c =>
      w ← onConnection c {| topics_ := topics_ w;
        conns := alter (fun k => {| connected := false; context_ := context_ k; sent := sent k |}) c (conns w) |};
      mret (mkHub w (inputs s))
  | EvTick now formatted => mret (mkHub (timePublish now formatted w) (inputs s))
  end.

Fixpoint hub_run (evs : list event) (s : hub) : res hub :=
  match evs with
  | [] => mret s
  | e :: evs => s ← hub_step e s; hub_run evs s
  end.

(** What [TcpServer] promises: a connection comes up once, data arrives while
    it is up, and it goes down at most once; and clocks are past the epoch. *)
Fixpoint reported (known up : gset Z) (evs : list event) : Prop :=
  match evs with
  | [] => True
  | EvUp c :: evs => c ∉ known /\ reported ({[c]} ∪ known) ({[c]} ∪ up) evs
  | EvData c bytes time :: evs => c ∈ up /\ zlen bytes < 2 ^ 62 /\ 0 < time /\ reported known up evs
  | EvDown c :: evs => c ∈ up /\ reported known (up ∖ {[c]}) evs
  | EvTick now _ :: evs => 0 < now /\ reported known up evs
  end.

(** The items of a history, from the unread bytes of each connection. *)
Fixpoint history (unread : gmap Z (list byte)) (evs : list event) : list item :=
  match evs with
  | [] => []
  | EvUp c :: evs => Joined c :: history (<[c := []]> unread) evs
  | EvData c bytes _ :: evs =>
      let l := default [] (unread !! c) ++ bytes in
      let '(h, r) := requests (S (length l)) c l in
      h ++ history (<[c := r]> unread) evs
  | EvDown c :: evs => Left c :: history unread evs
  | EvTick _ formatted :: evs => Published (bs "utc_time") formatted :: history unread evs
  end.

(** ** The hub does what the specification says *)

Definition the_topic (w : PubSubServer) (t : list byte) : Topic := (getTopic t w).1.

Lemma the_topic_set w t tp t' :
  the_topic (set_topic t tp w) t' = if decide (t' = t) then tp else the_topic w t'.
Proof.
  unfold the_topic, getTopic, set_topic. cbn [topics_]. case_decide; subst.
  - by rewrite lookup_insert_eq.
  - rewrite lookup_insert_ne by done. by destruct (topics_ w !! t').
Qed.

Lemma getTopic_world t w :
  exists w1, getTopic t w = (the_topic w t, w1) /\ conns w1 = conns w
    /\ forall t', the_topic w1 t' = the_topic w t'.
Proof.
  unfold the_topic at 1, getTopic at 1 2. destruct (topics_ w !! t) as [tp |] eqn:E; [by exists w |].
  eexists. split_and!; [done.. |]. intros t'. rewrite the_topic_set. case_decide; [subst | done].
  unfold the_topic, getTopic. by rewrite E.
Qed.

Lemma the_topic_topics w w' t : topics_ w = topics_ w' -> the_topic w t = the_topic w' t.
Proof. unfold the_topic, getTopic. intros ->. by destruct (topics_ w' !! t). Qed.

Definition to_conn (m : member) : Conn :=
  {| connected := m_open m; context_ := Some (m_subs m); sent := m_inbox m |}.

(** The connections are the members; a topic's audience are its subscribers,
    and its content is the last one, once there is one. *)
Record agrees (w : PubSubServer) (s : pubsub) : Prop := {
  ag_conns : conns w = to_conn <$> members s;
  ag_name t : topic_ (the_topic w t) = t;
  ag_aud t c : c ∈ audiences_ (the_topic w t) <-> exists m, members s !! c = Some m /\ t ∈ m_subs m;
  ag_last t : last s !! t = if 0 <? lastPubTime_ (the_topic w t)
                            then Some (content_ (the_topic w t)) else None
}.

Lemma to_conn_alter (f : member -> member) (g : Conn -> Conn) c (ms : gmap Z member) :
  (forall m, g (to_conn m) = to_conn (f m)) -> alter g c (to_conn <$> ms) = to_conn <$> alter f c ms.
Proof.
  intros H. apply map_eq. intros i. destruct (decide (c = i)) as [-> |].
  - rewrite lookup_alter_eq, !lookup_fmap, lookup_alter_eq. destruct (ms !! i); cbn; by rewrite ?H.
  - by rewrite lookup_alter_ne, !lookup_fmap, lookup_alter_ne by done.
Qed.

Lemma send_conns c msg w ms :
  conns w = to_conn <$> ms -> conns (send c msg w) = to_conn <$> alter (deliver msg) c ms.
Proof.
  unfold send. cbn [conns]. intros ->. apply to_conn_alter. intros [[] ? ?]; done.
Qed.

Lemma send_all_conns msg l : forall w ms,
  NoDup l -> conns w = to_conn <$> ms ->
  conns (fold_left (fun w c => send c msg w) l w)
  = to_conn <$> map_imap (fun c m => Some (if decide (c ∈ l) then deliver msg m else m)) ms.
Proof.
  induction l as [| c l IH]; intros w ms Hnd H; cbn [fold_left].
  - rewrite H. f_equal. apply map_eq. intros i. rewrite map_lookup_imap. destruct (ms !! i); [| done]. cbn.
    by rewrite decide_False by apply not_elem_of_nil.
  - apply NoDup_cons in Hnd as [Hc Hnd]. rewrite (IH _ _ Hnd (send_conns c msg _ _ H)). f_equal.
    apply map_eq. intros i. rewrite !map_lookup_imap. destruct (decide (c = i)) as [<- | Hne].
    + rewrite lookup_alter_eq. destruct (ms !! c); [| done]. cbn.
      by rewrite decide_False, decide_True by (done || left).
    + rewrite lookup_alter_ne by done. destruct (ms !! i); [| done]. cbn. do 2 f_equal.
      destruct (decide (i ∈ l)); [rewrite decide_True by (by right) | rewrite decide_False]; try done.
      intros [-> | ?]%elem_of_cons; done.
Qed.

Lemma send_all_topics l m : forall w,
  topics_ (fold_left (fun w conn => send conn m w) l w) = topics_ w.
Proof. induction l as [| c l IH]; intros w; [done |]. cbn [fold_left]. by rewrite IH. Qed.

Lemma deliver_subs msg m : m_subs (deliver msg m) = m_subs m.
Proof. unfold deliver. by destruct (m_open m). Qed.
Lemma hears_subs t x m : m_subs (hears t x m) = m_subs m.
Proof. unfold hears. destruct (decide _); [apply deliver_subs | done]. Qed.
Lemma joins_subs t x m : m_subs (joins_topic t x m) = {[t]} ∪ m_subs m.
Proof. unfold joins_topic. destruct x; [by rewrite deliver_subs | done]. Qed.

Lemma connSub_agrees w s c m :
  agrees w s -> members s !! c = Some m -> connSub c w = Ok (m_subs m).
Proof. intros [Hc _ _ _] Hm. unfold connSub. rewrite Hc, lookup_fmap, Hm. done. Qed.

Lemma doPublish_agrees t x time w s :
  0 < time -> agrees w s ->
  exists s', spec1 (Published t x) s = Some s' /\ agrees (doPublish t x time w) s'.
Proof.
  intros Ht [Hc Hn Ha Hl]. eexists. split; [done |]. unfold doPublish.
  destruct (getTopic_world t w) as (w1 & -> & Hw1 & Ht1).
  unfold Topic_publish. cbn [audiences_ topic_]. set (tp := mkTopic _ _ _ _).
  assert (makeMessage tp = publish t x) as -> by (unfold makeMessage; cbn; by rewrite Hn).
  set (w2 := fold_left _ _ w1).
  assert (Htp : forall t', the_topic w2 t' = the_topic w t').
  { intros t'. rewrite <- Ht1. apply the_topic_topics, send_all_topics. }
  split; cbn [members last].
  - change (conns (set_topic t tp w2)) with (conns w2). unfold w2.
    rewrite (send_all_conns _ _ _ (members s)) by (apply NoDup_elements || congruence). f_equal.
    apply map_eq. intros c. rewrite map_lookup_imap, lookup_fmap.
    destruct (members s !! c) as [m |] eqn:Em; [| done]. cbn. f_equal. unfold hears.
    assert (c ∈ elements (audiences_ (the_topic w t)) <-> t ∈ m_subs m) as Hi.
    { rewrite elem_of_elements, Ha, Em. split; [by intros (? & [= ->] & ?) | eauto]. }
    destruct (decide (t ∈ m_subs m)); [rewrite decide_True | rewrite decide_False]; tauto.
  - intros t'. rewrite the_topic_set, Htp. destruct (decide (t' = t)) as [-> |]; apply Hn.
  - intros t' c. rewrite the_topic_set, Htp, lookup_fmap.
    transitivity (c ∈ audiences_ (the_topic w t')); [by destruct (decide (t' = t)) as [-> |] |]. rewrite Ha.
    destruct (members s !! c) as [m |]; cbn.
    + split; intros (m' & [= <-] & Hin); eexists; (split; [done |]); by rewrite ?hears_subs in *.
    + by split; intros (? & ? & _).
  - intros t'. rewrite the_topic_set, Htp. case_decide.
    + subst. rewrite lookup_insert_eq. cbn [tp lastPubTime_ content_]. by rewrite (proj2 (Z.ltb_lt 0 time)).
    + by rewrite lookup_insert_ne by done.
Qed.

(** Changing the subscriptions of one member. *)
Lemma aud_alter (f : member -> member) (ms : gmap Z member) c m c' t :
  ms !! c = Some m ->
  (exists m', alter f c ms !! c' = Some m' /\ t ∈ m_subs m')
  <-> if decide (c' = c) then t ∈ m_subs (f m) else exists m', ms !! c' = Some m' /\ t ∈ m_subs m'.
Proof.
  intros Hm. case_decide; subst.
  - rewrite lookup_alter_eq, Hm. cbn. split; [by intros (? & [= <-] & ?) | eauto].
  - by rewrite lookup_alter_ne.
Qed.

Lemma doSubscribe_agrees c t w s m :
  agrees w s -> members s !! c = Some m ->
  exists w' s', doSubscribe c t w = Ok w' /\ spec1 (Subscribed c t) s = Some s' /\ agrees w' s'.
Proof.
  intros Hag Hm. unfold doSubscribe. rewrite (connSub_agrees _ _ _ _ Hag Hm). rsimp.
  destruct Hag as [Hc Hn Ha Hl].
  set (w0 := set_context c ({[t]} ∪ m_subs m) w).
  destruct (getTopic_world t w0) as (w1 & -> & Hw1 & Ht1).
  assert (Hst : forall t', the_topic w0 t' = the_topic w t') by (intros t'; by apply the_topic_topics).
  rewrite Hst. setoid_rewrite Hst in Ht1. cbn [add lastPubTime_]. set (tp := mkTopic _ _ _ _).
  set (w2 := if 0 <? lastPubTime_ (the_topic w t) then send c (makeMessage tp) w1 else w1).
  assert (Ht2 : forall t', the_topic w2 t' = the_topic w t').
  { intros t'. rewrite <- Ht1. apply the_topic_topics. unfold w2. by destruct (_ <? _). }
  assert (makeMessage tp = publish t (content_ (the_topic w t))) as Hmk by (unfold makeMessage; cbn; by rewrite Hn).
  set (f0 := fun m' => mkMember (m_open m') ({[t]} ∪ m_subs m) (m_inbox m')).
  assert (conns w1 = to_conn <$> alter f0 c (members s)) as Hc1.
  { rewrite Hw1. unfold w0, set_context. cbn [conns]. rewrite Hc. by apply to_conn_alter. }
  assert (forall f, alter f c (alter f0 c (members s))
                    = alter (fun m' => f (mkMember (m_open m') ({[t]} ∪ m_subs m') (m_inbox m'))) c (members s)) as Hff.
  { intros f. apply map_eq. intros i. destruct (decide (c = i)) as [<- |].
    - rewrite !lookup_alter_eq, Hm. done.
    - by rewrite !lookup_alter_ne by done. }
  eexists _, _. split_and!; [done.. |]. split; cbn [members last].
  - change (conns (set_topic t tp w2)) with (conns w2). unfold w2. rewrite (Hl t).
    destruct (0 <? lastPubTime_ (the_topic w t)).
    + rewrite (send_conns _ _ _ _ Hc1), Hmk, Hff. done.
    + rewrite Hc1. f_equal. rewrite <- (alter_id (fun m' => m') (alter f0 c (members s)) c) by done.
      rewrite (Hff (fun m' => m')). done.
  - intros t'. rewrite the_topic_set, Ht2. destruct (decide (t' = t)) as [-> |]; apply Hn.
  - intros t' c'. rewrite the_topic_set, Ht2, (aud_alter _ _ _ _ _ _ Hm), joins_subs. specialize (Ha t').
    destruct (decide (t' = t)) as [-> |], (decide (c' = c)) as [-> |]; cbn [tp audiences_];
      rewrite ?elem_of_union, ?elem_of_singleton, ?Ha, ?Hm; naive_solver.
  - intros t'. rewrite the_topic_set, Ht2. destruct (decide (t' = t)) as [-> |]; by rewrite Hl.
Qed.

Lemma doUnsubscribe_agrees c t w s m :
  agrees w s -> members s !! c = Some m ->
  exists w' s', doUnsubscribe c (Own t) w = Ok w' /\ spec1 (Unsubscribed c t) s = Some s' /\ agrees w' s'.
Proof.
  intros Hag Hm. unfold doUnsubscribe. rewrite (connSub_agrees _ _ _ _ Hag Hm). rsimp. cbn [deref]. rsimp.
  destruct Hag as [Hc Hn Ha Hl]. set (w0 := set_context c (m_subs m ∖ {[t]}) w).
  destruct (getTopic_world t w0) as (w1 & -> & Hw1 & Ht1).
  assert (Hst : forall t', the_topic w0 t' = the_topic w t') by (intros t'; by apply the_topic_topics).
  rewrite Hst. setoid_rewrite Hst in Ht1. eexists _, _. split_and!; [done.. |]. split; cbn [members last].
  - change (conns w1 = to_conn <$> alter (leaves_topic t) c (members s)). rewrite Hw1.
    unfold w0, set_context. cbn [conns]. rewrite Hc. apply map_eq. intros i. destruct (decide (c = i)) as [<- |].
    + rewrite lookup_alter_eq, !lookup_fmap, lookup_alter_eq, Hm. done.
    + by rewrite lookup_alter_ne, !lookup_fmap, lookup_alter_ne by done.
  - intros t'. rewrite the_topic_set, Ht1. destruct (decide (t' = t)) as [-> |]; apply Hn.
  - intros t' c'. rewrite the_topic_set, Ht1, (aud_alter _ _ _ _ _ _ Hm). cbn [leaves_topic m_subs].
    specialize (Ha t').
    destruct (decide (t' = t)) as [-> |], (decide (c' = c)) as [-> |]; cbn [remove audiences_];
      rewrite ?elem_of_difference, ?elem_of_singleton, ?Ha, ?Hm; naive_solver.
  - intros t'. rewrite the_topic_set, Ht1. destruct (decide (t' = t)) as [-> |]; by rewrite Hl.
Qed.

(** A connection that only loses its openness, or comes up. *)
Lemma agrees_conns w w' s s' :
  topics_ w' = topics_ w -> last s' = last s -> conns w' = to_conn <$> members s' ->
  (forall c t, (exists m, members s' !! c = Some m /\ t ∈ m_subs m)
               <-> exists m, members s !! c = Some m /\ t ∈ m_subs m) ->
  agrees w s -> agrees w' s'.
Proof.
  intros Ht Hl Hc Hs [_ Hn Ha Hla].
  assert (forall t, the_topic w' t = the_topic w t) as E by (intros; by apply the_topic_topics).
  split; [done | intros t; rewrite E..]; [done | | by rewrite Hl]. intros c. by rewrite Hs.
Qed.

Lemma shut_agrees c w s :
  agrees w s -> agrees (shutdown c w) (mkPubsub (alter shut c (members s)) (last s)).
Proof.
  intros Hag. apply (agrees_conns w _ s); try done.
  - unfold shutdown. cbn [conns]. rewrite (ag_conns _ _ Hag). by apply to_conn_alter.
  - intros c' t. cbn [members]. destruct (members s !! c) as [m |] eqn:Em.
    + rewrite (aud_alter _ _ _ _ _ _ Em). case_decide; [subst | done]. rewrite Em. cbn.
      split; [eauto | by intros (? & [= <-] & ?)].
    + destruct (decide (c = c')) as [<- |]; [by rewrite lookup_alter_eq, Em | by rewrite lookup_alter_ne].
Qed.

(** One callback, whatever the bytes. *)
Lemma onMessage_agrees c time : forall fuel b l w s,
  0 < time -> holds l b -> (length l < fuel)%nat -> agrees w s -> is_Some (members s !! c) ->
  let '(h, r) := requests fuel c l in
  exists w' b' s', onMessage_loop fuel c b time w = Ok (w', b') /\ holds r b'
    /\ spec h s = Some s' /\ agrees w' s' /\ dom (members s') = dom (members s).
Proof.
  induction fuel as [| fuel IH]; intros b l w s Ht Hb Hf Hag Hc; [lia |].
  cbn [requests onMessage_loop]. pose proof (parse_read l b Hb) as Hp.
  destruct (read_one l) as [| | cmd topic content rest] eqn:Er.
  - destruct Hp as ([[? ?] ?] & ->). rsimp. by exists w, b, s.
  - destruct Hp as ([[? ?] ?] & ->). rsimp. eexists _, b, _. split_and!; [done.. | by apply shut_agrees |].
    cbn. apply dom_alter_L.
  - destruct Hp as (b1 & -> & Hb1). rsimp. apply read_one_shorter in Er.
    assert (Hgo : forall i w1 s1, spec1 i s = Some s1 -> agrees w1 s1 -> dom (members s1) = dom (members s) ->
      let '(h, r) := requests fuel c rest in
      exists w' b' s', onMessage_loop fuel c b1 time w1 = Ok (w', b') /\ holds r b'
        /\ spec (i :: h) s = Some s' /\ agrees w' s' /\ dom (members s') = dom (members s)).
    { intros i w1 s1 E Hag1 Hd.
      assert (is_Some (members s1 !! c)) as Hc1 by (rewrite <- elem_of_dom, Hd; by apply elem_of_dom).
      pose proof (IH b1 rest w1 s1 Ht Hb1 ltac:(lia) Hag1 Hc1) as Hi.
      destruct (requests fuel c rest) as [h r]. destruct Hi as (w' & b' & s' & ? & ? & ? & ? & Hd').
      exists w', b', s'. cbn [spec]. rewrite E. cbn. split_and!; try done. congruence. }
    destruct Hc as [m Hm]. destruct (decide (cmd = bs "pub")).
    { destruct (doPublish_agrees topic content time w s Ht Hag) as (s1 & E & Hag1).
      specialize (Hgo _ _ _ E Hag1). destruct (requests fuel c rest). apply Hgo.
      injection E as <-. cbn. apply dom_fmap_L. }
    destruct (decide (cmd = bs "sub")).
    { destruct (doSubscribe_agrees c topic w s m Hag Hm) as (w1 & s1 & -> & E & Hag1). rsimp.
      specialize (Hgo _ _ _ E Hag1). destruct (requests fuel c rest). apply Hgo.
      injection E as <-. cbn. apply dom_alter_L. }
    destruct (decide (cmd = bs "unsub")).
    { destruct (doUnsubscribe_agrees c topic w s m Hag Hm) as (w1 & s1 & -> & E & Hag1). rsimp.
      specialize (Hgo _ _ _ E Hag1). destruct (requests fuel c rest). apply Hgo.
      injection E as <-. cbn. apply dom_alter_L. }
    destruct (requests fuel c rest). eexists _, b1, _.
    split_and!; [done.. | by apply shut_agrees |]. cbn. apply dom_alter_L.
Qed.

(** A connection that goes down while it is subscribed to something brings the
    hub down: [doUnsubscribe] is handed a reference to a string of the set
    that it erases the string from, and then looks the topic up through this
    reference.  Only a connection without subscriptions leaves safely. *)
Lemma disconnect_uses_erased_topic conn w subs msgs :
  conns w !! conn = Some {| connected := false; context_ := Some subs; sent := msgs |} ->
  onConnection conn w = if decide (subs = ∅) then Ok w else Err BadAccess.
Proof.
  intros Hc. unfold onConnection. rewrite Hc. cbn [connected].
  assert (connSub conn w = Ok subs) as Hs by (unfold connSub; by rewrite Hc). rewrite Hs. rsimp.
  destruct (decide (subs = ∅)) as [-> | Hne]; [by rewrite elements_empty |].
  destruct (elements subs) as [| t l] eqn:El; [by apply elements_empty_inv in El; set_solver |].
  assert (t ∈ subs) as Hin by (apply elem_of_elements; rewrite El; left).
  cbn [unsubscribe_all]. unfold doUnsubscribe. rewrite Hs. rsimp. cbn [deref]. rewrite Hs. rsimp.
  rewrite (decide_True (P := t ∈ subs)) by done. rsimp.
  assert (connSub conn (set_context conn (subs ∖ {[t]}) w) = Ok (subs ∖ {[t]})) as ->.
  { unfold connSub, set_context. cbn [conns]. by rewrite lookup_alter_eq, Hc. }
  rsimp. by rewrite decide_False by set_solver.
Qed.

(** The hub between events: every member has a buffer, which holds the unread
    bytes; nobody else is known. *)
Record hub_inv (known up : gset Z) (unread : gmap Z (list byte)) (s : hub) (p : pubsub) : Prop := {
  hi_agrees : agrees (server s) p;
  hi_members : dom (members p) = known;
  hi_up : up ⊆ known;
  hi_inputs c : c ∈ known ->
    exists b l, inputs s !! c = Some b /\ unread !! c = Some l /\ holds l b
}.

Lemma hub_joins known up unread s p c :
  hub_inv known up unread s p -> c ∉ known ->
  exists s' p', hub_step (EvUp c) s = Ok s' /\ spec1 (Joined c) p = Some p'
    /\ hub_inv ({[c]} ∪ known) ({[c]} ∪ up) (<[c := []]> unread) s' p'.
Proof.
  intros [Hag Hd Hu Hi] Hc. cbn [hub_step]. unfold onConnection. cbn [conns topics_].
  rewrite lookup_insert_eq. cbn [connected]. rsimp. eexists _, _. split_and!; [done.. |].
  assert (members p !! c = None) as Hnone by (apply not_elem_of_dom; by rewrite Hd).
  split; cbn [server inputs members last].
  - apply (agrees_conns (server s) _ p); try done.
    + cbn [conns set_context members]. rewrite (ag_conns _ _ Hag). apply map_eq. intros i.
      destruct (decide (c = i)) as [<- |].
      * by rewrite lookup_alter_eq, lookup_insert_eq, lookup_fmap, lookup_insert_eq.
      * by rewrite lookup_alter_ne, lookup_insert_ne, !lookup_fmap, lookup_insert_ne by done.
    + intros c' t. cbn [members]. destruct (decide (c = c')) as [<- |].
      * rewrite lookup_insert_eq, Hnone. split; [| by intros (? & ? & _)].
        intros (m & [= <-] & Ht). by apply elem_of_empty in Ht.
      * by rewrite lookup_insert_ne.
  - rewrite dom_insert_L. by rewrite Hd.
  - set_solver.
  - intros c' Hc'. destruct (decide (c = c')) as [<- |].
    + rewrite !lookup_insert_eq. exists Buffer_new, []. split_and!; [done.. | apply holds_new].
    + rewrite !lookup_insert_ne by done. apply Hi. set_solver.
Qed.

Lemma hub_reads known up unread s p c bytes time :
  hub_inv known up unread s p -> c ∈ up -> zlen bytes < 2 ^ 62 -> 0 < time ->
  let l := default [] (unread !! c) ++ bytes in
  let '(h, r) := requests (S (length l)) c l in
  safe (hub_step (EvData c bytes time) s) (fun s' => exists p',
    spec h p = Some p' /\ hub_inv known up (<[c := r]> unread) s' p').
Proof.
  intros [Hag Hd Hu Hi] Hc Hlen Ht. cbv zeta. destruct (Hi c ltac:(set_solver)) as (b & l & Eb & El & Hb).
  rewrite El. cbn [default from_option id]. set (l' := l ++ bytes).
  destruct (requests (S (length l')) c l') as [h r] eqn:Eq.
  cbn [hub_step]. rewrite Eb. eapply safe_bind; [by apply (append_holds l b bytes) |]. fold l'.
  intros b1 Hb1. unfold onMessage. rewrite (holds_readable _ _ Hb1).
  replace (Z.to_nat (zlen l')) with (length l') by (unfold zlen; lia).
  assert (is_Some (members p !! c)) as Hm by (apply elem_of_dom; rewrite Hd; set_solver).
  pose proof (onMessage_agrees c time (S (length l')) b1 l' (server s) p Ht Hb1 ltac:(lia) Hag Hm) as Hgo.
  rewrite Eq in Hgo. destruct Hgo as (w' & b' & p' & -> & Hb' & Hsp & Hag' & Hd'). rsimp.
  apply safe_ret. exists p'. split; [done |]. split; cbn [server inputs]; [done | congruence | done |].
  intros c' Hc'. destruct (decide (c = c')) as [<- |].
  - rewrite !lookup_insert_eq. by exists b', r.
  - rewrite !lookup_insert_ne by done. by apply Hi.
Qed.

Lemma hub_leaves known up unread s p c :
  hub_inv known up unread s p -> c ∈ up ->
  match spec1 (Left c) p with
  | Some p' => exists s', hub_step (EvDown c) s = Ok s' /\ hub_inv known (up ∖ {[c]}) unread s' p'
  | None => hub_step (EvDown c) s = Err BadAccess
  end.
Proof.
  intros [Hag Hd Hu Hi] Hc.
  assert (is_Some (members p !! c)) as [m Hm] by (apply elem_of_dom; rewrite Hd; set_solver).
  cbn [spec1 hub_step]. rewrite Hm. cbn [fmap option_fmap option_map].
  change {| topics_ := _; conns := _ |} with (shutdown c (server s)).
  rewrite (disconnect_uses_erased_topic c (shutdown c (server s)) (m_subs m) (m_inbox m)).
  2: { unfold shutdown. cbn [conns]. by rewrite lookup_alter_eq, (ag_conns _ _ Hag), lookup_fmap, Hm. }
  destruct (decide (m_subs m = ∅)) as [He | He]; [rewrite decide_True by congruence | rewrite decide_False by congruence]; [| done].
  eexists. split; [done |]. split; cbn [server inputs members];
    [by apply shut_agrees | by rewrite dom_alter_L | set_solver | done].
Qed.

(** What holds at the end of a run, of the hub and of the specification. *)
Definition same_outcome (r : res hub) (p : option pubsub) : Prop :=
  match r, p with
  | Ok s, Some p => conns (server s) = to_conn <$> members p
  | Err e, None => e = BadAccess \/ e = Uncaught
  | Err e, Some _ => e = Uncaught
  | Ok _, None => False
  end.

Lemma spec_app h k p : spec (h ++ k) p = p' ← spec h p; spec k p'.
Proof. revert p. induction h as [| i h IH]; intros p; [done |]. cbn. destruct (spec1 i p); cbn; auto. Qed.

Lemma uncaught_outcome p : same_outcome (Err Uncaught) p.
Proof. destruct p; cbn; auto. Qed.

Lemma hub_run_spec evs : forall known up unread s p,
  hub_inv known up unread s p -> reported known up evs ->
  same_outcome (hub_run evs s) (spec (history unread evs) p).
Proof.
  induction evs as [| e evs IH]; intros known up unread s p Hinv Hr.
  { cbn. apply (ag_conns _ _ (hi_agrees _ _ _ _ _ Hinv)). }
  destruct e as [c | c bytes time | c | now text]; cbn [hub_run history reported] in *.
  - destruct Hr as [Hc Hr]. destruct (hub_joins _ _ _ _ _ _ Hinv Hc) as (s' & p' & -> & E & Hinv').
    rsimp. cbn [spec]. rewrite E. exact (IH _ _ _ _ _ Hinv' Hr).
  - destruct Hr as (Hc & Hl & Ht & Hr). pose proof (hub_reads _ _ _ _ _ _ _ _ Hinv Hc Hl Ht) as Hs. cbv zeta in Hs |- *.
    destruct (requests _ c _) as [h r]. rewrite spec_app.
    destruct (hub_step (EvData c bytes time) s) as [s' | e]; cbn in Hs.
    + destruct Hs as (p' & -> & Hinv'). exact (IH _ _ _ _ _ Hinv' Hr).
    + subst e. apply uncaught_outcome.
  - destruct Hr as [Hc Hr]. pose proof (hub_leaves _ _ _ _ _ _ Hinv Hc) as Hl. cbn [spec].
    destruct (spec1 (Left c) p) as [p' |].
    + destruct Hl as (s' & -> & Hinv'). exact (IH _ _ _ _ _ Hinv' Hr).
    + rewrite Hl. cbn. by left.
  - destruct Hr as [Ht Hr]. cbn [hub_step]. rsimp. cbn [spec]. destruct Hinv as [Hag Hd Hu Hi].
    destruct (doPublish_agrees (bs "utc_time") text now _ _ Ht Hag) as (p' & E & Hag'). rewrite E.
    apply (IH known up); [| done]. split; cbn [server inputs]; [done | | done | done].
    injection E as <-. cbn. by rewrite dom_fmap_L.
Qed.

(** C36: The hub implements publish/subscribe ([spec]), whatever bytes its clients
    send, in whatever pieces, between whatever arrivals, departures and ticks
    of its timer.  A member receives the contents published on a topic, by the
    members or as "utc_time" by the timer, while it is subscribed to it, and at
    each of its subscriptions the topic's last content, all in the order in
    which the hub reads the requests, until it leaves or is shut down for a
    line that is no request; requests it sends after that still count.  When a
    member leaves while it is subscribed to anything, and only then, the hub
    reads an erased string (BadAccess); the one other way to end is memory
    exhausted by an input buffer.  A request as [PubSubClient] writes it, of
    strings without CR LF, is read as it is meant.  Assumed of [TcpServer]: a connection comes up once,
    and data arrives while it is up; receive times are after the epoch. *)
Theorem hub_delivers evs :
  reported ∅ ∅ evs ->
  same_outcome (hub_run evs hub_new) (spec (history ∅ evs) (mkPubsub ∅ ∅))
  /\ forall cmd rest, line_safe cmd ->
       let '(word, topic, content) := fields cmd in
       read_one (client_bytes cmd ++ rest) = Line word topic content rest.
Proof.
  intros Hr. split; [| intros cmd rest; apply read_command].
  apply (hub_run_spec evs ∅ ∅); [| done]. split; cbn; try set_solver. split; cbn; try done.
  intros t c. unfold the_topic, getTopic. cbn [topics_]. rewrite lookup_empty. cbn [fst Topic_new audiences_].
  split; [by intros ?%elem_of_empty | by intros (? & ? & _)].
Qed.

(** ** Concrete runs *)

(** Client 2 publishes before and after client 3 subscribes; client 1 asks for
    something the hub does not know and is shut down, and leaves, having
    unsubscribed. *)
Definition demo_events : list event :=
  [EvUp 1; EvUp 2; EvUp 3; EvData 1 (subscribe (bs "a")) 10;
   EvData 2 (ztake 7 (publish (bs "a") (bs "x"))) 11; EvData 2 (zdrop 7 (publish (bs "a") (bs "x"))) 12;
   EvData 3 (subscribe (bs "a")) 13; EvData 1 (unsubscribe (bs "a") ++ bs "get a" ++ kCRLF) 14;
   EvData 2 (publish (bs "a") (bs "y")) 15; EvDown 1; EvTick 16 (bs "now")].

Lemma hub_delivers_witness :
  reported ∅ ∅ demo_events
  /\ exists s, spec (history ∅ demo_events) (mkPubsub ∅ ∅) = Some s
       /\ members s !! 1 = Some (mkMember false ∅ [publish (bs "a") (bs "x")])
       /\ members s !! 3 = Some (mkMember true {[bs "a"]} [publish (bs "a") (bs "x"); publish (bs "a") (bs "y")])
       /\ same_outcome (hub_run demo_events hub_new) (Some s).
Proof.
  assert (reported ∅ ∅ demo_events) as Hr by by_evaluation.
  split; [exact Hr |]. pose proof (proj1 (hub_delivers demo_events Hr)) as H.
  destruct (spec (history ∅ demo_events) (mkPubsub ∅ ∅)) as [s |] eqn:E.
  - exists s. split; [reflexivity |]. vm_compute in E. injection E as <-.
    split; [reflexivity |]. split; [reflexivity | exact H].
  - vm_compute in E. discriminate E.
Defined.

(** A subscriber that leaves takes the hub with it. *)
Example leaving_subscriber :
  hub_run [EvUp 1; EvData 1 (subscribe (bs "a")) 10; EvDown 1] hub_new = Err BadAccess.
Proof. vm_compute. reflexivity. Qed.
