(* ===== verification/LogStream.v ===== *)
(** * LogStream: [muduo/base/LogStream.h] and [LogStream.cc]

    The fixed buffer a log line is formatted into, the conversion of integers
    and pointers, and the insertion operators.  The buffer's memory is a list
    of [SIZE] bytes; every write goes through [mem_write], which fails out of
    bounds. *)
From S2P Require Import Prelude Format.

(** ** FixedBuffer *)

(*@ muduo/muduo/base/LogStream.h 19-19 muduo::detail::kSmallBuffer *)
Definition kSmallBuffer : Z := 4000.
(*@ muduo/muduo/base/LogStream.h 20-20 muduo::detail::kLargeBuffer *)
Definition kLargeBuffer : Z := 4000 * 1000.

(** [cur_] is the offset of the pointer; [sizeof data_] is the length. *)
(*@ muduo/muduo/base/LogStream.h 92-99 FixedBuffer *)
Record FixedBuffer : Type := mkFixedBuffer {
  data_ : list byte;
  cur_ : Z
}.

(*@ muduo/muduo/base/LogStream.h 28-32 FixedBuffer::FixedBuffer *)
Definition FixedBuffer_new (size : Z) : FixedBuffer :=
  {| data_ := replicate (Z.to_nat size) Byte.x00; cur_ := 0 |}.

(*@ muduo/muduo/base/LogStream.h 55-55 FixedBuffer::length *)
Definition fb_length (b : FixedBuffer) : Z := s32 (cur_ b).
(*@ muduo/muduo/base/LogStream.h 62-62 FixedBuffer::avail *)
Definition avail (b : FixedBuffer) : Z := s32 (zlen (data_ b) - cur_ b).
(*@ muduo/muduo/base/LogStream.h 65-65 FixedBuffer::add *)
Definition add (b : FixedBuffer) (len : Z) : FixedBuffer := {| data_ := data_ b; cur_ := cur_ b + len |}.
(*@ muduo/muduo/base/LogStream.h 68-68 FixedBuffer::reset *)
Definition reset (b : FixedBuffer) : FixedBuffer := {| data_ := data_ b; cur_ := 0 |}.
(*@ muduo/muduo/base/LogStream.h 71-71 FixedBuffer::bzero *)
Definition bzero (b : FixedBuffer) : FixedBuffer :=
  {| data_ := replicate (length (data_ b)) Byte.x00; cur_ := cur_ b |}.
(*@ muduo/muduo/base/LogStream.h 81-81 FixedBuffer::asString *)
Definition asString (b : FixedBuffer) : res (list byte) := mem_read 0 (fb_length b) (data_ b).

Definition fb_write (b : FixedBuffer) (pos : Z) (d : list byte) : res FixedBuffer :=
  m ← mem_write pos d (data_ b); mret {| data_ := m; cur_ := cur_ b |}.

(** [debugString] terminates the text where it ends. *)
(*@ muduo/muduo/base/LogStream.cc 81-87 FixedBuffer::debugString *)
Definition debugString (b : FixedBuffer) : res FixedBuffer := fb_write b (cur_ b) [Byte.x00].

(*@ muduo/muduo/base/LogStream.h 40-50 FixedBuffer::append *)
Definition append (b : FixedBuffer) (buf : list byte) : res FixedBuffer :=
  if zlen buf <? u64 (avail b)
  then b ← fb_write b (cur_ b) buf; mret (add b (zlen buf))
  else mret b.

(** ** Conversions *)

(*@ muduo/muduo/base/LogStream.cc 22-22 muduo::detail::digits *)
Definition digits : list byte := bs "9876543210123456789".

(** [zero[lsd]]: the middle of the table serves the remainders of negative
    numbers. *)
(*@ muduo/muduo/base/LogStream.cc 23-23 muduo::detail::zero *)
Definition zero (lsd : Z) : res byte :=
  if 9 + lsd <? 0 then Err BadAccess
  else match nth_error digits (Z.to_nat (9 + lsd)) with Some c => Ok c | None => Err BadAccess end.

(** The loop of [convert] from [*p] on. *)
Fixpoint convert_loop (fuel : nat) (mem : list byte) (p i : Z) : res (list byte * Z) :=
  match fuel with
  | O => Err OutOfFuel
  | S fuel =>
      c ← zero (Z.rem i 10);
      mem ← mem_write p [c] mem;
      let i := Z.quot i 10 in
      if i =? 0 then mret (mem, p + 1) else convert_loop fuel mem (p + 1) i
  end.

(** [std::reverse(buf, p)]. *)
Definition reverse_range (buf p : Z) (mem : list byte) : res (list byte) :=
  text ← mem_read buf p mem; mem_write buf (rev text) mem.

(** A 64-bit number has at most 20 digits. *)
(*@ muduo/muduo/base/LogStream.cc 31-57 muduo::detail::convert *)
Definition convert (mem : list byte) (buf value : Z) : res (list byte * Z) :=
  '(mem, p) ← convert_loop 20 mem buf value;
  '(mem, p) ← (if value <? 0 then mem ← mem_write p (bs "-") mem; mret (mem, p + 1) else mret (mem, p));
  mem ← mem_write p [Byte.x00] mem;
  mem ← reverse_range buf p mem;
  mret (mem, p - buf).

(*@ muduo/muduo/base/LogStream.cc 26-26 muduo::detail::digitsHex *)
Definition digitsHex : list byte := bs "0123456789ABCDEF".

Fixpoint convertHex_loop (fuel : nat) (mem : list byte) (p i : Z) : res (list byte * Z) :=
  match fuel with
  | O => Err OutOfFuel
  | S fuel =>
      c ← match nth_error digitsHex (Z.to_nat (i mod 16)) with Some c => Ok c | None => Err BadAccess end;
      mem ← mem_write p [c] mem;
      let i := i / 16 in
      if i =? 0 then mret (mem, p + 1) else convertHex_loop fuel mem (p + 1) i
  end.

(** [uintptr_t] has 16 hexadecimal digits. *)
(*@ muduo/muduo/base/LogStream.cc 60-76 muduo::detail::convertHex *)
Definition convertHex (mem : list byte) (buf value : Z) : res (list byte * Z) :=
  '(mem, p) ← convertHex_loop 16 mem buf value;
  mem ← mem_write p [Byte.x00] mem;
  mem ← reverse_range buf p mem;
  mret (mem, p - buf).

(** ** Insertion *)

(*@ muduo/muduo/base/LogStream.h 192-192 LogStream::kMaxNumericSize *)
Definition kMaxNumericSize : Z := 32.

(*@ muduo/muduo/base/LogStream.cc 111-121 LogStream::formatInteger *)
Definition formatInteger (b : FixedBuffer) (v : Z) : res FixedBuffer :=
  if kMaxNumericSize <=? avail b
  then
    '(mem, len) ← convert (data_ b) (cur_ b) v;
    mret (add {| data_ := mem; cur_ := cur_ b |} len)
  else mret b.

(** What can be inserted.  An [IInt] is a value of any of the integer types
    (the narrow ones are converted first); [IText] is a [char], a C string, a
    [string], a [StringPiece], a [Fmt], or [LogStream::append]. *)
Inductive item (D : Type) : Type :=
| IBool (v : bool)
| IInt (v : Z)
| IPtr (v : Z)
| IDouble (v : D)
| IText (v : list byte).
Arguments IBool {D} v.
Arguments IInt {D} v.
Arguments IPtr {D} v.
Arguments IDouble {D} v.
Arguments IText {D} v.

(** [print_g] is the C library's conversion [%.12g]. *)
Section stream.
Context {D : Type} (print_g : D -> list byte).

(*@ muduo/muduo/base/LogStream.h 113-118 LogStream::operator<<(bool) *)
Definition insert_bool (b : FixedBuffer) (v : bool) : res FixedBuffer :=
  append b (if v then bs "1" else bs "0").

(*@ muduo/muduo/base/LogStream.cc 124-170 LogStream::operator<<(int) *)
Definition insert_int (b : FixedBuffer) (v : Z) : res FixedBuffer := formatInteger b v.

(*@ muduo/muduo/base/LogStream.cc 173-192 LogStream::operator<<(pointer) *)
Definition insert_ptr (b : FixedBuffer) (v : Z) : res FixedBuffer :=
  if kMaxNumericSize <=? avail b
  then
    mem ← mem_write (cur_ b) (bs "0") (data_ b);
    mem ← mem_write (cur_ b + 1) (bs "x") mem;
    '(mem, len) ← convertHex mem (cur_ b + 2) v;
    mret (add {| data_ := mem; cur_ := cur_ b |} (len + 2))
  else mret b.

(** [snprintf] writes what fits, terminates it, and returns the length it
    would have needed. *)
(*@ muduo/muduo/base/LogStream.cc 195-203 LogStream::operator<<(double) *)
Definition insert_double (b : FixedBuffer) (v : D) : res FixedBuffer :=
  if kMaxNumericSize <=? avail b
  then
    let text := print_g v in
    b ← fb_write b (cur_ b) (snprintf kMaxNumericSize text ++ [Byte.x00]);
    mret (add b (zlen text))
  else mret b.

(*@ muduo/muduo/base/LogStream.h 139-175 LogStream::append *)
Definition insert_text (b : FixedBuffer) (v : list byte) : res FixedBuffer := append b v.

Definition insert (b : FixedBuffer) (i : item D) : res FixedBuffer :=
  match i with
  | IBool v => insert_bool b v
  | IInt v => insert_int b v
  | IPtr v => insert_ptr b v
  | IDouble v => insert_double b v
  | IText v => insert_text b v
  end.

Fixpoint insert_all (b : FixedBuffer) (l : list (item D)) : res FixedBuffer :=
  match l with
  | [] => mret b
  | i :: l => b ← insert b i; insert_all b l
  end.
End stream.

(** ** Memory whose beginning is known *)

Definition filled (mem l : list byte) : Prop := zlen l <= zlen mem /\ ztake (zlen l) mem = l.

Lemma filled_app mem l k : filled mem (l ++ k) -> filled mem l.
Proof.
  unfold filled. rewrite zlen_app. pose proof (zlen_nonneg l). pose proof (zlen_nonneg k).
  intros [Hl E]. split; [lia |].
  rewrite <- (ztake_ztake _ (zlen l + zlen k)), E by lia. rewrite ztake_app_l by lia. apply ztake_all. lia.
Qed.

Lemma filled_write mem l d :
  filled mem l -> zlen l + zlen d <= zlen mem ->
  exists mem', mem_write (zlen l) d mem = Ok mem' /\ zlen mem' = zlen mem /\ filled mem' (l ++ d).
Proof.
  intros [Hl E] Hd. pose proof (zlen_nonneg l). pose proof (zlen_nonneg d).
  rewrite mem_write_ok by lia. rewrite E. eexists. split; [done |].
  assert (zlen (l ++ d ++ zdrop (zlen l + zlen d) mem) = zlen mem) as Hlen.
  { rewrite !zlen_app, zlen_zdrop by lia. lia. }
  split; [done |]. unfold filled. rewrite Hlen, zlen_app. split; [lia |].
  rewrite app_assoc, ztake_app_l by (rewrite zlen_app; lia). apply ztake_all. rewrite zlen_app. lia.
Qed.

Lemma filled_reverse mem l d :
  filled mem (l ++ d) ->
  exists mem', reverse_range (zlen l) (zlen l + zlen d) mem = Ok mem' /\ zlen mem' = zlen mem
    /\ filled mem' (l ++ rev d).
Proof.
  intros H. pose proof (zlen_nonneg l). pose proof (zlen_nonneg d).
  pose proof (filled_app _ _ _ H) as Hl. destruct H as [Hle E]. rewrite zlen_app in Hle, E.
  unfold reverse_range. rewrite mem_read_ok by lia. rsimp.
  assert (zslice (zlen l) (zlen l + zlen d) mem = d) as ->.
  { unfold zslice. rewrite <- zdrop_ztake, E by lia. rewrite zdrop_app_r, Z.sub_diag by lia. done. }
  apply filled_write; [done |]. rewrite zlen_rev. lia.
Qed.

(** ** The conversions are right *)

Lemma dec_digits_fuel f1 : forall f2 n,
  0 <= n < 10 ^ Z.of_nat f1 -> n < 10 ^ Z.of_nat f2 -> (0 < f1)%nat -> (0 < f2)%nat ->
  dec_digits f1 n = dec_digits f2 n.
Proof.
  induction f1 as [| f1 IH]; intros [| f2] n H1 H2 Hf1 Hf2; try lia. cbn [dec_digits]. f_equal.
  destruct (Z.ltb_spec n 10) as [| Hn]; [done |].
  rewrite Nat2Z.inj_succ, Z.pow_succ_r in H1, H2 by lia.
  destruct f1 as [| f1]; [cbn in H1; lia |]. destruct f2 as [| f2]; [cbn in H2; lia |].
  apply IH; [| | lia..].
  - split; [apply Z.div_pos; lia | apply Z.div_lt_upper_bound; lia].
  - apply Z.div_lt_upper_bound; lia.
Qed.

Lemma zero_rem r : -10 < r < 10 -> zero r = Ok (digit (Z.abs r)).
Proof.
  intros Hr.
  assert (In r (map (fun k => Z.of_nat k - 9) (seq 0 19))) as Hin.
  { apply in_map_iff. exists (Z.to_nat (r + 9)). split; [lia |]. apply in_seq. lia. }
  cbn in Hin. repeat (destruct Hin as [<- | Hin]; [vm_compute; reflexivity |]). done.
Qed.

Lemma convert_loop_spec fuel : forall mem pre i,
  filled mem pre -> zlen pre + Z.of_nat fuel <= zlen mem ->
  Z.abs i < 10 ^ Z.of_nat fuel -> (0 < fuel)%nat ->
  let d := dec_digits fuel (Z.abs i) in
  exists mem', convert_loop fuel mem (zlen pre) i = Ok (mem', zlen pre + zlen d)
    /\ zlen mem' = zlen mem /\ filled mem' (pre ++ rev d).
Proof.
  induction fuel as [| fuel IH]; intros mem pre i Hf Hroom Hi H0; [lia |]. cbn [convert_loop dec_digits].
  assert (Habs : Z.abs (Z.rem i 10) = Z.abs i mod 10 /\ Z.abs (Z.quot i 10) = Z.abs i / 10).
  { split; [rewrite <- Z.rem_abs by lia | rewrite <- Z.quot_abs by lia]; change (Z.abs 10) with 10;
      [apply Z.rem_mod_nonneg | apply Z.quot_div_nonneg]; lia. }
  destruct Habs as [Hrem Hquot].
  pose proof (Z.mod_pos_bound (Z.abs i) 10 ltac:(lia)).
  rewrite zero_rem by lia. rsimp. rewrite Hrem.
  destruct (filled_write mem pre [digit (Z.abs i mod 10)] Hf) as (m1 & -> & Hm1 & Hf1).
  { rewrite zlen_cons, zlen_nil. lia. }
  rsimp. rewrite rev_app_distr. cbn [rev app].
  destruct (Z.eqb_spec (Z.quot i 10) 0) as [Hq | Hq]; destruct (Z.ltb_spec (Z.abs i) 10) as [Hlt | Hge].
  - exists m1. by rewrite Hm1.
  - assert (1 <= Z.abs i / 10) by (apply Z.div_le_lower_bound; lia). rewrite Hq in Hquot. cbn [Z.abs] in Hquot. lia.
  - rewrite (Z.div_small (Z.abs i)) in Hquot by lia. lia.
  - rewrite Nat2Z.inj_succ, Z.pow_succ_r in Hi by lia.
    destruct (IH m1 (pre ++ [digit (Z.abs i mod 10)]) (Z.quot i 10) Hf1) as (m2 & E & Hm2 & Hf2).
    + rewrite zlen_snoc, Hm1. lia.
    + rewrite Hquot. apply Z.div_lt_upper_bound; lia.
    + destruct fuel; [cbn in Hi; lia | lia].
    + rewrite zlen_snoc in E. rewrite E. exists m2. rewrite Hm2, Hm1, Hquot in *.
      rewrite <- app_assoc in Hf2. split; [do 2 f_equal; rewrite zlen_app, zlen_cons, zlen_nil; lia | done].
Qed.

Lemma filled_terminate mem l k :
  filled mem l -> zlen l < zlen mem -> k = zlen l ->
  exists mem', mem_write k [Byte.x00] mem = Ok mem' /\ zlen mem' = zlen mem /\ filled mem' l.
Proof.
  intros Hf Hl ->. destruct (filled_write mem l [Byte.x00] Hf) as (m & E & Hm & Hf').
  { rewrite zlen_cons, zlen_nil. lia. }
  exists m. split_and!; [done.. |]. by apply filled_app in Hf'.
Qed.

(** The text of any 64-bit integer, in at most 21 bytes with its end. *)
Lemma convert_spec mem pre v :
  filled mem pre -> zlen pre + 22 <= zlen mem -> - 2 ^ 63 <= v < 2 ^ 64 ->
  exists mem', convert mem (zlen pre) v = Ok (mem', zlen (dec v)) /\ zlen mem' = zlen mem
    /\ filled mem' (pre ++ dec v) /\ zlen (dec v) <= 21.
Proof.
  intros Hf Hroom Hv. unfold convert.
  assert (Hd : dec_digits 20 (Z.abs v) = dec_u (Z.abs v)) by (apply dec_digits_fuel; lia).
  assert (Hlen : zlen (dec_u (Z.abs v)) <= 20) by (apply dec_u_len; lia).
  set (d := dec_u (Z.abs v)) in *. pose proof (zlen_nonneg d). pose proof (zlen_nonneg pre).
  destruct (convert_loop_spec 20 mem pre v Hf) as (m1 & -> & Hm1 & Hf1); [lia.. |].
  rewrite Hd in *. rsimp.
  assert (exists m2, (if v <? 0 then mem ← mem_write (zlen pre + zlen d) (bs "-") m1; mret (mem, zlen pre + zlen d + 1)
                      else mret (m1, zlen pre + zlen d)) = Ok (m2, zlen pre + zlen (dec v))
            /\ zlen m2 = zlen mem /\ filled m2 (pre ++ rev (dec v)) /\ zlen (dec v) <= 21) as (m2 & -> & Hm2 & Hf2 & Hdec).
  { unfold dec. destruct (Z.ltb_spec v 0).
    - replace (- v) with (Z.abs v) by lia. fold d.
      destruct (filled_write m1 (pre ++ rev d) (bs "-") Hf1) as (m2 & E & Hm2 & Hf2).
      { rewrite zlen_app, zlen_rev. change (zlen (bs "-")) with 1. lia. }
      rewrite zlen_app, zlen_rev in E. rewrite E. rsimp. exists m2. rewrite zlen_app. change (zlen (bs "-")) with 1.
      split_and!; [do 2 f_equal; lia | lia | | lia].
      rewrite rev_app_distr. rewrite <- app_assoc in Hf2. done.
    - assert (dec_u v = d) as -> by (unfold d; f_equal; lia). exists m1.
      split; [reflexivity |]. split; [exact Hm1 |]. split; [exact Hf1 | lia]. }
  rsimp. rewrite <- (zlen_rev (dec v)) in *.
  destruct (filled_terminate m2 (pre ++ rev (dec v)) (zlen pre + zlen (rev (dec v))) Hf2)
    as (m3 & -> & Hm3 & Hf3); [rewrite zlen_app; lia | by rewrite zlen_app |].
  rsimp. destruct (filled_reverse m3 pre (rev (dec v)) Hf3) as (m4 & -> & Hm4 & Hf4).
  rsimp. rewrite rev_involutive in Hf4. exists m4.
  split_and!; [do 2 f_equal; lia | lia | done | done].
Qed.

(** ** Hexadecimal *)

Definition hex_digit (d : Z) : byte := nth (Z.to_nat d) digitsHex Byte.x00.
Fixpoint hex_digits (fuel : nat) (n : Z) : list byte :=
  match fuel with
  | O => []
  | S fuel => (if n <? 16 then [] else hex_digits fuel (n / 16)) ++ [hex_digit (n mod 16)]
  end.
(** A pointer, without leading zeros. *)
Definition hex (n : Z) : list byte := hex_digits 16 n.

Definition hex_digit_val (b : byte) : Z :=
  let v := byte_val b in if v <? 58 then v - 48 else v - 55.
(** The number a string of hexadecimal digits denotes. *)
Definition hex_val (l : list byte) : Z := fold_left (fun a b => 16 * a + hex_digit_val b) l 0.

Lemma hex_digit_ok r :
  0 <= r < 16 -> nth_error digitsHex (Z.to_nat r) = Some (hex_digit r) /\ hex_digit_val (hex_digit r) = r.
Proof.
  intros Hr. assert (In r (map Z.of_nat (seq 0 16))) as Hin.
  { apply in_map_iff. exists (Z.to_nat r). split; [lia |]. apply in_seq. lia. }
  cbn in Hin. repeat (destruct Hin as [<- | Hin]; [by vm_compute |]). done.
Qed.

Lemma hex_digits_val fuel : forall n, 0 <= n < 16 ^ Z.of_nat fuel -> hex_val (hex_digits fuel n) = n.
Proof.
  induction fuel as [| fuel IH]; intros n Hn.
  - cbn in Hn. assert (n = 0) as -> by lia. done.
  - cbn [hex_digits]. unfold hex_val. rewrite fold_left_app. cbn [fold_left]. fold (hex_val).
    change (fold_left (fun a b => 16 * a + hex_digit_val b) ?l 0) with (hex_val l).
    rewrite (proj2 (hex_digit_ok _ (Z.mod_pos_bound n 16 ltac:(lia)))).
    rewrite Nat2Z.inj_succ, Z.pow_succ_r in Hn by lia.
    destruct (Z.ltb_spec n 16).
    + cbn. rewrite Z.mod_small; lia.
    + rewrite IH; [rewrite (Z.div_mod n 16) at 3; lia |].
      split; [apply Z.div_pos; lia | apply Z.div_lt_upper_bound; lia].
Qed.

Lemma hex_digits_len fuel n : (length (hex_digits fuel n) <= fuel)%nat.
Proof.
  revert n. induction fuel as [| fuel IH]; intros n; cbn [hex_digits]; [done |].
  rewrite length_app. cbn [length]. specialize (IH (n / 16)). destruct (n <? 16); cbn [length]; lia.
Qed.

Lemma convertHex_loop_spec fuel : forall mem pre i,
  filled mem pre -> zlen pre + Z.of_nat fuel <= zlen mem ->
  0 <= i < 16 ^ Z.of_nat fuel -> (0 < fuel)%nat ->
  let d := hex_digits fuel i in
  exists mem', convertHex_loop fuel mem (zlen pre) i = Ok (mem', zlen pre + zlen d)
    /\ zlen mem' = zlen mem /\ filled mem' (pre ++ rev d).
Proof.
  induction fuel as [| fuel IH]; intros mem pre i Hf Hroom Hi H0; [lia |]. cbn [convertHex_loop hex_digits].
  pose proof (Z.mod_pos_bound i 16 ltac:(lia)). destruct (hex_digit_ok (i mod 16)) as [-> _]; [done |]. rsimp.
  destruct (filled_write mem pre [hex_digit (i mod 16)] Hf) as (m1 & -> & Hm1 & Hf1).
  { rewrite zlen_cons, zlen_nil. lia. }
  rsimp. rewrite rev_app_distr. cbn [rev app].
  destruct (Z.ltb_spec i 16) as [Hlt | Hge].
  - rewrite Z.div_small by lia. exists m1. by rewrite Hm1.
  - assert (1 <= i / 16) by (apply Z.div_le_lower_bound; lia). rewrite (proj2 (Z.eqb_neq _ 0)) by lia.
    rewrite Nat2Z.inj_succ, Z.pow_succ_r in Hi by lia.
    destruct (IH m1 (pre ++ [hex_digit (i mod 16)]) (i / 16) Hf1) as (m2 & E & Hm2 & Hf2).
    + rewrite zlen_snoc, Hm1. lia.
    + split; [lia |]. apply Z.div_lt_upper_bound; lia.
    + destruct fuel; [cbn in Hi; lia | lia].
    + rewrite zlen_snoc in E. rewrite E. exists m2. rewrite Hm2, Hm1 in *.
      rewrite <- app_assoc in Hf2. split; [do 2 f_equal; rewrite zlen_app, zlen_cons, zlen_nil; lia | done].
Qed.

Lemma convertHex_spec mem pre v :
  filled mem pre -> zlen pre + 17 <= zlen mem -> 0 <= v < 2 ^ 64 ->
  exists mem', convertHex mem (zlen pre) v = Ok (mem', zlen (hex v)) /\ zlen mem' = zlen mem
    /\ filled mem' (pre ++ hex v) /\ zlen (hex v) <= 16.
Proof.
  intros Hf Hroom Hv. unfold convertHex, hex.
  destruct (convertHex_loop_spec 16 mem pre v Hf) as (m1 & -> & Hm1 & Hf1); [lia.. |]. rsimp.
  pose proof (hex_digits_len 16 v) as Hlen. set (d := hex_digits 16 v) in *.
  assert (zlen d <= 16) by (unfold zlen; lia). rewrite <- (zlen_rev d) in *.
  destruct (filled_terminate m1 (pre ++ rev d) (zlen pre + zlen (rev d)) Hf1)
    as (m2 & -> & Hm2 & Hf2); [rewrite zlen_app; lia | by rewrite zlen_app |].
  rsimp. destruct (filled_reverse m2 pre (rev d) Hf2) as (m3 & -> & Hm3 & Hf3).
  rsimp. rewrite rev_involutive in Hf3. exists m3. split_and!; [do 2 f_equal; lia | lia | done | done].
Qed.

(** ** The buffer *)

(** A buffer of [size] bytes that holds a text: there is always a byte left,
    the one [debugString] writes to. *)
Record fb_holds (size : Z) (t : list byte) (b : FixedBuffer) : Prop := {
  fb_size : zlen (data_ b) = size;
  fb_cur : cur_ b = zlen t;
  fb_text : filled (data_ b) t;
  fb_room : zlen t < size
}.

Section stream_spec.
Context {D : Type} (print_g : D -> list byte) (size : Z).
Hypothesis Hsize : 0 < size < 2 ^ 31.
(** Twelve significant digits, a sign, a point and an exponent. *)
Hypothesis print_g_short : forall d, zlen (print_g d) < kMaxNumericSize.

(** What an insertion adds, and the room it asks for. *)
Definition item_text (i : item D) : list byte :=
  match i with
  | IBool v => if v then bs "1" else bs "0"
  | IInt v => dec v
  | IPtr v => bs "0x" ++ hex v
  | IDouble v => print_g v
  | IText v => v
  end.
Definition item_room (i : item D) : Z :=
  match i with
  | IBool _ => 2
  | IInt _ | IPtr _ | IDouble _ => kMaxNumericSize
  | IText v => zlen v + 1
  end.
(** An insertion that does not fit is dropped as a whole. *)
Definition insert_spec (t : list byte) (i : item D) : list byte :=
  if item_room i <=? size - zlen t then t ++ item_text i else t.

Definition item_ok (i : item D) : Prop :=
  match i with
  | IInt v => - 2 ^ 63 <= v < 2 ^ 64
  | IPtr v => 0 <= v < 2 ^ 64
  | _ => True
  end.

Lemma fb_holds_new : fb_holds size [] (FixedBuffer_new size).
Proof using Hsize.
  split; cbn; [rewrite zlen_replicate; lia | done | | rewrite zlen_nil; lia].
  split; [apply zlen_nonneg | done].
Qed.

Lemma avail_holds t b : fb_holds size t b -> avail b = size - zlen t.
Proof using Hsize.
  intros [Hs Hc _ Hr]. pose proof (zlen_nonneg t). unfold avail. rewrite Hs, Hc. apply s32_small. lia.
Qed.

Lemma fb_holds_add t k b mem :
  fb_holds size t b -> zlen mem = size -> filled mem (t ++ k) -> zlen (t ++ k) < size ->
  fb_holds size (t ++ k) (add {| data_ := mem; cur_ := cur_ b |} (zlen k)).
Proof using Type.
  intros [Hs Hc _ _] Hm Hf Hr. split; cbn; [done | rewrite zlen_app; lia | done | done].
Qed.

Lemma fb_append_holds t b v :
  fb_holds size t b ->
  exists b', append b v = Ok b'
    /\ fb_holds size (if zlen v + 1 <=? size - zlen t then t ++ v else t) b'.
Proof using Hsize.
  intros H. pose proof (zlen_nonneg v). pose proof (zlen_nonneg t). unfold append.
  rewrite (avail_holds _ _ H), u64_small by (pose proof (fb_room _ _ _ H); lia).
  destruct (Z.ltb_spec (zlen v) (size - zlen t)) as [Hlt | Hge].
  - rewrite (proj2 (Z.leb_le _ _)) by lia. unfold fb_write. rewrite (fb_cur _ _ _ H).
    destruct (filled_write (data_ b) t v (fb_text _ _ _ H)) as (m & -> & Hm & Hf).
    { rewrite (fb_size _ _ _ H). lia. }
    rsimp. eexists. split; [done |]. rewrite <- (fb_cur _ _ _ H). apply fb_holds_add; [done | | done |].
    + rewrite Hm. by apply fb_size in H.
    + rewrite zlen_app. lia.
  - rewrite (proj2 (Z.leb_gt _ _)) by lia. by exists b.
Qed.

Lemma debugString_holds t b :
  fb_holds size t b -> exists b', debugString b = Ok b' /\ fb_holds size t b'.
Proof using Hsize.
  intros H. unfold debugString, fb_write.
  destruct (filled_terminate (data_ b) t (cur_ b) (fb_text _ _ _ H)) as (m & -> & Hm & Hf).
  - rewrite (fb_size _ _ _ H). apply (fb_room _ _ _ H).
  - apply (fb_cur _ _ _ H).
  - rsimp. eexists. split; [done |]. destruct H. split; cbn; [lia | done.. ].
Qed.

Lemma asString_holds t b : fb_holds size t b -> asString b = Ok t.
Proof using Hsize.
  intros [Hs Hc [Hle Hf] Hr]. pose proof (zlen_nonneg t). unfold asString, fb_length.
  rewrite s32_small, Hc, mem_read_ok by lia. by rewrite <- ztake_is_zslice, Hf.
Qed.

(** The three numeric insertions share their shape: 32 bytes must be free. *)
Lemma numeric_holds t b text f :
  fb_holds size t b -> zlen text < kMaxNumericSize ->
  (kMaxNumericSize <= size - zlen t ->
   exists m, f = Ok (add {| data_ := m; cur_ := cur_ b |} (zlen text)) /\ zlen m = size /\ filled m (t ++ text)) ->
  exists b', (if kMaxNumericSize <=? avail b then f else mret b) = Ok b'
    /\ fb_holds size (if kMaxNumericSize <=? size - zlen t then t ++ text else t) b'.
Proof using Hsize.
  intros H Hl Hf. rewrite (avail_holds _ _ H). destruct (Z.leb_spec kMaxNumericSize (size - zlen t)); [| by exists b].
  destruct Hf as (m & -> & Hm & Hf); [done |]. eexists. split; [done |].
  apply fb_holds_add; [done.. |]. rewrite zlen_app. lia.
Qed.

Lemma insert_holds t b i :
  fb_holds size t b -> item_ok i ->
  exists b', insert print_g b i = Ok b' /\ fb_holds size (insert_spec t i) b'.
Proof using Hsize print_g_short.
  intros H Hi. pose proof (fb_text _ _ _ H) as Hf. pose proof (fb_size _ _ _ H) as Hs.
  pose proof (fb_cur _ _ _ H) as Hc. pose proof (zlen_nonneg t).
  assert (HM : kMaxNumericSize = 32) by done.
  destruct i as [v | v | v | v | v]; cbn [insert item_ok] in *; unfold insert_spec; cbn [item_room item_text].
  - unfold insert_bool. destruct v; apply fb_append_holds; done.
  - unfold insert_int, formatInteger.
    assert (zlen (dec v) < kMaxNumericSize) as Hd.
    { destruct (convert_spec (replicate 22 Byte.x00) [] v) as (_ & _ & _ & _ & ?); [done | done | done | lia]. }
    apply numeric_holds; [done | done |]. intros Hroom. rewrite Hc.
    destruct (convert_spec (data_ b) t v Hf) as (m & -> & Hm & Hf' & _); [lia | done |].
    rsimp. exists m. rewrite <- Hc. split_and!; [done | lia | done].
  - unfold insert_ptr.
    assert (zlen (bs "0x" ++ hex v) < kMaxNumericSize) as Hd.
    { destruct (convertHex_spec (replicate 17 Byte.x00) [] v) as (_ & _ & _ & _ & ?); [done | done | done |].
      rewrite zlen_app. change (zlen (bs "0x")) with 2. lia. }
    apply numeric_holds; [done | done |]. intros Hroom. rewrite Hc.
    destruct (filled_write _ t (bs "0") Hf) as (m1 & -> & Hm1 & Hf1); [change (zlen (bs "0")) with 1; lia |].
    rsimp. assert (zlen (t ++ bs "0") = zlen t + 1) as Hl1 by (by rewrite zlen_app).
    destruct (filled_write m1 (t ++ bs "0") (bs "x") Hf1) as (m2 & E2 & Hm2 & Hf2).
    { rewrite Hl1. change (zlen (bs "x")) with 1. lia. }
    rewrite Hl1 in E2. rewrite E2. rsimp. rewrite <- app_assoc in Hf2. change (bs "0" ++ bs "x") with (bs "0x") in Hf2.
    assert (zlen (t ++ bs "0x") = zlen t + 2) as Hl2 by (by rewrite zlen_app).
    destruct (convertHex_spec m2 (t ++ bs "0x") v Hf2) as (m3 & E3 & Hm3 & Hf3 & _); [lia | done |].
    rewrite Hl2 in E3. rewrite E3. rsimp. exists m3. rewrite <- Hc, <- app_assoc in *.
    rewrite (zlen_app (bs "0x")). change (zlen (bs "0x")) with 2.
    split_and!; [do 2 f_equal; lia | lia | done].
  - unfold insert_double. specialize (print_g_short v). pose proof (zlen_nonneg (print_g v)).
    apply numeric_holds; [done | done |]. intros Hroom. unfold fb_write, snprintf.
    rewrite ztake_all, Hc by lia.
    destruct (filled_write _ t (print_g v ++ [Byte.x00]) Hf) as (m & -> & Hm & Hf').
    { rewrite zlen_snoc. lia. }
    rsimp. exists m. rewrite <- Hc. split_and!; [done | lia |]. rewrite app_assoc in Hf'. by apply filled_app in Hf'.
  - by apply fb_append_holds.
Qed.

Lemma insert_all_holds l : forall t b,
  fb_holds size t b -> Forall item_ok l ->
  exists b', insert_all print_g b l = Ok b' /\ fb_holds size (fold_left insert_spec l t) b'.
Proof using Hsize print_g_short.
  induction l as [| i l IH]; intros t b H Hl; cbn [insert_all fold_left]; [by exists b |].
  apply Forall_cons in Hl as [Hi Hl]. destruct (insert_holds t b i H Hi) as (b1 & -> & H1). rsimp.
  by apply IH.
Qed.

(** C38: Formatting a log line never writes outside the buffer, whatever is
    inserted; each insertion that finds its room (32 bytes for a number, one
    byte more than its length for a text) adds exactly its text, in full, and
    an insertion that does not is dropped as a whole.  The text can then be
    read and terminated. *)
Theorem insert_all_correct l t b :
  fb_holds size t b -> Forall item_ok l ->
  exists b', insert_all print_g b l = Ok b'
    /\ fb_holds size (fold_left insert_spec l t) b'
    /\ asString b' = Ok (fold_left insert_spec l t)
    /\ is_ok (debugString b').
Proof using Hsize print_g_short.
  intros H Hl. destruct (insert_all_holds l t b H Hl) as (b' & E & H'). exists b'.
  split_and!; [done | done | by apply asString_holds |].
  destruct (debugString_holds _ _ H') as (b2 & E2 & _). by exists b2.
Qed.
End stream_spec.


Definition demo_items : list (item unit) :=
  [IText (bs "min="); IInt (- 2 ^ 63); IBool true; IPtr (2 ^ 64 - 1); IDouble tt].
Definition demo_print (_ : unit) : list byte := bs "3.14".

Lemma insert_all_correct_witness :
  exists b', insert_all demo_print (FixedBuffer_new kSmallBuffer) demo_items = Ok b'
    /\ fb_holds kSmallBuffer (bs "min=-922337203685477580810xFFFFFFFFFFFFFFFF3.14") b'
    /\ asString b' = Ok (bs "min=-922337203685477580810xFFFFFFFFFFFFFFFF3.14")
    /\ is_ok (debugString b').
Proof.
  apply (insert_all_correct demo_print kSmallBuffer ltac:(by_evaluation) (fun _ => eq_refl) demo_items []).
  - apply fb_holds_new. by_evaluation.
  - repeat constructor; by vm_compute.
Defined.
