(* ===== verification/LogFile.v ===== *)
(** * LogFile: [muduo/base/LogFile.h] and [LogFile.cc]

    The file that the log is written to, and when the program changes to a new
    one.  The files of a run are kept in order: those already closed, and the
    open one.  [time(NULL)] and [fwrite_unlocked] are asked in sequence; the
    n-th answers are the parameters [time] and [fwrite].  Whether a file can be
    opened is the parameter [fopen], by its name, which tells the second. *)
From S2P Require Import Prelude.

(** ** LogFile::File *)

(** [text] is what the stream has accepted, [synced] how much of it has been
    flushed. *)
(*@ muduo/muduo/base/LogFile.cc 79-86 LogFile::File *)
Record File : Type := mkFile {
  filename : list byte;
  text : list byte;
  synced : Z;
  writtenBytes_ : Z
}.

(*@ muduo/muduo/base/LogFile.cc 17-26 File::File *)
Definition File_new (fopen : list byte -> bool) (name : list byte) : res File :=
  assert_ (fopen name);;
  mret {| filename := name; text := []; synced := 0; writtenBytes_ := 0 |}.

(*@ muduo/muduo/base/LogFile.cc 60-63 File::flush *)
Definition File_flush (f : File) : File :=
  {| filename := filename f; text := text f; synced := zlen (text f); writtenBytes_ := writtenBytes_ f |}.

(*@ muduo/muduo/base/LogFile.cc 41-72 LogFile *)
Record LogFile : Type := mkLogFile {
  basename_ : list byte;
  rollSize_ : Z;
  flushInterval_ : Z;
  count_ : Z;
  startOfPeriod_ : Z;
  lastRoll_ : Z;
  lastFlush_ : Z;
  closed : list File;
  file_ : File;
  times : nat;
  writes : nat
}.

(*@ muduo/muduo/base/LogFile.h 69-69 LogFile::kCheckTimeRoll_ *)
Definition kCheckTimeRoll_ : Z := 1024.
(*@ muduo/muduo/base/LogFile.h 72-72 LogFile::kRollPerSeconds_ *)
Definition kRollPerSeconds_ : Z := 60 * 60 * 24.

Section logfile.
(** [name base now] is [base] with the time, host and process number. *)
Context (time : nat -> Z) (fwrite : nat -> Z -> Z) (fopen : list byte -> bool)
  (name : list byte -> Z -> list byte).

(** One [fwrite_unlocked] of the rest of a line: how many bytes it took. *)
(*@ muduo/muduo/base/LogFile.cc 71-76 File::write *)
Definition write (k : nat) (logline : list byte) (f : File) : Z * File :=
  let n := fwrite k (zlen logline) in
  (n, {| filename := filename f; text := text f ++ ztake n logline; synced := synced f;
         writtenBytes_ := writtenBytes_ f |}).

(** The loop writes the rest until nothing remains or nothing is taken. *)
Fixpoint append_loop (fuel : nat) (k : nat) (rest : list byte) (f : File) : res (nat * File) :=
  match fuel with
  | O => Err OutOfFuel
  | S fuel =>
      if 0 <? zlen rest
      then
        let '(x, f) := write k rest f in
        if x =? 0 then mret (S k, f) else append_loop fuel (S k) (zdrop x rest) f
      else mret (k, f)
  end.

(*@ muduo/muduo/base/LogFile.cc 35-57 File::append *)
Definition File_append (k : nat) (logline : list byte) (f : File) : res (nat * File) :=
  let '(n, f) := write k logline f in
  '(k, f) ← append_loop (S (length logline)) (S k) (zdrop n logline) f;
  mret (k, {| filename := filename f; text := text f; synced := synced f;
              writtenBytes_ := u64 (writtenBytes_ f + zlen logline) |}).

Definition with_file (l : LogFile) (count : Z) (f : File) (times writes : nat) : LogFile :=
  {| basename_ := basename_ l; rollSize_ := rollSize_ l; flushInterval_ := flushInterval_ l;
     count_ := count; startOfPeriod_ := startOfPeriod_ l; lastRoll_ := lastRoll_ l;
     lastFlush_ := lastFlush_ l; closed := closed l; file_ := f; times := times; writes := writes |}.

(** A new file only when the second has changed: its name contains it. *)
(*@ muduo/muduo/base/LogFile.cc 186-204 LogFile::rollFile *)
Definition rollFile (l : LogFile) : res LogFile :=
  let now := time (times l) in
  let start := Z.quot now kRollPerSeconds_ * kRollPerSeconds_ in
  if lastRoll_ l <? now
  then
    f ← File_new fopen (name (basename_ l) now);
    mret {| basename_ := basename_ l; rollSize_ := rollSize_ l; flushInterval_ := flushInterval_ l;
            count_ := count_ l; startOfPeriod_ := start; lastRoll_ := now; lastFlush_ := now;
            closed := closed l ++ [File_flush (file_ l)]; file_ := f;
            times := S (times l); writes := writes l |}
  else mret (with_file l (count_ l) (file_ l) (S (times l)) (writes l)).

(** The constructor's first [rollFile] opens the first file; [time] is later
    than 0. *)
(*@ muduo/muduo/base/LogFile.cc 90-108 LogFile::LogFile *)
Definition LogFile_new (basename : list byte) (rollSize flushInterval : Z) : res LogFile :=
  assert_ (find_byte (byte_of 47) basename =? zlen basename);;
  let now := time 0 in
  if 0 <? now
  then
    f ← File_new fopen (name basename now);
    mret {| basename_ := basename; rollSize_ := rollSize; flushInterval_ := flushInterval; count_ := 0;
            startOfPeriod_ := Z.quot now kRollPerSeconds_ * kRollPerSeconds_;
            lastRoll_ := now; lastFlush_ := now; closed := [];
            file_ := f; times := 1; writes := 0 |}
  else Err BadAccess.

(*@ muduo/muduo/base/LogFile.cc 130-141 LogFile::flush *)
Definition flush (l : LogFile) : LogFile :=
  with_file l (count_ l) (File_flush (file_ l)) (times l) (writes l).

(*@ muduo/muduo/base/LogFile.cc 145-183 LogFile::append_unlocked *)
Definition append_unlocked (logline : list byte) (l : LogFile) : res LogFile :=
  '(k, f) ← File_append (writes l) logline (file_ l);
  let l := with_file l (count_ l) f (times l) k in
  if rollSize_ l <? writtenBytes_ (file_ l)
  then rollFile l
  else if kCheckTimeRoll_ <? count_ l
  then
    let now := time (times l) in
    let l := with_file l 0 (file_ l) (S (times l)) (writes l) in
    let thisPeriod_ := Z.quot now kRollPerSeconds_ * kRollPerSeconds_ in
    if negb (thisPeriod_ =? startOfPeriod_ l)
    then rollFile l
    else if flushInterval_ l <? now - lastFlush_ l
    then
      mret (flush {| basename_ := basename_ l; rollSize_ := rollSize_ l; flushInterval_ := flushInterval_ l;
                     count_ := count_ l; startOfPeriod_ := startOfPeriod_ l; lastRoll_ := lastRoll_ l;
                     lastFlush_ := now; closed := closed l; file_ := file_ l; times := times l; writes := writes l |})
    else mret l
  else mret (with_file l (count_ l + 1) (file_ l) (times l) (writes l)).

(** Under the mutex, when there is one. *)
(*@ muduo/muduo/base/LogFile.cc 115-127 LogFile::append *)
Definition append (logline : list byte) (l : LogFile) : res LogFile := append_unlocked logline l.

(** Everything in the files, oldest first. *)
Definition contents (l : LogFile) : list byte := concat (map text (closed l)) ++ text (file_ l).

(** ** Lemmas *)
Hypothesis fwrite_range : forall k n, 0 <= n -> 0 <= fwrite k n <= n.

(** From the [k]-th call up to the [k']-th, [fwrite] took something of
    whatever it was given. *)
Definition progress (k k' : nat) : Prop :=
  forall i n, (k <= i < k')%nat -> 0 < n -> 0 < fwrite i n.

(** The loop ends, and what it wrote is a prefix, the whole when every call
    took something. *)
Lemma append_loop_ok fuel : forall k rest f,
  (length rest < fuel)%nat ->
  exists k' f' got, append_loop fuel k rest f = Ok (k', f') /\ (k <= k')%nat
    /\ text f' = text f ++ got /\ got `prefix_of` rest /\ (progress k k' -> got = rest).
Proof using fwrite_range.
  induction fuel as [| fuel IH]; intros k rest f Hl; [lia |]. cbn [append_loop].
  pose proof (zlen_nonneg rest). destruct (Z.ltb_spec 0 (zlen rest)) as [Hr | Hr].
  - pose proof (fwrite_range k (zlen rest) ltac:(lia)) as Hrange. unfold write. cbn zeta.
    destruct (Z.eqb_spec (fwrite k (zlen rest)) 0) as [E0 | Hne].
    + eexists (S k), _, []. split; [done |]. split; [lia |]. cbn. rewrite E0.
      split; [done |]. split; [apply prefix_nil |].
      intros Hp. specialize (Hp k (zlen rest) ltac:(lia) Hr). lia.
    + edestruct (IH (S k) (zdrop (fwrite k (zlen rest)) rest)) as (k' & f' & got & -> & Hk & Ht & Hpre & Hall).
      { unfold zdrop, zlen in *. rewrite length_drop. lia. }
      exists k', f', (ztake (fwrite k (zlen rest)) rest ++ got). split; [done |]. split; [lia |].
      rewrite Ht. cbn. rewrite <- app_assoc. split; [done |]. split.
      * transitivity (ztake (fwrite k (zlen rest)) rest ++ zdrop (fwrite k (zlen rest)) rest);
          [by apply prefix_app | by rewrite ztake_zdrop].
      * intros Hp. rewrite Hall; [by rewrite ztake_zdrop |]. intros i n Hi. apply Hp. lia.
  - exists k, f, []. assert (rest = []) as -> by (apply zlen_zero; lia). rewrite app_nil_r.
    split; [done |]. split; [lia |]. split; [done |]. split; [apply prefix_nil | done].
Qed.

Lemma File_append_ok k line f :
  exists k' f' got, File_append k line f = Ok (k', f') /\ (k <= k')%nat
    /\ text f' = text f ++ got /\ got `prefix_of` line /\ (progress k k' -> got = line)
    /\ writtenBytes_ f' = u64 (writtenBytes_ f + zlen line).
Proof using fwrite_range.
  unfold File_append, write. set (n := fwrite k (zlen line)).
  set (f1 := mkFile _ _ _ _).
  edestruct (append_loop_ok (S (length line)) (S k) (zdrop n line) f1) as (k' & f' & got & E & Hk & Ht & Hpre & Hall).
  { unfold zdrop. rewrite length_drop. lia. }
  assert (Hw : writtenBytes_ f' = writtenBytes_ f).
  { clear -E. change (writtenBytes_ f) with (writtenBytes_ f1). revert E. generalize (S (length line)) as fuel, f1, (S k), (zdrop n line).
    induction fuel as [| fuel IH]; intros f0 k0 r E; [done |]. cbn [append_loop] in E.
    destruct (_ <? _); [| by injection E as _ <-]. unfold write in E. cbn zeta in E.
    destruct (_ =? _); [by injection E as _ <- |]. by rewrite (IH _ _ _ E). }
  rewrite E. rsimp. eexists k', _, (ztake n line ++ got). split; [done |]. split; [lia |]. cbn. rewrite Ht, Hw. cbn.
  rewrite <- app_assoc. split; [done |]. split; [| split; [| done]].
  - transitivity (ztake n line ++ zdrop n line); [by apply prefix_app | by rewrite ztake_zdrop].
  - intros Hp. rewrite Hall; [by rewrite ztake_zdrop |]. intros i m Hi. apply Hp. lia.
Qed.

(** Rolling closes the file and opens an empty one, or leaves it. *)
Definition rolled (f : File) (l l' : LogFile) : Prop :=
  writes l' = writes l /\ rollSize_ l' = rollSize_ l /\ basename_ l' = basename_ l
  /\ (closed l' = closed l /\ text (file_ l') = text f
      \/ closed l' = closed l ++ [File_flush f] /\ text (file_ l') = []).

(** What can go wrong: the next file cannot be opened. *)
Definition opens (base : list byte) (m : res LogFile) (Q : LogFile -> Prop) : Prop :=
  match m with
  | Ok l => Q l
  | Err e => e = AssertFail /\ exists now, fopen (name base now) = false
  end.

Lemma roll_opens l : opens (basename_ l) (rollFile l) (rolled (file_ l) l).
Proof using Type.
  unfold rollFile, File_new. destruct (_ <? _); [| by split_and!; auto].
  destruct (fopen _) eqn:Ef; cbn; [by split_and!; auto | eauto].
Qed.

(** Appending adds what was written of the line to the file that was open. *)
Lemma append_opens line l :
  opens (basename_ l) (append line l) (fun l' => exists f got,
    (writes l <= writes l')%nat /\ text f = text (file_ l) ++ got
    /\ got `prefix_of` line /\ (progress (writes l) (writes l') -> got = line)
    /\ rollSize_ l' = rollSize_ l /\ basename_ l' = basename_ l
    /\ (closed l' = closed l /\ text (file_ l') = text f
         \/ closed l' = closed l ++ [File_flush f] /\ text (file_ l') = [])).
Proof using fwrite_range.
  unfold append, append_unlocked.
  destruct (File_append_ok (writes l) line (file_ l)) as (k & f & got & -> & Hk & Ht & Hpre & Hall & Hw). rsimp.
  set (l1 := with_file l (count_ l) f (times l) k).
  assert (Hroll : forall l2, writes l2 = k -> rollSize_ l2 = rollSize_ l -> basename_ l2 = basename_ l ->
            closed l2 = closed l -> file_ l2 = f ->
            opens (basename_ l) (rollFile l2) (fun l' => exists f got,
              (writes l <= writes l')%nat /\ text f = text (file_ l) ++ got
              /\ got `prefix_of` line /\ (progress (writes l) (writes l') -> got = line)
              /\ rollSize_ l' = rollSize_ l /\ basename_ l' = basename_ l
              /\ (closed l' = closed l /\ text (file_ l') = text f
                   \/ closed l' = closed l ++ [File_flush f] /\ text (file_ l') = []))).
  { intros l2 H1 H2 H3 H4 H5. pose proof (roll_opens l2) as Hr. rewrite H3 in Hr.
    destruct (rollFile l2) as [l' |]; [| exact Hr]. destruct Hr as (R1 & R2 & R3 & R4). rewrite H4, H5 in R4.
    exists f, got. rewrite R1, H1. split_and!; [done.. | congruence | congruence | exact R4]. }
  assert (Hstay : forall l', writes l' = k -> rollSize_ l' = rollSize_ l -> basename_ l' = basename_ l ->
            closed l' = closed l -> text (file_ l') = text f -> exists f got,
              (writes l <= writes l')%nat /\ text f = text (file_ l) ++ got
              /\ got `prefix_of` line /\ (progress (writes l) (writes l') -> got = line)
              /\ rollSize_ l' = rollSize_ l /\ basename_ l' = basename_ l
              /\ (closed l' = closed l /\ text (file_ l') = text f
                   \/ closed l' = closed l ++ [File_flush f] /\ text (file_ l') = [])).
  { intros l' H1 H2 H3 H4 H5. exists f, got. rewrite H1. split_and!; auto. }
  destruct (rollSize_ l1 <? writtenBytes_ (file_ l1)); [by apply Hroll |].
  destruct (kCheckTimeRoll_ <? count_ l1); [| by apply Hstay].
  destruct (negb _); [by apply Hroll |]. destruct (_ <? _); by apply Hstay.
Qed.

(** On a disk that is never full, with files that can be opened. *)
Lemma append_contents line l :
  (forall k n, 0 < n -> 0 < fwrite k n) -> (forall f, fopen f = true) ->
  exists l', append line l = Ok l' /\ contents l' = contents l ++ line.
Proof using fwrite_range.
  intros Hp Ho. pose proof (append_opens line l) as H. destruct (append line l) as [l' |]; cbn in H.
  - destruct H as (f & got & _ & Hf & _ & Hall & _ & _ & Hc). exists l'. split; [done |].
    rewrite Hall in Hf by (intros i n _; apply Hp). unfold contents.
    destruct Hc as [[-> ->] | [-> ->]]; [by rewrite Hf, app_assoc |].
    rewrite map_app, concat_app. cbn. by rewrite Hf, !app_nil_r, app_assoc.
  - destruct H as (_ & now & Hf). by rewrite Ho in Hf.
Qed.
End logfile.

(** ** A whole log *)
Section lines.
Context (time : nat -> Z) (fwrite : nat -> Z -> Z) (fopen : list byte -> bool)
  (name : list byte -> Z -> list byte).

Fixpoint append_all (ls : list (list byte)) (l : LogFile) : res LogFile :=
  match ls with
  | [] => mret l
  | line :: ls => l ← append time fwrite fopen name line l; append_all ls l
  end.

(** The files of a log, oldest first. *)
Definition files (l : LogFile) : list (list byte) := map text (closed l) ++ [text (file_ l)].

Hypothesis fwrite_range : forall k n, 0 <= n -> 0 <= fwrite k n <= n.
Local Abbreviation opens := (opens fopen name).
Local Abbreviation progress := (progress fwrite).

Lemma append_files line l (groups : list (list (list byte))) last :
  files l = map (@concat byte) (groups ++ [last]) ->
  opens (basename_ l) (append time fwrite fopen name line l) (fun l' => exists groups' last' got,
    files l' = map (@concat byte) (groups' ++ [last'])
    /\ concat (groups' ++ [last']) = concat (groups ++ [last]) ++ [got]
    /\ got `prefix_of` line /\ (progress (writes l) (writes l') -> got = line)
    /\ (writes l <= writes l')%nat /\ basename_ l' = basename_ l).
Proof using fwrite_range.
  intros Hf. pose proof (append_opens time fwrite fopen name fwrite_range line l) as H.
  destruct (append time fwrite fopen name line l) as [l' |]; [| exact H].
  destruct H as (f & got & Hk & Hft & Hpre & Hall & _ & Hb & Hc).
  unfold files in *. rewrite map_app in Hf. cbn [map] in Hf. apply app_inj_tail in Hf as [Hf1 Hf2].
  assert (text f = concat (last ++ [got])) as Ht by (rewrite concat_app, Hft, Hf2; cbn; by rewrite app_nil_r).
  destruct Hc as [[Hcl Hfi] | [Hcl Hfi]].
  - exists groups, (last ++ [got]), got. rewrite Hcl, Hfi, Ht, Hf1, map_app. split_and!; try done.
    rewrite !concat_app. cbn. by rewrite !app_nil_r, app_assoc.
  - exists (groups ++ [last ++ [got]]), [], got.
    rewrite Hcl, Hfi, !map_app, Hf1. cbn. rewrite Ht. split_and!; try done.
    rewrite !concat_app. cbn. by rewrite !app_nil_r, app_assoc.
Qed.

Lemma append_all_files ls : forall l (groups : list (list (list byte))) last,
  files l = map (@concat byte) (groups ++ [last]) ->
  opens (basename_ l) (append_all ls l) (fun l' => exists groups' last' got,
    files l' = map (@concat byte) (groups' ++ [last'])
    /\ concat (groups' ++ [last']) = concat (groups ++ [last]) ++ got
    /\ Forall2 prefix got ls /\ (progress (writes l) (writes l') -> got = ls)
    /\ (writes l <= writes l')%nat).
Proof using fwrite_range.
  induction ls as [| line ls IH]; intros l groups last Hf; cbn [append_all].
  - exists groups, last, []. rewrite app_nil_r. split_and!; done.
  - pose proof (append_files line l groups last Hf) as H1.
    destruct (append time fwrite fopen name line l) as [l1 |]; [| exact H1].
    destruct H1 as (g1 & la1 & got1 & Hf1 & Hg1 & Hp1 & Ha1 & Hk1 & Hb1).
    cbn [mbind res_bind]. rewrite <- Hb1. pose proof (IH l1 g1 la1 Hf1) as H2.
    destruct (append_all ls l1) as [l' |]; [| exact H2].
    destruct H2 as (g' & la' & got' & Hf' & Hg' & Hp' & Ha' & Hk').
    exists g', la', (got1 :: got'). split; [done |]. split; [by rewrite Hg', Hg1, <- app_assoc |].
    split; [by constructor |]. split; [| lia]. intros Hp.
    rewrite Ha1, Ha' by (intros i n Hi; apply Hp; lia). done.
Qed.

(** C39: Rolling loses nothing and cuts nothing.  After any sequence of lines,
    whatever the sizes, the base name (without a slash, as the constructor
    asserts), the clock (later than 1970) and the short writes of the stream: unless a file of the log cannot be opened, which fails the assertion
    of [File], each file is made of whole entries, and all the files one after
    the other hold exactly one entry per line, in order.  An entry is the line,
    or, when the stream took nothing at some call, at least a prefix of it: the
    code gives the rest of that line up and goes on with the next. *)
Theorem log_files_hold_all_lines basename rollSize flushInterval ls :
  find_byte (byte_of 47) basename = zlen basename -> 0 < time 0 ->
  match (l0 ← LogFile_new time fopen name basename rollSize flushInterval; append_all ls l0) with
  | Ok l => exists groups entries, files l = map (@concat byte) groups /\ concat groups = entries
      /\ Forall2 prefix entries ls
      /\ ((forall k n, (k < writes l)%nat -> 0 < n -> 0 < fwrite k n) -> entries = ls)
  | Err e => e = AssertFail /\ exists now, fopen (name basename now) = false
  end.
Proof using fwrite_range.
  intros Hb Ht. unfold LogFile_new, File_new. rewrite Hb, Z.eqb_refl. rsimp. rewrite (proj2 (Z.ltb_lt 0 _)) by done.
  destruct (fopen (name basename (time 0))) eqn:Ef; cbn [assert_ mbind res_bind mret res_ret]; [| eauto].
  set (l0 := mkLogFile _ _ _ _ _ _ _ _ _ _ _).
  pose proof (append_all_files ls l0 [] [] eq_refl) as H. cbn [opens] in H.
  destruct (append_all ls l0) as [l |]; [| exact H].
  destruct H as (g & la & got & Hf & Hg & Hp & Ha & _). exists (g ++ [la]), got. cbn in Hg.
  split_and!; try done. intros Hall. apply Ha. intros i n Hi. apply Hall. lia.
Qed.
End lines.

(** Every write takes half of what it is given, the clock advances by a second
    at each reading, and a file holds eight bytes. *)
Definition demo_time (n : nat) : Z := 1400000000 + Z.of_nat n.
Definition demo_fwrite (_ : nat) (n : Z) : Z := (n + 1) / 2.

Definition demo_open (_ : list byte) : bool := true.
Definition demo_lines : list (list byte) := [bs "hello"; bs "world"; bs "!"].

Lemma log_files_hold_all_lines_witness :
  match (l0 ← LogFile_new demo_time demo_open (fun b _ => b) (bs "app") 8 3;
         append_all demo_time demo_fwrite demo_open (fun b _ => b) demo_lines l0) with
  | Ok l => exists groups entries, files l = map (@concat byte) groups /\ concat groups = entries
      /\ entries = demo_lines
  | Err _ => False
  end.
Proof.
  pose proof (log_files_hold_all_lines demo_time demo_fwrite demo_open (fun b _ => b)) as H.
  assert (Hr : forall (k : nat) n, 0 <= n -> 0 <= demo_fwrite k n <= n).
  { intros k n Hn. unfold demo_fwrite. split; [apply Z.div_pos; lia | apply Z.lt_succ_r, Z.div_lt_upper_bound; lia]. }
  specialize (H Hr (bs "app") 8 3 demo_lines ltac:(vm_compute; reflexivity) ltac:(vm_compute; reflexivity)).
  destruct (l0 ← LogFile_new demo_time demo_open (fun b _ => b) (bs "app") 8 3;
            append_all demo_time demo_fwrite demo_open (fun b _ => b) demo_lines l0) as [l |].
  - destruct H as (groups & entries & Hf & Hc & _ & Hall). exists groups, entries. split_and!; [done.. |].
    apply Hall. intros k n _ Hn. unfold demo_fwrite. apply Z.div_str_pos. lia.
  - destruct H as (_ & now & Hf). discriminate Hf.
Defined.
