(* ===== verification/Logging.v ===== *)
(** * Logging: one log line

    [muduo/base/Logging.h], [Logging.cc], and the thread id's text of
    [CurrentThread.h] and [Thread.cc].  A log statement builds its line in a
    [LogStream] and hands it to the output function when it ends. *)
From S2P Require Import Prelude Format TimeText LogStream.

(** ** Thread-local state *)

(*@ muduo/muduo/base/Logging.cc 33-35 muduo::t_time *)
Record ThreadLog : Type := mkThreadLog {
  t_cachedTid : Z;
  t_tidString : list byte;
  t_lastSecond : Z;
  t_time : list byte
}.

(** A new thread: the variables are zero. *)
Definition ThreadLog_new : ThreadLog :=
  {| t_cachedTid := 0; t_tidString := []; t_lastSecond := 0; t_time := [] |}.

(** [%5d] of a [pid_t], which is positive. *)
(*@ muduo/muduo/base/Thread.cc 95-107 CurrentThread::cacheTid *)
Definition cacheTid (gettid : Z) (t : ThreadLog) : res ThreadLog :=
  if t_cachedTid t =? 0
  then
    let text := dec_space 5 gettid ++ [SP] in
    let t := {| t_cachedTid := gettid; t_tidString := snprintf 32 text;
                t_lastSecond := t_lastSecond t; t_time := t_time t |} in
    assert_ (zlen text =? 6);;
    mret t
  else mret t.

(*@ muduo/muduo/base/CurrentThread.h 27-36 CurrentThread::tid *)
Definition tid (gettid : Z) (t : ThreadLog) : res (Z * ThreadLog) :=
  t ← (if t_cachedTid t =? 0 then cacheTid gettid t else mret t);
  mret (t_cachedTid t, t).

(** ** Levels and source files *)

(*@ muduo/muduo/base/Logging.h 14-23 Logger::LogLevel *)
Inductive LogLevel : Type := TRACE | DEBUG | INFO | WARN | ERROR | FATAL.
Definition level_num (l : LogLevel) : Z :=
  match l with TRACE => 0 | DEBUG => 1 | INFO => 2 | WARN => 3 | ERROR => 4 | FATAL => 5 end.

(*@ muduo/muduo/base/Logging.cc 54-62 muduo::LogLevelName *)
Definition LogLevelName (l : LogLevel) : list byte :=
  match l with
  | TRACE => bs "TRACE "
  | DEBUG => bs "DEBUG "
  | INFO => bs "INFO  "
  | WARN => bs "WARN  "
  | ERROR => bs "ERROR "
  | FATAL => bs "FATAL "
  end.

(*@ muduo/muduo/base/Logging.cc 42-50 muduo::initLogLevel *)
Definition initLogLevel (getenv : list byte -> bool) : LogLevel :=
  if getenv (bs "MUDUO_LOG_TRACE") then TRACE
  else if getenv (bs "MUDUO_LOG_DEBUG") then DEBUG else INFO.

(** [strrchr]: the offset of the last occurrence. *)
Fixpoint strrchr (c : byte) (l : list byte) : option Z :=
  match l with
  | [] => None
  | b :: l =>
      match strrchr c l with
      | Some i => Some (i + 1)
      | None => if decide (b = c) then Some 0 else None
      end
  end.

(** The part of the file name that is printed. *)
(*@ muduo/muduo/base/Logging.h 48-57 SourceFile::SourceFile *)
Definition SourceFile (filename : list byte) : list byte :=
  match strrchr (byte_of 47) filename with
  | Some slash => zdrop (slash + 1) filename
  | None => filename
  end.

(** ** Logger *)

(*@ muduo/muduo/base/Logging.h 101-107 Logger::Impl *)
Record Logger : Type := mkLogger {
  stream_ : FixedBuffer;
  level_ : LogLevel;
  line_ : Z;
  basename_ : list byte
}.

(** The effects of the destructor. *)
Inductive effect : Type :=
| Output (msg : list byte)
| Flush
| Abort_.

(** [print_g] is [%.12g]; [gettid], [gmtime_r] and [strerror_r] are the system's. *)
Section logger.
Context {D : Type} (print_g : D -> list byte).
Context (gettid : Z) (gmtime : Z -> calendar) (strerror_tl : Z -> list byte).
Local Abbreviation insert := (insert print_g).

(** [<< T(str, len)]. *)
(*@ muduo/muduo/base/Logging.cc 65-87 muduo::T *)
Definition insert_T (b : FixedBuffer) (str : list byte) (len : Z) : res FixedBuffer :=
  assert_ (zlen str =? len);; insert b (IText str).

(** [.%06dZ ]. *)
Definition micros_text (us : Z) : list byte := bs "." ++ dec_pad 6 us ++ bs "Z ".

(** The calendar is only computed when the second has changed. *)
(*@ muduo/muduo/base/Logging.cc 155-166 Logger::Impl::formatTime *)
Definition refreshTime (seconds : Z) (t : ThreadLog) : res ThreadLog :=
  if negb (seconds =? t_lastSecond t)
  then
    let text := calendar_text (gmtime seconds) in
    let t := {| t_cachedTid := t_cachedTid t; t_tidString := t_tidString t;
                t_lastSecond := seconds; t_time := snprintf 32 text |} in
    assert_ (zlen text =? 17);; mret t
  else mret t.

(*@ muduo/muduo/base/Logging.cc 146-170 Logger::Impl::formatTime *)
Definition formatTime (time_ : Z) (b : FixedBuffer) (t : ThreadLog) : res (FixedBuffer * ThreadLog) :=
  let seconds := Z.quot time_ 1000000 in
  let microseconds := Z.rem time_ 1000000 in
  t ← refreshTime seconds t;
  let us := micros_text microseconds in
  assert_ (zlen us <? 32);;
  assert_ (zlen us =? 9);;
  b ← insert_T b (t_time t) 17;
  b ← insert_T b us 9;
  mret (b, t).

(*@ muduo/muduo/base/Logging.cc 121-143 Logger::Impl::Impl *)
Definition Impl_new (now : Z) (level : LogLevel) (savedErrno : Z) (file : list byte) (line : Z)
    (t : ThreadLog) : res (Logger * ThreadLog) :=
  '(b, t) ← formatTime now (FixedBuffer_new kSmallBuffer) t;
  '(_, t) ← tid gettid t;
  b ← insert_T b (t_tidString t) 6;
  b ← insert_T b (LogLevelName level) 6;
  b ← (if savedErrno =? 0 then mret b
       else insert_all print_g b [IText (strerror_tl savedErrno); IText (bs " (errno=");
                                  IInt savedErrno; IText (bs ") ")]);
  mret ({| stream_ := b; level_ := level; line_ := line; basename_ := file |}, t).

(*@ muduo/muduo/base/Logging.cc 173-176 Logger::Impl::finish *)
Definition finish (l : Logger) : res Logger :=
  b ← insert_all print_g (stream_ l)
        [IText (bs " - "); IText (basename_ l); IText (bs ":"); IInt (line_ l); IText [LF]];
  mret {| stream_ := b; level_ := level_ l; line_ := line_ l; basename_ := basename_ l |}.

(** The constructors: [LOG_INFO], [LOG_WARN], ...; [LOG_TRACE] and [LOG_DEBUG]
    with the function's name; [LOG_SYSERR] and [LOG_SYSFATAL]. *)
Inductive statement : Type :=
| Plain (level : LogLevel)
| WithFunc (level : LogLevel) (func : list byte)
| Sys (toAbort : bool) (errno : Z).

(*@ muduo/muduo/base/Logging.cc 178-197 Logger::Logger *)
Definition Logger_new (now : Z) (s : statement) (file : list byte) (line : Z) (t : ThreadLog)
  : res (Logger * ThreadLog) :=
  match s with
  | Plain level => Impl_new now level 0 (SourceFile file) line t
  | WithFunc level func =>
      '(l, t) ← Impl_new now level 0 (SourceFile file) line t;
      b ← insert_all print_g (stream_ l) [IText func; IText (bs " ")];
      mret ({| stream_ := b; level_ := level_ l; line_ := line_ l; basename_ := basename_ l |}, t)
  | Sys toAbort errno => Impl_new now (if toAbort then FATAL else ERROR) errno (SourceFile file) line t
  end.

(*@ muduo/muduo/base/Logging.cc 200-217 Logger::~Logger *)
Definition Logger_delete (l : Logger) : res (list effect) :=
  l ← finish l;
  msg ← mem_read 0 (fb_length (stream_ l)) (data_ (stream_ l));
  mret (Output msg :: match level_ l with FATAL => [Flush; Abort_] | _ => [] end).

(** The macros: the first three levels are compared with the current one. *)
(*@ muduo/muduo/base/Logging.h 121-142 LOG_TRACE *)
Definition enabled (g_logLevel : LogLevel) (s : statement) : bool :=
  match s with
  | Plain TRACE | WithFunc TRACE _ => level_num g_logLevel <=? level_num TRACE
  | Plain DEBUG | WithFunc DEBUG _ => level_num g_logLevel <=? level_num DEBUG
  | Plain INFO => level_num g_logLevel <=? level_num INFO
  | _ => true
  end.

(** A whole statement: [LOG_X << i1 << i2 ...]. *)
Definition log (g_logLevel : LogLevel) (now : Z) (s : statement) (file : list byte) (line : Z)
    (l : list (item D)) (t : ThreadLog) : res (list effect * ThreadLog) :=
  if enabled g_logLevel s
  then
    '(lg, t) ← Logger_new now s file line t;
    b ← insert_all print_g (stream_ lg) l;
    es ← Logger_delete {| stream_ := b; level_ := level_ lg; line_ := line_ lg; basename_ := basename_ lg |};
    mret (es, t)
  else mret ([], t).
End logger.

(** ** The line *)

Section line.
Context {D : Type} (print_g : D -> list byte).
Context (gettid : Z) (gmtime : Z -> calendar) (strerror_tl : Z -> list byte).
Hypothesis print_g_short : forall d, zlen (print_g d) < kMaxNumericSize.
(** The seconds of the years 1970 to 9999. *)
Definition in_era (s : Z) : Prop := 0 < s < 253402300800.
Hypothesis gmtime_range : forall s, in_era s ->
  let c := gmtime s in
  0 <= year c < 10000 /\ 0 <= month c < 100 /\ 0 <= mday c < 100
  /\ 0 <= hour c < 100 /\ 0 <= minute c < 100 /\ 0 <= second c < 100.

(** What the thread-local variables hold between log statements. *)
Record wf (t : ThreadLog) : Prop := {
  wf_tid : t_cachedTid t = 0 \/ t_cachedTid t = gettid /\ t_tidString t = dec_space 5 gettid ++ [SP];
  wf_time : t_lastSecond t = 0
            \/ in_era (t_lastSecond t) /\ t_time t = calendar_text (gmtime (t_lastSecond t))
}.

Lemma thread_wf_new : wf ThreadLog_new.
Proof using Type. split; by left. Qed.

(** The insertions a statement amounts to. *)
Definition line_items (now : Z) (s : statement) (file : list byte) (line : Z) (l : list (item D))
  : list (item D) :=
  [IText (calendar_text (gmtime (now / 1000000))); IText (micros_text (now mod 1000000));
   IText (dec_space 5 gettid ++ [SP])]
  ++ match s with
     | Plain level => [IText (LogLevelName level)]
     | WithFunc level func => [IText (LogLevelName level); IText func; IText (bs " ")]
     | Sys toAbort errno =>
         IText (LogLevelName (if toAbort then FATAL else ERROR))
         :: (if errno =? 0 then []
             else [IText (strerror_tl errno); IText (bs " (errno="); IInt errno; IText (bs ") ")])
     end
  ++ l
  ++ [IText (bs " - "); IText (SourceFile file); IText (bs ":"); IInt line; IText [LF]].

Definition statement_level (s : statement) : LogLevel :=
  match s with Plain level | WithFunc level _ => level | Sys toAbort _ => if toAbort then FATAL else ERROR end.
Definition statement_ok (s : statement) : Prop :=
  match s with Sys _ errno => - 2 ^ 31 <= errno < 2 ^ 31 | _ => True end.

Local Abbreviation spec := (insert_spec print_g kSmallBuffer).
Local Abbreviation holds := (fb_holds kSmallBuffer).

Lemma small : 0 < kSmallBuffer < 2 ^ 31.
Proof using Type. done. Qed.

Lemma insert_T_holds t b str len :
  holds t b -> zlen str = len ->
  exists b', insert_T print_g b str len = Ok b' /\ holds (spec t (IText str)) b'.
Proof using print_g_short.
  intros H <-. unfold insert_T. step_assert; [lia |].
  by apply (insert_holds print_g kSmallBuffer small print_g_short).
Qed.

Lemma zlen_calendar_text s : in_era s -> zlen (calendar_text (gmtime s)) = 17.
Proof using gmtime_range.
  intros Hs. destruct (gmtime_range s Hs) as (?&?&?&?&?&?). unfold calendar_text. rewrite !zlen_app.
  rewrite zlen_dec_space, !zlen_dec_pad by lia. done.
Qed.

Lemma refreshTime_ok s t :
  wf t -> in_era s ->
  exists t', refreshTime gmtime s t = Ok t' /\ wf t' /\ t_time t' = calendar_text (gmtime s).
Proof using gmtime_range.
  intros [Hi Hm] Hs. unfold refreshTime. rewrite zlen_calendar_text by done. unfold snprintf.
  rewrite ztake_all by (rewrite zlen_calendar_text by done; lia).
  destruct (Z.eqb_spec s (t_lastSecond t)) as [E | E]; rsimp; cbn [negb].
  - exists t. split; [done |]. split; [done |].
    destruct Hm as [Hz | [_ ->]]; [unfold in_era in Hs; lia | by rewrite E].
  - eexists. split; [done |]. split; [split; cbn; [done | by right] | done].
Qed.

Lemma formatTime_tid now b t b' t' :
  formatTime print_g gmtime now b t = Ok (b', t') -> t_cachedTid t' = t_cachedTid t.
Proof using Type.
  unfold formatTime. intros (t1 & E & H)%bind_Ok. apply bind_Ok in H as (? & _ & H).
  apply bind_Ok in H as (? & _ & H). apply bind_Ok in H as (b1 & _ & H).
  apply bind_Ok in H as (b2 & _ & H). injection H as _ <-. unfold refreshTime in E.
  destruct (negb _); [| by injection E as ->]. apply bind_Ok in E as (? & _ & E). by injection E as <-.
Qed.

Lemma formatTime_holds now b tx t :
  wf t -> in_era (now / 1000000) -> holds tx b ->
  exists b' t', formatTime print_g gmtime now b t = Ok (b', t') /\ wf t'
    /\ holds (fold_left spec [IText (calendar_text (gmtime (now / 1000000)));
                              IText (micros_text (now mod 1000000))] tx) b'.
Proof using print_g_short gmtime_range.
  intros [Hi Hm] Hnow H. unfold formatTime.
  assert (0 <= now) as Hpos.
  { destruct Hnow. assert (0 <= now / 1000000) by lia. pose proof (Z.mul_div_le now 1000000). lia. }
  rewrite Z.quot_div_nonneg, Z.rem_mod_nonneg by lia.
  pose proof (Z.mod_pos_bound now 1000000 ltac:(lia)) as Hus.
  pose proof (zlen_calendar_text _ Hnow) as Hcal.
  set (s := now / 1000000) in *.
  destruct (refreshTime_ok s t (Build_wf _ Hi Hm) Hnow) as (t' & -> & Hwf & Htx).
  rsimp. assert (zlen (micros_text (now mod 1000000)) = 9) as Hu.
  { unfold micros_text. rewrite !zlen_app, zlen_dec_pad by lia. done. }
  rewrite Hu. rsimp. rewrite Htx.
  destruct (insert_T_holds tx b _ 17 H Hcal) as (b1 & -> & H1). rsimp.
  destruct (insert_T_holds _ b1 _ 9 H1 Hu) as (b2 & -> & H2). rsimp. by exists b2, t'.
Qed.

(** A thread whose id has more than five digits cannot log: the text of its id
    is longer than the assertions on its length allow. *)
Lemma large_tid_asserts g now s file line l t :
  100000 <= gettid < 2 ^ 31 -> wf t -> in_era (now / 1000000) -> enabled g s = true ->
  log print_g gettid gmtime strerror_tl g now s file line l t = Err AssertFail.
Proof using print_g_short gmtime_range.
  intros Hg Hwf Hnow Hs. unfold log. rewrite Hs.
  assert (6 < zlen (dec_space 5 gettid ++ [SP])) as Hl.
  { rewrite zlen_snoc. unfold dec_space. rewrite dec_nonneg by lia. rewrite zlen_app, zlen_replicate.
    pose proof (dec_u_len_lower gettid 5 ltac:(lia) ltac:(lia)). lia. }
  assert (Hi : forall level errno file, Impl_new print_g gettid gmtime strerror_tl now level errno file line t = Err AssertFail).
  { intros level errno f. unfold Impl_new.
    destruct (formatTime_holds now _ [] t Hwf Hnow (fb_holds_new kSmallBuffer small)) as (b1 & t1 & E & Hwf1 & _).
    rewrite E. rsimp. unfold tid, cacheTid.
    destruct (wf_tid t1 Hwf1) as [-> | [-> Htx]]; cbn [Z.eqb].
    - by rewrite (proj2 (Z.eqb_neq _ 6)) by lia.
    - rewrite (proj2 (Z.eqb_neq gettid 0)) by lia. rsimp. rewrite Htx. unfold insert_T.
      by rewrite (proj2 (Z.eqb_neq (zlen (dec_space 5 gettid ++ [SP])) 6)) by lia. }
  destruct s; cbn [Logger_new]; by rewrite Hi.
Qed.

(** From here on the id has at most five digits, the default limit of Linux. *)
Hypothesis gettid_range : 0 < gettid < 100000.

Lemma tid_string t : wf t ->
  exists t', tid gettid t = Ok (gettid, t') /\ wf t' /\ t_tidString t' = dec_space 5 gettid ++ [SP].
Proof using gettid_range.
  intros [[E | [E1 E2]] Hm]; unfold tid, cacheTid.
  - rewrite E. cbn [Z.eqb]. assert (zlen (dec_space 5 gettid ++ [SP]) = 6) as Hl.
    { rewrite zlen_snoc, zlen_dec_space by lia. done. }
    rewrite Hl. rsimp. unfold snprintf. rewrite ztake_all by lia.
    eexists. split; [done |]. split; [| done]. split; cbn; [by right | done].
  - rewrite E1, (proj2 (Z.eqb_neq gettid 0)) by lia. rsimp. rewrite E1. exists t. split; [done |].
    split; [split; [by right | done] | done].
Qed.

(** The insertions of the constructor. *)
Definition head_items (now : Z) (level : LogLevel) (errno : Z) : list (item D) :=
  [IText (calendar_text (gmtime (now / 1000000))); IText (micros_text (now mod 1000000))]
  ++ [IText (dec_space 5 gettid ++ [SP]); IText (LogLevelName level)]
  ++ (if errno =? 0 then []
      else [IText (strerror_tl errno); IText (bs " (errno="); IInt errno; IText (bs ") ")]).

Local Abbreviation insert_all_holds :=
  (insert_all_holds print_g kSmallBuffer small print_g_short).

Lemma Impl_new_holds now level errno file line t :
  wf t -> in_era (now / 1000000) -> - 2 ^ 31 <= errno < 2 ^ 31 ->
  exists b t', Impl_new print_g gettid gmtime strerror_tl now level errno file line t
               = Ok ({| stream_ := b; level_ := level; line_ := line; basename_ := file |}, t')
    /\ wf t' /\ holds (fold_left spec (head_items now level errno) []) b.
Proof using print_g_short gmtime_range gettid_range.
  intros Hwf Hnow He. unfold Impl_new, head_items.
  destruct (formatTime_holds now _ [] t Hwf Hnow (fb_holds_new kSmallBuffer small)) as (b1 & t1 & -> & Hw1 & H1).
  rsimp. destruct (tid_string t1 Hw1) as (t2 & -> & Hw2 & Htid). rsimp. rewrite Htid.
  destruct (insert_T_holds _ b1 (dec_space 5 gettid ++ [SP]) 6 H1) as (b2 & -> & H2).
  { rewrite zlen_snoc, zlen_dec_space by lia. done. }
  rsimp. destruct (insert_T_holds _ b2 (LogLevelName level) 6 H2) as (b3 & -> & H3); [by destruct level |].
  rsimp. rewrite !fold_left_app. destruct (Z.eqb_spec errno 0) as [E | E]; rsimp.
  - by exists b3, t2.
  - edestruct insert_all_holds as (b4 & E4 & H4); [exact H3 | | rewrite E4; rsimp; by exists b4, t2].
    repeat constructor; cbn; lia.
Qed.

Lemma finish_holds t b level line file :
  holds t b -> - 2 ^ 31 <= line < 2 ^ 31 ->
  exists b', finish print_g {| stream_ := b; level_ := level; line_ := line; basename_ := file |}
             = Ok {| stream_ := b'; level_ := level; line_ := line; basename_ := file |}
    /\ holds (fold_left spec [IText (bs " - "); IText file; IText (bs ":"); IInt line; IText [LF]] t) b'.
Proof using print_g_short.
  intros H Hl. unfold finish. cbn [stream_ line_ basename_ level_].
  edestruct insert_all_holds as (b' & E & H'); [exact H | | rewrite E; rsimp; by exists b'].
  repeat constructor; cbn; lia.
Qed.

Lemma Logger_new_holds now s file line t :
  wf t -> in_era (now / 1000000) -> statement_ok s ->
  exists b t' items,
    Logger_new print_g gettid gmtime strerror_tl now s file line t
    = Ok ({| stream_ := b; level_ := statement_level s; line_ := line; basename_ := SourceFile file |}, t')
    /\ wf t' /\ holds (fold_left spec items []) b
    /\ forall l, line_items now s file line l
         = items ++ l ++ [IText (bs " - "); IText (SourceFile file); IText (bs ":"); IInt line; IText [LF]].
Proof using print_g_short gmtime_range gettid_range.
  intros Hwf Hnow Hs. unfold Logger_new. destruct s as [level | level func | toAbort errno]; cbn [statement_ok statement_level] in *.
  - destruct (Impl_new_holds now level 0 (SourceFile file) line t Hwf Hnow ltac:(lia)) as (b & t' & -> & Hw & H).
    eexists b, t', _. split_and!; [done | done | exact H | done].
  - destruct (Impl_new_holds now level 0 (SourceFile file) line t Hwf Hnow ltac:(lia)) as (b & t' & -> & Hw & H).
    rsimp. cbn [stream_ level_ line_ basename_].
    edestruct (insert_all_holds [IText func; IText (bs " ")]) as (b2 & -> & H2); [exact H | by repeat constructor |].
    rsimp. rewrite <- fold_left_app in H2. eexists b2, t', _. split_and!; [done | done | exact H2 | done].
  - destruct (Impl_new_holds now (if toAbort then FATAL else ERROR) errno (SourceFile file) line t Hwf Hnow Hs)
      as (b & t' & -> & Hw & H).
    eexists b, t', _. split_and!; [done | done | exact H |]. intros l. unfold line_items, head_items. by rewrite <- !app_assoc.
Qed.

Lemma log_fits g now s file line l t :
  wf t -> in_era (now / 1000000) -> statement_ok s -> - 2 ^ 31 <= line < 2 ^ 31 -> Forall item_ok l ->
  exists t', wf t'
    /\ log print_g gettid gmtime strerror_tl g now s file line l t
       = Ok (if enabled g s
             then Output (fold_left spec (line_items now s file line l) [])
                  :: match statement_level s with FATAL => [Flush; Abort_] | _ => [] end
             else [], t').
Proof using print_g_short gmtime_range gettid_range.
  intros Hwf Hnow Hs Hline Hl. unfold log. destruct (enabled g s); [| by exists t].
  destruct (Logger_new_holds now s file line t Hwf Hnow Hs) as (b & t' & items & -> & Hw & H & Heq).
  rsimp. cbn [stream_ level_ line_ basename_].
  destruct (insert_all_holds l _ b H Hl) as (b1 & -> & H1). rsimp.
  unfold Logger_delete. destruct (finish_holds _ b1 (statement_level s) line (SourceFile file) H1 Hline) as (b2 & -> & H2).
  rsimp. cbn [stream_ level_]. rewrite <- !fold_left_app, <- Heq in H2.
  pose proof (asString_holds kSmallBuffer small _ _ H2) as E. unfold asString in E. rewrite E. rsimp. by exists t'.
Qed.
End line.

Section statements.
Context {D : Type} (print_g : D -> list byte).
Context (gettid : Z) (gmtime : Z -> calendar) (strerror_tl : Z -> list byte).
Hypothesis print_g_short : forall d, zlen (print_g d) < kMaxNumericSize.
Hypothesis gmtime_range : forall s, in_era s ->
  let c := gmtime s in
  0 <= year c < 10000 /\ 0 <= month c < 100 /\ 0 <= mday c < 100
  /\ 0 <= hour c < 100 /\ 0 <= minute c < 100 /\ 0 <= second c < 100.

(** C40: A log statement whose level is enabled produces exactly one call of the
    output function, with its time (whether the calendar was computed or
    cached; up to the year 9999), thread id, level, error, function, text and
    position in that order, as much of it as fits; a fatal one then flushes and
    aborts.  This is so for thread ids of at most five digits, the default limit
    of Linux; a thread with a longer id fails an assertion instead.  The line,
    the error number and the items are in the range of their types.  A disabled
    statement does nothing, whatever the id.  The thread-local state stays good. *)
Theorem log_one_line g now s file line l t :
  0 < gettid < 2 ^ 31 ->
  wf gettid gmtime t -> in_era (now / 1000000) -> statement_ok s -> - 2 ^ 31 <= line < 2 ^ 31 -> Forall item_ok l ->
  let r := log print_g gettid gmtime strerror_tl g now s file line l t in
  if enabled g s
  then
    if gettid <? 100000
    then exists t', wf gettid gmtime t'
      /\ r = Ok (Output (fold_left (insert_spec print_g kSmallBuffer) (line_items gettid gmtime strerror_tl now s file line l) [])
                 :: match statement_level s with FATAL => [Flush; Abort_] | _ => [] end, t')
    else r = Err AssertFail
  else r = Ok ([], t).
Proof using print_g_short gmtime_range.
  intros Hg Hwf Hnow Hs Hline Hl. cbn zeta. destruct (enabled g s) eqn:He; [| unfold log; by rewrite He].
  destruct (Z.ltb_spec gettid 100000) as [Hlt | Hge]; [| apply large_tid_asserts; [done.. | lia | done | done | done]].
  destruct (log_fits print_g gettid gmtime strerror_tl print_g_short gmtime_range ltac:(lia) g now s file line l t
    Hwf Hnow Hs Hline Hl) as (t' & Hw & ->).
  rewrite He. by exists t'.
Qed.
End statements.

(** ** Concrete statements *)

Definition demo_calendar (_ : Z) : calendar :=
  {| year := 2014; month := 5; mday := 17; hour := 9; minute := 3; second := 7 |}.
Definition demo_line : list byte :=
  bs "20140517 09:03:07.000042Z  4242 INFO  n=7 - Acceptor.cc:88" ++ [LF].

Lemma log_one_line_witness :
  (exists t', wf 4242 demo_calendar t'
    /\ log demo_print 4242 demo_calendar (fun _ => []) INFO 1400317387000042 (Plain INFO)
           (bs "net/Acceptor.cc") 88 [IText (bs "n="); IInt 7] ThreadLog_new
       = Ok ([Output demo_line], t'))
  /\ log demo_print 123456 demo_calendar (fun _ => []) INFO 1400317387000042 (Plain INFO)
        (bs "net/Acceptor.cc") 88 [IText (bs "n="); IInt 7] ThreadLog_new = Err AssertFail.
Proof.
  split.
  - apply (log_one_line demo_print 4242 demo_calendar (fun _ => []) (fun _ => eq_refl)
      ltac:(intros s _; cbn; lia) INFO 1400317387000042 (Plain INFO)
      (bs "net/Acceptor.cc") 88 [IText (bs "n="); IInt 7] ThreadLog_new ltac:(lia)
      (thread_wf_new _ _) ltac:(by vm_compute) I ltac:(lia) ltac:(repeat constructor; by vm_compute)).
  - apply (log_one_line demo_print 123456 demo_calendar (fun _ => []) (fun _ => eq_refl)
      ltac:(intros s _; cbn; lia) INFO 1400317387000042 (Plain INFO)
      (bs "net/Acceptor.cc") 88 [IText (bs "n="); IInt 7] ThreadLog_new ltac:(lia)
      (thread_wf_new _ _) ltac:(by vm_compute) I ltac:(lia) ltac:(repeat constructor; by vm_compute)).
Defined.
