(* ===== verification/AsyncLogging.v ===== *)
(** * AsyncLogging: [muduo/base/AsyncLogging.h] and [AsyncLogging.cc]

    The double buffering between the threads that log and the thread that
    writes the file.  Every critical section of [mutex_] is a step; a schedule
    is a list of steps of the loggers, of [stop] and of the logging thread, in
    any order.  The file is behind an interface, which [LogFile] implements. *)
From S2P Require Import Prelude LogStream LogFile.

(** What the logging thread asks of its output. *)
Class LogSink (O : Type) : Type := {
  sink_append : list byte -> O -> res O;
  sink_flush : O -> O;
  sink_contents : O -> list byte;
  sink_append_ok line o :
    exists o', sink_append line o = Ok o' /\ sink_contents o' = sink_contents o ++ line;
  sink_flush_contents o : sink_contents (sink_flush o) = sink_contents o
}.

Section async.
(** [size] is the size of a buffer, [kLargeBuffer] in the program; [notice n]
    is the message about [n] dropped buffers. *)
Context {O : Type} `{!LogSink O} (size : Z) (notice : Z -> list byte).

(** Where the logging thread is: at the test of [running_], before taking
    the lock, in [waitForSeconds], woken, writing, or gone. *)
Inductive place : Type := AtLoop | AtLock | InWait | Woken | Writing | Exited.

(*@ muduo/muduo/base/AsyncLogging.h 80-99 AsyncLogging *)
Record Async : Type := mkAsync {
  running_ : bool;
  currentBuffer_ : FixedBuffer;
  nextBuffer_ : option FixedBuffer;
  buffers_ : list FixedBuffer;
  pc : place;
  newBuffer1 : option FixedBuffer;
  newBuffer2 : option FixedBuffer;
  buffersToWrite : list FixedBuffer;
  output : O
}.

Definition Buffer_new : FixedBuffer := FixedBuffer_new size.

(** [start] has let the thread open its output. *)
(*@ muduo/muduo/base/AsyncLogging.cc 11-33 AsyncLogging::AsyncLogging *)
Definition AsyncLogging_start (o : O) : Async :=
  {| running_ := true; currentBuffer_ := bzero Buffer_new; nextBuffer_ := Some (bzero Buffer_new); buffers_ := [];
     pc := AtLoop; newBuffer1 := Some (bzero Buffer_new); newBuffer2 := Some (bzero Buffer_new);
     buffersToWrite := []; output := o |}.

(** The front end's fields and whether the thread is woken. *)
Definition with_front (a : Async) (cur : FixedBuffer) (next : option FixedBuffer) (bufs : list FixedBuffer)
    (notify : bool) : Async :=
  {| running_ := running_ a; currentBuffer_ := cur; nextBuffer_ := next; buffers_ := bufs;
     pc := match pc a with InWait => if notify then Woken else InWait | p => p end;
     newBuffer1 := newBuffer1 a; newBuffer2 := newBuffer2 a; buffersToWrite := buffersToWrite a;
     output := output a |}.
Definition with_pc (a : Async) (p : place) : Async :=
  {| running_ := running_ a; currentBuffer_ := currentBuffer_ a; nextBuffer_ := nextBuffer_ a;
     buffers_ := buffers_ a; pc := p; newBuffer1 := newBuffer1 a; newBuffer2 := newBuffer2 a;
     buffersToWrite := buffersToWrite a; output := output a |}.

(*@ muduo/muduo/base/AsyncLogging.cc 36-70 AsyncLogging::append *)
Definition append (logline : list byte) (a : Async) : res Async :=
  if zlen logline <? avail (currentBuffer_ a)
  then
    cur ← LogStream.append (currentBuffer_ a) logline;
    mret (with_front a cur (nextBuffer_ a) (buffers_ a) false)
  else
    let bufs := buffers_ a ++ [currentBuffer_ a] in
    let '(cur, next) := match nextBuffer_ a with
                        | Some b => (b, None)
                        | None => (Buffer_new, None)
                        end in
    cur ← LogStream.append cur logline;
    mret (with_front a cur next bufs true).

(** [stop] up to [join]. *)
(*@ muduo/muduo/base/AsyncLogging.h 51-56 AsyncLogging::stop *)
Definition stop (a : Async) : Async :=
  {| running_ := false; currentBuffer_ := currentBuffer_ a; nextBuffer_ := nextBuffer_ a;
     buffers_ := buffers_ a; pc := match pc a with InWait => Woken | p => p end;
     newBuffer1 := newBuffer1 a; newBuffer2 := newBuffer2 a; buffersToWrite := buffersToWrite a;
     output := output a |}.

(** The head of the loop. *)
(*@ muduo/muduo/base/AsyncLogging.cc 91-95 AsyncLogging::threadFunc *)
Definition loop_head (a : Async) : res Async :=
  if running_ a
  then
    assert_ (match newBuffer1 a with Some b => fb_length b =? 0 | None => false end);;
    assert_ (match newBuffer2 a with Some b => fb_length b =? 0 | None => false end);;
    assert_ (match buffersToWrite a with [] => true | _ => false end);;
    mret (with_pc a AtLock)
  else
    mret {| running_ := running_ a; currentBuffer_ := currentBuffer_ a; nextBuffer_ := nextBuffer_ a;
            buffers_ := buffers_ a; pc := Exited; newBuffer1 := newBuffer1 a; newBuffer2 := newBuffer2 a;
            buffersToWrite := buffersToWrite a; output := sink_flush (output a) |}.

(** The rest of the critical section, once there is something to do or the
    wait is over. *)
(*@ muduo/muduo/base/AsyncLogging.cc 108-123 AsyncLogging::threadFunc *)
Definition swap_buffers (a : Async) : res Async :=
  let bufs := buffers_ a ++ [currentBuffer_ a] in
  match newBuffer1 a with
  | None => Err BadAccess
  | Some cur =>
      let '(next, new2) := match nextBuffer_ a with
                           | Some b => (Some b, newBuffer2 a)
                           | None => (newBuffer2 a, None)
                           end in
      mret {| running_ := running_ a; currentBuffer_ := cur; nextBuffer_ := next;
              buffers_ := buffersToWrite a; pc := Writing; newBuffer1 := None; newBuffer2 := new2;
              buffersToWrite := bufs; output := output a |}
  end.

(*@ muduo/muduo/base/AsyncLogging.cc 97-123 AsyncLogging::threadFunc *)
Definition lock_section (a : Async) : res Async :=
  match buffers_ a with
  | [] => mret (with_pc a InWait)
  | _ => swap_buffers a
  end.

Fixpoint write_all (bs : list FixedBuffer) (o : O) : res O :=
  match bs with
  | [] => mret o
  | b :: bs =>
      data ← mem_read 0 (fb_length b) (data_ b);
      o ← sink_append data o;
      write_all bs o
  end.

(** Take back a buffer for the next round when there is none. *)
(*@ muduo/muduo/base/AsyncLogging.cc 162-177 AsyncLogging::threadFunc *)
Definition take_back (nb : option FixedBuffer) (bs : list FixedBuffer) : res (option FixedBuffer * list FixedBuffer) :=
  match nb with
  | Some b => mret (Some b, bs)
  | None =>
      match rev bs with
      | [] => Err AssertFail
      | b :: r => mret (Some (reset b), rev r)
      end
  end.

(*@ muduo/muduo/base/AsyncLogging.cc 125-183 AsyncLogging::threadFunc *)
Definition write_out (a : Async) : res Async :=
  assert_ (match buffersToWrite a with [] => false | _ => true end);;
  '(bs, o) ← (if (25 <? length (buffersToWrite a))%nat
              then
                o ← sink_append (notice (Z.of_nat (length (buffersToWrite a)) - 2)) (output a);
                mret (take 2 (buffersToWrite a), o)
              else mret (buffersToWrite a, output a));
  o ← write_all bs o;
  let bs := if (2 <? length bs)%nat then take 2 bs else bs in
  '(nb1, bs) ← take_back (newBuffer1 a) bs;
  '(nb2, _) ← take_back (newBuffer2 a) bs;
  mret {| running_ := running_ a; currentBuffer_ := currentBuffer_ a; nextBuffer_ := nextBuffer_ a;
          buffers_ := buffers_ a; pc := AtLoop; newBuffer1 := nb1; newBuffer2 := nb2;
          buffersToWrite := []; output := sink_flush o |}.

(** ** Schedules *)

(** [Wake] is the timeout, or a spurious wake-up. *)
Inductive label : Type := Append (line : list byte) | Stop | Thread | Wake.

Definition step (l : label) (a : Async) : res Async :=
  match l with
  | Append line => append line a
  | Stop => mret (stop a)
  | Wake => mret (match pc a with InWait => with_pc a Woken | _ => a end)
  | Thread =>
      match pc a with
      | AtLoop => loop_head a
      | AtLock => lock_section a
      | Woken => swap_buffers a
      | Writing => write_out a
      | InWait | Exited => mret a
      end
  end.

Fixpoint run (ls : list label) (a : Async) : res Async :=
  match ls with
  | [] => mret a
  | l :: ls => a ← step l a; run ls a
  end.

(** ** The invariant *)

(** The text of a buffer. *)
Definition fb_text (b : FixedBuffer) : list byte := ztake (cur_ b) (data_ b).

Definition good (b : FixedBuffer) : Prop := fb_holds size (fb_text b) b.
Definition empty (b : FixedBuffer) : Prop := fb_holds size [] b.

Record ok (a : Async) : Prop := {
  ok_current : good (currentBuffer_ a);
  ok_buffers : Forall good (buffers_ a);
  ok_next : match nextBuffer_ a with Some b => empty b | None => buffers_ a <> [] end;
  ok_towrite : Forall good (buffersToWrite a);
  ok_thread : match pc a with
              | Writing => newBuffer1 a = None /\ buffersToWrite a <> []
                           /\ match newBuffer2 a with
                              | Some b => empty b
                              | None => (2 <= length (buffersToWrite a))%nat
                              end
              | _ => buffersToWrite a = []
                     /\ (exists b, newBuffer1 a = Some b /\ empty b)
                     /\ (exists b, newBuffer2 a = Some b /\ empty b)
              end
}.

(** How many buffers the step finds to write, and the most that a step of a
    schedule does. *)
Definition found (l : label) (a : Async) : nat :=
  match l, pc a with
  | Thread, Writing => length (buffersToWrite a)
  | _, _ => 0
  end.
Fixpoint most_found (ls : list label) (a : Async) : nat :=
  match ls with
  | [] => 0
  | l :: ls => Nat.max (found l a) (match step l a with Ok a' => most_found ls a' | Err _ => 0 end)
  end.

(** Everything that has been accepted: in the file, being written, and
    waiting. *)
Definition pending (a : Async) : list byte :=
  concat (map fb_text (buffersToWrite a)) ++ concat (map fb_text (buffers_ a)) ++ fb_text (currentBuffer_ a).
Definition total (a : Async) : list byte := sink_contents (output a) ++ pending a.

(** A line as long as a buffer is not kept. *)
Definition kept (line : list byte) : list byte := if zlen line <? size then line else [].
Definition appended (ls : list label) : list byte :=
  concat (map (fun l => match l with Append line => kept line | _ => [] end) ls).
End async.

(** ** Proofs *)

Section async_correct.
Context {O : Type} `{!LogSink O} (size : Z) (notice : Z -> list byte).
Hypothesis Hsize : 0 < size < 2 ^ 31.
Local Abbreviation good := (good size).
Local Abbreviation empty := (empty size).
Local Abbreviation ok := (ok (O := O) size).

Lemma holds_text t b : fb_holds size t b -> fb_text b = t.
Proof using Type. intros [Hs Hc [_ Hf] _]. unfold fb_text. by rewrite Hc, Hf. Qed.
Lemma holds_good t b : fb_holds size t b -> good b.
Proof using Type. intros H. red. by rewrite (holds_text t b H). Qed.
Lemma empty_good b : empty b -> good b.
Proof using Type. apply holds_good. Qed.
Lemma new_empty : empty (Buffer_new size).
Proof using Hsize. by apply fb_holds_new. Qed.
Lemma bzero_empty : empty (bzero (Buffer_new size)).
Proof using Hsize. unfold bzero, Buffer_new, FixedBuffer_new. cbn. rewrite length_replicate. by apply fb_holds_new. Qed.
Lemma reset_empty b : good b -> empty (reset b).
Proof using Hsize.
  intros [Hs Hc Hf Hr]. split; cbn; [done | done | split; [apply zlen_nonneg | done] | rewrite zlen_nil; lia].
Qed.
Lemma empty_length b : empty b -> fb_length b = 0.
Proof using Type. intros [_ Hc _ _]. unfold fb_length. by rewrite Hc. Qed.
Lemma empty_text b : empty b -> fb_text b = [].
Proof using Type. apply holds_text. Qed.

(** A logger's step on one buffer. *)
Lemma append_good b line :
  good b ->
  exists b', LogStream.append b line = Ok b' /\ good b'
    /\ fb_text b' = fb_text b ++ (if zlen line <? avail b then line else []).
Proof using Hsize.
  intros H. destruct (fb_append_holds size Hsize _ b line H) as (b' & E & H'). exists b'.
  split; [done |]. split; [by apply holds_good in H' |]. rewrite (holds_text _ _ H'), (avail_holds size Hsize _ _ H).
  destruct (Z.leb_spec (zlen line + 1) (size - zlen (fb_text b))).
  - by rewrite (proj2 (Z.ltb_lt _ _)) by lia.
  - rewrite (proj2 (Z.ltb_ge _ _)) by lia. by rewrite app_nil_r.
Qed.

Lemma avail_empty b : empty b -> avail b = size.
Proof using Hsize. intros H. rewrite (avail_holds size Hsize _ _ H), zlen_nil. lia. Qed.
Lemma avail_le b : good b -> avail b <= size.
Proof using Hsize.
  intros H. rewrite (avail_holds size Hsize _ _ H). pose proof (zlen_nonneg (fb_text b)). lia.
Qed.

Lemma map_text_snoc bs b : concat (map fb_text (bs ++ [b])) = concat (map fb_text bs) ++ fb_text b.
Proof using Type. rewrite map_app, concat_app. cbn. by rewrite app_nil_r. Qed.

(** A step: it goes through, keeps the invariant, and accounts for the text,
    unless there is too much to write. *)
Definition step_ok (a : Async) (n : nat) (added : list byte) (m : res Async) : Prop :=
  exists a', m = Ok a' /\ ok a' /\ ((n <= 25)%nat -> total a' = total a ++ added).

Lemma append_step a line : ok a -> step_ok a 0 (kept size line) (append size line a).
Proof using Hsize.
  intros [Hc Hb Hn Hw Ht]. unfold append, kept.
  assert (Hplace : forall cur next bufs notify,
    good cur -> Forall good bufs -> (match next with Some b => empty b | None => bufs <> [] end) ->
    ok (with_front a cur next bufs notify)).
  { intros cur next bufs notify H1 H2 H3. split; [done | done | done | done |].
    cbn. destruct (pc a); try exact Ht. destruct notify; exact Ht. }
  destruct (Z.ltb_spec (zlen line) (avail (currentBuffer_ a))) as [Hlt | Hge].
  - destruct (append_good _ line Hc) as (b & -> & Hg & Hx). rsimp. rewrite (proj2 (Z.ltb_lt _ _)) in Hx by lia.
    pose proof (avail_le _ Hc). rewrite (proj2 (Z.ltb_lt _ size)) by lia.
    eexists. split; [done |]. split; [by apply Hplace |]. intros _.
    unfold total, pending. cbn. by rewrite Hx, <- !app_assoc.
  - set (nx := match nextBuffer_ a with Some b => (b, None) | None => (Buffer_new size, None) end).
    assert (Hnx : empty nx.1 /\ nx.2 = None).
    { unfold nx. destruct (nextBuffer_ a); [done |]. split; [apply new_empty | done]. }
    destruct nx as [cur next]. cbn [fst snd] in Hnx. destruct Hnx as [He ->].
    destruct (append_good cur line (empty_good _ He)) as (b & -> & Hg & Hx). rsimp.
    rewrite (avail_empty _ He), (empty_text _ He) in Hx. cbn [app] in Hx.
    eexists. split; [done |]. split; [apply Hplace |].
    + done.
    + apply Forall_app. split; [done | by constructor].
    + by destruct (buffers_ a).
    + intros _. unfold total, pending. cbn. by rewrite map_text_snoc, Hx, <- !app_assoc.
Qed.

Lemma with_pc_step a p :
  ok a -> pc a <> Writing -> p <> Writing -> step_ok a 0 [] (mret (with_pc a p)).
Proof using Type.
  intros [Hc Hb Hn Hw Ht] Ha Hp. eexists. split; [done |]. split.
  - split; cbn; [done.. |]. destruct (pc a), p; done || exact Ht.
  - intros _. by rewrite app_nil_r.
Qed.

Lemma loop_head_step a : ok a -> pc a = AtLoop -> step_ok a 0 [] (loop_head a).
Proof using Hsize.
  intros Hok Hpc. pose proof Hok as [Hc Hb Hn Hw Ht]. rewrite Hpc in Ht.
  destruct Ht as (Hbw & (b1 & E1 & H1) & (b2 & E2 & H2)). unfold loop_head. rewrite E1, E2, Hbw.
  rewrite (empty_length _ H1), (empty_length _ H2). destruct (running_ a); rsimp.
  - apply with_pc_step; [done | by rewrite Hpc | done].
  - eexists. split; [done |]. split; [split; cbn; eauto 10 |]. intros _.
    unfold total, pending. cbn. by rewrite sink_flush_contents, Hbw, app_nil_r.
Qed.

Lemma swap_step a :
  ok a -> pc a = Woken \/ pc a = AtLock /\ buffers_ a <> [] -> step_ok a 0 [] (swap_buffers a).
Proof using Hsize.
  intros [Hc Hb Hn Hw Ht] Hpc.
  assert (Hl : buffersToWrite a = [] /\ (exists b, newBuffer1 a = Some b /\ empty b)
               /\ (exists b, newBuffer2 a = Some b /\ empty b)).
  { destruct Hpc as [Hpc | [Hpc _]]; by rewrite Hpc in Ht. }
  destruct Hl as (Hbw & (b1 & E1 & H1) & (b2 & E2 & H2)). unfold swap_buffers. rewrite E1.
  assert (Hall : Forall good (buffers_ a ++ [currentBuffer_ a])).
  { apply Forall_app. split; [done | by constructor]. }
  assert (Htot : forall (sh : Async), currentBuffer_ sh = b1 -> buffers_ sh = [] ->
      buffersToWrite sh = buffers_ a ++ [currentBuffer_ a] -> output sh = output a -> total sh = total a ++ []).
  { intros sh Hs1 Hs2 Hs3 Hs4. unfold total, pending. rewrite Hs1, Hs2, Hs3, Hs4, Hbw, (empty_text _ H1).
    rewrite map_text_snoc. cbn. by rewrite !app_nil_r. }
  rewrite Hbw. destruct (nextBuffer_ a) as [b |] eqn:En.
  - eexists. split; [done |]. split; [split; cbn | intros _; by apply Htot].
    + by apply empty_good.
    + constructor.
    + done.
    + done.
    + split; [done |]. split; [by destruct (buffers_ a) | by rewrite E2].
  - eexists. split; [done |]. split; [split; cbn | intros _; by apply Htot].
    + by apply empty_good.
    + constructor.
    + by rewrite E2.
    + done.
    + split; [done |]. split; [by destruct (buffers_ a) |]. rewrite length_app. cbn.
      destruct (buffers_ a); [done | cbn; lia].
Qed.

Lemma lock_step a : ok a -> pc a = AtLock -> step_ok a 0 [] (lock_section a).
Proof using Hsize.
  intros Hok Hpc. unfold lock_section. destruct (buffers_ a) as [| b bs] eqn:Eb.
  - by apply with_pc_step; [| rewrite Hpc |].
  - apply swap_step; [done |]. right. by rewrite Eb.
Qed.

Lemma write_all_ok bs : forall o,
  Forall good bs ->
  exists o', write_all bs o = Ok o' /\ sink_contents o' = sink_contents o ++ concat (map fb_text bs).
Proof using Hsize.
  induction bs as [| b bs IH]; intros o Hb; cbn [write_all map concat].
  - exists o. by rewrite app_nil_r.
  - apply Forall_cons in Hb as [Hb Hbs]. pose proof (asString_holds size Hsize _ _ Hb) as E.
    unfold asString in E. rewrite E. rsimp.
    destruct (sink_append_ok (fb_text b) o) as (o1 & -> & Ho1). rsimp.
    destruct (IH o1 Hbs) as (o' & -> & Ho'). exists o'. by rewrite Ho', Ho1, <- app_assoc.
Qed.

(** Recycling: two buffers when both are missing, else one. *)
Lemma take_back_ok nb bs :
  Forall good bs -> match nb with Some b => empty b | None => bs <> [] end ->
  exists b bs', take_back nb bs = Ok (Some b, bs') /\ empty b /\ Forall good bs'
    /\ length bs' = (length bs - match nb with Some _ => 0 | None => 1 end)%nat.
Proof using Hsize.
  intros Hbs Hn. unfold take_back. destruct nb as [b |].
  - exists b, bs. split_and!; [done.. | lia].
  - destruct (rev bs) as [| b r] eqn:E.
    + apply (f_equal (@rev FixedBuffer)) in E. by rewrite rev_involutive in E.
    + assert (bs = rev r ++ [b]) as -> by (rewrite <- (rev_involutive bs), E; done).
      apply Forall_app in Hbs as [Hr Hb]. apply Forall_cons in Hb as [Hb _].
      exists (reset b), (rev r). split_and!; [done | by apply reset_empty | done |].
      rewrite length_app. cbn. lia.
Qed.

Lemma write_step a : ok a -> pc a = Writing -> step_ok a (length (buffersToWrite a)) [] (write_out notice a).
Proof using Hsize.
  intros [Hc Hb Hn Hw Ht] Hpc. rewrite Hpc in Ht. destruct Ht as (E1 & Hne & H2). unfold write_out.
  step_assert; [by destruct (buffersToWrite a) |]. clear Hassert.
  assert (exists bs o, (if (25 <? length (buffersToWrite a))%nat
              then
                o ← sink_append (notice (Z.of_nat (length (buffersToWrite a)) - 2)) (output a);
                mret (take 2 (buffersToWrite a), o)
              else mret (buffersToWrite a, output a)) = Ok (bs, o)
          /\ Forall good bs /\ bs <> []
          /\ (newBuffer2 a = None -> (2 <= length bs)%nat)
          /\ ((length (buffersToWrite a) <= 25)%nat -> bs = buffersToWrite a /\ o = output a))
    as (bs & o & -> & Hg & Hnb & Hlen & Hsame).
  { destruct (Nat.ltb_spec 25 (length (buffersToWrite a))) as [Hov | Hov].
    - destruct (sink_append_ok (notice (Z.of_nat (length (buffersToWrite a)) - 2)) (output a)) as (o & -> & _).
      rsimp. eexists _, _. split; [done |]. split_and!.
      + by apply Forall_take.
      + by destruct (buffersToWrite a) as [| ? [|]].
      + intros _. rewrite length_take. lia.
      + lia.
    - eexists _, _. split; [done |]. split_and!; [done.. | |]; [| done]. intros E. by rewrite E in H2. }
  rsimp. destruct (write_all_ok bs o Hg) as (o1 & -> & Ho1). rsimp.
  set (bs2 := if (2 <? length bs)%nat then take 2 bs else bs).
  assert (Hg2 : Forall good bs2) by (unfold bs2; destruct (_ <? _)%nat; [by apply Forall_take | done]).
  assert (Hl2 : length bs2 = Nat.min 2 (length bs)).
  { unfold bs2. destruct (Nat.ltb_spec 2 (length bs)); [rewrite length_take |]; lia. }
  clearbody bs2.
  assert (Hlb : (1 <= length bs)%nat) by (destruct bs; [done | cbn; lia]).
  destruct (take_back_ok (newBuffer1 a) bs2 Hg2) as (n1 & bs3 & -> & Hn1 & Hg3 & Hl3).
  { rewrite E1. intros E. rewrite E in Hl2. cbn [length] in Hl2. lia. }
  rsimp. destruct (take_back_ok (newBuffer2 a) bs3 Hg3) as (n2 & bs4 & -> & Hn2 & _ & _).
  { rewrite E1 in Hl3. destruct (newBuffer2 a); [done |]. specialize (Hlen eq_refl).
    intros E. rewrite E in Hl3. cbn [length] in Hl3. lia. }
  rsimp. eexists. split; [done |]. split; [split; cbn; eauto 10 |]. intros En.
  destruct Hsame as [-> ->]; [done |]. unfold total, pending. cbn. rewrite sink_flush_contents, Ho1.
  by rewrite app_nil_r, <- !app_assoc.
Qed.

Lemma step_step l a : ok a -> step_ok a (found l a) (appended size [l]) (step size notice l a).
Proof using Hsize.
  intros H. unfold appended. cbn [map concat]. rewrite app_nil_r. destruct l as [line | | |]; cbn [step].
  - by apply append_step.
  - destruct H as [Hc Hb Hn Hw Ht]. eexists. split; [done |].
    split; [split; cbn; [done.. | by destruct (pc a)] |]. intros _. by rewrite app_nil_r.
  - unfold found. destruct (pc a) eqn:Hpc.
    + by apply loop_head_step.
    + by apply lock_step.
    + exists a. split; [done |]. split; [done |]. intros _. by rewrite app_nil_r.
    + apply swap_step; [done | by left].
    + by apply write_step.
    + exists a. split; [done |]. split; [done |]. intros _. by rewrite app_nil_r.
  - assert (Hsame : step_ok a 0 [] (mret a)).
    { exists a. split; [done |]. split; [done |]. intros _. by rewrite app_nil_r. }
    destruct (pc a) eqn:Hpc; try exact Hsame. apply with_pc_step; [done | by rewrite Hpc | done].
Qed.

Lemma run_ok ls : forall a, ok a -> step_ok a (most_found size notice ls a) (appended size ls) (run size notice ls a).
Proof using Hsize.
  induction ls as [| l ls IH]; intros a H; cbn [run].
  - exists a. split; [done |]. split; [done |]. intros _. by rewrite app_nil_r.
  - cbn [most_found]. destruct (step_step l a H) as (a1 & -> & H1 & Ht1). rsimp.
    destruct (IH a1 H1) as (a2 & -> & H2 & Ht2). exists a2. split; [done |]. split; [done |].
    intros E. rewrite Ht2, Ht1 by lia. unfold appended. cbn [map concat].
    by rewrite app_nil_r, <- app_assoc.
Qed.

Lemma start_ok o : ok (AsyncLogging_start size o).
Proof using Hsize.
  pose proof bzero_empty. split; cbn; [by apply empty_good | constructor | done | constructor |].
  split; [done |]. split; by eexists.
Qed.

(** Too many buffers: the notice and the first two are written. *)
Lemma overflow_step a : ok a -> pc a = Writing -> (25 < length (buffersToWrite a))%nat ->
  exists a', step size notice Thread a = Ok a'
    /\ sink_contents (output a') = sink_contents (output a)
         ++ notice (Z.of_nat (length (buffersToWrite a)) - 2) ++ concat (map fb_text (take 2 (buffersToWrite a)))
    /\ buffers_ a' = buffers_ a /\ currentBuffer_ a' = currentBuffer_ a.
Proof using Hsize.
  intros Hok Hpc Hov. destruct (write_step a Hok Hpc) as (a' & Hr & _). cbn [step]. rewrite Hpc. exists a'.
  split; [exact Hr |]. unfold write_out in Hr.
  rewrite (proj2 (Nat.ltb_lt _ _)) in Hr by done.
  destruct (sink_append_ok (notice (Z.of_nat (length (buffersToWrite a)) - 2)) (output a)) as (o & Eo & Ho).
  destruct (write_all_ok (take 2 (buffersToWrite a)) o) as (o1 & Eo1 & Ho1); [apply Forall_take, (ok_towrite _ _ Hok) |].
  rewrite Eo in Hr. cbn [mbind res_bind mret res_ret] in Hr. rewrite Eo1 in Hr. inv_res.
  destruct r1 as [n1 bs1]. inv_res. destruct r1 as [n2 bs2]. injection Hr as <-. cbn.
  by rewrite sink_flush_contents, Ho1, Ho, <- !app_assoc.
Qed.

(** C15: In every interleaving of the loggers, [stop] and the logging thread, no
    assertion fails and no moved-from buffer is used; and as long as no write
    finds more than 25 buffers, the file followed by what is still in the
    buffers is exactly the accepted lines (those shorter than a buffer), in the
    order in which the loggers took the lock: nothing is lost, repeated,
    reordered or mixed up.  A write that finds more leaves a notice and the first
    two buffers in the file and throws the others away.  The file is whatever
    keeps what it is given, as [LogFile] on a disk that is never full. *)
Theorem log_in_order o ls :
  exists a, run size notice ls (AsyncLogging_start size o) = Ok a
    /\ ((most_found size notice ls (AsyncLogging_start size o) <= 25)%nat ->
        sink_contents (output a) ++ pending a = sink_contents o ++ appended size ls)
    /\ (pc a = Writing -> (25 < length (buffersToWrite a))%nat ->
        exists a', step size notice Thread a = Ok a'
          /\ sink_contents (output a') = sink_contents (output a)
               ++ notice (Z.of_nat (length (buffersToWrite a)) - 2)
               ++ concat (map fb_text (take 2 (buffersToWrite a)))
          /\ buffers_ a' = buffers_ a /\ currentBuffer_ a' = currentBuffer_ a).
Proof using Hsize.
  destruct (run_ok ls _ (start_ok o)) as (a & E & Hok & Ht). exists a. split; [done |].
  split; [| by apply overflow_step].
  intros He. specialize (Ht He). unfold total at 1 in Ht. rewrite Ht. f_equal.
  unfold total, pending. cbn. rewrite (empty_text _ bzero_empty). by rewrite app_nil_r.
Qed.

Lemma write_out_frame a a' :
  write_out notice a = Ok a' -> (length (buffersToWrite a) <= 25)%nat ->
  currentBuffer_ a' = currentBuffer_ a /\ buffers_ a' = buffers_ a /\ buffersToWrite a' = []
  /\ running_ a' = running_ a /\ pc a' = AtLoop.
Proof using Type.
  unfold write_out. intros (? & _ & H)%bind_Ok Hl.
  rewrite (proj2 (Nat.ltb_ge _ _)) in H by lia. cbn [mbind res_bind mret res_ret] in H.
  apply bind_Ok in H as (o & _ & H). apply bind_Ok in H as ([n1 bs] & _ & H).
  apply bind_Ok in H as ([n2 bs'] & _ & H). by injection H as <-.
Qed.

(** [stop] while the logging thread is writing loses what has been logged
    since its last exchange of buffers: the thread leaves its loop without
    another one.  After a line that fits, [stop], and the thread's last two
    steps the thread is gone, and the line and all the text before it that was
    not being written are in no file. *)
Theorem stop_during_write_loses o ls a line :
  run size notice ls (AsyncLogging_start size o) = Ok a -> pc a = Writing ->
  (length (buffersToWrite a) <= 25)%nat -> zlen line < avail (currentBuffer_ a) ->
  exists a', run size notice [Append line; Stop; Thread; Thread] a = Ok a' /\ pc a' = Exited
    /\ sink_contents (output a') = sink_contents (output a) ++ concat (map fb_text (buffersToWrite a))
    /\ pending a' = concat (map fb_text (buffers_ a)) ++ fb_text (currentBuffer_ a) ++ line.
Proof using Hsize.
  intros Hrun Hpc Hl Hfit. destruct (run_ok ls _ (start_ok o)) as (a0 & E & Hok & _). rewrite Hrun in E.
  injection E as <-. pose proof (ok_current _ _ Hok) as Hc.
  destruct (append_good _ line Hc) as (b & Eb & Hg & Hx). rewrite (proj2 (Z.ltb_lt _ _) Hfit) in Hx.
  destruct (append_step a line Hok) as (a1 & E1 & H1 & _).
  unfold append in E1. rewrite (proj2 (Z.ltb_lt _ _) Hfit), Eb in E1. injection E1 as E1.
  destruct (step_step Stop a1 H1) as (a2 & E2 & H2 & _). injection E2 as E2.
  assert (pc a2 = Writing) as Hp2 by (subst a1 a2; cbn; by rewrite Hpc).
  destruct (write_step a2 H2 Hp2) as (a3 & E3 & H3 & Ht3).
  assert (Hf2 : buffers_ a2 = buffers_ a /\ currentBuffer_ a2 = b /\ buffersToWrite a2 = buffersToWrite a
                /\ output a2 = output a /\ running_ a2 = false) by by subst a1 a2.
  destruct Hf2 as (F1 & F2 & F3 & F4 & F5).
  destruct (write_out_frame a2 a3 E3) as (G1 & G2 & G3 & G4 & G5); [by rewrite F3 |].
  rewrite F3 in Ht3. specialize (Ht3 Hl). unfold total, pending in Ht3. rewrite G1, G2, G3, F1, F2, F3, F4, app_nil_r in Ht3.
  cbn [map concat app] in Ht3.
  rewrite (app_assoc (sink_contents (output a)) (concat (map fb_text (buffersToWrite a)))) in Ht3.
  apply app_inv_tail in Ht3.
  eexists. cbn [run step]. unfold append. rewrite (proj2 (Z.ltb_lt _ _) Hfit), Eb. rsimp.
  rewrite E1, E2, Hp2, E3. rsimp. rewrite G5. unfold loop_head. rewrite G4, F5. rsimp.
  split; [done |]. cbn. rewrite sink_flush_contents. split; [done |]. split; [exact Ht3 |].
  unfold pending. cbn. by rewrite G1, G2, G3, F1, F2, Hx.
Qed.
End async_correct.

(** ** The output is a [LogFile] *)

(** The log files of a disk that is never full, where they can be opened. *)
Record Disk : Type := {
  disk_time : nat -> Z;
  disk_fwrite : nat -> Z -> Z;
  disk_name : list byte -> Z -> list byte;
  disk_range k n : 0 <= n -> 0 <= disk_fwrite k n <= n;
  disk_progress k n : 0 < n -> 0 < disk_fwrite k n
}.

#[export] Instance LogFile_sink (d : Disk) : LogSink LogFile := {|
  sink_append := LogFile.append (disk_time d) (disk_fwrite d) (fun _ => true) (disk_name d);
  sink_flush := flush;
  sink_contents := contents;
  sink_append_ok := fun line l =>
    append_contents (disk_time d) (disk_fwrite d) (fun _ => true) (disk_name d) (disk_range d) line l
      (disk_progress d) (fun _ => eq_refl);
  sink_flush_contents := fun l => eq_refl
|}.

(** ** Concrete schedules, with buffers of eight bytes *)

Definition demo_disk : Disk.
Proof.
  refine {| disk_time := demo_time; disk_fwrite := fun _ n => n; disk_name := fun b _ => b |}; intros; lia.
Defined.
Definition demo_log : LogFile :=
  {| basename_ := bs "app"; rollSize_ := 1000; flushInterval_ := 3; count_ := 0; startOfPeriod_ := 0;
     lastRoll_ := 1; lastFlush_ := 1; closed := []; file_ := mkFile (bs "app") [] 0 0; times := 1; writes := 0 |}.
Definition demo_notice (_ : Z) : list byte := bs "dropped".

Definition demo_schedule : list label :=
  [Append (bs "abc"); Append (bs "defgh"); Thread; Thread; Append (bs "ij"); Thread; Append (bs "klmnop"); Thread; Thread].

Lemma log_in_order_witness :
  exists a, run (O := LogFile) (LogSink0 := LogFile_sink demo_disk) 8 demo_notice demo_schedule
              (AsyncLogging_start 8 demo_log) = Ok a
    /\ contents (output a) ++ pending a = bs "abcdefghijklmnop".
Proof.
  destruct (log_in_order (LogSink0 := LogFile_sink demo_disk) 8 demo_notice ltac:(lia) demo_log demo_schedule)
    as (a & E & H & _).
  exists a. split; [exact E |]. refine (eq_trans (H _) _); [apply Nat.leb_le; vm_compute; reflexivity | reflexivity].
Defined.

Definition demo_writing : Async :=
  match run (O := LogFile) (LogSink0 := LogFile_sink demo_disk) 8 demo_notice
          [Append (bs "abc"); Append (bs "defgh"); Thread; Thread; Append (bs "ij")] (AsyncLogging_start 8 demo_log) with
  | Ok a => a
  | Err _ => AsyncLogging_start 8 demo_log
  end.

Lemma stop_during_write_loses_witness :
  exists a', run (O := LogFile) (LogSink0 := LogFile_sink demo_disk) 8 demo_notice
               [Append (bs "kl"); Stop; Thread; Thread] demo_writing = Ok a' /\ pc a' = Exited
    /\ contents (output a') = bs "abcdefgh" /\ pending a' = bs "ijkl".
Proof.
  apply (stop_during_write_loses (LogSink0 := LogFile_sink demo_disk) 8 demo_notice ltac:(lia) demo_log
           [Append (bs "abc"); Append (bs "defgh"); Thread; Thread; Append (bs "ij")] demo_writing (bs "kl")).
  - vm_compute. reflexivity.
  - vm_compute. reflexivity.
  - apply Nat.leb_le. vm_compute. reflexivity.
  - vm_compute. reflexivity.
Defined.
