(* ===== verification/Mutex.v ===== *)
(** * Mutex: who holds the lock

    [base/Mutex.h], [Condition.h], [Condition.cc]: [MutexLock] writes down who
    holds it ([holder_]), so that [assertLocked] can check.  Between the
    assignment to [holder_] and the call of pthread other threads run, so each
    is a step of its own; [Condition::wait] gives the pthread mutex back and
    takes it again without touching [holder_].  [Monitor] takes critical
    sections as steps; that only one thread is in one is proved here. *)
From S2P Require Import Prelude.

(** ** The lock *)

(** Where a thread is; [Inside waited]: [lock] has returned, and the thread has
    called [wait] since. *)
Inductive point : Type :=
| Outside
| Locking                (* in [pthread_mutex_lock] *)
| Locked                 (* it has returned; [holder_] is not assigned yet *)
| Inside (waited : bool)
| Unlocking              (* [holder_ = 0] is done, [pthread_mutex_unlock] is not *)
| Waiting                (* asleep on a condition *)
| Waking.                (* woken, waiting for the mutex *)
#[export] Instance point_eq_dec : EqDecision point.
Proof. solve_decision. Defined.

(** [CurrentThread::tid()] of thread [i]: different from 0 and from others'. *)
Definition tid (i : nat) : Z := Z.of_nat i + 1.

(** [mutex_]: the owner, as pthread knows it. *)
(*@ muduo/muduo/base/Mutex.h 78-81 MutexLock *)
Record MutexLock : Type := mkLock { mutex_ : option nat; holder_ : Z }.
(*@ muduo/muduo/base/Mutex.h 22-28 MutexLock::MutexLock *)
Definition MutexLock_new : MutexLock := mkLock None 0.
(*@ muduo/muduo/base/Mutex.h 31-38 MutexLock::~MutexLock *)
Definition MutexLock_dtor (m : MutexLock) : res unit := assert_ (holder_ m =? 0).
(*@ muduo/muduo/base/Mutex.h 41-44 MutexLock::isLockedByThisThread *)
Definition isLockedByThisThread (i : nat) (m : MutexLock) : bool := holder_ m =? tid i.
(*@ muduo/muduo/base/Mutex.h 47-50 MutexLock::assertLocked *)
Definition assertLocked (i : nat) (m : MutexLock) : res unit := assert_ (isLockedByThisThread i m).

(** The pthread calls: locking blocks while there is an owner. *)
Definition pthread_mutex_lock (i : nat) (m : MutexLock) : option MutexLock :=
  match mutex_ m with None => Some (mkLock (Some i) (holder_ m)) | Some _ => None end.
Definition pthread_mutex_unlock (m : MutexLock) : MutexLock := mkLock None (holder_ m).
Definition set_holder (t : Z) (m : MutexLock) : MutexLock := mkLock (mutex_ m) t.

(** One step of thread [i], at [p]: where it is then, and the lock.  [None]: it
    cannot go on there.  [choice]: what the thread does next where that is the
    program's choice, unlock or wait. *)
Inductive action : Type := Lock | Unlock | Wait.

(*@ muduo/muduo/base/Mutex.h 55-60 MutexLock::lock *)
Definition lock (i : nat) (p : point) (m : MutexLock) : option (point * MutexLock) :=
  match p with
  | Outside => Some (Locking, m)
  | Locking => m ← pthread_mutex_lock i m; Some (Locked, m)
  | Locked => Some (Inside false, set_holder (tid i) m)
  | _ => None
  end.
(*@ muduo/muduo/base/Mutex.h 63-67 MutexLock::unlock *)
Definition unlock (p : point) (m : MutexLock) : option (point * MutexLock) :=
  match p with
  | Inside _ => Some (Unlocking, set_holder 0 m)
  | Unlocking => Some (Outside, pthread_mutex_unlock m)
  | _ => None
  end.
(** [pthread_cond_wait]; a thread may wake at any time. *)
(*@ muduo/muduo/base/Condition.h 35-38 Condition::wait *)
Definition wait (i : nat) (p : point) (m : MutexLock) : option (point * MutexLock) :=
  match p with
  | Inside _ => Some (Waiting, pthread_mutex_unlock m)
  | Waiting => Some (Waking, m)
  | Waking => m ← pthread_mutex_lock i m; Some (Inside true, m)
  | _ => None
  end.

Definition ETIMEDOUT : Z := 110.
(** [now] is what the clock reads, [timedwait] the call with its deadline. *)
(*@ muduo/muduo/base/Condition.cc 12-18 Condition::waitForSeconds *)
Definition waitForSeconds (now seconds : Z) (timedwait : Z -> Z) : bool :=
  ETIMEDOUT =? timedwait (now + seconds).

Definition act (a : action) (i : nat) (p : point) (m : MutexLock) : option (point * MutexLock) :=
  match a with Lock => lock i p m | Unlock => unlock p m | Wait => wait i p m end.

(** ** Threads *)

Record sys : Type := mkSys { the_lock : MutexLock; points : list point }.
Definition start (n : nat) : sys := mkSys MutexLock_new (replicate n Outside).

Inductive step : sys -> sys -> Prop :=
| step_act a i p p' m m' ps :
    ps !! i = Some p -> act a i p m = Some (p', m') -> step (mkSys m ps) (mkSys m' (<[i := p']> ps)).
Definition reachable (x : sys) : Prop := exists n, rtc step (start n) x.

(** Between the return of [pthread_mutex_lock] and the call of
    [pthread_mutex_unlock]. *)
Definition owning (p : point) : bool :=
  match p with Locked | Inside _ | Unlocking => true | _ => false end.
(** [holder_] may name a thread that is here. *)
Definition may_be_named (p : point) : bool :=
  match p with Inside _ | Waiting | Waking => true | _ => false end.

Record inv (x : sys) : Prop := {
  inv_owner i p : points x !! i = Some p -> owning p = true <-> mutex_ (the_lock x) = Some i;
  inv_named : holder_ (the_lock x) = 0
    \/ exists j p, holder_ (the_lock x) = tid j /\ points x !! j = Some p /\ may_be_named p = true;
  inv_inside i : points x !! i = Some (Inside false) -> holder_ (the_lock x) = tid i
}.

Lemma inv_start n : inv (start n).
Proof.
  split; cbn.
  - intros i p H. apply lookup_replicate in H as [-> _]. done.
  - by left.
  - intros i H. apply lookup_replicate in H as [? _]. done.
Qed.

Lemma tid_inj i j : tid i = tid j -> i = j.
Proof. unfold tid. lia. Qed.

(** A step changes the owner only by taking the free mutex or giving it back,
    and [holder_] only as the owner. *)
Lemma act_owner a i p p' m m' : act a i p m = Some (p', m') ->
  (owning p = true <-> mutex_ m = Some i) ->
  (owning p' = true <-> mutex_ m' = Some i)
  /\ (mutex_ m' = mutex_ m \/ (mutex_ m = None /\ mutex_ m' = Some i) \/ (mutex_ m = Some i /\ mutex_ m' = None)).
Proof.
  destruct m as [[o |] h], a, p; cbn; intros H [H1 H2]; simplify_eq; cbn; try specialize (H1 eq_refl); simplify_eq;
    (split; [by split | auto]).
Qed.
Lemma act_holder a i p p' m m' : act a i p m = Some (p', m') ->
  (holder_ m' = holder_ m /\ (may_be_named p = true -> may_be_named p' = true) /\ p' <> Inside false)
  \/ (owning p = true /\ holder_ m' = tid i /\ p' = Inside false)
  \/ (owning p = true /\ holder_ m' = 0 /\ p' = Unlocking).
Proof.
  destruct m as [[o |] h], a, p; cbn; intros H; simplify_eq; cbn; auto 10.
Qed.

Lemma inv_step x y : inv x -> step x y -> inv y.
Proof.
  intros [Ho Hn Hi] Hxy. destruct Hxy as [a i p p' m m' ps Hp Ha]. cbn [the_lock points] in *.
  pose proof (act_owner a i p p' m m' Ha (Ho i p Hp)) as [Hown Hm].
  pose proof (act_holder a i p p' m m' Ha) as Hh. pose proof (lookup_lt_Some _ _ _ Hp) as Hlt.
  split; cbn [the_lock points].
  - intros j q [[<- [<- _]] | [Hne Hq]]%list_lookup_insert_Some; [done |]. rewrite (Ho j q Hq).
    destruct Hm as [-> | [[-> ->] | [-> ->]]]; [done | |]; split; congruence.
  - destruct Hh as [(-> & Hk & _) | [(_ & -> & ->) | (_ & -> & _)]]; [| right | by left].
    + destruct Hn as [? | (j & q & Hj & Hq & Hnm)]; [by left | right]. destruct (decide (i = j)) as [<- | Hne].
      * simplify_eq. exists i, p'. rewrite list_lookup_insert_eq by done. auto.
      * exists j, q. by rewrite list_lookup_insert_ne.
    + exists i, (Inside false). by rewrite list_lookup_insert_eq.
  - intros j [[<- [-> _]] | [Hne Hq]]%list_lookup_insert_Some.
    + by destruct Hh as [(_ & _ & ?) | [(_ & ? & _) | (_ & _ & ?)]].
    + pose proof (proj1 (Ho j _ Hq) eq_refl) as Hmj.
      destruct Hh as [(-> & _) | [(Hown' & _) | (Hown' & _)]]; [by apply Hi | |];
        apply (Ho i p Hp) in Hown'; congruence.
Qed.
Lemma lock_reachable_inv x : reachable x -> inv x.
Proof.
  intros [n H]. pose proof (inv_start n) as H0. revert H0. induction H as [| x y z Hxy _ IH]; [done |].
  intros Hx. by apply IH, (inv_step x).
Qed.

(** In every interleaving, with waits and spurious wake-ups: at most one thread
    is between the return of [lock] and the call of [unlock]; one that is there
    and has not waited since finds that it holds the lock; one that has not
    called [lock], or has called [unlock], finds that it does not; and when all
    threads are outside, the lock can be destroyed. *)
Theorem lock_is_exclusive x : reachable x ->
  (forall i j p q, points x !! i = Some p -> points x !! j = Some q -> owning p = true -> owning q = true -> i = j)
  /\ (forall i, points x !! i = Some (Inside false) -> assertLocked i (the_lock x) = Ok tt)
  /\ (forall i p, points x !! i = Some p -> may_be_named p = false -> isLockedByThisThread i (the_lock x) = false)
  /\ (Forall (eq Outside) (points x) -> MutexLock_dtor (the_lock x) = Ok tt).
Proof.
  intros Hx. destruct (lock_reachable_inv x Hx) as [Ho Hn Hi]. split_and!.
  - intros i j p q Hp Hq H1%(Ho i p Hp) H2%(Ho j q Hq). congruence.
  - intros i Hp. unfold assertLocked, isLockedByThisThread. by rewrite (Hi i Hp), Z.eqb_refl.
  - intros i p Hp Hnm. unfold isLockedByThisThread. apply Z.eqb_neq. intros Heq.
    destruct Hn as [Hz | (j & q & Hj & Hq & Hnq)]; [unfold tid in Heq; lia |].
    rewrite Hj in Heq. apply tid_inj in Heq as ->. congruence.
  - intros Hall. unfold MutexLock_dtor. destruct Hn as [-> | (j & q & Hj & Hq & Hnq)]; [done |].
    rewrite Forall_lookup in Hall. apply Hall in Hq as <-. done.
Qed.

(** *** What [wait] leaves behind *)

(** The steps of thread [i], one action each. *)
Fixpoint run (sched : list (action * nat)) (x : sys) : option sys :=
  match sched with
  | [] => Some x
  | (a, i) :: sched =>
      p ← points x !! i;
      '(p', m') ← act a i p (the_lock x);
      run sched (mkSys m' (<[i := p']> (points x)))
  end.
Lemma run_rtc sched : forall x y, run sched x = Some y -> rtc step x y.
Proof.
  induction sched as [| [a i] sched IH]; intros [m ps] y; cbn [run the_lock points]; [by intros [= <-] |].
  destruct (ps !! i) as [p |] eqn:Hp; [| done]. simpl. destruct (act a i p m) as [[p' m'] |] eqn:Ha; [| done].
  simpl. intros H. eapply rtc_l; [by apply (step_act a i p p') | by apply IH].
Qed.

(** Thread 0 waits, thread 1 takes the lock and gives it back, thread 0 wakes. *)
Definition wait_history : list (action * nat) :=
  [(Lock, 0%nat); (Lock, 0%nat); (Lock, 0%nat); (Wait, 0%nat);
   (Lock, 1%nat); (Lock, 1%nat); (Lock, 1%nat); (Unlock, 1%nat); (Unlock, 1%nat);
   (Wait, 0%nat); (Wait, 0%nat)].

(** [wait] does not restore [holder_]: after another thread has used the lock in
    between, the thread that waited owns the mutex, alone, and [assertLocked]
    fails for it. *)
Theorem assertLocked_after_wait_fails :
  exists x, reachable x /\ points x !! 0%nat = Some (Inside true) /\ mutex_ (the_lock x) = Some 0%nat
    /\ assertLocked 0 (the_lock x) = Err AssertFail.
Proof.
  destruct (run wait_history (start 2)) as [x |] eqn:E; [| by vm_compute in E].
  exists x. split; [exists 2%nat; by apply (run_rtc wait_history) |].
  vm_compute in E. injection E as <-. done.
Qed.

(** And while it is asleep it is still named, so that it may be named when
    another thread that waited is inside. *)
Theorem sleeper_named_while_another_inside :
  exists x, reachable x /\ points x !! 0%nat = Some Waiting /\ points x !! 1%nat = Some (Inside true)
    /\ isLockedByThisThread 0 (the_lock x) = true.
Proof.
  destruct (run [(Lock, 1%nat); (Lock, 1%nat); (Lock, 1%nat); (Wait, 1%nat);
                 (Lock, 0%nat); (Lock, 0%nat); (Lock, 0%nat); (Wait, 0%nat);
                 (Wait, 1%nat); (Wait, 1%nat)] (start 2)) as [x |] eqn:E; [| by vm_compute in E].
  exists x. split; [exists 2%nat; by eapply run_rtc |]. vm_compute in E. injection E as <-. done.
Qed.

Lemma lock_is_exclusive_witness :
  reachable (start 3)
  /\ (Forall (eq Outside) (points (start 3)) -> MutexLock_dtor (the_lock (start 3)) = Ok tt).
Proof.
  assert (H : reachable (start 3)) by (exists 3%nat; constructor).
  split; [exact H |]. apply (lock_is_exclusive (start 3) H).
Defined.
