(* ===== verification/Monitor.v ===== *)
(** * Monitor: a mutex, condition variables and threads

    What [Mutex.h] and [Condition.h] give the blocking containers.  An
    operation's critical section is [while (guard) cond.wait();] followed by a
    body that may notify: given the shared state it either blocks on a
    condition or returns.  The mutex makes each run of it a step; everything
    else (who enters next, whom a notification wakes, spurious wake-ups) is
    left open, so a step relation has all the interleavings. *)
From S2P Require Import Prelude.

(*@ muduo/muduo/base/Condition.h 45-54 Condition::notify *)
Inductive signal (C : Type) : Type :=
| Signal (c : C)
| Broadcast (c : C).
Arguments Signal {C} c.
Arguments Broadcast {C} c.

Section monitor.
Context {St Op R C : Type} `{!EqDecision C}.

Inductive outcome : Type :=
| Block (c : C)
| Return (s : St) (r : R) (sig : list (signal C)).

(** A thread outside the monitor, one that wants the mutex for an operation,
    and one that sleeps in [Condition::wait]. *)
(*@ muduo/muduo/base/Condition.h 35-38 Condition::wait *)
Inductive thread : Type :=
| Idle
| Ready (op : Op)
| Asleep (op : Op) (c : C).

Definition asleep_on (c : C) (t : thread) : Prop :=
  match t with Asleep _ c' => c' = c | _ => False end.
#[export] Instance asleep_on_dec c t : Decision (asleep_on c t).
Proof using Type*. destruct t; cbn; solve_decision. Defined.

Definition wake (c : C) (t : thread) : thread :=
  match t with
  | Asleep op c' => if decide (c' = c) then Ready op else t
  | _ => t
  end.

(** [pthread_cond_signal] wakes one of the sleepers, if there is any;
    [pthread_cond_broadcast] all of them. *)
Inductive notify : list (signal C) -> list thread -> list thread -> Prop :=
| notify_nil ths : notify [] ths ths
| notify_none c sig ths ths' :
    Forall (fun t => ~ asleep_on c t) ths -> notify sig ths ths' -> notify (Signal c :: sig) ths ths'
| notify_one c sig ths i op ths' :
    ths !! i = Some (Asleep op c) -> notify sig (<[i := Ready op]> ths) ths' ->
    notify (Signal c :: sig) ths ths'
| notify_all c sig ths ths' :
    notify sig (map (wake c) ths) ths' -> notify (Broadcast c :: sig) ths ths'.

(** The operations that have completed, in the order of their critical
    sections. *)
Record sys : Type := mkSys {
  shared : St;
  threads : list thread;
  history : list (Op * R)
}.

Context (attempt : Op -> St -> outcome).

Inductive mstep : sys -> sys -> Prop :=
| step_call s ths h i op :
    ths !! i = Some Idle -> mstep (mkSys s ths h) (mkSys s (<[i := Ready op]> ths) h)
| step_block s ths h i op c :
    ths !! i = Some (Ready op) -> attempt op s = Block c ->
    mstep (mkSys s ths h) (mkSys s (<[i := Asleep op c]> ths) h)
| step_return s ths h i op s' r sig ths' :
    ths !! i = Some (Ready op) -> attempt op s = Return s' r sig ->
    notify sig (<[i := Idle]> ths) ths' ->
    mstep (mkSys s ths h) (mkSys s' ths' (h ++ [(op, r)]))
| step_wake s ths h i op c :
    ths !! i = Some (Asleep op c) -> mstep (mkSys s ths h) (mkSys s (<[i := Ready op]> ths) h).

(** A number of threads that have not called anything. *)
Definition start (s : St) (n : nat) : sys := mkSys s (replicate n Idle) [].
Definition reachable (s0 : St) (x : sys) : Prop := exists n, rtc mstep (start s0 n) x.

Lemma reachable_ind (P : sys -> Prop) s0 :
  (forall n, P (start s0 n)) -> (forall x y, P x -> mstep x y -> P y) ->
  forall x, reachable s0 x -> P x.
Proof using Type.
  intros H0 Hs x [n H]. specialize (H0 n). revert H0. induction H as [| x y z Hxy _ IH]; [done |].
  intros Hx. apply IH. by eapply Hs.
Qed.

(** Where the shared state comes from: the completed operations, one after the
    other. *)
Inductive runs : St -> list (Op * R) -> St -> Prop :=
| runs_nil s : runs s [] s
| runs_snoc s h s1 op r sig s2 :
    runs s h s1 -> attempt op s1 = Return s2 r sig -> runs s (h ++ [(op, r)]) s2.

Lemma reachable_runs s0 x : reachable s0 x -> runs s0 (history x) (shared x).
Proof using Type.
  revert x. apply reachable_ind; [constructor |].
  intros x y Hx Hxy. destruct Hxy; cbn in *; [done.. | | done]. by eapply runs_snoc.
Qed.

(** ** Counting threads *)

Definition count (P : thread -> Prop) `{!forall t, Decision (P t)} (ths : list thread) : nat :=
  length (filter P ths).

Lemma count_insert (P : thread -> Prop) `{!forall t, Decision (P t)} ths i t t' :
  ths !! i = Some t ->
  (count P (<[i := t']> ths) + (if decide (P t) then 1 else 0)
   = count P ths + (if decide (P t') then 1 else 0))%nat.
Proof using Type.
  intros Hi. unfold count. rewrite insert_take_drop by (by eapply lookup_lt_Some).
  rewrite <- (take_drop_middle ths i t Hi) at 3.
  rewrite !filter_app, !filter_cons, !length_app.
  destruct (decide (P t)), (decide (P t')); cbn [length]; lia.
Qed.

Lemma count_zero (P : thread -> Prop) `{!forall t, Decision (P t)} ths :
  Forall (fun t => ~ P t) ths -> count P ths = 0%nat.
Proof using Type. intros Hall. unfold count. by rewrite filter_none. Qed.

Lemma count_pos (P : thread -> Prop) `{!forall t, Decision (P t)} ths i t :
  ths !! i = Some t -> P t -> (0 < count P ths)%nat.
Proof using Type.
  intros Hi Hp. assert (t ∈ filter P ths) as Hin.
  { apply list_elem_of_filter. split; [done |]. by eapply list_elem_of_lookup_2. }
  unfold count. destruct (filter P ths); [by apply elem_of_nil in Hin | cbn; lia].
Qed.

(** How often a condition is signalled. *)
Fixpoint signals (c : C) (sig : list (signal C)) : nat :=
  match sig with
  | Signal c' :: sig => (if decide (c' = c) then 1 else 0) + signals c sig
  | Broadcast _ :: sig => signals c sig
  | [] => 0
  end.

(** ** Monitors whose conditions count

    [room c s]: how many of the operations that wait on [c] could go through
    in state [s]; [closed c s]: all of them could, from then on. *)
Class Counting : Type := {
  kind : Op -> option C;
  room : C -> St -> nat;
  closed : C -> St -> bool;
  blocks_empty op s c : attempt op s = Block c -> kind op = Some c /\ room c s = 0%nat /\ closed c s = false;
  returns_room op s s' r sig c :
    attempt op s = Return s' r sig ->
    if closed c s' then closed c s = true \/ Broadcast c ∈ sig
    else closed c s = false /\ (Broadcast c ∉ sig)
         /\ (room c s' + (if decide (kind op = Some c) then 1 else 0) <= room c s + signals c sig)%nat
}.

Definition ready_on `{!Counting} (c : C) (t : thread) : Prop :=
  match t with Ready op => kind op = Some c | _ => False end.
#[export] Instance ready_on_dec `{!Counting} c t : Decision (ready_on c t).
Proof using Type*. destruct t; cbn; solve_decision. Defined.

(** Nobody sleeps on a condition that is closed; and nobody sleeps on one on
    which operations could go through, unless enough of these are on their way
    to the mutex. *)
Definition awake `{!Counting} (x : sys) : Prop := forall c,
  (0 < count (asleep_on c) (threads x))%nat ->
  closed c (shared x) = false
  /\ (room c (shared x) <= count (ready_on c) (threads x))%nat.

(** Every sleeping thread of a condition has an operation of its kind. *)
Definition kinds `{!Counting} (ths : list thread) : Prop :=
  Forall (fun t => match t with Asleep op c => kind op = Some c | _ => True end) ths.

Lemma kinds_insert `{!Counting} ths i t :
  kinds ths -> match t with Asleep op c => kind op = Some c | _ => True end -> kinds (<[i := t]> ths).
Proof using Type. intros Hk Ht. by apply Forall_insert. Qed.

Lemma kinds_wake `{!Counting} c ths : kinds ths -> kinds (map (wake c) ths).
Proof using Type.
  intros Hk. apply Forall_map. eapply Forall_impl; [exact Hk |]. intros [| op | op c'] Ht; [done.. |].
  cbn [wake]. by destruct (decide (c' = c)).
Qed.

Lemma notify_kinds `{!Counting} sig ths ths' : notify sig ths ths' -> kinds ths -> kinds ths'.
Proof using Type.
  induction 1 as [| | c sig ths i op ths' Hi Hn IH | c sig ths ths' Hn IH]; intros Hk; [done | auto | |].
  - apply IH. by apply kinds_insert.
  - apply IH. by apply kinds_wake.
Qed.

(** A broadcast on another condition changes nothing for this one. *)
Lemma count_wake `{!Counting} c c' ths :
  kinds ths -> c' <> c ->
  count (asleep_on c) (map (wake c') ths) = count (asleep_on c) ths
  /\ count (ready_on c) (map (wake c') ths) = count (ready_on c) ths.
Proof using Type.
  intros Hk Hne. unfold count. induction Hk as [| t ths Ht Hk [IH1 IH2]]; [done |].
  cbn [map]. rewrite !filter_cons. destruct t as [| op | op c2]; cbn [wake].
  - destruct (decide (asleep_on c Idle)), (decide (ready_on c Idle)); done.
  - destruct (decide (asleep_on c (Ready op))); [done |].
    destruct (decide (ready_on c (Ready op))); cbn [length]; rewrite ?IH1, ?IH2; done.
  - destruct (decide (c2 = c')) as [-> | Hne2].
    + cbn [asleep_on ready_on].
      destruct (decide False), (decide (c' = c)), (decide (kind op = Some c)); congruence || done.
    + destruct (decide (asleep_on c (Asleep op c2))), (decide (ready_on c (Asleep op c2))); cbn [length]; by rewrite ?IH1, ?IH2.
Qed.

Lemma notify_no_sleepers sig ths ths' c :
  notify sig ths ths' -> count (asleep_on c) ths = 0%nat -> count (asleep_on c) ths' = 0%nat.
Proof using Type.
  induction 1 as [| | c1 sig ths i op ths' Hi Hn IH | c1 sig ths ths' Hn IH]; intros Hz; [done | auto | |].
  - apply IH. pose proof (count_insert (asleep_on c) ths i _ (Ready op) Hi) as Hc. cbn [asleep_on] in Hc.
    destruct (decide False); [done |]. destruct (decide (c1 = c)); lia.
  - apply IH. clear -Hz. unfold count in *. induction ths as [| t ths IH]; [done |]. cbn [map]. rewrite filter_cons in *.
    destruct (decide (asleep_on c t)) as [Ht | Ht]; [done |]. specialize (IH Hz).
    destruct (decide (asleep_on c (wake c1 t))) as [Hw |]; [| done]. exfalso.
    destruct t as [| op | op c2]; cbn [wake] in Hw; [done.. |]. by destruct (decide (c2 = c1)).
Qed.

Lemma wake_no_sleepers c ths : count (asleep_on c) (map (wake c) ths) = 0%nat.
Proof using Type.
  apply count_zero, Forall_map, Forall_forall. intros [| op | op c'] _; cbn; [by intros [] .. |].
  destruct (decide (c' = c)) as [| Hne]; [by intros [] | done].
Qed.

Lemma notify_broadcast sig ths ths' c :
  notify sig ths ths' -> Broadcast c ∈ sig -> count (asleep_on c) ths' = 0%nat.
Proof using Type.
  induction 1 as [| c1 sig ths ths' Hno Hn IH | c1 sig ths i op ths' Hi Hn IH | c1 sig ths ths' Hn IH]; intros Hin.
  - by apply elem_of_nil in Hin.
  - apply elem_of_cons in Hin as [? | ?]; [done | auto].
  - apply elem_of_cons in Hin as [? | ?]; [done | auto].
  - apply elem_of_cons in Hin as [[= <-] | ?]; [| auto].
    eapply notify_no_sleepers; [exact Hn | apply wake_no_sleepers].
Qed.

(** Notifying keeps the balance: [k] is the room covered so far, the signals
    still to be delivered cover the rest. *)
Lemma notify_awake `{!Counting} sig ths ths' (c : C) :
  notify sig ths ths' -> kinds ths -> Broadcast c ∉ sig ->
  forall k, ((0 < count (asleep_on c) ths)%nat -> (k <= count (ready_on c) ths)%nat) ->
  (0 < count (asleep_on c) ths')%nat -> (k + signals c sig <= count (ready_on c) ths')%nat.
Proof using Type.
  induction 1 as [ths | c' sig ths ths' Hno Hn IH | c' sig ths i op ths' Hi Hn IH | c' sig ths ths' Hn IH];
    intros Hk Hsig k Hb Hp; cbn [signals].
  - specialize (Hb Hp). lia.
  - apply not_elem_of_cons in Hsig as [_ Hsig].
    destruct (decide (c' = c)) as [-> | Hne]; [| by apply IH].
    specialize (IH Hk Hsig (S k)). enough (S k + signals c sig <= count (ready_on c) ths')%nat by lia.
    apply IH; [| done]. intros Hp'. rewrite count_zero in Hp' by done. lia.
  - apply not_elem_of_cons in Hsig as [_ Hsig].
    pose proof (proj1 (Forall_lookup _ _) Hk _ _ Hi) as Hki. cbn in Hki.
    pose proof (count_insert (asleep_on c) ths i _ (Ready op) Hi) as Ha.
    pose proof (count_insert (ready_on c) ths i _ (Ready op) Hi) as Hr.
    assert (Hk1 : kinds (<[i := Ready op]> ths)) by by apply kinds_insert.
    cbn [asleep_on ready_on] in Ha, Hr.
    assert (Hr' : count (ready_on c) (<[i := Ready op]> ths)
                  = (count (ready_on c) ths + if decide (c' = c) then 1 else 0)%nat).
    { destruct (decide (c' = c)) as [-> |], (decide False), (decide (kind op = Some c)); try lia; congruence. }
    destruct (decide (c' = c)) as [-> | Hne], (decide False); try done.
    + enough (S k + signals c sig <= count (ready_on c) ths')%nat by lia.
      apply IH; [done.. | | done]. intros Hp'. specialize (Hb ltac:(lia)). lia.
    + apply IH; [done.. | | done]. intros Hp'. rewrite Hr', Nat.add_0_r. apply Hb. lia.
  - apply not_elem_of_cons in Hsig as [Hne Hsig].
    assert (c' <> c) as Hne' by congruence. destruct (count_wake c c' ths Hk Hne') as [E1 E2].
    apply IH; [by apply kinds_wake | done | | done]. by rewrite E1, E2.
Qed.

Lemma mstep_awake `{!Counting} x y :
  kinds (threads x) -> awake x -> mstep x y -> kinds (threads y) /\ awake y.
Proof using Type.
  intros Hk Ha Hxy. unfold awake in *.
  destruct Hxy as [s ths h i op Hi | s ths h i op c Hi Hat | s ths h i op s' r sig ths' Hi Hat Hn | s ths h i op c Hi];
    cbn [shared threads] in *.
  - split; [by apply kinds_insert |]. intros c.
    pose proof (count_insert (asleep_on c) ths i _ (Ready op) Hi) as H1.
    pose proof (count_insert (ready_on c) ths i _ (Ready op) Hi) as H2. cbn [asleep_on ready_on] in H1, H2.
    destruct (decide False); [done |]. intros Hp. destruct (Ha c) as [Hcl Hro]; [lia |].
    split; [done |]. destruct (decide (kind op = Some c)); lia.
  - destruct (blocks_empty op s c Hat) as (Hop & Hr & Hcl). split; [by apply kinds_insert |]. intros c'.
    pose proof (count_insert (asleep_on c') ths i _ (Asleep op c) Hi) as H1.
    pose proof (count_insert (ready_on c') ths i _ (Asleep op c) Hi) as H2. cbn [asleep_on ready_on] in H1, H2.
    destruct (decide False); [done |]. intros Hp. destruct (decide (c = c')) as [-> |]; [split; [done | lia] |].
    destruct (Ha c') as [Hcl' Hro]; [lia |]. split; [done |].
    destruct (decide (kind op = Some c')); [congruence | lia].
  - assert (Hk1 : kinds (<[i := Idle]> ths)) by by apply kinds_insert.
    split; [by eapply notify_kinds |]. intros c Hp.
    pose proof (returns_room op s s' r sig c Hat) as Hroom.
    pose proof (count_insert (asleep_on c) ths i _ Idle Hi) as H1.
    pose proof (count_insert (ready_on c) ths i _ Idle Hi) as H2. cbn [asleep_on ready_on] in H1, H2.
    destruct (decide False); [done |]. destruct (closed c s') eqn:Ecl.
    + exfalso. destruct Hroom as [Hcl | Hbc].
      * destruct (count (asleep_on c) (<[i := Idle]> ths)) eqn:Ez.
        -- rewrite (notify_no_sleepers _ _ _ c Hn Ez) in Hp. lia.
        -- destruct (Ha c) as [Hcl' _]; [lia | congruence].
      * rewrite (notify_broadcast _ _ _ c Hn Hbc) in Hp. lia.
    + destruct Hroom as (Hcl & Hbc & Hroom). split; [done |].
      enough (room c s - (if decide (kind op = Some c) then 1 else 0) + signals c sig <= count (ready_on c) ths')%nat.
      { destruct (decide (kind op = Some c)); lia. }
      apply (notify_awake sig _ _ c Hn Hk1 Hbc); [| done].
      intros Hp1. destruct (Ha c) as [_ Hro]; [lia |]. destruct (decide (kind op = Some c)); lia.
  - split; [by apply kinds_insert |]. intros c'.
    pose proof (count_insert (asleep_on c') ths i _ (Ready op) Hi) as H1.
    pose proof (count_insert (ready_on c') ths i _ (Ready op) Hi) as H2. cbn [asleep_on ready_on] in H1, H2.
    destruct (decide False); [done |]. intros Hp. destruct (Ha c') as [Hcl Hro]; [lia |]. split; [done |].
    destruct (decide (c = c')), (decide (kind op = Some c')); lia.
Qed.

(** No wake-up is lost, in any interleaving. *)
Lemma reachable_awake `{!Counting} s0 x : reachable s0 x -> awake x.
Proof using Type.
  intros Hx. cut (kinds (threads x) /\ awake x); [by intros [_ ?] |]. revert x Hx. apply reachable_ind.
  - intros n. split; [by apply Forall_replicate |]. intros c Hp. exfalso. revert Hp.
    rewrite count_zero; [cbn; lia |]. apply Forall_replicate. by intros [].
  - intros x y [Hk Ha] Hxy. by apply mstep_awake with x.
Qed.
End monitor.
