(* ===== verification/Queues.v ===== *)
(** * Queues: the blocking containers of [muduo/base]

    [BlockingQueue.h], [BoundedBlockingQueue.h] and [CountDownLatch.h]/[.cc],
    each an instance of [Monitor]: its operations' critical sections on its
    state, the conditions they wait on and signal. *)
From S2P Require Import Prelude Monitor.

(** What an operation of a queue gives back. *)
Inductive result (T : Type) : Type :=
| Done
| Value (x : T)
| Number (n : Z).
Arguments Done {T}.
Arguments Value {T} x.
Arguments Number {T} n.

Inductive queue_op (T : Type) : Type :=
| Put (x : T)
| Take
| Size.
Arguments Put {T} x.
Arguments Take {T}.
Arguments Size {T}.

(** The values put and taken by a history. *)
Definition puts {T} (h : list (queue_op T * result T)) : list T :=
  omap (fun e => match e with (Put x, _) => Some x | _ => None end) h.
Definition takes {T} (h : list (queue_op T * result T)) : list T :=
  omap (fun e => match e with (Take, Value x) => Some x | _ => None end) h.

(** The arithmetic of [returns_room]. *)
Ltac room_arith := rewrite ?length_app; cbn [signals length]; repeat case_decide; simplify_eq; lia.

(** No broadcast in a given list of signals. *)
Ltac no_broadcast := rewrite ?not_elem_of_cons; repeat split; done || (intros Hin; by apply elem_of_nil in Hin).

(** ** BlockingQueue *)

Inductive bq_condition : Type := bq_notEmpty.
#[export] Instance bq_condition_dec : EqDecision bq_condition.
Proof. solve_decision. Defined.

Section blocking.
Context {T : Type}.

(*@ muduo/muduo/base/BlockingQueue.h 34-39 BlockingQueue::put *)
Definition bq_put (x : T) (queue_ : list T) : outcome (St := list T) (R := result T) (C := bq_condition) :=
  Return (queue_ ++ [x]) Done [Signal bq_notEmpty].

(*@ muduo/muduo/base/BlockingQueue.h 42-56 BlockingQueue::take *)
Definition bq_take (queue_ : list T) : outcome (St := list T) (R := result T) (C := bq_condition) :=
  match queue_ with
  | [] => Block bq_notEmpty
  | front :: queue_ => Return queue_ (Value front) []
  end.

(*@ muduo/muduo/base/BlockingQueue.h 59-63 BlockingQueue::size *)
Definition bq_size (queue_ : list T) : outcome (St := list T) (R := result T) (C := bq_condition) :=
  Return queue_ (Number (zlen queue_)) [].

(*@ muduo/muduo/base/BlockingQueue.h 67-71 BlockingQueue *)
Definition bq (op : queue_op T) (queue_ : list T) : outcome (St := list T) (R := result T) (C := bq_condition) :=
  match op with Put x => bq_put x queue_ | Take => bq_take queue_ | Size => bq_size queue_ end.

#[export] Instance bq_counting : Counting bq.
Proof.
  refine {| kind := fun op => match op with Take => Some bq_notEmpty | _ => None end;
            room := fun _ queue_ => length queue_; closed := fun _ _ => false |}.
  - intros [x | |] s c H; [done | | done]. unfold bq, bq_take in H. destruct s; [| done]. by injection H as <-.
  - intros [x | |] s s' r sig [] H; unfold bq, bq_put, bq_take, bq_size in H; [| destruct s; [done |] |];
      injection H as <- <- <-; (split; [done |]); (split; [no_broadcast | room_arith]).
Defined.
End blocking.

(** ** BoundedBlockingQueue *)

Inductive bbq_condition : Type := bbq_notEmpty | bbq_notFull.
#[export] Instance bbq_condition_dec : EqDecision bbq_condition.
Proof. solve_decision. Defined.

Section bounded.
Context {T : Type}.
(** The capacity of the [circular_buffer], fixed by the constructor. *)
Context (maxSize : nat).

Definition full (queue_ : list T) : bool := (maxSize <=? length queue_)%nat.

(*@ muduo/muduo/base/BoundedBlockingQueue.h 33-44 BoundedBlockingQueue::put *)
Definition bbq_put (x : T) (queue_ : list T) : outcome (St := list T) (R := result T) (C := bbq_condition) :=
  if full queue_ then Block bbq_notFull
  else Return (queue_ ++ [x]) Done [Signal bbq_notEmpty].

(*@ muduo/muduo/base/BoundedBlockingQueue.h 47-60 BoundedBlockingQueue::take *)
Definition bbq_take (queue_ : list T) : outcome (St := list T) (R := result T) (C := bbq_condition) :=
  match queue_ with
  | [] => Block bbq_notEmpty
  | front :: queue_ => Return queue_ (Value front) [Signal bbq_notFull]
  end.

(*@ muduo/muduo/base/BoundedBlockingQueue.h 63-87 BoundedBlockingQueue::size *)
Definition bbq_size (queue_ : list T) : outcome (St := list T) (R := result T) (C := bbq_condition) :=
  Return queue_ (Number (zlen queue_)) [].

(*@ muduo/muduo/base/BoundedBlockingQueue.h 91-97 BoundedBlockingQueue *)
Definition bbq (op : queue_op T) (queue_ : list T) : outcome (St := list T) (R := result T) (C := bbq_condition) :=
  match op with Put x => bbq_put x queue_ | Take => bbq_take queue_ | Size => bbq_size queue_ end.

#[export] Instance bbq_counting : Counting bbq.
Proof.
  refine {| kind := fun op => match op with
                              | Put _ => Some bbq_notFull | Take => Some bbq_notEmpty | Size => None
                              end;
            room := fun c queue_ => match c with
                                    | bbq_notEmpty => length queue_
                                    | bbq_notFull => (maxSize - length queue_)%nat
                                    end;
            closed := fun _ _ => false |}.
  - intros [x | |] s c H; unfold bbq, bbq_put, bbq_take, full in H; [| | done].
    + destruct (Nat.leb_spec maxSize (length s)); [| done]. injection H as <-. split_and!; [done | lia | done].
    + destruct s; [| done]. by injection H as <-.
  - intros [x | |] s s' r sig c H; unfold bbq, bbq_put, bbq_take, bbq_size, full in H;
      [destruct (Nat.leb_spec maxSize (length s)); [done |] | destruct s; [done |] |];
      injection H as <- <- <-; (split; [done |]); (split; [no_broadcast | destruct c; room_arith]).
Defined.
End bounded.

(** ** CountDownLatch *)

Inductive latch_op : Type := WaitZero | CountDown | GetCount.

(** [None] for the operations that return nothing. *)
(*@ muduo/muduo/base/CountDownLatch.cc 20-26 CountDownLatch::wait *)
Definition latch_wait (count_ : Z) : outcome (St := Z) (R := option Z) (C := unit) :=
  if 0 <? count_ then Block tt else Return count_ (None : option Z) [].

(*@ muduo/muduo/base/CountDownLatch.cc 29-37 CountDownLatch::countDown *)
Definition latch_countDown (count_ : Z) : outcome (St := Z) (R := option Z) (C := unit) :=
  let count_ := count_ - 1 in
  Return count_ (None : option Z) (if count_ =? 0 then [Broadcast tt] else []).

(*@ muduo/muduo/base/CountDownLatch.cc 40-44 CountDownLatch::getCount *)
Definition latch_getCount (count_ : Z) : outcome (St := Z) (R := option Z) (C := unit) := Return count_ (Some count_) [].

(*@ muduo/muduo/base/CountDownLatch.h 29-38 CountDownLatch *)
Definition latch (op : latch_op) (count_ : Z) : outcome (St := Z) (R := option Z) (C := unit) :=
  match op with
  | WaitZero => latch_wait count_
  | CountDown => latch_countDown count_
  | GetCount => latch_getCount count_
  end.

#[export] Instance latch_counting : Counting latch.
Proof.
  refine {| kind := fun op => match op with WaitZero => Some tt | _ => None end;
            room := fun _ _ => 0%nat; closed := fun _ count_ => count_ <=? 0 |}.
  - intros [] s [] H; unfold latch, latch_wait in H; [| done..].
    destruct (Z.ltb_spec 0 s); [| done]. split_and!; [done.. |]. by apply Z.leb_gt.
  - intros [] s s' r sig [] H; unfold latch, latch_wait, latch_countDown, latch_getCount in H.
    + destruct (Z.ltb_spec 0 s); [done |]. injection H as <- <- <-.
      rewrite (proj2 (Z.leb_le s 0)) by lia. by left.
    + injection H as <- <- <-. destruct (Z.leb_spec (s - 1) 0) as [Hle | Hgt].
      * destruct (Z.eqb_spec (s - 1) 0); [right; left | left; apply Z.leb_le; lia].
      * rewrite (proj2 (Z.eqb_neq (s - 1) 0)) by lia. split; [apply Z.leb_gt; lia |]. split; [no_broadcast | room_arith].
    + injection H as <- <- <-. destruct (Z.leb_spec s 0); [by left |].
      split; [done |]. split; [no_broadcast | room_arith].
Defined.

(** ** Theorems *)

Lemma puts_snoc {T} (h : list (queue_op T * result T)) e :
  puts (h ++ [e]) = puts h ++ match e with (Put x, _) => [x] | _ => [] end.
Proof. unfold puts. rewrite omap_app. by destruct e as [[] ?]. Qed.
Lemma takes_snoc {T} (h : list (queue_op T * result T)) e :
  takes (h ++ [e]) = takes h ++ match e with (Take, Value x) => [x] | _ => [] end.
Proof. unfold takes. rewrite omap_app. by destruct e as [[] []]. Qed.

(** The completed operations account for the content of the queue. *)
Lemma bq_runs {T} (h : list (queue_op T * result T)) q0 q :
  runs bq q0 h q -> q0 ++ puts h = takes h ++ q.
Proof.
  induction 1 as [s | s h s1 op r sig s2 Hr IH H]; [cbn; by rewrite app_nil_r |].
  rewrite puts_snoc, takes_snoc, app_assoc, IH. destruct op as [x | |]; unfold bq, bq_put, bq_take, bq_size in H.
  - injection H as <- <- _. by rewrite app_nil_r, app_assoc.
  - destruct s1 as [| f s1]; [done |]. injection H as <- <- _. by rewrite app_nil_r, <- app_assoc.
  - injection H as <- <- _. by rewrite !app_nil_r.
Qed.

Lemma bbq_runs {T} n (h : list (queue_op T * result T)) q0 q :
  runs (bbq n) q0 h q -> (length q0 <= n)%nat -> q0 ++ puts h = takes h ++ q /\ (length q <= n)%nat.
Proof.
  induction 1 as [s | s h s1 op r sig s2 Hr IH H]; intros Hn; [cbn; by rewrite app_nil_r |].
  destruct (IH Hn) as [Hq Hl]. rewrite puts_snoc, takes_snoc, app_assoc, Hq.
  destruct op as [x | |]; unfold bbq, bbq_put, bbq_take, bbq_size, full in H.
  - destruct (Nat.leb_spec n (length s1)); [done |]. injection H as <- <- _.
    rewrite app_nil_r, app_assoc, length_app. cbn. split; [done | lia].
  - destruct s1 as [| f s1]; [done |]. injection H as <- <- _. cbn in Hl.
    rewrite app_nil_r, <- app_assoc. split; [done | lia].
  - injection H as <- <- _. by rewrite !app_nil_r.
Qed.

(** The unbounded queue, for any number of threads and any scheduling: what
    has been taken, followed by what is in the queue, is what has been put, in
    order; and when a thread sleeps in [take], there are at least as many
    threads on their way out of [take] as there are elements, so no element
    waits while its taker sleeps. *)
Theorem blocking_queue_correct {T} (x : sys) :
  reachable (bq (T := T)) [] x ->
  puts (history x) = takes (history x) ++ shared x
  /\ ((0 < count (asleep_on bq_notEmpty) (threads x))%nat ->
      (length (shared x) <= count (ready_on bq bq_notEmpty) (threads x))%nat).
Proof.
  intros Hx. split; [exact (bq_runs _ _ _ (reachable_runs _ _ _ Hx)) |].
  intros Hp. exact (proj2 (reachable_awake bq [] x Hx bq_notEmpty Hp)).
Qed.

(** C34: The bounded queue, for any number of threads and any scheduling: what has
    been taken, followed by what is in the queue, is what has been put, in
    order; the queue never holds more than its capacity; and neither wake-up
    is lost: no producer sleeps while there is room for it, and no consumer
    while there is an element for it, unless as many threads of its kind are
    already on their way. *)
Theorem bounded_queue_correct {T} n (x : sys) :
  reachable (bbq (T := T) n) [] x ->
  puts (history x) = takes (history x) ++ shared x
  /\ (length (shared x) <= n)%nat
  /\ ((0 < count (asleep_on bbq_notEmpty) (threads x))%nat ->
      (length (shared x) <= count (ready_on (bbq n) bbq_notEmpty) (threads x))%nat)
  /\ ((0 < count (asleep_on bbq_notFull) (threads x))%nat ->
      (n - length (shared x) <= count (ready_on (bbq n) bbq_notFull) (threads x))%nat).
Proof.
  intros Hx. destruct (bbq_runs n _ [] _ (reachable_runs _ _ _ Hx)) as [H1 H2]; [cbn; lia |].
  split; [exact H1 |]. split; [exact H2 |].
  pose proof (reachable_awake (bbq n) [] x Hx) as Ha.
  split; intros Hp; [exact (proj2 (Ha bbq_notEmpty Hp)) | exact (proj2 (Ha bbq_notFull Hp))].
Qed.

Fixpoint downs (h : list (latch_op * option Z)) : Z :=
  match h with
  | [] => 0
  | (CountDown, _) :: h => 1 + downs h
  | _ :: h => downs h
  end.

Lemma downs_app h k : downs (h ++ k) = downs h + downs k.
Proof. induction h as [| [[] ?] h IH]; cbn [app downs]; lia. Qed.

Lemma latch_runs n h s :
  runs latch n h s -> s = n - downs h /\ (forall r, (WaitZero, r) ∈ h -> s <= 0).
Proof.
  induction 1 as [s | s h s1 op r sig s2 Hr [IH1 IH2] H].
  - cbn. split; [lia |]. intros r Hin. by apply elem_of_nil in Hin.
  - rewrite downs_app. destruct op; unfold latch, latch_wait, latch_countDown, latch_getCount in H.
    + destruct (Z.ltb_spec 0 s1); [done |]. injection H as <- <- _. cbn. split; [lia |]. intros; lia.
    + injection H as <- <- _. cbn [downs]. split; [lia |]. intros r Hin.
      apply elem_of_app in Hin as [Hin | Hin]; [specialize (IH2 r Hin); lia |].
      by apply list_elem_of_singleton in Hin.
    + injection H as <- <- _. cbn [downs]. split; [lia |]. intros r Hin.
      apply elem_of_app in Hin as [Hin | Hin]; [by apply (IH2 r) |]. by apply list_elem_of_singleton in Hin.
Qed.

(** The latch, for any number of threads and any scheduling: when a [wait] has
    returned, at least as many [countDown]s have completed as the initial
    count; and once that many have, nobody sleeps in [wait] any more. *)
Theorem latch_correct n (x : sys) :
  0 <= n -> reachable latch n x ->
  ((exists r, (WaitZero, r) ∈ history x) -> n <= downs (history x))
  /\ (n <= downs (history x) -> count (asleep_on tt) (threads x) = 0%nat).
Proof.
  intros Hn Hx. destruct (latch_runs _ _ _ (reachable_runs _ _ _ Hx)) as [H1 H2].
  split; [intros [r Hr]; specialize (H2 r Hr); lia |].
  intros Hd. pose proof (reachable_awake latch n x Hx tt) as Ha.
  destruct (count (asleep_on tt) (threads x)) eqn:E; [done |].
  destruct Ha as [Hc _]; [lia |]. apply Z.leb_gt in Hc. lia.
Qed.

(** ** Concrete executions *)

(** A queue of one element: the second [put] sleeps until the [take]. *)
Definition demo_state : sys (St := list Z) (Op := queue_op Z) (R := result Z) (C := bbq_condition) :=
  mkSys [] [Ready (Put 8); Idle] [(Put 7, Done); (Take, Value 7)].

Lemma demo_reachable : reachable (bbq 1) [] demo_state.
Proof.
  exists 2%nat. unfold start. cbn [replicate].
  eapply rtc_l; [apply (step_call _ _ _ _ 0 (Put 7)); reflexivity |]. cbn [insert list_insert].
  eapply rtc_l; [eapply (step_return _ _ _ _ 0); [reflexivity | reflexivity |] |].
  { apply notify_none; [| apply notify_nil]. repeat constructor; by intros []. }
  cbn [insert list_insert app].
  eapply rtc_l; [apply (step_call _ _ _ _ 0 (Put 8)); reflexivity |]. cbn [insert list_insert].
  eapply rtc_l; [eapply (step_block _ _ _ _ 0); reflexivity |]. cbn [insert list_insert].
  eapply rtc_l; [apply (step_call _ _ _ _ 1 Take); reflexivity |]. cbn [insert list_insert].
  eapply rtc_l; [eapply (step_return _ _ _ _ 1); [reflexivity | reflexivity |] |].
  { apply (notify_one _ _ _ 0 (Put 8)); [reflexivity | apply notify_nil]. }
  apply rtc_refl.
Qed.

Lemma bounded_queue_correct_witness :
  puts (history demo_state) = takes (history demo_state) ++ shared demo_state
  /\ (length (shared demo_state) <= 1)%nat
  /\ ((0 < count (asleep_on bbq_notEmpty) (threads demo_state))%nat ->
      (length (shared demo_state) <= count (ready_on (bbq 1) bbq_notEmpty) (threads demo_state))%nat)
  /\ ((0 < count (asleep_on bbq_notFull) (threads demo_state))%nat ->
      (1 - length (shared demo_state) <= count (ready_on (bbq 1) bbq_notFull) (threads demo_state))%nat).
Proof. exact (bounded_queue_correct 1 demo_state demo_reachable). Defined.

(** A latch of one: the waiter is woken. *)
Definition demo_latch : sys (St := Z) (Op := latch_op) (R := option Z) (C := unit) :=
  mkSys 0 [Ready WaitZero; Idle] [(CountDown, None)].
Lemma demo_latch_reachable : reachable latch 1 demo_latch.
Proof.
  exists 2%nat. unfold start. cbn [replicate].
  eapply rtc_l; [apply (step_call _ _ _ _ 0 WaitZero); reflexivity |]. cbn [insert list_insert].
  eapply rtc_l; [eapply (step_block _ _ _ _ 0); reflexivity |]. cbn [insert list_insert].
  eapply rtc_l; [apply (step_call _ _ _ _ 1 CountDown); reflexivity |]. cbn [insert list_insert].
  eapply rtc_l; [eapply (step_return _ _ _ _ 1); [reflexivity | reflexivity |] |].
  { apply notify_all, notify_nil. }
  apply rtc_refl.
Qed.
Lemma latch_correct_witness :
  ((exists r, (WaitZero, r) ∈ history demo_latch) -> 1 <= downs (history demo_latch))
  /\ (1 <= downs (history demo_latch) -> count (asleep_on tt) (threads demo_latch) = 0%nat).
Proof. apply (latch_correct 1 demo_latch); [lia | exact demo_latch_reachable]. Defined.

Lemma demo_bq_reachable : reachable (bq (T := Z)) [] (mkSys [] [Idle] [(Put 7, Done); (Take, Value 7)]).
Proof.
  exists 1%nat. unfold start. cbn [replicate].
  eapply rtc_l; [apply (step_call _ _ _ _ 0 (Put 7)); reflexivity |]. cbn [insert list_insert].
  eapply rtc_l; [eapply (step_return _ _ _ _ 0); [reflexivity | reflexivity |] |].
  { apply notify_none; [| apply notify_nil]. repeat constructor; by intros []. }
  cbn [insert list_insert app].
  eapply rtc_l; [apply (step_call _ _ _ _ 0 Take); reflexivity |]. cbn [insert list_insert].
  eapply rtc_l; [eapply (step_return _ _ _ _ 0); [reflexivity | reflexivity |] |].
  { apply notify_nil. }
  apply rtc_refl.
Qed.
Lemma blocking_queue_correct_witness :
  [7] = [7] ++ @nil Z.
Proof. exact (proj1 (blocking_queue_correct _ demo_bq_reachable)). Defined.
