(* ===== verification/ThreadPool.v ===== *)
(** * ThreadPool: [muduo/base/ThreadPool.h] and [ThreadPool.cc]

    The task queue as an instance of [Monitor], and the workers' loop over it.
    A task is a value of a type [T].  A pool that was started with no thread
    has its tasks executed by the thread that calls [run]. *)
From S2P Require Import Prelude Monitor Queues.

Section pool.
Context {T : Type}.

(*@ muduo/muduo/base/ThreadPool.h 40-50 ThreadPool *)
Record ThreadPool : Type := mkPool {
  queue_ : list T;
  running_ : bool;
  threads_ : nat
}.

(*@ muduo/muduo/base/ThreadPool.cc 35-52 ThreadPool::start *)
Definition start_pool (numThreads : nat) : ThreadPool :=
  {| queue_ := []; running_ := true; threads_ := numThreads |}.

Inductive pool_op : Type := Run (task : T) | TakeTask | StopPool.
(** [Executed]: the caller of [run] executes the task itself, before it goes on.
    [take] gives back an empty function when the pool has been stopped. *)
Inductive pool_result : Type := Void | Executed | Task (task : option T).

(*@ muduo/muduo/base/ThreadPool.cc 72-87 ThreadPool::run *)
Definition run (task : T) (p : ThreadPool) : outcome (C := unit) :=
  if (threads_ p =? 0)%nat
  then Return p Executed []
  else Return {| queue_ := queue_ p ++ [task]; running_ := running_ p; threads_ := threads_ p |} Void [Signal tt].

(*@ muduo/muduo/base/ThreadPool.cc 92-108 ThreadPool::take *)
Definition take (p : ThreadPool) : outcome (C := unit) :=
  match queue_ p with
  | [] => if running_ p then Block tt else Return p (Task None) []
  | task :: q => Return {| queue_ := q; running_ := running_ p; threads_ := threads_ p |} (Task (Some task)) []
  end.

(** [stop] before it joins the threads. *)
(*@ muduo/muduo/base/ThreadPool.cc 55-68 ThreadPool::stop *)
Definition stop (p : ThreadPool) : outcome (C := unit) :=
  Return {| queue_ := queue_ p; running_ := false; threads_ := threads_ p |} Void [Broadcast tt].

Definition pool (op : pool_op) (p : ThreadPool) : outcome :=
  match op with Run task => run task p | TakeTask => take p | StopPool => stop p end.

(** The loop of a worker: what [running_] is at each test and what each [take]
    gives, and the tasks it executes; the flag is whether it has left. *)
(*@ muduo/muduo/base/ThreadPool.cc 112-146 ThreadPool::runInThread *)
Fixpoint runInThread (env : list (bool * option T)) : list T * bool :=
  match env with
  | [] => ([], false)
  | (running, task) :: env =>
      if running
      then
        let '(executed, gone) := runInThread env in
        (match task with Some t => [t] | None => [] end ++ executed, gone)
      else ([], true)
  end.

#[export] Instance pool_counting : Counting pool.
Proof.
  refine {| kind := fun op => match op with TakeTask => Some tt | _ => None end;
            room := fun _ p => length (queue_ p); closed := fun _ p => negb (running_ p) |}.
  - intros [x | |] [q r n] [] H; [cbn in H; unfold run in H; by destruct (_ =? _)%nat | | done].
    unfold pool, take in H. cbn [queue_ running_] in *. destruct q; [| done]. by destruct r.
  - intros [x | |] [q rn n] s' r sig [] H; unfold pool, run, take, stop in H; cbn [queue_ running_ threads_] in *.
    + destruct (n =? 0)%nat; injection H as <- <- <-; cbn [queue_ running_]; destruct rn; cbn [negb];
        try (by left); (split; [done |]); (split; [no_broadcast | room_arith]).
    + destruct q as [| t q]; [destruct rn; [done |] |]; injection H as <- <- <-; cbn [queue_ running_]; [by left |].
      destruct rn; cbn [negb]; [| by left]. split; [done |]. split; [no_broadcast | room_arith].
    + injection H as <- <- <-. right. left.
Defined.

(** The tasks given to the pool, those executed by the threads that gave them,
    and those handed to workers. *)
Definition submitted (h : list (pool_op * pool_result)) : list T :=
  omap (fun e => match e with (Run t, _) => Some t | _ => None end) h.
Definition inline (h : list (pool_op * pool_result)) : list T :=
  omap (fun e => match e with (Run t, Executed) => Some t | _ => None end) h.
Definition dispatched (h : list (pool_op * pool_result)) : list T :=
  omap (fun e => match e with (TakeTask, Task t) => t | _ => None end) h.
Definition stopped (h : list (pool_op * pool_result)) : Prop := exists r, (StopPool, r) ∈ h.

Lemma stopped_snoc h op r : stopped (h ++ [(op, r)]) <-> stopped h \/ op = StopPool.
Proof using Type.
  unfold stopped. setoid_rewrite elem_of_app. setoid_rewrite list_elem_of_singleton. split.
  - intros [r' [H | [= <- _]]]; [left; by exists r' | by right].
  - intros [[r' H] | ->]; [exists r'; by left | exists r; by right].
Qed.

Lemma pool_runs n h p :
  runs pool (start_pool n) h p ->
  threads_ p = n
  /\ (if (n =? 0)%nat then inline h = submitted h /\ dispatched h = [] /\ queue_ p = []
      else inline h = [] /\ submitted h = dispatched h ++ queue_ p)
  /\ (running_ p = false <-> stopped h).
Proof using Type.
  remember (start_pool n) as p0 eqn:Ep0.
  induction 1 as [s | s h s1 op r sig s2 Hr IH H]; subst.
  - split; [done |]. split; [by destruct (n =? 0)%nat |]. split; [done |]. intros [r Hin]. by apply elem_of_nil in Hin.
  - destruct (IH eq_refl) as (IH0 & IH1 & IH2). rewrite stopped_snoc, <- IH2.
    unfold submitted, dispatched, inline in *. rewrite !omap_app. destruct s1 as [q rn m]. cbn [threads_] in IH0. subst m.
    destruct op as [t | |]; unfold pool, run, take, stop in H; cbn [queue_ running_ threads_] in *.
    + destruct (n =? 0)%nat; injection H as <- <- _; cbn [threads_ queue_ running_ omap list_omap].
      * destruct IH1 as (-> & -> & ->). split_and!; try done. split; [by left | by intros [|]].
      * destruct IH1 as (-> & ->). split_and!; [done | done | by rewrite app_nil_r, app_assoc |].
        split; [by left | by intros [|]].
    + destruct q as [| t q]; [destruct rn; [done |] |]; injection H as <- <- _; cbn [threads_ queue_ running_ omap list_omap];
        rewrite ?app_nil_r; (split; [done |]); (split; [| split; [by left | by intros [|]]]).
      * destruct (n =? 0)%nat; [exact IH1 | by rewrite app_nil_r in IH1].
      * destruct (n =? 0)%nat; [by destruct IH1 as (_ & _ & ?) |]. destruct IH1 as [-> ->].
        by rewrite <- app_assoc.
    + injection H as <- <- _. cbn [threads_ queue_ running_ omap list_omap]. rewrite !app_nil_r. split_and!; [done | done |].
      split; [by right | done].
Qed.

(** C35: The pool, for any number of threads and any scheduling.  Started with no
    thread, it has every task executed by the thread that gives it, at once, and
    queues none.  Started with some, the tasks handed to the workers followed by
    those in the queue are the tasks submitted, in order, so each is handed out
    at most once and none before an earlier one; while the pool runs, no worker
    sleeps on a task unless as many workers are on their way as there are tasks.
    Once it has been stopped no worker sleeps and none will, so that [stop] can
    join them.  A worker executes exactly the tasks it is handed, in order, until
    it sees that the pool has stopped. *)
Theorem thread_pool_correct n (x : sys) :
  reachable pool (start_pool n) x ->
  (if (n =? 0)%nat
   then inline (history x) = submitted (history x) /\ dispatched (history x) = [] /\ queue_ (shared x) = []
   else inline (history x) = []
        /\ submitted (history x) = dispatched (history x) ++ queue_ (shared x))
  /\ (~ stopped (history x) -> (0 < count (asleep_on tt) (threads x))%nat ->
      (length (queue_ (shared x)) <= count (ready_on pool tt) (threads x))%nat)
  /\ (stopped (history x) ->
      count (asleep_on tt) (threads x) = 0%nat /\ forall op c, pool op (shared x) <> Block c)
  /\ forall env, Forall (fun e => e.1 = true) env ->
       runInThread (env ++ [(false, None)]) = (omap snd env, true).
Proof using Type.
  intros Hx. destruct (pool_runs _ _ _ (reachable_runs _ _ _ Hx)) as (_ & H1 & H2).
  pose proof (reachable_awake pool _ x Hx tt) as Ha. split; [exact H1 |]. split; [| split].
  - intros _ Hp. by apply Ha.
  - intros Hs. apply H2 in Hs. split.
    + destruct (count (asleep_on tt) (threads x)) eqn:E; [done |].
      destruct Ha as [Hc _]; [lia |]. cbn in Hc. by rewrite Hs in Hc.
    + intros [t | |] c; cbn [pool]; [unfold run; by destruct (threads_ (shared x) =? 0)%nat | | done]. unfold take. rewrite Hs. by destruct (queue_ (shared x)).
  - intros env He. induction He as [| [r t] env Hr He IH]; [done |]. cbn in Hr. subst r.
    cbn [app runInThread]. rewrite IH. cbn. by destruct t.
Qed.
End pool.

(** A worker sleeps, is woken by a task, and takes it; then the pool is stopped. *)
Definition demo_pool : sys (St := ThreadPool (T := Z)) (Op := pool_op (T := Z)) (R := pool_result (T := Z)) (C := unit) :=
  mkSys {| queue_ := []; running_ := false; threads_ := 2 |} [Idle; Idle]
    [(Run 1, Void); (TakeTask, Task (Some 1)); (StopPool, Void)].

Lemma demo_pool_reachable : reachable pool (start_pool 2) demo_pool.
Proof.
  exists 2%nat. unfold start. cbn [replicate].
  eapply rtc_l; [apply (step_call _ _ _ _ 0 TakeTask); reflexivity |]. cbn [insert list_insert].
  eapply rtc_l; [eapply (step_block _ _ _ _ 0); reflexivity |]. cbn [insert list_insert].
  eapply rtc_l; [apply (step_call _ _ _ _ 1 (Run 1)); reflexivity |]. cbn [insert list_insert].
  eapply rtc_l; [eapply (step_return _ _ _ _ 1); [reflexivity | reflexivity |] |].
  { apply (notify_one _ _ _ 0 TakeTask); [reflexivity | apply notify_nil]. }
  cbn [insert list_insert app].
  eapply rtc_l; [eapply (step_return _ _ _ _ 0); [reflexivity | reflexivity | apply notify_nil] |].
  cbn [insert list_insert app].
  eapply rtc_l; [apply (step_call _ _ _ _ 1 StopPool); reflexivity |]. cbn [insert list_insert].
  eapply rtc_l; [eapply (step_return _ _ _ _ 1); [reflexivity | reflexivity |] |].
  { apply notify_all, notify_nil. }
  apply rtc_refl.
Qed.

(** The same task given to a pool without threads. *)
Definition demo_inline : sys (St := ThreadPool (T := Z)) (Op := pool_op (T := Z)) (R := pool_result (T := Z)) (C := unit) :=
  mkSys (start_pool 0) [Idle] [(Run 1, Executed)].

Lemma demo_inline_reachable : reachable pool (start_pool 0) demo_inline.
Proof.
  exists 1%nat. unfold start. cbn [replicate].
  eapply rtc_l; [apply (step_call _ _ _ _ 0 (Run 1)); reflexivity |]. cbn [insert list_insert].
  eapply rtc_l; [eapply (step_return _ _ _ _ 0); [reflexivity | reflexivity | apply notify_nil] |].
  apply rtc_refl.
Qed.

Lemma thread_pool_correct_witness :
  submitted (history demo_pool) = [1] /\ count (asleep_on tt) (threads demo_pool) = 0%nat
  /\ inline (history demo_inline) = [1].
Proof.
  pose proof (thread_pool_correct 2 demo_pool demo_pool_reachable) as (H1 & _ & H3 & _).
  pose proof (thread_pool_correct 0 demo_inline demo_inline_reachable) as (H4 & _).
  split; [exact (proj2 H1) |]. split; [apply H3; exists Void; apply list_elem_of_In; cbn; auto |].
  exact (proj1 H4).
Defined.
