(* ===== verification/SudokuPool.v ===== *)
(** * The sudoku server with a thread pool: [examples/sudoku/server_threadpool.cc]

    The loop's thread takes the requests apart and gives them to the
    [ThreadPool] of [ThreadPool.v]; its workers solve them ([Sudoku.v]) and
    send.  With no worker, the program's default, the loop's thread solves each
    request where it gives it to the pool.  [TcpConnection::send] may be called from any thread; what counts is
    the order of the calls. *)
From S2P Require Import Prelude Endian Buffer Framing DancingLinks Sudoku SudokuServer Monitor ThreadPool.

(** The arguments of [solve]: connection, puzzle, identifier. *)
Record task : Type := mkTask { conn : Z; puzzle : list byte; id : list byte }.

(*@ muduo/examples/sudoku/server_threadpool.cc 112-126 SudokuServer::solve *)
Definition solve (t : task) : res (list byte) :=
  result ← solveSudoku (puzzle t);
  mret (match id t with [] => result ++ crlf | _ => id t ++ [COLON] ++ result ++ crlf end).

(** The task for a good request goes to the pool, or is executed by it at once;
    with it, what was sent. *)
(*@ muduo/examples/sudoku/server_threadpool.cc 84-110 SudokuServer::processRequest *)
Definition pool_processRequest (c : Z) (request : list byte) (pool : ThreadPool (T := task))
  : res (bool * list (list byte) * ThreadPool (T := task)) :=
  let colon := find_byte COLON request in
  let '(id, puzzle) := if colon =? zlen request then ([], request) else (ztake colon request, zdrop (colon + 1) request) in
  if zlen puzzle =? kCells
  then
    let t := mkTask c puzzle id in
    match ThreadPool.run t pool with
    | Return pool Executed _ => reply ← solve t; mret (true, [reply], pool)
    | Return pool _ _ => mret (true, [], pool)
    | Block _ => mret (true, [], pool)
    end
  else mret (false, [], pool).

(** What the loop's thread sends, whether it shuts down, and what is left.  When
    there are workers, it sends at most a last message. *)
Fixpoint pool_onMessage_loop (c : Z) (fuel : nat) (len : Z) (buf : Buffer) (pool : ThreadPool (T := task)) :
    res (list (list byte) * bool * Buffer * ThreadPool (T := task)) :=
  match fuel with
  | O => Err OutOfFuel
  | S fuel =>
      if kCells + 2 <=? len
      then
        found ← findCRLF buf;
        match found with
        | Some pos =>
            request ← mem_read (peek buf) pos (buffer_ buf);
            buf ← retrieveUntil buf (pos + 2);
            let len := readableBytes buf in
            '(good, out, pool) ← pool_processRequest c request pool;
            if negb good then mret (out ++ [bs "Bad Request!" ++ crlf], true, buf, pool)
            else
              '(out', stop, buf, pool) ← pool_onMessage_loop c fuel len buf pool;
              mret (out ++ out', stop, buf, pool)
        | None => if 100 <? len then mret ([bs "Id too long!" ++ crlf], true, buf, pool) else mret ([], false, buf, pool)
        end
      else mret ([], false, buf, pool)
  end.
(*@ muduo/examples/sudoku/server_threadpool.cc 52-82 SudokuServer::onMessage *)
Definition pool_onMessage (c : Z) (buf : Buffer) (pool : ThreadPool (T := task))
  : res (list (list byte) * bool * Buffer * ThreadPool (T := task)) :=
  pool_onMessage_loop c (S (Z.to_nat (readableBytes buf))) (readableBytes buf) buf pool.

(** ** The server *)

Record Conn : Type := mkConn { connected : bool; input : Buffer; sent : list (list byte) }.

(** A worker is idle, or has a task. *)
(*@ muduo/examples/sudoku/server_threadpool.cc 128-132 SudokuServer *)
Record Server : Type := mkServer {
  conns : gmap Z Conn;
  threadPool_ : ThreadPool (T := task);
  workers : list (option task)
}.
(*@ muduo/examples/sudoku/server_threadpool.cc 37-42 SudokuServer::start *)
Definition Server_start (numThreads : nat) : Server :=
  mkServer ∅ (start_pool numThreads) (replicate numThreads None).

(** [send] and [shutdown] of a connection. *)
Definition conn_send (data : list byte) (x : Conn) : Conn := if connected x then mkConn true (input x) (sent x ++ [data]) else x.
Definition conn_close (x : Conn) : Conn := mkConn false (input x) (sent x).

Inductive event : Type :=
| Up (c : Z)
| Arrive (c : Z) (data : list byte)
| Close (c : Z)
| Take (worker : nat)
| Finish (worker : nat).

(** What cannot happen in a state does nothing there: a worker takes a task
    when it is idle and there is one. *)
Definition perform (e : event) (s : Server) : res Server :=
  match e with
  | Up c => mret (match conns s !! c with
                  | None => mkServer (<[c := mkConn true Buffer_new []]> (conns s)) (threadPool_ s) (workers s)
                  | Some _ => s
                  end)
  | Arrive c data =>
      match conns s !! c with
      | Some x =>
          if connected x
          then
            b ← append (input x) data;
            '(out, stop, b, pool) ← pool_onMessage c b (threadPool_ s);
            let x := mkConn true b (sent x ++ out) in
            let x := if stop : bool then conn_close x else x in
            mret (mkServer (<[c := x]> (conns s)) pool (workers s))
          else mret s
      | None => mret s
      end
  | Close c => mret (mkServer (alter conn_close c (conns s)) (threadPool_ s) (workers s))
  | Take i =>
      match workers s !! i, ThreadPool.take (threadPool_ s) with
      | Some None, Return pool (Task (Some t)) _ => mret (mkServer (conns s) pool (<[i := Some t]> (workers s)))
      | _, _ => mret s
      end
  | Finish i =>
      match workers s !! i with
      | Some (Some t) =>
          reply ← solve t;
          mret (mkServer (alter (conn_send reply) (conn t) (conns s)) (threadPool_ s) (<[i := None]> (workers s)))
      | _ => mret s
      end
  end.

Fixpoint run (es : list event) (s : Server) : res Server :=
  match es with [] => mret s | e :: es => s ← perform e s; run es s end.

(** ** The loop does what that of the basic server does *)

Definition answer (t : task) : list byte := match solve t with Ok r => r | Err _ => [] end.
Definition more (ts : list task) (pool : ThreadPool (T := task)) : ThreadPool :=
  mkPool (queue_ pool ++ ts) (running_ pool) (threads_ pool).

Lemma process_agrees c request pool :
  (pool_processRequest c request pool = Ok (false, [], pool) /\ SudokuServer.processRequest request = Ok None)
  \/ exists t, conn t = c
       /\ SudokuServer.processRequest request = (reply ← solve t; mret (Some reply))
       /\ pool_processRequest c request pool
          = (if (threads_ pool =? 0)%nat then reply ← solve t; mret (true, [reply], pool)
             else Ok (true, [], more [t] pool)).
Proof.
  unfold pool_processRequest, SudokuServer.processRequest.
  destruct (if find_byte COLON request =? zlen request then _ else _) as [i p]. destruct (zlen p =? kCells); [right | by left].
  exists (mkTask c p i). split; [done |]. split; [unfold solve; cbn [puzzle id]; by destruct (solveSudoku p) |].
  unfold ThreadPool.run. by destruct (threads_ pool =? 0)%nat.
Qed.

(** Without workers the loop sends what that of the basic server sends; with
    workers the answers are the pool's. *)
Lemma loops_agree c fuel : forall len buf pool out stop buf',
  onMessage_loop fuel len buf = Ok (out, stop, buf') ->
  exists ts now, pool_onMessage_loop c fuel len buf pool = Ok (now, stop, buf', more ts pool)
    /\ Forall (fun t => conn t = c /\ is_ok (solve t)) ts
    /\ if (threads_ pool =? 0)%nat then ts = [] /\ now = out
       else out = map answer ts ++ now /\ (stop = false -> now = []).
Proof.
  induction fuel as [| fuel IH]; intros len buf pool out stop buf' H; [done |]. cbn [onMessage_loop pool_onMessage_loop] in *.
  assert (Hnil : more [] pool = pool) by (destruct pool; unfold more; cbn; by rewrite app_nil_r).
  assert (Hstop : (stop = false -> out = []) -> exists ts now,
    Ok (out, stop, buf', pool) = Ok (now, stop, buf', more ts pool) /\ Forall (fun t => conn t = c /\ is_ok (solve t)) ts
    /\ if (threads_ pool =? 0)%nat then ts = [] /\ now = out else out = map answer ts ++ now /\ (stop = false -> now = [])).
  { intros Ho. exists [], out. rewrite Hnil. split_and!; [done | constructor |]. by destruct (_ =? 0)%nat. }
  destruct (_ <=? len); [| injection H as <- <- <-; by apply Hstop].
  destruct (findCRLF buf) as [[pos |] | f]; cbn [mbind res_bind] in *; [| | done].
  2: { destruct (100 <? len); injection H as <- <- <-; by apply Hstop. }
  destruct (mem_read _ _ _) as [request | f]; cbn [mbind res_bind] in *; [| done].
  destruct (retrieveUntil buf (pos + 2)) as [b | f]; cbn [mbind res_bind] in *; [| done].
  destruct (process_agrees c request pool) as [[-> E] | (t & Ht & E & ->)]; rewrite E in H; cbn [mbind res_bind negb] in *.
  - injection H as <- <- <-. by apply Hstop.
  - destruct (solve t) as [reply | f] eqn:Es; cbn [mbind res_bind mret res_ret] in H; [| done].
    destruct (onMessage_loop fuel (readableBytes b) b) as [[[out1 stop1] b1] | f] eqn:E1; cbn [mbind res_bind mret res_ret] in H; [| done].
    injection H as <- <- <-.
    assert (Ea : answer t = reply) by (unfold answer; by rewrite Es).
    destruct (threads_ pool =? 0)%nat eqn:Ez; cbn [mbind res_bind mret res_ret negb].
    + destruct (IH _ _ pool _ _ _ E1) as (ts & now & -> & Hts & Hcase). rewrite Ez in Hcase. destruct Hcase as [-> ->].
      rsimp. rewrite Hnil. exists [], (reply :: out1). by rewrite Hnil.
    + destruct (IH _ _ (more [t] pool) _ _ _ E1) as (ts & now & -> & Hts & Hcase). cbn [more threads_] in Hcase.
      rewrite Ez in Hcase. destruct Hcase as [-> Hno]. rsimp.
      exists (t :: ts), now. split; [unfold more; cbn; by rewrite <- app_assoc |].
      split; [constructor; [split; [done | by exists reply] | done] |]. cbn [map app]. by rewrite Ea.
Qed.

(** ** Workers *)

Definition busy (ws : list (option task)) : list task := omap (fun w => w) ws.

Lemma busy_insert ws i t : ws !! i = Some None -> busy (<[i := Some t]> ws) ≡ₚ t :: busy ws.
Proof.
  revert i. induction ws as [| w ws IH]; intros [| i] H; try done; cbn in *.
  - by simplify_eq.
  - destruct w as [t' |]; rewrite IH by done; [| done]. apply Permutation_swap.
Qed.
Lemma busy_remove ws i t : ws !! i = Some (Some t) -> busy ws ≡ₚ t :: busy (<[i := None]> ws).
Proof.
  revert i. induction ws as [| w ws IH]; intros [| i] H; try done; cbn in *.
  - by simplify_eq.
  - destruct w as [t' |]; rewrite (IH i) by done; [| done]. apply Permutation_swap.
Qed.
(** With one worker there is nothing to permute. *)
Lemma busy_one (ws : list (option task)) i w : (length ws <= 1)%nat -> ws !! i = Some w -> ws = [w] /\ forall w', <[i := w']> ws = [w'].
Proof. destruct ws as [| w1 [| w2 ws]]; cbn; intros Hl H; [done | | lia]. destruct i as [| i]; [| done]. by simplify_eq/=. Qed.

Definition in_work (s : Server) : list task := busy (workers s) ++ queue_ (threadPool_ s).
Definition pending (c : Z) (s : Server) : list task := filter (fun t => conn t = c) (in_work s).

Lemma busy_idle n : busy (replicate n None) = [].
Proof. by induction n. Qed.

(** ** The connections *)

Section streams.
Context (reqs : Z -> list request) (Hreqs : forall c, Forall good (reqs c)).

(** What arrives for [c], and what of it comes after the connection is up. *)
Fixpoint data (c : Z) (es : list event) : list byte :=
  match es with
  | Arrive c' d :: es => if decide (c' = c) then d ++ data c es else data c es
  | _ :: es => data c es
  | [] => []
  end.
Fixpoint stream (c : Z) (es : list event) : list byte :=
  match es with
  | Up c' :: es => if decide (c' = c) then data c es else stream c es
  | _ :: es => stream c es
  | [] => []
  end.

(** An open connection has been sent the answers to its requests, but for those
    the pool still has. *)
Definition served (c : Z) (x : Conn) (later : list byte) (s : Server) : Prop :=
  exists reqs1 reqs2 r replies,
    reqs c = reqs1 ++ reqs2 /\ holds r (input x) /\ next r = NeedMore /\ zlen r <= 100
    /\ r ++ later = concat (map enc reqs2)
    /\ Forall2 answers reqs1 replies
    /\ sent x ++ map answer (pending c s) ≡ₚ replies
    /\ ((length (workers s) <= 1)%nat -> sent x ++ map answer (pending c s) = replies).

Record pool_inv (es : list event) (s : Server) : Prop := {
  inv_running : running_ (threadPool_ s) = true;
  inv_threads : threads_ (threadPool_ s) = length (workers s) /\ (workers s = [] -> queue_ (threadPool_ s) = []);
  inv_tasks : Forall (fun t => is_ok (solve t) /\ is_Some (conns s !! conn t)) (in_work s);
  inv_served c x : conns s !! c = Some x -> connected x = true -> served c x (data c es) s;
  inv_absent c : conns s !! c = None -> stream c es = concat (map enc (reqs c))
}.

Lemma pending_none c s :
  Forall (fun t => is_ok (solve t) /\ is_Some (conns s !! conn t)) (in_work s) -> conns s !! c = None -> pending c s = [].
Proof using Type. intros H Hc. apply filter_none. apply (Forall_impl _ _ _ H). intros t [_ [x Hx]] <-. congruence. Qed.

(** What is pending matters up to its order, and its order only when there is
    one worker. *)
Lemma served_pending c x later s s' :
  served c x later s -> pending c s' ≡ₚ pending c s -> length (workers s') = length (workers s) ->
  ((length (workers s) <= 1)%nat -> pending c s' = pending c s) -> served c x later s'.
Proof using Type.
  intros (reqs1 & reqs2 & r & replies & H1 & H2 & H3 & H4 & H5 & H6 & H7 & H8) Hp Hl Ho.
  exists reqs1, reqs2, r, replies. split_and!; try done.
  - by rewrite Hp.
  - rewrite Hl. intros Hone. rewrite Ho by done. by apply H8.
Qed.

Lemma take_inv es i s : pool_inv (Take i :: es) s -> safe (perform (Take i) s) (pool_inv es).
Proof using Type.
  intros [Hr Hth Ht Hs Ha]. cbn [perform]. destruct (workers s !! i) as [[t |] |] eqn:Ei; [done | | done].
  assert (Hws : workers s <> []) by (intros E; by rewrite E in Ei).
  assert (H' : pool_inv es s) by by split.
  unfold ThreadPool.take. destruct (queue_ (threadPool_ s)) as [| t q] eqn:Eq; [rewrite Hr; exact H' |]. cbn [safe].
  set (s' := mkServer _ _ _). assert (Hperm : in_work s' ≡ₚ in_work s).
  { unfold in_work, s'. cbn [workers threadPool_ queue_]. rewrite Eq, busy_insert by done. cbn. apply Permutation_middle. }
  assert (Hone : (length (workers s) <= 1)%nat -> in_work s' = in_work s).
  { intros Hl. destruct (busy_one _ _ _ Hl Ei) as [E1 E2]. unfold in_work, s'. cbn [workers threadPool_ queue_]. by rewrite E2, E1, Eq. }
  split; try done.
  - cbn [threadPool_ threads_ workers s' queue_]. rewrite length_insert. split; [apply Hth |].
    intros E%(f_equal length). rewrite length_insert in E. by apply length_zero_iff_nil in E.
  - by rewrite Hperm.
  - intros c x Hc Hx. apply (served_pending c x _ s); [by apply Hs | | by apply length_insert |].
    + unfold pending. by rewrite Hperm.
    + intros Hl. unfold pending. by rewrite Hone.
Qed.

Lemma finish_inv es i s : pool_inv (Finish i :: es) s -> safe (perform (Finish i) s) (pool_inv es).
Proof using Type.
  intros [Hr Hth Ht Hs Ha]. cbn [perform]. destruct (workers s !! i) as [[t |] |] eqn:Ei; [| done | done].
  assert (Hws : workers s <> []) by (intros E; by rewrite E in Ei).
  assert (Hin : t ∈ in_work s).
  { apply elem_of_app. left. rewrite (busy_remove _ _ _ Ei). by left. }
  destruct (proj1 (Forall_forall _ _) Ht t Hin) as [[reply Er] _]. rewrite Er. rsimp. cbn [safe].
  assert (Ea : answer t = reply) by (unfold answer; by rewrite Er).
  set (s' := mkServer _ _ _). assert (Hperm : in_work s ≡ₚ t :: in_work s').
  { unfold in_work, s'. cbn [workers threadPool_]. by rewrite (busy_remove _ _ _ Ei). }
  assert (Hone : (length (workers s) <= 1)%nat -> in_work s = t :: in_work s').
  { intros Hl. destruct (busy_one _ _ _ Hl Ei) as [E1 E2]. unfold in_work, s'. cbn [workers threadPool_]. by rewrite E2, E1. }
  assert (Hsame : forall c, is_Some (conns s' !! c) <-> is_Some (conns s !! c)).
  { intros c. unfold s'. cbn [conns]. destruct (decide (c = conn t)) as [-> | Hne];
      [by rewrite lookup_alter_eq, fmap_is_Some | by rewrite lookup_alter_ne by done]. }
  split; [done | | | |].
  - cbn [threadPool_ workers s']. rewrite length_insert. split; [apply Hth |].
    intros E%(f_equal length). rewrite length_insert in E. by apply length_zero_iff_nil in E.
  - rewrite Hperm in Ht. apply Forall_cons in Ht as [_ Ht]. apply (Forall_impl _ _ _ Ht). intros t' [? ?]. by rewrite Hsame.
  - intros c x' Hc Hx'. unfold s' in Hc. cbn [conns] in Hc. destruct (decide (conn t = c)) as [Et | Hne].
    + rewrite Et, lookup_alter_eq in Hc. apply fmap_Some in Hc as (x & Hx & ->).
      assert (Hcx : connected x = true) by (unfold conn_send in Hx'; destruct (connected x) eqn:E; [done | congruence]).
      unfold conn_send. rewrite Hcx. destruct (Hs c x Hx Hcx) as (reqs1 & reqs2 & r & replies & H1 & H2 & H3 & H4 & H5 & H6 & H7 & H8).
      exists reqs1, reqs2, r, replies. split_and!; try done; cbn [sent].
      * rewrite <- H7, <- app_assoc. apply Permutation_app_head. rewrite <- Ea.
        assert (Hp : pending c s ≡ₚ t :: pending c s') by (unfold pending; rewrite Hperm; by rewrite filter_cons_True).
        by rewrite Hp.
      * unfold s'. cbn [workers]. rewrite length_insert. intros Hl. rewrite <- (H8 Hl), <- app_assoc. f_equal. rewrite <- Ea.
        unfold pending at 2. rewrite (Hone Hl), filter_cons_True by done. done.
    + rewrite lookup_alter_ne in Hc by done. apply (served_pending c x' _ s); [by apply Hs | | by apply length_insert |].
      * unfold pending. rewrite Hperm. by rewrite filter_cons_False.
      * intros Hl. unfold pending. rewrite (Hone Hl). by rewrite filter_cons_False.
  - intros c Hc. apply (Ha c). apply eq_None_not_Some. rewrite <- Hsame, Hc. by intros [? ?].
Qed.

Lemma close_inv es c s : pool_inv (Close c :: es) s -> safe (perform (Close c) s) (pool_inv es).
Proof using Type.
  intros [Hr Hth Ht Hs Ha]. cbn [perform safe mret res_ret]. split; try done.
  - apply (Forall_impl _ _ _ Ht). intros t [? Hx]. split; [done |]. cbn [conns].
    destruct (decide (conn t = c)) as [E | Hne]; [rewrite E in *; by rewrite lookup_alter_eq, fmap_is_Some | by rewrite lookup_alter_ne by done].
  - intros c' x Hc Hx. cbn [conns] in Hc. destruct (decide (c = c')) as [-> | Hne].
    + rewrite lookup_alter_eq in Hc. apply fmap_Some in Hc as (x0 & _ & ->). done.
    + rewrite lookup_alter_ne in Hc by done. by apply (Hs c' x).
  - intros c' Hc. cbn [conns] in Hc. apply (Ha c'). destruct (decide (c = c')) as [-> | Hne];
      [rewrite lookup_alter_eq in Hc; by apply fmap_None in Hc | by rewrite lookup_alter_ne in Hc by done].
Qed.

Lemma pool_up_inv es c s : pool_inv (Up c :: es) s -> safe (perform (Up c) s) (pool_inv es).
Proof using Type.
  intros [Hr Hth Ht Hs Ha]. cbn [perform safe mret res_ret]. destruct (conns s !! c) as [x0 |] eqn:Ec.
  - split; try done. intros c' Hc'. specialize (Ha c' Hc'). cbn [stream] in Ha. case_decide; [congruence | done].
  - pose proof (pending_none c s Ht Ec) as Hp. specialize (Ha c Ec) as Hac. cbn [stream] in Hac. rewrite decide_True in Hac by done.
    split; cbn [conns threadPool_]; [done | exact Hth | | |].
    + apply (Forall_impl _ _ _ Ht). intros t [? Hx]. split; [done |]. cbn [conns]. rewrite lookup_insert_is_Some'. by right.
    + intros c' x Hc Hx. apply lookup_insert_Some in Hc as [[<- <-] | [Hne Hc]]; [| by apply (Hs c' x)].
      exists [], (reqs c), [], []. change (pending c _) with (pending c s). rewrite Hp. by split_and!.
    + intros c' Hc. apply lookup_insert_None in Hc as [Hc Hne]. specialize (Ha c' Hc). cbn [stream] in Ha.
      by rewrite decide_False in Ha.
Qed.

Lemma arrive_inv es c d s :
  zlen d < 2 ^ 62 -> pool_inv (Arrive c d :: es) s -> safe (perform (Arrive c d) s) (pool_inv es).
Proof using Hreqs.
  intros Hd H. pose proof H as [Hr Hth Ht Hs Ha]. cbn [perform].
  assert (Hignored : (forall x, conns s !! c = Some x -> connected x = false) -> pool_inv es s).
  { intros Hno. split; try done. intros c' x Hc Hx. specialize (Hs c' x Hc Hx). cbn [data] in Hs.
    case_decide as E; [subst c'; by rewrite (Hno x Hc) in Hx | done]. }
  destruct (conns s !! c) as [x |] eqn:Ec; [| by apply Hignored].
  destruct (connected x) eqn:Ex; [| apply Hignored; by intros ? [= <-]].
  destruct (Hs c x Ec Ex) as (reqs1 & reqs2 & r & replies & H1 & H2 & H3 & H4 & H5 & H6 & H7 & H8).
  cbn [data] in H5. rewrite decide_True, app_assoc in H5 by done.
  assert (Hg : Forall good reqs1 /\ Forall good reqs2) by (apply Forall_app; rewrite <- H1; apply Hreqs). destruct Hg as [_ Hg2].
  eapply safe_bind; [by apply (append_holds r) |]. intros b Hb. cbn beta in Hb.
  destruct (requests_part reqs2 _ _ Hg2 H5) as (ra & rb & r' & -> & Hl & Hn & Hshort & Hw). apply Forall_app in Hg2 as [Hga _].
  destruct (onMessage_answers ra (S (Z.to_nat (zlen (r ++ d)))) _ r' b Hb Hl Hn Hshort Hga) as (out & b' & Eo & Hout & Hb').
  { rewrite Hl. by apply requests_fuel. }
  destruct (loops_agree c _ _ _ (threadPool_ s) _ _ _ Eo) as (ts & now & Ep & Hts & Hcase).
  unfold pool_onMessage. rewrite (holds_readable _ _ Hb), Ep. rsimp. cbn [safe].
  assert (Hnow : out = now ++ map answer ts /\ (now = [] \/ in_work s = [] /\ ts = [])).
  { destruct Hth as [Hth Hq]. destruct (Nat.eqb_spec (threads_ (threadPool_ s)) 0) as [Ez | Hz].
    - destruct Hcase as [-> ->]. cbn. rewrite app_nil_r. split; [done | right]. split; [| done].
      rewrite Ez in Hth. assert (Ew : workers s = []) by (by apply length_zero_iff_nil).
      unfold in_work. by rewrite (Hq Ew), Ew.
    - destruct Hcase as [-> Hno]. rewrite (Hno eq_refl), app_nil_r. split; [done | by left]. }
  destruct Hnow as [-> Hnow].
  set (s' := mkServer _ _ _). assert (Hin : in_work s' = in_work s ++ ts) by (unfold in_work, s'; cbn; by rewrite app_assoc).
  split; [done | | | |].
  - cbn [threadPool_ workers s' more threads_ queue_]. split; [apply Hth |]. intros Ew. destruct Hth as [Hth Hq].
    rewrite Ew in Hth. destruct (Nat.eqb_spec (threads_ (threadPool_ s)) 0) as [_ | Hz]; [| by rewrite Hth in Hz].
    destruct Hcase as [-> _]. by rewrite Hq.
  - rewrite Hin. apply Forall_app. split.
    + apply (Forall_impl _ _ _ Ht). intros t [? ?]. split; [done |]. cbn [conns s']. rewrite lookup_insert_is_Some'. by right.
    + apply (Forall_impl _ _ _ Hts). intros t [<- ?]. split; [done |]. cbn [conns s']. by rewrite lookup_insert_eq.
  - intros c' x' Hc Hx'. cbn [conns s'] in Hc. apply lookup_insert_Some in Hc as [[<- <-] | [Hne Hc]].
    + assert (Hp : pending c s' = pending c s ++ ts).
      { unfold pending. rewrite Hin, filter_app. f_equal. apply filter_all. apply (Forall_impl _ _ _ Hts). by intros t [? _]. }
      exists (reqs1 ++ ra), rb, r', (replies ++ now ++ map answer ts). rewrite Hp, map_app. cbn [sent input].
      split_and!; try done; [by rewrite <- app_assoc | by apply Forall2_app | |].
      * rewrite <- H7. solve_Permutation.
      * cbn [workers s']. intros Hlen. rewrite <- (H8 Hlen). destruct Hnow as [-> | [Hw0 ->]].
        -- by rewrite app_nil_r, app_assoc.
        -- unfold pending. rewrite Hw0. cbn. by rewrite !app_nil_r.
    + assert (Hp : pending c' s' = pending c' s).
      { unfold pending. rewrite Hin, filter_app, (filter_none _ ts), app_nil_r; [done |]. apply (Forall_impl _ _ _ Hts). intros t [<- _]. done. }
      pose proof (Hs c' x' Hc Hx') as Hsv. cbn [data] in Hsv. rewrite decide_False in Hsv by done.
      apply (served_pending c' x' _ s); [done | by rewrite Hp | done | done].
  - intros c' Hc. cbn [conns s'] in Hc. apply lookup_insert_None in Hc as [Hc _]. exact (Ha c' Hc).
Qed.

Definition good_event (e : event) : Prop := match e with Arrive _ d => zlen d < 2 ^ 62 | _ => True end.

Lemma pool_perform_inv e es s : good_event e -> pool_inv (e :: es) s -> safe (perform e s) (pool_inv es).
Proof using Hreqs.
  intros He H. destruct e as [c | c d | c | i | i];
    [by apply pool_up_inv | by apply arrive_inv | by apply close_inv | by apply take_inv | by apply finish_inv].
Qed.
Lemma pool_run_inv es : forall es' s, Forall good_event es -> pool_inv (es ++ es') s -> safe (run es s) (pool_inv es').
Proof using Hreqs.
  induction es as [| e es IH]; intros es' s He H; [done |]. apply Forall_cons in He as [He Hes]. cbn [run].
  eapply safe_bind; [by eapply pool_perform_inv |]. intros s' Hs'. by apply IH.
Qed.
Lemma start_inv n es : (forall c, stream c es = concat (map enc (reqs c))) -> pool_inv es (Server_start n).
Proof using Type.
  intros Hes. split; try done.
  - cbn. by rewrite length_replicate.
  - unfold in_work. cbn. rewrite busy_idle. constructor.
Qed.

Lemma perform_workers e s : safe (perform e s) (fun s' => length (workers s') = length (workers s)) \/ exists f, perform e s = Err f.
Proof using Type.
  destruct (perform e s) as [s' | f] eqn:E; [left | right; by exists f]. cbn [safe].
  destruct e as [c | c d | c | i | i]; cbn [perform] in E.
  - injection E as <-. by destruct (conns s !! c).
  - destruct (conns s !! c) as [x |]; [| by injection E as <-]. destruct (connected x); [| by injection E as <-].
    inv_res. destruct r0 as [[[out stop] b] pool]. by injection E as <-.
  - by injection E as <-.
  - destruct (workers s !! i) as [[t |] |]; [by injection E as <- | | by injection E as <-].
    destruct (ThreadPool.take (threadPool_ s)) as [|]; [by injection E as <- |].
    destruct r as [| | [t |]]; injection E as <-; [done | done | apply length_insert | done].
  - destruct (workers s !! i) as [[t |] |]; [| by injection E as <- | by injection E as <-].
    inv_res. apply length_insert.
Qed.
Lemma run_workers es : forall s s', run es s = Ok s' -> length (workers s') = length (workers s).
Proof using Type.
  induction es as [| e es IH]; intros s s' E; cbn [run] in E; [by injection E as <- |]. inv_res. rewrite (IH _ _ E).
  destruct (perform_workers e s) as [H | [f H]]; rewrite Hr in H; done.
Qed.

(** The workers can always finish. *)
Lemma drains n : forall s, (length (queue_ (threadPool_ s)) + length (in_work s) <= n)%nat ->
  (0 < length (workers s))%nat -> pool_inv [] s ->
  exists es s', Forall (fun e => match e with Take _ | Finish _ => True | _ => False end) es /\ run es s = Ok s' /\ in_work s' = [].
Proof using Hreqs.
  induction n as [| n IH]; intros s Hn Hw H.
  - exists [], s. split; [constructor |]. split; [done |]. apply nil_length_inv. lia.
  - destruct (busy (workers s)) as [| t ts] eqn:Eb.
    + destruct (queue_ (threadPool_ s)) as [| t q] eqn:Eq; [exists [], s; split; [constructor |]; split; [done | by unfold in_work; rewrite Eb, Eq] |].
      destruct (workers s) as [| [t' |] ws] eqn:Ew; [cbn in Hw; lia | done |].
      pose proof (take_inv [] 0 s) as Hp. cbn [perform] in Hp. unfold ThreadPool.take in Hp. rewrite Ew, Eq in Hp. cbn in Hp.
      set (s1 := mkServer _ _ _) in Hp. destruct (IH s1) as (es & s' & Hes & Hrun & Hdone).
      * assert (Eb' : busy ws = []) by exact Eb. assert (Hin : in_work s = t :: q) by (unfold in_work; rewrite Ew, Eq; exact (f_equal (fun l => l ++ t :: q) Eb)).
        rewrite Hin in Hn. change (in_work s1) with (t :: busy ws ++ q). rewrite Eb'. cbn in *. lia.
      * cbn. lia.
      * apply Hp. split; apply H.
      * exists (Take 0 :: es), s'. split; [by constructor |]. split; [| done]. cbn [run perform].
        unfold ThreadPool.take. rewrite Ew, Eq. exact Hrun.
    + assert (Hin : t ∈ busy (workers s)) by (rewrite Eb; by left). apply list_elem_of_omap in Hin as (w & Hin & ->).
      apply list_elem_of_lookup in Hin as [i Ei]. pose proof (finish_inv [] i s) as Hp.
      pose proof (busy_remove _ _ _ Ei) as Hb. pose proof (run_workers [Finish i] s) as Hlen. cbn [run perform] in *. rewrite Ei in *.
      destruct (solve t) as [reply | f] eqn:Er.
      2: { pose proof (inv_tasks _ _ H) as Ht. rewrite Forall_forall in Ht. destruct (Ht t) as [[reply E] _]; [| congruence].
           apply elem_of_app. left. rewrite Hb. by left. }
      cbn [mbind res_bind mret res_ret safe] in Hp, Hlen. set (s1 := mkServer _ _ _) in *. destruct (IH s1) as (es & s' & Hes & Hrun & Hdone).
      * unfold in_work in *. cbn [workers threadPool_ s1]. rewrite Hb in Hn. cbn in Hn. lia.
      * by rewrite (Hlen s1).
      * apply Hp. split; apply H.
      * exists (Finish i :: es), s'. split; [by constructor |]. split; [| done]. cbn [run perform]. rewrite Ei, Er. exact Hrun.
Qed.

(** C32: The requests are answered, whatever the number of threads, none included,
    however they are scheduled, and however the streams of requests of the
    connections are cut and interleaved.  The requests are those the server means
    to serve ([good]): 81 characters, an identifier of at most 17, and no colon or
    line end where it would be misread.  What has been sent on an open connection,
    and the answers the pool still owes it, are the answers to its requests, each
    once and under its identifier, in some order; in the order of the requests if
    there is at most one thread.  The pool can always finish, and then everything
    is sent; without threads it owes nothing. *)
Theorem sudoku_pool_answers n es :
  Forall good_event es -> (forall c, stream c es = concat (map enc (reqs c))) ->
  safe (run es (Server_start n)) (fun s =>
    (forall c x, conns s !! c = Some x -> connected x = true ->
       holds [] (input x)
       /\ exists replies, Forall2 answers (reqs c) replies
            /\ sent x ++ map answer (pending c s) ≡ₚ replies
            /\ ((n <= 1)%nat -> sent x ++ map answer (pending c s) = replies))
    /\ (n = 0%nat -> forall c, pending c s = [])
    /\ exists es' s', Forall (fun e => match e with Take _ | Finish _ => True | _ => False end) es'
         /\ run es' s = Ok s' /\ forall c, pending c s' = []).
Proof using Hreqs.
  intros Hgood Hes. destruct (run es (Server_start n)) as [s | f] eqn:E.
  2: { pose proof (pool_run_inv es [] _ Hgood ltac:(rewrite app_nil_r; by apply (start_inv n))) as Hf. by rewrite E in Hf. }
  pose proof (pool_run_inv es [] _ Hgood ltac:(rewrite app_nil_r; by apply (start_inv n))) as H. rewrite E in H. cbn [safe] in *.
  pose proof (run_workers _ _ _ E) as Hw. cbn [workers Server_start] in Hw. rewrite length_replicate in Hw.
  assert (Hzero : n = 0%nat -> in_work s = []).
  { intros ->. apply length_zero_iff_nil in Hw. unfold in_work. by rewrite (proj2 (inv_threads _ _ H) Hw), Hw. }
  split; [| split].
  - intros c x Hc Hx. destruct (inv_served _ _ H c x Hc Hx) as (reqs1 & reqs2 & r & replies & H1 & H2 & H3 & H4 & H5 & H6 & H7 & H8).
    cbn [data] in H5. rewrite app_nil_r in H5. destruct reqs2 as [| q reqs2].
    + cbn in H5. subst r. rewrite app_nil_r in H1. rewrite H1. split; [done |]. exists replies. split; [done |]. split; [done |].
      intros Hn. apply H8. lia.
    + pose proof (Hreqs c) as Hg. rewrite H1 in Hg. apply Forall_app in Hg as [_ Hg]. apply Forall_cons in Hg as [Hq _].
      cbn [map concat] in H5. pose proof (next_request q (concat (map enc reqs2)) Hq) as Hgot. congruence.
  - intros Hn c. unfold pending. by rewrite Hzero.
  - destruct n as [| n]; [exists [], s; split; [constructor |]; split; [done | intros c; unfold pending; by rewrite Hzero] |].
    destruct (drains _ s (le_n _) ltac:(lia) H) as (es' & s' & Hes' & Hrun & Hdone). exists es', s'. split; [done |]. split; [done |].
    intros c. unfold pending. by rewrite Hdone.
Qed.
End streams.

Definition demo_reqs (c : Z) : list request := if decide (1 = c) then demo_requests else [].
Definition demo_schedule : list event := Up 1 :: map (Arrive 1) demo_pieces ++ [Take 0; Take 1; Finish 1].

Lemma demo_reqs_good c : Forall good (demo_reqs c).
Proof. unfold demo_reqs. case_decide; [exact demo_good | constructor]. Qed.
Lemma demo_stream c : stream c demo_schedule = concat (map enc (demo_reqs c)).
Proof.
  unfold demo_reqs, demo_schedule. cbn [stream]. case_decide as E; [subst c; vm_compute; reflexivity | reflexivity].
Qed.

Lemma sudoku_pool_answers_witness :
  (forall n, safe (run demo_schedule (Server_start n)) (fun s => forall c x,
     conns s !! c = Some x -> connected x = true -> holds [] (input x)))
  /\ safe (run demo_schedule (Server_start 0)) (fun s => forall c, pending c s = []).
Proof.
  assert (H : forall n, _) by exact (fun n => sudoku_pool_answers demo_reqs demo_reqs_good n demo_schedule
    ltac:(repeat constructor) demo_stream).
  split.
  - intros n. eapply safe_mono; [apply (H n) |]. intros s [Hs _] c x Hc Hx. apply (Hs c x Hc Hx).
  - eapply safe_mono; [apply (H 0%nat) |]. intros s (_ & Hs & _). by apply Hs.
Defined.

(** Without threads the loop answers. *)
Example pool_inline :
  exists s x, run demo_schedule (Server_start 0) = Ok s /\ conns s !! 1 = Some x
    /\ length (sent x) = 2%nat /\ in_work s = [].
Proof. do 2 eexists. split; [vm_compute; reflexivity |]. split_and!; vm_compute; reflexivity. Qed.

(** With two threads the second answer may come first. *)
Lemma pool_reorders :
  exists s x, run demo_schedule (Server_start 2) = Ok s /\ conns s !! 1 = Some x
    /\ sent x = [bs "NoSolution" ++ crlf] /\ length (pending 1 s) = 1%nat.
Proof. do 2 eexists. split; [vm_compute; reflexivity |]. split_and!; vm_compute; reflexivity. Qed.

(** The refusal of a bad request shuts the connection down at once, and the
    answers to the good requests before it, which the pool still has, are
    thrown away; the server without a pool sends them first. *)
Definition good_then_bad : list byte := demo_puzzle ++ crlf ++ demo_puzzle ++ bs "0" ++ crlf.
Theorem pool_bad_request_drops :
  (exists s x, run [Up 1; Arrive 1 good_then_bad; Take 0; Finish 0] (Server_start 1) = Ok s
     /\ conns s !! 1 = Some x /\ sent x = [bs "Bad Request!" ++ crlf] /\ in_work s = [])
  /\ exists b, run_chunks SudokuServer.onMessage [good_then_bad] Buffer_new = Ok ([demo_solution ++ crlf; bs "Bad Request!" ++ crlf], true, b).
Proof.
  split; [do 2 eexists; split; [vm_compute; reflexivity |]; split_and!; vm_compute; reflexivity |].
  eexists. vm_compute. reflexivity.
Qed.
